(* ===== verification/_CoqProject ===== *)
-Q . S2P
Prelude.v
GoBase.v
GoRand.v
AgentTypes.v
AgentRegistry.v
ScenarioMatcher.v
SessionStore.v
ToolValidator.v
Contract.v
ToolProcessor.v
Chaos.v
ResponseGenerator.v
Engine.v
Pipeline.v
PipelineRegistry.v
GoChan.v
LogBroadcaster.v
GoFloat.v
FloatOrder.v
Quota.v
GoStrings.v
Base64.v
Authz.v
AuthCache.v
Validation.v
FilePath.v
Cassette.v
Redaction.v
Replay.v
Pricing.v
LogStore.v
LogWorker.v
Capture.v
LogHandlers.v
StreamCore.v
Streaming.v
AnthropicStream.v
GeminiStream.v
DocumentTypes.v
Runner.v
JsonRpc.v
MCPOutbound.v
MCPServer.v
MCPSessions.v
MCPHttp.v
PipelineValidator.v
AgentValidator.v
DocumentValidators.v
Loader.v
Loading.v
Watcher.v
AdapterCore.v
StructuredOutput.v
OpenAIAdapter.v
AnthropicAdapter.v
GeminiAdapter.v
BoundedStore.v
Files.v
Batches.v
Moderations.v
Embeddings.v
TenancyStore.v
TenancyHistory.v
Sso.v
AuditTrail.v
AgentFiles.v
PipelineFiles.v
TenancyHandlers.v
TenancyManagement.v
ResponsesStream.v
Responses.v
