(* ===== verification/Prelude.v ===== *)
(** * MockAgents: a verification development

    MockAgents serves mock LLM endpoints from YAML agent documents.  This library
    models the program under [src/] as pure Rocq functions and step relations and
    proves what its components promise.

    ** The program's parts and their files

    - Foundations.  [Prelude]: automation and generic lemmas.  [GoBase]: the values
      of Go the code uses (int64 wrap-around, float64 as [spec_float] at
      binary64 precision, byte strings, [strings.Contains], dynamic JSON values with
      [reflect.DeepEqual]), maps whose iteration order is a parameter ([MapRange])
      and pointers dereferenced in a heap ([Heap]).  [GoFloat], [FloatOrder]:
      exactness of float64 on integers, and monotone rounding.  [GoStrings],
      [Base64], [GoRand], [GoChan]: [strings] over bytes and UTF-8,
      [encoding/base64], FNV-1a with the PCG generator, channels.  [FilePath]:
      [path/filepath] on slash-separated paths.
    - Data.  [AgentTypes], [DocumentTypes]: the structs of [internal/types].
    - Engine ([internal/engine]).  [AgentRegistry] (agent_registry.go): the catalog of
      agents per tenant and its model index.  [ScenarioMatcher]
      (scenario_matcher.go): the sweep over scenarios, its two caches and the
      captures.  [SessionStore] (state/): sessions and the store, also as a step
      relation over the critical sections of concurrent calls.  [ToolValidator]
      (tool_validator.go) and [ToolProcessor] (tool_processor.go): arguments against
      a schema, one call and a batch.  [Chaos] (chaos.go): injected faults.
      [ResponseGenerator] (response_generator.go).  [Engine] (engine.go) composes
      them: resolve the agent, inject chaos, find the session, match, render, run
      the tools, record the turn.  [Pipeline] (pipeline.go) runs several agents over
      the interface [NodeEngine], which [Pipeline.EngineNodes] discharges with the
      engine; [PipelineRegistry] (pipeline_registry.go) holds the pipelines.
    - Documents ([internal/config], [cmd/mockagents/start.go]).  [Validation]
      (validator.go, yaml_position.go): error accumulation, with the class [Accepts]
      that turns a validator into the predicate it decides.  [PipelineValidator],
      [AgentValidator] (with defaults.go and chaos_presets.go), [DocumentValidators]
      (test suites and MCP servers), [Loader] (loader.go, validate_bytes.go,
      error_reporter.go), [Loading] (cross_document_validator.go and start.go).  [Contract] ([internal/contract]): what consumers see of an agent,
      and the difference of two contracts.  [Runner] ([internal/runner]): test
      suites against agents and pipelines, over [NodeEngine] too.
    - Streams ([internal/streaming]).  [StreamCore] (chunker.go, pacing.go,
      sse_writer.go, finish_reason.go): a monad of effects that can fail at every
      write, sleep and cancellation check, with the calculus [runs] of what a stream
      writes.  [Streaming] (openai.go), [AnthropicStream] (anthropic.go),
      [GeminiStream] (gemini.go): the three formats and the clients that read them.
    - Adapters ([internal/adapter]).  [AdapterCore] (decode.go, token.go, chaos.go,
      hallucination.go, registry.go), [StructuredOutput] (structured_output.go),
      [OpenAIAdapter] (openai.go, azure.go), [AnthropicAdapter], [GeminiAdapter]:
      requests decoded, converted, sent through [Engine], answered as a document or
      as a stream.  [BoundedStore]: the map that forgets its oldest entries, shared
      by [Files] (files.go), [Batches] (batches.go) and [Responses] (responses.go,
      with [ResponsesStream]).  [Moderations] and [Embeddings] draw from [GoRand].
    - Record and replay ([internal/recording], [internal/storage/sqlite.go]).
      [Cassette], [Redaction], [Replay].
    - Interaction logs.  [Pricing] ([internal/pricing]), [LogStore]
      ([internal/storage]), [LogWorker] (log_worker.go, log_pruner.go), [Capture] and
      [LogHandlers] (log_handlers.go, costs_handler.go), [LogBroadcaster]
      (log_broadcaster.go).
    - Tenancy ([internal/tenancy], [internal/server]).  [Authz] (middleware.go,
      types.go, route_authz.go, server.go), [AuthCache] (auth_cache.go), [Quota]
      ([internal/quota], quota_middleware.go), [TenancyStore] (store.go,
      identity_sqlite.go, sessions.go), [TenancyHistory] (its theorem), [Sso]
      (oidc_handlers.go, oidcauth.go): logins through an identity provider, [AuditTrail]
      ([internal/audit]), [TenancyHandlers] (tenancy_handlers.go, quota_handlers.go),
      [TenancyManagement] (the theorem about them).
    - Managing the documents.  [AgentFiles] (agent_write_handlers.go, handlers.go):
      agents read, created, replaced, deleted and reloaded through the API, over the
      registry and the directory of agent files.  [PipelineFiles]
      (pipeline_handlers.go, validate_handler.go): the same for pipelines, with their
      ETags.  [Watcher] (watcher.go): hot reload.
    - The mock MCP server ([internal/mcp]).  [JsonRpc] (jsonrpc.go), [MCPServer]
      (server.go), [MCPOutbound] (bidirectional.go), [MCPSessions] and [MCPHttp]
      (streamable.go, http.go).

    ** What the theorems show

    - Invariants and refinement of state over whole histories of calls: the
      registry's indexes agree with its catalog whatever the map iteration order; a
      subscription, an MCP session and its outbound link are bounded queues that
      count what does not fit; the log store, the log worker, the file and batch
      stores, the response threads, the cassettes and the watcher refine plain lists
      or directories; the directory of agent files mirrors the registry, so that a
      restart serves the agents served before it; a key or session token is accepted exactly when the answers
      given so far leave it valid, whatever the cache holds.
    - Functional behaviour on every branch: registration and removal, matching,
      argument validation, tool calls, whole requests through each adapter,
      pipelines, batches, moderations, embeddings, log capture.
    - Equivalence with a declarative specification: each validator accepts exactly
      the well-formed documents; the caches and the concurrent batch path are
      unobservable; the streamed and the plain answer of an adapter say the same; two
      cycle checks agree; a contract difference is breaking exactly when a promise
      was withdrawn.
    - Composition: documents that pass the validators never make the engine report
      an unknown node, an unknown tool or an invalid pattern, and the agents and
      pipelines they name are found after loading.
    - Safety between tenants: lookups, sessions, live logs, managed routes, and the
      management requests with their audit records; a session token stands for a tenant
      only after a login completed for it.
    - Safety of files: a write that is interrupted leaves the old document or the new
      one; a conditional pipeline update overwrites only what its client has read.
    - Types: a synthesized structured output satisfies its schema.
    - Bounds: latency samples, rate-limit windows, token bucket bursts, batch
      delays, moderation scores, the norm of an embedding, the eviction caps.
    - Round trips: base64, streams reassembled by their clients, recorded and
      replayed exchanges.
    - Termination and liveness: graph runs, validators' searches and test suites
      always answer; a batch is completed once its delay has passed; the log worker
      drains what it accepted.

    ** Conventions, bounds and fuel

    The operations of a type are functions from the state before to the state after
    and the results, in the order of the code.  A lock's critical section is one
    step.  Clock readings and random draws are arguments.  A panic is [None] where
    the file says so.  What lies outside [src/] ([encoding/json], yaml.Node, regexp,
    text/template, go-oidc, x/oauth2, durations, SHA-256, bcrypt, [NormFloat64], math.Log, RFC 3339 texts, quoting,
    case tables, the drivers of databases) is an argument introduced by a class, and
    its laws are named hypotheses where a theorem needs them, with concrete instances
    in the witnesses.

    Fuel is only a means to write a loop: [Pipeline.walk_fuel] (one step per node,
    [runGraph_correct] shows the walk ends), the peeling of [cyclicNodes] (one step
    per node), the depth-first search ([S] of the number of successors) and the
    reachability search ([reach_fuel]) of [PipelineValidator], the string loops of
    [GoStrings] and the chunk loops of [StreamCore] (one step per byte or word),
    [ToolProcessor.hex_width] (16 digits for an int64), [StructuredOutput]'s
    [synth_fuel] and [collect_fuel] (one more than the depth limit of the code), the
    eviction loops of the stores (the length of their order lists).  No theorem holds
    because fuel ran out: exhaustion is a value of its own or is shown not to occur.

    ** Not modelled

    The transport of HTTP; the PostgreSQL variants of the tenancy and identity stores,
    which run the statements of the SQLite ones; the diagnostics of a replay miss and the
    import of other cassette formats; the event-stream and stdio loops of the MCP server; logging and tracing; command lines; the client SDK; the
    repository's tools.  Forwarding by the recording proxy and file watching by the
    operating system are arguments of [Replay] and steps of [Watcher]. *)

From Stdlib Require Export ZArith Lia.
From stdpp Require Export prelude sorting gmap sets fin_maps strings.
Export stdpp.list_relations.list stdpp.list_basics.list stdpp.list_monad.list stdpp.list_misc.list.

(** ** Automation shared by the development *)

Create HintDb mock.

(** [case_all] splits every [match] and [if] of the goal or of the context. *)
Ltac case_all := repeat (case_match; simplify_eq/=; try done).

(** [split_ands] destructs the conjunctions of the context. *)
Ltac split_ands := repeat match goal with H : _ ∧ _ |- _ => destruct H end.

(** [bool_prop] turns the boolean tests the code makes into propositions. *)
Ltac bool_prop :=
  repeat match goal with
  | H : (_ && _) = true |- _ => apply andb_true_iff in H as [? ?]
  | H : (_ || _) = false |- _ => apply orb_false_iff in H as [? ?]
  | H : bool_decide _ = true |- _ => apply bool_decide_eq_true in H
  | H : bool_decide _ = false |- _ => apply bool_decide_eq_false in H
  | H : negb _ = true |- _ => apply negb_true_iff in H
  | H : negb _ = false |- _ => apply negb_false_iff in H
  | H : (_ <? _)%Z = true |- _ => apply Z.ltb_lt in H
  | H : (_ <? _)%Z = false |- _ => apply Z.ltb_ge in H
  | H : (_ <=? _)%Z = true |- _ => apply Z.leb_le in H
  | H : (_ <=? _)%Z = false |- _ => apply Z.leb_gt in H
  | H : (_ =? _)%Z = true |- _ => apply Z.eqb_eq in H
  | H : (_ =? _)%Z = false |- _ => apply Z.eqb_neq in H
  end.

(** ** Sorting by a key *)

Section sort_by.
Context {A K : Type} (key : A → K) (R : relation K).
Context `{!RelDecision R, !Transitive R, !Total R, !AntiSymm (=) R}.

(** The order of [A] a key function induces. *)
Definition by_key (x y : A) : Prop := R (key x) (key y).

#[global] Instance by_key_dec : RelDecision by_key.
Proof. intros x y. unfold by_key. apply _. Defined.
#[global] Instance by_key_trans : Transitive by_key.
Proof. intros x y z. unfold by_key. apply transitivity. Qed.
#[global] Instance by_key_total : Total by_key.
Proof. intros x y. unfold by_key. apply total. exact _. Qed.

(** Go's [sort.Slice] with a comparator on a key: some sorted permutation of
    its input. *)
Definition sort_by (l : list A) : list A := merge_sort by_key l.

Lemma sort_by_perm l : sort_by l ≡ₚ l.
Proof. apply merge_sort_Permutation. Qed.

Lemma sort_by_sorted l : StronglySorted by_key (sort_by l).
Proof. apply StronglySorted_merge_sort; apply _. Qed.

Lemma elem_of_sort_by x l : x ∈ sort_by l ↔ x ∈ l.
Proof. by rewrite sort_by_perm. Qed.

(** When the keys are pairwise different, there is one sorted permutation: the
    instability of [sort.Slice] cannot be observed. *)
Lemma sorted_perm_unique l1 l2 :
  (∀ x y, x ∈ l1 → y ∈ l1 → key x = key y → x = y) →
  StronglySorted by_key l1 → StronglySorted by_key l2 → l1 ≡ₚ l2 → l1 = l2.
Proof.
  intros Hinj Hs1 Hs2 Hp. apply (StronglySorted_unique_strong by_key); [|done..].
  intros x y Hx Hy Hxy Hyx. apply Hinj; [done|by rewrite Hp|]. by apply (anti_symm R).
Qed.
End sort_by.

Lemma StronglySorted_fmap {A K} (key : A → K) (R : relation K) (l : list A) :
  StronglySorted (by_key key R) l → StronglySorted R (key <$> l).
Proof.
  induction 1 as [|x l Hs IH Hall]; simpl; constructor; [done|].
  rewrite Forall_fmap. exact Hall.
Qed.

Lemma and_iff_compat_weak (P Q R : Prop) : (P → Q ↔ R) → P ∧ Q ↔ P ∧ R.
Proof. tauto. Qed.

(** ** Lists *)

Lemma bind_nil_iff {A B} (f : A → list B) (l : list A) :
  l ≫= f = [] ↔ ∀ x, x ∈ l → f x = [].
Proof.
  induction l as [|x l IH]; [split; [intros _ y Hy; by apply elem_of_nil in Hy|done]|].
  rewrite bind_cons, app_nil, IH. split.
  - intros [Hx Hl] y [->|Hy]%elem_of_cons; auto.
  - intros H. split; [apply H; left|]. intros y Hy. apply H. by right.
Qed.

(** A function that is constant on an interval. *)
Lemma fmap_seq_const {A} (f : nat → A) (x : A) j n :
  (∀ i, j ≤ i < j + n → f i = x) → f <$> seq j n = replicate n x.
Proof.
  revert j. induction n as [|n IH]; intros j H; [done|]. simpl.
  rewrite (H j) by lia. f_equal. apply IH. intros i Hi. apply H. lia.
Qed.

Lemma concat_nil_iff {A} (ls : list (list A)) : concat ls = [] ↔ ∀ l, l ∈ ls → l = [].
Proof.
  induction ls as [|l ls IH]; simpl; [split; [intros _ l Hl; by apply elem_of_nil in Hl|done]|].
  rewrite app_nil, IH. setoid_rewrite elem_of_cons. naive_solver.
Qed.

Lemma filter_all {A} (P : A → Prop) `{∀ x, Decision (P x)} (l : list A) : (∀ y, y ∈ l → P y) → filter P l = l.
Proof.
  induction l as [|y l IH]; [done|]. intros Hl. rewrite filter_cons_True by (apply Hl; left). f_equal.
  apply IH. intros z Hz. apply Hl. by right.
Qed.

(** The last elements of a list: what a bounded queue keeps. *)
Definition last_n {A} (n : nat) (l : list A) : list A := drop (length l - n) l.

Lemma last_n_length {A} n (l : list A) : length (last_n n l) ≤ n.
Proof. unfold last_n. rewrite length_drop. lia. Qed.

Lemma last_n_sublist {A} n (l : list A) : last_n n l `sublist_of` l.
Proof. apply sublist_drop. Qed.

Lemma last_n_elem {A} n (l : list A) x : x ∈ last_n n l → x ∈ l.
Proof. intros H. eapply elem_of_submseteq; [exact H|]. apply sublist_submseteq, last_n_sublist. Qed.

Lemma last_n_all {A} n (l : list A) : length l ≤ n → last_n n l = l.
Proof. unfold last_n. intros Hle. by replace (length l - n) with 0 by lia. Qed.

Lemma last_n_drop {A} n (x : A) l : n < length (x :: l) → last_n n (x :: l) = last_n n l.
Proof.
  unfold last_n. intros Hlt. cbn [length] in *. by replace (S (length l) - n) with (S (length l - n)) by lia.
Qed.

(** A loop whose body can fail. *)
Fixpoint fold_opt {S A} (f : S → A → option S) (l : list A) (s : S) : option S :=
  match l with
  | [] => Some s
  | x :: l => match f s x with None => None | Some s => fold_opt f l s end
  end.

(** ** Two-level maps *)

(** Reading [m[k1][k2]] where a missing inner map reads as an empty one. *)
Definition lookup2 {V} (m : gmap string (gmap string V)) (k1 k2 : string) : option V :=
  m !! k1 ≫= λ b, b !! k2.

(** [delete(m[k1], k2)], dropping the inner map when it becomes empty. *)
Definition delete2 {V} (m : gmap string (gmap string V)) (k1 k2 : string)
  : gmap string (gmap string V) :=
  match m !! k1 with
  | None => m
  | Some b =>
      let b' := delete k2 b in
      if decide (b' = ∅) then delete k1 m else <[k1 := b']> m
  end.

(** [m[k1][k2] = v], creating the inner map when it is missing. *)
Definition insert2 {V} (m : gmap string (gmap string V)) (k1 k2 : string) (v : V)
  : gmap string (gmap string V) :=
  <[k1 := <[k2 := v]> (default ∅ (m !! k1))]> m.

(** No inner map is empty. *)
Definition no_empty {V} (m : gmap string (gmap string V)) : Prop :=
  ∀ k b, m !! k = Some b → b ≠ ∅.

Section two_level.
Context {V : Type}.
Implicit Types m : gmap string (gmap string V).

Lemma lookup2_insert2 m k1 k2 j1 j2 v :
  lookup2 (insert2 m k1 k2 v) j1 j2 =
    if decide (j1 = k1 ∧ j2 = k2) then Some v else lookup2 m j1 j2.
Proof.
  unfold lookup2, insert2. destruct (decide (k1 = j1)) as [->|Hne].
  - rewrite lookup_insert_eq. simpl. destruct (decide (k2 = j2)) as [->|Hne2].
    + by rewrite lookup_insert_eq, decide_True.
    + rewrite lookup_insert_ne, decide_False by naive_solver. by destruct (m !! j1).
  - by rewrite lookup_insert_ne, decide_False by naive_solver.
Qed.

Lemma lookup2_delete2 m k1 k2 j1 j2 :
  lookup2 (delete2 m k1 k2) j1 j2 =
    if decide (j1 = k1 ∧ j2 = k2) then None else lookup2 m j1 j2.
Proof.
  unfold lookup2, delete2. destruct (m !! k1) as [b|] eqn:Hb.
  2: { case_decide as Hd; [|done]. destruct Hd as [-> ->]. by rewrite Hb. }
  destruct (decide (k1 = j1)) as [->|Hne]; [rewrite Hb; simpl|].
  - assert (delete k2 b !! j2 = if decide (j1 = j1 ∧ j2 = k2) then None else b !! j2) as Hd.
    { case_decide as Hd; [destruct Hd as [_ ->]; apply lookup_delete_eq|].
      apply lookup_delete_ne. naive_solver. }
    rewrite <-Hd. clear Hd. case_decide as He; [|by rewrite lookup_insert_eq].
    by rewrite lookup_delete_eq, He, lookup_empty.
  - rewrite (decide_False (P := j1 = k1 ∧ _)) by naive_solver.
    case_decide; [by rewrite lookup_delete_ne|by rewrite lookup_insert_ne].
Qed.

Lemma no_empty_insert2 m k1 k2 v : no_empty m → no_empty (insert2 m k1 k2 v).
Proof.
  intros Hm k b. unfold insert2. destruct (decide (k1 = k)) as [->|Hne].
  - rewrite lookup_insert_eq. intros [= <-]. apply insert_non_empty.
  - rewrite lookup_insert_ne by done. apply Hm.
Qed.

Lemma no_empty_delete2 m k1 k2 : no_empty m → no_empty (delete2 m k1 k2).
Proof.
  intros Hm k b. unfold delete2. destruct (m !! k1) as [b1|] eqn:Hb; [|apply Hm].
  case_decide.
  - intros [_ ?]%lookup_delete_Some. by apply (Hm k).
  - intros [[_ <-]|[_ ?]]%lookup_insert_Some; [done|]. by apply (Hm k).
Qed.

Lemma no_empty_empty : no_empty (∅ : gmap string (gmap string V)).
Proof. intros k b. by rewrite lookup_empty. Qed.

(** Two maps without empty inner maps that read the same are equal. *)
Lemma lookup2_eq m1 m2 :
  no_empty m1 → no_empty m2 → (∀ k1 k2, lookup2 m1 k1 k2 = lookup2 m2 k1 k2) → m1 = m2.
Proof.
  intros H1 H2 Heq. apply map_eq. intros k. unfold lookup2 in Heq. specialize (Heq k).
  specialize (H1 k). specialize (H2 k).
  destruct (m1 !! k) as [b1|], (m2 !! k) as [b2|]; simpl in *; [|exfalso..|done].
  - f_equal. by apply map_eq.
  - apply (H1 b1); [done|]. by apply map_empty.
  - apply (H2 b2); [done|]. by apply map_empty.
Qed.
End two_level.

#[export] Hint Resolve no_empty_insert2 no_empty_delete2 no_empty_empty : mock.

(** A list without duplicate keys holds one value per key. *)
Lemma NoDup_fst_inj {A B} (l : list (A * B)) k x y : NoDup l.*1 → (k, x) ∈ l → (k, y) ∈ l → x = y.
Proof.
  intros Hnd [i Hi]%list_elem_of_lookup [j Hj]%list_elem_of_lookup.
  assert (i = j) as ->.
  { apply (NoDup_lookup l.*1 i j k Hnd); by rewrite list_lookup_fmap, ?Hi, ?Hj. }
  congruence.
Qed.

Lemma NoDup_fst_eq {A B} (l : list (A * B)) x y : NoDup l.*1 → x ∈ l → y ∈ l → x.1 = y.1 → x = y.
Proof. destruct x as [k x], y as [k' y]. simpl. intros Hnd Hx Hy ->. f_equal. by eapply NoDup_fst_inj. Qed.
