(* ===== verification/GoBase.v ===== *)
(** The parts of the Go language and its standard library the program uses:
    fixed-width integers, IEEE doubles, byte strings, map iteration in an
    unspecified order, and the dynamic values ([any]) JSON and YAML decode to. *)

From S2P Require Import Prelude.
From Stdlib Require Export SpecFloat.
From stdpp Require Export pretty.

(** ** Integers: [int], [int64] and [time.Duration] are 64-bit two's complement *)

Definition two63 : Z := 9223372036854775808.
Definition two64 : Z := 18446744073709551616.

Definition in_int64 (z : Z) : Prop := (- two63 ≤ z < two63)%Z.

(** The value of an [int64] expression whose exact result is [z]. *)
Definition wrap64 (z : Z) : Z := ((z + two63) mod two64 - two63)%Z.

Lemma wrap64_id z : in_int64 z → wrap64 z = z.
Proof.
  unfold in_int64, wrap64, two63, two64. intros H. rewrite Z.mod_small by lia. lia.
Qed.

Lemma wrap64_in z : in_int64 (wrap64 z).
Proof.
  unfold in_int64, wrap64.
  pose proof (Z.mod_pos_bound (z + two63) two64 ltac:(done)). unfold two63, two64 in *. lia.
Qed.

Lemma wrap64_add_l a b : wrap64 (wrap64 a + b) = wrap64 (a + b).
Proof.
  unfold wrap64. f_equal.
  replace ((a + two63) mod two64 - two63 + b + two63)%Z with ((a + two63) mod two64 + b)%Z by lia.
  rewrite Z.add_mod_idemp_l by done. f_equal. lia.
Qed.

(** Adding to a [uint64] counter is injective over fewer than 2^64 steps. *)
Lemma add_mod_inj a x y :
  (0 ≤ x < two64)%Z → (0 ≤ y < two64)%Z → ((a + x) mod two64 = (a + y) mod two64)%Z → x = y.
Proof.
  intros Hx Hy H. pose proof (Z.div_mod (a + x) two64 ltac:(done)).
  pose proof (Z.div_mod (a + y) two64 ltac:(done)). unfold two64 in *. lia.
Qed.

#[export] Hint Resolve wrap64_in : mock.

(** ** Time: an instant is its monotonic reading in nanoseconds

    [t.Sub(u)] and [time.Since] saturate at the extreme durations. *)
Definition time_sub (t u : Z) : Z := (Z.max (- two63) (Z.min (two63 - 1) (t - u)))%Z.

Definition Millisecond : Z := 1000000.
Definition Second : Z := 1000000000.
Definition Minute : Z := (60 * Second)%Z.
Definition Hour : Z := (60 * Minute)%Z.

(** ** [float64]: the IEEE binary64 format, computed by the standard library's
    executable specification *)

Abbreviation float64 := spec_float.

Definition f64_lt (a b : float64) : bool := SFltb a b.
Definition f64_le (a b : float64) : bool := SFleb a b.
Definition f64_eq (a b : float64) : bool := SFeqb a b.
Definition f64_add (a b : float64) : float64 := SFadd 53 1024 a b.
Definition f64_sub (a b : float64) : float64 := SFsub 53 1024 a b.
Definition f64_mul (a b : float64) : float64 := SFmul 53 1024 a b.
Definition f64_div (a b : float64) : float64 := SFdiv 53 1024 a b.

(** Go's conversion [float64(n)] of an integer. *)
Definition f64_of_Z (n : Z) : float64 := binary_normalize 53 1024 n 0 false.

Definition f64_zero : float64 := S754_zero false.
Definition f64_one : float64 := f64_of_Z 1.

Lemma f64_one_le_pos f : f64_le f64_one f = true → f64_lt f64_zero f = true ∧ f64_le f f64_zero = false.
Proof. by destruct f as [[]|[]| |[] m e]. Qed.

#[export] Instance spec_float_eq_dec : EqDecision spec_float.
Proof. solve_decision. Defined.

(** ** Byte strings *)

Definition str_ltb (a b : string) : bool := String.ltb a b.

(** [strings.HasPrefix(s, p)] and [strings.Contains(s, sub)]. *)
Definition has_prefix (s p : string) : bool := String.prefix p s.

Fixpoint str_contains (s sub : string) : bool :=
  has_prefix s sub ||
  match s with
  | EmptyString => false
  | String _ s' => str_contains s' sub
  end.

(** [strings.HasSuffix(s, p)]. *)
Fixpoint has_suffix (s p : string) : bool :=
  if decide (s = p) then true
  else match s with
       | EmptyString => false
       | String _ s' => has_suffix s' p
       end.

Lemma str_length_app a b : String.length (a +:+ b) = (String.length a + String.length b)%nat.
Proof. induction a as [|c a IH]; simpl; [done|]. by rewrite IH. Qed.

Lemma str_app_assoc a b c : ((a +:+ b) +:+ c)%string = (a +:+ (b +:+ c))%string.
Proof. induction a as [|x a IH]; [done|]. exact (f_equal (String x) IH). Qed.

Lemma str_app_inj_r a b c d : String.length b = String.length d →
  (a +:+ b = c +:+ d)%string → a = c ∧ b = d.
Proof.
  revert c. induction a as [|x a IH]; intros [|y c] Hlen H; simpl in *; [done|..].
  - apply (f_equal String.length) in H. rewrite !str_length_app in H. simpl in H. lia.
  - apply (f_equal String.length) in H. rewrite !str_length_app in H. simpl in H. lia.
  - injection H as -> H. by destruct (IH c Hlen H) as [-> ->].
Qed.

Lemma str_compare_refl a : String.compare a a = Eq.
Proof. pose proof (String.compare_antisym a a) as H. by destruct (String.compare a a). Qed.

Lemma str_ltb_spec a b : str_ltb a b = true ↔ String.le a b ∧ a ≠ b.
Proof.
  unfold str_ltb, String.ltb, String.le, String.leb.
  destruct (String.compare a b) eqn:Hc; simpl; split; intros H; try done.
  - destruct H as [_ H]. by apply String.compare_eq_iff in Hc.
  - split; [done|]. intros ->. by rewrite str_compare_refl in Hc.
  - by destruct H.
Qed.

Lemma has_prefix_spec s p : has_prefix s p = true ↔ ∃ t, s = (p +:+ t)%string.
Proof.
  unfold has_prefix. revert s. induction p as [|c p IH]; intros s; simpl.
  - split; [eauto|]. by destruct s.
  - destruct s as [|d s]; simpl; [split; [done|by intros [t ?]]|].
    destruct (Ascii.ascii_dec c d) as [->|Hne].
    + rewrite IH. split; intros [t Ht]; exists t; [by rewrite Ht|by injection Ht].
    + split; [done|]. intros [t Ht]. by injection Ht.
Qed.

Lemma str_contains_spec s sub :
  str_contains s sub = true ↔ ∃ a b, s = (a +:+ sub +:+ b)%string.
Proof.
  induction s as [|c s IH]; cbn [str_contains]; rewrite orb_true_iff, has_prefix_spec.
  - split.
    + intros [[t Ht]|H]; [|done]. by exists ""%string, t.
    + intros (a & b & H). left. destruct a; [|done]. by exists b.
  - rewrite IH. split.
    + intros [[t Ht]|(a & b & ->)]; [by exists ""%string, t|].
      by exists (String c a), b.
    + intros ([|d a] & b & H); [left; by exists b|]. right. injection H as -> ->. eauto.
Qed.

Lemma str_contains_empty s : str_contains s "" = true.
Proof. apply str_contains_spec. by exists ""%string, s. Qed.

Definition is_ascii (s : string) : Prop :=
  Forall (λ c, (Ascii.nat_of_ascii c < 128)%nat) (String.list_ascii_of_string s).

Definition lower_ascii_char (c : Ascii.ascii) : Ascii.ascii :=
  let n := Ascii.nat_of_ascii c in
  if decide (65 ≤ n ∧ n ≤ 90) then Ascii.ascii_of_nat (n + 32) else c.

Fixpoint lower_ascii (s : string) : string :=
  match s with
  | EmptyString => EmptyString
  | String c s' => String (lower_ascii_char c) (lower_ascii s')
  end.

(** [strings.ToLower]: byte-wise on ASCII strings; elsewhere it follows the
    Unicode case tables, which the model leaves open. *)
Class GoLower := {
  ToLower : string → string;
  ToLower_ascii s : is_ascii s → ToLower s = lower_ascii s
}.

(** The ASCII rule everywhere. *)
Definition ascii_go_lower : GoLower := {| ToLower := lower_ascii; ToLower_ascii s _ := eq_refl |}.

(** ** Iterating over a map

    Go does not specify the order in which [range] visits a map. Every
    definition that ranges over a map takes the order from an instance of this
    class, so a theorem about it holds for every order. *)
Class MapRange := {
  range {V : Type} : gmap string V → list (string * V);
  range_perm {V} (m : gmap string V) : range m ≡ₚ map_to_list m
}.

Section range.
Context `{!MapRange} {V : Type}.
Implicit Types m : gmap string V.

Lemma elem_of_range m k v : (k, v) ∈ range m ↔ m !! k = Some v.
Proof. by rewrite range_perm, elem_of_map_to_list. Qed.

Lemma NoDup_fst_range m : NoDup (range m).*1.
Proof. rewrite range_perm. apply NoDup_fst_map_to_list. Qed.

Lemma NoDup_range m : NoDup (range m).
Proof. rewrite range_perm. apply NoDup_map_to_list. Qed.
End range.

(** The order of the map library, used to evaluate definitions. *)
Definition canonical_range : MapRange :=
  {| range V m := map_to_list m; range_perm V m := reflexivity _ |}.

(** Its reverse, a second order to test independence with. *)
Definition reverse_range : MapRange.
Proof.
  refine {| range V m := reverse (map_to_list m) |}.
  intros V m. apply reverse_Permutation.
Defined.

(** The order in which a set of pointers is visited, which Go leaves open. *)
Class SetRange := {
  visit : gset nat → list nat;
  visit_perm s : visit s ≡ₚ elements s
}.

Lemma elem_of_visit `{!SetRange} p s : p ∈ visit s ↔ p ∈ s.
Proof. by rewrite visit_perm, elem_of_elements. Qed.

Lemma NoDup_visit `{!SetRange} s : NoDup (visit s).
Proof. rewrite visit_perm. apply NoDup_elements. Qed.

Definition sorted_range : SetRange := {| visit s := elements s; visit_perm s := reflexivity _ |}.

(** ** Dynamic values

    What [encoding/json] and [yaml.v3] decode into [any]. An object lists its
    members in the order [range] visits them; its keys are pairwise different
    ([value_ok]). *)
#[warnings="-register-all"]
Inductive value :=
| VNil
| VBool (b : bool)
| VInt (n : Z)          (* int *)
| VInt32 (n : Z)        (* int32 *)
| VInt64 (n : Z)        (* int64 *)
| VFloat32 (f : float64) (* float32, by the double it converts to *)
| VFloat64 (f : float64)
| VString (s : string)
| VArr (vs : list value)                 (* []any *)
| VObj (kvs : list (string * value))     (* map[string]any *)
| VStrMap (kvs : list (string * string)). (* map[string]string *)

(** Reading a member: [m[k]] with its presence flag. *)
Definition obj_get {V} (m : list (string * V)) (k : string) : option V :=
  snd <$> find (λ kv, String.eqb kv.1 k) m.

Lemma obj_get_nil {V} k : obj_get (V:=V) [] k = None.
Proof. done. Qed.

Lemma obj_get_cons {V} j v (m : list (string * V)) k :
  obj_get ((j, v) :: m) k = if decide (j = k) then Some v else obj_get m k.
Proof.
  unfold obj_get. simpl. destruct (String.eqb_spec j k) as [->|Hne];
    [by rewrite decide_True|by rewrite decide_False].
Qed.

Lemma obj_get_elem {V} (m : list (string * V)) k v : obj_get m k = Some v → (k, v) ∈ m.
Proof.
  induction m as [|[j w] m IH]; [done|]. rewrite obj_get_cons.
  case_decide as H; [intros [= ->]; subst; left|intros H1; right; auto].
Qed.

Lemma obj_get_Some {V} (m : list (string * V)) k v :
  NoDup m.*1 → obj_get m k = Some v ↔ (k, v) ∈ m.
Proof.
  induction m as [|[j w] m IH]; simpl; [intros _; rewrite elem_of_nil; done|].
  intros [Hnin Hnd]%NoDup_cons. rewrite obj_get_cons, elem_of_cons, <-IH by done.
  case_decide as Hjk; [subst j|].
  - split; [intros [= ->]; auto|]. intros [[= ->]|Hin%IH]; [done| |done].
    exfalso. apply Hnin, list_elem_of_fmap. by exists (k, v).
  - split; [auto|]. intros [[= -> ->]|?]; done.
Qed.

Lemma obj_get_None {V} (m : list (string * V)) k : obj_get m k = None ↔ k ∉ m.*1.
Proof.
  induction m as [|[j w] m IH]; simpl; [rewrite elem_of_nil; naive_solver|].
  rewrite obj_get_cons, elem_of_cons. case_decide; naive_solver.
Qed.

Lemma obj_get_map {V W} (f : V → W) (m : list (string * V)) k :
  obj_get (map (λ kv, (kv.1, f kv.2)) m) k = f <$> obj_get m k.
Proof.
  induction m as [|[j w] m IH]; simpl; [done|]. rewrite !obj_get_cons. by case_decide.
Qed.

Lemma obj_get_is_Some {V} (m : list (string * V)) k : is_Some (obj_get m k) ↔ k ∈ m.*1.
Proof.
  destruct (obj_get m k) as [v|] eqn:Hk.
  - split; [|by eexists]. intros _. apply obj_get_elem in Hk. apply list_elem_of_fmap.
    by exists (k, v).
  - apply obj_get_None in Hk. split; [by intros []|done].
Qed.

Lemma obj_get_perm {V} (m1 m2 : list (string * V)) k :
  NoDup m1.*1 → m1 ≡ₚ m2 → obj_get m1 k = obj_get m2 k.
Proof.
  intros Hnd Hp. assert (NoDup m2.*1) as Hnd2 by (by rewrite <-Hp).
  apply option_eq. intros v. by rewrite !obj_get_Some, Hp.
Qed.

(** Induction over values that reaches the elements and the members. *)
Section value_ind.
Context (P : value → Prop).
Context (Hleaf : ∀ v, (∀ vs, v ≠ VArr vs) → (∀ kvs, v ≠ VObj kvs) → P v).
Context (Harr : ∀ vs, Forall P vs → P (VArr vs)).
Context (Hobj : ∀ kvs, Forall (λ kv, P kv.2) kvs → P (VObj kvs)).

Fixpoint value_nested_ind (v : value) : P v :=
  match v with
  | VArr vs => Harr vs ((fix go vs := match vs return Forall P vs with
                         | [] => Forall_nil_2 _
                         | w :: vs => Forall_cons_2 _ _ _ (value_nested_ind w) (go vs)
                         end) vs)
  | VObj kvs => Hobj kvs ((fix go kvs := match kvs return Forall (λ kv, P kv.2) kvs with
                           | [] => Forall_nil_2 _
                           | kv :: kvs => Forall_cons_2 (λ kv, P kv.2) kv kvs (value_nested_ind kv.2) (go kvs)
                           end) kvs)
  | w => Hleaf w ltac:(discriminate) ltac:(discriminate)
  end.
End value_ind.

(** The type assertions [v.(T)]. *)
Definition as_string (v : value) : option string :=
  match v with VString s => Some s | _ => None end.
Definition as_bool (v : value) : option bool :=
  match v with VBool b => Some b | _ => None end.
Definition as_arr (v : value) : option (list value) :=
  match v with VArr vs => Some vs | _ => None end.
Definition as_obj (v : value) : option (list (string * value)) :=
  match v with VObj kvs => Some kvs | _ => None end.

(** [%T]. *)
Definition type_name (v : value) : string :=
  match v with
  | VNil => "<nil>"
  | VBool _ => "bool"
  | VInt _ => "int"
  | VInt32 _ => "int32"
  | VInt64 _ => "int64"
  | VFloat32 _ => "float32"
  | VFloat64 _ => "float64"
  | VString _ => "string"
  | VArr _ => "[]interface {}"
  | VObj _ => "map[string]interface {}"
  | VStrMap _ => "map[string]string"
  end.

(** [reflect.DeepEqual] of two dynamic values built separately. *)
Fixpoint DeepEqual (a b : value) {struct a} : bool :=
  match a, b with
  | VNil, VNil => true
  | VBool x, VBool y => Bool.eqb x y
  | VInt x, VInt y | VInt32 x, VInt32 y | VInt64 x, VInt64 y => (x =? y)%Z
  | VFloat32 x, VFloat32 y | VFloat64 x, VFloat64 y => f64_eq x y
  | VString x, VString y => String.eqb x y
  | VArr xs, VArr ys =>
      (fix go xs ys := match xs, ys with
       | [], [] => true
       | x :: xs, y :: ys => DeepEqual x y && go xs ys
       | _, _ => false
       end) xs ys
  | VObj xs, VObj ys =>
      Nat.eqb (length xs) (length ys) &&
      forallb (λ kv, match obj_get ys kv.1 with
                     | Some y => DeepEqual kv.2 y
                     | None => false
                     end) xs
  | VStrMap xs, VStrMap ys =>
      Nat.eqb (length xs) (length ys) &&
      forallb (λ kv, match obj_get ys kv.1 with
                     | Some y => String.eqb kv.2 y
                     | None => false
                     end) xs
  | _, _ => false
  end.

(** The keys of an object are pairwise different. *)
Fixpoint value_okb (v : value) : bool :=
  match v with
  | VArr vs => forallb value_okb vs
  | VObj kvs => bool_decide (NoDup kvs.*1) && forallb (λ kv, value_okb kv.2) kvs
  | VStrMap kvs => bool_decide (NoDup kvs.*1)
  | _ => true
  end.

Definition value_ok (v : value) : Prop := value_okb v = true.

Lemma value_okb_ok v : value_okb v = true → value_ok v.
Proof. done. Qed.

Lemma value_ok_arr vs : value_ok (VArr vs) ↔ Forall value_ok vs.
Proof. unfold value_ok. simpl. rewrite forallb_forall, Forall_forall. by setoid_rewrite list_elem_of_In. Qed.

Lemma value_ok_obj kvs :
  value_ok (VObj kvs) ↔ NoDup kvs.*1 ∧ ∀ k v, (k, v) ∈ kvs → value_ok v.
Proof.
  unfold value_ok. simpl. rewrite andb_true_iff, bool_decide_eq_true, forallb_forall.
  f_equiv. split; [intros H k v Hin|intros H [k v] Hin].
  - apply (H (k, v)). by apply list_elem_of_In.
  - apply (H k v). by apply list_elem_of_In.
Qed.

Lemma f64_eq_sym a b : f64_eq a b = f64_eq b a.
Proof.
  unfold f64_eq, SFeqb.
  destruct a as [| | |s1 m1 e1], b as [| | |s2 m2 e2]; simpl; try by repeat case_match.
  change (Pos.compare_cont Eq) with Pos.compare.
  destruct s1, s2; try done; rewrite (Z.compare_antisym e2 e1), (Pos.compare_antisym m2 m1);
    by destruct (e2 ?= e1)%Z, (m2 ?= m1)%positive.
Qed.

(** The keys of two objects of the same size are the same when those of one are
    among those of the other. *)
Lemma same_keys {V W} (xs : list (string * V)) (ys : list (string * W)) :
  NoDup xs.*1 → length xs = length ys → xs.*1 ⊆ ys.*1 → ys.*1 ⊆ xs.*1.
Proof.
  intros Hnd Hlen Hsub. apply NoDup_submseteq in Hsub; [|done].
  apply submseteq_length_Permutation in Hsub; [|by rewrite !length_fmap, Hlen].
  intros k. by rewrite Hsub.
Qed.

(** Objects are equal when they have the same size and every member of one is
    equal to that member of the other, provided equality of members is. *)
Lemma members_sym {V} (eqb : V → V → bool) (xs ys : list (string * V)) :
  NoDup xs.*1 → NoDup ys.*1 →
  (∀ k x y, (k, x) ∈ xs → (k, y) ∈ ys → eqb x y = eqb y x) →
  let covered xs ys := Nat.eqb (length xs) (length ys) &&
    forallb (λ kv, match obj_get ys kv.1 with Some y => eqb kv.2 y | None => false end) xs in
  covered xs ys = true → covered ys xs = true.
Proof.
  intros Hx Hy Heq. cbv zeta. rewrite !andb_true_iff, !Nat.eqb_eq, !forallb_forall.
  intros [Hlen H]. split; [done|]. intros [k y] Hin. apply list_elem_of_In in Hin. simpl.
  assert (∀ k x, (k, x) ∈ xs → ∃ y, obj_get ys k = Some y ∧ eqb x y = true) as Hcov.
  { intros k' x Hk. specialize (H (k', x)). simpl in H. rewrite <-list_elem_of_In in H.
    specialize (H Hk). destruct (obj_get ys k'); [eauto|done]. }
  assert (k ∈ xs.*1) as Hk.
  { apply (same_keys xs ys Hx Hlen).
    - intros k' [[? x] [-> Hx']]%list_elem_of_fmap. destruct (Hcov _ _ Hx') as (y' & Hy' & _).
      apply obj_get_is_Some. by exists y'.
    - apply list_elem_of_fmap. by exists (k, y). }
  apply list_elem_of_fmap in Hk as [[k' x] [Hk' Hxk]]. simpl in Hk'. subst k'.
  destruct (Hcov k x Hxk) as (y' & Hy' & Hxy).
  apply (obj_get_Some ys) in Hin as Hin'; [|done]. assert (y' = y) as -> by congruence.
  rewrite (proj2 (obj_get_Some xs k x Hx) Hxk). by rewrite <-(Heq k x y).
Qed.

Lemma DeepEqual_obj xs ys :
  DeepEqual (VObj xs) (VObj ys) =
    Nat.eqb (length xs) (length ys) &&
    forallb (λ kv, match obj_get ys kv.1 with Some y => DeepEqual kv.2 y | None => false end) xs.
Proof. done. Qed.

(** [DeepEqual] is symmetric on values whose objects have different keys. *)
Lemma DeepEqual_sym a b : value_ok a → value_ok b → DeepEqual a b = DeepEqual b a.
Proof.
  revert b. induction a as [a Hna Hno|xs IH|xs IH] using value_nested_ind; intros b Ha Hb.
  - destruct a as [| | | | | | | |vs|kvs|xs]; destruct b as [| | | | | | | |vs'|kvs'|ys]; try done;
      simpl; try (by rewrite Z.eqb_sym); try (by apply f64_eq_sym); try (by destruct (Hna vs));
      try (by destruct (Hno kvs)).
    + by destruct b0, b.
    + by rewrite String.eqb_sym.
    + unfold value_ok in Ha, Hb. simpl in Ha, Hb. bool_prop.
      apply eq_true_iff_eq. split; apply members_sym; try done; intros; apply String.eqb_sym.
  - destruct b as [| | | | | | | |ys| |]; try done. simpl.
    rewrite value_ok_arr in Ha, Hb.
    revert ys Hb. induction IH as [|x xs Hx _ IH']; intros [|y ys] Hb; try done.
    inversion Ha; inversion Hb; subst. rewrite Hx by done. f_equal. by apply IH'.
  - destruct b as [| | | | | | | | |ys|]; try done. rewrite !DeepEqual_obj.
    apply value_ok_obj in Ha as [Hndx Hokx], Hb as [Hndy Hoky].
    rewrite Forall_forall in IH.
    assert (∀ k x y, (k, x) ∈ xs → (k, y) ∈ ys → DeepEqual x y = DeepEqual y x) as Hsym.
    { intros k x y Hx Hy. apply (IH (k, x) Hx); eauto. }
    apply eq_true_iff_eq. split; apply members_sym; try done. intros k x y Hx Hy.
    symmetry. eauto.
Qed.

(** ** Conversions and formatting the language leaves to the implementation *)

(** SHA-256 in hexadecimal. *)
Class Sha256 := sha256_hex : string → string.

(** The integral part of a finite double. *)
Definition f64_trunc (f : float64) : option Z :=
  match f with
  | S754_zero _ => Some 0%Z
  | S754_finite s m e =>
      let mag := if decide (0 ≤ e)%Z then (Z.pos m * 2 ^ e)%Z else (Z.pos m / 2 ^ (- e))%Z in
      Some (if s then (- mag)%Z else mag)
  | S754_infinity _ | S754_nan => None
  end.

(** [int64(f)]: the integral part when an [int64] holds it, otherwise whatever
    the processor answers. *)
Class GoConv := {
  f64_to_int : float64 → Z;
  f64_to_int_range f : in_int64 (f64_to_int f);
  f64_to_int_trunc f n : f64_trunc f = Some n → in_int64 n → f64_to_int f = n
}.

Definition amd64_f64_to_int (f : float64) : Z :=
  match f64_trunc f with
  | Some n => if decide (- two63 ≤ n ∧ n < two63)%Z then n else (- two63)%Z
  | None => (- two63)%Z
  end.

(** The conversion on amd64 answers the least integer out of range. *)
Definition amd64_conv : GoConv.
Proof.
  refine {| f64_to_int := amd64_f64_to_int |}; unfold amd64_f64_to_int, in_int64.
  - intros f. destruct (f64_trunc f) as [n|]; [case_decide; [lia|]|]; unfold two63; lia.
  - intros f n -> Hn. by rewrite decide_True.
Defined.

(** The [fmt] verbs whose output depends on Unicode tables or on the shortest
    decimal form of a double: [%q], [%v] and [%.0f]. *)
Class GoFmt := {
  Quote : string → string;
  Sprint : value → string;
  Fixed0 : float64 → string
}.

(** [%d]. *)
Definition fmt_d (n : Z) : string := pretty n.

(** A crude instance, for evaluating definitions: quotes without escapes. *)
Definition plain_fmt : GoFmt :=
  {| Quote s := (String (Ascii.ascii_of_nat 34) s +:+ String (Ascii.ascii_of_nat 34) "")%string;
     Sprint v := match v with VString s => s | _ => type_name v end;
     Fixed0 f := match f64_trunc f with Some n => fmt_d n | None => "NaN" end |}.

(** A double in canonical form, as every result of IEEE arithmetic is. *)
Definition f64_valid (f : float64) : Prop := valid_binary 53 1024 f = true.

Lemma digits2_pos_bound m : (Z.pos m < 2 ^ Z.pos (digits2_pos m))%Z.
Proof.
  induction m as [m IH|m IH|]; [..|done]; simpl digits2_pos;
    rewrite Pos2Z.inj_succ, Z.pow_succ_r by done; lia.
Qed.

(** Truncating a canonical double between 0 and an integer [n] below 2^52 whose
    double has the exponent [-k]. *)
Lemma f64_trunc_between x m0 k n :
  f64_valid x → f64_le f64_zero x = true → f64_le x (S754_finite false m0 (Z.neg k)) = true →
  Z.pos m0 = (n * 2 ^ Z.pos k)%Z → (2 ^ 53 ≤ n * 2 ^ (Z.pos k + 1))%Z →
  ∃ t, f64_trunc x = Some t ∧ (0 ≤ t ≤ n)%Z.
Proof.
  intros Hv H0 Hle Hm0 Hn. assert (0 < 2 ^ Z.pos k)%Z as Hp by (apply Z.pow_pos_nonneg; lia).
  destruct x as [s|[]| |[] m e]; try done.
  { exists 0%Z. split; [done|]. nia. }
  assert (Z.pos m < 2 ^ 53)%Z as Hm.
  { unfold f64_valid, valid_binary, bounded, canonical_mantissa in Hv.
    apply andb_true_iff in Hv as [Hc _]. apply Z.eqb_eq in Hc. unfold fexp, SpecFloat.emin in Hc.
    eapply Z.lt_le_trans; [apply digits2_pos_bound|]. apply Z.pow_le_mono_r; lia. }
  unfold f64_le, SFleb, SFcompare in Hle. unfold f64_trunc.
  destruct (Z.compare_spec e (Z.neg k)) as [->|Hlt|]; [|clear Hle|done].
  - rewrite decide_False by lia. eexists. split; [done|]. change (- Z.neg k)%Z with (Z.pos k).
    change (Pos.compare_cont Eq) with Pos.compare in Hle.
    split; [apply Z.div_pos; lia|]. apply Z.div_le_upper_bound; [done|].
    destruct (Pos.compare_spec m m0); [subst..|done]; lia.
  - rewrite decide_False by lia. eexists. split; [done|].
    assert (0 < 2 ^ (- e))%Z by (apply Z.pow_pos_nonneg; lia).
    split; [apply Z.div_pos; lia|]. apply Z.div_le_upper_bound; [done|].
    transitivity (2 ^ (Z.pos k + 1) * n)%Z; [lia|]. apply Z.mul_le_mono_nonneg_r; [nia|].
    apply Z.pow_le_mono_r; lia.
Qed.

Lemma f64_pos_not_lt m1 e1 m2 e2 :
  f64_lt (S754_finite false m1 e1) (S754_finite false m2 e2) = false →
  f64_le (S754_finite false m2 e2) (S754_finite false m1 e1) = true.
Proof.
  unfold f64_lt, f64_le, SFltb, SFleb, SFcompare.
  change (Pos.compare_cont Eq) with Pos.compare.
  rewrite (Z.compare_antisym e1 e2), (Pos.compare_antisym m1 m2).
  by destruct (e1 ?= e2)%Z, (m1 ?= m2)%positive.
Qed.
