(* ===== verification/GoRand.v ===== *)
(** The deterministic randomness of the endpoints that need no engine: [hash/fnv]'s
    64-bit FNV-1a and the generator of [math/rand/v2] it seeds. *)

From S2P Require Import Prelude GoBase.

(** ** Hashes *)

Definition fnv_offset : Z := 14695981039346656037.
Definition fnv_prime : Z := 1099511628211.

Fixpoint fnv_write (s : string) (h : Z) : Z :=
  match s with
  | EmptyString => h
  | String c s => fnv_write s (Z.lxor h (Z.of_nat (Ascii.nat_of_ascii c)) * fnv_prime mod two64)
  end.

Lemma fnv_write_range s h : (0 ≤ h < two64)%Z → (0 ≤ fnv_write s h < two64)%Z.
Proof.
  revert h. induction s as [|c s IH]; intros h Hh; [done|]. cbn [fnv_write]. apply IH, Z.mod_pos_bound. done.
Qed.

(** ** [rand.PCG] *)

(** The second seed the endpoints use. *)
Definition golden_ratio : Z := 0x9e3779b97f4a7c15.

(** The 128 bits of the state, as one number. *)
Definition two128 : Z := 340282366920938463463374607431768211456.

Definition NewPCG (seed1 seed2 : Z) : Z := (seed1 * two64 + seed2)%Z.

(** The multiplier and the increment, with their high and low words. *)
Definition pcg_mul : Z := (2549297995355413924 * two64 + 4865540595714422341)%Z.
Definition pcg_inc : Z := (6364136223846793005 * two64 + 1442695040888963407)%Z.

Definition pcg_next (p : Z) : Z := ((p * pcg_mul + pcg_inc) mod two128)%Z.

Definition Uint64 (p : Z) : Z * Z :=
  let p := pcg_next p in
  let hi := (p / two64)%Z in
  let lo := (p mod two64)%Z in
  let hi := Z.lxor hi (Z.shiftr hi 32) in
  let hi := (hi * 0xda942042e4dd58b5 mod two64)%Z in
  let hi := Z.lxor hi (Z.shiftr hi 48) in
  ((hi * Z.lor lo 1 mod two64)%Z, p).

(** [float64(r.Uint64()<<11>>11) / (1<<53)]. *)
Definition Float64 (p : Z) : float64 * Z :=
  let '(u, p) := Uint64 p in
  (f64_div (f64_of_Z (Z.shiftr (Z.shiftl u 11 mod two64) 11)) (f64_of_Z (2 ^ 53)), p).

(** The first outputs the tests of [math/rand/v2] list for the seeds 1 and 2. *)
Example pcg_outputs :
  let '(a, p) := Uint64 (NewPCG 1 2) in let '(b, p) := Uint64 p in let '(c, _) := Uint64 p in
  [a; b; c] = [0xc4f5a58656eef510; 0x9dcec3ad077dec6c; 0xc8d04605312f8088]%Z.
Proof. by vm_compute. Qed.
