(* ===== verification/AgentTypes.v ===== *)
(** The domain types of [internal/types]: one record per Go struct, field by
    field. A Go slice is a list (nil and empty slices are the same list), a
    pointer to an optional struct is an [option], a [map[string]any] is the list
    of its members (see [GoBase.value]). *)

From S2P Require Import Prelude GoBase.

(** ** internal/types/tool.go *)

Record ToolError := mkToolError { te_Code : string; te_Message : string }.

Record ToolResponseRule := mkToolResponseRule {
  trr_Match : list (string * value);
  trr_Response : value;
  trr_Error : option ToolError;
  trr_IsDefault : bool
}.

Record ToolDefinition := mkToolDefinition {
  td_Name : string;
  td_Description : string;
  td_Parameters : list (string * value);
  td_Responses : list ToolResponseRule;
  td_Validate : bool;
  td_ErrorRate : float64
}.

(** ** internal/types/behavior.go *)

Record MatchRule := mkMatchRule {
  mr_ContentContains : string;
  mr_ContentRegex : string;
  mr_TurnNumber : option Z;
  mr_HasImage : option bool
}.

Record HallucinationSpec := mkHallucinationSpec {
  hs_Type : string; hs_GroundTruth : string; hs_Note : string
}.

Record ToolCallSpec := mkToolCallSpec {
  tcs_Name : string;
  tcs_Arguments : list (string * value);
  tcs_RawArguments : string
}.

Record ScenarioResponse := mkScenarioResponse {
  sr_Content : string;
  sr_ToolCalls : list ToolCallSpec;
  sr_Metadata : list (string * value);
  sr_FinishReason : string;
  sr_Refusal : string;
  sr_Hallucination : option HallucinationSpec
}.

Record Scenario := mkScenario {
  sc_Name : string;
  sc_Match : option MatchRule;
  sc_Response : ScenarioResponse
}.

Record StreamingConfig := mkStreamingConfig {
  st_Enabled : bool;
  st_ChunkSize : Z;
  st_ChunkDelayMs : Z;
  st_TTFTMs : Z;
  st_TokensPerSec : float64;
  st_JitterMs : Z;
  st_TTFTP50Ms : Z; st_TTFTP95Ms : Z;
  st_ITLP50Ms : Z; st_ITLP95Ms : Z;
  st_TruncateAfterChunks : Z;
  st_Malformed : bool
}.

Record ChaosLatencyConfig := mkChaosLatencyConfig {
  cl_Distribution : string;
  cl_MinMs : Z; cl_MaxMs : Z; cl_MeanMs : Z; cl_StddevMs : Z
}.

Record ChaosErrorConfig := mkChaosErrorConfig {
  ce_Rate : float64;
  ce_StatusCode : Z;
  ce_StatusCodes : list Z;
  ce_Timeout : bool;
  ce_TimeoutMs : Z;
  ce_Message : string;
  ce_FailFirst : Z
}.

Record ChaosRateLimitConfig := mkChaosRateLimitConfig { crl_Requests : Z; crl_WindowMs : Z }.

Record ChaosConnectionConfig := mkChaosConnectionConfig {
  cc_Mode : string; cc_Rate : float64; cc_FailFirst : Z
}.

Record ChaosConfig := mkChaosConfig {
  chaos_Enabled : bool;
  chaos_Preset : string;
  chaos_Latency : option ChaosLatencyConfig;
  chaos_Errors : option ChaosErrorConfig;
  chaos_RateLimit : option ChaosRateLimitConfig;
  chaos_Connection : option ChaosConnectionConfig
}.

Record BehaviorConfig := mkBehaviorConfig {
  bc_Scenarios : list Scenario;
  bc_Streaming : option StreamingConfig;
  bc_Chaos : option ChaosConfig
}.

(** ** internal/types/agent.go *)

Record Metadata := mkMetadata {
  md_Name : string; md_Description : string; md_Tags : list string; md_TenantID : string
}.

Record AgentSpec := mkAgentSpec {
  as_Protocol : string;
  as_Model : string;
  as_SystemPrompt : string;
  as_Tools : list ToolDefinition;
  as_Behavior : BehaviorConfig
}.

Record AgentDefinition := mkAgentDefinition {
  ad_APIVersion : string; ad_Kind : string; ad_Metadata : Metadata; ad_Spec : AgentSpec
}.

Definition agent_name (a : AgentDefinition) : string := md_Name (ad_Metadata a).
Definition agent_tenant (a : AgentDefinition) : string := md_TenantID (ad_Metadata a).
Definition agent_model (a : AgentDefinition) : string := as_Model (ad_Spec a).

(** ** internal/types/pipeline.go *)

Definition TopologySequential : string := "sequential".
Definition TopologyParallel : string := "parallel".
Definition TopologyGraph : string := "graph".

Record PipelineAgent := mkPipelineAgent { pa_ID : string; pa_Ref : string }.

Record PipelineEdge := mkPipelineEdge {
  pe_From : string; pe_To : string; pe_WhenContains : string
}.

Record PipelineSpec := mkPipelineSpec {
  ps_Topology : string; ps_Agents : list PipelineAgent; ps_Edges : list PipelineEdge
}.

Record PipelineDefinition := mkPipelineDefinition {
  pd_APIVersion : string; pd_Kind : string; pd_Metadata : Metadata; pd_Spec : PipelineSpec
}.

(** ** Pointers

    The registries hold pointers to definitions nobody mutates after they are
    registered, and compare them by address. A pointer is a location; [Heap]
    gives the struct it points to. *)
Abbreviation loc := positive.

Class Heap (A : Type) := deref : loc → A.

(** A definition that only has a name, a tenant and a model, for examples. *)
Definition bare_agent (name tenant model : string) : AgentDefinition :=
  mkAgentDefinition "mockagents/v1" "Agent" (mkMetadata name "" [] tenant)
    (mkAgentSpec "openai-chat-completions" model "" [] (mkBehaviorConfig [] None None)).
