(* ===== verification/AgentRegistry.v ===== *)
(** The in-memory agent catalog of [internal/engine/agent_registry.go]: agents
    keyed by (owner tenant, name), the tenant-agnostic and the tenant-aware
    model indexes, and the source files. The mutex makes every operation atomic,
    so an operation is a function of the state. *)

From S2P Require Import Prelude GoBase AgentTypes.

(** [AgentRegistry]: every map stores pointers to definitions. *)
Record AgentRegistry := mkAgentRegistry {
  agents : gmap string (gmap string loc);        (* owner tenant -> name -> def *)
  byModel : gmap string loc;                     (* model -> last registrant *)
  byModelTenant : gmap string (gmap string loc); (* model -> owner -> winner *)
  sources : gmap string (gmap string string)     (* owner tenant -> name -> path *)
}.

Inductive RegistryError :=
| ErrAgentMissing (name : string)
| ErrAgentMissingForTenant (name tenantID : string).

Definition set_agents r a := mkAgentRegistry a (byModel r) (byModelTenant r) (sources r).
Definition set_byModel r m := mkAgentRegistry (agents r) m (byModelTenant r) (sources r).
Definition set_byModelTenant r m := mkAgentRegistry (agents r) (byModel r) m (sources r).
Definition set_sources r s := mkAgentRegistry (agents r) (byModel r) (byModelTenant r) s.

Section registry.
Context `{!MapRange} {heap : Heap AgentDefinition}.

Abbreviation name_of p := (agent_name (deref p)).
Abbreviation tenant_of p := (agent_tenant (deref p)).
Abbreviation model_of p := (agent_model (deref p)).

Definition NewAgentRegistry : AgentRegistry := mkAgentRegistry ∅ ∅ ∅ ∅.

(** *** The tenant-aware model index *)

(** The body of the inner loop of [rebuildModelBucket], on the slot of one owner. *)
Definition pick_winner (model : string) (cur : option loc) (def : loc) : option loc :=
  if decide (model_of def = model) then
    match cur with
    | None => Some def
    | Some c => if str_ltb (name_of def) (name_of c) then Some def else Some c
    end
  else cur.

(** The inner loop: the winner among the agents of one owner. *)
Definition bucket_winner (model : string) (byName : gmap string loc) : option loc :=
  foldl (pick_winner model) None (range byName).*2.

(** The outer loop: the map [owners]. *)
Definition model_owners (model : string) (ag : gmap string (gmap string loc))
  : gmap string loc := omap (bucket_winner model) ag.

Definition rebuildModelBucket (model : string) (r : AgentRegistry) : AgentRegistry :=
  if decide (model = "") then r else
  let owners := model_owners model (agents r) in
  if decide (owners = ∅) then set_byModelTenant r (delete model (byModelTenant r))
  else set_byModelTenant r (<[model := owners]> (byModelTenant r)).

(** *** Registration *)

(** Clearing the index slot a definition holds, if it still points at it. *)
Definition clear_byModel (def : loc) (r : AgentRegistry) : AgentRegistry :=
  if decide (model_of def ≠ "" ∧ byModel r !! model_of def = Some def)
  then set_byModel r (delete (model_of def) (byModel r)) else r.

Definition registerLocked (def : loc) (r : AgentRegistry) : AgentRegistry :=
  let owner := tenant_of def in
  let name := name_of def in
  let bucket := default ∅ (agents r !! owner) in
  let '(oldModel, r1) :=
    match bucket !! name with
    | Some prev => (model_of prev, clear_byModel prev r)
    | None => (""%string, r)
    end in
  let r2 := set_agents r1 (<[owner := <[name := def]> bucket]> (agents r1)) in
  let r3 := if decide (model_of def = "") then r2
            else set_byModel r2 (<[model_of def := def]> (byModel r2)) in
  let r4 := rebuildModelBucket (model_of def) r3 in
  if decide (oldModel ≠ "" ∧ oldModel ≠ model_of def)
  then rebuildModelBucket oldModel r4 else r4.

(** [None] is the nil pointer. *)
Definition Register (def : option loc) (r : AgentRegistry) : AgentRegistry :=
  match def with None => r | Some d => registerLocked d r end.

Definition RegisterWithSource (def : option loc) (sourcePath : string)
    (r : AgentRegistry) : AgentRegistry :=
  match def with
  | None => r
  | Some d =>
      let r1 := registerLocked d r in
      if decide (sourcePath = "") then r1
      else set_sources r1 (insert2 (sources r1) (tenant_of d) (name_of d) sourcePath)
  end.

(** *** Removal *)

(** Dropping one (owner, name) entry from every map but the model indexes. *)
Definition drop_entry (owner name : string) (def : loc) (r : AgentRegistry) : AgentRegistry :=
  let r1 := clear_byModel def r in
  let r2 := set_agents r1 (delete2 (agents r1) owner name) in
  set_sources r2 (delete2 (sources r2) owner name).

Definition RemoveForTenant (name tenantID : string) (r : AgentRegistry)
  : RegistryError + AgentRegistry :=
  match lookup2 (agents r) tenantID name with
  | None => inl (ErrAgentMissingForTenant name tenantID)
  | Some def => inr (rebuildModelBucket (model_of def) (drop_entry tenantID name def r))
  end.

(** The sweep of [Remove] over the owners, collecting the models to rebuild. *)
Definition remove_sweep (name : string) (owners : list (string * gmap string loc))
    (acc : AgentRegistry * gmap string unit * bool)
    : AgentRegistry * gmap string unit * bool :=
  foldl (λ acc owner_bucket,
    let '(r, models, found) := acc in
    match owner_bucket.2 !! name with
    | None => acc
    | Some def =>
        (drop_entry owner_bucket.1 name def r,
         if decide (model_of def = "") then models else <[model_of def := tt]> models, true)
    end) acc owners.

Definition Remove (name : string) (r : AgentRegistry) : RegistryError + AgentRegistry :=
  let '(r1, models, found) := remove_sweep name (range (agents r)) (r, ∅, false) in
  if negb found then inl (ErrAgentMissing name)
  else inr (foldl (λ r m, rebuildModelBucket m r) r1 (range models).*1).

(** *** Lookups *)

Definition Get (name : string) (r : AgentRegistry) : option loc := lookup2 (agents r) "" name.

Definition GetByModel (model : string) (r : AgentRegistry) : option loc := byModel r !! model.

Definition Source (name tenantID : string) (r : AgentRegistry) : string :=
  default "" (lookup2 (sources r) tenantID name).

Definition GetOwnedForTenant (name tenantID : string) (r : AgentRegistry) : option loc :=
  lookup2 (agents r) tenantID name.

Definition GetForTenant (name tenantID : string) (r : AgentRegistry) : option loc :=
  match lookup2 (agents r) tenantID name with
  | Some def => Some def
  | None => if decide (tenantID = "") then None else lookup2 (agents r) "" name
  end.

Definition GetByModelForTenant (model tenantID : string) (r : AgentRegistry) : option loc :=
  match byModelTenant r !! model with
  | None => None
  | Some owners =>
      match owners !! tenantID with
      | Some def => Some def
      | None => owners !! ""
      end
  end.

(** *** Listings *)

Definition countLocked (r : AgentRegistry) : nat :=
  foldl (λ n owner_bucket, n + size owner_bucket.2) 0 (range (agents r)).

Definition Count (r : AgentRegistry) : nat := countLocked r.

(** The comparator of [List]: by name, then by owner tenant. *)
Definition name_tenant_le (x y : string * string) : Prop :=
  if decide (x.1 = y.1) then String.le x.2 y.2 else String.le x.1 y.1.

#[global] Instance name_tenant_le_dec : RelDecision name_tenant_le.
Proof. intros x y. unfold name_tenant_le. destruct (decide (x.1 = y.1)); apply _. Defined.

Definition all_agents (r : AgentRegistry) : list loc :=
  range (agents r) ≫= λ owner_bucket, (range owner_bucket.2).*2.

Definition List (r : AgentRegistry) : list loc :=
  sort_by (λ p, (name_of p, tenant_of p)) name_tenant_le (all_agents r).

Definition ListNames (r : AgentRegistry) : list string :=
  let set : gmap string unit :=
    foldl (λ set name, <[name := tt]> set) ∅
      (range (agents r) ≫= λ owner_bucket, (range owner_bucket.2).*1) in
  merge_sort String.le (range set).*1.

Definition mergedForTenantLocked (tenantID : string) (r : AgentRegistry) : gmap string loc :=
  let globals := default ∅ (agents r !! ""%string) in
  if decide (tenantID = "") then globals
  else default ∅ (agents r !! tenantID) ∪ globals.

Definition ListForTenant (tenantID : string) (r : AgentRegistry) : list loc :=
  sort_by (λ p, name_of p) String.le (range (mergedForTenantLocked tenantID r)).*2.

Definition ListNamesForTenant (tenantID : string) (r : AgentRegistry) : list string :=
  merge_sort String.le (range (mergedForTenantLocked tenantID r)).*1.

(** *** Reference definitions *)

(** The lookup by a scan of the agents map: the caller's own least-named agent
    declaring the model, else the global one. *)
Definition scan_by_model (model tenantID : string) (r : AgentRegistry) : option loc :=
  let in_owner o := bucket_winner model (default ∅ (agents r !! o)) in
  match in_owner tenantID with
  | Some def => Some def
  | None => in_owner ""%string
  end.

(** The writes a registry goes through. A failed removal leaves it unchanged. *)
Inductive registry_op :=
| OpRegister (def : option loc)
| OpRegisterWithSource (def : option loc) (sourcePath : string)
| OpRemove (name : string)
| OpRemoveForTenant (name tenantID : string).

Definition registry_step (op : registry_op) (r : AgentRegistry) : AgentRegistry :=
  match op with
  | OpRegister def => Register def r
  | OpRegisterWithSource def path => RegisterWithSource def path r
  | OpRemove name => match Remove name r with inl _ => r | inr r' => r' end
  | OpRemoveForTenant name tenantID =>
      match RemoveForTenant name tenantID r with inl _ => r | inr r' => r' end
  end.

Definition run_ops (ops : list registry_op) : AgentRegistry :=
  foldl (λ r op, registry_step op r) NewAgentRegistry ops.
End registry.

(** ** Well-formed registries *)

Section theory.
Context `{!MapRange} {heap : Heap AgentDefinition}.

Abbreviation name_of p := (agent_name (deref p)).
Abbreviation tenant_of p := (agent_tenant (deref p)).
Abbreviation model_of p := (agent_model (deref p)).

Implicit Types (r : AgentRegistry) (p q def : loc).
Implicit Types (m name owner tenantID : string).

(** Every entry is stored under its definition's own owner and name. *)
Definition keys_ok (ag : gmap string (gmap string loc)) : Prop :=
  ∀ o n p, lookup2 ag o n = Some p → tenant_of p = o ∧ name_of p = n.

(** [p] is the least-named agent of owner [o] that declares model [m]. *)
Definition is_winner (m : string) (ag : gmap string (gmap string loc)) (o : string)
    (p : loc) : Prop :=
  lookup2 ag o (name_of p) = Some p ∧ model_of p = m ∧
  ∀ n q, lookup2 ag o n = Some q → model_of q = m → String.le (name_of p) (name_of q).

(** What the tenant-aware index must hold for a model. *)
Definition index_slot (m : string) (ag : gmap string (gmap string loc))
  : option (gmap string loc) :=
  if decide (m = "" ∨ model_owners m ag = ∅) then None else Some (model_owners m ag).

(** Well-formedness, except that the tenant-aware index may be stale for the
    models [M] (it is while a removal has not rebuilt them yet). *)
Record registry_wf_but (M : string → Prop) (r : AgentRegistry) : Prop := {
  wf_keys : keys_ok (agents r);
  wf_no_empty : no_empty (agents r);
  wf_byModel m p : byModel r !! m = Some p →
    m ≠ "" ∧ model_of p = m ∧ lookup2 (agents r) (tenant_of p) (name_of p) = Some p;
  wf_index m : ¬ M m → byModelTenant r !! m = index_slot m (agents r);
  wf_sources_no_empty : no_empty (sources r);
  wf_sources o n s : lookup2 (sources r) o n = Some s → is_Some (lookup2 (agents r) o n)
}.

Definition registry_wf : AgentRegistry → Prop := registry_wf_but (λ _, False).

(** *** The winner of a bucket *)

Lemma fold_pick_None m cur l :
  foldl (pick_winner m) cur l = None ↔ cur = None ∧ ∀ q, q ∈ l → model_of q ≠ m.
Proof.
  revert cur. induction l as [|x l IH]; intros cur; simpl.
  { split; [|naive_solver]. intros ->. split; [done|]. intros q []%not_elem_of_nil. }
  rewrite IH. unfold pick_winner. setoid_rewrite elem_of_cons.
  case_decide; [|naive_solver]. split; [|naive_solver].
  intros [Hn _]. destruct cur; [by case_match|done].
Qed.

Lemma fold_pick_Some m cur l p :
  foldl (pick_winner m) cur l = Some p →
  (cur = Some p ∨ p ∈ l ∧ model_of p = m) ∧
  (∀ c, cur = Some c → String.le (name_of p) (name_of c)) ∧
  (∀ q, q ∈ l → model_of q = m → String.le (name_of p) (name_of q)).
Proof.
  revert cur. induction l as [|x l IH]; intros cur; simpl.
  { intros ->. split; [by left|]. split; [by intros c [= ->]|]. intros q []%not_elem_of_nil. }
  intros (Hin & Hcur & Hl)%IH. unfold pick_winner in Hin, Hcur.
  setoid_rewrite elem_of_cons. case_decide as Hx.
  2: { split; [naive_solver|]. split; [done|]. intros q [->|Hq] Hm; naive_solver. }
  assert (String.le (name_of p) (name_of x) ∧
    ∀ c, cur = Some c → String.le (name_of p) (name_of c)) as [Hpx Hpc].
  { destruct cur as [c|]; [|split; [by apply Hcur|done]].
    destruct (str_ltb (name_of x) (name_of c)) eqn:Hlt.
    - specialize (Hcur x eq_refl). split; [done|]. intros c' [= <-].
      apply str_ltb_spec in Hlt as [Hle _]. by transitivity (name_of x).
    - specialize (Hcur c eq_refl). split; [|by intros ? [= <-]].
      destruct (total String.le (name_of c) (name_of x)) as [Hle|Hle];
        [by transitivity (name_of c)|].
      destruct (decide (name_of x = name_of c)) as [->|Hne]; [done|].
      by rewrite (proj2 (str_ltb_spec _ _)) in Hlt. }
  split; [|split; [done|by intros q [->|Hq]; auto]].
  destruct Hin as [Hin|[??]]; [|naive_solver].
  destruct cur as [c|]; [case_match|]; naive_solver.
Qed.

Lemma elem_of_range_snd (b : gmap string loc) p : p ∈ (range b).*2 ↔ ∃ n, b !! n = Some p.
Proof.
  rewrite list_elem_of_fmap. split.
  - intros ([n q] & -> & Hin%elem_of_range). eauto.
  - intros [n Hn%elem_of_range]. by exists (n, p).
Qed.

Lemma model_owners_spec m ag o p :
  keys_ok ag → model_owners m ag !! o = Some p ↔ is_winner m ag o p.
Proof.
  intros Hk. unfold model_owners. rewrite lookup_omap, bind_Some.
  assert (∀ b n q, ag !! o = Some b → b !! n = Some q → tenant_of q = o ∧ name_of q = n) as Hkb.
  { intros b n q Hb Hn. apply Hk. unfold lookup2. by rewrite Hb. }
  split.
  - intros (b & Hb & Hw). unfold bucket_winner in Hw. apply fold_pick_Some in Hw.
    destruct Hw as ([?|[Hin Hm]] & _ & Hmin); [done|].
    apply elem_of_range_snd in Hin as [n Hn].
    destruct (Hkb _ _ _ Hb Hn) as [_ <-]. unfold is_winner, lookup2. rewrite Hb. simpl.
    split_and!; [done..|]. intros n q Hq Hmq. apply Hmin; [|done].
    apply elem_of_range_snd. eauto.
  - intros (Hl & Hm & Hmin). unfold lookup2 in *. destruct (ag !! o) as [b|] eqn:Hb; [|done].
    simpl in *. exists b. split; [done|]. unfold bucket_winner.
    destruct (foldl _ _ _) as [w|] eqn:Hw.
    + apply fold_pick_Some in Hw as ([?|[Hin Hmw]] & _ & Hminw); [done|].
      apply elem_of_range_snd in Hin as [n Hn].
      destruct (Hkb _ _ _ eq_refl Hn) as [_ <-].
      assert (name_of w = name_of p) as Heq; [|congruence].
      apply (anti_symm String.le); [|by eapply Hmin].
      apply Hminw; [|done]. apply elem_of_range_snd. eauto.
    + apply fold_pick_None in Hw as [_ Hw]. exfalso. eapply Hw; [|exact Hm].
      apply elem_of_range_snd. eauto.
Qed.

(** A model's slot depends on the entries that declare the model only. *)
Lemma model_owners_ext m ag1 ag2 :
  keys_ok ag1 → keys_ok ag2 →
  (∀ o n p, model_of p = m → lookup2 ag1 o n = Some p ↔ lookup2 ag2 o n = Some p) →
  model_owners m ag1 = model_owners m ag2.
Proof.
  intros Hk1 Hk2 Heq. apply map_eq. intros o. apply option_eq. intros p.
  rewrite !model_owners_spec by done. unfold is_winner.
  split; intros (Hl & Hm & Hmin); (split; [by apply Heq|split; [done|]]);
    intros n q Hq Hmq; apply (Hmin n); by try apply Heq.
Qed.

(** *** Effect of the building blocks on each map *)

Lemma rebuild_agents m r : agents (rebuildModelBucket m r) = agents r.
Proof. unfold rebuildModelBucket. by repeat case_decide. Qed.
Lemma rebuild_byModel m r : byModel (rebuildModelBucket m r) = byModel r.
Proof. unfold rebuildModelBucket. by repeat case_decide. Qed.
Lemma rebuild_sources m r : sources (rebuildModelBucket m r) = sources r.
Proof. unfold rebuildModelBucket. by repeat case_decide. Qed.

Lemma rebuild_index m r m' :
  byModelTenant (rebuildModelBucket m r) !! m' =
    if decide (m = m' ∧ m ≠ "") then index_slot m (agents r) else byModelTenant r !! m'.
Proof.
  unfold rebuildModelBucket, index_slot.
  destruct (decide (m = "")) as [->|Hm]; [by rewrite decide_False by naive_solver|].
  destruct (decide (model_owners m (agents r) = ∅)) as [He|He]; simpl.
  - rewrite lookup_delete. repeat case_decide; naive_solver.
  - rewrite lookup_insert. repeat case_decide; naive_solver.
Qed.

Lemma clear_byModel_agents d r : agents (clear_byModel d r) = agents r.
Proof. unfold clear_byModel. by case_decide. Qed.
Lemma clear_byModel_index d r : byModelTenant (clear_byModel d r) = byModelTenant r.
Proof. unfold clear_byModel. by case_decide. Qed.
Lemma clear_byModel_sources d r : sources (clear_byModel d r) = sources r.
Proof. unfold clear_byModel. by case_decide. Qed.
Lemma clear_byModel_Some d r m p :
  byModel (clear_byModel d r) !! m = Some p → byModel r !! m = Some p.
Proof. unfold clear_byModel. case_decide; simpl; [|done]. by intros [_ ?]%lookup_delete_Some. Qed.
Lemma clear_byModel_ne d r m p :
  registry_wf r → byModel (clear_byModel d r) !! m = Some p → p ≠ d.
Proof.
  intros Hwf Hm ->. pose proof (clear_byModel_Some _ _ _ _ Hm) as Hm'.
  destruct (wf_byModel _ _ Hwf _ _ Hm') as (Hne & Hmod & _). revert Hm.
  unfold clear_byModel. rewrite decide_True by (by rewrite Hmod). simpl.
  by rewrite Hmod, lookup_delete_eq.
Qed.

(** *** Registration *)

Lemma registerLocked_agents d r :
  agents (registerLocked d r) = insert2 (agents r) (tenant_of d) (name_of d) d.
Proof.
  unfold registerLocked, insert2. set (b := default ∅ (agents r !! _)).
  destruct (b !! name_of d) as [prev|]; (case_decide as H1; case_decide as H2);
    rewrite ?rebuild_agents; simpl; rewrite ?clear_byModel_agents; done.
Qed.

Lemma registerLocked_sources d r : sources (registerLocked d r) = sources r.
Proof.
  unfold registerLocked. set (b := default ∅ (agents r !! _)).
  destruct (b !! name_of d) as [prev|]; (case_decide as H1; case_decide as H2);
    rewrite ?rebuild_sources; simpl; rewrite ?clear_byModel_sources; done.
Qed.

Lemma lookup2_default (ag : gmap string (gmap string loc)) o n :
  default ∅ (ag !! o) !! n = lookup2 ag o n.
Proof. unfold lookup2. by destruct (ag !! o). Qed.

(** The registry with the replaced definition's index slot cleared. *)
Lemma registerLocked_byModel_eq d r :
  byModel (registerLocked d r) =
    let r1 := match lookup2 (agents r) (tenant_of d) (name_of d) with
              | Some prev => clear_byModel prev r | None => r end in
    if decide (model_of d = "") then byModel r1 else <[model_of d := d]> (byModel r1).
Proof.
  unfold registerLocked. rewrite lookup2_default.
  destruct (lookup2 _ _ _); repeat case_decide; by rewrite ?rebuild_byModel.
Qed.

Lemma registerLocked_byModel d r m p :
  byModel (registerLocked d r) !! m = Some p →
  m = model_of d ∧ m ≠ "" ∧ p = d ∨
  byModel r !! m = Some p ∧
    (registry_wf r → lookup2 (agents r) (tenant_of d) (name_of d) ≠ Some p).
Proof.
  rewrite registerLocked_byModel_eq. simpl. intros Hm.
  assert (m = model_of d ∧ m ≠ "" ∧ p = d ∨ byModel (match lookup2 (agents r)
    (tenant_of d) (name_of d) with Some prev => clear_byModel prev r | None => r end) !! m
    = Some p) as [?|Hm'].
  { case_decide; [by right|]. apply lookup_insert_Some in Hm. naive_solver. }
  - by left.
  - right. destruct (lookup2 _ _ _) as [prev|]; [|done].
    split; [by eapply clear_byModel_Some|]. intros Hwf [= ->]. by eapply clear_byModel_ne.
Qed.

Lemma keys_ok_insert2 d (ag : gmap string (gmap string loc)) :
  keys_ok ag → keys_ok (insert2 ag (tenant_of d) (name_of d) d).
Proof.
  intros Hk o n p. rewrite lookup2_insert2. case_decide as Hd; [|apply Hk].
  by intros [= <-]; destruct Hd as [-> ->].
Qed.

Lemma keys_ok_delete2 o n (ag : gmap string (gmap string loc)) :
  keys_ok ag → keys_ok (delete2 ag o n).
Proof. intros Hk o' n' p. rewrite lookup2_delete2. case_decide; [done|apply Hk]. Qed.

(** Changing the entry of one (owner, name) leaves the slots of the models
    neither the old nor the new definition declares. *)
Lemma index_slot_ext m ag1 ag2 :
  keys_ok ag1 → keys_ok ag2 →
  (∀ o n p, model_of p = m → lookup2 ag1 o n = Some p ↔ lookup2 ag2 o n = Some p) →
  index_slot m ag1 = index_slot m ag2.
Proof. intros ???. unfold index_slot. by rewrite (model_owners_ext m ag1 ag2). Qed.

Lemma index_slot_empty ag : index_slot "" ag = None.
Proof. unfold index_slot. by rewrite decide_True by auto. Qed.

Lemma registerLocked_index d r m :
  registry_wf r →
  byModelTenant (registerLocked d r) !! m = index_slot m (agents (registerLocked d r)).
Proof.
  intros Hwf. rewrite registerLocked_agents.
  set (ag := insert2 (agents r) (tenant_of d) (name_of d) d).
  assert (∀ m, m ≠ model_of d →
    (∀ p, lookup2 (agents r) (tenant_of d) (name_of d) = Some p → model_of p ≠ m) →
    index_slot m ag = index_slot m (agents r)) as Hother.
  { intros m' Hd Hp. apply index_slot_ext; [apply keys_ok_insert2, Hwf|apply Hwf|].
    intros o n p Hpm. unfold ag. rewrite lookup2_insert2. case_decide as Hon; [|done].
    destruct Hon as [-> ->]. split; [naive_solver|]. intros Hq%Hp. by subst. }
  destruct (decide (m = "")) as [->|Hm].
  { rewrite index_slot_empty, <-(index_slot_empty (agents r)), <-(wf_index _ _ Hwf) by auto.
    unfold registerLocked. rewrite lookup2_default.
    destruct (lookup2 _ _ _); repeat case_decide; rewrite ?rebuild_index;
      rewrite ?(decide_False (P := _ = "" ∧ _)) by naive_solver; simpl;
      by rewrite ?clear_byModel_index. }
  unfold registerLocked. rewrite lookup2_default.
  destruct (lookup2 (agents r) (tenant_of d) (name_of d)) as [prev|] eqn:Hprev.
  - assert (∀ r', agents r' = ag → byModelTenant r' = byModelTenant r →
      byModelTenant
        (if decide (model_of prev ≠ "" ∧ model_of prev ≠ model_of d)
         then rebuildModelBucket (model_of prev) (rebuildModelBucket (model_of d) r')
         else rebuildModelBucket (model_of d) r') !! m = index_slot m ag) as Hfin.
    { intros r' Hag Hidx. case_decide as Hold; rewrite !rebuild_index, ?rebuild_agents, Hag, Hidx;
        repeat case_decide; split_ands; subst; try done; rewrite (wf_index _ _ Hwf) by auto;
        symmetry; apply Hother; try (intros ->; tauto); intros p [= <-] <-;
        destruct (decide (model_of prev = model_of d)) as [E|E]; rewrite ?E in *; tauto. }
    destruct (decide (model_of d = "")); apply Hfin; simpl;
      by rewrite ?clear_byModel_index, ?clear_byModel_agents.
  - rewrite decide_False by naive_solver.
    destruct (decide (model_of d = "")) as [Hd|Hd]; rewrite rebuild_index; simpl.
    + rewrite decide_False by naive_solver. rewrite (wf_index _ _ Hwf) by auto.
      symmetry. apply Hother; naive_solver.
    + case_decide as Hc; [by destruct Hc as [-> _]|]. rewrite (wf_index _ _ Hwf) by auto.
      symmetry. apply Hother; naive_solver.
Qed.

Lemma registerLocked_wf d r : registry_wf r → registry_wf (registerLocked d r).
Proof.
  intros Hwf. split.
  - rewrite registerLocked_agents. apply keys_ok_insert2, Hwf.
  - rewrite registerLocked_agents. apply no_empty_insert2, Hwf.
  - intros m p Hm. rewrite registerLocked_agents, lookup2_insert2.
    destruct (registerLocked_byModel _ _ _ _ Hm) as [(-> & Hne & ->)|[Hm' Hprev]].
    + by rewrite decide_True.
    + destruct (wf_byModel _ _ Hwf _ _ Hm') as (Hne & <- & Hreg). split_and!; [done..|].
      case_decide as Hd; [|done]. destruct Hd as [Ht Hn]. rewrite Ht, Hn in Hreg.
      by destruct (Hprev Hwf).
  - intros m _. by apply registerLocked_index.
  - rewrite registerLocked_sources. apply Hwf.
  - intros o n s. rewrite registerLocked_sources, registerLocked_agents, lookup2_insert2.
    intros Hs%(wf_sources _ _ Hwf). by case_decide.
Qed.

(** *** Removal *)

Lemma wf_but_weaken (M M' : string → Prop) r :
  (∀ m, M m → M' m) → registry_wf_but M r → registry_wf_but M' r.
Proof. intros HM []. split; auto. Qed.

Lemma rebuild_wf M m0 r :
  registry_wf_but M r →
  registry_wf_but (λ m, M m ∧ (m0 = "" ∨ m ≠ m0)) (rebuildModelBucket m0 r).
Proof.
  intros Hwf. split; rewrite ?rebuild_agents, ?rebuild_byModel, ?rebuild_sources; try apply Hwf.
  intros m Hm. rewrite rebuild_index. case_decide as Hd; [by destruct Hd as [-> _]|].
  apply Hwf. intros HM. apply Hm. split; [done|].
  destruct (decide (m0 = "")); [by left|right; intros ->; tauto].
Qed.

Lemma rebuild_all_wf M (ms : list string) r :
  (∀ m, m ∈ ms → m ≠ "") → (∀ m, M m → m ∈ ms) →
  registry_wf_but M r → registry_wf (foldl (λ r m, rebuildModelBucket m r) r ms).
Proof.
  revert M r. induction ms as [|m0 ms IH]; intros M r Hne HM Hwf; simpl.
  { eapply wf_but_weaken; [|done]. intros m Hm%HM. by apply not_elem_of_nil in Hm. }
  eapply IH, rebuild_wf; [..|done].
  - intros m Hm. apply Hne. by right.
  - intros m [Hm%HM [H0|H0]]; [by destruct (Hne m0); [left|]|].
    apply elem_of_cons in Hm as [?|?]; done.
Qed.

Lemma rebuild_all_agents (ms : list string) r :
  agents (foldl (λ r m, rebuildModelBucket m r) r ms) = agents r.
Proof. revert r. induction ms as [|m ms IH]; intros r; simpl; [done|]. by rewrite IH, rebuild_agents. Qed.
Lemma rebuild_all_sources (ms : list string) r :
  sources (foldl (λ r m, rebuildModelBucket m r) r ms) = sources r.
Proof. revert r. induction ms as [|m ms IH]; intros r; simpl; [done|]. by rewrite IH, rebuild_sources. Qed.

Lemma drop_entry_agents o n d r : agents (drop_entry o n d r) = delete2 (agents r) o n.
Proof. unfold drop_entry. simpl. by rewrite clear_byModel_agents. Qed.
Lemma drop_entry_sources o n d r : sources (drop_entry o n d r) = delete2 (sources r) o n.
Proof. unfold drop_entry. simpl. by rewrite clear_byModel_sources. Qed.

Lemma drop_entry_wf M o n d r :
  registry_wf_but M r → lookup2 (agents r) o n = Some d →
  registry_wf_but (λ m, M m ∨ m = model_of d ∧ m ≠ "") (drop_entry o n d r).
Proof.
  intros Hwf Hd. destruct (wf_keys _ _ Hwf _ _ _ Hd) as [Ho Hn].
  split; rewrite ?drop_entry_agents, ?drop_entry_sources.
  - apply keys_ok_delete2, Hwf.
  - apply no_empty_delete2, Hwf.
  - intros m p Hm. change (byModel (clear_byModel d r) !! m = Some p) in Hm.
    destruct (wf_byModel _ _ Hwf m p) as (Hne & Hmod & Hl); [by eapply clear_byModel_Some|].
    split_and!; [done..|]. rewrite lookup2_delete2. case_decide as Hc; [|done].
    destruct Hc as [Ht Hnm]. rewrite Ht, Hnm in Hl.
    assert (p = d) as -> by congruence. exfalso. revert Hm. unfold clear_byModel.
    case_decide as Hb; simpl; [by rewrite Hmod, lookup_delete_eq|].
    intros Hm. apply Hb. by rewrite Hmod.
  - intros m Hm. simpl. rewrite clear_byModel_index.
    destruct (decide (m = "")) as [->|Hne]; [rewrite index_slot_empty, (wf_index _ _ Hwf) by naive_solver|].
    { apply index_slot_empty. }
    rewrite (wf_index _ _ Hwf) by naive_solver.
    apply index_slot_ext; [apply Hwf|apply keys_ok_delete2, Hwf|].
    intros o' n' p Hpm. rewrite lookup2_delete2. case_decide as Hc; [|done].
    destruct Hc as [-> ->]. rewrite Hd. split; [|done]. intros [= ->]. naive_solver.
  - apply no_empty_delete2, Hwf.
  - intros o' n' s. rewrite !lookup2_delete2. case_decide; [done|]. apply Hwf.
Qed.

Definition swept (models : gmap string unit) (m : string) : Prop := is_Some (models !! m).

Lemma remove_sweep_spec n L r models found :
  NoDup L.*1 → (∀ o b, (o, b) ∈ L → lookup2 (agents r) o n = b !! n) →
  (∀ m, swept models m → m ≠ "") → registry_wf_but (swept models) r →
  let '(r', models', found') := remove_sweep n L (r, models, found) in
  registry_wf_but (swept models') r' ∧ (∀ m, swept models' m → m ≠ "") ∧
  (∀ o k, k ≠ n ∨ o ∉ L.*1 → lookup2 (agents r') o k = lookup2 (agents r) o k) ∧
  (∀ o, o ∈ L.*1 → lookup2 (agents r') o n = None) ∧
  (found' = true ↔ found = true ∨ ∃ o, o ∈ L.*1 ∧ is_Some (lookup2 (agents r) o n)).
Proof.
  revert r models found. induction L as [|[o b] L IH]; intros r models found; simpl.
  { intros _ _ Hne Hwf. do 3 (split; [done|]); split.
    - by intros o []%not_elem_of_nil.
    - split; [auto|]. by intros [?|(o & []%not_elem_of_nil & _)]. }
  intros [Hnin Hnd]%NoDup_cons Hread Hne Hwf.
  assert (lookup2 (agents r) o n = b !! n) as Hb by (apply Hread; left).
  destruct (b !! n) as [d|] eqn:Hbn.
  - specialize (IH (drop_entry o n d r)
      (if decide (model_of d = "") then models else <[model_of d := ()]> models) true Hnd).
    unfold remove_sweep in *. destruct (foldl _ _ L) as [[r' models'] found'].
    destruct IH as (Hwf' & Hne' & Hag & Hgone & Hf).
    + intros o' b' Hin. rewrite drop_entry_agents, lookup2_delete2, decide_False;
        [apply Hread; by right|]. intros [-> _]. apply Hnin, list_elem_of_fmap. by exists (o, b').
    + intros m. unfold swept. case_decide; [apply Hne|].
      rewrite lookup_insert. case_decide; [by subst|apply Hne].
    + eapply wf_but_weaken; [|by apply drop_entry_wf]. intros m. unfold swept. simpl.
      case_decide; [naive_solver|]. rewrite lookup_insert. case_decide; naive_solver.
    + do 2 (split; [done|]); split.
      * intros o' k Hok. rewrite elem_of_cons in Hok.
        rewrite Hag, drop_entry_agents, lookup2_delete2, decide_False; [done| |tauto].
        intros [-> ->]. tauto.
      * split; [|split; [|intros _; apply Hf; by left]].
        -- intros o' [->|Ho']%elem_of_cons; [|by apply Hgone].
           destruct (decide (o ∈ L.*1)); [by apply Hgone|].
           by rewrite Hag, drop_entry_agents, lookup2_delete2, decide_True by auto.
        -- intros _. right. exists o. rewrite Hb. split; [by left|by eexists].
  - specialize (IH r models found Hnd). unfold remove_sweep in *.
    destruct (foldl _ _ L) as [[r' models'] found'].
    destruct IH as (Hwf' & Hne' & Hag & Hgone & Hf); [|done..|].
    { intros o' b' Hin. apply Hread. by right. }
    do 2 (split; [done|]); split.
    + intros o' k Hok. rewrite elem_of_cons in Hok. apply Hag. tauto.
    + split.
      { intros o' [->|Ho']%elem_of_cons; [|by apply Hgone].
        destruct (decide (o ∈ L.*1)); [by apply Hgone|]. by rewrite Hag, Hb by auto. }
      rewrite Hf. split.
      * intros [?|(o' & ? & ?)]; [by left|right; exists o'; split; [by right|done]].
      * intros [?|(o' & Ho' & Hs)]; [by left|]. apply elem_of_cons in Ho' as [->|?]; [|right; eauto].
        rewrite Hb in Hs. by destruct Hs.
Qed.

Lemma NewAgentRegistry_wf : registry_wf NewAgentRegistry.
Proof.
  split; simpl; [|done|done| |done|]; try (intros o n p; unfold lookup2; by rewrite lookup_empty).
  intros m _. rewrite lookup_empty. unfold index_slot, model_owners.
  by rewrite omap_empty, decide_True by auto.
Qed.

Lemma RegisterWithSource_wf d path r :
  registry_wf r → registry_wf (RegisterWithSource d path r).
Proof.
  intros Hwf. destruct d as [d|]; [|done]. simpl.
  pose proof (registerLocked_wf d r Hwf) as Hwf'. case_decide as Hp; [done|].
  destruct Hwf' as [Hk Hn Hb Hi Hs Hss]. split; simpl; try done.
  - by apply no_empty_insert2.
  - intros o n s. rewrite lookup2_insert2. case_decide as Hon; [|apply Hss].
    destruct Hon as [-> ->]. intros _. rewrite registerLocked_agents, lookup2_insert2.
    rewrite decide_True by done. by eexists.
Qed.

Lemma RemoveForTenant_inv n t r r' :
  RemoveForTenant n t r = inr r' →
  ∃ d, lookup2 (agents r) t n = Some d ∧ r' = rebuildModelBucket (model_of d) (drop_entry t n d r).
Proof. unfold RemoveForTenant. destruct (lookup2 _ _ _) as [d|]; naive_solver. Qed.

Lemma RemoveForTenant_wf n t r r' :
  registry_wf r → RemoveForTenant n t r = inr r' → registry_wf r'.
Proof.
  intros Hwf (d & Hd & ->)%RemoveForTenant_inv.
  eapply wf_but_weaken; [|by apply rebuild_wf, drop_entry_wf]. intros m. naive_solver.
Qed.

Lemma range_reads r o b :
  (o, b) ∈ range (agents r) → ∀ n, lookup2 (agents r) o n = b !! n.
Proof. intros Hin n. apply elem_of_range in Hin. unfold lookup2. by rewrite Hin. Qed.

Lemma elem_of_range_fst {V} (b : gmap string V) n : n ∈ (range b).*1 ↔ is_Some (b !! n).
Proof.
  rewrite list_elem_of_fmap. split.
  - intros ([k v] & -> & Hin%elem_of_range). by eexists.
  - intros [v Hv%elem_of_range]. by exists (n, v).
Qed.

(** Everything [Remove] does to the catalog. *)
Lemma Remove_spec n r :
  registry_wf r →
  match Remove n r with
  | inl e => e = ErrAgentMissing n ∧ ∀ o, lookup2 (agents r) o n = None
  | inr r' => registry_wf r' ∧ (∃ o, is_Some (lookup2 (agents r) o n)) ∧
      ∀ o k, lookup2 (agents r') o k = if decide (k = n) then None else lookup2 (agents r) o k
  end.
Proof.
  intros Hwf. unfold Remove.
  pose proof (remove_sweep_spec n (range (agents r)) r ∅ false (NoDup_fst_range _)) as Hs.
  destruct (remove_sweep _ _ _) as [[r' models] found]. destruct Hs as (Hwf' & Hne & Hag & Hgone & Hf).
  - intros o b Hin. by apply range_reads.
  - intros m [? []%lookup_empty_Some].
  - eapply wf_but_weaken; [|done]. done.
  - assert (∀ o, is_Some (lookup2 (agents r) o n) → o ∈ (range (agents r)).*1) as Hown.
    { intros o [d Hd]. apply elem_of_range_fst. unfold lookup2 in Hd.
      destruct (agents r !! o); [by eexists|done]. }
    destruct found; simpl.
    + destruct (proj1 Hf eq_refl) as [?|(o & _ & Ho)]; [done|].
      split; [|split; [by exists o|]].
      * eapply rebuild_all_wf; [..|exact Hwf'].
        -- intros m Hm%elem_of_range_fst. by apply Hne.
        -- intros m Hm. by apply elem_of_range_fst.
      * intros o' k. rewrite rebuild_all_agents. case_decide as Hk; [subst k|apply Hag; by left].
        destruct (decide (o' ∈ (range (agents r)).*1)) as [Hin|Hnin]; [by apply Hgone|].
        rewrite Hag by auto. apply eq_None_not_Some. intros Hs. by apply Hnin, Hown.
    + split; [done|]. intros o. apply eq_None_not_Some. intros Hs.
      destruct (Hf) as [_ Hf2]. discriminate Hf2. right. exists o. split; [by apply Hown|done].
Qed.

Lemma registry_step_wf op r : registry_wf r → registry_wf (registry_step op r).
Proof.
  intros Hwf. destruct op as [[d|]|d path|n|n t]; simpl.
  - by apply registerLocked_wf.
  - done.
  - by apply RegisterWithSource_wf.
  - pose proof (Remove_spec n r Hwf) as Hs. destruct (Remove n r); [done|apply Hs].
  - destruct (RemoveForTenant n t r) eqn:He; [done|]. by eapply RemoveForTenant_wf.
Qed.

Lemma run_ops_inv ops : registry_wf (run_ops ops).
Proof.
  unfold run_ops. generalize NewAgentRegistry_wf. generalize NewAgentRegistry.
  induction ops as [|op ops IH]; intros r Hwf; simpl; [done|]. by apply IH, registry_step_wf.
Qed.

(** *** Lookups *)

Lemma scan_winner o m r p :
  registry_wf r →
  bucket_winner m (default ∅ (agents r !! o)) = Some p ↔ is_winner m (agents r) o p.
Proof.
  intros Hwf. rewrite <-model_owners_spec by apply Hwf. unfold model_owners.
  rewrite lookup_omap. destruct (agents r !! o) as [b|] eqn:Hb; simpl; [done|].
  unfold bucket_winner. split; [|done]. intros ([?|[Hin _]] & _ & _)%fold_pick_Some; [done|].
  apply elem_of_range_snd in Hin as [n Hn]. by rewrite lookup_empty in Hn.
Qed.

Lemma index_lookup m t r :
  registry_wf r →
  GetByModelForTenant m t r =
    if decide (m = "") then None else
    match model_owners m (agents r) !! t with
    | Some p => Some p | None => model_owners m (agents r) !! ""%string end.
Proof.
  intros Hwf. unfold GetByModelForTenant. rewrite (wf_index _ _ Hwf) by auto.
  unfold index_slot. case_decide as Hc; case_decide as Hm; try naive_solver.
  destruct Hc as [?|He]; [done|]. by rewrite He, !lookup_empty.
Qed.

Lemma GetForTenant_elem n t r p :
  registry_wf r → GetForTenant n t r = Some p →
  name_of p = n ∧ (tenant_of p = t ∨ tenant_of p = "").
Proof.
  intros Hwf. unfold GetForTenant. destruct (lookup2 (agents r) t n) as [q|] eqn:Hq.
  - intros [= ->]. destruct (wf_keys _ _ Hwf _ _ _ Hq). auto.
  - case_decide; [done|]. intros Hg. destruct (wf_keys _ _ Hwf _ _ _ Hg). auto.
Qed.

Lemma merged_lookup n t r : mergedForTenantLocked t r !! n = GetForTenant n t r.
Proof.
  unfold mergedForTenantLocked, GetForTenant. case_decide as Ht.
  - subst. rewrite lookup2_default. by destruct (lookup2 _ _ _).
  - rewrite lookup_union, !lookup2_default.
    by destruct (lookup2 (agents r) t n), (lookup2 (agents r) ""%string n).
Qed.

Lemma GetByModelForTenant_elem m t r p :
  registry_wf r → GetByModelForTenant m t r = Some p →
  model_of p = m ∧ (tenant_of p = t ∨ tenant_of p = "").
Proof.
  intros Hwf. rewrite index_lookup by done. case_decide; [done|].
  assert (∀ o, model_owners m (agents r) !! o = Some p → model_of p = m ∧ tenant_of p = o) as Ho.
  { intros o (Hl & Hmod & _)%model_owners_spec; [|apply Hwf]. split; [done|].
    by eapply wf_keys. }
  destruct (model_owners m (agents r) !! t) as [q|] eqn:Ht; intros Hp; naive_solver.
Qed.

Lemma elem_of_ListForTenant t r p :
  registry_wf r → p ∈ ListForTenant t r ↔ GetForTenant (name_of p) t r = Some p.
Proof.
  intros Hwf. unfold ListForTenant. rewrite elem_of_sort_by, elem_of_range_snd.
  setoid_rewrite merged_lookup. split; [|eauto].
  intros [n Hn]. by destruct (GetForTenant_elem _ _ _ _ Hwf Hn) as [<- _].
Qed.
End theory.

(** ** Independence from the order maps are visited in *)

Section range_order.
Context {heap : Heap AgentDefinition}.
Implicit Types (r : AgentRegistry) (p q d : loc) (m n t : string).

Lemma clear_byModel_iff M d r m p :
  registry_wf_but (H := canonical_range) M r →
  byModel (clear_byModel d r) !! m = Some p ↔ byModel r !! m = Some p ∧ p ≠ d.
Proof.
  intros Hwf. unfold clear_byModel. case_decide as Hd; simpl.
  - rewrite lookup_delete_Some. split; [|intros [Hm Hp]; split; [|done]].
    + intros [Hne Hm]. split; [done|]. intros ->. by destruct (wf_byModel _ _ Hwf _ _ Hm) as (_ & <- & _).
    + intros <-. naive_solver.
  - split; [|naive_solver]. intros Hm. split; [done|]. intros ->.
    destruct (wf_byModel _ _ Hwf _ _ Hm) as (Hne & <- & _). by apply Hd.
Qed.

(** The parts of a swept registry [remove_sweep_spec] leaves open. *)
Lemma remove_sweep_rest M n L r models found :
  NoDup L.*1 → (∀ o (b : gmap string loc), (o, b) ∈ L → lookup2 (agents r) o n = b !! n) →
  registry_wf_but (H := canonical_range) M r →
  let '(r', _, _) := remove_sweep n L (r, models, found) in
  (∀ m p, byModel r' !! m = Some p ↔
    byModel r !! m = Some p ∧ ¬ (agent_name (deref p) = n ∧ agent_tenant (deref p) ∈ L.*1)) ∧
  no_empty (sources r') ∧
  (∀ o k, k ≠ n ∨ o ∉ L.*1 → lookup2 (sources r') o k = lookup2 (sources r) o k) ∧
  (∀ o, o ∈ L.*1 → lookup2 (sources r') o n = None).
Proof.
  revert M r models found. induction L as [|[o b] L IH]; intros M r models found; simpl.
  { intros _ _ Hwf. split; [|split; [apply Hwf|split; [done|]]].
    - intros m p. split; [|by intros [? _]]. intros Hm. split; [done|]. by intros [_ []%not_elem_of_nil].
    - by intros o []%not_elem_of_nil. }
  intros [Hnin Hnd]%NoDup_cons Hread Hwf.
  assert (lookup2 (agents r) o n = b !! n) as Hb by (apply Hread; left).
  assert (∀ o' b', (o', b') ∈ L → o' ≠ o) as Hoo.
  { intros o' b' Hin ->. apply Hnin, list_elem_of_fmap. by exists (o, b'). }
  destruct (b !! n) as [d|] eqn:Hbn.
  - assert (registry_wf_but (H := canonical_range)
      (λ m, M m ∨ m = agent_model (deref d) ∧ m ≠ "") (drop_entry o n d r)) as Hwf'
      by by apply drop_entry_wf.
    specialize (IH (λ m, M m ∨ m = agent_model (deref d) ∧ m ≠ "") (drop_entry o n d r)
      (if decide (agent_model (deref d) = "") then models
       else <[agent_model (deref d) := ()]> models) true Hnd).
    unfold remove_sweep in *. destruct (foldl _ _ L) as [[r' models'] found'].
    destruct IH as (Hby & Hse & Hsk & Hsn); [|done|].
    { intros o' b' Hin. rewrite drop_entry_agents, lookup2_delete2, decide_False; [by apply Hread; right|].
      intros [-> _]. by eapply Hoo. }
    destruct (wf_keys _ _ Hwf _ _ _ Hb) as [Hto Hna].
    split; [|split; [done|split]].
    + intros m p. rewrite Hby. change (byModel (drop_entry o n d r)) with (byModel (clear_byModel d r)).
      rewrite clear_byModel_iff, elem_of_cons by done. split; [|naive_solver].
      intros [[Hm Hp] Hnot]. split; [done|]. intros [Hn [Ht|?]]; [|naive_solver].
      destruct (wf_byModel _ _ Hwf _ _ Hm) as (_ & _ & Hl). apply Hp. congruence.
    + intros o' k Hok. rewrite elem_of_cons in Hok.
      rewrite Hsk, drop_entry_sources, lookup2_delete2, decide_False; [done| |tauto]. tauto.
    + intros o' [->|Ho']%elem_of_cons; [|by apply Hsn].
      destruct (decide (o ∈ L.*1)); [by apply Hsn|].
      by rewrite Hsk, drop_entry_sources, lookup2_delete2, decide_True by auto.
  - specialize (IH M r models found Hnd). unfold remove_sweep in *.
    destruct (foldl _ _ L) as [[r' models'] found'].
    destruct IH as (Hby & Hse & Hsk & Hsn); [|done|].
    { intros o' b' Hin. apply Hread. by right. }
    split; [|split; [done|split]].
    + intros m p. rewrite Hby, elem_of_cons. split; [|naive_solver].
      intros [Hm Hnot]. split; [done|]. intros [Hn [Ht|?]]; [|naive_solver].
      destruct (wf_byModel _ _ Hwf _ _ Hm) as (_ & _ & Hl). congruence.
    + intros o' k Hok. rewrite elem_of_cons in Hok. apply Hsk. tauto.
    + intros o' [->|Ho']%elem_of_cons; [|by apply Hsn].
      destruct (decide (o ∈ L.*1)); [by apply Hsn|]. rewrite Hsk by auto.
      apply eq_None_not_Some. intros [s Hs]. apply (wf_sources _ _ Hwf) in Hs.
      rewrite Hb in Hs. by destruct Hs.
Qed.

Lemma index_slot_indep (R1 R2 : MapRange) m ag :
  keys_ok ag → index_slot (H := R1) m ag = index_slot (H := R2) m ag.
Proof.
  intros Hk. assert (model_owners (H := R1) m ag = model_owners (H := R2) m ag) as He.
  { apply map_eq. intros o. apply option_eq. intros p. by rewrite !model_owners_spec. }
  unfold index_slot. by rewrite He.
Qed.

Lemma wf_indep (R1 R2 : MapRange) M r :
  registry_wf_but (H := R1) M r → registry_wf_but (H := R2) M r.
Proof.
  intros [Hk ?? Hi ??]. split; try done. intros m Hm.
  rewrite (index_slot_indep R2 R1) by done. by apply Hi.
Qed.

Lemma rebuild_indep (R1 R2 : MapRange) m r :
  keys_ok (agents r) → rebuildModelBucket (H := R1) m r = rebuildModelBucket (H := R2) m r.
Proof.
  intros Hk. unfold rebuildModelBucket.
  assert (model_owners (H := R1) m (agents r) = model_owners (H := R2) m (agents r)) as ->; [|done].
  apply map_eq. intros o. apply option_eq. intros p. by rewrite !model_owners_spec.
Qed.

Lemma Remove_rest `{!MapRange} n r r' :
  registry_wf r → Remove n r = inr r' →
  (∀ m p, byModel r' !! m = Some p ↔ byModel r !! m = Some p ∧ agent_name (deref p) ≠ n) ∧
  no_empty (sources r') ∧
  ∀ o k, lookup2 (sources r') o k = if decide (k = n) then None else lookup2 (sources r) o k.
Proof.
  intros Hwf. unfold Remove.
  pose proof (remove_sweep_rest _ n (range (agents r)) r ∅ false (NoDup_fst_range _)
    (λ o b Hin, range_reads _ _ _ Hin n) (wf_indep _ canonical_range _ _ Hwf)) as Hs.
  destruct (remove_sweep _ _ _) as [[r1 models] found]. destruct Hs as (Hby & Hse & Hsk & Hsn).
  destruct found; simpl; [|done]. intros [= <-].
  assert (∀ o k, is_Some (lookup2 (agents r) o k) → o ∈ (range (agents r)).*1) as Hown.
  { intros o k [d Hd]. apply elem_of_range_fst. unfold lookup2 in Hd.
    destruct (agents r !! o); [by eexists|done]. }
  assert (byModel (foldl (λ r m, rebuildModelBucket m r) r1 (range models).*1) = byModel r1) as ->.
  { clear. generalize (range models).*1. intros ms. revert r1. induction ms as [|m ms IH]; [done|].
    intros r1. simpl. by rewrite IH, rebuild_byModel. }
  rewrite rebuild_all_sources. split; [|split; [done|]].
  - intros m p. rewrite Hby. split; intros [Hm Hnot]; (split; [done|]); [|naive_solver].
    intros Hn. apply Hnot. split; [done|].
    destruct (wf_byModel _ _ Hwf _ _ Hm) as (_ & _ & Hl). eapply Hown. by eexists.
  - intros o k. case_decide as Hk; [subst k|by apply Hsk; left].
    destruct (decide (o ∈ (range (agents r)).*1)) as [?|Hnin]; [by apply Hsn|].
    rewrite Hsk by auto. apply eq_None_not_Some. intros [s Hs].
    apply Hnin, (Hown _ n). by eapply wf_sources.
Qed.

Lemma Remove_indep (R1 R2 : MapRange) n r :
  registry_wf (H := R1) r → Remove (H := R1) n r = Remove (H := R2) n r.
Proof.
  intros Hwf1. assert (registry_wf (H := R2) r) as Hwf2 by by exact (wf_indep R1 R2 _ _ Hwf1).
  pose proof (Remove_spec n r Hwf1) as S1. pose proof (Remove_spec n r Hwf2) as S2.
  destruct (Remove (H := R1) n r) as [e1|r1] eqn:E1, (Remove (H := R2) n r) as [e2|r2] eqn:E2.
  - f_equal. destruct S1, S2. congruence.
  - exfalso. destruct S1 as [_ Hn], S2 as (_ & [o Ho] & _). rewrite Hn in Ho. by destruct Ho.
  - exfalso. destruct S2 as [_ Hn], S1 as (_ & [o Ho] & _). rewrite Hn in Ho. by destruct Ho.
  - f_equal. destruct S1 as (W1 & _ & A1), S2 as (W2 & _ & A2).
    destruct (Remove_rest n r r1 Hwf1 E1) as (B1 & N1 & S1).
    destruct (Remove_rest n r r2 Hwf2 E2) as (B2 & N2 & S2).
    assert (agents r1 = agents r2) as Ha.
    { apply lookup2_eq; [apply W1|apply W2|]. intros o k. by rewrite A1, A2. }
    assert (sources r1 = sources r2) as Hs.
    { apply lookup2_eq; [done..|]. intros o k. by rewrite S1, S2. }
    assert (byModel r1 = byModel r2) as Hb.
    { apply map_eq. intros m. apply option_eq. intros p. by rewrite B1, B2. }
    assert (byModelTenant r1 = byModelTenant r2) as Ht.
    { apply map_eq. intros m. rewrite (wf_index _ _ W1), (wf_index _ _ W2) by auto.
      rewrite Ha. apply index_slot_indep, W2. }
    destruct r1, r2. simpl in *. by subst.
Qed.

Lemma registerLocked_indep (R1 R2 : MapRange) d r :
  registry_wf (H := R1) r → registerLocked (H := R1) d r = registerLocked (H := R2) d r.
Proof.
  intros Hwf. unfold registerLocked. rewrite lookup2_default.
  assert (keys_ok (insert2 (agents r) (agent_tenant (deref d)) (agent_name (deref d)) d)) as Hk
    by apply keys_ok_insert2, Hwf.
  destruct (lookup2 _ _ _); repeat case_decide;
    rewrite !(rebuild_indep R1 R2); rewrite ?rebuild_agents; simpl;
    rewrite ?clear_byModel_agents; first [exact Hk|reflexivity].
Qed.

Lemma registry_step_indep (R1 R2 : MapRange) op r :
  registry_wf (H := R1) r → registry_step (H := R1) op r = registry_step (H := R2) op r.
Proof.
  intros Hwf. destruct op as [[d|]|[d|] path|n|n t]; simpl; try done.
  - by apply registerLocked_indep.
  - by rewrite (registerLocked_indep R1 R2).
  - by rewrite (Remove_indep R1 R2).
  - unfold RemoveForTenant. destruct (lookup2 _ _ _) as [d|]; [|done].
    apply rebuild_indep. rewrite drop_entry_agents. apply keys_ok_delete2, Hwf.
Qed.

Lemma run_ops_indep (R1 R2 : MapRange) ops : run_ops (H := R1) ops = run_ops (H := R2) ops.
Proof.
  unfold run_ops. generalize (NewAgentRegistry_wf (H := R1)). generalize NewAgentRegistry.
  induction ops as [|op ops IH]; intros r Hwf; simpl; [done|].
  rewrite (registry_step_indep R1 R2) by done. apply IH.
  rewrite <-(registry_step_indep R1 R2) by done. by apply registry_step_wf.
Qed.

Lemma ListForTenant_indep (R1 R2 : MapRange) t r :
  registry_wf (H := R1) r → ListForTenant (H := R1) t r = ListForTenant (H := R2) t r.
Proof.
  intros Hwf. unfold ListForTenant.
  apply (sorted_perm_unique (λ p, agent_name (deref p)) String.le); [|apply sort_by_sorted; apply _..|].
  - intros p q. change (p ∈ ListForTenant (H := R1) t r → q ∈ ListForTenant (H := R1) t r →
      agent_name (deref p) = agent_name (deref q) → p = q).
    rewrite !elem_of_ListForTenant by done. intros Hp Hq Heq. congruence.
  - etransitivity; [apply sort_by_perm|]. symmetry. etransitivity; [apply sort_by_perm|].
    apply fmap_Permutation. by rewrite !range_perm.
Qed.
End range_order.

(** ** Properties of the catalog

    The theorems below are about every registry a sequence of operations can
    produce, whatever order maps are visited in. *)

Section properties.
Context `{!MapRange} {heap : Heap AgentDefinition}.

(** C1: every sequence of registrations and removals, successful or not,
    leaves the catalog well formed: entries sit under their own (tenant,
    name), no bucket is empty, the tenant-agnostic index points at registered
    agents of that model, the tenant-aware index holds for every model exactly
    the least-named agent of each owner, and no source outlives its agent. *)
Theorem registry_invariant (ops : list registry_op) : registry_wf (run_ops ops).
Proof. apply run_ops_inv. Qed.

(** the constant-time [GetByModelForTenant] answers as the scan of the
    agents map it replaces does: the caller's own least-named agent declaring
    the model, else the least-named global one; never an agent for the empty
    model. *)
Theorem GetByModelForTenant_is_scan (ops : list registry_op) (model tenantID : string) :
  GetByModelForTenant model tenantID (run_ops ops) =
    if decide (model = "") then None else scan_by_model model tenantID (run_ops ops).
Proof.
  pose proof (run_ops_inv ops) as Hwf. rewrite index_lookup by done. case_decide; [done|].
  assert (∀ o, model_owners model (agents (run_ops ops)) !! o =
    bucket_winner model (default ∅ (agents (run_ops ops) !! o))) as Ho.
  { intros o. apply option_eq. intros p. rewrite scan_winner by done.
    apply model_owners_spec, Hwf. }
  unfold scan_by_model. rewrite !Ho. by destruct (bucket_winner _ _).
Qed.

(** a lookup made for a tenant, by name, by model or as a listing, only
    yields agents that tenant owns or global ones, and the tenant's own agent
    always shadows the global one of the same name. *)
Theorem tenant_isolation (ops : list registry_op) (tenantID key : string) (p : loc) :
  let r := run_ops ops in
  GetForTenant key tenantID r = Some p ∨ GetByModelForTenant key tenantID r = Some p ∨
    p ∈ ListForTenant tenantID r →
  (agent_tenant (deref p) = tenantID ∨ agent_tenant (deref p) = "") ∧
  (∀ own, GetOwnedForTenant key tenantID r = Some own → GetForTenant key tenantID r = Some own).
Proof.
  simpl. pose proof (run_ops_inv ops) as Hwf. intros Hp. split.
  - destruct Hp as [Hp|[Hp|Hp]].
    + by eapply GetForTenant_elem.
    + by eapply GetByModelForTenant_elem in Hp as [_ ?].
    + apply elem_of_ListForTenant in Hp; [|done]. by eapply GetForTenant_elem.
  - intros own Hown. unfold GetForTenant, GetOwnedForTenant in *. by rewrite Hown.
Qed.

(** [RemoveForTenant] fails exactly when the (tenant, name) pair is
    absent; otherwise it removes that entry and its source file, which cannot
    be resurrected, and no other tenant's or other name's entry. *)
Theorem RemoveForTenant_correct (ops : list registry_op) (name tenantID : string) :
  let r := run_ops ops in
  match RemoveForTenant name tenantID r with
  | inl e => e = ErrAgentMissingForTenant name tenantID ∧ GetOwnedForTenant name tenantID r = None
  | inr r' =>
      is_Some (GetOwnedForTenant name tenantID r) ∧ registry_wf r' ∧
      GetOwnedForTenant name tenantID r' = None ∧ Source name tenantID r' = "" ∧
      ∀ n t, (n, t) ≠ (name, tenantID) →
        GetOwnedForTenant n t r' = GetOwnedForTenant n t r ∧ Source n t r' = Source n t r
  end.
Proof.
  simpl. pose proof (run_ops_inv ops) as Hwf. unfold GetOwnedForTenant, Source.
  destruct (RemoveForTenant name tenantID (run_ops ops)) as [e|r'] eqn:He.
  - unfold RemoveForTenant in He. by destruct (lookup2 _ _ _); naive_solver.
  - pose proof (RemoveForTenant_wf _ _ _ _ Hwf He) as Hwf'.
    apply RemoveForTenant_inv in He as (d & Hd & ->).
    rewrite rebuild_agents, rebuild_sources, drop_entry_agents, drop_entry_sources, Hd.
    rewrite !lookup2_delete2, !decide_True by done.
    split; [by eexists|]. do 3 (split; [done|]). intros n t Hnt.
    rewrite !lookup2_delete2, !decide_False by naive_solver. done.
Qed.

(** the listing of a tenant is strictly sorted by name and holds exactly
    the agents the tenant resolves by name; its names are
    [ListNamesForTenant]. *)
Theorem ListForTenant_correct (ops : list registry_op) (tenantID : string) :
  let r := run_ops ops in
  let names := (λ p, agent_name (deref p)) <$> ListForTenant tenantID r in
  StronglySorted String.le names ∧ NoDup names ∧ names = ListNamesForTenant tenantID r ∧
  ∀ p, p ∈ ListForTenant tenantID r ↔
    GetForTenant (agent_name (deref p)) tenantID r = Some p.
Proof.
  simpl. pose proof (run_ops_inv ops) as Hwf. set (r := run_ops ops) in *.
  set (nm := λ p : loc, agent_name (deref p)).
  assert ((range (mergedForTenantLocked tenantID r)).*1 =
    nm <$> (range (mergedForTenantLocked tenantID r)).*2) as Hkeys.
  { rewrite <-list_fmap_compose. apply list_fmap_ext. intros i [n p] Hi. simpl.
    apply list_elem_of_lookup_2, elem_of_range in Hi. rewrite merged_lookup in Hi.
    symmetry. by eapply GetForTenant_elem. }
  assert (nm <$> ListForTenant tenantID r ≡ₚ (range (mergedForTenantLocked tenantID r)).*1) as Hperm.
  { rewrite Hkeys. apply fmap_Permutation. unfold ListForTenant. apply sort_by_perm. }
  assert (StronglySorted String.le (nm <$> ListForTenant tenantID r)) as Hsort.
  { apply StronglySorted_fmap. apply sort_by_sorted; apply _. }
  split; [done|]. split; [rewrite Hperm; apply NoDup_fst_range|]. split.
  - unfold ListNamesForTenant. apply (StronglySorted_unique String.le); [done| |].
    + apply StronglySorted_merge_sort; apply _.
    + by rewrite merge_sort_Permutation.
  - intros p. by apply elem_of_ListForTenant.
Qed.
End properties.

(** the order in which the runtime visits maps cannot be observed: the same
    operations build the same catalog and the same listings under any two
    orders. *)
Theorem map_order_unobservable (heap : Heap AgentDefinition) (R1 R2 : MapRange)
    (ops : list registry_op) (tenantID : string) :
  run_ops (H := R1) ops = run_ops (H := R2) ops ∧
  ListForTenant (H := R1) tenantID (run_ops (H := R1) ops) =
    ListForTenant (H := R2) tenantID (run_ops (H := R2) ops).
Proof.
  split; [apply run_ops_indep|]. rewrite <-(run_ops_indep R1 R2).
  apply ListForTenant_indep, run_ops_inv.
Qed.

(** ** Examples *)

(** A global agent, an agent of tenant t1 with the same name and model, and a
    second global one. *)
Definition ex_heap : Heap AgentDefinition := λ p,
  match p with
  | 1%positive => bare_agent "bot" "" "gpt-4o"
  | 2%positive => bare_agent "bot" "t1" "gpt-4o"
  | _ => bare_agent "aide" "" "gpt-4o"
  end.

Definition ex_ops : list registry_op :=
  [OpRegisterWithSource (Some 1%positive) "bot.yaml"; OpRegister (Some 2%positive);
   OpRegister (Some 3%positive)].

Example ex_by_model :
  let r := run_ops (H := canonical_range) (heap := ex_heap) ex_ops in
  GetByModelForTenant "gpt-4o" "t1" r = Some 2%positive ∧
  GetByModelForTenant "gpt-4o" "t2" r = Some 3%positive ∧
  ListForTenant (H := canonical_range) (heap := ex_heap) "t1" r = [3%positive; 2%positive].
Proof. vm_compute. done. Qed.

Lemma tenant_isolation_witness :
  agent_tenant (ex_heap 2%positive) = "t1" ∨ agent_tenant (ex_heap 2%positive) = "".
Proof.
  refine (proj1 (tenant_isolation (H := canonical_range) (heap := ex_heap) ex_ops "t1" "bot"
    2%positive _)).
  left. vm_compute. reflexivity.
Defined.
