(* ===== verification/ScenarioMatcher.v ===== *)
(** Scenario matching, [internal/engine/scenario_matcher.go]: the sweep over the
    scenarios of an agent, the conditions of a rule, the named captures, and the
    two caches of the matcher. The caches are [sync.Map]s whose entries never
    change once stored; a matcher is the state threaded through the calls. *)

From S2P Require Import Prelude GoBase AgentTypes.

(** ** What the matcher uses of [strings] and [regexp] *)

(** The [regexp] package: a successful match has one entry per group, group 0
    first, as many as there are group names. *)
Class GoRegexp := {
  regexp : Type;
  Compile : string → option regexp;
  SubexpNames : regexp → list string;
  FindStringSubmatch : regexp → string → option (list string);
  FindStringSubmatch_length re s m :
    FindStringSubmatch re s = Some m → length m = length (SubexpNames re)
}.

Section matcher.
Context `{!GoLower, !GoRegexp}.

(** The captures a rule reports: [None] is Go's nil map. *)
Abbreviation captures := (option (gmap string string)).

Record MatchResult := mkMatchResult { res_Scenario : Scenario; res_Captures : captures }.

(** [None] in the regexp cache is the typed nil that marks a bad pattern. The
    warnings are the patterns logged as failing to compile, in order. *)
Record ScenarioMatcher := mkScenarioMatcher {
  regexCache : gmap string (option regexp);
  lowerCache : gmap string string;
  warnings : list string
}.

Definition NewScenarioMatcher : ScenarioMatcher := mkScenarioMatcher ∅ ∅ [].

Definition lowerContains (m : ScenarioMatcher) (s : string) : ScenarioMatcher * string :=
  match lowerCache m !! s with
  | Some v => (m, v)
  | None =>
      let lowered := ToLower s in
      (mkScenarioMatcher (regexCache m) (<[s := lowered]> (lowerCache m)) (warnings m), lowered)
  end.

Definition compileRegex (m : ScenarioMatcher) (pattern : string)
  : ScenarioMatcher * option regexp :=
  match regexCache m !! pattern with
  | Some re => (m, re)
  | None =>
      match Compile pattern with
      | None =>
          (mkScenarioMatcher (<[pattern := None]> (regexCache m)) (lowerCache m)
             (warnings m ++ [pattern]), None)
      | Some re =>
          (mkScenarioMatcher (<[pattern := Some re]> (regexCache m)) (lowerCache m)
             (warnings m), Some re)
      end
  end.

(** The capture loop: group [i > 0] with a name is stored under it, so a
    repeated name keeps its last group; the map is allocated by the first. *)
Definition add_capture (groups : list string) (caps : captures) (i : nat) (name : string)
  : captures :=
  if decide (0 < i ∧ name ≠ "")
  then Some (<[name := default ""%string (groups !! i)]> (default ∅ caps))
  else caps.

Fixpoint capture_loop (groups : list string) (caps : captures) (i : nat) (names : list string)
  : captures :=
  match names with
  | [] => caps
  | name :: names' => capture_loop groups (add_capture groups caps i name) (S i) names'
  end.

(** [matchedSentinel]: matched, nothing captured. *)
Definition matchedSentinel : gmap string string := ∅.

(** [evaluate], condition by condition, from the last one up; [None] is "did
    not match". *)
Definition evaluate_turn (rule : MatchRule) (turnNumber : Z) (caps : captures) : captures :=
  match mr_TurnNumber rule with
  | Some t => if decide (turnNumber ≠ t) then None else Some (default matchedSentinel caps)
  | None => Some (default matchedSentinel caps)
  end.

Definition evaluate_regex (m : ScenarioMatcher) (rule : MatchRule)
    (userMessage : string) (turnNumber : Z) : ScenarioMatcher * captures :=
  if decide (mr_ContentRegex rule = "") then (m, evaluate_turn rule turnNumber None) else
  let '(m, re) := compileRegex m (mr_ContentRegex rule) in
  match re with
  | None => (m, None)
  | Some re =>
      match FindStringSubmatch re userMessage with
      | None => (m, None)
      | Some groups =>
          (m, evaluate_turn rule turnNumber (capture_loop groups None 0 (SubexpNames re)))
      end
  end.

Definition evaluate_contains (m : ScenarioMatcher) (rule : MatchRule)
    (userMessage lowerMessage : string) (turnNumber : Z) : ScenarioMatcher * captures :=
  if decide (mr_ContentContains rule = "") then evaluate_regex m rule userMessage turnNumber else
  let '(m, literal) := lowerContains m (mr_ContentContains rule) in
  if str_contains lowerMessage literal then evaluate_regex m rule userMessage turnNumber
  else (m, None).

Definition evaluate (m : ScenarioMatcher) (rule : MatchRule)
    (userMessage lowerMessage : string) (turnNumber imageCount : Z)
  : ScenarioMatcher * captures :=
  match mr_HasImage rule with
  | Some want =>
      if decide (bool_decide (imageCount > 0)%Z ≠ want) then (m, None)
      else evaluate_contains m rule userMessage lowerMessage turnNumber
  | None => evaluate_contains m rule userMessage lowerMessage turnNumber
  end.

(** The sweep of [MatchWithCaptures]. *)
Fixpoint sweep (m : ScenarioMatcher) (scenarios : list Scenario) (dflt : option Scenario)
    (userMessage lowerMessage : string) (turnNumber imageCount : Z)
  : ScenarioMatcher * option MatchResult :=
  match scenarios with
  | [] => (m, (λ sc, mkMatchResult sc None) <$> dflt)
  | sc :: rest =>
      match sc_Match sc with
      | None =>
          let dflt := match dflt with None => Some sc | Some d => Some d end in
          sweep m rest dflt userMessage lowerMessage turnNumber imageCount
      | Some rule =>
          let '(m, caps) := evaluate m rule userMessage lowerMessage turnNumber imageCount in
          match caps with
          | Some c => (m, Some (mkMatchResult sc (Some c)))
          | None => sweep m rest dflt userMessage lowerMessage turnNumber imageCount
          end
      end
  end.

Definition MatchWithCaptures (m : ScenarioMatcher) (scenarios : list Scenario)
    (userMessage : string) (turnNumber imageCount : Z) : ScenarioMatcher * option MatchResult :=
  sweep m scenarios None userMessage (ToLower userMessage) turnNumber imageCount.

(** [Match]: [None] is [ErrNoMatchingScenario]. *)
Definition Match (m : ScenarioMatcher) (scenarios : list Scenario)
    (userMessage : string) (turnNumber imageCount : Z) : ScenarioMatcher * option Scenario :=
  let '(m, result) := MatchWithCaptures m scenarios userMessage turnNumber imageCount in
  (m, res_Scenario <$> result).

(** ** The conditions of a rule, without the caches *)

Definition image_holds (rule : MatchRule) (imageCount : Z) : Prop :=
  ∀ want, mr_HasImage rule = Some want → want = bool_decide (imageCount > 0)%Z.

Definition contains_holds (rule : MatchRule) (userMessage : string) : Prop :=
  mr_ContentContains rule = "" ∨
  str_contains (ToLower userMessage) (ToLower (mr_ContentContains rule)) = true.

Definition regex_groups (rule : MatchRule) (userMessage : string) : option (list string * list string) :=
  re ← Compile (mr_ContentRegex rule);
  groups ← FindStringSubmatch re userMessage;
  Some (SubexpNames re, groups).

Definition regex_holds (rule : MatchRule) (userMessage : string) : Prop :=
  mr_ContentRegex rule = "" ∨ is_Some (regex_groups rule userMessage).

Definition turn_holds (rule : MatchRule) (turnNumber : Z) : Prop :=
  ∀ t, mr_TurnNumber rule = Some t → t = turnNumber.

(** All conditions a rule declares hold (AND logic). *)
Definition rule_holds (rule : MatchRule) (userMessage : string) (turnNumber imageCount : Z) : Prop :=
  image_holds rule imageCount ∧ contains_holds rule userMessage ∧
  regex_holds rule userMessage ∧ turn_holds rule turnNumber.

(** What a matching rule captures under a name: its last group of that name. *)
Definition captured (rule : MatchRule) (userMessage name : string) : option string :=
  if decide (mr_ContentRegex rule = "" ∨ name = "") then None else
  '(names, groups) ← regex_groups rule userMessage;
  last (omap (λ ng, if decide (ng.1 = name) then Some ng.2 else None)
          (drop 1 (zip names groups))).

(** ** The caches are transparent *)

Definition matcher_ok (m : ScenarioMatcher) : Prop :=
  (∀ s v, lowerCache m !! s = Some v → v = ToLower s) ∧
  (∀ p re, regexCache m !! p = Some re → re = Compile p) ∧
  NoDup (warnings m) ∧
  (∀ p, p ∈ warnings m ↔ regexCache m !! p = Some None).

Lemma NewScenarioMatcher_ok : matcher_ok NewScenarioMatcher.
Proof.
  unfold matcher_ok. simpl. split; [by intros ??; rewrite lookup_empty|].
  split; [by intros ??; rewrite lookup_empty|]. split; [constructor|].
  intros p. by rewrite elem_of_nil, lookup_empty.
Qed.

Lemma lowerContains_ok m s :
  matcher_ok m → ∃ m', lowerContains m s = (m', ToLower s) ∧ matcher_ok m'.
Proof.
  intros (Hl & Hr & Hn & Hw). unfold lowerContains.
  destruct (lowerCache m !! s) as [v|] eqn:Hs.
  - exists m. rewrite (Hl s v Hs). done.
  - eexists. split; [done|]. split; [|done]. simpl. intros s' v.
    intros [[-> <-]|[_ Hv]]%lookup_insert_Some; [done|by apply Hl].
Qed.

Lemma compileRegex_ok m p :
  matcher_ok m → ∃ m', compileRegex m p = (m', Compile p) ∧ matcher_ok m'.
Proof.
  intros (Hl & Hr & Hn & Hw). unfold compileRegex.
  destruct (regexCache m !! p) as [re|] eqn:Hp.
  { exists m. rewrite (Hr p re Hp). done. }
  assert (∀ re, re = Compile p → ∀ p' re', <[p := re]> (regexCache m) !! p' = Some re' →
    re' = Compile p') as Hr'.
  { intros re -> p' re' [[-> <-]|[_ ?]]%lookup_insert_Some; [done|by apply Hr]. }
  assert (p ∉ warnings m) as Hnin by (rewrite Hw; congruence).
  destruct (Compile p) as [re|] eqn:Hc; (eexists; split; [done|]); simpl.
  - split; [done|]. split; [by apply Hr'|]. split; [done|]. intros p'. simpl.
    rewrite Hw, lookup_insert_Some. naive_solver.
  - split; [done|]. split; [by apply Hr'|]. split.
    + simpl. apply NoDup_app. split; [done|]. split; [|apply NoDup_singleton].
      by intros x Hx ->%list_elem_of_singleton.
    + intros p'. simpl. rewrite elem_of_app, Hw, list_elem_of_singleton, lookup_insert_Some.
      naive_solver.
Qed.

(** ** The captures *)

Definition group_named (name : string) (ng : string * string) : option string :=
  if decide (ng.1 = name) then Some ng.2 else None.

Lemma capture_loop_lookup groups names name i caps :
  0 < i → name ≠ "" → length groups = i + length names →
  default ∅ (capture_loop groups caps i names) !! name =
    match last (omap (group_named name) (zip names (drop i groups))) with
    | Some v => Some v
    | None => default ∅ caps !! name
    end.
Proof.
  intros Hi Hname. revert i caps Hi. induction names as [|n names IH]; intros i caps Hi Hlen; [done|].
  simpl in Hlen. destruct (lookup_lt_is_Some_2 groups i) as [g Hg]; [lia|].
  simpl. rewrite IH by lia. rewrite (drop_S groups g i Hg). simpl. unfold group_named at 2. simpl.
  unfold add_capture. rewrite Hg. simpl.
  destruct (decide (n = name)) as [->|Hne].
  - rewrite decide_True by done. rewrite last_cons. destruct (last _); [done|].
    simpl. apply lookup_insert_eq.
  - destruct (last _); [done|]. case_decide; [|done]. simpl. by rewrite lookup_insert_ne.
Qed.

Lemma capture_loop_unnamed groups names i caps :
  default ∅ caps !! "" = None → default ∅ (capture_loop groups caps i names) !! "" = None.
Proof.
  revert i caps. induction names as [|n names IH]; intros i caps Hc; [done|]. simpl.
  apply IH. unfold add_capture. case_decide as Hn; [|done]. simpl.
  rewrite lookup_insert_ne; [done|naive_solver].
Qed.

(** The captures a rule that matches reports. *)
Definition captures_of (rule : MatchRule) (userMessage : string) (c : gmap string string) : Prop :=
  ∀ name, c !! name = captured rule userMessage name.

Lemma capture_loop_captured rule msg re groups :
  mr_ContentRegex rule ≠ "" → Compile (mr_ContentRegex rule) = Some re →
  FindStringSubmatch re msg = Some groups →
  captures_of rule msg (default matchedSentinel (capture_loop groups None 0 (SubexpNames re))).
Proof.
  intros Hr Hc Hf name. unfold captured, matchedSentinel.
  pose proof (FindStringSubmatch_length _ _ _ Hf) as Hlen.
  assert (default ∅ (None : captures) !! name = None) as Hnone by apply lookup_empty.
  destruct (decide (name = "")) as [->|Hname].
  { rewrite decide_True by auto. by apply capture_loop_unnamed. }
  rewrite decide_False by naive_solver. unfold regex_groups. rewrite Hc. simpl. rewrite Hf. simpl.
  destruct (SubexpNames re) as [|n names]; [by destruct groups|].
  destruct groups as [|g groups]; [done|]. simpl.
  rewrite capture_loop_lookup; [|lia|done|by simpl in *; lia]. unfold add_capture.
  rewrite decide_False by lia. rewrite Hnone, drop_0. simpl. rewrite drop_0.
  change (λ ng : string * string, if decide (ng.1 = name) then Some ng.2 else None) with (group_named name).
  by destruct (last _).
Qed.

(** ** One rule *)

(** What an outcome of the evaluation says about a condition and the captures. *)
Definition outcome (P : Prop) (rule : MatchRule) (msg : string)
    (res : ScenarioMatcher * captures) : Prop :=
  matcher_ok res.1 ∧
  match res.2 with Some c => P ∧ captures_of rule msg c | None => ¬ P end.

Lemma evaluate_turn_ok rule turn caps c :
  default matchedSentinel caps = c →
  evaluate_turn rule turn caps = Some c ∧ turn_holds rule turn ∨
  evaluate_turn rule turn caps = None ∧ ¬ turn_holds rule turn.
Proof.
  intros <-. unfold evaluate_turn, turn_holds. destruct (mr_TurnNumber rule) as [t|].
  - case_decide; [right|left]; naive_solver.
  - left. naive_solver.
Qed.

Lemma evaluate_regex_ok m rule msg turn :
  matcher_ok m →
  outcome (regex_holds rule msg ∧ turn_holds rule turn) rule msg (evaluate_regex m rule msg turn).
Proof.
  intros Hm. unfold evaluate_regex. case_decide as Hr.
  - destruct (evaluate_turn_ok rule turn None _ eq_refl) as [[-> Ht]|[-> Ht]];
      (split; [done|]); simpl; [|naive_solver].
    split; [split; [by left|done]|]. intros name. unfold captured.
    rewrite decide_True by auto. apply lookup_empty.
  - destruct (compileRegex_ok m (mr_ContentRegex rule) Hm) as (m' & -> & Hm').
    destruct (Compile (mr_ContentRegex rule)) as [re|] eqn:Hc.
    2: { split; [done|]. intros [[?|[? He]] _]; [done|]. unfold regex_groups in He. by rewrite Hc in He. }
    destruct (FindStringSubmatch re msg) as [groups|] eqn:Hf.
    2: { split; [done|]. intros [[?|[? He]] _]; [done|]. unfold regex_groups in He.
         rewrite Hc in He. simpl in He. by rewrite Hf in He. }
    pose proof (capture_loop_captured rule msg re groups Hr Hc Hf) as Hcap.
    assert (regex_holds rule msg) as Hre.
    { right. unfold regex_groups. rewrite Hc. simpl. rewrite Hf. by eexists. }
    destruct (evaluate_turn_ok rule turn (capture_loop groups None 0 (SubexpNames re)) _ eq_refl)
      as [[-> Ht]|[-> Ht]];
      (split; [done|]); simpl; [done|naive_solver].
Qed.

Lemma outcome_and P Q rule msg res :
  P → outcome Q rule msg res → outcome (P ∧ Q) rule msg res.
Proof. intros HP [Hm Hres]. split; [done|]. destruct res.2; naive_solver. Qed.

Lemma outcome_fail P rule msg m : matcher_ok m → ¬ P → outcome P rule msg (m, None).
Proof. by split. Qed.

Lemma evaluate_ok m rule msg turn images :
  matcher_ok m →
  outcome (rule_holds rule msg turn images) rule msg
    (evaluate m rule msg (ToLower msg) turn images).
Proof.
  intros Hm. unfold evaluate, rule_holds.
  assert (∀ m, matcher_ok m → outcome (contains_holds rule msg ∧ regex_holds rule msg ∧
    turn_holds rule turn) rule msg (evaluate_contains m rule msg (ToLower msg) turn)) as Hcont.
  { clear m Hm. intros m Hm. unfold evaluate_contains. case_decide as Hc.
    - apply outcome_and; [by left|by apply evaluate_regex_ok].
    - destruct (lowerContains_ok m (mr_ContentContains rule) Hm) as (m' & -> & Hm').
      destruct (str_contains _ _) eqn:Hs.
      + apply outcome_and; [by right|by apply evaluate_regex_ok].
      + apply outcome_fail; [done|]. unfold contains_holds. intros [[?|?] _]; congruence. }
  unfold image_holds. destruct (mr_HasImage rule) as [want|].
  - case_decide as Hi.
    + apply outcome_fail; naive_solver.
    + apply outcome_and; [|by apply Hcont]. by intros w [= <-].
  - apply outcome_and; [done|by apply Hcont].
Qed.

(** ** The sweep *)

(** A scenario with a rule that holds; a scenario without a rule is a default. *)
Definition explicit_match (msg : string) (turn images : Z) (sc : Scenario) : Prop :=
  ∃ rule, sc_Match sc = Some rule ∧ rule_holds rule msg turn images.

Definition is_default (sc : Scenario) : Prop := sc_Match sc = None.

(** [sc] is the first element of [l] that satisfies [P]. *)
Definition first_with (P : Scenario → Prop) (l : list Scenario) (sc : Scenario) : Prop :=
  ∃ pre post, l = pre ++ sc :: post ∧ P sc ∧ ∀ x, x ∈ pre → ¬ P x.

Definition match_spec (scenarios : list Scenario) (msg : string) (turn images : Z)
    (result : option MatchResult) : Prop :=
  let explicit := explicit_match msg turn images in
  match result with
  | Some (mkMatchResult sc (Some c)) =>
      first_with explicit scenarios sc ∧
      ∀ rule, sc_Match sc = Some rule → captures_of rule msg c
  | Some (mkMatchResult sc None) =>
      (∀ x, x ∈ scenarios → ¬ explicit x) ∧ first_with is_default scenarios sc
  | None => ∀ x, x ∈ scenarios → ¬ explicit x ∧ ¬ is_default x
  end.

Lemma first_with_cons (P : Scenario → Prop) l x sc :
  ¬ P x → first_with P l sc → first_with P (x :: l) sc.
Proof.
  intros Hx (pre & post & -> & HP & Hpre). exists (x :: pre), post. split; [done|].
  split; [done|]. intros y [->|Hy]%elem_of_cons; auto.
Qed.

Lemma first_with_elem P l sc : first_with P l sc → sc ∈ l ∧ P sc.
Proof. intros (pre & post & -> & HP & _). split; [|done]. apply elem_of_app. right. by left. Qed.

Lemma first_with_unique P l sc1 sc2 : first_with P l sc1 → first_with P l sc2 → sc1 = sc2.
Proof.
  induction l as [|x l IH]; intros (pre1 & post1 & E1 & P1 & N1) (pre2 & post2 & E2 & P2 & N2).
  { by destruct pre1. }
  destruct pre1 as [|y1 pre1], pre2 as [|y2 pre2]; simplify_eq/=; [done|..].
  - exfalso. by eapply N2; [left|].
  - exfalso. by eapply N1; [left|].
  - apply IH; [exists pre1, post1|exists pre2, post2]; (split; [done|]); (split; [done|]);
      intros z Hz; [apply N1|apply N2]; by right.
Qed.

Lemma match_spec_functional scs msg turn images r1 r2 :
  match_spec scs msg turn images r1 → match_spec scs msg turn images r2 → r1 = r2.
Proof.
  destruct r1 as [[sc1 [c1|]]|], r2 as [[sc2 [c2|]]|]; simpl; try done.
  - intros [F1 C1] [F2 C2]. pose proof (first_with_unique _ _ _ _ F1 F2) as ->.
    apply first_with_elem in F1 as [_ (rule & Hr & _)]. do 3 f_equal. apply map_eq. intros n.
    by rewrite (C1 rule Hr), (C2 rule Hr).
  - intros [[Hin He]%first_with_elem _] [Hno _]. by destruct (Hno sc1).
  - intros [[Hin He]%first_with_elem _] Hno. by destruct (Hno sc1).
  - intros [Hno _] [[Hin He]%first_with_elem _]. by destruct (Hno sc2).
  - intros [_ F1] [_ F2]. by rewrite (first_with_unique _ _ _ _ F1 F2).
  - intros [_ [Hin Hd]%first_with_elem] Hno. by destruct (Hno sc1).
  - intros Hno [[Hin He]%first_with_elem _]. by destruct (Hno sc2).
  - intros Hno [_ [Hin Hd]%first_with_elem]. by destruct (Hno sc2).
Qed.

Lemma sweep_ok m scs dflt msg turn images :
  matcher_ok m →
  let '(m', res) := sweep m scs dflt msg (ToLower msg) turn images in
  matcher_ok m' ∧
  match res with
  | Some (mkMatchResult sc None) =>
      (∀ x, x ∈ scs → ¬ explicit_match msg turn images x) ∧
      match dflt with Some d => sc = d | None => first_with is_default scs sc end
  | None => dflt = None ∧ match_spec scs msg turn images None
  | _ => match_spec scs msg turn images res
  end.
Proof.
  revert m dflt. induction scs as [|sc scs IH]; intros m dflt Hm; simpl.
  { split; [done|]. destruct dflt as [d|]; simpl; [|split; [done|]];
      [split; [|done]|]; by intros x []%not_elem_of_nil. }
  destruct (sc_Match sc) as [rule|] eqn:Hmatch.
  - pose proof (evaluate_ok m rule msg turn images Hm) as [Hm' Hev].
    destruct (evaluate m rule msg (ToLower msg) turn images) as [m' [c|]]; simpl in *.
    + split; [done|]. split; [|naive_solver]. exists [], scs. split; [done|].
      split; [exists rule; split; [done|apply Hev]|]. by intros x []%not_elem_of_nil.
    + assert (¬ explicit_match msg turn images sc) as Hno by (unfold explicit_match; naive_solver).
      assert (¬ is_default sc) as Hnd by (unfold is_default; congruence).
      specialize (IH m' dflt Hm'). destruct (sweep _ _ _ _ _ _ _) as [m'' [[sc' [c|]]|]];
        (destruct IH as [? IH]; split; [done|]).
      * destruct IH. split; [by apply first_with_cons|done].
      * destruct IH as [Hex Hd]. split; [by intros x [->|?]%elem_of_cons; auto|].
        destruct dflt; [done|by apply first_with_cons].
      * destruct IH as [-> IH]. split; [done|]. intros x [->|?]%elem_of_cons; auto.
  - assert (¬ explicit_match msg turn images sc) as Hno by (unfold explicit_match; naive_solver).
    specialize (IH m (match dflt with Some d => Some d | None => Some sc end) Hm).
    replace (match dflt with Some d => Some d | None => Some sc end)
      with (match dflt with None => Some sc | Some d => Some d end) in IH by by destruct dflt.
    destruct (sweep _ _ _ _ _ _ _) as [m'' [[sc' [c|]]|]];
      (destruct IH as [? IH]; split; [done|]).
    + destruct IH. split; [by apply first_with_cons|done].
    + destruct IH as [Hex Hd]. split; [by intros x [->|?]%elem_of_cons; auto|].
      destruct dflt as [d|]; [done|]. subst sc'. exists [], scs. split; [done|]. split; [done|].
      by intros x []%not_elem_of_nil.
    + destruct IH as [Hd _]. by destruct dflt.
Qed.

(** Requests served one after another by the same matcher. *)
Definition request : Type := list Scenario * string * Z * Z.

Definition serve (m : ScenarioMatcher) (q : request) : ScenarioMatcher :=
  let '(scs, msg, turn, images) := q in (MatchWithCaptures m scs msg turn images).1.

Definition matcher_after (reqs : list request) : ScenarioMatcher :=
  foldl serve NewScenarioMatcher reqs.

Lemma MatchWithCaptures_ok m scs msg turn images :
  matcher_ok m →
  matcher_ok (MatchWithCaptures m scs msg turn images).1 ∧
  match_spec scs msg turn images (MatchWithCaptures m scs msg turn images).2.
Proof.
  intros Hm. unfold MatchWithCaptures. pose proof (sweep_ok m scs None msg turn images Hm) as Hs.
  destruct (sweep _ _ _ _ _ _ _) as [m' [[sc [c|]]|]]; naive_solver.
Qed.

Lemma matcher_after_ok reqs : matcher_ok (matcher_after reqs).
Proof.
  unfold matcher_after. generalize NewScenarioMatcher_ok. generalize NewScenarioMatcher.
  induction reqs as [|[[[scs msg] turn] images] reqs IH]; intros m Hm; simpl; [done|].
  by apply IH, MatchWithCaptures_ok.
Qed.

(** ** Properties *)

(** C22: whatever requests a matcher served before, [MatchWithCaptures] returns
    the first scenario in definition order all of whose conditions hold (image
    presence, case-folded substring, regex, turn number), with exactly the named
    groups its regex captured; failing that the first scenario without a rule,
    with no captures; failing that nothing. *)
Theorem MatchWithCaptures_correct (history : list request) (scenarios : list Scenario)
    (userMessage : string) (turnNumber imageCount : Z) :
  match_spec scenarios userMessage turnNumber imageCount
    (MatchWithCaptures (matcher_after history) scenarios userMessage turnNumber imageCount).2.
Proof. apply MatchWithCaptures_ok, matcher_after_ok. Qed.

(** the caches cannot be observed and a bad pattern is reported once: after
    any history the matcher answers as a new one does, every cached entry is
    what recomputing it would give, and no pattern is logged twice, a pattern
    being logged exactly when it is cached as failing to compile. *)
Theorem caches_transparent (history : list request) (scenarios : list Scenario)
    (userMessage : string) (turnNumber imageCount : Z) :
  let m := matcher_after history in
  (∀ s v, lowerCache m !! s = Some v → v = ToLower s) ∧
  (∀ p re, regexCache m !! p = Some re → re = Compile p) ∧
  NoDup (warnings m) ∧ (∀ p, p ∈ warnings m ↔ regexCache m !! p = Some None) ∧
  (MatchWithCaptures m scenarios userMessage turnNumber imageCount).2 =
  (MatchWithCaptures NewScenarioMatcher scenarios userMessage turnNumber imageCount).2.
Proof.
  simpl. destruct (matcher_after_ok history) as (Hl & Hr & Hn & Hw).
  do 4 (split; [done|]).
  pose proof (MatchWithCaptures_ok _ scenarios userMessage turnNumber imageCount (matcher_after_ok history)) as [_ H1].
  pose proof (MatchWithCaptures_ok _ scenarios userMessage turnNumber imageCount NewScenarioMatcher_ok) as [_ H2].
  by eapply match_spec_functional.
Qed.
End matcher.

(** ** Concrete instances, to evaluate the definitions *)


(** A regular expression is a literal, found anywhere, with one group called
    "hit"; a pattern starting with "(" does not compile. *)
Definition literal_regexp : GoRegexp.
Proof.
  refine {| regexp := string;
            Compile p := if has_prefix p "(" then None else Some p;
            SubexpNames _ := [""; "hit"]%string;
            FindStringSubmatch re s := if str_contains s re then Some [re; re] else None |}.
  intros re s m. destruct (str_contains s re); [by intros [= <-]|done].
Defined.

Definition rule_of (contains regex : string) (turn : option Z) (image : option bool) : MatchRule :=
  mkMatchRule contains regex turn image.

Definition reply (name content : string) (rule : option MatchRule) : Scenario :=
  mkScenario name rule (mkScenarioResponse content [] [] "" "" None).

Definition ex_scenarios : list Scenario :=
  [reply "default" "?" None; reply "bad" "never" (Some (rule_of "" "(" None None));
   reply "refund" "ok" (Some (rule_of "REFUND" "order" (Some 1%Z) None))].

Example ex_match :
  let run m msg turn := MatchWithCaptures (H := ascii_go_lower) (H0 := literal_regexp)
                          m ex_scenarios msg turn 0%Z in
  let first := run (NewScenarioMatcher (H0 := literal_regexp)) "A Refund for my order" 1%Z in
  res_Scenario <$> first.2 = Some (reply "refund" "ok" (Some (rule_of "REFUND" "order" (Some 1%Z) None))) ∧
  (res_Captures <$> first.2) = Some (Some {["hit" := "order"]}) ∧
  res_Scenario <$> (run first.1 "a refund for my order" 2%Z).2 = Some (reply "default" "?" None) ∧
  warnings (H0 := literal_regexp) (run first.1 "x" 1%Z).1 = ["("].
Proof. vm_compute. done. Qed.
