(* ===== verification/SessionStore.v ===== *)
(** Conversation state, [internal/engine/state]: a session's history and turn
    counter ([session.go]), the in-memory store with expiry ([store.go]), and the
    interleavings of the store's operations its mutexes allow. *)

From S2P Require Import Prelude GoBase AgentTypes.

(** ** Sessions *)

Record ToolCallMsg := mkToolCallMsg { tcm_Name : string; tcm_Arguments : list (string * value) }.

Record Message := mkMessage {
  msg_Role : string; msg_Content : string; msg_ToolCalls : list ToolCallMsg; msg_Timestamp : Z
}.

Record Session := mkSession {
  s_ID : string;
  s_AgentName : string;
  s_Messages : list Message;
  s_TurnCount : Z;
  s_Variables : list (string * value);
  s_CreatedAt : Z;
  s_LastAccess : Z;
  s_TTL : Z
}.

Definition NewSession (id agentName : string) (ttl now : Z) : Session :=
  mkSession id agentName [] 0 [] now now ttl.

Definition appendUserMessage (content : string) (now : Z) (s : Session) : Session :=
  mkSession (s_ID s) (s_AgentName s) (s_Messages s ++ [mkMessage "user" content [] now])
    (wrap64 (s_TurnCount s + 1)) (s_Variables s) (s_CreatedAt s) now (s_TTL s).

Definition appendAssistantMessage (content : string) (toolCalls : list ToolCallMsg) (now : Z)
    (s : Session) : Session :=
  mkSession (s_ID s) (s_AgentName s) (s_Messages s ++ [mkMessage "assistant" content toolCalls now])
    (s_TurnCount s) (s_Variables s) (s_CreatedAt s) now (s_TTL s).

Definition set_Variables (vars : list (string * value)) (s : Session) : Session :=
  mkSession (s_ID s) (s_AgentName s) (s_Messages s) (s_TurnCount s) vars (s_CreatedAt s)
    (s_LastAccess s) (s_TTL s).

(** The [build] callback of [ApplyTurn]: it sees the new turn count and the live
    variables, which it may leave changed, and yields the assistant's reply or an
    error. *)
Definition builder (E : Type) : Type :=
  Z → list (string * value) → list (string * value) * (E + (string * list ToolCallMsg)).

(** [ApplyTurn]; [now1] and [now2] are the two clock readings. *)
Definition ApplyTurn {E} (userContent : string) (build : builder E) (now1 now2 : Z) (s : Session)
  : Session * option E :=
  let s1 := appendUserMessage userContent now1 s in
  let '(vars, res) := build (s_TurnCount s1) (s_Variables s1) in
  let s2 := set_Variables vars s1 in
  match res with
  | inl err => (s2, Some err)
  | inr (content, toolCalls) => (appendAssistantMessage content toolCalls now2 s2, None)
  end.

Definition IsExpired (now : Z) (s : Session) : bool :=
  if decide (s_TTL s ≤ 0)%Z then false else bool_decide (time_sub now (s_LastAccess s) > s_TTL s)%Z.

Definition LatestUserMessage (s : Session) : string :=
  match find (λ m, bool_decide (msg_Role m = "user")) (reverse (s_Messages s)) with
  | Some m => msg_Content m
  | None => ""
  end.

(** ** The store *)

Definition DefaultSessionTTL : Z := (30 * Minute)%Z.

(** [sessions] maps an id to the pointer of its session; [heap] holds the
    sessions, which live on while some caller keeps the pointer. *)
Record MemoryStore := mkMemoryStore {
  heap : gmap loc Session;
  sessions : gmap string loc;
  ttl : Z
}.

Definition NewMemoryStore (ttl : Z) : MemoryStore :=
  mkMemoryStore ∅ ∅ (if decide (ttl ≤ 0)%Z then DefaultSessionTTL else ttl).

Definition expired_at (now : Z) (st : MemoryStore) (p : loc) : bool :=
  match heap st !! p with Some s => IsExpired now s | None => false end.

Definition set_sessions (st : MemoryStore) (m : gmap string loc) : MemoryStore :=
  mkMemoryStore (heap st) m (ttl st).

Definition deleteIfSame (id : string) (p : loc) (st : MemoryStore) : MemoryStore :=
  if decide (sessions st !! id = Some p) then set_sessions st (delete id (sessions st)) else st.

(** [Get] when nothing runs between its three critical sections. *)
Definition Get (now : Z) (id : string) (st : MemoryStore) : MemoryStore * option loc :=
  match sessions st !! id with
  | None => (st, None)
  | Some p => if expired_at now st p then (deleteIfSame id p st, None) else (st, Some p)
  end.

Definition create (now : Z) (id agentName : string) (st : MemoryStore) : MemoryStore * loc :=
  let p := fresh (dom (heap st)) in
  (mkMemoryStore (<[p := NewSession id agentName (ttl st) now]> (heap st))
     (<[id := p]> (sessions st)) (ttl st), p).

Definition GetOrCreate (now : Z) (id agentName : string) (st : MemoryStore) : MemoryStore * loc :=
  match sessions st !! id with
  | Some p =>
      if expired_at now st p
      then create now id agentName (set_sessions st (delete id (sessions st)))
      else (st, p)
  | None => create now id agentName st
  end.

Definition Delete (id : string) (st : MemoryStore) : MemoryStore :=
  set_sessions st (delete id (sessions st)).

Definition Count (st : MemoryStore) : nat := size (sessions st).

(** The locked second pass of [Cleanup] over the pointers found expired. *)
Definition sweep_one (now : Z) (st : MemoryStore) (p : loc) : MemoryStore :=
  match heap st !! p with
  | None => st
  | Some s =>
      if decide (sessions st !! s_ID s = Some p ∧ IsExpired now s = true)
      then set_sessions st (delete (s_ID s) (sessions st)) else st
  end.

Definition cleanup_sweep (now : Z) (expired : list loc) (st : MemoryStore) : MemoryStore :=
  foldl (sweep_one now) st expired.

(** [Cleanup] when nothing runs between its phases; [snapshot] are the values of
    the map in the order it was visited. *)
Definition Cleanup (now : Z) (snapshot : list loc) (st : MemoryStore) : MemoryStore :=
  let expired := filter (λ p, expired_at now st p = true) snapshot in
  if decide (expired = []) then st else cleanup_sweep now expired st.

(** A caller runs a turn on a session it holds. *)
Definition apply_turn_at {E} (p : loc) (content : string) (build : builder E) (now1 now2 : Z)
    (st : MemoryStore) : MemoryStore :=
  match heap st !! p with
  | None => st
  | Some s => mkMemoryStore (<[p := (ApplyTurn content build now1 now2 s).1]> (heap st))
                (sessions st) (ttl st)
  end.

(** ** Theory of sessions *)

(** The number of user messages of a history. *)
Definition user_messages (s : Session) : nat :=
  length (filter (λ m, msg_Role m = "user") (s_Messages s)).

(** Turns applied one after another to a new session. *)
Abbreviation turn_args E := (string * builder E * Z * Z)%type.

Definition run_turns {E} (turns : list (turn_args E)) (s : Session) : Session :=
  foldl (λ s '(content, build, now1, now2), (ApplyTurn content build now1 now2 s).1) s turns.

Lemma ApplyTurn_fields {E} content (build : builder E) now1 now2 s :
  let s' := (ApplyTurn content build now1 now2 s).1 in
  s_ID s' = s_ID s ∧ s_AgentName s' = s_AgentName s ∧ s_TTL s' = s_TTL s ∧
  s_CreatedAt s' = s_CreatedAt s ∧ s_TurnCount s' = wrap64 (s_TurnCount s + 1) ∧
  user_messages s' = S (user_messages s).
Proof.
  unfold ApplyTurn, user_messages.
  destruct (build _ _) as [vars [err|[reply calls]]]; simpl; rewrite ?filter_app, ?length_app;
    split_and!; try done; simpl; lia.
Qed.

(** Well-formed stores: every entry points at an allocated session of that id,
    whose TTL is the store's positive one. *)
Definition store_ok (st : MemoryStore) : Prop :=
  (0 < ttl st)%Z ∧
  ∀ id p, sessions st !! id = Some p → ∃ s, heap st !! p = Some s ∧ s_ID s = id.

Lemma NewMemoryStore_ok t : store_ok (NewMemoryStore t).
Proof.
  split; simpl; [|by intros ??; rewrite lookup_empty]. case_decide; [|lia].
  unfold DefaultSessionTTL, Minute, Second. lia.
Qed.

Lemma set_sessions_delete_ok id st :
  store_ok st → store_ok (set_sessions st (delete id (sessions st))).
Proof. intros [Ht Hs]. split; [done|]. simpl. intros id' p [_ Hp]%lookup_delete_Some. by apply Hs. Qed.

Lemma deleteIfSame_ok id p st : store_ok st → store_ok (deleteIfSame id p st).
Proof. intros Hok. unfold deleteIfSame. case_decide; [by apply set_sessions_delete_ok|done]. Qed.

Lemma create_ok now id agent st : store_ok st → store_ok (create now id agent st).1.
Proof.
  intros [Ht Hs]. split; [done|]. unfold create. simpl.
  pose proof (is_fresh (dom (heap st))) as Hf. rewrite not_elem_of_dom in Hf.
  intros id' p [[<- <-]|[_ Hp]]%lookup_insert_Some; [rewrite lookup_insert_eq; eauto|].
  destruct (Hs id' p Hp) as (s & Hh & Hid). exists s. split; [|done].
  rewrite lookup_insert_ne; [done|]. congruence.
Qed.

Lemma GetOrCreate_ok now id agent st : store_ok st → store_ok (GetOrCreate now id agent st).1.
Proof.
  intros Hok. unfold GetOrCreate. destruct (sessions st !! id) as [p|]; [|by apply create_ok].
  destruct (expired_at now st p); [|done]. by apply create_ok, set_sessions_delete_ok.
Qed.

Lemma sweep_one_ok now st p : store_ok st → store_ok (sweep_one now st p).
Proof.
  intros Hok. unfold sweep_one. destruct (heap st !! p) as [s|]; [|done].
  case_decide; [by apply set_sessions_delete_ok|done].
Qed.

Lemma cleanup_sweep_ok now ps st : store_ok st → store_ok (cleanup_sweep now ps st).
Proof.
  unfold cleanup_sweep. revert st. induction ps as [|p ps IH]; intros st Hok; simpl; [done|].
  by apply IH, sweep_one_ok.
Qed.

Lemma apply_turn_at_ok {E} p content (build : builder E) now1 now2 st :
  store_ok st → store_ok (apply_turn_at p content build now1 now2 st).
Proof.
  intros [Ht Hs]. unfold apply_turn_at. destruct (heap st !! p) as [s|] eqn:Hp; [|by split].
  split; [done|]. simpl. intros id q Hq. destruct (Hs id q Hq) as (s' & Hh & Hid).
  destruct (decide (p = q)) as [->|Hne].
  - rewrite lookup_insert_eq. eexists. split; [done|].
    destruct (ApplyTurn_fields content build now1 now2 s) as [-> _]. by simplify_eq.
  - rewrite lookup_insert_ne by done. eauto.
Qed.

(** What the locked pass of [Cleanup] keeps. *)
Lemma cleanup_sweep_spec now ps st :
  store_ok st →
  heap (cleanup_sweep now ps st) = heap st ∧
  ∀ id p, sessions (cleanup_sweep now ps st) !! id = Some p ↔
    sessions st !! id = Some p ∧ ¬ (p ∈ ps ∧ expired_at now st p = true).
Proof.
  unfold cleanup_sweep. revert st. induction ps as [|q ps IH]; intros st Hok; simpl.
  { split; [done|]. intros id p. rewrite elem_of_nil. naive_solver. }
  destruct (IH (sweep_one now st q)) as [Hheap Hsess]; [by apply sweep_one_ok|].
  assert (heap (sweep_one now st q) = heap st) as Hh.
  { unfold sweep_one. destruct (heap st !! q); [|done]. by case_decide. }
  assert (∀ p, expired_at now (sweep_one now st q) p = expired_at now st p) as He
    by (intros p; unfold expired_at; by rewrite Hh).
  split; [by rewrite Hheap|]. intros id p. rewrite Hsess, He, elem_of_cons.
  assert (sessions (sweep_one now st q) !! id = Some p ↔
    sessions st !! id = Some p ∧ ¬ (p = q ∧ expired_at now st p = true)) as Hone; [|naive_solver].
  unfold sweep_one, expired_at. destruct (heap st !! q) as [s|] eqn:Hq.
  2: { split; [|by intros []]. intros Hp. split; [done|]. intros [-> Hx]. by rewrite Hq in Hx. }
  case_decide as Hd; simpl.
  - destruct Hd as [Hsq Hexp]. rewrite lookup_delete_Some. split.
    + intros [Hne Hp]. split; [done|]. intros [-> _].
      destruct (proj2 Hok _ _ Hp) as (s' & Hs' & Hid). congruence.
    + intros [Hp Hnot]. split; [|done]. intros <-. apply Hnot.
      assert (p = q) as -> by congruence. split; [done|]. by rewrite Hq.
  - split; [|by intros []]. intros Hp. split; [done|]. intros [-> Hx]. rewrite Hq in Hx.
    destruct (proj2 Hok _ _ Hp) as (s' & Hs' & Hid). apply Hd. split; congruence.
Qed.

Lemma expired_at_clock now now' st p :
  (now ≤ now')%Z → expired_at now st p = true → expired_at now' st p = true.
Proof.
  unfold expired_at, IsExpired. intros Hle. destruct (heap st !! p) as [s|]; [|done].
  case_decide; [done|]. rewrite !bool_decide_eq_true. unfold time_sub. lia.
Qed.

(** ** Interleavings

    Each step is one critical section (or one atomic read). [Get] is three of
    them: the map lookup under the read lock, [IsExpired] under the session's
    lock, and [deleteIfSame] under the write lock. [Cleanup] is a snapshot, one
    [IsExpired] per session, and the pass under the write lock, during which only
    the sessions' own locks can be taken. *)
Inductive pending :=
| PGetRead (id : string) (p : loc)       (* Get has the pointer *)
| PGetExpired (id : string) (p : loc)    (* Get saw it expired *)
| PScan (todo expired : list loc).       (* Cleanup is scanning its snapshot *)

(** What has happened, newest first. *)
Inductive event :=
| EObserved (p : loc)   (* some IsExpired answered true *)
| ETurn (p : loc).      (* a turn refreshed the session *)

Record config := mkConfig {
  c_store : MemoryStore;
  c_clock : Z;
  c_pending : list pending;
  c_locked : option (list loc);  (* Cleanup holds the write lock, with these left *)
  c_hist : list event
}.

Inductive label := LInternal | LDelete (id : string) | LCreate (id : string) | LEvictGet (id : string) (p : loc) | LEvictCleanup (p : loc).

Inductive step : config → label → config → Prop :=
| step_tick st t t' ps lk h : (t ≤ t')%Z →
    step (mkConfig st t ps lk h) LInternal (mkConfig st t' ps lk h)
| step_turn st t t' ps lk h p content (build : builder unit) :
    is_Some (heap st !! p) → (t ≤ t')%Z →
    step (mkConfig st t ps lk h) LInternal
         (mkConfig (apply_turn_at p content build t t' st) t' ps lk (ETurn p :: h))
| step_delete st t ps h id :
    step (mkConfig st t ps None h) (LDelete id) (mkConfig (Delete id st) t ps None h)
| step_getOrCreate st t ps h id agent :
    step (mkConfig st t ps None h) (LCreate id)
         (mkConfig (GetOrCreate t id agent st).1 t ps None h)
| step_get_read st t ps h id p : sessions st !! id = Some p →
    step (mkConfig st t ps None h) LInternal (mkConfig st t (PGetRead id p :: ps) None h)
| step_get_live st t ps1 ps2 lk h id p : expired_at t st p = false →
    step (mkConfig st t (ps1 ++ PGetRead id p :: ps2) lk h) LInternal
         (mkConfig st t (ps1 ++ ps2) lk h)
| step_get_expired st t ps1 ps2 lk h id p : expired_at t st p = true →
    step (mkConfig st t (ps1 ++ PGetRead id p :: ps2) lk h) LInternal
         (mkConfig st t (ps1 ++ PGetExpired id p :: ps2) lk (EObserved p :: h))
| step_get_evict st t ps1 ps2 h id p :
    step (mkConfig st t (ps1 ++ PGetExpired id p :: ps2) None h) (LEvictGet id p)
         (mkConfig (deleteIfSame id p st) t (ps1 ++ ps2) None h)
| step_clean_start st t ps h snapshot : snapshot ≡ₚ (map_to_list (sessions st)).*2 →
    step (mkConfig st t ps None h) LInternal (mkConfig st t (PScan snapshot [] :: ps) None h)
| step_clean_scan st t ps1 ps2 lk h p todo ex :
    step (mkConfig st t (ps1 ++ PScan (p :: todo) ex :: ps2) lk h) LInternal
         (mkConfig st t (ps1 ++ PScan todo (if expired_at t st p then ex ++ [p] else ex) :: ps2)
            lk (if expired_at t st p then EObserved p :: h else h))
| step_clean_done st t ps1 ps2 lk h :
    step (mkConfig st t (ps1 ++ PScan [] [] :: ps2) lk h) LInternal (mkConfig st t (ps1 ++ ps2) lk h)
| step_clean_lock st t ps1 ps2 h ex : ex ≠ [] →
    step (mkConfig st t (ps1 ++ PScan [] ex :: ps2) None h) LInternal
         (mkConfig st t (ps1 ++ ps2) (Some ex) h)
| step_clean_sweep st t ps h p todo :
    step (mkConfig st t ps (Some (p :: todo)) h) (LEvictCleanup p)
         (mkConfig (sweep_one t st p) t ps (Some todo) h)
| step_clean_unlock st t ps h :
    step (mkConfig st t ps (Some []) h) LInternal (mkConfig st t ps None h).

Inductive reachable (ttl0 : Z) : config → Prop :=
| reach_init t : reachable ttl0 (mkConfig (NewMemoryStore ttl0) t [] None [])
| reach_step c l c' : reachable ttl0 c → step c l c' → reachable ttl0 c'.

(** [p] was seen expired, and since then either a turn ran on it or it still is. *)
Definition observed (c : config) (p : loc) : Prop :=
  ∃ after before, c_hist c = after ++ EObserved p :: before ∧
    (ETurn p ∈ after ∨ expired_at (c_clock c) (c_store c) p = true).

Definition config_ok (c : config) : Prop :=
  store_ok (c_store c) ∧ ∀ id p, PGetExpired id p ∈ c_pending c → observed c p.

(** What a step does to the clock, the history and the heap. *)
Definition evolves (c c' : config) : Prop :=
  (c_clock c ≤ c_clock c')%Z ∧
  ∃ new, c_hist c' = new ++ c_hist c ∧
    ∀ p s, heap (c_store c) !! p = Some s →
      heap (c_store c') !! p = Some s ∨ ETurn p ∈ new.

Lemma create_heap now id agent st p s :
  heap st !! p = Some s → heap (create now id agent st).1 !! p = Some s.
Proof.
  unfold create. simpl. intros Hp. pose proof (is_fresh (dom (heap st))) as Hf.
  rewrite not_elem_of_dom in Hf. rewrite lookup_insert_ne; [done|]. congruence.
Qed.

Lemma evolves_heap c c' :
  (c_clock c ≤ c_clock c')%Z → c_hist c' = c_hist c →
  (∀ p s, heap (c_store c) !! p = Some s → heap (c_store c') !! p = Some s) → evolves c c'.
Proof. intros Ht Hh Hp. split; [done|]. exists []. split; [done|]. eauto. Qed.

Lemma step_evolves c l c' : step c l c' → evolves c c'.
Proof.
  destruct 1; try (apply evolves_heap; simpl; (lia || done)).
  - split; [done|]. exists [ETurn p]. split; [done|]. simpl. intros q s Hq.
    unfold apply_turn_at. destruct (heap st !! p) as [s0|]; [|by left].
    destruct (decide (p = q)) as [->|Hne]; [right; by left|left]. simpl.
    by rewrite lookup_insert_ne.
  - apply evolves_heap; simpl; [lia|done|]. intros p s Hp. unfold GetOrCreate.
    destruct (sessions st !! id) as [q|]; [|by apply create_heap].
    destruct (expired_at t st q); [|done]. by apply create_heap.
  - split; [done|]. by exists [EObserved p]; eauto.
  - apply evolves_heap; simpl; [lia|done|]. intros q s. unfold deleteIfSame. by case_decide.
  - split; [done|]. destruct (expired_at t st p); [exists [EObserved p]|exists []]; eauto.
  - apply evolves_heap; simpl; [lia|done|]. intros q s. unfold sweep_one.
    destruct (heap st !! p); [|done]. by case_decide.
Qed.

Lemma observed_evolves c c' p : evolves c c' → observed c p → observed c' p.
Proof.
  intros (Ht & new & Hn & Hheap) (after & before & Hh & Hor).
  exists (new ++ after), before. rewrite Hn, Hh, app_assoc. split; [done|].
  destruct Hor as [Hturn|Hexp]; [left; by apply elem_of_app; right|].
  unfold expired_at in Hexp. destruct (heap (c_store c) !! p) as [s|] eqn:Hp; [|done].
  destruct (Hheap p s Hp) as [Hp'|Hnew]; [right|left; by apply elem_of_app; left].
  apply (expired_at_clock (c_clock c)); [done|]. unfold expired_at. by rewrite Hp'.
Qed.

Lemma elem_of_replace {A} (x y z : A) l1 l2 :
  x ∈ l1 ++ y :: l2 → x ∈ l1 ++ z :: l2 ∨ x = y.
Proof. rewrite !elem_of_app, !elem_of_cons. tauto. Qed.

Lemma elem_of_remove {A} (x y : A) l1 l2 : x ∈ l1 ++ l2 → x ∈ l1 ++ y :: l2.
Proof. rewrite !elem_of_app, !elem_of_cons. tauto. Qed.

Lemma step_config_ok c l c' : config_ok c → step c l c' → config_ok c'.
Proof.
  intros [Hst Hobs] Hstep. pose proof (step_evolves _ _ _ Hstep) as Hev. split.
  - destruct Hstep; simpl in *; try done; unfold Delete;
      eauto using apply_turn_at_ok, GetOrCreate_ok, deleteIfSame_ok, sweep_one_ok,
        set_sessions_delete_ok.
  - intros id' p' Hin.
    assert (PGetExpired id' p' ∈ c_pending c ∨ observed c' p') as [Hold|]; [|by eauto using observed_evolves|done].
    destruct Hstep; simpl in *; eauto using elem_of_remove.
    + apply elem_of_cons in Hin as [|]; [done|by left].
    + apply (elem_of_replace _ _ (PGetRead id p)) in Hin as [|[= -> ->]]; [by left|right].
      exists [], h. simpl. eauto.
    + apply elem_of_cons in Hin as [|]; [done|by left].
    + apply (elem_of_replace _ _ (PScan (p :: todo) ex)) in Hin as [|]; [by left|done].
Qed.

Lemma reachable_ok ttl0 c : reachable ttl0 c → config_ok c.
Proof.
  induction 1; [|by eauto using step_config_ok]. split; [apply NewMemoryStore_ok|].
  simpl. intros id p Hin. by apply elem_of_nil in Hin.
Qed.

(** Each clock reading of an interleaving is at most the next one, so a fresh
    session is live. *)
Lemma create_live now id agent st :
  (0 < ttl st)%Z → expired_at now (create now id agent st).1 (create now id agent st).2 = false.
Proof.
  intros Ht. unfold expired_at, create. simpl. rewrite lookup_insert_eq. unfold IsExpired. simpl.
  case_decide; [done|]. apply bool_decide_eq_false. unfold time_sub, two63. lia.
Qed.

(** The session an id reads as, and the one [GetOrCreate] would hand out. *)
Definition session_at (st : MemoryStore) (id : string) : option Session :=
  sessions st !! id ≫= λ p, heap st !! p.

Definition current_session (now : Z) (id agentName : string) (st : MemoryStore) : Session :=
  match session_at st id with
  | Some s => if IsExpired now s then NewSession id agentName (ttl st) now else s
  | None => NewSession id agentName (ttl st) now
  end.

Lemma GetOrCreate_current now id agent st :
  store_ok st →
  let '(st', p) := GetOrCreate now id agent st in
  heap st' !! p = Some (current_session now id agent st) ∧ sessions st' = <[id := p]> (sessions st).
Proof.
  intros Hok. unfold GetOrCreate, current_session, session_at.
  destruct (sessions st !! id) as [p|] eqn:Hp; simpl; [|by rewrite lookup_insert_eq].
  destruct (proj2 Hok id p Hp) as (s & Hs & _). unfold expired_at. rewrite Hs.
  destruct (IsExpired now s); simpl.
  - by rewrite lookup_insert_eq, insert_delete_eq.
  - by rewrite insert_id.
Qed.

(** The sessions of the other ids stay as they are. *)
Lemma GetOrCreate_other now id agent st id' :
  store_ok st → id' ≠ id → session_at (GetOrCreate now id agent st).1 id' = session_at st id'.
Proof.
  intros Hok Hne. unfold session_at.
  assert (∀ st' q, heap st' = heap st → sessions st' !! id' = Some q → sessions st !! id' = Some q →
    heap (create now id agent st').1 !! q = heap st !! q) as Hc.
  { intros st' q Hh _ Hq. destruct (proj2 Hok id' q Hq) as (s & Hs & _).
    rewrite Hs. apply create_heap. by rewrite Hh. }
  unfold GetOrCreate. destruct (sessions st !! id) as [p|] eqn:Hp.
  - destruct (expired_at now st p); [|done]. simpl sessions.
    rewrite lookup_insert_ne, lookup_delete_ne by done.
    destruct (sessions st !! id') as [q|] eqn:Hq; [simpl|done].
    apply (Hc (set_sessions st (delete id (sessions st))) q); [done| |done].
    simpl. by rewrite lookup_delete_ne.
  - simpl sessions. rewrite lookup_insert_ne by done.
    destruct (sessions st !! id') as [q|] eqn:Hq; [simpl|done]. by apply (Hc st q).
Qed.

Lemma apply_turn_at_other {E} p content (build : builder E) now1 now2 st id id' :
  store_ok st → sessions st !! id = Some p → id' ≠ id →
  session_at (apply_turn_at p content build now1 now2 st) id' = session_at st id'.
Proof.
  intros Hok Hp Hne. unfold session_at, apply_turn_at.
  destruct (heap st !! p) as [s|]; [|done]. simpl.
  destruct (sessions st !! id') as [q|] eqn:Hq; [simpl|done].
  destruct (proj2 Hok id p Hp) as (s1 & Hs1 & Hid1), (proj2 Hok id' q Hq) as (s2 & Hs2 & Hid2).
  rewrite lookup_insert_ne; [done|]. congruence.
Qed.

(** The shape of a history: user and assistant messages, an assistant message
    only right after a user message. *)
Fixpoint well_paired (prev : string) (ms : list Message) : bool :=
  match ms with
  | [] => true
  | m :: ms =>
      (bool_decide (msg_Role m = "user") ||
       (bool_decide (msg_Role m = "assistant") && bool_decide (prev = "user"))) &&
      well_paired (msg_Role m) ms
  end.

Definition last_role (prev : string) (ms : list Message) : string :=
  default prev (msg_Role <$> last ms).

Lemma last_role_cons prev m ms : last_role prev (m :: ms) = last_role (msg_Role m) ms.
Proof. unfold last_role. rewrite last_cons. by destruct (last ms). Qed.

Lemma well_paired_app prev l1 l2 :
  well_paired prev (l1 ++ l2) = well_paired prev l1 && well_paired (last_role prev l1) l2.
Proof.
  revert prev. induction l1 as [|m l1 IH]; intros prev; [done|].
  cbn [well_paired app]. by rewrite IH, last_role_cons, andb_assoc.
Qed.

(** One turn appends the user's message and, on success, the reply. *)
Lemma ApplyTurn_messages {E} content (build : builder E) now1 now2 s :
  ∃ reply, s_Messages (ApplyTurn content build now1 now2 s).1 =
      s_Messages s ++ mkMessage "user" content [] now1 :: reply ∧
    (reply = [] ∨ ∃ text calls, reply = [mkMessage "assistant" text calls now2]) ∧
    (reply = [] ↔ is_Some (ApplyTurn content build now1 now2 s).2).
Proof.
  unfold ApplyTurn. destruct (build _ _) as [vars [err|[text calls]]]; simpl.
  - exists []. split; [done|]. split; [by left|]. split; [by eexists|done].
  - exists [mkMessage "assistant" text calls now2]. rewrite <-app_assoc. split; [done|].
    split; [right; eauto|]. split; [done|by intros []].
Qed.

Lemma ApplyTurn_latest {E} content (build : builder E) now1 now2 s :
  LatestUserMessage (ApplyTurn content build now1 now2 s).1 = content.
Proof.
  unfold LatestUserMessage.
  destruct (ApplyTurn_messages content build now1 now2 s) as (reply & -> & Hreply & _).
  rewrite reverse_app, reverse_cons. by destruct Hreply as [->|(text & calls & ->)].
Qed.

Lemma run_turns_snoc {E} (turns : list (turn_args E)) content build now1 now2 s :
  run_turns (turns ++ [(content, build, now1, now2)]) s =
    (ApplyTurn content build now1 now2 (run_turns turns s)).1.
Proof. unfold run_turns. by rewrite foldl_app. Qed.

(** ** Properties *)

(** after any sequence of turns on a new session, failed ones included, the
    turn counter is the number of user messages and of turns (in the 64-bit
    arithmetic of the counter), the history pairs each reply with the user
    message right before it, and the latest user message is the last turn's. *)
Theorem run_turns_history {E} (turns : list (turn_args E)) id agent ttl now :
  let s := run_turns turns (NewSession id agent ttl now) in
  user_messages s = length turns ∧
  s_TurnCount s = wrap64 (Z.of_nat (length turns)) ∧
  well_paired "" (s_Messages s) = true ∧
  LatestUserMessage s = default "" ((λ t, t.1.1.1) <$> last turns) ∧
  s_ID s = id ∧ s_AgentName s = agent ∧ s_TTL s = ttl.
Proof.
  cbv zeta. induction turns as [|[[[content build] now1] now2] turns IH] using rev_ind; [done|].
  rewrite run_turns_snoc, length_app, last_snoc, ApplyTurn_latest.
  set (s := run_turns turns _) in *. destruct IH as (Hu & Ht & Hp & _ & Hid & Hag & Httl).
  destruct (ApplyTurn_fields content build now1 now2 s) as (-> & -> & -> & _ & -> & ->).
  split_and!; try done; simpl.
  - lia.
  - rewrite Ht. replace (Z.of_nat (length turns + 1)) with (Z.of_nat (length turns) + 1)%Z by lia.
    apply wrap64_add_l.
  - destruct (ApplyTurn_messages content build now1 now2 s) as (reply & -> & Hreply & _).
    rewrite well_paired_app, Hp. by destruct Hreply as [->|(text & calls & ->)].
Qed.

(** with no other operation in between, [Get] answers exactly the live
    session of the id and evicts an expired one; [GetOrCreate] keeps a live
    session, replaces an expired or missing one by a new empty session, leaves
    the other ids alone, and always answers a live session of that id that a
    following [Get] finds again. *)
Theorem store_sequential now id agent st :
  store_ok st →
  let '(st1, r) := Get now id st in
  let '(st2, p) := GetOrCreate now id agent st in
  r = match sessions st !! id with
      | Some q => if expired_at now st q then None else Some q
      | None => None
      end ∧
  sessions st1 = (match r with Some _ => sessions st | None => delete id (sessions st) end) ∧
  match r with
  | Some q => p = q ∧ st2 = st
  | None => heap st !! p = None ∧ heap st2 !! p = Some (NewSession id agent (ttl st) now)
  end ∧
  sessions st2 = <[id := p]> (sessions st) ∧
  expired_at now st2 p = false ∧
  Get now id st2 = (st2, Some p) ∧
  store_ok st1 ∧ store_ok st2.
Proof.
  intros Hok. pose proof (GetOrCreate_ok now id agent st Hok) as Hok2.
  assert (∀ st', ttl st' = ttl st → let '(st2, p) := create now id agent st' in
    expired_at now st2 p = false ∧ Get now id st2 = (st2, Some p)) as Hnew.
  { intros st' Ht. simpl. assert (0 < ttl st')%Z as Hpos by (rewrite Ht; apply Hok).
    pose proof (create_live now id agent st' Hpos) as Hl. split; [done|].
    unfold Get. simpl. rewrite lookup_insert_eq. unfold create in Hl. simpl in Hl. by rewrite Hl. }
  assert (∀ st', heap st' !! fresh (dom (heap st')) = None) as Hfresh
    by (intros st'; apply not_elem_of_dom, is_fresh).
  unfold Get at 1. unfold GetOrCreate in *. destruct (sessions st !! id) as [q|] eqn:Hq.
  - destruct (expired_at now st q) eqn:Hexp.
    + destruct (Hnew (set_sessions st (delete id (sessions st))) eq_refl) as [Hl Hg].
      simpl in *. split_and!; try done.
      * unfold deleteIfSame. by rewrite decide_True.
      * by rewrite lookup_insert_eq.
      * by rewrite insert_delete_eq.
      * by apply deleteIfSame_ok.
    + simpl. split_and!; try done; [by rewrite insert_id|].
      unfold Get. by rewrite Hq, Hexp.
  - destruct (Hnew st eq_refl) as [Hl Hg]. simpl in *. split_and!; try done.
    + by rewrite delete_id.
    + by rewrite lookup_insert_eq.
Qed.

(** with no other operation in between, [Cleanup] removes exactly the
    expired sessions, whatever order it visits the map in. *)
Theorem Cleanup_removes_expired now snapshot st :
  store_ok st → snapshot ≡ₚ (map_to_list (sessions st)).*2 →
  let st' := Cleanup now snapshot st in
  heap st' = heap st ∧ store_ok st' ∧
  sessions st' = filter (λ kv, expired_at now st kv.2 = false) (sessions st).
Proof.
  intros Hok Hsnap. cbv zeta.
  assert (∀ id p, sessions st !! id = Some p → p ∈ snapshot) as Hall.
  { intros id p Hp. rewrite Hsnap. apply list_elem_of_fmap. exists (id, p).
    split; [done|]. by apply elem_of_map_to_list. }
  unfold Cleanup. case_decide as Hnil.
  - split_and!; [done..|]. symmetry. apply map_filter_id. intros id p Hp. simpl.
    destruct (expired_at now st p) eqn:He; [|done]. exfalso.
    assert (p ∈ filter (λ p, expired_at now st p = true) snapshot) as Hin
      by (apply list_elem_of_filter; eauto).
    rewrite Hnil in Hin. by apply elem_of_nil in Hin.
  - destruct (cleanup_sweep_spec now (filter (λ p, expired_at now st p = true) snapshot) st Hok)
      as [Hheap Hsess].
    split_and!; [done|by apply cleanup_sweep_ok|]. apply map_eq. intros id. apply option_eq.
    intros p. rewrite Hsess, list_elem_of_filter, map_lookup_filter_Some, <-not_true_iff_false.
    simpl. split; [|naive_solver]. intros [Hp Hnot]. split; [done|]. intros He. apply Hnot. eauto.
Qed.

(** The instances the hypotheses of the properties are shown to hold at. *)
Definition ex_store : MemoryStore :=
  let st := (create 0 "a" "bot" (NewMemoryStore 10)).1 in (create 8 "b" "bot" st).1.

Lemma ex_store_ok : store_ok ex_store.
Proof. apply create_ok, create_ok, NewMemoryStore_ok. Qed.

Lemma store_sequential_witness :
  store_ok ex_store ∧ (GetOrCreate 15 "a" "bot" ex_store).2 ≠ (GetOrCreate 5 "a" "bot" ex_store).2 ∧
  (Get 15 "a" ex_store).2 = None.
Proof.
  split_and!; [apply ex_store_ok|vm_compute; discriminate|].
  pose proof (store_sequential 15 "a" "bot" ex_store ex_store_ok) as H.
  destruct (Get 15 "a" ex_store) as [st1 r] eqn:Hg.
  destruct (GetOrCreate 15 "a" "bot" ex_store) as [st2 p]. destruct H as [-> _].
  vm_compute. reflexivity.
Defined.

Lemma Cleanup_removes_expired_witness :
  let st := Cleanup 15 (map_to_list (sessions ex_store)).*2 ex_store in
  sessions st !! "a" = None ∧ sessions st !! "b" = sessions ex_store !! "b" ∧
  is_Some (sessions st !! "b").
Proof.
  destruct (Cleanup_removes_expired 15 (map_to_list (sessions ex_store)).*2 ex_store ex_store_ok
    (reflexivity _)) as (_ & _ & H). cbv zeta. rewrite H.
  vm_compute. split_and!; [reflexivity..|by eexists].
Defined.

(** whatever operations run between the critical sections of [Get] and
    [Cleanup], a step takes an entry out of the store or replaces it only in four
    ways: an explicit [Delete] of its id; [GetOrCreate] or [Cleanup] finding that
    very session expired at that instant; or a [Get] that saw that very session
    expired before. A session created under the id in between is never dropped,
    and the last case drops a live session only when a turn ran on it after [Get]
    looked. *)
Theorem entries_lost_only_if_expired ttl0 c l c' id p :
  reachable ttl0 c → step c l c' →
  sessions (c_store c) !! id = Some p → sessions (c_store c') !! id ≠ Some p →
  match l with
  | LDelete id' => id' = id
  | LCreate id' => id' = id ∧ expired_at (c_clock c) (c_store c) p = true
  | LEvictCleanup p' => p' = p ∧ expired_at (c_clock c) (c_store c) p = true
  | LEvictGet id' p' => id' = id ∧ p' = p ∧ observed c p
  | LInternal => False
  end.
Proof.
  intros [Hst Hobs]%reachable_ok Hstep Hp Hp'.
  destruct Hstep; simpl in *; try done.
  - apply Hp'. unfold apply_turn_at. by destruct (heap st !! p0).
  - destruct (decide (id0 = id)); [done|]. by rewrite lookup_delete_ne in Hp'.
  - unfold GetOrCreate in Hp'.
    destruct (decide (id0 = id)) as [->|Hne].
    + rewrite Hp in Hp'. destruct (expired_at t st p) eqn:He; [done|]. by simpl in Hp'.
    + exfalso. apply Hp'. destruct (sessions st !! id0) as [q|]; [|by apply lookup_insert_Some; auto].
      destruct (expired_at t st q); [|done]. simpl.
      by rewrite lookup_insert_ne, lookup_delete_ne.
  - unfold deleteIfSame in Hp'. case_decide as Hd; [|done]. simpl in Hp'.
    destruct (decide (id0 = id)) as [->|Hne]; [|by rewrite lookup_delete_ne in Hp'].
    assert (p0 = p) as -> by congruence. split_and!; [done..|]. apply (Hobs id).
    apply elem_of_app. right. left.
  - unfold sweep_one in Hp'. destruct (heap st !! p0) as [s|] eqn:Hs; [|done].
    case_decide as Hd; [|done]. destruct Hd as [Hd He]. simpl in Hp'.
    destruct (decide (s_ID s = id)) as [<-|Hne]; [|by rewrite lookup_delete_ne in Hp'].
    assert (p0 = p) as -> by congruence. split; [done|]. unfold expired_at. by rewrite Hs.
Qed.

(** A run of the last case: [Get] sees the session expired, a turn of a request
    that already holds the pointer refreshes it, and [Get] evicts it all the
    same, since [deleteIfSame] does not look at the expiry again. *)
Definition ex_p : loc := (GetOrCreate 0 "a" "bot" (NewMemoryStore 10)).2.
Definition ex_build : builder unit := λ _ vars, (vars, inr ("reply", [])).
Definition ex_race_store : MemoryStore :=
  apply_turn_at ex_p "hi" ex_build 11 12 (GetOrCreate 0 "a" "bot" (NewMemoryStore 10)).1.
Definition ex_race : config :=
  mkConfig ex_race_store 12 [PGetExpired "a" ex_p] None [ETurn ex_p; EObserved ex_p].

Lemma ex_race_reachable : reachable 10 ex_race.
Proof.
  set (st := (GetOrCreate 0 "a" "bot" (NewMemoryStore 10)).1).
  assert (sessions st !! "a" = Some ex_p) as Hs by (vm_compute; reflexivity).
  assert (expired_at 11 st ex_p = true) as He by (vm_compute; reflexivity).
  assert (is_Some (heap st !! ex_p)) as Hh by (vm_compute; eauto).
  eapply reach_step; [|by apply (step_turn st 11 12 _ None _ ex_p "hi" ex_build)].
  eapply reach_step; [|by apply (step_get_expired st 11 [] [] None [] "a" ex_p)].
  eapply reach_step; [|by apply (step_get_read st 11 [] [] "a" ex_p)].
  eapply reach_step; [|by apply (step_tick st 0 11 [] None [])].
  eapply reach_step; [|apply (step_getOrCreate (NewMemoryStore 10) 0 [] [] "a" "bot")].
  apply reach_init.
Qed.

Lemma entries_lost_only_if_expired_witness :
  ∃ c', step ex_race (LEvictGet "a" ex_p) c' ∧ sessions (c_store c') !! "a" = None ∧
    expired_at (c_clock ex_race) (c_store ex_race) ex_p = false ∧ observed ex_race ex_p.
Proof.
  eexists. split; [apply (step_get_evict ex_race_store 12 [] [] _ "a" ex_p)|].
  split; [vm_compute; reflexivity|]. split; [vm_compute; reflexivity|].
  refine (proj2 (proj2 (entries_lost_only_if_expired 10 ex_race (LEvictGet "a" ex_p) _ "a" ex_p
    ex_race_reachable (step_get_evict ex_race_store 12 [] [] _ "a" ex_p) _ _))).
  - vm_compute. reflexivity.
  - vm_compute. discriminate.
Defined.

(** So a live session can be lost without any [Delete]. *)
Lemma Get_evicts_refreshed_session :
  ∃ c c' p, reachable 10 c ∧ step c (LEvictGet "a" p) c' ∧
    sessions (c_store c) !! "a" = Some p ∧ expired_at (c_clock c) (c_store c) p = false ∧
    sessions (c_store c') !! "a" = None.
Proof.
  eexists ex_race, _, ex_p. split; [apply ex_race_reachable|].
  split; [apply (step_get_evict ex_race_store 12 [] [] _ "a" ex_p)|].
  split_and!; vm_compute; reflexivity.
Qed.
