(* ===== verification/ToolValidator.v ===== *)
(** Validation of tool-call arguments against a JSON schema,
    [internal/engine/tool_validator.go], and the comparison of dynamic values it
    shares with the tool processor. *)

From S2P Require Import Prelude GoBase AgentTypes.


Section validator.
Context {fmt : GoFmt} {conv : GoConv}.

Abbreviation object := (list (string * value)).

Definition toFloat (v : value) : option float64 :=
  match v with
  | VInt n | VInt32 n | VInt64 n => Some (f64_of_Z n)
  | VFloat32 f | VFloat64 f => Some f
  | _ => None
  end.

Definition equalScalar (a b : value) : bool :=
  match toFloat a with
  | Some af => match toFloat b with Some bf => f64_eq af bf | None => false end
  | None => match toFloat b with Some _ => false | None => DeepEqual a b end
  end.

Definition inEnum (val : value) (allowed : list value) : bool :=
  existsb (λ a, equalScalar a val) allowed.

Definition toInt (val : value) : option Z :=
  match val with
  | VInt n | VInt64 n => Some n
  | VFloat64 f => Some (f64_to_int f)
  | _ => None
  end.

Definition getPropertyNames (schema : object) : list string :=
  default [] ((λ props, props.*1) <$> (obj_get schema "properties" ≫= as_obj)).

Definition expected (name want got : string) : string :=
  "parameter " +:+ Quote name +:+ ": expected " +:+ want +:+ ", got " +:+ got.

Definition checkType (name : string) (val : value) (expectedType : string) : string :=
  if decide (expectedType = "string") then
    match val with VString _ => "" | _ => expected name "string" (type_name val) end
  else if decide (expectedType = "integer") then
    match val with
    | VInt _ | VInt32 _ | VInt64 _ => ""
    | VFloat64 f =>
        if f64_eq f (f64_of_Z (f64_to_int f)) then "" else expected name "integer" "float"
    | _ => expected name "integer" (type_name val)
    end
  else if decide (expectedType = "number") then
    match val with
    | VInt _ | VInt32 _ | VInt64 _ | VFloat64 _ => ""
    | _ => expected name "number" (type_name val)
    end
  else if decide (expectedType = "boolean") then
    match val with VBool _ => "" | _ => expected name "boolean" (type_name val) end
  else if decide (expectedType = "array") then
    match val with VArr _ => "" | _ => expected name "array" (type_name val) end
  else if decide (expectedType = "object") then
    match val with VObj _ => "" | _ => expected name "object" (type_name val) end
  else "".

(** [validateObjectAt], with each argument given as the function that validates
    it: the Go code recurses on [args[name]] and on nothing else. *)
Definition validateObjectWith (schema : object)
    (args : list (string * (object → string → list string))) (path : string) : list string :=
  let required :=
    match obj_get schema "required" ≫= as_arr with
    | Some reqList =>
        reqList ≫= λ r,
          match r with
          | VString name =>
              match obj_get args name with
              | Some _ => []
              | None => ["missing required parameter " +:+ Quote (path +:+ name)]
              end
          | _ => []
          end
    | None => []
    end in
  let properties :=
    match obj_get schema "properties" ≫= as_obj with
    | Some propMap =>
        propMap ≫= λ '(name, propSchema),
          match obj_get args name with
          | None => []
          | Some validate =>
              match propSchema with
              | VObj propDef => validate propDef (path +:+ name)
              | _ => []
              end
          end
    | None => []
    end in
  let additional :=
    match obj_get schema "additionalProperties" ≫= as_bool with
    | Some false =>
        let allowed := getPropertyNames schema in
        args ≫= λ '(name, _),
          if decide (name ∈ allowed) then []
          else ["unexpected parameter " +:+ Quote (path +:+ name)]
    | _ => []
    end in
  required ++ properties ++ additional.

Definition type_errors (propDef : object) (val : value) (name : string) : list string :=
  match obj_get propDef "type" ≫= as_string with
  | Some propType =>
      let typeErr := checkType name val propType in
      if decide (propType = "" ∨ typeErr = "") then [] else [typeErr]
  | None => []
  end.

Definition enum_errors (propDef : object) (val : value) (name : string) : list string :=
  match obj_get propDef "enum" ≫= as_arr with
  | Some enumList =>
      if inEnum val enumList then []
      else ["parameter " +:+ Quote name +:+ " value " +:+ Sprint val +:+
            " not in allowed values " +:+ Sprint (VArr enumList)]
  | None => []
  end.

Definition length_errors (propDef : object) (str : string) (name : string) : list string :=
  let len := Z.of_nat (String.length str) in
  match obj_get propDef "minLength" ≫= toInt with
  | Some min =>
      if (len <? min)%Z
      then ["parameter " +:+ Quote name +:+ " length " +:+ fmt_d len +:+
            " is less than minimum " +:+ fmt_d min] else []
  | None => []
  end ++
  match obj_get propDef "maxLength" ≫= toInt with
  | Some max =>
      if (max <? len)%Z
      then ["parameter " +:+ Quote name +:+ " length " +:+ fmt_d len +:+
            " exceeds maximum " +:+ fmt_d max] else []
  | None => []
  end.

(** [validateValue], with [validateObjectAt] and [validateArray] inlined to make
    the recursion structural in the value; [validateValue_eq] below is the
    equation of the code. *)
Fixpoint validateValue (val : value) (propDef : object) (name : string) {struct val}
  : list string :=
  let propType := default "" (obj_get propDef "type" ≫= as_string) in
  type_errors propDef val name ++ enum_errors propDef val name ++
  match val with
  | VString str => if decide (propType = "string") then length_errors propDef str name else []
  | VObj nested =>
      if decide (propType = "object")
      then validateObjectWith propDef (map (λ kv, (kv.1, validateValue kv.2)) nested) (name +:+ ".")
      else []
  | VArr arr =>
      if decide (propType = "array") then
        match obj_get propDef "items" ≫= as_obj with
        | Some itemsSchema =>
            (fix items (i : nat) (vs : list value) : list string :=
               match vs with
               | [] => []
               | item :: vs =>
                   validateValue item itemsSchema (name +:+ "[" +:+ fmt_d (Z.of_nat i) +:+ "]") ++
                   items (S i) vs
               end) 0 arr
        | None => []
        end
      else []
  | _ => []
  end.

Definition validateObjectAt (schema args : object) (path : string) : list string :=
  validateObjectWith schema (map (λ kv, (kv.1, validateValue kv.2)) args) path.

Definition validateObject (schema args : object) : list string := validateObjectAt schema args "".

Definition validateArray (propDef : object) (val : value) (name : string) : list string :=
  match as_arr val, obj_get propDef "items" ≫= as_obj with
  | Some arr, Some itemsSchema =>
      concat (imap (λ i item, validateValue item itemsSchema
                      (name +:+ "[" +:+ fmt_d (Z.of_nat i) +:+ "]")) arr)
  | _, _ => []
  end.

Definition ValidateParameters (schema args : object) : list string :=
  match schema with
  | [] => []
  | _ => if decide (obj_get schema "type" ≫= as_string = Some "object")
         then validateObject schema args else []
  end.

(** ** What the validator promises *)

(** The types of the schema language a value has; an unknown type name allows
    everything. *)
Definition has_type (t : string) (v : value) : Prop :=
  if decide (t = "string") then is_Some (as_string v)
  else if decide (t = "integer") then
    match v with
    | VInt _ | VInt32 _ | VInt64 _ => True
    | VFloat64 f => f64_eq f (f64_of_Z (f64_to_int f)) = true
    | _ => False
    end
  else if decide (t = "number") then
    match v with VInt _ | VInt32 _ | VInt64 _ | VFloat64 _ => True | _ => False end
  else if decide (t = "boolean") then is_Some (as_bool v)
  else if decide (t = "array") then is_Some (as_arr v)
  else if decide (t = "object") then is_Some (as_obj v)
  else True.

Definition length_ok (propDef : object) (str : string) : Prop :=
  let len := Z.of_nat (String.length str) in
  (∀ min, obj_get propDef "minLength" ≫= toInt = Some min → (min ≤ len)%Z) ∧
  (∀ max, obj_get propDef "maxLength" ≫= toInt = Some max → (len ≤ max)%Z).

(** An object satisfies an object schema: no required member is missing, every
    member with a schema satisfies it, and no other member is there when
    [additionalProperties] is [false]. *)
Definition object_ok (conforms : object → value → Prop) (schema args : object) : Prop :=
  (∀ req name, obj_get schema "required" = Some (VArr req) → VString name ∈ req →
     is_Some (obj_get args name)) ∧
  (∀ props name propDef v, obj_get schema "properties" = Some (VObj props) →
     (name, VObj propDef) ∈ props → obj_get args name = Some v → conforms propDef v) ∧
  (obj_get schema "additionalProperties" = Some (VBool false) →
     ∀ name, name ∈ args.*1 → name ∈ getPropertyNames schema).

(** A value satisfies a schema. *)
Inductive conforms (propDef : object) (v : value) : Prop :=
| conforms_intro
    (Htype : ∀ t, obj_get propDef "type" = Some (VString t) → has_type t v)
    (Henum : ∀ allowed, obj_get propDef "enum" = Some (VArr allowed) →
       ∃ a, a ∈ allowed ∧ equalScalar a v = true)
    (Hstring : ∀ str, obj_get propDef "type" = Some (VString "string") → v = VString str →
       length_ok propDef str)
    (Hobject : ∀ nested, obj_get propDef "type" = Some (VString "object") → v = VObj nested →
       object_ok conforms propDef nested)
    (Harray : ∀ arr items, obj_get propDef "type" = Some (VString "array") → v = VArr arr →
       obj_get propDef "items" = Some (VObj items) → ∀ w, w ∈ arr → conforms items w).

(** ** The validator decides conformance *)

Lemma expected_not_nil name want got : expected name want got ≠ "".
Proof. done. Qed.

Lemma checkType_ok name v t : checkType name v t = "" ↔ has_type t v.
Proof.
  unfold checkType, has_type.
  repeat (case_decide; [destruct v; simpl; try case_match;
    (split; [try done; try (intros []; done); by eexists|try done; by intros []])|]).
  done.
Qed.

Lemma type_errors_nil propDef v name :
  type_errors propDef v name = [] ↔
  ∀ t, obj_get propDef "type" = Some (VString t) → has_type t v.
Proof.
  unfold type_errors. destruct (obj_get propDef "type") as [[]|]; simpl; try done.
  case_decide as Hd.
  - split; [|done]. intros _ t [= <-]. apply (checkType_ok name).
    by destruct Hd as [->|Hd].
  - split; [done|]. intros H. destruct Hd. right. by apply checkType_ok, H.
Qed.

Lemma inEnum_spec v allowed :
  inEnum v allowed = true ↔ ∃ a, a ∈ allowed ∧ equalScalar a v = true.
Proof.
  unfold inEnum. rewrite existsb_exists. by setoid_rewrite list_elem_of_In.
Qed.

Lemma enum_errors_nil propDef v name :
  enum_errors propDef v name = [] ↔
  ∀ allowed, obj_get propDef "enum" = Some (VArr allowed) →
    ∃ a, a ∈ allowed ∧ equalScalar a v = true.
Proof.
  unfold enum_errors. destruct (obj_get propDef "enum") as [[]|]; simpl; try done.
  destruct (inEnum v vs) eqn:Hi.
  - split; [|done]. intros _ ? [= <-]. by apply inEnum_spec.
  - split; [done|]. intros H. apply not_true_iff_false in Hi. destruct Hi.
    by apply inEnum_spec, H.
Qed.

Lemma length_errors_nil propDef str name :
  length_errors propDef str name = [] ↔ length_ok propDef str.
Proof.
  unfold length_errors, length_ok. rewrite app_nil. f_equiv.
  - destruct (obj_get propDef "minLength" ≫= toInt) as [min|]; [|done].
    destruct (Z.ltb_spec (Z.of_nat (String.length str)) min).
    + split; [done|]. intros H1. specialize (H1 min eq_refl). lia.
    + split; [|done]. by intros _ ? [= <-].
  - destruct (obj_get propDef "maxLength" ≫= toInt) as [max|]; [|done].
    destruct (Z.ltb_spec max (Z.of_nat (String.length str))).
    + split; [done|]. intros H1. specialize (H1 max eq_refl). lia.
    + split; [|done]. by intros _ ? [= <-].
Qed.

Lemma validateObjectWith_nil (f : value → object → string → list string)
    (P : object → value → Prop) schema args path :
  (∀ k v, (k, v) ∈ args → ∀ propDef name, f v propDef name = [] ↔ P propDef v) →
  validateObjectWith schema (map (λ kv, (kv.1, f kv.2)) args) path = [] ↔ object_ok P schema args.
Proof.
  intros Hf. unfold validateObjectWith, object_ok. rewrite !app_nil. f_equiv; [|f_equiv].
  - destruct (obj_get schema "required") as [[]|]; simpl; try done.
    rewrite bind_nil_iff. split.
    + intros H ? name [= <-] Hin. specialize (H _ Hin). simpl in H. rewrite obj_get_map in H.
      by destruct (obj_get args name).
    + intros H r Hin. destruct r; try done. destruct (H vs s eq_refl Hin) as [v Hv].
      by rewrite obj_get_map, Hv.
  - destruct (obj_get schema "properties") as [[]|]; simpl; try done.
    rewrite bind_nil_iff. split.
    + intros H ? name propDef v [= <-] Hin Hv. specialize (H _ Hin). simpl in H.
      rewrite obj_get_map, Hv in H. simpl in H.
      by apply (Hf name v (obj_get_elem _ _ _ Hv)) in H.
    + intros H [name propSchema] Hin. rewrite obj_get_map.
      destruct (obj_get args name) as [v|] eqn:Hv; [|done]. simpl.
      destruct propSchema; try done.
      apply (Hf name v (obj_get_elem _ _ _ Hv)). by apply (H kvs name).
  - destruct (obj_get schema "additionalProperties") as [[]|]; simpl; try done.
    destruct b; [done|]. rewrite bind_nil_iff. split.
    + intros H _ name [[k v] [-> Hin]]%list_elem_of_fmap.
      specialize (H (k, f v)). simpl in *. case_decide; [done|]. discriminate H.
      apply list_elem_of_fmap. by exists (k, v).
    + intros H [k g] [[k' v] [[= -> ->] Hin]]%list_elem_of_fmap. case_decide as Hd; [done|].
      destruct Hd. apply H; [done|]. apply list_elem_of_fmap. by exists (k', v).
Qed.

(** The elements of an array, as the code enumerates them. *)
Lemma validateArray_items (items : object) name arr n :
  (fix go (i : nat) (vs : list value) : list string :=
     match vs with
     | [] => []
     | item :: vs =>
         validateValue item items (name +:+ "[" +:+ fmt_d (Z.of_nat i) +:+ "]") ++ go (S i) vs
     end) n arr =
  concat (imap (λ i item, validateValue item items
                  (name +:+ "[" +:+ fmt_d (Z.of_nat (n + i)) +:+ "]")) arr).
Proof.
  revert n. induction arr as [|v arr IH]; intros n; [done|]. simpl.
  rewrite Nat.add_0_r, IH. do 2 f_equal. apply imap_ext. intros i w _.
  by replace (S n + i) with (n + S i) by lia.
Qed.

(** The recursion of the code. *)
Lemma validateValue_eq val propDef name :
  validateValue val propDef name =
    type_errors propDef val name ++ enum_errors propDef val name ++
    let propType := default "" (obj_get propDef "type" ≫= as_string) in
    if decide (propType = "string") then
      match val with VString str => length_errors propDef str name | _ => [] end
    else if decide (propType = "object") then
      match val with VObj nested => validateObjectAt propDef nested (name +:+ ".") | _ => [] end
    else if decide (propType = "array") then validateArray propDef val name
    else [].
Proof.
  destruct val; simpl; do 2 f_equal; unfold validateArray; simpl;
    repeat (case_decide; try done; try congruence).
  destruct (obj_get propDef "items" ≫= as_obj) as [items|]; [|done].
  apply (validateArray_items items name vs 0).
Qed.

(** The part of [validateValue] that looks inside the value. *)
Definition inner_errors (val : value) (propDef : object) (name : string) : list string :=
  let propType := default "" (obj_get propDef "type" ≫= as_string) in
  if decide (propType = "string") then
    match val with VString str => length_errors propDef str name | _ => [] end
  else if decide (propType = "object") then
    match val with VObj nested => validateObjectAt propDef nested (name +:+ ".") | _ => [] end
  else if decide (propType = "array") then validateArray propDef val name
  else [].

Lemma schema_type (propDef : object) t :
  t ≠ "" → default "" (obj_get propDef "type" ≫= as_string) = t ↔
    obj_get propDef "type" = Some (VString t).
Proof.
  intros Ht. destruct (obj_get propDef "type") as [[]|]; simpl; split; congruence.
Qed.

Lemma inner_errors_nil val propDef name :
  (∀ nested path, val = VObj nested →
     validateObjectAt propDef nested path = [] ↔ object_ok conforms propDef nested) →
  (∀ arr items, val = VArr arr → ∀ w name, w ∈ arr →
     validateValue w items name = [] ↔ conforms items w) →
  inner_errors val propDef name = [] ↔
    (∀ str, obj_get propDef "type" = Some (VString "string") → val = VString str →
       length_ok propDef str) ∧
    (∀ nested, obj_get propDef "type" = Some (VString "object") → val = VObj nested →
       object_ok conforms propDef nested) ∧
    (∀ arr items, obj_get propDef "type" = Some (VString "array") → val = VArr arr →
       obj_get propDef "items" = Some (VObj items) → ∀ w, w ∈ arr → conforms items w).
Proof.
  intros Hobj Harr. unfold inner_errors. cbv zeta.
  destruct (decide (_ = "string")) as [Ht|Hs]; [|destruct (decide (_ = "object")) as [Ht|Ho];
    [|destruct (decide (_ = "array")) as [Ht|Ha]]].
  - apply schema_type in Ht as ->; [|done]. split.
    + intros H. split; [|by split]. intros str _ ->. by apply (length_errors_nil _ _ name).
    + intros [H _]. destruct val; try done. by apply length_errors_nil, H.
  - apply schema_type in Ht as ->; [|done]. split.
    + intros H. split; [done|]. split; [|done]. intros nested _ ->. by eapply Hobj.
    + intros (_ & H & _). destruct val; try done. by apply Hobj, H.
  - apply schema_type in Ht as ->; [|done]. unfold validateArray. split.
    + intros H. do 2 (split; [done|]). intros arr items _ -> Hi w Hw. rewrite Hi in H. simpl in H.
      rewrite concat_nil_iff in H. apply list_elem_of_lookup in Hw as [i Hw].
      apply (Harr arr items eq_refl w (name +:+ "[" +:+ fmt_d (Z.of_nat i) +:+ "]"));
        [by eapply list_elem_of_lookup_2|].
      apply H, list_elem_of_lookup. exists i. by rewrite list_lookup_imap, Hw.
    + intros (_ & _ & H). destruct val as [| | | | | | | |arr| |]; try done. simpl.
      destruct (obj_get propDef "items") as [[]|]; try done. simpl.
      apply concat_nil_iff. intros e He. apply list_elem_of_lookup in He as [i He].
      rewrite list_lookup_imap in He. apply fmap_Some in He as (w & Hw & ->).
      apply list_elem_of_lookup_2 in Hw. by eapply Harr, H.
  - rewrite schema_type in Hs, Ho, Ha by done. by split.
Qed.

(** [validateValue] reports nothing exactly on the values that satisfy the
    schema, whatever the value is called. *)
Lemma validateValue_nil val propDef name :
  validateValue val propDef name = [] ↔ conforms propDef val.
Proof.
  revert propDef name.
  induction val as [v Hna Hno|vs IH|kvs IH] using value_nested_ind; intros propDef name;
    rewrite validateValue_eq.
  all: match goal with |- _ ++ _ ++ ?rest = [] ↔ conforms _ ?v =>
         change rest with (inner_errors v propDef name);
         rewrite !app_nil, type_errors_nil, enum_errors_nil, inner_errors_nil
       end.
  all: try (split; [intros (?&?&?&?&?); by constructor|by intros []]).
  - intros nested path ->. by destruct (Hno nested).
  - intros arr items ->. by destruct (Hna arr).
  - done.
  - intros arr items [= <-] w n Hw. rewrite Forall_forall in IH. by apply IH.
  - intros nested path [= <-]. apply validateObjectWith_nil. intros k v Hin p n.
    rewrite Forall_forall in IH. by apply (IH (k, v)).
  - done.
Qed.

Lemma validateObjectAt_nil schema args path :
  validateObjectAt schema args path = [] ↔ object_ok conforms schema args.
Proof. apply validateObjectWith_nil. intros k v _ p n. apply validateValue_nil. Qed.

(** ** Properties *)

(** validation accepts the arguments exactly when the schema is not an
    object schema or they satisfy it: recursively, required members are present,
    members have the right types, enumerated values and lengths, and no member is
    unknown when [additionalProperties] is [false]. *)
Theorem ValidateParameters_decides schema args :
  ValidateParameters schema args = [] ↔
  (obj_get schema "type" = Some (VString "object") → object_ok conforms schema args).
Proof.
  destruct schema as [|kv schema]; [done|]. unfold ValidateParameters.
  case_decide as Hd.
  - unfold validateObject. rewrite validateObjectAt_nil. split; [done|]. intros H. apply H.
    destruct (obj_get (kv :: schema) "type") as [[]|]; naive_solver.
  - split; [|done]. intros _ Ht. by rewrite Ht in Hd.
Qed.

(** comparing dynamic values is symmetric and never identifies values of
    different kinds: numbers compare with numbers only, by value; anything else
    only with a value of the same dynamic type. *)
Theorem equalScalar_sound a b :
  value_ok a → value_ok b →
  equalScalar a b = equalScalar b a ∧
  (equalScalar a b = true →
   match toFloat a, toFloat b with
   | Some x, Some y => f64_eq x y = true
   | None, None => type_name a = type_name b
   | _, _ => False
   end).
Proof.
  intros Ha Hb. unfold equalScalar. destruct (toFloat a) as [x|] eqn:Hx, (toFloat b) as [y|];
    try done.
  - split; [apply f64_eq_sym|done].
  - split; [by apply DeepEqual_sym|]. clear. destruct a, b; done.
Qed.

Lemma equalScalar_sound_witness :
  let a := VObj [("x", VInt 1); ("y", VArr [VString "1"])] in
  let b := VObj [("y", VArr [VString "1"]); ("x", VInt 1)] in
  equalScalar a b = true ∧ equalScalar b a = true ∧ equalScalar (VInt 1) (VString "1") = false.
Proof.
  cbv zeta. split; [vm_compute; reflexivity|]. split; [|vm_compute; reflexivity].
  rewrite <-(proj1 (equalScalar_sound (VObj [("x", VInt 1); ("y", VArr [VString "1"])])
     (VObj [("y", VArr [VString "1"]); ("x", VInt 1)])
     ltac:(apply value_okb_ok; vm_compute; reflexivity)
     ltac:(apply value_okb_ok; vm_compute; reflexivity))).
  vm_compute. reflexivity.
Defined.
End validator.
