(* ===== verification/Contract.v ===== *)
(** Contracts of agents, [internal/contract/contract.go]: what consumers see of an agent,
    extracted, and the changes between two contracts with their severity. A contract on
    disk goes through [encoding/json], a parameter. *)

From S2P Require Import Prelude GoBase AgentTypes.
From S2P Require Import ToolValidator.

(** ** Contracts *)

Abbreviation object := (list (string * value)).

Record ToolContract := mkToolContract { tl_Name : string; tl_Description : string; tl_Parameters : object }.

Record StreamContract := mkStreamContract { sm_Enabled : bool }.

Record Contract := mkContract {
  ct_Name : string; ct_Protocol : string; ct_Model : string; ct_Tools : list ToolContract;
  ct_Scenarios : list string; ct_Streaming : option StreamContract
}.

(** [json.Marshal] of a parameter schema, and what a text reads as. *)
Class ContractJson := { MarshalSchema : object → option string; UnmarshalObject : string → option object }.

Definition normalizeJSON {json : ContractJson} (v : object) : object :=
  match MarshalSchema v with
  | None => []
  | Some data => default [] (UnmarshalObject data)
  end.

Definition Extract {json : ContractJson} (def : AgentDefinition) : Contract :=
  let tools := (λ t, mkToolContract (td_Name t) (td_Description t) (normalizeJSON (td_Parameters t))) <$> as_Tools (ad_Spec def) in
  let behavior := as_Behavior (ad_Spec def) in
  mkContract (md_Name (ad_Metadata def)) (as_Protocol (ad_Spec def)) (as_Model (ad_Spec def))
    (sort_by tl_Name String.le tools) (sort_by id String.le (sc_Name <$> bc_Scenarios behavior))
    ((λ s, mkStreamContract (st_Enabled s)) <$> bc_Streaming behavior).

(** ** Changes *)

Inductive Severity := SeverityBreaking | SeverityAdditive | SeverityInfo.
#[export] Instance Severity_eq_dec : EqDecision Severity.
Proof. solve_decision. Defined.

Record Change := mkChange { ch_Severity : Severity; ch_Path : string; ch_Message : string }.

Definition HasBreaking (changes : list Change) : bool :=
  existsb (λ c, bool_decide (ch_Severity c = SeverityBreaking)) changes.

(** The strings of the list under [required]. *)
Definition schemaRequired (schema : object) : list string :=
  match obj_get schema "required" with
  | Some (VArr vs) => omap (λ v, match v with VString s => Some s | _ => None end) vs
  | _ => []
  end.

Definition schemaProperties (schema : object) : gmap string value :=
  match obj_get schema "properties" with Some (VObj props) => list_to_map props | _ => ∅ end.

(** The last tool of a name. *)
Definition indexToolsByName (tools : list ToolContract) : gmap string ToolContract :=
  list_to_map (reverse ((λ t, (tl_Name t, t)) <$> tools)).

Definition name_set (names : list string) : gmap string unit := list_to_map ((λ s, (s, tt)) <$> names).

Section diff.
Context {mr : MapRange} {fmt : GoFmt}.

Definition diffTool (name : string) (old new : ToolContract) : list Change :=
  let at_ part := ("tools." +:+ name +:+ part)%string in
  let oldReq := schemaRequired (tl_Parameters old) in
  let newReq := schemaRequired (tl_Parameters new) in
  let oldProps := schemaProperties (tl_Parameters old) in
  let newProps := schemaProperties (tl_Parameters new) in
  (if decide (tl_Description old = tl_Description new) then []
   else [mkChange SeverityInfo (at_ ".description") "description changed"]) ++
  ((λ field, mkChange SeverityBreaking (at_ ".required") ("parameter " +:+ Quote field +:+ " newly required")) <$>
     filter (.∉ oldReq) newReq) ++
  ((λ field, mkChange SeverityAdditive (at_ ".required") ("parameter " +:+ Quote field +:+ " no longer required")) <$>
     filter (.∉ newReq) oldReq) ++
  (range oldProps ≫= λ kv,
     match newProps !! kv.1 with
     | None => [mkChange SeverityBreaking (at_ (".properties." +:+ kv.1)) ("property " +:+ Quote kv.1 +:+ " removed")]
     | Some v => if DeepEqual kv.2 v then []
                 else [mkChange SeverityBreaking (at_ (".properties." +:+ kv.1)) ("property " +:+ Quote kv.1 +:+ " schema changed")]
     end) ++
  (range newProps ≫= λ kv,
     match oldProps !! kv.1 with
     | None => [mkChange SeverityAdditive (at_ (".properties." +:+ kv.1)) ("property " +:+ Quote kv.1 +:+ " added")]
     | Some _ => []
     end).

Definition diffTools (oldTools newTools : list ToolContract) : list Change :=
  let oldByName := indexToolsByName oldTools in
  let newByName := indexToolsByName newTools in
  sort_by ch_Path String.le
    ((range oldByName ≫= λ kv,
        match newByName !! kv.1 with
        | None => [mkChange SeverityBreaking ("tools." +:+ kv.1) ("tool " +:+ Quote kv.1 +:+ " removed")]
        | Some nt => diffTool kv.1 kv.2 nt
        end) ++
     (range newByName ≫= λ kv,
        match oldByName !! kv.1 with
        | None => [mkChange SeverityAdditive ("tools." +:+ kv.1) ("tool " +:+ Quote kv.1 +:+ " added")]
        | Some _ => []
        end)).

Definition diffScenarios (old new : list string) : list Change :=
  let oldSet := name_set old in
  let newSet := name_set new in
  sort_by ch_Path String.le
    ((range oldSet ≫= λ kv,
        match newSet !! kv.1 with
        | None => [mkChange SeverityBreaking ("scenarios." +:+ kv.1) ("scenario " +:+ Quote kv.1 +:+ " removed")]
        | Some _ => []
        end) ++
     (range newSet ≫= λ kv,
        match oldSet !! kv.1 with
        | None => [mkChange SeverityAdditive ("scenarios." +:+ kv.1) ("scenario " +:+ Quote kv.1 +:+ " added")]
        | Some _ => []
        end)).

Definition streams (s : option StreamContract) : bool := match s with Some s => sm_Enabled s | None => false end.

Definition diffStreaming (old new : option StreamContract) : list Change :=
  if streams old && negb (streams new) then [mkChange SeverityBreaking "streaming" "streaming disabled"]
  else if negb (streams old) && streams new then [mkChange SeverityAdditive "streaming" "streaming enabled"]
  else [].

Definition Diff (old new : Contract) : list Change :=
  (if decide (ct_Protocol old = ct_Protocol new) then []
   else [mkChange SeverityBreaking "protocol"
           ("protocol changed " +:+ Quote (ct_Protocol old) +:+ " -> " +:+ Quote (ct_Protocol new))]) ++
  (if decide (ct_Model old = ct_Model new) then []
   else [mkChange SeverityInfo "model" ("model changed " +:+ Quote (ct_Model old) +:+ " -> " +:+ Quote (ct_Model new))]) ++
  diffTools (ct_Tools old) (ct_Tools new) ++ diffScenarios (ct_Scenarios old) (ct_Scenarios new) ++
  diffStreaming (ct_Streaming old) (ct_Streaming new).
End diff.

(** ** Equal schemas accept the same *)

Lemma f64_eq_true a b : f64_eq a b = true → a = b ∨ ∃ s t, a = S754_zero s ∧ b = S754_zero t.
Proof.
  unfold f64_eq, SFeqb. destruct a as [s|s| |s1 m1 e1], b as [t|t| |s2 m2 e2]; simpl; try done; try (by repeat case_match).
  - intros _. right. by exists s, t.
  - destruct s, t; try done; by left.
  - change (Pos.compare_cont Eq) with Pos.compare. destruct s1, s2; try done;
      destruct (e1 ?= e2)%Z eqn:He; try done; apply Z.compare_eq in He as ->;
      destruct (m1 ?= m2)%positive eqn:Hm; try done; apply Pos.compare_eq in Hm as ->; by left.
Qed.

Lemma f64_eq_trans a b c : f64_eq a b = true → f64_eq b c = true → f64_eq a c = true.
Proof. intros H1 H2. by destruct (f64_eq_true _ _ H1) as [->|(s & t & -> & ->)]; [|destruct c]. Qed.

(** Two equal objects have equal members. *)
Lemma deep_members p q : value_ok (VObj p) → value_ok (VObj q) → DeepEqual (VObj p) (VObj q) = true →
  ∀ k, match obj_get p k, obj_get q k with
       | Some x, Some y => DeepEqual x y = true ∧ value_ok x ∧ value_ok y
       | None, None => True
       | _, _ => False
       end.
Proof.
  intros [Hndp Hp]%value_ok_obj [Hndq Hq]%value_ok_obj. rewrite DeepEqual_obj, andb_true_iff, Nat.eqb_eq, forallb_forall.
  intros [Hlen H] k.
  assert (∀ k x, (k, x) ∈ p → ∃ y, obj_get q k = Some y ∧ DeepEqual x y = true) as Hcov.
  { intros k' x Hx. specialize (H (k', x) (proj1 (list_elem_of_In _ _) Hx)). cbn [fst snd] in H.
    destruct (obj_get q k'); [eauto|done]. }
  destruct (obj_get p k) as [x|] eqn:Hx.
  - apply obj_get_elem in Hx as Hin. destruct (Hcov k x Hin) as (y & Hy & Hxy). rewrite Hy. apply obj_get_elem in Hy. eauto.
  - destruct (obj_get q k) as [y|] eqn:Hy; [|done]. apply obj_get_elem in Hy.
    assert (k ∈ p.*1) as Hk.
    { apply (same_keys p q Hndp Hlen); [|apply list_elem_of_fmap; by exists (k, y)].
      intros k' [[? x] [-> Hx']]%list_elem_of_fmap. destruct (Hcov _ _ Hx') as (y' & Hy' & _).
      apply obj_get_is_Some. by exists y'. }
    apply obj_get_is_Some in Hk as [x Hk]. congruence.
Qed.

Lemma DeepEqual_arr xs ys : DeepEqual (VArr xs) (VArr ys) = true ↔ Forall2 (λ x y, DeepEqual x y = true) xs ys.
Proof.
  simpl. revert ys. induction xs as [|x xs IH]; intros [|y ys]; try (split; [done|by inversion 1]).
  rewrite andb_true_iff, IH. split; [intros [??]; by constructor|by inversion 1].
Qed.

Lemma DeepEqual_trans a b c : DeepEqual a b = true → DeepEqual b c = true → DeepEqual a c = true.
Proof.
  revert b c. induction a as [a Hna Hno|xs IH|xs IH] using value_nested_ind; intros b c.
  - destruct a as [| | | | | | | |vs|kvs|xs]; try (by destruct (Hna vs)); try (by destruct (Hno kvs));
      destruct b as [| | | | | | | | | |ys]; try done; destruct c as [| | | | | | | | | |zs]; try done; simpl.
    + by destruct b0, b, b1.
    + rewrite !Z.eqb_eq. congruence. + rewrite !Z.eqb_eq. congruence. + rewrite !Z.eqb_eq. congruence.
    + apply f64_eq_trans. + apply f64_eq_trans.
    + rewrite !String.eqb_eq. congruence.
    + rewrite !andb_true_iff, !Nat.eqb_eq, !forallb_forall. intros [Hl1 H1] [Hl2 H2]. split; [congruence|].
      intros kv Hkv. specialize (H1 kv Hkv). destruct (obj_get ys kv.1) as [y|] eqn:Hy; [|done].
      apply obj_get_elem in Hy. specialize (H2 _ (proj1 (list_elem_of_In _ _) Hy)). cbn [fst snd] in H2.
      destruct (obj_get zs kv.1); [|done]. apply String.eqb_eq in H1 as ->. done.
  - destruct b as [| | | | | | | |ys| |]; try done. destruct c as [| | | | | | | |zs| |]; try done.
    rewrite !DeepEqual_arr. intros H1. revert zs. induction H1 as [|x y xs ys Hxy _ IH']; [done|].
    intros zs H2. inversion H2; subst. apply Forall_cons in IH as [Hx IH]. constructor; [by eapply Hx|auto].
  - destruct b as [| | | | | | | | |ys|]; try done. destruct c as [| | | | | | | | |zs|]; try done.
    rewrite !DeepEqual_obj, !andb_true_iff, !Nat.eqb_eq, !forallb_forall. intros [Hl1 H1] [Hl2 H2]. split; [congruence|].
    intros kv Hkv. specialize (H1 kv Hkv). destruct (obj_get ys kv.1) as [y|] eqn:Hy; [|done].
    apply obj_get_elem in Hy. specialize (H2 _ (proj1 (list_elem_of_In _ _) Hy)). cbn [fst snd] in H2.
    destruct (obj_get zs kv.1); [|done]. rewrite Forall_forall in IH.
    eapply (IH kv); [by apply list_elem_of_In|done..].
Qed.

Section schemas.
Context {conv : GoConv}.

Lemma equalScalar_deep a b v : DeepEqual a b = true → equalScalar b v = true → equalScalar a v = true.
Proof.
  unfold equalScalar. intros Hab. destruct a, b; try done; cbn [toFloat] in *; simpl in Hab;
    try (by apply Z.eqb_eq in Hab as ->); destruct (toFloat v) as [y|] eqn:Hv; try done;
    try (by apply f64_eq_trans); by apply DeepEqual_trans.
Qed.

Lemma toInt_deep a b : DeepEqual a b = true → toInt a = toInt b.
Proof.
  destruct a, b; try done; simpl; intros Hab; try (by apply Z.eqb_eq in Hab as ->).
  destruct (f64_eq_true _ _ Hab) as [->|(s & t & -> & ->)]; [done|].
  by rewrite !(f64_to_int_trunc _ 0) by (done || unfold in_int64, two63; lia).
Qed.

Section equal.
Context (p q : object) (Hp : value_ok (VObj p)) (Hq : value_ok (VObj q)) (Heq : DeepEqual (VObj p) (VObj q) = true).

Lemma same_string k t : obj_get q k = Some (VString t) → obj_get p k = Some (VString t).
Proof.
  intros H. pose proof (deep_members p q Hp Hq Heq k) as Hm. rewrite H in Hm.
  destruct (obj_get p k) as [x|]; [|done]. destruct Hm as [Hm _]. destruct x; try done. simpl in Hm.
  by apply String.eqb_eq in Hm as ->.
Qed.

Lemma same_bool k b : obj_get q k = Some (VBool b) → obj_get p k = Some (VBool b).
Proof.
  intros H. pose proof (deep_members p q Hp Hq Heq k) as Hm. rewrite H in Hm.
  destruct (obj_get p k) as [x|]; [|done]. destruct Hm as [Hm _]. destruct x; try done. simpl in Hm.
  by apply Bool.eqb_prop in Hm as ->.
Qed.

Lemma same_arr k ys : obj_get q k = Some (VArr ys) →
  ∃ xs, obj_get p k = Some (VArr xs) ∧ Forall2 (λ x y, DeepEqual x y = true) xs ys ∧ Forall value_ok xs ∧ Forall value_ok ys.
Proof.
  intros H. pose proof (deep_members p q Hp Hq Heq k) as Hm. rewrite H in Hm.
  destruct (obj_get p k) as [x|]; [|done]. destruct Hm as (Hm & Hx & Hy). destruct x; try discriminate Hm. apply DeepEqual_arr in Hm.
  rewrite value_ok_arr in Hx, Hy. eauto.
Qed.

Lemma same_obj k o : obj_get q k = Some (VObj o) →
  ∃ o', obj_get p k = Some (VObj o') ∧ DeepEqual (VObj o') (VObj o) = true ∧ value_ok (VObj o') ∧ value_ok (VObj o).
Proof.
  intros H. pose proof (deep_members p q Hp Hq Heq k) as Hm. rewrite H in Hm.
  destruct (obj_get p k) as [x|]; [|done]. destruct Hm as (Hm & Hx & Hy). destruct x; try done. eauto.
Qed.

Lemma same_int k n : obj_get q k ≫= toInt = Some n → obj_get p k ≫= toInt = Some n.
Proof.
  pose proof (deep_members p q Hp Hq Heq k) as Hm.
  destruct (obj_get p k) as [x|], (obj_get q k) as [y|]; try done. destruct Hm as [Hm _].
  cbn [mbind option_bind]. by rewrite (toInt_deep x y).
Qed.

(** The names of the properties of one are those of the other. *)
Lemma same_names name : name ∈ getPropertyNames p → name ∈ getPropertyNames q.
Proof.
  unfold getPropertyNames. pose proof (deep_members p q Hp Hq Heq "properties") as Hm.
  destruct (obj_get p "properties") as [x|], (obj_get q "properties") as [y|]; try done.
  destruct Hm as (Hm & Hx & Hy). destruct x as [| | | | | | | | |o|]; try (intros H; by apply not_elem_of_nil in H).
  destruct y as [| | | | | | | | |o'|]; try done. cbn [mbind option_bind as_obj fmap option_fmap option_map default from_option].
  intros Hin. apply obj_get_is_Some in Hin as [z Hz]. pose proof (deep_members o o' Hx Hy Hm name) as Hd. rewrite Hz in Hd.
  apply obj_get_is_Some. destruct (obj_get o' name); [by eexists|done].
Qed.

(** Equal object schemas are satisfied by the same objects, if their members are treated
    the same. *)
Lemma object_ok_deep args :
  (∀ k v, (k, v) ∈ args → ∀ s t, value_ok (VObj s) → value_ok (VObj t) → DeepEqual (VObj s) (VObj t) = true →
     conforms s v → conforms t v) →
  object_ok conforms p args → object_ok conforms q args.
Proof.
  intros IH (Hreq & Hprops & Hadd). split_and!.
  - intros ys name Hy Hin. destruct (same_arr _ _ Hy) as (xs & Hx & HF & _). apply (Hreq xs name Hx).
    apply list_elem_of_lookup in Hin as [i Hi]. destruct (Forall2_lookup_r _ _ _ _ _ HF Hi) as (x & Hxi & Hd).
    destruct x; try discriminate Hd. simpl in Hd. apply String.eqb_eq in Hd as ->. by eapply list_elem_of_lookup_2.
  - intros props name propDef v Hpr Hin Hv. destruct (same_obj _ _ Hpr) as (props' & Hpr' & Hd & Ho' & Ho).
    pose proof (deep_members props' props Ho' Ho Hd name) as Hm.
    apply value_ok_obj in Ho as [Hnd Hok]. apply (obj_get_Some props) in Hin as Hget; [|done]. rewrite Hget in Hm.
    destruct (obj_get props' name) as [x|] eqn:Hx; [|done]. destruct Hm as (Hm & Hx' & Hy').
    destruct x as [| | | | | | | | |propDef'|]; try discriminate Hm. apply obj_get_elem in Hx.
    eapply (IH name v); [by apply obj_get_elem|exact Hx'|exact Hy'|exact Hm|]. by eapply Hprops.
  - intros Ha name Hn. apply same_names. apply Hadd; [by apply same_bool|done].
Qed.
End equal.

Lemma same_enum p q v : value_ok (VObj p) → value_ok (VObj q) → DeepEqual (VObj p) (VObj q) = true →
  (∀ allowed, obj_get p "enum" = Some (VArr allowed) → ∃ a, a ∈ allowed ∧ equalScalar a v = true) →
  ∀ allowed, obj_get q "enum" = Some (VArr allowed) → ∃ a, a ∈ allowed ∧ equalScalar a v = true.
Proof.
  intros Hp Hq Heq He allowed Ha. destruct (same_arr p q Hp Hq Heq _ _ Ha) as (xs & Hx & HF & Hokx & Hoky).
  destruct (He xs Hx) as (a & Hin & Hs). apply list_elem_of_lookup in Hin as [i Hi].
  destruct (Forall2_lookup_l _ _ _ _ _ HF Hi) as (b & Hb & Hd). exists b. split; [by eapply list_elem_of_lookup_2|].
  eapply equalScalar_deep; [|exact Hs]. rewrite DeepEqual_sym; [exact Hd|..].
  - rewrite Forall_forall in Hoky. by apply Hoky, (list_elem_of_lookup_2 _ i).
  - rewrite Forall_forall in Hokx. by apply Hokx, (list_elem_of_lookup_2 _ i).
Qed.

(** Equal schemas are satisfied by the same values. *)
Lemma conforms_deep v p q : value_ok (VObj p) → value_ok (VObj q) → DeepEqual (VObj p) (VObj q) = true → conforms p v → conforms q v.
Proof.
  revert p q. induction v as [v Hna Hno|vs IH|kvs IH] using value_nested_ind; intros p q Hp Hq Heq [Ht He Hs Ho Ha].
  all: assert (∀ t, obj_get q "type" = Some (VString t) → obj_get p "type" = Some (VString t)) as Hty by (intros t; by apply same_string).
  all: constructor; [by auto|by apply (same_enum p q)|..].
  all: try (intros str Hq' Hv; destruct (Hs str (Hty _ Hq') Hv) as [Hmin Hmax]; split; intros n Hn;
    [apply Hmin|apply Hmax]; by apply (same_int p q)).
  - intros nested _ ->. by destruct (Hno nested).
  - intros arr items _ ->. by destruct (Hna arr).
  - intros nested _ H. discriminate H.
  - intros arr items Hq' [= <-] Hi w Hw. destruct (same_obj p q Hp Hq Heq _ _ Hi) as (items' & Hi' & Hd & Ho1 & Ho2).
    rewrite Forall_forall in IH. eapply (IH w Hw); [exact Ho1|exact Ho2|exact Hd|]. by eapply Ha; [apply Hty| | |].
  - intros nested Hq' [= <-]. apply (object_ok_deep p q Hp Hq Heq); [|by apply Ho; [apply Hty|]].
    intros k v Hin. rewrite Forall_forall in IH. exact (IH (k, v) Hin).
  - intros arr items _ H. discriminate H.
Qed.
End schemas.

(** ** What a difference means *)

Definition tool_of (c : Contract) (name : string) : option ToolContract := indexToolsByName (ct_Tools c) !! name.

(** What a consumer of the old tool relies on: no parameter became required, and every
    declared parameter has an equal schema. *)
Definition tool_keeps (old new : ToolContract) : Prop :=
  schemaRequired (tl_Parameters new) ⊆ schemaRequired (tl_Parameters old) ∧
  ∀ k v, schemaProperties (tl_Parameters old) !! k = Some v →
    ∃ w, schemaProperties (tl_Parameters new) !! k = Some w ∧ DeepEqual v w = true.

Record compatible (old new : Contract) : Prop := {
  cp_protocol : ct_Protocol old = ct_Protocol new;
  cp_tools name ot : tool_of old name = Some ot → ∃ nt, tool_of new name = Some nt ∧ tool_keeps ot nt;
  cp_scenarios : ct_Scenarios old ⊆ ct_Scenarios new;
  cp_streaming : streams (ct_Streaming old) = true → streams (ct_Streaming new) = true
}.

(** The parts a consumer reads without relying on them. *)
Definition same_labels (old new : Contract) : Prop :=
  ct_Model old = ct_Model new ∧
  ∀ name ot nt, tool_of old name = Some ot → tool_of new name = Some nt → tl_Description ot = tl_Description nt.

Definition contract_ok (c : Contract) : Prop := Forall (λ t, value_ok (VObj (tl_Parameters t))) (ct_Tools c).

Definition severe (P : Severity → Prop) (l : list Change) : Prop := ∀ c, c ∈ l → P (ch_Severity c).

Lemma severe_app P l1 l2 : severe P (l1 ++ l2) ↔ severe P l1 ∧ severe P l2.
Proof. unfold severe. setoid_rewrite elem_of_app. naive_solver. Qed.

Lemma severe_sorted P l : severe P (sort_by ch_Path String.le l) ↔ severe P l.
Proof. unfold severe. by setoid_rewrite elem_of_sort_by. Qed.

Lemma severe_fmap {A} P (f : A → Change) l : severe P (f <$> l) ↔ ∀ x, x ∈ l → P (ch_Severity (f x)).
Proof. unfold severe. setoid_rewrite list_elem_of_fmap. naive_solver. Qed.

Lemma severe_bind {A} P (f : A → list Change) l : severe P (l ≫= f) ↔ ∀ x, x ∈ l → severe P (f x).
Proof. unfold severe. setoid_rewrite list_elem_of_bind. naive_solver. Qed.

Lemma severe_one P c : severe P [c] ↔ P (ch_Severity c).
Proof. unfold severe. setoid_rewrite list_elem_of_singleton. naive_solver. Qed.

Lemma severe_nil P : severe P [] ↔ True.
Proof. unfold severe. setoid_rewrite elem_of_nil. naive_solver. Qed.

Lemma HasBreaking_false l : HasBreaking l = false ↔ severe (λ s, s ≠ SeverityBreaking) l.
Proof.
  unfold HasBreaking, severe. rewrite <-not_true_iff_false, existsb_exists. setoid_rewrite <-list_elem_of_In.
  setoid_rewrite bool_decide_eq_true. naive_solver.
Qed.

Lemma name_set_spec l s : name_set l !! s = Some tt ↔ s ∈ l.
Proof.
  unfold name_set. split.
  - intros H%elem_of_list_to_map_2. apply list_elem_of_fmap in H as (x & [= ->] & Hx). done.
  - intros Hs. destruct (list_to_map _ !! s) as [[]|] eqn:H; [done|]. apply not_elem_of_list_to_map in H.
    destruct H. rewrite <-list_fmap_compose. apply list_elem_of_fmap. by exists s.
Qed.

Lemma lookup_unit (m : gmap string unit) s : m !! s = None ↔ m !! s ≠ Some tt.
Proof. destruct (m !! s) as [[]|]; naive_solver. Qed.

Section meaning.
Context {mr : MapRange} {fmt : GoFmt}.

(** The changes of a difference are of the severities in [P] when there is none of the
    others. *)
Lemma filter_severe (a b : list string) (Q : Prop) `{!Decision Q} :
  (∀ x, x ∈ filter (.∉ b) a → Q) ↔ (¬ Q → a ⊆ b).
Proof.
  setoid_rewrite list_elem_of_filter. split.
  - intros H HQ x Hx. destruct (decide (x ∈ b)); [done|]. destruct HQ. by apply (H x).
  - intros H x [Hn Hx]. destruct (decide Q) as [|HQ]; [done|]. destruct Hn. by apply (H HQ).
Qed.

Lemma range_severe {V} P (m : gmap string V) (f : string * V → list Change) (G : string → V → Prop) (Q : Prop) `{!Decision Q} :
  (∀ k v, m !! k = Some v → severe P (f (k, v)) ↔ (¬ Q → G k v)) →
  severe P (range m ≫= f) ↔ (¬ Q → ∀ k v, m !! k = Some v → G k v).
Proof.
  intros Hf. rewrite severe_bind. split.
  - intros H HQ k v Hk. apply Hf; [done| |done]. apply H. by apply elem_of_range.
  - intros H [k v] Hk%elem_of_range. apply Hf; [done|]. auto.
Qed.

Section severity.
Context (P : Severity → Prop) {P_dec : ∀ s, Decision (P s)}.

Lemma diffTool_severe name ot nt :
  severe P (diffTool name ot nt) ↔
  (¬ P SeverityInfo → tl_Description ot = tl_Description nt) ∧
  (¬ P SeverityBreaking → schemaRequired (tl_Parameters nt) ⊆ schemaRequired (tl_Parameters ot)) ∧
  (¬ P SeverityAdditive → schemaRequired (tl_Parameters ot) ⊆ schemaRequired (tl_Parameters nt)) ∧
  (¬ P SeverityBreaking → ∀ k v, schemaProperties (tl_Parameters ot) !! k = Some v →
      ∃ w, schemaProperties (tl_Parameters nt) !! k = Some w ∧ DeepEqual v w = true) ∧
  (¬ P SeverityAdditive → ∀ k v, schemaProperties (tl_Parameters nt) !! k = Some v →
      is_Some (schemaProperties (tl_Parameters ot) !! k)).
Proof.
  unfold diffTool. cbv zeta. rewrite !severe_app, !severe_fmap. cbn [ch_Severity].
  f_equiv; [case_decide; rewrite ?severe_one, ?severe_nil; cbn [ch_Severity]; destruct (decide (P SeverityInfo)); tauto|].
  f_equiv; [by apply filter_severe|]. f_equiv; [by apply filter_severe|]. f_equiv.
  - apply range_severe; [done|]. intros k v _. cbn [fst snd].
    destruct (schemaProperties (tl_Parameters nt) !! k) as [w|]; [destruct (DeepEqual v w) eqn:Hd|].
    + rewrite severe_nil. split; [intros _ _; by exists w|done].
    + rewrite severe_one. cbn [ch_Severity]. split; [tauto|]. intros H. destruct (decide (P SeverityBreaking)) as [|HQ]; [done|].
      destruct (H HQ) as (w' & [= <-] & Hd'). congruence.
    + rewrite severe_one. cbn [ch_Severity]. split; [tauto|]. intros H. destruct (decide (P SeverityBreaking)) as [|HQ]; [done|].
      by destruct (H HQ) as (w' & ? & _).
  - apply range_severe; [done|]. intros k v _. cbn [fst snd].
    destruct (schemaProperties (tl_Parameters ot) !! k) as [w|].
    + rewrite severe_nil. split; [intros _ _; by eexists|done].
    + rewrite severe_one. cbn [ch_Severity]. split; [tauto|]. intros H. destruct (decide (P SeverityAdditive)) as [|HQ]; [done|].
      by destruct (H HQ).
Qed.

Lemma diffScenarios_severe old new :
  severe P (diffScenarios old new) ↔ (¬ P SeverityBreaking → old ⊆ new) ∧ (¬ P SeverityAdditive → new ⊆ old).
Proof.
  unfold diffScenarios. cbv zeta. rewrite severe_sorted, severe_app.
  assert (∀ a b sev mk, (∀ k, ch_Severity (mk k) = sev) →
    severe P (range (name_set a) ≫= λ kv, match name_set b !! kv.1 with None => [mk kv.1] | Some _ => [] end) ↔
    (¬ P sev → a ⊆ b)) as Hside.
  { intros a b sev mk Hmk. rewrite (range_severe P _ _ (λ k _, k ∈ b) (P sev)).
    - split; intros H HQ; [intros x Hx; by apply (H HQ x tt), name_set_spec|].
      intros k [] Hk%name_set_spec. by apply H.
    - intros k v _. cbn [fst]. rewrite <-name_set_spec. destruct (name_set b !! k) as [[]|];
        rewrite ?severe_nil, ?severe_one, ?Hmk; destruct (decide (P sev)); naive_solver. }
  f_equiv.
  - by apply (Hside old new SeverityBreaking (λ k, mkChange SeverityBreaking ("scenarios." +:+ k) ("scenario " +:+ Quote k +:+ " removed"))).
  - by apply (Hside new old SeverityAdditive (λ k, mkChange SeverityAdditive ("scenarios." +:+ k) ("scenario " +:+ Quote k +:+ " added"))).
Qed.

Lemma diffTools_severe old new :
  severe P (diffTools old new) ↔
  (∀ name ot nt, indexToolsByName old !! name = Some ot → indexToolsByName new !! name = Some nt → severe P (diffTool name ot nt)) ∧
  (¬ P SeverityBreaking → ∀ name ot, indexToolsByName old !! name = Some ot → is_Some (indexToolsByName new !! name)) ∧
  (¬ P SeverityAdditive → ∀ name nt, indexToolsByName new !! name = Some nt → is_Some (indexToolsByName old !! name)).
Proof.
  unfold diffTools. cbv zeta. rewrite severe_sorted, severe_app.
  assert (∀ A B C : Prop, A ∧ B ∧ C ↔ (A ∧ B) ∧ C) as Hassoc by tauto. rewrite Hassoc. f_equiv.
  - rewrite severe_bind. split.
    + intros H. split.
      * intros name ot nt Ho Hn. specialize (H (name, ot) (proj2 (elem_of_range _ _ _) Ho)). cbn [fst snd] in H. by rewrite Hn in H.
      * intros HQ name ot Ho. specialize (H (name, ot) (proj2 (elem_of_range _ _ _) Ho)). cbn [fst snd] in H.
        destruct (indexToolsByName new !! name); [by eexists|]. by apply severe_one in H.
    + intros [Hb Hr] [name ot] Ho%elem_of_range. cbn [fst snd]. destruct (indexToolsByName new !! name) as [nt|] eqn:Hn; [by apply Hb|].
      apply severe_one. cbn [ch_Severity]. destruct (decide (P SeverityBreaking)) as [|HQ]; [done|].
      destruct (Hr HQ name ot Ho) as [? ?]. congruence.
  - apply range_severe; [done|]. intros k v _. cbn [fst]. destruct (indexToolsByName old !! k);
      rewrite ?severe_nil, ?severe_one; cbn [ch_Severity]; destruct (decide (P SeverityAdditive)); naive_solver.
Qed.

Lemma Diff_severe old new :
  severe P (Diff old new) ↔
  (¬ P SeverityBreaking → ct_Protocol old = ct_Protocol new) ∧ (¬ P SeverityInfo → ct_Model old = ct_Model new) ∧
  severe P (diffTools (ct_Tools old) (ct_Tools new)) ∧ severe P (diffScenarios (ct_Scenarios old) (ct_Scenarios new)) ∧
  (¬ P SeverityBreaking → streams (ct_Streaming old) = true → streams (ct_Streaming new) = true) ∧
  (¬ P SeverityAdditive → streams (ct_Streaming new) = true → streams (ct_Streaming old) = true).
Proof.
  unfold Diff. rewrite !severe_app.
  f_equiv; [case_decide; rewrite ?severe_one, ?severe_nil; cbn [ch_Severity]; destruct (decide (P SeverityBreaking)); tauto|].
  f_equiv; [case_decide; rewrite ?severe_one, ?severe_nil; cbn [ch_Severity]; destruct (decide (P SeverityInfo)); tauto|].
  f_equiv. f_equiv. unfold diffStreaming.
  destruct (streams (ct_Streaming old)), (streams (ct_Streaming new)); cbn [andb negb]; rewrite ?severe_one, ?severe_nil; cbn [ch_Severity];
    destruct (decide (P SeverityBreaking)), (decide (P SeverityAdditive)); intuition congruence.
Qed.
End severity.

Lemma diffTool_keeps name ot nt : severe (λ s, s ≠ SeverityBreaking) (diffTool name ot nt) ↔ tool_keeps ot nt.
Proof.
  rewrite (diffTool_severe (λ s, s ≠ SeverityBreaking)). unfold tool_keeps. split.
  - intros (_ & Hr & _ & Hp & _). split; [apply Hr|apply Hp]; by intros [].
  - intros [Hr Hp]. split_and!; try done; intros H; by destruct H.
Qed.

(** No breaking change: the new contract keeps what the old one promises. *)
Lemma no_breaking old new : HasBreaking (Diff old new) = false ↔ compatible old new.
Proof.
  rewrite HasBreaking_false, (Diff_severe (λ s, s ≠ SeverityBreaking)), (diffTools_severe (λ s, s ≠ SeverityBreaking)),
    (diffScenarios_severe (λ s, s ≠ SeverityBreaking)). setoid_rewrite diffTool_keeps.
  assert (¬ ¬ SeverityBreaking = SeverityBreaking) as HB by tauto. split.
  - intros (Hp & _ & (Ht & Hr & _) & (Hs & _) & Hst & _). split; [auto| |auto|auto].
    intros name ot Ho. destruct (Hr HB name ot Ho) as [nt Hn]. exists nt. split; [done|]. by eapply Ht.
  - intros [Hp Ht Hs Hst]. split_and!; try done; try (by intros H; destruct H).
    + intros name ot nt Ho Hn. destruct (Ht name ot Ho) as (nt' & Hn' & Hk). unfold tool_of in Hn'. congruence.
    + intros _ name ot Ho. destruct (Ht name ot Ho) as (nt & Hn & _). by exists nt.
Qed.

Lemma tool_ok c name t : contract_ok c → tool_of c name = Some t → value_ok (VObj (tl_Parameters t)).
Proof.
  unfold contract_ok, tool_of, indexToolsByName. rewrite Forall_forall. intros Hc H%elem_of_list_to_map_2.
  apply elem_of_reverse, list_elem_of_fmap in H as (t' & [= _ ->] & Ht). by apply Hc.
Qed.

Lemma property_ok schema k v : value_ok (VObj schema) → schemaProperties schema !! k = Some v → value_ok v.
Proof.
  intros [_ Hok]%value_ok_obj. unfold schemaProperties. destruct (obj_get schema "properties") as [[]|] eqn:Hp; try done.
  intros H%elem_of_list_to_map_2. apply obj_get_elem in Hp. apply Hok in Hp. apply value_ok_obj in Hp as [_ Hp]. by eapply Hp.
Qed.

(** Nothing to report: each keeps what the other promises, and the labels are the same. *)
Lemma no_changes old new : contract_ok old → contract_ok new →
  Diff old new = [] ↔ compatible old new ∧ compatible new old ∧ same_labels old new.
Proof.
  intros Hok Hnew.
  assert (Diff old new = [] ↔ severe (λ _, False) (Diff old new)) as ->.
  { split; [intros ->; by rewrite severe_nil|]. intros H. apply elem_of_nil_inv. intros c Hc. by apply (H c). }
  rewrite (Diff_severe (λ _, False)), (diffTools_severe (λ _, False)), (diffScenarios_severe (λ _, False)).
  setoid_rewrite (diffTool_severe (λ _, False)).
  unfold same_labels. split.
  - intros (Hp & Hm & (Ht & Hr & Ha) & (Hs1 & Hs2) & Hst1 & Hst2). split_and!; auto.
    + split; [auto| |auto|auto]. intros name ot Ho. destruct (Hr id name ot Ho) as [nt Hn]. exists nt. split; [done|].
      destruct (Ht name ot nt Ho Hn) as (_ & Hreq & _ & Hprop & _). split; auto.
    + split; [symmetry; auto| |auto|auto]. intros name nt Hn. destruct (Ha id name nt Hn) as [ot Ho]. exists ot. split; [done|].
      destruct (Ht name ot nt Ho Hn) as (_ & _ & Hreq & Hprop & Hback). split; [auto|].
      intros k v Hv. destruct (Hback id k v Hv) as [w Hw]. exists w. split; [done|].
      destruct (Hprop id k w Hw) as (v' & Hv' & Hd). assert (v' = v) as -> by congruence.
      pose proof (tool_ok old name ot Hok Ho) as Hoo. pose proof (tool_ok new name nt Hnew Hn) as Hon.
      rewrite DeepEqual_sym; [done|exact (property_ok _ _ _ Hon Hv)|exact (property_ok _ _ _ Hoo Hw)].
    + intros name ot nt Ho Hn. destruct (Ht name ot nt Ho Hn) as (Hd & _). auto.
  - intros ([Hp Ht Hs Hst] & [_ Ht' Hs' Hst'] & Hm & Hd). split_and!; try done.
    + intros name ot nt Ho Hn. destruct (Ht name ot Ho) as (nt' & Hn' & [Hr1 Hp1]), (Ht' name nt Hn) as (ot' & Ho' & [Hr2 Hp2]).
      unfold tool_of in *. simplify_eq. split_and!; try done; [intros _; by eapply Hd|].
      intros _ k v Hv. destruct (Hp2 k v Hv) as (w & Hw & _). by exists w.
    + intros _ name ot Ho. destruct (Ht name ot Ho) as (nt & Hn & _). by exists nt.
    + intros _ name nt Hn. destruct (Ht' name nt Hn) as (ot & Ho & _). by exists ot.
Qed.

(** Arguments made of declared parameters. *)
Definition declared (schema args : object) : Prop := ∀ name, name ∈ args.*1 → name ∈ getPropertyNames schema.

Lemma declared_lookup schema name : value_ok (VObj schema) → name ∈ getPropertyNames schema ↔ is_Some (schemaProperties schema !! name).
Proof.
  intros [_ Hok]%value_ok_obj. unfold getPropertyNames, schemaProperties.
  destruct (obj_get schema "properties") as [x|] eqn:Hp; [|split; [by intros ?%not_elem_of_nil|by intros [? ?]]].
  destruct x as [| | | | | | | | |props|]; try (split; [by intros ?%not_elem_of_nil|by intros [? ?]]).
  apply obj_get_elem in Hp. apply Hok in Hp. apply value_ok_obj in Hp as [Hnd _].
  cbn [mbind option_bind as_obj fmap option_fmap option_map default from_option]. split.
  - intros [[k v] [-> Hin]]%list_elem_of_fmap. exists v. by apply elem_of_list_to_map.
  - intros [v Hv%elem_of_list_to_map_2]. apply list_elem_of_fmap. by exists (name, v).
Qed.

Lemma required_spec schema req name : obj_get schema "required" = Some (VArr req) → VString name ∈ req ↔ name ∈ schemaRequired schema.
Proof.
  intros H. unfold schemaRequired. rewrite H, list_elem_of_omap. split; [intros Hn; by exists (VString name)|].
  intros ([] & Hv & Hs); try done. by injection Hs as ->.
Qed.

(** A tool that keeps its promises accepts the calls it accepted. *)
Lemma keeps_calls {conv : GoConv} ot nt args :
  value_ok (VObj (tl_Parameters ot)) → value_ok (VObj (tl_Parameters nt)) → tool_keeps ot nt →
  declared (tl_Parameters ot) args → object_ok conforms (tl_Parameters ot) args → object_ok conforms (tl_Parameters nt) args.
Proof.
  set (o := tl_Parameters ot). set (n := tl_Parameters nt). intros Ho Hn [Hreq Hprops] Hdecl (Hr & Hp & _). fold o n in Hreq, Hprops.
  split_and!.
  - intros req name Hq Hin. apply (required_spec n req name Hq), Hreq in Hin. unfold schemaRequired in Hin.
    destruct (obj_get o "required") as [x|] eqn:Hx; [|by apply not_elem_of_nil in Hin].
    destruct x as [| | | | | | | |xs| |]; try (by apply not_elem_of_nil in Hin).
    apply (Hr xs); [done|]. by apply (required_spec o xs name Hx); unfold schemaRequired; rewrite Hx.
  - intros props name propDef v Hpr Hin Hv.
    assert (is_Some (schemaProperties o !! name)) as [x Hx].
    { apply declared_lookup, Hdecl; [done|]. apply obj_get_is_Some. by eexists. }
    destruct (Hprops name x Hx) as (w & Hw & Hd).
    assert (w = VObj propDef) as ->.
    { unfold schemaProperties in Hw. rewrite Hpr in Hw. apply value_ok_obj in Hn as [_ Hok]. apply obj_get_elem in Hpr.
      apply Hok in Hpr. apply value_ok_obj in Hpr as [Hnd _]. apply (elem_of_list_to_map (M := gmap string)) in Hin; [|done]. congruence. }
    pose proof (property_ok o name x Ho Hx) as Hokx. pose proof (property_ok n name _ Hn Hw) as Hokw.
    destruct x as [| | | | | | | | |old_def|]; try discriminate Hd.
    apply (conforms_deep v old_def propDef Hokx Hokw Hd). unfold schemaProperties in Hx.
    destruct (obj_get o "properties") as [y|] eqn:Hy; [|by rewrite lookup_empty in Hx].
    destruct y as [| | | | | | | | |old_props|]; try (rewrite lookup_empty in Hx; discriminate Hx).
    apply (Hp old_props name); [done|by apply elem_of_list_to_map_2|done].
  - intros _ name Hname. apply declared_lookup; [done|]. apply Hdecl, (declared_lookup o name Ho) in Hname as [x Hx].
    destruct (Hprops name x Hx) as (w & Hw & _). by exists w.
Qed.

Lemma ValidateParameters_object {conv : GoConv} schema args : obj_get schema "type" = Some (VString "object") →
  ValidateParameters schema args = [] ↔ object_ok conforms schema args.
Proof.
  intros Ht. destruct schema as [|kv schema]; [done|]. unfold ValidateParameters. rewrite Ht. cbn [mbind option_bind as_string].
  rewrite decide_True by done. apply validateObjectAt_nil.
Qed.

Lemma ValidateParameters_other {conv : GoConv} schema args : obj_get schema "type" ≠ Some (VString "object") →
  ValidateParameters schema args = [].
Proof.
  intros Ht. destruct schema as [|kv schema]; [done|]. unfold ValidateParameters. rewrite decide_False; [done|].
  destruct (obj_get (kv :: schema) "type") as [[]|]; naive_solver.
Qed.

End meaning.

Lemma sort_by_unique {A} (key : A → string) (l l' : list A) : NoDup (key <$> l) → l ≡ₚ l' →
  sort_by key String.le l = sort_by key String.le l'.
Proof.
  intros Hnd Hp. apply (sorted_perm_unique key String.le); [|(apply sort_by_sorted; apply _)..|by rewrite !sort_by_perm].
  intros x y Hx%elem_of_sort_by Hy%elem_of_sort_by Hk. apply list_elem_of_lookup in Hx as [i Hi], Hy as [j Hj].
  assert (i = j) as ->; [|congruence]. eapply NoDup_lookup; [exact Hnd|..]; rewrite list_lookup_fmap; [by rewrite Hi|].
  rewrite Hj. simpl. by rewrite Hk.
Qed.

(** Reordering the tools and the scenarios of an agent does not change its contract. *)
Lemma Extract_reordered {json : ContractJson} def def' :
  ad_Metadata def = ad_Metadata def' → as_Protocol (ad_Spec def) = as_Protocol (ad_Spec def') →
  as_Model (ad_Spec def) = as_Model (ad_Spec def') →
  bc_Streaming (as_Behavior (ad_Spec def)) = bc_Streaming (as_Behavior (ad_Spec def')) →
  NoDup (td_Name <$> as_Tools (ad_Spec def)) → NoDup (sc_Name <$> bc_Scenarios (as_Behavior (ad_Spec def))) →
  as_Tools (ad_Spec def) ≡ₚ as_Tools (ad_Spec def') →
  bc_Scenarios (as_Behavior (ad_Spec def)) ≡ₚ bc_Scenarios (as_Behavior (ad_Spec def')) →
  Extract def = Extract def'.
Proof.
  intros Hm Hp Hmo Hst Hndt Hnds Ht Hs. unfold Extract. rewrite Hm, Hp, Hmo, Hst. f_equal.
  - apply sort_by_unique; [by rewrite <-list_fmap_compose|by rewrite Ht].
  - apply sort_by_unique; [by rewrite list_fmap_id|by rewrite Hs].
Qed.

(** ** A pair of contracts *)

#[local] Existing Instances canonical_range amd64_conv.
#[local] Instance bare_fmt : GoFmt := {| Quote s := s; Sprint _ := "" ; Fixed0 _ := "" |}.

Definition string_schema : value := VObj [("type", VString "string")]%string.

Definition order_schema (required : list string) (more : object) : object :=
  ([("type", VString "object");
    ("properties", VObj ([("id", string_schema); ("note", string_schema)] ++ more));
    ("required", VArr (VString <$> required))])%string.

Definition order_contract (params : object) : Contract :=
  mkContract "orders" "openai" "" [mkToolContract "find" "finds an order" params] ["happy"%string] None.


(** A contract that forbids undeclared parameters differs in nothing that is reported from
    one that allows them, and refuses calls the other accepts. *)
Example closed_parameters :
  let old := order_schema ["id"%string] [] in
  let new := old ++ [("additionalProperties"%string, VBool false)] in
  let args := [("id", VString "7"); ("page", VString "2")]%string in
  bool_decide (length (Diff (order_contract old) (order_contract new)) = 0) &&
  bool_decide (ValidateParameters old args = []) && negb (bool_decide (ValidateParameters new args = [])) = true.
Proof. vm_compute. reflexivity. Qed.
