(* ===== verification/ToolProcessor.v ===== *)
(** Resolving tool calls, [internal/engine/tool_processor.go]: one call against
    the indexed tools, and a batch of calls on the inline and on the concurrent
    path. *)

From S2P Require Import Prelude GoBase AgentTypes ToolValidator.

(** ** Hexadecimal: [%x] of bytes and [%012x] of a counter *)

Definition hex_digit (n : Z) : Ascii.ascii :=
  Ascii.ascii_of_nat (Z.to_nat (if decide (n < 10)%Z then 48 + n else 87 + n)).

(** The lowest [digits] hexadecimal digits of a number, most significant first. *)
Fixpoint hex_fixed (digits : nat) (n : Z) : string :=
  match digits with
  | O => ""
  | S d => (hex_fixed d (n / 16) +:+ String (hex_digit (n mod 16)) "")%string
  end.

Definition hex_bytes (bs : list Z) : string :=
  foldr (λ b s, (hex_fixed 2 b +:+ s)%string) ""%string bs.

(** [%012x] of a [uint64]: at least twelve digits, more when they are needed. *)
Fixpoint hex_width (fuel width : nat) (n : Z) : nat :=
  match fuel with
  | O => width
  | S f => if decide (n < 16 ^ Z.of_nat width)%Z then width else hex_width f (S width) n
  end.

Definition fmt_012x (n : Z) : string := hex_fixed (hex_width 4 12 n) n.

Lemma hex_fixed_length d n : String.length (hex_fixed d n) = d.
Proof.
  revert n. induction d as [|d IH]; intros n; [done|]. simpl.
  rewrite str_length_app, IH. simpl. lia.
Qed.

Lemma hex_digit_code n : (0 ≤ n < 16)%Z →
  Ascii.nat_of_ascii (hex_digit n) = Z.to_nat (if decide (n < 10)%Z then 48 + n else 87 + n).
Proof. intros H. unfold hex_digit. rewrite Ascii.nat_ascii_embedding; [done|]. case_decide; lia. Qed.

Lemma hex_digit_inj a b : (0 ≤ a < 16)%Z → (0 ≤ b < 16)%Z → hex_digit a = hex_digit b → a = b.
Proof.
  intros Ha Hb H. apply (f_equal Ascii.nat_of_ascii) in H. rewrite !hex_digit_code in H by done.
  destruct (decide (a < 10)%Z), (decide (b < 10)%Z); lia.
Qed.

Lemma hex_fixed_inj d a b :
  (0 ≤ a < 16 ^ Z.of_nat d)%Z → (0 ≤ b < 16 ^ Z.of_nat d)%Z →
  hex_fixed d a = hex_fixed d b → a = b.
Proof.
  revert a b. induction d as [|d IH]; intros a b Ha Hb H; simpl in *; [lia|].
  rewrite Nat2Z.inj_succ, Z.pow_succ_r in Ha, Hb by lia.
  apply str_app_inj_r in H as [Hq Hr]; [|done]. injection Hr as Hr.
  apply hex_digit_inj in Hr; [|apply Z.mod_pos_bound; lia..].
  apply IH in Hq; [|split; [apply Z.div_pos; lia|apply Z.div_lt_upper_bound; lia]..].
  rewrite (Z.div_mod a 16), (Z.div_mod b 16) by lia. congruence.
Qed.

Lemma hex_width_bound fuel w n :
  (n < 16 ^ Z.of_nat (w + fuel))%Z → (n < 16 ^ Z.of_nat (hex_width fuel w n))%Z.
Proof.
  revert w. induction fuel as [|fuel IH]; intros w H; simpl; [by rewrite Nat.add_0_r in H|].
  case_decide; [done|]. apply IH. by rewrite Nat.add_succ_comm.
Qed.

(** Four steps beyond twelve digits are enough for 64 bits. *)
Lemma fmt_012x_inj a b :
  (0 ≤ a < two64)%Z → (0 ≤ b < two64)%Z → fmt_012x a = fmt_012x b → a = b.
Proof.
  intros Ha Hb H. unfold fmt_012x in H. pose proof (f_equal String.length H) as Hlen.
  rewrite !hex_fixed_length in Hlen. rewrite <-Hlen in H.
  apply hex_fixed_inj in H; [done|..]; (split; [lia|]).
  - apply (hex_width_bound 4 12). change (16 ^ _)%Z with two64. lia.
  - rewrite Hlen. apply (hex_width_bound 4 12). change (16 ^ _)%Z with two64. lia.
Qed.

Section processor.
Context {fmt : GoFmt} {conv : GoConv}.

Record ToolCallResult := mkToolCallResult {
  tcr_ID : string;
  tcr_ToolName : string;
  tcr_Response : value;
  tcr_Error : option ToolError;
  tcr_IsError : bool
}.

Inductive ToolCallError :=
| ErrToolNotFound (name : string)
| ErrParameterValidation.

(** What [crypto/rand] answers during one call: the bytes of its id and the draw
    of the error injection, [None] when reading fails. *)
Record CallRand := mkCallRand { cr_bytes : option (list Z); cr_draw : option Z }.

Definition fallbackToolCallID (counter : Z) : Z * string :=
  let n := ((counter + 1) mod two64)%Z in (n, ("call_fallback_" +:+ fmt_012x n)%string).

Definition generateToolCallID (rnd : CallRand) (counter : Z) : Z * string :=
  match cr_bytes rnd with
  | None => fallbackToolCallID counter
  | Some b => (counter, ("call_" +:+ hex_bytes b)%string)
  end.

Definition shouldInjectError (rnd : CallRand) (rate : float64) : bool :=
  if f64_le rate f64_zero then false
  else if f64_le f64_one rate then true
  else match cr_draw rnd with
       | None => false
       | Some n => f64_lt (f64_div (f64_of_Z n) (f64_of_Z 10000)) rate
       end.

Definition newline : string := String (Ascii.ascii_of_nat 10) "".

Definition formatValidationErrors (errs : list string) : string :=
  match errs with
  | [e] => e
  | _ => foldl (λ msg e, msg +:+ newline +:+ "  - " +:+ e) "multiple validation errors:" errs
  end%string.

Definition valuesEqual (expected actual : value) : bool := equalScalar expected actual.

Definition matchArgs (mtch args : list (string * value)) : bool :=
  match mtch with
  | [] => false
  | _ => forallb (λ kv, match obj_get args kv.1 with
                        | None => false
                        | Some actual => valuesEqual kv.2 actual
                        end) mtch
  end.

(** The answer of a rule: its error when it has one. *)
Definition rule_answer (rule : ToolResponseRule) : value * option ToolError :=
  match trr_Error rule with
  | Some e => (VNil, Some e)
  | None => (trr_Response rule, None)
  end.

Fixpoint resolve_from (defaultRule : option ToolResponseRule) (rules : list ToolResponseRule)
    (args : list (string * value)) : value * option ToolError :=
  match rules with
  | [] => match defaultRule with Some rule => rule_answer rule | None => (VNil, None) end
  | rule :: rest =>
      if trr_IsDefault rule then resolve_from (Some rule) rest args
      else match trr_Match rule with
           | [] => resolve_from defaultRule rest args
           | _ => if matchArgs (trr_Match rule) args then rule_answer rule
                  else resolve_from defaultRule rest args
           end
  end.

Definition resolveToolResponse (rules : list ToolResponseRule) (args : list (string * value))
  : value * option ToolError := resolve_from None rules args.

Definition indexTools (tools : list ToolDefinition) : gmap string ToolDefinition :=
  foldl (λ m t, <[td_Name t := t]> m) ∅ tools.

Definition not_found_error (name : string) : ToolError :=
  mkToolError "TOOL_NOT_FOUND" ("tool " +:+ Quote name +:+ " is not defined in the agent")%string.

Definition injected_error (rate : float64) : ToolError :=
  mkToolError "INJECTED_ERROR"
    ("chaos: random error injected at " +:+ Fixed0 (f64_mul rate (f64_of_Z 100)) +:+ "% rate")%string.

(** [processOne]; the id comes first, so every branch consumes it. *)
Definition processOne (rnd : CallRand) (call : ToolCallSpec)
    (toolIndex : gmap string ToolDefinition) (counter : Z)
  : Z * (ToolCallResult * option ToolCallError) :=
  let '(counter, id) := generateToolCallID rnd counter in
  let name := tcs_Name call in
  let fail err := mkToolCallResult id name VNil (Some err) true in
  (counter,
   match toolIndex !! name with
   | None => (fail (not_found_error name), Some (ErrToolNotFound name))
   | Some tool =>
       let valErrs :=
         match td_Validate tool, td_Parameters tool with
         | true, _ :: _ => ValidateParameters (td_Parameters tool) (tcs_Arguments call)
         | _, _ => []
         end in
       match valErrs with
       | _ :: _ =>
           (fail (mkToolError "INVALID_PARAMETERS" (formatValidationErrors valErrs)),
            Some ErrParameterValidation)
       | [] =>
           if f64_lt f64_zero (td_ErrorRate tool) && shouldInjectError rnd (td_ErrorRate tool)
           then (fail (injected_error (td_ErrorRate tool)), None)
           else match resolveToolResponse (td_Responses tool) (tcs_Arguments call) with
                | (_, Some e) => (fail e, None)
                | (VNil, None) =>
                    (mkToolCallResult id name (VStrMap [("status", "ok")]) None false, None)
                | (resp, None) => (mkToolCallResult id name resp None false, None)
                end
       end
   end).

Definition fatal (err : option ToolCallError) : bool :=
  match err with Some (ErrToolNotFound _) => true | _ => false end.

Fixpoint first_fatal (errs : list (option ToolCallError)) : option ToolCallError :=
  match errs with
  | [] => None
  | err :: errs => if fatal err then err else first_fatal errs
  end.

(** The loop of the fast path. *)
Fixpoint process_inline (calls : list (CallRand * ToolCallSpec))
    (toolIndex : gmap string ToolDefinition) (firstErr : option ToolCallError) (counter : Z)
  : Z * (list ToolCallResult * option ToolCallError) :=
  match calls with
  | [] => (counter, ([], firstErr))
  | (rnd, call) :: rest =>
      let '(counter, (result, err)) := processOne rnd call toolIndex counter in
      let firstErr := if decide (firstErr = None ∧ fatal err = true) then err else firstErr in
      let '(counter, (results, firstErr)) := process_inline rest toolIndex firstErr counter in
      (counter, (result :: results, firstErr))
  end.

(** One goroutine of the concurrent path: it writes only its own slots. The
    counter is the one thing the goroutines share, and each touches it once, so
    a run is the order in which they get to it. *)
Definition go_process (calls : list (CallRand * ToolCallSpec))
    (toolIndex : gmap string ToolDefinition)
    (st : Z * (list ToolCallResult * list (option ToolCallError))) (idx : nat)
  : Z * (list ToolCallResult * list (option ToolCallError)) :=
  match calls !! idx with
  | None => st
  | Some (rnd, tc) =>
      let '(counter, (results, errs)) := st in
      let '(counter, (result, err)) := processOne rnd tc toolIndex counter in
      (counter, (<[idx := result]> results, <[idx := err]> errs))
  end.

Definition zero_result : ToolCallResult := mkToolCallResult "" "" VNil None false.

Definition process_concurrent (order : list nat) (calls : list (CallRand * ToolCallSpec))
    (toolIndex : gmap string ToolDefinition) (counter : Z)
  : Z * (list ToolCallResult * option ToolCallError) :=
  let n := length calls in
  let '(counter, (results, errs)) :=
    foldl (go_process calls toolIndex) (counter, (replicate n zero_result, replicate n None)) order in
  (counter, (results, first_fatal errs)).

(** [order] is the order the scheduler picks, which the fast path does not use. *)
Definition ProcessToolCalls (order : list nat) (calls : list (CallRand * ToolCallSpec))
    (tools : list ToolDefinition) (counter : Z)
  : Z * (list ToolCallResult * option ToolCallError) :=
  if decide (length calls = 0) then (counter, ([], None))
  else
    let toolIndex := indexTools tools in
    if decide (length calls ≤ 2) then process_inline calls toolIndex None counter
    else process_concurrent order calls toolIndex counter.

(** ** Resolution of one call *)

(** A rule can be chosen by its criteria. *)
Definition rule_matches (args : list (string * value)) (rule : ToolResponseRule) : Prop :=
  trr_IsDefault rule = false ∧ trr_Match rule ≠ [] ∧
  ∀ k expected, (k, expected) ∈ trr_Match rule →
    ∃ actual, obj_get args k = Some actual ∧ equalScalar expected actual = true.

Lemma matchArgs_spec args rule :
  rule_matches args rule ↔ trr_IsDefault rule = false ∧ matchArgs (trr_Match rule) args = true.
Proof.
  unfold rule_matches, matchArgs, valuesEqual. destruct (trr_Match rule) as [|kv m]; [naive_solver|].
  rewrite forallb_forall. split; intros (Hd & H); (split; [done|]).
  - intros [k v] Hin. apply list_elem_of_In in Hin. simpl.
    by destruct (proj2 H k v Hin) as (w & -> & Hw).
  - split; [done|]. intros k v Hin. apply list_elem_of_In in Hin. specialize (H _ Hin).
    simpl in H. destruct (obj_get args k) as [w|]; [eauto|done].
Qed.

#[global] Instance rule_matches_dec args rule : Decision (rule_matches args rule).
Proof.
  refine (cast_if (decide (trr_IsDefault rule = false ∧ matchArgs (trr_Match rule) args = true)));
    by rewrite matchArgs_spec.
Defined.

(** The rule chosen: the first whose criteria match, else the last default. *)
Definition chosen_rule (rules : list ToolResponseRule) (args : list (string * value))
  : option ToolResponseRule :=
  match filter (rule_matches args) rules with
  | rule :: _ => Some rule
  | [] => last (filter (λ rule, trr_IsDefault rule = true) rules)
  end.

Lemma resolve_from_spec def rules args :
  resolve_from def rules args =
    match filter (rule_matches args) rules with
    | rule :: _ => rule_answer rule
    | [] => match last (option_list def ++ filter (λ rule, trr_IsDefault rule = true) rules) with
            | Some rule => rule_answer rule
            | None => (VNil, None)
            end
    end.
Proof.
  revert def. induction rules as [|rule rules IH]; intros def; [by destruct def|]. simpl.
  rewrite !filter_cons. destruct (trr_IsDefault rule) eqn:Hd.
  - rewrite decide_False by (by unfold rule_matches; rewrite Hd; intros [? _]).
    rewrite IH, decide_True by done. destruct (filter (rule_matches args) rules); [|done].
    by rewrite last_app_cons.
  - rewrite (decide_False (P := false = true)) by done.
    destruct (decide (rule_matches args rule)) as [Hm|Hm].
    + pose proof Hm as [_ ->]%matchArgs_spec.
      by destruct (trr_Match rule) eqn:Hnil; [destruct Hm as (_ & ? & _)|].
    + rewrite <-IH. destruct (trr_Match rule) eqn:Hnil; [done|]. rewrite <-Hnil.
      destruct (matchArgs (trr_Match rule) args) eqn:Hma; [|done].
      destruct Hm. by apply matchArgs_spec.
Qed.

Lemma resolveToolResponse_spec rules args :
  resolveToolResponse rules args =
    match chosen_rule rules args with Some rule => rule_answer rule | None => (VNil, None) end.
Proof.
  unfold resolveToolResponse, chosen_rule. rewrite resolve_from_spec.
  by destruct (filter (rule_matches args) rules).
Qed.

(** The index maps a name to the last tool declared with it. *)
Lemma indexTools_lookup tools name :
  indexTools tools !! name = last (filter (λ t, td_Name t = name) tools).
Proof.
  unfold indexTools. induction tools as [|t tools IH] using rev_ind; [done|].
  rewrite foldl_app, filter_app, filter_cons. simpl.
  destruct (decide (td_Name t = name)) as [<-|Hne].
  - by rewrite lookup_insert_eq, filter_nil, last_snoc.
  - by rewrite lookup_insert_ne, filter_nil, app_nil_r.
Qed.

Definition arguments_rejected (tool : ToolDefinition) (args : list (string * value)) : Prop :=
  td_Validate tool = true ∧ td_Parameters tool ≠ [] ∧
  ValidateParameters (td_Parameters tool) args ≠ [].

(** ** Batches *)

(** A result without its random id. *)
Definition erase_id (r : ToolCallResult) : string * value * option ToolError * bool :=
  (tcr_ToolName r, tcr_Response r, tcr_Error r, tcr_IsError r).

(** What a call comes to, whatever the counter of the fallback ids is. *)
Definition outcome (idx : gmap string ToolDefinition) (c : CallRand * ToolCallSpec)
  : (string * value * option ToolError * bool) * option ToolCallError :=
  let '(r, e) := (processOne c.1 c.2 idx 0).2 in (erase_id r, e).

Lemma processOne_outcome rnd call idx counter :
  let '(_, (r, e)) := processOne rnd call idx counter in
  (erase_id r, e) = outcome idx (rnd, call).
Proof.
  unfold outcome, processOne. simpl.
  destruct (generateToolCallID rnd counter) as [c1 id1], (generateToolCallID rnd 0) as [c0 id0].
  destruct (idx !! tcs_Name call) as [tool|]; [|done].
  destruct (match td_Validate tool with true => _ | false => _ end); [|done].
  destruct (f64_lt _ _ && _); [done|].
  by destruct (resolveToolResponse _ _) as [[] []].
Qed.

Lemma processOne_id rnd call idx counter :
  let '(c', (r, _)) := processOne rnd call idx counter in
  (c', tcr_ID r) = generateToolCallID rnd counter ∧ tcr_ToolName r = tcs_Name call.
Proof.
  unfold processOne. destruct (generateToolCallID rnd counter) as [c1 id1].
  destruct (idx !! tcs_Name call) as [tool|]; [|done].
  destruct (match td_Validate tool with true => _ | false => _ end); [|done].
  destruct (f64_lt _ _ && _); [done|].
  by destruct (resolveToolResponse _ _) as [[] []].
Qed.

(** The counter after the goroutines of [l] ran. *)
Definition counter_after (calls : list (CallRand * ToolCallSpec)) idx counter (l : list nat) : Z :=
  let n := length calls in
  (foldl (go_process calls idx) (counter, (replicate n zero_result, replicate n None)) l).1.

(** The slots the goroutines wrote: each holds what its call comes to. *)
Lemma concurrent_slots calls idx counter order :
  NoDup order → (∀ i, i ∈ order → i < length calls) →
  let n := length calls in
  let '(_, (results, errs)) :=
    foldl (go_process calls idx) (counter, (replicate n zero_result, replicate n None)) order in
  length results = n ∧ length errs = n ∧
  ∀ k i rnd call, order !! k = Some i → calls !! i = Some (rnd, call) →
    let '(_, (r, e)) := processOne rnd call idx (counter_after calls idx counter (take k order)) in
    results !! i = Some r ∧ errs !! i = Some e.
Proof.
  cbv zeta. induction order as [|j order IH] using rev_ind; intros Hnd Hlt.
  { simpl. by rewrite !length_replicate. }
  apply NoDup_app in Hnd as (Hnd & Hdisj & _).
  assert (j < length calls) as [[rnd call] Hj]%lookup_lt_is_Some by (apply Hlt; set_solver).
  assert (∀ i, i ∈ order → i < length calls) as Hlt' by (intros i Hi; apply Hlt; set_solver).
  specialize (IH Hnd Hlt').
  rewrite foldl_app. simpl.
  destruct (foldl _ _ order) as [c [results errs]] eqn:Hfold.
  destruct IH as (Hlr & Hle & Hslot). unfold go_process at 1. rewrite Hj.
  destruct (processOne rnd call idx c) as [c' [r e]] eqn:Hone.
  rewrite !length_insert. split_and!; [done..|]. intros k i rnd' call' Hk Hi.
  apply lookup_app_Some in Hk as [Hk|[Hge Hk]].
  - rewrite take_app_le by (apply lookup_lt_Some in Hk; lia).
    specialize (Hslot k i rnd' call' Hk Hi).
    destruct (processOne rnd' call' idx _) as [? [r' e']].
    assert (i ≠ j) by (intros ->; apply list_elem_of_lookup_2 in Hk; set_solver).
    by rewrite !list_lookup_insert_ne.
  - apply list_lookup_singleton_Some in Hk as [Hk <-]. rewrite take_app_length' by lia.
    unfold counter_after. rewrite Hfold. simpl. simplify_eq. rewrite Hone.
    apply lookup_lt_Some in Hj. by rewrite !list_lookup_insert_eq by lia.
Qed.

(** The fast path is the run of the concurrent path in index order. *)
Lemma process_inline_run idx pre rest rs es counter fe :
  length rs = length pre → length es = length pre → fe = first_fatal es →
  let n := length rest in
  let '(c, (results, errs)) :=
    foldl (go_process (pre ++ rest) idx)
      (counter, (rs ++ replicate n zero_result, es ++ replicate n None)) (seq (length pre) n) in
  ∃ rs', results = rs ++ rs' ∧
    process_inline rest idx fe counter = (c, (rs', first_fatal errs)).
Proof.
  cbv zeta. revert pre rs es counter fe.
  induction rest as [|[rnd call] rest IH]; intros pre rs es counter fe Hlr Hle ->; simpl.
  { exists []. by rewrite !app_nil_r. }
  unfold go_process at 2. rewrite list_lookup_middle by done.
  destruct (processOne rnd call idx counter) as [c' [r e]].
  rewrite !insert_app_r_alt by lia. rewrite Hlr, Hle, !Nat.sub_diag. simpl.
  rewrite (cons_middle r), (cons_middle e), (cons_middle (rnd, call)), !app_assoc.
  specialize (IH (pre ++ [(rnd, call)]) (rs ++ [r]) (es ++ [e]) c'
    (if decide (first_fatal es = None ∧ fatal e = true) then e else first_fatal es)).
  rewrite !length_app, Hlr, Hle in IH. simpl in IH. rewrite Nat.add_1_r in IH.
  specialize (IH eq_refl eq_refl).
  assert ((if decide (first_fatal es = None ∧ fatal e = true) then e else first_fatal es)
    = first_fatal (es ++ [e])) as Hff.
  { clear. induction es as [|e0 es IH]; simpl; [by destruct e as [[]|]|].
    destruct (fatal e0) eqn:H0; [|done]. destruct e0; [|done]. by rewrite decide_False by (by intros []). }
  specialize (IH Hff). destruct (foldl _ _ _) as [c [results errs]].
  destruct IH as (rs' & -> & ->). exists (r :: rs'). split; [|done]. by rewrite <-app_assoc.
Qed.

Lemma process_inline_concurrent calls idx counter :
  process_inline calls idx None counter =
    process_concurrent (seq 0 (length calls)) calls idx counter.
Proof.
  unfold process_concurrent.
  pose proof (process_inline_run idx [] calls [] [] counter None eq_refl eq_refl eq_refl) as H.
  simpl in H. destruct (foldl _ _ _) as [c [results errs]]. by destruct H as (rs' & -> & ->).
Qed.

(** The order a batch runs in. *)
Definition batch_order (order : list nat) (calls : list (CallRand * ToolCallSpec)) : list nat :=
  if decide (length calls ≤ 2) then seq 0 (length calls) else order.

Lemma ProcessToolCalls_run order calls tools counter :
  ProcessToolCalls order calls tools counter =
    process_concurrent (batch_order order calls) calls (indexTools tools) counter.
Proof.
  unfold ProcessToolCalls, batch_order. destruct calls as [|c calls]; [done|].
  rewrite decide_False by done. case_decide; [|done]. apply process_inline_concurrent.
Qed.

Lemma batch_order_perm order calls :
  order ≡ₚ seq 0 (length calls) → batch_order order calls ≡ₚ seq 0 (length calls).
Proof. intros H. unfold batch_order. by case_decide. Qed.

(** ** Properties *)

(** what one call comes to, in the order the code decides it: an unknown
    tool, rejected arguments (for a tool that validates), an injected error
    (never at rate 0 and always at rate 1 or more), then the first rule whose
    criteria the arguments meet or else the last default rule, whose error wins
    over its response, and [{"status": "ok"}] when there is nothing to answer.
    The tool is the last one declared under the name. *)
Theorem processOne_correct rnd call tools counter :
  let '(_, (r, err)) := processOne rnd call (indexTools tools) counter in
  tcr_ToolName r = tcs_Name call ∧
  tcr_IsError r = bool_decide (is_Some (tcr_Error r)) ∧
  match last (filter (λ t, td_Name t = tcs_Name call) tools) with
  | None => err = Some (ErrToolNotFound (tcs_Name call)) ∧
            te_Code <$> tcr_Error r = Some "TOOL_NOT_FOUND"
  | Some tool =>
      (err = Some ErrParameterValidation ∧ arguments_rejected tool (tcs_Arguments call) ∧
         te_Code <$> tcr_Error r = Some "INVALID_PARAMETERS") ∨
      (err = None ∧ ¬ arguments_rejected tool (tcs_Arguments call) ∧
       ∃ injected : bool,
         (f64_le (td_ErrorRate tool) f64_zero = true → injected = false) ∧
         (f64_le f64_one (td_ErrorRate tool) = true → injected = true) ∧
         if injected then tcr_Error r = Some (injected_error (td_ErrorRate tool))
         else match chosen_rule (td_Responses tool) (tcs_Arguments call) with
              | None => tcr_Error r = None ∧ tcr_Response r = VStrMap [("status", "ok")]
              | Some rule =>
                  tcr_Error r = trr_Error rule ∧
                  (trr_Error rule = None → tcr_Response r =
                     if decide (type_name (trr_Response rule) = "<nil>")
                     then VStrMap [("status", "ok")] else trr_Response rule)
              end)
  end.
Proof.
  unfold processOne. destruct (generateToolCallID rnd counter) as [c id].
  rewrite indexTools_lookup. destruct (last _) as [tool|]; [|done].
  set (args := tcs_Arguments call).
  destruct (match td_Validate tool with true => _ | false => _ end) eqn:Hval.
  2: { split_and!; [done..|]. left. split_and!; [done| |done]. unfold arguments_rejected.
       destruct (td_Validate tool), (td_Parameters tool); try done. by rewrite Hval. }
  assert (¬ arguments_rejected tool args) as Hrej.
  { intros (Hv & Hp & Hne). rewrite Hv in Hval. by destruct (td_Parameters tool). }
  set (injected := f64_lt f64_zero (td_ErrorRate tool) && shouldInjectError rnd (td_ErrorRate tool)).
  assert ((f64_le (td_ErrorRate tool) f64_zero = true → injected = false) ∧
    (f64_le f64_one (td_ErrorRate tool) = true → injected = true)) as [Hzero Hone].
  { unfold injected, shouldInjectError. split.
    - intros ->. by rewrite andb_false_r.
    - intros H. destruct (f64_one_le_pos _ H) as [-> ->]. by rewrite H. }
  rewrite resolveToolResponse_spec.
  destruct injected eqn:Hinj; simpl.
  { split_and!; [done..|]. right. split_and!; [done..|]. exists true. by split_and!. }
  destruct (chosen_rule _ args) as [rule|] eqn:Hrule; simpl.
  - unfold rule_answer. destruct (trr_Error rule) as [e|] eqn:He.
    + split_and!; [done..|]. right. split_and!; [done..|]. exists false. by split_and!.
    + destruct (trr_Response rule) eqn:Hr; simpl;
        (split_and!; [done..|]); right; (split_and!; [done..|]); exists false;
        by split_and!.
  - split_and!; [done..|]. right. split_and!; [done..|]. exists false. by split_and!.
Qed.

(** whatever order the goroutines run in, a batch answers one result per
    call, in the order of the calls, each being what that call alone comes to up
    to its random id, and the error is that of the first unknown tool in index
    order: the fast path for one or two calls cannot be told from the concurrent
    one. *)
Theorem ProcessToolCalls_correct order calls tools counter :
  order ≡ₚ seq 0 (length calls) →
  let '(_, (results, err)) := ProcessToolCalls order calls tools counter in
  erase_id <$> results = (λ c, (outcome (indexTools tools) c).1) <$> calls ∧
  err = first_fatal ((λ c, (outcome (indexTools tools) c).2) <$> calls).
Proof.
  intros Hperm%batch_order_perm. rewrite ProcessToolCalls_run. unfold process_concurrent.
  pose proof (concurrent_slots calls (indexTools tools) counter (batch_order order calls)) as H.
  rewrite Hperm in H at 1. specialize (H (NoDup_seq _ _)). cbv zeta in H.
  destruct (foldl _ _ _) as [c [results errs]]. destruct H as (Hlr & Hle & Hslot).
  { intros i. rewrite Hperm. intros Hi%elem_of_seq. lia. }
  assert (∀ i rnd call, calls !! i = Some (rnd, call) → ∃ r e, results !! i = Some r ∧
    errs !! i = Some e ∧ (erase_id r, e) = outcome (indexTools tools) (rnd, call)) as Hall.
  { intros i rnd call Hi. assert (i ∈ batch_order order calls) as [k Hk]%list_elem_of_lookup.
    { rewrite Hperm. apply elem_of_seq. apply lookup_lt_Some in Hi. lia. }
    specialize (Hslot k i rnd call Hk Hi).
    pose proof (processOne_outcome rnd call (indexTools tools)
      (counter_after calls (indexTools tools) counter (take k (batch_order order calls)))) as Ho.
    destruct (processOne _ _ _ _) as [? [r e]]. exists r, e. naive_solver. }
  assert (errs = (λ c, (outcome (indexTools tools) c).2) <$> calls) as ->; [|split; [|done]];
    apply list_eq_same_length with (length calls); rewrite ?length_fmap; try done;
    intros i x y _; rewrite ?list_lookup_fmap; intros Hx Hy;
    destruct (calls !! i) as [[rnd call]|] eqn:Hc; try done; simpl in *;
    destruct (Hall i rnd call Hc) as (r & e & Hr & He & Ho); rewrite <-Ho in *; simpl in *.
  - congruence.
  - rewrite Hr in Hx. simpl in Hx. congruence.
Qed.

Lemma ProcessToolCalls_length order calls tools counter :
  length (ProcessToolCalls order calls tools counter).2.1 = length calls.
Proof.
  rewrite ProcessToolCalls_run. unfold process_concurrent.
  assert (∀ l c results errs, length results = length calls →
    length (foldl (go_process calls (indexTools tools)) (c, (results, errs)) l).2.1 = length calls) as H.
  { induction l as [|i l IH]; intros c results errs Hr; [done|]. simpl. unfold go_process at 2.
    destruct (calls !! i) as [[rnd call]|]; [|by apply IH].
    destruct (processOne _ _ _ _) as [c' [r e]]. apply IH. by rewrite length_insert. }
  specialize (H (batch_order order calls) counter (replicate (length calls) zero_result)
    (replicate (length calls) None) (length_replicate _ _)).
  by destruct (foldl _ _ _) as [c [results errs]].
Qed.

(** Each goroutine that falls back takes the next number of the counter. *)
Lemma counter_after_fallback calls idx counter order :
  (0 ≤ counter < two64)%Z → (∀ i, i ∈ order → i < length calls) →
  (∀ c, c ∈ calls → cr_bytes c.1 = None) →
  counter_after calls idx counter order = ((counter + Z.of_nat (length order)) mod two64)%Z.
Proof.
  intros Hc. unfold counter_after. cbv zeta.
  induction order as [|j order IH] using rev_ind; intros Hlt Hnone; simpl.
  { rewrite Z.add_0_r, Z.mod_small; done. }
  assert (j < length calls) as [[rnd call] Hj]%lookup_lt_is_Some by (apply Hlt; set_solver).
  assert (cr_bytes rnd = None) as Hrnd.
  { apply (Hnone (rnd, call)). by apply list_elem_of_lookup_2 in Hj. }
  rewrite foldl_app. simpl. destruct (foldl _ _ order) as [c [results errs]]. simpl in IH.
  unfold go_process. rewrite Hj.
  pose proof (processOne_id rnd call idx c) as Hid.
  destruct (processOne rnd call idx c) as [c' [r e]]. destruct Hid as [Hid _].
  unfold generateToolCallID, fallbackToolCallID in Hid. rewrite Hrnd in Hid. injection Hid as -> _.
  simpl. rewrite IH by set_solver. rewrite length_app. simpl.
  rewrite Z.add_mod_idemp_l by done. f_equal. lia.
Qed.

(** when the random source fails for every call of a batch, the fallback ids
    are still pairwise different, whatever order the goroutines run in. *)
Theorem fallback_ids_unique order calls tools counter :
  order ≡ₚ seq 0 (length calls) → (0 ≤ counter < two64)%Z →
  (Z.of_nat (length calls) < two64)%Z → (∀ c, c ∈ calls → cr_bytes c.1 = None) →
  NoDup (tcr_ID <$> (ProcessToolCalls order calls tools counter).2.1).
Proof.
  intros Hperm%batch_order_perm Hc Hlen Hnone. rewrite ProcessToolCalls_run.
  unfold process_concurrent.
  set (idx := indexTools tools). set (ord := batch_order order calls) in *.
  assert (∀ i, i ∈ ord → i < length calls) as Hlt.
  { intros i. rewrite Hperm. intros Hi%elem_of_seq. lia. }
  assert (NoDup ord) as Hnd by (rewrite Hperm; apply NoDup_seq).
  pose proof (concurrent_slots calls idx counter ord Hnd Hlt) as H. cbv zeta in H.
  destruct (foldl _ _ _) as [c [results errs]]. destruct H as (Hlr & _ & Hslot). simpl.
  assert (∀ i r, results !! i = Some r → ∃ k, ord !! k = Some i ∧
    tcr_ID r = (fallbackToolCallID ((counter + Z.of_nat k) mod two64)).2) as Hid.
  { intros i r Hr. pose proof (lookup_lt_Some _ _ _ Hr) as Hi. rewrite Hlr in Hi.
    apply lookup_lt_is_Some in Hi as [[rnd call] Hi].
    assert (i ∈ ord) as [k Hk]%list_elem_of_lookup.
    { rewrite Hperm. apply elem_of_seq. apply lookup_lt_Some in Hi. lia. }
    exists k. split; [done|]. specialize (Hslot k i rnd call Hk Hi).
    rewrite counter_after_fallback in Hslot; [|done| |done].
    2: { intros j Hj. apply Hlt. by eapply elem_of_take in Hj as (? & ? & _); eapply list_elem_of_lookup_2. }
    rewrite length_take, Nat.min_l in Hslot by (apply lookup_lt_Some in Hk; lia).
    pose proof (processOne_id rnd call idx ((counter + Z.of_nat k) mod two64)) as Ho.
    destruct (processOne _ _ _ _) as [? [r' e']]. destruct Hslot as [Hr' _], Ho as [Ho _].
    assert (cr_bytes rnd = None) as Hrnd
      by (apply (Hnone (rnd, call)); by eapply list_elem_of_lookup_2).
    unfold generateToolCallID in Ho. rewrite Hrnd in Ho.
    assert (r' = r) as -> by congruence. by injection Ho. }
  apply NoDup_alt. intros i j x. rewrite !list_lookup_fmap.
  destruct (results !! i) as [ri|] eqn:Hri, (results !! j) as [rj|] eqn:Hrj; try done. simpl.
  intros [= <-] [= Heq]. destruct (Hid i ri Hri) as (ki & Hki & Hidi), (Hid j rj Hrj) as (kj & Hkj & Hidj).
  rewrite Hidi, Hidj in Heq. simpl in Heq. injection Heq as Heq.
  assert (ki < length calls ∧ kj < length calls) as [Hbi Hbj].
  { apply lookup_lt_Some in Hki, Hkj. rewrite Hperm, length_seq in Hki, Hkj. done. }
  apply fmt_012x_inj in Heq; [|apply Z.mod_pos_bound; done..].
  rewrite !Z.add_mod_idemp_l in Heq by done.
  rewrite <-!Z.add_assoc, !(Z.add_comm _ 1), !Z.add_assoc in Heq.
  apply add_mod_inj, Nat2Z.inj in Heq; [|lia..]. congruence.
Qed.
End processor.

(** ** Instances the hypotheses of the properties hold at *)

Definition ex_tool : ToolDefinition :=
  mkToolDefinition "weather" "" [("type", VString "object"); ("required", VArr [VString "city"])]
    [mkToolResponseRule [("city", VString "Oslo")] (VString "cold") None false;
     mkToolResponseRule [] (VString "mild") None true] true f64_zero.

(** Four calls whose id draws all fail: a match, the default, a rejected call and
    an unknown tool. *)
Definition ex_calls : list (CallRand * ToolCallSpec) :=
  [(mkCallRand None None, mkToolCallSpec "weather" [("city", VString "Oslo")] "");
   (mkCallRand None None, mkToolCallSpec "weather" [("city", VString "Rome")] "");
   (mkCallRand None None, mkToolCallSpec "weather" [] "");
   (mkCallRand None None, mkToolCallSpec "news" [] "")].

Definition ex_order : list nat := [2; 0; 3; 1].

Lemma ex_order_perm : ex_order ≡ₚ seq 0 (length ex_calls).
Proof. apply NoDup_Permutation; [by apply (bool_decide_unpack _); vm_compute|apply NoDup_seq|]. intros x. rewrite elem_of_seq. simpl. unfold ex_order. rewrite !elem_of_cons, elem_of_nil. lia. Qed.

Lemma ProcessToolCalls_correct_witness :
  let '(_, (results, err)) :=
    ProcessToolCalls (fmt := plain_fmt) (conv := amd64_conv) ex_order ex_calls [ex_tool] 0 in
  tcr_Response <$> results = [VString "cold"; VString "mild"; VNil; VNil] ∧
  err = Some (ErrToolNotFound "news").
Proof.
  pose proof (ProcessToolCalls_correct (fmt := plain_fmt) (conv := amd64_conv) ex_order ex_calls
    [ex_tool] 0 ex_order_perm) as H.
  destruct (ProcessToolCalls _ _ _ _) as [c [results err]]. destruct H as [Hr ->].
  split; [|vm_compute; reflexivity].
  replace (tcr_Response <$> results) with ((λ x : string * value * option ToolError * bool,
    x.1.1.2) <$> (erase_id <$> results)) by (by rewrite <-list_fmap_compose).
  rewrite Hr. vm_compute. reflexivity.
Defined.

Lemma fallback_ids_unique_witness :
  let results := (ProcessToolCalls (fmt := plain_fmt) (conv := amd64_conv) ex_order ex_calls
                    [ex_tool] 0).2.1 in
  NoDup (tcr_ID <$> results) ∧ (tcr_ID <$> results) !! 2 = Some "call_fallback_000000000001"%string.
Proof.
  split; [|vm_compute; reflexivity].
  apply fallback_ids_unique; [apply ex_order_perm|done|done|].
  intros c. unfold ex_calls. rewrite !elem_of_cons, elem_of_nil.
  intros [->|[->|[->|[->|[]]]]]; reflexivity.
Defined.
