(* ===== verification/Chaos.v ===== *)
(** Fault injection, [internal/engine/chaos.go]: the fail-first and probability
    trigger, the rate-limit window, the error, connection and latency faults.

    The injector is the state a call threads: its counters and windows (each
    update is one critical section of its mutex), its random source, and the
    durations it slept. A [None] result is a panic. *)

From S2P Require Import Prelude GoBase AgentTypes.

(** [math/rand]'s [*rand.Rand]: a generator state and its draws. [Intn] panics on
    a non-positive bound. *)
Class GoRand := {
  rng : Type;
  Float64 : rng → float64 * rng;
  Intn : Z → rng → Z * rng;
  NormFloat64 : rng → float64 * rng;
  Float64_range g : f64_le f64_zero (Float64 g).1 = true ∧ f64_lt (Float64 g).1 f64_one = true;
  Intn_range n g : (0 < n)%Z → (0 ≤ (Intn n g).1 < n)%Z
}.

(** [http.StatusText] on the codes the net/http package names. *)
Definition StatusText (code : Z) : string :=
  match code with
  | 100 => "Continue" | 101 => "Switching Protocols" | 102 => "Processing" | 103 => "Early Hints"
  | 200 => "OK" | 201 => "Created" | 202 => "Accepted" | 203 => "Non-Authoritative Information"
  | 204 => "No Content" | 205 => "Reset Content" | 206 => "Partial Content"
  | 207 => "Multi-Status" | 208 => "Already Reported" | 226 => "IM Used"
  | 300 => "Multiple Choices" | 301 => "Moved Permanently" | 302 => "Found" | 303 => "See Other"
  | 304 => "Not Modified" | 305 => "Use Proxy" | 307 => "Temporary Redirect"
  | 308 => "Permanent Redirect"
  | 400 => "Bad Request" | 401 => "Unauthorized" | 402 => "Payment Required" | 403 => "Forbidden"
  | 404 => "Not Found" | 405 => "Method Not Allowed" | 406 => "Not Acceptable"
  | 407 => "Proxy Authentication Required" | 408 => "Request Timeout" | 409 => "Conflict"
  | 410 => "Gone" | 411 => "Length Required" | 412 => "Precondition Failed"
  | 413 => "Request Entity Too Large" | 414 => "Request URI Too Long"
  | 415 => "Unsupported Media Type" | 416 => "Requested Range Not Satisfiable"
  | 417 => "Expectation Failed" | 418 => "I'm a teapot" | 421 => "Misdirected Request"
  | 422 => "Unprocessable Entity" | 423 => "Locked" | 424 => "Failed Dependency"
  | 425 => "Too Early" | 426 => "Upgrade Required" | 428 => "Precondition Required"
  | 429 => "Too Many Requests" | 431 => "Request Header Fields Too Large"
  | 451 => "Unavailable For Legal Reasons"
  | 500 => "Internal Server Error" | 501 => "Not Implemented" | 502 => "Bad Gateway"
  | 503 => "Service Unavailable" | 504 => "Gateway Timeout" | 505 => "HTTP Version Not Supported"
  | 506 => "Variant Also Negotiates" | 507 => "Insufficient Storage" | 508 => "Loop Detected"
  | 510 => "Not Extended" | 511 => "Network Authentication Required"
  | _ => ""
  end%Z.

Definition maxChaosLatencyMs : Z := 60000.

Record ChaosError := mkChaosError {
  che_StatusCode : Z;
  che_Message : string;
  che_RetryAfter : Z;
  che_Timeout : bool;
  che_Connection : string
}.

Record rateBucket := mkRateBucket { rb_windowStart : Z; rb_count : Z }.

Section injector.
Context {rand : GoRand} {conv : GoConv}.

Record ChaosInjector := mkChaosInjector {
  RandSrc : rng;
  buckets : gmap string rateBucket;
  errorCounts : gmap string Z;
  connCounts : gmap string Z;
  sleeps : list Z
}.

Definition NewChaosInjector (seed : rng) : ChaosInjector := mkChaosInjector seed ∅ ∅ ∅ [].

Definition set_rng (c : ChaosInjector) (g : rng) : ChaosInjector :=
  mkChaosInjector g (buckets c) (errorCounts c) (connCounts c) (sleeps c).
Definition set_errorCounts (c : ChaosInjector) (m : gmap string Z) : ChaosInjector :=
  mkChaosInjector (RandSrc c) (buckets c) m (connCounts c) (sleeps c).
Definition set_connCounts (c : ChaosInjector) (m : gmap string Z) : ChaosInjector :=
  mkChaosInjector (RandSrc c) (buckets c) (errorCounts c) m (sleeps c).
Definition set_buckets (c : ChaosInjector) (m : gmap string rateBucket) : ChaosInjector :=
  mkChaosInjector (RandSrc c) m (errorCounts c) (connCounts c) (sleeps c).

Definition hasAnyChaosSection (cfg : ChaosConfig) : bool :=
  bool_decide (is_Some (chaos_Latency cfg)) || bool_decide (is_Some (chaos_Errors cfg)) ||
  bool_decide (is_Some (chaos_RateLimit cfg)) || bool_decide (is_Some (chaos_Connection cfg)).

Definition chaosFor (agent : option AgentDefinition) : option ChaosConfig :=
  match agent with
  | None => None
  | Some a =>
      match bc_Chaos (as_Behavior (ad_Spec a)) with
      | None => None
      | Some cfg => if negb (chaos_Enabled cfg) && negb (hasAnyChaosSection cfg) then None else Some cfg
      end
  end.

Definition clampUnitInterval (r : float64) : float64 :=
  if f64_lt r f64_zero then f64_zero else if f64_lt f64_one r then f64_one else r.

(** Bumping a counter of [map[string]int]. *)
Definition bump (m : gmap string Z) (k : string) : gmap string Z * Z :=
  let n := wrap64 (default 0%Z (m !! k) + 1) in (<[k := n]> m, n).

(** [shouldTrigger]; the counter map is passed in and handed back. *)
Definition shouldTrigger (agentName : string) (rate : float64) (failFirst : Z)
    (counter : gmap string Z) (g : rng) : bool * gmap string Z * rng :=
  if decide (0 < failFirst)%Z then
    let '(counter, n) := bump counter agentName in
    (bool_decide (n ≤ failFirst)%Z, counter, g)
  else
    let r := clampUnitInterval rate in
    let '(draw, g) := Float64 g in
    (f64_lt draw r, counter, g).

Definition sleep (d : Z) (c : ChaosInjector) : ChaosInjector :=
  if decide (d ≤ 0)%Z then c
  else mkChaosInjector (RandSrc c) (buckets c) (errorCounts c) (connCounts c) (sleeps c ++ [d]).

Definition ms (n : Z) : Z := wrap64 (n * Millisecond).

Definition checkRateLimit (now : Z) (agent : string) (rl : ChaosRateLimitConfig)
    (c : ChaosInjector) : ChaosInjector * option ChaosError :=
  if decide (crl_WindowMs rl ≤ 0)%Z then (c, None)
  else
    let window := ms (crl_WindowMs rl) in
    let fresh_window := (set_buckets c (<[agent := mkRateBucket now 1]> (buckets c)), None) in
    match buckets c !! agent with
    | None => fresh_window
    | Some bucket =>
        if decide (window ≤ time_sub now (rb_windowStart bucket))%Z then fresh_window
        else
          let count := wrap64 (rb_count bucket + 1) in
          let c := set_buckets c (<[agent := mkRateBucket (rb_windowStart bucket) count]> (buckets c)) in
          if decide (crl_Requests rl < count)%Z
          then (c, Some (mkChaosError 429 "rate limit exceeded"
                           (wrap64 (window - time_sub now (rb_windowStart bucket))) false ""))
          else (c, None)
    end.

Definition pickStatusCode (e : ChaosErrorConfig) (c : ChaosInjector) : ChaosInjector * Z :=
  match ce_StatusCodes e with
  | [] => (c, ce_StatusCode e)
  | codes =>
      let '(i, g) := Intn (Z.of_nat (length codes)) (RandSrc c) in
      (set_rng c g, default 0%Z (codes !! Z.to_nat i))
  end.

Definition maybeInjectError (agentName : string) (e : ChaosErrorConfig) (c : ChaosInjector)
  : ChaosInjector * option ChaosError :=
  let '(fires, counts, g) :=
    shouldTrigger agentName (ce_Rate e) (ce_FailFirst e) (errorCounts c) (RandSrc c) in
  let c := set_rng (set_errorCounts c counts) g in
  if negb fires then (c, None)
  else if ce_Timeout e then
    let timeout := ms (ce_TimeoutMs e) in
    (sleep timeout c, Some (mkChaosError 504 "request timed out" timeout true ""))
  else
    let '(c, status) := pickStatusCode e c in
    let status := if decide (status = 0%Z) then 500%Z else status in
    let msg := if decide (ce_Message e = "") then StatusText status else ce_Message e in
    (c, Some (mkChaosError status msg 0 false "")).

Definition maybeInjectConnectionFault (agentName : string) (cc : ChaosConnectionConfig)
    (c : ChaosInjector) : ChaosInjector * option ChaosError :=
  let '(fires, counts, g) :=
    shouldTrigger agentName (cc_Rate cc) (cc_FailFirst cc) (connCounts c) (RandSrc c) in
  let c := set_rng (set_connCounts c counts) g in
  if negb fires then (c, None)
  else
    let mode := if decide (cc_Mode cc = "") then "empty" else cc_Mode cc in
    (c, Some (mkChaosError 0 "" 0 false mode)).

(** The first of two faults that fires. *)
Definition first_fault (m1 m2 : ChaosInjector → ChaosInjector * option ChaosError)
    (c : ChaosInjector) : ChaosInjector * option ChaosError :=
  match m1 c with
  | (c, Some err) => (c, Some err)
  | (c, None) => m2 c
  end.

Definition rate_limit_stage (now : Z) (name : string) (cfg : ChaosConfig) (c : ChaosInjector) :=
  match chaos_RateLimit cfg with
  | Some rl => if decide (0 < crl_Requests rl)%Z then checkRateLimit now name rl c else (c, None)
  | None => (c, None)
  end.

Definition error_stage (name : string) (cfg : ChaosConfig) (c : ChaosInjector) :=
  match chaos_Errors cfg with
  | Some e =>
      if f64_lt f64_zero (ce_Rate e) || bool_decide (0 < ce_FailFirst e)%Z
      then maybeInjectError name e c else (c, None)
  | None => (c, None)
  end.

Definition connection_stage (name : string) (cfg : ChaosConfig) (c : ChaosInjector) :=
  match chaos_Connection cfg with
  | Some cc =>
      if f64_lt f64_zero (cc_Rate cc) || bool_decide (0 < cc_FailFirst cc)%Z
      then maybeInjectConnectionFault name cc c else (c, None)
  | None => (c, None)
  end.

Definition Before (now : Z) (agent : AgentDefinition) (c : ChaosInjector)
  : ChaosInjector * option ChaosError :=
  match chaosFor (Some agent) with
  | None => (c, None)
  | Some cfg =>
      let name := agent_name agent in
      first_fault (rate_limit_stage now name cfg)
        (first_fault (error_stage name cfg) (connection_stage name cfg)) c
  end.

(** [sampleLatency]: the delay in nanoseconds. *)
Definition sampleLatency (l : ChaosLatencyConfig) (c : ChaosInjector)
  : option (ChaosInjector * Z) :=
  let dist :=
    if decide (cl_Distribution l = "")
    then (if decide (cl_MinMs l < cl_MaxMs l)%Z then "uniform" else "fixed")
    else cl_Distribution l in
  let fixed := Some (c, ms (cl_MinMs l)) in
  if decide (dist = "fixed") then fixed
  else if decide (dist = "uniform") then
    if decide (cl_MaxMs l ≤ cl_MinMs l)%Z then fixed
    else
      let bound := wrap64 (wrap64 (cl_MaxMs l - cl_MinMs l) + 1) in
      if decide (bound ≤ 0)%Z then None
      else
        let '(n, g) := Intn bound (RandSrc c) in
        Some (set_rng c g, ms (wrap64 (cl_MinMs l + n)))
  else if decide (dist = "normal") then
    let '(norm, g) := NormFloat64 (RandSrc c) in
    let x := f64_add (f64_mul norm (f64_of_Z (cl_StddevMs l))) (f64_of_Z (cl_MeanMs l)) in
    let x := if f64_lt x f64_zero then f64_zero else x in
    let x := if f64_lt (f64_of_Z maxChaosLatencyMs) x then f64_of_Z maxChaosLatencyMs else x in
    Some (set_rng c g, ms (f64_to_int x))
  else fixed.

Definition After (agent : AgentDefinition) (c : ChaosInjector) : option ChaosInjector :=
  match chaosFor (Some agent) ≫= chaos_Latency with
  | None => Some c
  | Some l => '(c, d) ← sampleLatency l c; Some (sleep d c)
  end.

(** ** The trigger *)

Lemma f64_one_eq r : f64_le f64_one r = true → f64_lt f64_one r = false → r = f64_one.
Proof.
  unfold f64_le, f64_lt, SFleb, SFltb.
  change f64_one with (S754_finite false 4503599627370496 (-52)).
  destruct r as [[]|[]| |[] m e]; try done.
  unfold SFcompare. destruct (Z.compare_spec (-52) e) as [<-| |]; try done.
  change (Pos.compare_cont Eq) with Pos.compare.
  destruct (Pos.compare_spec 4503599627370496 m) as [<-| |]; done.
Qed.

Lemma clampUnitInterval_lt draw r :
  f64_le f64_zero draw = true → f64_lt draw f64_one = true →
  (f64_le r f64_zero = true → f64_lt draw (clampUnitInterval r) = false) ∧
  (f64_le f64_one r = true → f64_lt draw (clampUnitInterval r) = true).
Proof.
  intros H0 H1. unfold clampUnitInterval. split; intros Hr.
  - destruct (f64_lt r f64_zero) eqn:Hlt.
    + by destruct draw as [[]|[]| |[] m e].
    + assert (f64_lt f64_one r = false) as -> by (by destruct r as [[]|[]| |[] m e]).
      by destruct r as [[]|[]| |[] m e], draw as [[]|[]| |[] m' e'].
  - destruct (f64_one_le_pos r Hr) as [Hpos _].
    assert (f64_lt r f64_zero = false) as -> by (by destruct r as [[]|[]| |[] m e]).
    destruct (f64_lt f64_one r) eqn:Hgt; [done|].
    by rewrite (f64_one_eq r Hr Hgt).
Qed.

(** A rate of at most 0 never fires, a rate of at least 1 always does, and the
    random source is left alone when the fault counts requests. *)
Lemma shouldTrigger_spec name rate failFirst counter g :
  let '(fires, counter', g') := shouldTrigger name rate failFirst counter g in
  if decide (0 < failFirst)%Z then
    counter' = <[name := wrap64 (default 0%Z (counter !! name) + 1)]> counter ∧ g' = g ∧
    fires = bool_decide (wrap64 (default 0%Z (counter !! name) + 1) ≤ failFirst)%Z
  else
    counter' = counter ∧ (f64_le rate f64_zero = true → fires = false) ∧
    (f64_le f64_one rate = true → fires = true).
Proof.
  unfold shouldTrigger, bump. destruct (Float64 g) as [draw g'] eqn:Hd.
  destruct (Float64_range g) as [H0 H1]. rewrite Hd in H0, H1. simpl in *.
  case_decide; [done|]. split; [done|]. by apply clampUnitInterval_lt.
Qed.

(** What one stage does to the counter it owns, and that it leaves the others. *)
Lemma checkRateLimit_frame now name rl c :
  let '(c', _) := checkRateLimit now name rl c in
  errorCounts c' = errorCounts c ∧ connCounts c' = connCounts c ∧ RandSrc c' = RandSrc c.
Proof. unfold checkRateLimit. repeat case_match; by simplify_eq/=. Qed.

Lemma maybeInjectError_spec name e c :
  let '(fires, counts, _) :=
    shouldTrigger name (ce_Rate e) (ce_FailFirst e) (errorCounts c) (RandSrc c) in
  let '(c', r) := maybeInjectError name e c in
  errorCounts c' = counts ∧ connCounts c' = connCounts c ∧ buckets c' = buckets c ∧
  bool_decide (is_Some r) = fires ∧ (∀ err, r = Some err → che_Connection err = "").
Proof.
  unfold maybeInjectError. destruct (shouldTrigger _ _ _ _ _) as [[fires counts] g].
  destruct fires; simpl; [|done].
  destruct (ce_Timeout e).
  - unfold sleep. case_decide; simpl; split_and!; try done; by intros err [= <-].
  - unfold pickStatusCode. destruct (ce_StatusCodes e) as [|code codes]; [|destruct (Intn _ _)];
      simpl; split_and!; try done; by intros err [= <-].
Qed.

Lemma maybeInjectConnectionFault_spec name cc c :
  let '(fires, counts, _) :=
    shouldTrigger name (cc_Rate cc) (cc_FailFirst cc) (connCounts c) (RandSrc c) in
  let '(c', r) := maybeInjectConnectionFault name cc c in
  connCounts c' = counts ∧ errorCounts c' = errorCounts c ∧ buckets c' = buckets c ∧
  bool_decide (is_Some r) = fires ∧ (∀ err, r = Some err → che_Connection err ≠ "").
Proof.
  unfold maybeInjectConnectionFault. destruct (shouldTrigger _ _ _ _ _) as [[fires counts] g].
  destruct fires; simpl; [|done]. split_and!; try done. intros err [= <-]. simpl. by case_decide.
Qed.

(** ** Sequences of requests *)

(** Requests served one after another: the mutex makes any concurrent run such a
    sequence per counter. *)
Fixpoint run_before (reqs : list (Z * AgentDefinition)) (c : ChaosInjector)
  : list (option ChaosError) * ChaosInjector :=
  match reqs with
  | [] => ([], c)
  | (now, agent) :: reqs =>
      let '(c, r) := Before now agent c in
      let '(rs, c) := run_before reqs c in (r :: rs, c)
  end.

(** The answers to the requests for [a]. *)
Definition answers_of (a : AgentDefinition) (reqs : list (Z * AgentDefinition))
    (rs : list (option ChaosError)) : list (option ChaosError) :=
  (filter (λ x, agent_name x.1.2 = agent_name a) (zip reqs rs)).*2.

Lemma answers_of_cons a now b reqs r rs :
  answers_of a ((now, b) :: reqs) (r :: rs) =
    if decide (agent_name b = agent_name a) then r :: answers_of a reqs rs
    else answers_of a reqs rs.
Proof. unfold answers_of. simpl. rewrite filter_cons. simpl. by case_decide. Qed.

Lemma answers_of_length a reqs c :
  length (answers_of a reqs (run_before reqs c).1) =
    length (filter (λ x, agent_name x.2 = agent_name a) reqs).
Proof.
  revert c. induction reqs as [|[now b] reqs IH]; intros c; [done|]. cbn [run_before].
  destruct (Before now b c) as [c1 r]. specialize (IH c1).
  destruct (run_before reqs c1) as [rs c2]. cbn [fst]. rewrite answers_of_cons, filter_cons.
  cbn [snd]. case_decide; simpl; by rewrite <-IH.
Qed.

Definition http_fault (r : option ChaosError) : bool :=
  match r with Some err => bool_decide (che_Connection err = "") | None => false end.

(** A stage keeps what both its parts keep. *)
Lemma first_fault_inv (P : ChaosInjector → Prop) m1 m2 c :
  (∀ c, P c → P (m1 c).1) → (∀ c, P c → P (m2 c).1) → P c → P (first_fault m1 m2 c).1.
Proof.
  intros H1 H2 Hc. unfold first_fault. specialize (H1 c Hc).
  destruct (m1 c) as [c1 [err|]]; simpl in *; auto.
Qed.

Lemma shouldTrigger_counter_other name rate n counter g k :
  name ≠ k → (shouldTrigger name rate n counter g).1.2 !! k = counter !! k.
Proof.
  intros Hne. unfold shouldTrigger, bump. case_decide; simpl; [by rewrite lookup_insert_ne|].
  by destruct (Float64 g).
Qed.

Lemma Before_errorCounts_other now b c n :
  agent_name b ≠ n → errorCounts (Before now b c).1 !! n = errorCounts c !! n.
Proof.
  intros Hne. unfold Before. destruct (chaosFor (Some b)) as [cfg|]; [|done].
  apply (first_fault_inv (λ c', errorCounts c' !! n = errorCounts c !! n)); [|intros c0 H0|done].
  - intros c0 <-. unfold rate_limit_stage. destruct (chaos_RateLimit cfg) as [rl|]; [|done].
    case_decide; [|done]. pose proof (checkRateLimit_frame now (agent_name b) rl c0) as Hf.
    destruct (checkRateLimit _ _ _ _), Hf as (Hf & _). simpl. by rewrite Hf.
  - apply (first_fault_inv (λ c', errorCounts c' !! n = errorCounts c !! n)); [| |done].
    + clear c0 H0. intros c0 <-. unfold error_stage. destruct (chaos_Errors cfg) as [e|]; [|done].
      destruct (_ || _); [|done]. pose proof (maybeInjectError_spec (agent_name b) e c0) as H.
      pose proof (shouldTrigger_counter_other (agent_name b) (ce_Rate e) (ce_FailFirst e)
        (errorCounts c0) (RandSrc c0) n Hne) as Ho.
      destruct (shouldTrigger _ _ _ _ _) as [[? counts] ?], (maybeInjectError _ _ _).
      destruct H as [H _]. simpl in *. by rewrite H.
    + clear c0 H0. intros c0 <-. unfold connection_stage.
      destruct (chaos_Connection cfg) as [cc|]; [|done].
      destruct (_ || _); [|done].
      pose proof (maybeInjectConnectionFault_spec (agent_name b) cc c0) as H.
      destruct (shouldTrigger _ _ _ _ _) as [[? counts] ?], (maybeInjectConnectionFault _ _ _).
      destruct H as (_ & H & _). simpl. by rewrite H.
Qed.

(** A request for an agent that fails its first [n] requests and has no rate
    limit: it is counted, and faults while the count is at most [n]. *)
Lemma Before_fail_first now a cfg e c :
  chaosFor (Some a) = Some cfg → chaos_RateLimit cfg = None → chaos_Errors cfg = Some e →
  (0 < ce_FailFirst e)%Z →
  let n := wrap64 (default 0%Z (errorCounts c !! agent_name a) + 1) in
  let '(c', r) := Before now a c in
  errorCounts c' !! agent_name a = Some n ∧ http_fault r = bool_decide (n ≤ ce_FailFirst e)%Z.
Proof.
  intros Hcfg Hrl He Hff. cbv zeta. unfold Before, first_fault, rate_limit_stage, error_stage.
  rewrite Hcfg, Hrl, He. rewrite (bool_decide_true (0 < ce_FailFirst e)%Z), orb_true_r by done.
  pose proof (maybeInjectError_spec (agent_name a) e c) as H.
  pose proof (shouldTrigger_spec (agent_name a) (ce_Rate e) (ce_FailFirst e) (errorCounts c)
    (RandSrc c)) as Ht.
  destruct (shouldTrigger _ _ _ _ _) as [[fires counts] g].
  destruct (maybeInjectError _ _ _) as [c1 r1]. rewrite decide_True in Ht by done.
  destruct Ht as (-> & _ & Hfires), H as (Hcounts & _ & _ & Hr & Hconn). rewrite <-Hfires, <-Hr.
  destruct r1 as [err|]; simpl in *.
  { rewrite Hcounts, lookup_insert_eq. split; [done|]. by rewrite Hconn. }
  unfold connection_stage. destruct (chaos_Connection cfg) as [cc|];
    [|by rewrite Hcounts, lookup_insert_eq].
  destruct (_ || _); [|by rewrite Hcounts, lookup_insert_eq].
  pose proof (maybeInjectConnectionFault_spec (agent_name a) cc c1) as H2.
  destruct (shouldTrigger _ _ _ _ _) as [[? ?] ?].
  destruct (maybeInjectConnectionFault _ _ _) as [c2 r2].
  destruct H2 as (_ & -> & _ & _ & Hc2). rewrite Hcounts, lookup_insert_eq. split; [done|].
  destruct r2 as [err|]; [|done]. simpl. by rewrite bool_decide_eq_false_2 by (by apply Hc2).
Qed.

(** ** Properties *)


(** Requests of one agent against its limit, at the given instants. *)
Fixpoint run_limit (agent : string) (rl : ChaosRateLimitConfig) (times : list Z)
    (c : ChaosInjector) : list (option ChaosError) * ChaosInjector :=
  match times with
  | [] => ([], c)
  | t :: times =>
      let '(c, r) := checkRateLimit t agent rl c in
      let '(rs, c) := run_limit agent rl times c in (r :: rs, c)
  end.

Definition limit_error (retry : Z) : ChaosError :=
  mkChaosError 429 "rate limit exceeded" retry false "".

(** Inside a window that started at [t0] and served [k] requests. *)
Lemma run_limit_in_window agent rl t0 times c k :
  let w := ms (crl_WindowMs rl) in
  (0 < crl_WindowMs rl)%Z → (0 < w)%Z →
  buckets c !! agent = Some (mkRateBucket t0 (Z.of_nat k)) →
  (∀ t, t ∈ times → t0 ≤ t < t0 + w)%Z → (Z.of_nat (k + length times) < two63)%Z →
  let '(rs, c') := run_limit agent rl times c in
  buckets c' !! agent = Some (mkRateBucket t0 (Z.of_nat (k + length times))) ∧
  rs = imap (λ i t, if decide (Z.of_nat (S (k + i)) ≤ crl_Requests rl)%Z then None
                    else Some (limit_error (w - (t - t0)))) times.
Proof.
  cbv zeta. intros Hpos Hw. revert c k. induction times as [|t times IH]; intros c k Hb Ht Hlen.
  { simpl. by rewrite Nat.add_0_r. }
  simpl. unfold checkRateLimit at 1. rewrite decide_False by lia. rewrite Hb. simpl.
  pose proof (Ht t ltac:(left)) as Htt.
  assert (ms (crl_WindowMs rl) < two63)%Z as Hwm by (apply wrap64_in).
  assert (time_sub t t0 = t - t0)%Z as -> by (unfold time_sub, two63 in *; lia).
  rewrite decide_False by lia. simpl in Hlen.
  rewrite wrap64_id by (unfold in_int64, two63 in *; lia).
  assert (∀ t, t ∈ times → t0 ≤ t < t0 + ms (crl_WindowMs rl))%Z as Ht' by (intros; apply Ht; by right).
  set (c1 := set_buckets c _).
  assert (buckets c1 !! agent = Some (mkRateBucket t0 (Z.of_nat (S k)))) as Hb1.
  { simpl. rewrite lookup_insert_eq. do 2 f_equal. lia. }
  specialize (IH c1 (S k) Hb1 Ht' ltac:(lia)).
  assert (∀ i, S k + i = k + S i) as Hs by lia.
  destruct (run_limit agent rl times c1) as [rs c2] eqn:Hrun. destruct IH as [IHb IHr].
  rewrite (Hs (length times)) in IHb.
  assert (rs = imap ((λ i t, if decide (Z.of_nat (S (k + i)) ≤ crl_Requests rl)%Z then None
    else Some (limit_error (ms (crl_WindowMs rl) - (t - t0)))) ∘ S) times) as ->.
  { rewrite IHr. apply imap_ext. intros i t' _. simpl. by rewrite <-Hs. }
  case_decide as Hd; rewrite Hrun; (split; [done|]); f_equal.
  - rewrite decide_False by lia. unfold limit_error. do 2 f_equal. apply wrap64_id.
    unfold in_int64, two63 in *. lia.
  - by rewrite decide_True by lia.
Qed.

Lemma run_limit_others agent rl times c other :
  other ≠ agent → buckets (run_limit agent rl times c).2 !! other = buckets c !! other.
Proof.
  intros Hne. revert c. induction times as [|t times IH]; intros c; [done|]. simpl.
  assert (buckets (checkRateLimit t agent rl c).1 !! other = buckets c !! other) as Hone.
  { unfold checkRateLimit. case_decide; [done|].
    destruct (buckets c !! agent) as [b|]; [|simpl; by rewrite lookup_insert_ne].
    repeat case_decide; simpl; by rewrite lookup_insert_ne. }
  destruct (checkRateLimit t agent rl c) as [c1 r]. specialize (IH c1).
  destruct (run_limit agent rl times c1) as [rs c2]. simpl in *. by rewrite IH.
Qed.

(** with a limit of [n] requests per window, the requests of an agent in one
    window are served until there are [n] of them, and each later one gets a 429
    whose retry-after is the time left in the window; a request at or past the
    end of the window is served and opens the next one. Requests for other agents
    do not count. *)
Theorem rate_limit_window agent rl t0 times t1 c :
  let w := ms (crl_WindowMs rl) in
  (0 < crl_WindowMs rl)%Z → (0 < w)%Z → (0 < crl_Requests rl)%Z →
  match buckets c !! agent with
  | Some b => (w ≤ time_sub t0 (rb_windowStart b))%Z
  | None => True
  end →
  (∀ t, t ∈ times → t0 ≤ t < t0 + w)%Z → (Z.of_nat (S (length times)) < two63)%Z →
  (t0 + w ≤ t1)%Z →
  let '(rs, c') := run_limit agent rl (t0 :: times) c in
  rs = imap (λ i t, if decide (Z.of_nat (S i) ≤ crl_Requests rl)%Z then None
                    else Some (limit_error (w - (t - t0)))) (t0 :: times) ∧
  (checkRateLimit t1 agent rl c').2 = None ∧
  buckets (checkRateLimit t1 agent rl c').1 !! agent = Some (mkRateBucket t1 1) ∧
  ∀ other, other ≠ agent → buckets c' !! other = buckets c !! other.
Proof.
  cbv zeta. intros Hpos Hw Hn Hold Ht Hlen Ht1.
  assert (ms (crl_WindowMs rl) < two63)%Z as Hwm by (apply wrap64_in).
  assert (∀ c, (∀ b, buckets c !! agent = Some b → (ms (crl_WindowMs rl) ≤ time_sub t1 (rb_windowStart b))%Z) →
    checkRateLimit t1 agent rl c = (set_buckets c (<[agent := mkRateBucket t1 1]> (buckets c)), None))
    as Hnew1.
  { intros c0 H0. unfold checkRateLimit. rewrite decide_False by lia.
    destruct (buckets c0 !! agent) as [b|]; [|done]. by rewrite decide_True by eauto. }
  assert (checkRateLimit t0 agent rl c =
    (set_buckets c (<[agent := mkRateBucket t0 1]> (buckets c)), None)) as Hfirst.
  { unfold checkRateLimit. rewrite decide_False by lia.
    destruct (buckets c !! agent) as [b|]; [|done]. by rewrite decide_True. }
  pose proof (run_limit_others agent rl (t0 :: times) c) as Hoth. revert Hoth.
  cbn [run_limit]. rewrite Hfirst. set (c1 := set_buckets c _).
  pose proof (run_limit_in_window agent rl t0 times c1 1 Hpos Hw) as H. cbv zeta in H.
  destruct (run_limit agent rl times c1) as [rs c2]. intros Hoth.
  destruct H as [Hb ->]; [simpl; by rewrite lookup_insert_eq|done|simpl in *; lia|].
  rewrite Hnew1.
  - simpl. split_and!; [|done|by rewrite lookup_insert_eq|exact Hoth].
    rewrite decide_True by lia. done.
  - intros b Hb'. rewrite Hb in Hb'. injection Hb' as <-. simpl.
    unfold time_sub, two63 in *. lia.
Qed.

(** The distribution the code falls back to when none is named. *)
Definition effective_dist (l : ChaosLatencyConfig) : string :=
  if decide (cl_Distribution l = "")
  then (if decide (cl_MinMs l < cl_MaxMs l)%Z then "uniform" else "fixed")
  else cl_Distribution l.

(** The normal draw before it is clamped. *)
Definition normal_draw (l : ChaosLatencyConfig) (g : rng) : float64 :=
  f64_add (f64_mul (NormFloat64 g).1 (f64_of_Z (cl_StddevMs l))) (f64_of_Z (cl_MeanMs l)).

Definition max_ms : Z := two63 / Millisecond.

Lemma ms_exact n : (0 ≤ n < max_ms)%Z → ms n = (n * Millisecond)%Z.
Proof.
  intros H. apply wrap64_id. unfold in_int64, max_ms, Millisecond, two63 in *.
  change (9223372036854775808 / 1000000)%Z with 9223372036854%Z in H. lia.
Qed.

(** A draw clamped to the cap truncates to a whole number of milliseconds in range. *)
Lemma clamped_trunc x :
  f64_valid x → x ≠ S754_nan →
  let y := if f64_lt x f64_zero then f64_zero else x in
  let z := if f64_lt (f64_of_Z maxChaosLatencyMs) y then f64_of_Z maxChaosLatencyMs else y in
  ∃ t, f64_trunc z = Some t ∧ (0 ≤ t ≤ maxChaosLatencyMs)%Z.
Proof.
  intros Hv Hnan. cbv zeta.
  change (f64_of_Z maxChaosLatencyMs) with (S754_finite false 8246337208320000 (-37)).
  destruct x as [s|[]| |[] m e]; try done; try (by exists 0%Z);
    try (by exists maxChaosLatencyMs).
  change (f64_lt (S754_finite false m e) f64_zero) with false. cbv iota.
  destruct (f64_lt _ _) eqn:Hlt; [by exists maxChaosLatencyMs|].
  by apply (f64_trunc_between _ 8246337208320000 37); [|done|apply f64_pos_not_lt|..].
Qed.

(** for delays that fit a duration, sampling does not panic, and the delay
    is the fixed one, a whole number of milliseconds between the bounds of a
    uniform distribution, or for a normal distribution between 0 and the cap. *)
Theorem sampleLatency_bounds l c :
  (0 ≤ cl_MinMs l < max_ms)%Z → (0 ≤ cl_MaxMs l < max_ms)%Z →
  (effective_dist l = "normal" → f64_valid (normal_draw l (RandSrc c)) ∧ normal_draw l (RandSrc c) ≠ S754_nan) →
  ∃ c' d, sampleLatency l c = Some (c', (d * Millisecond)%Z) ∧
    if decide (effective_dist l = "uniform")
    then (cl_MinMs l ≤ d ≤ Z.max (cl_MinMs l) (cl_MaxMs l))%Z
    else if decide (effective_dist l = "normal") then (0 ≤ d ≤ maxChaosLatencyMs)%Z
    else d = cl_MinMs l.
Proof.
  intros Hmin Hmax Hnorm. unfold sampleLatency. fold (effective_dist l).
  rewrite (ms_exact (cl_MinMs l)) by done. cbv zeta.
  destruct (decide (effective_dist l = "fixed")) as [->|Hnf]; [by exists c, (cl_MinMs l)|].
  destruct (decide (effective_dist l = "uniform")) as [Hu|Hnu].
  - destruct (decide (cl_MaxMs l ≤ cl_MinMs l)%Z) as [Hle|Hgt]; [exists c, (cl_MinMs l); split; [done|lia]|].
    assert (max_ms < two63 - 1)%Z as Hmm by done.
    rewrite (wrap64_id (cl_MaxMs l - cl_MinMs l)) by (unfold in_int64, two63 in *; lia).
    rewrite wrap64_id by (unfold in_int64, two63 in *; lia).
    rewrite decide_False by lia.
    destruct (Intn _ (RandSrc c)) as [n g] eqn:Hi.
    pose proof (Intn_range (cl_MaxMs l - cl_MinMs l + 1) (RandSrc c) ltac:(lia)) as Hr.
    rewrite Hi in Hr. simpl in Hr.
    rewrite wrap64_id by (unfold in_int64, two63 in *; lia). rewrite ms_exact by lia.
    eexists _, _. split; [done|]. lia.
  - destruct (decide (effective_dist l = "normal")) as [Hn|Hnn];
      [|by exists c, (cl_MinMs l)].
    destruct (Hnorm Hn) as [Hv Hnan]. unfold normal_draw in Hv, Hnan.
    destruct (NormFloat64 (RandSrc c)) as [norm g]. simpl in Hv, Hnan.
    set (x := f64_add _ _) in *. clearbody x.
    set (y := if f64_lt x f64_zero then f64_zero else x).
    set (z := if f64_lt (f64_of_Z maxChaosLatencyMs) y then f64_of_Z maxChaosLatencyMs else y).
    destruct (clamped_trunc x Hv Hnan) as (t & Ht & Htb). cbv zeta in Ht. fold y in Ht. fold z in Ht.
    unfold maxChaosLatencyMs in *.
    exists (set_rng c g), t. rewrite (f64_to_int_trunc z t Ht), ms_exact; [done| |].
    + change max_ms with 9223372036854%Z. lia.
    + unfold in_int64, two63. lia.
Qed.
End injector.

(** ** Instances the hypotheses of the properties hold at *)

(** A source that always draws one half, the middle of the range and one. *)
Definition half_rand : GoRand.
Proof.
  refine {| rng := unit;
            Float64 g := (f64_div f64_one (f64_of_Z 2), g);
            Intn n g := ((n / 2)%Z, g);
            NormFloat64 g := (f64_one, g) |}.
  - intros g. split; vm_compute; reflexivity.
  - intros n g Hn. simpl. split; [apply Z.div_pos; lia|apply Z.div_lt; lia].
Defined.

Definition ex_errors : ChaosErrorConfig := mkChaosErrorConfig f64_zero 503 [] false 0 "" 2.

Definition with_chaos (a : AgentDefinition) (cfg : ChaosConfig) : AgentDefinition :=
  mkAgentDefinition (ad_APIVersion a) (ad_Kind a) (ad_Metadata a)
    (mkAgentSpec (as_Protocol (ad_Spec a)) (as_Model (ad_Spec a)) (as_SystemPrompt (ad_Spec a))
       (as_Tools (ad_Spec a))
       (mkBehaviorConfig (bc_Scenarios (as_Behavior (ad_Spec a)))
          (bc_Streaming (as_Behavior (ad_Spec a))) (Some cfg))).

Definition ex_flaky_cfg : ChaosConfig := mkChaosConfig true "" None (Some ex_errors) None None.
Definition ex_flaky : AgentDefinition := with_chaos (bare_agent "flaky" "" "m") ex_flaky_cfg.
Definition ex_plain : AgentDefinition := bare_agent "plain" "" "m".


Lemma rate_limit_window_witness :
  (run_limit (rand := half_rand) "a" (mkChaosRateLimitConfig 2 1) [0; 10; 20]%Z
     (NewChaosInjector (rand := half_rand) ())).1 = [None; None; Some (limit_error 999980)].
Proof.
  pose proof (rate_limit_window (rand := half_rand) "a" (mkChaosRateLimitConfig 2 1) 0 [10; 20]%Z
    1000000 (NewChaosInjector (rand := half_rand) ()) eq_refl eq_refl eq_refl I) as H.
  destruct (run_limit _ _ _ _) as [rs c'].
  destruct H as [-> _]; [|done|done|vm_compute; reflexivity].
  intros t. rewrite !elem_of_cons, elem_of_nil. change (ms _) with 1000000%Z.
  intros [->|[->|[]]]; lia.
Defined.

Lemma sampleLatency_bounds_witness :
  let l := mkChaosLatencyConfig "normal" 0 0 50 5 in
  ∃ c' d, sampleLatency (rand := half_rand) (conv := amd64_conv) l
      (NewChaosInjector (rand := half_rand) ()) = Some (c', (d * Millisecond)%Z) ∧
    (0 ≤ d ≤ maxChaosLatencyMs)%Z.
Proof.
  apply (sampleLatency_bounds (rand := half_rand) (conv := amd64_conv)
    (mkChaosLatencyConfig "normal" 0 0 50 5)); [by vm_compute|by vm_compute|].
  intros _. by vm_compute.
Defined.

(** The cap does not apply to a fixed delay: ten minutes are slept in full. *)
Lemma fixed_latency_uncapped {rand : GoRand} {conv : GoConv} (c : ChaosInjector) :
  sampleLatency (mkChaosLatencyConfig "fixed" 600000 0 0 0) c = Some (c, 10 * Minute)%Z ∧
  (maxChaosLatencyMs * Millisecond < 10 * Minute)%Z.
Proof. by vm_compute. Qed.

(** A chaos block that says [enabled: false] and has a section stays on. *)
Lemma disabled_section_stays_on a errors :
  let cfg := mkChaosConfig false "" None (Some errors) None None in
  chaosFor (Some (with_chaos a cfg)) = Some cfg.
Proof. done. Qed.
