(* ===== verification/ResponseGenerator.v ===== *)
(** Response generation, [internal/engine/response_generator.go]: rendering with
    the template cache, and the random template functions.

    [text/template] is a parameter ([GoTemplate]); the draws of [crypto/rand] are
    arguments, [None] when reading fails. *)

From Stdlib Require Import Ascii.
From S2P Require Import Prelude GoBase AgentTypes ToolProcessor.

Record TemplateContext := mkTemplateContext {
  tc_Agent : AgentDefinition;
  tc_Message : string;
  tc_TurnNumber : Z;
  tc_SessionID : string;
  tc_Timestamp : string;
  tc_Vars : list (string * value);
  tc_Match : option (gmap string string)
}.

(** Parsing a template with the generator's functions, and executing it in an
    environment the functions read (the clock, the random source). *)
Class GoTemplate := {
  template : Type;
  template_env : Type;
  template_error : Type;
  Parse : string → template_error + template;
  Execute : template → TemplateContext → template_env → template_error + string
}.

(** ** Random template functions *)

(** [generateUUID] on the sixteen bytes read: version and variant bits, then the
    8-4-4-4-12 layout. *)
Definition set_byte (i : nat) (f : Z → Z) (b : list Z) : list Z := alter f i b.

Definition uuid_bytes (b : list Z) : list Z :=
  set_byte 8 (λ x, Z.lor (Z.land x 0x3f) 0x80) (set_byte 6 (λ x, Z.lor (Z.land x 0x0f) 0x40) b).

Definition uuid_layout (b : list Z) : string :=
  (hex_bytes (take 4 b) +:+ "-" +:+ hex_bytes (take 2 (drop 4 b)) +:+ "-" +:+
   hex_bytes (take 2 (drop 6 b)) +:+ "-" +:+ hex_bytes (take 2 (drop 8 b)) +:+ "-" +:+
   hex_bytes (take 6 (drop 10 b)))%string.

Definition generateUUID (read : option (list Z)) : string :=
  match read with
  | None => "00000000-0000-0000-0000-000000000000"
  | Some b => uuid_layout (uuid_bytes b)
  end.

(** A draw of [rand.Int] with bound [n]: [None] when reading fails. The outer
    option of the functions below is [rand.Int]'s panic on a bound of 0 or less. *)
Definition draw_ok (n : Z) (draw : option Z) : Prop :=
  match draw with Some k => (0 ≤ k < n)%Z | None => True end.

Definition randomInt (min max : Z) (draw : option Z) : option Z :=
  if decide (max ≤ min)%Z then Some min
  else
    let bound := wrap64 (wrap64 (max - min) + 1) in
    if decide (bound ≤ 0)%Z then None
    else match draw with
         | None => Some min
         | Some n => Some (wrap64 (min + n))
         end.

Definition maxRandomStringLen : Z := 4096.

Definition charset : string := "abcdefghijklmnopqrstuvwxyzABCDEFGHIJKLMNOPQRSTUVWXYZ0123456789".

Definition random_char (draw : option Z) : Ascii.ascii :=
  match draw with
  | None => "x"%char
  | Some n => default "x"%char (String.get (Z.to_nat n) charset)
  end.

Definition randomString (length : Z) (draws : nat → option Z) : string :=
  if decide (length ≤ 0)%Z then ""
  else
    let length := if decide (maxRandomStringLen < length)%Z then maxRandomStringLen else length in
    String.string_of_list_ascii ((λ i, random_char (draws i)) <$> seq 0 (Z.to_nat length)).

Definition randomFloat (min max : float64) (draw : option Z) : float64 :=
  if f64_le max min then min
  else match draw with
       | None => min
       | Some n => f64_add min (f64_div (f64_mul (f64_sub max min) (f64_of_Z n)) (f64_of_Z 1000000))
       end.

Definition randomChoice (args : list value) (draw : option Z) : option value :=
  match args with
  | [] => Some (VString "")
  | a :: _ => match draw with None => Some a | Some n => args !! Z.to_nat n end
  end.

Definition fakeFirstNames : list string :=
  ["Alice"; "Bob"; "Carol"; "David"; "Emma"; "Frank";
   "Grace"; "Henry"; "Iris"; "Jack"; "Karen"; "Leo"]%string.

Definition fakeLastNames : list string :=
  ["Smith"; "Johnson"; "Williams"; "Brown"; "Jones"; "Davis";
   "Miller"; "Wilson"; "Moore"; "Taylor"; "Anderson"; "Thomas"]%string.

Definition fakeCompanyRoots : list string :=
  ["Acme"; "Globex"; "Initech"; "Umbrella"; "Hooli";
   "Soylent"; "Stark"; "Wayne"; "Wonka"; "Cyberdyne"]%string.

Definition fakeCompanySuffixes : list string :=
  ["Inc"; "LLC"; "Corp"; "Group"; "Labs"; "Systems"]%string.

(** [l[randomInt(0, len(l)-1)]]; the outer option is a panic. *)
Definition random_elem (l : list string) (draw : option Z) : option string :=
  i ← randomInt 0 (Z.of_nat (length l) - 1) draw;
  if decide (i < 0)%Z then None else l !! Z.to_nat i.

Definition fakeName (d1 d2 : option Z) : option string :=
  first ← random_elem fakeFirstNames d1;
  last ← random_elem fakeLastNames d2;
  Some (first +:+ " " +:+ last)%string.

Definition fakeCompany (d1 d2 : option Z) : option string :=
  root ← random_elem fakeCompanyRoots d1;
  suffix ← random_elem fakeCompanySuffixes d2;
  Some (root +:+ " " +:+ suffix)%string.

(** [%03d] and [%04d] of a number that is not negative. *)
Fixpoint zeros (n : nat) : string :=
  match n with O => "" | S n => String "0"%char (zeros n) end.

Definition pad_d (width : nat) (n : Z) : string :=
  let s := fmt_d n in (zeros (width - String.length s) +:+ s)%string.

Definition fakePhone (d1 d2 : option Z) : option string :=
  a ← randomInt 200 999 d1;
  b ← randomInt 0 9999 d2;
  Some ("(" +:+ pad_d 3 a +:+ ") 555-" +:+ pad_d 4 b)%string.

Section generator.
Context {golower : GoLower} {gotmpl : GoTemplate}.

Definition fakeDomains : list string := ["example.com"; "test.com"; "mock.dev"; "acme.org"]%string.

Definition fakeEmail (d1 d2 d3 : option Z) : option string :=
  first ← random_elem fakeFirstNames d1;
  last ← random_elem fakeLastNames d2;
  domain ← random_elem fakeDomains d3;
  Some (ToLower first +:+ "." +:+ ToLower last +:+ "@" +:+ domain)%string.

Definition fakeUsername (d1 d2 d3 : option Z) : option string :=
  first ← random_elem fakeFirstNames d1;
  last ← random_elem fakeLastNames d2;
  n ← randomInt 0 99 d3;
  Some (ToLower first +:+ "_" +:+ ToLower last +:+ fmt_d n)%string.

(** ** Rendering *)

Record Response := mkResponse {
  re_AgentName : string;
  re_Model : string;
  re_Content : string;
  re_ToolCalls : list ToolCallSpec;
  re_ToolResults : list ToolCallResult;
  re_ScenarioName : string;
  re_SystemPrompt : string;
  re_Metadata : list (string * value);
  re_FinishReason : string;
  re_Refusal : string;
  re_Hallucination : option HallucinationSpec
}.

(** The generator is its template cache; the function map never changes. *)
Record ResponseGenerator := mkResponseGenerator { rg_cache : gmap string template }.

Definition NewResponseGenerator : ResponseGenerator := mkResponseGenerator ∅.

Inductive render_error :=
| ParsingTemplate (e : template_error)
| ExecutingTemplate (e : template_error).

Definition execute (tmpl : template) (ctx : TemplateContext) (env : template_env)
  : render_error + string :=
  match Execute tmpl ctx env with
  | inl e => inl (ExecutingTemplate e)
  | inr s => inr s
  end.

Definition renderContent (g : ResponseGenerator) (content : string) (ctx : TemplateContext)
    (env : template_env) : ResponseGenerator * (render_error + string) :=
  if negb (str_contains content "{{") then (g, inr content)
  else
    match rg_cache g !! content with
    | Some tmpl => (g, execute tmpl ctx env)
    | None =>
        match Parse content with
        | inl e => (g, inl (ParsingTemplate e))
        | inr tmpl => (mkResponseGenerator (<[content := tmpl]> (rg_cache g)), execute tmpl ctx env)
        end
    end.

Definition Generate (g : ResponseGenerator) (agent : AgentDefinition) (scenario : Scenario)
    (ctx : TemplateContext) (env : template_env)
  : ResponseGenerator * ((string * render_error) + Response) :=
  let '(g, rendered) := renderContent g (sr_Content (sc_Response scenario)) ctx env in
  (g, match rendered with
      | inl e => inl (sc_Name scenario, e)
      | inr content =>
          inr (mkResponse (agent_name agent) (agent_model agent) content
                 (sr_ToolCalls (sc_Response scenario)) [] (sc_Name scenario)
                 (as_SystemPrompt (ad_Spec agent)) (sr_Metadata (sc_Response scenario))
                 (sr_FinishReason (sc_Response scenario)) (sr_Refusal (sc_Response scenario))
                 (sr_Hallucination (sc_Response scenario)))
      end).

(** ** The cache cannot be observed *)

Definition generator_ok (g : ResponseGenerator) : Prop :=
  ∀ content tmpl, rg_cache g !! content = Some tmpl → Parse content = inr tmpl.

Lemma NewResponseGenerator_ok : generator_ok NewResponseGenerator.
Proof. intros content tmpl. simpl. by rewrite lookup_empty. Qed.

(** Rendering without a cache. *)
Definition render (content : string) (ctx : TemplateContext) (env : template_env)
  : render_error + string :=
  if str_contains content "{{" then
    match Parse content with
    | inl e => inl (ParsingTemplate e)
    | inr tmpl => execute tmpl ctx env
    end
  else inr content.

Lemma renderContent_ok g content ctx env :
  generator_ok g →
  (renderContent g content ctx env).2 = render content ctx env ∧
  generator_ok (renderContent g content ctx env).1.
Proof.
  intros Hok. unfold renderContent, render. destruct (str_contains content "{{"); [|done]. simpl.
  destruct (rg_cache g !! content) as [tmpl|] eqn:Hc; [by rewrite (Hok _ _ Hc)|].
  destruct (Parse content) as [e|tmpl] eqn:Hp; [done|]. split; [done|].
  intros content' tmpl'. simpl. intros [[<- <-]|[_ Hl]]%lookup_insert_Some; [done|by apply Hok].
Qed.

Lemma Generate_ok g agent scenario ctx env :
  generator_ok g →
  generator_ok (Generate g agent scenario ctx env).1 ∧
  (Generate g agent scenario ctx env).2 =
    match render (sr_Content (sc_Response scenario)) ctx env with
    | inl e => inl (sc_Name scenario, e)
    | inr content =>
        inr (mkResponse (agent_name agent) (agent_model agent) content
               (sr_ToolCalls (sc_Response scenario)) [] (sc_Name scenario)
               (as_SystemPrompt (ad_Spec agent)) (sr_Metadata (sc_Response scenario))
               (sr_FinishReason (sc_Response scenario)) (sr_Refusal (sc_Response scenario))
               (sr_Hallucination (sc_Response scenario)))
    end.
Proof.
  intros Hok. unfold Generate.
  destruct (renderContent_ok g (sr_Content (sc_Response scenario)) ctx env Hok) as [Hr Hg].
  destruct (renderContent _ _ _ _) as [g' r]. simpl in *. by rewrite Hr.
Qed.

(** The generator after rendering the given contents. *)
Definition generator_after (calls : list (string * TemplateContext * template_env))
  : ResponseGenerator :=
  foldl (λ g '(content, ctx, env), (renderContent g content ctx env).1) NewResponseGenerator calls.

Lemma generator_after_ok calls : generator_ok (generator_after calls).
Proof.
  unfold generator_after. induction calls as [|[[content ctx] env] calls IH] using rev_ind.
  - apply NewResponseGenerator_ok.
  - rewrite foldl_app. simpl. by apply renderContent_ok.
Qed.

(** ** Properties *)

(** after any renderings, a response is what parsing and executing the
    scenario's content alone gives (the content itself when it has no template
    action), with the scenario's and the agent's fields around it; an error names
    the scenario. *)
Theorem Generate_correct history agent scenario ctx env :
  (Generate (generator_after history) agent scenario ctx env).2 =
    match render (sr_Content (sc_Response scenario)) ctx env with
    | inl e => inl (sc_Name scenario, e)
    | inr content =>
        inr (mkResponse (agent_name agent) (agent_model agent) content
               (sr_ToolCalls (sc_Response scenario)) [] (sc_Name scenario)
               (as_SystemPrompt (ad_Spec agent)) (sr_Metadata (sc_Response scenario))
               (sr_FinishReason (sc_Response scenario)) (sr_Refusal (sc_Response scenario))
               (sr_Hallucination (sc_Response scenario)))
    end ∧
  (str_contains (sr_Content (sc_Response scenario)) "{{" = false →
   re_Content <$> (match (Generate (generator_after history) agent scenario ctx env).2 with
                   | inr r => Some r | inl _ => None end) = Some (sr_Content (sc_Response scenario))).
Proof.
  destruct (Generate_ok (generator_after history) agent scenario ctx env (generator_after_ok _))
    as [_ H]. rewrite H. split; [done|]. unfold render. intros Hc. by rewrite Hc.
Qed.
End generator.

(** ** Random values *)

Lemma list_ascii_app a b :
  String.list_ascii_of_string (a +:+ b) =
    String.list_ascii_of_string a ++ String.list_ascii_of_string b.
Proof. induction a as [|c a IH]; [done|]. simpl. by f_equal. Qed.

Definition hex_pair (x : Z) : list ascii := [hex_digit (x / 16 mod 16); hex_digit (x mod 16)].

Lemma list_ascii_hex_bytes bs : String.list_ascii_of_string (hex_bytes bs) = bs ≫= hex_pair.
Proof.
  induction bs as [|x bs IH]; [done|]. change (hex_bytes (x :: bs)) with (hex_fixed 2 x +:+ hex_bytes bs)%string.
  by rewrite list_ascii_app, IH.
Qed.

Definition hex_chars : list ascii := String.list_ascii_of_string "0123456789abcdef".

Lemma hex_digit_is_hex n : hex_digit (n mod 16) ∈ hex_chars.
Proof.
  pose proof (Z.mod_pos_bound n 16 ltac:(done)) as Hb.
  assert (∀ k, k < 16 → hex_digit (Z.of_nat k) ∈ hex_chars) as H.
  { intros k Hk. do 16 (destruct k as [|k]; [by apply (bool_decide_unpack _); vm_compute|]). lia. }
  rewrite <-(Z2Nat.id (n mod 16)) by lia. apply H. lia.
Qed.

(** The version and the variant nibble of every byte. *)
Lemma uuid_nibbles x : (0 ≤ x < 256)%Z →
  (Z.lor (Z.land x 0x0f) 0x40 / 16 mod 16 = 4)%Z ∧
  hex_digit (Z.lor (Z.land x 0x3f) 0x80 / 16 mod 16) ∈ ["8"; "9"; "a"; "b"]%char.
Proof.
  intros Hx.
  assert (forallb (λ k, let x := Z.of_nat k in
    (Z.lor (Z.land x 0x0f) 0x40 / 16 mod 16 =? 4)%Z &&
    bool_decide (hex_digit (Z.lor (Z.land x 0x3f) 0x80 / 16 mod 16) ∈ ["8"; "9"; "a"; "b"]%char))
    (seq 0 256) = true) as H by (vm_compute; reflexivity).
  rewrite forallb_forall in H. specialize (H (Z.to_nat x)).
  rewrite <-list_elem_of_In, elem_of_seq in H. specialize (H ltac:(lia)). cbv zeta in H.
  rewrite Z2Nat.id in H by lia. apply andb_true_iff in H as [H1 H2].
  split; [by apply Z.eqb_eq|by apply bool_decide_eq_true in H2].
Qed.

(** a generated UUID is a version 4, variant 2 UUID in its canonical form:
    thirty-six characters, hyphens at 8, 13, 18 and 23, lower-case hexadecimal
    digits elsewhere, the version digit 4 and the variant digit 8, 9, a or b. *)
Theorem generateUUID_v4 b :
  length b = 16 → Forall (λ x, 0 ≤ x < 256)%Z b →
  let cs := String.list_ascii_of_string (generateUUID (Some b)) in
  length cs = 36 ∧
  (∀ i c, cs !! i = Some c →
     if decide (i ∈ [8; 13; 18; 23]) then c = "-"%char else c ∈ hex_chars) ∧
  cs !! 14 = Some "4"%char ∧
  ∃ v, cs !! 19 = Some v ∧ v ∈ ["8"; "9"; "a"; "b"]%char.
Proof.
  intros Hlen Hb. cbv zeta. unfold generateUUID, uuid_layout.
  rewrite !list_ascii_app, !list_ascii_hex_bytes.
  do 16 (destruct b as [|? b]; [done|]). destruct b; [|done]. clear Hlen.
  repeat (apply Forall_cons in Hb as [? Hb]).
  unfold uuid_bytes, set_byte. simpl. split; [done|].
  destruct (uuid_nibbles z5 ltac:(done)) as [Hver _], (uuid_nibbles z7 ltac:(done)) as [_ Hvar].
  rewrite Hver. split_and!; [|done|eauto].
  intros i c Hi.
  do 36 (destruct i as [|i]; [simpl in Hi; injection Hi as <-; first
    [reflexivity | rewrite decide_False by (by apply (bool_decide_unpack _); vm_compute);
     apply hex_digit_is_hex || (apply (bool_decide_unpack _); vm_compute; exact I)]|]).
  done.
Qed.

Lemma generateUUID_v4_witness :
  (String.list_ascii_of_string (generateUUID (Some (replicate 16 255%Z)))) !! 14 = Some "4"%char.
Proof.
  apply (generateUUID_v4 (replicate 16 255%Z)); [reflexivity|].
  apply Forall_replicate. lia.
Defined.

(** [random_int] answers an integer of the inclusive range, every one of
    which some draw gives, its lower end for an empty range or a failing source,
    and it panics exactly when the range has 2^63 elements or more. *)
Theorem randomInt_range min max :
  in_int64 min → in_int64 max →
  (∀ draw, draw_ok (max - min + 1) draw →
     match randomInt min max draw with
     | Some n => (min ≤ n ≤ Z.max min max)%Z ∧ (draw = None → n = min)
     | None => (two63 ≤ max - min + 1)%Z
     end) ∧
  (∀ n, (min < max)%Z → (max - min + 1 < two63)%Z → (min ≤ n ≤ max)%Z →
     ∃ k, draw_ok (max - min + 1) (Some k) ∧ randomInt min max (Some k) = Some n).
Proof.
  intros Hmin Hmax.
  assert (∀ draw, (min < max)%Z → (max - min + 1 < two63)%Z →
    randomInt min max draw = Some (match draw with None => min | Some n => wrap64 (min + n) end)) as Hin.
  { intros draw Hlt Hs. unfold randomInt. rewrite decide_False by lia.
    rewrite (wrap64_id (max - min)) by (unfold in_int64, two63 in *; lia).
    rewrite (wrap64_id (max - min + 1)) by (unfold in_int64, two63 in *; lia).
    rewrite decide_False by lia. by destruct draw. }
  split.
  - intros draw Hd. destruct (decide (max ≤ min)%Z) as [Hle|Hgt].
    { unfold randomInt. rewrite decide_True by done. split; [lia|done]. }
    destruct (decide (max - min + 1 < two63)%Z) as [Hs|Hbig].
    + rewrite Hin by lia. destruct draw as [k|]; [|split; [lia|done]]. simpl in Hd.
      rewrite wrap64_id by (unfold in_int64 in *; lia). split; [lia|done].
    + unfold randomInt. rewrite decide_False by done.
      rewrite wrap64_add_l. rewrite decide_True; [lia|].
      unfold wrap64, in_int64, two63, two64 in *.
      assert ((max - min + 1 + 9223372036854775808) mod 18446744073709551616 =
        max - min + 1 + 9223372036854775808 - 18446744073709551616)%Z as ->; [|lia].
      symmetry. apply (Z.mod_unique_pos _ _ 1); lia.
  - intros n Hlt Hs Hn. exists (n - min)%Z. split; [simpl; lia|]. rewrite Hin by lia.
    f_equal. rewrite wrap64_id by (unfold in_int64 in *; lia). lia.
Qed.

Lemma randomInt_range_witness :
  randomInt 3 7 (Some 4%Z) = Some 7%Z ∧ ∃ k, randomInt 3 7 (Some k) = Some 5%Z.
Proof.
  split; [reflexivity|].
  destruct (proj2 (randomInt_range 3 7 ltac:(done) ltac:(done)) 5%Z) as (k & _ & H);
    [reflexivity..|lia|]. by exists k.
Defined.
