(* ===== verification/Engine.v ===== *)
(** The request pipeline, [internal/engine/engine.go]: resolution of the agent,
    fault injection, the session and its turn (matching, generation, tool calls),
    latency; and the tenant on the request context, [reqmeta.go].

    An engine is the state of its components. What a request reads from outside
    (clocks, random draws, the scheduling of goroutines, cancellation) is its
    environment. The whole turn runs under the session's lock, so a request is a
    function from the engine it finds to the engine it leaves. *)

From S2P Require Import Prelude GoBase AgentTypes.
From S2P Require AgentRegistry ScenarioMatcher SessionStore.
From S2P Require Import ToolValidator ToolProcessor Chaos ResponseGenerator.

Record RequestMessage := mkRequestMessage {
  rm_Role : string; rm_Content : string; rm_ImageCount : Z
}.

Record InboundRequest := mkInboundRequest {
  ir_AgentName : string;
  ir_Model : string;
  ir_SessionID : string;
  ir_Messages : list RequestMessage;
  ir_Stream : bool
}.

Definition latest_user (messages : list RequestMessage) : option RequestMessage :=
  find (λ m, bool_decide (rm_Role m = "user")) (reverse messages).

Definition latestUserMessage (messages : list RequestMessage) : string :=
  match latest_user messages with Some m => rm_Content m | None => "" end.

Definition latestUserImageCount (messages : list RequestMessage) : Z :=
  match latest_user messages with Some m => rm_ImageCount m | None => 0%Z end.

Definition truncate (s : string) (maxLen : nat) : string :=
  if decide (String.length s ≤ maxLen) then s else (String.substring 0 maxLen s +:+ "...")%string.

Definition NUL : string := String (Ascii.ascii_of_nat 0) "".

Definition scopedSessionKey (tenantID agentName sessionID : string) : string :=
  (tenantID +:+ NUL +:+ agentName +:+ NUL +:+ sessionID)%string.

(** A string without the separator. *)
Fixpoint no_nul (s : string) : bool :=
  match s with
  | EmptyString => true
  | String c s => negb (Ascii.eqb c (Ascii.ascii_of_nat 0)) && no_nul s
  end.

(** The first separator splits a key. *)
Lemma nul_split a b x y :
  no_nul a = true → no_nul b = true → (a +:+ NUL +:+ x = b +:+ NUL +:+ y)%string → a = b ∧ x = y.
Proof.
  revert b. induction a as [|c a IH]; intros [|d b] Ha Hb H; simpl in Ha, Hb.
  - by injection H.
  - injection H as <- _. by rewrite Ascii.eqb_refl in Hb.
  - injection H as -> _. by rewrite Ascii.eqb_refl in Ha.
  - injection H as -> H. apply andb_true_iff in Ha as [_ Ha], Hb as [_ Hb].
    by destruct (IH b Ha Hb H) as [-> ->].
Qed.

Section engine.
Context {mr : MapRange} {heap : Heap AgentDefinition}.
Context {golower : GoLower} {goregexp : ScenarioMatcher.GoRegexp} {gotmpl : GoTemplate}.
Context {fmt : GoFmt} {conv : GoConv} {rand : GoRand}.

Abbreviation AgentRegistry := AgentRegistry.AgentRegistry.
Abbreviation MemoryStore := SessionStore.MemoryStore.
Abbreviation ScenarioMatcher := ScenarioMatcher.ScenarioMatcher.

Record Engine := mkEngine {
  Registry : AgentRegistry;
  States : MemoryStore;
  Matcher : ScenarioMatcher;
  Generator : ResponseGenerator;
  ToolIDs : Z;                       (* the process-wide fallback counter *)
  ChaosState : option ChaosInjector
}.

Definition NewEngine (registry : AgentRegistry) (store : MemoryStore) (seed : rng) : Engine :=
  mkEngine registry store ScenarioMatcher.NewScenarioMatcher NewResponseGenerator 0
    (Some (NewChaosInjector seed)).

(** What a request reads from outside the engine. *)
Record Env := mkEnv {
  env_cancelled : bool;               (* ctx.Err() <> nil *)
  env_chaos_now : Z;                  (* the injector's clock *)
  env_session_now : Z;                (* GetOrCreate's clock *)
  env_turn_now1 : Z; env_turn_now2 : Z; (* the two readings of ApplyTurn *)
  env_template : template_env;
  env_rand : nat → CallRand;          (* crypto/rand during the i-th tool call *)
  env_order : list nat                (* the order its goroutines run in *)
}.

Inductive EngineError :=
| ErrAgentNotFound (identifier : string) (available : list string)
| ErrContext
| ErrChaos (e : ChaosError)
| ErrEmptyMessage
| ErrGenerating (agent scenario : string) (e : render_error)
| EnginePanic.

(** [resolveAgentForTenant]. *)
Definition resolveAgentForTenant (reg : AgentRegistry) (req : InboundRequest) (tenantID : string)
  : EngineError + loc :=
  let by_name :=
    if decide (ir_AgentName req = "") then None
    else AgentRegistry.GetForTenant (ir_AgentName req) tenantID reg in
  let by_model :=
    if decide (ir_Model req = "") then None
    else AgentRegistry.GetByModelForTenant (ir_Model req) tenantID reg in
  let only :=
    if decide (tenantID = "") then
      match AgentRegistry.ListForTenant "" reg with [a] => Some a | _ => None end
    else None in
  match by_name, by_model, only with
  | Some a, _, _ | None, Some a, _ | None, None, Some a => inr a
  | None, None, None =>
      inl (ErrAgentNotFound
             (if decide (ir_AgentName req = "") then ir_Model req else ir_AgentName req)
             (AgentRegistry.ListNamesForTenant tenantID reg))
  end.

Definition set_Chaos (e : Engine) (c : option ChaosInjector) : Engine :=
  mkEngine (Registry e) (States e) (Matcher e) (Generator e) (ToolIDs e) c.
Definition set_States (e : Engine) (s : MemoryStore) : Engine :=
  mkEngine (Registry e) s (Matcher e) (Generator e) (ToolIDs e) (ChaosState e).

(** The built-in fallback scenario. *)
Definition fallback_scenario (agent : AgentDefinition) : Scenario :=
  mkScenario "_fallback" None
    (mkScenarioResponse ("Mock response from " +:+ agent_name agent)%string [] [] "" "" None).

Definition set_ToolResults (r : Response) (results : list ToolCallResult) : Response :=
  mkResponse (re_AgentName r) (re_Model r) (re_Content r) (re_ToolCalls r) results
    (re_ScenarioName r) (re_SystemPrompt r) (re_Metadata r) (re_FinishReason r) (re_Refusal r)
    (re_Hallucination r).

(** Steps 4 to 6, the callback [ApplyTurn] runs: the components it changes and
    the response. *)
Definition run_turn (env : Env) (agent : AgentDefinition) (req : InboundRequest)
    (userMsg : string) (imageCount : Z) (e : Engine) (turnCount : Z)
    (variables : list (string * value)) : Engine * (EngineError + Response) :=
  let '(matcher, matchResult) :=
    ScenarioMatcher.MatchWithCaptures (Matcher e) (bc_Scenarios (as_Behavior (ad_Spec agent)))
      userMsg turnCount imageCount in
  let '(scenario, captures) :=
    match matchResult with
    | Some r => (ScenarioMatcher.res_Scenario r, ScenarioMatcher.res_Captures r)
    | None => (fallback_scenario agent, None)
    end in
  let ctx := mkTemplateContext agent userMsg turnCount (ir_SessionID req) "" variables captures in
  let '(generator, generated) := Generate (Generator e) agent scenario ctx (env_template env) in
  let e := mkEngine (Registry e) (States e) matcher generator (ToolIDs e) (ChaosState e) in
  match generated with
  | inl (name, err) => (e, inl (ErrGenerating (agent_name agent) name err))
  | inr resp =>
      match re_ToolCalls resp with
      | [] => (e, inr resp)
      | calls =>
          let '(counter, (results, _)) :=
            ProcessToolCalls (env_order env) (imap (λ i call, (env_rand env i, call)) calls)
              (as_Tools (ad_Spec agent)) (ToolIDs e) in
          (mkEngine (Registry e) (States e) (Matcher e) (Generator e) counter (ChaosState e),
           inr (set_ToolResults resp results))
      end
  end.

Definition tool_call_msgs (calls : list ToolCallSpec) : list SessionStore.ToolCallMsg :=
  (λ tc, SessionStore.mkToolCallMsg (tcs_Name tc) (tcs_Arguments tc)) <$> calls.

(** What [ApplyTurn] gets back from the callback. *)
Definition turn_reply (r : EngineError + Response)
  : EngineError + (string * list SessionStore.ToolCallMsg) :=
  match r with
  | inl err => inl err
  | inr resp => inr (re_Content resp, tool_call_msgs (re_ToolCalls resp))
  end.

(** Step 3 to 6: the session is found or created and the turn runs on it. *)
Definition run_session (env : Env) (tenantID : string) (agent : AgentDefinition)
    (req : InboundRequest) (userMsg : string) (imageCount : Z) (e : Engine)
  : Engine * (EngineError + Response) :=
  let '(st, p) := SessionStore.GetOrCreate (env_session_now env)
      (scopedSessionKey tenantID (agent_name agent) (ir_SessionID req)) (agent_name agent)
      (States e) in
  let e := set_States e st in
  match SessionStore.heap st !! p with
  | None => (e, inl EnginePanic)
  | Some session =>
      let turn := run_turn env agent req userMsg imageCount e in
      let build tc vars := (vars, turn_reply (turn tc vars).2) in
      let turnCount := SessionStore.s_TurnCount
        (SessionStore.appendUserMessage userMsg (env_turn_now1 env) session) in
      let '(e, result) := turn turnCount (SessionStore.s_Variables session) in
      (set_States e (SessionStore.apply_turn_at p userMsg build (env_turn_now1 env)
                       (env_turn_now2 env) st), result)
  end.

Definition chaos_before (env : Env) (agent : AgentDefinition) (e : Engine)
  : Engine * option ChaosError :=
  match ChaosState e with
  | None => (e, None)
  | Some c => let '(c, err) := Before (env_chaos_now env) agent c in (set_Chaos e (Some c), err)
  end.

Definition chaos_after (agent : AgentDefinition) (e : Engine) : option Engine :=
  match ChaosState e with
  | None => Some e
  | Some c => c ← After agent c; Some (set_Chaos e (Some c))
  end.

Definition ProcessRequestContext (env : Env) (tenantID : string) (req : InboundRequest) (e : Engine)
  : Engine * (EngineError + Response) :=
  match resolveAgentForTenant (Registry e) req tenantID with
  | inl err => (e, inl err)
  | inr p =>
      let agent := deref p in
      if env_cancelled env then (e, inl ErrContext) else
      match chaos_before env agent e with
      | (e, Some err) => (e, inl (ErrChaos err))
      | (e, None) =>
          let userMsg := latestUserMessage (ir_Messages req) in
          let imageCount := latestUserImageCount (ir_Messages req) in
          if decide (userMsg = "" ∧ imageCount = 0%Z) then (e, inl ErrEmptyMessage) else
          match run_session env tenantID agent req userMsg imageCount e with
          | (e, inl err) => (e, inl err)
          | (e, inr resp) =>
              match chaos_after agent e with
              | None => (e, inl EnginePanic)
              | Some e => (e, inr resp)
              end
          end
      end
  end.

(** [ProcessRequest] runs without a tenant. *)
Definition ProcessRequest (env : Env) (req : InboundRequest) (e : Engine)
  : Engine * (EngineError + Response) := ProcessRequestContext env "" req e.

(** ** Well-formed engines *)

Record engine_ok (e : Engine) : Prop := {
  ok_registry : AgentRegistry.registry_wf (Registry e);
  ok_store : SessionStore.store_ok (States e);
  ok_matcher : ScenarioMatcher.matcher_ok (Matcher e);
  ok_generator : generator_ok (Generator e)
}.

(** An agent a tenant may use: one of its own or a global one. *)
Definition visible (tenantID : string) (p : loc) : Prop :=
  agent_tenant (deref p) = tenantID ∨ agent_tenant (deref p) = "".

Lemma resolve_visible reg req tenantID p :
  AgentRegistry.registry_wf reg → resolveAgentForTenant reg req tenantID = inr p →
  visible tenantID p.
Proof.
  intros Hwf. unfold resolveAgentForTenant.
  assert (∀ n q, AgentRegistry.GetForTenant n tenantID reg = Some q → visible tenantID q) as Hn
    by (intros n q Hq; by eapply AgentRegistry.GetForTenant_elem in Hq as [_ ?]).
  assert (∀ m q, AgentRegistry.GetByModelForTenant m tenantID reg = Some q → visible tenantID q) as Hm
    by (intros m q Hq; by eapply AgentRegistry.GetByModelForTenant_elem in Hq as [_ ?]).
  assert (∀ q, AgentRegistry.ListForTenant "" reg = [q] → visible "" q) as Hl.
  { intros q Hq. assert (q ∈ AgentRegistry.ListForTenant "" reg) as Hin by (rewrite Hq; left).
    apply AgentRegistry.elem_of_ListForTenant in Hin; [|done].
    by eapply AgentRegistry.GetForTenant_elem in Hin as [_ ?]. }
  repeat case_match; intros; simplify_eq; eauto.
Qed.

(** ** One turn *)

(** What a turn answers, as a function of the session's turn count and variables:
    the response is rendered from the scenario the matching specification picks,
    or from the fallback. *)
Definition turn_spec (env : Env) (agent : AgentDefinition) (req : InboundRequest)
    (userMsg : string) (imageCount turnCount : Z) (variables : list (string * value))
    (result : EngineError + Response) : Prop :=
  ∃ matched, ScenarioMatcher.match_spec (bc_Scenarios (as_Behavior (ad_Spec agent))) userMsg
      turnCount imageCount matched ∧
    let scenario := default (fallback_scenario agent) (ScenarioMatcher.res_Scenario <$> matched) in
    let captures := matched ≫= ScenarioMatcher.res_Captures in
    let rendered := render (sr_Content (sc_Response scenario))
      (mkTemplateContext agent userMsg turnCount (ir_SessionID req) "" variables captures)
      (env_template env) in
    match result with
    | inl err => ∃ e, rendered = inl e ∧ err = ErrGenerating (agent_name agent) (sc_Name scenario) e
    | inr resp =>
        rendered = inr (re_Content resp) ∧ re_ScenarioName resp = sc_Name scenario ∧
        re_AgentName resp = agent_name agent ∧ re_Model resp = agent_model agent ∧
        re_ToolCalls resp = sr_ToolCalls (sc_Response scenario) ∧
        length (re_ToolResults resp) = length (re_ToolCalls resp)
    end.

Lemma run_turn_spec env agent req msg images e tc vars :
  ScenarioMatcher.matcher_ok (Matcher e) → generator_ok (Generator e) →
  let '(e', result) := run_turn env agent req msg images e tc vars in
  Registry e' = Registry e ∧ States e' = States e ∧ ChaosState e' = ChaosState e ∧
  ScenarioMatcher.matcher_ok (Matcher e') ∧ generator_ok (Generator e') ∧
  turn_spec env agent req msg images tc vars result.
Proof.
  intros Hm Hg. unfold run_turn.
  destruct (ScenarioMatcher.MatchWithCaptures_ok (Matcher e)
    (bc_Scenarios (as_Behavior (ad_Spec agent))) msg tc images Hm) as [Hm' Hspec].
  destruct (ScenarioMatcher.MatchWithCaptures _ _ _ _ _) as [matcher matched]. simpl in Hm', Hspec.
  set (pick := match matched with Some r => _ | None => _ end).
  assert (pick = (default (fallback_scenario agent) (ScenarioMatcher.res_Scenario <$> matched),
    matched ≫= ScenarioMatcher.res_Captures)) as -> by (unfold pick; by destruct matched).
  set (scenario := default _ _). set (captures := matched ≫= _).
  set (ctx := mkTemplateContext _ _ _ _ _ _ _).
  destruct (Generate_ok (Generator e) agent scenario ctx (env_template env) Hg) as [Hg' Hgen].
  destruct (Generate _ _ _ _ _) as [generator generated]. simpl in Hg', Hgen.
  unfold turn_spec. destruct (render _ _ _) as [err|content] eqn:Hr; rewrite Hgen.
  - split_and!; try done. exists matched. split; [done|]. exists err. by split.
  - set (resp := mkResponse _ _ _ _ _ _ _ _ _ _ _).
    destruct (re_ToolCalls resp) as [|call calls] eqn:Hc.
    + split_and!; try done. exists matched. split; [done|]. split_and!; try done. by rewrite Hc.
    + pose proof (ProcessToolCalls_length (env_order env)
        (imap (λ i call, (env_rand env i, call)) (call :: calls))
        (as_Tools (ad_Spec agent)) (ToolIDs e)) as Hlen.
      cbn [ToolIDs]. destruct (ProcessToolCalls _ _ _ _) as [counter [results err]].
      cbn [fst snd] in Hlen.
      split_and!; try done. exists matched. split; [done|]. split_and!; try done.
      change (length results = length (re_ToolCalls resp)). by rewrite Hlen, length_imap, Hc.
Qed.

(** The answer of a turn depends on the matcher, the generator and the tool-id
    counter only. *)
Lemma run_turn_congr env agent req msg images e1 e2 tc vars :
  Matcher e1 = Matcher e2 → Generator e1 = Generator e2 → ToolIDs e1 = ToolIDs e2 →
  (run_turn env agent req msg images e1 tc vars).2 = (run_turn env agent req msg images e2 tc vars).2.
Proof.
  intros Hm Hg Ht. unfold run_turn. rewrite Hm, Hg.
  destruct (ScenarioMatcher.MatchWithCaptures _ _ _ _ _) as [matcher matched].
  destruct (match matched with Some r => _ | None => _ end) as [scenario captures].
  destruct (Generate _ _ _ _ _) as [generator [[name err]|resp]]; [done|].
  cbn [ToolIDs]. rewrite Ht. destruct (re_ToolCalls resp) as [|call calls]; [done|].
  by destruct (ProcessToolCalls _ _ _ _) as [counter [results err]].
Qed.

(** What a request does to the store: a turn on its own session. *)
Lemma run_session_spec env tenantID agent req msg images e :
  engine_ok e →
  let key := scopedSessionKey tenantID (agent_name agent) (ir_SessionID req) in
  let s := SessionStore.current_session (env_session_now env) key (agent_name agent) (States e) in
  let s1 := SessionStore.appendUserMessage msg (env_turn_now1 env) s in
  let '(e', result) := run_session env tenantID agent req msg images e in
  engine_ok e' ∧ Registry e' = Registry e ∧ ChaosState e' = ChaosState e ∧
  turn_spec env agent req msg images (SessionStore.s_TurnCount s1) (SessionStore.s_Variables s) result ∧
  result = (run_turn env agent req msg images e (SessionStore.s_TurnCount s1)
              (SessionStore.s_Variables s)).2 ∧
  SessionStore.session_at (States e') key =
    Some (match result with
          | inl _ => s1
          | inr resp => SessionStore.appendAssistantMessage (re_Content resp)
                          (tool_call_msgs (re_ToolCalls resp)) (env_turn_now2 env) s1
          end) ∧
  ∀ key', key' ≠ key →
    SessionStore.session_at (States e') key' = SessionStore.session_at (States e) key'.
Proof.
  intros [Hreg Hst Hm Hg]. cbv zeta. set (key := scopedSessionKey _ _ _).
  unfold run_session. fold key.
  pose proof (SessionStore.GetOrCreate_ok (env_session_now env) key (agent_name agent) _ Hst) as Hst'.
  pose proof (SessionStore.GetOrCreate_current (env_session_now env) key (agent_name agent) _ Hst) as Hcur.
  pose proof (λ k, SessionStore.GetOrCreate_other (env_session_now env) key (agent_name agent) _ k Hst) as Hoth.
  destruct (SessionStore.GetOrCreate _ _ _ _) as [st p]. simpl in Hst', Hoth.
  destruct Hcur as [Hs Hsess]. rewrite Hs.
  set (s := SessionStore.current_session _ _ _ _) in *.
  set (s1 := SessionStore.appendUserMessage msg (env_turn_now1 env) s).
  assert (SessionStore.sessions st !! key = Some p) as Hp by (by rewrite Hsess, lookup_insert_eq).
  pose proof (run_turn_spec env agent req msg images (set_States e st)
    (SessionStore.s_TurnCount s1) (SessionStore.s_Variables s) Hm Hg) as Hturn.
  pose proof (run_turn_congr env agent req msg images (set_States e st) e
    (SessionStore.s_TurnCount s1) (SessionStore.s_Variables s) eq_refl eq_refl eq_refl) as Hcongr.
  set (build := λ (tc : Z) (vars : list (string * value)),
    (vars, turn_reply (run_turn env agent req msg images (set_States e st) tc vars).2)).
  assert (SessionStore.ApplyTurn msg build (env_turn_now1 env) (env_turn_now2 env) s =
    match turn_reply (run_turn env agent req msg images (set_States e st)
        (SessionStore.s_TurnCount s1) (SessionStore.s_Variables s)).2 with
    | inl err => (SessionStore.set_Variables (SessionStore.s_Variables s) s1, Some err)
    | inr (content, calls) => (SessionStore.appendAssistantMessage content calls (env_turn_now2 env)
        (SessionStore.set_Variables (SessionStore.s_Variables s) s1), None)
    end) as Happly by done.
  assert (SessionStore.set_Variables (SessionStore.s_Variables s) s1 = s1) as Hset by done.
  rewrite Hset in Happly.
  destruct (run_turn _ _ _ _ _ (set_States e st) _ _) as [e' result]. simpl in Happly, Hcongr.
  destruct Hturn as (Hr1 & _ & Hc1 & Hm1 & Hg1 & Hspec).
  split_and!; try done.
  - constructor; simpl; try done; [by rewrite Hr1|]. by apply SessionStore.apply_turn_at_ok.
  - unfold SessionStore.session_at, SessionStore.apply_turn_at. rewrite Hs. simpl.
    rewrite Hp. simpl. rewrite lookup_insert_eq, Happly.
    by destruct result as [err|resp].
  - intros key' Hne. simpl. rewrite <-(Hoth key' Hne).
    by apply (SessionStore.apply_turn_at_other _ _ _ _ _ _ key).
Qed.

Lemma chaos_before_frame env agent e :
  let '(e', r) := chaos_before env agent e in
  Registry e' = Registry e ∧ States e' = States e ∧ Matcher e' = Matcher e ∧
  Generator e' = Generator e ∧ ToolIDs e' = ToolIDs e.
Proof. unfold chaos_before. destruct (ChaosState e) as [c|]; [|done]. by destruct (Before _ _ _). Qed.

Lemma chaos_after_frame agent e e' :
  chaos_after agent e = Some e' →
  Registry e' = Registry e ∧ States e' = States e ∧ Matcher e' = Matcher e ∧
  Generator e' = Generator e ∧ ToolIDs e' = ToolIDs e.
Proof.
  unfold chaos_after. destruct (ChaosState e) as [c|]; [|by intros [= <-]].
  destruct (After agent c); [|done]. by intros [= <-].
Qed.

Lemma set_States_ok e e' :
  engine_ok e → Registry e' = Registry e → States e' = States e → Matcher e' = Matcher e →
  Generator e' = Generator e → engine_ok e'.
Proof. intros [Hr Hs Hm Hg] E1 E2 E3 E4. constructor; by (rewrite E1 || rewrite E2 || rewrite E3 || rewrite E4). Qed.

Lemma scopedSessionKey_inj_tenant t1 a1 s1 t2 a2 s2 :
  no_nul t1 = true → no_nul t2 = true → scopedSessionKey t1 a1 s1 = scopedSessionKey t2 a2 s2 → t1 = t2.
Proof. intros Ht1 Ht2 H. by destruct (nul_split _ _ _ _ Ht1 Ht2 H). Qed.

Lemma chaos_before_congr env agent e1 e2 :
  ChaosState e1 = ChaosState e2 →
  ChaosState (chaos_before env agent e1).1 = ChaosState (chaos_before env agent e2).1 ∧
  (chaos_before env agent e1).2 = (chaos_before env agent e2).2.
Proof.
  intros H. unfold chaos_before. rewrite H. destruct (ChaosState e2) as [c|] eqn:Hc.
  - by destruct (Before _ _ _).
  - split; [|done]. simpl. congruence.
Qed.

(** What a caller of the engine relies on: the engine stays well formed, the catalog
    stays, and an answer comes from the agent the request resolves to. *)
Lemma process_answer env tenantID req e : engine_ok e →
  let '(e', r) := ProcessRequestContext env tenantID req e in
  engine_ok e' ∧ Registry e' = Registry e ∧
  ∀ resp, r = inr resp → ∃ p tc vars,
    resolveAgentForTenant (Registry e) req tenantID = inr p ∧ visible tenantID p ∧
    turn_spec env (deref p) req (latestUserMessage (ir_Messages req))
      (latestUserImageCount (ir_Messages req)) tc vars (inr resp).
Proof.
  intros Hok. unfold ProcessRequestContext.
  destruct (resolveAgentForTenant _ _ _) as [err|p] eqn:Hres; [done|].
  assert (visible tenantID p) as Hvis by (eapply resolve_visible; [apply Hok|done]).
  destruct (env_cancelled env); [done|]. cbv zeta.
  pose proof (chaos_before_frame env (deref p) e) as Hcb.
  destruct (chaos_before env (deref p) e) as [e1 [err|]]; destruct Hcb as (Hr1&Hs1&Hm1&Hg1&Ht1).
  { split_and!; [by apply (set_States_ok e)|done|done]. }
  case_decide; [split_and!; [by apply (set_States_ok e)|done|done]|].
  pose proof (run_session_spec env tenantID (deref p) req (latestUserMessage (ir_Messages req))
    (latestUserImageCount (ir_Messages req)) e1 (set_States_ok e e1 Hok Hr1 Hs1 Hm1 Hg1)) as Hrun.
  cbv zeta in Hrun. destruct (run_session _ _ _ _ _ _ _) as [e2 result].
  destruct Hrun as (Hok2 & Hr2 & _ & Hspec & _).
  destruct result as [err|resp]; [split_and!; [done|congruence|done]|].
  destruct (chaos_after (deref p) e2) as [e3|] eqn:Hca; [|split_and!; [done|congruence|done]].
  apply chaos_after_frame in Hca as (Hr3&Hs3&Hm3&Hg3&Ht3).
  split_and!; [by apply (set_States_ok e2)|congruence|].
  intros resp' [= <-]. by eexists p, _, _.
Qed.

(** Whether the client asked for a stream is not the engine's business. *)
Lemma process_ignores_stream env tenantID name model session messages b1 b2 e :
  ProcessRequestContext env tenantID (mkInboundRequest name model session messages b1) e =
  ProcessRequestContext env tenantID (mkInboundRequest name model session messages b2) e.
Proof. done. Qed.

(** ** Properties *)

(** when no tenant id contains the separator, sessions of different tenants
    have different keys, whatever agent names and session ids the clients choose;
    when no agent name does either, the key determines the tenant, the agent and
    the session id. *)
Theorem scopedSessionKey_injective t1 a1 s1 t2 a2 s2 :
  no_nul t1 = true → no_nul t2 = true → scopedSessionKey t1 a1 s1 = scopedSessionKey t2 a2 s2 →
  t1 = t2 ∧ (no_nul a1 = true → no_nul a2 = true → a1 = a2 ∧ s1 = s2).
Proof.
  intros Ht1 Ht2 H. unfold scopedSessionKey in H.
  destruct (nul_split _ _ _ _ Ht1 Ht2 H) as [-> Hrest]. split; [done|].
  intros Ha1 Ha2. by destruct (nul_split _ _ _ _ Ha1 Ha2 Hrest) as [-> ->].
Qed.

(** C21: a request, on every branch: an unknown agent and a cancelled context
    change nothing; an injected fault and an empty message leave the sessions
    alone; otherwise one turn runs on the session of the (tenant, agent, id)
    triple, live or new: the user message is kept even when rendering fails, the
    reply is appended when it succeeds, and the response is the one the matching
    specification and the template engine determine. The agent is always one the
    tenant may use, and the engine stays well formed. *)
Theorem ProcessRequestContext_correct env tenantID req e :
  engine_ok e →
  let '(e', r) := ProcessRequestContext env tenantID req e in
  engine_ok e' ∧ Registry e' = Registry e ∧
  match resolveAgentForTenant (Registry e) req tenantID with
  | inl err => e' = e ∧ r = inl err
  | inr p =>
      visible tenantID p ∧
      let agent := deref p in
      let msg := latestUserMessage (ir_Messages req) in
      let images := latestUserImageCount (ir_Messages req) in
      let key := scopedSessionKey tenantID (agent_name agent) (ir_SessionID req) in
      let s := SessionStore.current_session (env_session_now env) key (agent_name agent) (States e) in
      let s1 := SessionStore.appendUserMessage msg (env_turn_now1 env) s in
      if env_cancelled env then e' = e ∧ r = inl ErrContext
      else match (chaos_before env agent e).2 with
      | Some err => States e' = States e ∧ r = inl (ErrChaos err)
      | None =>
          if decide (msg = "" ∧ images = 0%Z) then States e' = States e ∧ r = inl ErrEmptyMessage
          else ∃ result,
            turn_spec env agent req msg images (SessionStore.s_TurnCount s1)
              (SessionStore.s_Variables s) result ∧
            SessionStore.session_at (States e') key =
              Some (match result with
                    | inl _ => s1
                    | inr resp => SessionStore.appendAssistantMessage (re_Content resp)
                                    (tool_call_msgs (re_ToolCalls resp)) (env_turn_now2 env) s1
                    end) ∧
            (r = result ∨ r = inl EnginePanic ∧ bc_Chaos (as_Behavior (ad_Spec agent)) ≠ None)
      end
  end.
Proof.
  intros Hok. unfold ProcessRequestContext.
  destruct (resolveAgentForTenant _ _ _) as [err|p] eqn:Hres; [done|].
  assert (visible tenantID p) as Hvis by (eapply resolve_visible; [apply Hok|done]).
  destruct (env_cancelled env); [done|]. cbv zeta.
  pose proof (chaos_before_frame env (deref p) e) as Hcb.
  destruct (chaos_before env (deref p) e) as [e1 [err|]]; destruct Hcb as (Hr1&Hs1&Hm1&Hg1&Ht1); simpl.
  { split_and!; try done. by apply (set_States_ok e). }
  case_decide; [split_and!; try done; by apply (set_States_ok e)|].
  pose proof (run_session_spec env tenantID (deref p) req (latestUserMessage (ir_Messages req))
    (latestUserImageCount (ir_Messages req)) e1 (set_States_ok e e1 Hok Hr1 Hs1 Hm1 Hg1)) as Hrun.
  cbv zeta in Hrun. rewrite Hs1 in Hrun.
  destruct (run_session _ _ _ _ _ _ _) as [e2 result].
  destruct Hrun as (Hok2 & Hr2 & Hc2 & Hspec & _ & Hat & _).
  destruct result as [err|resp].
  { split_and!; [done|congruence|done|]. exists (inl err). by split_and!; [| |left]. }
  destruct (chaos_after (deref p) e2) as [e3|] eqn:Hca.
  - apply chaos_after_frame in Hca as (Hr3&Hs3&Hm3&Hg3&Ht3).
    split_and!; [by apply (set_States_ok e2)|congruence|done|].
    exists (inr resp). split_and!; [done| |by left]. by rewrite Hs3.
  - split_and!; [done|congruence|done|]. exists (inr resp). split_and!; [done..|]. right.
    split; [done|]. intros Hnone. unfold chaos_after, After, chaosFor in Hca. rewrite Hnone in Hca.
    by destruct (ChaosState e2).
Qed.

(** a request of one tenant neither changes a session of another tenant nor
    learns anything from it: every session under the other tenant's keys reads
    the same afterwards, and an engine that differs only in other sessions gives
    the same answer. *)
Theorem tenant_sessions_isolated env t1 t2 req e e2 :
  no_nul t1 = true → no_nul t2 = true → t1 ≠ t2 → engine_ok e → engine_ok e2 →
  Registry e2 = Registry e → Matcher e2 = Matcher e → Generator e2 = Generator e →
  ToolIDs e2 = ToolIDs e → ChaosState e2 = ChaosState e →
  SessionStore.ttl (States e2) = SessionStore.ttl (States e) →
  (∀ a s, SessionStore.session_at (States e2) (scopedSessionKey t1 a s) =
          SessionStore.session_at (States e) (scopedSessionKey t1 a s)) →
  (∀ a s, SessionStore.session_at (States (ProcessRequestContext env t1 req e).1)
            (scopedSessionKey t2 a s) =
          SessionStore.session_at (States e) (scopedSessionKey t2 a s)) ∧
  (ProcessRequestContext env t1 req e2).2 = (ProcessRequestContext env t1 req e).2.
Proof.
  intros Ht1 Ht2 Hne Hok Hok2 Er Em Eg Et Ec Ettl Hsame. split.
  - intros a s. unfold ProcessRequestContext.
    destruct (resolveAgentForTenant _ _ _) as [err|p] eqn:Hres; [done|].
    destruct (env_cancelled env); [done|].
    pose proof (chaos_before_frame env (deref p) e) as Hcb.
    destruct (chaos_before env (deref p) e) as [e1 [err|]]; destruct Hcb as (Hr1&Hs1&Hm1&Hg1&_);
      [by simpl; rewrite Hs1|].
    case_decide; [by simpl; rewrite Hs1|].
    pose proof (run_session_spec env t1 (deref p) req (latestUserMessage (ir_Messages req))
      (latestUserImageCount (ir_Messages req)) e1 (set_States_ok e e1 Hok Hr1 Hs1 Hm1 Hg1)) as Hrun.
    cbv zeta in Hrun. destruct (run_session _ _ _ _ _ _ _) as [e' result].
    destruct Hrun as (_ & _ & _ & _ & _ & _ & Hoth). rewrite Hs1 in Hoth.
    assert (SessionStore.session_at (States e') (scopedSessionKey t2 a s) =
      SessionStore.session_at (States e) (scopedSessionKey t2 a s)) as Hfin.
    { apply Hoth. intros Hk. apply Hne. symmetry. by eapply scopedSessionKey_inj_tenant. }
    destruct result as [err|resp]; [done|].
    destruct (chaos_after (deref p) e') as [e3|] eqn:Hca; [|done].
    apply chaos_after_frame in Hca as (_&Hs3&_). simpl. by rewrite Hs3.
  - unfold ProcessRequestContext. rewrite Er.
    destruct (resolveAgentForTenant _ _ _) as [err|p] eqn:Hres; [done|].
    destruct (env_cancelled env); [done|].
    pose proof (chaos_before_congr env (deref p) e2 e Ec) as Hcc.
    pose proof (chaos_before_frame env (deref p) e) as Hcb.
    pose proof (chaos_before_frame env (deref p) e2) as Hcb2.
    destruct (chaos_before env (deref p) e) as [e1 r1], (chaos_before env (deref p) e2) as [e1' r1'].
    destruct Hcb as (Hr1&Hs1&Hm1&Hg1&Hi1), Hcb2 as (Hr2&Hs2&Hm2&Hg2&Hi2), Hcc as [Hcc Hrr].
    simpl in Hcc, Hrr. subst r1'. destruct r1 as [err|]; [done|].
    case_decide; [done|].
    set (msg := latestUserMessage _). set (images := latestUserImageCount _).
    pose proof (run_session_spec env t1 (deref p) req msg images e1
      (set_States_ok e e1 Hok Hr1 Hs1 Hm1 Hg1)) as Hrun.
    pose proof (run_session_spec env t1 (deref p) req msg images e1'
      (set_States_ok e2 e1' Hok2 Hr2 Hs2 Hm2 Hg2)) as Hrun2.
    cbv zeta in Hrun, Hrun2. unfold SessionStore.current_session in Hrun, Hrun2.
    rewrite Hs1 in Hrun. rewrite Hs2, Hsame, Ettl in Hrun2.
    destruct (run_session _ _ _ _ _ _ e1) as [e' result], (run_session _ _ _ _ _ _ e1') as [e'' result'].
    destruct Hrun as (_ & _ & Hc & _ & Hres1 & _), Hrun2 as (_ & _ & Hc' & _ & Hres2 & _).
    rewrite (run_turn_congr env (deref p) req msg images e1' e1) in Hres2 by congruence.
    rewrite <-Hres1 in Hres2. subst result'. destruct result as [err|resp]; [done|].
    unfold chaos_after. rewrite Hc, Hc', Hcc. destruct (ChaosState e1) as [c|]; [|done].
    by destruct (After (deref p) c).
Qed.
End engine.

(** ** Instances the hypotheses of the properties hold at *)

(** Templates that render to their own text, except that one fails. *)
Definition literal_template : GoTemplate :=
  {| template := string; template_env := unit; template_error := string;
     Parse s := if str_contains s "{{bad" then inl "unexpected token"%string else inr s;
     Execute s _ _ := if str_contains s "{{fail" then inl "failed"%string else inr s |}.

Definition ex_bot : AgentDefinition :=
  mkAgentDefinition "mockagents/v1" "Agent" (mkMetadata "bot" "" [] "")
    (mkAgentSpec "openai-chat-completions" "gpt-4o" "" [ex_tool]
       (mkBehaviorConfig
          [mkScenario "weather" (Some (mkMatchRule "weather" "" None None))
             (mkScenarioResponse "Looking" [mkToolCallSpec "weather" [("city", VString "Oslo")] ""]
                [] "" "" None);
           mkScenario "broken" (Some (mkMatchRule "break" "" None None))
             (mkScenarioResponse "{{bad" [] [] "" "" None)] None None)).

Definition ex_heap : Heap AgentDefinition := λ _, ex_bot.

#[local] Existing Instance canonical_range.
#[local] Existing Instance ex_heap.
#[local] Existing Instance ascii_go_lower.
#[local] Existing Instance ScenarioMatcher.literal_regexp.
#[local] Existing Instance literal_template.
#[local] Existing Instance plain_fmt.
#[local] Existing Instance amd64_conv.
#[local] Existing Instance half_rand.

Definition ex_engine : Engine :=
  NewEngine (AgentRegistry.run_ops [AgentRegistry.OpRegister (Some 1%positive)])
    (SessionStore.NewMemoryStore 0) ().

Definition ex_env : Env := mkEnv false 0 0 1 2 () (λ _, mkCallRand None None) [].

Definition ex_request (msg : string) : InboundRequest :=
  mkInboundRequest "" "gpt-4o" "s1" [mkRequestMessage "user" msg 0] false.

Lemma ex_engine_ok : engine_ok ex_engine.
Proof.
  constructor; [apply AgentRegistry.run_ops_inv|apply SessionStore.NewMemoryStore_ok|
    apply ScenarioMatcher.NewScenarioMatcher_ok|apply NewResponseGenerator_ok].
Qed.

Example ex_responses :
  let run msg e := ProcessRequestContext ex_env "t1" (ex_request msg) e in
  let content r := match r with inr resp => re_Content resp | inl _ => "error"%string end in
  content (run "weather?" ex_engine).2 = "Looking"%string ∧
  content (run "hello" ex_engine).2 = "Mock response from bot"%string ∧
  (run "break" ex_engine).2 = inl (ErrGenerating "bot" "broken" (ParsingTemplate "unexpected token")).
Proof. by vm_compute. Qed.

Lemma scopedSessionKey_injective_witness : "acme"%string = "acme"%string ∧ "bot"%string = "bot"%string.
Proof.
  destruct (scopedSessionKey_injective "acme" "bot" "s" "acme" "bot" "s" eq_refl eq_refl eq_refl)
    as [H1 H2]. split; [exact H1|]. exact (proj1 (H2 eq_refl eq_refl)).
Defined.

Lemma ProcessRequestContext_correct_witness :
  let '(e', r) := ProcessRequestContext ex_env "t1" (ex_request "weather?") ex_engine in
  engine_ok e' ∧ r ≠ inl ErrEmptyMessage.
Proof.
  pose proof (ProcessRequestContext_correct ex_env "t1" (ex_request "weather?") ex_engine
    ex_engine_ok) as H.
  assert ((ProcessRequestContext ex_env "t1" (ex_request "weather?") ex_engine).2 ≠ inl ErrEmptyMessage)
    as Hr by (vm_compute; discriminate).
  destruct (ProcessRequestContext _ _ _ _) as [e' r]. destruct H as [Hok _]. by split.
Defined.

(** The same engine after a request of another tenant. *)
Definition ex_engine2 : Engine :=
  set_States ex_engine
    (States (ProcessRequestContext ex_env "t2" (ex_request "weather?") ex_engine).1).

Lemma ex_engine2_ok : engine_ok ex_engine2.
Proof.
  pose proof (ProcessRequestContext_correct ex_env "t2" (ex_request "weather?") ex_engine
    ex_engine_ok) as H. unfold ex_engine2.
  destruct (ProcessRequestContext _ _ _ _) as [e' r]. destruct H as [[Hr Hs Hm Hg] _].
  destruct ex_engine_ok. by constructor.
Qed.

Lemma tenant_sessions_isolated_witness :
  (ProcessRequestContext ex_env "t1" (ex_request "weather?") ex_engine2).2 =
  (ProcessRequestContext ex_env "t1" (ex_request "weather?") ex_engine).2.
Proof.
  apply (tenant_sessions_isolated ex_env "t1" "t2" (ex_request "weather?") ex_engine ex_engine2);
    try (vm_compute; reflexivity); [discriminate|apply ex_engine_ok|apply ex_engine2_ok].
Defined.
