(* ===== verification/Pipeline.v ===== *)
(** Pipelines of agents, [internal/engine/pipeline.go]: the sequential, parallel
    and graph executors and the cycle check.

    The executors run against any engine that answers requests ([NodeEngine]);
    [EngineNodes] is the instance for the engine of this development. *)

From S2P Require Import Prelude GoBase AgentTypes ResponseGenerator Engine.

(** ** What an executor needs of the engine

    Answering a request changes the engine and takes time. *)
Class NodeEngine (W E : Type) := process : InboundRequest → W → W * ((E + Response) * Z).

Record NodeResult := mkNodeResult {
  nr_NodeID : string;
  nr_AgentName : string;
  nr_Response : option Response;
  nr_Latency : Z
}.

Record PipelineResult := mkPipelineResult {
  pr_PipelineName : string;
  pr_Topology : string;
  pr_Nodes : list NodeResult;
  pr_Latency : Z
}.

Definition FinalResponse (r : PipelineResult) : option Response :=
  head (omap nr_Response (reverse (pr_Nodes r))).

Definition ResponseByNodeID (r : PipelineResult) (id : string) : option Response :=
  find (λ n, bool_decide (nr_NodeID n = id)) (pr_Nodes r) ≫= nr_Response.

(** ** The cycle check *)

Definition known (agents : list PipelineAgent) (id : string) : bool :=
  existsb (λ n, bool_decide (pa_ID n = id)) agents.

(** [outgoing[id]], the edges leaving a node in definition order. *)
Definition add_outgoing (m : gmap string (list PipelineEdge)) (e : PipelineEdge) :=
  <[pe_From e := default [] (m !! pe_From e) ++ [e]]> m.

Definition outgoing_of (edges : list PipelineEdge) : gmap string (list PipelineEdge) :=
  foldl add_outgoing ∅ edges.

Definition zero_indegree (agents : list PipelineAgent) : gmap string Z :=
  foldl (λ m n, <[pa_ID n := 0%Z]> m) ∅ agents.

(** Counting one edge: only between two known nodes, and no self-loop. *)
Definition add_indegree (agents : list PipelineAgent) (m : gmap string Z) (e : PipelineEdge) :=
  if decide (pe_From e = pe_To e) then m
  else if known agents (pe_From e) && known agents (pe_To e)
  then <[pe_To e := (default 0 (m !! pe_To e) + 1)%Z]> m
  else m.

Definition indegree_of (agents : list PipelineAgent) (edges : list PipelineEdge) : gmap string Z :=
  foldl (add_indegree agents) (zero_indegree agents) edges.

(** One edge out of the node that was just peeled. *)
Definition peel_edge (st : gmap string Z * list string) (e : PipelineEdge)
  : gmap string Z * list string :=
  let '(remaining, queue) := st in
  if decide (pe_From e = pe_To e) then st
  else match remaining !! pe_To e with
       | None => st
       | Some d =>
           let d := (d - 1)%Z in
           (<[pe_To e := d]> remaining, if decide (d = 0%Z) then queue ++ [pe_To e] else queue)
       end.

(** The loop over the queue; [None] is out of fuel. *)
Fixpoint peel (fuel : nat) (outgoing : gmap string (list PipelineEdge))
    (remaining : gmap string Z) (queue : list string) : option (gmap string Z) :=
  match queue with
  | [] => Some remaining
  | id :: queue =>
      match fuel with
      | O => None
      | S fuel =>
          let '(remaining, queue) :=
            foldl peel_edge (delete id remaining, queue) (default [] (outgoing !! id)) in
          peel fuel outgoing remaining queue
      end
  end.

(** The ids still there, in definition order and without repetition. *)
Fixpoint collect_cyclic (agents : list PipelineAgent) (remaining : gmap string Z) : list string :=
  match agents with
  | [] => []
  | n :: agents =>
      match remaining !! pa_ID n with
      | Some _ => pa_ID n :: collect_cyclic agents (delete (pa_ID n) remaining)
      | None => collect_cyclic agents remaining
      end
  end.

Definition cyclicNodes `{!MapRange} (agents : list PipelineAgent)
    (outgoing : gmap string (list PipelineEdge)) (indegree : gmap string Z)
  : option (list string) :=
  let queue := (filter (λ kv, kv.2 = 0%Z) (range indegree)).*1 in
  remaining ← peel (S (size indegree)) outgoing indegree queue;
  Some (collect_cyclic agents remaining).

(** ** The executors *)

Section executor.
Context {mr : MapRange} {W E : Type} {engine : NodeEngine W E}.

#[warnings="-register-all"]
Inductive PipelineError :=
| ErrNilDefinition
| ErrNoAgents
| ErrUnknownTopology (topology : string)
| ErrPipelineCycle (nodes : list string)
| ErrUnknownNode (pipeline id : string)
| ErrMissingRef (pipeline node : string)
| ErrNode (e : E)
| ErrJoined (errs : list PipelineError).

Definition node_session (sessionID pipelineName nodeID : string) : string :=
  (sessionID +:+ "::" +:+ pipelineName +:+ "::" +:+ nodeID)%string.

(** [invokeNode]; the engine answers a response whenever it answers no error. *)
Definition invokeNode (pipelineName : string) (node : PipelineAgent) (input sessionID : string)
    (w : W) : W * (NodeResult * option PipelineError) :=
  if decide (pa_Ref node = "") then
    (w, (mkNodeResult (pa_ID node) "" None 0, Some (ErrMissingRef pipelineName (pa_ID node))))
  else
    let req := mkInboundRequest (pa_Ref node) "" (node_session sessionID pipelineName (pa_ID node))
                 [mkRequestMessage "user" input 0] false in
    let '(w, (answer, latency)) := process req w in
    let result resp := mkNodeResult (pa_ID node) (pa_Ref node) resp latency in
    (w, match answer with
        | inl err => (result None, Some (ErrNode err))
        | inr resp => (result (Some resp), None)
        end).

(** [nr.Response.Content], read only after a node succeeded. *)
Definition content_of (nr : NodeResult) : string :=
  match nr_Response nr with Some r => re_Content r | None => "" end.

Fixpoint runSequential (name sessionID : string) (agents : list PipelineAgent) (input : string)
    (w : W) : W * (list NodeResult * option PipelineError) :=
  match agents with
  | [] => (w, ([], None))
  | node :: agents =>
      let '(w, (nr, err)) := invokeNode name node input sessionID w in
      match err with
      | Some err => (w, ([nr], Some err))
      | None =>
          let '(w, (nrs, err)) := runSequential name sessionID agents (content_of nr) w in
          (w, (nr :: nrs, err))
      end
  end.

(** The goroutine of node [i]; [order] is the order the scheduler runs them in. *)
Definition go_invoke (name sessionID : string) (agents : list PipelineAgent) (input : string)
    (st : W * (list (option NodeResult) * list (option PipelineError))) (i : nat)
  : W * (list (option NodeResult) * list (option PipelineError)) :=
  match agents !! i with
  | None => st
  | Some node =>
      let '(w, (results, errs)) := st in
      let '(w, (nr, err)) := invokeNode name node input sessionID w in
      (w, (<[i := Some nr]> results, <[i := err]> errs))
  end.

(** [errors.Join]. *)
Definition join_errors (errs : list (option PipelineError)) : option PipelineError :=
  match omap id errs with [] => None | es => Some (ErrJoined es) end.

Definition runParallel (order : list nat) (name sessionID : string) (agents : list PipelineAgent)
    (input : string) (w : W) : W * (list NodeResult * option PipelineError) :=
  let n := length agents in
  let '(w, (results, errs)) :=
    foldl (go_invoke name sessionID agents input) (w, (replicate n None, replicate n None)) order in
  (w, (omap id results, join_errors errs)).

Definition nodesByID (agents : list PipelineAgent) : gmap string PipelineAgent :=
  foldl (λ m n, <[pa_ID n := n]> m) ∅ agents.

(** The state of a walk: the engine, the results so far, the visited ids. *)
Record walk_state := mkWalk { wk_world : W; wk_nodes : list NodeResult; wk_visited : gset string }.

(** The loop over the outgoing edges of a node that answered [content]. *)
Fixpoint walk_edges (walk : string → string → walk_state → option (walk_state * option PipelineError))
    (edges : list PipelineEdge) (content : string) (st : walk_state)
  : option (walk_state * option PipelineError) :=
  match edges with
  | [] => Some (st, None)
  | edge :: edges =>
      if negb (bool_decide (pe_WhenContains edge = "")) &&
         negb (str_contains content (pe_WhenContains edge))
      then walk_edges walk edges content st
      else match walk (pe_To edge) content st with
           | None => None
           | Some (st, Some err) => Some (st, Some err)
           | Some (st, None) => walk_edges walk edges content st
           end
  end.

(** [walk]; [None] is out of fuel. *)
Fixpoint walk (fuel : nat) (name sessionID : string) (nodes : gmap string PipelineAgent)
    (outgoing : gmap string (list PipelineEdge)) (id input : string) (st : walk_state)
  : option (walk_state * option PipelineError) :=
  match fuel with
  | O => None
  | S fuel =>
      if decide (id ∈ wk_visited st) then Some (st, None)
      else
        let visited := {[id]} ∪ wk_visited st in
        match nodes !! id with
        | None => Some (mkWalk (wk_world st) (wk_nodes st) visited, Some (ErrUnknownNode name id))
        | Some node =>
            let '(w, (nr, err)) := invokeNode name node input sessionID (wk_world st) in
            let st := mkWalk w (wk_nodes st ++ [nr]) visited in
            match err with
            | Some err => Some (st, Some err)
            | None => walk_edges (walk fuel name sessionID nodes outgoing)
                        (default [] (outgoing !! id)) (content_of nr) st
            end
        end
  end.

(** The loop over the roots. *)
Fixpoint walk_roots (walk : string → string → walk_state → option (walk_state * option PipelineError))
    (agents : list PipelineAgent) (indegree : gmap string Z) (input : string) (st : walk_state)
  : option (walk_state * option PipelineError) :=
  match agents with
  | [] => Some (st, None)
  | n :: agents =>
      if decide (default 0%Z (indegree !! pa_ID n) = 0%Z)
      then match walk (pa_ID n) input st with
           | None => None
           | Some (st, Some err) => Some (st, Some err)
           | Some (st, None) => walk_roots walk agents indegree input st
           end
      else walk_roots walk agents indegree input st
  end.

(** Each nested call of [walk] visits one more known node, so this is enough. *)
Definition walk_fuel (agents : list PipelineAgent) : nat := S (S (length agents)).

Definition runGraph (name sessionID : string) (agents : list PipelineAgent)
    (edges : list PipelineEdge) (input : string) (w : W)
  : option (W * (list NodeResult * option PipelineError)) :=
  let outgoing := outgoing_of edges in
  let indegree := indegree_of agents edges in
  cyclic ← cyclicNodes agents outgoing indegree;
  match cyclic with
  | _ :: _ => Some (w, ([], Some (ErrPipelineCycle cyclic)))
  | [] =>
      '(st, err) ← walk_roots (walk (walk_fuel agents) name sessionID (nodesByID agents) outgoing)
                     agents indegree input (mkWalk w [] ∅);
      Some (wk_world st, (wk_nodes st, err))
  end.

(** [RunContext]: the inner option is the result it returns, nil on the early
    errors; [elapsed] is the time the run took. *)
Definition RunContext (order : list nat) (elapsed : Z) (def : option PipelineDefinition)
    (userMsg sessionID : string) (w : W)
  : option (W * (option PipelineResult * option PipelineError)) :=
  match def with
  | None => Some (w, (None, Some ErrNilDefinition))
  | Some def =>
      let agents := ps_Agents (pd_Spec def) in
      let name := md_Name (pd_Metadata def) in
      let topology := ps_Topology (pd_Spec def) in
      let finish (r : W * (list NodeResult * option PipelineError)) :=
        let '(w, (nodes, err)) := r in
        (w, (Some (mkPipelineResult name topology nodes elapsed), err)) in
      if decide (agents = []) then Some (w, (None, Some ErrNoAgents))
      else if decide (topology = TopologySequential ∨ topology = "")
      then Some (finish (runSequential name sessionID agents userMsg w))
      else if decide (topology = TopologyParallel)
      then Some (finish (runParallel order name sessionID agents userMsg w))
      else if decide (topology = TopologyGraph)
      then finish <$> runGraph name sessionID agents (ps_Edges (pd_Spec def)) userMsg w
      else Some (w, (None, Some (ErrUnknownTopology topology)))
  end.
End executor.

(** ** The cycle check is right *)

Section kahn.
Context (agents : list PipelineAgent) (edges : list PipelineEdge).

Definition precedes (a b : string) : Prop :=
  ∃ e, e ∈ edges ∧ pe_From e = a ∧ pe_To e = b ∧ a ≠ b ∧
    known agents a = true ∧ known agents b = true.

Lemma known_spec id : known agents id = true ↔ id ∈ pa_ID <$> agents.
Proof.
  unfold known. rewrite existsb_exists, list_elem_of_fmap.
  setoid_rewrite bool_decide_eq_true. setoid_rewrite list_elem_of_In. naive_solver.
Qed.

Lemma outgoing_lookup id :
  default [] (outgoing_of edges !! id) = filter (λ e, pe_From e = id) edges.
Proof.
  unfold outgoing_of. induction edges as [|e es IH] using rev_ind; [done|].
  rewrite foldl_app, filter_app. simpl. unfold add_outgoing at 1. rewrite filter_cons, filter_nil.
  destruct (decide (pe_From e = id)) as [<-|Hne].
  - by rewrite lookup_insert_eq, IH.
  - by rewrite lookup_insert_ne, app_nil_r.
Qed.

Lemma zero_indegree_lookup id :
  zero_indegree agents !! id = if known agents id then Some 0%Z else None.
Proof.
  assert (∀ m : gmap string Z, foldl (λ m n, <[pa_ID n := 0%Z]> m) m agents !! id =
    if known agents id then Some 0%Z else m !! id) as H;
    [|unfold zero_indegree; rewrite H; by destruct (known agents id)].
  unfold known. induction agents as [|n ns IH]; intros m; simpl; [done|]. rewrite IH.
  case_bool_decide as Hd; simpl.
  - subst. rewrite lookup_insert_eq. by destruct (existsb _ ns).
  - by rewrite lookup_insert_ne.
Qed.

(** An edge that counts for the node it enters. *)
Definition inbound (id : string) (e : PipelineEdge) : Prop :=
  pe_From e ≠ pe_To e ∧ pe_To e = id ∧ known agents (pe_From e) = true.

#[global] Instance inbound_dec id e : Decision (inbound id e).
Proof. unfold inbound. apply _. Defined.

Lemma indegree_lookup id :
  indegree_of agents edges !! id =
    if known agents id then Some (Z.of_nat (length (filter (inbound id) edges))) else None.
Proof.
  unfold indegree_of. induction edges as [|e es IH] using rev_ind.
  { apply zero_indegree_lookup. }
  rewrite foldl_app, filter_app, filter_cons, filter_nil, length_app. simpl.
  unfold add_indegree at 1.
  destruct (decide (pe_From e = pe_To e)) as [Heq|Hne].
  { rewrite decide_False by (by intros [? _]). simpl. by rewrite Nat.add_0_r. }
  destruct (known agents (pe_From e)) eqn:Hf; simpl.
  2: { rewrite decide_False by (intros (_ & _ & ?); congruence). simpl. by rewrite Nat.add_0_r. }
  destruct (decide (pe_To e = id)) as [<-|Hid].
  - rewrite decide_True by done. destruct (known agents (pe_To e)) eqn:Ht.
    + rewrite lookup_insert_eq, IH. simpl. f_equal. lia.
    + by rewrite IH.
  - rewrite decide_False by (by intros (_ & ? & _)). simpl. rewrite Nat.add_0_r.
    destruct (known agents (pe_To e)); [by rewrite lookup_insert_ne|done].
Qed.

(** Splitting a count in two. *)
Lemma length_filter_split {A} (P Q R : A → Prop) `{∀ x, Decision (P x), ∀ x, Decision (Q x),
    ∀ x, Decision (R x)} l :
  (∀ x, x ∈ l → P x ↔ Q x ∨ R x) → (∀ x, x ∈ l → Q x → ¬ R x) →
  length (filter P l) = length (filter Q l) + length (filter R l).
Proof.
  induction l as [|x l IH]; intros HP HD; [done|]. rewrite !filter_cons.
  assert (length (filter P l) = length (filter Q l) + length (filter R l)) as Hl.
  { apply IH; intros y Hy; [apply HP|apply HD]; by right. }
  specialize (HP x ltac:(left)). specialize (HD x ltac:(left)).
  repeat case_decide; simpl; try lia; naive_solver.
Qed.

(** The invariant of the loop: [remaining] counts the edges from nodes that
    remain, plus those of [pend] the last peeled node has not subtracted yet. *)
Record kahn_inv (remaining : gmap string Z) (queue : list string) (pend : list PipelineEdge)
    : Prop := {
  k_known id : is_Some (remaining !! id) → known agents id = true;
  k_count id d : remaining !! id = Some d →
    d = (Z.of_nat (length (filter (λ e, pe_From e ≠ pe_To e ∧ pe_To e = id ∧
                                        is_Some (remaining !! pe_From e)) edges)) +
         Z.of_nat (length (filter (λ e, pe_From e ≠ pe_To e ∧ pe_To e = id) pend)))%Z;
  k_nodup : NoDup queue;
  k_queue id : id ∈ queue ↔ remaining !! id = Some 0%Z;
  k_acc id : known agents id = true → remaining !! id = None → Acc precedes id
}.

Lemma kahn_init queue :
  NoDup queue → (∀ id, id ∈ queue ↔ indegree_of agents edges !! id = Some 0%Z) →
  kahn_inv (indegree_of agents edges) queue [].
Proof.
  intros Hnd Hq. constructor; [| |done|done|].
  - intros id [d Hd]. rewrite indegree_lookup in Hd. by destruct (known agents id).
  - intros id d. rewrite indegree_lookup. destruct (known agents id) eqn:Hk; [|done].
    intros [= <-]. rewrite filter_nil. simpl. rewrite Z.add_0_r. do 2 f_equal.
    apply list_filter_iff. intros e. unfold inbound. rewrite indegree_lookup.
    destruct (known agents (pe_From e)); [|naive_solver]. split; naive_solver.
  - intros id Hk. rewrite indegree_lookup, Hk. done.
Qed.

Lemma kahn_pop remaining id queue :
  kahn_inv remaining (id :: queue) [] →
  kahn_inv (delete id remaining) queue (filter (λ e, pe_From e = id) edges).
Proof.
  intros [Hk Hc Hnd Hq Ha]. apply NoDup_cons in Hnd as [Hnin Hnd].
  assert (remaining !! id = Some 0%Z) as Hid by (apply Hq; left).
  constructor; [| |done| |].
  - intros j [d [_ Hj]%lookup_delete_Some]. apply Hk. eauto.
  - intros j d [Hne Hj]%lookup_delete_Some. rewrite (Hc j d Hj), filter_nil. simpl.
    rewrite Z.add_0_r, <-Nat2Z.inj_add. f_equal. rewrite list_filter_filter.
    apply length_filter_split; intros e He.
    + destruct (decide (pe_From e = id)) as [->|Hf].
      * rewrite lookup_delete_eq, Hid. split; [naive_solver|].
        intros [(?&?&[? ?])|?]; [done|]. naive_solver.
      * rewrite lookup_delete_ne by done. naive_solver.
    + intros (_ & _ & Hs) (_ & Hf). rewrite Hf, lookup_delete_eq in Hs. by destruct Hs.
  - intros j. rewrite lookup_delete_Some. destruct (decide (id = j)) as [->|Hne]; [naive_solver|].
    rewrite <-Hq, elem_of_cons. naive_solver.
  - intros j Hkj Hj. destruct (decide (id = j)) as [->|Hne];
      [|apply Ha; [done|]; by rewrite lookup_delete_ne in Hj].
    constructor. intros a (e & He & <- & Hto & Hne & Hka & _). apply Ha; [done|].
    specialize (Hc j 0%Z Hid). rewrite filter_nil in Hc. simpl in Hc.
    destruct (remaining !! pe_From e) as [d|] eqn:Hd; [|done]. exfalso.
    assert (e ∈ filter (λ e, pe_From e ≠ pe_To e ∧ pe_To e = j ∧ is_Some (remaining !! pe_From e)) edges)
      as Hin by (apply list_elem_of_filter; rewrite Hd; naive_solver).
    destruct (filter _ edges); [by apply elem_of_nil in Hin|]. simpl in Hc. lia.
Qed.

Lemma kahn_edge remaining queue e pend :
  kahn_inv remaining queue (e :: pend) →
  let '(remaining', queue') := peel_edge (remaining, queue) e in
  kahn_inv remaining' queue' pend ∧ dom remaining' = dom remaining.
Proof.
  intros [Hk Hc Hnd Hq Ha]. unfold peel_edge.
  assert (∀ j, pe_From e = pe_To e ∨ pe_To e ≠ j →
    filter (λ e, pe_From e ≠ pe_To e ∧ pe_To e = j) (e :: pend) =
    filter (λ e, pe_From e ≠ pe_To e ∧ pe_To e = j) pend) as Hskip.
  { intros j Hj. rewrite filter_cons, decide_False; [done|]. naive_solver. }
  destruct (decide (pe_From e = pe_To e)) as [Heq|Hne].
  { split; [|done]. constructor; try done. intros j d Hj.
    rewrite <-Hskip by auto. by apply Hc. }
  destruct (remaining !! pe_To e) as [d|] eqn:Hd.
  2: { split; [|done]. constructor; try done. intros j d Hj.
       rewrite <-Hskip by (right; congruence). by apply Hc. }
  assert (∀ j, is_Some (<[pe_To e := (d - 1)%Z]> remaining !! j) ↔ is_Some (remaining !! j)) as Hsame.
  { intros j. destruct (decide (pe_To e = j)) as [<-|Hj].
    - rewrite lookup_insert_eq, Hd. by split; eauto.
    - by rewrite lookup_insert_ne. }
  pose proof (Hc _ _ Hd) as Hcount.
  rewrite filter_cons, decide_True in Hcount by done. simpl in Hcount.
  assert (pe_To e ∉ queue) as Hnq by (rewrite Hq, Hd; intros [= ?]; lia).
  split; [|by apply dom_insert_lookup_L; eauto].
  constructor.
  - intros j. rewrite Hsame. apply Hk.
  - intros j d' Hj. 
    rewrite (list_filter_iff _ (λ e, pe_From e ≠ pe_To e ∧ pe_To e = j ∧
      is_Some (remaining !! pe_From e))) by (intros x; by rewrite Hsame).
    destruct (decide (pe_To e = j)) as [<-|Hjne].
    + rewrite lookup_insert_eq in Hj. injection Hj as <-. lia.
    + rewrite lookup_insert_ne in Hj by done. rewrite <-Hskip by auto. by apply Hc.
  - case_decide; [|done]. apply NoDup_app. split; [done|]. split; [|apply NoDup_singleton].
    intros x Hx ->%list_elem_of_singleton. done.
  - intros j. destruct (decide (pe_To e = j)) as [<-|Hj].
    + rewrite lookup_insert_eq. case_decide as Hz; [rewrite Hz|].
      * split; [done|]. intros _. apply elem_of_app. right. by left.
      * split; [done|]. intros [= ?]. done.
    + rewrite lookup_insert_ne, <-Hq by done. case_decide; [|done].
      rewrite elem_of_app, list_elem_of_singleton. naive_solver.
  - intros j Hkj Hj. apply Ha; [done|]. apply eq_None_not_Some. rewrite <-Hsame.
    rewrite Hj. by intros [? ?].
Qed.

Lemma kahn_edges remaining queue pend :
  kahn_inv remaining queue pend →
  let '(remaining', queue') := foldl peel_edge (remaining, queue) pend in
  kahn_inv remaining' queue' [] ∧ dom remaining' = dom remaining.
Proof.
  revert remaining queue. induction pend as [|e pend IH]; intros remaining queue H; [done|].
  cbn [foldl]. pose proof (kahn_edge _ _ _ _ H) as He.
  destruct (peel_edge (remaining, queue) e) as [r q]. destruct He as [He <-]. by apply IH.
Qed.

Lemma kahn_peel fuel remaining queue :
  size remaining < fuel → kahn_inv remaining queue [] →
  ∃ final, peel fuel (outgoing_of edges) remaining queue = Some final ∧ kahn_inv final [] [].
Proof.
  revert remaining queue. induction fuel as [|fuel IH]; intros remaining queue Hf H; [lia|].
  destruct queue as [|id queue]; simpl; [eauto|].
  rewrite outgoing_lookup. assert (is_Some (remaining !! id)) as [d Hd].
  { destruct H as [_ _ _ Hq _]. exists 0%Z. apply Hq. left. }
  pose proof (kahn_edges _ _ _ (kahn_pop _ _ _ H)) as He.
  destruct (foldl peel_edge _ _) as [r q]. destruct He as [He Hdom].
  apply IH; [|done]. rewrite <-size_dom, Hdom, size_dom.
  assert (size (delete id remaining) = pred (size remaining)) by (apply map_size_delete_Some; eauto).
  assert (size remaining ≠ 0) by (intros Hz%map_size_empty_inv; subst; by rewrite lookup_empty in Hd).
  lia.
Qed.

(** What remains at the end is what no order of peeling reaches. *)
Lemma kahn_final final id :
  kahn_inv final [] [] → known agents id = true → is_Some (final !! id) ↔ ¬ Acc precedes id.
Proof.
  intros [Hk Hc _ Hq Ha] Hid. split.
  - intros Hs Hacc. induction Hacc as [id _ IH]. destruct Hs as [d Hd].
    pose proof (Hc _ _ Hd) as Hd'. rewrite filter_nil in Hd'. simpl in Hd'.
    destruct (filter _ edges) as [|e es] eqn:Hes.
    { simpl in Hd'. subst d. apply Hq in Hd. by apply elem_of_nil in Hd. }
    assert (e ∈ e :: es) as Hin by left. rewrite <-Hes in Hin.
    apply list_elem_of_filter in Hin as [(Hne & Hto & Hs) Hin].
    apply (IH (pe_From e)); [|by apply Hk|done].
    exists e. split_and!; [done..|congruence|by apply Hk|done].
  - intros Hacc. destruct (final !! id) eqn:Hf; [eauto|]. destruct Hacc. by apply Ha.
Qed.

Lemma collect_cyclic_spec remaining :
  let ids := collect_cyclic agents remaining in
  NoDup ids ∧ ids `sublist_of` (pa_ID <$> agents) ∧
  ∀ id, id ∈ ids ↔ id ∈ pa_ID <$> agents ∧ is_Some (remaining !! id).
Proof.
  cbv zeta. revert remaining. induction agents as [|n ns IH]; intros remaining; simpl.
  { split_and!; [constructor|done|]. intros id. rewrite elem_of_nil. naive_solver. }
  destruct (remaining !! pa_ID n) as [d|] eqn:Hd.
  - destruct (IH (delete (pa_ID n) remaining)) as (Hnd & Hsub & Hin). split_and!.
    + constructor; [|done]. rewrite Hin, lookup_delete_eq. intros [_ [? ?]]. done.
    + by constructor.
    + intros id. rewrite !elem_of_cons, Hin. destruct (decide (id = pa_ID n)) as [->|Hne].
      * rewrite Hd. naive_solver.
      * rewrite lookup_delete_ne by done. naive_solver.
  - destruct (IH remaining) as (Hnd & Hsub & Hin). split_and!; [done|by constructor|].
    intros id. rewrite elem_of_cons, Hin. split; [naive_solver|].
    intros [[->|?] Hs]; [|done]. rewrite Hd in Hs. by destruct Hs.
Qed.
End kahn.

(** ** The walk of a graph *)

Section walk.
Context {W E : Type} {engine : NodeEngine W E}.
Context (name sessionID : string) (agents : list PipelineAgent) (edges : list PipelineEdge).

Abbreviation walk_st := (@walk_state W).
Abbreviation nodes := (nodesByID agents).
Abbreviation ids l := (nr_NodeID <$> l).

Lemma nodes_lookup id : nodesByID agents !! id = last (filter (λ n, pa_ID n = id) agents).
Proof.
  unfold nodesByID. induction agents as [|n ns IH] using rev_ind; [done|].
  rewrite foldl_app, filter_app, filter_cons. simpl.
  destruct (decide (pa_ID n = id)) as [<-|Hne].
  - by rewrite lookup_insert_eq, filter_nil, last_snoc.
  - by rewrite lookup_insert_ne, filter_nil, app_nil_r.
Qed.

Lemma nodes_id id node : nodes !! id = Some node → pa_ID node = id ∧ node ∈ agents.
Proof.
  rewrite nodes_lookup. intros H. apply last_Some_elem_of in H.
  by apply list_elem_of_filter in H.
Qed.

Lemma nodes_known id : is_Some (nodes !! id) ↔ known agents id = true.
Proof.
  rewrite known_spec. split.
  - intros [node [<- Hin]%nodes_id]. by apply list_elem_of_fmap_2.
  - intros (n & -> & Hin)%list_elem_of_fmap. rewrite nodes_lookup.
    apply last_is_Some. intros Hnil.
    assert (n ∈ filter (λ m, pa_ID m = pa_ID n) agents) as Hn by (by apply list_elem_of_filter).
    rewrite Hnil in Hn. by apply elem_of_nil in Hn.
Qed.

(** An edge fires on the content of the node it leaves. *)
Definition fires (content : string) (e : PipelineEdge) : Prop :=
  pe_WhenContains e = "" ∨ str_contains content (pe_WhenContains e) = true.

(** [nr] is what its node answered to [input]. *)
Definition answers (nr : NodeResult) (input : string) : Prop :=
  ∃ node w, nodes !! nr_NodeID nr = Some node ∧ nr = (invokeNode name node input sessionID w).2.1.

(** Why a node ran, after the nodes [pre]: it was entered from outside, or an edge
    of a node that ran before it fired, and it got that node's content. *)
Definition came_from (entry : string → string → Prop) (pre : list NodeResult) (nr : NodeResult)
    : Prop :=
  ∃ input, answers nr input ∧
    (entry (nr_NodeID nr) input ∨
     ∃ nr' e, nr' ∈ pre ∧ e ∈ edges ∧ pe_From e = nr_NodeID nr' ∧ pe_To e = nr_NodeID nr ∧
       fires (content_of nr') e ∧ input = content_of nr').

(** Every edge that fires after [nr] leads to a visited node. *)
Definition closed (visited : gset string) (nr : NodeResult) : Prop :=
  ∀ e, e ∈ edges → pe_From e = nr_NodeID nr → fires (content_of nr) e → pe_To e ∈ visited.

(** What a walk entered as [entry] allows does to the state. *)
Definition explores (entry : string → string → Prop) (st st' : walk_st)
    (err : option (@PipelineError E)) : Prop :=
  ∃ new, wk_nodes st' = wk_nodes st ++ new ∧ NoDup (ids new) ∧
    (∀ i, i ∈ ids new → i ∉ wk_visited st) ∧
    (∀ i, i ∈ wk_visited st ∨ i ∈ ids new → i ∈ wk_visited st') ∧
    (∀ pre nr post, new = pre ++ nr :: post → came_from entry pre nr) ∧
    (err = None →
       (∀ i, i ∈ wk_visited st' → i ∈ wk_visited st ∨ i ∈ ids new) ∧
       (∀ nr, nr ∈ new → closed (wk_visited st') nr)).

Lemma explores_refl entry st err : explores entry st st err.
Proof.
  exists []. rewrite app_nil_r. split; [done|]. split; [constructor|].
  split; [intros i Hi; by apply elem_of_nil in Hi|].
  split; [intros i [?|Hi]; [done|by apply elem_of_nil in Hi]|].
  split; [intros pre nr post H; by destruct pre|]. intros _.
  split; [by left|]. intros nr Hnr. by apply elem_of_nil in Hnr.
Qed.

Lemma came_from_weaken (entry1 entry2 : string → string → Prop) pre1 pre2 nr :
  (∀ i s, entry1 i s → entry2 i s) → pre1 ⊆ pre2 →
  came_from entry1 pre1 nr → came_from entry2 pre2 nr.
Proof.
  intros He Hp (input & Ha & [Hi|(nr' & e & Hin & H)]); exists input; (split; [done|]); [auto|].
  right. exists nr', e. split; [by apply Hp|done].
Qed.

Lemma explores_trans entry st1 st2 st3 err :
  explores entry st1 st2 None → explores entry st2 st3 err → explores entry st1 st3 err.
Proof.
  intros (new1 & Hn1 & Hnd1 & Hd1 & Hv1 & Hf1 & H1) (new2 & Hn2 & Hnd2 & Hd2 & Hv2 & Hf2 & H2).
  destruct (H1 eq_refl) as [Hb1 Hc1]. exists (new1 ++ new2). rewrite fmap_app.
  split; [by rewrite Hn2, Hn1, app_assoc|]. split.
  { apply NoDup_app. split; [done|]. split; [|done]. intros i Hi1 Hi2. apply (Hd2 i Hi2), Hv1. auto. }
  split; [intros i [Hi|Hi]%elem_of_app; [by apply Hd1|]; intros Hv; apply (Hd2 i Hi), Hv1; auto|].
  split; [intros i; rewrite elem_of_app; intros [Hi|[Hi|Hi]]; apply Hv2; auto|]. split.
  { intros pre nr post Heq. apply app_eq_app in Heq as (l & [[-> Heq]|[-> ->]]).
    - destruct l as [|x l]; simplify_eq/=.
      + apply (came_from_weaken entry entry []); [done|set_solver|].
        by apply (Hf2 [] nr post).
      + by apply (Hf1 pre x l).
    - apply (came_from_weaken entry entry l); [done|set_solver|]. by apply (Hf2 l nr post). }
  intros He. destruct (H2 He) as [Hb2 Hc2]. split.
  - intros i [[?|?]%Hb1|?]%Hb2; rewrite elem_of_app; auto.
  - intros nr [Hnr|Hnr]%elem_of_app; [|auto]. intros e Hin Hfrom Hfire. apply Hv2. left.
    by apply (Hc1 nr Hnr).
Qed.

Lemma explores_weaken (entry1 entry2 : string → string → Prop) st st' err :
  (∀ i s, entry1 i s → entry2 i s) → explores entry1 st st' err → explores entry2 st st' err.
Proof.
  intros He (new & ? & ? & ? & ? & Hf & ?). exists new. split_and!; try done.
  intros pre nr post Heq. apply (came_from_weaken entry1 entry2 pre); [done..|]. by eapply Hf.
Qed.

Lemma explores_visited entry st st' err : explores entry st st' err → wk_visited st ⊆ wk_visited st'.
Proof. intros (new & _ & _ & _ & Hv & _) i Hi. apply Hv. by left. Qed.

Lemma fires_test content e :
  negb (bool_decide (pe_WhenContains e = "")) && negb (str_contains content (pe_WhenContains e)) = false
  ↔ fires content e.
Proof.
  unfold fires. case_bool_decide; simpl; [naive_solver|].
  destruct (str_contains content _); simpl; naive_solver.
Qed.

(** What a walk from one node does. *)
Definition walk_ok (f : string → string → walk_st → option (walk_st * option (@PipelineError E)))
    : Prop :=
  ∀ id input st st' err, f id input st = Some (st', err) →
    explores (λ i s, i = id ∧ s = input) st st' err ∧ (err = None → id ∈ wk_visited st').

Lemma walk_edges_ok f es content st st' err :
  walk_ok f → walk_edges f es content st = Some (st', err) →
  explores (λ i s, ∃ e, e ∈ es ∧ pe_To e = i ∧ fires content e ∧ s = content) st st' err ∧
  (err = None → ∀ e, e ∈ es → fires content e → pe_To e ∈ wk_visited st').
Proof.
  intros Hf. revert st. induction es as [|e es IH]; intros st; simpl.
  { intros [= <- <-]. split; [apply explores_refl|]. intros _ e He. by apply elem_of_nil in He. }
  assert (∀ st0, explores (λ i s, ∃ e, e ∈ es ∧ pe_To e = i ∧ fires content e ∧ s = content) st0 st' err →
    explores (λ i s, ∃ e0, e0 ∈ e :: es ∧ pe_To e0 = i ∧ fires content e0 ∧ s = content) st0 st' err)
    as Hweak.
  { intros st0. apply explores_weaken. intros i s (e0 & ? & ?). exists e0. split; [by right|done]. }
  destruct (negb _ && negb _) eqn:Hg.
  { intros H. destruct (IH st H) as [Hex Hv]. split; [by apply Hweak|].
    intros He e0 [->|Hin]%elem_of_cons Hfire; [|by apply Hv].
    apply fires_test in Hfire. congruence. }
  apply fires_test in Hg.
  destruct (f (pe_To e) content st) as [[st1 [err1|]]|] eqn:Hcall; [| |done];
    destruct (Hf _ _ _ _ _ Hcall) as [Hex1 Hv1].
  - intros [= <- <-]. split; [|done]. apply (explores_weaken (λ i s, i = pe_To e ∧ s = content)); [|done].
    intros i s [-> ->]. exists e. split; [by left|done].
  - intros H. destruct (IH st1 H) as [Hex Hv]. split.
    + apply (explores_trans _ _ st1); [|by apply Hweak].
      apply (explores_weaken (λ i s, i = pe_To e ∧ s = content)); [|done].
      intros i s [-> ->]. exists e. split; [by left|done].
    + intros He e0 [->|Hin]%elem_of_cons Hfire; [|by apply Hv].
      apply (explores_visited _ _ _ _ Hex). by apply Hv1.
Qed.

Lemma invokeNode_id node input w : nr_NodeID (invokeNode name node input sessionID w).2.1 = pa_ID node.
Proof. unfold invokeNode. case_decide; [done|]. by destruct (process _ w) as [w' [[err|resp] l]]. Qed.

Lemma walk_walk_ok fuel : walk_ok (walk fuel name sessionID nodes (outgoing_of edges)).
Proof.
  induction fuel as [|fuel IH]; intros id input st st' err; simpl; [done|].
  destruct (decide (id ∈ wk_visited st)) as [Hin|Hnin].
  { intros [= <- <-]. split; [apply explores_refl|done]. }
  destruct (nodes !! id) as [node|] eqn:Hnode.
  2: { intros [= <- <-]. split; [|done]. exists []. simpl. rewrite app_nil_r.
       split; [done|]. split; [constructor|]. split; [intros i Hi; by apply elem_of_nil in Hi|].
       split; [set_solver|]. split; [intros pre nr post H; by destruct pre|done]. }
  destruct (invokeNode name node input sessionID (wk_world st)) as [w [nr nerr]] eqn:Hinv.
  destruct (nodes_id _ _ Hnode) as [Hid _].
  assert (nr_NodeID nr = id) as Hnr.
  { rewrite <-Hid, <-(invokeNode_id node input (wk_world st)), Hinv. done. }
  assert (answers nr input) as Hans.
  { exists node, (wk_world st). rewrite Hnr, Hinv. done. }
  set (st1 := mkWalk w (wk_nodes st ++ [nr]) ({[id]} ∪ wk_visited st)).
  assert (came_from (λ i s, i = id ∧ s = input) [] nr) as Hfrom
    by (exists input; split; [done|left; by rewrite Hnr]).
  destruct nerr as [e|].
  { intros [= <- <-]. split; [|done]. exists [nr]. split; [done|]. split; [apply NoDup_singleton|].
    split; [intros i ->%list_elem_of_singleton; by rewrite Hnr|].
    split; [intros i; simpl; rewrite list_elem_of_singleton, Hnr; set_solver|].
    split; [|done]. intros pre x post Heq. destruct pre as [|y [|z pre]]; simplify_eq/=; done. }
  rewrite outgoing_lookup. intros H. destruct (walk_edges_ok _ _ _ _ _ _ IH H) as [Hex Hv].
  pose proof (explores_visited _ _ _ _ Hex) as Hsub.
  split; [|intros _; apply Hsub; simpl; set_solver].
  destruct Hex as (new & Hn & Hnd & Hd & Hvis & Hf & Hok). simpl in *.
  exists (nr :: new). rewrite Hn, <-app_assoc. split; [done|].
  rewrite fmap_cons, Hnr. split.
  { constructor; [|done]. intros Hin. apply (Hd id Hin). set_solver. }
  split; [intros i [->|Hi]%elem_of_cons; [done|]; specialize (Hd i Hi); set_solver|].
  split; [intros i; rewrite elem_of_cons; intros [Hi|[->|Hi]]; apply Hvis; set_solver|]. split.
  - intros pre x post Heq. destruct pre as [|y pre]; simplify_eq/=; [done|].
    destruct (Hf pre x post eq_refl) as (inp & Ha & Hor). exists inp. split; [done|].
    destruct Hor as [(e & Hin & Hto & Hfire & ->)|(nr' & e & Hin & Hrest)]; right.
    + apply list_elem_of_filter in Hin as [Hfr Hin]. exists y, e.
      split; [by left|]. split_and!; try done. congruence.
    + exists nr', e. split; [by right|done].
  - intros He. destruct (Hok He) as [Hb Hc]. split.
    + intros i Hi. rewrite elem_of_cons. specialize (Hb i Hi). set_solver.
    + intros x [->|Hx]%elem_of_cons; [|by apply Hc]. intros e Hin Hfr Hfire.
      apply (Hv He); [|done]. apply list_elem_of_filter. split; [congruence|done].
Qed.

Lemma walk_roots_ok f ns indegree input st st' err :
  walk_ok f → walk_roots f ns indegree input st = Some (st', err) →
  explores (λ i s, i ∈ pa_ID <$> ns ∧ default 0%Z (indegree !! i) = 0%Z ∧ s = input) st st' err ∧
  (err = None → ∀ i, i ∈ pa_ID <$> ns → default 0%Z (indegree !! i) = 0%Z → i ∈ wk_visited st').
Proof.
  intros Hf. revert st. induction ns as [|n ns IH]; intros st; simpl.
  { intros [= <- <-]. split; [apply explores_refl|]. intros _ e He. by apply elem_of_nil in He. }
  assert (∀ st0, explores (λ i s, i ∈ pa_ID <$> ns ∧ default 0%Z (indegree !! i) = 0%Z ∧ s = input) st0 st' err →
    explores (λ i s, i ∈ pa_ID n :: (pa_ID <$> ns) ∧ default 0%Z (indegree !! i) = 0%Z ∧ s = input) st0 st' err)
    as Hweak.
  { intros st0. apply explores_weaken. intros i s (? & ?). split; [by right|done]. }
  case_decide as Hz.
  - destruct (f (pa_ID n) input st) as [[st1 [err1|]]|] eqn:Hcall; [| |done];
      destruct (Hf _ _ _ _ _ Hcall) as [Hex1 Hv1].
    + intros [= <- <-]. split; [|done].
      apply (explores_weaken (λ i s, i = pa_ID n ∧ s = input)); [|done].
      intros i s [-> ->]. split; [by left|done].
    + intros H. destruct (IH st1 H) as [Hex Hv]. split.
      * apply (explores_trans _ _ st1); [|by apply Hweak].
        apply (explores_weaken (λ i s, i = pa_ID n ∧ s = input)); [|done].
        intros i s [-> ->]. split; [by left|done].
      * intros He i [->|Hin]%elem_of_cons Hi; [|by apply Hv].
        apply (explores_visited _ _ _ _ Hex). by apply Hv1.
  - intros H. destruct (IH st H) as [Hex Hv]. split; [by apply Hweak|].
    intros He i [->|Hin]%elem_of_cons Hi; [done|by apply Hv].
Qed.

(** *** Termination *)

(** The known nodes a walk has not visited yet. *)
Definition unvisited (st : walk_st) : nat := size (dom nodes ∖ wk_visited st).

(** A walk that never runs out of fuel from states with fewer than [n] unvisited
    nodes. *)
Definition total_below (n : nat)
    (f : string → string → walk_st → option (walk_st * option (@PipelineError E))) : Prop :=
  ∀ id input st, unvisited st < n → is_Some (f id input st).

Lemma unvisited_mono st st' : wk_visited st ⊆ wk_visited st' → unvisited st' ≤ unvisited st.
Proof. intros H. unfold unvisited. apply subseteq_size. set_solver. Qed.

Lemma unvisited_visit id st st' :
  id ∈ dom nodes → id ∉ wk_visited st → {[id]} ∪ wk_visited st ⊆ wk_visited st' →
  unvisited st' < unvisited st.
Proof. intros Hd Hn Hs. unfold unvisited. apply subset_size. split; [set_solver|]. intros Hsub. set_solver. Qed.

Lemma walk_edges_total n f es content st :
  walk_ok f → total_below n f → unvisited st < n → is_Some (walk_edges f es content st).
Proof.
  intros Hok Hf. revert st. induction es as [|e es IH]; intros st Hn; simpl; [by eexists|].
  destruct (negb _ && negb _); [by apply IH|].
  destruct (Hf (pe_To e) content st Hn) as [[st1 [err|]] Hc]; rewrite Hc; [by eexists|].
  apply IH. destruct (Hok _ _ _ _ _ Hc) as [Hex _].
  pose proof (unvisited_mono _ _ (explores_visited _ _ _ _ Hex)). lia.
Qed.

Lemma walk_total fuel :
  total_below fuel (walk fuel name sessionID nodes (outgoing_of edges)).
Proof.
  induction fuel as [|fuel IH]; intros id input st Hn; [lia|]. simpl.
  destruct (decide (id ∈ wk_visited st)) as [Hin|Hnin]; [by eexists|].
  destruct (nodes !! id) as [node|] eqn:Hnode; [|by eexists].
  destruct (invokeNode _ _ _ _ _) as [w [nr [err|]]]; [by eexists|].
  apply (walk_edges_total fuel); [apply walk_walk_ok|done|].
  assert (unvisited (mkWalk w (wk_nodes st ++ [nr]) ({[id]} ∪ wk_visited st)) < unvisited st); [|lia].
  apply (unvisited_visit id); [by apply elem_of_dom_2 in Hnode|done|done].
Qed.

Lemma walk_roots_total n f ns indegree input st :
  walk_ok f → total_below n f → unvisited st < n → is_Some (walk_roots f ns indegree input st).
Proof.
  intros Hok Hf. revert st. induction ns as [|m ns IH]; intros st Hn; simpl; [by eexists|].
  case_decide; [|by apply IH].
  destruct (Hf (pa_ID m) input st Hn) as [[st1 [err|]] Hc]; rewrite Hc; [by eexists|].
  apply IH. destruct (Hok _ _ _ _ _ Hc) as [Hex _].
  pose proof (unvisited_mono _ _ (explores_visited _ _ _ _ Hex)). lia.
Qed.

Lemma size_dom_nodes : size (dom nodes) ≤ length agents.
Proof.
  rewrite size_dom. unfold nodesByID.
  assert (∀ m : gmap string PipelineAgent,
    size (foldl (λ m n, <[pa_ID n := n]> m) m agents) ≤ size m + length agents) as H.
  { induction agents as [|n ns IH]; intros m; simpl; [lia|]. etransitivity; [apply IH|].
    destruct (m !! pa_ID n) eqn:Hm.
    - rewrite map_size_insert_Some by eauto. lia.
    - rewrite map_size_insert_None by done. lia. }
  specialize (H ∅). by rewrite map_size_empty in H.
Qed.

Lemma walk_roots_runs indegree input w :
  ∃ st err, walk_roots (walk (walk_fuel agents) name sessionID nodes (outgoing_of edges))
    agents indegree input (mkWalk w [] ∅) = Some (st, err).
Proof.
  destruct (walk_roots_total (walk_fuel agents)
    (walk (walk_fuel agents) name sessionID nodes (outgoing_of edges)) agents indegree input
    (mkWalk w [] ∅)) as [[st err] H]; eauto.
  - apply walk_walk_ok.
  - apply walk_total.
  - unfold unvisited, walk_fuel. simpl. rewrite difference_empty_L.
    pose proof size_dom_nodes. lia.
Qed.
End walk.

(** *** The whole check *)

Lemma cyclicNodes_spec {mr : MapRange} agents edges :
  ∃ ids, cyclicNodes agents (outgoing_of edges) (indegree_of agents edges) = Some ids ∧
    NoDup ids ∧ ids `sublist_of` (pa_ID <$> agents) ∧
    ∀ id, id ∈ ids ↔ id ∈ pa_ID <$> agents ∧ ¬ Acc (precedes agents edges) id.
Proof.
  unfold cyclicNodes. set (queue := (filter _ (range _)).*1).
  assert (kahn_inv agents edges (indegree_of agents edges) queue []) as Hinv.
  { apply kahn_init.
    - unfold queue. eapply sublist_NoDup; [apply (NoDup_fst_range (indegree_of agents edges))|].
      apply fmap_sublist, sublist_filter.
    - intros id. unfold queue. rewrite list_elem_of_fmap. split.
      + intros ([k d] & -> & [Hz Hin]%list_elem_of_filter). simpl in *. subst d.
        by apply elem_of_range in Hin.
      + intros Hid. exists (id, 0%Z). split; [done|]. apply list_elem_of_filter.
        split; [done|]. by apply elem_of_range. }
  destruct (kahn_peel agents edges (S (size (indegree_of agents edges))) _ queue
    (Nat.lt_succ_diag_r _) Hinv) as (final & -> & Hfin).
  exists (collect_cyclic agents final). split; [done|].
  destruct (collect_cyclic_spec agents final) as (Hnd & Hsub & Hin).
  split_and!; [done..|]. intros id. rewrite Hin.
  split; intros [Hid Hx]; (split; [done|]); apply known_spec in Hid; by apply (kahn_final agents edges final).
Qed.

Lemma Acc_no_cycle {A} (R : relation A) a : Acc R a → ¬ tc R a a.
Proof.
  intros Hacc. induction Hacc as [a _ IH]. intros Hcyc.
  assert (∃ b, R b a ∧ tc R b b) as (b & Hb & Hbb); [|by apply (IH b)].
  assert (∀ x y, tc R x y → R x y ∨ ∃ z, tc R x z ∧ R z y) as Hinv.
  { induction 1 as [x y H|x y z H Hyz [?|(u & ? & ?)]]; [by left|right..].
    - exists y. split; [by apply tc_once|done].
    - exists u. split; [by eapply tc_l|done]. }
  destruct (Hinv a a Hcyc) as [Haa|(b & Hab & Hba)].
  - exists a. split; [done|by apply tc_once].
  - exists b. split; [done|]. by eapply tc_l.
Qed.

Lemma precedes_known agents edges a b : precedes agents edges a b → a ∈ pa_ID <$> agents.
Proof. intros (e & _ & _ & _ & _ & Ha & _). by apply known_spec. Qed.

Lemma tc_known agents edges a b : tc (precedes agents edges) a b → a ∈ pa_ID <$> agents.
Proof. by induction 1; eapply precedes_known. Qed.

(** A relation with finitely many sources and without a cycle is well founded. *)
Lemma no_cycle_acc_of (R : relation string) (l : list string) :
  (∀ a b, R a b → a ∈ l) → (∀ a, ¬ tc R a a) → ∀ a, Acc R a.
Proof.
  intros Hl Hno a. assert (Acc (flip (flip R)) a) as H; [|done].
  assert (∀ x y, tc (flip R) x y → tc R y x) as Hflip.
  { induction 1 as [x y H|x y z H _ IH]; [by apply tc_once|]. by eapply tc_r. }
  apply tc_finite_sn; [intros b Hb; by apply (Hno b), Hflip|].
  exists l. intros y Hxy%Hflip. inversion Hxy; eauto.
Qed.

Lemma no_cycle_acc agents edges :
  (∀ a, ¬ tc (precedes agents edges) a a) → ∀ a, Acc (precedes agents edges) a.
Proof.
  apply (no_cycle_acc_of _ (pe_From <$> edges)). intros a b (e & He & <- & _).
  by apply list_elem_of_fmap_2.
Qed.

(** *** The other executors *)

Section runs.
Context {mr : MapRange} {W E : Type} {engine : NodeEngine W E}.

(** A node no edge between different known nodes enters. *)
Definition root (agents : list PipelineAgent) (edges : list PipelineEdge) (id : string) : Prop :=
  id ∈ pa_ID <$> agents ∧ ∀ a, ¬ precedes agents edges a id.

Lemma root_indegree agents edges id :
  id ∈ pa_ID <$> agents →
  default 0%Z (indegree_of agents edges !! id) = 0%Z ↔ root agents edges id.
Proof.
  intros Hid. rewrite indegree_lookup. pose proof Hid as Hk. apply known_spec in Hk. rewrite Hk.
  simpl. unfold root. split.
  - intros Hz. split; [done|]. intros a (e & He & <- & <- & Hne & Hka & _).
    assert (e ∈ filter (inbound agents (pe_To e)) edges) as Hin
      by (apply list_elem_of_filter; by split_and!).
    destruct (filter _ edges); [by apply elem_of_nil in Hin|done].
  - intros [_ Hno]. destruct (filter _ edges) as [|e es] eqn:Hes; [done|].
    assert (e ∈ e :: es) as Hin by left. rewrite <-Hes in Hin.
    apply list_elem_of_filter in Hin as [(Hne & Hto & Hkf) Hin].
    destruct (Hno (pe_From e)). exists e. split_and!; try done. congruence.
Qed.

(** The slots the goroutines of a parallel run write. *)
Lemma parallel_slots name sessionID agents input w order :
  NoDup order → (∀ i, i ∈ order → i < length agents) →
  let n := length agents in
  let '(_, (results, errs)) :=
    foldl (go_invoke name sessionID agents input) (w, (replicate n None, replicate n None)) order in
  length results = n ∧ length errs = n ∧
  ∀ i node, i ∈ order → agents !! i = Some node →
    ∃ w', results !! i = Some (Some (invokeNode name node input sessionID w').2.1) ∧
          errs !! i = Some (invokeNode name node input sessionID w').2.2.
Proof.
  cbv zeta. induction order as [|j order IH] using rev_ind; intros Hnd Hlt.
  { simpl. rewrite !length_replicate. split_and!; [done..|].
    intros i node Hi. by apply elem_of_nil in Hi. }
  apply NoDup_app in Hnd as (Hnd & Hdisj & _).
  assert (j < length agents) as Hj by (apply Hlt; set_solver).
  pose proof Hj as [node Hnode]%lookup_lt_is_Some.
  assert (∀ i, i ∈ order → i < length agents) as Hlt' by (intros i Hi; apply Hlt; set_solver).
  specialize (IH Hnd Hlt'). rewrite foldl_app. simpl.
  destruct (foldl _ _ order) as [w1 [results errs]]. destruct IH as (Hlr & Hle & Hslot).
  unfold go_invoke. rewrite Hnode.
  destruct (invokeNode name node input sessionID w1) as [w2 [nr err]] eqn:Hinv.
  rewrite !length_insert. split_and!; [done..|].
  intros i node' [Hi| ->%list_elem_of_singleton]%elem_of_app Hn.
  - assert (i ≠ j) by (intros ->; set_solver).
    rewrite !list_lookup_insert_ne by done. by apply Hslot.
  - assert (node' = node) as -> by congruence. exists w1. rewrite Hinv. simpl.
    by rewrite !list_lookup_insert_eq by lia.
Qed.

Lemma join_errors_None (l : list (option (@PipelineError E))) :
  join_errors l = None ↔ Forall (λ e, e = None) l.
Proof.
  unfold join_errors. induction l as [|[e|] l IH]; csimpl; [done|..].
  - split; [done|]. by intros [? _]%Forall_cons.
  - rewrite Forall_cons, <-IH. naive_solver.
Qed.

Lemma omap_id_fmap_Some {A} (l : list A) : omap id (Some <$> l) = l.
Proof. induction l as [|x l IH]; [done|]. simpl. by f_equal. Qed.

(** ** Properties *)

(** the cycle check terminates and reports, in definition order and without
    repetition, exactly the declared nodes that no order of peeling nodes without
    unpeeled predecessors reaches; it reports none exactly when the edges between
    different known nodes form no cycle. The order maps are visited in does not
    matter. *)
Theorem cyclicNodes_correct agents edges :
  ∃ ids, cyclicNodes agents (outgoing_of edges) (indegree_of agents edges) = Some ids ∧
    NoDup ids ∧ ids `sublist_of` (pa_ID <$> agents) ∧
    (∀ id, id ∈ ids ↔ id ∈ pa_ID <$> agents ∧ ¬ Acc (precedes agents edges) id) ∧
    (ids = [] ↔ ∀ a, ¬ tc (precedes agents edges) a a).
Proof.
  destruct (cyclicNodes_spec agents edges) as (ids & -> & Hnd & Hsub & Hin).
  exists ids. split_and!; try done. split.
  - intros -> a Hcyc.
    assert (¬ Acc (precedes agents edges) a) as Hnot by (intros Hacc; by apply Acc_no_cycle in Hacc).
    assert (a ∈ pa_ID <$> agents) as Ha.
    { by eapply tc_known. }
    assert (a ∈ []) as Hnil by (by apply Hin). by apply elem_of_nil in Hnil.
  - intros Hno. destruct ids as [|id ids]; [done|].
    destruct (proj1 (Hin id) ltac:(left)) as [_ Hacc]. destruct Hacc. by apply no_cycle_acc.
Qed.

(** C20: a graph run always ends. On a cyclic graph nothing runs and the engine
    is left alone. Otherwise no node runs twice, and a node runs only as a root on
    the pipeline's input, or on the content of a node that ran before it, along an
    edge whose guard that content meets. When the run succeeds, all roots ran and
    every edge whose guard was met leads to a node that ran; so when no edge has a
    guard, every declared node ran. *)
Theorem runGraph_correct name sessionID agents edges input w :
  ∃ w' ran err, runGraph name sessionID agents edges input w = Some (w', (ran, err)) ∧
    ((∃ a, tc (precedes agents edges) a a) →
       w' = w ∧ ran = [] ∧ ∃ ids, ids ≠ [] ∧ err = Some (ErrPipelineCycle ids)) ∧
    NoDup (nr_NodeID <$> ran) ∧
    (∀ pre nr post, ran = pre ++ nr :: post →
       came_from name sessionID agents edges (λ i s, root agents edges i ∧ s = input) pre nr) ∧
    (err = None →
       (∀ id, root agents edges id → id ∈ nr_NodeID <$> ran) ∧
       (∀ nr, nr ∈ ran → closed edges (list_to_set (nr_NodeID <$> ran)) nr) ∧
       ((∀ e, e ∈ edges → pe_WhenContains e = "") →
        ∀ id, id ∈ pa_ID <$> agents → id ∈ nr_NodeID <$> ran)).
Proof.
  unfold runGraph. destruct (cyclicNodes_spec agents edges) as (cyc & -> & _ & _ & Hcyc).
  cbn [mbind option_bind].
  destruct cyc as [|c cyc].
  2: { exists w, [], (Some (ErrPipelineCycle (c :: cyc))). split; [done|].
       split; [intros _; split; [done|]; split; [done|]; by exists (c :: cyc)|].
       split; [apply NoDup_nil_2|].
       split; [|done]. intros pre nr post H. by destruct pre. }
  assert (∀ id, id ∈ pa_ID <$> agents → ¬ ¬ Acc (precedes agents edges) id) as Hacc.
  { intros id Hid Hn. assert (id ∈ []) as H by (by apply Hcyc). by apply elem_of_nil in H. }
  destruct (walk_roots_runs name sessionID agents edges (indegree_of agents edges) input w)
    as (st & err & Hrun). rewrite Hrun. cbn [mbind option_bind].
  exists (wk_world st), (wk_nodes st), err. split; [done|].
  destruct (walk_roots_ok name sessionID agents edges _ _ _ _ _ _ _
    (walk_walk_ok name sessionID agents edges _) Hrun) as [Hex Hroots].
  destruct Hex as (new & Hn & Hnd & _ & _ & Hfrom & Hok). simpl in Hn. rewrite Hn.
  split.
  { intros [a Ha]. exfalso. assert (a ∈ pa_ID <$> agents) as Hin.
    { by eapply tc_known. }
    apply (Hacc a Hin). intros Hx. by apply (Acc_no_cycle (precedes agents edges) a). }
  split; [done|]. split.
  { intros pre nr post Heq. destruct (Hfrom pre nr post Heq) as (i & Ha & Hor).
    exists i. split; [done|]. destruct Hor as [(Hin & Hz & ->)|Hor]; [left|by right].
    split; [|done]. by apply root_indegree. }
  intros ->. destruct (Hok eq_refl) as [Hvis Hclosed].
  assert (∀ i, i ∈ wk_visited st → i ∈ nr_NodeID <$> new) as Hv.
  { intros i Hi. destruct (Hvis i Hi) as [H|H]; [|done]. simpl in H. set_solver. }
  assert (∀ id, root agents edges id → id ∈ nr_NodeID <$> new) as Hr.
  { intros id Hid. apply Hv, Hroots; [done|apply Hid|]. apply root_indegree; [apply Hid|done]. }
  assert (∀ nr, nr ∈ new → closed edges (list_to_set (nr_NodeID <$> new)) nr) as Hc.
  { intros nr Hnr e He Hf Hfire. apply elem_of_list_to_set, Hv. by apply (Hclosed nr). }
  split_and!; [done..|]. intros Hguards id Hid.
  destruct (decide (id ∈ nr_NodeID <$> new)) as [|Hnot]; [done|]. exfalso.
  apply (Hacc id Hid). intros Hx. revert Hid Hnot. induction Hx as [id _ IH]. intros Hid Hnot.
  assert (root agents edges id ∨ ∃ a, precedes agents edges a id) as [Hrt|[a Ha]];
    [|by apply Hnot, Hr|].
  { destruct (decide (default 0%Z (indegree_of agents edges !! id) = 0%Z)) as [Hz|Hnz];
      [left; by apply root_indegree|right].
    rewrite indegree_lookup in Hnz. apply known_spec in Hid as Hk. rewrite Hk in Hnz. simpl in Hnz.
    destruct (filter _ edges) as [|e es] eqn:Hes; [done|].
    assert (e ∈ e :: es) as Hin by left. rewrite <-Hes in Hin.
    apply list_elem_of_filter in Hin as [(Hne & Hto & Hkf) Hin].
    exists (pe_From e), e. split_and!; try done. congruence. }
  apply (IH a Ha).
  { by eapply precedes_known. }
  intros Hran. apply Hnot. apply list_elem_of_fmap in Hran as (nr & -> & Hnr).
  destruct Ha as (e & He & Hfe & Hte & _). apply (elem_of_list_to_set (C := gset string)).
  rewrite <-Hte. apply (Hc nr Hnr e He Hfe). left. by apply Hguards.
Qed.

(** What the [i]-th node of a sequential run is given. *)
Definition chained (input : string) (ran : list NodeResult) (i : nat) : string :=
  match i with O => input | S j => default "" (content_of <$> ran !! j) end.

Lemma runSequential_spec name sessionID agents input w :
  let '(_, (ran, err)) := runSequential name sessionID agents input w in
  length ran ≤ length agents ∧ (err = None → length ran = length agents) ∧
  (is_Some err → ran ≠ []) ∧
  ∀ i nr, ran !! i = Some nr → ∃ node w' e, agents !! i = Some node ∧
    (invokeNode name node (chained input ran i) sessionID w').2 = (nr, e) ∧
    (is_Some e ↔ is_Some err ∧ S i = length ran).
Proof.
  revert input w. induction agents as [|node ns IH]; intros input w; simpl.
  { split_and!; try done. }
  destruct (invokeNode name node input sessionID w) as [w1 [nr [e|]]] eqn:Hinv; simpl.
  { split_and!; try done; [lia|]. intros [|i] x Hx; simplify_eq/=.
    exists node, w, (Some e). rewrite Hinv. simpl. split_and!; [done..|]. by split; eauto. }
  specialize (IH (content_of nr) w1).
  destruct (runSequential name sessionID ns (content_of nr) w1) as [w2 [ran err]].
  destruct IH as (Hle & Hlen & Hne & IH). simpl.
  split_and!; [lia|intros He; by rewrite Hlen|done|]. intros [|i] x Hx; simplify_eq/=.
  - exists node, w, None. rewrite Hinv. simpl. split_and!; [done..|]. split; [by intros []|].
    intros [Herr Hl]. destruct ran; [by destruct (Hne Herr)|done].
  - destruct (IH i x Hx) as (node' & w' & e & Hn & Hinv' & Hiff).
    exists node', w', e. split_and!; [done| |].
    + rewrite <-Hinv'. by destruct i.
    + rewrite Hiff. split; intros [? ?]; (split; [done|lia]).
Qed.

(** a sequential run invokes the agents in definition order, each on the
    content of the one before it (the first on the input), and stops right after
    the first that fails. A parallel run invokes all of them on the input and
    answers their results in definition order, whatever order they ran in, with
    an error exactly when some node failed. *)
Theorem linear_runs_correct name sessionID agents input order w :
  order ≡ₚ seq 0 (length agents) →
  (let '(_, (ran, err)) := runSequential name sessionID agents input w in
   (err = None → length ran = length agents) ∧
   ∀ i nr, ran !! i = Some nr → ∃ node w' e, agents !! i = Some node ∧
     (invokeNode name node (chained input ran i) sessionID w').2 = (nr, e) ∧
     (is_Some e ↔ is_Some err ∧ S i = length ran)) ∧
  (let '(_, (ran, err)) := runParallel order name sessionID agents input w in
   nr_NodeID <$> ran = pa_ID <$> agents ∧
   ∃ worlds, length worlds = length agents ∧
     let runs := zip_with (λ node w, (invokeNode name node input sessionID w).2) agents worlds in
     ran = runs.*1 ∧ err = join_errors runs.*2 ∧ (err = None ↔ Forall (λ e, e = None) runs.*2)).
Proof.
  intros Hperm. split.
  { pose proof (runSequential_spec name sessionID agents input w) as H.
    destruct (runSequential _ _ _ _ _) as [w' [ran err]]. naive_solver. }
  unfold runParallel.
  pose proof (parallel_slots name sessionID agents input w order) as H. cbv zeta in H.
  rewrite Hperm in H at 1. specialize (H (NoDup_seq _ _)).
  destruct (foldl _ _ order) as [w' [results errs]]. destruct H as (Hlr & Hle & Hslot).
  { intros i. rewrite Hperm. intros Hi%elem_of_seq. lia. }
  assert (∃ worlds, length worlds = length agents ∧
    let runs := zip_with (λ node w, (invokeNode name node input sessionID w).2) agents worlds in
    results = Some <$> runs.*1 ∧ errs = runs.*2) as (worlds & Hw & Hres & Herrs).
  { assert (∀ i node, agents !! i = Some node →
      ∃ w', results !! i = Some (Some (invokeNode name node input sessionID w').2.1) ∧
            errs !! i = Some (invokeNode name node input sessionID w').2.2) as Hall.
    { intros i node Hi. apply Hslot; [|done]. rewrite Hperm. apply elem_of_seq.
      apply lookup_lt_Some in Hi. lia. }
    clear -Hlr Hle Hall. revert results errs Hlr Hle Hall.
    induction agents as [|node ns IH]; intros [|r rs] [|e es] Hlr Hle Hall; try done.
    { by exists []. }
    destruct (Hall 0 node eq_refl) as (w0 & Hr0 & He0).
    destruct (IH rs es) as (ws & Hlen & -> & ->); [by injection Hlr|by injection Hle| |].
    { intros i n Hi. apply (Hall (S i) n Hi). }
    simpl in Hr0, He0. injection Hr0 as ->. injection He0 as ->.
    exists (w0 :: ws). split; [simpl; by f_equal|]. by split. }
  simpl in Hres, Herrs. set (runs := zip_with _ agents worlds) in *.
  rewrite Hres, omap_id_fmap_Some. split.
  { unfold runs. clear -Hw. revert worlds Hw.
    induction agents as [|node ns IH]; intros [|w0 ws] Hw; try done.
    rewrite !fmap_cons. simpl. f_equal; [apply invokeNode_id|]. apply IH. by injection Hw. }
  exists worlds. split; [done|]. split; [done|]. rewrite Herrs. split; [done|].
  apply join_errors_None.
Qed.
End runs.

(** ** The engine as a node engine

    Requests of a run are numbered; each has its environment and takes its time. *)
Definition EngineNodes `{!MapRange, !Heap AgentDefinition, !GoLower, !ScenarioMatcher.GoRegexp,
    !GoTemplate, !GoFmt, !GoConv, !Chaos.GoRand} (tenantID : string) (envs : nat → Env) (elapsed : nat → Z)
  : NodeEngine (Engine * nat) EngineError :=
  λ req '(e, n),
    let '(e, r) := ProcessRequestContext (envs n) tenantID req e in ((e, S n), (r, elapsed n)).

(** An engine that echoes the agent's name after the message and counts requests;
    it knows no agent called "down". *)
Definition echo_engine : NodeEngine nat string := λ req n,
  (S n, (if decide (ir_AgentName req = "down") then inl "agent not found"%string
         else inr (mkResponse (ir_AgentName req) "" (latestUserMessage (ir_Messages req) +:+ "," +:+
                     ir_AgentName req) [] [] "" "" [] "" "" None), 0%Z)).

Definition ex_agents : list PipelineAgent :=
  [mkPipelineAgent "1" "one"; mkPipelineAgent "2" "two"; mkPipelineAgent "3" "three"]%string.

Definition ex_contents (r : nat * (list NodeResult * option (@PipelineError string))) : list string :=
  content_of <$> r.2.1.

Lemma linear_runs_correct_witness :
  let run := runParallel (engine := echo_engine) [2; 0; 1] "p" "s" ex_agents "hi" 0 in
  nr_NodeID <$> run.2.1 = ["1"; "2"; "3"]%string ∧
  ex_contents run = ["hi,one"; "hi,two"; "hi,three"]%string ∧
  ex_contents (runSequential (engine := echo_engine) "p" "s" ex_agents "hi" 0) =
    ["hi,one"; "hi,one,two"; "hi,one,two,three"]%string.
Proof.
  cbv zeta. split; [|split; vm_compute; reflexivity].
  assert ([2; 0; 1] ≡ₚ seq 0 (length ex_agents)) as Hp
    by (apply (Permutation_cons_app [0; 1] [] 2); reflexivity).
  pose proof (proj2 (linear_runs_correct (engine := echo_engine) "p" "s" ex_agents "hi" [2; 0; 1] 0 Hp)) as H.
  exact (proj1 H).
Defined.

Definition ex_edges : list PipelineEdge :=
  [mkPipelineEdge "1" "2" "one"; mkPipelineEdge "1" "3" "nowhere"; mkPipelineEdge "2" "2" ""]%string.

Example ex_graph :
  (ex_contents <$> runGraph (mr := canonical_range) (engine := echo_engine) "p" "s" ex_agents ex_edges "hi" 0)
    = Some ["hi,one"; "hi,one,two"]%string ∧
  (λ r, r.2.2) <$> runGraph (mr := canonical_range) (engine := echo_engine) "p" "s" ex_agents
    (mkPipelineEdge "3" "1" "" :: mkPipelineEdge "2" "3" "" :: ex_edges)%string "hi" 0 =
    Some (Some (ErrPipelineCycle ["1"; "2"; "3"]%string)).
Proof. by vm_compute. Qed.
