(* ===== verification/PipelineRegistry.v ===== *)
(** The registry of pipeline definitions, [internal/engine/pipeline_registry.go]:
    definitions keyed by name and the files they came from. The mutex makes
    every operation atomic, so an operation is a function of the state. *)

From S2P Require Import Prelude GoBase AgentTypes.

Record PipelineRegistry := mkPipelineRegistry {
  pipelines : gmap string loc;   (* name -> definition, by pointer *)
  sources : gmap string string   (* name -> source file path *)
}.

Section registry.
Context {mr : MapRange} {heap : Heap PipelineDefinition}.

Abbreviation name_of p := (md_Name (pd_Metadata (deref p))).

Definition NewPipelineRegistry : PipelineRegistry := mkPipelineRegistry ∅ ∅.

Definition Register (def : option loc) (r : PipelineRegistry) : PipelineRegistry :=
  match def with
  | None => r
  | Some p =>
      if decide (name_of p = "") then r
      else mkPipelineRegistry (<[name_of p := p]> (pipelines r)) (sources r)
  end.

Definition RegisterWithSource (def : option loc) (sourcePath : string) (r : PipelineRegistry)
  : PipelineRegistry :=
  match def with
  | None => r
  | Some p =>
      if decide (name_of p = "") then r
      else
        let pipelines := <[name_of p := p]> (pipelines r) in
        if decide (sourcePath = "")
        then mkPipelineRegistry pipelines (delete (name_of p) (sources r))
        else mkPipelineRegistry pipelines (<[name_of p := sourcePath]> (sources r))
  end.

Definition Source (name : string) (r : PipelineRegistry) : string :=
  default "" (sources r !! name).

Definition GetPipeline (name : string) (r : PipelineRegistry) : option loc := pipelines r !! name.

Definition List (r : PipelineRegistry) : list loc :=
  sort_by (λ p, name_of p) String.le (range (pipelines r)).*2.

Definition Count (r : PipelineRegistry) : nat := length (range (pipelines r)).

(** The writes a registry goes through. *)
Inductive pipeline_op :=
| OpRegister (def : option loc)
| OpRegisterWithSource (def : option loc) (sourcePath : string).

Definition pipeline_step (r : PipelineRegistry) (op : pipeline_op) : PipelineRegistry :=
  match op with
  | OpRegister def => Register def r
  | OpRegisterWithSource def path => RegisterWithSource def path r
  end.

Definition run_ops (ops : list pipeline_op) : PipelineRegistry :=
  foldl pipeline_step NewPipelineRegistry ops.

(** *** What a history of writes leaves under a name *)

(** The definition a write stores under [name], if it stores one there. *)
Definition written (name : string) (op : pipeline_op) : option loc :=
  match op with OpRegister def | OpRegisterWithSource def _ => def end ≫= λ p,
  if decide (name ≠ "" ∧ name_of p = name) then Some p else None.

(** The source a write gives [name]; [Register] gives none and keeps the old one. *)
Definition sourced (name : string) (op : pipeline_op) : option string :=
  match op with
  | OpRegister _ => None
  | OpRegisterWithSource _ path => match written name op with Some _ => Some path | None => None end
  end.

(** The keys are the names, and no key is empty. *)
Definition names_ok (r : PipelineRegistry) : Prop :=
  ∀ n p, pipelines r !! n = Some p → name_of p = n ∧ n ≠ "".

Lemma run_ops_snoc ops op : run_ops (ops ++ [op]) = pipeline_step (run_ops ops) op.
Proof. unfold run_ops. by rewrite foldl_app. Qed.

Lemma step_pipelines r op n :
  pipelines (pipeline_step r op) !! n =
    match written n op with Some p => Some p | None => pipelines r !! n end.
Proof.
  unfold written. destruct op as [[p|]|[p|] path]; simpl; try done;
    destruct (decide (name_of p = "")) as [He|He]; simpl.
  1, 3: rewrite decide_False by (rewrite He; intros [? ?]; congruence); done.
  2: destruct (decide (path = "")); simpl.
  all: destruct (decide (name_of p = n)) as [<-|Hn];
    [rewrite decide_True by done|rewrite decide_False by (by intros [_ ?])];
    by rewrite ?lookup_insert_eq, ?lookup_insert_ne.
Qed.

Lemma step_Source r op n :
  Source n (pipeline_step r op) = match sourced n op with Some s => s | None => Source n r end.
Proof.
  unfold Source, sourced, written. destruct op as [def|[p|] path]; simpl; try done.
  { destruct def as [p|]; simpl; [|done]. by case_decide. }
  destruct (decide (name_of p = "")) as [He|He]; simpl.
  { rewrite decide_False by (rewrite He; intros [? ?]; congruence). done. }
  destruct (decide (path = "")) as [->|Hp]; simpl; destruct (decide (name_of p = n)) as [<-|Hn].
  - by rewrite decide_True, lookup_delete_eq.
  - by rewrite lookup_delete_ne, decide_False by naive_solver.
  - by rewrite decide_True, lookup_insert_eq.
  - by rewrite lookup_insert_ne, decide_False by naive_solver.
Qed.

Lemma written_inv n op p : written n op = Some p → name_of p = n ∧ n ≠ "".
Proof.
  unfold written. destruct op as [[q|]|[q|] ?]; simpl; try done; case_decide; naive_solver.
Qed.

Lemma run_ops_names ops : names_ok (run_ops ops).
Proof.
  induction ops as [|op ops IH] using rev_ind; [intros n p Hp; cbn in Hp; by apply lookup_empty_Some in Hp|].
  rewrite run_ops_snoc. intros n p. rewrite step_pipelines.
  destruct (written n op) as [q|] eqn:Hw; [intros [= <-]; by eapply written_inv|apply IH].
Qed.

Lemma last_omap_snoc {A B} (f : A → option B) l x :
  last (omap f (l ++ [x])) = match f x with Some y => Some y | None => last (omap f l) end.
Proof.
  rewrite omap_app. cbn [omap list_omap]. destruct (f x); [apply last_snoc|by rewrite app_nil_r].
Qed.

(** after any writes a name resolves to the last definition registered
    under it, nil and unnamed definitions being ignored; its source is the last
    one recorded, which [Register] keeps and an empty path clears; the listing
    is sorted by name, without repetition, and holds exactly the definitions
    that resolve by their name, as many as are counted. *)
Theorem pipelines_correct (ops : list pipeline_op) :
  let r := run_ops ops in
  (∀ n, GetPipeline n r = last (omap (written n) ops)) ∧
  (∀ n, Source n r = default "" (last (omap (sourced n) ops))) ∧
  StronglySorted String.le ((λ p, name_of p) <$> List r) ∧ NoDup (List r) ∧
  (∀ p, p ∈ List r ↔ GetPipeline (name_of p) r = Some p) ∧ Count r = length (List r).
Proof.
  cbv zeta. pose proof (run_ops_names ops) as Hn. split; [|split].
  - intros n. unfold GetPipeline. induction ops as [|op ops IH] using rev_ind.
    { apply lookup_empty. }
    rewrite run_ops_snoc, step_pipelines, last_omap_snoc. destruct (written n op); [done|].
    apply IH, run_ops_names.
  - intros n. clear Hn. induction ops as [|op ops IH] using rev_ind; [done|].
    rewrite run_ops_snoc, step_Source, last_omap_snoc. by destruct (sourced n op).
  - unfold List. split; [apply StronglySorted_fmap, sort_by_sorted; apply _|].
    split; [|split].
    + rewrite sort_by_perm. apply NoDup_fmap_2_strong; [|apply NoDup_range].
      intros [n1 p1] [n2 p2] H1%elem_of_range H2%elem_of_range. simpl. intros <-.
      apply Hn in H1, H2. f_equal. by destruct H1 as [<- _], H2 as [<- _].
    + intros p. rewrite elem_of_sort_by, list_elem_of_fmap. unfold GetPipeline. split.
      * intros ([n q] & -> & H%elem_of_range). simpl. by destruct (Hn _ _ H) as [-> _].
      * intros H. exists (name_of p, p). split; [done|]. by apply elem_of_range.
    + rewrite sort_by_perm, length_fmap. done.
Qed.
End registry.
