(* ===== verification/GoChan.v ===== *)
(** Go channels: a bounded queue that can be closed. A send on a closed channel
    and a second close panic; these operations answer [None] then. *)

From S2P Require Import Prelude GoBase.

Record chan (A : Type) := mkChan { buf : list A; cap : Z; ch_closed : bool }.
Arguments mkChan {A} buf cap ch_closed.
Arguments buf {A} c.
Arguments cap {A} c.
Arguments ch_closed {A} c.

Section chan.
Context {A : Type}.
Implicit Types (c : chan A) (e : A).

(** [select { case ch <- e: default: }]: [Some None] takes the default case. *)
Definition try_send e c : option (option (chan A)) :=
  if ch_closed c then None
  else if decide (Z.of_nat (length (buf c)) < cap c)%Z
  then Some (Some (mkChan (buf c ++ [e]) (cap c) false))
  else Some None.

Definition close_chan c : option (chan A) :=
  if ch_closed c then None else Some (mkChan (buf c) (cap c) true).

(** A receive: [None] when there is nothing to receive. *)
Definition receive_chan c : option (A * chan A) :=
  match buf c with
  | [] => None
  | e :: es => Some (e, mkChan es (cap c) (ch_closed c))
  end.
End chan.

(** ** Pointers into a heap *)

Section heap.
Context {A : Type}.
Implicit Types (f : A → option A) (h : list A) (p : nat).

(** A change of what is behind a pointer, which can panic. *)
Definition on f h p : option (list A) := x ← h !! p; x ← f x; Some (<[p := x]> h).

Lemma on_length f h p h' : on f h p = Some h' → length h' = length h.
Proof.
  unfold on. destruct (h !! p) as [s|]; simpl; [|done]. destruct (f s); simpl; [|done].
  intros [= <-]. apply length_insert.
Qed.

Lemma fold_on f ps h :
  NoDup ps → (∀ p, p ∈ ps → is_Some (h !! p ≫= f)) →
  ∃ h', fold_opt (on f) ps h = Some h' ∧ length h' = length h ∧
    ∀ p, h' !! p = if decide (p ∈ ps) then h !! p ≫= f else h !! p.
Proof.
  intros Hnd. revert h. induction Hnd as [|p ps Hp Hnd IH]; intros h Hf; simpl.
  { by exists h. }
  destruct (Hf p) as [s' Hs']; [left|]. unfold on at 1.
  destruct (h !! p) as [s|] eqn:Hs; simpl in *; [|done]. rewrite Hs'. simpl.
  assert (p < length h) by (by eapply lookup_lt_Some).
  destruct (IH (<[p := s']> h)) as (h' & -> & Hlen & Hl).
  { intros q Hq. rewrite list_lookup_insert_ne by (by intros ->). apply Hf. by right. }
  exists h'. split; [done|]. rewrite length_insert in Hlen. split; [done|]. intros q. rewrite Hl.
  destruct (decide (q = p)) as [->|Hq].
  - rewrite (decide_True (P := p ∈ p :: ps)) by left. rewrite decide_False by done.
    rewrite list_lookup_insert_eq by done. by rewrite Hs.
  - rewrite list_lookup_insert_ne by done. apply decide_ext. rewrite elem_of_cons. naive_solver.
Qed.
End heap.
