(* ===== verification/LogBroadcaster.v ===== *)
(** The fan-out of interaction logs to live subscribers,
    [internal/server/log_broadcaster.go].

    A subscription is a pointer into [heap]; its channel is a bounded queue. A
    send on, or a close of, a closed channel panics, and so does a write to a nil
    map: the operations answer [None] then. The mutex makes each of them atomic. *)

From S2P Require Import Prelude GoBase GoChan.

(** [storage.InteractionLog]. *)
Record InteractionLog := mkInteractionLog {
  il_ID : Z;
  il_Timestamp : string;
  il_TenantID : string;
  il_AgentName : string;
  il_SessionID : string;
  il_Protocol : string;
  il_RequestMethod : string;
  il_RequestPath : string;
  il_RequestBody : string;
  il_ResponseStatus : Z;
  il_ResponseBody : string;
  il_LatencyMs : Z;
  il_ToolCallsCount : Z;
  il_Streaming : bool;
  il_Error : string;
  il_ScenarioName : string;
  il_Truncated : bool
}.

Record LogSubscription := mkLogSubscription {
  ch : chan InteractionLog;
  dropped : Z;        (* atomic.Uint64 *)
  sub_tenantID : string
}.

(** The pointers of the subscriptions, [None] for a nil map. *)
Record LogBroadcaster := mkLogBroadcaster {
  subscribers : option (gset nat);
  closed : bool
}.

Definition zero_broadcaster : LogBroadcaster := mkLogBroadcaster None false.

Definition active (b : LogBroadcaster) : gset nat := default ∅ (subscribers b).

Definition uint64_add (a b : Z) : Z := ((a + b) mod two64)%Z.

(** ** Operations *)

Definition set_ch (s : LogSubscription) (c : chan InteractionLog) : LogSubscription :=
  mkLogSubscription c (dropped s) (sub_tenantID s).

Definition C (s : LogSubscription)   : chan InteractionLog := ch s.

Definition Dropped (s : LogSubscription) : Z := dropped s.

Definition DefaultLogStreamBuffer : Z := 64.

Definition close_sub (s : LogSubscription) : option LogSubscription :=
  c ← close_chan (ch s); Some (set_ch s c).

Definition subscribe (buffer : Z) (tenantID : string) (b : LogBroadcaster)
    (heap : list LogSubscription) : option (LogBroadcaster * list LogSubscription * nat) :=
  let buffer := if decide (buffer ≤ 0)%Z then DefaultLogStreamBuffer else buffer in
  let sub := mkLogSubscription (mkChan [] buffer false) 0 tenantID in
  let p := length heap in
  if closed b then
    heap ← on close_sub (heap ++ [sub]) p; Some (b, heap, p)
  else
    let subs := match subscribers b with None => ∅ | Some subs => subs end in
    Some (mkLogBroadcaster (Some ({[p]} ∪ subs)) false, heap ++ [sub], p).

(** The [cancel] closure of a subscription. The one handed out after [Close]
    does nothing, as this one does for a pointer that is not in the map. *)
Definition cancel (p : nat) (b : LogBroadcaster) (heap : list LogSubscription)
  : option (LogBroadcaster * list LogSubscription) :=
  if decide (p ∈ active b) then
    heap ← on close_sub heap p;
    Some (mkLogBroadcaster ((λ s, s ∖ {[p]}) <$> subscribers b) (closed b), heap)
  else Some (b, heap).

Definition Subscribe (buffer : Z) := subscribe buffer "".

Definition SubscribeTenant (buffer : Z) (tenantID : string) := subscribe buffer tenantID.

(** The body of the loop of [Publish]. *)
Definition deliver (e : InteractionLog) (s : LogSubscription) : option LogSubscription :=
  if decide (sub_tenantID s ≠ "" ∧ il_TenantID e ≠ sub_tenantID s) then Some s
  else sent ← try_send e (ch s);
       match sent with
       | Some c => Some (set_ch s c)
       | None => Some (mkLogSubscription (ch s) (uint64_add (dropped s) 1) (sub_tenantID s))
       end.

Section operations.
Context {sr : SetRange}.

Definition Publish (b : option LogBroadcaster) (entry : option InteractionLog)
    (heap : list LogSubscription) : option (list LogSubscription) :=
  match b, entry with
  | Some b, Some e => fold_opt (on (deliver e)) (visit (active b)) heap
  | _, _ => Some heap
  end.

Definition Close (b : option LogBroadcaster) (heap : list LogSubscription)
  : option (option LogBroadcaster * list LogSubscription) :=
  match b with
  | None => Some (None, heap)
  | Some b =>
      if closed b then Some (Some b, heap)
      else heap ← fold_opt (on close_sub) (visit (active b)) heap;
           Some (Some (mkLogBroadcaster None true), heap)
  end.

Definition SubscriberCount (b : option LogBroadcaster) : nat :=
  match b with None => 0 | Some b => length (visit (active b)) end.

Record SubscriberSnapshot := mkSubscriberSnapshot {
  ss_Dropped : Z;
  ss_BufferCap : Z;
  ss_BufferLen : Z
}.

Record BroadcasterSnapshot := mkBroadcasterSnapshot {
  bs_SubscriberCount : nat;
  bs_TotalDropped : Z;
  bs_MaxDropped : Z;
  bs_Subscribers : list SubscriberSnapshot
}.

(** The comparison of the insertion sort. *)
Definition less (a b : SubscriberSnapshot) : bool :=
  (ss_Dropped a <? ss_Dropped b)%Z ||
  ((ss_Dropped a =? ss_Dropped b)%Z && (ss_BufferLen a <? ss_BufferLen b)%Z).

(** The inner loop, from index [j] down. *)
Fixpoint sift (j : nat) (s : list SubscriberSnapshot) : list SubscriberSnapshot :=
  match j with
  | O => s
  | S i =>
      match s !! i, s !! j with
      | Some a, Some b => if less a b then sift i (<[i := b]> (<[j := a]> s)) else s
      | _, _ => s
      end
  end.

Definition sortSubscriberSnapshots (s : list SubscriberSnapshot) : list SubscriberSnapshot :=
  foldl (λ s i, sift i s) s (seq 1 (length s - 1)).

Definition snap_sub (s : LogSubscription) : SubscriberSnapshot :=
  mkSubscriberSnapshot (dropped s) (cap (ch s)) (Z.of_nat (length (buf (ch s)))).

(** The body of the loop of [Snapshot]. *)
Definition snap_add (heap : list LogSubscription) (snap : BroadcasterSnapshot) (p : nat)
  : BroadcasterSnapshot :=
  match heap !! p with
  | None => snap
  | Some sub =>
      let d := dropped sub in
      mkBroadcasterSnapshot (bs_SubscriberCount snap) (uint64_add (bs_TotalDropped snap) d)
        (if decide (bs_MaxDropped snap < d)%Z then d else bs_MaxDropped snap)
        (bs_Subscribers snap ++ [snap_sub sub])
  end.

Definition Snapshot (b : option LogBroadcaster) (heap : list LogSubscription) : BroadcasterSnapshot :=
  match b with
  | None => mkBroadcasterSnapshot 0 0 0 []
  | Some b =>
      let subs := visit (active b) in
      let snap := foldl (snap_add heap) (mkBroadcasterSnapshot (length subs) 0 0 []) subs in
      mkBroadcasterSnapshot (bs_SubscriberCount snap) (bs_TotalDropped snap) (bs_MaxDropped snap)
        (sortSubscriberSnapshots (bs_Subscribers snap))
  end.
End operations.

(** ** Runs of a broadcaster *)

Inductive stream_op :=
| OpSubscribe (buffer : Z) (tenantID : string)
| OpCancel (p : nat)
| OpPublish (entry : option InteractionLog)
| OpReceive (p : nat)
| OpClose.

(** The state of a run; [received] is what the readers took, in order. *)
Record stream := mkStream {
  bc : LogBroadcaster;
  heap : list LogSubscription;
  received : list (nat * InteractionLog)
}.

Section runs.
Context {sr : SetRange}.

Definition stream_step (st : stream) (op : stream_op) : option stream :=
  match op with
  | OpSubscribe buffer t =>
      '(b, h, _) ← subscribe buffer t (bc st) (heap st); Some (mkStream b h (received st))
  | OpCancel p => '(b, h) ← cancel p (bc st) (heap st); Some (mkStream b h (received st))
  | OpPublish entry =>
      h ← Publish (Some (bc st)) entry (heap st); Some (mkStream (bc st) h (received st))
  | OpReceive p =>
      Some match heap st !! p ≫= λ s, receive_chan (ch s) with
           | None => st
           | Some (e, c) =>
               mkStream (bc st) (alter (λ s, set_ch s c) p (heap st)) (received st ++ [(p, e)])
           end
  | OpClose =>
      '(b, h) ← Close (Some (bc st)) (heap st);
      Some (mkStream (default zero_broadcaster b) h (received st))
  end.

Definition run_stream (ops : list stream_op) (st : stream) : option stream :=
  fold_opt stream_step ops st.

Definition received_by (p : nat) (st : stream) : list InteractionLog :=
  omap (λ pe, if decide (pe.1 = p) then Some pe.2 else None) (received st).

(** *** The specification: one bounded queue per subscriber *)

Record queue := mkQueue {
  q_delivered : list InteractionLog;
  q_pending : list InteractionLog;
  q_dropped : nat
}.

Inductive own_event := Offer (e : InteractionLog) | Take.

Definition queue_step (capacity : Z) (q : queue) (ev : own_event) : queue :=
  match ev with
  | Offer e =>
      if decide (Z.of_nat (length (q_pending q)) < capacity)%Z
      then mkQueue (q_delivered q) (q_pending q ++ [e]) (q_dropped q)
      else mkQueue (q_delivered q) (q_pending q) (S (q_dropped q))
  | Take =>
      match q_pending q with
      | [] => q
      | e :: es => mkQueue (q_delivered q ++ [e]) es (q_dropped q)
      end
  end.

Definition wanted (tenantID : string) (e : InteractionLog) : bool :=
  bool_decide (tenantID = "") || bool_decide (il_TenantID e = tenantID).

(** What an operation is to the subscriber [p], and whether it is still there. *)
Definition own_of (p : nat) (tenantID : string) (alive : bool) (op : stream_op)
  : list own_event * bool :=
  match op with
  | OpPublish (Some e) => (if alive && wanted tenantID e then [Offer e] else [], alive)
  | OpReceive q => (if decide (q = p) then [Take] else [], alive)
  | OpCancel q => ([], if decide (q = p) then false else alive)
  | OpClose => ([], false)
  | _ => ([], alive)
  end.

Fixpoint own_events (p : nat) (tenantID : string) (alive : bool) (ops : list stream_op)
  : list own_event :=
  match ops with
  | [] => []
  | op :: ops =>
      let '(evs, alive) := own_of p tenantID alive op in evs ++ own_events p tenantID alive ops
  end.

Definition offered (evs : list own_event) : list InteractionLog :=
  omap (λ ev, match ev with Offer e => Some e | Take => None end) evs.

Definition is_subscribe (op : stream_op) : bool :=
  match op with OpSubscribe _ _ => true | _ => false end.

Definition is_close (op : stream_op) : bool := match op with OpClose => true | _ => false end.

(** A queue delivers in order, loses only what it counts, and stays bounded. *)
Lemma queue_run capacity q evs :
  let q' := foldl (queue_step capacity) q evs in
  ∃ kept, q_delivered q' ++ q_pending q' = q_delivered q ++ q_pending q ++ kept ∧
    kept `sublist_of` offered evs ∧
    length (offered evs) + q_dropped q = length kept + q_dropped q' ∧
    (Z.of_nat (length (q_pending q)) ≤ capacity → Z.of_nat (length (q_pending q')) ≤ capacity)%Z.
Proof.
  revert q. induction evs as [|ev evs IH]; intros q; simpl.
  { exists []. rewrite app_nil_r. split_and!; [done|apply sublist_nil_l|done|done]. }
  destruct (IH (queue_step capacity q ev)) as (kept & Hk & Hsub & Hlen & Hcap).
  destruct ev as [e|]; simpl in *.
  - case_decide as Hd; simpl in *.
    + exists (e :: kept). rewrite Hk. simpl. rewrite <-!app_assoc.
      split_and!; [done|by apply sublist_skip|simpl; lia|]. intros _. apply Hcap.
      rewrite length_app. simpl. lia.
    + exists kept. split_and!; [done|by apply sublist_cons|lia|done].
  - destruct (q_pending q) as [|e es] eqn:Hp; simpl in *.
    + exists kept. rewrite Hp in Hk, Hcap. split_and!; [done|done|lia|done].
    + exists kept. rewrite Hk, <-app_assoc. split_and!; [done|done|lia|]. lia.
Qed.

(** *** Changing subscriptions *)

(** *** Well-formed streams *)

(** The map holds exactly the open channels, nothing after [Close], and nobody
    read from a subscription to come. *)
Record stream_wf (st : stream) : Prop := {
  wf_active p : p ∈ active (bc st) ↔ ∃ s, heap st !! p = Some s ∧ ch_closed (ch s) = false;
  wf_closed : closed (bc st) = true → active (bc st) = ∅;
  wf_received p : length (heap st) ≤ p → received_by p st = []
}.

Definition is_active (p : nat) (st : stream) : bool := bool_decide (p ∈ active (bc st)).

(** The subscription [s] of pointer [p] is at the state [q] of its queue. *)
Definition view (p : nat) (s : LogSubscription) (st : stream) (q : queue) : Prop :=
  received_by p st = q_delivered q ∧ buf (ch s) = q_pending q ∧
  dropped s = (Z.of_nat (q_dropped q) mod two64)%Z.

(** One operation is, for each subscription, a few steps of its queue. *)
Definition simulates (st : stream) (op : stream_op) (st' : stream) : Prop :=
  ∀ p s q, heap st !! p = Some s → view p s st q →
    let '(evs, alive) := own_of p (sub_tenantID s) (is_active p st) op in
    is_active p st' = alive ∧
    ∃ s', heap st' !! p = Some s' ∧ sub_tenantID s' = sub_tenantID s ∧
      cap (ch s') = cap (ch s) ∧ view p s' st' (foldl (queue_step (cap (ch s))) q evs).

Lemma received_by_snoc p q e st b h :
  received_by p (mkStream b h (received st ++ [(q, e)])) =
    received_by p st ++ (if decide (q = p) then [e] else []).
Proof. unfold received_by. simpl. rewrite omap_app. simpl. by case_decide. Qed.

Lemma deliver_inv e s s' :
  deliver e s = Some s' → sub_tenantID s' = sub_tenantID s ∧ cap (ch s') = cap (ch s) ∧
    ch_closed (ch s') = ch_closed (ch s).
Proof.
  unfold deliver, try_send. case_decide; [by intros [= <-]|].
  destruct (ch_closed (ch s)) eqn:Hc; simpl; [done|].
  case_decide; simpl; intros [= <-]; simpl; by rewrite ?Hc.
Qed.

Lemma deliver_open e s : ch_closed (ch s) = false → is_Some (deliver e s).
Proof.
  intros Hc. unfold deliver, try_send. rewrite Hc. case_decide; [by eexists|].
  simpl. case_decide; simpl; by eexists.
Qed.

Lemma deliver_view e p s s' st st' q :
  ch_closed (ch s) = false → deliver e s = Some s' → received st' = received st → view p s st q →
  view p s' st' (foldl (queue_step (cap (ch s))) q
    (if wanted (sub_tenantID s) e then [Offer e] else [])).
Proof.
  intros Hc Hd Hr (Hv1 & Hv2 & Hv3).
  assert (received_by p st' = received_by p st) as Hrp by (unfold received_by; by rewrite Hr).
  unfold deliver, try_send in Hd. rewrite Hc in Hd. unfold view. rewrite Hrp.
  destruct (decide (sub_tenantID s ≠ "" ∧ il_TenantID e ≠ sub_tenantID s)) as [Hn|Hn].
  - simplify_eq. unfold wanted. rewrite !bool_decide_false by tauto. done.
  - assert (wanted (sub_tenantID s) e = true) as ->.
    { unfold wanted. apply orb_true_iff. rewrite !bool_decide_eq_true.
      destruct (decide (sub_tenantID s = "")); [by left|].
      destruct (decide (il_TenantID e = sub_tenantID s)); [by right|tauto]. }
    simpl in *. rewrite <-Hv2. case_decide; simpl in *; simplify_eq/=; rewrite ?Hv2; [done|].
    split_and!; [done|done|]. unfold uint64_add. rewrite Hv3, Zplus_mod_idemp_l. f_equal. lia.
Qed.

Lemma close_sub_open s :
  ch_closed (ch s) = false →
  close_sub s = Some (set_ch s (mkChan (buf (ch s)) (cap (ch s)) true)).
Proof. intros Hc. unfold close_sub, close_chan. by rewrite Hc. Qed.

Lemma close_sub_inv s s' : close_sub s = Some s' →
  s' = set_ch s (mkChan (buf (ch s)) (cap (ch s)) true).
Proof. unfold close_sub, close_chan. destruct (ch_closed (ch s)); naive_solver. Qed.

Lemma zero_wf : stream_wf (mkStream zero_broadcaster [] []).
Proof. split; simpl; [|done..]. intros p. split; [done|]. by intros (s & ? & _). Qed.

Lemma publish_step st entry : stream_wf st →
  ∃ st', stream_step st (OpPublish entry) = Some st' ∧ stream_wf st' ∧ bc st' = bc st ∧
    length (heap st') = length (heap st) ∧ simulates st (OpPublish entry) st'.
Proof.
  intros Hwf. destruct entry as [e|]; cycle 1.
  { exists st. destruct st. split; [done|]. do 3 (split; [done|]). intros p s q Hs Hv. simpl.
    split; [done|]. by exists s. }
  destruct (fold_on (deliver e) (visit (active (bc st))) (heap st)) as (h & Hh & Hlen & Hl).
  { apply NoDup_visit. }
  { intros p Hp. apply elem_of_visit, (wf_active _ Hwf) in Hp as (s & Hs & Hc). rewrite Hs. simpl.
    by apply deliver_open. }
  assert (∀ p, h !! p = if decide (p ∈ active (bc st)) then heap st !! p ≫= deliver e
    else heap st !! p) as Hl' by (intros p; rewrite Hl; apply decide_ext, elem_of_visit).
  clear Hl. rename Hl' into Hl.
  exists (mkStream (bc st) h (received st)). unfold stream_step, Publish. rewrite Hh. simpl.
  split; [done|]. split; [|split; [done|split; [done|]]].
  - split; simpl; [|apply Hwf|rewrite Hlen; apply Hwf]. intros p. rewrite (wf_active _ Hwf), Hl.
    case_decide as Hp; [|done]. apply (wf_active _ Hwf) in Hp as (s & Hs & Hc). rewrite Hs. simpl.
    destruct (deliver_open e s Hc) as [s' Hs']. rewrite Hs'.
    pose proof (deliver_inv _ _ _ Hs') as (_ & _ & Hc'). naive_solver congruence.
  - intros p s q Hs Hv. simpl. split; [done|]. rewrite Hl, Hs. unfold is_active.
    case_decide as Hp; [rewrite bool_decide_true by done|rewrite bool_decide_false by done];
      simpl; [|by exists s].
    apply (wf_active _ Hwf) in Hp as (s0 & Hs0 & Hc). assert (s0 = s) as -> by congruence.
    destruct (deliver_open e s Hc) as [s' Hs']. exists s'. rewrite Hs'.
    pose proof (deliver_inv _ _ _ Hs') as (? & ? & _). split_and!; [done..|].
    by eapply (deliver_view e p s s' st).
Qed.

Lemma receive_step st r : stream_wf st →
  ∃ st', stream_step st (OpReceive r) = Some st' ∧ stream_wf st' ∧ bc st' = bc st ∧
    length (heap st') = length (heap st) ∧ simulates st (OpReceive r) st'.
Proof.
  intros Hwf. simpl. destruct (heap st !! r) as [s|] eqn:Hs; simpl; cycle 1.
  { exists st. split_and!; [done..|]. intros p s q Hp Hv. simpl. split; [done|].
    rewrite decide_False by (intros ->; congruence). by exists s. }
  unfold receive_chan. destruct (buf (ch s)) as [|e es] eqn:Hb.
  { exists st. split_and!; [done..|]. intros p s' q Hp Hv. simpl. split; [done|]. exists s'.
    split_and!; [done..|]. case_decide; [subst|done]. simpl.
    pose proof Hv as (_ & Hq & _). assert (s' = s) as -> by congruence. rewrite Hb in Hq.
    by rewrite <-Hq. }
  eexists. split; [done|]. split; [|split; [done|split; [simpl; by rewrite length_alter|]]].
  - split; simpl.
    + intros p. rewrite (wf_active _ Hwf). destruct (decide (r = p)) as [->|Hne].
      * rewrite list_lookup_alter_eq, Hs. simpl. naive_solver.
      * by rewrite list_lookup_alter_ne.
    + apply Hwf.
    + intros p Hp. rewrite length_alter in Hp. rewrite received_by_snoc.
      rewrite (wf_received _ Hwf) by done. apply lookup_lt_Some in Hs.
      by rewrite decide_False by lia.
  - intros p s' q Hp (Hv1 & Hv2 & Hv3). simpl. split; [done|]. destruct (decide (r = p)) as [->|Hne].
    + assert (s' = s) as -> by congruence. rewrite list_lookup_alter_eq, Hs. simpl.
      eexists. split; [done|]. split; [done|]. split; [done|]. rewrite Hb in Hv2. rewrite <-Hv2.
      unfold view. rewrite received_by_snoc, decide_True by done. simpl. by rewrite Hv1.
    + rewrite list_lookup_alter_ne by done. exists s'. split_and!; [done..|]. unfold view.
      rewrite received_by_snoc, decide_False, app_nil_r by done. done.
Qed.

(** Closing the channels of some pointers that are in the map. *)
Lemma closed_view p s st b h c : view p s st c →
  view p (set_ch s (mkChan (buf (ch s)) (cap (ch s)) true)) (mkStream b h (received st)) c.
Proof. intros (? & ? & ?). done. Qed.

Lemma cancel_step st r : stream_wf st →
  ∃ st', stream_step st (OpCancel r) = Some st' ∧ stream_wf st' ∧
    closed (bc st') = closed (bc st) ∧ length (heap st') = length (heap st) ∧
    simulates st (OpCancel r) st'.
Proof.
  intros Hwf. simpl. unfold cancel. case_decide as Hr; simpl; cycle 1.
  { exists st. destruct st as [b h rc]. split_and!; [done..|]. intros p s q Hp Hv. simpl.
    unfold is_active. simpl in *. split; [|by exists s]. case_decide; [subst|done].
    by apply bool_decide_eq_false. }
  pose proof Hr as (s & Hs & Hc)%(wf_active _ Hwf). unfold on. rewrite Hs. simpl.
  rewrite (close_sub_open _ Hc). simpl. eexists. split; [done|].
  assert (r < length (heap st)) as Hlt by (by eapply lookup_lt_Some).
  assert (∀ p, p ∈ default ∅ ((λ s, s ∖ {[r]}) <$> subscribers (bc st)) ↔
    p ≠ r ∧ p ∈ active (bc st)) as Hact.
  { intros p. unfold active. destruct (subscribers (bc st)); simpl; set_solver. }
  split; [|split; [done|split; [simpl; by rewrite length_insert|]]].
  - split; simpl.
    + intros p. unfold active at 1. simpl. rewrite Hact, (wf_active _ Hwf).
      destruct (decide (p = r)) as [->|Hne].
      * rewrite list_lookup_insert_eq by done. naive_solver.
      * rewrite list_lookup_insert_ne by done. tauto.
    + intros Hcl%(wf_closed _ Hwf). rewrite Hcl in Hr. set_solver.
    + rewrite length_insert. apply Hwf.
  - intros p s' q Hp Hv. simpl. unfold is_active. simpl. unfold active at 1. simpl. split.
    + case_decide as Hd; [apply bool_decide_eq_false; rewrite Hact; naive_solver|].
      apply bool_decide_ext. rewrite Hact. naive_solver.
    + destruct (decide (r = p)) as [->|Hne].
      * rewrite list_lookup_insert_eq by done. assert (s' = s) as -> by congruence.
        eexists. split_and!; [done..|]. by apply closed_view.
      * rewrite list_lookup_insert_ne by done. by exists s'.
Qed.

Lemma close_step st : stream_wf st →
  ∃ st', stream_step st OpClose = Some st' ∧ stream_wf st' ∧ closed (bc st') = true ∧
    length (heap st') = length (heap st) ∧ simulates st OpClose st'.
Proof.
  intros Hwf. simpl. destruct (closed (bc st)) eqn:Hc.
  { exists st. destruct st as [b h rc]. simpl in *. split_and!; [done..|].
    intros p s q Hp Hv. simpl. split; [|by exists s]. apply bool_decide_eq_false. simpl.
    pose proof (wf_closed _ Hwf Hc) as He. simpl in He. rewrite He. set_solver. }
  destruct (fold_on close_sub (visit (active (bc st))) (heap st)) as (h & Hh & Hlen & Hl).
  { apply NoDup_visit. }
  { intros p Hp. apply elem_of_visit, (wf_active _ Hwf) in Hp as (s & Hs & Ho). rewrite Hs. simpl.
    by rewrite close_sub_open. }
  rewrite Hh. simpl. eexists. split; [done|].
  assert (∀ p s, heap st !! p = Some s →
    h !! p = Some (set_ch s (mkChan (buf (ch s)) (cap (ch s)) true))) as Hl'.
  { intros p s Hs. rewrite Hl, Hs. simpl. case_decide as Hp.
    - apply elem_of_visit, (wf_active _ Hwf) in Hp as (s0 & Hs0 & Ho).
      rewrite close_sub_open; [done|congruence].
    - rewrite elem_of_visit, (wf_active _ Hwf) in Hp. f_equal. destruct s as [[bf cp [|]] d t]; [done|].
      naive_solver. }
  split; [|split; [done|split; [done|]]].
  - split; simpl; [|done|rewrite Hlen; apply Hwf]. intros p. split; [unfold active; simpl; set_solver|].
    intros (s & Hs & Ho). destruct (heap st !! p) as [s0|] eqn:Hs0.
    + rewrite (Hl' p s0 Hs0) in Hs. by simplify_eq.
    + apply lookup_lt_Some in Hs. apply lookup_ge_None in Hs0. lia.
  - intros p s q Hp Hv. simpl. split; [done|]. rewrite (Hl' _ _ Hp). eexists.
    split_and!; [done..|]. by apply closed_view.
Qed.

Definition new_capacity (buffer : Z) : Z :=
  if decide (buffer ≤ 0)%Z then DefaultLogStreamBuffer else buffer.

Lemma subscribe_step st buffer t : stream_wf st →
  ∃ st', stream_step st (OpSubscribe buffer t) = Some st' ∧ stream_wf st' ∧
    closed (bc st') = closed (bc st) ∧ length (heap st') = S (length (heap st)) ∧
    simulates st (OpSubscribe buffer t) st' ∧
    is_active (length (heap st)) st' = negb (closed (bc st)) ∧
    ∃ s, heap st' !! length (heap st) = Some s ∧ sub_tenantID s = t ∧
      cap (ch s) = new_capacity buffer ∧ view (length (heap st)) s st' (mkQueue [] [] 0).
Proof.
  intros Hwf. simpl. unfold subscribe. fold (new_capacity buffer).
  set (sub := mkLogSubscription (mkChan [] (new_capacity buffer) false) 0 t).
  set (n := length (heap st)). assert ((heap st ++ [sub]) !! n = Some sub) as Hn.
  { unfold n. by rewrite lookup_app_r, Nat.sub_diag by lia. }
  assert (∀ p s, (heap st ++ [sub]) !! p = Some s → p ≠ n → heap st !! p = Some s) as Hold.
  { intros p s Hp Hne. unfold n in Hne. apply lookup_app_Some in Hp as [?|[Hge Hp]]; [done|].
    destruct (p - length (heap st)) as [|k] eqn:Hk; [lia|done]. }
  assert (∀ p s, heap st !! p = Some s → p < n ∧ (heap st ++ [sub]) !! p = Some s) as Hkeep.
  { intros p s Hp. split; [by eapply lookup_lt_Some|]. by apply lookup_app_l_Some. }
  destruct (closed (bc st)) eqn:Hc.
  - unfold on. rewrite Hn. simpl. eexists. split; [done|].
    assert (∀ p s, heap st !! p = Some s → (<[n:=set_ch sub (mkChan [] (new_capacity buffer) true)]>
      (heap st ++ [sub])) !! p = Some s) as Hkeep'.
    { intros p s [Hlt Hp]%Hkeep. by rewrite list_lookup_insert_ne by lia. }
    split; [|split; [done|split; [|split; [|split]]]].
    + split; simpl; [|apply Hwf|].
      * intros p. rewrite (wf_active _ Hwf). destruct (decide (p = n)) as [->|Hne].
        -- rewrite list_lookup_insert_eq by (rewrite length_app; simpl; lia).
           split; intros (s & Hs & Ho); [apply Hkeep in Hs; lia|naive_solver].
        -- rewrite list_lookup_insert_ne by done. split; intros (s & Hs & Ho); exists s;
             (split; [|done]); [by apply Hkeep|by apply Hold].
      * intros p. rewrite length_insert, length_app. simpl. intros Hp. apply (wf_received _ Hwf). lia.
    + simpl. rewrite length_insert, length_app. simpl. unfold n. lia.
    + intros p s q Hp Hv. simpl. split; [done|]. exists s. by rewrite (Hkeep' _ _ Hp).
    + simpl. apply bool_decide_eq_false. simpl. by rewrite (wf_closed _ Hwf).
    + simpl. eexists. rewrite list_lookup_insert_eq by (rewrite length_app; simpl; lia).
      split_and!; [done..|]. split_and!; simpl; [by apply (wf_received _ Hwf)|done|done].
  - eexists. split; [done|]. simpl. fold (active (bc st)).
    assert (∀ p, p ∈ {[n]} ∪ active (bc st) ↔
      ∃ s, (heap st ++ [sub]) !! p = Some s ∧ ch_closed (ch s) = false) as Hact.
    { intros p. rewrite elem_of_union, elem_of_singleton, (wf_active _ Hwf). split.
      - intros [->|(s & Hs & Ho)]; [by exists sub|]. exists s. split; [|done]. by apply Hkeep.
      - intros (s & Hs & Ho). destruct (decide (p = n)); [by left|right]. exists s.
        split; [by apply Hold|done]. }
    split; [|split; [done|split; [|split; [|split]]]].
    + split; simpl; [done|done|]. intros p. rewrite length_app. simpl. intros Hp.
      apply (wf_received _ Hwf). lia.
    + rewrite length_app. simpl. unfold n. lia.
    + intros p s q Hp Hv. simpl. apply Hkeep in Hp as [Hlt Hp]. split; [|by exists s].
      apply bool_decide_ext. simpl. unfold active at 1. simpl. set_solver by lia.
    + apply bool_decide_eq_true. simpl. unfold active. simpl. set_solver.
    + exists sub. split_and!; [done..|]. split_and!; simpl; [by apply (wf_received _ Hwf)|done|done].
Qed.

(** *** Whole runs *)

Lemma step_total st op : stream_wf st →
  ∃ st', stream_step st op = Some st' ∧ stream_wf st' ∧
    closed (bc st') = closed (bc st) || is_close op ∧
    length (heap st') = length (heap st) + (if is_subscribe op then 1 else 0) ∧
    simulates st op st'.
Proof.
  intros Hwf. destruct op as [buffer t|p|entry|p|]; simpl is_close; simpl is_subscribe;
    rewrite ?orb_false_r, ?orb_true_r, ?Nat.add_0_r.
  - destruct (subscribe_step st buffer t Hwf) as (st' & ? & ? & ? & ? & ? & _).
    exists st'. split_and!; [done..|lia|done].
  - by apply cancel_step.
  - destruct (publish_step st entry Hwf) as (st' & ? & ? & Hb & ?). exists st'. by rewrite Hb.
  - destruct (receive_step st p Hwf) as (st' & ? & ? & Hb & ?). exists st'. by rewrite Hb.
  - by apply close_step.
Qed.

Lemma run_total st ops : stream_wf st →
  ∃ st', run_stream ops st = Some st' ∧ stream_wf st' ∧
    closed (bc st') = closed (bc st) || existsb is_close ops ∧
    length (heap st') = length (heap st) + length (filter is_subscribe ops).
Proof.
  revert st. induction ops as [|op ops IH]; intros st Hwf.
  { exists st. simpl. rewrite orb_false_r. split_and!; [done..|lia]. }
  destruct (step_total st op Hwf) as (st1 & H1 & Hwf1 & Hc1 & Hl1 & _).
  destruct (IH st1 Hwf1) as (st2 & H2 & Hwf2 & Hc2 & Hl2). exists st2. simpl.
  unfold run_stream in *. simpl. rewrite H1, H2, Hc2, Hc1, Hl2, Hl1, orb_assoc, filter_cons.
  split_and!; [done..|]. destruct (is_subscribe op); simpl; lia.
Qed.

Lemma run_simulates st ops p s q : stream_wf st → heap st !! p = Some s → view p s st q →
  ∃ st' s', run_stream ops st = Some st' ∧ heap st' !! p = Some s' ∧
    cap (ch s') = cap (ch s) ∧
    view p s' st' (foldl (queue_step (cap (ch s))) q
      (own_events p (sub_tenantID s) (is_active p st) ops)).
Proof.
  revert st s q. induction ops as [|op ops IH]; intros st s q Hwf Hs Hv; [by exists st, s|].
  destruct (step_total st op Hwf) as (st1 & H1 & Hwf1 & _ & _ & Hsim).
  specialize (Hsim p s q Hs Hv). simpl own_events.
  destruct (own_of p (sub_tenantID s) (is_active p st) op) as [evs alive].
  destruct Hsim as (<- & s1 & Hs1 & Ht1 & Hcap1 & Hv1).
  destruct (IH st1 s1 _ Hwf1 Hs1 Hv1) as (st2 & s2 & H2 & Hs2 & Hcap2 & Hv2).
  exists st2, s2. unfold run_stream in *. simpl. rewrite H1, foldl_app, <-Ht1, <-Hcap1.
  split_and!; [done..|congruence|]. by rewrite Hcap1 in *.
Qed.

Lemma run_stream_app ops1 ops2 st :
  run_stream (ops1 ++ ops2) st = run_stream ops1 st ≫= run_stream ops2.
Proof.
  unfold run_stream. revert st. induction ops1 as [|op ops1 IH]; intros st; simpl; [done|].
  destruct (stream_step st op); [apply IH|done].
Qed.

(** *** The snapshot *)

Definition not_less (a b : SubscriberSnapshot) : Prop := less a b = false.

#[global] Instance not_less_trans : Transitive not_less.
Proof. unfold not_less, less. intros a b c H1 H2. bool_prop. lia. Qed.

Lemma less_not_less a b : less a b = true → not_less b a.
Proof. unfold not_less, less. intros H. lia. Qed.

Lemma sift_correct pre x post : StronglySorted not_less pre →
  ∃ pre', sift (length pre) (pre ++ x :: post) = pre' ++ post ∧ pre' ≡ₚ x :: pre ∧
    StronglySorted not_less pre'.
Proof.
  revert x post. induction pre as [|a pre IH] using rev_ind; intros x post Hs.
  { exists [x]. split_and!; [done|done|]. repeat constructor. }
  apply StronglySorted_app in Hs as (Hall & Hpre & _).
  rewrite length_app, Nat.add_1_r, <-app_assoc. simpl.
  assert ((pre ++ a :: x :: post) !! length pre = Some a) as -> by (by apply list_lookup_middle).
  assert ((pre ++ a :: x :: post) !! S (length pre) = Some x) as ->.
  { rewrite lookup_app_r, Nat.sub_succ_l, Nat.sub_diag by lia. done. }
  destruct (less a x) eqn:Hlt.
  - assert (<[length pre:=x]> (<[S (length pre):=a]> (pre ++ a :: x :: post)) =
      pre ++ x :: a :: post) as ->.
    { replace (S (length pre)) with (length pre + 1) by lia. rewrite insert_app_r. simpl.
      replace (length pre) with (length pre + 0) at 1 by lia. by rewrite insert_app_r. }
    destruct (IH x (a :: post) Hpre) as (pre' & -> & Hp & Hs'). exists (pre' ++ [a]).
    split_and!; [by rewrite <-app_assoc| |].
    + by rewrite Hp.
    + apply StronglySorted_app. split_and!; [|done|repeat constructor].
      intros y z Hy ->%list_elem_of_singleton. rewrite Hp in Hy.
      apply elem_of_cons in Hy as [->|Hy]; [by apply less_not_less|]. apply Hall; set_solver.
  - exists (pre ++ [a; x]). split_and!; [by rewrite <-app_assoc| |].
    + rewrite (Permutation_app_comm pre [a; x]), (Permutation_app_comm pre [a]). simpl. by constructor.
    + apply StronglySorted_app. split_and!; [|done|repeat constructor; done].
      intros y z Hy Hz. assert (not_less y a) as Hya by (apply Hall; set_solver).
      assert (z = a ∨ z = x) as [->| ->] by set_solver; [done|]. by transitivity a.
Qed.

Lemma sort_snapshots_correct s :
  sortSubscriberSnapshots s ≡ₚ s ∧ StronglySorted not_less (sortSubscriberSnapshots s).
Proof.
  unfold sortSubscriberSnapshots.
  assert (∀ done rest, StronglySorted not_less done → 0 < length done →
    let s' := foldl (λ s i, sift i s) (done ++ rest) (seq (length done) (length rest)) in
    s' ≡ₚ done ++ rest ∧ StronglySorted not_less s') as Hloop.
  { intros dn rest. revert dn. induction rest as [|x rest IH]; intros dn Hs Hlen; simpl.
    { by rewrite app_nil_r. }
    destruct (sift_correct dn x rest Hs) as (pre & -> & Hp & Hs').
    assert (length pre = S (length dn)) as Hl by (by rewrite Hp).
    destruct (IH pre Hs') as [IH1 IH2]; [lia|]. rewrite Hl in IH1, IH2. split; [|done].
    rewrite IH1, Hp. simpl. by rewrite Permutation_middle. }
  destruct s as [|x s]; [simpl; split; [done|constructor]|].
  specialize (Hloop [x] s). simpl in *. rewrite Nat.sub_0_r. apply Hloop; [repeat constructor|lia].
Qed.

(** The channels that are open. *)
Definition open_subs (st : stream) : list LogSubscription :=
  filter (λ s, ch_closed (ch s) = false) (heap st).

Lemma filter_imap_snd {A} (P : A → Prop) `{∀ x, Decision (P x)} (l : list A) (f : nat → A → nat * A) :
  (∀ i x, (f i x).2 = x) → (filter (λ ix, P ix.2) (imap f l)).*2 = filter P l.
Proof.
  intros Hf. revert f Hf. induction l as [|x l IH]; intros f Hf; [done|].
  rewrite imap_cons, !filter_cons, Hf. specialize (IH (f ∘ S)).
  case_decide; [rewrite fmap_cons, Hf; f_equal|]; apply IH; intros; apply Hf.
Qed.

(** Reading the elements of a list that satisfy [P] through their indices. *)
Lemma omap_lookup_filter {A} (P : A → Prop) `{∀ x, Decision (P x)} (l : list A) (ps : list nat) :
  NoDup ps → (∀ p, p ∈ ps ↔ ∃ x, l !! p = Some x ∧ P x) →
  omap (λ p, l !! p) ps ≡ₚ filter P l.
Proof.
  intros Hnd Hps. set (pairs := filter (λ ix, P ix.2) (imap (λ i x, (i, x)) l)).
  assert (∀ i x, (i, x) ∈ pairs ↔ l !! i = Some x ∧ P x) as Hin.
  { intros i x. unfold pairs. rewrite list_elem_of_filter, elem_of_lookup_imap. simpl.
    split; [intros (? & j & y & [= <- <-] & ?); done|]. intros [? ?]. split; [done|by exists i, x]. }
  assert (NoDup pairs.*1) as Hnd'.
  { apply NoDup_fmap_2_strong.
    - intros [i x] [j y] [Hi _]%Hin [Hj _]%Hin. simpl. intros <-. congruence.
    - apply NoDup_filter, (NoDup_fmap_1 fst). rewrite fmap_imap.
      change (NoDup (imap (λ i _, i) l)). rewrite imap_seq_0, list_fmap_id. apply NoDup_seq. }
  assert (ps ≡ₚ pairs.*1) as ->.
  { apply NoDup_Permutation; [done..|]. intros p. rewrite Hps, list_elem_of_fmap. split.
    - intros (x & Hx). exists (p, x). split; [done|]. by apply Hin.
    - intros ([i x] & -> & Hx%Hin). by exists x. }
  rewrite <-(filter_imap_snd P l (λ i x, (i, x))) by done. fold pairs. clear Hnd' Hps.
  apply reflexive_eq. assert (∀ ix, ix ∈ pairs → l !! ix.1 = Some ix.2) as Hl.
  { intros [i x] [? _]%Hin. done. }
  clear Hin. induction pairs as [|[i x] pairs IH]; [done|]. csimpl.
  pose proof (Hl (i, x) ltac:(left)) as Hix. simpl in Hix. rewrite Hix. simpl. f_equal. apply IH. intros ix ?. apply Hl. by right.
Qed.

Lemma foldl_snap_add h ps snap : (∀ p, p ∈ ps → is_Some (h !! p)) →
  let subs := omap (λ p, h !! p) ps in
  foldl (snap_add h) snap ps =
    mkBroadcasterSnapshot (bs_SubscriberCount snap)
      (foldl uint64_add (bs_TotalDropped snap) (dropped <$> subs))
      (foldl Z.max (bs_MaxDropped snap) (dropped <$> subs))
      (bs_Subscribers snap ++ (snap_sub <$> subs)).
Proof.
  revert snap. induction ps as [|p ps IH]; intros snap Hp; simpl.
  { by destruct snap; rewrite app_nil_r. }
  rewrite IH by (intros q Hq; apply Hp; by right).
  destruct (Hp p) as [s Hs]; [left|]. unfold snap_add. csimpl. rewrite Hs. simpl.
  rewrite <-app_assoc. f_equal. f_equal. case_decide; lia.
Qed.

Lemma foldl_uint64_add z l : foldl uint64_add z l = ((z + foldr Z.add 0 l) mod two64)%Z ∨ l = [].
Proof.
  revert z. induction l as [|d l IH]; intros z; [by right|]. left. simpl.
  destruct (IH (uint64_add z d)) as [-> | ->].
  - unfold uint64_add. rewrite Zplus_mod_idemp_l. f_equal. lia.
  - simpl. unfold uint64_add. f_equal. lia.
Qed.

Lemma foldl_uint64_add_0 l : foldl uint64_add 0%Z l = (foldr Z.add 0 l mod two64)%Z.
Proof. by destruct (foldl_uint64_add 0 l) as [-> | ->]. Qed.

Lemma foldl_max_0 l : foldl Z.max 0%Z l = foldr Z.max 0%Z l.
Proof.
  assert (∀ z, (0 ≤ z)%Z → foldl Z.max z l = Z.max z (foldr Z.max 0%Z l)) as Hz.
  { induction l as [|d l IH]; intros z Hz; simpl; [lia|]. rewrite IH by lia. lia. }
  rewrite Hz by done. clear Hz. induction l as [|d l IH]; simpl; lia.
Qed.

Lemma active_subs st : stream_wf st →
  omap (λ p, heap st !! p) (visit (active (bc st))) ≡ₚ open_subs st ∧
  ∀ p, p ∈ visit (active (bc st)) → is_Some (heap st !! p).
Proof.
  intros Hwf. split.
  - apply omap_lookup_filter; [apply NoDup_visit|]. intros p.
    by rewrite elem_of_visit, (wf_active _ Hwf).
  - intros p Hp. apply elem_of_visit, (wf_active _ Hwf) in Hp as (s & -> & _). by eexists.
Qed.

Lemma foldr_add_perm l1 l2 : l1 ≡ₚ l2 → foldr Z.add 0%Z l1 = foldr Z.add 0%Z l2.
Proof. induction 1; simpl; lia. Qed.

Lemma foldr_max_perm l1 l2 : l1 ≡ₚ l2 → foldr Z.max 0%Z l1 = foldr Z.max 0%Z l2.
Proof. induction 1; simpl; lia. Qed.

(** C25: no run of subscriptions, cancellations, publications, reads and closes
    panics, and each subscription behaves as a bounded queue of its own: it is
    offered exactly the entries of its tenant (all entries when it has none)
    published while it is there, whatever other tenants publish and other readers
    do. It is delivered, in order and without repetition, entries it was offered;
    the ones it misses are those its full buffer refused, and the drop counter
    counts them; the buffer stays within its capacity. *)
Theorem subscriptions_are_queues (pre post : list stream_op) (buffer : Z) (tenantID : string) :
  let p := length (filter is_subscribe pre) in
  let evs := own_events p tenantID (negb (existsb is_close pre)) post in
  let q := foldl (queue_step (new_capacity buffer)) (mkQueue [] [] 0) evs in
  ∃ st s, run_stream (pre ++ OpSubscribe buffer tenantID :: post) (mkStream zero_broadcaster [] []) = Some st ∧
    heap st !! p = Some s ∧ view p s st q ∧
    received_by p st ++ buf (ch s) `sublist_of` offered evs ∧
    length (offered evs) = length (received_by p st ++ buf (ch s)) + q_dropped q ∧
    (Z.of_nat (length (buf (ch s))) ≤ new_capacity buffer)%Z.
Proof.
  cbv zeta. rewrite run_stream_app.
  destruct (run_total _ pre zero_wf) as (st1 & -> & Hwf1 & Hc1 & Hl1). simpl in Hl1, Hc1.
  destruct (subscribe_step st1 buffer tenantID Hwf1)
    as (st2 & H2 & Hwf2 & _ & _ & _ & Hact & s & Hs & Ht & Hcap & Hv).
  rewrite Hl1, Hc1 in *. simpl mbind. unfold run_stream. simpl fold_opt. simpl in H2. rewrite H2.
  destruct (run_simulates st2 post _ s _ Hwf2 Hs Hv) as (st3 & s3 & H3 & Hs3 & _ & Hv3).
  rewrite Ht, Hcap, Hact in Hv3. exists st3, s3. do 3 (split; [done|]).
  destruct (queue_run (new_capacity buffer) (mkQueue [] [] 0) (own_events
    (length (filter is_subscribe pre)) tenantID (negb (existsb is_close pre)) post))
    as (kept & Hk & Hsub & Hlen & Hbound).
  destruct Hv3 as (-> & -> & _). simpl in *. rewrite Hk. split_and!; [done|lia|].
  apply Hbound. unfold new_capacity, DefaultLogStreamBuffer. case_decide; lia.
Qed.

(** after any run, the snapshot counts the open subscriptions and describes
    each of them once, the worst offenders first (drops, then buffered entries,
    descending); its totals are the sum and the maximum of their drop counters. *)
Theorem Snapshot_correct (ops : list stream_op) :
  ∃ st, run_stream ops (mkStream zero_broadcaster [] []) = Some st ∧
    let snap := Snapshot (Some (bc st)) (heap st) in
    bs_SubscriberCount snap = length (open_subs st) ∧
    SubscriberCount (Some (bc st)) = length (open_subs st) ∧
    bs_Subscribers snap ≡ₚ (snap_sub <$> open_subs st) ∧
    StronglySorted not_less (bs_Subscribers snap) ∧
    bs_TotalDropped snap = (foldr Z.add 0 (dropped <$> open_subs st) mod two64)%Z ∧
    bs_MaxDropped snap = foldr Z.max 0%Z (dropped <$> open_subs st).
Proof.
  destruct (run_total _ ops zero_wf) as (st & -> & Hwf & _). exists st. split; [done|].
  destruct (active_subs st Hwf) as [Hperm Hsome]. cbv zeta. unfold Snapshot, SubscriberCount.
  rewrite foldl_snap_add by done. simpl. rewrite foldl_uint64_add_0, foldl_max_0.
  assert (length (visit (active (bc st))) = length (open_subs st)) as Hlen.
  { rewrite <-Hperm. clear Hperm Hwf. induction (visit _) as [|p ps IH]; [done|]. csimpl.
    destruct (Hsome p) as [s ->]; [left|]. simpl. f_equal. apply IH. intros. apply Hsome. by right. }
  split_and!; [done|done| | | |].
  - etransitivity; [apply sort_snapshots_correct|]. by rewrite Hperm.
  - apply sort_snapshots_correct.
  - f_equal. apply foldr_add_perm. by rewrite Hperm.
  - apply foldr_max_perm. by rewrite Hperm.
Qed.
End runs.

(** ** Examples *)


Definition entry_of (tenantID path : string) : InteractionLog :=
  mkInteractionLog 0 "" tenantID "" "" "" "" path "" 200 "" 0 0 false "" "" false.

(** A full buffer drops for its own tenant's traffic only. *)
Example ex_stream :
  let pub t p := OpPublish (Some (entry_of t p)) in
  let run := run_stream (sr := sorted_range)
    [OpSubscribe 1 "a"; OpSubscribe 0 ""; pub "a" "1"; pub "b" "2"; pub "a" "3"; OpReceive 0;
     pub "a" "4"; OpCancel 0; OpCancel 0; pub "a" "5"; OpClose; OpSubscribe 2 ""; pub "a" "6"]
    (mkStream zero_broadcaster [] []) in
  let show s := (il_RequestPath <$> buf (ch s), dropped s, ch_closed (ch s)) in
  (λ st, (show <$> heap st, il_RequestPath <$> received_by 0 st)) <$> run =
    Some ([(["4"], 1%Z, true); (["1"; "2"; "3"; "4"; "5"], 0%Z, true); ([], 0%Z, true)], ["1"])%string.
Proof. by vm_compute. Qed.
