(* ===== verification/GoFloat.v ===== *)
(** Exact arithmetic of small integers held in doubles, and the functions of
    Go's [math] package and of [time.Duration] the program uses. *)

From S2P Require Import Prelude GoBase.

(** ** Binary64 arithmetic is exact on integers below 2^53 *)

(** [m * 2^k]. *)
Definition dbl (k : nat) (m : positive) : positive := Nat.iter k xO m.

Lemma dbl_add j k m : dbl (j + k) m = dbl j (dbl k m).
Proof. apply Nat.iter_add. Qed.

Lemma dbl_S k m : dbl (S k) m = (dbl k m)~0%positive.
Proof. done. Qed.

Lemma dbl_Z k m : Z.pos (dbl k m) = (2 ^ Z.of_nat k * Z.pos m)%Z.
Proof.
  induction k as [|k IH]; [simpl; lia|].
  rewrite dbl_S, Pos2Z.inj_xO, IH, Nat2Z.inj_succ, Z.pow_succ_r by lia. lia.
Qed.

Lemma iter_dbl d m : Pos.iter xO m d = dbl (Pos.to_nat d) m.
Proof. apply Pos2Nat.inj_iter. Qed.

Definition digits (m : positive) : nat := Pos.to_nat (digits2_pos m).

Lemma digits_dbl k m : digits (dbl k m) = k + digits m.
Proof.
  induction k as [|k IH]; [done|]. rewrite dbl_S. unfold digits in *. simpl digits2_pos. lia.
Qed.

Lemma digits_Z k m : Z.pos (digits2_pos (dbl k m)) = Z.of_nat (k + digits m).
Proof. rewrite <-digits_dbl. unfold digits. lia. Qed.

Lemma digits_pos m : 1 ≤ digits m.
Proof. unfold digits. lia. Qed.

Lemma digits_lower m : (2 ^ (Z.of_nat (digits m) - 1) ≤ Z.pos m)%Z.
Proof.
  unfold digits. rewrite positive_nat_Z.
  induction m as [m IH|m IH|]; simpl digits2_pos; [..|done];
    rewrite Pos2Z.inj_succ; replace (Z.succ (Z.pos (digits2_pos m)) - 1)%Z
      with (Z.succ (Z.pos (digits2_pos m) - 1)) by lia;
    rewrite Z.pow_succ_r by lia; lia.
Qed.

Lemma digits_le m : (Z.pos m < 2 ^ 53)%Z → digits m ≤ 53.
Proof.
  intros Hm. pose proof (digits_lower m). apply Nat.lt_succ_r, Nat2Z.inj_lt.
  apply (Z.lt_sub_lt_add_r _ 53%Z 1%Z), (Z.pow_lt_mono_r_iff 2); lia.
Qed.

Lemma shr_dbl p k m :
  SpecFloat.iter_pos shr_1 p (Build_shr_record (Z.pos (dbl (Pos.to_nat p + k) m)) false false) =
    Build_shr_record (Z.pos (dbl k m)) false false.
Proof.
  revert k. induction p as [p IH|p IH|]; intros k.
  - replace (Pos.to_nat p~1 + k) with (S (Pos.to_nat p + (Pos.to_nat p + k))) by lia.
    rewrite dbl_S. cbn [SpecFloat.iter_pos shr_1 shr_m shr_r shr_s orb]. by rewrite !IH.
  - replace (Pos.to_nat p~0 + k) with (Pos.to_nat p + (Pos.to_nat p + k)) by lia.
    cbn [SpecFloat.iter_pos]. by rewrite !IH.
  - done.
Qed.

(** The double of a positive integer of at most 53 digits. *)
Definition f64_int (m : positive) : float64 :=
  S754_finite false (dbl (53 - digits m) m) (Z.of_nat (digits m) - 53).

Lemma fexp_small e : (-1074 + 53 ≤ e)%Z → fexp 53 1024 e = (e - 53)%Z.
Proof. unfold fexp, SpecFloat.emin. lia. Qed.

Lemma shr_fexp_pos m e p :
  (fexp 53 1024 (Z.pos (digits2_pos m) + e) - e = Z.pos p)%Z →
  shr_fexp 53 1024 (Z.pos m) e loc_Exact =
    (SpecFloat.iter_pos shr_1 p (Build_shr_record (Z.pos m) false false), e + Z.pos p)%Z.
Proof. intros H. unfold shr_fexp. simpl Zdigits2. by rewrite H. Qed.

Lemma shr_fexp_0 m e :
  (fexp 53 1024 (Z.pos (digits2_pos m) + e) - e = 0)%Z →
  shr_fexp 53 1024 (Z.pos m) e loc_Exact = (Build_shr_record (Z.pos m) false false, e).
Proof. intros H. unfold shr_fexp. simpl Zdigits2. by rewrite H. Qed.

Lemma round_full m e : digits m = 53 → (-1074 ≤ e ≤ 971)%Z →
  binary_round_aux 53 1024 false (Z.pos m) e loc_Exact = S754_finite false m e.
Proof.
  intros Hd He. assert (fexp 53 1024 (Z.pos (digits2_pos m) + e) - e = 0)%Z as Hz.
  { unfold digits in Hd. rewrite fexp_small; lia. }
  unfold binary_round_aux. rewrite shr_fexp_0 by done. simpl. rewrite shr_fexp_0 by done. simpl.
  by rewrite (proj2 (Z.leb_le _ _)) by lia.
Qed.

Lemma round_exact j m : digits m ≤ 53 → j ≤ 1000 →
  binary_round 53 1024 false (dbl j m) (- Z.of_nat j) = f64_int m.
Proof.
  intros Hd Hj. pose proof (digits_pos m). unfold binary_round, f64_int, shl_align.
  rewrite digits_Z, fexp_small by lia.
  destruct (Z.of_nat (j + digits m) + - Z.of_nat j - 53 - - Z.of_nat j)%Z as [|p|p] eqn:Hp.
  - replace (53 - digits m) with j by lia. rewrite round_full; [f_equal; lia|rewrite digits_dbl; lia|lia].
  - pose proof (round_full (dbl (53 - digits m) m) (Z.of_nat (digits m) - 53)) as <-;
      [|rewrite digits_dbl; lia|lia].
    assert (SpecFloat.iter_pos shr_1 p (Build_shr_record (Z.pos (dbl j m)) false false) =
      Build_shr_record (Z.pos (dbl (53 - digits m) m)) false false) as Hs.
    { replace j with (Pos.to_nat p + (53 - digits m)) by lia. apply shr_dbl. }
    unfold binary_round_aux. rewrite (shr_fexp_pos _ _ p), (shr_fexp_0 (dbl (53 - digits m) m)).
    + rewrite Hs. by replace (- Z.of_nat j + Z.pos p)%Z with (Z.of_nat (digits m) - 53)%Z by lia.
    + rewrite digits_Z, fexp_small; lia.
    + rewrite digits_Z, fexp_small; lia.
  - rewrite iter_dbl, <-dbl_add. replace (Pos.to_nat p + j) with (53 - digits m) by lia.
    rewrite round_full; [f_equal; lia|rewrite digits_dbl; lia|lia].
Qed.

Lemma f64_of_pos m : digits m ≤ 53 → f64_of_Z (Z.pos m) = f64_int m.
Proof. intros Hd. apply (round_exact 0); [done|lia]. Qed.

Lemma align_int m e : digits m ≤ 53 → (e ≤ Z.of_nat (digits m) - 53)%Z →
  (shl_align (dbl (53 - digits m) m) (Z.of_nat (digits m) - 53) e).1 = dbl (Z.to_nat (- e)) m.
Proof.
  intros Hd He. unfold shl_align.
  destruct (e - (Z.of_nat (digits m) - 53))%Z as [|p|p] eqn:Hp; [|lia|].
  - simpl. f_equal. lia.
  - simpl. rewrite iter_dbl, <-dbl_add. f_equal. lia.
Qed.

(** Taking one from a positive integer. *)
Lemma f64_sub_one n : (1 ≤ n < 2 ^ 53)%Z → f64_sub (f64_of_Z n) f64_one = f64_of_Z (n - 1).
Proof.
  intros Hn. destruct n as [|m|]; [lia| |lia]. assert (digits m ≤ 53) as Hd by (apply digits_le; lia).
  pose proof (digits_pos m). unfold f64_one. rewrite !f64_of_pos by (done || by vm_compute; lia).
  unfold f64_sub, SFsub, f64_int. change (digits 1) with 1.
  rewrite Z.min_r by lia. rewrite align_int by lia.
  pose proof (align_int 1 (Z.of_nat 1 - 53) ltac:(vm_compute; lia) ltac:(done)) as Ha.
  change (digits 1) with 1 in Ha. rewrite Ha. change (Z.to_nat (- (Z.of_nat 1 - 53))) with 52. unfold cond_Zopp. rewrite !dbl_Z.
  change (Z.of_nat 1 - 53)%Z with (-52)%Z.
  rewrite <-Z.mul_sub_distr_l. destruct (Z.pos m - 1)%Z as [|k|k] eqn:Hk; [done| |lia].
  rewrite <-dbl_Z. simpl binary_normalize. assert (digits k ≤ 53) by (apply digits_le; lia).
  rewrite f64_of_pos by done. apply (round_exact 52); [done|lia].
Qed.

Lemma f64_one_le n : (0 ≤ n < 2 ^ 53)%Z → f64_le f64_one (f64_of_Z n) = bool_decide (1 ≤ n)%Z.
Proof.
  intros Hn. destruct n as [|m|]; [done| |lia]. rewrite bool_decide_true by lia.
  assert (digits m ≤ 53) as Hd by (apply digits_le; lia). pose proof (digits_pos m).
  unfold f64_one. rewrite !f64_of_pos by (done || by vm_compute; lia).
  unfold f64_le, SFleb, SFcompare, f64_int. change (digits 1) with 1.
  destruct (Z.compare_spec (Z.of_nat 1 - 53) (Z.of_nat (digits m) - 53)) as [He|He|He];
    [|done|lia].
  assert (digits m = 1) as Hd1 by lia. assert (m = 1%positive) as ->; [|done].
  unfold digits in Hd1. destruct m as [m|m|]; simpl in Hd1; lia.
Qed.

(** ** [math] *)

Definition f64_is_nan (a : float64) : bool := match a with S754_nan => true | _ => false end.

(** [math.Max] and [math.Min]. *)
Definition f64_max (a b : float64) : float64 :=
  match a, b with
  | S754_infinity false, _ | _, S754_infinity false => S754_infinity false
  | S754_nan, _ | _, S754_nan => S754_nan
  | S754_zero s, S754_zero _ => if s then b else a
  | _, _ => if f64_lt b a then a else b
  end.

Definition f64_min (a b : float64) : float64 :=
  match a, b with
  | S754_infinity true, _ | _, S754_infinity true => S754_infinity true
  | S754_nan, _ | _, S754_nan => S754_nan
  | S754_zero s, S754_zero _ => if s then a else b
  | _, _ => if f64_lt a b then a else b
  end.

(** [Duration.Seconds]. *)
Definition Seconds (d : Z) : float64 :=
  f64_add (f64_of_Z (Z.quot d Second)) (f64_div (f64_of_Z (Z.rem d Second)) (f64_of_Z 1000000000)).

(** [math.Floor] and [math.Ceil]. A double whose exponent is not negative is an
    integer; the floor of another is below 2^53, hence exact. *)
Definition f64_floor (f : float64) : float64 :=
  match f with
  | S754_finite s m (Z.neg e) =>
      let z := ((if s then - Z.pos m else Z.pos m) / 2 ^ Z.pos e)%Z in
      if decide (z = 0)%Z then S754_zero s else f64_of_Z z
  | _ => f
  end.

Definition f64_opp (f : float64) : float64 := SFopp f.

Definition f64_ceil (f : float64) : float64 := f64_opp (f64_floor (f64_opp f)).

Example f64_ceil_cases :
  f64_ceil (f64_div (f64_of_Z 5) (f64_of_Z 2)) = f64_of_Z 3 ∧
  f64_ceil (f64_div (f64_of_Z (-5)) (f64_of_Z 2)) = f64_of_Z (-2) ∧
  f64_ceil (f64_of_Z 7) = f64_of_Z 7 ∧ f64_floor (f64_div (f64_of_Z (-1)) (f64_of_Z 2)) = f64_of_Z (-1).
Proof. by vm_compute. Qed.
