(* ===== verification/FloatOrder.v ===== *)
(** Order and rounding of doubles. Rounding to nearest, ties to even, is monotone, so a
    product or a sum of doubles that are not negative grows with its arguments: the range
    of a computation is found by evaluating it at its ends.

    A double that is not negative denotes an integer, its value in units of 2^-2200. *)

From S2P Require Import Prelude GoBase GoFloat.

#[local] Open Scope Z_scope.

(** ** Rounding to a multiple of a power of two *)

Definition rnd_at (n M : Z) : Z :=
  let q := M / 2 ^ n in
  match 2 * (M mod 2 ^ n) ?= 2 ^ n with
  | Lt => q
  | Eq => if Z.even q then q else q + 1
  | Gt => q + 1
  end.

Lemma rnd_at_between n M : M / 2 ^ n ≤ rnd_at n M ≤ M / 2 ^ n + 1.
Proof. unfold rnd_at. case_match; [case_match|..]; lia. Qed.

Lemma rnd_at_mono n M N : 0 ≤ n → M ≤ N → rnd_at n M ≤ rnd_at n N.
Proof.
  intros Hn HMN. assert (0 < 2 ^ n) as Hp by (apply Z.pow_pos_nonneg; lia).
  pose proof (Z.div_le_mono M N (2 ^ n) Hp HMN) as Hq.
  destruct (decide (M / 2 ^ n = N / 2 ^ n)) as [He|Hne];
    [|pose proof (rnd_at_between n M); pose proof (rnd_at_between n N); lia].
  pose proof (Z.div_mod M (2 ^ n)). pose proof (Z.div_mod N (2 ^ n)).
  unfold rnd_at. rewrite He in *.
  destruct (Z.compare_spec (2 * (M mod 2 ^ n)) (2 ^ n)), (Z.compare_spec (2 * (N mod 2 ^ n)) (2 ^ n));
    try lia; case_match; lia.
Qed.

Lemma rnd_at_exact n q : 0 ≤ n → rnd_at n (q * 2 ^ n) = q.
Proof.
  intros Hn. assert (0 < 2 ^ n) as Hp by (apply Z.pow_pos_nonneg; lia).
  unfold rnd_at. rewrite Z.div_mul, Z.mod_mul by lia.
  destruct (Z.compare_spec (2 * 0) (2 ^ n)); lia.
Qed.

Lemma rnd_at_scale n k M : 0 ≤ n → 0 ≤ k → rnd_at (n + k) (M * 2 ^ k) = rnd_at n M.
Proof.
  intros Hn Hk. assert (0 < 2 ^ n) as Hpn by (apply Z.pow_pos_nonneg; lia).
  assert (0 < 2 ^ k) as Hpk by (apply Z.pow_pos_nonneg; lia).
  unfold rnd_at. rewrite Z.pow_add_r by lia.
  rewrite Z.div_mul_cancel_r, Zmult_mod_distr_r by lia.
  destruct (Z.compare_spec (2 * (M mod 2 ^ n * 2 ^ k)) (2 ^ n * 2 ^ k)), (Z.compare_spec (2 * (M mod 2 ^ n)) (2 ^ n));
    try done; exfalso; nia.
Qed.

(** ** The double nearest to a value *)

(** The grid of the doubles around [N]: 53 digits, and none below 2^-1074. *)
Definition grid (N : Z) : Z := Z.max (Z.log2 N - 52) 1126.

Definition nearest (N : Z) : Z := rnd_at (grid N) N * 2 ^ grid N.

Lemma grid_below N : 0 < N → N < 2 ^ (53 + grid N).
Proof.
  intros HN. apply Z.lt_le_trans with (2 ^ Z.succ (Z.log2 N)); [by apply Z.log2_spec|].
  apply Z.pow_le_mono_r; unfold grid; lia.
Qed.

Lemma nearest_mono M N : 0 < M → M ≤ N → nearest M ≤ nearest N.
Proof.
  intros HM HMN. assert (Z.log2 M ≤ Z.log2 N) as Hlog by (by apply Z.log2_le_mono).
  destruct (decide (grid M = grid N)) as [He|Hne].
  { unfold nearest. rewrite He. apply Z.mul_le_mono_nonneg_r; [lia|]. apply rnd_at_mono; unfold grid; lia. }
  assert (grid M < grid N ∧ grid N = Z.log2 N - 52) as [Hlt HN] by (unfold grid in *; lia).
  assert (0 ≤ grid M) as Hg by (unfold grid; lia).
  transitivity (2 ^ (53 + grid M)).
  - unfold nearest. rewrite Z.pow_add_r by lia. apply Z.mul_le_mono_nonneg_r; [lia|].
    rewrite <-(rnd_at_exact (grid M) (2 ^ 53)) by done. apply rnd_at_mono; [done|].
    rewrite <-Z.pow_add_r by lia. apply Z.lt_le_incl, grid_below. done.
  - transitivity (2 ^ (52 + grid N)); [apply Z.pow_le_mono_r; lia|].
    unfold nearest. rewrite Z.pow_add_r by lia. apply Z.mul_le_mono_nonneg_r; [lia|].
    rewrite <-(rnd_at_exact (grid N) (2 ^ 52)) by lia. apply rnd_at_mono; [lia|].
    rewrite <-Z.pow_add_r by lia. replace (52 + grid N) with (Z.log2 N) by lia. apply Z.log2_spec. lia.
Qed.

(** ** What a double denotes *)

Definition scaled (m : positive) (e : Z) : Z := Z.pos m * 2 ^ (e + 2200).

(** [f] is not negative, not infinite, below 2^(b+53), and denotes [N]. *)
Definition denotes (b : Z) (f : float64) (N : Z) : Prop :=
  match f with
  | S754_zero false => N = 0
  | S754_finite false m e => f64_valid f ∧ e ≤ b ∧ N = scaled m e
  | _ => False
  end.

Lemma digits2_log2 m : Z.pos (digits2_pos m) = Z.log2 (Z.pos m) + 1.
Proof.
  assert (Z.log2 (Z.pos m) = Z.pos (digits2_pos m) - 1); [|lia]. apply Z.log2_unique; [lia|].
  replace (Z.succ (Z.pos (digits2_pos m) - 1)) with (Z.pos (digits2_pos m)) by lia.
  split; [|apply digits2_pos_bound]. pose proof (digits_lower m) as H. unfold digits in H.
  by rewrite positive_nat_Z in H.
Qed.

Lemma f64_valid_finite m e : f64_valid (S754_finite false m e) ↔
  e = Z.max (Z.log2 (Z.pos m) - 52 + e) (-1074) ∧ e ≤ 971.
Proof.
  unfold f64_valid, valid_binary, bounded, canonical_mantissa, fexp, SpecFloat.emin.
  rewrite digits2_log2, andb_true_iff, Z.eqb_eq, Z.leb_le. lia.
Qed.

Lemma log2_scaled m e : -2200 ≤ e → Z.log2 (scaled m e) = Z.log2 (Z.pos m) + (e + 2200).
Proof. intros He. unfold scaled. rewrite Z.log2_mul_pow2 by lia. lia. Qed.

Lemma nearest_valid m e : f64_valid (S754_finite false m e) → nearest (scaled m e) = scaled m e.
Proof.
  intros [He _]%f64_valid_finite. assert (-1074 ≤ e) as Hm by lia.
  assert (grid (scaled m e) = e + 2200) as Hg by (unfold grid; rewrite log2_scaled by lia; lia).
  unfold nearest. rewrite Hg. unfold scaled. rewrite rnd_at_exact by lia. done.
Qed.

Lemma scaled_pos m e : -2200 ≤ e → 0 < scaled m e.
Proof. intros He. unfold scaled. assert (0 < 2 ^ (e + 2200)) by (apply Z.pow_pos_nonneg; lia). lia. Qed.

Lemma valid_lt m e m' e' : f64_valid (S754_finite false m e) → f64_valid (S754_finite false m' e') →
  e < e' → scaled m e < scaled m' e'.
Proof.
  intros [He _]%f64_valid_finite [He' _]%f64_valid_finite Hlt.
  apply Z.lt_le_trans with (2 ^ (Z.log2 (Z.pos m) + (e + 2200) + 1)).
  - rewrite <-log2_scaled by lia. apply Z.log2_spec, scaled_pos. lia.
  - transitivity (2 ^ (Z.log2 (Z.pos m') + (e' + 2200))); [apply Z.pow_le_mono_r; lia|].
    rewrite <-log2_scaled by lia. apply Z.log2_spec, scaled_pos. lia.
Qed.

(** The order of the doubles is the order of what they denote. *)
Lemma denotes_compare b c f g M N : denotes b f M → denotes c g N → SFcompare f g = Some (M ?= N).
Proof.
  destruct f as [[]|[]| |[] m e], g as [[]|[]| |[] m' e']; try done; cbn [denotes SFcompare].
  - by intros -> ->.
  - intros -> ([He _]%f64_valid_finite & _ & ->). f_equal. symmetry. apply Z.compare_lt_iff, scaled_pos. lia.
  - intros ([He _]%f64_valid_finite & _ & ->) ->. f_equal. symmetry. apply Z.compare_gt_iff, scaled_pos. lia.
  - intros (Hv & _ & ->) (Hv' & _ & ->). change (Pos.compare_cont Eq) with Pos.compare. f_equal. symmetry.
    destruct (Z.compare_spec e e') as [->|Hlt|Hlt].
    + unfold scaled. apply f64_valid_finite in Hv as [Hv _].
      assert (0 < 2 ^ (e' + 2200)) by (apply Z.pow_pos_nonneg; lia).
      by rewrite <-Zmult_compare_compat_r by lia.
    + by apply Z.compare_lt_iff, valid_lt.
    + by apply Z.compare_gt_iff, valid_lt.
Qed.

Lemma denotes_le b c f g M N : denotes b f M → denotes c g N → f64_le f g = true ↔ M ≤ N.
Proof.
  intros Hf Hg. unfold f64_le, SFleb. rewrite (denotes_compare b c f g M N) by done.
  by destruct (Z.compare_spec M N); split; try done; lia.
Qed.

Lemma denotes_lt b c f g M N : denotes b f M → denotes c g N → f64_lt f g = true ↔ M < N.
Proof.
  intros Hf Hg. unfold f64_lt, SFltb. rewrite (denotes_compare b c f g M N) by done.
  by destruct (Z.compare_spec M N); split; try done; lia.
Qed.

(** ** Rounding computes the nearest double *)

(** A right shift keeps what it drops in two bits: the first bit dropped, and whether
    another one was set. *)
Definition shifted (n M : Z) (r : shr_record) : Prop :=
  let rem := M mod 2 ^ n in
  shr_m r = M / 2 ^ n ∧ shr_r r = bool_decide (2 ^ n ≤ 2 * rem) ∧
  shr_s r = bool_decide (rem ≠ 0 ∧ 2 * rem ≠ 2 ^ n).

Lemma shr_1_halves r : 0 ≤ shr_m r →
  shr_1 r = Build_shr_record (shr_m r / 2) (Z.odd (shr_m r)) (shr_r r || shr_s r).
Proof. destruct r as [[|[p|p|]|p] r s]; cbn [shr_m]; intros Hm; try done; by rewrite <-Z.div2_div. Qed.

Lemma shifted_step n M r : 0 ≤ n → 0 ≤ M → shifted n M r → shifted (n + 1) M (shr_1 r).
Proof.
  intros Hn HM (Hm & Hr & Hs). assert (0 < 2 ^ n) as Hp by (apply Z.pow_pos_nonneg; lia).
  pose proof (Z.mod_pos_bound M (2 ^ n) Hp). assert (0 ≤ M / 2 ^ n) as Hq by (apply Z.div_pos; lia).
  rewrite shr_1_halves by lia. unfold shifted. cbn [shr_m shr_r shr_s].
  rewrite Hm, Hr, Hs, Z.pow_add_r, Z.pow_1_r, <-Z.div_div, Z.rem_mul_r by lia.
  rewrite Zodd_mod. pose proof (Z.mod_pos_bound (M / 2 ^ n) 2 ltac:(lia)).
  assert ((M / 2 ^ n) mod 2 = 0 ∨ (M / 2 ^ n) mod 2 = 1) as [Hb|Hb] by lia; rewrite Hb.
  all: split; [done|]; split; [symmetry|].
  1, 3: apply bool_decide_eq_false || apply bool_decide_eq_true; lia.
  all: rewrite <-bool_decide_or; apply bool_decide_ext; lia.
Qed.

Lemma shifted_iter p n M r : 0 ≤ n → 0 ≤ M → shifted n M r →
  shifted (n + Z.pos p) M (SpecFloat.iter_pos shr_1 p r).
Proof.
  revert n r. induction p as [p IH|p IH|]; intros n r Hn HM Hr; cbn [SpecFloat.iter_pos].
  - replace (n + Z.pos p~1) with (n + 1 + Z.pos p + Z.pos p) by lia.
    apply IH; [lia|done|]. apply IH; [lia|done|]. by apply shifted_step.
  - replace (n + Z.pos p~0) with (n + Z.pos p + Z.pos p) by lia. apply IH; [lia|done|]. by apply IH.
  - by apply shifted_step.
Qed.

Lemma shifted_rounds n M r : 0 ≤ n → shifted n M r →
  round_nearest_even (shr_m r) (loc_of_shr_record r) = rnd_at n M.
Proof.
  intros Hn (Hm & Hr & Hs). assert (0 < 2 ^ n) as Hp by (apply Z.pow_pos_nonneg; lia).
  pose proof (Z.mod_pos_bound M (2 ^ n) Hp). destruct r as [m r s]. cbn [shr_m shr_r shr_s] in *. subst m r s.
  unfold rnd_at. destruct (Z.compare_spec (2 * (M mod 2 ^ n)) (2 ^ n));
    repeat case_bool_decide; cbn [loc_of_shr_record round_nearest_even]; try lia; done.
Qed.

Section formats.
Context (prec emax : Z) (Hprec : 1 < prec).

Lemma shr_fexp_exact m e : let n := Z.max 0 (fexp prec emax (Z.pos (digits2_pos m) + e) - e) in
  ∃ r, shr_fexp prec emax (Z.pos m) e loc_Exact = (r, e + n) ∧ shifted n (Z.pos m) r.
Proof.
  unfold shr_fexp, Zdigits2. cbv zeta. destruct (fexp _ _ _ - e) as [|p|p]; cbn [shr shr_record_of_loc].
  - eexists. split; [f_equal; lia|]. unfold shifted. rewrite Z.div_1_r, Z.mod_1_r. done.
  - eexists. split; [done|]. rewrite Z.max_r by lia. apply (shifted_iter p 0); [done|done|].
    unfold shifted. rewrite Z.div_1_r, Z.mod_1_r. done.
  - eexists. split; [f_equal; lia|]. unfold shifted. rewrite Z.div_1_r, Z.mod_1_r. done.
Qed.

Lemma fexp_log2 m e : fexp prec emax (Z.pos (digits2_pos m) + e) =
  Z.max (Z.log2 (Z.pos m) + 1 - prec + e) (SpecFloat.emin prec emax).
Proof. unfold fexp. rewrite digits2_log2. lia. Qed.

(** The mantissa after the first shift has at most [prec] digits, or is the power of two
    above them; it has exactly [prec] unless the exponent is the smallest. *)
Lemma rounded_range m e E : E = fexp prec emax (Z.pos (digits2_pos m) + e) → e ≤ E →
  0 ≤ rnd_at (E - e) (Z.pos m) ≤ 2 ^ prec ∧
  (SpecFloat.emin prec emax < E → 2 ^ (prec - 1) ≤ rnd_at (E - e) (Z.pos m)).
Proof.
  intros HE He. rewrite fexp_log2 in HE. split; [split|].
  - rewrite <-(rnd_at_exact (E - e) 0) by lia. apply rnd_at_mono; lia.
  - rewrite <-(rnd_at_exact (E - e) (2 ^ prec)) by lia. apply rnd_at_mono; [lia|].
    rewrite <-Z.pow_add_r by lia. apply Z.le_trans with (2 ^ (Z.log2 (Z.pos m) + 1)).
    + apply Z.lt_le_incl, Z.log2_spec. lia.
    + apply Z.pow_le_mono_r; lia.
  - intros Hn. rewrite <-(rnd_at_exact (E - e) (2 ^ (prec - 1))) by lia. apply rnd_at_mono; [lia|].
    rewrite <-Z.pow_add_r by lia. replace (prec - 1 + (E - e)) with (Z.log2 (Z.pos m)) by lia. by apply Z.log2_spec.
Qed.

Lemma canonical_log2 m e : canonical_mantissa prec emax m e = true ↔
  e = Z.max (Z.log2 (Z.pos m) + 1 - prec + e) (SpecFloat.emin prec emax).
Proof. unfold canonical_mantissa. rewrite fexp_log2, Z.eqb_eq. lia. Qed.

(** Rounding an exact value: a canonical mantissa, that may carry into the exponent. *)
Lemma round_shape s m e E : E = fexp prec emax (Z.pos (digits2_pos m) + e) → e ≤ E →
  let M := rnd_at (E - e) (Z.pos m) in
  M = 0 ∧ binary_round_aux prec emax s (Z.pos m) e loc_Exact = S754_zero s ∨
  ∃ m' e', E ≤ e' ≤ E + 1 ∧ Z.pos m' * 2 ^ (e' - E) = M ∧ canonical_mantissa prec emax m' e' = true ∧
    binary_round_aux prec emax s (Z.pos m) e loc_Exact =
      if e' <=? emax - prec then S754_finite s m' e' else S754_infinity s.
Proof.
  intros HE He. cbv zeta. destruct (rounded_range m e E HE He) as [Hub Hlb].
  destruct (shr_fexp_exact m e) as (r & Hshr & Hr). rewrite <-HE in Hshr, Hr. rewrite Z.max_r in Hshr, Hr by lia.
  unfold binary_round_aux. rewrite Hshr, (shifted_rounds (E - e) (Z.pos m)) by (lia || done).
  replace (e + (E - e)) with E by lia. clear Hshr Hr r. rewrite fexp_log2 in HE.
  assert (SpecFloat.emin prec emax ≤ E) as Hmin by lia.
  destruct (rnd_at (E - e) (Z.pos m)) as [|p|p]; [left; split; [done|]|right|lia].
  { unfold shr_fexp. cbn [Zdigits2]. unfold fexp. by destruct (_ - E) as [|q|q] eqn:Hq; [|lia|]. }
  destruct (shr_fexp_exact p E) as (r & Hshr & Hm & _). rewrite Hshr, Hm, !fexp_log2.
  destruct (decide (Z.pos p = 2 ^ prec)) as [Hc|Hc].
  - assert (Z.log2 (Z.pos p) = prec) as Hlog by (rewrite Hc; apply Z.log2_pow2; lia). rewrite Hlog.
    replace (Z.max 0 _) with 1 by lia.
    assert (Z.pos p / 2 ^ 1 = 2 ^ (prec - 1)) as Hh.
    { rewrite Hc. replace prec with (prec - 1 + 1) at 1 by lia. rewrite Z.pow_add_r by lia. apply Z.div_mul. done. }
    assert (0 < 2 ^ (prec - 1)) as Hp by (apply Z.pow_pos_nonneg; lia).
    rewrite Hh. destruct (2 ^ (prec - 1)) as [|q|q] eqn:Hq; [lia| |lia].
    assert (Z.log2 (Z.pos q) = prec - 1) as Hlq by (rewrite <-Hq; apply Z.log2_pow2; lia).
    exists q, (E + 1). split; [lia|]. split; [|split; [|done]].
    + replace (E + 1 - E) with 1 by lia. rewrite <-Hq, <-Z.pow_add_r by lia. rewrite Hc. f_equal. lia.
    + apply canonical_log2. lia.
  - assert (Z.log2 (Z.pos p) < prec) as Hlog by (apply Z.log2_lt_pow2; lia).
    replace (Z.max 0 _) with 0 by lia. rewrite Z.div_1_r, Z.add_0_r. exists p, E.
    split; [lia|]. split; [rewrite Z.sub_diag; lia|]. split; [|done]. apply canonical_log2.
    destruct (decide (E = SpecFloat.emin prec emax)); [lia|]. assert (prec - 1 ≤ Z.log2 (Z.pos p)); [|lia].
    apply Z.log2_le_pow2; lia.
Qed.

Lemma round_aux_valid s m e : e ≤ fexp prec emax (Z.pos (digits2_pos m) + e) →
  valid_binary prec emax (binary_round_aux prec emax s (Z.pos m) e loc_Exact) = true.
Proof.
  intros He. destruct (round_shape s m e _ eq_refl He) as [[_ ->]|(m' & e' & _ & _ & Hc & ->)]; [done|].
  destruct (e' <=? emax - prec) eqn:Hle; [|done]. cbn [valid_binary]. unfold bounded. by rewrite Hc, Hle.
Qed.

Lemma binary_round_valid s m e : valid_binary prec emax (binary_round prec emax s m e) = true.
Proof.
  unfold binary_round, shl_align. destruct (fexp prec emax (Z.pos (digits2_pos m) + e) - e) as [|p|p] eqn:Hp.
  1, 2: apply round_aux_valid; lia.
  apply round_aux_valid. rewrite iter_dbl, digits_Z.
  replace (Z.of_nat (Pos.to_nat p + digits m) + fexp prec emax (Z.pos (digits2_pos m) + e))
    with (Z.pos (digits2_pos m) + e) by (unfold digits; lia). done.
Qed.

End formats.

(** The result of an operation whose exact value is [m * 2^e]. *)
Lemma round_denotes m e : let E := fexp 53 1024 (Z.pos (digits2_pos m) + e) in
  -2200 ≤ e ≤ E → E ≤ 900 →
  denotes (E + 1) (binary_round_aux 53 1024 false (Z.pos m) e loc_Exact) (nearest (scaled m e)).
Proof.
  intros E He HE. pose proof (fexp_log2 53 1024 m e) as HEq. fold E in HEq.
  change (SpecFloat.emin 53 1024) with (-1074) in HEq.
  assert (nearest (scaled m e) = rnd_at (E - e) (Z.pos m) * 2 ^ (E + 2200)) as ->.
  { unfold nearest. replace (grid (scaled m e)) with (E + 2200) by (unfold grid; rewrite log2_scaled by lia; lia).
    unfold scaled. replace (E + 2200) with (E - e + (e + 2200)) at 1 by lia. by rewrite rnd_at_scale by lia. }
  destruct (round_shape 53 1024 ltac:(lia) false m e E eq_refl ltac:(lia))
    as [[-> ->]|(m' & e' & He' & <- & Hc & ->)]; [done|].
  rewrite (proj2 (Z.leb_le _ _)) by lia. split; [|split; [lia|]].
  - unfold f64_valid, valid_binary, bounded. rewrite Hc. apply Z.leb_le. lia.
  - unfold scaled. rewrite <-Z.mul_assoc, <-Z.pow_add_r by lia. f_equal. f_equal. lia.
Qed.

(** ** Products and sums *)

Lemma denotes_fun b c f M N : denotes b f M → denotes c f N → M = N.
Proof. destruct f as [[]|[]| |[] m e]; try done; cbn [denotes]; [by intros -> ->|]. by intros (_ & _ & ->) (_ & _ & ->). Qed.

Lemma denotes_weaken b c f N : b ≤ c → denotes b f N → denotes c f N.
Proof. intros Hbc. destruct f as [[]|[]| |[] m e]; try done. cbn [denotes]. intros (? & ? & ?). split_and!; [done|lia|done]. Qed.

Lemma log2_valid m e : f64_valid (S754_finite false m e) → -1074 ≤ e ∧ Z.log2 (Z.pos m) ≤ 52 ∧ (e = -1074 ∨ Z.log2 (Z.pos m) = 52).
Proof. intros [He _]%f64_valid_finite. lia. Qed.

(** The exact product, in units of 2^-4400, rounded. *)
Lemma mul_denotes b c f g M N : -1000 ≤ b + c ≤ 800 → denotes b f M → denotes c g N →
  ∃ P, P * 2 ^ 2200 = M * N ∧ denotes (b + c + 55) (f64_mul f g) (nearest P) ∧ 0 ≤ P.
Proof.
  intros Hbc Hf Hg. assert (nearest 0 = 0) as Hz by done.
  destruct f as [[]|[]| |[] m e], g as [[]|[]| |[] m' e']; try done; cbn [denotes] in Hf, Hg.
  1-3: exists 0; rewrite Hz; destruct_and?; subst; unfold f64_mul; cbn [SFmul denotes xorb]; split_and!; lia.
  destruct Hf as (Hv & He & ->), Hg as (Hv' & He' & ->).
  destruct (log2_valid _ _ Hv) as (H1 & H2 & H3), (log2_valid _ _ Hv') as (H1' & H2' & H3').
  exists (scaled (m * m') (e + e')). split; [|split].
  - unfold scaled. rewrite <-Z.mul_assoc, <-Z.pow_add_r by lia.
    replace (e + e' + 2200 + 2200) with (e + 2200 + (e' + 2200)) by lia. rewrite Z.pow_add_r by lia. lia.
  - unfold f64_mul. cbn [SFmul xorb].
    pose proof (Z.log2_mul_above (Z.pos m) (Z.pos m') ltac:(done) ltac:(done)).
    pose proof (Z.log2_mul_below (Z.pos m) (Z.pos m') ltac:(done) ltac:(done)).
    pose proof (Z.log2_nonneg (Z.pos m)). pose proof (Z.log2_nonneg (Z.pos m')).
    assert (fexp 53 1024 (Z.pos (digits2_pos (m * m')) + (e + e')) =
            Z.max (Z.log2 (Z.pos m * Z.pos m') - 52 + (e + e')) (-1074)) as HE.
    { unfold fexp, SpecFloat.emin. rewrite digits2_log2, Pos2Z.inj_mul. lia. }
    eapply denotes_weaken; [|apply round_denotes]; rewrite ?HE; lia.
  - apply Z.lt_le_incl, scaled_pos. lia.
Qed.

Lemma nearest_nonneg_mono M N : 0 ≤ M → M ≤ N → nearest M ≤ nearest N.
Proof.
  intros HM HMN. destruct (decide (M = 0)) as [->|]; [|apply nearest_mono; lia].
  change (nearest 0) with 0. destruct (decide (N = 0)) as [->|]; [done|].
  unfold nearest. apply Z.mul_nonneg_nonneg; [|lia].
  rewrite <-(rnd_at_exact (grid N) 0); [|unfold grid; lia]. apply rnd_at_mono; unfold grid; lia.
Qed.

(** Rounded multiplication is monotone. *)
Lemma mul_mono b c f f' g M M' N : -1000 ≤ b + c ≤ 800 → denotes b f M → denotes b f' M' → denotes c g N → M ≤ M' →
  ∃ P P', denotes (b + c + 55) (f64_mul f g) P ∧ denotes (b + c + 55) (f64_mul f' g) P' ∧ P ≤ P'.
Proof.
  intros Hbc Hf Hf' Hg HM. destruct (mul_denotes b c f g M N Hbc Hf Hg) as (P & HP & Hd & H0).
  destruct (mul_denotes b c f' g M' N Hbc Hf' Hg) as (P' & HP' & Hd' & H0').
  exists (nearest P), (nearest P'). split_and!; [done..|]. apply nearest_nonneg_mono; [done|].
  assert (0 ≤ N).
  { destruct g as [[]|[]| |[] m e]; cbn [denotes] in Hg; try done; [lia|].
    destruct Hg as (Hv & _ & ->). destruct (log2_valid _ _ Hv). apply Z.lt_le_incl, scaled_pos. lia. }
  apply (Z.mul_le_mono_pos_r _ _ (2 ^ 2200)); [done|]. rewrite HP, HP'. by apply Z.mul_le_mono_nonneg_r.
Qed.

Lemma align_scaled m e e' : -2200 ≤ e' ≤ e →
  ∃ m', shl_align m e e' = (m', e') ∧ scaled m' e' = scaled m e.
Proof.
  intros He. unfold shl_align. destruct (e' - e) as [|p|p] eqn:Hp; [|lia|].
  - exists m. split; [f_equal; lia|]. by replace e' with e by lia.
  - eexists. split; [done|]. unfold scaled. rewrite iter_dbl, dbl_Z.
    replace (e + 2200) with (Z.of_nat (Pos.to_nat p) + (e' + 2200)) by lia. rewrite (Z.pow_add_r 2 (Z.of_nat _)) by lia. ring.
Qed.

Lemma binary_round_denotes m e b : -2200 ≤ e → -1075 ≤ b ≤ 800 → Z.log2 (Z.pos m) + e ≤ b + 53 →
  denotes (b + 2) (binary_round 53 1024 false m e) (nearest (scaled m e)).
Proof.
  intros He Hb Hlog. set (E := fexp 53 1024 (Z.pos (digits2_pos m) + e)).
  assert (E = Z.max (Z.log2 (Z.pos m) + e - 52) (-1074)) as HE.
  { unfold E, fexp, SpecFloat.emin. rewrite digits2_log2. lia. }
  assert (∃ m', shl_align m e E = (m', Z.min e E) ∧ scaled m' (Z.min e E) = scaled m e) as (m' & Hm' & Hs).
  { destruct (decide (E ≤ e)).
    - rewrite Z.min_r by done. apply align_scaled. lia.
    - rewrite Z.min_l by lia. exists m. split; [|done]. unfold shl_align. by destruct (E - e) eqn:Hd; [| |lia]. }
  unfold binary_round. fold E. rewrite Hm', <-Hs.
  pose proof (log2_scaled m e He) as Hl. rewrite <-Hs, log2_scaled in Hl by lia.
  assert (fexp 53 1024 (Z.pos (digits2_pos m') + Z.min e E) = E) as HE'.
  { unfold fexp, SpecFloat.emin. rewrite digits2_log2. lia. }
  eapply denotes_weaken; [|apply round_denotes]; rewrite ?HE'; lia.
Qed.

Lemma denotes_range b f N : -1074 ≤ b → denotes b f N → 0 ≤ N < 2 ^ (b + 2253) ∧ nearest N = N.
Proof.
  intros Hb. assert (0 < 2 ^ (b + 2253)) by (apply Z.pow_pos_nonneg; lia).
  destruct f as [[]|[]| |[] m e]; try done; cbn [denotes].
  - intros ->. split; [lia|done].
  - intros (Hv & He & ->). split; [|by apply nearest_valid].
    destruct (log2_valid _ _ Hv) as (? & ? & _). pose proof (scaled_pos m e). split; [lia|].
    apply Z.log2_lt_pow2; [lia|]. rewrite log2_scaled; lia.
Qed.

Lemma add_denotes b f g M N : -1074 ≤ b ≤ 800 → denotes b f M → denotes b g N →
  denotes (b + 2) (f64_add f g) (nearest (M + N)).
Proof.
  intros Hb Hf Hg. pose proof (denotes_range _ _ _ (proj1 Hb) Hf) as [HM HMv].
  pose proof (denotes_range _ _ _ (proj1 Hb) Hg) as [HN HNv].
  pose proof (denotes_weaken b (b + 2) f M ltac:(lia) Hf) as Hf'.
  pose proof (denotes_weaken b (b + 2) g N ltac:(lia) Hg) as Hg'.
  destruct f as [[]|[]| |[] m e]; try done; destruct g as [[]|[]| |[] m' e']; try done.
  - cbn in Hf, Hg. by subst.
  - cbn in Hf. subst M. by rewrite Z.add_0_l, HNv.
  - cbn in Hg. subst N. by rewrite Z.add_0_r, HMv.
  - destruct Hf as (Hv & He & ->), Hg as (Hv' & He' & ->).
    destruct (log2_valid _ _ Hv) as (H1 & _ & _), (log2_valid _ _ Hv') as (H1' & _ & _).
    unfold f64_add. cbn [SFadd cond_Zopp]. set (ez := Z.min e e').
    destruct (align_scaled m e ez) as (x & -> & Hx); [unfold ez; lia|].
    destruct (align_scaled m' e' ez) as (y & -> & Hy); [unfold ez; lia|]. cbn [fst].
    change (Z.pos x + Z.pos y) with (Z.pos (x + y)). cbn [binary_normalize].
    assert (scaled m e + scaled m' e' = scaled (x + y) ez) as Hs.
    { rewrite <-Hx, <-Hy. unfold scaled. rewrite Pos2Z.inj_add. lia. }
    rewrite Hs. apply binary_round_denotes; [unfold ez; lia|lia|].
    assert (Z.log2 (scaled (x + y) ez) < b + 2254) as Hlog; [|rewrite log2_scaled in Hlog; unfold ez in *; lia].
    apply Z.log2_lt_pow2; [apply scaled_pos; unfold ez; lia|]. rewrite <-Hs.
    replace (b + 2254) with (1 + (b + 2253)) by lia. rewrite (Z.pow_add_r 2 1) by lia. lia.
Qed.

(** Rounded addition is monotone. *)
Lemma add_mono b f g g' M N N' : -1074 ≤ b ≤ 800 → denotes b f M → denotes b g N → denotes b g' N' → N ≤ N' →
  ∃ P P', denotes (b + 2) (f64_add f g) P ∧ denotes (b + 2) (f64_add f g') P' ∧ P ≤ P'.
Proof.
  intros Hb Hf Hg Hg' HN. exists (nearest (M + N)), (nearest (M + N')).
  split_and!; [by apply add_denotes..|]. apply nearest_nonneg_mono; [|lia].
  pose proof (denotes_range _ _ _ (proj1 Hb) Hf). pose proof (denotes_range _ _ _ (proj1 Hb) Hg). lia.
Qed.

(** ** Fractions with 53 binary digits *)

(** Dividing by 2^53 is exact. *)
Lemma div_core_exact q e : Z.pos (digits2_pos q) = 53 → -53 ≤ e →
  SFdiv_core_binary 53 1024 (Z.pos q) e 4503599627370496 1 = (Z.pos q~0, e - 54, loc_Exact).
Proof.
  intros Hq He. unfold SFdiv_core_binary. cbn [Zdigits2]. rewrite Hq.
  change (Z.pos (digits2_pos 4503599627370496)) with 53. unfold fexp, SpecFloat.emin. cbv zeta.
  replace (Z.min (Z.max (53 + e - (53 + 1) - 53) (3 - 1024 - 53)) (e - 1)) with (e - 54) by lia.
  replace (e - 1 - (e - 54)) with 53 by lia. rewrite Z.shiftl_mul_pow2 by done.
  assert (Z.pos q * 2 ^ 53 = 4503599627370496 * Z.pos q~0 + 0) as -> by lia.
  pose proof (Z_div_mod (4503599627370496 * Z.pos q~0 + 0) 4503599627370496 ltac:(done)) as Hdm.
  destruct (Z.div_eucl _ _) as [d r]. destruct Hdm as [Hd Hr].
  assert (d = Z.pos q~0 ∧ r = 0) as [-> ->] by lia. done.
Qed.

Lemma unit_denotes k : 0 ≤ k < 2 ^ 53 → denotes 0 (f64_div (f64_of_Z k) (f64_of_Z (2 ^ 53))) (k * 2 ^ 2147).
Proof.
  intros Hk. destruct k as [|m|]; [done| |lia]. assert (digits m ≤ 53)%nat as Hd by (apply digits_le; lia).
  pose proof (digits_pos m). rewrite f64_of_pos by done.
  unfold f64_int. set (q := dbl (53 - digits m) m). set (e := Z.of_nat (digits m) - 53).
  assert (digits q = 53%nat) as Hq by (unfold q; rewrite digits_dbl; lia).
  assert (Z.pos (digits2_pos q) = 53) as Hq2 by (unfold digits in Hq; lia).
  change (f64_of_Z (2 ^ 53)) with (S754_finite false 4503599627370496 1).
  unfold f64_div. cbn [SFdiv xorb]. rewrite div_core_exact by (unfold e; lia || done).
  assert (scaled q~0 (e - 54) = Z.pos m * 2 ^ 2147) as Hs.
  { unfold scaled, e. rewrite Pos2Z.inj_xO. unfold q. rewrite dbl_Z.
    replace 2147 with (Z.of_nat (53 - digits m) + (1 + (Z.of_nat (digits m) - 53 - 54 + 2200))) by lia.
    rewrite (Z.pow_add_r 2 (Z.of_nat _)), (Z.pow_add_r 2 1) by lia. ring. }
  assert (fexp 53 1024 (Z.pos (digits2_pos q~0) + (e - 54)) = e - 53) as HE.
  { cbn [digits2_pos]. unfold fexp, SpecFloat.emin. rewrite Pos2Z.inj_succ. unfold e. lia. }
  assert (nearest (scaled q~0 (e - 54)) = scaled q~0 (e - 54)) as Hn.
  { assert (scaled q~0 (e - 54) = scaled q (e - 53)) as ->.
    { unfold scaled. replace (e - 53 + 2200) with (1 + (e - 54 + 2200)) by lia.
      rewrite (Z.pow_add_r 2 1), Pos2Z.inj_xO by (unfold e; lia). ring. }
    apply nearest_valid, f64_valid_finite. pose proof (digits2_log2 q). unfold e. lia. }
  rewrite <-Hs, <-Hn. eapply denotes_weaken; [|apply round_denotes]; rewrite ?HE; unfold e; lia.
Qed.


(** ** Ranges *)

(** [f] lies between [lo] and [hi]; all three are below 2^(b+53). *)
Definition within (b : Z) (lo hi f : float64) : Prop :=
  ∃ L N H, denotes b lo L ∧ denotes b f N ∧ denotes b hi H ∧ L ≤ N ≤ H.

Definition is_nonneg (b : Z) (f : float64) : Prop := ∃ N, denotes b f N.

Lemma within_mul b c lo hi f g : -1000 ≤ b + c ≤ 800 → within b lo hi f → is_nonneg c g →
  within (b + c + 55) (f64_mul lo g) (f64_mul hi g) (f64_mul f g).
Proof.
  intros Hbc (L & N & H & HL & HN & HH & ?) [G HG].
  destruct (mul_mono b c lo f g L N G Hbc HL HN HG) as (P1 & P2 & HP1 & HP2 & Hle); [lia|].
  destruct (mul_mono b c f hi g N H G Hbc HN HH HG) as (P3 & P4 & HP3 & HP4 & Hle'); [lia|].
  assert (P2 = P3) as -> by (by eapply denotes_fun). by exists P1, P3, P4.
Qed.

Lemma within_add b lo hi f g : -1074 ≤ b ≤ 800 → within b lo hi f → is_nonneg b g →
  within (b + 2) (f64_add g lo) (f64_add g hi) (f64_add g f).
Proof.
  intros Hb (L & N & H & HL & HN & HH & ?) [G HG].
  destruct (add_mono b g lo f G L N Hb HG HL HN) as (P1 & P2 & HP1 & HP2 & Hle); [lia|].
  destruct (add_mono b g f hi G N H Hb HG HN HH) as (P3 & P4 & HP3 & HP4 & Hle'); [lia|].
  assert (P2 = P3) as -> by (by eapply denotes_fun). by exists P1, P3, P4.
Qed.

(** What holds at the ends holds in between. *)
Lemma within_bounds b c lo hi f l h : within b lo hi f → is_nonneg c l → is_nonneg c h →
  (f64_le l lo = true → f64_le l f = true) ∧ (f64_lt l lo = true → f64_lt l f = true) ∧
  (f64_le hi h = true → f64_le f h = true) ∧ (f64_lt hi h = true → f64_lt f h = true).
Proof.
  intros (L & N & H & HL & HN & HH & ?) [l' Hl] [h' Hh].
  rewrite !(denotes_le _ _ l _ _ _ Hl HL), !(denotes_le _ _ l _ _ _ Hl HN), !(denotes_lt _ _ l _ _ _ Hl HL),
    !(denotes_lt _ _ l _ _ _ Hl HN), !(denotes_le _ _ _ h _ _ HH Hh), !(denotes_le _ _ _ h _ _ HN Hh),
    !(denotes_lt _ _ _ h _ _ HH Hh), !(denotes_lt _ _ _ h _ _ HN Hh). lia.
Qed.

Lemma within_not_above b c lo hi f h : within b lo hi f → is_nonneg c h → f64_le hi h = true → f64_lt h f = false.
Proof.
  intros (L & N & H & HL & HN & HH & ?) [h' Hh] Hle. apply not_true_is_false.
  rewrite (denotes_lt _ _ _ _ _ _ Hh HN). rewrite (denotes_le _ _ _ _ _ _ HH Hh) in Hle. lia.
Qed.
