(* ===== verification/Quota.v ===== *)
(** Per-tenant quotas, [internal/quota/quota.go]: the token bucket of the request
    rate and the spend of the current UTC month, in memory or over a shared
    ledger; and the middleware of [internal/server/quota_middleware.go]. *)

From S2P Require Import Prelude GoBase GoFloat.

(** ** The clock and the calendar

    A reading of [time.Now]: its monotonic part, which [Sub] and [Before]
    compare, and the nanoseconds since 1970 UTC, which [Format] shows. *)
Record Instant := mkInstant { mono : Z; wall : Z }.

Definition leap (y : Z) : bool :=
  ((y mod 4 =? 0) && (negb (y mod 100 =? 0) || (y mod 400 =? 0)))%Z.

Definition month_lengths (y : Z) : list Z :=
  [31; if leap y then 29 else 28; 31; 30; 31; 30; 31; 31; 30; 31; 30; 31]%Z.

(** The months of the 400 years after which the calendar repeats. *)
Definition era_lengths : list Z := seqZ 0 400 ≫= month_lengths.

Definition era_days : Z := 146097.

(** The month a day falls in, both counted from the start of the list. *)
Fixpoint month_in (lengths : list Z) (day : Z) : Z :=
  match lengths with
  | [] => 0
  | l :: lengths => if (day <? l)%Z then 0 else 1 + month_in lengths (day - l)
  end.

(** The month of an instant, counted from January of the year 0. *)
Definition month_index (t : Instant) : Z :=
  let day := (wall t / (86400 * Second) + 719528)%Z in
  (day / era_days * 4800 + month_in era_lengths (day mod era_days))%Z.

Definition digit (d : Z) : string := String (Ascii.ascii_of_nat (48 + Z.to_nat d)) "".

(** [Format("2006-01")]. *)
Definition fmt_year (y : Z) : string :=
  let four y := (digit (y / 1000)%Z +:+ digit (y / 100 mod 10)%Z +:+ digit (y / 10 mod 10)%Z
    +:+ digit (y mod 10)%Z)%string in
  if decide (0 ≤ y < 10000)%Z then four y
  else if decide (-10000 < y < 0)%Z then ("-" +:+ four (0 - y)%Z)%string
  else pretty y.

Definition fmt_month (idx : Z) : string :=
  let m := (idx mod 12 + 1)%Z in
  (fmt_year (idx / 12)%Z +:+ "-" +:+ digit (m / 10)%Z +:+ digit (m mod 10)%Z)%string.

(** ** The enforcer *)

Record Config := mkConfig {
  RatePerSec : float64;
  RateBurst : Z;
  MonthlySpendUSD : float64
}.

Record UsageSnapshot := mkUsage { us_Month : string; us_SpendUSD : float64 }.

Record bucket := mkBucket { tokens : float64; b_last : Instant }.

(** [expiry] is [None] for the zero time, which is before every reading. *)
Record counter := mkCounter { month : string; usd : float64; expiry : option Z }.

(** A spend ledger; an answer is [None] when the call failed. *)
Record SpendBackend (B : Type) := mkSpendBackend {
  be_AddSpend : string → string → float64 → B → B * option float64;
  be_GetSpend : string → string → B → option float64
}.
Arguments be_AddSpend {B}.
Arguments be_GetSpend {B}.

Record Enforcer (B : Type) := mkEnforcer {
  defaults : Config;
  overrides : gmap string Config;
  buckets : gmap string bucket;
  spendCache : gmap string counter;
  spendBackend : option (SpendBackend B)
}.
Arguments mkEnforcer {B}.
Arguments defaults {B}.
Arguments overrides {B}.
Arguments buckets {B}.
Arguments spendCache {B}.
Arguments spendBackend {B}.

Definition spendCacheTTL : Z := (5 * Second)%Z.

Definition monthKey (t : Instant) : string := fmt_month (month_index t).

Definition capacityFor (c : Config) : float64 :=
  if decide (0 < RateBurst c)%Z then f64_of_Z (RateBurst c)
  else f64_max f64_one (RatePerSec c).

Section enforcer.
Context {conv : GoConv} {B : Type}.
Implicit Types e : Enforcer B.

Definition NewEnforcer (defaults : Config) : Enforcer B := mkEnforcer defaults ∅ ∅ ∅ None.

Definition set_buckets e m :=
  mkEnforcer (defaults e) (overrides e) m (spendCache e) (spendBackend e).
Definition set_spendCache e m :=
  mkEnforcer (defaults e) (overrides e) (buckets e) m (spendBackend e).

Definition SetSpendBackend (b : option (SpendBackend B)) e : Enforcer B :=
  mkEnforcer (defaults e) (overrides e) (buckets e) (spendCache e) b.

Definition SetOverride (tenantID : string) (c : Config) e : Enforcer B :=
  if decide (tenantID = "") then e
  else mkEnforcer (defaults e) (<[tenantID := c]> (overrides e)) (buckets e) (spendCache e)
         (spendBackend e).

Definition effectiveLocked (tenantID : string) e : Config :=
  match overrides e !! tenantID with Some c => c | None => defaults e end.

Definition Effective (tenantID : string) e : Config := effectiveLocked tenantID e.

(** Refilling a bucket since its last use. *)
Definition refill (cap rate : float64) (now : Instant) (b : bucket) : bucket :=
  let elapsed := Seconds (time_sub (mono now) (mono (b_last b))) in
  if f64_lt f64_zero elapsed
  then mkBucket (f64_min cap (f64_add (tokens b) (f64_mul elapsed rate))) now
  else b.

Definition AllowRequest (tenantID : string) (now : Instant) e : Enforcer B * (bool * Z) :=
  if decide (tenantID = "") then (e, (true, 0%Z))
  else
    let cfg := effectiveLocked tenantID e in
    if f64_le (RatePerSec cfg) f64_zero then (e, (true, 0%Z))
    else
      let cap := capacityFor cfg in
      let b := match buckets e !! tenantID with None => mkBucket cap now | Some b => b end in
      let b := refill cap (RatePerSec cfg) now b in
      if f64_le f64_one (tokens b)
      then (set_buckets e (<[tenantID := mkBucket (f64_sub (tokens b) f64_one) (b_last b)]> (buckets e)),
            (true, 0%Z))
      else
        let need := f64_sub f64_one (tokens b) in
        let retry := f64_to_int (f64_mul (f64_div need (RatePerSec cfg)) (f64_of_Z Second)) in
        (set_buckets e (<[tenantID := b]> (buckets e)), (false, retry)).

(** The counter of a month, and the enforcer that holds it. *)
Definition counterForMonthLocked (tenantID month' : string) e : Enforcer B * counter :=
  match spendCache e !! tenantID with
  | Some c =>
      if decide (month c = month') then (e, c)
      else let c := mkCounter month' f64_zero None in
           (set_spendCache e (<[tenantID := c]> (spendCache e)), c)
  | None =>
      let c := mkCounter month' f64_zero None in
      (set_spendCache e (<[tenantID := c]> (spendCache e)), c)
  end.

(** [c.usd = total] and the like, on the counter the cache points at. *)
Definition put_counter (tenantID : string) (c : counter) e : Enforcer B :=
  set_spendCache e (<[tenantID := c]> (spendCache e)).

(** [AddSpend]; [t1] and [t2] are the readings of the clock it takes, [w] the
    ledger. *)
Definition AddSpend (tenantID : string) (amount : float64) (t1 t2 : Instant) e (w : B)
  : Enforcer B * B :=
  if decide (tenantID = "") then (e, w)
  else if f64_le amount f64_zero then (e, w)
  else
    let month' := monthKey t1 in
    match spendBackend e with
    | Some backend =>
        let '(w, total) := be_AddSpend backend tenantID month' amount w in
        let '(e, c) := counterForMonthLocked tenantID month' e in
        (put_counter tenantID
           match total with
           | Some total => mkCounter (month c) total (Some (mono t2 + spendCacheTTL)%Z)
           | None => mkCounter (month c) (f64_add (usd c) amount) (expiry c)
           end e, w)
    | None =>
        let '(e, c) := counterForMonthLocked tenantID month' e in
        (put_counter tenantID (mkCounter (month c) (f64_add (usd c) amount) (expiry c)) e, w)
    end.

(** [currentSpend]; an error of the ledger is [false]. *)
Definition currentSpend (tenantID : string) (t1 t2 t3 : Instant) e (w : B)
  : Enforcer B * (float64 * bool) :=
  let month' := monthKey t1 in
  let '(e, c) := counterForMonthLocked tenantID month' e in
  let fresh := match expiry c with Some x => (mono t2 <? x)%Z | None => false end in
  match spendBackend e with
  | Some backend =>
      if fresh then (e, (usd c, true))
      else
        let total := be_GetSpend backend tenantID month' w in
        let '(e, c) := counterForMonthLocked tenantID month' e in
        match total with
        | Some total =>
            (put_counter tenantID (mkCounter (month c) total (Some (mono t3 + spendCacheTTL)%Z)) e,
             (total, true))
        | None => (e, (usd c, false))
        end
  | None => (e, (usd c, true))
  end.

Definition CheckSpend (tenantID : string) (t1 t2 t3 : Instant) e (w : B) : Enforcer B * bool :=
  if decide (tenantID = "") then (e, true)
  else if f64_le (MonthlySpendUSD (Effective tenantID e)) f64_zero then (e, true)
  else
    let '(e, (total, _)) := currentSpend tenantID t1 t2 t3 e w in
    (e, f64_lt total (MonthlySpendUSD (Effective tenantID e))).

Definition Usage (tenantID : string) (t0 t1 t2 t3 : Instant) e (w : B) : Enforcer B * UsageSnapshot :=
  let month' := monthKey t0 in
  let '(e, (total, _)) := currentSpend tenantID t1 t2 t3 e w in
  (e, mkUsage month' total).
End enforcer.

(** ** The shared ledger of the tenancy store

    [AddSpend] and [GetSpend] of [internal/tenancy/store.go]: one row per tenant
    and month. *)
Definition ledger := gmap (string * string) float64.

Definition ledger_AddSpend (tenantID month : string) (usd : float64) (l : ledger)
  : ledger * option float64 :=
  let total := match l !! (tenantID, month) with Some t => f64_add t usd | None => usd end in
  (<[(tenantID, month) := total]> l, Some total).

Definition ledger_GetSpend (tenantID month : string) (l : ledger) : option float64 :=
  Some (default f64_zero (l !! (tenantID, month))).

Definition ledger_backend : SpendBackend ledger :=
  mkSpendBackend _ ledger_AddSpend ledger_GetSpend.

(** ** The middleware *)

Definition isLLMProviderPath (path : string) : bool :=
  if decide (path ∈ ["/v1/chat/completions"; "/v1/responses"; "/v1/embeddings"; "/v1/messages"]%string)
  then true
  else if decide (path ∈ ["/openai/v1/chat/completions"; "/openai/v1/embeddings"]%string) then true
  else if has_prefix path "/v1beta/models/" then
    has_suffix path ":generateContent" || has_suffix path ":streamGenerateContent"
  else if has_prefix path "/openai/deployments/" then
    has_suffix path "/chat/completions" || has_suffix path "/embeddings"
  else false.

Definition isQuotaPath (path : string) : bool := isLLMProviderPath path.

(** What the middleware answers: the next handler, a 429 with its [Retry-After]
    seconds, or a 402. *)
Inductive QuotaAnswer := Serve | TooManyRequests (retryAfter : Z) | PaymentRequired.

Definition QuotaEnforce {conv : GoConv} {B} (path tenantID : string) (now t1 t2 t3 : Instant)
    (enf : option (Enforcer B)) (w : B) : option (Enforcer B) * QuotaAnswer :=
  match enf with
  | None => (None, Serve)
  | Some e =>
      if negb (isQuotaPath path) then (Some e, Serve)
      else if decide (tenantID = "") then (Some e, Serve)
      else
        let '(e, (ok, retry)) := AllowRequest tenantID now e in
        if negb ok then
          let secs := f64_to_int (Seconds retry) in
          (Some e, TooManyRequests (if decide (secs < 1)%Z then 1%Z else secs))
        else
          let '(e, ok) := CheckSpend tenantID t1 t2 t3 e w in
          if negb ok then (Some e, PaymentRequired) else (Some e, Serve)
  end.

(** ** The calendar *)

Lemma month_in_bounds lengths day : (0 ≤ month_in lengths day ≤ Z.of_nat (length lengths))%Z.
Proof.
  revert day. induction lengths as [|l lengths IH]; intros day; simpl month_in; simpl length; [lia|].
  destruct (day <? l)%Z; [lia|]. specialize (IH (day - l)%Z). lia.
Qed.

Lemma month_in_lt lengths day :
  (day < foldr Z.add 0 lengths)%Z → (month_in lengths day < Z.of_nat (length lengths) ∨ lengths = [])%Z.
Proof.
  revert day. induction lengths as [|l lengths IH]; intros day H; [by right|]. left.
  cbn [month_in length]. simpl in H. destruct (day <? l)%Z eqn:Hl; [lia|]. bool_prop.
  destruct (IH (day - l)%Z) as [?|Hnil]; [lia|lia|]. rewrite Hnil in H. simpl in H. lia.
Qed.

Lemma month_in_mono lengths d1 d2 : (d1 ≤ d2)%Z → (month_in lengths d1 ≤ month_in lengths d2)%Z.
Proof.
  revert d1 d2. induction lengths as [|l lengths IH]; intros d1 d2 H; cbn [month_in]; [done|].
  pose proof (month_in_bounds lengths (d2 - l)). specialize (IH (d1 - l) (d2 - l))%Z.
  destruct (d1 <? l)%Z eqn:H1, (d2 <? l)%Z eqn:H2; bool_prop; lia.
Qed.

Lemma era_sums : foldr Z.add 0%Z era_lengths = era_days ∧ length era_lengths = 4800.
Proof. by vm_compute. Qed.

Lemma month_index_mono t1 t2 : (wall t1 ≤ wall t2)%Z → (month_index t1 ≤ month_index t2)%Z.
Proof.
  intros H. unfold month_index. set (d1 := (wall t1 / (86400 * Second) + 719528)%Z).
  set (d2 := (wall t2 / (86400 * Second) + 719528)%Z).
  assert (d1 ≤ d2)%Z as Hd.
  { unfold d1, d2. apply Z.add_le_mono_r, Z.div_le_mono; [done|lia]. }
  clearbody d1 d2. clear H. destruct era_sums as [Hsum Hlen].
  pose proof (Z.mod_pos_bound d1 era_days ltac:(done)) as Hm1.
  pose proof (Z.div_mod d1 era_days ltac:(done)) as He1.
  pose proof (Z.div_mod d2 era_days ltac:(done)) as He2.
  pose proof (Z.div_le_mono d1 d2 era_days ltac:(done) Hd) as Hq.
  pose proof (month_in_bounds era_lengths (d2 mod era_days)) as Hb.
  destruct (month_in_lt era_lengths (d1 mod era_days)) as [Hlt|Hnil]; [rewrite Hsum; lia| |].
  - rewrite Hlen in Hlt. destruct (decide (d1 / era_days = d2 / era_days)%Z) as [Heq|]; [|lia].
    pose proof (month_in_mono era_lengths (d1 mod era_days) (d2 mod era_days)). lia.
  - by rewrite Hnil in Hlen.
Qed.

Lemma digit_inj d1 d2 s1 s2 : (0 ≤ d1 < 10)%Z → (0 ≤ d2 < 10)%Z →
  (digit d1 +:+ s1 = digit d2 +:+ s2)%string → d1 = d2 ∧ s1 = s2.
Proof.
  intros H1 H2 H. unfold digit in H. injection H as Hd Hs. split; [|done].
  apply (f_equal Ascii.nat_of_ascii) in Hd. rewrite !Ascii.nat_ascii_embedding in Hd by lia. lia.
Qed.

Lemma dash_inj s1 s2 : ("-" +:+ s1 = "-" +:+ s2)%string → s1 = s2.
Proof. by intros [= ?]. Qed.

Lemma digits_split y :
  y = (1000 * (y / 1000) + 100 * (y / 100 mod 10) + 10 * (y / 10 mod 10) + y mod 10)%Z.
Proof.
  pose proof (Z.div_mod y 10 ltac:(done)). pose proof (Z.div_mod (y / 10) 10 ltac:(done)) as H1.
  pose proof (Z.div_mod (y / 100) 10 ltac:(done)) as H2.
  rewrite Z.div_div in H1, H2 by done.
  change (10 * 10)%Z with 100%Z in H1. change (100 * 10)%Z with 1000%Z in H2. lia.
Qed.

Lemma digit_inj1 d1 d2 : (0 ≤ d1 < 10)%Z → (0 ≤ d2 < 10)%Z → digit d1 = digit d2 → d1 = d2.
Proof.
  intros H1 H2 H. apply (f_equal (λ s, s +:+ "")%string) in H. by apply digit_inj in H as [? _].
Qed.

(** The years Go writes with four digits. *)
Definition in_calendar (t : Instant) : Prop := (0 ≤ month_index t < 120000)%Z.

Lemma digit_range y : (0 ≤ y mod 10 < 10)%Z.
Proof. by apply Z.mod_pos_bound. Qed.

Lemma monthKey_inj t1 t2 : in_calendar t1 → in_calendar t2 →
  monthKey t1 = monthKey t2 → month_index t1 = month_index t2.
Proof.
  unfold in_calendar, monthKey, fmt_month, fmt_year.
  generalize (month_index t1) (month_index t2). intros i j Hi Hj H.
  assert (∀ k, 0 ≤ k < 120000 → 0 ≤ k / 12 < 10000)%Z as Hy.
  { intros k Hk. split; [apply Z.div_pos; lia|apply Z.div_lt_upper_bound; lia]. }
  assert (∀ y, 0 ≤ y < 10000 → 0 ≤ y / 1000 < 10)%Z as Hth.
  { intros k Hk. split; [apply Z.div_pos; lia|apply Z.div_lt_upper_bound; lia]. }
  assert (∀ k, 0 ≤ (k mod 12 + 1) / 10 < 10)%Z as Hm.
  { intros k. pose proof (Z.mod_pos_bound k 12 ltac:(done)).
    split; [apply Z.div_pos; lia|apply Z.div_lt_upper_bound; lia]. }
  pose proof (Hy i Hi) as Hyi. pose proof (Hy j Hj) as Hyj.
  rewrite !decide_True in H by done. rewrite !str_app_assoc in H.
  do 4 (apply digit_inj in H as [?E H]; [|by auto using digit_range..]).
  apply dash_inj, digit_inj in H as [E3 H]; [|by auto..].
  apply digit_inj1 in H; [|by apply digit_range..].
  assert (i / 12 = j / 12)%Z as Hq.
  { rewrite (digits_split (i / 12)), (digits_split (j / 12)). congruence. }
  assert (i mod 12 = j mod 12)%Z as Hr.
  { apply (Z.add_cancel_r _ _ 1%Z). rewrite (Z.div_mod (i mod 12 + 1) 10), (Z.div_mod (j mod 12 + 1) 10);
      [congruence|done..]. }
  rewrite (Z.div_mod i 12), (Z.div_mod j 12) by done. by rewrite Hq, Hr.
Qed.

(** A month does not come back. *)
Lemma month_contiguous t1 t2 t3 : in_calendar t1 → in_calendar t3 →
  (wall t1 ≤ wall t2)%Z → (wall t2 ≤ wall t3)%Z → monthKey t1 = monthKey t3 →
  monthKey t2 = monthKey t3.
Proof.
  intros Hc1 Hc3 H12 H23 Hk. apply monthKey_inj in Hk; [|done..].
  apply month_index_mono in H12, H23. unfold monthKey. f_equal. lia.
Qed.

(** ** Runs of an enforcer *)

Inductive quota_op :=
| OpAllow (tenantID : string) (now : Instant)
| OpAdd (tenantID : string) (amount : float64) (t1 t2 : Instant)
| OpCheck (tenantID : string) (t1 t2 t3 : Instant)
| OpUsage (tenantID : string) (t0 t1 t2 t3 : Instant)
| OpOverride (tenantID : string) (c : Config).

(** The readings of the clock an operation takes. *)
Definition readings (op : quota_op) : list Instant :=
  match op with
  | OpAllow _ now => [now]
  | OpAdd _ _ t1 t2 => [t1; t2]
  | OpCheck _ t1 t2 t3 => [t1; t2; t3]
  | OpUsage _ t0 t1 t2 t3 => [t0; t1; t2; t3]
  | OpOverride _ _ => []
  end.

Section ledger.
Context {conv : GoConv} {B : Type} (w : B).
Implicit Types e : Enforcer B.

Definition quota_step e (op : quota_op) : Enforcer B :=
  match op with
  | OpAllow t now => (AllowRequest t now e).1
  | OpAdd t amount t1 t2 => (AddSpend t amount t1 t2 e w).1
  | OpCheck t t1 t2 t3 => (CheckSpend t t1 t2 t3 e w).1
  | OpUsage t t0 t1 t2 t3 => (Usage t t0 t1 t2 t3 e w).1
  | OpOverride t c => SetOverride t c e
  end.

Definition run_quota (cfg : Config) (ops : list quota_op) : Enforcer B :=
  foldl quota_step (NewEnforcer cfg) ops.

(** The amount an operation charges to a tenant, with the time. *)
Definition charge (tenantID : string) (op : quota_op) : option (Instant * float64) :=
  match op with
  | OpAdd t amount t1 _ =>
      if decide (t = tenantID ∧ tenantID ≠ "" ∧ f64_le amount f64_zero = false)
      then Some (t1, amount) else None
  | _ => None
  end.

(** What a tenant spent in a month, added up in the order of the charges. *)
Definition spent (tenantID month' : string) (ops : list quota_op) : float64 :=
  foldl f64_add f64_zero
    (omap (λ op, charge tenantID op ≫= λ c, if decide (monthKey c.1 = month') then Some c.2 else None) ops).

Definition configured (tenantID : string) (op : quota_op) : option Config :=
  match op with
  | OpOverride t c => if decide (t = tenantID ∧ tenantID ≠ "") then Some c else None
  | _ => None
  end.

(** The counter of a tenant, and the moment [t0] it was last looked at. *)
Record ledger_ok (tenantID : string) (ops : list quota_op) e : Prop := {
  lo_backend : spendBackend e = None;
  lo_config : Effective tenantID e = default (defaults e) (last (omap (configured tenantID) ops));
  lo_counter :
    match spendCache e !! tenantID with
    | None => ∀ op, op ∈ ops → charge tenantID op = None
    | Some c =>
        usd c = spent tenantID (month c) ops ∧
        ∃ t0, t0 ∈ ops ≫= readings ∧ month c = monthKey t0 ∧
          ∀ op t amount, op ∈ ops → charge tenantID op = Some (t, amount) → (wall t ≤ wall t0)%Z
    end
}.

Lemma counter_month tenantID m e : month (counterForMonthLocked tenantID m e).2 = m.
Proof.
  unfold counterForMonthLocked. destruct (spendCache e !! tenantID) as [c|]; [|done].
  by case_decide.
Qed.

(** Looking at a counter changes nothing but that counter. *)
Lemma counter_enforcer tenantID m e :
  (counterForMonthLocked tenantID m e).1 =
    set_spendCache e (<[tenantID := (counterForMonthLocked tenantID m e).2]> (spendCache e)).
Proof.
  unfold counterForMonthLocked. destruct (spendCache e !! tenantID) as [c|] eqn:Hc; [|done].
  case_decide; [|done]. simpl. rewrite insert_id by done. by destruct e.
Qed.

Lemma spent_app tenantID m ops1 ops2 :
  spent tenantID m (ops1 ++ ops2) =
    foldl f64_add (spent tenantID m ops1)
      (omap (λ op, charge tenantID op ≫= λ c, if decide (monthKey c.1 = m) then Some c.2 else None) ops2).
Proof. unfold spent. by rewrite omap_app, foldl_app. Qed.

Lemma spent_none tenantID m ops : (∀ op t amount, op ∈ ops →
  charge tenantID op = Some (t, amount) → monthKey t ≠ m) → spent tenantID m ops = f64_zero.
Proof.
  intros H. unfold spent. induction ops as [|op ops IH]; [done|]. csimpl.
  destruct (charge tenantID op) as [[t a]|] eqn:Hc; simpl.
  - rewrite decide_False by (eapply H; [left|done]). apply IH. intros. eapply H; [by right|done].
  - apply IH. intros. eapply H; [by right|done].
Qed.

(** The counter of a month holds what was spent in it, whenever it is looked at. *)
Lemma counter_spent tenantID ops e t :
  ledger_ok tenantID ops e → in_calendar t →
  (∀ t', t' ∈ ops ≫= readings → in_calendar t' ∧ (wall t' ≤ wall t)%Z) →
  usd (counterForMonthLocked tenantID (monthKey t) e).2 = spent tenantID (monthKey t) ops.
Proof.
  intros [_ _ Hl] Hcal Hall. unfold counterForMonthLocked.
  destruct (spendCache e !! tenantID) as [c|].
  - destruct Hl as (Hu & t0 & Ht0 & Hm & Hch). case_decide as Hd; simpl; [by rewrite <-Hd|].
    symmetry. apply spent_none. intros op t' a Hop Hc Hk. apply Hd. rewrite Hm.
    apply (month_contiguous t' t0 t); [|done|by eapply Hch|by apply Hall|done].
    apply Hall, list_elem_of_bind. exists op. split; [|done].
    destruct op; simpl in Hc; try done. case_decide; simplify_eq/=. left.
  - symmetry. apply spent_none. intros op t' a Hop Hc. by rewrite Hl in Hc.
Qed.

Lemma currentSpend_local tenantID t1 t2 t3 e : spendBackend e = None →
  currentSpend tenantID t1 t2 t3 e w =
    let '(e, c) := counterForMonthLocked tenantID (monthKey t1) e in (e, (usd c, true)).
Proof.
  intros Hb. unfold currentSpend. pose proof (counter_enforcer tenantID (monthKey t1) e) as He.
  destruct (counterForMonthLocked tenantID (monthKey t1) e) as [e' c]. simpl in He. subst e'.
  simpl. by rewrite Hb.
Qed.

Lemma AllowRequest_spend tenantID now e :
  ∃ m, (AllowRequest tenantID now e).1 = set_buckets e m.
Proof.
  assert (e = set_buckets e (buckets e)) as He by (by destruct e).
  unfold AllowRequest. repeat case_decide; repeat case_match; simpl; eauto.
Qed.

(** What one operation does to the counter of a tenant. *)
Definition touched (tenantID : string) e (op : quota_op) (e' : Enforcer B) : Prop :=
  (spendCache e' !! tenantID = spendCache e !! tenantID ∧ charge tenantID op = None) ∨
  ∃ t c, t ∈ readings op ∧ spendCache e' !! tenantID = Some c ∧ month c = monthKey t ∧
    usd c = foldl f64_add (usd (counterForMonthLocked tenantID (monthKey t) e).2)
              (option_list (snd <$> charge tenantID op)) ∧
    (∀ t' a, charge tenantID op = Some (t', a) → t' = t).

Lemma counter_touched tenantID t0 t e op :
  t ∈ readings op → charge tenantID op = None →
  touched tenantID e op (counterForMonthLocked t0 (monthKey t) e).1.
Proof.
  intros Ht Hc. rewrite counter_enforcer. unfold touched. simpl.
  destruct (decide (t0 = tenantID)) as [->|Hne]; [right|left; by rewrite lookup_insert_ne].
  exists t, (counterForMonthLocked tenantID (monthKey t) e).2.
  rewrite lookup_insert_eq, counter_month, Hc. split_and!; [done..|]. naive_solver.
Qed.

Lemma step_touched tenantID op e : spendBackend e = None →
  touched tenantID e op (quota_step e op) ∧ spendBackend (quota_step e op) = None.
Proof.
  intros Hb. destruct op as [t now|t a t1 t2|t t1 t2 t3|t t0 t1 t2 t3|t c]; simpl.
  - destruct (AllowRequest_spend t now e) as [m ->]. split; [by left|done].
  - unfold AddSpend, touched. simpl.
    destruct (decide (t = "")) as [->|Ht].
    { split; [|done]. left. rewrite decide_False by naive_solver. done. }
    destruct (f64_le a f64_zero) eqn:Ha.
    { split; [|done]. left. rewrite decide_False by naive_solver. done. }
    rewrite Hb. pose proof (counter_enforcer t (monthKey t1) e) as He.
    pose proof (counter_month t (monthKey t1) e) as Hm.
    destruct (counterForMonthLocked t (monthKey t1) e) as [e' c] eqn:Hc. simpl in He, Hm. subst e'.
    simpl. split; [|done]. destruct (decide (t = tenantID)) as [->|Hne].
    + right. rewrite insert_insert_eq, lookup_insert_eq, decide_True by done.
      exists t1. eexists. split; [left|]. split; [done|]. simpl. rewrite Hc. naive_solver.
    + left. rewrite !lookup_insert_ne by done. rewrite decide_False by naive_solver. done.
  - unfold CheckSpend. case_decide; [split; [by left|done]|].
    destruct (f64_le _ _); [split; [by left|done]|]. rewrite currentSpend_local by done.
    pose proof (counter_touched tenantID t t1 e (OpCheck t t1 t2 t3)) as H1.
    pose proof (counter_enforcer t (monthKey t1) e) as He.
    destruct (counterForMonthLocked t (monthKey t1) e) as [e' c]. simpl in *.
    split; [apply H1; [left|done]|by subst].
  - unfold Usage. rewrite currentSpend_local by done.
    pose proof (counter_touched tenantID t t1 e (OpUsage t t0 t1 t2 t3)) as H1.
    pose proof (counter_enforcer t (monthKey t1) e) as He.
    destruct (counterForMonthLocked t (monthKey t1) e) as [e' c]. simpl in *.
    split; [apply H1; [right; left|done]|by subst].
  - unfold SetOverride. case_decide; (split; [by left|done]).
Qed.

Lemma step_config tenantID op e : spendBackend e = None →
  defaults (quota_step e op) = defaults e ∧
  Effective tenantID (quota_step e op) =
    match configured tenantID op with Some c => c | None => Effective tenantID e end.
Proof.
  intros Hb. unfold Effective, effectiveLocked.
  destruct op as [t now|t a t1 t2|t t1 t2 t3|t t0 t1 t2 t3|t c]; simpl.
  - by destruct (AllowRequest_spend t now e) as [m ->].
  - unfold AddSpend. case_decide; [done|]. destruct (f64_le _ _); [done|]. rewrite Hb.
    pose proof (counter_enforcer t (monthKey t1) e) as He.
    destruct (counterForMonthLocked t (monthKey t1) e) as [e' c]. simpl in *. by subst.
  - unfold CheckSpend. case_decide; [done|]. destruct (f64_le _ _); [done|].
    rewrite currentSpend_local by done. pose proof (counter_enforcer t (monthKey t1) e) as He.
    destruct (counterForMonthLocked t (monthKey t1) e) as [e' c]. simpl in *. by subst.
  - unfold Usage. rewrite currentSpend_local by done.
    pose proof (counter_enforcer t (monthKey t1) e) as He.
    destruct (counterForMonthLocked t (monthKey t1) e) as [e' c]. simpl in *. by subst.
  - unfold SetOverride. destruct (decide (t = "")) as [->|Ht].
    { rewrite decide_False by naive_solver. done. }
    simpl. destruct (decide (t = tenantID)) as [->|Hne].
    + by rewrite lookup_insert_eq, decide_True.
    + rewrite lookup_insert_ne, decide_False by naive_solver. done.
Qed.

Lemma step_ledger_ok tenantID ops op e :
  ledger_ok tenantID ops e →
  (∀ t, t ∈ readings op → in_calendar t ∧
    ∀ t', t' ∈ ops ≫= readings → in_calendar t' ∧ (wall t' ≤ wall t)%Z) →
  ledger_ok tenantID (ops ++ [op]) (quota_step e op).
Proof.
  intros Hok Hr. pose proof Hok as [Hb Hcfg Hctr].
  destruct (step_touched tenantID op e Hb) as [Htouch Hb'].
  destruct (step_config tenantID op e Hb) as [Hd He].
  split; [done| |].
  - rewrite He, Hd, Hcfg, omap_app. cbn [omap list_omap].
    destruct (configured tenantID op); [by rewrite last_snoc|by rewrite app_nil_r].
  - destruct Htouch as [[-> Hno]|(t & c & Ht & -> & Hm & Hu & Hch)].
    + destruct (spendCache e !! tenantID) as [c|].
      * destruct Hctr as (Hu & t0 & Ht0 & Hm & Hall). split.
        { rewrite spent_app. csimpl. by rewrite Hno. }
        exists t0. split_and!; [rewrite bind_app; set_solver|done|].
        intros op' t a [Hop| ->%list_elem_of_singleton]%elem_of_app Hc; [by eapply Hall|congruence].
      * intros op' [Hop| ->%list_elem_of_singleton]%elem_of_app; auto.
    + destruct (Hr t Ht) as [Hcal Hpast]. split.
      * rewrite Hu, (counter_spent tenantID ops e t Hok Hcal Hpast), Hm, spent_app. csimpl.
        destruct (charge tenantID op) as [[t' a]|] eqn:Hc; [|done].
        rewrite (Hch t' a) by done. simpl. by rewrite decide_True.
      * exists t. split_and!; [rewrite bind_app; set_solver|done|].
        intros op' t' a [Hop| ->%list_elem_of_singleton]%elem_of_app Hc.
        -- apply Hpast, list_elem_of_bind. exists op'. split; [|done].
           destruct op'; simpl in Hc; try done. case_decide; simplify_eq/=. left.
        -- by rewrite (Hch t' a).
Qed.

(** Readings that follow each other, in the years 0 to 9999. *)
Definition clock_ok (ts : list Instant) : Prop :=
  StronglySorted Z.le (wall <$> ts) ∧ Forall in_calendar ts.

Lemma clock_ok_app ts1 ts2 : clock_ok (ts1 ++ ts2) →
  clock_ok ts1 ∧ ∀ t, t ∈ ts2 → in_calendar t ∧
    ∀ t', t' ∈ ts1 → in_calendar t' ∧ (wall t' ≤ wall t)%Z.
Proof.
  intros [Hs Hc]. rewrite fmap_app in Hs. apply StronglySorted_app in Hs as (Hle & Hs1 & _).
  apply Forall_app in Hc as [Hc1 Hc2]. split; [done|]. rewrite Forall_forall in Hc1, Hc2.
  intros t Ht. split; [by apply Hc2|]. intros t' Ht'. split; [by apply Hc1|].
  apply Hle; by apply list_elem_of_fmap_2.
Qed.

Lemma run_ledger_ok cfg tenantID ops : clock_ok (ops ≫= readings) →
  ledger_ok tenantID ops (run_quota cfg ops).
Proof.
  unfold run_quota. induction ops as [|op ops IH] using rev_ind; intros Hc.
  { split; [done|done|]. cbn [foldl spendCache NewEnforcer]. rewrite lookup_empty. intros op Hop. by apply elem_of_nil in Hop. }
  rewrite bind_app in Hc. apply clock_ok_app in Hc as [Hc Hop]. rewrite foldl_app.
  apply step_ledger_ok; [by apply IH|]. intros t Ht. apply Hop. csimpl. by rewrite app_nil_r.
Qed.

(** C24: without a shared ledger, whatever requests, charges, checks and overrides
    came before, as long as the clock goes forward, the usage of a tenant is the
    sum, in order, of the positive amounts charged to it in the current UTC month:
    nothing is lost, other tenants' charges and other months' do not count. The
    spend check passes exactly for the anonymous tenant, for a tenant without a
    cap, and while that sum is below the cap last configured. *)
Theorem spend_ledger (cfg : Config) (ops : list quota_op) (tenantID : string) (t0 t1 t2 t3 : Instant) :
  clock_ok ((ops ≫= readings) ++ [t0; t1; t2; t3]) →
  let e := run_quota cfg ops in
  let cap := MonthlySpendUSD (default cfg (last (omap (configured tenantID) ops))) in
  (Usage tenantID t0 t1 t2 t3 e w).2 = mkUsage (monthKey t0) (spent tenantID (monthKey t1) ops) ∧
  (CheckSpend tenantID t1 t2 t3 e w).2 =
    (bool_decide (tenantID = "") || f64_le cap f64_zero ||
     f64_lt (spent tenantID (monthKey t1) ops) cap).
Proof.
  intros Hc. cbv zeta. apply clock_ok_app in Hc as [Hc Ht1].
  pose proof (run_ledger_ok cfg tenantID ops Hc) as Hok.
  destruct (Ht1 t1) as [Hcal Hpast]; [set_solver|].
  pose proof (counter_spent tenantID ops _ t1 Hok Hcal Hpast) as Hu.
  assert (defaults (run_quota cfg ops) = cfg) as Hd.
  { clear Ht1 Hok Hcal Hpast Hu Hc. unfold run_quota.
    assert (∀ e, spendBackend e = None → defaults (foldl quota_step e ops) = defaults e) as Hd.
    { induction ops as [|op ops IH]; intros e Hb; [done|]. simpl.
      destruct (step_touched tenantID op e Hb) as [_ Hb']. rewrite IH by done.
      by destruct (step_config tenantID op e Hb). }
    by rewrite Hd. }
  destruct Hok as [Hb Hcfg _]. rewrite Hd in Hcfg.
  unfold Usage, CheckSpend. rewrite currentSpend_local by done.
  pose proof (counter_enforcer tenantID (monthKey t1) (run_quota cfg ops)) as He.
  destruct (counterForMonthLocked tenantID (monthKey t1) (run_quota cfg ops)) as [e' c].
  simpl in He, Hu. rewrite <-Hcfg. split; [simpl; by rewrite Hu|].
  case_decide as Hn; [by rewrite bool_decide_true|]. rewrite bool_decide_false by done. simpl.
  destruct (f64_le _ f64_zero); [done|]. simpl. rewrite Hu. by subst e'.
Qed.
End ledger.

(** ** Bursts *)

Section burst.
Context {conv : GoConv} {B : Type} (w : B) (path tenantID : string).
Implicit Types e : Enforcer B.

(** A series of requests through the middleware; each takes a reading of the
    clock for its rate, and three for its spend. *)
Fixpoint serve_all (nows : list (Instant * (Instant * Instant * Instant))) (enf : option (Enforcer B))
  : list QuotaAnswer :=
  match nows with
  | [] => []
  | (now, (t1, t2, t3)) :: nows =>
      let '(enf, answer) := QuotaEnforce path tenantID now t1 t2 t3 enf w in
      answer :: serve_all nows enf
  end.

Lemma refill_same cap rate now b : mono now = mono (b_last b) → refill cap rate now b = b.
Proof.
  intros H. unfold refill. rewrite H. unfold time_sub. by rewrite Z.sub_diag.
Qed.

Definition limited (n : Z) e : Prop :=
  let cfg := Effective tenantID e in
  RateBurst cfg = n ∧ f64_le (RatePerSec cfg) f64_zero = false ∧
  f64_le (MonthlySpendUSD cfg) f64_zero = true.

(** Any request while [k] tokens are left and no time has passed. *)
Lemma allow_tokens now e b k :
  tenantID ≠ "" → (0 < RateBurst (Effective tenantID e))%Z →
  f64_le (RatePerSec (Effective tenantID e)) f64_zero = false →
  default (mkBucket (f64_of_Z (RateBurst (Effective tenantID e))) now) (buckets e !! tenantID) = b →
  mono now = mono (b_last b) → tokens b = f64_of_Z k → (0 ≤ k < 2 ^ 53)%Z →
  AllowRequest tenantID now e =
    if decide (1 ≤ k)%Z
    then (set_buckets e (<[tenantID := mkBucket (f64_of_Z (k - 1)) (b_last b)]> (buckets e)), (true, 0%Z))
    else (set_buckets e (<[tenantID := b]> (buckets e)),
          (false, f64_to_int (f64_mul (f64_div (f64_sub f64_one (tokens b))
             (RatePerSec (Effective tenantID e))) (f64_of_Z Second)))).
Proof.
  unfold Effective. intros Ht Hburst Hrate Hb Hnow Htok Hk. unfold AllowRequest.
  rewrite decide_False by done. rewrite Hrate. unfold capacityFor. rewrite (decide_True _ _ Hburst).
  assert (match buckets e !! tenantID with
    | Some b => b | None => mkBucket (f64_of_Z (RateBurst (effectiveLocked tenantID e))) now
    end = b) as -> by (rewrite <-Hb; by destruct (buckets e !! tenantID)).
  rewrite refill_same, Htok, f64_one_le by done.
  case_decide as H1; [rewrite bool_decide_true, f64_sub_one by (done || lia)|rewrite bool_decide_false by done];
    done.
Qed.

(** One request through the middleware. *)
Lemma serve_one now t1 t2 t3 e n b k :
  isLLMProviderPath path = true → tenantID ≠ "" → limited n e → (0 < n)%Z →
  default (mkBucket (f64_of_Z n) now) (buckets e !! tenantID) = b →
  mono now = mono (b_last b) → tokens b = f64_of_Z k → (0 ≤ k < 2 ^ 53)%Z →
  ∃ b' answer, QuotaEnforce path tenantID now t1 t2 t3 (Some e) w =
      (Some (set_buckets e (<[tenantID := b']> (buckets e))), answer) ∧
    b_last b' = b_last b ∧ tokens b' = f64_of_Z (Z.max 0 (k - 1)) ∧
    if decide (1 ≤ k)%Z then answer = Serve else ∃ s, answer = TooManyRequests s ∧ (1 ≤ s)%Z.
Proof.
  intros Hp Ht (Hburst & Hrate & Hcap) Hn Hb Hnow Htok Hk. unfold QuotaEnforce, isQuotaPath.
  rewrite Hp, (decide_False _ _ Ht), (allow_tokens now e b k) by (done || by rewrite Hburst).
  case_decide as H1; simpl.
  - unfold CheckSpend. rewrite (decide_False _ _ Ht).
    change (Effective tenantID (set_buckets e ?m)) with (Effective tenantID e). rewrite Hcap. simpl.
    do 2 eexists. split_and!; [done|done| |done]. simpl. f_equal. lia.
  - do 2 eexists. split_and!; [done|done| |].
    + rewrite Htok. f_equal. lia.
    + eexists. split; [done|]. case_decide; lia.
Qed.

(** Serving from [k] tokens: [k] requests pass, the others wait. *)
Lemma serve_tokens nows e n b k :
  isLLMProviderPath path = true → tenantID ≠ "" → limited n e → (0 < n)%Z →
  buckets e !! tenantID = Some b → Forall (λ t, mono t.1 = mono (b_last b)) nows →
  tokens b = f64_of_Z k → (0 ≤ k < 2 ^ 53)%Z →
  ∃ waits, serve_all nows (Some e) = replicate (Z.to_nat k `min` length nows) Serve ++
      (TooManyRequests <$> waits) ∧ Forall (λ s, 1 ≤ s)%Z waits.
Proof.
  intros Hp Ht Hl Hn. revert e b k Hl.
  induction nows as [|[now [[t1 t2] t3]] nows IH]; intros e b k Hl Hb Hnow Htok Hk.
  { exists []. by rewrite Nat.min_0_r. }
  apply Forall_cons in Hnow as [Hnow Hrest]. simpl in Hnow.
  destruct (serve_one now t1 t2 t3 e n b k) as (b' & answer & Hq & Hlast & Htok' & Hans);
    [done..|by rewrite Hb|done|done|done|].
  cbn [serve_all]. rewrite Hq.
  destruct (IH (set_buckets e (<[tenantID := b']> (buckets e))) b' (Z.max 0 (k - 1)))
    as (waits & -> & Hw); [done|simpl; apply lookup_insert_eq|by rewrite Hlast|done|lia|].
  case_decide as H1.
  - subst answer. exists waits. split; [|done].
    cbn [length]. by replace (Z.to_nat k `min` S (length nows)) with
      (S (Z.to_nat (Z.max 0 (k - 1)) `min` length nows)) by lia.
  - destruct Hans as (s & -> & Hs). exists (s :: waits). split; [|by constructor].
    replace (Z.to_nat (Z.max 0 (k - 1))) with 0 by lia. by replace (Z.to_nat k) with 0 by lia.
Qed.

(** a burst of requests of a tenant on the provider routes, at one instant:
    exactly [RateBurst] of them are served, whatever the rate, and every other is
    answered 429 with a wait of at least a second. The double arithmetic of the
    bucket loses no token below 2^53. *)
Theorem burst_bound (nows : list (Instant * (Instant * Instant * Instant))) (now : Instant) (n : Z)
    (e : Enforcer B) :
  isLLMProviderPath path = true → tenantID ≠ "" → limited n e → (0 < n < 2 ^ 53)%Z →
  buckets e !! tenantID = None → Forall (λ t, mono t.1 = mono now) nows →
  ∃ waits, serve_all nows (Some e) = replicate (Z.to_nat n `min` length nows) Serve ++
      (TooManyRequests <$> waits) ∧ Forall (λ s, 1 ≤ s)%Z waits.
Proof.
  intros Hp Ht Hl Hn Hb Hnow. destruct nows as [|[now' [[t1 t2] t3]] nows].
  { exists []. by rewrite Nat.min_0_r. }
  apply Forall_cons in Hnow as [Hnow Hrest]. simpl in Hnow.
  destruct (serve_one now' t1 t2 t3 e n (mkBucket (f64_of_Z n) now') n)
    as (b' & answer & Hq & Hlast & Htok' & Hans); [done..|lia|by rewrite Hb|done|done|lia|].
  cbn [serve_all]. rewrite Hq. simpl in Hlast.
  destruct (serve_tokens nows (set_buckets e (<[tenantID := b']> (buckets e))) n b'
    (Z.max 0 (n - 1))) as (waits & -> & Hw); [done..|lia|simpl; apply lookup_insert_eq| |done|lia|].
  { by rewrite Hlast, Hnow. }
  rewrite decide_True in Hans by lia. subst answer. exists waits. split; [|done].
  cbn [length]. by replace (Z.to_nat n `min` S (length nows)) with
    (S (Z.to_nat (Z.max 0 (n - 1)) `min` length nows)) by lia.
Qed.
End burst.

(** ** Examples *)

Definition ex_cfg : Config := mkConfig f64_one 3 (f64_of_Z 10).

Definition at_second (s : Z) : Instant := mkInstant (s * Second) (s * Second).

(** The month rolls over; an anonymous tenant is never charged. *)
Definition ex_charges : list quota_op :=
  [OpAdd "a" (f64_of_Z 4) (at_second 2591999) (at_second 2591999);
   OpAdd "a" (f64_of_Z 3) (at_second 2678399) (at_second 2678399);
   OpAdd "a" (f64_of_Z 2) (at_second 2678400) (at_second 2678400);
   OpAdd "b" (f64_of_Z 9) (at_second 2678401) (at_second 2678401);
   OpAdd "a" (f64_of_Z 6) (at_second 2678402) (at_second 2678402)].

Lemma spend_ledger_witness :
  let e := run_quota (conv := amd64_conv) tt ex_cfg ex_charges in
  let t := at_second 2678403 in
  (Usage "a" t t t t e tt).2 = mkUsage "1970-02" (f64_of_Z 8) ∧ (CheckSpend "a" t t t e tt).2 = true.
Proof.
  cbv zeta. set (t := at_second 2678403).
  assert (clock_ok ((ex_charges ≫= readings) ++ [t; t; t; t])) as Hc.
  { split.
    - vm_compute. repeat constructor; intros ?; discriminate.
    - repeat constructor; vm_compute; intros ?; discriminate. }
  destruct (spend_ledger (conv := amd64_conv) tt ex_cfg ex_charges "a" t t t t Hc) as [Hu Hs].
  split; [rewrite Hu|rewrite Hs]; vm_compute; reflexivity.
Defined.

Definition ex_limited : Enforcer unit :=
  SetOverride "a" (mkConfig f64_one 2 f64_zero) (NewEnforcer ex_cfg).

Lemma burst_bound_witness :
  let t := at_second 5 in
  serve_all (conv := amd64_conv) tt "/v1/messages" "a" (replicate 4 (t, (t, t, t))) (Some ex_limited) =
    [Serve; Serve; TooManyRequests 1; TooManyRequests 1] ∧
  ∃ waits, serve_all (conv := amd64_conv) tt "/v1/messages" "a" (replicate 4 (t, (t, t, t)))
    (Some ex_limited) = replicate 2 Serve ++ (TooManyRequests <$> waits).
Proof.
  cbv zeta. set (t := at_second 5). split; [vm_compute; reflexivity|].
  destruct (burst_bound (conv := amd64_conv) tt "/v1/messages" "a" (replicate 4 (t, (t, t, t))) t 2
    ex_limited) as (waits & Hw & _).
  - vm_compute. reflexivity.
  - discriminate.
  - split; [|split]; vm_compute; reflexivity.
  - lia.
  - vm_compute. reflexivity.
  - repeat constructor.
  - exists waits. exact Hw.
Defined.

(** A look at the counter of an earlier month, by a caller whose clock reading is
    older than the one that opened the current month, drops what the current month
    had accrued. *)
Lemma stale_month_resets :
  let e := run_quota (conv := amd64_conv) tt ex_cfg ex_charges in
  let e' := (Usage "a" (at_second 0) (at_second 0) (at_second 0) (at_second 0) e tt).1 in
  let t := at_second 2678403 in
  us_SpendUSD (Usage "a" t t t t e tt).2 = f64_of_Z 8 ∧
  us_SpendUSD (Usage "a" t t t t e' tt).2 = f64_zero.
Proof. vm_compute. done. Qed.
