(* ===== verification/GoStrings.v ===== *)
(** The functions of Go's [strings] package that depend on white space, on byte
    strings that hold UTF-8 text: [TrimSpace], [Fields] and [Join]. *)

From S2P Require Import Prelude GoBase.

(** ** White space *)

Definition byte (n : nat) : string := String (Ascii.ascii_of_nat n) "".

(** The characters of [unicode.IsSpace], as UTF-8. None starts inside another
    character, so scanning bytes finds the same ones as scanning characters. *)
Definition white_space : list string :=
  (byte <$> [9; 10; 11; 12; 13; 32]) ++
  [byte 194 +:+ byte 133; byte 194 +:+ byte 160; byte 225 +:+ byte 154 +:+ byte 128]%string ++
  ((λ n, byte 226 +:+ byte 128 +:+ byte n)%string <$> seq 128 11 ++ [168; 169; 175]) ++
  [byte 226 +:+ byte 129 +:+ byte 159; byte 227 +:+ byte 128 +:+ byte 128]%string.

Definition str_drop (n : nat) (s : string) : string := String.substring n (String.length s - n) s.
Definition str_take (n : nat) (s : string) : string := String.substring 0 n s.

(** Both loops strip one character at a time, so the length of the string is
    enough fuel. *)
Fixpoint trim_left (fuel : nat) (s : string) : string :=
  match fuel with
  | O => s
  | S fuel =>
      match find (has_prefix s) white_space with
      | Some c => trim_left fuel (str_drop (String.length c) s)
      | None => s
      end
  end.

Fixpoint trim_right (fuel : nat) (s : string) : string :=
  match fuel with
  | O => s
  | S fuel =>
      match find (has_suffix s) white_space with
      | Some c => trim_right fuel (str_take (String.length s - String.length c) s)
      | None => s
      end
  end.

Definition TrimSpace (s : string) : string :=
  let s := trim_left (String.length s) s in trim_right (String.length s) s.

(** The loop of [strings.Fields]: [cur] is the word being read. Each step consumes
    a byte at least, so the length of the string is enough fuel. *)
Fixpoint fields (fuel : nat) (cur s : string) : list string :=
  let flush rest := if decide (cur = "") then rest else cur :: rest in
  match fuel, s with
  | S fuel, String a s' =>
      match find (has_prefix s) white_space with
      | Some c => flush (fields fuel "" (str_drop (String.length c) s))
      | None => fields fuel (cur +:+ String a "")%string s'
      end
  | _, _ => flush []
  end.

Definition Fields (s : string) : list string := fields (String.length s) "" s.

(** [strings.Join]. *)
Definition Join (words : list string) (sep : string) : string := String.concat sep words.

Definition space : string := byte 32.

Lemma str_app_nil_r s : (s +:+ "")%string = s.
Proof. induction s as [|a s IH]; [done|]. exact (f_equal (String a) IH). Qed.

Lemma str_app_inj a b c : (a +:+ b)%string = (a +:+ c)%string → b = c.
Proof. induction a as [|x a IH]; [done|]. intros [= H]. by apply IH. Qed.

Lemma Join_cons w ws sep : ws ≠ [] → Join (w :: ws) sep = (w +:+ sep +:+ Join ws sep)%string.
Proof. by destruct ws. Qed.

Lemma Join_app ws1 ws2 sep : ws1 ≠ [] → ws2 ≠ [] →
  Join (ws1 ++ ws2) sep = (Join ws1 sep +:+ sep +:+ Join ws2 sep)%string.
Proof.
  intros H1 H2. induction ws1 as [|w ws1 IH]; [done|]. destruct ws1 as [|w' ws1].
  { simpl app. by rewrite Join_cons. }
  rewrite <-app_comm_cons, !Join_cons, IH by done. by rewrite !str_app_assoc.
Qed.

(** Joining without a separator. *)
Definition cat (l : list string) : string := foldr String.append "" l.

Lemma cat_app l1 l2 : cat (l1 ++ l2) = (cat l1 +:+ cat l2)%string.
Proof.
  induction l1 as [|s l1 IH]; [done|]. change ((s +:+ cat (l1 ++ l2))%string = ((s +:+ cat l1) +:+ cat l2)%string).
  by rewrite IH, str_app_assoc.
Qed.

Lemma substring_0 i s : String.substring i 0 s = "".
Proof. revert i. induction s as [|a s IH]; intros [|i]; [done..|apply IH]. Qed.

Lemma substring_split i n m s :
  (String.substring i n s +:+ String.substring (i + n) m s)%string = String.substring i (n + m) s.
Proof.
  revert i n. induction s as [|a s IH]; intros i n.
  { by destruct i, n, m. }
  destruct i as [|i]; [|exact (IH i n)]. destruct n as [|n]; [done|].
  exact (f_equal (String a) (IH 0 n)).
Qed.

Lemma substring_all s : String.substring 0 (String.length s) s = s.
Proof. induction s as [|a s IH]; [done|]. exact (f_equal (String a) IH). Qed.

Lemma str_drop_app a b : str_drop (String.length a) (a +:+ b) = b.
Proof.
  unfold str_drop. rewrite str_length_app. replace (String.length a + String.length b - String.length a)
    with (String.length b) by lia.
  induction a as [|x a IH]; [apply substring_all|exact IH].
Qed.

Lemma str_drop_length n s : String.length (str_drop n s) ≤ String.length s - n.
Proof.
  unfold str_drop. generalize (String.length s - n) as m. revert n.
  induction s as [|a s IH]; intros [|n] [|m]; simpl; try lia; [|apply IH..].
  specialize (IH 0 m). lia.
Qed.

Lemma str_take_app a b : str_take (String.length a) (a +:+ b) = a.
Proof. unfold str_take. induction a as [|x a IH]; [apply substring_0|]. simpl. by rewrite IH. Qed.

Lemma str_app_eq_app a b c d : (a +:+ b = c +:+ d)%string →
  ∃ e, (a = c +:+ e ∧ d = e +:+ b ∨ c = a +:+ e ∧ b = e +:+ d)%string.
Proof.
  revert c. induction a as [|x a IH]; intros [|y c] H.
  - exists "". by left.
  - exists (String y c). by right.
  - exists (String x a). left. by split.
  - injection H as -> H. destruct (IH c H) as (e & [[-> ->]|[-> ->]]); exists e; [by left|by right].
Qed.

(** ** Splitting what was joined *)

(** A word: not empty, and white space starts at none of its bytes. *)
Fixpoint blank_free (s : string) : bool :=
  match s with
  | EmptyString => true
  | String _ s' => negb (existsb (has_prefix s) white_space) && blank_free s'
  end.

Definition word (s : string) : Prop := s ≠ "" ∧ blank_free s = true.

Lemma find_none_existsb {A} (f : A → bool) l : existsb f l = false → find f l = None.
Proof.
  induction l as [|x l IH]; simpl; [done|]. intros [-> H]%orb_false_iff. by apply IH.
Qed.

Fixpoint has_blank (s : string) : bool :=
  match s with
  | EmptyString => false
  | String a s => bool_decide (Ascii.nat_of_ascii a = 32) || has_blank s
  end.

Lemma has_prefix_app u v c : has_blank c = false →
  has_prefix (u +:+ space +:+ v) c = true → has_prefix u c = true.
Proof.
  revert u. induction c as [|x c IH]; intros u Hc H; [by destruct u|].
  simpl in Hc. apply orb_false_iff in Hc as [Hx Hc]. apply bool_decide_eq_false in Hx.
  destruct u as [|a u]; unfold has_prefix in *; simpl in H |- *.
  - exfalso. destruct (Ascii.ascii_dec x _) as [->|]; [|done]. by apply Hx.
  - destruct (Ascii.ascii_dec x a); [|done]. by apply IH.
Qed.

(** No white space character holds a blank after its first byte. *)
Lemma white_space_inner :
  forallb (λ c, match c with EmptyString => false | String _ c' => negb (has_blank c') end)
    white_space = true.
Proof. by vm_compute. Qed.

Lemma blank_free_app a u v :
  existsb (has_prefix (String a u)) white_space = false →
  existsb (has_prefix (String a u +:+ space +:+ v)) white_space = false.
Proof.
  intros H. apply not_true_iff_false. intros (c & Hc & Hp)%existsb_exists.
  apply not_true_iff_false in H. apply H, existsb_exists. exists c. split; [done|].
  pose proof white_space_inner as Hw. rewrite forallb_forall in Hw. specialize (Hw c Hc).
  destruct c as [|x c]; [done|]. apply negb_true_iff in Hw. unfold has_prefix in *. simpl in *.
  destruct (Ascii.ascii_dec x a); [|done]. by eapply has_prefix_app.
Qed.

Definition ends_word (rest : string) : Prop := rest = "" ∨ ∃ v, rest = (space +:+ v)%string.

Lemma fields_word w k cur rest : blank_free w = true → ends_word rest →
  fields (String.length w + k) cur (w +:+ rest) = fields k (cur +:+ w) rest.
Proof.
  intros Hw Hr. revert cur Hw. induction w as [|a w IH]; intros cur Hw.
  { by rewrite str_app_nil_r. }
  cbn [blank_free] in Hw. apply andb_true_iff in Hw as [Hb Hw]. apply negb_true_iff in Hb.
  assert (find (has_prefix (String a w +:+ rest)) white_space = None) as Hf.
  { apply find_none_existsb. destruct Hr as [-> |[v ->]]; [by rewrite str_app_nil_r|].
    by apply blank_free_app. }
  change (String.length (String a w) + k) with (S (String.length w + k)).
  change (String a w +:+ rest)%string with (String a (w +:+ rest)) in *.
  cbn [fields]. rewrite Hf, IH by done. by rewrite str_app_assoc.
Qed.

Lemma fields_space k cur v :
  fields (S k) cur (space +:+ v) = if decide (cur = "") then fields k "" v else cur :: fields k "" v.
Proof.
  change (space +:+ v)%string with (String (Ascii.ascii_of_nat 32) v). cbn [fields].
  assert (find (has_prefix (String (Ascii.ascii_of_nat 32) v)) white_space = Some (byte 32)) as ->.
  { destruct v; reflexivity. }
  assert (str_drop (String.length (byte 32)) (String (Ascii.ascii_of_nat 32) v) = v) as ->; [|done].
  unfold str_drop. cbn [String.length byte]. rewrite Nat.sub_succ, Nat.sub_0_r. apply substring_all.
Qed.

(** Joining words with single blanks is undone by [Fields]. *)
Lemma Fields_Join ws : Forall word ws → Fields (Join ws space) = ws.
Proof.
  intros Hws. unfold Fields. rewrite <-(Nat.add_0_r (String.length _)). generalize 0.
  induction Hws as [|w ws [Hne Hw] Hws IH]; intros k; [by destruct k|].
  destruct ws as [|w' ws].
  - change (Join [w] space) with w. rewrite <-(str_app_nil_r w) at 2.
    rewrite fields_word by (done || by left). change ("" +:+ w)%string with w.
    destruct k; simpl; by rewrite decide_False.
  - rewrite Join_cons, !str_length_app by done.
    replace (String.length w + (String.length space + String.length (Join (w' :: ws) space)) + k)
      with (String.length w + S (String.length (Join (w' :: ws) space) + k))
      by (change (String.length space) with 1; lia).
    rewrite fields_word by (done || (right; by eexists)). change ("" +:+ w)%string with w.
    rewrite fields_space, decide_False by done. f_equal. apply IH.
Qed.

(** ** Occurrences *)

(** [strings.Index]. *)
Fixpoint Index (s sub : string) : option nat :=
  if has_prefix s sub then Some 0
  else match s with EmptyString => None | String _ s => S <$> Index s sub end.

Lemma str_app_nil_l a : ("" +:+ a)%string = a.
Proof. done. Qed.

Lemma str_app_nil_inv a b : (a +:+ b)%string = "" → a = "" ∧ b = "".
Proof. by destruct a. Qed.

(** The first occurrence: the pattern does not occur before. *)
Lemma Index_Some s p idx : p ≠ "" → Index s p = Some idx →
  ∃ pre value, s = (pre +:+ p +:+ value)%string ∧ String.length pre = idx ∧
    ∀ a b, (pre +:+ p)%string = (a +:+ p +:+ b)%string → b = "".
Proof.
  intros Hp. revert idx. induction s as [|c s IH]; intros idx; cbn [Index];
    destruct (has_prefix _ p) eqn:Hpre.
  1, 3: intros [= <-]; apply has_prefix_spec in Hpre as [t Ht]; exists "", t; do 2 (split; [done|]);
    intros a b H; apply (f_equal String.length) in H; rewrite !str_length_app in H; simpl in H;
    destruct b; [done|simpl in H; lia].
  - done.
  - destruct (Index s p) as [i|] eqn:Hi; [|done]. intros [= <-].
    destruct (IH i eq_refl) as (pre & value & -> & Hlen & Hfirst). exists (String c pre), value.
    split; [done|]. split; [simpl; lia|]. intros [|x a] b H.
    + exfalso. assert (has_prefix (String c (pre +:+ p +:+ value)) p = true) as Ht; [|congruence].
      apply has_prefix_spec. exists (b +:+ value)%string.
      change (String c (pre +:+ p +:+ value)) with ((String c pre +:+ p +:+ value)%string).
      rewrite <-str_app_assoc, H. apply (str_app_assoc p b value).
    + injection H as -> H. by apply (Hfirst a b).
Qed.

Lemma Index_None s p : Index s p = None ↔ ∀ a b, s ≠ (a +:+ p +:+ b)%string.
Proof.
  induction s as [|c s IH]; cbn [Index]; destruct (has_prefix _ p) eqn:Hpre.
  - split; [done|]. apply has_prefix_spec in Hpre as [t Ht]. intros H. by destruct (H "" t).
  - split; [|done]. intros _ [|x a] b H; [|done].
    assert (has_prefix "" p = true); [apply has_prefix_spec; by exists b|congruence].
  - split; [done|]. apply has_prefix_spec in Hpre as [t Ht]. intros H. by destruct (H "" t).
  - destruct (Index s p) as [n|]; simpl.
    + split; [done|]. intros H. exfalso. assert (Some n = None) as [=].
      apply IH. intros a b ->. by apply (H (String c a) b).
    + split; [|done]. intros _ [|x a] b H.
      * assert (has_prefix (String c s) p = true); [apply has_prefix_spec; by exists b|congruence].
      * injection H as -> H. by apply (proj1 IH eq_refl a b).
Qed.
