(* ===== verification/Base64.v ===== *)
(** [encoding/base64]: the standard encoding and the unpadded one for URLs. *)

From Stdlib Require Import Ascii.
From S2P Require Import Prelude GoBase GoStrings.

Section encoding.
Context (alphabet : string) (padding : bool).

Definition base64_digit (z : Z) : ascii := default "="%char (String.get (Z.to_nat z) alphabet).

Definition pad (s : string) : string := if padding then s else "".

Fixpoint EncodeToString (bs : list Z) : string :=
  match bs with
  | a :: b :: c :: bs =>
      String (base64_digit (a / 4)) (String (base64_digit (a mod 4 * 16 + b / 16))
        (String (base64_digit (b mod 16 * 4 + c / 64)) (String (base64_digit (c mod 64)) (EncodeToString bs))))
  | [a; b] =>
      String (base64_digit (a / 4)) (String (base64_digit (a mod 4 * 16 + b / 16))
        (String (base64_digit (b mod 16 * 4)) (pad "=")))
  | [a] => String (base64_digit (a / 4)) (String (base64_digit (a mod 4 * 16)) (pad "=="))
  | [] => ""
  end%Z.

Definition base64_value (c : ascii) : option Z := Z.of_nat <$> Index alphabet (String c "").

(** Decoding, of padded texts. *)
Fixpoint DecodeString (s : string) : option (list Z) :=
  match s with
  | EmptyString => Some []
  | String a (String b (String c (String d s))) =>
      x ← base64_value a; y ← base64_value b;
      if decide (c = "="%char) then if decide (d = "="%char ∧ s = "") then Some [x * 4 + y / 16] else None
      else
        z ← base64_value c;
        if decide (d = "="%char) then
          if decide (s = "") then Some [x * 4 + y / 16; y mod 16 * 16 + z / 4] else None
        else
          w ← base64_value d; bs ← DecodeString s;
          Some (x * 4 + y / 16 :: y mod 16 * 16 + z / 4 :: z mod 4 * 64 + w :: bs)
  | _ => None
  end%Z.
End encoding.

Definition std_alphabet : string := "ABCDEFGHIJKLMNOPQRSTUVWXYZabcdefghijklmnopqrstuvwxyz0123456789+/".
Definition url_alphabet : string := "ABCDEFGHIJKLMNOPQRSTUVWXYZabcdefghijklmnopqrstuvwxyz0123456789-_".

Definition StdEncode : list Z → string := EncodeToString std_alphabet true.
Definition StdDecode : string → option (list Z) := DecodeString std_alphabet.
Definition RawURLEncode : list Z → string := EncodeToString url_alphabet false.

(** ** Round trip *)

Definition is_byte (z : Z) : Prop := (0 ≤ z < 256)%Z.

Lemma base64_digit_value z : (0 ≤ z < 64)%Z →
  base64_value std_alphabet (base64_digit std_alphabet z) = Some z ∧ base64_digit std_alphabet z ≠ "="%char.
Proof.
  intros Hz. assert (Forall (λ n, base64_value std_alphabet (base64_digit std_alphabet (Z.of_nat n)) = Some (Z.of_nat n) ∧
    base64_digit std_alphabet (Z.of_nat n) ≠ "="%char) (seq 0 64)) as HF by (apply (bool_decide_unpack _); by vm_compute).
  rewrite Forall_forall in HF. rewrite <-(Z2Nat.id z) by lia. apply HF, elem_of_seq. lia.
Qed.

Ltac arith := Z.to_euclidean_division_equations; lia.

(** Reads the digits of the goal. *)
Ltac read_digits :=
  repeat match goal with |- context [base64_value _ (base64_digit _ ?z)] =>
    let H := fresh "Hd" in destruct (base64_digit_value z) as [-> H]; [arith|]
  end;
  cbv beta iota delta [mbind option_bind]; rewrite ?decide_False by done.

Lemma decode_encode bs : Forall is_byte bs → StdDecode (StdEncode bs) = Some bs.
Proof.
  enough (∀ n bs, length bs ≤ n → Forall is_byte bs → StdDecode (StdEncode bs) = Some bs) as H
    by (intros; by eapply H).
  unfold StdDecode, StdEncode. clear bs. induction n as [|n IH]; intros [|a [|b [|c bs]]] Hl HF; try done; simpl in Hl; try lia;
    decompose_Forall_hyps; unfold is_byte in *; cbn [EncodeToString DecodeString pad]; read_digits.
  - do 2 f_equal. arith.
  - do 2 f_equal; [arith|]. f_equal. arith.
  - rewrite IH by (done || lia). f_equal. f_equal; [arith|]. f_equal; [arith|]. f_equal. arith.
Qed.

(** ** Texts without padding *)

(** Without padding every byte of the text is a letter, a digit, a dash or an
    underscore, and three bytes make four of them. *)
Lemma EncodeToString_chars alphabet bs P :
  Forall is_byte bs → (∀ z, (0 ≤ z < 64)%Z → P (base64_digit alphabet z)) →
  Forall P (String.list_ascii_of_string (EncodeToString alphabet false bs)).
Proof.
  intros HF HP. remember (length bs) as n eqn:Hn. revert bs HF Hn.
  induction (lt_wf n) as [n _ IH]. intros [|a [|b [|c bs]]] HF Hn; cbn [EncodeToString pad String.list_ascii_of_string];
    decompose_Forall_hyps; unfold is_byte in *; repeat constructor; try (apply HP; arith).
  eapply IH; [|done|done]. simpl. lia.
Qed.

Lemma EncodeToString_length alphabet k bs : length bs = 3 * k →
  String.length (EncodeToString alphabet false bs) = 4 * k.
Proof.
  revert bs. induction k as [|k IH]; intros [|a [|b [|c bs]]] Hl; simpl in Hl; try lia; [done|].
  cbn [EncodeToString String.length]. rewrite IH by lia. lia.
Qed.
