(* ===== verification/Authz.v ===== *)
(** Authentication and authorization of the management API: the roles of
    [internal/tenancy/types.go], the middleware of [internal/tenancy/middleware.go]
    and the route table of [internal/server/route_authz.go] and [server.go]. *)

From S2P Require Import Prelude GoBase GoStrings.

(** ** Roles *)

Definition Role := string.

Definition RoleViewer : Role := "viewer".
Definition RoleEditor : Role := "editor".
Definition RoleAdmin : Role := "admin".
Definition RolePlatform : Role := "platform".

Definition rank (r : Role) : Z :=
  if decide (r = RoleViewer) then 1
  else if decide (r = RoleEditor) then 2
  else if decide (r = RoleAdmin) then 3
  else if decide (r = RolePlatform) then 4
  else -1.

Definition AtLeast (r required : Role) : bool :=
  ((rank required <=? rank r) && (0 <? rank required))%Z.

Definition IsValid (r : Role) : bool := (0 <? rank r)%Z.

Definition IsAssignableViaAPI (r : Role) : bool := IsValid r && negb (bool_decide (r = RolePlatform)).

Definition AllRoles : list Role := [RoleViewer; RoleEditor; RoleAdmin; RolePlatform].

Record Principal := mkPrincipal { p_TenantID : string; p_KeyID : string; p_Role : Role }.

(** ** Credentials *)

(** The parts of a request authentication looks at; an absent header reads as
    the empty string. *)
Record AuthRequest := mkAuthRequest {
  ar_Path : string;
  ar_Authorization : string;
  ar_XApiKey : string;
  ar_ApiKey : string;
  ar_Cookie : option string   (* the cookie [SessionCookieName] *)
}.

(** [strings.ContainsAny(s, " \t\r\n")]. *)
Fixpoint contains_blank (s : string) : bool :=
  match s with
  | EmptyString => false
  | String c s => bool_decide (Ascii.nat_of_ascii c ∈ [32; 9; 13; 10]) || contains_blank s
  end.

(** [EqualFold] against "bearer" is equality up to ASCII case: no other
    character folds to one of its letters. *)
Definition ParseBearerToken (authHeader : string) : option string :=
  let authHeader := TrimSpace authHeader in
  if (String.length authHeader <=? 6)%nat || negb (bool_decide (lower_ascii (str_take 6 authHeader) = "bearer"))
  then None
  else
    let rest := str_drop 6 authHeader in
    if negb (has_prefix rest (byte 32)) && negb (has_prefix rest (byte 9)) then None
    else
      let token := TrimSpace rest in
      if bool_decide (token = "") || contains_blank token then None else Some token.

Definition ExtractAPIKey (r : AuthRequest) : string :=
  match ParseBearerToken (ar_Authorization r) with
  | Some token => token
  | None =>
      let v := TrimSpace (ar_XApiKey r) in
      if decide (v ≠ "") then v else TrimSpace (ar_ApiKey r)
  end.

Definition extractSessionToken (r : AuthRequest) : string := default "" (ar_Cookie r).

Definition sessionTokenPrefix : string := "mas_".

(** ** The credential store

    What the middleware asks of [tenancy.Store]; a lookup may change the store
    (it caches, it drops expired sessions). *)
Inductive AuthError := ErrInvalidKey | ErrInvalidSession | ErrNotFound | ErrStore (msg : string).

Class AuthStore (S : Type) := {
  Resolve : string → S → S * (AuthError + Principal);
  ResolveSession : string → S → S * (AuthError + Principal)
}.

(** A denial the hook is told about. *)
Definition denial : Type := Z * string.

(** What a middleware comes to: an answer of its own, or the next handler with
    the principal of the request's context. *)
Inductive AuthAnswer := Denied (status : Z) (message : string) | Next (p : option Principal).

Definition StatusUnauthorized : Z := 401.
Definition StatusForbidden : Z := 403.
Definition StatusInternalServerError : Z := 500.

Section middleware.
Context {S : Type} {store : AuthStore S}.

Definition resolveBearer (token : string) (st : S) : S * (AuthError + Principal) :=
  if has_prefix token sessionTokenPrefix then ResolveSession token st else Resolve token st.

Definition bestEffortPrincipal (r : AuthRequest) (st : S) : S * option Principal :=
  let key := ExtractAPIKey r in
  let '(st, found) :=
    if decide (key ≠ "") then
      let '(st, answer) := resolveBearer key st in
      (st, match answer with inl _ => None | inr p => Some p end)
    else (st, None) in
  match found with
  | Some p => (st, Some p)
  | None =>
      let token := extractSessionToken r in
      if decide (token ≠ "") then
        let '(st, answer) := ResolveSession token st in
        (st, match answer with inl _ => None | inr p => Some p end)
      else (st, None)
  end.

Definition deny (status : Z) (reason message : string) : list denial * AuthAnswer :=
  ([(status, reason)], Denied status message).

Definition AuthMiddleware (skip : option (AuthRequest → bool)) (r : AuthRequest) (st : S)
  : S * (list denial * AuthAnswer) :=
  if match skip with Some skip => skip r | None => false end then
    let '(st, p) := bestEffortPrincipal r st in (st, ([], Next p))
  else
    let key := ExtractAPIKey r in
    if decide (key ≠ "") then
      let '(st, answer) := resolveBearer key st in
      (st, match answer with
           | inl (ErrStore _) => deny StatusInternalServerError "auth store error" "auth store error"
           | inl _ => deny StatusUnauthorized "invalid credential" "invalid api key or session token"
           | inr p => ([], Next (Some p))
           end)
    else
      let token := extractSessionToken r in
      if decide (token ≠ "") then
        let '(st, answer) := ResolveSession token st in
        (st, match answer with
             | inl ErrInvalidSession | inl ErrNotFound =>
                 deny StatusUnauthorized "invalid session" "invalid or expired session"
             | inl _ => deny StatusInternalServerError "auth store error" "auth store error"
             | inr p => ([], Next (Some p))
             end)
      else
        (st, deny StatusUnauthorized "missing credentials"
               "missing Authorization bearer token, X-Api-Key header, or session cookie").

(** [RequireRole]: the handler behind it is [Next]. *)
Definition RequireRole (required : Role) (p : option Principal) : list denial * AuthAnswer :=
  match p with
  | None => deny StatusUnauthorized "authentication required" "authentication required"
  | Some p =>
      if negb (AtLeast (p_Role p) required)
      then deny StatusForbidden
             ("role " +:+ p_Role p +:+ " insufficient; " +:+ required +:+ " required")%string
             ("role " +:+ p_Role p +:+ " is insufficient; " +:+ required +:+ " required")%string
      else ([], Next (Some p))
  end.
End middleware.

(** ** The routes *)

Definition skipAuth (r : AuthRequest) : bool :=
  let path := ar_Path r in
  if decide (path ∈ ["/api/v1/health"; "/v1/chat/completions"; "/v1/messages";
    "/v1/messages/count_tokens"; "/v1/models"; "/v1/engines/process"; "/auth/login";
    "/auth/callback"; "/auth/logout"; "/openai/v1/chat/completions"; "/openai/v1/embeddings"]%string)
  then true
  else if has_prefix path "/openai/deployments/" then
    has_suffix path "/chat/completions" || has_suffix path "/embeddings"
  else false.

Definition roleOpen : Role := "".

Definition managementRouteFloors : gmap string Role := list_to_map [
  ("GET /api/v1/health", roleOpen);
  ("GET /api/v1/agents", roleOpen);
  ("GET /api/v1/agents/{name}", roleOpen);
  ("POST /api/v1/agents/{name}/reload", RoleEditor);
  ("POST /api/v1/agents", RoleEditor);
  ("PUT /api/v1/agents/{name}", RoleEditor);
  ("DELETE /api/v1/agents/{name}", RoleEditor);
  ("GET /api/v1/tenants", RolePlatform);
  ("POST /api/v1/tenants", RolePlatform);
  ("DELETE /api/v1/tenants/{id}", RolePlatform);
  ("GET /api/v1/tenants/{id}/keys", RoleEditor);
  ("POST /api/v1/tenants/{id}/keys", RoleAdmin);
  ("POST /api/v1/tenants/{id}/keys/rotate", RoleAdmin);
  ("PATCH /api/v1/keys/{id}", RoleAdmin);
  ("POST /api/v1/keys/{id}/rotate", RoleAdmin);
  ("POST /api/v1/keys/me/rotate", RoleViewer);
  ("POST /api/v1/keys/me/burn", RoleViewer);
  ("DELETE /api/v1/keys/{id}", RoleAdmin);
  ("GET /api/v1/audit", RoleAdmin);
  ("GET /api/v1/logs", roleOpen);
  ("GET /api/v1/logs/{id}", roleOpen);
  ("DELETE /api/v1/logs", roleOpen);
  ("GET /api/v1/logs/stream", roleOpen);
  ("GET /api/v1/logs/stream/metrics", RoleAdmin);
  ("GET /api/v1/costs", RoleViewer);
  ("GET /api/v1/pipelines", RoleViewer);
  ("GET /api/v1/pipelines/{name}", RoleViewer);
  ("PUT /api/v1/pipelines/{name}", RoleEditor);
  ("POST /api/v1/config/validate", RoleEditor);
  ("GET /api/v1/quota", RoleViewer);
  ("PUT /api/v1/tenants/{id}/quota", RolePlatform)]%string.

(** Tactics leave the table folded. *)
#[global] Opaque managementRouteFloors.

(** What is behind a mounted pattern: the handler, or the role check before it. *)
Inductive mounted := Bare | Guarded (floor : Role).

(** The mux, pattern to handler; [None] is a panic, which [mux.Handle] raises on a
    pattern it already has. *)
Definition mountManaged (multiTenant : bool) (pattern : string) (mux : gmap string mounted)
  : option (gmap string mounted) :=
  match managementRouteFloors !! pattern with
  | None => None
  | Some floor =>
      let h := if multiTenant && negb (bool_decide (floor = roleOpen)) then Guarded floor else Bare in
      match mux !! pattern with
      | Some _ => None
      | None => Some (<[pattern := h]> mux)
      end
  end.

(** The parts of the server that decide which routes are mounted. *)
Record ServerConfig := mkServerConfig {
  sc_tenancyH : bool;
  sc_auditH : bool;
  sc_logBroadcaster : bool;
  sc_LogStore : bool;
  sc_Pipelines : bool;
  sc_QuotaEnforcer : bool
}.

(** The management patterns [registerRoutes] mounts, in order. *)
Definition managed_patterns (c : ServerConfig) : list string :=
  ["GET /api/v1/health"; "GET /api/v1/agents"; "GET /api/v1/agents/{name}";
   "POST /api/v1/agents/{name}/reload"; "POST /api/v1/agents"; "PUT /api/v1/agents/{name}";
   "DELETE /api/v1/agents/{name}"]%string ++
  (if sc_tenancyH c then
     ["GET /api/v1/tenants"; "POST /api/v1/tenants"; "DELETE /api/v1/tenants/{id}";
      "GET /api/v1/tenants/{id}/keys"; "POST /api/v1/tenants/{id}/keys";
      "POST /api/v1/tenants/{id}/keys/rotate"; "PATCH /api/v1/keys/{id}";
      "POST /api/v1/keys/{id}/rotate"; "POST /api/v1/keys/me/rotate"; "POST /api/v1/keys/me/burn";
      "DELETE /api/v1/keys/{id}"]%string else []) ++
  (if sc_auditH c then ["GET /api/v1/audit"]%string else []) ++
  ["GET /api/v1/logs"; "GET /api/v1/logs/{id}"; "DELETE /api/v1/logs"]%string ++
  (if sc_logBroadcaster c
   then ["GET /api/v1/logs/stream"; "GET /api/v1/logs/stream/metrics"]%string else []) ++
  (if sc_LogStore c then ["GET /api/v1/costs"]%string else []) ++
  (if sc_Pipelines c
   then ["GET /api/v1/pipelines"; "GET /api/v1/pipelines/{name}"; "PUT /api/v1/pipelines/{name}"]%string
   else []) ++
  ["POST /api/v1/config/validate"]%string ++
  (if sc_QuotaEnforcer c
   then ["GET /api/v1/quota"; "PUT /api/v1/tenants/{id}/quota"]%string else []).

Definition registerRoutes (c : ServerConfig) : option (gmap string mounted) :=
  fold_opt (λ mux pattern, mountManaged (sc_tenancyH c) pattern mux) (managed_patterns c) ∅.

(** A management request through the chain: authentication in multi-tenant mode,
    then what the mux mounted for the [pattern] it matched. *)
Definition serve_managed {S} {store : AuthStore S} (multiTenant : bool) (m : mounted)
    (r : AuthRequest) (st : S) : S * (list denial * AuthAnswer) :=
  let '(st, (events, answer)) :=
    if multiTenant then AuthMiddleware (Some skipAuth) r st else (st, ([], Next None)) in
  match answer with
  | Denied _ _ => (st, (events, answer))
  | Next p =>
      match m with
      | Bare => (st, (events, Next p))
      | Guarded floor => let '(events', answer) := RequireRole floor p in (st, (events ++ events', answer))
      end
  end.

(** ** Properties *)

Lemma rank_cases r :
  (r = RoleViewer ∧ rank r = 1 ∨ r = RoleEditor ∧ rank r = 2 ∨ r = RoleAdmin ∧ rank r = 3 ∨
   r = RolePlatform ∧ rank r = 4 ∨ rank r = -1 ∧ r ∉ AllRoles)%Z.
Proof.
  unfold rank, AllRoles. repeat case_decide; subst; try tauto.
  do 4 right. split; [done|]. set_solver.
Qed.

Lemma AtLeast_platform r : AtLeast r RolePlatform = true ↔ r = RolePlatform.
Proof.
  unfold AtLeast. change (rank RolePlatform) with 4%Z.
  destruct (rank_cases r) as [[-> Hr]|[[-> Hr]|[[-> Hr]|[[-> Hr]|[Hr Hn]]]]]; rewrite Hr; try done.
  split; [done|]. intros ->. unfold AllRoles in Hn. set_solver.
Qed.

Section authz.
Context {S : Type} {store : AuthStore S}.

(** The store vouched for a principal on a credential of the request. *)
Definition vouched (r : AuthRequest) (p : Principal) : Prop :=
  ∃ token st st', token ≠ "" ∧
    (token = ExtractAPIKey r ∧ resolveBearer token st = (st', inr p) ∨
     token = extractSessionToken r ∧ ResolveSession token st = (st', inr p)).

Lemma bestEffort_vouched r st st' p : bestEffortPrincipal r st = (st', Some p) → vouched r p.
Proof.
  unfold bestEffortPrincipal, vouched. intros H.
  destruct (decide (ExtractAPIKey r ≠ "")) as [Hk|Hk].
  - destruct (resolveBearer (ExtractAPIKey r) st) as [st1 [e|q]] eqn:Hr; [|simplify_eq; eauto 10].
    destruct (decide (extractSessionToken r ≠ "")) as [Ht|Ht]; [|done].
    destruct (ResolveSession (extractSessionToken r) st1) as [st2 [e'|q]] eqn:Hs; simplify_eq; eauto 10.
  - destruct (decide (extractSessionToken r ≠ "")) as [Ht|Ht]; [|done].
    destruct (ResolveSession (extractSessionToken r) st) as [st2 [e'|q]] eqn:Hs; simplify_eq; eauto 10.
Qed.

(** What authentication lets through, and what it answers. *)
Lemma AuthMiddleware_answer r st :
  let '(_, (events, answer)) := AuthMiddleware (Some skipAuth) r st in
  match answer with
  | Next (Some p) => events = [] ∧ vouched r p
  | Next None => events = [] ∧ skipAuth r = true
  | Denied status _ =>
      skipAuth r = false ∧ ∃ reason, events = [(status, reason)] ∧
        (status = StatusUnauthorized ∨ status = StatusInternalServerError)
  end.
Proof.
  unfold AuthMiddleware. destruct (skipAuth r) eqn:Hskip.
  { destruct (bestEffortPrincipal r st) as [st' [p|]] eqn:Hb; [|done].
    split; [done|]. by eapply bestEffort_vouched. }
  destruct (decide (ExtractAPIKey r ≠ "")) as [Hk|Hk].
  { destruct (resolveBearer (ExtractAPIKey r) st) as [st1 [[]|p]] eqn:Hr; simpl; eauto 10.
    split; [done|]. unfold vouched. eauto 10. }
  destruct (decide (extractSessionToken r ≠ "")) as [Ht|Ht]; [|simpl; eauto 10].
  destruct (ResolveSession (extractSessionToken r) st) as [st1 [[]|p]] eqn:Hr; simpl; eauto 10.
  split; [done|]. unfold vouched. eauto 10.
Qed.

Lemma mount_all multi patterns mux mux' :
  fold_opt (λ mux pattern, mountManaged multi pattern mux) patterns mux = Some mux' →
  ∀ pattern m, mux' !! pattern = Some m → mux !! pattern = Some m ∨
    ∃ floor, managementRouteFloors !! pattern = Some floor ∧
      m = if multi && negb (bool_decide (floor = roleOpen)) then Guarded floor else Bare.
Proof.
  revert mux. induction patterns as [|q ps IH]; intros mux H pattern m Hm; [left; by injection H as ->|].
  cbn [fold_opt] in H. destruct (mountManaged multi q mux) as [mux1|] eqn:Hq; [|done].
  destruct (IH mux1 H pattern m Hm) as [H1|?]; [|by right]. unfold mountManaged in Hq.
  destruct (managementRouteFloors !! q) as [floor|] eqn:Hf; [|done].
  destruct (mux !! q) eqn:Hmq; [done|]. injection Hq as <-.
  apply lookup_insert_Some in H1 as [[<- <-]|[_ H1]]; [right; eauto|by left].
Qed.

(** C31: in multi-tenant mode a management handler runs only for a caller it is
    meant for. When a mounted route with a role floor is reached, the caller is a
    principal the store vouched for on a credential of this request, and its role
    is at least the floor. A route without a floor is reached anonymously only on
    the paths exempt from authentication. Every request that does not reach its
    handler is answered 401, 403 or 500 and told to the denial hook exactly once;
    403 answers exactly an authenticated caller below the floor. *)
Theorem managed_access (c : ServerConfig) (mux : gmap string mounted) (pattern : string)
    (m : mounted) (r : AuthRequest) (st : S) :
  registerRoutes c = Some mux → sc_tenancyH c = true → mux !! pattern = Some m →
  ∃ floor, managementRouteFloors !! pattern = Some floor ∧
  let '(_, (events, answer)) := serve_managed true m r st in
  match answer with
  | Next p =>
      events = [] ∧
      match p with
      | Some p => vouched r p ∧ (floor = roleOpen ∨ AtLeast (p_Role p) floor = true)
      | None => floor = roleOpen ∧ skipAuth r = true
      end
  | Denied status _ =>
      (∃ reason, events = [(status, reason)]) ∧
      (status = StatusUnauthorized ∨ status = StatusInternalServerError ∨
       status = StatusForbidden ∧ floor ≠ roleOpen ∧
         ∃ p, vouched r p ∧ AtLeast (p_Role p) floor = false)
  end.
Proof.
  intros Hreg Hmt Hm. unfold registerRoutes in Hreg. rewrite Hmt in Hreg.
  destruct (mount_all _ _ _ _ Hreg pattern m Hm) as [H|(floor & Hfloor & ->)];
    [by rewrite lookup_empty in H|].
  exists floor. split; [done|]. unfold serve_managed. pose proof (AuthMiddleware_answer r st) as Ha.
  destruct (AuthMiddleware (Some skipAuth) r st) as [st1 [events answer]].
  destruct answer as [status msg|p].
  { destruct Ha as (_ & reason & -> & Hs). split; [by eexists|]. tauto. }
  destruct (bool_decide (floor = roleOpen)) eqn:Hopen; cbn [andb negb]; bool_prop.
  { clear - Ha Hopen. destruct p as [p|]; destruct Ha as [-> Ha]; (split; [done|]);
      [split; [done|by left]|done]. }
  destruct p as [p|]; simpl.
  - destruct Ha as [-> Hv]. destruct (AtLeast (p_Role p) floor) eqn:Hal; simpl.
    + split; [done|]. split; [done|by right].
    + split; [by eexists|]. right. right. split; [done|]. split; [done|]. exists p. split; assumption.
  - destruct Ha as [-> Hv]. split; [by eexists|]. by left.
Qed.
End authz.

(** The routes of the tenant collection, which cross tenants. *)
Definition platform_routes : list string :=
  ["GET /api/v1/tenants"; "POST /api/v1/tenants"; "DELETE /api/v1/tenants/{id}";
   "PUT /api/v1/tenants/{id}/quota"]%string.

Definition server_configs : list ServerConfig :=
  let bools := [true; false] in
  t ← bools; a ← bools; b ← bools; l ← bools; p ← bools; q ← bools; [mkServerConfig t a b l p q].

Lemma elem_of_server_configs c : c ∈ server_configs.
Proof.
  apply list_elem_of_In.
  destruct c as [[] [] [] [] [] []]; vm_compute; repeat (first [left; reflexivity|right]).
Qed.

(** Every configuration mounts its routes, and in multi-tenant mode the routes of
    the tenant collection are behind the platform floor. *)
Definition routes_ok (c : ServerConfig) : bool :=
  match registerRoutes c with
  | None => false
  | Some mux =>
      forallb (λ pattern, match mux !! pattern with
        | Some (Guarded floor) => bool_decide (floor = RolePlatform)
        | Some Bare => negb (sc_tenancyH c)
        | None => true
        end) platform_routes
  end.

Lemma routes_all_ok c : routes_ok c = true.
Proof.
  assert (forallb routes_ok server_configs = true) as Hall by (vm_compute; reflexivity).
  rewrite forallb_forall in Hall. apply Hall, list_elem_of_In, elem_of_server_configs.
Qed.

(** the server starts in every configuration: each management route it mounts
    has a declared floor, and none is mounted twice. In multi-tenant mode the
    routes that manage the tenant collection admit the platform role and no other:
    any caller holding a role the management API can assign is answered 403. *)
Theorem platform_routes_reserved (c : ServerConfig) :
  ∃ mux, registerRoutes c = Some mux ∧
    ∀ pattern m, sc_tenancyH c = true → pattern ∈ platform_routes → mux !! pattern = Some m →
      m = Guarded RolePlatform ∧
      ∀ p, (RequireRole RolePlatform (Some p) = ([], Next (Some p)) ↔ p_Role p = RolePlatform) ∧
        (IsAssignableViaAPI (p_Role p) = true →
         ∃ events msg, RequireRole RolePlatform (Some p) = (events, Denied StatusForbidden msg)).
Proof.
  pose proof (routes_all_ok c) as Hok. unfold routes_ok in Hok. destruct (registerRoutes c) as [mux|]; [|done].
  exists mux. split; [done|]. intros pattern m Hmt Hin Hm. rewrite forallb_forall in Hok.
  specialize (Hok pattern (proj1 (list_elem_of_In _ _) Hin)). rewrite Hm, Hmt in Hok.
  destruct m as [|floor]; [done|]. bool_prop. subst floor. split; [done|]. intros p.
  unfold RequireRole. destruct (AtLeast (p_Role p) RolePlatform) eqn:Hal; simpl.
  - apply AtLeast_platform in Hal. rewrite Hal. split; [done|]. intros H. by vm_compute in H.
  - split; [|intros _; unfold deny; eauto]. split; [done|].
    intros Hp. apply AtLeast_platform in Hp. congruence.
Qed.

(** ** Examples *)

(** A store with one key of each kind. *)
#[local] Instance ex_store : AuthStore unit := {
  Resolve token st :=
    (st, if decide (token = "mak_editor") then inr (mkPrincipal "t1" "k1" RoleEditor)
         else if decide (token = "mak_admin") then inr (mkPrincipal "t1" "k2" RoleAdmin)
         else inl ErrInvalidKey);
  ResolveSession token st :=
    (st, if decide (token = "mas_view") then inr (mkPrincipal "t1" "u1" RoleViewer)
         else inl ErrInvalidSession)
}.

Definition ex_request (path auth : string) (cookie : option string) : AuthRequest :=
  mkAuthRequest path auth "" "" cookie.

Example ex_bearer :
  ParseBearerToken "  bEaReR   abc " = Some "abc" ∧ ParseBearerToken "Bearertoken" = None ∧
  ParseBearerToken "Bearer a b" = None ∧ ParseBearerToken "Bearer " = None.
Proof. by vm_compute. Qed.

(** The Azure alias of the embeddings route is exempt from authentication, the
    route it delegates to is not; nor are the other provider routes. *)
Lemma embeddings_alias_open :
  skipAuth (ex_request "/openai/v1/embeddings" "" None) = true ∧
  skipAuth (ex_request "/v1/embeddings" "" None) = false ∧
  skipAuth (ex_request "/v1/responses" "" None) = false ∧
  skipAuth (ex_request "/v1beta/models/m:generateContent" "" None) = false.
Proof. by vm_compute. Qed.

Definition ex_config : ServerConfig := mkServerConfig true true true true true true.

Lemma managed_access_witness :
  (serve_managed true (Guarded RoleAdmin) (ex_request "/api/v1/audit" "Bearer mak_admin" None) tt).2 =
    ([], Next (Some (mkPrincipal "t1" "k2" RoleAdmin))) ∧
  ∃ floor, managementRouteFloors !! "GET /api/v1/audit" = Some floor ∧ floor = RoleAdmin.
Proof.
  split; [vm_compute; reflexivity|].
  destruct (registerRoutes ex_config) as [mux|] eqn:Hreg; 
    [|pose proof (routes_all_ok ex_config) as H; unfold routes_ok in H; rewrite Hreg in H; discriminate].
  assert (mux !! "GET /api/v1/audit"%string = Some (Guarded RoleAdmin)) as Hm.
  { assert ((registerRoutes ex_config ≫= λ mux, mux !! "GET /api/v1/audit"%string) =
      Some (Guarded RoleAdmin)) as H by (vm_compute; reflexivity). rewrite Hreg in H. exact H. }
  destruct (managed_access ex_config mux "GET /api/v1/audit" (Guarded RoleAdmin)
    (ex_request "/api/v1/audit" "Bearer mak_admin" None) tt Hreg eq_refl Hm) as (floor & Hf & _).
  exists floor. split; [exact Hf|].
  assert (managementRouteFloors !! "GET /api/v1/audit"%string = Some RoleAdmin) as Hf'
    by (vm_compute; reflexivity).
  congruence.
Defined.
