(* ===== verification/AuthCache.v ===== *)
(** The cache of verified API keys, [internal/tenancy/auth_cache.go]: bounded,
    with a time to live, keyed by the digest of the plaintext. *)

From S2P Require Import Prelude GoBase Authz.

Record authCacheEntry := mkEntry { principal : Principal; expiry : Z }.

Record authCache := mkAuthCache {
  entries : gmap string authCacheEntry;
  ttl : Z;
  maxSize : Z
}.

Definition newAuthCache (ttl maxSize : Z) : authCache :=
  mkAuthCache ∅ (if decide (ttl ≤ 0)%Z then (5 * Minute)%Z else ttl)
    (if decide (maxSize ≤ 0)%Z then 1024%Z else maxSize).

Definition set_entries (c : authCache) m : authCache := mkAuthCache m (ttl c) (maxSize c).

Section cache.
Context {mr : MapRange} {sha : Sha256}.

Definition hashKey (plaintext : string) : string := sha256_hex plaintext.

(** [Get]; a nil cache is [None]. [t1] and [t2] are the readings of the clock
    under the shared and under the exclusive lock. *)
Definition Get (plaintext : string) (t1 t2 : Z) (c : option authCache)
  : option authCache * option Principal :=
  match c with
  | None => (None, None)
  | Some c =>
      if decide (plaintext = "") then (Some c, None)
      else
        let k := hashKey plaintext in
        match entries c !! k with
        | None => (Some c, None)
        | Some e =>
            if decide (expiry e < t1)%Z then
              (Some match entries c !! k with
                    | Some cur => if decide (expiry cur < t2)%Z then set_entries c (delete k (entries c)) else c
                    | None => c
                    end, None)
            else (Some c, Some (principal e))
        end
  end.

Definition evictOneLocked (now : Z) (c : authCache) : authCache :=
  match find (λ ke, bool_decide (expiry ke.2 < now)%Z) (range (entries c)) with
  | Some (key, _) => set_entries c (delete key (entries c))
  | None =>
      match range (entries c) with
      | (key, _) :: _ => set_entries c (delete key (entries c))
      | [] => c
      end
  end.

(** [Set]; [t1] is the reading an eviction takes, [t2] the one of the new entry. *)
Definition Set_ (plaintext : string) (p : option Principal) (t1 t2 : Z) (c : option authCache)
  : option authCache :=
  match c, p with
  | Some c, Some p =>
      if decide (plaintext = "") then Some c
      else
        let k := hashKey plaintext in
        let c :=
          match entries c !! k with
          | Some _ => c
          | None =>
              if decide (maxSize c ≤ Z.of_nat (length (range (entries c))))%Z
              then evictOneLocked t1 c else c
          end in
        Some (set_entries c (<[k := mkEntry p (t2 + ttl c)%Z]> (entries c)))
  | _, _ => c
  end.

Definition Invalidate (c : option authCache) : option authCache :=
  match c with None => None | Some c => Some (set_entries c ∅) end.

Definition Len (c : option authCache) : nat :=
  match c with None => 0 | Some c => length (range (entries c)) end.

(** ** Runs *)

Inductive cache_op :=
| OpGet (plaintext : string) (t1 t2 : Z)
| OpSet (plaintext : string) (p : option Principal) (t1 t2 : Z)
| OpInvalidate.

Definition cache_step (c : option authCache) (op : cache_op) : option authCache :=
  match op with
  | OpGet plaintext t1 t2 => (Get plaintext t1 t2 c).1
  | OpSet plaintext p t1 t2 => Set_ plaintext p t1 t2 c
  | OpInvalidate => Invalidate c
  end.

Definition run_cache (ttl maxSize : Z) (ops : list cache_op) : option authCache :=
  foldl cache_step (Some (newAuthCache ttl maxSize)) ops.

(** What is known of a digest after some operations: the principal recorded last
    and when, unless the cache was flushed since. *)
Definition record_step (k : string) (known : option (Principal * Z)) (op : cache_op)
  : option (Principal * Z) :=
  match op with
  | OpSet plaintext (Some p) _ t2 =>
      if decide (plaintext ≠ "" ∧ hashKey plaintext = k) then Some (p, t2) else known
  | OpInvalidate => None
  | _ => known
  end.

Definition recorded (k : string) (ops : list cache_op) : option (Principal * Z) :=
  foldl (record_step k) None ops.

Record cache_ok (ttl0 max0 : Z) (ops : list cache_op) (c : authCache) : Prop := {
  co_ttl : ttl c = ttl0;
  co_max : maxSize c = max0;
  co_size : (Z.of_nat (size (entries c)) ≤ max0)%Z;
  co_entries k e : entries c !! k = Some e →
    recorded k ops = Some (principal e, expiry e - ttl0)%Z
}.

Lemma length_range {V} (m : gmap string V) : length (range m) = size m.
Proof. by rewrite range_perm, length_map_to_list. Qed.

(** Evicting makes room and adds nothing. *)
Lemma evict_subset now c :
  entries (evictOneLocked now c) ⊆ entries c ∧ ttl (evictOneLocked now c) = ttl c ∧
  maxSize (evictOneLocked now c) = maxSize c ∧
  (0 < size (entries c) → size (entries (evictOneLocked now c)) < size (entries c)).
Proof.
  assert (∀ k e, (k, e) ∈ range (entries c) →
    delete k (entries c) ⊆ entries c ∧
    (0 < size (entries c) → size (delete k (entries c)) < size (entries c))) as Hdel.
  { intros k e Hk%elem_of_range. split; [apply delete_subseteq|]. intros Hpos.
    rewrite (map_size_delete_Some k (entries c)) by (by eexists). lia. }
  unfold evictOneLocked. destruct (find _ (range (entries c))) as [[k e]|] eqn:Hf.
  - apply find_some in Hf as [Hin%list_elem_of_In _]. destruct (Hdel k e Hin). done.
  - destruct (range (entries c)) as [|[k e] l] eqn:Hr.
    + split_and!; [done..|]. rewrite <-length_range, Hr. simpl. lia.
    + destruct (Hdel k e) as [? ?]; [left|]. done.
Qed.

Lemma recorded_snoc k ops op : recorded k (ops ++ [op]) = record_step k (recorded k ops) op.
Proof. unfold recorded. by rewrite foldl_app. Qed.

Lemma step_cache_ok ttl0 max0 ops op c : (0 < max0)%Z → cache_ok ttl0 max0 ops c →
  ∃ c', cache_step (Some c) op = Some c' ∧ cache_ok ttl0 max0 (ops ++ [op]) c'.
Proof.
  intros Hpos [Htl Hmx Hsz He]. destruct op as [s t1 t2|s p t1 t2|].
  - cbn [cache_step]. assert (∀ c', entries c' ⊆ entries c → ttl c' = ttl c → maxSize c' = maxSize c →
      cache_ok ttl0 max0 (ops ++ [OpGet s t1 t2]) c') as Hsub.
    { intros c' Hc' Ht Hm. split; [congruence|congruence| |].
      - pose proof (map_subseteq_size _ _ Hc'). lia.
      - intros k e Hk. rewrite recorded_snoc. apply He. by eapply lookup_weaken. }
    unfold Get. case_decide; [eexists; split; [done|by apply Hsub]|].
    destruct (entries c !! hashKey s) as [e|]; [|eexists; split; [done|by apply Hsub]].
    case_decide; [|eexists; split; [done|by apply Hsub]].
    case_decide; (eexists; split; [done|apply Hsub; try done]). apply delete_subseteq.
  - cbn [cache_step]. destruct p as [p|]; simpl.
    2: { exists c. split; [done|]. split; [done..|]. intros k e. rewrite recorded_snoc. apply He. }
    destruct (decide (s = "")) as [->|Hs].
    { exists c. split; [done|]. split; [done..|]. intros k e. rewrite recorded_snoc. cbn [record_step].
      rewrite decide_False by (by intros [? _]). apply He. }
    set (c1 := match entries c !! hashKey s with Some _ => c | None => _ end).
    assert (entries c1 ⊆ entries c ∧ ttl c1 = ttl c ∧ maxSize c1 = maxSize c ∧
      (Z.of_nat (size (<[hashKey s := mkEntry p (t2 + ttl c1)]> (entries c1))) ≤ max0)%Z) as (Hsub & Ht1 & Hm1 & Hsz1).
    { unfold c1. destruct (entries c !! hashKey s) as [e|] eqn:Hk.
      - rewrite map_size_insert_Some by (by eexists). done.
      - rewrite length_range. case_decide as Hfull.
        + destruct (evict_subset t1 c) as (Hsub & ? & ? & Hlt). split_and!; [done..|].
          rewrite map_size_insert_None by (by eapply lookup_weaken_None). lia.
        + split_and!; [done..|]. rewrite map_size_insert_None by done. lia. }
    eexists. split; [done|]. split; simpl; [congruence|congruence|done|].
    intros k e. rewrite recorded_snoc. cbn [record_step]. intros [[<- <-]|[Hne Hk]]%lookup_insert_Some.
    + rewrite decide_True by done. simpl. do 2 f_equal. rewrite Ht1, Htl. lia.
    + rewrite decide_False by (by intros [_ ?]). apply He. by eapply lookup_weaken.
  - eexists. split; [done|]. split; simpl; [done|done|rewrite map_size_empty; lia|].
    intros k e Hk. by apply lookup_empty_Some in Hk.
Qed.

Definition eff_ttl (t : Z) : Z := if decide (t ≤ 0)%Z then (5 * Minute)%Z else t.
Definition eff_max (n : Z) : Z := if decide (n ≤ 0)%Z then 1024%Z else n.

Lemma run_cache_ok t n ops :
  ∃ c, run_cache t n ops = Some c ∧ cache_ok (eff_ttl t) (eff_max n) ops c.
Proof.
  assert (0 < eff_max n)%Z as Hpos by (unfold eff_max; case_decide; lia).
  unfold run_cache. induction ops as [|op ops IH] using rev_ind.
  { eexists. split; [done|]. split; simpl; [done|done|rewrite map_size_empty; lia|].
    intros k e Hk. by apply lookup_empty_Some in Hk. }
  destruct IH as (c & Hc & Hok). rewrite foldl_app, Hc. by apply step_cache_ok.
Qed.

(** Whatever was cached, looked up, evicted and flushed before, a hit answers
    the principal recorded last for the digest of that key: recorded after the last
    flush and at most the time to live ago.
    The cache never holds more entries than its bound, and a key just recorded is
    found until its entry expires. *)
Theorem cache_sound (ttl0 max0 : Z) (ops : list cache_op) (plaintext : string) (t1 t2 : Z) :
  let c := run_cache ttl0 max0 ops in
  (Z.of_nat (Len c) ≤ eff_max max0)%Z ∧
  match (Get plaintext t1 t2 c).2 with
  | None => True
  | Some p => ∃ t, recorded (hashKey plaintext) ops = Some (p, t) ∧ (t1 ≤ t + eff_ttl ttl0)%Z
  end ∧
  ∀ p t t', plaintext ≠ "" → (t1 ≤ t' + eff_ttl ttl0)%Z →
    (Get plaintext t1 t2 (Set_ plaintext (Some p) t t' c)).2 = Some p.
Proof.
  cbv zeta. destruct (run_cache_ok ttl0 max0 ops) as (c & -> & Hok). split_and!.
  - simpl. rewrite length_range. apply Hok.
  - unfold Get. case_decide; [done|]. destruct (entries c !! hashKey plaintext) as [e|] eqn:He; [|done].
    case_decide; [done|]. simpl. exists (expiry e - eff_ttl ttl0)%Z.
    split; [by apply Hok|]. lia.
  - intros p t t' Hne Ht. unfold Set_. rewrite decide_False by done.
    set (c1 := match entries c !! hashKey plaintext with Some _ => c | None => _ end).
    assert (ttl c1 = eff_ttl ttl0) as Ht1.
    { transitivity (ttl c); [|apply Hok]. unfold c1. destruct (entries c !! _); [done|].
      case_decide; [apply evict_subset|done]. }
    unfold Get. rewrite decide_False by done. simpl. rewrite lookup_insert_eq. simpl.
    rewrite Ht1. by rewrite decide_False by lia.
Qed.
End cache.

(** ** Examples *)

Definition ex_principal (id : string) : Principal := mkPrincipal "t1" id RoleViewer.

(** A full cache drops its expired entry before a live one. *)
Example ex_cache :
  let run := run_cache (mr := canonical_range) (sha := λ s, s) 10 2
    [OpSet "a" (Some (ex_principal "a")) 0 0; OpSet "b" (Some (ex_principal "b")) 5 5;
     OpSet "c" (Some (ex_principal "c")) 12 12] in
  let get s := (Get (sha := λ s, s) s 13 13 run).2 in
  Len (mr := canonical_range) run = 2 ∧ get "a"%string = None ∧
  get "b"%string = Some (ex_principal "b") ∧ get "c"%string = Some (ex_principal "c").
Proof. by vm_compute. Qed.
