(* ===== verification/Validation.v ===== *)
(** What the document validators of [internal/config] share: errors with their
    source positions ([validator.go], [yaml_position.go], [error_reporter.go]),
    the accumulating context, the two name patterns, and a small calculus for
    deciding what a validator accepts. *)

From Stdlib Require Import Ascii.
From S2P Require Import Prelude GoBase GoStrings.

(** ** Strings *)

(** [strings.Split] on a one-byte separator. *)
Fixpoint Split (sep : Ascii.ascii) (s : string) : list string :=
  match s with
  | "" => [""]
  | String c s =>
      if decide (c = sep) then "" :: Split sep s
      else match Split sep s with
           | w :: ws => String c w :: ws
           | [] => [String c ""]
           end
  end.

Definition is_digit (c : Ascii.ascii) : bool :=
  let n := Ascii.nat_of_ascii c in (48 <=? n) && (n <=? 57).
Definition is_lower (c : Ascii.ascii) : bool :=
  let n := Ascii.nat_of_ascii c in (97 <=? n) && (n <=? 122).

Fixpoint digits_value (acc : Z) (s : string) : option Z :=
  match s with
  | "" => Some acc
  | String c s =>
      if is_digit c then digits_value (10 * acc + (Z.of_nat (Ascii.nat_of_ascii c) - 48))%Z s else None
  end.

(** [strconv.Atoi]: an optional sign and decimal digits, within 64 bits. *)
Definition Atoi (s : string) : option Z :=
  let signed (sign : Z) (s : string) :=
    if decide (s = "") then None
    else n ← digits_value 0 s;
         let n := (sign * n)%Z in if decide (in_int64 n) then Some n else None in
  match s with
  | String "+"%char s => signed 1%Z s
  | String "-"%char s => signed (-1)%Z s
  | _ => signed 1%Z s
  end.

(** [^[a-z0-9]+(-[a-z0-9]+)*$]; [started] says whether the segment has a character. *)
Fixpoint kebab_from (started : bool) (s : string) : bool :=
  match s with
  | "" => started
  | String c s =>
      if is_lower c || is_digit c then kebab_from true s
      else if decide (c = "-"%char) then started && kebab_from false s
      else false
  end.

Definition metadataNameRe (s : string) : bool := kebab_from false s.

Fixpoint snake_rest (s : string) : bool :=
  match s with
  | "" => true
  | String c s => (is_lower c || is_digit c || bool_decide (c = "_"%char)) && snake_rest s
  end.

(** [^[a-z][a-z0-9_]*$]. *)
Definition toolNameRe (s : string) : bool :=
  match s with "" => false | String c s => is_lower c && snake_rest s end.

(** ** Positions: [yaml_position.go]

    The node tree of the YAML library, as far as the code looks at it. *)
Inductive node_kind := DocumentNode | SequenceNode | MappingNode | OtherNode.

Class GoYaml := {
  Node : Type;
  Kind : Node → node_kind;
  Value : Node → string;
  Line : Node → Z;
  Column : Node → Z;
  Content : Node → list Node
}.

Section validation.
Context {yaml : GoYaml} {fmt : GoFmt}.

(** The loop over the key and value pairs of a mapping. *)
Fixpoint mapping_value (content : list Node) (segment : string) : option Node :=
  match content with
  | k :: v :: content =>
      if decide (Value k = segment) then Some v else mapping_value content segment
  | _ => None
  end.

Definition resolveSegment (node : Node) (segment : string) : option Node :=
  match Kind node with
  | MappingNode => mapping_value (Content node) segment
  | SequenceNode =>
      idx ← Atoi segment;
      if decide (idx < 0 ∨ Z.of_nat (length (Content node)) ≤ idx)%Z then None
      else Content node !! Z.to_nat idx
  | _ => None
  end.

Definition NodeAt (root : option Node) (path : string) : option Node :=
  if decide (path = "") then root
  else
    root ← root;
    let node := match Kind root, Content root with
                | DocumentNode, n :: _ => n
                | _, _ => root
                end in
    foldl (λ node segment, node ← node; resolveSegment node segment) (Some node) (Split "." path).

Definition LineColOf (root : option Node) (path : string) : Z * Z :=
  match NodeAt root path with
  | None => (0%Z, 0%Z)
  | Some node => (Line node, Column node)
  end.

(** ** Errors *)

Record ValidationError := mkValidationError {
  ve_File : string;
  ve_Line : Z;
  ve_Column : Z;
  ve_Field : string;
  ve_Message : string;
  ve_Suggestion : string
}.

Definition newline : string := byte 10.

Definition Error (e : ValidationError) : string :=
  let loc := if decide (0 < ve_Line e)%Z
             then (ve_File e +:+ ":" +:+ fmt_d (ve_Line e) +:+ ":" +:+ fmt_d (ve_Column e))%string
             else ve_File e in
  let s := (loc +:+ ": " +:+ ve_Field e +:+ ": " +:+ ve_Message e)%string in
  if decide (ve_Suggestion e = "") then s
  else (s +:+ newline +:+ "  Suggestion: " +:+ ve_Suggestion e)%string.

(** The builder after the errors from position [i] on. *)
Fixpoint write_errors (i : nat) (errs : list ValidationError) (b : string) : string :=
  match errs with
  | [] => b
  | e :: errs =>
      write_errors (S i) errs ((if decide (0 < i) then b +:+ newline else b) +:+ Error e)%string
  end.

Record ValidationErrorList := mkValidationErrorList { Errors : list ValidationError }.

Definition ListError (l : ValidationErrorList) : string := write_errors 0 (Errors l) "".

Definition HasErrors (l : ValidationErrorList) : bool := bool_decide (0 < length (Errors l)).

(** ** The context *)

Record validationContext := mkContext {
  vc_file : string;
  vc_node : option Node;
  vc_errors : list ValidationError
}.

Definition addError (field message suggestion : string) (ctx : validationContext)
  : validationContext :=
  let '(line, col) := LineColOf (vc_node ctx) field in
  mkContext (vc_file ctx) (vc_node ctx)
    (vc_errors ctx ++ [mkValidationError (vc_file ctx) line col field message suggestion]).

(** The end of every validator: nil, or the errors. *)
Definition report (ctx : validationContext) : option ValidationErrorList :=
  if decide (vc_errors ctx = []) then None else Some (mkValidationErrorList (vc_errors ctx)).

(** Validators are written as functions on the context, one after the other. *)
Definition check : Type := validationContext → validationContext.
Definition skip : check := λ ctx, ctx.
Definition andThen (f g : check) : check := λ ctx, g (f ctx).

(** A loop over indexed elements, and one that carries a state. *)
Fixpoint each {A} (body : nat → A → check) (i : nat) (l : list A) : check :=
  match l with
  | [] => skip
  | x :: l => λ ctx, each body (S i) l (body i x ctx)
  end.

Fixpoint each_st {A S} (body : nat → A → validationContext * S → validationContext * S)
    (i : nat) (l : list A) (st : validationContext * S) : validationContext * S :=
  match l with
  | [] => st
  | x :: l => each_st body (Datatypes.S i) l (body i x st)
  end.

(** ** What a check accepts *)

Definition clean (ctx : validationContext) : Prop := vc_errors ctx = [].

(** A check accepts [P] when it leaves a context without errors exactly if it got
    one and [P] holds. *)
Class Accepts (V : check) (P : Prop) := accepts : ∀ ctx, clean (V ctx) ↔ clean ctx ∧ P.

Lemma accepts_iff V P Q : Accepts V P → (P ↔ Q) → Accepts V Q.
Proof. intros H HPQ ctx. by rewrite (H ctx), HPQ. Qed.

#[global] Instance accepts_skip : Accepts skip True.
Proof. intros ctx. unfold skip. tauto. Qed.

#[global] Instance accepts_addError field msg sug : Accepts (addError field msg sug) False.
Proof.
  intros ctx. unfold addError, clean. destruct (LineColOf _ _). simpl.
  rewrite app_nil. naive_solver.
Qed.

#[global] Instance accepts_andThen f g P Q :
  Accepts f P → Accepts g Q → Accepts (andThen f g) (P ∧ Q).
Proof. intros Hf Hg ctx. unfold andThen. rewrite (Hg (f ctx)), (Hf ctx). tauto. Qed.

#[global] Instance accepts_decide D {dec : Decision D} f g P Q :
  Accepts f P → Accepts g Q → Accepts (if decide D then f else g) ((D → P) ∧ (¬ D → Q)).
Proof. intros Hf Hg ctx. destruct (decide D); [rewrite (Hf ctx)|rewrite (Hg ctx)]; tauto. Qed.

#[global] Instance accepts_bool (b : bool) f g P Q :
  Accepts f P → Accepts g Q → Accepts (if b then f else g) ((b = true → P) ∧ (b = false → Q)).
Proof. intros Hf Hg ctx. destruct b; [rewrite (Hf ctx)|rewrite (Hg ctx)]; naive_solver. Qed.

#[global] Instance accepts_option {A} (o : option A) f g P Q :
  (∀ x, Accepts (f x) (P x)) → Accepts g Q →
  Accepts (match o with Some x => f x | None => g end)
          ((∀ x, o = Some x → P x) ∧ (o = None → Q)).
Proof. intros Hf Hg ctx. destruct o as [x|]; [rewrite (Hf x ctx)|rewrite (Hg ctx)]; naive_solver. Qed.

#[global] Instance accepts_each {A} (body : nat → A → check) P i l :
  (∀ i x, Accepts (body i x) (P x)) → Accepts (each body i l) (∀ x, x ∈ l → P x).
Proof.
  intros Hb. revert i. induction l as [|x l IH]; intros i ctx; simpl.
  { unfold skip. setoid_rewrite elem_of_nil. tauto. }
  rewrite (IH (S i) (body i x ctx)), (Hb i x ctx). setoid_rewrite elem_of_cons. naive_solver.
Qed.

Lemma each_skip {A} (body : nat → A → check) i l ctx :
  (∀ i x, x ∈ l → body i x = skip) → each body i l ctx = ctx.
Proof.
  revert i ctx. induction l as [|x l IH]; intros i ctx Hb; [done|]. simpl.
  rewrite (Hb i x) by left. apply IH. intros j y Hy. apply Hb. by right.
Qed.

(** A loop with a state: [next] is how the state moves, whatever the errors. *)
Lemma accepts_each_st {A S} (body : nat → A → validationContext * S → validationContext * S)
    (next : nat → S → A → S) (P : S → A → Prop) i l s :
  (∀ i x ctx s, (body i x (ctx, s)).2 = next i s x) →
  (∀ i x s, Accepts (λ ctx, (body i x (ctx, s)).1) (P s x)) →
  Accepts (λ ctx, (each_st body i l (ctx, s)).1)
    (∀ pre x post, l = pre ++ x :: post → P (foldl (λ st x, (Datatypes.S st.1, next st.1 st.2 x)) (i, s) pre).2 x).
Proof.
  intros Hn Hb. revert i s. induction l as [|x l IH]; intros i s ctx; simpl.
  { split; [|by intros []]. intros Hc. split; [done|]. intros [] ? ? [=]. }
  specialize (Hn i x ctx s). specialize (Hb i x s ctx). simpl in Hb.
  destruct (body i x (ctx, s)) as [ctx1 s1] eqn:Hbody. simpl in *. subst s1.
  rewrite (IH (Datatypes.S i) (next i s x) ctx1), Hb. split.
  - intros [[Hc Hx] Hl]. split; [done|]. intros [|y pre] z post [= -> ->]; [done|]. by eapply Hl.
  - intros [Hc Hl]. split; [split; [done|by eapply (Hl [])]|].
    intros pre z post ->. by apply (Hl (x :: pre) z post).
Qed.

(** No key was seen before: the keys are pairwise different. *)
Lemma untracked_NoDup {A K} (key : A → option K) l :
  (∀ pre x post k, l = pre ++ x :: post → key x = Some k → k ∉ omap key pre) ↔ NoDup (omap key l).
Proof.
  split.
  - induction l as [|x l IH] using rev_ind; intros Hl; [constructor|].
    rewrite omap_app. csimpl. destruct (key x) as [k|] eqn:Hk.
    2: { rewrite app_nil_r. apply IH. intros pre y post k -> Hy. eapply (Hl pre y (post ++ [x])); [|done].
         by rewrite <-app_assoc. }
    apply NoDup_app. split.
    { apply IH. intros pre y post k' -> Hy. eapply (Hl pre y (post ++ [x])); [|done].
      by rewrite <-app_assoc. }
    split; [|apply NoDup_singleton]. intros y Hy ->%list_elem_of_singleton. by eapply (Hl l x []).
  - intros Hnd pre x post k -> Hk Hin. rewrite omap_app in Hnd. csimpl in Hnd. rewrite Hk in Hnd.
    apply NoDup_app in Hnd as (_ & Hd & _). by eapply (Hd k); [done|left].
Qed.

Lemma each_st_next {A S} (body : nat → A → validationContext * S → validationContext * S)
    (next : nat → S → A → S) i l ctx s :
  (∀ i x ctx s, (body i x (ctx, s)).2 = next i s x) →
  (each_st body i l (ctx, s)).2 = (foldl (λ st x, (Datatypes.S st.1, next st.1 st.2 x)) (i, s) l).2.
Proof.
  intros Hn. revert i ctx s. induction l as [|x l IH]; intros i ctx s; [done|]. simpl.
  specialize (Hn i x ctx s). destruct (body i x (ctx, s)) as [ctx1 s1]. simpl in *. by subst.
Qed.

(** A duplicate check: its state knows the keys of the elements so far, an element
    without a key leaving it alone. *)
Class Tracks {A K S} (key : A → option K) (mem : S → K → Prop) (next : nat → S → A → S) :=
  tracks : ∀ i s x k, mem (next i s x) k ↔ key x = Some k ∨ mem s k.

Lemma tracks_all {A K S} (key : A → option K) (mem : S → K → Prop) next `{!Tracks key mem next} i s l k :
  mem (foldl (λ st x, (Datatypes.S st.1, next st.1 st.2 x)) (i, s) l).2 k ↔ k ∈ omap key l ∨ mem s k.
Proof.
  revert i s. induction l as [|x l IH]; intros i s.
  { simpl. rewrite elem_of_nil. tauto. }
  cbn [foldl fst snd]. rewrite IH, (tracks i s x k). csimpl.
  destruct (key x) as [k'|]; rewrite ?elem_of_cons; naive_solver.
Qed.

(** A loop that tracks keys accepts when every element is fine for itself and no
    key comes twice. *)
Lemma accepts_unique {A K S} (key : A → option K) (mem : S → K → Prop) next `{!Tracks key mem next}
    (body : nat → A → validationContext * S → validationContext * S) (Q : A → Prop) s l :
  (∀ k, ¬ mem s k) →
  (∀ i x ctx s, (body i x (ctx, s)).2 = next i s x) →
  (∀ i x s, Accepts (λ ctx, (body i x (ctx, s)).1) (Q x ∧ ∀ k, key x = Some k → ¬ mem s k)) →
  Accepts (λ ctx, (each_st body 0 l (ctx, s)).1) ((∀ x, x ∈ l → Q x) ∧ NoDup (omap key l)).
Proof.
  intros Hs Hn Hb. eapply accepts_iff.
  { by apply (accepts_each_st body next (λ s x, Q x ∧ ∀ k, key x = Some k → ¬ mem s k)). }
  cbn beta. rewrite <-untracked_NoDup. split.
  - intros HP. split.
    + intros x (pre & post & ->)%list_elem_of_split. by eapply HP.
    + intros pre x post k -> Hk Hin. destruct (HP pre x post eq_refl) as [_ Hnone].
      apply (Hnone k Hk), (tracks_all key mem next). by left.
  - intros [HQ Hu] pre x post ->. split; [apply HQ; set_solver|].
    intros k Hk [Hin|Hin]%(tracks_all key mem next); [by eapply Hu|by eapply Hs].
Qed.

(** The state of most duplicate checks: where each key was first seen. *)
Definition track {A K} `{Countable K} (key : A → option K) (i : nat) (seen : gmap K nat) (x : A)
  : gmap K nat :=
  match key x with
  | None => seen
  | Some k => match seen !! k with Some _ => seen | None => <[k := i]> seen end
  end.

Definition is_tracked {K} `{Countable K} (seen : gmap K nat) (k : K) : Prop := is_Some (seen !! k).

#[global] Instance track_tracks {A K} `{Countable K} (key : A → option K) :
  Tracks key is_tracked (track key).
Proof.
  intros i seen x k. unfold track, is_tracked. destruct (key x) as [k'|]; [|naive_solver].
  destruct (seen !! k') as [j|] eqn:Hk'.
  - split; [tauto|]. intros [[= ->]|?]; [by rewrite Hk'|done].
  - rewrite lookup_insert_is_Some. destruct (decide (k' = k)) as [->|]; naive_solver.
Qed.

Lemma untracked_empty {K} `{Countable K} (k : K) : ¬ is_tracked (∅ : gmap K nat) k.
Proof. unfold is_tracked. rewrite lookup_empty. by intros []. Qed.

(** Or the set of the keys so far. *)
Definition mark {A K} `{Countable K} (key : A → option K) (_ : nat) (seen : gset K) (x : A) : gset K :=
  match key x with None => seen | Some k => {[k]} ∪ seen end.

Definition is_marked {K} `{Countable K} (seen : gset K) (k : K) : Prop := k ∈ seen.

#[global] Instance mark_tracks {A K} `{Countable K} (key : A → option K) :
  Tracks key is_marked (mark key).
Proof. intros i seen x k. unfold mark, is_marked. destruct (key x); set_solver. Qed.

Lemma unmarked_empty {K} `{Countable K} (k : K) : ¬ is_marked (∅ : gset K) k.
Proof. unfold is_marked. set_solver. Qed.

(** The keys of elements that all have one. *)
Lemma omap_keys {A K} (key : A → option K) (k : A → K) (l : list A) :
  (∀ x, x ∈ l → key x = Some (k x)) → omap key l = k <$> l.
Proof.
  induction l as [|x l IH]; intros Hl; [done|]. csimpl. rewrite (Hl x) by left. f_equal.
  apply IH. intros y Hy. apply Hl. by right.
Qed.

(** What a validator answers on a fresh context. *)
Lemma report_accepts (V : check) P file node : Accepts V P →
  report (V (mkContext file node [])) = None ↔ P.
Proof.
  intros HV. specialize (HV (mkContext file node [])). unfold report, clean in *. simpl in HV.
  destruct (decide _); naive_solver.
Qed.

(** An answer lists at least one error. *)
Lemma report_errors ctx l : report ctx = Some l → Errors l = vc_errors ctx ∧ HasErrors l = true.
Proof.
  unfold report. case_decide as Hd; [done|]. intros [= <-]. split; [done|].
  unfold HasErrors. simpl. apply bool_decide_eq_true. by destruct (vc_errors ctx); simpl; [|lia].
Qed.

(** ** The checks several validators share *)

Definition AgentAPIVersion : string := "mockagents/v1".

(** [apiVersion] and [kind]. *)
Definition require_version (version : string) : check :=
  if decide (version = "") then
    addError "apiVersion" "required field missing" ("Add apiVersion: " +:+ AgentAPIVersion)%string
  else if decide (version ≠ AgentAPIVersion) then
    addError "apiVersion" ("unsupported version " +:+ Quote version)%string
      ("Use apiVersion: " +:+ AgentAPIVersion)%string
  else skip.

Definition require_kind (kind expected : string) : check :=
  if decide (kind = "") then
    addError "kind" "required field missing" ("Add kind: " +:+ expected)%string
  else if decide (kind ≠ expected) then
    addError "kind" ("unsupported kind " +:+ Quote kind)%string ("Use kind: " +:+ expected)%string
  else skip.

(** [metadata.name], with the suggestions of the validator at hand. *)
Definition require_name (field add shorten respell name : string) : check :=
  if decide (name = "") then addError field "required field missing" add
  else
    andThen
      (if decide (63 < String.length name) then
         addError field ("name exceeds 63 characters (got " +:+ fmt_d (Z.of_nat (String.length name)) +:+ ")")%string
           shorten
       else skip)
      (if metadataNameRe name then skip
       else addError field ("invalid name " +:+ Quote name +:+ ": must be lowercase kebab-case")%string respell).

Definition kebab_name (name : string) : Prop :=
  name ≠ "" ∧ String.length name ≤ 63 ∧ metadataNameRe name = true.

#[global] Instance accepts_version version : Accepts (require_version version) (version = AgentAPIVersion).
Proof. eapply accepts_iff; [apply _|]. destruct (decide (version = AgentAPIVersion)); naive_solver. Qed.

#[global] Instance accepts_kind kind expected :
  expected ≠ "" → Accepts (require_kind kind expected) (kind = expected).
Proof.
  intros He. eapply accepts_iff; [apply _|]. destruct (decide (kind = expected)); naive_solver.
Qed.

#[global] Instance accepts_name field add shorten respell name :
  Accepts (require_name field add shorten respell name) (kebab_name name).
Proof.
  eapply accepts_iff; [apply _|]. unfold kebab_name. rewrite <-Nat.nlt_ge.
  destruct (metadataNameRe name); naive_solver.
Qed.
End validation.

Arguments validationContext {yaml}.
Arguments check {yaml}.
Declare Scope check_scope.
Delimit Scope check_scope with check.
Notation "f ;; g" := (andThen f g) (at level 100, right associativity) : check_scope.
#[export] Hint Resolve accepts_skip accepts_addError untracked_empty unmarked_empty : mock.
