(* ===== verification/FilePath.v ===== *)
(** [path/filepath] on Unix: lexical cleaning, joining and taking apart of paths, over
    byte strings. *)

From Stdlib Require Import Ascii.
From S2P Require Import Prelude GoBase GoStrings Validation.

(** ** Paths *)

(** One element of a path, on the elements before it, the last one first. *)
Definition path_step (rooted : bool) (out : list string) (seg : string) : list string :=
  if decide (seg = "" ∨ seg = ".") then out
  else if decide (seg = "..") then
    match out with
    | [] => if rooted then [] else [".."]
    | s :: out' => if decide (s = "..") then ".." :: out else out'
    end
  else seg :: out.

Definition is_rooted (p : string) : bool := has_prefix p "/".

Definition path_elements (p : string) : list string := reverse (foldl (path_step (is_rooted p)) [] (Split "/" p)).

Definition render_path (rooted : bool) (segs : list string) : string :=
  if rooted then "/" +:+ Join segs "/" else match segs with [] => "." | _ => Join segs "/" end.

(** [filepath.Clean]. *)
Definition clean_path (p : string) : string := render_path (is_rooted p) (path_elements p).

(** [filepath.Join] of two elements. *)
Definition join_path (dir name : string) : string :=
  if decide (dir = "") then (if decide (name = "") then "" else clean_path name)
  else clean_path (dir +:+ "/" +:+ name).

(** The text from the last [/] on; the rest of the path before it. *)
Fixpoint last_element (cur s : string) : string :=
  match s with
  | "" => cur
  | String c s => if decide (c = "/"%char) then last_element "" s else last_element (cur +:+ String c "") s
  end.

Fixpoint trim_slashes (s : string) : string :=
  match s with
  | "" => ""
  | String c s => match trim_slashes s with
                  | "" => if decide (c = "/"%char) then "" else String c ""
                  | s => String c s
                  end
  end.

(** [filepath.Base]. *)
Definition Base (p : string) : string :=
  if decide (p = "") then "."
  else match last_element "" (trim_slashes p) with "" => "/" | b => b end.

(** [filepath.Dir]. *)
Definition Dir (p : string) : string :=
  clean_path (str_take (String.length p - String.length (last_element "" p)) p).

(** [filepath.Ext]: the suffix of the last element from its last dot on. *)
Fixpoint last_dot (ext s : string) : string :=
  match s with
  | "" => ext
  | String c s' => last_dot (if decide (c = "."%char) then s else ext) s'
  end.

Definition Ext (p : string) : string := last_dot "" (last_element "" p).

(** [filepath.Abs] under the working directory. *)
Definition Abs (wd p : string) : string := if is_rooted p then clean_path p else join_path wd p.

Example clean_paths :
  clean_path <$> ["./agents"; "/a//b/../c/"; "../x/./.."; "/.."; ""; "a/.."] = ["agents"; "/a/c"; ".."; "/"; "."; "."].
Proof. reflexivity. Qed.
Example path_parts :
  (join_path "agents/" "bot.yaml", Base "/a/b.yaml", Dir "/a/b.yaml", Ext "x.y/bot.tar.gz", Abs "/srv" "../agents") =
  ("agents/bot.yaml", "b.yaml", "/a", ".gz", "/agents").
Proof. reflexivity. Qed.

(** ** Names in a directory *)

Definition slash_free (s : string) : Prop := ∀ a b, s ≠ (a +:+ "/" +:+ b)%string.

(** A name that is one element of a path. *)
Definition plain (n : string) : Prop := n ≠ "" ∧ n ≠ "." ∧ n ≠ ".." ∧ slash_free n.

Lemma slash_free_cons c s : slash_free (String c s) ↔ c ≠ "/"%char ∧ slash_free s.
Proof.
  split.
  - intros H. split; [intros ->; by apply (H "" s)|]. intros a b ->. by apply (H (String c a) b).
  - intros [Hc H] a b. destruct a as [|x a]; cbn; intros [= -> ->]; [done|by apply (H a b)].
Qed.

Lemma Split_app a b : Split "/" (a +:+ "/" +:+ b) = Split "/" a ++ Split "/" b.
Proof.
  induction a as [|c a IH]; [done|]. change (String c a +:+ "/" +:+ b) with (String c (a +:+ "/" +:+ b)).
  cbn [Split]. rewrite IH. case_decide; [done|].
  destruct (Split "/" a) as [|w ws] eqn:Ha; [|done]. destruct a as [|x a]; cbn in Ha; [done|].
  case_decide; [done|]. by destruct (Split "/" a).
Qed.

Lemma Split_slash_free n : slash_free n → Split "/" n = [n].
Proof.
  induction n as [|c n IH]; [done|]. intros [Hc Hn]%slash_free_cons. cbn [Split]. by rewrite decide_False, IH.
Qed.

Lemma Split_slash_frees p : Forall slash_free (Split "/" p).
Proof.
  induction p as [|c p IH]; cbn [Split].
  - constructor; [|constructor]. intros a b H. symmetry in H. apply str_app_nil_inv in H as [_ H]. discriminate H.
  - case_decide as Hc; [constructor; [|exact IH]; intros a b H; symmetry in H; apply str_app_nil_inv in H as [_ H]; discriminate H|].
    destruct IH as [|w ws Hw Hws]; constructor; [|constructor| |exact Hws].
    + apply slash_free_cons. split; [exact Hc|]. intros a b H. symmetry in H. apply str_app_nil_inv in H as [_ H]. discriminate H.
    + by apply slash_free_cons.
Qed.

Lemma path_step_plain rooted out n : plain n → path_step rooted out n = n :: out.
Proof. intros (? & ? & ? & _). unfold path_step. rewrite decide_False, decide_False; [done|done|tauto]. Qed.

Lemma is_rooted_app p s : p ≠ "" → is_rooted (p +:+ s) = is_rooted p.
Proof.
  destruct p as [|c p]; [done|]. intros _. change (String c p +:+ s) with (String c (p +:+ s)).
  unfold is_rooted, has_prefix. cbn [String.prefix]. case_match; [|done]. by destruct (p +:+ s), p.
Qed.

Lemma join_plain dir n : dir ≠ "" → plain n →
  join_path dir n = render_path (is_rooted dir) (path_elements dir ++ [n]).
Proof.
  intros Hdir Hn. unfold join_path. rewrite decide_False by done. unfold clean_path.
  pose proof (is_rooted_app dir ("/" +:+ n) Hdir) as Hr.
  unfold path_elements. rewrite Hr, Split_app, (Split_slash_free n) by apply Hn.
  rewrite foldl_app. cbn [foldl]. by rewrite path_step_plain, reverse_cons.
Qed.

Lemma Join_snoc ds n : Join (ds ++ [n]) "/" = match ds with [] => n | _ => Join ds "/" +:+ "/" +:+ n end.
Proof. destruct ds as [|d ds]; [done|]. by rewrite Join_app. Qed.

(** The path of a name in a directory is a prefix of the directory's own and the name. *)
Lemma join_plain_prefix dir n : dir ≠ "" → plain n →
  ∃ pre, join_path dir n = pre +:+ n ∧ (pre = "" ∨ ∃ pre', pre = pre' +:+ "/") ∧ (∀ m, plain m → join_path dir m = pre +:+ m).
Proof.
  intros Hdir Hn.
  exists ((if is_rooted dir then "/" else "") +:+ match path_elements dir with [] => "" | ds => Join ds "/" +:+ "/" end).
  assert (∀ m, plain m → join_path dir m =
    ((if is_rooted dir then "/" else "") +:+ match path_elements dir with [] => "" | ds => Join ds "/" +:+ "/" end) +:+ m) as Hall.
  { intros m Hm. rewrite join_plain by done. unfold render_path. rewrite Join_snoc.
    destruct (is_rooted dir), (path_elements dir) as [|d ds]; [done| |done|];
      cbn [app]; rewrite !str_app_assoc; done. }
  split; [by apply Hall|]. split; [|exact Hall].
  destruct (path_elements dir) as [|d ds]; destruct (is_rooted dir); [|by left| |]; right.
  - by exists "".
  - exists ("/" +:+ Join (d :: ds) "/"). by rewrite str_app_assoc.
  - exists (Join (d :: ds) "/"). done.
Qed.

Lemma join_plain_inj dir n m : dir ≠ "" → plain n → plain m → join_path dir n = join_path dir m → n = m.
Proof.
  intros Hdir Hn Hm H. destruct (join_plain_prefix dir n Hdir Hn) as (pre & Hp & _ & Hall).
  rewrite Hp, (Hall m Hm) in H. by apply str_app_inj in H.
Qed.

Lemma last_element_app a cur n : last_element cur (a +:+ "/" +:+ n) = last_element "" n.
Proof.
  revert cur. induction a as [|c a IH]; intros cur; [done|].
  change (String c a +:+ "/" +:+ n) with (String c (a +:+ "/" +:+ n)). cbn [last_element]. case_decide; apply IH.
Qed.

Lemma last_element_slash_free cur n : slash_free n → last_element cur n = cur +:+ n.
Proof.
  revert cur. induction n as [|c n IH]; intros cur; [by rewrite str_app_nil_r|]. intros [Hc Hn]%slash_free_cons.
  cbn. rewrite decide_False, IH by done. by rewrite str_app_assoc.
Qed.

Lemma last_element_join dir n : dir ≠ "" → plain n → last_element "" (join_path dir n) = n.
Proof.
  intros Hdir Hn. destruct (join_plain_prefix dir n Hdir Hn) as (pre & -> & [->|[pre' ->]] & _).
  - by apply (last_element_slash_free ""), Hn.
  - rewrite str_app_assoc, last_element_app. by apply (last_element_slash_free ""), Hn.
Qed.

Lemma trim_slashes_plain n : plain n → trim_slashes n = n.
Proof.
  intros (Hne & _ & _ & Hs). clear -Hne Hs. induction n as [|c n IH]; [done|]. apply slash_free_cons in Hs as [Hc Hs].
  cbn. destruct n as [|d n]; [by rewrite decide_False|]. by rewrite IH.
Qed.

Lemma trim_slashes_app pre n : n ≠ "" → trim_slashes n = n → trim_slashes (pre +:+ n) = pre +:+ n.
Proof.
  intros Hne Hn. induction pre as [|c pre IH]; [done|].
  change (String c pre +:+ n) with (String c (pre +:+ n)). cbn [trim_slashes]. rewrite IH.
  destruct (pre +:+ n) eqn:H; [|done]. by apply str_app_nil_inv in H as [_ ->].
Qed.

Lemma Base_join dir n : dir ≠ "" → plain n → Base (join_path dir n) = n.
Proof.
  intros Hdir Hn. pose proof (last_element_join dir n Hdir Hn) as Hlast.
  destruct (join_plain_prefix dir n Hdir Hn) as (pre & Hp & _ & _). unfold Base. rewrite Hp in *.
  destruct Hn as (Hne & Hn). rewrite decide_False by (by intros [_ ->]%str_app_nil_inv).
  rewrite trim_slashes_app by (done || by apply trim_slashes_plain). rewrite Hlast. by destruct n.
Qed.

Lemma Ext_join dir n : dir ≠ "" → plain n → Ext (join_path dir n) = Ext n.
Proof.
  intros Hdir Hn. unfold Ext. rewrite last_element_join by done. by rewrite (last_element_slash_free "") by apply Hn.
Qed.

(** ** Absolute paths *)

(** An element cleaning keeps: [..] may be one. *)
Definition element (s : string) : Prop := slash_free s ∧ s ≠ "" ∧ s ≠ ".".

Lemma plain_element n : plain n ↔ element n ∧ n ≠ "..".
Proof. unfold plain, element. tauto. Qed.

Lemma path_step_elements rooted raw acc : Forall slash_free raw → Forall element acc →
  Forall element (foldl (path_step rooted) acc raw).
Proof.
  intros Hraw. revert acc. induction Hraw as [|s raw Hs _ IH]; intros acc Hacc; [done|]. cbn [foldl]. apply IH.
  unfold path_step. case_decide as H1; [done|]. case_decide as H2.
  - subst s. assert (element "..") as Hup by done.
    destruct Hacc as [|x acc Hx Hacc]; [destruct rooted; [done|by constructor]|]. case_decide; [|done].
    constructor; [done|]. by constructor.
  - constructor; [|done]. split; [done|]. tauto.
Qed.

Lemma path_elements_ok p : Forall element (path_elements p).
Proof. unfold path_elements. apply Forall_reverse, path_step_elements; [apply Split_slash_frees|constructor]. Qed.

Lemma rooted_steps_plain raw acc : Forall slash_free raw → Forall plain acc → Forall plain (foldl (path_step true) acc raw).
Proof.
  intros Hraw. revert acc. induction Hraw as [|s raw Hs _ IH]; intros acc Hacc; [done|]. cbn [foldl]. apply IH.
  unfold path_step. case_decide as H1; [done|]. case_decide as H2.
  - destruct Hacc as [|x acc Hx Hacc]; [done|]. rewrite decide_False; [done|apply Hx].
  - constructor; [|done]. unfold plain. tauto.
Qed.

Lemma steps_plain r acc segs : Forall plain segs → foldl (path_step r) acc segs = reverse segs ++ acc.
Proof.
  intros H. revert acc. induction H as [|s segs Hs _ IH]; intros acc; [done|]. cbn [foldl].
  by rewrite path_step_plain, IH, reverse_cons, <-(assoc_L (++)).
Qed.

Lemma path_step_skip r out s : s = "" ∨ s = "." → path_step r out s = out.
Proof. intros H. unfold path_step. by rewrite decide_True. Qed.

Lemma element_step r out s : element s → s ≠ ".." → path_step r out s = s :: out.
Proof. intros Hs Hn. apply path_step_plain. by apply plain_element. Qed.

(** Cleaning first does not change where a path leads from a root. *)
Lemma steps_cleaned raw out acc : Forall slash_free raw → Forall element acc →
  foldl (path_step true) out (reverse (foldl (path_step false) acc raw)) =
  foldl (path_step true) (foldl (path_step true) out (reverse acc)) raw.
Proof.
  intros Hraw. revert acc. induction Hraw as [|s raw Hs Hraw IH]; intros acc Hacc; [done|]. cbn [foldl].
  rewrite IH by (apply (path_step_elements false [s]); [by constructor|done]). f_equal.
  destruct (decide (s = "" ∨ s = ".")) as [H1|H1]; [by rewrite !path_step_skip|].
  destruct (decide (s = "..")) as [->|H2]; [|by rewrite element_step, reverse_cons, foldl_app by (by unfold element; tauto)].
  destruct Hacc as [|x acc Hx Hacc]; [done|]. rewrite reverse_cons, foldl_app. cbn [foldl].
  destruct (decide (x = "..")) as [->|H3].
  - assert (path_step false (".." :: acc) ".." = ".." :: ".." :: acc) as -> by done.
    by rewrite !reverse_cons, !foldl_app.
  - assert (∀ r l, path_step r (x :: l) ".." = l) as Hup.
    { intros r l. unfold path_step. rewrite decide_False, decide_True by naive_solver. by rewrite decide_False. }
    by rewrite Hup, (element_step true _ x), Hup.
Qed.

Lemma Split_Join segs : segs ≠ [] → Forall element segs → Split "/" (Join segs "/") = segs.
Proof.
  intros Hne H. induction H as [|s segs Hs Hsegs IH]; [done|]. destruct segs as [|t segs].
  - apply Split_slash_free, Hs.
  - rewrite Join_cons by done. rewrite Split_app, IH by done. by rewrite Split_slash_free by apply Hs.
Qed.

Lemma steps_render r r0 out segs : Forall element segs →
  foldl (path_step r) out (Split "/" (render_path r0 segs)) = foldl (path_step r) out segs.
Proof.
  intros H. unfold render_path. destruct segs as [|s segs]; [by destruct r0|].
  destruct r0; [|by rewrite Split_Join]. change ("/" +:+ Join (s :: segs) "/") with ("" +:+ "/" +:+ Join (s :: segs) "/").
  rewrite (Split_app ""), foldl_app, Split_Join by done. done.
Qed.

Lemma is_rooted_render r segs : Forall element segs → is_rooted (render_path r segs) = r.
Proof.
  intros H. destruct r; [by apply (is_rooted_app "/")|]. destruct H as [|s segs [Hs [Hne _]] _]; [done|].
  unfold render_path. destruct s as [|c s]; [done|]. apply slash_free_cons in Hs as [Hc _].
  assert (∃ rest, Join (String c s :: segs) "/" = String c rest) as [rest ->].
  { destruct segs as [|t segs]; [by exists s|]. rewrite Join_cons by done. by eexists. }
  unfold is_rooted, has_prefix. cbn [String.prefix]. case_match; [congruence|done].
Qed.

(** Where a name of a directory is. *)
Lemma Abs_join wd dir n : is_rooted wd = true → dir ≠ "" → plain n →
  ∃ D, Forall element D ∧ Abs wd dir = render_path true D ∧ Abs wd (join_path dir n) = render_path true (D ++ [n]).
Proof.
  intros Hwd Hdir Hn. pose proof (path_elements_ok dir) as Hel.
  assert (Forall element (path_elements dir ++ [n])) as Hel2.
  { apply Forall_app. split; [done|]. constructor; [by apply plain_element in Hn as [? _]|done]. }
  rewrite join_plain by done. unfold Abs. rewrite is_rooted_render by done.
  destruct (is_rooted dir) eqn:Hr.
  - exists (path_elements dir). unfold clean_path. rewrite Hr. split; [done|]. split; [done|].
    rewrite is_rooted_render by done. f_equal. unfold path_elements at 1. rewrite is_rooted_render, steps_render by done.
    assert (Forall plain (path_elements dir)) as Hplain.
    { unfold path_elements. rewrite Hr. apply Forall_reverse, rooted_steps_plain; [apply Split_slash_frees|constructor]. }
    rewrite steps_plain by (apply Forall_app; split; [done|by apply Forall_singleton]).
    by rewrite app_nil_r, reverse_involutive.
  - assert (wd ≠ "") as Hne by (by intros ->).
    assert (render_path false (path_elements dir ++ [n]) ≠ "") as Hne2.
    { unfold render_path. destruct (path_elements dir ++ [n]) as [|s l] eqn:Hl; [done|]. rewrite <-Hl, Join_snoc.
      destruct (path_elements dir); [apply Hn|]. intros [_ H]%str_app_nil_inv. discriminate H. }
    exists (reverse (foldl (path_step true) (foldl (path_step true) [] (Split "/" wd)) (Split "/" dir))).
    split; [apply Forall_reverse; do 2 (apply path_step_elements; [apply Split_slash_frees|]); constructor|].
    unfold join_path. rewrite !(decide_False (P := wd = "")) by done. unfold clean_path, path_elements at 1 3.
    rewrite !is_rooted_app, Hwd by done. rewrite !Split_app, !foldl_app. split; [done|]. f_equal.
    rewrite steps_render by done. rewrite foldl_app. cbn [foldl]. rewrite path_step_plain, reverse_cons by done. f_equal. f_equal.
    unfold path_elements. rewrite Hr. rewrite steps_cleaned; [done|apply Split_slash_frees|constructor].
Qed.

(** ** Texts without a character *)

Fixpoint lacks (x : ascii) (s : string) : bool :=
  match s with "" => true | String c s => negb (bool_decide (c = x)) && lacks x s end.

Lemma lacks_app x a b : lacks x (a +:+ b) = lacks x a && lacks x b.
Proof.
  induction a as [|c a IH]; [done|]. change (String c a +:+ b) with (String c (a +:+ b)). cbn [lacks]. by rewrite IH, andb_assoc.
Qed.

Lemma lacks_slash s : slash_free s ↔ lacks "/" s = true.
Proof.
  induction s as [|c s IH]; [split; [done|]; intros _ a b H; symmetry in H; by apply str_app_nil_inv in H as [_ H]|].
  rewrite slash_free_cons, IH. cbn [lacks]. rewrite andb_true_iff, negb_true_iff, bool_decide_eq_false. done.
Qed.

Lemma lacks_split x a b a' b' : lacks x a = true → lacks x a' = true →
  a +:+ String x b = a' +:+ String x b' → a = a' ∧ b = b'.
Proof.
  revert a'. induction a as [|c a IH]; intros [|c' a'] Ha Ha' H.
  - by injection H.
  - injection H as <- _. cbn in Ha'. by rewrite bool_decide_eq_true_2 in Ha'.
  - injection H as -> _. cbn in Ha. by rewrite bool_decide_eq_true_2 in Ha.
  - injection H as -> H. cbn in Ha, Ha'. apply andb_true_iff in Ha as [_ Ha]. apply andb_true_iff in Ha' as [_ Ha'].
    by destruct (IH a' Ha Ha' H) as [-> ->].
Qed.

Lemma last_dot_app ext a b : lacks "." b = true → last_dot ext (a +:+ String "." b) = String "." b.
Proof.
  intros Hb. revert ext. induction a as [|c a IH]; intros ext.
  - change ("" +:+ String "." b) with (String "." b). cbn [last_dot]. rewrite decide_True by done.
    generalize (String "." b) as e. clear ext. induction b as [|d b IH]; intros e; [done|].
    cbn [lacks] in Hb. apply andb_true_iff in Hb as [Hd Hb]. apply negb_true_iff, bool_decide_eq_false in Hd.
    cbn [last_dot]. rewrite decide_False by done. by apply IH.
  - change (String c a +:+ String "." b) with (String c (a +:+ String "." b)). cbn [last_dot]. apply IH.
Qed.

(** A base name with an extension, in a directory. *)
Lemma plain_with_ext a b : lacks "/" a = true → lacks "/" b = true → a ≠ "" → b ≠ "" → plain (a +:+ String "." b).
Proof.
  intros Ha Hb Hane Hbne. split; [by destruct a|]. split; [|split].
  - intros H. destruct a as [|x a]; [done|]. injection H as _ H. by destruct a.
  - intros H. destruct a as [|x a]; [done|]. injection H as _ H. destruct a as [|y a]; [|injection H as _ H; by destruct a].
    injection H as H. by subst b.
  - apply lacks_slash. rewrite lacks_app, Ha. cbn [lacks]. rewrite Hb. done.
Qed.

Lemma Ext_plain_with_ext a b : lacks "/" a = true → lacks "/" b = true → lacks "." b = true →
  Ext (a +:+ String "." b) = String "." b.
Proof.
  intros Ha Hb Hd. unfold Ext. rewrite (last_element_slash_free ""); [by apply (last_dot_app "" a b)|].
  apply lacks_slash. rewrite lacks_app, Ha. cbn [lacks]. by rewrite Hb.
Qed.
