(* ===== verification/Cassette.v ===== *)
(** Recorded interactions, [internal/recording/cassette.go]: the canonical form and
    the hash of a request, and the cassette that indexes interactions by it. *)

From Stdlib Require Import Ascii.
From S2P Require Import Prelude GoBase GoStrings.

Record StreamEvent := mkStreamEvent { se_DelayMs : Z; se_Data : string }.

(** Bodies are raw bytes, empty when absent; [it_RecordedAt] is 0 for the zero time. *)
Record Interaction := mkInteraction {
  it_RecordedAt : Z;
  it_Hash : string;
  it_Method : string;
  it_Path : string;
  it_RequestHeaders : gmap string string;
  it_RequestBody : string;
  it_ResponseStatus : Z;
  it_ResponseHeaders : gmap string string;
  it_ResponseBody : string;
  it_Streaming : bool;
  it_StreamEvents : list StreamEvent
}.

(** [json.Unmarshal] into [any], [json.Marshal] of a value that is no object and no
    array, and the encoding of an interaction as a line of a cassette, which fails
    when one of its bodies is not JSON. *)
Class JsonAny := {
  UnmarshalAny : string → option value;
  MarshalScalar : value → string;
  EncodeInteraction : Interaction → option string;
  DecodeInteraction : string → option Interaction
}.

Section canonical.
Context {json : JsonAny}.

(** Members are written in the order of their keys. *)
Fixpoint writeCanonical (v : value) : string :=
  match v with
  | VObj kvs =>
      let members := map (λ kv, (kv.1, writeCanonical kv.2)) kvs in
      let texts := (λ kv, (MarshalScalar (VString kv.1) +:+ ":" +:+ kv.2)%string) <$> sort_by fst String.le members in
      ("{" +:+ Join texts "," +:+ "}")%string
  | VArr vs => ("[" +:+ Join (map writeCanonical vs) "," +:+ "]")%string
  | v => MarshalScalar v
  end.

Definition canonicalJSON (v : value) : string := writeCanonical v.

Definition newline : string := byte 10.

(** What is hashed. No canonical form is empty, so the test for nil never
    replaces one. *)
Definition hashed_text (method path body : string) : string :=
  let canonical := if decide (body = "") then body
                   else match UnmarshalAny body with
                        | Some parsed => canonicalJSON parsed
                        | None => body
                        end in
  (method +:+ newline +:+ path +:+ newline +:+ canonical)%string.

Definition HashRequest {sha : Sha256} (method path body : string) : string := sha256_hex (hashed_text method path body).
End canonical.

(** ** Canonical text identifies a document

    Two documents are the same when they differ only in the order of members. *)

Inductive same_json : value → value → Prop :=
| same_scalar v : (∀ vs, v ≠ VArr vs) → (∀ kvs, v ≠ VObj kvs) → same_json v v
| same_arr vs ws : Forall2 same_json vs ws → same_json (VArr vs) (VArr ws)
| same_obj kvs kvs' ms : kvs' ≡ₚ ms → Forall2 (λ a b, a.1 = b.1 ∧ same_json a.2 b.2) kvs kvs' →
    same_json (VObj kvs) (VObj ms).

Definition is_scalar (v : value) : Prop := (∀ vs, v ≠ VArr vs) ∧ (∀ kvs, v ≠ VObj kvs).

(** Text that cannot continue a JSON token. *)
Definition delimited (s : string) : Prop :=
  match s with
  | EmptyString => True
  | String c _ => c ∈ [","; ":"; "}"; "]"]%char
  end.

(** What a JSON encoder promises of the scalars a decoder yields: the encodings of
    two of them are told apart as soon as a delimiter follows, and none begins as an
    object or an array does. *)
Class JsonText `{!JsonAny} := {
  Unmarshal_empty : UnmarshalAny "" = None;
  decoded : value → Prop;
  scalar_text v w s t : is_scalar v → is_scalar w → decoded v → decoded w → delimited s → delimited t →
    (MarshalScalar v +:+ s)%string = (MarshalScalar w +:+ t)%string → v = w ∧ s = t;
  scalar_open v s : is_scalar v → decoded v →
    match (MarshalScalar v +:+ s)%string with
    | EmptyString => False
    | String c _ => c ∉ ["{"; "["; ","; ":"; "}"; "]"]%char
    end
}.

(** Everything in a document was decoded. *)
Fixpoint all_decoded `{JsonText} (v : value) : Prop :=
  match v with
  | VArr vs => foldr (λ w P, all_decoded w ∧ P) True vs
  | VObj kvs => NoDup kvs.*1 ∧ foldr (λ kv P, decoded (VString kv.1) ∧ all_decoded kv.2 ∧ P) True kvs
  | v => decoded v
  end.

Section texts.
Context {json : JsonAny}.

Lemma Join_split x l sep : ∃ rest, Join (x :: l) sep = (x +:+ rest)%string ∧
  (l = [] ∧ rest = "" ∨ l ≠ [] ∧ rest = (sep +:+ Join l sep)%string).
Proof.
  destruct l as [|y l]; [exists ""; split; [by rewrite str_app_nil_r|by left]|].
  exists (sep +:+ Join (y :: l) sep)%string. split; [done|by right].
Qed.

Definition starts_member (s : string) : Prop :=
  match s with EmptyString => False | String c _ => c ∉ [","; ":"; "}"; "]"]%char end.

(** A joined list is decoded item by item, when each item is told apart from the
    next as soon as a delimiter follows. *)
Lemma Join_code {A} (f : A → string) (R : A → A → Prop) (close : Ascii.ascii) l m s t :
  close ∈ ["}"; "]"]%char →
  (∀ x u, x ∈ l ∨ x ∈ m → starts_member (f x +:+ u)) →
  (∀ x y u v, x ∈ l → y ∈ m → delimited u → delimited v → (f x +:+ u = f y +:+ v)%string → R x y ∧ u = v) →
  (Join (f <$> l) "," +:+ String close s = Join (f <$> m) "," +:+ String close t)%string →
  Forall2 R l m ∧ s = t.
Proof.
  intros Hclose. assert (delimited (String close "")) as Hdc by (simpl; set_solver).
  assert (close ≠ ","%char) as Hcomma by (intros ->; set_solver).
  revert m. induction l as [|x l IH]; intros m Hopen Hcode H; destruct m as [|y m]; cbn [fmap list_fmap] in H.
  - injection H as ->. by split.
  - destruct (Join_split (f y) (f <$> m) ",") as (rest & Hj & _). rewrite Hj, str_app_assoc in H.
    specialize (Hopen y (rest +:+ String close t)%string ltac:(right; left)). rewrite <-H in Hopen.
    simpl in Hopen. set_solver.
  - destruct (Join_split (f x) (f <$> l) ",") as (rest & Hj & _). rewrite Hj, str_app_assoc in H.
    specialize (Hopen x (rest +:+ String close s)%string ltac:(left; left)). rewrite H in Hopen.
    simpl in Hopen. set_solver.
  - destruct (Join_split (f x) (f <$> l) ",") as (r1 & Hj1 & Hr1), (Join_split (f y) (f <$> m) ",") as (r2 & Hj2 & Hr2).
    rewrite Hj1, Hj2, !str_app_assoc in H.
    destruct (Hcode x y (r1 +:+ String close s)%string (r2 +:+ String close t)%string) as [HR Hrest];
      [left|left|destruct Hr1 as [[_ ->]|[_ ->]]; simpl; set_solver|destruct Hr2 as [[_ ->]|[_ ->]]; simpl; set_solver|done|].
    destruct Hr1 as [[Hl ->]|[Hl ->]], Hr2 as [[Hm ->]|[Hm ->]]; simpl in Hrest.
    + apply fmap_nil_inv in Hl as ->, Hm as ->. injection Hrest as ->. split; [|done]. by repeat constructor.
    + injection Hrest as Hc _. done.
    + injection Hrest as Hc _. done.
    + injection Hrest as Hrest. destruct (IH m) as [HF ->]; [..|done|].
      * intros z u Hz. apply Hopen. destruct Hz; [left|right]; by right.
      * intros z z' u v Hz Hz'. apply Hcode; by right.
      * split; [by constructor|done].
Qed.

Definition member_text (kv : string * value) : string :=
  (MarshalScalar (VString kv.1) +:+ ":" +:+ writeCanonical kv.2)%string.

(** The members in the order they are written. *)
Definition sorted_members (kvs : list (string * value)) : list (string * value) := sort_by fst String.le kvs.

Lemma writeCanonical_obj kvs : NoDup kvs.*1 →
  writeCanonical (VObj kvs) = ("{" +:+ Join (member_text <$> sorted_members kvs) "," +:+ "}")%string.
Proof.
  intros Hnd. cbn [writeCanonical]. do 2 f_equal.
  set (f := λ kv : string * value, (kv.1, writeCanonical kv.2)).
  assert (sort_by fst String.le (map f kvs) = f <$> sorted_members kvs) as ->.
  { apply (sorted_perm_unique fst String.le).
    - intros x y Hx Hy Hxy. rewrite elem_of_sort_by in Hx, Hy.
      apply (NoDup_fst_eq (f <$> kvs)); [by rewrite <-list_fmap_compose|done..].
    - apply sort_by_sorted; apply _.
    - assert (StronglySorted (by_key fst String.le) (sorted_members kvs)) as Hs by (apply sort_by_sorted; apply _).
      induction Hs as [|x l Hs IH Hall]; simpl; constructor; [done|]. rewrite Forall_fmap. exact Hall.
    - rewrite sort_by_perm. unfold sorted_members. by rewrite sort_by_perm. }
  rewrite <-list_fmap_compose. done.
Qed.

Lemma sorted_members_perm kvs : sorted_members kvs ≡ₚ kvs.
Proof. apply sort_by_perm. Qed.

Lemma same_members kvs ms : NoDup kvs.*1 →
  Forall2 (λ a b : string * value, a.1 = b.1 ∧ writeCanonical a.2 = writeCanonical b.2) kvs ms →
  ∀ ms', ms ≡ₚ ms' → writeCanonical (VObj kvs) = writeCanonical (VObj ms').
Proof.
  intros Hnd HF ms' Hp.
  assert (map (λ kv, (kv.1, writeCanonical kv.2)) kvs = map (λ kv, (kv.1, writeCanonical kv.2)) ms) as Heq.
  { clear Hp. induction HF as [|[k v] [k' w] kvs ms [Hk Hv] HF IH]; [done|]. simpl in *. subst k'. apply NoDup_cons in Hnd as [_ Hnd].
    f_equal; [by rewrite Hv|by apply IH]. }
  cbn [writeCanonical]. rewrite Heq. do 4 f_equal. set (f := λ kv : string * value, (kv.1, writeCanonical kv.2)) in *.
  assert ((map f ms).*1 = kvs.*1) as Hfst.
  { rewrite <-Heq. change (map f kvs) with (f <$> kvs). by rewrite <-list_fmap_compose. }
  apply (sorted_perm_unique fst String.le); [|(apply sort_by_sorted; apply _)..|].
  - intros x y. rewrite !elem_of_sort_by. apply NoDup_fst_eq. by rewrite Hfst.
  - rewrite !sort_by_perm. change (f <$> ms ≡ₚ f <$> ms'). by rewrite Hp.
Qed.
End texts.

Section identity.
Context {json : JsonAny} {text : JsonText}.

Lemma all_decoded_arr vs : all_decoded (VArr vs) ↔ Forall all_decoded vs.
Proof. simpl. induction vs as [|v vs IH]; simpl; [by split|]. by rewrite Forall_cons, IH. Qed.

Lemma all_decoded_obj kvs : all_decoded (VObj kvs) ↔
  NoDup kvs.*1 ∧ Forall (λ kv, decoded (VString kv.1) ∧ all_decoded kv.2) kvs.
Proof.
  simpl. f_equiv. induction kvs as [|kv kvs IH]; simpl; [by split|]. rewrite Forall_cons, IH. tauto.
Qed.

Lemma scalar_decoded v : is_scalar v → all_decoded v → decoded v.
Proof. intros [Ha Ho]. destruct v; try done; [by destruct (Ha vs)|by destruct (Ho kvs)]. Qed.

Lemma scalar_canonical v : is_scalar v → writeCanonical v = MarshalScalar v.
Proof. intros [Ha Ho]. destruct v; try done; [by destruct (Ha vs)|by destruct (Ho kvs)]. Qed.

Lemma string_scalar k : is_scalar (VString k).
Proof. done. Qed.

Lemma value_cases v : is_scalar v ∨ (∃ vs, v = VArr vs) ∨ (∃ kvs, v = VObj kvs).
Proof. destruct v; [by left..|right; left; eauto|right; right; eauto|by left]. Qed.

(** How a canonical text begins. *)
Lemma canonical_starts v u : all_decoded v → starts_member (writeCanonical v +:+ u).
Proof.
  intros Hv. destruct (value_cases v) as [Hs|[[vs ->]|[kvs ->]]].
  - rewrite scalar_canonical by done. pose proof (scalar_open v u Hs (scalar_decoded v Hs Hv)) as Ho.
    destruct (MarshalScalar v +:+ u)%string; [done|]. simpl. set_solver.
  - simpl. set_solver.
  - simpl. set_solver.
Qed.

Lemma member_starts kv u : decoded (VString kv.1) → starts_member (member_text kv +:+ u).
Proof.
  intros Hk. unfold member_text. rewrite !str_app_assoc.
  pose proof (scalar_open _ (":" +:+ writeCanonical kv.2 +:+ u)%string (string_scalar kv.1) Hk) as Ho.
  destruct (MarshalScalar _ +:+ _)%string; [done|]. simpl. set_solver.
Qed.

Lemma scalar_not_open v u c s : is_scalar v → decoded v → c ∈ ["{"; "["]%char →
  (MarshalScalar v +:+ u)%string ≠ String c s.
Proof. intros Hs Hd Hc He. pose proof (scalar_open v u Hs Hd) as Ho. rewrite He in Ho. set_solver. Qed.

(** The canonical text of a document is told apart from any other as soon as a
    delimiter follows. *)
Lemma canonical_code v w s t : all_decoded v → all_decoded w → delimited s → delimited t →
  (writeCanonical v +:+ s = writeCanonical w +:+ t)%string → same_json v w ∧ s = t.
Proof.
  revert w s t. induction v as [v Ha Ho|vs IH|kvs IH] using value_nested_ind; intros w s t Hv Hw Hs Ht H.
  - assert (is_scalar v) as Hsc by done. rewrite (scalar_canonical v) in H by done.
    pose proof (scalar_decoded v Hsc Hv) as Hd.
    destruct (value_cases w) as [Hwsc|[[ws ->]|[ms ->]]].
    + rewrite (scalar_canonical w) in H by done.
      destruct (scalar_text v w s t Hsc Hwsc Hd (scalar_decoded w Hwsc Hw) Hs Ht H) as [-> ->].
      split; [by constructor|done].
    + by apply scalar_not_open in H; [|done..|set_solver].
    + by apply scalar_not_open in H; [|done..|set_solver].
  - destruct (value_cases w) as [Hwsc|[[ws ->]|[ms ->]]].
    + rewrite (scalar_canonical w) in H by done. symmetry in H.
      by apply scalar_not_open in H; [|done|by apply scalar_decoded|set_solver].
    + cbn [writeCanonical] in H. rewrite !str_app_assoc in H. injection H as H.
      apply all_decoded_arr in Hv, Hw. rewrite Forall_forall in Hv, Hw, IH.
      destruct (Join_code writeCanonical same_json "]" vs ws s t) as [HF ->]; [set_solver|..|done|].
      * intros x u [Hx|Hx]; apply canonical_starts; auto.
      * intros x y u u' Hx Hy Hu Hu' He. eapply IH; eauto.
      * split; [by constructor|done].
    + by injection H.
  - destruct (value_cases w) as [Hwsc|[[ws ->]|[ms ->]]].
    + rewrite (scalar_canonical w) in H by done. symmetry in H.
      by apply scalar_not_open in H; [|done|by apply scalar_decoded|set_solver].
    + by injection H.
    + apply all_decoded_obj in Hv as [Hndv Hv], Hw as [Hndw Hw]. rewrite Forall_forall in Hv, Hw, IH.
      rewrite !writeCanonical_obj, !str_app_assoc in H by done. injection H as H.
      destruct (Join_code member_text (λ a b, a.1 = b.1 ∧ same_json a.2 b.2) "}"
        (sorted_members kvs) (sorted_members ms) s t) as [HF ->]; [set_solver|..|done|].
      * intros x u. rewrite !sorted_members_perm. intros [Hx|Hx]; apply member_starts; naive_solver.
      * intros x y u u'. rewrite !sorted_members_perm. intros Hx Hy Hu Hu' He. unfold member_text in He.
        rewrite !str_app_assoc in He.
        destruct (Hv x Hx) as [Hkx Hvx], (Hw y Hy) as [Hky Hvy].
        apply scalar_text in He as [[= Hk] He]; [|done..|by simpl; set_solver|by simpl; set_solver].
        injection He as He. destruct (IH x Hx y.2 u u') as [Hsame ->]; auto.
      * split; [|done].
        destruct (Permutation_Forall2 (sorted_members_perm kvs) HF) as (ms' & Hp & HF').
        eapply same_obj; [|exact HF']. rewrite <-Hp. apply sorted_members_perm.
Qed.

Lemma same_json_canonical v w : all_decoded v → same_json v w → writeCanonical v = writeCanonical w.
Proof.
  revert w. induction v as [v Ha Ho|vs IH|kvs IH] using value_nested_ind; intros w Hv Hs.
  - inversion Hs; subst; [done|by destruct (Ha vs)|by destruct (Ho kvs)].
  - inversion Hs as [v' Ha _|? ws HF|]; subst; [by destruct (Ha vs)|].
    apply all_decoded_arr in Hv. cbn [writeCanonical]. do 3 f_equal. clear Hs.
    induction HF as [|v w vs ws Hvw HF IH']; [done|].
    apply Forall_cons in Hv as [Hv Hvs], IH as [IH IHs]. cbn [map]. f_equal; auto.
  - inversion Hs as [v' _ Ho| |? kvs' ms Hp HF]; subst; [by destruct (Ho kvs)|].
    apply all_decoded_obj in Hv as [Hnd Hv]. apply (same_members kvs kvs'); [done| |done].
    clear Hs Hp Hnd. induction HF as [|a b kvs kvs' [Hk Hab] HF IH']; [done|].
    apply Forall_cons in Hv as [[_ Hv] Hvs], IH as [IH IHs]. constructor; auto.
Qed.

(** Two documents have the same canonical text exactly when they differ only in the
    order of their members. *)
Lemma canonical_same v w : all_decoded v → all_decoded w →
  canonicalJSON v = canonicalJSON w ↔ same_json v w.
Proof.
  intros Hv Hw. split; [|by apply same_json_canonical]. intros H.
  apply (canonical_code v w "" ""); [done..|]. by rewrite !str_app_nil_r.
Qed.
End identity.

(** ** Hashed requests *)

Fixpoint no_newline (s : string) : Prop :=
  match s with EmptyString => True | String c s => c ≠ ascii_of_nat 10 ∧ no_newline s end.

Lemma line_split a a' s t : no_newline a → no_newline a' →
  (a +:+ newline +:+ s = a' +:+ newline +:+ t)%string → a = a' ∧ s = t.
Proof.
  revert a'. induction a as [|c a IH]; intros [|c' a'] Ha Ha' H.
  - split; [done|]. by injection H.
  - injection H as <- _. by destruct Ha'.
  - injection H as -> _. by destruct Ha.
  - injection H as -> H. destruct (IH a') as [-> ->]; [apply Ha|apply Ha'|done|done].
Qed.

Section hash.
Context {json : JsonAny} {text : JsonText} {sha : Sha256}.

Lemma hashed_json method path body v : UnmarshalAny body = Some v →
  hashed_text method path body = (method +:+ newline +:+ path +:+ newline +:+ canonicalJSON v)%string.
Proof.
  intros Hv. unfold hashed_text. rewrite decide_False, Hv; [done|]. intros ->. by rewrite Unmarshal_empty in Hv.
Qed.

(** C35: The identity of a recorded request. Two requests whose methods and paths are
    single lines and whose bodies are JSON have the same text hashed exactly when
    they have the same method, the same path and bodies that differ in nothing but
    the order of members (and what decoding erases: white space and spelling). So such
    requests share their hash, and different ones share it only if SHA-256 collides. *)
Theorem HashRequest_identity method path body method' path' body' v w :
  no_newline method → no_newline path → no_newline method' → no_newline path' →
  UnmarshalAny body = Some v → UnmarshalAny body' = Some w → all_decoded v → all_decoded w →
  (hashed_text method path body = hashed_text method' path' body' ↔
     method = method' ∧ path = path' ∧ same_json v w) ∧
  (method = method' → path = path' → same_json v w →
     HashRequest method path body = HashRequest method' path' body') ∧
  (HashRequest method path body = HashRequest method' path' body' →
     ¬ (method = method' ∧ path = path' ∧ same_json v w) →
     ∃ x y, x ≠ y ∧ sha256_hex x = sha256_hex y).
Proof.
  intros Hm Hp Hm' Hp' Hv Hw Hdv Hdw.
  assert (hashed_text method path body = hashed_text method' path' body' ↔
    method = method' ∧ path = path' ∧ same_json v w) as Hiff.
  { rewrite (hashed_json _ _ _ _ Hv), (hashed_json _ _ _ _ Hw), <-(canonical_same v w) by done. split.
    - intros H. apply line_split in H as [-> H]; [|done..]. by apply line_split in H as [-> ->].
    - by intros (-> & -> & ->). }
  split; [done|]. split.
  - intros H1 H2 H3. unfold HashRequest. by rewrite (proj2 Hiff).
  - intros H Hn. eexists _, _. split; [|exact H]. by rewrite Hiff.
Qed.
End hash.

(** ** Cassettes *)

Record Cassette := mkCassette {
  c_Path : string;
  interactions : list Interaction;
  byHash : gmap string (list Interaction)
}.

Definition New (path : string) : Cassette := mkCassette path [] ∅.

(** The interaction joins the list and the sequence of its hash. *)
Definition index_add (c : Cassette) (it : Interaction) : Cassette :=
  mkCassette (c_Path c) (interactions c ++ [it])
    (<[it_Hash it := default [] (byHash c !! it_Hash it) ++ [it]]> (byHash c)).

Section cassette.
Context {json : JsonAny} {sha : Sha256}.

(** The loop over the scanned lines; [None] is a parse error. *)
Definition load_line (c : Cassette) (line : string) : option Cassette :=
  let line := TrimSpace line in
  if decide (line = "") then Some c else it ← DecodeInteraction line; Some (index_add c it).

(** [lines] is [None] for a missing file; [scanned] tells whether the scanner
    reached its end. *)
Definition Load (path : string) (lines : option (list string)) (scanned : bool) : option Cassette :=
  match lines with
  | None => Some (New path)
  | Some lines => c ← fold_opt load_line lines (New path); if scanned then Some c else None
  end.

Definition Len (c : Cassette) : nat := length (interactions c).

(** The hash and the time, when blank. *)
Definition stamped (now : Z) (it : Interaction) : Interaction :=
  mkInteraction (if decide (it_RecordedAt it = 0)%Z then now else it_RecordedAt it)
    (if decide (it_Hash it = "") then HashRequest (it_Method it) (it_Path it) (it_RequestBody it) else it_Hash it)
    (it_Method it) (it_Path it) (it_RequestHeaders it) (it_RequestBody it)
    (it_ResponseStatus it) (it_ResponseHeaders it) (it_ResponseBody it) (it_Streaming it) (it_StreamEvents it).

(** The lines of the file, [None] when one cannot be encoded. *)
Definition writeCassette (its : list Interaction) : option (list string) := mapM EncodeInteraction its.

(** [Append] in its two steps: under the lock, answering the snapshot to write; then
    the file, which a failed write leaves as it was. *)
Definition append_locked (now : Z) (it : Interaction) (c : Cassette) : Cassette * list Interaction :=
  let c := index_add c (stamped now it) in (c, interactions c).

Definition flush (path : string) (snapshot : list Interaction) (file : option (list string))
  : option (list string) * bool :=
  if decide (path = "") then (file, true)
  else match writeCassette snapshot with
       | Some lines => (Some lines, true)
       | None => (file, false)
       end.

Definition Append (now : Z) (it : Interaction) (c : Cassette) (file : option (list string))
  : Cassette * option (list string) * bool :=
  let '(c, snapshot) := append_locked now it c in
  let '(file, ok) := flush (c_Path c) snapshot file in (c, file, ok).

Definition AppendAll (now : Z) (its : list Interaction) (c : Cassette) (file : option (list string))
  : Cassette * option (list string) * bool :=
  let c := foldl (λ c it, index_add c (stamped now it)) c its in
  let '(file, ok) := flush (c_Path c) (interactions c) file in (c, file, ok).

Definition Lookup (hash : string) (c : Cassette) : option Interaction :=
  match default [] (byHash c !! hash) with s0 :: _ => Some s0 | [] => None end.

Definition LookupSequence (hash : string) (c : Cassette) : list Interaction := default [] (byHash c !! hash).

Definition All (c : Cassette) : list Interaction := interactions c.

(** The index answers what a search of the list would. *)
Definition cassette_ok (c : Cassette) : Prop :=
  ∀ hash, LookupSequence hash c = filter (λ it, it_Hash it = hash) (interactions c).

Lemma New_ok path : cassette_ok (New path).
Proof. intros hash. unfold LookupSequence. simpl. by rewrite lookup_empty. Qed.

Lemma index_add_ok c it : cassette_ok c → cassette_ok (index_add c it).
Proof.
  intros H hash. specialize (H hash). unfold LookupSequence in *. simpl. rewrite filter_app, <-H, filter_cons, filter_nil.
  destruct (decide (it_Hash it = hash)) as [<-|Hne].
  - by rewrite lookup_insert_eq.
  - by rewrite lookup_insert_ne, app_nil_r.
Qed.

Lemma index_add_all its c : cassette_ok c →
  cassette_ok (foldl index_add c its) ∧ interactions (foldl index_add c its) = interactions c ++ its ∧
  c_Path (foldl index_add c its) = c_Path c.
Proof.
  revert c. induction its as [|it its IH]; intros c H; simpl; [by rewrite app_nil_r|].
  destruct (IH (index_add c it)) as (Hok & Hits & Hp); [by apply index_add_ok|].
  split; [done|]. split; [|done]. rewrite Hits. simpl. by rewrite <-app_assoc.
Qed.
End cassette.

(** ** The file of a cassette *)

(** What JSON lines promise: an encoded interaction is one trimmed line that is not
    blank, and decodes into the interaction with its bodies compacted. *)
Class JsonLines `{!JsonAny} := {
  reread : Interaction → Interaction;
  reread_hash it : it_Hash (reread it) = it_Hash it;
  line_decodes it line : EncodeInteraction it = Some line →
    TrimSpace line = line ∧ line ≠ "" ∧ DecodeInteraction line = Some (reread it)
}.

Section file.
Context {json : JsonAny} {sha : Sha256} {jl : JsonLines}.

Definition encodable (it : Interaction) : Prop := is_Some (EncodeInteraction it).

Definition append_step (st : Cassette * option (list string) * bool) (p : Z * Interaction)
  : Cassette * option (list string) * bool := Append p.1 p.2 st.1.1 st.1.2.

(** The file holds [kept]; there is none before the first write. *)
Definition holds (file : option (list string)) (kept : list Interaction) : Prop :=
  match file with None => kept = [] | Some lines => writeCassette kept = Some lines end.

Lemma writeCassette_snoc its it : writeCassette (its ++ [it]) =
  lines ← writeCassette its; line ← EncodeInteraction it; Some (lines ++ [line]).
Proof.
  unfold writeCassette. induction its as [|x its IH]; simpl.
  - by destruct (EncodeInteraction it).
  - destruct (EncodeInteraction x); simpl; [|done]. rewrite IH. destruct (mapM EncodeInteraction its); simpl; [|done].
    by destruct (EncodeInteraction it).
Qed.

Lemma writeCassette_all its : Forall encodable its → is_Some (writeCassette its).
Proof. apply mapM_is_Some_2. Qed.

Lemma writeCassette_bad its it rest : ¬ encodable it → writeCassette (its ++ it :: rest) = None.
Proof.
  intros Hbad. destruct (writeCassette (its ++ it :: rest)) eqn:H; [|done]. exfalso. apply Hbad.
  assert (Forall encodable (its ++ it :: rest)) as HF by (apply mapM_is_Some_1; by eexists).
  apply Forall_app in HF as [_ HF]. by apply Forall_cons in HF as [? _].
Qed.

Lemma load_lines kept lines c : writeCassette kept = Some lines → cassette_ok c →
  ∃ c', fold_opt load_line lines c = Some c' ∧ cassette_ok c' ∧
    interactions c' = interactions c ++ (reread <$> kept).
Proof.
  revert lines c. induction kept as [|it kept IH]; intros lines c Hw Hc; unfold writeCassette in *; simpl in Hw.
  { injection Hw as <-. exists c. by rewrite app_nil_r. }
  destruct (EncodeInteraction it) as [line|] eqn:He; simpl in Hw; [|done].
  destruct (mapM EncodeInteraction kept) as [lines'|] eqn:Hk; simpl in Hw; [|done]. injection Hw as <-.
  destruct (line_decodes it line He) as (Ht & Hne & Hd). simpl. unfold load_line at 1.
  rewrite Ht, decide_False, Hd by done. simpl.
  destruct (IH lines' (index_add c (reread it))) as (c' & -> & Hok & Hits); [done|by apply index_add_ok|].
  exists c'. split; [done|]. split; [done|]. rewrite Hits. simpl. by rewrite <-app_assoc.
Qed.

Lemma Load_holds path file kept : holds file kept →
  ∃ c, Load path file true = Some c ∧ cassette_ok c ∧ interactions c = reread <$> kept.
Proof.
  destruct file as [lines|]; simpl; intros H.
  - destruct (load_lines kept lines (New path) H (New_ok path)) as (c & -> & Hok & Hits). by exists c.
  - subst kept. exists (New path). split; [done|]. split; [apply New_ok|done].
Qed.

(** A cassette survives its file. Appended one after the other, the interactions are
    all served from memory, indexed by hash in the order they came. The file is
    rewritten as long as every interaction can be encoded: loading it gives the same
    interactions in the same order under the same hashes, with their bodies
    compacted. From the first interaction that cannot be encoded on, every append
    fails, and the file keeps exactly what came before it. *)
Theorem cassette_file path its : path ≠ "" →
  let '(c, file, ok) := foldl append_step (New path, None, true) its in
  let all := (λ p, stamped p.1 p.2) <$> its in
  All c = all ∧ (∀ hash, LookupSequence hash c = filter (λ it, it_Hash it = hash) all) ∧
  ∃ kept rest, all = kept ++ rest ∧ Forall encodable kept ∧ (∀ bad, head rest = Some bad → ¬ encodable bad) ∧
    (ok = true ↔ rest = []) ∧
    ∃ c', Load path file true = Some c' ∧ All c' = reread <$> kept ∧
      ∀ hash, LookupSequence hash c' = reread <$> filter (λ it, it_Hash it = hash) kept.
Proof.
  intros Hpath.
  assert (let '(c, file, ok) := foldl append_step (New path, None, true) its in
    let all := (λ p, stamped p.1 p.2) <$> its in
    c_Path c = path ∧ cassette_ok c ∧ interactions c = all ∧
    ∃ kept rest, all = kept ++ rest ∧ Forall encodable kept ∧ (∀ bad, head rest = Some bad → ¬ encodable bad) ∧
      (ok = true ↔ rest = []) ∧ holds file kept) as Hinv.
  { induction its as [|[now it] its IH] using rev_ind.
    { split_and!; [done|apply New_ok|done|]. exists [], []. split_and!; try done. }
    rewrite foldl_app, fmap_app. destruct (foldl append_step _ its) as [[c file] ok].
    destruct IH as (Hp & Hok & Hits & kept & rest & Hall & Hkept & Hbad & Hiff & Hholds). cbv zeta in *.
    simpl. unfold append_step, Append. simpl. unfold flush. simpl. rewrite Hp, decide_False by done.
    rewrite Hits, Hall. set (x := stamped now it).
    assert (cassette_ok (index_add c x)) as Hokx by by apply index_add_ok.
    destruct rest as [|bad rest]; cycle 1.
    { rewrite <-app_assoc. simpl. rewrite writeCassette_bad by by apply Hbad.
      split_and!; [done|done|simpl; by rewrite Hits, Hall, <-app_assoc|].
      exists kept, (bad :: rest ++ [x]). split_and!; try done. }
    rewrite app_nil_r. destruct (EncodeInteraction x) as [line|] eqn:He.
    - destruct (writeCassette_all (kept ++ [x])) as [lines Hl].
      { apply Forall_app. split; [done|]. apply Forall_singleton. by eexists. }
      rewrite Hl. split_and!; [done|done|simpl; by rewrite Hits, Hall, app_nil_r|].
      exists (kept ++ [x]), []. split_and!; [by rewrite app_nil_r| |done|done|done].
      apply Forall_app. split; [done|]. apply Forall_singleton. by eexists.
    - assert (¬ encodable x) as Hx by (intros [? ?]; congruence). rewrite writeCassette_bad by done.
      split_and!; [done|done|simpl; by rewrite Hits, Hall, app_nil_r|].
      exists kept, [x]. split_and!; [done|done|by intros ? [= <-]|done|done]. }
  destruct (foldl append_step _ its) as [[c file] ok].
  destruct Hinv as (Hp & Hok & Hits & kept & rest & Hall & Hkept & Hbad & Hiff & Hholds). cbv zeta in *.
  split; [done|]. split; [intros hash; by rewrite Hok, Hits|]. exists kept, rest. split_and!; [done..|].
  destruct (Load_holds path file kept Hholds) as (c' & Hl & Hok' & Hits'). exists c'. split; [done|]. split; [done|].
  intros hash. rewrite Hok', Hits'. clear. induction kept as [|it kept IH]; [done|].
  rewrite fmap_cons, !filter_cons, reread_hash, IH. by case_decide.
Qed.

(** Two appends whose writes happen in the other order: the file loses the second
    interaction, although both calls report success. *)
Lemma racing_appends_lose path now a b file : path ≠ "" → encodable (stamped now a) → encodable (stamped now b) →
  let '(c, snap_a) := append_locked now a (New path) in
  let '(c, snap_b) := append_locked now b c in
  let '(file, ok_b) := flush path snap_b file in
  let '(file, ok_a) := flush path snap_a file in
  ok_a = true ∧ ok_b = true ∧ All c = [stamped now a; stamped now b] ∧
  ∃ c', Load path file true = Some c' ∧ All c' = [reread (stamped now a)].
Proof.
  intros Hp Ha Hb. unfold append_locked, flush. cbn -[writeCassette].
  destruct (writeCassette_all [stamped now a; stamped now b]) as [l2 Hl2]; [by repeat constructor|].
  destruct (writeCassette_all [stamped now a]) as [l1 Hl1]; [by repeat constructor|].
  rewrite decide_False, Hl2 by done. cbn -[writeCassette]. rewrite decide_False, Hl1 by done.
  do 3 (split; [done|]).
  destruct (Load_holds path (Some l1) [stamped now a]) as (c' & -> & _ & Hits); [done|]. by exists c'.
Qed.
End file.

(** ** A small encoder

    It knows null, the booleans and strings without delimiters. *)

Fixpoint delim_free (s : string) : Prop :=
  match s with EmptyString => True | String c s => (c ∉ [","; ":"; "}"; "]"]%char) ∧ delim_free s end.

Lemma delim_split a a' s t : delim_free a → delim_free a' → delimited s → delimited t →
  (a +:+ s = a' +:+ t)%string → a = a' ∧ s = t.
Proof.
  revert a'. induction a as [|c a IH]; intros [|c' a'] Ha Ha' Hs Ht H.
  - by split.
  - destruct s; [done|]. injection H as -> _. by destruct Ha'.
  - destruct t; [done|]. injection H as -> _. by destruct Ha.
  - injection H as -> H. destruct (IH a') as [-> ->]; [apply Ha|apply Ha'|done..].
Qed.

Definition ex_scalar (v : value) : string :=
  match v with VBool true => "true" | VBool false => "false" | VString s => String "'" s | _ => "null" end.

Definition ex_body (first second : string * value) : value := VObj [first; second].

(** An interaction that is nothing but its hash. *)
Definition bare (hash : string) : Interaction := mkInteraction 1 hash "" "" ∅ "" 0 ∅ "" false [].

#[local] Instance ex_json : JsonAny := {|
  UnmarshalAny b :=
    if decide (b = "ab") then Some (ex_body ("a", VNil) ("b", VBool true))%string
    else if decide (b = "ba") then Some (ex_body ("b", VBool true) ("a", VNil))%string else None;
  MarshalScalar := ex_scalar;
  EncodeInteraction it := if decide (it_Hash it ∈ ["h1"; "h2"]%string) then Some (it_Hash it) else None;
  DecodeInteraction line := Some (bare line)
|}.

Definition ex_decoded (v : value) : Prop :=
  match v with VNil | VBool _ => True | VString s => delim_free s | _ => False end.

Lemma ex_scalar_free v : ex_decoded v → delim_free (ex_scalar v).
Proof. destruct v as [|[]| | | | | | | | |]; simpl; try done; intros; split_and!; try done; set_solver. Qed.

Lemma ex_scalar_inj v w : ex_decoded v → ex_decoded w → ex_scalar v = ex_scalar w → v = w.
Proof.
  destruct v as [|[]| | | | | | | | |], w as [|[]| | | | | | | | |]; simpl; try done. by intros _ _ [= ->].
Qed.

#[local] Instance ex_text : JsonText.
Proof.
  refine {| decoded := ex_decoded |}; [done|..].
  - intros v w s t _ _ Hv Hw Hs Ht H.
    apply delim_split in H as [H ->]; [|by apply ex_scalar_free..|done|done]. split; [|done]. by apply ex_scalar_inj.
  - intros v s _ Hv. destruct v as [|[]| | | | | | | | |]; simpl in *; try done; set_solver.
Defined.

Lemma HashRequest_identity_witness :
  hashed_text "POST" "/v1/chat/completions" "ab" = hashed_text "POST" "/v1/chat/completions" "ba" ∧
  same_json (ex_body ("a", VNil) ("b", VBool true))%string (ex_body ("b", VBool true) ("a", VNil))%string.
Proof.
  assert (same_json (ex_body ("a", VNil) ("b", VBool true))%string (ex_body ("b", VBool true) ("a", VNil))%string) as Hs.
  { eapply (same_obj _ [("a", VNil); ("b", VBool true)]%string); [apply perm_swap|].
    repeat constructor; by intros. }
  split; [|done].
  apply (HashRequest_identity (sha := λ s, s) "POST" "/v1/chat/completions" "ab" "POST" "/v1/chat/completions" "ba"
    (ex_body ("a", VNil) ("b", VBool true))%string (ex_body ("b", VBool true) ("a", VNil))%string); try done.
  all: try (repeat split; discriminate).
  all: split; [apply (bool_decide_unpack _); by vm_compute|repeat split; set_solver].
Defined.

#[local] Instance ex_lines : JsonLines.
Proof.
  refine {| reread it := bare (it_Hash it) |}; [done|].
  intros it line He. simpl in He. case_decide as Hin; [|done]. injection He as <-.
  apply elem_of_cons in Hin as [->|Hin%list_elem_of_singleton]; [by split_and!|]. rewrite Hin. by split_and!.
Defined.

(** The third interaction cannot be encoded: the file keeps the first two. *)
Lemma cassette_file_witness :
  let its := [(1%Z, bare "h1"); (2%Z, bare "h2"); (3%Z, bare "html"); (4%Z, bare "h1")] in
  let sha : Sha256 := λ s, s in
  let '(c, file, ok) := foldl append_step (New "tape", None, true) its in
  ok = false ∧ LookupSequence "h1" c = [bare "h1"; bare "h1"] ∧
  ∃ c', Load "tape" file true = Some c' ∧ All c' = [bare "h1"; bare "h2"].
Proof.
  intros its sha. pose proof (cassette_file "tape" its ltac:(done)) as H.
  destruct (foldl append_step _ its) as [[c file] ok] eqn:E. destruct H as (Hall & Hseq & kept & rest & _ & _ & _ & Hok & c' & Hl & _).
  vm_compute in E. injection E as <- <- <-. split; [done|]. split; [by rewrite Hseq|].
  exists c'. split; [done|]. vm_compute in Hl. by injection Hl as <-.
Defined.
