(* ===== verification/Redaction.v ===== *)
(** Masking of secrets: [SanitizeBody] of [internal/storage/sqlite.go] and the
    redactor of [internal/recording/redact.go]. *)

From Stdlib Require Import Ascii.
From S2P Require Import Prelude GoBase GoStrings Validation Cassette.

Definition mask : string := "***".

(** The end of a value: a quote, a blank or a comma, or the end of the string. *)
Definition ends_value (s : string) : bool :=
  match s with
  | EmptyString => true
  | String c _ => bool_decide (c ∈ [ascii_of_nat 34; " "; ","]%char)
  end.

(** The loop over [end]: what follows the value. *)
Fixpoint after_value (s : string) : string :=
  if ends_value s then s else match s with EmptyString => "" | String _ s => after_value s end.

(** The loop of one pattern; [rest] is what lies behind the offset, and the answer
    what it becomes. Every round consumes the pattern, so the length of [rest] is
    enough fuel. *)
Fixpoint mask_loop (fuel : nat) (pattern rest : string) : string :=
  match fuel with
  | O => rest
  | S fuel =>
      match Index rest pattern with
      | None => rest
      | Some idx =>
          let valStart := idx + String.length pattern in
          let value := str_drop valStart rest in
          if has_prefix value mask && ends_value (str_drop 3 value)
          then (str_take valStart rest +:+ mask +:+ mask_loop fuel pattern (str_drop 3 value))%string
          else (str_take valStart rest +:+ mask +:+ mask_loop fuel pattern (after_value value))%string
      end
  end.

Definition secret_prefixes : list string := ["sk-"; "key-"; "Bearer "]%string.

Definition sanitize_step (s pattern : string) : string := mask_loop (S (String.length s)) pattern s.

Definition SanitizeBody (body : string) : string := foldl sanitize_step body secret_prefixes.

(** ** Every occurrence of a prefix is masked *)

Definition star_free (p : string) : Prop := ∀ x y, p ≠ (x +:+ String "*" y)%string.

(** What follows begins with the mask, and the value ends there. *)
Definition masked_tail (b : string) : Prop := ∃ t, b = (mask +:+ t)%string ∧ ends_value t = true.

Definition masked (p s : string) : Prop := ∀ a b, s = (a +:+ p +:+ b)%string → masked_tail b.

(** A pattern of the loops: no star in it, and a value does not end at its start. *)
Definition pattern_ok (p : string) : Prop := star_free p ∧ ends_value p = false.

Lemma pattern_nonempty p : pattern_ok p → p ≠ "".
Proof. intros [_ H] ->. done. Qed.

Lemma ends_value_app a b : a ≠ "" → ends_value (a +:+ b) = ends_value a.
Proof. by destruct a. Qed.

Lemma pattern_ends p b : pattern_ok p → ends_value (p +:+ b) = false.
Proof. intros Hp. rewrite ends_value_app by by apply pattern_nonempty. apply Hp. Qed.

(** What begins as the mask does begins with a star. *)
Lemma mask_star e b t : e ≠ "" → (e +:+ b = mask +:+ t)%string → ∃ e', e = String "*" e'.
Proof. intros He H. destruct e as [|c e]; [done|]. injection H as -> _. by exists e. Qed.

Lemma mask_split g k : mask = (g +:+ k)%string → k ≠ "" → ∃ k', k = String "*" k'.
Proof.
  intros H Hk. destruct k as [|c k]; [done|]. exists k. f_equal.
  assert (c ∈ String.list_ascii_of_string mask) as Hc; [|simpl in Hc; set_solver].
  rewrite H. clear. induction g as [|x g IH]; simpl; [left|by right].
Qed.

(** The quotes, blanks and commas of a text. *)
Fixpoint delimiters (s : string) : list ascii :=
  match s with
  | EmptyString => []
  | String c s => if bool_decide (c ∈ [ascii_of_nat 34; " "; ","]%char) then c :: delimiters s else delimiters s
  end.

Lemma delimiters_app a b : delimiters (a +:+ b) = delimiters a ++ delimiters b.
Proof. induction a as [|c a IH]; [done|]. simpl. case_bool_decide; [|exact IH]. simpl. by f_equal. Qed.

Lemma after_value_spec s :
  ends_value (after_value s) = true ∧ ∃ v, s = (v +:+ after_value s)%string ∧ delimiters v = [].
Proof.
  induction s as [|c s [IH [v [Hv Hd]]]]; cbn [after_value]; [split; [done|by exists ""]|].
  destruct (ends_value (String c s)) eqn:He; [split; [done|by exists ""]|].
  split; [done|]. exists (String c v). split.
  - change (String c s = String c (v +:+ after_value s)). by f_equal.
  - simpl in He |- *. by rewrite He.
Qed.

(** Induction over the rounds of a loop: what lies before the first occurrence stays,
    the occurrence is followed by the mask and by what becomes of [next], which
    begins at the end of the value. *)
Lemma mask_loop_ind p (P : string → string → Prop) : p ≠ "" →
  (∀ rest, Index rest p = None → P rest rest) →
  (∀ pre value next v out, (∀ a b, (pre +:+ p = a +:+ p +:+ b)%string → b = "") →
     value = (v +:+ next)%string → delimiters v = [] → ends_value next = true → P next out →
     (has_prefix value mask && ends_value (str_drop 3 value) = true → v = mask) →
     P (pre +:+ p +:+ value)%string (pre +:+ p +:+ mask +:+ out)%string) →
  ∀ fuel rest, String.length rest < fuel → P rest (mask_loop fuel p rest).
Proof.
  intros Hp Hnone Hstep fuel. induction fuel as [|fuel IH]; intros rest Hlen; [lia|]. cbn [mask_loop].
  destruct (Index rest p) as [idx|] eqn:Hi; [|by apply Hnone].
  destruct (Index_Some rest p idx Hp Hi) as (pre & value & -> & <- & Hfirst).
  rewrite <-str_length_app, <-str_app_assoc, str_drop_app, str_take_app.
  rewrite !str_app_assoc. rewrite !str_length_app in Hlen.
  assert (0 < String.length p) by (destruct p; [done|simpl; lia]).
  destruct (has_prefix value mask && ends_value (str_drop 3 value)) eqn:Hm.
  - apply andb_true_iff in Hm as Hm'. destruct Hm' as [Hpre Hends].
    apply has_prefix_spec in Hpre as [t ->]. change 3 with (String.length mask) in *.
    rewrite str_drop_app in *. rewrite str_length_app in Hlen.
    apply (Hstep pre _ t mask); [done..| |done]. apply IH. lia.
  - destruct (after_value_spec value) as [Hends (v & Hv & Hd)].
    apply (Hstep pre value (after_value value) v); [done..| |by rewrite Hm]. apply IH.
    rewrite Hv, str_length_app in Hlen. lia.
Qed.

(** An occurrence that ends behind the mask lies in what follows it. *)
Lemma behind_mask p pre out a b e : pattern_ok p → masked p out →
  (a +:+ p = pre +:+ e)%string → e ≠ "" → (mask +:+ out = e +:+ b)%string → masked_tail b.
Proof.
  intros Hp Hout Ha He Hb. destruct (mask_star e b out He (eq_sym Hb)) as [e' He'].
  apply str_app_eq_app in Ha as (f & [[-> ->]|[-> ->]]).
  - rewrite str_app_assoc in Hb. apply str_app_eq_app in Hb as (g & [[Hm Hb]|[-> Hb]]).
    + destruct (decide (g = "")) as [->|Hg]; [by apply (Hout "" b)|].
      destruct (mask_split f g Hm Hg) as [g' ->]. destruct p as [|c p]; [by destruct Hp|].
      injection Hb as -> _. destruct Hp as [Hp _]. by destruct (Hp "" p).
    + by apply (Hout g b).
  - destruct Hp as [Hp _]. destruct (Hp f e'). by rewrite He'.
Qed.

Lemma mask_loop_masks p fuel rest : pattern_ok p → String.length rest < fuel →
  masked p (mask_loop fuel p rest) ∧ (ends_value rest = true → ends_value (mask_loop fuel p rest) = true).
Proof.
  intros Hp. revert rest. apply (mask_loop_ind p (λ rest out, masked p out ∧ (ends_value rest = true → ends_value out = true)));
    [by apply pattern_nonempty|..].
  - intros rest Hi. split; [|done]. intros a b H. by destruct (proj1 (Index_None rest p) Hi a b).
  - intros pre value next v out Hfirst -> _ Hends [Hout Hend] _. split.
    + intros a b H. assert (masked_tail (mask +:+ out)) as Htail by (exists out; auto).
      rewrite <-!(str_app_assoc _ p) in H. apply str_app_eq_app in H as (e & [[Ha Hb]|[Ha Hb]]).
      * rewrite (Hfirst a e) in Hb by by rewrite Ha, str_app_assoc. by subst b.
      * destruct (decide (e = "")) as [->|He]; [by rewrite Hb in Htail|].
        by apply (behind_mask p (pre +:+ p) out a b e).
    + intros H. destruct pre as [|c pre]; [|done]. by rewrite str_app_nil_l, pattern_ends in H.
Qed.

(** The loop of another pattern keeps occurrences masked. *)
Lemma mask_loop_keeps p q fuel rest : pattern_ok p → pattern_ok q →
  (∀ g, p ≠ (g +:+ q)%string) → (∀ g, q ≠ (g +:+ p)%string) →
  String.length rest < fuel → masked p rest → masked p (mask_loop fuel q rest).
Proof.
  intros Hp Hq Hpq Hqp. revert rest. apply (mask_loop_ind q (λ rest out, masked p rest → masked p out));
    [by apply pattern_nonempty|done|].
  intros pre value next v out _ -> _ Hends IH _ H.
  assert (masked p out) as Hout.
  { apply IH. intros a b ->. apply (H (pre +:+ q +:+ v +:+ a)%string). by rewrite !str_app_assoc. }
  clear IH. assert (∀ a, (a +:+ p)%string ≠ (pre +:+ q)%string) as Hnot.
  { intros a Ha. apply str_app_eq_app in Ha as (g & [[_ Hg]|[_ Hg]]); [by apply (Hqp g)|by apply (Hpq g)]. }
  intros a b Hab. rewrite <-(str_app_assoc a), <-(str_app_assoc pre) in Hab.
  apply str_app_eq_app in Hab as (e & [[Ha Hb]|[Ha Hb]]).
  - destruct (decide (e = "")) as [->|He]; [rewrite str_app_nil_r in Ha; by destruct (Hnot a)|].
    specialize (H a (e +:+ v +:+ next)%string) as (t & Ht & Hte).
    { by rewrite <-(str_app_assoc pre), Ha, !str_app_assoc. }
    destruct (mask_star e _ _ He Ht) as [e' He'].
    apply str_app_eq_app in Ha as (g & [[_ Hg]|[_ Hg]]); cycle 1.
    { destruct Hq as [Hq _]. destruct (Hq g e'). by rewrite Hg, He'. }
    subst e. rewrite str_app_assoc in Ht. apply str_app_eq_app in Ht as (k & [[Hgk Htk]|[Hgk Htk]]).
    + subst g t. rewrite Hb. exists (k +:+ q +:+ mask +:+ out)%string. rewrite !str_app_assoc. split; [done|].
      destruct k as [|c k]; [by rewrite str_app_nil_l, pattern_ends in Hte|done].
    + exfalso. destruct (decide (k = "")) as [->|Hk].
      { rewrite str_app_nil_l in Htk. subst t. by rewrite pattern_ends in Hte. }
      destruct (mask_split g k Hgk Hk) as [k' ->]. destruct q as [|c q]; [by destruct Hq|].
      injection Htk as -> _. destruct Hq as [Hq _]. by destruct (Hq "" q).
  - destruct (decide (e = "")) as [->|He]; [rewrite str_app_nil_r in Ha; by destruct (Hnot a)|].
    by apply (behind_mask p (pre +:+ q) out a b e).
Qed.

Lemma mask_loop_delimiters p fuel rest : pattern_ok p → String.length rest < fuel →
  delimiters (mask_loop fuel p rest) = delimiters rest.
Proof.
  intros Hp. revert rest. apply (mask_loop_ind p (λ rest out, delimiters out = delimiters rest));
    [by apply pattern_nonempty|done|].
  intros pre value next v out _ -> Hv _ IH _. by rewrite !delimiters_app, IH, Hv.
Qed.

(** A text in which every occurrence is masked is left alone. *)
Lemma mask_loop_masked p fuel rest : pattern_ok p → String.length rest < fuel → masked p rest →
  mask_loop fuel p rest = rest.
Proof.
  intros Hp. revert rest. apply (mask_loop_ind p (λ rest out, masked p rest → out = rest));
    [by apply pattern_nonempty|done|].
  intros pre value next v out _ -> _ _ IH Hv H. destruct (H pre (v +:+ next)%string eq_refl) as (t & Ht & Hte).
  assert (v = mask) as ->.
  { apply Hv. rewrite Ht, andb_true_iff. split; [apply has_prefix_spec; by exists t|].
    change 3 with (String.length mask). by rewrite str_drop_app. }
  rewrite IH; [done|]. intros a b ->. apply (H (pre +:+ p +:+ mask +:+ a)%string). by rewrite !str_app_assoc.
Qed.

Lemma secret_prefixes_ok p : p ∈ secret_prefixes → pattern_ok p.
Proof.
  intros Hp. split.
  - intros x y H. assert ("*"%char ∈ String.list_ascii_of_string p) as Hstar.
    { rewrite H. clear. induction x as [|c x IH]; simpl; [left|by right]. }
    repeat (apply elem_of_cons in Hp as [->|Hp]; [simpl in Hstar; set_solver|]). set_solver.
  - repeat (apply elem_of_cons in Hp as [->|Hp]; [done|]). set_solver.
Qed.

(** No prefix is a suffix of another. *)
Lemma secret_prefixes_apart p q : p ∈ secret_prefixes → q ∈ secret_prefixes → p ≠ q → ∀ g, p ≠ (g +:+ q)%string.
Proof.
  intros Hp Hq Hne g H.
  assert (String.length g + String.length q = String.length p) as Hl by by rewrite H, str_length_app.
  assert (str_drop (String.length p - String.length q) p = q) as Hd.
  { replace (String.length p - String.length q) with (String.length g) by lia. by rewrite H, str_drop_app. }
  repeat (apply elem_of_cons in Hp as [->|Hp]; [|]); [..|set_solver];
    repeat (apply elem_of_cons in Hq as [->|Hq]; [|]); try set_solver; simpl in Hl; try lia; done.
Qed.

Lemma sanitize_fold l s : l ⊆ secret_prefixes →
  (∀ p, p ∈ secret_prefixes → p ∈ l ∨ masked p s → masked p (foldl sanitize_step s l)) ∧
  delimiters (foldl sanitize_step s l) = delimiters s ∧
  ((∀ p, p ∈ l → masked p s) → foldl sanitize_step s l = s).
Proof.
  revert s. induction l as [|q l IH]; intros s Hl; cbn [foldl].
  { split; [|done]. intros p _ [[]%not_elem_of_nil|Hm]; done. }
  assert (q ∈ secret_prefixes) as Hq by (apply Hl; left). pose proof (secret_prefixes_ok q Hq) as Hqok.
  destruct (IH (sanitize_step s q)) as (Hm & Hd & Hid); [intros p Hp; apply Hl; by right|].
  destruct (mask_loop_masks q (S (String.length s)) s Hqok) as [Hqm _]; [lia|].
  fold (sanitize_step s q) in Hqm. split; [|split].
  - intros p Hp Hor. apply Hm; [done|]. destruct (decide (p = q)) as [->|Hne]; [by right|].
    destruct Hor as [[Hpq|Hin]%elem_of_cons|Hms]; [done|by left|]. right.
    apply mask_loop_keeps; [by apply secret_prefixes_ok|done|by apply secret_prefixes_apart..|lia|done].
  - rewrite Hd. apply mask_loop_delimiters; [done|lia].
  - intros Hall. assert (sanitize_step s q = s) as Hs by (apply mask_loop_masked; [done|lia|apply Hall; left]).
    rewrite Hs in *. apply Hid. intros p Hp. apply Hall. by right.
Qed.

(** What the masking of logs and cassettes guarantees. In a sanitized text every
    occurrence of sk-, key- and Bearer is followed by the mask, and the value ends
    there: no secret that has one of these prefixes survives, whatever stands next to
    it. Sanitizing twice changes nothing more, a text without secrets is left alone,
    and the quotes, blanks and commas are kept in their order. *)
Theorem SanitizeBody_masks body :
  (∀ p a b, p ∈ secret_prefixes → SanitizeBody body = (a +:+ p +:+ b)%string →
     ∃ t, b = ("***" +:+ t)%string ∧ ends_value t = true) ∧
  SanitizeBody (SanitizeBody body) = SanitizeBody body ∧
  ((∀ p a b, p ∈ secret_prefixes → body ≠ (a +:+ p +:+ b)%string) → SanitizeBody body = body) ∧
  delimiters (SanitizeBody body) = delimiters body.
Proof.
  unfold SanitizeBody. destruct (sanitize_fold secret_prefixes body) as (Hm & Hd & Hid); [done|].
  assert (∀ p, p ∈ secret_prefixes → masked p (foldl sanitize_step body secret_prefixes)) as Hmask by auto.
  split; [|split; [|split]].
  - intros p a b Hp H. by apply (Hmask p Hp a b).
  - apply sanitize_fold; [done|]. exact Hmask.
  - intros Hnone. apply Hid. intros p Hp a b H. by destruct (Hnone p a b Hp).
  - done.
Qed.

(** ** The redactor *)

(** [regexp]: compiling a pattern ([None] when it does not compile) and replacing every
    match of a compiled one; the JSON decoder that keeps numbers as text, the encoder
    that does not escape HTML, and [json.Valid]. *)
Class RedactLib := {
  Compiles : string → bool;
  ReplaceAllString : string → string → string → string;
  DecodeNumber : string → option value;
  EncodeNoEscape : value → option string;
  Valid : string → bool
}.

Definition builtinSecretPatterns : list string :=
  ["AKIA[0-9A-Z]{16}"; "ghp_[A-Za-z0-9]{36}"; "gh[osu]_[A-Za-z0-9]{36}"; "github_pat_[A-Za-z0-9_]{22,}";
   "xox[baprs]-[A-Za-z0-9-]{10,}"; "AIza[0-9A-Za-z\-_]{35}";
   "eyJ[A-Za-z0-9_-]{8,}\.[A-Za-z0-9_-]{8,}\.[A-Za-z0-9_-]{8,}"]%string.

(** The extra patterns. *)
Definition Redactor : Type := list string.

Section redactor.
Context {lib : RedactLib}.
Implicit Types (r : Redactor).

(** [None] when a pattern does not compile. *)
Definition NewRedactor (extraPatterns : list string) : option Redactor :=
  if forallb Compiles extraPatterns then Some extraPatterns else None.

Definition redactString r (s : string) : string :=
  foldl (λ out re, ReplaceAllString re out mask) (SanitizeBody s) (builtinSecretPatterns ++ r).

Fixpoint redactJSONValue r (v : value) : value :=
  match v with
  | VString s => VString (redactString r s)
  | VArr vs => VArr (map (redactJSONValue r) vs)
  | VObj kvs => VObj (map (λ kv, (kv.1, redactJSONValue r kv.2)) kvs)
  | v => v
  end.

(** [bytes.TrimRight] of newlines. *)
Fixpoint trim_newlines (s : string) : string :=
  match s with
  | EmptyString => ""
  | String c s =>
      match trim_newlines s with
      | EmptyString => if decide (c = ascii_of_nat 10) then "" else String c ""
      | s => String c s
      end
  end.

Definition redactBody r (b : string) : string :=
  if decide (b = "") then b
  else if decide (redactString r b = b) then b
  else match DecodeNumber b ≫= λ v, EncodeNoEscape (redactJSONValue r v) with
       | Some out => trim_newlines out
       | None => redactString r b
       end.

(** A line of an event stream. *)
Definition redact_line r (line : string) : string :=
  let prefix := if has_prefix line "data: " then "data: "%string else "" in
  let payload := str_drop (String.length prefix) line in
  if decide (payload ≠ "" ∧ Valid payload = true) then (prefix +:+ redactBody r payload)%string
  else SanitizeBody line.

Definition redactStreamData r (s : string) : string :=
  if decide (s = "") then s
  else Join (map (redact_line r) (Split (ascii_of_nat 10) s)) (byte 10).

Definition redactHeaderValues r (h : gmap string string) : gmap string string := redactString r <$> h.

(** No redactor leaves the interaction alone. *)
Definition Apply (r : option Redactor) (it : Interaction) : Interaction :=
  match r with
  | None => it
  | Some r =>
      mkInteraction (it_RecordedAt it) (it_Hash it) (it_Method it) (it_Path it)
        (redactHeaderValues r (it_RequestHeaders it)) (redactBody r (it_RequestBody it))
        (it_ResponseStatus it) (redactHeaderValues r (it_ResponseHeaders it)) (redactBody r (it_ResponseBody it))
        (it_Streaming it) (map (λ ev, mkStreamEvent (se_DelayMs ev) (redactStreamData r (se_Data ev))) (it_StreamEvents it))
  end.

(** A document without its texts. *)
Fixpoint shape (v : value) : value :=
  match v with
  | VString _ => VString ""
  | VArr vs => VArr (map shape vs)
  | VObj kvs => VObj (map (λ kv, (kv.1, shape kv.2)) kvs)
  | v => v
  end.

(** Redaction changes nothing of a document but its texts. *)
Lemma redact_shape r v : shape (redactJSONValue r v) = shape v.
Proof.
  induction v as [v Ha Ho|vs IH|kvs IH] using value_nested_ind.
  - destruct v; try done; [by destruct (Ha vs)|by destruct (Ho kvs)].
  - cbn [shape redactJSONValue]. f_equal. rewrite map_map. induction IH as [|v vs Hv IH IH']; [done|].
    cbn [map]. by rewrite Hv, IH'.
  - cbn [shape redactJSONValue]. f_equal. rewrite map_map. induction IH as [|[k v] kvs Hv IH IH']; [done|].
    cbn [map fst snd]. f_equal; [|exact IH']. f_equal. exact Hv.
Qed.
End redactor.
