(* ===== verification/Replay.v ===== *)
(** Record and replay: the matcher, the replay handler, the recording proxy and the
    record modes of [internal/recording] ([matcher.go], [replay.go], [proxy.go],
    [mode.go]), put together as [cmd/mockagents/replay.go] does.

    A request is served at one point in time. What the upstream answers is an
    argument; the forwarding itself, the pacing of a replayed stream and the errors
    of writing to a client are not modelled. *)

From S2P Require Import Prelude GoBase GoStrings Cassette Redaction.

(** ** Matching *)

Record Matcher := mkMatcher { IgnoreFields : list string; ignoreSet : gset string }.

Definition NewMatcher (ignoreFields : list string) : Matcher := mkMatcher ignoreFields (list_to_set ignoreFields).

(** [None] is the nil matcher. *)
Definition active (m : option Matcher) : bool :=
  match m with None => false | Some m => bool_decide (ignoreSet m ≠ ∅) end.

Section replay.
Context {json : JsonAny} {sha : Sha256} {lib : RedactLib}.

Definition strip (m : option Matcher) (body : string) : string :=
  match m with
  | None => body
  | Some m' =>
      if decide (active m = false ∨ body = "") then body
      else match UnmarshalAny body with
           | Some (VObj obj) => canonicalJSON (VObj (filter (λ kv, kv.1 ∉ ignoreSet m') obj))
           | _ => body
           end
  end.

Definition Key (m : option Matcher) (method path body : string) : string :=
  HashRequest method path (strip m body).

(** ** Requests and responses *)

Record request := mkReq { rq_Method : string; rq_Path : string; rq_Headers : gmap string string; rq_Body : string }.

(** The chunks of a streamed body are written one by one; [rs_RecordError] is the
    header that reports a failed append. *)
Record response := mkResp {
  rs_Status : Z; rs_Headers : gmap string string; rs_Chunks : list string; rs_RecordError : bool
}.

(** ** Replay *)

Record Replay := mkReplay {
  rp_Matcher : option Matcher;
  cursor : gmap string nat;
  byMatchKey : option (gmap string (list Interaction));
  builtLen : nat
}.

Definition NewReplay (m : option Matcher) : Replay := mkReplay m ∅ None 0.

Definition advance (key : string) (seq : list Interaction) (rp : Replay) : Replay * option Interaction :=
  match seq with
  | [] => (rp, None)
  | _ =>
      let idx := default 0 (cursor rp !! key) in
      if decide (length seq ≤ idx) then (rp, seq !! (length seq - 1))
      else (mkReplay (rp_Matcher rp) (<[key := idx + 1]> (cursor rp)) (byMatchKey rp) (builtLen rp), seq !! idx)
  end.

Definition next (hash : string) (c : Cassette) (rp : Replay) : Replay * option Interaction :=
  advance hash (LookupSequence hash c) rp.

(** The loop over the new suffix. *)
Definition extend_key (m : option Matcher) (index : gmap string (list Interaction)) (it : Interaction)
  : gmap string (list Interaction) :=
  let key := Key m (it_Method it) (it_Path it) (it_RequestBody it) in
  <[key := default [] (index !! key) ++ [it]]> index.

Definition extendMatchIndex (c : Cassette) (rp : Replay) : Replay :=
  let all := All c in
  let index := foldl (extend_key (rp_Matcher rp)) (default ∅ (byMatchKey rp)) (drop (builtLen rp) all) in
  mkReplay (rp_Matcher rp) (cursor rp) (Some index) (length all).

Definition nextFromMatchIndex (key : string) (c : Cassette) (rp : Replay) : Replay * option Interaction :=
  let rp := if decide (byMatchKey rp = None ∨ builtLen rp < Len c) then extendMatchIndex c rp else rp in
  advance key (default [] (default ∅ (byMatchKey rp) !! key)) rp.

Definition replay_header (v : string) (h : gmap string string) : gmap string string :=
  <["X-Mockagents-Replay"%string := v]> h.

(** The answer of a hit, streamed or not. *)
Definition hit_response (it : Interaction) : response :=
  let status := if decide (it_ResponseStatus it = 0)%Z then 200%Z else it_ResponseStatus it in
  if it_Streaming it then
    let h := it_ResponseHeaders it in
    let h := if decide (default ""%string (h !! "Content-Type"%string) = "")
             then <["Content-Type"%string := "text/event-stream"%string]> h else h in
    mkResp status (replay_header "hit-streaming" h) (se_Data <$> it_StreamEvents it) false
  else mkResp status (replay_header "hit" (it_ResponseHeaders it)) [it_ResponseBody it] false.

(** The lookup of [ServeHTTP]. *)
Definition find_recorded (r : request) (c : Cassette) (rp : Replay) : Replay * option Interaction :=
  if active (rp_Matcher rp)
  then nextFromMatchIndex (Key (rp_Matcher rp) (rq_Method r) (rq_Path r) (rq_Body r)) c rp
  else next (HashRequest (rq_Method r) (rq_Path r) (rq_Body r)) c rp.

(** ** Recording *)

(** What the upstream does with a forwarded request: it cannot be reached or its body
    cannot be read; it answers; it streams, possibly breaking off. *)
Inductive upstream :=
| Unreachable (msg : string)
| Answered (status : Z) (headers : gmap string string) (body : string)
| Streamed (status : Z) (headers : gmap string string) (events : list StreamEvent) (errored : bool).

Definition DefaultCaptureHeaders : list string :=
  ["Content-Type"; "Accept"; "User-Agent"; "Anthropic-Version"; "OpenAI-Organization"; "X-Request-Id"]%string.

Definition CaptureHeaders (h : gmap string string) (whitelist : list string) : gmap string string :=
  foldl (λ out k, match h !! k with
                  | Some v => if decide (v = "") then out else <[k := v]> out
                  | None => out
                  end) ∅ whitelist.

(** What is appended for an exchange; the hash is that of the original body. *)
Definition captured (redactor : option Redactor) (r : request) (status : Z) (headers : gmap string string)
    (body : string) (streaming : bool) (events : list StreamEvent) : Interaction :=
  Apply redactor
    (mkInteraction 0 (HashRequest (rq_Method r) (rq_Path r) (rq_Body r)) (rq_Method r) (rq_Path r)
       (CaptureHeaders (rq_Headers r) DefaultCaptureHeaders) (rq_Body r) status
       (CaptureHeaders headers DefaultCaptureHeaders) body streaming events).

(** [skipOnError] is [SkipRecordOnError]. *)
Definition skipRecording (skipOnError : bool) (status : Z) : bool := skipOnError && bool_decide (400 ≤ status)%Z.

Definition hopByHop : list string :=
  ["Connection"; "Proxy-Connection"; "Keep-Alive"; "Transfer-Encoding"; "Te"; "Trailer"; "Upgrade";
   "Proxy-Authorization"]%string.

Definition copyHeaders (src : gmap string string) : gmap string string := filter (λ kv, kv.1 ∉ hopByHop) src.

(** The proxy: what the client gets, and the interaction to append. *)
Definition proxy_exchange (skipOnError : bool) (redactor : option Redactor) (r : request) (u : upstream)
  : response * option Interaction :=
  match u with
  | Unreachable msg => (mkResp 502 ∅ [msg] false, None)
  | Answered status headers body =>
      (mkResp status (copyHeaders headers) [body] false,
       if skipRecording skipOnError status then None
       else Some (captured redactor r status headers body false []))
  | Streamed status headers events errored =>
      (mkResp status (copyHeaders headers) (se_Data <$> events) false,
       if skipRecording skipOnError status || (skipOnError && errored) then None
       else Some (captured redactor r status headers "" true events))
  end.

(** The cassette, its file and the replay handler. *)
Record tape := mkTape { t_cassette : Cassette; t_file : option (list string); t_replay : Replay }.

Definition Proxy_ServeHTTP (skipOnError : bool) (redactor : option Redactor) (now : Z) (r : request) (u : upstream)
    (t : tape) : tape * response :=
  let '(resp, it) := proxy_exchange skipOnError redactor r u in
  match it with
  | None => (t, resp)
  | Some it =>
      let '(c, file, ok) := Append now it (t_cassette t) (t_file t) in
      (mkTape c file (t_replay t),
       mkResp (rs_Status resp) (rs_Headers resp) (rs_Chunks resp) (negb (ok || it_Streaming it)))
  end.

(** ** Modes *)

Inductive RecordMode := RecordModeNone | RecordModeNewEpisodes | RecordModeOnce | RecordModeAll.

Definition ParseRecordMode (s : string) : option RecordMode :=
  if decide (s = "" ∨ s = "none"%string) then Some RecordModeNone
  else if decide (s = "new_episodes"%string) then Some RecordModeNewEpisodes
  else if decide (s = "once"%string) then Some RecordModeOnce
  else if decide (s = "all"%string) then Some RecordModeAll
  else None.

Definition RequiresUpstream (m : RecordMode) : bool :=
  match m with RecordModeNone => false | _ => true end.

Definition Records (m : RecordMode) : bool :=
  match m with RecordModeNewEpisodes | RecordModeAll => true | _ => false end.

Definition Resolve (m : RecordMode) (recordedCount : nat) : RecordMode :=
  match m with
  | RecordModeOnce => if decide (0 < recordedCount) then RecordModeNone else RecordModeNewEpisodes
  | m => m
  end.

(** How a request was answered. *)
Inductive answer :=
| Hit (it : Interaction)
| Forwarded (resp : response)
| Missed (hash : string).

(** The handler of an effective mode: [All] always forwards, the others replay and,
    when they record, forward what is not recorded. *)
Definition serve (mode : RecordMode) (redactor : option Redactor) (now : Z) (r : request) (u : upstream) (t : tape)
  : tape * answer :=
  match mode with
  | RecordModeAll =>
      let '(t, resp) := Proxy_ServeHTTP false redactor now r u t in (t, Forwarded resp)
  | _ =>
      let '(rp, it) := find_recorded r (t_cassette t) (t_replay t) in
      let t := mkTape (t_cassette t) (t_file t) rp in
      match it with
      | Some it => (t, Hit it)
      | None =>
          if Records mode then let '(t, resp) := Proxy_ServeHTTP true redactor now r u t in (t, Forwarded resp)
          else (t, Missed (HashRequest (rq_Method r) (rq_Path r) (rq_Body r)))
      end
  end.

(** A session of the server: each request with its time and the upstream's behaviour. *)
Fixpoint serve_all (mode : RecordMode) (redactor : option Redactor) (rs : list (Z * request * upstream)) (t : tape)
  : tape * list answer :=
  match rs with
  | [] => (t, [])
  | (now, r, u) :: rs =>
      let '(t, a) := serve mode redactor now r u t in
      let '(t, answers) := serve_all mode redactor rs t in (t, a :: answers)
  end.

(** ** What replay promises

    Each key has the sequence of its recordings and a position in it. *)

Definition rec_key (m : option Matcher) (it : Interaction) : string :=
  if active m then Key m (it_Method it) (it_Path it) (it_RequestBody it) else it_Hash it.

Definition req_key (m : option Matcher) (r : request) : string :=
  if active m then Key m (rq_Method r) (rq_Path r) (rq_Body r)
  else HashRequest (rq_Method r) (rq_Path r) (rq_Body r).

(** The recordings of a key, in the order they were made. *)
Definition sequence (m : option Matcher) (k : string) (its : list Interaction) : list Interaction :=
  filter (λ it, rec_key m it = k) its.

(** What the session so far recorded, and how far each key has advanced. *)
Fixpoint spec_answers (mode : RecordMode) (redactor : option Redactor) (m : option Matcher)
    (rs : list (Z * request * upstream)) (its : list Interaction) (pos : gmap string nat) : list answer :=
  match rs with
  | [] => []
  | (now, r, u) :: rs =>
      let k := req_key m r in
      let seq := sequence m k its in
      let p := default 0 (pos !! k) in
      match seq !! Nat.min p (length seq - 1) with
      | Some it => Hit it :: spec_answers mode redactor m rs its (<[k := Nat.min (p + 1) (length seq)]> pos)
      | None =>
          if Records mode then
            let '(resp, new) := proxy_exchange true redactor r u in
            let its' := its ++ (stamped now <$> option_list new) in
            Forwarded resp :: spec_answers mode redactor m rs its' pos
          else Missed (HashRequest (rq_Method r) (rq_Path r) (rq_Body r))
               :: spec_answers mode redactor m rs its pos
      end
  end.

(** The index over the first [builtLen] recordings. *)
Definition index_ok (c : Cassette) (rp : Replay) : Prop :=
  builtLen rp ≤ Len c ∧ (byMatchKey rp = None → builtLen rp = 0) ∧
  ∀ k, default [] (default ∅ (byMatchKey rp) !! k) =
    filter (λ it, Key (rp_Matcher rp) (it_Method it) (it_Path it) (it_RequestBody it) = k) (take (builtLen rp) (All c)).

Lemma extend_keys m new index its :
  (∀ k, default [] (index !! k) =
     filter (λ it, Key m (it_Method it) (it_Path it) (it_RequestBody it) = k) its) →
  ∀ k, default [] (foldl (extend_key m) index new !! k) =
     filter (λ it, Key m (it_Method it) (it_Path it) (it_RequestBody it) = k) (its ++ new).
Proof.
  revert index its. induction new as [|it new IH]; intros index its H k; cbn [foldl]; [by rewrite app_nil_r|].
  rewrite (IH _ (its ++ [it])); [by rewrite <-app_assoc|]. intros j. unfold extend_key.
  rewrite filter_app, filter_cons, filter_nil, <-H.
  case_decide as Hj; [subst j; by rewrite lookup_insert_eq, H|by rewrite lookup_insert_ne, app_nil_r].
Qed.

Lemma extendMatchIndex_ok c rp : index_ok c rp →
  index_ok c (extendMatchIndex c rp) ∧ builtLen (extendMatchIndex c rp) = Len c.
Proof.
  intros (Hle & Hnone & H). split; [|done]. split; [done|]. split; [done|]. intros k. simpl.
  rewrite (extend_keys _ _ _ _ H), take_drop. unfold Len, All. by rewrite take_ge.
Qed.

(** The cursor of a key is at most the length of its sequence. *)
Definition cursor_ok (its : list Interaction) (rp : Replay) : Prop :=
  ∀ k p, cursor rp !! k = Some p → p ≤ length (sequence (rp_Matcher rp) k its).

Lemma advance_spec k seq rp :
  (∀ p, cursor rp !! k = Some p → p ≤ length seq) →
  let p := default 0 (cursor rp !! k) in
  let '(rp', it) := advance k seq rp in
  it = seq !! Nat.min p (length seq - 1) ∧ rp_Matcher rp' = rp_Matcher rp ∧ byMatchKey rp' = byMatchKey rp ∧
  builtLen rp' = builtLen rp ∧
  cursor rp' = if decide (seq = []) then cursor rp else <[k := Nat.min (p + 1) (length seq)]> (cursor rp).
Proof.
  intros Hp. cbv zeta. unfold advance. destruct seq as [|x seq].
  { by split_and!. }
  destruct (decide (x :: seq = [])) as [|_]; [done|]. set (l := x :: seq) in *.
  assert (0 < length l) as Hl by (simpl; lia).
  destruct (cursor rp !! k) as [p|] eqn:Hk; cbn [default from_option id].
  - specialize (Hp p eq_refl). case_decide; cbn [rp_Matcher byMatchKey builtLen cursor].
    + assert (p = length l) as -> by lia. split_and!; [f_equal; lia|done..|].
      rewrite insert_id; [done|]. rewrite Hk. f_equal. lia.
    + split_and!; [f_equal; lia|done..|]. f_equal. lia.
  - destruct (decide (length l ≤ 0)); [lia|]. cbn [rp_Matcher byMatchKey builtLen cursor].
    split_and!; [done..|]. f_equal.
Qed.

Lemma sequence_app m k its its' : sequence m k (its ++ its') = sequence m k its ++ sequence m k its'.
Proof. apply filter_app. Qed.

Lemma find_recorded_spec r c rp : cassette_ok c → index_ok c rp → cursor_ok (All c) rp →
  let k := req_key (rp_Matcher rp) r in
  let seq := sequence (rp_Matcher rp) k (All c) in
  let p := default 0 (cursor rp !! k) in
  let '(rp', it) := find_recorded r c rp in
  it = seq !! Nat.min p (length seq - 1) ∧ rp_Matcher rp' = rp_Matcher rp ∧ index_ok c rp' ∧ cursor_ok (All c) rp' ∧
  cursor rp' = if decide (seq = []) then cursor rp else <[k := Nat.min (p + 1) (length seq)]> (cursor rp).
Proof.
  intros Hc Hi Hcur. cbv zeta. set (k := req_key (rp_Matcher rp) r).
  set (seq := sequence (rp_Matcher rp) k (All c)).
  assert (∃ rp1, find_recorded r c rp = advance k seq rp1 ∧ rp_Matcher rp1 = rp_Matcher rp ∧ cursor rp1 = cursor rp ∧
    index_ok c rp1) as (rp1 & -> & Hm1 & Hc1 & Hi1).
  { unfold find_recorded. destruct (active (rp_Matcher rp)) eqn:Ha.
    - unfold nextFromMatchIndex. set (rp1 := if decide _ then _ else _).
      assert (rp_Matcher rp1 = rp_Matcher rp ∧ cursor rp1 = cursor rp ∧ index_ok c rp1 ∧ builtLen rp1 = Len c)
        as (Hm1 & Hc1 & Hi1 & Hb).
      { subst rp1. case_decide as Hd; [by destruct (extendMatchIndex_ok c rp Hi)|].
        split_and!; [done..|]. destruct Hi as [Hle _]. lia. }
      exists rp1. split_and!; [|done..]. unfold k, req_key. rewrite Ha. f_equal.
      destruct Hi1 as (_ & _ & ->). rewrite Hb, Hm1. unfold seq, sequence, rec_key, k, req_key. rewrite Ha.
      unfold Len, All. by rewrite take_ge.
    - exists rp. split_and!; [|done..]. unfold next, k, req_key. rewrite Ha. f_equal.
      rewrite Hc. unfold seq, sequence, rec_key, k, req_key. by rewrite Ha. }
  pose proof (advance_spec k seq rp1) as Hadv. rewrite Hc1 in Hadv.
  specialize (Hadv (λ p, Hcur k p)). cbv zeta in Hadv. destruct (advance k seq rp1) as [rp' it].
  destruct Hadv as (Hit & Hm & Hidx & Hb & Hcu). rewrite Hm, Hm1. split_and!; [done|done| | |done].
  - unfold index_ok. rewrite Hm, Hidx, Hb. exact Hi1.
  - intros j p. rewrite Hcu, Hm, Hm1. case_decide as Hs; [apply Hcur|].
    intros [[<- <-]|[_ Hj]]%lookup_insert_Some; [fold seq; lia|by apply Hcur].
Qed.
(** ** A session refines the promise *)

Definition tape_ok (t : tape) : Prop :=
  cassette_ok (t_cassette t) ∧ index_ok (t_cassette t) (t_replay t) ∧ cursor_ok (All (t_cassette t)) (t_replay t).

Lemma NewReplay_ok m c : index_ok c (NewReplay m) ∧ cursor_ok (All c) (NewReplay m).
Proof.
  split; [|intros k p H; cbn in H; by apply lookup_empty_Some in H]. split; [simpl; lia|]. split; [done|]. intros k. simpl.
  by rewrite lookup_empty.
Qed.

(** A recording can be appended between two lookups. *)
Lemma appended_ok c rp it : cassette_ok c → index_ok c rp → cursor_ok (All c) rp →
  cassette_ok (index_add c it) ∧ index_ok (index_add c it) rp ∧ cursor_ok (All (index_add c it)) rp.
Proof.
  intros Hc (Hle & Hnone & Hidx) Hcur. split; [by apply index_add_ok|]. unfold All in *. simpl. split.
  - split; [unfold Len in *; simpl; rewrite length_app; lia|]. split; [done|]. intros k. unfold All. simpl.
    rewrite take_app_le by (unfold Len in Hle; lia). apply Hidx.
  - intros k p H. rewrite sequence_app, length_app. specialize (Hcur k p H). lia.
Qed.

Lemma Append_adds now it c file : (Append now it c file).1.1 = index_add c (stamped now it).
Proof. unfold Append, append_locked. by destruct (flush _ _ _). Qed.

Lemma Proxy_ServeHTTP_spec skip redactor now r u t : tape_ok t →
  let '(t', resp) := Proxy_ServeHTTP skip redactor now r u t in
  let '(resp', it) := proxy_exchange skip redactor r u in
  tape_ok t' ∧ t_replay t' = t_replay t ∧
  All (t_cassette t') = All (t_cassette t) ++ (stamped now <$> option_list it) ∧
  (rs_Status resp, rs_Headers resp, rs_Chunks resp) = (rs_Status resp', rs_Headers resp', rs_Chunks resp').
Proof.
  intros (Hc & Hi & Hcur). unfold Proxy_ServeHTTP. destruct (proxy_exchange skip redactor r u) as [resp [it|]].
  - pose proof (Append_adds now it (t_cassette t) (t_file t)) as Ha.
    destruct (Append now it (t_cassette t) (t_file t)) as [[c file] ok]. simpl in Ha. subst c.
    split_and!; try done; by apply appended_ok.
  - split_and!; try done. by rewrite app_nil_r.
Qed.

(** What the client sees of an answer, but for the header of a failed append. *)
Definition same_answer (a b : answer) : Prop :=
  match a, b with
  | Forwarded x, Forwarded y => (rs_Status x, rs_Headers x, rs_Chunks x) = (rs_Status y, rs_Headers y, rs_Chunks y)
  | a, b => a = b
  end.

Lemma serve_lookup mode redactor now r u t : mode ≠ RecordModeAll → tape_ok t →
  let m := rp_Matcher (t_replay t) in
  let k := req_key m r in
  let seq := sequence m k (All (t_cassette t)) in
  let p := default 0 (cursor (t_replay t) !! k) in
  let '(t', a) := serve mode redactor now r u t in
  tape_ok t' ∧ rp_Matcher (t_replay t') = m ∧
  match seq !! Nat.min p (length seq - 1) with
  | Some it =>
      a = Hit it ∧ All (t_cassette t') = All (t_cassette t) ∧
      cursor (t_replay t') = <[k := Nat.min (p + 1) (length seq)]> (cursor (t_replay t))
  | None =>
      cursor (t_replay t') = cursor (t_replay t) ∧
      if Records mode then
        let '(resp, new) := proxy_exchange true redactor r u in
        same_answer a (Forwarded resp) ∧
        All (t_cassette t') = All (t_cassette t) ++ (stamped now <$> option_list new)
      else a = Missed (HashRequest (rq_Method r) (rq_Path r) (rq_Body r)) ∧ t_cassette t' = t_cassette t
  end.
Proof.
  intros Hmode (Hc & Hi & Hcur). cbv zeta. pose proof (find_recorded_spec r _ _ Hc Hi Hcur) as H. cbv zeta in H.
  unfold serve. set (m := rp_Matcher (t_replay t)) in *. set (k := req_key m r) in *.
  set (seq := sequence m k (All (t_cassette t))) in *.
  destruct (find_recorded r (t_cassette t) (t_replay t)) as [rp it]. destruct H as (Hit & Hm & Hi' & Hcur' & Hcu).
  set (t1 := mkTape (t_cassette t) (t_file t) rp). assert (tape_ok t1) as Ht1 by done.
  destruct mode; [..|done]; rewrite <-Hit; destruct it as [it|];
    try (destruct (decide (seq = [])) as [He|_]; [by rewrite He in Hit|]; by split_and!);
    (destruct (decide (seq = [])) as [_|Hne]; [|
      symmetry in Hit; apply lookup_ge_None in Hit; destruct seq; [done|simpl in Hit; lia]]); cbn [Records];
    try (by split_and!).
  pose proof (Proxy_ServeHTTP_spec true redactor now r u t1 Ht1) as H.
  destruct (Proxy_ServeHTTP true redactor now r u t1) as [t' resp].
  destruct (proxy_exchange true redactor r u) as [resp' new]. destruct H as (Hok & Hrp & Hall & Hresp).
  rewrite Hrp. by split_and!.
Qed.

Lemma serve_all_spec mode redactor m rs t : mode ≠ RecordModeAll → tape_ok t → rp_Matcher (t_replay t) = m →
  let '(t', answers) := serve_all mode redactor rs t in
  Forall2 same_answer answers (spec_answers mode redactor m rs (All (t_cassette t)) (cursor (t_replay t))) ∧
  tape_ok t' ∧ (Records mode = false → All (t_cassette t') = All (t_cassette t)).
Proof.
  intros Hmode. revert t. induction rs as [|[[now r] u] rs IH]; intros t Ht Hm; [by split_and!|].
  cbn [serve_all spec_answers]. pose proof (serve_lookup mode redactor now r u t Hmode Ht) as H. cbv zeta in H.
  rewrite Hm in H. destruct (serve mode redactor now r u t) as [t1 a]. destruct H as (Ht1 & Hm1 & H).
  specialize (IH t1 Ht1 Hm1). destruct (serve_all mode redactor rs t1) as [t' answers].
  destruct IH as (Hans & Ht' & Hall). destruct (_ !! _) as [it|] eqn:Hlook.
  - destruct H as (-> & Hits & Hcu). rewrite Hits, Hcu in *. split; [by constructor|done].
  - destruct H as (Hcu & H). rewrite Hcu in *. destruct (Records mode) eqn:Hrec.
    + destruct (proxy_exchange true redactor r u) as [resp new]. destruct H as (Ha & Hits). rewrite Hits in *.
      split; [by constructor|done].
    + destruct H as (-> & Hits). rewrite Hits in *. split; [by constructor|done].
Qed.

(** How often a key was asked for. *)
Definition asked (m : option Matcher) (k : string) (rs : list (Z * request * upstream)) : nat :=
  length (filter (λ p, req_key m p.1.2 = k) rs).

Lemma spec_answers_replay mode redactor m rs its pos i now r u : Records mode = false → rs !! i = Some (now, r, u) →
  (∀ k p, pos !! k = Some p → p ≤ length (sequence m k its)) →
  let k := req_key m r in
  let seq := sequence m k its in
  spec_answers mode redactor m rs its pos !! i =
    Some (match seq !! Nat.min (default 0 (pos !! k) + asked m k (take i rs)) (length seq - 1) with
          | Some it => Hit it
          | None => Missed (HashRequest (rq_Method r) (rq_Path r) (rq_Body r))
          end).
Proof.
  intros Hrec. revert i pos. induction rs as [|[[now' r'] u'] rs IH]; intros [|i] pos Hi Hpos; try done; cbv zeta.
  - injection Hi as -> -> ->. cbn [spec_answers take]. unfold asked. rewrite filter_nil. simpl. rewrite Nat.add_0_r.
    destruct (sequence _ _ _ !! _); [done|by rewrite Hrec].
  - cbn [spec_answers take]. unfold asked. rewrite filter_cons. fold (asked m (req_key m r) (take i rs)). simpl in Hi.
    destruct (sequence _ _ _ !! _) as [it|] eqn:Hit.
    + cbn [lookup list_lookup]. erewrite (IH i); [|done|].
      * cbn [fst snd]. case_decide as Hk; [|by rewrite lookup_insert_ne].
        rewrite Hk, lookup_insert_eq in *. apply lookup_lt_Some in Hit. cbn [length default from_option id].
        fold (asked m (req_key m r) (take i rs)).
        set (len := length (sequence m (req_key m r) its)) in *. set (d := default 0 (pos !! req_key m r)) in *.
        set (a := asked m (req_key m r) (take i rs)).
        by replace (Nat.min (Nat.min (d + 1) len + a) (len - 1)) with (Nat.min (d + S a) (len - 1)) by lia.
      * intros k p [[<- <-]|[_ Hp]]%lookup_insert_Some; [lia|by apply Hpos].
    + rewrite Hrec. etrans; [exact (IH i pos Hi Hpos)|]. cbv zeta. f_equal. cbn [fst snd].
      case_decide as Hk; [|done]. rewrite Hk in Hit.
      apply lookup_ge_None in Hit. destruct (sequence m (req_key m r) its) as [|x l]; [done|]. simpl in Hit. lia.
Qed.

Lemma captured_key redactor r status headers body streaming events now m :
  HashRequest (rq_Method r) (rq_Path r) (rq_Body r) ≠ "" →
  rec_key m (stamped now (captured redactor r status headers body streaming events)) =
    if active m then Key m (rq_Method r) (rq_Path r) (from_option (λ rd, redactBody rd (rq_Body r)) (rq_Body r) redactor)
    else HashRequest (rq_Method r) (rq_Path r) (rq_Body r).
Proof.
  intros Hne. unfold rec_key, stamped, captured. destruct redactor; simpl; by rewrite decide_False.
Qed.

(** A forwarded answer below 400 is the recording of its request's key. *)
Lemma forwarded_once redactor now r status headers body t : tape_ok t → (status < 400)%Z →
  let m := rp_Matcher (t_replay t) in
  let it := stamped now (captured redactor r status headers body false []) in
  sequence m (req_key m r) (All (t_cassette t)) = [] →
  let '(t', a) := serve RecordModeNewEpisodes redactor now r (Answered status headers body) t in
  tape_ok t' ∧ rp_Matcher (t_replay t') = m ∧ All (t_cassette t') = All (t_cassette t) ++ [it].
Proof.
  intros Ht Hst m it Hseq. pose proof (serve_lookup RecordModeNewEpisodes redactor now r (Answered status headers body) t
    ltac:(done) Ht) as H. cbv zeta in H. fold m in H. rewrite Hseq in H. destruct (serve _ _ _ _ _ _) as [t' a].
  destruct H as (Ht' & Hm & _ & H). simpl in H.
  rewrite bool_decide_false in H by lia. by destruct H as [_ H].
Qed.

(** Record once, replay ever after. In [new_episodes] without ignored fields, a request
    that has no recording is forwarded; when its answer is below 400, the same request is
    then answered without the upstream, with the status and the redacted body of that
    answer, whatever the upstream would say. *)
Theorem recorded_once redactor now r status headers body t :
  tape_ok t → active (rp_Matcher (t_replay t)) = false → (0 < status < 400)%Z →
  HashRequest (rq_Method r) (rq_Path r) (rq_Body r) ≠ "" →
  sequence (rp_Matcher (t_replay t)) (HashRequest (rq_Method r) (rq_Path r) (rq_Body r)) (All (t_cassette t)) = [] →
  let '(t', _) := serve RecordModeNewEpisodes redactor now r (Answered status headers body) t in
  ∀ now' u', ∃ t'' it, serve RecordModeNewEpisodes redactor now' r u' t' = (t'', Hit it) ∧
    rs_Status (hit_response it) = status ∧
    rs_Chunks (hit_response it) = [from_option (λ rd, redactBody rd body) body redactor].
Proof.
  intros Ht Ha Hst Hne Hseq. set (m := rp_Matcher (t_replay t)) in *.
  assert (req_key m r = HashRequest (rq_Method r) (rq_Path r) (rq_Body r)) as Hk by (unfold req_key; by rewrite Ha).
  pose proof (forwarded_once redactor now r status headers body t Ht ltac:(lia)) as H. cbv zeta in H. fold m in H.
  rewrite Hk in H.
  specialize (H Hseq). destruct (serve _ _ _ _ _ _) as [t' a]. destruct H as (Ht' & Hm & Hall). intros now' u'.
  pose proof (serve_lookup RecordModeNewEpisodes redactor now' r u' t' ltac:(done) Ht') as H. cbv zeta in H.
  set (it := stamped now (captured redactor r status headers body false [])) in *.
  rewrite Hm, Hk, Hall, sequence_app, Hseq in H. unfold sequence in H. rewrite filter_cons, filter_nil in H.
  rewrite decide_True in H by (unfold it; rewrite captured_key by done; by rewrite Ha).
  cbn [length app Nat.sub] in H. rewrite Nat.min_0_r in H. destruct (serve _ _ _ _ _ t') as [t'' a']. destruct H as (_ & _ & -> & _).
  exists t'', it. split; [done|]. unfold hit_response, it, captured. destruct redactor; simpl;
    (rewrite decide_False by lia; done).
Qed.

(** With ignored fields the match key is that of the stored body. When redaction
    changes it, the same request is forwarded again, and recorded again. *)
Lemma redacted_recording_missed rd now r status headers body t :
  tape_ok t → active (rp_Matcher (t_replay t)) = true → (status < 400)%Z →
  HashRequest (rq_Method r) (rq_Path r) (rq_Body r) ≠ "" →
  let m := rp_Matcher (t_replay t) in
  sequence m (req_key m r) (All (t_cassette t)) = [] →
  Key m (rq_Method r) (rq_Path r) (redactBody rd (rq_Body r)) ≠ Key m (rq_Method r) (rq_Path r) (rq_Body r) →
  let '(t', _) := serve RecordModeNewEpisodes (Some rd) now r (Answered status headers body) t in
  let '(t'', a) := serve RecordModeNewEpisodes (Some rd) now r (Answered status headers body) t' in
  (∀ it, a ≠ Hit it) ∧ length (All (t_cassette t'')) = length (All (t_cassette t)) + 2.
Proof.
  intros Ht Ha Hst Hne m Hseq Hkey. fold m in Ha.
  assert (req_key m r = Key m (rq_Method r) (rq_Path r) (rq_Body r)) as Hk by (unfold req_key; by rewrite Ha).
  pose proof (forwarded_once (Some rd) now r status headers body t Ht Hst Hseq) as H. fold m in H.
  destruct (serve _ _ _ _ _ _) as [t' a]. destruct H as (Ht' & Hm & Hall).
  set (it := stamped now (captured (Some rd) r status headers body false [])) in *.
  assert (sequence m (req_key m r) (All (t_cassette t')) = []) as Hseq'.
  { rewrite Hall, sequence_app, Hseq. unfold sequence. rewrite filter_cons, filter_nil.
    rewrite decide_False; [done|]. unfold it. rewrite captured_key, Ha, Hk by done. exact Hkey. }
  rewrite <-Hm in Hseq'. pose proof (forwarded_once (Some rd) now r status headers body t' Ht' Hst Hseq') as H2.
  pose proof (serve_lookup RecordModeNewEpisodes (Some rd) now r (Answered status headers body) t' ltac:(done) Ht') as H.
  cbv zeta in H. rewrite Hseq' in H. destruct (serve _ _ _ _ _ t') as [t'' a']. destruct H2 as (_ & _ & ->). split.
  - intros i ->. destruct H as (_ & _ & _ & H). cbn [Records] in H. by destruct (proxy_exchange _ _ _ _), H.
  - rewrite Hall, !length_app. simpl. lia.
Qed.
End replay.

(** ** A session *)

Definition said (body : string) : request := mkReq "POST" "/v1/chat/completions" ∅ body.

#[local] Instance plain_json : JsonAny := {|
  UnmarshalAny _ := None; MarshalScalar _ := "null"%string;
  EncodeInteraction it := Some (it_Hash it); DecodeInteraction _ := None
|}.

#[local] Instance plain_sha : Sha256 := λ s, s.

#[local] Instance plain_lib : RedactLib := {|
  Compiles _ := true; ReplaceAllString _ s _ := s; DecodeNumber _ := None; EncodeNoEscape _ := None; Valid _ := false
|}.

(** What is recorded when "hi" is answered twice and "bye" once. *)
Definition recorded (body answer : string) : Interaction :=
  stamped 1 (captured None (said body) 200 ∅ answer false []).

Definition session_tape : Cassette :=
  foldl index_add (New "") [recorded "hi" "one"; recorded "bye" "three"; recorded "hi" "two"].

Definition replayed (a : answer) : string :=
  match a with Hit it => it_ResponseBody it | Forwarded _ => "forwarded" | Missed _ => "missed" end.


Lemma recorded_once_witness :
  let t0 := mkTape (New "") None (NewReplay None) in
  let '(t, _) := serve RecordModeNewEpisodes None 1 (said "hi") (Answered 200 ∅ "hello") t0 in
  ∃ t' it, serve RecordModeNewEpisodes None 2 (said "hi") (Unreachable "down") t = (t', Hit it) ∧
    rs_Status (hit_response it) = 200%Z ∧ rs_Chunks (hit_response it) = ["hello"%string].
Proof.
  intros t0. pose proof (recorded_once None 1 (said "hi") 200 ∅ "hello" t0) as H.
  destruct (serve _ _ _ _ _ t0) as [t a]. apply H; try done.
Defined.
