(* ===== verification/Pricing.v ===== *)
(** Prices and token counts, [internal/pricing]: the price table of [pricing.go] and
    the usage of a stored response body of [extract.go]. *)

From Stdlib Require Import Ascii.
From S2P Require Import Prelude GoBase.

(** ** Prices *)

Record Price := mkPrice { pr_Model : string; PromptPer1KUSD : float64; CompletionPer1KUSD : float64 }.

Definition thousand : float64 := f64_of_Z 1000.

(** [Price.Estimate]; the counts are [int]s. *)
Definition price_Estimate (p : Price) (promptTokens completionTokens : Z) : float64 :=
  let promptTokens := if decide (promptTokens < 0)%Z then 0%Z else promptTokens in
  let completionTokens := if decide (completionTokens < 0)%Z then 0%Z else completionTokens in
  f64_add (f64_mul (f64_div (f64_of_Z promptTokens) thousand) (PromptPer1KUSD p))
          (f64_mul (f64_div (f64_of_Z completionTokens) thousand) (CompletionPer1KUSD p)).

(** The mutex makes every operation of a table atomic. *)
Record Table := mkTable { prices : gmap string Price; Fallback : Price }.

(** The double nearest to [n / d]: both are exact, and the division rounds once. *)
Definition decimal (n d : Z) : float64 := f64_div (f64_of_Z n) (f64_of_Z d).

Definition defaultPrices : list Price :=
  [mkPrice "gpt-4o" (decimal 25 10000) (decimal 10 1000);
   mkPrice "gpt-4o-mini" (decimal 15 100000) (decimal 60 100000);
   mkPrice "gpt-4-turbo" (decimal 10 1000) (decimal 30 1000);
   mkPrice "gpt-3.5-turbo" (decimal 5 10000) (decimal 15 10000);
   mkPrice "text-embedding-3-small" (decimal 2 100000) f64_zero;
   mkPrice "text-embedding-3-large" (decimal 13 100000) f64_zero;
   mkPrice "text-embedding-ada-002" (decimal 10 100000) f64_zero;
   mkPrice "claude-3-5-sonnet-latest" (decimal 3 1000) (decimal 15 1000);
   mkPrice "claude-3-5-sonnet-20241022" (decimal 3 1000) (decimal 15 1000);
   mkPrice "claude-3-5-haiku-latest" (decimal 8 10000) (decimal 4 1000);
   mkPrice "claude-3-opus-20240229" (decimal 15 1000) (decimal 75 1000);
   mkPrice "claude-3-sonnet-20240229" (decimal 3 1000) (decimal 15 1000);
   mkPrice "claude-3-haiku-20240307" (decimal 25 100000) (decimal 125 100000);
   mkPrice "gemini-2.5-pro" (decimal 125 100000) (decimal 10 1000);
   mkPrice "gemini-2.5-flash" (decimal 3 10000) (decimal 25 10000);
   mkPrice "gemini-2.0-flash" (decimal 1 10000) (decimal 4 10000);
   mkPrice "gemini-1.5-pro" (decimal 125 100000) (decimal 5 1000);
   mkPrice "gemini-1.5-flash" (decimal 75 1000000) (decimal 3 10000)]%string.

(** [fileDoc]. *)
Record fileDoc := mkFileDoc { Prices : list Price; fd_Fallback : option Price }.

Section table.
Context {low : GoLower}.

Definition table_set (m : gmap string Price) (p : Price) : gmap string Price := <[ToLower (pr_Model p) := p]> m.

Definition NewDefaultTable : Table :=
  mkTable (foldl table_set ∅ defaultPrices) (mkPrice "(unknown)" f64_zero f64_zero).

Definition Lookup (model : string) (t : Table) : Price * bool :=
  match prices t !! ToLower model with
  | Some p => (p, true)
  | None => (Fallback t, false)
  end.

Definition Set_ (p : Price) (t : Table) : Table := mkTable (table_set (prices t) p) (Fallback t).

Definition Estimate (model : string) (promptTokens completionTokens : Z) (t : Table) : float64 :=
  price_Estimate (Lookup model t).1 promptTokens completionTokens.

(** The entries without a model are skipped. *)
Definition merge_price (m : gmap string Price) (p : Price) : gmap string Price :=
  if decide (pr_Model p = "") then m else table_set m p.

(** [doc] is what the file decodes to, [None] when it cannot be read or parsed; the
    flag is false on an error. *)
Definition LoadYAML (doc : option fileDoc) (t : Table) : Table * bool :=
  match doc with
  | None => (t, false)
  | Some doc => (mkTable (foldl merge_price (prices t) (Prices doc)) (default (Fallback t) (fd_Fallback doc)), true)
  end.

(** [files] reads and parses the file at a path; [path] is the environment variable. *)
Definition FromEnv (path : string) (files : string → option fileDoc) : Table * bool :=
  let t := NewDefaultTable in
  if decide (path = "") then (t, true) else LoadYAML (files path) t.

(** The last entry of a model, in whatever case, wins; the others keep their price. *)
Definition named (model : string) (p : Price) : Prop := pr_Model p ≠ "" ∧ ToLower (pr_Model p) = ToLower model.

#[export] Instance named_dec model p : Decision (named model p).
Proof. unfold named. apply _. Defined.

Lemma merge_lookup model ps m :
  foldl merge_price m ps !! ToLower model =
    match last (filter (named model) ps) with Some p => Some p | None => m !! ToLower model end.
Proof.
  revert m. induction ps as [|p ps IH]; intros m; cbn [foldl]; [done|]. rewrite IH, filter_cons.
  unfold merge_price, table_set. destruct (decide (named model p)) as [[Hne Heq]|Hn].
  - rewrite last_cons. destruct (last (filter (named model) ps)); [done|].
    by rewrite decide_False, Heq, lookup_insert_eq by done.
  - destruct (last (filter (named model) ps)); [done|]. case_decide as Hd; [done|].
    rewrite lookup_insert_ne; [done|]. intros Heq. by apply Hn.
Qed.
End table.

(** ** Usage *)

Record Usage := mkUsage { PromptTokens : Z; CompletionTokens : Z; u_Model : string }.

Definition no_usage : Usage := mkUsage 0 0 "".

(** The sum wraps. *)
Definition Total (u : Usage) : Z := wrap64 (PromptTokens u + CompletionTokens u).

(** What a response object decodes to. *)
Record usage_probe := mkProbe {
  pb_Model : string;
  pb_PromptTokens : Z; pb_CompletionTokens : Z;
  pb_InputTokens : Z; pb_OutputTokens : Z;
  pb_ModelVersion : string;
  pb_PromptTokenCount : Z; pb_CandidatesTokenCount : Z
}.

(** [json.Unmarshal] into a list of raw messages, each of which is shorter than the
    array it stands in, and into the probe. *)
Class JsonUsage := {
  RawMessages : string → option (list string);
  DecodeProbe : string → option usage_probe;
  raw_shorter text l : RawMessages text = Some l → Forall (λ e, String.length e < String.length text) l
}.

(** [bytes.TrimLeft] of the JSON blanks. *)
Fixpoint trim_blanks (s : string) : string :=
  match s with
  | EmptyString => ""
  | String c rest => if decide (c ∈ [" "%char; ascii_of_nat 9; ascii_of_nat 13; ascii_of_nat 10]) then trim_blanks rest else s
  end.

Lemma trim_blanks_length s : String.length (trim_blanks s) ≤ String.length s.
Proof. induction s as [|c s IH]; [done|]. cbn [trim_blanks]. case_decide; simpl; lia. Qed.

Definition is_array (s : string) : bool := match trim_blanks s with String "["%char _ => true | _ => false end.

Definition carries (u : Usage) : bool := bool_decide (0 < Total u)%Z || bool_decide (u_Model u ≠ "").

(** A single object: the first shape that reports tokens. *)
Definition usage_of (probe : usage_probe) : Usage :=
  let model := if decide (pb_Model probe = "") then pb_ModelVersion probe else pb_Model probe in
  if decide (0 < pb_PromptTokens probe ∨ 0 < pb_CompletionTokens probe)%Z
  then mkUsage (pb_PromptTokens probe) (pb_CompletionTokens probe) model
  else if decide (0 < pb_InputTokens probe ∨ 0 < pb_OutputTokens probe)%Z
  then mkUsage (pb_InputTokens probe) (pb_OutputTokens probe) model
  else if decide (0 < pb_PromptTokenCount probe ∨ 0 < pb_CandidatesTokenCount probe)%Z
  then mkUsage (pb_PromptTokenCount probe) (pb_CandidatesTokenCount probe) model
  else mkUsage 0 0 model.

Section usage.
Context {json : JsonUsage}.

(** One call; [rec] is the call on an element, and the elements are tried from the
    last one on. *)
Definition extract_step (rec : string → Usage) (body : string) : Usage :=
  if decide (body = "") then no_usage
  else if is_array body then
    match RawMessages (trim_blanks body) with
    | None => no_usage
    | Some arr => default no_usage (list_find (λ u, carries u = true) (rec <$> reverse arr) ≫= λ iu, Some iu.2)
    end
  else match DecodeProbe body with
       | None => no_usage
       | Some probe => usage_of probe
       end.

Fixpoint extract (fuel : nat) (body : string) : Usage :=
  match fuel with
  | O => no_usage
  | S fuel => extract_step (extract fuel) body
  end.

(** Elements are shorter than their array, so this fuel is enough. *)
Definition ExtractUsage (body : string) : Usage := extract (S (String.length body)) body.

Lemma extract_step_ext f g body :
  (∀ e, String.length e < String.length body → f e = g e) → extract_step f body = extract_step g body.
Proof.
  intros H. unfold extract_step. case_decide; [done|]. destruct (is_array body); [|done].
  destruct (RawMessages (trim_blanks body)) as [arr|] eqn:Harr; [|done]. do 3 f_equal.
  apply list_fmap_ext. intros i e He. apply H. apply raw_shorter in Harr.
  assert (e ∈ arr) as Hin by (apply elem_of_reverse; by eapply list_elem_of_lookup_2).
  rewrite Forall_forall in Harr. specialize (Harr e Hin). pose proof (trim_blanks_length body). lia.
Qed.

Lemma extract_fuel n m body : String.length body < n → String.length body < m → extract n body = extract m body.
Proof.
  revert m body. induction n as [|n IH]; intros [|m] body Hn Hm; try lia. simpl. apply extract_step_ext.
  intros e He. apply IH; lia.
Qed.

(** The fuel never shows. *)
Lemma ExtractUsage_eq body : ExtractUsage body = extract_step ExtractUsage body.
Proof.
  unfold ExtractUsage at 1. cbn [extract]. apply extract_step_ext. intros e He. by apply extract_fuel; [|lia].
Qed.
End usage.

Section properties.
Context {low : GoLower} {json : JsonUsage}.

(** After loading a file the price of a model is the last one the file names for it,
    else the one it had; unknown models have the fallback of the file, if any. *)
Lemma LoadYAML_Lookup doc t model :
  let t' := (LoadYAML (Some doc) t).1 in
  Lookup model t' =
    match last (filter (named model) (Prices doc)) with
    | Some p => (p, true)
    | None => match prices t !! ToLower model with
              | Some p => (p, true)
              | None => (default (Fallback t) (fd_Fallback doc), false)
              end
    end.
Proof. simpl. unfold Lookup. simpl. rewrite merge_lookup. by destruct (last _). Qed.

(** A JSON array is priced by its last element that carries usage. *)
Lemma ExtractUsage_array body before e rest :
  is_array body = true → RawMessages (trim_blanks body) = Some (before ++ e :: rest) →
  carries (ExtractUsage e) = true → Forall (λ x, carries (ExtractUsage x) = false) rest →
  ExtractUsage body = ExtractUsage e.
Proof.
  intros Ha Harr He Hrest. rewrite ExtractUsage_eq. unfold extract_step at 1. rewrite Ha, Harr.
  rewrite decide_False by (by intros ->).
  rewrite reverse_app, reverse_cons, <-app_assoc, fmap_app. simpl.
  erewrite list_find_app_r; [|apply list_find_None, Forall_fmap, Forall_reverse].
  - simpl. by rewrite decide_True.
  - eapply Forall_impl; [exact Hrest|]. simpl. intros x Hx. by rewrite Hx.
Qed.

Lemma ExtractUsage_array_none body arr :
  is_array body = true → RawMessages (trim_blanks body) = Some arr →
  Forall (λ x, carries (ExtractUsage x) = false) arr → ExtractUsage body = no_usage.
Proof.
  intros Ha Harr Hn. rewrite ExtractUsage_eq. unfold extract_step at 1. rewrite Ha, Harr.
  rewrite decide_False by (by intros ->). rewrite (proj2 (list_find_None _ _)); [done|].
  apply Forall_fmap, Forall_reverse. eapply Forall_impl; [exact Hn|]. simpl. intros x Hx. by rewrite Hx.
Qed.
End properties.
