(* ===== verification/LogStore.v ===== *)
(** The table of interaction logs, [internal/storage/sqlite.go] and [models.go]: the
    SQL statements of the store as operations of a table.

    The rows are in the order of their primary key; [AUTOINCREMENT] gives a row an id
    above every id given before. Timestamps are text and compare byte by byte. Opening
    and migrating the database is not modelled; a statement that fails has no effect. *)

From S2P Require Import Prelude GoBase LogBroadcaster.

Record InteractionFilter := mkFilter {
  f_TenantID : string;
  FilterTenantID : bool;
  f_AgentName : string;
  f_SessionID : string;
  f_Since : string;
  f_Until : string;
  f_Limit : Z;
  f_Offset : Z
}.

Definition DefaultLimit : Z := 50.
Definition MaxLimit : Z := 1000.

(** [next_id] is the id the next row gets. *)
Record SQLiteStore := mkStore { rows : list InteractionLog; next_id : Z }.

Definition empty_store : SQLiteStore := mkStore [] 1.

Definition with_id (id : Z) (e : InteractionLog) : InteractionLog :=
  mkInteractionLog id (il_Timestamp e) (il_TenantID e) (il_AgentName e) (il_SessionID e) (il_Protocol e)
    (il_RequestMethod e) (il_RequestPath e) (il_RequestBody e) (il_ResponseStatus e) (il_ResponseBody e)
    (il_LatencyMs e) (il_ToolCallsCount e) (il_Streaming e) (il_Error e) (il_ScenarioName e) (il_Truncated e).

(** The entry gets the id of its row. *)
Definition Log (entry : InteractionLog) (s : SQLiteStore) : SQLiteStore * InteractionLog :=
  let row := with_id (next_id s) entry in (mkStore (rows s ++ [row]) (next_id s + 1), row).

(** The WHERE clause. *)
Definition matches (f : InteractionFilter) (r : InteractionLog) : bool :=
  (negb (FilterTenantID f) || bool_decide (il_TenantID r = f_TenantID f)) &&
  (bool_decide (f_AgentName f = "") || bool_decide (il_AgentName r = f_AgentName f)) &&
  (bool_decide (f_SessionID f = "") || bool_decide (il_SessionID r = f_SessionID f)) &&
  (bool_decide (f_Since f = "") || String.leb (f_Since f) (il_Timestamp r)) &&
  (bool_decide (f_Until f = "") || String.leb (il_Timestamp r) (f_Until f)).

Definition page_limit (limit : Z) : Z :=
  let limit := if decide (limit ≤ 0)%Z then DefaultLimit else limit in
  if decide (MaxLimit < limit)%Z then MaxLimit else limit.

Definition Query (f : InteractionFilter) (s : SQLiteStore) : list InteractionLog :=
  let found := reverse (filter (λ r, matches f r = true) (rows s)) in
  take (Z.to_nat (page_limit (f_Limit f))) (if decide (0 < f_Offset f)%Z then drop (Z.to_nat (f_Offset f)) found else found).

Definition GetByID (id : Z) (s : SQLiteStore) : option InteractionLog :=
  snd <$> list_find (λ r, il_ID r = id) (rows s).

(** Deleting the rows that satisfy [P]; the answer is their number. *)
Definition delete_where (P : InteractionLog → Prop) `{∀ r, Decision (P r)} (s : SQLiteStore) : SQLiteStore * nat :=
  (mkStore (filter (λ r, ¬ P r) (rows s)) (next_id s), length (filter P (rows s))).

Definition DeleteAll (s : SQLiteStore) : SQLiteStore * nat := delete_where (λ _, True) s.

Definition DeleteForTenant (tenantID : string) (s : SQLiteStore) : SQLiteStore * nat :=
  delete_where (λ r, il_TenantID r = tenantID) s.

Definition Count (s : SQLiteStore) : nat := length (rows s).

(** The subquery, [None] for NULL, which no comparison satisfies. *)
Definition boundary (max : nat) (s : SQLiteStore) : option Z := il_ID <$> reverse (rows s) !! max.

Definition PruneToMaxRows (max : Z) (s : SQLiteStore) : SQLiteStore * nat :=
  if decide (max ≤ 0)%Z then (s, 0)
  else match boundary (Z.to_nat max) s with
       | None => (s, 0)
       | Some id => delete_where (λ r, il_ID r ≤ id)%Z s
       end.

(** ** Histories *)

Inductive log_op :=
| LLog (e : InteractionLog)
| LDeleteAll
| LDeleteForTenant (tenantID : string)
| LPrune (max : Z).

Definition is_write (op : log_op) : bool := match op with LLog _ => true | _ => false end.

(** A failed statement is a step that is left out. *)
Definition log_step (s : SQLiteStore) (op : log_op) : SQLiteStore :=
  match op with
  | LLog e => (Log e s).1
  | LDeleteAll => (DeleteAll s).1
  | LDeleteForTenant t => (DeleteForTenant t s).1
  | LPrune max => (PruneToMaxRows max s).1
  end.

(** What the table should hold: the entries in the order they came. *)
Definition kept_step (kept : list (Z * InteractionLog) * Z) (op : log_op) : list (Z * InteractionLog) * Z :=
  match op with
  | LLog e => (kept.1 ++ [(kept.2 + 1, e)], kept.2 + 1)%Z
  | LDeleteAll => ([], kept.2)
  | LDeleteForTenant t => (filter (λ p, il_TenantID p.2 ≠ t) kept.1, kept.2)
  | LPrune max => (if decide (max ≤ 0)%Z then kept.1 else drop (length kept.1 - Z.to_nat max) kept.1, kept.2)
  end.

(** Ids grow along the table and stay below the next one. *)
Record store_ok (s : SQLiteStore) : Prop := {
  ids_sorted : StronglySorted Z.lt (il_ID <$> rows s);
  ids_below r : r ∈ rows s → (1 ≤ il_ID r < next_id s)%Z
}.

Lemma empty_store_ok : store_ok empty_store.
Proof. split; [constructor|by intros r ?%not_elem_of_nil]. Qed.

Lemma StronglySorted_snoc {A} (R : relation A) l x :
  StronglySorted R l → Forall (λ y, R y x) l → StronglySorted R (l ++ [x]).
Proof.
  induction 1 as [|y l Hs IH Hy]; simpl; intros Hx; [by repeat constructor|].
  apply Forall_cons in Hx as [Hyx Hx]. constructor; [by apply IH|]. apply Forall_app. by split; [|constructor].
Qed.

Lemma StronglySorted_filter {A B} (R : relation B) (f : A → B) (P : A → Prop) `{∀ x, Decision (P x)} l :
  StronglySorted R (f <$> l) → StronglySorted R (f <$> filter P l).
Proof.
  induction l as [|x l IH]; simpl; [done|]. intros [Hs Hx]%StronglySorted_inv. rewrite filter_cons. case_decide; [|by apply IH].
  simpl. constructor; [by apply IH|]. rewrite Forall_fmap, Forall_forall in *. intros y [_ Hy]%list_elem_of_filter. by apply Hx.
Qed.

Lemma Log_ok e s : store_ok s → (1 ≤ next_id s)%Z → store_ok (Log e s).1 ∧ (1 ≤ next_id (Log e s).1)%Z.
Proof.
  intros [Hs Hb] Hn. simpl. split; [|lia]. split; simpl.
  - rewrite fmap_app. apply StronglySorted_snoc; [done|]. apply Forall_fmap, Forall_forall. intros r Hr. simpl.
    apply Hb in Hr. lia.
  - intros r [Hr|Hr]%elem_of_app; [apply Hb in Hr; lia|]. apply list_elem_of_singleton in Hr as ->. simpl. lia.
Qed.

Lemma delete_where_ok P `{∀ r, Decision (P r)} s : store_ok s → store_ok (delete_where P s).1.
Proof.
  intros [Hs Hb]. split; simpl; [by apply StronglySorted_filter|]. intros r [_ Hr]%list_elem_of_filter. by apply Hb.
Qed.

(** In a sorted table the rows up to the one at position [i] are its first [i + 1]. *)
Lemma filter_sorted (l : list InteractionLog) i r : StronglySorted Z.lt (il_ID <$> l) → l !! i = Some r →
  filter (λ x, ¬ (il_ID x ≤ il_ID r)%Z) l = drop (S i) l.
Proof.
  revert i. induction l as [|x l IH]; intros i Hs Hi; [done|]. rewrite fmap_cons in Hs.
  apply StronglySorted_inv in Hs as [Hs Hx].
  rewrite Forall_fmap, Forall_forall in Hx. rewrite filter_cons. destruct i as [|i].
  - injection Hi as ->. rewrite decide_False by lia. simpl. rewrite drop_0.
    clear -Hx. induction l as [|y l IH]; [done|]. rewrite filter_cons.
    rewrite decide_True by (specialize (Hx y ltac:(left)); simpl in Hx; lia).
    f_equal. apply IH. intros z Hz. apply Hx. by right.
  - simpl in Hi. rewrite decide_False; [by apply IH|]. assert (r ∈ l) as Hr by by eapply list_elem_of_lookup_2.
    specialize (Hx r Hr). simpl in Hx. lia.
Qed.

(** Pruning keeps the newest rows. *)
Lemma Prune_rows max s : store_ok s →
  rows (PruneToMaxRows max s).1 =
    (if decide (max ≤ 0)%Z then rows s else drop (length (rows s) - Z.to_nat max) (rows s)).
Proof.
  intros [Hs Hb]. unfold PruneToMaxRows. case_decide as Hm; [done|]. unfold boundary.
  destruct (reverse (rows s) !! Z.to_nat max) as [r|] eqn:Hr; cbn [fmap option_fmap option_map].
  - pose proof (lookup_lt_Some _ _ _ Hr) as Hlt. rewrite length_reverse in Hlt.
    rewrite reverse_lookup in Hr by done. simpl.
    rewrite (filter_sorted _ _ r Hs Hr). f_equal. lia.
  - apply lookup_ge_None in Hr. rewrite length_reverse in Hr. simpl.
    by replace (length (rows s) - Z.to_nat max) with 0 by lia.
Qed.

Lemma Prune_ok max s : store_ok s → store_ok (PruneToMaxRows max s).1 ∧ next_id (PruneToMaxRows max s).1 = next_id s.
Proof.
  intros H. unfold PruneToMaxRows. case_decide; [done|]. destruct (boundary _ s); [|done].
  split; [by apply delete_where_ok|done].
Qed.

(** ** What the log promises *)

(** The entry of a row, without its id. *)
Definition stored (p : Z * InteractionLog) : InteractionLog := with_id p.1 p.2.

Lemma with_id_tenant id e : il_TenantID (with_id id e) = il_TenantID e.
Proof. done. Qed.

Lemma log_history ops : ∀ s kept n, store_ok s → (1 ≤ next_id s)%Z → rows s = stored <$> kept → next_id s = (n + 1)%Z →
  let s' := foldl log_step s ops in
  let '(kept', n') := foldl kept_step (kept, n) ops in
  store_ok s' ∧ (1 ≤ next_id s')%Z ∧ rows s' = stored <$> kept' ∧ next_id s' = (n' + 1)%Z.
Proof.
  induction ops as [|op ops IH]; intros s kept n Hok Hn Hrows Hid; cbn [foldl]; [done|].
  destruct op as [e| |t|max]; cbn [log_step kept_step fst snd].
  - destruct (Log_ok e s Hok Hn) as [Hok' Hn']. apply IH; [done..| |simpl; lia].
    simpl. by rewrite fmap_app, Hrows, Hid.
  - apply IH; [by apply delete_where_ok|done| |done]. simpl. apply list_filter_none || idtac.
    clear. induction (rows s) as [|r l IH]; [done|]. rewrite filter_cons, decide_False; [done|]. by intros [].
  - apply IH; [by apply delete_where_ok|done| |done]. simpl. rewrite Hrows. clear.
    induction kept as [|p l IH]; [done|]. rewrite fmap_cons, !filter_cons. simpl.
    case_decide; simpl; by rewrite IH.
  - destruct (Prune_ok max s Hok) as [Hok' Hn']. rewrite <-Hn' in Hn, Hid. apply IH; [done..| |done].
    rewrite Prune_rows, Hrows by done. case_decide; [done|]. by rewrite length_fmap, fmap_drop.
Qed.

Lemma GetByID_stored kept id : StronglySorted Z.lt (il_ID <$> (stored <$> kept)) →
  ∀ r, snd <$> list_find (λ r, il_ID r = id) (stored <$> kept) = Some r ↔ ∃ e, (id, e) ∈ kept ∧ r = with_id id e.
Proof.
  induction kept as [|[j e] kept IH]; intros Hs r; [split; [done|by intros (? & ?%not_elem_of_nil & _)]|].
  rewrite !fmap_cons in Hs. apply StronglySorted_inv in Hs as [Hs Hj]. simpl. case_decide as Hd; simpl in *.
  - subst j. split.
    + intros [= <-]. exists e. split; [left|done].
    + intros (e' & [[= ->]|Hin]%elem_of_cons & ->); [done|]. exfalso.
      rewrite !Forall_fmap, Forall_forall in Hj. specialize (Hj _ Hin). simpl in Hj. lia.
  - specialize (IH Hs r). assert (∀ o : option (nat * InteractionLog), snd <$> (prod_map S (λ x, x) <$> o) = snd <$> o) as Ho
      by by intros [[]|].
    rewrite (Ho (list_find _ _)).
    rewrite IH. split; intros (e' & Hin & ->); exists e'; (split; [|done]).
    + by right.
    + by apply elem_of_cons in Hin as [[= -> ->]|Hin].
Qed.

(** C18: The log keeps exactly what it should. After any history of writes, deletions and
    retention runs the table holds the entries that were written and not deleted since,
    in the order they came, where a retention run keeps the newest rows. Every entry has
    the id its number in the sequence of writes, so ids grow, are never used again, and
    looking an id up finds its entry until it is deleted. *)
Theorem log_store_history ops :
  let s := foldl log_step empty_store ops in
  let '(kept, n) := foldl kept_step ([], 0%Z) ops in
  rows s = stored <$> kept ∧
  n = Z.of_nat (length (filter is_write ops)) ∧
  StronglySorted Z.lt kept.*1 ∧
  (∀ id r, GetByID id s = Some r ↔ ∃ e, (id, e) ∈ kept ∧ r = with_id id e).
Proof.
  pose proof (log_history ops empty_store [] 0 empty_store_ok ltac:(done) eq_refl eq_refl) as H. cbv zeta in *.
  assert (∀ l k m, (foldl kept_step (k, m) l).2 =
    (m + Z.of_nat (length (filter is_write l)))%Z) as Hcount.
  { clear. induction l as [|op l IH]; intros k m; cbn [foldl]; [simpl; lia|]. rewrite filter_cons.
    destruct op; simpl; rewrite IH; simpl; lia. }
  specialize (Hcount ops [] 0%Z).
  destruct (foldl kept_step ([], 0%Z) ops) as [kept n]. destruct H as ([Hs _] & _ & Hrows & _).
  rewrite Hrows in Hs. split; [done|]. split; [done|]. split.
  - assert (il_ID <$> (stored <$> kept) = kept.*1) as <-; [|done]. rewrite <-list_fmap_compose. by apply list_fmap_ext.
  - intros id r. unfold GetByID. rewrite Hrows. by apply GetByID_stored.
Qed.

Definition at_offset (f : InteractionFilter) (offset : Z) : InteractionFilter :=
  mkFilter (f_TenantID f) (FilterTenantID f) (f_AgentName f) (f_SessionID f) (f_Since f) (f_Until f) (f_Limit f) offset.

Lemma StronglySorted_rev {A} (R : relation A) l : StronglySorted R l → StronglySorted (flip R) (reverse l).
Proof.
  induction 1 as [|x l Hs IH Hx]; [constructor|]. rewrite reverse_cons. apply StronglySorted_snoc; [done|].
  by apply Forall_reverse.
Qed.

Lemma StronglySorted_weaken {A} (R R' : relation A) l : (∀ x y, R x y → R' x y) → StronglySorted R l → StronglySorted R' l.
Proof. intros HR. induction 1 as [|x l Hs IH Hx]; constructor; [done|]. eapply Forall_impl; [exact Hx|apply HR]. Qed.

Lemma StronglySorted_part {A} (R : relation A) a b c : StronglySorted R (a ++ b ++ c) → StronglySorted R b.
Proof. intros H. by apply StronglySorted_app_1_r, StronglySorted_app_1_l in H. Qed.

Lemma take_drop_sub {A} n m (l : list A) : ∃ a c, l = a ++ take n (drop m l) ++ c.
Proof. exists (take m l), (drop n (drop m l)). by rewrite take_drop, take_drop. Qed.

(** Queries page through the log. A page has at most a thousand rows, all of them match
    every condition of the filter, the newest first. The pages at the offsets 0, L, 2L
    and so on, where L is the limit in force, together list every matching row exactly
    once in that order. *)
Theorem Query_pages f s n : store_ok s →
  let found := reverse (filter (λ r, matches f r = true) (rows s)) in
  let limit := page_limit (f_Limit f) in
  (1 ≤ limit ≤ 1000)%Z ∧ ((1 ≤ f_Limit f ≤ 1000)%Z → limit = f_Limit f) ∧
  (∀ offset, let page := Query (at_offset f offset) s in
     (Z.of_nat (length page) ≤ limit)%Z ∧ Forall (λ r, matches f r = true) page ∧ StronglySorted Z.gt (il_ID <$> page)) ∧
  concat ((λ i, Query (at_offset f (Z.of_nat i * limit)) s) <$> seq 0 n) = take (n * Z.to_nat limit) found.
Proof.
  intros [Hs _]. cbv zeta. set (found := reverse _). set (limit := page_limit (f_Limit f)).
  assert (1 ≤ limit ≤ 1000)%Z as Hl.
  { unfold limit, page_limit, DefaultLimit, MaxLimit. by repeat case_decide; lia. }
  split; [done|]. split; [intros Hf; unfold limit, page_limit, DefaultLimit, MaxLimit; by repeat case_decide; lia|].
  assert (∀ offset, Query (at_offset f offset) s = take (Z.to_nat limit) (drop (Z.to_nat offset) found)) as HQ.
  { intros offset. unfold Query, at_offset. simpl. fold found. f_equal. case_decide; [done|].
    by replace (Z.to_nat offset) with 0 by lia. }
  split.
  - intros offset. rewrite HQ. destruct (take_drop_sub (Z.to_nat limit) (Z.to_nat offset) found) as (a & c & Hf).
    split_and!.
    + rewrite length_take. lia.
    + assert (Forall (λ r, matches f r = true) found) as HF.
      { apply Forall_reverse, Forall_forall. by intros r [? _]%list_elem_of_filter. }
      rewrite Hf, !Forall_app in HF. apply HF.
    + assert (StronglySorted Z.gt (il_ID <$> found)) as HS.
      { unfold found. rewrite fmap_reverse. eapply StronglySorted_weaken; [|by apply StronglySorted_rev, StronglySorted_filter].
        unfold flip. lia. }
      rewrite Hf, !fmap_app in HS. by apply StronglySorted_part in HS.
  - clear Hs. induction n as [|n IH]; [done|]. rewrite seq_S, fmap_app, concat_app, IH. simpl. rewrite app_nil_r, HQ.
    replace (Z.to_nat (Z.of_nat n * limit)) with (n * Z.to_nat limit) by lia.
    set (L := Z.to_nat limit). change (S n * L) with (L + n * L). rewrite Nat.add_comm.
    rewrite <-(take_drop (n * L) (take (n * L + L) found)), take_take, skipn_firstn_comm.
    replace (Nat.min (n * L) (n * L + L)) with (n * L) by lia. by replace (n * L + L - n * L) with L by lia.
Qed.

(** Three rows of two tenants, two to a page. *)
Definition row_of (tenantID time : string) : InteractionLog :=
  mkInteractionLog 0 time tenantID "echo" "" "" "POST" "/v1/messages" "" 200 "" 1 0 false "" "" false.

Lemma Query_pages_witness :
  let ops := [LLog (row_of "a" "1"); LLog (row_of "b" "2"); LLog (row_of "a" "3"); LLog (row_of "a" "4")] in
  let s := foldl log_step empty_store ops in
  let f := mkFilter "a" true "" "" "" "" 2 0 in
  concat ((λ i, Query (at_offset f (Z.of_nat i * 2)) s) <$> seq 0 2) =
    [with_id 4 (row_of "a" "4"); with_id 3 (row_of "a" "3"); with_id 1 (row_of "a" "1")].
Proof.
  intros ops s f. assert (store_ok s) as Hok.
  { pose proof (log_history ops empty_store [] 0 empty_store_ok ltac:(done) eq_refl eq_refl) as H. cbv zeta in H.
    fold s in H. destruct (foldl kept_step _ ops). apply H. }
  destruct (Query_pages f s 2 Hok) as (_ & _ & _ & H). etrans; [exact H|by vm_compute].
Defined.
