(* ===== verification/LogWorker.v ===== *)
(** The asynchronous log writer, [internal/server/log_worker.go], and the retention
    pruner of [log_pruner.go].

    The goroutines of the pool take turns one atomic effect at a time: the two selects
    of the loop, the write, the publication. [Submit] holds the read lock and
    [Shutdown] the write lock around the close, so each is one step; the counter that
    [Submit] raises before the send and lowers again on a full queue is raised only
    when the send succeeds. *)

From S2P Require Import Prelude GoBase GoChan LogBroadcaster LogStore.

Definition DefaultLogWorkerCount : Z := 4.
Definition DefaultLogQueueSize : Z := 1024.

Record LogWorkerConfig := mkWorkerConfig { Workers : Z; QueueSize : Z }.

(** Where a goroutine of the pool is: before the first select, before the second, at the
    write of an entry, at the publication of a written row, or gone. *)
Inductive goroutine :=
| AtTop
| AtSelect
| AtWrite (entry : InteractionLog)
| AtPublish (row : InteractionLog)
| Gone.

Record LogWorker := mkWorker {
  queue : chan InteractionLog;
  submitted : Z; written : Z; dropped : Z; failed : Z;   (* atomic.Uint64 *)
  stopped : bool;
  quit : bool;                                           (* closed *)
  pool : list goroutine
}.

Definition NewLogWorker (cfg : LogWorkerConfig) : LogWorker :=
  let workers := if decide (Workers cfg ≤ 0)%Z then DefaultLogWorkerCount else Workers cfg in
  let queueSize := if decide (QueueSize cfg ≤ 0)%Z then DefaultLogQueueSize else QueueSize cfg in
  mkWorker (mkChan [] queueSize false) 0 0 0 0 false false (replicate (Z.to_nat workers) AtTop).

(** [None] is a panic. *)
Definition Submit (entry : InteractionLog) (w : LogWorker) : option (LogWorker * bool) :=
  if stopped w then
    Some (mkWorker (queue w) (submitted w) (written w) (uint64_add (dropped w) 1) (failed w) true (quit w) (pool w), false)
  else
    sent ← try_send entry (queue w);
    Some match sent with
         | Some q => (mkWorker q (uint64_add (submitted w) 1) (written w) (dropped w) (failed w) false (quit w) (pool w), true)
         | None =>
             (mkWorker (queue w) (submitted w) (written w) (uint64_add (dropped w) 1) (failed w) false (quit w) (pool w), false)
         end.

Record Metrics := mkMetrics {
  m_Submitted : Z; m_Written : Z; m_Dropped : Z; m_Failed : Z; QueueLen : nat; QueueCap : Z
}.

Definition worker_Metrics (w : option LogWorker) : Metrics :=
  match w with
  | None => mkMetrics 0 0 0 0 0 0
  | Some w => mkMetrics (submitted w) (written w) (dropped w) (failed w) (length (buf (queue w))) (cap (queue w))
  end.

(** [Shutdown], the part of the first caller under the lock. *)
Definition shutdown_close (w : LogWorker) : option LogWorker :=
  if stopped w then Some w
  else q ← close_chan (queue w);
       Some (mkWorker q (submitted w) (written w) (dropped w) (failed w) true (quit w) (pool w)).

(** The drain deadline, which passes at most once and only after the close. *)
Definition hard_stop (w : LogWorker) : LogWorker :=
  if stopped w then mkWorker (queue w) (submitted w) (written w) (dropped w) (failed w) true true (pool w) else w.

Definition is_gone (g : goroutine) : bool := match g with Gone => true | _ => false end.

(** [wg.Wait] returns. *)
Definition joined (w : LogWorker) : bool := forallb is_gone (pool w).

Definition set_pool (i : nat) (g : goroutine) (w : LogWorker) : LogWorker :=
  mkWorker (queue w) (submitted w) (written w) (dropped w) (failed w) (stopped w) (quit w) (<[i := g]> (pool w)).

Definition set_queue (q : chan InteractionLog) (w : LogWorker) : LogWorker :=
  mkWorker q (submitted w) (written w) (dropped w) (failed w) (stopped w) (quit w) (pool w).

Definition count_write (ok : bool) (w : LogWorker) : LogWorker :=
  if ok then mkWorker (queue w) (submitted w) (uint64_add (written w) 1) (dropped w) (failed w) (stopped w) (quit w) (pool w)
  else mkWorker (queue w) (submitted w) (written w) (dropped w) (uint64_add (failed w) 1) (stopped w) (quit w) (pool w).

(** The worker with the store and the broadcaster it writes to ([None] when there is
    none). [accepted], [taken], [persisted], [lost] and [published] are the entries
    that were queued, dequeued, written, not written and sent to the subscribers. *)
Record world := mkWorld {
  lw : LogWorker;
  store : SQLiteStore;
  live : option stream;
  attempts : nat;
  accepted : list InteractionLog;
  taken : list InteractionLog;
  persisted : list InteractionLog;
  lost : list InteractionLog;
  published : list InteractionLog
}.

Inductive worker_op :=
| WSubmit (entry : InteractionLog)
| WCheckQuit (i : nat)           (* the first select *)
| WQuit (i : nat)                (* the second select sees quit *)
| WReceive (i : nat)             (* the second select receives, or sees the queue drained *)
| WWrite (i : nat) (ok : bool)   (* [store.Log] *)
| WPublish (i : nat)
| WShutdown
| WDeadline
| WPrune (max : Z)
| WStream (op : stream_op).      (* the subscribers *)

Section run.
Context {sr : SetRange}.

Definition set_lw (w : LogWorker) (st : world) : world :=
  mkWorld w (store st) (live st) (attempts st) (accepted st) (taken st) (persisted st) (lost st) (published st).

(** A nil broadcaster does nothing. *)
Definition live_step (op : stream_op) (l : option stream) : option (option stream) :=
  match l with None => Some None | Some l => Some <$> stream_step l op end.

(** What goroutine [i] does; a step it cannot make changes nothing. *)
Definition goroutine_step (i : nat) (op : worker_op) (st : world) : option world :=
  let w := lw st in
  match pool w !! i, op with
  | Some AtTop, WCheckQuit _ => Some (set_lw (set_pool i (if quit w then Gone else AtSelect) w) st)
  | Some AtSelect, WQuit _ => Some (if quit w then set_lw (set_pool i Gone w) st else st)
  | Some AtSelect, WReceive _ =>
      Some match receive_chan (queue w) with
           | Some (entry, q) =>
               mkWorld (set_pool i (AtWrite entry) (set_queue q w)) (store st) (live st) (attempts st)
                 (accepted st) (taken st ++ [entry]) (persisted st) (lost st) (published st)
           | None => if ch_closed (queue w) then set_lw (set_pool i Gone w) st else st
           end
  | Some (AtWrite entry), WWrite _ ok =>
      let w := count_write ok w in
      Some (if ok then
              let '(s, row) := Log entry (store st) in
              mkWorld (set_pool i (AtPublish row) w) s (live st) (attempts st)
                (accepted st) (taken st) (persisted st ++ [entry]) (lost st) (published st)
            else
              mkWorld (set_pool i AtTop w) (store st) (live st) (attempts st)
                (accepted st) (taken st) (persisted st) (lost st ++ [entry]) (published st))
  | Some (AtPublish row), WPublish _ =>
      l ← live_step (OpPublish (Some row)) (live st);
      Some (mkWorld (set_pool i AtTop w) (store st) l (attempts st)
              (accepted st) (taken st) (persisted st) (lost st) (published st ++ [row]))
  | _, _ => Some st
  end.

Definition worker_step (st : world) (op : worker_op) : option world :=
  match op with
  | WSubmit entry =>
      '(w, ok) ← Submit entry (lw st);
      Some (mkWorld w (store st) (live st) (S (attempts st)) (accepted st ++ (if (ok : bool) then [entry] else []))
              (taken st) (persisted st) (lost st) (published st))
  | WShutdown => w ← shutdown_close (lw st); Some (set_lw w st)
  | WDeadline => Some (set_lw (hard_stop (lw st)) st)
  | WPrune max =>
      Some (mkWorld (lw st) (PruneToMaxRows max (store st)).1 (live st) (attempts st)
              (accepted st) (taken st) (persisted st) (lost st) (published st))
  | WStream op =>
      l ← live_step op (live st);
      Some (mkWorld (lw st) (store st) l (attempts st) (accepted st) (taken st) (persisted st) (lost st) (published st))
  | WCheckQuit i | WQuit i | WReceive i | WWrite i _ | WPublish i => goroutine_step i op st
  end.

Definition run_worker (ops : list worker_op) (st : world) : option world := fold_opt worker_step ops st.

Definition new_world (cfg : LogWorkerConfig) (live : option stream) : world :=
  mkWorld (NewLogWorker cfg) empty_store live 0 [] [] [] [] [].
End run.

(** ** The pruner *)

Definition DefaultLogPruneInterval : Z := Minute.

Record logPruner := mkPruner { maxRows : Z; interval : Z; started : bool; stop_closed : bool }.

Definition newLogPruner (maxRows interval : Z) : logPruner :=
  mkPruner maxRows (if decide (interval ≤ 0)%Z then DefaultLogPruneInterval else interval) false false.

(** [ok] tells whether the statement succeeds. *)
Definition pruneOnce (ok : bool) (p : logPruner) (s : SQLiteStore) : SQLiteStore :=
  if ok then (PruneToMaxRows (maxRows p) s).1 else s.

(** The goroutine prunes when it starts and on every tick until it is stopped. *)
Inductive pruner_event := PStart (ok : bool) | PTick (ok : bool) | PStop.

Definition pruner_step (ev : pruner_event) (p : logPruner) (s : SQLiteStore) : logPruner * SQLiteStore :=
  match ev with
  | PStart ok => (mkPruner (maxRows p) (interval p) true (stop_closed p), pruneOnce ok p s)
  | PTick ok => (p, if started p && negb (stop_closed p) then pruneOnce ok p s else s)
  | PStop => (mkPruner (maxRows p) (interval p) (started p) true, s)
  end.

(** ** Invariants of the worker *)

Definition writing (g : goroutine) : option InteractionLog := match g with AtWrite e => Some e | _ => None end.

Definition publishing (g : goroutine) : option InteractionLog := match g with AtPublish r => Some r | _ => None end.

Lemma omap_update {A} (f : goroutine → option A) l i g g' : l !! i = Some g →
  option_list (f g) ++ omap f (<[i := g']> l) ≡ₚ option_list (f g') ++ omap f l.
Proof.
  revert i. induction l as [|x l IH]; intros [|i] Hi; try done; simpl in *.
  - injection Hi as ->. destruct (f g), (f g'); simpl; solve_Permutation.
  - specialize (IH i Hi). destruct (f x); [|done]. rewrite <-!Permutation_middle. by rewrite IH.
Qed.

(** The rows of the entries that were written: their ids are their ranks. *)
Definition rows_of (es : list InteractionLog) : list InteractionLog := imap (λ i e, with_id (Z.of_nat i + 1) e) es.

Lemma rows_of_snoc es e : rows_of (es ++ [e]) = rows_of es ++ [with_id (Z.of_nat (length es) + 1) e].
Proof. unfold rows_of. rewrite imap_app. simpl. by rewrite Nat.add_0_r. Qed.

Definition counts (z : Z) (n : nat) : Prop := z = (Z.of_nat n mod two64)%Z.

Lemma counts_S z n : counts z n → counts (uint64_add z 1) (S n).
Proof.
  unfold counts, uint64_add. intros ->. rewrite Zplus_mod_idemp_l. f_equal. lia.
Qed.

Record world_ok (cfg_cap : Z) (workers : nat) (st : world) : Prop := {
  ok_cap : cap (queue (lw st)) = cfg_cap;
  ok_len : (Z.of_nat (length (buf (queue (lw st)))) ≤ cfg_cap)%Z;
  ok_closed : ch_closed (queue (lw st)) = stopped (lw st);
  ok_quit : quit (lw st) = true → stopped (lw st) = true;
  ok_pool : length (pool (lw st)) = workers;
  ok_queue : taken st ++ buf (queue (lw st)) = accepted st;
  ok_taken : taken st ≡ₚ persisted st ++ lost st ++ omap writing (pool (lw st));
  ok_rows : rows_of (persisted st) ≡ₚ published st ++ omap publishing (pool (lw st));
  ok_next : next_id (store st) = (Z.of_nat (length (persisted st)) + 1)%Z;
  ok_gone : Gone ∈ pool (lw st) → quit (lw st) = true ∨ (stopped (lw st) = true ∧ buf (queue (lw st)) = []);
  ok_submitted : counts (submitted (lw st)) (length (accepted st));
  ok_written : counts (written (lw st)) (length (persisted st));
  ok_failed : counts (failed (lw st)) (length (lost st));
  ok_dropped : length (accepted st) ≤ attempts st ∧ counts (dropped (lw st)) (attempts st - length (accepted st));
  ok_live l : live st = Some l → stream_wf l
}.

Lemma gone_update g i (l : list goroutine) : g ≠ Gone → Gone ∈ <[i := g]> l → Gone ∈ l.
Proof.
  intros Hg Hin. apply list_elem_of_lookup in Hin as [j Hj]. destruct (decide (i = j)) as [->|Hne].
  - apply list_lookup_insert_Some in Hj as [(_ & -> & _)|(? & _)]; done.
  - rewrite list_lookup_insert_ne in Hj by done. by eapply list_elem_of_lookup_2.
Qed.

Section proofs.
Context {sr : SetRange}.

(** A goroutine changes its place; what it holds moves with it. *)
Lemma move_ok c n st st' i g g' :
  world_ok c n st → pool (lw st) !! i = Some g →
  pool (lw st') = <[i := g']> (pool (lw st)) →
  cap (queue (lw st')) = cap (queue (lw st)) →
  length (buf (queue (lw st'))) ≤ length (buf (queue (lw st))) →
  ch_closed (queue (lw st')) = ch_closed (queue (lw st)) →
  quit (lw st') = quit (lw st) → stopped (lw st') = stopped (lw st) →
  taken st' ++ buf (queue (lw st')) = taken st ++ buf (queue (lw st)) → accepted st' = accepted st →
  taken st' ++ option_list (writing g) ++ persisted st ++ lost st ≡ₚ
    taken st ++ option_list (writing g') ++ persisted st' ++ lost st' →
  rows_of (persisted st') ++ option_list (publishing g) ++ published st ≡ₚ
    rows_of (persisted st) ++ option_list (publishing g') ++ published st' →
  next_id (store st') = (Z.of_nat (length (persisted st')) + 1)%Z →
  (g' = Gone → quit (lw st) = true ∨ (stopped (lw st) = true ∧ buf (queue (lw st')) = [])) →
  submitted (lw st') = submitted (lw st) → dropped (lw st') = dropped (lw st) → attempts st' = attempts st →
  counts (written (lw st')) (length (persisted st')) → counts (failed (lw st')) (length (lost st')) →
  (∀ l, live st' = Some l → stream_wf l) → world_ok c n st'.
Proof.
  intros [] Hg Hpool Hcap Hlen Hclosed Hquit Hstop Hq Hacc Htaken Hrows Hnext Hgone Hsub Hdrop Hatt Hwr Hfail Hlive.
  pose proof (omap_update writing _ _ _ g' Hg) as Hw. pose proof (omap_update publishing _ _ _ g' Hg) as Hp.
  split; rewrite ?Hcap, ?Hclosed, ?Hquit, ?Hstop, ?Hacc, ?Hpool, ?Hsub, ?Hdrop, ?Hatt, ?length_insert; try done.
  - lia.
  - by rewrite Hq.
  - apply (Permutation_app_inv_l (option_list (writing g))).
    rewrite (Permutation_app_comm _ (taken st')).
    apply (Permutation_app_inv_r (persisted st ++ lost st)). rewrite <-app_assoc, Htaken, ok_taken0.
    transitivity ((option_list (writing g') ++ omap writing (pool (lw st))) ++ persisted st ++ lost st ++ persisted st' ++ lost st');
      [solve_Permutation|]. rewrite <-Hw. solve_Permutation.
  - apply (Permutation_app_inv_l (option_list (publishing g) ++ published st)).
    rewrite (Permutation_app_comm _ (rows_of _)), Hrows, ok_rows0.
    transitivity ((option_list (publishing g') ++ omap publishing (pool (lw st))) ++ published st ++ published st');
      [solve_Permutation|]. rewrite <-Hp. solve_Permutation.
  - intros Hin. assert (g' = Gone ∨ g' ≠ Gone) as [->|Hne] by (destruct g'; auto); [by apply Hgone|].
    destruct (ok_gone0 (gone_update _ _ _ Hne Hin)) as [?|[? Hb]]; [by left|right]. split; [done|].
    rewrite Hb in Hlen. by apply nil_length_inv, Nat.le_0_r.
Qed.
Lemma goroutine_ok c n i op st : world_ok c n st →
  ∃ st', goroutine_step i op st = Some st' ∧ world_ok c n st'.
Proof.
  intros Hok. unfold goroutine_step. destruct (pool (lw st) !! i) as [g|] eqn:Hg; [|by exists st].
  pose proof (ok_closed _ _ _ Hok) as Hclosed.
  destruct g as [| |e|r|], op as [?|?|?|?|? ok|?| | |?|?]; try (by exists st).
  - eexists. split; [done|]. eapply (move_ok _ _ _ _ i AtTop); [done|done|done|try done; try apply Hok..].
    + by destruct (quit (lw st)).
    + by destruct (quit (lw st)).
    + destruct (quit (lw st)); [by left|done].
  - destruct (quit (lw st)) eqn:Hquit; [|by exists st]. eexists. split; [done|].
    eapply (move_ok _ _ _ _ i AtSelect); [done|done|done|try done; try apply Hok..]. by left.
  - unfold receive_chan. destruct (queue (lw st)) as [[|e es] cp cl] eqn:Hqueue; simpl in *.
    + destruct cl; [|by exists st]. eexists. split; [done|].
      eapply (move_ok _ _ _ _ i AtSelect); [done|done|done|try done; try apply Hok..].
      intros _. right. simpl. by rewrite Hqueue.
    + eexists. split; [done|].
      eapply (move_ok _ _ _ _ i AtSelect (AtWrite e)); [done|done|done|simpl; rewrite ?Hqueue; try done; try apply Hok..].
      * simpl. lia.
      * by rewrite <-app_assoc.
      * solve_Permutation.
  - destruct ok; (eexists; split; [done|]).
    + eapply (move_ok _ _ _ _ i (AtWrite e) (AtPublish _)); [done|done|done|simpl; try done; try apply Hok..].
      * solve_Permutation.
      * rewrite rows_of_snoc, (ok_next _ _ _ Hok). solve_Permutation.
      * rewrite (ok_next _ _ _ Hok), length_app. simpl. lia.
      * rewrite length_app, Nat.add_comm. apply counts_S, Hok.
    + eapply (move_ok _ _ _ _ i (AtWrite e) AtTop); [done|done|done|simpl; try done; try apply Hok..].
      * solve_Permutation.
      * rewrite length_app, Nat.add_comm. apply counts_S, Hok.
  - assert (∃ l, live_step (OpPublish (Some r)) (live st) = Some l ∧ ∀ l', l = Some l' → stream_wf l') as (l & -> & Hl).
    { pose proof (ok_live _ _ _ Hok) as Hlive. unfold live_step. destruct (live st) as [l|]; [|by exists None].
      destruct (step_total l (OpPublish (Some r)) (Hlive _ eq_refl)) as (l' & -> & Hwf & _). exists (Some l').
      split; [done|]. by intros ? [= <-]. }
    eexists. split; [done|].
    eapply (move_ok _ _ _ _ i (AtPublish r) AtTop); [done|done|done|simpl; try done; try apply Hok..].
    solve_Permutation.
Qed.
Lemma new_ok cfg live : (∀ l, live = Some l → stream_wf l) →
  world_ok (cap (queue (NewLogWorker cfg))) (length (pool (NewLogWorker cfg))) (new_world cfg live).
Proof.
  intros Hlive. split; simpl; try done.
  - unfold DefaultLogQueueSize. case_decide; lia.
  - by induction (Z.to_nat _).
  - by induction (Z.to_nat _).
  - intros Hin. exfalso. apply list_elem_of_lookup in Hin as [i Hi]. by apply lookup_replicate in Hi as [? _].
Qed.

(** A change of the rest of the world. *)
Lemma other_ok c n st st' : world_ok c n st → lw st' = lw st → attempts st' = attempts st →
  accepted st' = accepted st → taken st' = taken st → persisted st' = persisted st → lost st' = lost st →
  published st' = published st → next_id (store st') = next_id (store st) →
  (∀ l, live st' = Some l → stream_wf l) → world_ok c n st'.
Proof. intros [] Hlw Ha Hac Ht Hp Hl Hpu Hn Hlive. split; by rewrite ?Hlw, ?Ha, ?Hac, ?Ht, ?Hp, ?Hl, ?Hpu, ?Hn. Qed.

Lemma prune_next max s : next_id (PruneToMaxRows max s).1 = next_id s.
Proof. unfold PruneToMaxRows. case_decide; [done|]. by destruct (boundary _ _). Qed.

Lemma step_ok c n op st : world_ok c n st → ∃ st', worker_step st op = Some st' ∧ world_ok c n st'.
Proof.
  intros Hok. destruct op as [e|i|i|i|i ok|i| | |max|op]; try (by apply goroutine_ok); cbn [worker_step].
  - unfold Submit. pose proof Hok as []. destruct (stopped (lw st)) eqn:Hstop; simpl.
    { eexists. split; [done|]. rewrite app_nil_r. split; simpl; try done.
      destruct ok_dropped0 as [Hle Hd]. split; [lia|]. rewrite Nat.sub_succ_l by done. by apply counts_S. }
    unfold try_send. rewrite ok_closed0. case_decide as Hroom; simpl; (eexists; split; [done|]).
    + split; simpl; try done; rewrite ?length_app; simpl.
      * lia.
      * by rewrite app_assoc, ok_queue0.
      * intros Hin. destruct (ok_gone0 Hin) as [Hq|[]]; [by apply ok_quit0 in Hq|done].
      * rewrite Nat.add_comm. by apply counts_S.
      * destruct ok_dropped0 as [Hle Hd]. split; [lia|]. by replace (S (attempts st) - (length (accepted st) + 1))
          with (attempts st - length (accepted st)) by lia.
    + rewrite app_nil_r. split; simpl; try done.
      destruct ok_dropped0 as [Hle Hd]. split; [lia|]. rewrite Nat.sub_succ_l by done. by apply counts_S.
  - unfold shutdown_close. destruct (stopped (lw st)) eqn:Hstop; [exists (set_lw (lw st) st); by destruct st|].
    unfold close_chan. pose proof Hok as []. rewrite ok_closed0, Hstop. simpl. eexists. split; [done|].
    split; simpl; try done. intros Hin. destruct (ok_gone0 Hin) as [Hq|[]]; [by left|congruence].
  - eexists. split; [done|]. unfold hard_stop. destruct (stopped (lw st)) eqn:Hstop; [|by destruct st].
    pose proof Hok as []. split; simpl; try done; [congruence|by left].
  - eexists. split; [done|]. eapply other_ok; [done..|apply prune_next|]. apply Hok.
  - unfold live_step. destruct (live st) as [l|] eqn:Hl.
    + destruct (step_total l op (ok_live _ _ _ Hok l Hl)) as (l' & -> & Hwf & _). simpl. eexists. split; [done|].
      eapply other_ok; [done..|]. by intros ? [= <-].
    + simpl. eexists. split; [done|]. by eapply other_ok; [done..|].
Qed.

Lemma run_ok c n ops st : world_ok c n st → ∃ st', run_worker ops st = Some st' ∧ world_ok c n st'.
Proof.
  unfold run_worker. revert st. induction ops as [|op ops IH]; intros st Hok; simpl; [by exists st|].
  destruct (step_ok c n op st Hok) as (st1 & -> & Hok1). by apply IH.
Qed.

Lemma joined_gone w i : joined w = true → pool w !! i = None ∨ pool w !! i = Some Gone.
Proof.
  unfold joined. rewrite forallb_forall. intros H. destruct (pool w !! i) as [g|] eqn:Hg; [|by left]. right.
  apply list_elem_of_lookup_2, list_elem_of_In in Hg. specialize (H g Hg). by destruct g.
Qed.

Lemma joined_none {A} (f : goroutine → option A) w : f Gone = None → joined w = true → omap f (pool w) = [].
Proof.
  intros Hf. unfold joined. induction (pool w) as [|g l IH]; simpl; [done|]. intros [Hg Hl]%andb_true_iff.
  destruct g; try done. rewrite Hf. by apply IH.
Qed.

(** C17: The log writer loses no entry unnoticed. Whatever the requests, the goroutines, the
    retention runs, the subscribers and the shutdown do in whatever order, nothing panics;
    the queue is bounded and first in, first out; every call of [Submit] is counted as
    submitted or dropped; every entry taken from the queue is written once, fails once or
    is being written; a row is published only after it was written, and once. When
    [Shutdown] returns the goroutines do nothing any more, and unless the deadline passed
    every accepted entry was written and published, or counted as failed. *)
Theorem log_worker_history cfg (broadcasting : bool) ops :
  ∃ st, run_worker ops (new_world cfg (if broadcasting then Some (mkStream zero_broadcaster [] []) else None)) = Some st ∧
  let w := lw st in
  cap (queue w) = (if decide (QueueSize cfg ≤ 0)%Z then 1024%Z else QueueSize cfg) ∧
  (Z.of_nat (length (buf (queue w))) ≤ cap (queue w))%Z ∧
  accepted st = taken st ++ buf (queue w) ∧
  taken st ≡ₚ persisted st ++ lost st ++ omap writing (pool w) ∧
  rows_of (persisted st) ≡ₚ published st ++ omap publishing (pool w) ∧
  counts (submitted w) (length (accepted st)) ∧ counts (dropped w) (attempts st - length (accepted st)) ∧
  length (accepted st) ≤ attempts st ∧
  counts (written w) (length (persisted st)) ∧ counts (failed w) (length (lost st)) ∧
  (joined w = true →
     (∀ i op, goroutine_step i op st = Some st) ∧ stopped w = true ∧
     (quit w = false → accepted st ≡ₚ persisted st ++ lost st ∧ published st ≡ₚ rows_of (persisted st))).
Proof.
  destruct (run_ok _ _ ops _ (new_ok cfg (if broadcasting then Some (mkStream zero_broadcaster [] []) else None)
    ltac:(intros l Hl; destruct broadcasting; [injection Hl as <-; apply zero_wf|done]))) as (st & Hrun & Hok).
  exists st. split; [done|]. destruct Hok as []. cbv zeta. split; [by rewrite ok_cap0|]. split; [by rewrite ok_cap0|].
  do 3 (split; [done|]). split; [done|]. destruct ok_dropped0 as [Hle Hd]. do 4 (split; [done|]). intros Hj.
  assert (Gone ∈ pool (lw st)) as Hgone.
  { assert (0 < length (pool (lw st))) as Hpos.
    { rewrite ok_pool0. simpl. rewrite length_replicate. unfold DefaultLogWorkerCount. case_decide; lia. }
    destruct (lookup_lt_is_Some_2 (pool (lw st)) 0 Hpos) as [g Hg].
    destruct (joined_gone _ 0 Hj) as [H|H]; [congruence|]. by eapply list_elem_of_lookup_2. }
  apply ok_gone0 in Hgone. split; [|split].
  - intros i op. unfold goroutine_step. by destruct (joined_gone _ i Hj) as [->| ->].
  - destruct Hgone as [Hq|[]]; [by apply ok_quit0|done].
  - intros Hq. destruct Hgone as [?|[_ Hb]]; [congruence|].
    rewrite (joined_none writing), app_nil_r in ok_taken0 by done.
    rewrite (joined_none publishing), app_nil_r in ok_rows0 by done.
    rewrite Hb, app_nil_r in ok_queue0. by rewrite <-ok_queue0, ok_taken0, ok_rows0.
Qed.
End proofs.
