(* ===== verification/Capture.v ===== *)
(** The capture of interactions, [internal/server/log_handlers.go]: the writer that
    tees a response, the reader that tees a request, and the middleware that turns an
    exchange into a log entry; with the spend hook of [server.go].

    The pools of writers and buffers are not modelled: every capture starts from the
    state [acquireCaptureWriter] resets. A response body is written by the handler in
    chunks; what the connection makes of them does not change the capture. *)

From Stdlib Require Import Ascii.
From S2P Require Import Prelude GoBase GoFloat GoStrings Redaction Quota LogBroadcaster Pricing.

(** 1 MiB. *)
Definition maxCaptureBodyBytes : Z := 1048576.

(** [mime.ParseMediaType], the media type only. *)
Class MimeLib := { ParseMediaType : string → option string }.

Definition event_stream : string := "text/event-stream".

Section writer.
Context {mime : MimeLib}.

Definition isEventStream (contentType : string) : bool :=
  if decide (contentType = "") then false
  else match ParseMediaType contentType with
       | Some mediaType => bool_decide (mediaType = event_stream)
       | None => has_prefix contentType event_stream
       end.

(** ** The writer *)

Record captureWriter := mkCW {
  statusCode : Z;
  cw_capture : bool;
  body : string;
  cw_truncated : bool;
  cw_streaming : bool;
  sniffed : bool;
  contentType : string      (* the header of the wrapped writer *)
}.

Definition acquireCaptureWriter : captureWriter := mkCW 200 true "" false false false "".

Definition detectStreaming (w : captureWriter) : captureWriter :=
  if sniffed w then w
  else if isEventStream (contentType w)
  then mkCW (statusCode w) false (body w) (cw_truncated w) true true (contentType w)
  else mkCW (statusCode w) (cw_capture w) (body w) (cw_truncated w) (cw_streaming w) true (contentType w).

(** The wrapped writer gets the same status and the same bytes. *)
Definition WriteHeader (code : Z) (w : captureWriter) : captureWriter :=
  detectStreaming (mkCW code (cw_capture w) (body w) (cw_truncated w) (cw_streaming w) (sniffed w) (contentType w)).

(** [append(body, p[:take]...)] under the cap: the new body and whether it was cut.
    The reader and the writer share the rule but for the case of a full buffer. *)
Definition len (s : string) : Z := Z.of_nat (String.length s).

Definition Write (p : string) (w : captureWriter) : captureWriter :=
  let w := detectStreaming w in
  if cw_capture w && negb (cw_truncated w) then
    let remaining := (maxCaptureBodyBytes - len (body w))%Z in
    if decide (0 < remaining)%Z then
      if decide (remaining < len p)%Z
      then mkCW (statusCode w) true (body w +:+ str_take (Z.to_nat remaining) p) true (cw_streaming w) (sniffed w) (contentType w)
      else mkCW (statusCode w) true (body w +:+ p) false (cw_streaming w) (sniffed w) (contentType w)
    else mkCW (statusCode w) true (body w) true (cw_streaming w) (sniffed w) (contentType w)
  else w.

Definition bodyString (w : captureWriter) : string :=
  if negb (cw_capture w) || bool_decide (body w = "") then "" else body w.

(** What a handler does with its writer. *)
Inductive response_op :=
| SetContentType (value : string)
| DoWriteHeader (code : Z)
| DoWrite (p : string).

Definition response_step (w : captureWriter) (op : response_op) : captureWriter :=
  match op with
  | SetContentType value =>
      mkCW (statusCode w) (cw_capture w) (body w) (cw_truncated w) (cw_streaming w) (sniffed w) value
  | DoWriteHeader code => WriteHeader code w
  | DoWrite p => Write p w
  end.

(** ** The reader *)

Record reqBodyCaptureReader := mkReader { rd_buf : string; rd_truncated : bool }.

(** [p] is what one read of the wrapped body gave. *)
Definition Read (p : string) (t : reqBodyCaptureReader) : reqBodyCaptureReader :=
  if decide (p = "") then t
  else
    let room := (maxCaptureBodyBytes - len (rd_buf t))%Z in
    if decide (room ≤ 0)%Z then mkReader (rd_buf t) true
    else if decide (len p ≤ room)%Z then mkReader (rd_buf t +:+ p) (rd_truncated t)
    else mkReader (rd_buf t +:+ str_take (Z.to_nat room) p) true.

(** ** Privacy modes *)

Inductive LogBodyMode := LogBodyFull | LogBodySanitized | LogBodyNone.

Definition NormalizeLogBodyMode (s : string) : LogBodyMode :=
  if decide (s = "sanitized") then LogBodySanitized
  else if decide (s = "none") then LogBodyNone
  else LogBodyFull.

Definition applyLogBodyMode (mode : LogBodyMode) (body : string) : string :=
  match mode with
  | LogBodyNone => ""
  | LogBodySanitized => SanitizeBody body
  | LogBodyFull => body
  end.

(** ** The model of a body

    [json.Decoder.Token]: the tokens up to the end of the text or the first error. *)
Inductive token := Open (bracket : bool) | CloseDelim | TString (s : string) | TOther.

(** What follows the composite value that was just opened. *)
Fixpoint skipJSONValue (depth : nat) (toks : list token) : option (list token) :=
  match toks with
  | [] => None
  | Open _ :: toks => skipJSONValue (S depth) toks
  | CloseDelim :: toks => match depth with 0 | 1 => Some toks | S d => skipJSONValue d toks end
  | _ :: toks => skipJSONValue depth toks
  end.

(** The loop over the members; it makes a round per key, so the number of tokens is
    enough fuel. *)
Fixpoint probe_members (fuel : nat) (toks : list token) : string :=
  match fuel with
  | O => ""
  | S fuel =>
      match toks with
      | [] | CloseDelim :: _ => ""
      | key :: val :: toks =>
          match val with
          | Open _ => match skipJSONValue 1 toks with None => "" | Some toks => probe_members fuel toks end
          | _ =>
              match key with
              | TString "model" => match val with TString s => s | _ => "" end
              | _ => probe_members fuel toks
              end
          end
      | [_] => ""
      end
  end.

(** [true] is an opening brace. *)
Definition probeModel (toks : list token) : string :=
  match toks with
  | Open true :: toks => probe_members (length toks) toks
  | _ => ""
  end.

(** ** The middleware *)

Definition isLoggablePath (path : string) : bool :=
  bool_decide (path ∈ ["/v1/engines/process"; "/v1/moderations"]%string) || isLLMProviderPath path.

(** [engine.RequestMeta], as the handler left it. *)
Record RequestMeta := mkMeta {
  AgentName : string; meta_Model : string; Protocol : string; meta_SessionID : string;
  ScenarioName : string; ToolCallsCount : Z; meta_Error : string
}.

(** A request: [rq_reads] is what the handler reads of its body, one read at a time,
    [None] when there is no body. *)
Record request := mkRequest {
  rq_method : string; rq_path : string; rq_tenant : string; rq_id : string;
  rq_reads : option (list string)
}.

(** What the handler answers, and the metadata it leaves. *)
Record handled := mkHandled { h_ops : list response_op; h_meta : RequestMeta }.

Record captured := mkCaptured { c_entry : InteractionLog; c_body : string (* for the hook *) }.

Section middleware.
(** The tokens of a text, and the start of the request formatted. *)
Context (tokens : string → list token) (started : string) (latency : Z).

(** [enabled] tells whether there is a worker with a store. [None]: nothing is logged. *)
Definition InteractionCapture (enabled : bool) (mode : LogBodyMode) (r : request) (h : handled) : option captured :=
  if negb enabled then None
  else if negb (isLoggablePath (rq_path r)) then None
  else
    let cw := foldl response_step acquireCaptureWriter (h_ops h) in
    let reqCap := match mode with
                  | LogBodyNone => None
                  | _ => (λ reads, foldl (λ t p, Read p t) (mkReader "" false) reads) <$> rq_reads r
                  end in
    let reqBody := from_option (λ t, applyLogBodyMode mode (rd_buf t)) "" reqCap in
    let reqTruncated := from_option rd_truncated false reqCap in
    let respBody := bodyString cw in
    let agentName := if decide (AgentName (h_meta h) = "" ∧ respBody ≠ "") then probeModel (tokens (body cw))
                     else AgentName (h_meta h) in
    let storedBody := applyLogBodyMode mode respBody in
    let truncated := match mode with LogBodyNone => false | _ => reqTruncated || cw_truncated cw end in
    let session := if decide (meta_SessionID (h_meta h) ≠ "") then meta_SessionID (h_meta h)
                   else if decide (rq_id r ≠ "") then rq_id r else ""%string in
    Some (mkCaptured
      (mkInteractionLog 0 started (rq_tenant r) agentName session (Protocol (h_meta h)) (rq_method r) (rq_path r)
         reqBody (statusCode cw) storedBody latency (ToolCallsCount (h_meta h)) (cw_streaming cw)
         (meta_Error (h_meta h)) (ScenarioName (h_meta h)) truncated)
      respBody).
End middleware.
End writer.

(** The hook the server installs: what it adds to the tenant's spend, if anything. *)
Definition spendHook {low : GoLower} {json : JsonUsage} (prices : Table) (tenantID respBody : string) : option (string * float64) :=
  if decide (tenantID = "" ∨ respBody = "") then None
  else
    let usage := ExtractUsage respBody in
    let cost := Estimate (u_Model usage) (PromptTokens usage) (CompletionTokens usage) prices in
    if f64_lt f64_zero cost then Some (tenantID, cost) else None.

(** ** What is captured *)

Lemma cap_pos : (0 < maxCaptureBodyBytes)%Z.
Proof. done. Qed.

#[local] Opaque maxCaptureBodyBytes.

Definition capture_cap : nat := Z.to_nat maxCaptureBodyBytes.

Lemma str_take_app_ge n a b : String.length a ≤ n → str_take n (a +:+ b) = (a +:+ str_take (n - String.length a) b)%string.
Proof.
  unfold str_take. revert n. induction a as [|c a IH]; intros n Hn; simpl in *; [by rewrite Nat.sub_0_r|].
  destruct n as [|n]; [lia|]. exact (f_equal (String c) (IH n ltac:(lia))).
Qed.

Lemma str_take_app_le n a b : n ≤ String.length a → str_take n (a +:+ b) = str_take n a.
Proof.
  unfold str_take. revert n. induction a as [|c a IH]; intros [|n] Hn; simpl in *; try lia; try done; try (by destruct b).
  f_equal. apply IH. lia.
Qed.

Lemma str_take_all n s : String.length s ≤ n → str_take n s = s.
Proof.
  unfold str_take. revert n. induction s as [|c s IH]; intros [|n] Hn; simpl in *; try lia; try done.
  f_equal. apply IH. lia.
Qed.

Lemma str_take_length n s : String.length (str_take n s) = Nat.min n (String.length s).
Proof. unfold str_take. revert n. induction s as [|c s IH]; intros [|n]; simpl; try done. by rewrite IH. Qed.

(** A capture of the text [all]: its first bytes, marked as cut when something is missing. *)
Definition clipped (all buf : string) (cut : bool) : Prop :=
  buf = str_take capture_cap all ∧ (cut = false → String.length all ≤ capture_cap) ∧
  (cut = true → capture_cap ≤ String.length all).

(** The arithmetic both captures share: [buf] is not full, and takes what fits of [p]. *)
Lemma clip_fits all p : String.length all ≤ capture_cap → (len p ≤ maxCaptureBodyBytes - len all)%Z →
  clipped (all +:+ p) (all +:+ p) false.
Proof.
  pose proof cap_pos. unfold clipped, len, capture_cap. intros Ha Hp. rewrite str_length_app. split_and!; [|lia|done].
  rewrite str_take_all; [done|]. rewrite str_length_app. lia.
Qed.

Lemma clip_cut all p : String.length all ≤ capture_cap → (maxCaptureBodyBytes - len all ≤ len p)%Z →
  clipped (all +:+ p) (all +:+ str_take (Z.to_nat (maxCaptureBodyBytes - len all)) p) true.
Proof.
  pose proof cap_pos. unfold clipped, len, capture_cap. intros Ha Hp. rewrite str_length_app. split_and!; [|done|lia].
  rewrite str_take_app_ge by done. do 2 f_equal. lia.
Qed.

Lemma clip_more all buf p : clipped all buf true → clipped (all +:+ p) buf true.
Proof.
  intros (-> & _ & Hc). specialize (Hc eq_refl). split_and!; [by rewrite str_take_app_le|done|].
  intros _. rewrite str_length_app. lia.
Qed.

Lemma clip_short all buf : clipped all buf false → buf = all ∧ String.length all ≤ capture_cap.
Proof. intros (-> & H & _). specialize (H eq_refl). by rewrite str_take_all. Qed.

(** The reader keeps the first bytes of what it read. *)
Lemma reads_clipped reads all t : clipped all (rd_buf t) (rd_truncated t) →
  let t' := foldl (λ t p, Read p t) t reads in
  clipped (all +:+ String.concat "" reads) (rd_buf t') (rd_truncated t').
Proof.
  revert all t. induction reads as [|p reads IH]; intros all t Ht; cbn [foldl].
  { simpl. by rewrite str_app_nil_r. }
  assert (String.concat "" (p :: reads) = (p +:+ String.concat "" reads)%string) as ->.
  { simpl. destruct reads; [by rewrite str_app_nil_r|done]. }
  rewrite <-str_app_assoc. apply IH. unfold Read. destruct (decide (p = "")) as [->|Hp]; [by rewrite str_app_nil_r|].
  destruct (rd_truncated t) eqn:Hcut.
  - assert (maxCaptureBodyBytes - len (rd_buf t) ≤ 0)%Z as Hroom.
    { destruct Ht as (-> & _ & Hc). specialize (Hc eq_refl). pose proof cap_pos. unfold len, capture_cap in *.
      rewrite str_take_length. lia. }
    rewrite decide_True by done. by apply clip_more.
  - destruct (clip_short _ _ Ht) as [-> Hle]. assert (0 < len p)%Z by (unfold len; destruct p; [done|simpl; lia]).
    case_decide; [|case_decide]; simpl.
    + destruct (clip_cut all p Hle ltac:(lia)) as (Hb & Hc1 & Hc2). split_and!; [|done|done].
      rewrite <-Hb. replace (Z.to_nat (maxCaptureBodyBytes - len all)) with 0 by lia.
      unfold str_take. rewrite substring_0. by rewrite str_app_nil_r.
    + by apply clip_fits.
    + apply clip_cut; [done|lia].
Qed.

Section captured.
Context {mime : MimeLib}.

Definition written (ops : list response_op) : string :=
  foldr (λ op rest, match op with DoWrite p => (p +:+ rest)%string | _ => rest end) "" ops.

Definition last_status (code : Z) (ops : list response_op) : Z :=
  foldl (λ code op, match op with DoWriteHeader c => c | _ => code end) code ops.

(** The content type when the first header or chunk is written. *)
Fixpoint final_type (value : string) (ops : list response_op) : option string :=
  match ops with
  | [] => None
  | SetContentType value :: ops => final_type value ops
  | _ => Some value
  end.

Lemma detect_sniffed w : sniffed w = true → detectStreaming w = w.
Proof. unfold detectStreaming. by intros ->. Qed.

(** A stream is never buffered. *)
Lemma streaming_run ops w : sniffed w = true → cw_capture w = false →
  let w' := foldl response_step w ops in
  cw_capture w' = false ∧ cw_truncated w' = cw_truncated w ∧ cw_streaming w' = cw_streaming w ∧
  statusCode w' = last_status (statusCode w) ops.
Proof.
  revert w. induction ops as [|op ops IH]; intros w Hs Hc; cbn [foldl]; [done|].
  destruct op as [v|code|p]; cbn [response_step last_status foldl].
  - by apply (IH (mkCW (statusCode w) (cw_capture w) (body w) (cw_truncated w) (cw_streaming w) (sniffed w) v)).
  - unfold WriteHeader. rewrite detect_sniffed by done.
    by apply (IH (mkCW code (cw_capture w) (body w) (cw_truncated w) (cw_streaming w) (sniffed w) (contentType w))).
  - unfold Write. rewrite detect_sniffed, Hc by done. by apply IH.
Qed.

Lemma Write_clipped all p w : sniffed w = true → cw_capture w = true → clipped all (body w) (cw_truncated w) →
  let w' := Write p w in
  sniffed w' = true ∧ cw_capture w' = true ∧ cw_streaming w' = cw_streaming w ∧ statusCode w' = statusCode w ∧
  clipped (all +:+ p) (body w') (cw_truncated w').
Proof.
  intros Hs Hc Hb. unfold Write. rewrite detect_sniffed, Hc by done. destruct (cw_truncated w) eqn:Hcut; simpl.
  { rewrite Hcut. split_and!; [done..|]. by apply clip_more. }
  destruct (clip_short _ _ Hb) as [-> Hle]. case_decide; [case_decide|]; simpl; (split_and!; [done..|]).
  - apply clip_cut; [done|lia].
  - apply clip_fits; [done|lia].
  - assert (0 ≤ len p)%Z by (unfold len; lia).
    destruct (clip_cut all p Hle ltac:(lia)) as (Heq & Hc1 & Hc2). split_and!; [|done|done].
    rewrite <-Heq. replace (Z.to_nat (maxCaptureBodyBytes - len all)) with 0 by lia.
    unfold str_take. by rewrite substring_0, str_app_nil_r.
Qed.

Lemma buffered_run ops all w : sniffed w = true → cw_capture w = true → clipped all (body w) (cw_truncated w) →
  let w' := foldl response_step w ops in
  cw_capture w' = true ∧ cw_streaming w' = cw_streaming w ∧ statusCode w' = last_status (statusCode w) ops ∧
  clipped (all +:+ written ops) (body w') (cw_truncated w').
Proof.
  revert all w. induction ops as [|op ops IH]; intros all w Hs Hc Hb; cbn [foldl].
  { simpl. by rewrite str_app_nil_r. }
  destruct op as [v|code|p]; cbn [response_step last_status foldl].
  - by apply (IH all (mkCW (statusCode w) (cw_capture w) (body w) (cw_truncated w) (cw_streaming w) (sniffed w) v)).
  - unfold WriteHeader. rewrite detect_sniffed by done.
    by apply (IH all (mkCW code (cw_capture w) (body w) (cw_truncated w) (cw_streaming w) (sniffed w) (contentType w))).
  - destruct (Write_clipped all p w Hs Hc Hb) as (Hs' & Hc' & Hst & Hcode & Hb').
    destruct (IH _ _ Hs' Hc' Hb') as (-> & -> & -> & Hcl). rewrite Hst, Hcode. split_and!; [done..|].
    by rewrite str_app_assoc in Hcl.
Qed.

Lemma bodyString_body w : cw_capture w = true → bodyString w = body w.
Proof. unfold bodyString. intros ->. simpl. by case_bool_decide as H; [rewrite H|]. Qed.

Lemma empty_clipped : clipped "" "" false.
Proof. split_and!; [|simpl; lia|done]. unfold str_take. by destruct capture_cap. Qed.

Lemma Write_detect p w : Write p w = Write p (detectStreaming w).
Proof.
  unfold Write at 2. rewrite (detect_sniffed (detectStreaming w)); [done|]. unfold detectStreaming.
  destruct (sniffed w) eqn:Hs; [done|]. by destruct (isEventStream _).
Qed.

(** What the writer reports of a response. *)
Lemma writer_from code ct ops :
  let w := foldl response_step (mkCW code true "" false false false ct) ops in
  let stream := from_option isEventStream false (final_type ct ops) in
  cw_streaming w = stream ∧ statusCode w = last_status code ops ∧
  if stream then bodyString w = "" ∧ cw_truncated w = false
  else bodyString w = body w ∧ clipped (written ops) (bodyString w) (cw_truncated w).
Proof.
  revert ct. induction ops as [|op ops IH]; intros ct.
  { simpl. split_and!; [done..|apply empty_clipped]. }
  assert (∀ c op', op' :: ops = op :: ops → isEventStream ct = true →
    let w := foldl response_step (mkCW c false "" false true true ct) (op :: ops) in
    cw_streaming w = true ∧ statusCode w = last_status c (op :: ops) ∧ bodyString w = "" ∧ cw_truncated w = false) as Hstream.
  { intros c op' _ He. cbv zeta. destruct (streaming_run (op :: ops) (mkCW c false "" false true true ct)) as (Hc & Ht & -> & ->);
      [done..|]. unfold bodyString. by rewrite Hc. }
  assert (∀ c, isEventStream ct = false →
    let w := foldl response_step (mkCW c true "" false false true ct) (op :: ops) in
    cw_streaming w = false ∧ statusCode w = last_status c (op :: ops) ∧ bodyString w = body w ∧
    clipped (written (op :: ops)) (bodyString w) (cw_truncated w)) as Hbuffer.
  { intros c He. cbv zeta. destruct (buffered_run (op :: ops) "" (mkCW c true "" false false true ct)) as (Hc & -> & -> & Hcl);
      [done..|by apply empty_clipped|]. rewrite bodyString_body by done. by split_and!. }
  destruct op as [v|c|p]; cbn [final_type]; [by apply IH|..]; cbn [foldl response_step last_status from_option] in *.
  - unfold WriteHeader, detectStreaming in *. simpl in *.
    destruct (isEventStream ct) eqn:He; [by apply (Hstream c (DoWriteHeader c))|by apply (Hbuffer c)].
  - rewrite Write_detect. change (detectStreaming _) with
      (if isEventStream ct then mkCW code false "" false true true ct else mkCW code true "" false false true ct).
    destruct (isEventStream ct) eqn:He; [by apply (Hstream code (DoWrite p))|by apply (Hbuffer code)].
Qed.
(** What a logged interaction says. Exactly the requests to the provider endpoints, to the
    moderations and to the engine are logged, and only when there is a store. The entry has
    the path, the tenant and the status the handler wrote last. The response body is what
    the handler wrote, or its first mebibyte; an event stream is marked as one and never
    buffered; the request body is what the handler read of it, cut the same way. The
    stored bodies are these after the privacy mode, nothing at all in mode [none], and the
    entry is marked as truncated exactly when a stored body was cut. *)
Theorem capture_correct tokens started latency enabled mode r h :
  match InteractionCapture tokens started latency enabled mode r h with
  | None => enabled = false ∨ isLoggablePath (rq_path r) = false
  | Some c =>
      let e := c_entry c in
      let stream := from_option isEventStream false (final_type "" (h_ops h)) in
      enabled = true ∧ isLoggablePath (rq_path r) = true ∧
      il_RequestPath e = rq_path r ∧ il_TenantID e = rq_tenant r ∧ il_Streaming e = stream ∧
      il_ResponseStatus e = last_status 200 (h_ops h) ∧
      ∃ request request_cut response_cut,
        clipped (String.concat "" (default [] (rq_reads r))) request request_cut ∧
        (if stream then c_body c = "" ∧ response_cut = false
         else clipped (written (h_ops h)) (c_body c) response_cut) ∧
        il_ResponseBody e = applyLogBodyMode mode (c_body c) ∧
        il_RequestBody e = applyLogBodyMode mode request ∧
        il_Truncated e = match mode with LogBodyNone => false | _ => request_cut || response_cut end
  end.
Proof.
  unfold InteractionCapture. destruct enabled; [|by left]. destruct (isLoggablePath (rq_path r)) eqn:Hp; [|by right].
  cbn [negb]. cbv zeta. cbn [c_entry c_body il_RequestPath il_TenantID il_Streaming il_ResponseStatus il_ResponseBody
    il_RequestBody il_Truncated].
  pose proof (writer_from 200 "" (h_ops h)) as (Hst & Hcode & Hbody). fold acquireCaptureWriter in Hst, Hcode, Hbody.
  set (cw := foldl response_step acquireCaptureWriter (h_ops h)) in *.
  do 4 (split; [done|]). split; [done|]. split; [done|].
  pose proof (reads_clipped (default [] (rq_reads r)) "" (mkReader "" false) empty_clipped) as Hreq. cbv zeta in Hreq.
  set (rd := foldl _ _ (default [] (rq_reads r))) in *. exists (rd_buf rd), (rd_truncated rd), (cw_truncated cw).
  split; [exact Hreq|]. split.
  { destruct (from_option _ _ _); [done|by destruct Hbody]. }
  split; [done|]. subst rd. destruct mode, (rq_reads r); by split.
Qed.
End captured.
