(* ===== verification/LogHandlers.v ===== *)
(** The log API: the handlers of [internal/server/log_handlers.go] that list, show,
    delete and stream interaction logs, the cost report of [costs_handler.go], and the
    query parameters of [handlers.go]. The tables they read are [LogStore] and
    [Pricing]; [ok] tells whether the database answers. *)

From S2P Require Import Prelude GoBase GoStrings Authz Validation LogBroadcaster LogStore Pricing.

(** ** Query parameters *)

Definition maxListLimit : Z := 10000.
Definition maxListOffset : Z := 1000000.

Definition callerTenantID (p : option Principal) : string := match p with Some p => p_TenantID p | None => "" end.

(** Absent parameters are empty. *)
Record query := mkQuery { q_agent : string; q_session : string; q_since : string; q_until : string; q_limit : string; q_offset : string }.

Inductive payload :=
| ErrorMessage (msg : string)
| Rows (rows : list (InteractionLog * (Usage * float64)))
| Row (row : InteractionLog)
| DeletedCount (n : nat).

(** The status and the body of an answer. *)
Definition answer : Type := Z * payload.

(** [time.Parse(time.RFC3339, s)] fails with a message, or not. *)
Class TimeLib := { ParseRFC3339 : string → option string }.

(** The message of the 400 answer, or the value. *)
Definition parseBoundedInt (value param : string) (min max : Z) : string + Z :=
  match Atoi value with
  | None => inl ("invalid " +:+ param +:+ " parameter")%string
  | Some n =>
      if decide (n < min)%Z then inl ("invalid " +:+ param +:+ " parameter")%string
      else inr (if decide (0 < max ∧ max < n)%Z then max else n)
  end.

Definition parseTimestampParam {time : TimeLib} (value param : string) : string + string :=
  if decide (value = "") then inr ""%string
  else match ParseRFC3339 value with
       | Some err => inl (param +:+ " must be RFC3339: " +:+ err)%string
       | None => inr value
       end.

(** A guarded integer parameter: an absent one keeps [unset]. *)
Definition int_param (value param : string) (min max unset : Z) : string + Z :=
  if decide (value = "") then inr unset else parseBoundedInt value param min max.

Definition refuse {A} (r : string + A) (k : A → answer) : answer :=
  match r with inl msg => (400%Z, ErrorMessage msg) | inr x => k x end.

Definition not_enabled : answer := (503%Z, ErrorMessage "logging is not enabled").
Definition server_error : answer := (500%Z, ErrorMessage "internal error").

(** ** Rows with their cost *)

(** [LogWithCost]: the row, its usage and its cost. *)
Definition LogWithCost : Type := InteractionLog * (Usage * float64).

Section handlers.
Context {time : TimeLib} {low : GoLower} {json : JsonUsage}.

Definition annotate (row : InteractionLog) (table : option Table) : LogWithCost :=
  match table with
  | None => (row, (no_usage, f64_zero))
  | Some t =>
      let usage := ExtractUsage (il_ResponseBody row) in
      (row, (usage, Estimate (u_Model usage) (PromptTokens usage) (CompletionTokens usage) t))
  end.

(** The tenant condition of a caller. *)
Definition scoped (p : option Principal) (f : InteractionFilter) : InteractionFilter :=
  if decide (callerTenantID p = "") then f
  else mkFilter (callerTenantID p) true (f_AgentName f) (f_SessionID f) (f_Since f) (f_Until f) (f_Limit f) (f_Offset f).

(** [store] is [None] when logging is disabled. *)
Definition ListLogs (store : option SQLiteStore) (ok : bool) (prices : option Table) (p : option Principal) (q : query) : answer :=
  match store with
  | None => not_enabled
  | Some s =>
      refuse (parseTimestampParam (q_since q) "since") (λ since,
      refuse (parseTimestampParam (q_until q) "until") (λ until,
      refuse (int_param (q_limit q) "limit" 1 maxListLimit 0) (λ limit,
      refuse (int_param (q_offset q) "offset" 0 maxListOffset 0) (λ offset,
      let filter := scoped p (mkFilter "" false (q_agent q) (q_session q) since until limit offset) in
      if ok then (200%Z, Rows ((λ row, annotate row prices) <$> Query filter s)) else server_error))))
  end.

Definition not_found (id : Z) : answer := (404%Z, ErrorMessage ("log " +:+ pretty id +:+ " not found")).

(** [idStr] is the path value; [Atoi] is [strconv.ParseInt] on 64-bit integers. *)
Definition GetLog (store : option SQLiteStore) (ok : bool) (p : option Principal) (idStr : string) : answer :=
  match store with
  | None => not_enabled
  | Some s =>
      match Atoi idStr with
      | None => (400%Z, ErrorMessage "invalid log ID")
      | Some id =>
          if negb ok then server_error
          else match GetByID id s with
               | None => not_found id
               | Some log =>
                   if decide (callerTenantID p ≠ "" ∧ il_TenantID log ≠ callerTenantID p) then not_found id
                   else (200%Z, Row log)
               end
      end
  end.

Definition DeleteLogs (store : option SQLiteStore) (ok : bool) (p : option Principal) : option SQLiteStore * answer :=
  match store with
  | None => (None, not_enabled)
  | Some s =>
      if negb ok then (Some s, server_error)
      else let '(s, count) := if decide (callerTenantID p ≠ "") then DeleteForTenant (callerTenantID p) s else DeleteAll s in
           (Some s, (200%Z, DeletedCount count))
  end.

(** ** The live stream *)

Inductive stream_frame :=
| Dropped_ (count new : Z)
| Heartbeat
| LogFrame (row : LogWithCost).

Inductive wakeup := CtxDone | Tick | Entry (e : InteractionLog) | ChannelClosed.

(** One round of the loop: the drop counter it reads, and what the select takes. *)
Record round := mkRound { rd_dropped : Z; rd_wakeup : wakeup }.

(** [alive n] tells whether the write after [n] frames succeeds, [encodable] whether a
    row can be encoded. The answer is what was written. *)
Section stream.
Context (alive : nat → bool) (encodable : LogWithCost → bool) (prices : option Table) (p : option Principal).

Fixpoint StreamLogs (lastDropped : Z) (out : list stream_frame) (rounds : list round) : list stream_frame :=
  match rounds with
  | [] => out
  | r :: rounds =>
      let current := rd_dropped r in
      let select (lastDropped : Z) (out : list stream_frame) :=
        match rd_wakeup r with
        | CtxDone | ChannelClosed => out
        | Tick => if alive (length out) then StreamLogs lastDropped (out ++ [Heartbeat]) rounds else out
        | Entry e =>
            let row := annotate e prices in
            if decide (callerTenantID p ≠ "" ∧ il_TenantID e ≠ callerTenantID p) then StreamLogs lastDropped out rounds
            else if negb (encodable row) then StreamLogs lastDropped out rounds
            else if alive (length out) then StreamLogs lastDropped (out ++ [LogFrame row]) rounds else out
        end in
      if decide (lastDropped < current)%Z then
        if alive (length out) then select current (out ++ [Dropped_ current (current - lastDropped)]) else out
      else select lastDropped out
  end.
End stream.
End handlers.

(** ** Costs *)

Record CostGroup := mkGroup {
  cg_Key : string; cg_Requests : Z; cg_PromptTokens : Z; cg_CompletionTokens : Z; CostUSD : float64
}.

Record CostsResponse := mkCosts {
  w_Since : string; w_Until : string;
  total_Requests : Z; total_PromptTokens : Z; total_CompletionTokens : Z; total_CostUSD : float64;
  ByModel : list CostGroup; ByAgent : list CostGroup
}.

(** The costliest first, then by key. *)
Definition group_less (a b : CostGroup) : bool :=
  if f64_eq (CostUSD a) (CostUSD b) then str_ltb (cg_Key a) (cg_Key b) else f64_lt (CostUSD b) (CostUSD a).

Definition not_behind (a b : CostGroup) : Prop := group_less b a = false.

#[export] Instance not_behind_dec : RelDecision not_behind.
Proof. intros a b. unfold not_behind. apply _. Defined.

(** One row, as the two maps see it. *)
Record usage_row := mkUsageRow { ur_prompt : Z; ur_completion : Z; ur_cost : float64 }.

Definition add_to (key : string) (u : usage_row) (m : gmap string CostGroup) : gmap string CostGroup :=
  match m !! key with
  | Some g =>
      <[key := mkGroup (cg_Key g) (wrap64 (cg_Requests g + 1)) (wrap64 (cg_PromptTokens g + ur_prompt u))
                 (wrap64 (cg_CompletionTokens g + ur_completion u)) (f64_add (CostUSD g) (ur_cost u))]> m
  | None => <[key := mkGroup key 1 (ur_prompt u) (ur_completion u) (ur_cost u)]> m
  end.

Definition known (key : string) : string := if decide (key = "") then "(unknown)"%string else key.

(** The totals and the two maps of the loop. *)
Record tally := mkTally {
  t_requests : Z; t_prompt : Z; t_completion : Z; t_cost : float64;
  byModel : gmap string CostGroup; byAgent : gmap string CostGroup
}.

Definition empty_tally : tally := mkTally 0 0 0 f64_zero ∅ ∅.

Section costs.
Context {time : TimeLib} {low : GoLower} {json : JsonUsage} {mr : MapRange}.

Definition usage_of_row (prices : option Table) (row : InteractionLog) : string * usage_row :=
  let usage := ExtractUsage (il_ResponseBody row) in
  let cost := match prices with
              | None => f64_zero
              | Some t => Estimate (u_Model usage) (PromptTokens usage) (CompletionTokens usage) t
              end in
  (known (u_Model usage), mkUsageRow (PromptTokens usage) (CompletionTokens usage) cost).

(** The body of the loop. *)
Definition tally_row (prices : option Table) (acc : tally) (row : InteractionLog) : tally :=
  let '(mk, u) := usage_of_row prices row in
  mkTally (wrap64 (t_requests acc + 1)) (wrap64 (t_prompt acc + ur_prompt u)) (wrap64 (t_completion acc + ur_completion u))
    (f64_add (t_cost acc) (ur_cost u)) (add_to mk u (byModel acc)) (add_to (known (il_AgentName row)) u (byAgent acc)).

(** [sort.Slice] leaves no two neighbours out of order; when no cost is NaN and the keys
    differ there is only one such order. *)
Definition flattenGroups (m : gmap string CostGroup) : list CostGroup := merge_sort not_behind (range m).*2.

Definition aggregate (prices : option Table) (since until : string) (rows : list InteractionLog) : CostsResponse :=
  let acc := foldl (tally_row prices) empty_tally rows in
  mkCosts since until (t_requests acc) (t_prompt acc) (t_completion acc) (t_cost acc)
    (flattenGroups (byModel acc)) (flattenGroups (byAgent acc)).

(** A report, or the status and the message of a refusal. *)
Definition ListCosts (store : option SQLiteStore) (ok : bool) (prices : option Table) (p : option Principal) (q : query)
  : (Z * string) + CostsResponse :=
  match store with
  | None => inl (503%Z, "logging is not enabled"%string)
  | Some s =>
      match parseTimestampParam (q_since q) "since" with
      | inl msg => inl (400%Z, msg)
      | inr since =>
          match parseTimestampParam (q_until q) "until" with
          | inl msg => inl (400%Z, msg)
          | inr until =>
              match int_param (q_limit q) "limit" 1 maxListLimit 1000 with
              | inl msg => inl (400%Z, msg)
              | inr limit =>
                  let filter := scoped p (mkFilter "" false (q_agent q) "" since until limit 0) in
                  if ok then inr (aggregate prices since until (Query filter s))
                  else inl (500%Z, "internal error"%string)
              end
          end
      end
  end.

(** *** Groups partition the rows *)

(** What the group of a key should be: its rows, in the order they came. *)
Definition group_spec (key : string) (us : list usage_row) : option CostGroup :=
  match us with
  | [] => None
  | u :: us => Some (foldl (λ g u, mkGroup (cg_Key g) (wrap64 (cg_Requests g + 1)) (wrap64 (cg_PromptTokens g + ur_prompt u))
                              (wrap64 (cg_CompletionTokens g + ur_completion u)) (f64_add (CostUSD g) (ur_cost u)))
                       (mkGroup key 1 (ur_prompt u) (ur_completion u) (ur_cost u)) us)
  end.

Definition of_key (key : string) (rows : list (string * usage_row)) : list usage_row :=
  snd <$> filter (λ r, r.1 = key) rows.

Lemma group_spec_snoc key us u : group_spec key (us ++ [u]) =
  match group_spec key us with
  | Some g => Some (mkGroup (cg_Key g) (wrap64 (cg_Requests g + 1)) (wrap64 (cg_PromptTokens g + ur_prompt u))
                      (wrap64 (cg_CompletionTokens g + ur_completion u)) (f64_add (CostUSD g) (ur_cost u)))
  | None => Some (mkGroup key 1 (ur_prompt u) (ur_completion u) (ur_cost u))
  end.
Proof. destruct us as [|x us]; [done|]. simpl. by rewrite foldl_app. Qed.

Lemma of_key_snoc key rows r : of_key key (rows ++ [r]) = of_key key rows ++ (if decide (r.1 = key) then [r.2] else []).
Proof. unfold of_key. rewrite filter_app, fmap_app, filter_cons, filter_nil. by case_decide. Qed.

Definition add_row (m : gmap string CostGroup) (r : string * usage_row) : gmap string CostGroup := add_to r.1 r.2 m.

Lemma groups_lookup rows key : foldl add_row ∅ rows !! key = group_spec key (of_key key rows).
Proof.
  induction rows as [|[k u] rows IH] using rev_ind; [done|]. rewrite foldl_app, of_key_snoc. simpl.
  unfold add_row at 1. unfold add_to. simpl. case_decide as Hk.
  - subst k. rewrite IH, group_spec_snoc. destruct (group_spec key _); by rewrite lookup_insert_eq.
  - rewrite app_nil_r, <-IH. destruct (foldl add_row ∅ rows !! k); by rewrite lookup_insert_ne.
Qed.

(** Sums of integers that may wrap. *)
Definition sum64 (l : list Z) : Z := wrap64 (foldr Z.add 0%Z l).

Lemma sum_snoc l z : foldr Z.add 0%Z (l ++ [z]) = (foldr Z.add 0%Z l + z)%Z.
Proof. induction l as [|x l IH]; simpl; lia. Qed.

Lemma group_sums key us g : group_spec key us = Some g →
  cg_Key g = key ∧ cg_Requests g = wrap64 (Z.of_nat (length us)) ∧
  wrap64 (cg_PromptTokens g) = sum64 (ur_prompt <$> us) ∧
  wrap64 (cg_CompletionTokens g) = sum64 (ur_completion <$> us).
Proof.
  revert g. induction us as [|u us IH] using rev_ind; [done|]. intros g. rewrite group_spec_snoc.
  assert (∀ f : usage_row → Z, sum64 (f <$> us ++ [u]) = wrap64 (sum64 (f <$> us) + f u)) as Hsum.
  { intros f. unfold sum64. rewrite wrap64_add_l, fmap_app. change (f <$> [u]) with [f u]. by rewrite sum_snoc. }
  rewrite !Hsum, length_app. destruct (group_spec key us) as [g0|] eqn:Hg; intros [= <-]; simpl.
  - destruct (IH g0 eq_refl) as (Hk & Hr & Hp & Hc). split_and!; [done| | |].
    + rewrite Hr, wrap64_add_l. f_equal. lia.
    + rewrite <-Hp. by rewrite wrap64_add_l, (wrap64_id (wrap64 _)) by apply wrap64_in.
    + rewrite <-Hc. by rewrite wrap64_add_l, (wrap64_id (wrap64 _)) by apply wrap64_in.
  - destruct us; [|done]. by split_and!.
Qed.
(** The sum over the groups of a map. *)
Definition group_total (f : CostGroup → Z) (gs : list CostGroup) : Z := sum64 (f <$> gs).

#[export] Instance sum64_perm : Proper (Permutation ==> eq) sum64.
Proof. intros l1 l2 H. unfold sum64. f_equal. induction H; simpl; lia. Qed.

Lemma total_insert f (m : gmap string CostGroup) k g d :
  wrap64 (f g) = wrap64 (from_option f 0%Z (m !! k) + d) →
  group_total f (map_to_list (<[k := g]> m)).*2 = wrap64 (group_total f (map_to_list m).*2 + d).
Proof.
  intros Hg. rewrite <-insert_delete_eq. unfold group_total. assert (delete k m !! k = None) as Hn by apply lookup_delete_eq.
  pose proof (map_to_list_insert (delete k m) k g Hn) as ->.
  assert (sum64 (f <$> (map_to_list m).*2) = wrap64 (from_option f 0%Z (m !! k) + foldr Z.add 0%Z (f <$> (map_to_list (delete k m)).*2))) as ->.
  { destruct (m !! k) as [g0|] eqn:Hk; simpl.
    - rewrite <-(insert_delete_id m k g0 Hk) at 1. pose proof (map_to_list_insert (delete k m) k g0 Hn) as ->. done.
    - by rewrite delete_id. }
  rewrite wrap64_add_l. unfold sum64. simpl.
  rewrite <-wrap64_add_l, Hg, wrap64_add_l. unfold fmap. f_equal. lia.
Qed.

Lemma totals rows : let m := foldl add_row ∅ rows in let us := rows.*2 in
  group_total cg_Requests (map_to_list m).*2 = wrap64 (Z.of_nat (length rows)) ∧
  group_total cg_PromptTokens (map_to_list m).*2 = sum64 (ur_prompt <$> us) ∧
  group_total cg_CompletionTokens (map_to_list m).*2 = sum64 (ur_completion <$> us).
Proof.
  induction rows as [|[k u] rows IH] using rev_ind; [done|]. cbv zeta in *. rewrite foldl_app. simpl.
  set (m := foldl add_row ∅ rows) in *. destruct IH as (Hr & Hp & Hc).
  assert (∀ f : usage_row → Z, sum64 (f <$> (rows ++ [(k, u)]).*2) = wrap64 (sum64 (f <$> rows.*2) + f u)) as Hsum.
  { intros f. unfold sum64. rewrite wrap64_add_l, !fmap_app. change (f <$> [(k, u)].*2) with [f u]. by rewrite sum_snoc. }
  rewrite !Hsum, <-Hp, <-Hc. replace (wrap64 (Z.of_nat (length (rows ++ [(k, u)])))) with (wrap64 (wrap64 (Z.of_nat (length rows)) + 1))
    by (rewrite wrap64_add_l, length_app; simpl; f_equal; lia). rewrite <-Hr.
  unfold add_row, add_to. simpl. destruct (m !! k) as [g|] eqn:Hk; split_and!; apply total_insert; rewrite Hk; simpl;
    try done; by rewrite (wrap64_id (wrap64 _)) by apply wrap64_in.
Qed.

Lemma SFcompare_opp a b : SFcompare a b = option_map CompOpp (SFcompare b a).
Proof.
  destruct a as [[]|[]| |[] ma ea], b as [[]|[]| |[] mb eb]; try done; simpl.
  - rewrite (Z.compare_antisym eb ea). destruct (eb ?= ea)%Z; simpl; try done.
    rewrite (Pos.compare_cont_antisym mb ma). by destruct (Pos.compare_cont Eq mb ma).
  - rewrite (Z.compare_antisym eb ea). destruct (eb ?= ea)%Z; simpl; try done.
    rewrite (Pos.compare_cont_antisym mb ma). by destruct (Pos.compare_cont Eq mb ma).
Qed.

Lemma group_less_asym a b : group_less a b = true → group_less b a = false.
Proof.
  unfold group_less, f64_eq, f64_lt, SFeqb, SFltb. rewrite (SFcompare_opp (CostUSD b) (CostUSD a)).
  destruct (SFcompare (CostUSD a) (CostUSD b)) as [[]|]; simpl; try done.
  intros [Hle Hne]%str_ltb_spec. destruct (str_ltb (cg_Key b) (cg_Key a)) eqn:H; [|done].
  apply str_ltb_spec in H as [Hle' _]. exfalso. apply Hne. by apply (anti_symm String.le).
Qed.

#[export] Instance not_behind_total : base.Total not_behind.
Proof.
  intros a b. unfold not_behind. destruct (group_less b a) eqn:H; [right|by left]. by apply group_less_asym.
Qed.
Definition by_model (prices : option Table) (rows : list InteractionLog) : list (string * usage_row) :=
  usage_of_row prices <$> rows.

Definition by_agent (prices : option Table) (rows : list InteractionLog) : list (string * usage_row) :=
  (λ row, (known (il_AgentName row), (usage_of_row prices row).2)) <$> rows.

Lemma tally_fold prices rows :
  let acc := foldl (tally_row prices) empty_tally rows in
  let us := (by_model prices rows).*2 in
  t_requests acc = wrap64 (Z.of_nat (length rows)) ∧
  t_prompt acc = sum64 (ur_prompt <$> us) ∧ t_completion acc = sum64 (ur_completion <$> us) ∧
  t_cost acc = foldl f64_add f64_zero (ur_cost <$> us) ∧
  byModel acc = foldl add_row ∅ (by_model prices rows) ∧ byAgent acc = foldl add_row ∅ (by_agent prices rows).
Proof.
  induction rows as [|row rows IH] using rev_ind; [by split_and!|]. cbv zeta in *. unfold by_model, by_agent in *.
  rewrite !foldl_app, !fmap_app, !foldl_app. cbn [foldl].
  set (acc := foldl (tally_row prices) empty_tally rows) in *. unfold tally_row.
  change (usage_of_row prices <$> [row]) with [usage_of_row prices row].
  change ((λ row, (known (il_AgentName row), (usage_of_row prices row).2)) <$> [row])
    with [(known (il_AgentName row), (usage_of_row prices row).2)].
  destruct (usage_of_row prices row) as [mk u]. destruct IH as (Hr & Hp & Hc & Hcost & Hm & Ha).
  cbn [t_requests t_prompt t_completion t_cost byModel byAgent fst snd foldl]. rewrite Hr, Hp, Hc, Hcost, Hm, Ha.
  assert (∀ f : usage_row → Z, sum64 ((f <$> (usage_of_row prices <$> rows).*2) ++ (f <$> [(mk, u)].*2)) =
    wrap64 (sum64 (f <$> (usage_of_row prices <$> rows).*2) + f u)) as Hsum.
  { intros f. unfold sum64. rewrite wrap64_add_l. change (f <$> [(mk, u)].*2) with [f u]. by rewrite sum_snoc. }
  split_and!; [|by rewrite Hsum..|done|done|done].
  rewrite wrap64_add_l, length_app. simpl. f_equal. lia.
Qed.

(** The groups of a report. *)
Definition partitions (groups : list CostGroup) (rows : list (string * usage_row)) : Prop :=
  NoDup (cg_Key <$> groups) ∧
  (∀ g, g ∈ groups ↔ ∃ key, group_spec key (of_key key rows) = Some g) ∧
  Sorted not_behind groups ∧
  group_total cg_Requests groups = wrap64 (Z.of_nat (length rows)) ∧
  group_total cg_PromptTokens groups = sum64 (ur_prompt <$> rows.*2) ∧
  group_total cg_CompletionTokens groups = sum64 (ur_completion <$> rows.*2).

Lemma flatten_partitions rows : partitions (flattenGroups (foldl add_row ∅ rows)) rows.
Proof.
  set (m := foldl add_row ∅ rows).
  assert (flattenGroups m ≡ₚ (map_to_list m).*2) as Hperm.
  { unfold flattenGroups. rewrite merge_sort_Permutation. by rewrite range_perm. }
  assert (∀ k g, m !! k = Some g → cg_Key g = k) as Hkey.
  { intros k g Hg. unfold m in Hg. rewrite groups_lookup in Hg. by apply group_sums in Hg as [? _]. }
  assert (cg_Key <$> (map_to_list m).*2 = (map_to_list m).*1) as Hkeys.
  { rewrite <-list_fmap_compose. apply list_fmap_ext. intros i [k g] Hin. simpl. apply Hkey.
    by apply elem_of_map_to_list, (list_elem_of_lookup_2 _ i). }
  destruct (totals rows) as (Hr & Hp & Hc). fold m in Hr, Hp, Hc. unfold partitions. split_and!.
  - rewrite Hperm, Hkeys. apply NoDup_fst_map_to_list.
  - intros g. rewrite Hperm, list_elem_of_fmap. split.
    + intros ([k g'] & -> & Hin%elem_of_map_to_list). exists k. by rewrite <-groups_lookup.
    + intros [k Hg]. exists (k, g). split; [done|]. apply elem_of_map_to_list. unfold m. by rewrite groups_lookup.
  - apply Sorted_merge_sort, _.
  - rewrite <-Hr. unfold group_total. by rewrite Hperm.
  - rewrite <-Hp. unfold group_total. by rewrite Hperm.
  - rewrite <-Hc. unfold group_total. by rewrite Hperm.
Qed.

(** The cost report is a partition of the rows it scans. The totals are the number of the
    rows and the sums of their tokens and costs. By model and by agent there is one group
    for each name that occurs, which sums exactly the rows of that name; the groups come
    costliest first, and in each of the two lists their requests and their tokens add up
    to the totals, also when the integers wrap. *)
Theorem ListCosts_partition prices since until rows :
  let resp := aggregate prices since until rows in
  let us := (by_model prices rows).*2 in
  total_Requests resp = wrap64 (Z.of_nat (length rows)) ∧
  total_PromptTokens resp = sum64 (ur_prompt <$> us) ∧
  total_CompletionTokens resp = sum64 (ur_completion <$> us) ∧
  total_CostUSD resp = foldl f64_add f64_zero (ur_cost <$> us) ∧
  partitions (ByModel resp) (by_model prices rows) ∧ partitions (ByAgent resp) (by_agent prices rows) ∧
  (∀ gs, gs = ByModel resp ∨ gs = ByAgent resp →
     group_total cg_Requests gs = total_Requests resp ∧ group_total cg_PromptTokens gs = total_PromptTokens resp ∧
     group_total cg_CompletionTokens gs = total_CompletionTokens resp).
Proof.
  cbv zeta. destruct (tally_fold prices rows) as (Hr & Hp & Hc & Hcost & Hm & Ha). cbv zeta in *.
  unfold aggregate. cbn [total_Requests total_PromptTokens total_CompletionTokens total_CostUSD ByModel ByAgent].
  rewrite Hm, Ha, Hr, Hp, Hc, Hcost.
  pose proof (flatten_partitions (by_model prices rows)) as Pm. pose proof (flatten_partitions (by_agent prices rows)) as Pa.
  do 6 (split; [done|]). assert ((by_agent prices rows).*2 = (by_model prices rows).*2) as Heq.
  { unfold by_agent, by_model. rewrite <-!list_fmap_compose. by apply list_fmap_ext. }
  destruct Pm as (_ & _ & _ & Hr1 & Hp1 & Hc1), Pa as (_ & _ & _ & Hr2 & Hp2 & Hc2). rewrite Heq in *.
  unfold by_model, by_agent in Hr1, Hr2. rewrite length_fmap in Hr1, Hr2. by intros gs [-> | ->].
Qed.
End costs.

(** ** Tenants see their own rows *)

Section isolation.
Context {time : TimeLib} {low : GoLower} {json : JsonUsage} {mr : MapRange}.

Definition own (tenantID : string) (s : SQLiteStore) : list InteractionLog :=
  filter (λ r, il_TenantID r = tenantID) (rows s).

Lemma filter_own f s : FilterTenantID f = true →
  filter (λ r, matches f r = true) (rows s) = filter (λ r, matches f r = true) (own (f_TenantID f) s).
Proof.
  intros Hf. unfold own. rewrite list_filter_filter. apply list_filter_iff. intros r. split; [|by intros []].
  intros Hm. split; [done|]. unfold matches in Hm. rewrite Hf in Hm. simpl in Hm.
  rewrite !andb_true_iff, bool_decide_eq_true in Hm. apply Hm.
Qed.

Lemma Query_own f s s' : FilterTenantID f = true → own (f_TenantID f) s = own (f_TenantID f) s' → Query f s = Query f s'.
Proof. intros Hf Hown. unfold Query. by rewrite !filter_own, Hown by done. Qed.

Lemma Query_tenant f s : FilterTenantID f = true → Forall (λ r, il_TenantID r = f_TenantID f) (Query f s).
Proof.
  intros Hf. unfold Query. rewrite filter_own by done.
  assert (Forall (λ r, il_TenantID r = f_TenantID f) (reverse (filter (λ r, matches f r = true) (own (f_TenantID f) s)))) as H.
  { apply Forall_reverse, Forall_forall. intros r [_ Hr]%list_elem_of_filter. by apply list_elem_of_filter in Hr as [? _]. }
  apply Forall_take. by case_decide; [apply Forall_drop|].
Qed.

Lemma GetByID_elem s id r : store_ok s → GetByID id s = Some r ↔ r ∈ rows s ∧ il_ID r = id.
Proof.
  intros [Hs _]. unfold GetByID. induction (rows s) as [|x l IH]; simpl.
  { split; [done|]. by intros [?%not_elem_of_nil _]. }
  rewrite fmap_cons in Hs. apply StronglySorted_inv in Hs as [Hs Hx]. case_decide as Hd; simpl.
  - split; [intros [= <-]; split; [left|done]|]. intros [[->|Hin]%elem_of_cons Hid]; [done|]. exfalso.
    rewrite Forall_fmap, Forall_forall in Hx. specialize (Hx r Hin). simpl in Hx. lia.
  - assert (∀ o : option (nat * InteractionLog), snd <$> (prod_map S (λ y, y) <$> o) = snd <$> o) as Ho by by intros [[]|].
    rewrite (Ho (list_find _ _)), IH by done. split; intros [Hin Hid]; (split; [|done]); [by right|].
    by apply elem_of_cons in Hin as [->|].
Qed.

Lemma GetLog_own s s' ok p idStr : store_ok s → store_ok s' → callerTenantID p ≠ "" →
  own (callerTenantID p) s = own (callerTenantID p) s' → GetLog (Some s) ok p idStr = GetLog (Some s') ok p idStr.
Proof.
  intros Hs Hs' Ht Hown. unfold GetLog. destruct (Atoi idStr) as [id|]; [|done]. destruct ok; [|done]. simpl.
  assert (∀ s1 s2 r, store_ok s1 → store_ok s2 → own (callerTenantID p) s1 = own (callerTenantID p) s2 →
    GetByID id s1 = Some r → il_TenantID r = callerTenantID p → GetByID id s2 = Some r) as Hmove.
  { intros s1 s2 r H1 H2 Ho Hg Hr. apply GetByID_elem in Hg as [Hin Hid]; [|done]. apply GetByID_elem; [done|].
    assert (r ∈ own (callerTenantID p) s1) as Hr1 by by apply list_elem_of_filter.
    rewrite Ho in Hr1. by apply list_elem_of_filter in Hr1 as [_ ?]. }
  destruct (GetByID id s) as [r|] eqn:Hg, (GetByID id s') as [r'|] eqn:Hg'; try done.
  - destruct (decide (il_TenantID r = callerTenantID p)) as [Hr|Hr].
    + rewrite (Hmove s s' r) in Hg' by done. by injection Hg' as <-.
    + rewrite decide_True by done. destruct (decide (il_TenantID r' = callerTenantID p)) as [Hr'|Hr'].
      * rewrite (Hmove s' s r') in Hg by done. injection Hg as ->. done.
      * by rewrite decide_True.
  - case_decide as Hd; [done|]. exfalso. rewrite (Hmove s s' r) in Hg'; [done..|]. apply dec_stable. tauto.
  - case_decide as Hd; [done|]. exfalso. rewrite (Hmove s' s r') in Hg; [done..|]. apply dec_stable. tauto.
Qed.

Definition frame_of (tenantID : string) (fr : stream_frame) : Prop :=
  match fr with LogFrame row => il_TenantID row.1 = tenantID | _ => True end.

Lemma annotate_row row prices : (annotate row prices).1 = row.
Proof. by destruct prices. Qed.

Lemma StreamLogs_tenant alive encodable prices p last out rounds : callerTenantID p ≠ "" →
  Forall (frame_of (callerTenantID p)) out →
  Forall (frame_of (callerTenantID p)) (StreamLogs alive encodable prices p last out rounds).
Proof.
  intros Ht. revert last out. induction rounds as [|[d ev] rounds IH]; intros last out Hout; simpl; [done|].
  assert (∀ fr o, frame_of (callerTenantID p) fr → Forall (frame_of (callerTenantID p)) o →
    Forall (frame_of (callerTenantID p)) (o ++ [fr])) as Hsnoc by (intros; apply Forall_app; by repeat constructor).
  assert (∀ e, ¬ (callerTenantID p ≠ "" ∧ il_TenantID e ≠ callerTenantID p) →
    frame_of (callerTenantID p) (LogFrame (annotate e prices))) as Hframe.
  { intros e Hd. simpl. rewrite annotate_row. apply dec_stable. tauto. }
  assert (∀ a b o, Forall (frame_of (callerTenantID p)) o → Forall (frame_of (callerTenantID p)) (o ++ [Dropped_ a b])) as Hd
    by (intros; by apply Hsnoc).
  assert (∀ o, Forall (frame_of (callerTenantID p)) o → Forall (frame_of (callerTenantID p)) (o ++ [Heartbeat])) as Hb
    by (intros; by apply Hsnoc).
  repeat case_match; auto 6.
Qed.

(** Tenants do not see each other's interactions. For a caller with a tenant, the lists,
    single rows and cost reports are computed from the rows of that tenant alone: two
    stores that agree on them give the same answers, down to the row that exists but
    belongs to somebody else. Every listed row is the caller's, deleting removes all of
    the caller's rows and no others, and the live stream only sends the caller's. *)
Theorem logs_tenant_isolation s s' ok prices p q idStr : store_ok s → store_ok s' → callerTenantID p ≠ "" →
  own (callerTenantID p) s = own (callerTenantID p) s' →
  ListLogs (Some s) ok prices p q = ListLogs (Some s') ok prices p q ∧
  GetLog (Some s) ok p idStr = GetLog (Some s') ok p idStr ∧
  ListCosts (Some s) ok prices p q = ListCosts (Some s') ok prices p q ∧
  (∀ rows, ListLogs (Some s) ok prices p q = (200%Z, Rows rows) → Forall (λ row, il_TenantID row.1 = callerTenantID p) rows) ∧
  (let '(s1, answer) := DeleteLogs (Some s) true p in
     answer = (200%Z, DeletedCount (length (own (callerTenantID p) s))) ∧
     rows <$> s1 = Some (filter (λ r, il_TenantID r ≠ callerTenantID p) (rows s))) ∧
  (∀ alive encodable rounds, Forall (frame_of (callerTenantID p)) (StreamLogs alive encodable prices p 0 [] rounds)).
Proof.
  intros Hs Hs' Ht Hown.
  assert (∀ f, FilterTenantID (scoped p f) = true ∧ f_TenantID (scoped p f) = callerTenantID p) as Hscoped.
  { intros f. unfold scoped. by rewrite decide_False. }
  assert (∀ f, Query (scoped p f) s = Query (scoped p f) s') as HQ.
  { intros f. destruct (Hscoped f) as [H1 H2]. apply Query_own; [done|]. by rewrite H2. }
  split_and!.
  - unfold ListLogs, refuse. repeat case_match; try done. by rewrite HQ.
  - by apply GetLog_own.
  - unfold ListCosts. repeat case_match; try done. by rewrite HQ.
  - intros rws. unfold ListLogs, refuse. repeat case_match; try done. intros [= <-]. apply Forall_fmap.
    match goal with |- context [Query (scoped p ?f) s] => destruct (Hscoped f) as [Hf1 Hf2]; pose proof (Query_tenant _ s Hf1) as HF end.
    rewrite Hf2 in HF. eapply Forall_impl; [exact HF|]. intros r Hr. simpl. by rewrite annotate_row.
  - unfold DeleteLogs. simpl. by rewrite decide_True.
  - intros alive encodable rounds. by apply StreamLogs_tenant.
Qed.
End isolation.

(** The cost report scans at most a thousand rows, whatever limit the caller passes: the
    handler admits ten times that, but the query clamps it. *)
Lemma costs_scan_at_most_1000 {time : TimeLib} {low : GoLower} {json : JsonUsage} {mr : MapRange} s prices p q resp :
  ListCosts (Some s) true prices p q = inr resp → (0 ≤ total_Requests resp ≤ 1000)%Z.
Proof.
  intros H. assert (∃ since until f, resp = aggregate prices since until (Query f s)) as (since & until & f & ->).
  { unfold ListCosts in H. repeat case_match; try done. injection H as <-. eauto. }
  destruct (tally_fold prices (Query f s)) as (Hr & _). unfold aggregate. simpl. rewrite Hr.
  assert (length (Query f s) ≤ 1000) as Hl.
  { unfold Query. rewrite length_take. unfold page_limit, DefaultLimit, MaxLimit. repeat case_decide; lia. }
  rewrite wrap64_id; [lia|]. unfold in_int64, two63. lia.
Qed.

(** ** Two stores that agree on one tenant *)

#[local] Instance any_time : TimeLib := {| ParseRFC3339 _ := None |}.

#[local] Instance no_json : JsonUsage.
Proof. by refine {| RawMessages _ := None; DecodeProbe _ := None |}. Defined.

Lemma logs_tenant_isolation_witness :
  let low := ascii_go_lower in let mr := canonical_range in
  let p := Some (mkPrincipal "a" "key" RoleViewer) in
  let alone := foldl log_step empty_store [LLog (row_of "a" "1")] in
  let shared := foldl log_step empty_store [LLog (row_of "a" "1"); LLog (row_of "b" "2")] in
  let q := mkQuery "" "" "" "" "" "" in
  GetLog (Some shared) true p "2" = (404%Z, ErrorMessage "log 2 not found") ∧
  ListLogs (Some shared) true None p q = ListLogs (Some alone) true None p q ∧
  GetLog (Some shared) true p "2" = GetLog (Some alone) true p "2".
Proof.
  intros low mr p alone shared q.
  assert (∀ ops, store_ok (foldl log_step empty_store ops)) as Hok.
  { intros ops. pose proof (log_history ops empty_store [] 0 empty_store_ok ltac:(done) eq_refl eq_refl) as H. cbv zeta in H.
    destruct (foldl kept_step _ ops). apply H. }
  destruct (logs_tenant_isolation shared alone true None p q "2") as (H1 & H2 & _);
    [apply Hok..|done|by vm_compute|]. split; [by vm_compute|by split].
Defined.
