(* ===== verification/StreamCore.v ===== *)
(** What the streams of [internal/streaming] share: the chunker, the finish reasons,
    the event writer, the pacing with its faults and the loop over the content
    chunks, with the calculus [runs] of what a stream writes. *)

From S2P Require Import Prelude GoBase GoFloat GoStrings AgentTypes ToolProcessor ResponseGenerator.

(** [math/rand/v2]'s [*rand.Rand]. [Int64N] panics on a non-positive bound. *)
Class GoRandV2 := {
  rng2 : Type;
  Int64N : Z → rng2 → Z * rng2;
  NormFloat64_2 : rng2 → float64 * rng2;
  Int64N_range n g : (0 < n)%Z → (0 ≤ (Int64N n g).1 < n)%Z
}.

(** [math.Log], [math.Exp], and [json.Marshal] of a tool call's arguments (the empty
    string where it fails: the callers drop the error). *)
Class GoMath := { Log : float64 → float64; Exp : float64 → float64 }.
Class GoJson := MarshalArguments : list (string * value) → string.

(** ** Chunks *)

Definition DefaultChunkSize : Z := 4.
Definition DefaultChunkDelayMs : Z := 50.

Record Chunker := mkChunker { ChunkSize : Z }.

Definition NewChunker (chunkSize : Z) : Chunker :=
  mkChunker (if decide (chunkSize ≤ 0)%Z then DefaultChunkSize else chunkSize).

(** The loop of [Chunk] from word [i]; a step advances by a word at least, so
    the number of words is enough fuel. *)
Fixpoint chunk_loop (fuel size : nat) (words : list string) (i : nat) : list string :=
  match fuel with
  | O => []
  | S fuel =>
      if decide (i < length words) then
        let end_ := (i + size) `min` length words in
        let chunk := Join (take (end_ - i) (drop i words)) space in
        (if decide (end_ < length words) then chunk +:+ space else chunk)%string
          :: chunk_loop fuel size words (i + size)
      else []
  end.

Definition Chunk (c : Chunker) (content : string) : list string :=
  if decide (content = "") then []
  else
    let words := Fields content in
    if decide (words = []) then [content]
    else chunk_loop (length words) (Z.to_nat (ChunkSize c)) words 0.

Definition tokenLen (chunk : string) : Z :=
  let n := Z.of_nat (length (Fields chunk)) in if decide (0 < n)%Z then n else 1%Z.

(** [chunkString], from byte [i]. *)
Fixpoint split_loop (fuel size : nat) (s : string) (i : nat) : list string :=
  match fuel with
  | O => []
  | S fuel =>
      if decide (i < String.length s) then
        let end_ := (i + size) `min` String.length s in
        String.substring i (end_ - i) s :: split_loop fuel size s (i + size)
      else []
  end.

Definition chunkString (s : string) (size : Z) : list string :=
  if decide (size ≤ 0)%Z then [s]
  else if decide (String.length s = 0) then [s]
  else split_loop (String.length s) (Z.to_nat size) s 0.

(** ** Finish reasons *)

Definition AnthropicStopReason (finishReason : string) : string :=
  if decide (finishReason = "length") then "max_tokens"
  else if decide (finishReason = "tool_calls") then "tool_use"
  else if decide (finishReason = "content_filter") then "refusal"
  else if decide (finishReason = "stop" ∨ finishReason = "") then "end_turn"
  else finishReason.

(** [toUpper] is [strings.ToUpper]. *)
Definition GeminiFinishReason (toUpper : string → string) (finishReason : string) : string :=
  if decide (finishReason = "length") then "MAX_TOKENS"
  else if decide (finishReason = "content_filter") then "SAFETY"
  else if decide (finishReason = "stop" ∨ finishReason = "tool_calls" ∨ finishReason = "") then "STOP"
  else toUpper finishReason.

(** ** Events *)

(** A server-sent event: a marshalled value, a named event or a raw line. *)
Inductive frame (P : Type) := Data (v : P) | Event (name : string) (v : P) | RawData (raw : string).
Arguments Data {P} v.
Arguments Event {P} name v.
Arguments RawData {P} raw.

(** What the stream does, in order. *)
Inductive event (P : Type) := Sleep (d : Z) | Write (f : frame P).
Arguments Sleep {P} d.
Arguments Write {P} f.

(** The failure of each fallible effect, by its position: a cancelled context at
    a check or during a sleep, or a failed write. *)
Class Faults (E : Type) := faults : nat → option E.

Declare Scope stream_scope.

Section stream.
Context {P : Type} {rand : GoRandV2} {conv : GoConv} {gmath : GoMath} {E : Type} {fl : Faults E}.

#[warnings="-register-all"]
Inductive StreamError := ErrNotFlusher | ErrEffect (e : E) | Panic.

(** ** Pacing *)

Record streamPacer := mkPacer {
  ttft : Z;
  chunkDelay : Z;
  perToken : Z;
  jitter : Z;
  truncateAfter : Z;
  malformed : bool;
  ttftP50 : Z; ttftP95 : Z;
  itlP50 : Z; itlP95 : Z
}.

(** The state of a stream: how many effects it had, what it did, and its two
    sources of randomness. *)
Record stream_st := mkStreamSt {
  effects : nat;
  events : list (event P);
  rng : rng2;
  distRng : rng2
}.

Definition M (A : Type) := stream_st → stream_st * (StreamError + A).

Definition ret {A} (a : A) : M A := λ st, (st, inr a).
Definition fail {A} (e : StreamError) : M A := λ st, (st, inl e).
Definition bind {A B} (m : M A) (k : A → M B) : M B := λ st,
  match m st with
  | (st, inl e) => (st, inl e)
  | (st, inr a) => k a st
  end.

Notation "x <- m ; k" := (bind m (λ x, k)) (at level 100, m at next level, right associativity).
Notation "m ;; k" := (bind m (λ _, k)) (at level 100, right associativity).

(** One fallible effect; it does [evs] when it succeeds. *)
Definition effect (evs : list (event P)) : M unit := λ st,
  let n := S (effects st) in
  match faults (effects st) with
  | Some e => (mkStreamSt n (events st) (rng st) (distRng st), inl (ErrEffect e))
  | None => (mkStreamSt n (events st ++ evs) (rng st) (distRng st), inr tt)
  end.

Definition ctxErr : M unit := effect [].

(** [sleepCtx]: a duration that is not positive only looks at the context. *)
Definition sleepCtx (d : Z) : M unit := effect (if decide (d ≤ 0)%Z then [] else [Sleep d]).

(** [time.Sleep], which nothing interrupts. *)
Definition timeSleep (d : Z) : M unit := λ st,
  (mkStreamSt (effects st) (events st ++ [Sleep d]) (rng st) (distRng st), inr tt).

Definition WriteData (v : P) : M unit := effect [Write (Data v)].
Definition WriteEvent (eventType : string) (v : P) : M unit := effect [Write (Event eventType v)].
Definition WriteRaw (raw : string) : M unit := effect [Write (RawData raw)].

Definition duration_ms (n : Z) : Z := wrap64 (n * Millisecond).

Definition newPacer (cfg : option StreamingConfig) : streamPacer :=
  match cfg with
  | None => mkPacer 0 (duration_ms DefaultChunkDelayMs) 0 0 0 false 0 0 0 0
  | Some cfg =>
      mkPacer (duration_ms (st_TTFTMs cfg))
        (duration_ms (if decide (0 ≤ st_ChunkDelayMs cfg)%Z then st_ChunkDelayMs cfg else DefaultChunkDelayMs))
        (if f64_lt f64_zero (st_TokensPerSec cfg)
         then f64_to_int (f64_div (f64_of_Z Second) (st_TokensPerSec cfg)) else 0)
        (duration_ms (st_JitterMs cfg))
        (st_TruncateAfterChunks cfg) (st_Malformed cfg)
        (duration_ms (st_TTFTP50Ms cfg)) (duration_ms (st_TTFTP95Ms cfg))
        (duration_ms (st_ITLP50Ms cfg)) (duration_ms (st_ITLP95Ms cfg))
  end.

Definition maxStreamSampleMs : Z := 60000.

(** The double nearest to 1.6448536269514722. *)
Definition z95 : float64 := S754_finite false 7407762181417659 (-52).

Definition sampleLognormal (p50 p95 : Z) : M Z := λ st,
  if decide (p50 ≤ 0)%Z then (st, inr 0%Z)
  else if decide (p95 ≤ p50)%Z then (st, inr p50)
  else
    let mu := Log (f64_of_Z p50) in
    let sigma := f64_div (f64_sub (Log (f64_of_Z p95)) mu) z95 in
    let '(norm, g) := NormFloat64_2 (distRng st) in
    let v := Exp (f64_add mu (f64_mul sigma norm)) in
    let maxV := f64_mul (f64_of_Z maxStreamSampleMs) (f64_of_Z Millisecond) in
    let v := if f64_is_nan v || f64_lt v f64_zero then f64_zero
             else if f64_lt maxV v then maxV else v in
    (mkStreamSt (effects st) (events st) (rng st) g, inr (f64_to_int v)).

Definition firstByte (p : streamPacer) : M unit :=
  if decide (0 < ttftP50 p)%Z
  then d <- sampleLognormal (ttftP50 p) (ttftP95 p); sleepCtx d
  else sleepCtx (ttft p).

Definition delayFor (p : streamPacer) (chunkLen : Z) : M Z :=
  if decide (0 < itlP50 p)%Z
  then d <- sampleLognormal (itlP50 p) (itlP95 p); ret (wrap64 (chunkLen * d))
  else
    let d := if decide (0 < perToken p)%Z then wrap64 (chunkLen * perToken p) else chunkDelay p in
    if decide (0 < jitter p)%Z then λ st,
      let bound := wrap64 (2 * jitter p + 1) in
      if decide (bound ≤ 0)%Z then (st, inl Panic)
      else
        let '(n, g) := Int64N bound (rng st) in
        let d := wrap64 (d + wrap64 (n - jitter p)) in
        (mkStreamSt (effects st) (events st) g (distRng st), inr (if decide (d < 0)%Z then 0%Z else d))
    else ret d.

Definition beforeChunk (p : streamPacer) (i chunkLen : Z) : M bool :=
  if decide (0 < truncateAfter p ∧ truncateAfter p ≤ i)%Z then ret true
  else d <- delayFor p chunkLen; sleepCtx d;; ret false.

(** A double quote. *)
Definition quote : string := byte 34.

(** [{"mockagents_fault":"malformed",], without its closing brace. *)
Definition malformed_frame : string :=
  ("{" +:+ quote +:+ "mockagents_fault" +:+ quote +:+ ":" +:+ quote +:+ "malformed" +:+ quote +:+ ",")%string.

(** [writeStop]: the error of the write is dropped. *)
Definition writeStop (p : streamPacer) : M unit := λ st,
  if malformed p then ((WriteRaw malformed_frame st).1, inr tt) else (st, inr tt).

(** The loop over the content chunks that the three streams share; it answers
    whether the stream was cut short. *)
Fixpoint stream_contents (write : string → M unit) (p : streamPacer) (i : nat)
    (chunks : list string) : M bool :=
  match chunks with
  | [] => ret false
  | chunk :: chunks =>
      ctxErr;;
      truncate <- beforeChunk p (Z.of_nat i) (tokenLen chunk);
      if (truncate : bool) then writeStop p;; ret true
      else write chunk;; stream_contents write p (S i) chunks
  end.

Definition stream_chunk_size (cfg : option StreamingConfig) : Z :=
  match cfg with
  | Some cfg => if decide (0 < st_ChunkSize cfg)%Z then st_ChunkSize cfg else DefaultChunkSize
  | None => DefaultChunkSize
  end.

Definition stream_delay (cfg : option StreamingConfig) : Z :=
  match cfg with
  | Some cfg => if decide (0 ≤ st_ChunkDelayMs cfg)%Z then st_ChunkDelayMs cfg else DefaultChunkDelayMs
  | None => DefaultChunkDelayMs
  end.

(** ** What a stream writes *)

Definition frames_of (evs : list (event P)) : list (frame P) :=
  omap (λ ev, match ev with Write f => Some f | Sleep _ => None end) evs.

Definition written (st : stream_st) : list (frame P) := frames_of (events st).

(** A stream of [n] chunks is cut at chunk [truncateAfter]. *)
Definition cut_at (p : streamPacer) (n : Z) : Prop :=
  (0 < truncateAfter p ∧ truncateAfter p < n)%Z.

#[global] Instance cut_at_dec p n : Decision (cut_at p n).
Proof. unfold cut_at. apply _. Defined.

Definition undisturbed : Prop := ∀ n, faults n = None.

(** [m] writes a prefix of [fs] and answers [v] if it succeeds, having written all
    of [fs] unless it is [lossy]; undisturbed, it succeeds and writes all of [fs]. *)
Definition runs {A} (m : M A) (fs : list (frame P)) (v : A) (lossy : bool) : Prop := ∀ st,
  ∃ st' res dn, m st = (st', res) ∧ written st' = written st ++ dn ∧ dn `prefix_of` fs ∧
    (∀ a, res = inr a → a = v ∧ (lossy = true ∨ dn = fs)) ∧
    (undisturbed → res = inr v ∧ dn = fs).

(** [m] writes nothing, and succeeds undisturbed. *)
Definition quiet {A} (m : M A) : Prop := ∀ st,
  ∃ st' res, m st = (st', res) ∧ written st' = written st ∧ (undisturbed → ∃ a, res = inr a).

Lemma runs_ret {A} (a : A) : runs (ret a) [] a false.
Proof.
  intros st. exists st, (inr a), []. rewrite app_nil_r. split_and!; [done|done|apply prefix_nil| |done].
  intros b [= ->]. split; [done|by right].
Qed.

Lemma runs_effect evs : runs (effect evs) (frames_of evs) tt false.
Proof.
  intros st. unfold effect. destruct (faults (effects st)) as [e|] eqn:Hf.
  - eexists _, _, []. split; [done|]. unfold written. simpl. rewrite app_nil_r.
    split_and!; [done|apply prefix_nil|done|]. intros Hu. by rewrite Hu in Hf.
  - eexists _, _, (frames_of evs). split; [done|]. unfold written, frames_of. simpl.
    rewrite omap_app. split_and!; [done|done| |done]. intros [] _. split; [done|by right].
Qed.

Lemma runs_bind {A B} (m : M A) (k : A → M B) fs gs v w l :
  runs m fs v false → runs (k v) gs w l → runs (bind m k) (fs ++ gs) w l.
Proof.
  intros Hm Hk st. destruct (Hm st) as (st1 & res & dn & H1 & Hw & Hp & Hok & Hu).
  unfold bind. rewrite H1. destruct res as [e|a].
  - exists st1, (inl e), dn. split_and!; [done|done|by apply prefix_app_r|done|].
    intros Hd. by destruct (Hu Hd).
  - destruct (Hok a eq_refl) as [-> [?|Hdn]]; [done|subst dn].
    destruct (Hk st1) as (st2 & res2 & dn2 & H2 & Hw2 & Hp2 & Hok2 & Hu2).
    exists st2, res2, (fs ++ dn2). rewrite H2, Hw2, Hw, app_assoc.
    split_and!; [done|done|by apply prefix_app| |].
    + intros b Hb. destruct (Hok2 b Hb) as [? [?|Hd2]]; (split; [done|]); [by left|right; by rewrite Hd2].
    + intros Hd. destruct (Hu2 Hd) as [? Hd2]. by rewrite Hd2.
Qed.

(** After a part that may have lost its frame, nothing more is written. *)
Lemma runs_bind_end {A B} (m : M A) (k : A → M B) fs v w l :
  runs m fs v l → k v = ret w → runs (bind m k) fs w l.
Proof.
  intros Hm Hk st. destruct (Hm st) as (st1 & res & dn & H1 & Hw & Hp & Hok & Hu).
  unfold bind. rewrite H1. destruct res as [e|a].
  - exists st1, (inl e), dn. split_and!; [done|done|done|done|]. intros Hd. by destruct (Hu Hd).
  - destruct (Hok a eq_refl) as [-> Hl]. rewrite Hk. exists st1, (inr w), dn.
    split_and!; [done|done|done| |].
    + intros b [= ->]. done.
    + intros Hd. split; [done|]. by destruct (Hu Hd).
Qed.

Lemma runs_quiet {A B} (m : M A) (k : A → M B) fs w l :
  quiet m → (∀ a, runs (k a) fs w l) → runs (bind m k) fs w l.
Proof.
  intros Hm Hk st. destruct (Hm st) as (st1 & res & H1 & Hw & Hu). unfold bind. rewrite H1.
  destruct res as [e|a].
  - exists st1, (inl e), []. rewrite app_nil_r. split_and!; [done|done|apply prefix_nil|done|].
    intros Hd. destruct (Hu Hd) as [? ?]. done.
  - destruct (Hk a st1) as (st2 & res2 & dn & H2 & Hw2 & ?). exists st2, res2, dn.
    rewrite H2, Hw2, Hw. done.
Qed.

Lemma runs_weaken {A} (m : M A) fs v : runs m fs v false → runs m fs v true.
Proof.
  intros Hm st. destruct (Hm st) as (st1 & res & dn & H1 & Hw & Hp & Hok & Hu).
  exists st1, res, dn. split_and!; [done..| |done]. intros a Ha.
  destruct (Hok a Ha) as [? _]. split; [done|by left].
Qed.

Lemma runs_ctxErr : runs ctxErr [] tt false.
Proof. apply (runs_effect []). Qed.

Lemma runs_data v : runs (WriteData v) [Data v] tt false.
Proof. apply (runs_effect [Write (Data v)]). Qed.

Lemma runs_event name v : runs (WriteEvent name v) [Event name v] tt false.
Proof. apply (runs_effect [Write (Event name v)]). Qed.

Lemma runs_raw raw : runs (WriteRaw raw) [RawData raw] tt false.
Proof. apply (runs_effect [Write (RawData raw)]). Qed.

Lemma runs_sleep d : runs (sleepCtx d) [] tt false.
Proof. unfold sleepCtx. case_decide; apply runs_effect. Qed.

Lemma runs_timeSleep d : runs (timeSleep d) [] tt false.
Proof.
  intros st. eexists _, _, []. split; [done|]. unfold written, frames_of. simpl.
  rewrite omap_app. split_and!; [done|done| |done]. intros [] _. split; [done|by right].
Qed.

Lemma quiet_bind_ret {A B} (m : M A) (f : A → B) : quiet m → quiet (bind m (λ a, ret (f a))).
Proof.
  intros Hm st. destruct (Hm st) as (st1 & res & H1 & Hw & Hu). unfold bind. rewrite H1.
  destruct res as [e|a]; [exists st1, (inl e)|exists st1, (inr (f a))]; (split_and!; [done|done|]).
  - intros Hd. by destruct (Hu Hd).
  - intros _. by eexists.
Qed.

Lemma quiet_sample p50 p95 : quiet (sampleLognormal p50 p95).
Proof.
  intros st. unfold sampleLognormal. case_decide; [by eauto 10|]. case_decide; [by eauto 10|].
  destruct (NormFloat64_2 (distRng st)) as [norm g]. eexists _, _. split_and!; [done|done|eauto].
Qed.

(** The jitter draw does not overflow. *)
Definition jitter_ok (p : streamPacer) : Prop :=
  (0 < jitter p)%Z → (0 < wrap64 (2 * jitter p + 1))%Z.

Lemma quiet_delay p n : jitter_ok p → quiet (delayFor p n).
Proof.
  intros Hj. unfold delayFor. case_decide; [apply quiet_bind_ret, quiet_sample|].
  case_decide as Hpos; [|intros st; by eauto 10]. intros st.
  rewrite decide_False by (specialize (Hj Hpos); lia).
  destruct (Int64N _ (rng st)) as [z g]. eexists _, _. split_and!; [done|done|eauto].
Qed.

Lemma runs_first p : runs (firstByte p) [] tt false.
Proof.
  unfold firstByte. case_decide; [|apply runs_sleep].
  apply runs_quiet; [apply quiet_sample|]. intros d. apply runs_sleep.
Qed.

Lemma runs_before p i n : jitter_ok p →
  runs (beforeChunk p i n) [] (bool_decide (0 < truncateAfter p ∧ truncateAfter p ≤ i)%Z) false.
Proof.
  intros Hj. unfold beforeChunk. case_decide as Hd.
  - rewrite bool_decide_true by done. apply runs_ret.
  - rewrite bool_decide_false by done. apply runs_quiet; [by apply quiet_delay|]. intros d.
    apply (runs_bind _ _ [] []  tt); [apply runs_sleep|apply runs_ret].
Qed.

Lemma runs_stop p :
  runs (writeStop p) (if malformed p then [RawData malformed_frame] else []) tt (malformed p).
Proof.
  intros st. unfold writeStop. destruct (malformed p).
  - destruct (runs_effect [Write (RawData malformed_frame)] st) as (st1 & res & dn & H1 & Hw & Hp & _ & Hu).
    unfold WriteRaw. rewrite H1. exists st1, (inr tt), dn. split_and!; [done|done|done| |].
    + intros [] _. split; [done|by left].
    + intros Hd. split; [done|]. by destruct (Hu Hd).
  - exists st, (inr tt), []. rewrite app_nil_r. split_and!; [done|done|done| |done].
    intros [] _. split; [done|by right].
Qed.

Abbreviation bad p := (if malformed p then [RawData malformed_frame] else []).

(** The frames of the content chunks, cut short or complete. *)
Definition content_frames (fr : string → frame P) (p : streamPacer) (chunks : list string)
  : list (frame P) :=
  if decide (cut_at p (Z.of_nat (length chunks)))
  then (fr <$> take (Z.to_nat (truncateAfter p)) chunks) ++ bad p
  else fr <$> chunks.

Lemma runs_contents_from (write : string → M unit) (fr : string → frame P) p i chunks :
  (∀ c, runs (write c) [fr c] tt false) → jitter_ok p →
  ((0 < truncateAfter p)%Z → Z.of_nat i ≤ truncateAfter p)%Z →
  let n := Z.of_nat (i + length chunks) in
  runs (stream_contents write p i chunks)
    (if decide (cut_at p n)
     then (fr <$> take (Z.to_nat (truncateAfter p) - i) chunks) ++ bad p
     else fr <$> chunks)
    (bool_decide (cut_at p n)) (bool_decide (cut_at p n) && malformed p).
Proof.
  intros Hwr Hj. cbv zeta. revert i. induction chunks as [|c chunks IH]; intros i Hi.
  { cbn [stream_contents length]. unfold cut_at. rewrite decide_False, bool_decide_false by lia.
    apply runs_ret. }
  cbn [stream_contents length].
  apply (runs_bind _ _ [] _ tt); [apply runs_ctxErr|].
  apply (runs_bind _ _ [] _ (bool_decide (0 < truncateAfter p ∧ truncateAfter p ≤ Z.of_nat i)%Z));
    [by apply runs_before|].
  destruct (decide (0 < truncateAfter p ∧ truncateAfter p ≤ Z.of_nat i)%Z) as [Hd|Hd].
  - rewrite (bool_decide_true (0 < _ ∧ _)%Z) by done.
    unfold cut_at. rewrite decide_True, bool_decide_true by lia.
    replace (Z.to_nat (truncateAfter p) - i) with 0 by lia. rewrite take_0.
    apply (runs_bind_end _ _ _ tt); [apply runs_stop|done].
  - rewrite (bool_decide_false (0 < truncateAfter p ∧ truncateAfter p ≤ Z.of_nat i)%Z) by done.
    specialize (IH (S i)). replace (S i + length chunks) with (i + S (length chunks)) in IH by lia.
    assert ((if decide (cut_at p (Z.of_nat (i + S (length chunks))))
      then (fr <$> take (Z.to_nat (truncateAfter p) - i) (c :: chunks)) ++ bad p
      else fr <$> c :: chunks) =
      [fr c] ++ (if decide (cut_at p (Z.of_nat (i + S (length chunks))))
      then (fr <$> take (Z.to_nat (truncateAfter p) - S i) chunks) ++ bad p
      else fr <$> chunks)) as ->.
    { case_decide as Hc; [|done]. unfold cut_at in Hc.
      replace (Z.to_nat (truncateAfter p) - i) with (S (Z.to_nat (truncateAfter p) - S i)) by lia. done. }
    apply (runs_bind _ _ _ _ tt); [apply Hwr|]. apply IH. lia.
Qed.

Lemma runs_contents (write : string → M unit) (fr : string → frame P) p chunks :
  (∀ c, runs (write c) [fr c] tt false) → jitter_ok p →
  let cut := bool_decide (cut_at p (Z.of_nat (length chunks))) in
  runs (stream_contents write p 0 chunks) (content_frames fr p chunks) cut (cut && malformed p).
Proof.
  intros Hwr Hj. pose proof (runs_contents_from write fr p 0 chunks Hwr Hj ltac:(lia)) as H.
  simpl in H. rewrite Nat.sub_0_r in H. exact H.
Qed.

(** What follows the text of a stream that was not cut short. *)
Lemma runs_text_then (write : string → M unit) (fr : string → frame P) p chunks (rest : M unit) fs :
  (∀ c, runs (write c) [fr c] tt false) → jitter_ok p → runs rest fs tt (malformed p) →
  runs (bind (stream_contents write p 0 chunks) (λ cut, if (cut : bool) then ret tt else rest))
    (content_frames fr p chunks ++ if decide (cut_at p (Z.of_nat (length chunks))) then [] else fs)
    tt (malformed p).
Proof.
  intros Hwr Hj Hrest. pose proof (runs_contents write fr p chunks Hwr Hj) as Hc. cbv zeta in Hc.
  destruct (decide (cut_at p (Z.of_nat (length chunks)))) as [Hcut|Hcut].
  - rewrite bool_decide_true in Hc by done. rewrite app_nil_r. by eapply (runs_bind_end _ _ _ true).
  - rewrite bool_decide_false in Hc by done. by apply (runs_bind _ _ _ _ false).
Qed.

(** The malformed frame takes the place of the rest of the stream. *)
Lemma runs_malformed p (rest : M unit) fs : runs rest fs tt false →
  runs (if malformed p then writeStop p else rest) (if malformed p then [RawData malformed_frame] else fs)
    tt (malformed p).
Proof. intros Hr. pose proof (runs_stop p) as Hs. by destruct (malformed p). Qed.

(** The jitter a configuration can ask for without overflow: 10^12 ms. *)
Definition jitter_bounded (cfg : option StreamingConfig) : Prop :=
  match cfg with Some cfg => (- 10 ^ 12 ≤ st_JitterMs cfg ≤ 10 ^ 12)%Z | None => True end.

Lemma jitter_bounded_ok cfg : jitter_bounded cfg → jitter_ok (newPacer cfg).
Proof.
  unfold jitter_ok, jitter_bounded. destruct cfg as [cfg|]; simpl; [|done].
  unfold duration_ms, Millisecond. intros Hj.
  assert (in_int64 (st_JitterMs cfg * 1000000)) by (unfold in_int64, two63; lia).
  rewrite wrap64_id by done. intros Hpos. rewrite wrap64_id; [lia|]. unfold in_int64, two63. lia.
Qed.

(** Chunking loses nothing but the spacing: the chunks hold the words joined. *)
Lemma chunk_loop_cat fuel size words i : 0 < size → length words - i ≤ fuel →
  cat (chunk_loop fuel size words i) = Join (drop i words) space.
Proof.
  intros Hs. revert i. induction fuel as [|fuel IH]; intros i Hf.
  { by rewrite drop_ge by lia. }
  cbn [chunk_loop]. case_decide as Hi; [|by rewrite drop_ge by lia].
  set (e := (i + size) `min` length words).
  change (cat (?x :: ?l)) with (x +:+ cat l)%string. rewrite IH by lia.
  assert (drop i words = take (e - i) (drop i words) ++ drop e words) as Hd.
  { rewrite <-(take_drop (e - i) (drop i words)) at 1. rewrite drop_drop.
    by replace (i + (e - i)) with e by lia. }
  transitivity (Join (take (e - i) (drop i words) ++ drop e words) space); [|by rewrite <-Hd].
  clear Hd. case_decide as He.
  - replace (i + size) with e by lia. rewrite Join_app, str_app_assoc; [done| |].
    + intros H%(f_equal length). rewrite length_take, length_drop in H. simpl in H. lia.
    + intros H%(f_equal length). rewrite length_drop in H. simpl in H. lia.
  - rewrite (drop_ge words (i + size)), (drop_ge words e) by lia. change (Join [] space) with "". by rewrite app_nil_r, str_app_nil_r.
Qed.

Lemma split_loop_cat fuel size s i : 0 < size → String.length s - i ≤ fuel →
  cat (split_loop fuel size s i) = String.substring i (String.length s - i) s.
Proof.
  intros Hs. revert i. induction fuel as [|fuel IH]; intros i Hf.
  { replace (String.length s - i) with 0 by lia. by rewrite substring_0. }
  cbn [split_loop]. case_decide as Hi.
  2: { replace (String.length s - i) with 0 by lia. by rewrite substring_0. }
  set (e := (i + size) `min` String.length s).
  change (cat (?x :: ?l)) with (x +:+ cat l)%string. rewrite IH by lia.
  replace (String.length s - i) with ((e - i) + (String.length s - e)) by lia.
  rewrite <-substring_split. replace (i + (e - i)) with e by lia.
  destruct (decide (i + size ≤ String.length s)).
  - by replace (i + size) with e by lia.
  - replace (String.length s - e) with 0 by lia. replace (String.length s - (i + size)) with 0 by lia.
    by rewrite !substring_0.
Qed.

(** Chunking any text, at any size. *)
Lemma Chunk_cat size content :
  cat (Chunk (NewChunker size) content) =
    if decide (Fields content = []) then content else Join (Fields content) space.
Proof.
  unfold Chunk. destruct (decide (content = "")) as [->|Hne]; [done|].
  case_decide as Hw; [simpl; by rewrite str_app_nil_r|].
  rewrite chunk_loop_cat; [done| |lia]. unfold NewChunker, DefaultChunkSize. simpl. case_decide; lia.
Qed.

(** What chunking keeps of a text: its words, joined by single blanks. *)
Definition words_of (text : string) : string :=
  if decide (Fields text = []) then text else Join (Fields text) space.

Lemma Chunk_text size text :
  cat (if decide (text = "") then [] else Chunk (NewChunker size) text) = words_of text.
Proof. unfold words_of. case_decide as He; [by rewrite He|apply Chunk_cat]. Qed.

Lemma chunkString_cat s size : cat (chunkString s size) = s.
Proof.
  unfold chunkString. case_decide; [simpl; by rewrite str_app_nil_r|].
  case_decide; [simpl; by rewrite str_app_nil_r|].
  rewrite split_loop_cat by lia. rewrite Nat.sub_0_r. apply substring_all.
Qed.

End stream.

Notation "x <- m ; k" := (bind m (λ x, k)) (at level 100, m at next level, right associativity) : stream_scope.
Notation "m ;; k" := (bind m (λ _, k)) (at level 100, right associativity) : stream_scope.
