(* ===== verification/Streaming.v ===== *)
(** The OpenAI event stream ([internal/streaming/openai.go]) over the parts all
    streams share, and what a client reassembles from it. *)

From S2P Require Import Prelude GoBase GoFloat GoStrings AgentTypes ToolProcessor ResponseGenerator.
From S2P Require Import StreamCore.

(** ** Frames *)

Record ChunkFunction := mkChunkFunction { cf_Name : string; cf_Arguments : string }.

Record ChunkToolCall := mkChunkToolCall {
  ct_Index : Z;
  ct_ID : string;
  ct_Type : string;
  ct_Function : ChunkFunction
}.

Record ChunkDelta := mkChunkDelta {
  cd_Role : string;
  cd_Content : string;
  cd_ToolCalls : list ChunkToolCall;
  cd_Refusal : option string
}.

Record ChunkChoice := mkChunkChoice {
  cc_Index : Z;
  cc_Delta : ChunkDelta;
  cc_FinishReason : option string
}.

Record ChatCompletionChunk := mkChatCompletionChunk {
  ck_ID : string;
  ck_Object : string;
  ck_Created : Z;
  ck_Model : string;
  ck_Choices : list ChunkChoice
}.

Section stream.
Context {rand : GoRandV2} {conv : GoConv} {gmath : GoMath} {json : GoJson} {E : Type} {fl : Faults E}.
Open Scope stream_scope.

Abbreviation frame := (frame ChatCompletionChunk).
Abbreviation M := (@M ChatCompletionChunk rand E).

(** ** The OpenAI stream *)

Definition no_delta : ChunkDelta := mkChunkDelta "" "" [] None.

(** The frames of one stream carry the same id, creation time and model. *)
Definition chunk_of (id model : string) (created : Z) (delta : ChunkDelta) (finish : option string)
  : ChatCompletionChunk :=
  mkChatCompletionChunk id "chat.completion.chunk" created model [mkChunkChoice 0 delta finish].

Definition content_delta (chunk : string) : ChunkDelta := mkChunkDelta "" chunk [] None.

Definition call_id (results : list ToolCallResult) (i : nat) : string :=
  match results !! i with Some r => tcr_ID r | None => ("call_" +:+ fmt_d (Z.of_nat i))%string end.

Definition args_of (tc : ToolCallSpec) : string :=
  if decide (tcs_RawArguments tc = "") then MarshalArguments (tcs_Arguments tc) else tcs_RawArguments tc.

Definition name_delta (i : nat) (callID name : string) : ChunkDelta :=
  mkChunkDelta "" "" [mkChunkToolCall (Z.of_nat i) callID "function" (mkChunkFunction name "")] None.

Definition args_delta (i : nat) (chunk : string) : ChunkDelta :=
  mkChunkDelta "" "" [mkChunkToolCall (Z.of_nat i) "" "" (mkChunkFunction "" chunk)] None.

Section openai.
Context (id model : string) (created : Z).

Definition write_delta (delta : ChunkDelta) : M unit :=
  WriteData (chunk_of id model created delta None).

(** The loop over the content chunks. *)
Definition openai_contents : streamPacer → nat → list string → M bool :=
  stream_contents (λ chunk, write_delta (content_delta chunk)).

Fixpoint stream_args (i : nat) (delayMs : Z) (chunks : list string) : M unit :=
  match chunks with
  | [] => ret tt
  | chunk :: chunks =>
      ctxErr;;
      (if decide (0 < delayMs)%Z then timeSleep (duration_ms delayMs) else ret tt);;
      write_delta (args_delta i chunk);;
      stream_args i delayMs chunks
  end.

Fixpoint streamOpenAIToolCalls (results : list ToolCallResult) (delayMs : Z) (i : nat)
    (calls : list ToolCallSpec) : M unit :=
  match calls with
  | [] => ret tt
  | tc :: calls =>
      ctxErr;;
      sleepCtx (duration_ms delayMs);;
      write_delta (name_delta i (call_id results i) (tcs_Name tc));;
      stream_args i delayMs (chunkString (args_of tc) 20);;
      streamOpenAIToolCalls results delayMs (S i) calls
  end.

Definition finish_reason (resp : Response) : string :=
  if decide (re_FinishReason resp ≠ "") then re_FinishReason resp
  else match re_ToolCalls resp with [] => "stop" | _ :: _ => "tool_calls" end.
End openai.

(** [generateStreamID] on the eight bytes it draws. *)
Definition generateStreamID (draw : list Z) : string := hex_bytes draw.

Definition StreamOpenAI (flusher : bool) (draw : list Z) (created : Z) (resp : Response)
    (streamCfg : option StreamingConfig) : M unit :=
  if negb flusher then fail ErrNotFlusher
  else
    let id := ("chatcmpl-" +:+ generateStreamID draw)%string in
    let model := re_Model resp in
    let p := newPacer streamCfg in
    firstByte p;;
    write_delta id model created (mkChunkDelta "assistant" "" [] None);;
    truncated <- (if decide (re_Content resp = "") then ret false
                  else openai_contents id model created p 0
                         (Chunk (NewChunker (stream_chunk_size streamCfg)) (re_Content resp)));
    if (truncated : bool) then ret tt
    else
      (if decide (re_Refusal resp = "") then ret tt
       else write_delta id model created (mkChunkDelta "" "" [] (Some (re_Refusal resp))));;
      if malformed p then writeStop p
      else
        streamOpenAIToolCalls id model created (re_ToolResults resp) (stream_delay streamCfg) 0
          (re_ToolCalls resp);;
        WriteData (chunk_of id model created no_delta (Some (finish_reason resp)));;
        WriteRaw "[DONE]".

(** ** What a stream writes *)

Definition delta_frame (id model : string) (created : Z) (delta : ChunkDelta) : frame :=
  Data (chunk_of id model created delta None).

Fixpoint call_frames (id model : string) (created : Z) (results : list ToolCallResult) (i : nat)
    (calls : list ToolCallSpec) : list frame :=
  match calls with
  | [] => []
  | tc :: calls =>
      delta_frame id model created (name_delta i (call_id results i) (tcs_Name tc)) ::
      ((λ c, delta_frame id model created (args_delta i c)) <$> chunkString (args_of tc) 20) ++
      call_frames id model created results (S i) calls
  end.

(** The frames of an undisturbed stream: cut short after the configured chunks,
    ended by a malformed frame, or complete. *)
Definition openai_frames (draw : list Z) (created : Z) (resp : Response)
    (cfg : option StreamingConfig) : list frame :=
  let id := ("chatcmpl-" +:+ generateStreamID draw)%string in
  let delta := delta_frame id (re_Model resp) created in
  let p := newPacer cfg in
  let contents := if decide (re_Content resp = "") then []
    else Chunk (NewChunker (stream_chunk_size cfg)) (re_Content resp) in
  delta (mkChunkDelta "assistant" "" [] None) ::
  content_frames (delta ∘ content_delta) p contents ++
  if decide (cut_at p (Z.of_nat (length contents))) then []
  else
    (if decide (re_Refusal resp = "") then [] else [delta (mkChunkDelta "" "" [] (Some (re_Refusal resp)))]) ++
    (if malformed p then [RawData malformed_frame]
     else call_frames id (re_Model resp) created (re_ToolResults resp) 0 (re_ToolCalls resp) ++
       [Data (chunk_of id (re_Model resp) created no_delta (Some (finish_reason resp))); RawData "[DONE]"]).

Section openai_proofs.
Context (id model : string) (created : Z) (p : streamPacer).

Abbreviation delta := (delta_frame id model created).
Abbreviation bad := (if malformed p then [RawData malformed_frame] else []).

Lemma runs_delta d : runs (write_delta id model created d) [delta d] tt false.
Proof. apply runs_data. Qed.

Lemma runs_args i delayMs chunks :
  runs (stream_args id model created i delayMs chunks) ((λ c, delta (args_delta i c)) <$> chunks) tt false.
Proof.
  induction chunks as [|c chunks IH]; [apply runs_ret|]. cbn [stream_args].
  apply (runs_bind _ _ [] _ tt); [apply runs_ctxErr|].
  apply (runs_bind _ _ [] _ tt); [case_decide; [apply runs_timeSleep|apply runs_ret]|].
  by apply (runs_bind _ _ [_] _ tt); [apply runs_delta|].
Qed.

Lemma runs_calls results delayMs i calls :
  runs (streamOpenAIToolCalls id model created results delayMs i calls)
    (call_frames id model created results i calls) tt false.
Proof.
  revert i. induction calls as [|tc calls IH]; intros i; [apply runs_ret|].
  cbn [streamOpenAIToolCalls call_frames].
  apply (runs_bind _ _ [] _ tt); [apply runs_ctxErr|].
  apply (runs_bind _ _ [] _ tt); [apply runs_sleep|].
  apply (runs_bind _ _ [_] _ tt); [apply runs_delta|].
  apply (runs_bind _ _ _ _ tt); [apply runs_args|]. apply IH.
Qed.
End openai_proofs.

Lemma openai_runs draw created resp cfg : jitter_ok (newPacer cfg) →
  runs (StreamOpenAI true draw created resp cfg) (openai_frames draw created resp cfg) tt
    (malformed (newPacer cfg)).
Proof.
  intros Hj. unfold StreamOpenAI, openai_frames. cbv zeta. cbn [negb]. set (p := newPacer cfg) in *.
  set (id := ("chatcmpl-" +:+ generateStreamID draw)%string). set (model := re_Model resp).
  apply (runs_bind _ _ [] _ tt); [apply runs_first|].
  apply (runs_bind _ _ [_] _ tt); [apply runs_delta|].
  set (contents := if decide (re_Content resp = "") then [] else Chunk _ _).
  replace (if decide (re_Content resp = "") then ret false else _)
    with (openai_contents id model created p 0 contents)
    by (subst contents; by destruct (decide (re_Content resp = ""))).
  apply runs_text_then; [intros c; apply runs_delta|done|].
  apply (runs_bind _ _ _ _ tt); [destruct (decide (re_Refusal resp = "")); [apply runs_ret|apply runs_delta]|].
  apply runs_malformed. apply (runs_bind _ _ _ _ tt); [apply runs_calls|].
  apply (runs_bind _ _ [_] _ tt); [apply runs_data|apply runs_raw].
Qed.

(** an OpenAI stream writes, whatever interrupts it, a prefix of the frames of
    the undisturbed stream, and nothing at all when the connection cannot stream.
    An undisturbed stream succeeds and writes all of them: the role, the content
    chunks, the refusal, the tool calls, the finish reason and [DONE]; cut short
    after the configured number of chunks, without finish frame, or ended by the
    malformed frame, when the configuration asks for it. *)
Theorem StreamOpenAI_frames (flusher : bool) (draw : list Z) (created : Z) (resp : Response)
    (cfg : option StreamingConfig) (st : stream_st) :
  jitter_bounded cfg →
  ∃ st' res dn, StreamOpenAI flusher draw created resp cfg st = (st', res) ∧
    written st' = written st ++ dn ∧
    if flusher
    then dn `prefix_of` openai_frames draw created resp cfg ∧
      (res = inr tt → malformed (newPacer cfg) = false → dn = openai_frames draw created resp cfg) ∧
      (undisturbed → res = inr tt ∧ dn = openai_frames draw created resp cfg)
    else res = inl ErrNotFlusher ∧ dn = [].
Proof.
  intros Hj%jitter_bounded_ok. destruct flusher; cycle 1.
  { exists st, (inl ErrNotFlusher), []. by rewrite app_nil_r. }
  destruct (openai_runs draw created resp cfg Hj st) as (st' & res & dn & H1 & Hw & Hp & Hok & Hu).
  exists st', res, dn. split_and!; [done|done|done| |done].
  intros Hres Hm. destruct (Hok tt Hres) as [_ [?|?]]; [congruence|done].
Qed.

(** ** What a client reassembles *)

Definition choice_text (c : ChunkChoice) : string := cd_Content (cc_Delta c).

(** The text of the content deltas. *)
Definition client_text (fs : list frame) : string :=
  cat ((λ f, match f with Data c => cat (choice_text <$> ck_Choices c) | _ => "" end) <$> fs).

(** A field of the tool call with an index: the deltas that carry the index give it
    piece by piece. *)
Definition call_field (f : ChunkToolCall → string) (i : nat) (tc : ChunkToolCall) : string :=
  if decide (ct_Index tc = Z.of_nat i) then f tc else "".

Definition client_field (f : ChunkToolCall → string) (i : nat) (fs : list frame) : string :=
  cat ((λ fr, match fr with
    | Data c => cat ((λ ch, cat (call_field f i <$> cd_ToolCalls (cc_Delta ch))) <$> ck_Choices c)
    | _ => ""
    end) <$> fs).

(** The argument bytes of the tool call with an index. *)
Definition call_args (tc : ChunkToolCall) : string := cf_Arguments (ct_Function tc).
Definition call_name (tc : ChunkToolCall) : string := cf_Name (ct_Function tc).
Definition client_args : nat → list frame → string := client_field call_args.

(** The refusal, and the finish reasons the frames carry. *)
Definition client_refusal (fs : list frame) : string :=
  cat ((λ fr, match fr with
    | Data c => cat ((λ ch, default "" (cd_Refusal (cc_Delta ch))) <$> ck_Choices c)
    | _ => ""
    end) <$> fs).

Definition client_finishes (fs : list frame) : list string :=
  fs ≫= λ fr, match fr with Data c => omap cc_FinishReason (ck_Choices c) | _ => [] end.

Lemma client_text_app fs gs : client_text (fs ++ gs) = (client_text fs +:+ client_text gs)%string.
Proof. unfold client_text. by rewrite fmap_app, cat_app. Qed.

Lemma client_text_delta id model created d : client_text [delta_frame id model created d] = cd_Content d.
Proof. unfold client_text. simpl. by rewrite !str_app_nil_r. Qed.

Lemma client_text_contents id model created l :
  client_text ((delta_frame id model created ∘ content_delta) <$> l) = cat l.
Proof.
  induction l as [|c l IH]; [done|]. change (?f <$> c :: l) with ([f c] ++ (f <$> l)).
  rewrite client_text_app, IH. unfold compose at 1. by rewrite client_text_delta.
Qed.

Lemma client_text_args id model created j l :
  client_text ((λ c, delta_frame id model created (args_delta j c)) <$> l) = "".
Proof.
  induction l as [|c l IH]; [done|]. change (?f <$> c :: l) with ([f c] ++ (f <$> l)).
  by rewrite client_text_app, IH, client_text_delta.
Qed.

Lemma client_text_calls id model created results i calls :
  client_text (call_frames id model created results i calls) = "".
Proof.
  revert i. induction calls as [|tc calls IH]; intros i; [done|]. cbn [call_frames].
  change (?x :: ?l ++ ?r) with ([x] ++ l ++ r).
  by rewrite !client_text_app, IH, client_text_args, client_text_delta.
Qed.

Section field.
Context (f : ChunkToolCall → string).

Lemma client_field_app i fs gs :
  client_field f i (fs ++ gs) = (client_field f i fs +:+ client_field f i gs)%string.
Proof. unfold client_field. by rewrite fmap_app, cat_app. Qed.

Lemma client_field_delta i id model created d :
  client_field f i [delta_frame id model created d] = cat (call_field f i <$> cd_ToolCalls d).
Proof. unfold client_field. simpl. by rewrite !str_app_nil_r. Qed.

Lemma client_field_contents i id model created l :
  client_field f i ((delta_frame id model created ∘ content_delta) <$> l) = "".
Proof.
  induction l as [|c l IH]; [done|]. change (?f <$> c :: l) with ([f c] ++ (f <$> l)).
  rewrite client_field_app, IH. unfold compose at 1. by rewrite client_field_delta.
Qed.

(** The piece an argument chunk adds. *)
Definition args_piece (j : nat) (c : string) : string :=
  f (mkChunkToolCall (Z.of_nat j) "" "" (mkChunkFunction "" c)).

Lemma client_field_args i id model created j l :
  client_field f i ((λ c, delta_frame id model created (args_delta j c)) <$> l) =
    if decide (i = j) then cat (args_piece j <$> l) else "".
Proof.
  induction l as [|c l IH]; [by case_decide|]. change (?f <$> c :: l) with ([f c] ++ (f <$> l)).
  rewrite client_field_app, IH, client_field_delta. simpl. unfold call_field. simpl.
  rewrite str_app_nil_r. destruct (decide (i = j)) as [->|Hij]; [by rewrite decide_True|].
  by rewrite decide_False by lia.
Qed.

Lemma client_field_calls id model created results i calls k tc :
  calls !! k = Some tc →
  client_field f (i + k) (call_frames id model created results i calls) =
    (f (mkChunkToolCall (Z.of_nat (i + k)) (call_id results (i + k)) "function" (mkChunkFunction (tcs_Name tc) "")) +:+
     cat (args_piece (i + k) <$> chunkString (args_of tc) 20))%string.
Proof.
  assert (∀ i calls j, j < i → client_field f j (call_frames id model created results i calls) = "") as Hlt.
  { clear. intros i calls. revert i. induction calls as [|tc calls IH]; intros i j Hj; [done|].
    cbn [call_frames]. change (?x :: ?l ++ ?r) with ([x] ++ l ++ r).
    rewrite !client_field_app, IH, client_field_args, client_field_delta by lia.
    rewrite decide_False by lia. simpl. unfold call_field. simpl. by rewrite decide_False by lia. }
  revert i k. induction calls as [|tc' calls IH]; intros i k Hk; [done|].
  cbn [call_frames]. change (?x :: ?l ++ ?r) with ([x] ++ l ++ r).
  rewrite !client_field_app, client_field_args, client_field_delta.
  destruct k as [|k]; simpl in Hk.
  - injection Hk as ->. rewrite Nat.add_0_r, decide_True, Hlt by lia. simpl. unfold call_field. simpl.
    by rewrite decide_True, !str_app_nil_r by done.
  - rewrite decide_False by lia. simpl. unfold call_field at 1. simpl. rewrite decide_False by lia.
    replace (i + S k) with (S i + k) by lia. by rewrite IH.
Qed.
End field.

Lemma cat_empty {A} (l : list A) : cat ((λ _, "") <$> l) = "".
Proof. by induction l. Qed.

Lemma cat_id (l : list string) : cat ((λ c, c) <$> l) = cat l.
Proof. by rewrite list_fmap_id. Qed.

Definition is_data (f : frame) : Prop := match f with Data _ => True | _ => False end.

Lemma data_no_done fs raw : Forall is_data fs → RawData raw ∉ fs.
Proof. rewrite Forall_forall. intros H Hin. exact (H _ Hin). Qed.

Lemma data_calls id model created results i calls :
  Forall is_data (call_frames id model created results i calls).
Proof.
  revert i. induction calls as [|tc calls IH]; intros i; cbn [call_frames]; [constructor|].
  constructor; [done|]. apply Forall_app. split; [|apply IH]. by apply Forall_fmap, Forall_true.
Qed.

(** The refusal and the finish reasons of the parts of a stream. *)
Lemma client_refusal_app fs gs : client_refusal (fs ++ gs) = (client_refusal fs +:+ client_refusal gs)%string.
Proof. unfold client_refusal. by rewrite fmap_app, cat_app. Qed.

Lemma client_finishes_app fs gs : client_finishes (fs ++ gs) = client_finishes fs ++ client_finishes gs.
Proof. apply bind_app. Qed.

(** A frame that carries neither. *)
Definition mute (f : frame) : Prop :=
  match f with
  | Data c => Forall (λ ch, cd_Refusal (cc_Delta ch) = None ∧ cc_FinishReason ch = None) (ck_Choices c)
  | _ => True
  end.

Lemma mute_choices chs :
  Forall (λ ch, cd_Refusal (cc_Delta ch) = None ∧ cc_FinishReason ch = None) chs →
  cat ((λ ch, default "" (cd_Refusal (cc_Delta ch))) <$> chs) = "" ∧ omap cc_FinishReason chs = [].
Proof.
  induction 1 as [|ch chs [Hr Hf] _ [IHr IHf]]; [done|].
  split; [rewrite fmap_cons; simpl; by rewrite Hr, IHr|].
  change (match cc_FinishReason ch with Some y => y :: omap cc_FinishReason chs | None => omap cc_FinishReason chs end = []).
  by rewrite Hf.
Qed.

Lemma mute_frames fs : Forall mute fs → client_refusal fs = "" ∧ client_finishes fs = [].
Proof.
  induction 1 as [|f fs Hf _ [IHr IHf]]; [done|].
  change (f :: fs) with ([f] ++ fs). rewrite client_refusal_app, client_finishes_app, IHr, IHf, app_nil_r, str_app_nil_r.
  destruct f as [c|n c|raw]; [|done|done]. apply mute_choices in Hf as [Hr Hfin].
  split; [unfold client_refusal; cbn; by rewrite str_app_nil_r|].
  change (omap cc_FinishReason (ck_Choices c) ++ [] = []). by rewrite Hfin.
Qed.

Lemma mute_calls id model created results i calls : Forall mute (call_frames id model created results i calls).
Proof.
  revert i. induction calls as [|tc calls IH]; intros i; cbn [call_frames]; [constructor|].
  constructor; [by repeat constructor|]. apply Forall_app. split; [|apply IH].
  apply Forall_fmap, Forall_true. intros c. by repeat constructor.
Qed.

Lemma mute_contents id model created l : Forall mute ((delta_frame id model created ∘ content_delta) <$> l).
Proof. apply Forall_fmap, Forall_true. intros c. by repeat constructor. Qed.

Section complete.
Context (draw : list Z) (created : Z) (resp : Response) (cfg : option StreamingConfig).
Hypothesis (Hm : malformed (newPacer cfg) = false) (Ht : (truncateAfter (newPacer cfg) ≤ 0)%Z).

Abbreviation id := ("chatcmpl-" +:+ generateStreamID draw)%string.
Abbreviation model := (re_Model resp).

Definition text_chunks : list string :=
  if decide (re_Content resp = "") then [] else Chunk (NewChunker (stream_chunk_size cfg)) (re_Content resp).

Definition refusal_frames : list frame :=
  if decide (re_Refusal resp = "") then []
  else [delta_frame id model created (mkChunkDelta "" "" [] (Some (re_Refusal resp)))].

(** The parts of a complete stream. *)
Lemma complete_frames :
  openai_frames draw created resp cfg =
    [delta_frame id model created (mkChunkDelta "assistant" "" [] None)] ++
    ((delta_frame id model created ∘ content_delta) <$> text_chunks) ++ refusal_frames ++
    call_frames id model created (re_ToolResults resp) 0 (re_ToolCalls resp) ++
    [Data (chunk_of id model created no_delta (Some (finish_reason resp)))] ++ [RawData "[DONE]"].
Proof.
  unfold openai_frames. cbv zeta. rewrite Hm. unfold content_frames.
  change (if decide (re_Content resp = "") then [] else Chunk _ _) with text_chunks.
  assert (∀ n, ¬ cut_at (newPacer cfg) n) as Hcut by (unfold cut_at; lia).
  by rewrite !(decide_False (P := cut_at (newPacer cfg) _)).
Qed.

Lemma complete_text :
  client_text (openai_frames draw created resp cfg) =
    if decide (Fields (re_Content resp) = []) then re_Content resp else Join (Fields (re_Content resp)) space.
Proof.
  assert (cat text_chunks = if decide (Fields (re_Content resp) = []) then re_Content resp
    else Join (Fields (re_Content resp)) space) as Hcat.
  { unfold text_chunks. destruct (decide (re_Content resp = "")) as [->|]; [done|]. apply Chunk_cat. }
  assert (client_text refusal_frames = "") as Htr.
  { unfold refusal_frames. destruct (decide (re_Refusal resp = "")); [done|apply client_text_delta]. }
  rewrite complete_frames, !client_text_app, Htr, client_text_contents, client_text_calls, client_text_delta, Hcat.
  change (client_text [RawData "[DONE]"]) with "".
  change (client_text [Data (chunk_of id model created no_delta ?x)]) with "".
  simpl. by rewrite !str_app_nil_r.
Qed.

Lemma complete_field f k tc : re_ToolCalls resp !! k = Some tc →
  client_field f k (openai_frames draw created resp cfg) =
    (f (mkChunkToolCall (Z.of_nat k) (call_id (re_ToolResults resp) k) "function" (mkChunkFunction (tcs_Name tc) "")) +:+
     cat (args_piece f k <$> chunkString (args_of tc) 20))%string.
Proof.
  intros Hk. assert (client_field f k refusal_frames = "") as Har.
  { unfold refusal_frames. destruct (decide (re_Refusal resp = "")); [done|apply client_field_delta]. }
  rewrite complete_frames, !client_field_app, Har, client_field_contents, client_field_delta.
  pose proof (client_field_calls f id model created (re_ToolResults resp) 0 _ k tc Hk) as Hf.
  rewrite Nat.add_0_l in Hf. rewrite Hf. change (client_field f k [RawData "[DONE]"]) with "".
  change (client_field f k [Data (chunk_of id model created no_delta ?x)]) with "".
  change (cat (call_field f k <$> cd_ToolCalls (mkChunkDelta "assistant" "" [] None))) with "".
  by rewrite !str_app_nil_r.
Qed.

Lemma complete_ends :
  client_refusal (openai_frames draw created resp cfg) = re_Refusal resp ∧
  client_finishes (openai_frames draw created resp cfg) = [finish_reason resp] ∧
  ∃ fs', openai_frames draw created resp cfg = fs' ++ [RawData "[DONE]"] ∧ RawData "[DONE]" ∉ fs'.
Proof.
  rewrite complete_frames.
  destruct (mute_frames _ (mute_contents id model created text_chunks)) as [Hc1 Hc2].
  destruct (mute_frames _ (mute_calls id model created (re_ToolResults resp) 0 (re_ToolCalls resp))) as [Ht1 Ht2].
  split_and!.
  - rewrite !client_refusal_app, Hc1, Ht1. unfold refusal_frames, client_refusal.
    destruct (decide (re_Refusal resp = "")) as [->|]; [done|]. simpl. by rewrite !str_app_nil_r.
  - rewrite !client_finishes_app, Hc2, Ht2. unfold refusal_frames. by destruct (decide (re_Refusal resp = "")).
  - rewrite !(assoc_L (++)). eexists. split; [done|]. apply data_no_done.
    rewrite !Forall_app. split_and!; [by repeat constructor|by apply Forall_fmap, Forall_true| |apply data_calls|by repeat constructor].
    unfold refusal_frames. destruct (decide (re_Refusal resp = "")); repeat constructor.
Qed.
End complete.

End stream.

(** ** Examples *)

(** A source that draws the least value, and constant functions. *)
#[local] Instance ex_rand : GoRandV2.
Proof.
  refine {| rng2 := unit; Int64N n g := (0%Z, g); NormFloat64_2 g := (f64_zero, g) |}.
  intros n g Hn. simpl. lia.
Defined.
#[local] Instance ex_math : GoMath := {| Log x := x; Exp x := x |}.
#[local] Instance ex_json : GoJson := λ _, "{}".
#[local] Existing Instance amd64_conv.

Definition ex_response (content : string) (calls : list ToolCallSpec) : Response :=
  mkResponse "bot" "gpt-4o" content calls [] "" "" [] "" "" None.

Definition ex_call : ToolCallSpec := mkToolCallSpec "search" [] "{q: a longer argument string}".

Definition ex_stream_cfg (truncate : Z) (bad : bool) : StreamingConfig :=
  mkStreamingConfig true 2 10 5 f64_zero 3 0 0 0 0 truncate bad.

Definition fresh : @stream_st ChatCompletionChunk _ := mkStreamSt 0 [] () ().

Definition no_faults : Faults string := λ _, None.

Lemma StreamOpenAI_frames_witness :
  let cfg := Some (ex_stream_cfg 1 true) in
  let resp := ex_response "one two three four five" [ex_call] in
  (client_text (openai_frames [1%Z] 0 resp cfg) = "one two " ∧
   length (openai_frames [1%Z] 0 resp cfg) = 3) ∧
  ∃ st' res dn, StreamOpenAI (fl := no_faults) true [1%Z] 0 resp cfg fresh = (st', res) ∧
    written st' = written fresh ++ dn ∧ res = inr () ∧ dn = openai_frames [1%Z] 0 resp cfg.
Proof.
  cbv zeta. split; [split; vm_compute; reflexivity|].
  destruct (StreamOpenAI_frames (fl := no_faults) true [1%Z] 0 (ex_response "one two three four five" [ex_call])
    (Some (ex_stream_cfg 1 true)) fresh) as (st' & res & dn & H1 & Hw & _ & _ & Hu).
  - split; vm_compute; discriminate.
  - exists st', res, dn. split; [exact H1|]. split; [exact Hw|]. apply Hu. intros n. reflexivity.
Defined.


(** Line breaks and runs of blanks do not survive chunking. *)
Lemma chunking_drops_spacing :
  let lf := byte 10 in
  cat (Chunk (NewChunker 4) ("a" +:+ lf +:+ "  b")%string) = "a b".
Proof. by vm_compute. Qed.

(** A two-byte character at bytes 19 and 20 is cut in two: the first piece ends in
    its first byte. *)
Lemma argument_chunks_cut_characters :
  let e_acute := (byte 195 +:+ byte 169)%string in
  chunkString ("0123456789012345678" +:+ e_acute)%string 20 =
    [("0123456789012345678" +:+ byte 195)%string; byte 169].
Proof. by vm_compute. Qed.
