(* ===== verification/AnthropicStream.v ===== *)
(** The Anthropic event stream ([internal/streaming/anthropic.go]): named events
    that open, fill and close content blocks, and the client that reads them back. *)

From S2P Require Import Prelude GoBase GoFloat GoStrings AgentTypes ToolProcessor ResponseGenerator.
From S2P Require Import StreamCore.

(** ** Events *)

Record anthropicUsage := mkAnthropicUsage { InputTokens : Z; OutputTokens : Z }.

Record anthropicMessageHeader := mkAnthropicMessageHeader {
  mh_ID : string;
  mh_Type : string;
  mh_Role : string;
  mh_Content : list value;
  mh_Model : string;
  mh_StopReason : option string;
  mh_Usage : anthropicUsage
}.

(** [anthropicTextBlock] and [anthropicToolUseBlock], the values of a content block. *)
Inductive content_block :=
| anthropicTextBlock (Type_ Text : string)
| anthropicToolUseBlock (Type_ ID Name : string) (Input : list (string * value)).

(** [anthropicTextDelta] and [anthropicInputJSONDelta], the values of a delta. *)
Inductive block_delta :=
| anthropicTextDelta (Type_ Text : string)
| anthropicInputJSONDelta (Type_ PartialJSON : string).

(** The values written; their [type] is the name of their event. *)
Inductive anthropic_event :=
| anthropicMessageStart (Type_ : string) (Message : anthropicMessageHeader)
| anthropicContentBlockStart (Type_ : string) (Index : Z) (ContentBlock : content_block)
| anthropicContentBlockDelta (Type_ : string) (Index : Z) (Delta : block_delta)
| anthropicContentBlockStop (Type_ : string) (Index : Z)
| anthropicMessageDelta (Type_ : string) (StopReason : string) (Usage : anthropicUsage)
| anthropicMessageStop (Type_ : string).

Section stream.
Context {rand : GoRandV2} {conv : GoConv} {gmath : GoMath} {json : GoJson} {E : Type} {fl : Faults E}.
Open Scope stream_scope.

Abbreviation frame := (frame anthropic_event).
Abbreviation M := (@M anthropic_event rand E).

(** *** The literals of the stream *)

Definition message_start (msgID model : string) : anthropic_event :=
  anthropicMessageStart "message_start"
    (mkAnthropicMessageHeader msgID "message" "assistant" [] model None (mkAnthropicUsage 25 1)).

Definition text_start (blockIndex : Z) : anthropic_event :=
  anthropicContentBlockStart "content_block_start" blockIndex (anthropicTextBlock "text" "").

Definition text_delta (blockIndex : Z) (chunk : string) : anthropic_event :=
  anthropicContentBlockDelta "content_block_delta" blockIndex (anthropicTextDelta "text_delta" chunk).

Definition block_stop (blockIndex : Z) : anthropic_event :=
  anthropicContentBlockStop "content_block_stop" blockIndex.

Definition tool_start (blockIndex : Z) (toolID name : string) : anthropic_event :=
  anthropicContentBlockStart "content_block_start" blockIndex
    (anthropicToolUseBlock "tool_use" toolID name []).

Definition json_delta (blockIndex : Z) (argChunk : string) : anthropic_event :=
  anthropicContentBlockDelta "content_block_delta" blockIndex
    (anthropicInputJSONDelta "input_json_delta" argChunk).

(** [generateAnthropicID] on the twelve bytes it draws. *)
Definition generateAnthropicID (draw : list Z) : string := hex_bytes draw.

(** *** The loops *)

Definition text_body (resp : Response) : string :=
  if decide (re_Content resp = "") then re_Refusal resp else re_Content resp.

(** The loop over the content chunks. *)
Definition anthropic_contents (blockIndex : Z) : streamPacer → nat → list string → M bool :=
  stream_contents (λ chunk, WriteEvent "content_block_delta" (text_delta blockIndex chunk)).

(** The loop over the argument chunks of a tool call. *)
Fixpoint anthropic_args (blockIndex delayMs : Z) (chunks : list string) : M unit :=
  match chunks with
  | [] => ret tt
  | argChunk :: chunks =>
      ctxErr;;
      sleepCtx (duration_ms delayMs);;
      WriteEvent "content_block_delta" (json_delta blockIndex argChunk);;
      anthropic_args blockIndex delayMs chunks
  end.

(** The id of tool block [i]: the draw is made even when a result carries the id. *)
Definition tool_id (draws : nat → list Z) (results : list ToolCallResult) (i : nat) : string :=
  match results !! i with
  | Some r => tcr_ID r
  | None => ("toolu_" +:+ generateAnthropicID (draws i))%string
  end.

(** The loop over the tool calls. *)
Fixpoint anthropic_tools (draws : nat → list Z) (results : list ToolCallResult) (delayMs : Z)
    (i : nat) (blockIndex : Z) (calls : list ToolCallSpec) : M unit :=
  match calls with
  | [] => ret tt
  | tc :: calls =>
      ctxErr;;
      WriteEvent "content_block_start" (tool_start blockIndex (tool_id draws results i) (tcs_Name tc));;
      anthropic_args blockIndex delayMs (chunkString (MarshalArguments (tcs_Arguments tc)) 20);;
      WriteEvent "content_block_stop" (block_stop blockIndex);;
      anthropic_tools draws results delayMs (S i) (blockIndex + 1) calls
  end.

Definition stop_reason (resp : Response) : string :=
  if decide (re_FinishReason resp ≠ "") then AnthropicStopReason (re_FinishReason resp)
  else match re_ToolCalls resp with
       | _ :: _ => "tool_use"
       | [] => if decide (re_Refusal resp ≠ "") then "refusal" else "end_turn"
       end.

Definition output_tokens (resp : Response) : Z := Z.of_nat (String.length (re_Content resp)) / 4 + 1.

Definition message_delta (resp : Response) : anthropic_event :=
  anthropicMessageDelta "message_delta" (stop_reason resp) (mkAnthropicUsage 0 (output_tokens resp)).

(** Steps 3 to 5: the tool blocks, from a block index on, and the end of the message. *)
Definition anthropic_rest (draws : nat → list Z) (resp : Response) (delayMs blockIndex : Z) : M unit :=
  anthropic_tools draws (re_ToolResults resp) delayMs 0 blockIndex (re_ToolCalls resp);;
  WriteEvent "message_delta" (message_delta resp);;
  WriteEvent "message_stop" (anthropicMessageStop "message_stop").

Definition StreamAnthropic (flusher : bool) (draw : list Z) (draws : nat → list Z) (resp : Response)
    (streamCfg : option StreamingConfig) : M unit :=
  if negb flusher then fail ErrNotFlusher
  else
    let p := newPacer streamCfg in
    let rest blockIndex := if malformed p then writeStop p
      else anthropic_rest draws resp (stream_delay streamCfg) blockIndex in
    let textBody := text_body resp in
    firstByte p;;
    WriteEvent "message_start"
      (message_start ("msg_" +:+ generateAnthropicID draw)%string (re_Model resp));;
    if decide (textBody = "") then rest 0%Z
    else
      WriteEvent "content_block_start" (text_start 0);;
      truncated <- anthropic_contents 0 p 0 (Chunk (NewChunker (stream_chunk_size streamCfg)) textBody);
      if (truncated : bool) then ret tt
      else
        WriteEvent "content_block_stop" (block_stop 0);;
        rest 1%Z.

(** ** What the stream writes *)

(** The [type] field of a value. *)
Definition event_type (v : anthropic_event) : string :=
  match v with
  | anthropicMessageStart t _ | anthropicContentBlockStart t _ _ | anthropicContentBlockDelta t _ _
  | anthropicContentBlockStop t _ | anthropicMessageDelta t _ _ | anthropicMessageStop t => t
  end.

Definition ev (v : anthropic_event) : frame := Event (event_type v) v.

Fixpoint tool_frames (draws : nat → list Z) (results : list ToolCallResult) (i : nat) (blockIndex : Z)
    (calls : list ToolCallSpec) : list frame :=
  match calls with
  | [] => []
  | tc :: calls =>
      [ev (tool_start blockIndex (tool_id draws results i) (tcs_Name tc))] ++
      ((λ c, ev (json_delta blockIndex c)) <$> chunkString (MarshalArguments (tcs_Arguments tc)) 20) ++
      [ev (block_stop blockIndex)] ++ tool_frames draws results (S i) (blockIndex + 1) calls
  end.

Definition rest_frames (draws : nat → list Z) (resp : Response) (blockIndex : Z) : list frame :=
  tool_frames draws (re_ToolResults resp) 0 blockIndex (re_ToolCalls resp) ++
  [ev (message_delta resp)] ++ [ev (anthropicMessageStop "message_stop")].

(** The frames of an undisturbed stream. *)
Definition anthropic_frames (draw : list Z) (draws : nat → list Z) (resp : Response)
    (cfg : option StreamingConfig) : list frame :=
  let p := newPacer cfg in
  let rest blockIndex := if malformed p then [RawData malformed_frame] else rest_frames draws resp blockIndex in
  let chunks := Chunk (NewChunker (stream_chunk_size cfg)) (text_body resp) in
  [ev (message_start ("msg_" +:+ generateAnthropicID draw)%string (re_Model resp))] ++
  if decide (text_body resp = "") then rest 0%Z
  else
    [ev (text_start 0)] ++ content_frames (λ c, ev (text_delta 0 c)) p chunks ++
    if decide (cut_at p (Z.of_nat (length chunks))) then [] else [ev (block_stop 0)] ++ rest 1%Z.

Lemma runs_anthropic_args b d chunks :
  runs (anthropic_args b d chunks) ((λ c, ev (json_delta b c)) <$> chunks) tt false.
Proof.
  induction chunks as [|c chunks IH]; [apply runs_ret|]. cbn [anthropic_args].
  apply (runs_bind _ _ [] _ tt); [apply runs_ctxErr|].
  apply (runs_bind _ _ [] _ tt); [apply runs_sleep|].
  by apply (runs_bind _ _ [_] _ tt); [apply runs_event|].
Qed.

Lemma runs_tools draws results d i b calls :
  runs (anthropic_tools draws results d i b calls) (tool_frames draws results i b calls) tt false.
Proof.
  revert i b. induction calls as [|tc calls IH]; intros i b; [apply runs_ret|].
  cbn [anthropic_tools tool_frames].
  apply (runs_bind _ _ [] _ tt); [apply runs_ctxErr|].
  apply (runs_bind _ _ [_] _ tt); [apply runs_event|].
  apply (runs_bind _ _ _ _ tt); [apply runs_anthropic_args|].
  apply (runs_bind _ _ [_] _ tt); [apply runs_event|apply IH].
Qed.

Lemma runs_rest p draws resp d b :
  runs (if malformed p then writeStop p else anthropic_rest draws resp d b)
    (if malformed p then [RawData malformed_frame] else rest_frames draws resp b) tt (malformed p).
Proof.
  apply runs_malformed. apply (runs_bind _ _ _ _ tt); [apply runs_tools|].
  apply (runs_bind _ _ [_] _ tt); [apply runs_event|apply runs_event].
Qed.

Lemma anthropic_runs draw draws resp cfg : jitter_ok (newPacer cfg) →
  runs (StreamAnthropic true draw draws resp cfg) (anthropic_frames draw draws resp cfg) tt
    (malformed (newPacer cfg)).
Proof.
  intros Hj. unfold StreamAnthropic, anthropic_frames. cbv zeta. cbn [negb].
  apply (runs_bind _ _ [] _ tt); [apply runs_first|].
  apply (runs_bind _ _ [_] _ tt); [apply runs_event|].
  destruct (decide (text_body resp = "")); [apply runs_rest|].
  apply (runs_bind _ _ [_] _ tt); [apply runs_event|].
  apply runs_text_then; [intros c; apply runs_event|done|].
  apply (runs_bind _ _ [_] _ tt); [apply runs_event|apply runs_rest].
Qed.

(** ** A client *)

(** A block as the client has read it: its text, or a tool call with its input. *)
Inductive read_block := ReadText (text : string) | ReadTool (id name input : string).

(** The message so far, between the events that drive the client. *)
Inductive client :=
| Waiting
| Reading (id model : string) (blocks : list read_block) (current : option read_block)
| Stopped (id model : string) (blocks : list read_block) (stop : string) (tokens : Z)
| Finished (id model : string) (blocks : list read_block) (stop : string) (tokens : Z).

Definition open_block (b : content_block) : option read_block :=
  match b with
  | anthropicTextBlock t text => if decide (t = "text") then Some (ReadText text) else None
  | anthropicToolUseBlock t id name input =>
      if decide (t = "tool_use" ∧ input = []) then Some (ReadTool id name "") else None
  end.

Definition extend_block (b : read_block) (d : block_delta) : option read_block :=
  match b, d with
  | ReadText text, anthropicTextDelta t s =>
      if decide (t = "text_delta") then Some (ReadText (text +:+ s)%string) else None
  | ReadTool id name json, anthropicInputJSONDelta t s =>
      if decide (t = "input_json_delta") then Some (ReadTool id name (json +:+ s)%string) else None
  | _, _ => None
  end.

(** The type each value must carry. *)
Definition expected_type (v : anthropic_event) : string :=
  match v with
  | anthropicMessageStart _ _ => "message_start"
  | anthropicContentBlockStart _ _ _ => "content_block_start"
  | anthropicContentBlockDelta _ _ _ => "content_block_delta"
  | anthropicContentBlockStop _ _ => "content_block_stop"
  | anthropicMessageDelta _ _ _ => "message_delta"
  | anthropicMessageStop _ => "message_stop"
  end.

(** The client on a value: [None] is a violation of the protocol.  Blocks are
    numbered from 0 and are opened, filled and closed one after the other. *)
Definition client_value (c : client) (v : anthropic_event) : option client :=
  match c, v with
  | Waiting, anthropicMessageStart _ h =>
      match mh_Content h with
      | [] => Some (Reading (mh_ID h) (mh_Model h) [] None)
      | _ :: _ => None
      end
  | Reading id model blocks None, anthropicContentBlockStart _ i b =>
      if decide (i = Z.of_nat (length blocks)) then Reading id model blocks ∘ Some <$> open_block b
      else None
  | Reading id model blocks (Some b), anthropicContentBlockDelta _ i d =>
      if decide (i = Z.of_nat (length blocks)) then Reading id model blocks ∘ Some <$> extend_block b d
      else None
  | Reading id model blocks (Some b), anthropicContentBlockStop _ i =>
      if decide (i = Z.of_nat (length blocks)) then Some (Reading id model (blocks ++ [b]) None)
      else None
  | Reading id model blocks None, anthropicMessageDelta _ stop u =>
      Some (Stopped id model blocks stop (OutputTokens u))
  | Stopped id model blocks stop n, anthropicMessageStop _ => Some (Finished id model blocks stop n)
  | _, _ => None
  end.

Definition client_step (c : client) (f : frame) : option client :=
  match f with
  | Event name v =>
      if decide (name = expected_type v ∧ event_type v = name) then client_value c v else None
  | _ => None
  end.

Fixpoint read (c : client) (fs : list frame) : option client :=
  match fs with
  | [] => Some c
  | f :: fs => c ← client_step c f; read c fs
  end.

(** What a complete stream says. *)
Definition tool_blocks (draws : nat → list Z) (resp : Response) : list read_block :=
  imap (λ i tc, ReadTool (tool_id draws (re_ToolResults resp) i) (tcs_Name tc)
                  (MarshalArguments (tcs_Arguments tc))) (re_ToolCalls resp).

Definition text_blocks (resp : Response) : list read_block :=
  if decide (text_body resp = "") then [] else [ReadText (words_of (text_body resp))].

Lemma client_step_ev c v : event_type v = expected_type v → client_step c (ev v) = client_value c v.
Proof. intros H. unfold client_step, ev. by rewrite decide_True. Qed.

(** [reads] runs the client on the next event. *)
Ltac reads :=
  rewrite client_step_ev by done;
  cbn [client_value message_start message_delta OutputTokens mh_Content mh_ID mh_Model text_start text_delta json_delta tool_start block_stop
       open_block extend_block];
  rewrite ?decide_True by done;
  cbn [fmap option_fmap option_map compose mbind option_bind read].

Lemma read_app c fs gs : read c (fs ++ gs) = read c fs ≫= λ c, read c gs.
Proof.
  revert c. induction fs as [|f fs IH]; intros c; [done|]. simpl.
  destruct (client_step c f); [apply IH|done].
Qed.

Lemma read_prefix c fs gs : fs `prefix_of` gs → is_Some (read c gs) → is_Some (read c fs).
Proof.
  intros [rest ->]. rewrite read_app. destruct (read c fs); [by eauto|]. by intros [? ?].
Qed.

Lemma read_contents id model blocks text chunks :
  read (Reading id model blocks (Some (ReadText text)))
    ((λ c, ev (text_delta (Z.of_nat (length blocks)) c)) <$> chunks) =
  Some (Reading id model blocks (Some (ReadText (text +:+ cat chunks)%string))).
Proof.
  revert text. induction chunks as [|c chunks IH]; intros text.
  { simpl. by rewrite str_app_nil_r. }
  cbn [fmap list_fmap read]. reads. rewrite IH.
  change (cat (c :: chunks)) with (c +:+ cat chunks)%string. by rewrite str_app_assoc.
Qed.

Lemma read_input id model blocks callID name input chunks :
  read (Reading id model blocks (Some (ReadTool callID name input)))
    ((λ c, ev (json_delta (Z.of_nat (length blocks)) c)) <$> chunks) =
  Some (Reading id model blocks (Some (ReadTool callID name (input +:+ cat chunks)%string))).
Proof.
  revert input. induction chunks as [|c chunks IH]; intros input.
  { simpl. by rewrite str_app_nil_r. }
  cbn [fmap list_fmap read]. reads. rewrite IH.
  change (cat (c :: chunks)) with (c +:+ cat chunks)%string. by rewrite str_app_assoc.
Qed.

Lemma read_tools id model blocks draws results i calls :
  read (Reading id model blocks None) (tool_frames draws results i (Z.of_nat (length blocks)) calls) =
  Some (Reading id model (blocks ++ imap (λ j tc, ReadTool (tool_id draws results (i + j)) (tcs_Name tc)
    (MarshalArguments (tcs_Arguments tc))) calls) None).
Proof.
  revert i blocks. induction calls as [|tc calls IH]; intros i blocks; [by rewrite app_nil_r|].
  cbn [tool_frames]. rewrite read_app. cbn [read]. reads.
  rewrite read_app, read_input, chunkString_cat. cbn [mbind option_bind].
  rewrite read_app. cbn [read]. reads.
  replace (Z.of_nat (length blocks) + 1)%Z with (Z.of_nat (length (blocks ++ [ReadTool
    (tool_id draws results i) (tcs_Name tc) (MarshalArguments (tcs_Arguments tc))])))
    by (rewrite length_app; simpl; lia).
  rewrite IH, <-app_assoc. cbn. rewrite Nat.add_0_r. do 4 f_equal.
  apply imap_ext. intros j x _. unfold compose. do 2 f_equal. lia.
Qed.

Lemma read_rest id model blocks draws resp :
  read (Reading id model blocks None) (rest_frames draws resp (Z.of_nat (length blocks))) =
  Some (Finished id model (blocks ++ tool_blocks draws resp) (stop_reason resp) (output_tokens resp)).
Proof.
  unfold rest_frames. rewrite !read_app, read_tools. cbn [mbind option_bind app read]. reads.
  reads. done.
Qed.

Lemma read_complete draw draws resp cfg :
  malformed (newPacer cfg) = false → (truncateAfter (newPacer cfg) ≤ 0)%Z →
  read Waiting (anthropic_frames draw draws resp cfg) =
  Some (Finished ("msg_" +:+ generateAnthropicID draw)%string (re_Model resp)
    (text_blocks resp ++ tool_blocks draws resp) (stop_reason resp) (output_tokens resp)).
Proof.
  intros Hm Ht. unfold anthropic_frames, text_blocks. cbv zeta. rewrite Hm, read_app. cbn [read]. reads. destruct (decide (text_body resp = "")) as [He|He].
  { apply (read_rest _ _ []). }
  unfold content_frames. rewrite !decide_False by (unfold cut_at; lia).
  rewrite read_app. cbn [read]. reads.
  rewrite read_app, (read_contents _ _ []), Chunk_cat. cbn [mbind option_bind].
  rewrite read_app. cbn [read]. reads. apply (read_rest _ _ [_]).
Qed.

(** Cut short, a stream still follows the protocol as far as it goes. *)
Lemma read_frames draw draws resp cfg : malformed (newPacer cfg) = false →
  is_Some (read Waiting (anthropic_frames draw draws resp cfg)).
Proof.
  intros Hm. destruct (decide (truncateAfter (newPacer cfg) ≤ 0)%Z) as [Ht|Ht].
  { rewrite read_complete by done. eauto. }
  unfold anthropic_frames. cbv zeta. rewrite Hm, read_app. cbn [read]. reads.
  destruct (decide (text_body resp = "")) as [He|He]; [rewrite (read_rest _ _ []); eauto|].
  unfold content_frames. destruct (decide (cut_at _ _)); rewrite read_app; cbn [read]; reads.
  - rewrite Hm, !app_nil_r, (read_contents _ _ []). eauto.
  - rewrite read_app, (read_contents _ _ []). cbn [mbind option_bind].
    rewrite read_app. cbn [read]. reads. eapply mk_is_Some, (read_rest _ _ [_]).
Qed.

(** an Anthropic stream writes, whatever interrupts it, a prefix of its frames,
    and nothing when the connection cannot stream.  Unless a malformed frame was asked
    for, a client that follows the protocol (blocks numbered from 0, opened, filled and
    closed in turn) accepts what it got, wherever the stream stopped; from a complete
    stream it reads the message id, the text block with the words of the content or of
    the refusal, one tool block per call with its id and all its argument bytes, the
    stop reason and the token count. *)
Theorem StreamAnthropic_correct (flusher : bool) (draw : list Z) (draws : nat → list Z)
    (resp : Response) (cfg : option StreamingConfig) (st : stream_st) :
  jitter_bounded cfg →
  ∃ st' res dn, StreamAnthropic flusher draw draws resp cfg st = (st', res) ∧
    written st' = written st ++ dn ∧
    if flusher
    then dn `prefix_of` anthropic_frames draw draws resp cfg ∧
      (malformed (newPacer cfg) = false → is_Some (read Waiting dn) ∧
        ((truncateAfter (newPacer cfg) ≤ 0)%Z → res = inr tt →
        read Waiting dn = Some (Finished ("msg_" +:+ generateAnthropicID draw)%string (re_Model resp)
          (text_blocks resp ++ tool_blocks draws resp) (stop_reason resp) (output_tokens resp)))) ∧
      (undisturbed → res = inr tt ∧ dn = anthropic_frames draw draws resp cfg)
    else res = inl ErrNotFlusher ∧ dn = [].
Proof.
  intros Hj%jitter_bounded_ok. destruct flusher; cycle 1.
  { exists st, (inl ErrNotFlusher), []. by rewrite app_nil_r. }
  destruct (anthropic_runs draw draws resp cfg Hj st) as (st' & res & dn & H1 & Hw & Hp & Hok & Hu).
  exists st', res, dn. do 3 (split; [done|]). split; [|done]. intros Hm. split.
  { by eapply read_prefix, read_frames. }
  intros Ht Hres. destruct (Hok tt Hres) as [_ [?| ->]]; [congruence|]. by apply read_complete.
Qed.
End stream.

(** ** Example *)

#[local] Instance ex_rand : GoRandV2.
Proof.
  refine {| rng2 := unit; Int64N n g := (0%Z, g); NormFloat64_2 g := (f64_zero, g) |}.
  intros n g Hn. simpl. lia.
Defined.
#[local] Instance ex_math : GoMath := {| Log x := x; Exp x := x |}.
#[local] Instance ex_json : GoJson := λ _, "{a longer argument string}".
#[local] Existing Instance amd64_conv.

Definition ex_response : Response :=
  mkResponse "bot" "claude" "one two  three four five"
    [mkToolCallSpec "search" [] "raw"; mkToolCallSpec "lookup" [] ""]
    [mkToolCallResult "toolu_0" "search" VNil None false] "" "" [] "" "" None.

Definition fresh : @stream_st anthropic_event ex_rand := mkStreamSt 0 [] () ().

Definition no_faults : Faults string := λ _, None.

Lemma StreamAnthropic_correct_witness :
  ∃ st' res dn, StreamAnthropic (fl := no_faults) true [1%Z] (λ _, [2%Z]) ex_response None
      fresh = (st', res) ∧
    res = inr tt ∧ read Waiting dn = Some (Finished "msg_01" "claude"
      [ReadText "one two three four five"; ReadTool "toolu_0" "search" "{a longer argument string}";
       ReadTool "toolu_02" "lookup" "{a longer argument string}"] "tool_use" 7).
Proof.
  destruct (StreamAnthropic_correct (fl := no_faults) true [1%Z] (λ _, [2%Z]) ex_response None fresh I) as (st' & res & dn & H1 & _ & _ & Hc & Hu).
  destruct (Hu ltac:(intros n; reflexivity)) as [Hres _].
  exists st', res, dn. split; [exact H1|]. split; [exact Hres|].
  destruct (Hc eq_refl) as [_ Hr]. rewrite (Hr ltac:(vm_compute; discriminate) Hres).
  vm_compute. reflexivity.
Defined.
