(* ===== verification/GeminiStream.v ===== *)
(** The Gemini event stream ([internal/streaming/gemini.go]): every event is a
    response with some parts, the last one carries the finish reason and the usage. *)

From S2P Require Import Prelude GoBase GoFloat GoStrings AgentTypes ToolProcessor ResponseGenerator.
From S2P Require Import StreamCore.

(** [strings.ToUpper]. *)
Class GoUpper := ToUpper : string → string.

(** ** Events *)

Record geminiStreamFunctionCall := mkGeminiFunctionCall { gf_Name : string; gf_Args : list (string * value) }.

Record geminiStreamPart := mkGeminiPart {
  gp_Text : string;
  gp_FunctionCall : option geminiStreamFunctionCall
}.

Record geminiStreamContent := mkGeminiContent { gc_Role : string; gc_Parts : list geminiStreamPart }.

Record geminiStreamCandidate := mkGeminiCandidate {
  gd_Content : geminiStreamContent;
  gd_FinishReason : string;
  gd_Index : Z
}.

Record geminiStreamUsage := mkGeminiUsage {
  PromptTokenCount : Z;
  CandidatesTokenCount : Z;
  TotalTokenCount : Z
}.

Record geminiStreamResponse := mkGeminiResponse {
  gr_Candidates : list geminiStreamCandidate;
  gr_UsageMetadata : option geminiStreamUsage
}.

Section stream.
Context {rand : GoRandV2} {conv : GoConv} {gmath : GoMath} {upper : GoUpper} {E : Type} {fl : Faults E}.
Open Scope stream_scope.

Abbreviation frame := (frame geminiStreamResponse).
Abbreviation M := (@M geminiStreamResponse rand E).

(** ** The stream *)

Definition text_body (resp : Response) : string :=
  if decide (re_Content resp = "") then re_Refusal resp else re_Content resp.

Definition text_response (chunk : string) : geminiStreamResponse :=
  mkGeminiResponse [mkGeminiCandidate (mkGeminiContent "model" [mkGeminiPart chunk None]) "" 0] None.

Definition call_response (tc : ToolCallSpec) : geminiStreamResponse :=
  mkGeminiResponse
    [mkGeminiCandidate
       (mkGeminiContent "model"
          [mkGeminiPart "" (Some (mkGeminiFunctionCall (tcs_Name tc) (tcs_Arguments tc)))]) "" 0] None.

Definition finish_reason (resp : Response) : string :=
  if decide (re_FinishReason resp ≠ "") then GeminiFinishReason ToUpper (re_FinishReason resp)
  else if decide (re_Refusal resp ≠ "") then "SAFETY" else "STOP".

Definition final_response (resp : Response) (promptTokens candidateTokens : Z) : geminiStreamResponse :=
  mkGeminiResponse [mkGeminiCandidate (mkGeminiContent "model" []) (finish_reason resp) 0]
    (Some (mkGeminiUsage promptTokens candidateTokens (wrap64 (promptTokens + candidateTokens)))).

(** The loop over the content chunks. *)
Definition gemini_contents : streamPacer → nat → list string → M bool :=
  stream_contents (λ chunk, WriteData (text_response chunk)).

(** The loop over the tool calls. *)
Fixpoint gemini_calls (delayMs : Z) (calls : list ToolCallSpec) : M unit :=
  match calls with
  | [] => ret tt
  | tc :: calls =>
      ctxErr;;
      sleepCtx (duration_ms delayMs);;
      WriteData (call_response tc);;
      gemini_calls delayMs calls
  end.

Definition StreamGemini (flusher : bool) (resp : Response) (streamCfg : option StreamingConfig)
    (promptTokens candidateTokens : Z) : M unit :=
  if negb flusher then fail ErrNotFlusher
  else
    let p := newPacer streamCfg in
    let textBody := text_body resp in
    firstByte p;;
    truncated <- (if decide (textBody = "") then ret false
                  else gemini_contents p 0 (Chunk (NewChunker (stream_chunk_size streamCfg)) textBody));
    if (truncated : bool) then ret tt
    else if malformed p then writeStop p
    else
      gemini_calls (stream_delay streamCfg) (re_ToolCalls resp);;
      WriteData (final_response resp promptTokens candidateTokens).

(** ** What the stream writes *)

Definition gemini_frames (resp : Response) (cfg : option StreamingConfig)
    (promptTokens candidateTokens : Z) : list frame :=
  let p := newPacer cfg in
  let chunks := if decide (text_body resp = "") then []
    else Chunk (NewChunker (stream_chunk_size cfg)) (text_body resp) in
  content_frames (Data ∘ text_response) p chunks ++
  if decide (cut_at p (Z.of_nat (length chunks))) then []
  else if malformed p then [RawData malformed_frame]
  else ((Data ∘ call_response) <$> re_ToolCalls resp) ++
    [Data (final_response resp promptTokens candidateTokens)].

Lemma runs_gemini_calls d calls :
  runs (gemini_calls d calls) ((Data ∘ call_response) <$> calls) tt false.
Proof.
  induction calls as [|tc calls IH]; [apply runs_ret|]. cbn [gemini_calls].
  apply (runs_bind _ _ [] _ tt); [apply runs_ctxErr|].
  apply (runs_bind _ _ [] _ tt); [apply runs_sleep|].
  by apply (runs_bind _ _ [_] _ tt); [apply runs_data|].
Qed.

Lemma gemini_runs resp cfg pt ct : jitter_ok (newPacer cfg) →
  runs (StreamGemini true resp cfg pt ct) (gemini_frames resp cfg pt ct) tt (malformed (newPacer cfg)).
Proof.
  intros Hj. unfold StreamGemini, gemini_frames. cbv zeta. cbn [negb]. set (p := newPacer cfg) in *.
  apply (runs_bind _ _ [] _ tt); [apply runs_first|].
  set (chunks := if decide (text_body resp = "") then [] else Chunk _ _).
  replace (if decide (text_body resp = "") then ret false else _) with (gemini_contents p 0 chunks)
    by (subst chunks; by destruct (decide (text_body resp = ""))).
  apply runs_text_then; [intros c; apply runs_data|done|]. apply runs_malformed.
  apply (runs_bind _ _ _ _ tt); [apply runs_gemini_calls|apply runs_data].
Qed.

(** ** A client *)

(** What the client has collected: the text, the calls in order, and from the last
    event the finish reason and the usage. *)
Record collected := mkCollected {
  co_text : string;
  co_calls : list geminiStreamFunctionCall;
  co_finish : option (string * option geminiStreamUsage)
}.

Definition add_part (c : collected) (p : geminiStreamPart) : collected :=
  mkCollected (co_text c +:+ gp_Text p)%string
    (co_calls c ++ match gp_FunctionCall p with Some f => [f] | None => [] end) (co_finish c).

(** [None] when an event follows the one with the finish reason, or is not a response. *)
Definition collect (c : collected) (f : frame) : option collected :=
  match f, co_finish c with
  | Data r, None =>
      match gr_Candidates r with
      | [d] =>
          let c := foldl add_part c (gc_Parts (gd_Content d)) in
          Some (if decide (gd_FinishReason d = "") then c
                else mkCollected (co_text c) (co_calls c) (Some (gd_FinishReason d, gr_UsageMetadata r)))
      | _ => None
      end
  | _, _ => None
  end.

Fixpoint collect_all (c : collected) (fs : list frame) : option collected :=
  match fs with
  | [] => Some c
  | f :: fs => c ← collect c f; collect_all c fs
  end.

Lemma collect_app c fs gs : collect_all c (fs ++ gs) = collect_all c fs ≫= λ c, collect_all c gs.
Proof.
  revert c. induction fs as [|f fs IH]; intros c; [done|]. simpl.
  destruct (collect c f); [apply IH|done].
Qed.

Lemma collect_text_response text calls c :
  collect (mkCollected text calls None) (Data (text_response c)) =
  Some (mkCollected (text +:+ c)%string calls None).
Proof.
  cbn [collect co_finish text_response gr_Candidates gd_Content gc_Parts foldl gd_FinishReason].
  rewrite decide_True by done. unfold add_part. simpl. by rewrite app_nil_r.
Qed.

Lemma collect_call_response text calls tc :
  collect (mkCollected text calls None) (Data (call_response tc)) =
  Some (mkCollected text (calls ++ [mkGeminiFunctionCall (tcs_Name tc) (tcs_Arguments tc)]) None).
Proof.
  cbn [collect co_finish call_response gr_Candidates gd_Content gc_Parts foldl gd_FinishReason].
  rewrite decide_True by done. unfold add_part. simpl. by rewrite str_app_nil_r.
Qed.

Lemma collect_text text calls chunks :
  collect_all (mkCollected text calls None) ((Data ∘ text_response) <$> chunks) =
  Some (mkCollected (text +:+ cat chunks)%string calls None).
Proof.
  revert text. induction chunks as [|c chunks IH]; intros text.
  { simpl. by rewrite str_app_nil_r. }
  cbn [fmap list_fmap collect_all compose]. rewrite collect_text_response.
  cbn [mbind option_bind]. rewrite IH.
  change (cat (c :: chunks)) with (c +:+ cat chunks)%string. by rewrite str_app_assoc.
Qed.

Definition calls_of (resp : Response) : list geminiStreamFunctionCall :=
  (λ tc, mkGeminiFunctionCall (tcs_Name tc) (tcs_Arguments tc)) <$> re_ToolCalls resp.

Lemma collect_calls text calls tcs :
  collect_all (mkCollected text calls None) ((Data ∘ call_response) <$> tcs) =
  Some (mkCollected text (calls ++ ((λ tc, mkGeminiFunctionCall (tcs_Name tc) (tcs_Arguments tc)) <$> tcs)) None).
Proof.
  revert calls. induction tcs as [|tc tcs IH]; intros calls; [by rewrite app_nil_r|].
  cbn [fmap list_fmap collect_all compose]. rewrite collect_call_response.
  cbn [mbind option_bind]. by rewrite IH, <-app_assoc.
Qed.

(** [strings.ToUpper] does not make a string vanish. *)
Definition upper_keeps : Prop := ∀ s, s ≠ "" → ToUpper s ≠ "".

Lemma finish_nonempty resp : upper_keeps → finish_reason resp ≠ "".
Proof.
  intros Hu. unfold finish_reason. destruct (decide (re_FinishReason resp ≠ "")) as [Hf|]; cycle 1.
  { by destruct (decide (re_Refusal resp ≠ "")). }
  unfold GeminiFinishReason. repeat (case_decide; [done|]). by apply Hu.
Qed.

(** What a client collects from the frames of a complete stream. *)
Lemma gemini_collected resp cfg pt ct :
  upper_keeps → malformed (newPacer cfg) = false → (truncateAfter (newPacer cfg) ≤ 0)%Z →
  collect_all (mkCollected "" [] None) (gemini_frames resp cfg pt ct) =
  Some (mkCollected (words_of (text_body resp)) (calls_of resp)
    (Some (finish_reason resp, Some (mkGeminiUsage pt ct (wrap64 (pt + ct)))))).
Proof.
  intros Hup Hm Ht. unfold gemini_frames, content_frames. cbv zeta. rewrite Hm.
  set (chunks := if decide (text_body resp = "") then [] else Chunk _ _).
  rewrite !decide_False by (unfold cut_at; lia).
  rewrite collect_app, collect_text. unfold chunks. rewrite Chunk_text. cbn [mbind option_bind].
  rewrite collect_app, collect_calls. cbn [mbind option_bind collect_all].
  unfold collect. cbn. by rewrite decide_False by by apply finish_nonempty.
Qed.

(** a Gemini stream writes, whatever interrupts it, a prefix of its frames, and
    nothing when the connection cannot stream; undisturbed it writes all of them.
    From a complete stream a client collects the words of the content or of the
    refusal, the tool calls in order with their arguments, and from the last event, and
    only there, the finish reason and the usage with the sum of its counts. *)
Theorem StreamGemini_correct (flusher : bool) (resp : Response) (cfg : option StreamingConfig)
    (promptTokens candidateTokens : Z) (st : stream_st) :
  jitter_bounded cfg → upper_keeps →
  ∃ st' res dn, StreamGemini flusher resp cfg promptTokens candidateTokens st = (st', res) ∧
    written st' = written st ++ dn ∧
    if flusher
    then dn `prefix_of` gemini_frames resp cfg promptTokens candidateTokens ∧
      (undisturbed → res = inr tt ∧ dn = gemini_frames resp cfg promptTokens candidateTokens) ∧
      (malformed (newPacer cfg) = false → (truncateAfter (newPacer cfg) ≤ 0)%Z → res = inr tt →
        collect_all (mkCollected "" [] None) dn =
        Some (mkCollected (words_of (text_body resp)) (calls_of resp)
          (Some (finish_reason resp, Some (mkGeminiUsage promptTokens candidateTokens
            (wrap64 (promptTokens + candidateTokens)))))))
    else res = inl ErrNotFlusher ∧ dn = [].
Proof.
  intros Hj%jitter_bounded_ok Hup. destruct flusher; cycle 1.
  { exists st, (inl ErrNotFlusher), []. by rewrite app_nil_r. }
  destruct (gemini_runs resp cfg promptTokens candidateTokens Hj st) as (st' & res & dn & H1 & Hw & Hp & Hok & Hu).
  exists st', res, dn. do 4 (split; [done|]). intros Hm Ht Hres.
  destruct (Hok tt Hres) as [_ [?| ->]]; [congruence|].
  by apply gemini_collected.
Qed.
End stream.

(** ** Example *)

#[local] Instance ex_rand : GoRandV2.
Proof.
  refine {| rng2 := unit; Int64N n g := (0%Z, g); NormFloat64_2 g := (f64_zero, g) |}.
  intros n g Hn. simpl. lia.
Defined.
#[local] Instance ex_math : GoMath := {| Log x := x; Exp x := x |}.
#[local] Instance ex_upper : GoUpper := λ s, s.
#[local] Existing Instance amd64_conv.

Definition ex_response : Response :=
  mkResponse "bot" "gemini" "one two  three four five" [mkToolCallSpec "search" [("q"%string, VString "x")] ""]
    [] "" "" [] "OTHER" "" None.

Definition fresh : @stream_st geminiStreamResponse ex_rand := mkStreamSt 0 [] () ().

Definition no_faults : Faults string := λ _, None.

Lemma StreamGemini_correct_witness :
  ∃ st' res dn, StreamGemini (fl := no_faults) true ex_response None 3 4 fresh = (st', res) ∧
    res = inr tt ∧ collect_all (mkCollected "" [] None) dn =
      Some (mkCollected "one two three four five" [mkGeminiFunctionCall "search" [("q"%string, VString "x")]]
        (Some ("OTHER"%string, Some (mkGeminiUsage 3 4 7)))).
Proof.
  destruct (StreamGemini_correct (fl := no_faults) true ex_response None 3 4 fresh I (λ s H, H))
    as (st' & res & dn & H1 & _ & _ & Hu & Hc).
  destruct (Hu ltac:(intros n; reflexivity)) as [Hres _].
  exists st', res, dn. split; [exact H1|]. split; [exact Hres|].
  rewrite (Hc eq_refl ltac:(vm_compute; discriminate) Hres). vm_compute. reflexivity.
Defined.
