(* ===== verification/DocumentTypes.v ===== *)
(** The test-suite and MCP server documents: [internal/types/testsuite.go] and
    [internal/types/mcp.go], field by field. *)

From S2P Require Import Prelude GoBase AgentTypes.

(** ** internal/types/testsuite.go *)

Definition TestSuiteKind : string := "TestSuite".
Definition AssertToolCall : string := "tool_call".
Definition AssertResponseContains : string := "response_contains".
Definition AssertScenarioMatched : string := "scenario_matched".
Definition AssertLatencyMsLT : string := "latency_ms_lt".

Record TestTarget := mkTestTarget { tt_Agent : string; tt_Pipeline : string }.

Record TestStep := mkTestStep { ts_Role : string; ts_Content : string }.

Record TestAssertion := mkTestAssertion {
  ta_Type : string;
  ta_Tool : string;
  ta_Args : list (string * value);
  ta_Value : string;
  ta_MaxMs : Z;
  ta_NodeID : string
}.

Record TestCase := mkTestCase {
  tc_Name : string; tc_Steps : list TestStep; tc_Assertions : list TestAssertion
}.

Record TestSuiteSpec := mkTestSuiteSpec { tss_Target : TestTarget; tss_Cases : list TestCase }.

Record TestSuiteDefinition := mkTestSuiteDefinition {
  tsd_APIVersion : string; tsd_Kind : string; tsd_Metadata : Metadata; tsd_Spec : TestSuiteSpec
}.

(** ** internal/types/mcp.go *)

Definition MCPServerKind : string := "MCPServer".
Definition DefaultMCPProtocolVersion : string := "2025-11-25".

Record MCPContentBlock := mkMCPContentBlock {
  mb_Type : string; mb_Text : string; mb_Data : string;
  mb_MimeType : string; mb_URI : string; mb_Blob : string
}.

Record MCPToolResponse := mkMCPToolResponse {
  mtr_Match : list (string * value);
  mtr_Default : bool;
  mtr_Content : list MCPContentBlock;
  mtr_IsError : bool
}.

Record MCPTool := mkMCPTool {
  mt_Name : string;
  mt_Description : string;
  mt_InputSchema : list (string * value);
  mt_Responses : list MCPToolResponse
}.

Record MCPResource := mkMCPResource {
  ms_URI : string; ms_Name : string; ms_Description : string;
  ms_MimeType : string; ms_Text : string; ms_Blob : string
}.

Record MCPPromptArg := mkMCPPromptArg {
  mpa_Name : string; mpa_Description : string; mpa_Required : bool
}.

Record MCPPromptMessage := mkMCPPromptMessage { mpm_Role : string; mpm_Content : MCPContentBlock }.

Record MCPPrompt := mkMCPPrompt {
  mp_Name : string;
  mp_Description : string;
  mp_Arguments : list MCPPromptArg;
  mp_Messages : list MCPPromptMessage
}.

Record MCPCompletion := mkMCPCompletion {
  mc_RefType : string; mc_RefName : string; mc_ArgName : string; mc_Values : list string
}.

Record MCPCapabilities := mkMCPCapabilities {
  mcap_Tools : bool; mcap_Resources : bool; mcap_Prompts : bool; mcap_Logging : bool
}.

Record MCPServerSpec := mkMCPServerSpec {
  mss_ProtocolVersion : string;
  mss_Capabilities : MCPCapabilities;
  mss_Tools : list MCPTool;
  mss_Resources : list MCPResource;
  mss_Prompts : list MCPPrompt;
  mss_Completions : list MCPCompletion
}.

Record MCPServerDefinition := mkMCPServerDefinition {
  msd_APIVersion : string; msd_Kind : string; msd_Metadata : Metadata; msd_Spec : MCPServerSpec
}.

(** [MCPContentBlock.MarshalJSON]: the value it marshals. A resource is nested, and
    an empty field is left out; the scalar blocks keep their type in any case. *)
Definition omitempty (k v : string) : list (string * value) :=
  if decide (v = "") then [] else [(k, VString v)].

Definition block_json (b : MCPContentBlock) : list (string * value) :=
  if decide (mb_Type b = "resource") then
    [("type", VString "resource");
     ("resource", VObj (omitempty "uri" (mb_URI b) ++ omitempty "mimeType" (mb_MimeType b) ++
                        omitempty "text" (mb_Text b) ++ omitempty "blob" (mb_Blob b)))]
  else
    ("type", VString (mb_Type b)) ::
    omitempty "text" (mb_Text b) ++ omitempty "data" (mb_Data b) ++
    omitempty "mimeType" (mb_MimeType b) ++ omitempty "uri" (mb_URI b) ++ omitempty "blob" (mb_Blob b).
