(* ===== verification/Runner.v ===== *)
(** The test runner, [internal/runner]: a suite sends the last user step of each case to
    its agent or its pipeline and evaluates the case's assertions on the answer
    ([runner.go]); the results become a JUnit report ([junit.go]).

    The runner asks the engine through [NodeEngine], as the pipelines do. Texts of errors
    are parameters; latencies are arguments. *)

From S2P Require Import Prelude GoBase GoFloat GoStrings AgentTypes DocumentTypes ToolProcessor ResponseGenerator Engine Pipeline.

(** ** Results *)

Record CaseResult := mkCaseResult {
  cr_Name : string; cr_Passed : bool; cr_Failures : list string; cr_Latency : Z; cr_FinalNode : string; cr_ErrMessage : string
}.

Record SuiteResult := mkSuiteResult {
  sr_SuiteName : string; sr_Target : string; sr_Cases : list CaseResult; sr_Passed : Z; sr_Failed : Z; sr_Latency : Z
}.

(** ** Assertions *)

Definition lastUserStep (steps : list TestStep) : string :=
  match find (λ s, bool_decide (ts_Role s = "user" ∨ ts_Role s = "")) (reverse steps) with
  | Some s => ts_Content s
  | None => ""
  end.

Definition targetLabel (t : TestTarget) : string :=
  if decide (tt_Agent t ≠ "") then "agent:" +:+ tt_Agent t else "pipeline:" +:+ tt_Pipeline t.

Definition args_match (wantArgs args : list (string * value)) : bool :=
  forallb (λ kv, match obj_get args kv.1 with Some got => DeepEqual got kv.2 | None => false end) wantArgs.

Definition hasToolCall (calls : list ToolCallSpec) (name : string) (wantArgs : list (string * value)) : bool :=
  existsb (λ tc, bool_decide (tcs_Name tc = name) && args_match wantArgs (tcs_Arguments tc)) calls.

Section runner.
Context {fmt : GoFmt}.

Definition toolCallSummary (calls : list ToolCallSpec) : value :=
  VArr ((λ c, VString (tcs_Name c +:+ "(" +:+ Sprint (VObj (tcs_Arguments c)) +:+ ")")) <$> calls).

(** [Duration.Milliseconds]. *)
Definition milliseconds (d : Z) : Z := Z.quot d 1000000.

(** The answer an assertion is about: the final one, or that of its node. *)
Definition assertion_target (a : TestAssertion) (resp : option Response) (pr : option PipelineResult) : string + option Response :=
  if decide (ta_NodeID a = "") then inr resp
  else match pr with
       | None => inl ("assertion " +:+ Quote (ta_Type a) +:+ ": node_id set but case is not a pipeline target")
       | Some pr =>
           match ResponseByNodeID pr (ta_NodeID a) with
           | None => inl ("assertion " +:+ Quote (ta_Type a) +:+ ": node " +:+ Quote (ta_NodeID a) +:+ " produced no response")
           | Some r => inr (Some r)
           end
       end.

(** The [switch] of [evaluateAssertion]: the failure of an assertion on its answer. *)
Definition evaluate_answer (a : TestAssertion) (target : option Response) (latency : Z) : string :=
  if decide (ta_Type a = AssertResponseContains) then
    match target with
    | None => "response_contains: no response produced"
    | Some r => if str_contains (re_Content r) (ta_Value a) then ""
                else "response_contains: " +:+ Quote (ta_Value a) +:+ " not found in " +:+ Quote (truncate (re_Content r) 120)
    end
  else if decide (ta_Type a = AssertScenarioMatched) then
    match target with
    | None => "scenario_matched: no response produced"
    | Some r => if decide (re_ScenarioName r = ta_Value a) then ""
                else "scenario_matched: expected " +:+ Quote (ta_Value a) +:+ ", got " +:+ Quote (re_ScenarioName r)
    end
  else if decide (ta_Type a = AssertToolCall) then
    match target with
    | None => "tool_call: no response produced"
    | Some r => if hasToolCall (re_ToolCalls r) (ta_Tool a) (ta_Args a) then ""
                else "tool_call: expected call to " +:+ Quote (ta_Tool a) +:+ " with args " +:+ Sprint (VObj (ta_Args a)) +:+
                     ", got " +:+ Sprint (toolCallSummary (re_ToolCalls r))
    end
  else if decide (ta_Type a = AssertLatencyMsLT) then
    if decide (milliseconds latency < ta_MaxMs a)%Z then ""
    else "latency_ms_lt: latency " +:+ fmt_d (milliseconds latency) +:+ "ms >= max " +:+ fmt_d (ta_MaxMs a) +:+ "ms"
  else "unknown assertion type " +:+ Quote (ta_Type a).

(** The failure of an assertion, empty when it holds. *)
Definition evaluateAssertion (a : TestAssertion) (resp : option Response) (pr : option PipelineResult) (latency : Z) : string :=
  match assertion_target a resp pr with
  | inl msg => msg
  | inr target => evaluate_answer a target latency
  end.

(** ** Cases and suites *)

Context {mr : MapRange} {W E : Type} {engine : NodeEngine W E}.

(** The texts of the errors of the engine and of a pipeline run. *)
Class RunnerTexts := { engine_text : E → string; pipeline_text : @PipelineError E → string }.
Context {texts : RunnerTexts}.

(** The scheduling and the time of a case's run. *)
Record CaseEnv := mkCaseEnv { ce_order : list nat; ce_elapsed : Z; ce_latency : Z }.

Definition failed_case (name failure : string) : CaseResult := mkCaseResult name false [failure] 0 "" "".

Definition errored_case (env : CaseEnv) (name prefix err : string) : CaseResult :=
  mkCaseResult name false [prefix +:+ err] (ce_latency env) "" err.

(** The assertions on what the target answered. *)
Definition judged_case (env : CaseEnv) (tc : TestCase) (resp : option Response) (pr : option PipelineResult) : CaseResult :=
  let failures := filter (λ msg, msg ≠ "") ((λ a, evaluateAssertion a resp pr (ce_latency env)) <$> tc_Assertions tc) in
  let final := match pr ≫= λ pr, last (pr_Nodes pr) with Some n => nr_NodeID n | None => "" end in
  mkCaseResult (tc_Name tc) (bool_decide (failures = [])) failures (ce_latency env) final "".

Definition case_session (suite : TestSuiteDefinition) (tc : TestCase) : string :=
  "test::" +:+ md_Name (tsd_Metadata suite) +:+ "::" +:+ tc_Name tc.

(** [pipelines] is the registry of the runner, if it has one. [None] is a pipeline run out
    of fuel. *)
Definition runCase (pipelines : option (string → option PipelineDefinition)) (suite : TestSuiteDefinition) (env : CaseEnv)
    (tc : TestCase) (w : W) : option (W * CaseResult) :=
  let name := tc_Name tc in
  let target := tss_Target (tsd_Spec suite) in
  let userMsg := lastUserStep (tc_Steps tc) in
  if decide (tc_Steps tc = []) then Some (w, failed_case name "case has no steps")
  else if decide (userMsg = "") then Some (w, failed_case name "case has no user step")
  else if decide (tt_Agent target ≠ "") then
    let '(w, (answer, _)) :=
      process (mkInboundRequest (tt_Agent target) "" (case_session suite tc) [mkRequestMessage "user" userMsg 0] false) w in
    Some (w, match answer with
             | inl err => errored_case env name "engine error: " (engine_text err)
             | inr resp => judged_case env tc (Some resp) None
             end)
  else
    match pipelines with
    | None => Some (w, failed_case name "no pipeline registry wired into runner")
    | Some get =>
        match get (tt_Pipeline target) with
        | None => Some (w, failed_case name ("pipeline " +:+ Quote (tt_Pipeline target) +:+ " not found"))
        | Some pdef =>
            '(w, (result, err)) ← RunContext (ce_order env) (ce_elapsed env) (Some pdef) userMsg (case_session suite tc) w;
            Some (w, match err with
                     | Some err => errored_case env name "pipeline error: " (pipeline_text err)
                     | None => judged_case env tc (result ≫= FinalResponse) result
                     end)
        end
    end.

Fixpoint run_cases (pipelines : option (string → option PipelineDefinition)) (suite : TestSuiteDefinition)
    (envs : nat → CaseEnv) (i : nat) (cases : list TestCase) (w : W) : option (W * list CaseResult) :=
  match cases with
  | [] => Some (w, [])
  | tc :: cases =>
      '(w, cr) ← runCase pipelines suite (envs i) tc w;
      '(w, crs) ← run_cases pipelines suite envs (S i) cases w;
      Some (w, cr :: crs)
  end.

(** [elapsed] is the time of the suite. *)
Definition RunSuite (pipelines : option (string → option PipelineDefinition)) (envs : nat → CaseEnv) (elapsed : Z)
    (suite : option TestSuiteDefinition) (w : W) : option (W * (string + SuiteResult)) :=
  match suite with
  | None => Some (w, inl "nil suite")
  | Some suite =>
      let name := md_Name (tsd_Metadata suite) in
      let target := tss_Target (tsd_Spec suite) in
      if decide (tt_Agent target = "" ∧ tt_Pipeline target = "") then
        Some (w, inl ("suite " +:+ Quote name +:+ ": target.agent or target.pipeline is required"))
      else if decide (tt_Agent target ≠ "" ∧ tt_Pipeline target ≠ "") then
        Some (w, inl ("suite " +:+ Quote name +:+ ": only one of target.agent or target.pipeline may be set"))
      else
        '(w, crs) ← run_cases pipelines suite envs 0 (tss_Cases (tsd_Spec suite)) w;
        Some (w, inr (mkSuiteResult name (targetLabel target) crs
                        (Z.of_nat (length (filter (λ cr, cr_Passed cr = true) crs)))
                        (Z.of_nat (length (filter (λ cr, cr_Passed cr = false) crs))) elapsed))
  end.

(** ** Reports *)

Record JUnitFailure := mkJUnitFailure { jf_Message : string; jf_Type : string; jf_Body : string }.
Record JUnitTestcase := mkJUnitTestcase { jc_Classname : string; jc_Name : string; jc_Time : float64; jc_Failure : option JUnitFailure }.
Record JUnitTestsuite := mkJUnitTestsuite {
  js_Name : string; js_Tests : Z; js_Failures : Z; js_Errors : Z; js_Time : float64; js_Cases : list JUnitTestcase
}.
Record JUnitTestsuites := mkJUnitTestsuites {
  jr_Name : string; jr_Tests : Z; jr_Failures : Z; jr_Errors : Z; jr_Time : float64; jr_Suites : list JUnitTestsuite
}.

Definition shortFailureMessage (cr : CaseResult) : string := match cr_Failures cr with [] => cr_ErrMessage cr | f :: _ => f end.

Definition junit_case (target : string) (cr : CaseResult) : JUnitTestcase :=
  let body := Join (cr_Failures cr) newline in
  let failure :=
    if cr_Passed cr then None
    else if decide (cr_ErrMessage cr = "") then Some (mkJUnitFailure (shortFailureMessage cr) "AssertionFailure" body)
    else Some (mkJUnitFailure (cr_ErrMessage cr) "AssertionFailure" (cr_ErrMessage cr +:+ newline +:+ body)) in
  mkJUnitTestcase target (cr_Name cr) (Seconds (cr_Latency cr)) failure.

Definition junit_suite (sr : SuiteResult) : JUnitTestsuite :=
  mkJUnitTestsuite (sr_SuiteName sr) (Z.of_nat (length (sr_Cases sr)))
    (Z.of_nat (length (filter (λ cr, cr_Passed cr = false) (sr_Cases sr)))) 0 (Seconds (sr_Latency sr))
    (junit_case (sr_Target sr) <$> sr_Cases sr).

Definition add_suite (root : JUnitTestsuites) (sr : SuiteResult) : JUnitTestsuites :=
  let suite := junit_suite sr in
  mkJUnitTestsuites (jr_Name root) (jr_Tests root + js_Tests suite) (jr_Failures root + js_Failures suite) (jr_Errors root)
    (f64_add (jr_Time root) (js_Time suite)) (jr_Suites root ++ [suite]).

Definition toJUnit (results : list SuiteResult) : JUnitTestsuites :=
  foldl add_suite (mkJUnitTestsuites "mockagents" 0 0 0 f64_zero []) results.
End runner.

(** ** What an assertion and a case ask for *)

Section meaning.
Context {fmt : GoFmt}.

(** What an assertion says of the answer it is about. *)
Definition answer_meets (a : TestAssertion) (target : option Response) (latency : Z) : Prop :=
  ta_Type a = AssertResponseContains ∧ (∃ r, target = Some r ∧ str_contains (re_Content r) (ta_Value a) = true) ∨
  ta_Type a = AssertScenarioMatched ∧ (∃ r, target = Some r ∧ re_ScenarioName r = ta_Value a) ∨
  ta_Type a = AssertToolCall ∧ (∃ r call, target = Some r ∧ call ∈ re_ToolCalls r ∧ tcs_Name call = ta_Tool a ∧
    ∀ k v, (k, v) ∈ ta_Args a → ∃ got, obj_get (tcs_Arguments call) k = Some got ∧ DeepEqual got v = true) ∨
  ta_Type a = AssertLatencyMsLT ∧ (milliseconds latency < ta_MaxMs a)%Z.

Definition assertion_holds (a : TestAssertion) (resp : option Response) (pr : option PipelineResult) (latency : Z) : Prop :=
  if decide (ta_NodeID a = "") then answer_meets a resp latency
  else ∃ result r, pr = Some result ∧ ResponseByNodeID result (ta_NodeID a) = Some r ∧ answer_meets a (Some r) latency.

Lemma hasToolCall_spec calls name args :
  hasToolCall calls name args = true ↔
  ∃ call, call ∈ calls ∧ tcs_Name call = name ∧
    ∀ k v, (k, v) ∈ args → ∃ got, obj_get (tcs_Arguments call) k = Some got ∧ DeepEqual got v = true.
Proof.
  unfold hasToolCall. rewrite existsb_exists. setoid_rewrite <-list_elem_of_In. f_equiv. intros call.
  rewrite andb_true_iff, bool_decide_eq_true. unfold args_match. rewrite forallb_forall. setoid_rewrite <-list_elem_of_In.
  f_equiv. f_equiv. split.
  - intros H k v Hin. specialize (H (k, v) Hin). cbn [fst snd] in H. destruct (obj_get _ k) as [got|]; [by exists got|done].
  - intros H [k v] Hin. cbn [fst snd]. destruct (H k v Hin) as (got & Hgot & Heq). by rewrite Hgot.
Qed.

Lemma evaluate_answer_meets a target latency : evaluate_answer a target latency = "" ↔ answer_meets a target latency.
Proof.
  unfold evaluate_answer, answer_meets. split.
  - case_decide as Ht; [|case_decide as Ht1; [|case_decide as Ht2; [|case_decide as Ht3; [case_decide|]]]]; intros He;
      try discriminate He; [..|by right; right; right]; (destruct target as [r|]; [|discriminate He]).
    + left. split; [exact Ht|]. exists r. split; [done|]. destruct (str_contains _ _); [done|discriminate He].
    + right; left. split; [exact Ht1|]. exists r. split; [done|]. case_decide; [done|discriminate He].
    + right; right; left. split; [exact Ht2|]. exists r.
      destruct (hasToolCall _ _ _) eqn:Hc; [|discriminate He]. apply hasToolCall_spec in Hc. naive_solver.
  - intros [(Ht & r & -> & Hm)|[(Ht & r & -> & Hm)|[(Ht & r & call & -> & Hm)|(Ht & Hm)]]]; rewrite Ht;
      repeat first [rewrite decide_True by done|rewrite decide_False by done]; [by rewrite Hm|done| |done].
    rewrite (proj2 (hasToolCall_spec _ _ _)); [done|by exists call].
Qed.

(** An assertion passes exactly when the answer it is about is there and meets it. *)
Lemma evaluateAssertion_holds a resp pr latency : evaluateAssertion a resp pr latency = "" ↔ assertion_holds a resp pr latency.
Proof.
  unfold evaluateAssertion, assertion_target, assertion_holds. case_decide as Hid; [apply evaluate_answer_meets|].
  destruct pr as [pr|]; [|naive_solver]. destruct (ResponseByNodeID pr (ta_NodeID a)) as [r|] eqn:Hr; [|naive_solver].
  rewrite evaluate_answer_meets. naive_solver.
Qed.
End meaning.

(** ** Running a suite *)

Section suite_facts.
Context {fmt : GoFmt} {mr : MapRange} {W E : Type} {engine : NodeEngine W E} {texts : RunnerTexts (E := E)}.

(** A pipeline run always ends. *)
Lemma RunContext_total order elapsed def input sessionID (w : W) :
  ∃ w' r, RunContext (E := E) order elapsed def input sessionID w = Some (w', r) ∧ (r.2 = None → is_Some r.1).
Proof.
  unfold RunContext. destruct def as [def|]; [|by eexists w, _].
  case_decide; [by eexists w, _|]. case_decide as H1; [destruct (runSequential _ _ _ _ _) as [w' [ns err]]; by eexists w', _|].
  case_decide as H2; [destruct (runParallel _ _ _ _ _ _) as [w' [ns err]]; by eexists w', _|].
  case_decide as H3; [|by eexists w, _]. unfold runGraph.
  destruct (cyclicNodes_spec (ps_Agents (pd_Spec def)) (ps_Edges (pd_Spec def))) as (cyc & -> & _). cbn [mbind option_bind].
  destruct cyc as [|c cyc]; [|by eexists w, _].
  destruct (walk_roots_runs (md_Name (pd_Metadata def)) sessionID (ps_Agents (pd_Spec def)) (ps_Edges (pd_Spec def))
    (indegree_of (ps_Agents (pd_Spec def)) (ps_Edges (pd_Spec def))) input w) as (st & err & ->). by eexists _, _.
Qed.

(** The target of a case answers its last user step: an agent with one response, a pipeline
    with a result and the response of its last node. *)
Definition answered (pipelines : option (string → option PipelineDefinition)) (suite : TestSuiteDefinition) (env : CaseEnv)
    (tc : TestCase) (w : W) (resp : option Response) (pr : option PipelineResult) : Prop :=
  let target := tss_Target (tsd_Spec suite) in
  let userMsg := lastUserStep (tc_Steps tc) in
  userMsg ≠ "" ∧
  (tt_Agent target ≠ "" ∧ pr = None ∧
     (∃ w' r scenario, resp = Some r ∧
        process (mkInboundRequest (tt_Agent target) "" (case_session suite tc) [mkRequestMessage "user" userMsg 0] false) w =
          (w', (inr r, scenario))) ∨
   tt_Agent target = "" ∧
     (∃ get pdef result w', pipelines = Some get ∧ get (tt_Pipeline target) = Some pdef ∧ pr = Some result ∧
        RunContext (E := E) (ce_order env) (ce_elapsed env) (Some pdef) userMsg (case_session suite tc) w =
          Some (w', (Some result, None)) ∧ resp = FinalResponse result)).

Lemma judged_case_passes env tc resp pr :
  cr_Passed (judged_case env tc resp pr) = true ↔
  ∀ a, a ∈ tc_Assertions tc → assertion_holds a resp pr (ce_latency env).
Proof.
  cbn [cr_Passed judged_case]. rewrite bool_decide_eq_true. split.
  - intros Hnil a Ha. apply evaluateAssertion_holds. destruct (decide (evaluateAssertion a resp pr (ce_latency env) = "")); [done|].
    exfalso. apply (not_elem_of_nil (evaluateAssertion a resp pr (ce_latency env))). rewrite <-Hnil.
    apply list_elem_of_filter. split; [done|]. apply list_elem_of_fmap. by exists a.
  - intros Hall. apply elem_of_nil_inv. intros msg [Hmsg Hin]%list_elem_of_filter.
    apply list_elem_of_fmap in Hin as (a & -> & Ha). by apply Hmsg, evaluateAssertion_holds, Hall.
Qed.

(** A case always ends, under its own name; it passes exactly when its target answers its
    last user step and every assertion holds of that answer. *)
Theorem runCase_correct pipelines suite env tc (w : W) :
  ∃ w' cr, runCase pipelines suite env tc w = Some (w', cr) ∧ cr_Name cr = tc_Name tc ∧
    (cr_Passed cr = true ↔
     ∃ resp pr, answered pipelines suite env tc w resp pr ∧
       ∀ a, a ∈ tc_Assertions tc → assertion_holds a resp pr (ce_latency env)).
Proof.
  unfold runCase, answered. case_decide as Hsteps.
  { eexists w, _. split_and!; [done..|]. split; [done|]. intros (? & ? & [Hm _] & _). by rewrite Hsteps in Hm. }
  case_decide as Hm; [eexists w, _; split_and!; [done..|]; split; [done|]; naive_solver|].
  case_decide as Ha.
  { destruct (process _ w) as [w' [[err|r] sc]] eqn:Hp; eexists w', _; (split; [done|]; split; [done|]).
    - split; [done|]. naive_solver.
    - rewrite judged_case_passes. split; [|naive_solver]. intros Hall. exists (Some r), None. split; [|done]. naive_solver. }
  destruct pipelines as [get|]; [|eexists w, _; split_and!; [done..|]; split; [done|]; naive_solver].
  destruct (get _) as [pdef|] eqn:Hget; [|eexists w, _; split_and!; [done..|]; split; [done|]; naive_solver].
  destruct (RunContext_total (ce_order env) (ce_elapsed env) (Some pdef) (lastUserStep (tc_Steps tc)) (case_session suite tc) w)
    as (w' & [result err] & Hrun & Hres). rewrite Hrun. cbn [mbind option_bind]. eexists w', _. split; [done|].
  destruct err as [err|]; [split; [done|]; split; [done|]; naive_solver|].
  destruct (Hres eq_refl) as [res Heq]. cbn [fst] in Heq. subst result. split; [done|].
  rewrite judged_case_passes. cbn [mbind option_bind]. split; [|naive_solver].
  intros Hall. exists (FinalResponse res), (Some res). split; [|done]. naive_solver.
Qed.

Lemma run_cases_runs pipelines suite envs cases : ∀ i (w : W),
  ∃ w' crs, run_cases pipelines suite envs i cases w = Some (w', crs) ∧
    Forall2 (λ '(k, tc) cr, ∃ w1 w2, runCase pipelines suite (envs k) tc w1 = Some (w2, cr)) (imap (λ k tc, (i + k, tc)) cases) crs.
Proof.
  induction cases as [|tc cases IH]; intros i w; [by eexists w, []|]. cbn [run_cases].
  destruct (runCase_correct pipelines suite (envs i) tc w) as (w1 & cr & Hrun & _). rewrite Hrun. cbn [mbind option_bind].
  destruct (IH (S i) w1) as (w2 & crs & -> & Hall). eexists w2, (cr :: crs). split; [done|]. cbn [imap]. constructor.
  - rewrite Nat.add_0_r. by exists w, w1.
  - erewrite imap_ext; [exact Hall|]. intros k x _. cbn. f_equal. lia.
Qed.

Lemma passed_failed (crs : list CaseResult) :
  length (filter (λ cr, cr_Passed cr = true) crs) + length (filter (λ cr, cr_Passed cr = false) crs) = length crs.
Proof. induction crs as [|cr crs IH]; [done|]. rewrite !filter_cons. destruct (cr_Passed cr); repeat case_decide; cbn; try done; lia. Qed.

(** A suite with one target always ends, with a result for each case, in their order,
    judged by [runCase]; the counts add up to the cases, and the report of the suite has
    one entry for each with a failure exactly on those that failed. *)
Theorem RunSuite_correct pipelines envs elapsed suite (w : W) :
  let target := tss_Target (tsd_Spec suite) in
  (tt_Agent target = "" ↔ tt_Pipeline target ≠ "") →
  ∃ w' sr, RunSuite pipelines envs elapsed (Some suite) w = Some (w', inr sr) ∧
    cr_Name <$> sr_Cases sr = tc_Name <$> tss_Cases (tsd_Spec suite) ∧
    (∀ i tc cr, tss_Cases (tsd_Spec suite) !! i = Some tc → sr_Cases sr !! i = Some cr →
       ∃ w1 w2, runCase pipelines suite (envs i) tc w1 = Some (w2, cr)) ∧
    (sr_Passed sr + sr_Failed sr)%Z = Z.of_nat (length (tss_Cases (tsd_Spec suite))) ∧
    let report := toJUnit [sr] in
    jr_Tests report = Z.of_nat (length (tss_Cases (tsd_Spec suite))) ∧ jr_Failures report = sr_Failed sr ∧
    (∀ cr, cr ∈ sr_Cases sr → jc_Failure (junit_case (sr_Target sr) cr) = None ↔ cr_Passed cr = true).
Proof.
  intros target Hone. unfold RunSuite. cbn zeta. fold target.
  rewrite decide_False, decide_False by tauto.
  destruct (run_cases_runs pipelines suite envs (tss_Cases (tsd_Spec suite)) 0 w) as (w' & crs & -> & Hall).
  cbn [mbind option_bind]. eexists w', _. split; [done|]. cbn [sr_Cases sr_Passed sr_Failed sr_Target].
  assert (∀ i tc cr, tss_Cases (tsd_Spec suite) !! i = Some tc → crs !! i = Some cr →
       ∃ w1 w2, runCase pipelines suite (envs i) tc w1 = Some (w2, cr)) as Hcase.
  { intros i tc cr Htc Hcr. eapply Forall2_lookup_lr in Hall; [|by rewrite list_lookup_imap, Htc|exact Hcr]. exact Hall. }
  pose proof (Forall2_length _ _ _ Hall) as Hlen. rewrite length_imap in Hlen. split_and!; [|exact Hcase|..].
  - apply list_eq. intros i. rewrite !list_lookup_fmap.
    destruct (tss_Cases (tsd_Spec suite) !! i) as [tc|] eqn:Htc.
    + destruct (lookup_lt_is_Some_2 crs i) as [cr Hcr]; [rewrite <-Hlen; by eapply lookup_lt_Some|]. rewrite Hcr. cbn.
      destruct (Hcase i tc cr Htc Hcr) as (w1 & w2 & Hrun).
      destruct (runCase_correct pipelines suite (envs i) tc w1) as (w3 & cr3 & Hrun3 & Hname & _). congruence.
    + rewrite lookup_ge_None_2; [done|]. rewrite <-Hlen. by apply lookup_ge_None.
  - rewrite <-Nat2Z.inj_add, passed_failed. by rewrite Hlen.
  - cbn. by rewrite Hlen.
  - done.
  - intros cr _. unfold junit_case. cbn [jc_Failure]. destruct (cr_Passed cr); [done|]. split; [case_decide; discriminate|discriminate].
Qed.

(** Only the last user step reaches the target: the steps before it change nothing. *)
Lemma earlier_steps_unread pipelines suite env name steps earlier assertions (w : W) step :
  (ts_Role step = "user" ∨ ts_Role step = "") →
  runCase pipelines suite env (mkTestCase name (earlier ++ step :: steps) assertions) w =
  runCase pipelines suite env (mkTestCase name (step :: steps) assertions) w.
Proof.
  intros Hrole. unfold runCase, lastUserStep, judged_case, case_session. cbn [tc_Name tc_Steps tc_Assertions].
  rewrite decide_False by (by destruct earlier). rewrite (decide_False (P := _ :: _ = [])) by done.
  assert (find (λ s, bool_decide (ts_Role s = "user" ∨ ts_Role s = "")) (reverse (earlier ++ step :: steps)) =
    find (λ s, bool_decide (ts_Role s = "user" ∨ ts_Role s = "")) (reverse (step :: steps))) as ->; [|done].
  rewrite reverse_app, reverse_cons. induction (reverse steps) as [|s rest IH]; cbn.
  - by rewrite bool_decide_eq_true_2.
  - by rewrite IH.
Qed.
End suite_facts.
