(* ===== verification/JsonRpc.v ===== *)
(** JSON-RPC messages of the mock MCP server ([internal/mcp/jsonrpc.go]) and the
    values its methods answer ([internal/mcp/server.go]). *)

From S2P Require Import Prelude GoBase AgentTypes DocumentTypes.

Definition ErrParseError : Z := -32700.
Definition ErrInvalidRequest : Z := -32600.
Definition ErrMethodNotFound : Z := -32601.
Definition ErrInvalidParams : Z := -32602.

(** The id and the parameters are raw JSON text, empty when absent. *)
Record Request := mkRequest {
  rq_JSONRPC : string;
  rq_ID : string;
  rq_Method : string;
  rq_Params : string
}.

Definition IsNotification (r : Request) : bool :=
  bool_decide (rq_ID r = "") || bool_decide (rq_ID r = "null").

(** ** Results *)

Record initializeResult := mkInitializeResult {
  ir_ProtocolVersion : string;
  ir_ServerInfo : list (string * string);
  ir_Capabilities : list (string * value)
}.

Record toolListEntry := mkToolListEntry {
  tle_Name : string; tle_Description : string; tle_InputSchema : list (string * value)
}.

Record toolCallResult := mkMCPToolCallResult { tcr_Content : list MCPContentBlock; tcr_IsError : bool }.

Record resourceListEntry := mkResourceListEntry {
  rle_URI : string; rle_Name : string; rle_Description : string; rle_MimeType : string
}.

Record resourceContents := mkResourceContents {
  rc_URI : string; rc_MimeType : string; rc_Text : string; rc_Blob : string
}.

Record promptListEntry := mkPromptListEntry {
  ple_Name : string; ple_Description : string; ple_Arguments : list MCPPromptArg
}.

(** [Values] is [None] for the nil slice, which is marshalled as null. *)
Record completionValues := mkCompletionValues {
  cv_Values : option (list string); cv_Total : Z; cv_HasMore : bool
}.

(** The results of the methods; [ClientResult] is one decoded from a client. *)
Inductive rpc_result :=
| EmptyResult
| InitializeResult (r : initializeResult)
| ToolsResult (tools : list toolListEntry)
| ToolCallResult (r : toolCallResult)
| ResourcesResult (resources : list resourceListEntry)
| ContentsResult (contents : list resourceContents)
| PromptsResult (prompts : list promptListEntry)
| PromptResult (description : string) (messages : list MCPPromptMessage)
| CompletionResult (completion : completionValues)
| ClientResult (v : value).

(** [Data] is [VNil] when absent. *)
Record RPCError := mkRPCError { er_Code : Z; er_Message : string; er_Data : value }.

Record Response := mkResponse {
  rs_JSONRPC : string;
  rs_ID : string;
  rs_Result : option rpc_result;
  rs_Error : option RPCError
}.

Definition newError (id : string) (code : Z) (message : string) (data : value) : Response :=
  mkResponse "2.0" id None (Some (mkRPCError code message data)).

Definition newResult (id : string) (result : rpc_result) : Response :=
  mkResponse "2.0" id (Some result) None.

(** A server-initiated notification; [None] for nil parameters. *)
Record Notification := mkNotification {
  nt_Method : string; nt_Params : option (list (string * value))
}.
