(* ===== verification/MCPOutbound.v ===== *)
(** Messages from the mock MCP server to its client, [internal/mcp/bidirectional.go]:
    the buffered queue behind the event stream, of which at most one subscriber is
    attached, and the requests that wait for the client's reply.

    Channels are pointers into [chans], reply channels into [replies]. A step is one
    critical section, or one operation on a channel outside the lock; [None] is a
    panic (a close or a send on a closed channel). *)

From S2P Require Import Prelude GoBase GoChan JsonRpc.

Inductive OutboundMessage :=
| OutboundRequest (req : Request)
| OutboundNotification (n : Notification).

Record bidirectional := mkBidirectional {
  outbound : list OutboundMessage;
  pending : gmap string nat;
  sub : option nat;
  nextID : Z
}.

Definition newBidirectional : bidirectional := mkBidirectional [] ∅ None 0.

Definition set_outbound b o := mkBidirectional o (pending b) (sub b) (nextID b).
Definition set_pending b p := mkBidirectional (outbound b) p (sub b) (nextID b).

(** ** The queue *)

(** The replay loop of [Subscribe]: messages move into the channel until it is
    full; what is left stays in the queue. *)
Fixpoint replay (msgs : list OutboundMessage) (c : chan OutboundMessage)
  : option (list OutboundMessage * chan OutboundMessage) :=
  match msgs with
  | [] => Some ([], c)
  | msg :: rest =>
      sent ← try_send msg c;
      match sent with
      | Some c => replay rest c
      | None => Some (msgs, c)
      end
  end.

Definition Subscribe (buffer : Z) (b : bidirectional) (chans : list (chan OutboundMessage))
  : option (bidirectional * list (chan OutboundMessage) * nat) :=
  let buffer := if decide (buffer ≤ 0)%Z then 16%Z else buffer in
  chans ← match sub b with
          | Some old => c ← chans !! old; c ← close_chan c; Some (<[old := c]> chans)
          | None => Some chans
          end;
  '(rest, c) ← replay (outbound b) (mkChan [] buffer false);
  Some (mkBidirectional rest (pending b) (Some (length chans)) (nextID b), chans ++ [c], length chans).

(** The [cancel] closure of the subscription with channel [ch]: what was not read
    goes back to the head of the queue. *)
Definition cancel (ch : nat) (b : bidirectional) (chans : list (chan OutboundMessage))
  : option (bidirectional * list (chan OutboundMessage)) :=
  if decide (sub b = Some ch) then
    c ← chans !! ch; c ← close_chan c;
    Some (mkBidirectional (buf c ++ outbound b) (pending b) None (nextID b),
          <[ch := mkChan [] (cap c) true]> chans)
  else Some (b, chans).

Definition enqueue (msg : OutboundMessage) (b : bidirectional) (chans : list (chan OutboundMessage))
  : option (bidirectional * list (chan OutboundMessage)) :=
  let buffer := Some (set_outbound b (outbound b ++ [msg]), chans) in
  match sub b with
  | None => buffer
  | Some ch =>
      c ← chans !! ch; sent ← try_send msg c;
      match sent with
      | Some c => Some (b, <[ch := c]> chans)
      | None => buffer
      end
  end.

Definition pushNotification (n : Notification) := enqueue (OutboundNotification n).

(** ** Requests and replies *)

(** The id, in decimal. *)
Definition newServerID (b : bidirectional) : bidirectional * string :=
  let n := wrap64 (nextID b + 1) in
  (mkBidirectional (outbound b) (pending b) (sub b) n, fmt_d n).

Definition registerPending (id : string) (b : bidirectional) (replies : list (chan Response))
  : bidirectional * list (chan Response) * nat :=
  let ch := length replies in
  (set_pending b (<[id := ch]> (pending b)), replies ++ [mkChan [] 1 false], ch).

(** The cleanup closure of [registerPending]. *)
Definition cleanup (id : string) (b : bidirectional) : bidirectional :=
  set_pending b (delete id (pending b)).

Inductive DeliverError := ErrNilResponse | ErrMissingID | ErrNoPending (id : string).

(** [DeliverResponse]. The entry is gone when the reply is sent, so nothing can come
    between the two that would block the send; the outer option is a panic or a
    send that would block. *)
Definition DeliverResponse (resp : option Response) (b : bidirectional) (replies : list (chan Response))
  : option (bidirectional * list (chan Response) * option DeliverError) :=
  match resp with
  | None => Some (b, replies, Some ErrNilResponse)
  | Some resp =>
      if decide (rs_ID resp = "") then Some (b, replies, Some ErrMissingID)
      else match pending b !! rs_ID resp with
           | None => Some (b, replies, Some (ErrNoPending (rs_ID resp)))
           | Some ch =>
               c ← replies !! ch; sent ← try_send resp c; c ← sent;
               Some (set_pending b (delete (rs_ID resp) (pending b)), <[ch := c]> replies, None)
           end
  end.

(** ** The calls of [SendRequest] *)

(** Where a call is: it got its id, it is registered, its request is queued and it
    waits on its reply channel, it has its result and returns through the deferred
    cleanup, it has returned. [None] is the context's error. *)
Inductive phase :=
| Started
| Registered (ch : nat)
| Waiting (ch : nat)
| Leaving (result : option Response)
| Done (result : option Response).

Record call := mkCall { cl_Request : Request; cl_Phase : phase }.

Definition cl_ID (c : call) : string := rq_ID (cl_Request c).

Record link := mkLink {
  lk_bi : bidirectional;
  lk_chans : list (chan OutboundMessage);
  lk_replies : list (chan Response);
  lk_calls : list call
}.

Definition new_link : link := mkLink newBidirectional [] [] [].

(** Notifications, subscriptions and their reads, replies, and the steps of a call. *)
Inductive link_op :=
| ONotify (n : Notification)
| OSubscribe (buffer : Z)
| OCancel (ch : nat)
| ORead (ch : nat)
| ODeliver (resp : option Response)
| OStart (method : string) (params : option (option string))
| ORegister (k : nat)
| OQueue (k : nat)
| OReturn (k : nat)
| OTimeout (k : nat)
| OCleanup (k : nat).

(** What a step lets one see. *)
Inductive link_event :=
| EQueued (msg : OutboundMessage)
| ERead (ch : nat) (msg : OutboundMessage)
| EDelivered (resp : Response)
| EReturned (k : nat) (resp : Response).

Definition set_bi l b := mkLink b (lk_chans l) (lk_replies l) (lk_calls l).

Definition set_phase (k : nat) (p : phase) (l : link) : link :=
  mkLink (lk_bi l) (lk_chans l) (lk_replies l)
    (alter (λ c, mkCall (cl_Request c) p) k (lk_calls l)).

(** [SendRequest] up to its id and the encoding of the parameters: [None] for nil
    ones, [Some None] for ones that cannot be encoded, which end the call. *)
Definition start (method : string) (params : option (option string)) (l : link) : link :=
  let '(b, id) := newServerID (lk_bi l) in
  let c := match params with
           | None => mkCall (mkRequest "2.0" id method "") Started
           | Some (Some raw) => mkCall (mkRequest "2.0" id method raw) Started
           | Some None => mkCall (mkRequest "2.0" id method "") (Done None)
           end in
  mkLink b (lk_chans l) (lk_replies l) (lk_calls l ++ [c]).

Definition queue_step (msg : OutboundMessage) (l : link) : option (link * list link_event) :=
  '(b, chans) ← enqueue msg (lk_bi l) (lk_chans l);
  Some (mkLink b chans (lk_replies l) (lk_calls l), [EQueued msg]).

Definition link_step (op : link_op) (l : link) : option (link * list link_event) :=
  let idle := Some (l, []) in
  match op with
  | ONotify n => queue_step (OutboundNotification n) l
  | OSubscribe buffer =>
      '(b, chans, _) ← Subscribe buffer (lk_bi l) (lk_chans l);
      Some (mkLink b chans (lk_replies l) (lk_calls l), [])
  | OCancel ch =>
      '(b, chans) ← cancel ch (lk_bi l) (lk_chans l);
      Some (mkLink b chans (lk_replies l) (lk_calls l), [])
  | ORead ch =>
      match lk_chans l !! ch ≫= receive_chan with
      | None => idle
      | Some (msg, c) =>
          Some (mkLink (lk_bi l) (<[ch := c]> (lk_chans l)) (lk_replies l) (lk_calls l), [ERead ch msg])
      end
  | ODeliver resp =>
      '(b, replies, err) ← DeliverResponse resp (lk_bi l) (lk_replies l);
      Some (mkLink b (lk_chans l) replies (lk_calls l),
            match err, resp with None, Some resp => [EDelivered resp] | _, _ => [] end)
  | OStart method params => Some (start method params l, [])
  | ORegister k =>
      match lk_calls l !! k with
      | Some (mkCall req Started) =>
          let '(b, replies, ch) := registerPending (rq_ID req) (lk_bi l) (lk_replies l) in
          Some (set_phase k (Registered ch) (mkLink b (lk_chans l) replies (lk_calls l)), [])
      | _ => idle
      end
  | OQueue k =>
      match lk_calls l !! k with
      | Some (mkCall req (Registered ch)) =>
          '(l, evs) ← queue_step (OutboundRequest req) l; Some (set_phase k (Waiting ch) l, evs)
      | _ => idle
      end
  | OReturn k =>
      match lk_calls l !! k with
      | Some (mkCall _ (Waiting ch)) =>
          match lk_replies l !! ch ≫= receive_chan with
          | None => idle
          | Some (resp, c) =>
              Some (set_phase k (Leaving (Some resp))
                      (mkLink (lk_bi l) (lk_chans l) (<[ch := c]> (lk_replies l)) (lk_calls l)),
                    [EReturned k resp])
          end
      | _ => idle
      end
  | OTimeout k =>
      match lk_calls l !! k with
      | Some (mkCall _ (Waiting _)) => Some (set_phase k (Leaving None) l, [])
      | _ => idle
      end
  | OCleanup k =>
      match lk_calls l !! k with
      | Some (mkCall req (Leaving r)) =>
          Some (set_phase k (Done r) (set_bi l (cleanup (rq_ID req) (lk_bi l))), [])
      | _ => idle
      end
  end.

Fixpoint run_link (ops : list link_op) (l : link) : option (link * list link_event) :=
  match ops with
  | [] => Some (l, [])
  | op :: ops =>
      '(l, evs) ← link_step op l; '(l, evs') ← run_link ops l; Some (l, evs ++ evs')
  end.

(** ** No message is lost *)

Definition queued_of (evs : list link_event) : list OutboundMessage :=
  omap (λ ev, match ev with EQueued msg => Some msg | _ => None end) evs.
Definition read_of (evs : list link_event) : list OutboundMessage :=
  omap (λ ev, match ev with ERead _ msg => Some msg | _ => None end) evs.

Definition bufs (chans : list (chan OutboundMessage)) : list OutboundMessage := chans ≫= buf.

(** Only the channel of the subscriber is open. *)
Definition chans_ok (b : bidirectional) (chans : list (chan OutboundMessage)) : Prop :=
  (∀ ch c, chans !! ch = Some c → ch_closed c = negb (bool_decide (sub b = Some ch))) ∧
  (∀ ch, sub b = Some ch → is_Some (chans !! ch)).

Lemma bufs_insert chans ch c : chans !! ch = Some c →
  ∃ rest, bufs chans ≡ₚ buf c ++ rest ∧ ∀ c', bufs (<[ch := c']> chans) ≡ₚ buf c' ++ rest.
Proof.
  intros Hc. exists (bufs (take ch chans) ++ bufs (drop (S ch) chans)). unfold bufs. split.
  - rewrite <-(take_drop_middle chans ch c Hc) at 1. rewrite bind_app, bind_cons. solve_Permutation.
  - intros c'. pose proof (lookup_lt_Some _ _ _ Hc).
    rewrite insert_take_drop by done. rewrite bind_app, bind_cons. solve_Permutation.
Qed.

Lemma bufs_snoc chans c : bufs (chans ++ [c]) = bufs chans ++ buf c.
Proof. unfold bufs. rewrite bind_app. simpl. by rewrite app_nil_r. Qed.

Lemma replay_spec msgs c : ch_closed c = false →
  ∃ rest c', replay msgs c = Some (rest, c') ∧ ch_closed c' = false ∧ cap c' = cap c ∧
    buf c ++ msgs = buf c' ++ rest.
Proof.
  revert c. induction msgs as [|msg msgs IH]; intros c Hc; [by eexists _, c|].
  cbn [replay]. unfold try_send. rewrite Hc. case_decide; cbn; [|by eexists _, c].
  destruct (IH (mkChan (buf c ++ [msg]) (cap c) false) eq_refl) as (rest & c' & -> & ? & ? & Hb).
  exists rest, c'. do 3 (split; [done|]). rewrite <-Hb. simpl. by rewrite <-app_assoc.
Qed.

(** What the queue operations keep: the requests' side, and every message. *)
Record kept (b b' : bidirectional) (chans chans' : list (chan OutboundMessage))
    (new : list OutboundMessage) : Prop := {
  kept_ok : chans_ok b' chans';
  kept_messages : bufs chans' ++ outbound b' ≡ₚ bufs chans ++ outbound b ++ new;
  kept_pending : pending b' = pending b;
  kept_nextID : nextID b' = nextID b
}.

Lemma sub_open b chans ch : chans_ok b chans → sub b = Some ch →
  ∃ c, chans !! ch = Some c ∧ ch_closed c = false.
Proof.
  intros [Ho Hd] Hs. destruct (Hd ch Hs) as [c Hc]. exists c. split; [done|].
  rewrite (Ho ch c Hc). by rewrite bool_decide_true.
Qed.

Lemma chans_ok_insert b chans ch c : chans_ok b chans → sub b = Some ch → ch_closed c = false →
  chans_ok b (<[ch := c]> chans).
Proof.
  intros [Ho Hd] Hs Hc. split.
  - intros j d [[-> [<- _]]|[Hne Hj]]%list_lookup_insert_Some; [|by apply Ho].
    by rewrite bool_decide_true.
  - intros j Hj. destruct (Hd j Hj) as [d Hdj]. apply lookup_lt_is_Some.
    rewrite length_insert. by apply lookup_lt_Some in Hdj.
Qed.

(** A subscriber's channel is closed and let go. *)
Lemma chans_ok_close b chans ch c s : chans_ok b chans → sub b = Some ch → ch_closed c = true →
  s = None ∨ s = Some (length chans) →
  ∀ j d, <[ch := c]> chans !! j = Some d → ch_closed d = negb (bool_decide (s = Some j)).
Proof.
  intros [Ho Hd] Hs Hc Hsn j d Hj.
  assert (s ≠ Some j) as Hne.
  { destruct Hsn as [->| ->]; [done|]. intros [= <-]. apply lookup_lt_Some in Hj.
    rewrite length_insert in Hj. lia. }
  rewrite (bool_decide_false (s = Some j)) by done.
  apply list_lookup_insert_Some in Hj as [(-> & <- & _)|[Hne' Hj]]; [done|].
  rewrite (Ho j d Hj). rewrite bool_decide_false; [done|]. congruence.
Qed.

Lemma enqueue_spec msg b chans : chans_ok b chans →
  ∃ b' chans', enqueue msg b chans = Some (b', chans') ∧ kept b b' chans chans' [msg] ∧ sub b' = sub b.
Proof.
  intros Hok. unfold enqueue. destruct (sub b) as [ch|] eqn:Hs; cycle 1.
  { eexists _, _. split; [done|]. split; [|done]. split; [|simpl; solve_Permutation|done..].
    destruct Hok. by split. }
  destruct (sub_open b chans ch Hok Hs) as (c & Hc & Ho). rewrite Hc. simpl.
  unfold try_send. rewrite Ho. case_decide; simpl.
  - eexists _, _. split; [done|]. split; [|done].
    destruct (bufs_insert chans ch c Hc) as (rest & Hb & Hb').
    split; [by apply chans_ok_insert| |done..]. rewrite Hb', Hb. simpl. solve_Permutation.
  - eexists _, _. split; [done|]. split; [|done]. split; [|simpl; solve_Permutation|done..].
    destruct Hok. by split.
Qed.

Lemma cancel_spec ch b chans : chans_ok b chans →
  ∃ b' chans', cancel ch b chans = Some (b', chans') ∧ kept b b' chans chans' [].
Proof.
  intros Hok. unfold cancel. case_decide as Hs; cycle 1.
  { eexists _, _. split; [done|]. split; [done|by rewrite app_nil_r|done..]. }
  destruct (sub_open b chans ch Hok Hs) as (c & Hc & Ho). rewrite Hc. simpl.
  unfold close_chan. rewrite Ho. simpl. eexists _, _. split; [done|].
  destruct (bufs_insert chans ch c Hc) as (rest & Hb & Hb').
  split; [|rewrite Hb', Hb; simpl; solve_Permutation|done..].
  split; [|done]. eapply chans_ok_close; eauto.
Qed.

Lemma subscribe_spec buffer b chans : chans_ok b chans →
  ∃ b' chans' ch, Subscribe buffer b chans = Some (b', chans', ch) ∧ kept b b' chans chans' [].
Proof.
  intros Hok. unfold Subscribe.
  set (chans1 := match sub b with Some old => _ | None => _ end).
  assert (∃ cs, chans1 = Some cs ∧ length cs = length chans ∧ bufs cs ≡ₚ bufs chans ∧
    ∀ j d, cs !! j = Some d → ch_closed d = true) as (cs & -> & Hlen & Hb & Hcl).
  { subst chans1. destruct (sub b) as [old|] eqn:Hs; cycle 1.
    { exists chans. do 3 (split; [done|]). intros j d Hj. destruct Hok as [Ho _].
      rewrite (Ho j d Hj), Hs. done. }
    destruct (sub_open b chans old Hok Hs) as (c & Hc & Ho). rewrite Hc. simpl.
    unfold close_chan. rewrite Ho. simpl. eexists. split; [done|].
    split; [apply length_insert|]. destruct (bufs_insert chans old c Hc) as (rest & Hb & Hb').
    split; [by rewrite Hb', Hb|]. intros j d Hj.
    rewrite (chans_ok_close b chans old (mkChan (buf c) (cap c) true) None Hok Hs eq_refl (or_introl eq_refl) j d Hj). done. }
  simpl. destruct (replay_spec (outbound b) (mkChan [] (if decide (buffer ≤ 0)%Z then 16%Z else buffer) false) eq_refl)
    as (rest & c' & -> & Ho & _ & Hm). simpl in *. eexists _, _, _. split; [done|].
  split; [|rewrite bufs_snoc, Hb, Hm; simpl; solve_Permutation|done..]. split; simpl.
  - intros j d [[Hlt Hj]|[-> ->]]%lookup_snoc_Some.
    + rewrite (Hcl j d Hj), bool_decide_false; [done|]. intros [= <-]. lia.
    + by rewrite bool_decide_true.
  - intros ch [= <-]. apply lookup_lt_is_Some. rewrite length_app. simpl. lia.
Qed.

(** ** Replies reach the calls they answer *)

Definition delivered_of (evs : list link_event) : list Response :=
  omap (λ ev, match ev with EDelivered r => Some r | _ => None end) evs.
Definition returned_of (evs : list link_event) : list (nat * Response) :=
  omap (λ ev, match ev with EReturned k r => Some (k, r) | _ => None end) evs.

Section calls.
Context (b : bidirectional) (replies : list (chan Response)) (calls : list call).
Context (dl : list Response) (rt : list (nat * Response)).

(** A registered call whose id is no longer pending has its reply waiting. *)
Definition call_ok (k : nat) (c : call) : Prop :=
  match cl_Phase c with
  | Started => pending b !! cl_ID c = None ∧ (cl_ID c ∉ rs_ID <$> dl) ∧ (k ∉ rt.*1)
  | Registered ch | Waiting ch => (k ∉ rt.*1) ∧
      (pending b !! cl_ID c = Some ch ∨
       pending b !! cl_ID c = None ∧
       ∃ r, replies !! ch = Some (mkChan [r] 1 false) ∧ rs_ID r = cl_ID c ∧ r ∈ dl)
  | Leaving None | Done None => k ∉ rt.*1
  | Leaving (Some r) | Done (Some r) => (k, r) ∈ rt ∧ rs_ID r = cl_ID c ∧ r ∈ dl
  end.

Record calls_ok : Prop := {
  co_next : nextID b = Z.of_nat (length calls);
  co_ids : ∀ k c, calls !! k = Some c → cl_ID c = fmt_d (Z.of_nat (S k));
  co_call : ∀ k c, calls !! k = Some c → call_ok k c;
  co_pending : ∀ id ch, pending b !! id = Some ch →
    replies !! ch = Some (mkChan [] 1 false) ∧ (id ∉ rs_ID <$> dl) ∧
    ∃ k c, calls !! k = Some c ∧ cl_ID c = id;
  co_inj : ∀ id1 id2 ch, pending b !! id1 = Some ch → pending b !! id2 = Some ch → id1 = id2;
  co_delivered : NoDup (rs_ID <$> dl) ∧ ∀ r, r ∈ dl → ∃ k c, calls !! k = Some c ∧ cl_ID c = rs_ID r;
  co_returned : NoDup rt.*1 ∧ ∀ k, k ∈ rt.*1 → k < length calls
}.
End calls.

Lemma co_same b replies calls dl rt j k c d : calls_ok b replies calls dl rt →
  calls !! j = Some c → calls !! k = Some d → cl_ID c = cl_ID d → j = k.
Proof.
  intros H Hj Hk Hid. rewrite (co_ids _ _ _ _ _ H j c Hj), (co_ids _ _ _ _ _ H k d Hk) in Hid.
  apply (inj pretty) in Hid. lia.
Qed.

(** The state the requests' side depends on is that of [calls_ok]. *)
Lemma calls_ok_ext b b' replies calls dl rt : pending b' = pending b → nextID b' = nextID b →
  calls_ok b replies calls dl rt → calls_ok b' replies calls dl rt.
Proof.
  intros Hp Hn []. split; rewrite ?Hp, ?Hn; [done..| |done|done|done|done].
  intros k c Hc. specialize (co_call0 k c Hc). unfold call_ok in *. by rewrite Hp.
Qed.

(** A step that moves call [k] to phase [p]. *)
Lemma calls_ok_update b b' replies replies' calls dl dl' rt rt' k c p :
  calls_ok b replies calls dl rt → calls !! k = Some c → nextID b' = nextID b →
  call_ok b' replies' dl' rt' k (mkCall (cl_Request c) p) →
  (∀ j d, j ≠ k → calls !! j = Some d → cl_ID d ≠ cl_ID c → call_ok b replies dl rt j d →
     call_ok b' replies' dl' rt' j d) →
  (∀ id ch, pending b' !! id = Some ch → replies' !! ch = Some (mkChan [] 1 false) ∧
     (id ∉ rs_ID <$> dl') ∧ ∃ j d, calls !! j = Some d ∧ cl_ID d = id) →
  (∀ id1 id2 ch, pending b' !! id1 = Some ch → pending b' !! id2 = Some ch → id1 = id2) →
  NoDup (rs_ID <$> dl') ∧ (∀ r, r ∈ dl' → ∃ j d, calls !! j = Some d ∧ cl_ID d = rs_ID r) →
  NoDup rt'.*1 ∧ (∀ j, j ∈ rt'.*1 → j < length calls) →
  calls_ok b' replies' (alter (λ c, mkCall (cl_Request c) p) k calls) dl' rt'.
Proof.
  intros H Hk Hn Hc Hothers Hpend Hinj [Hnd Hdel] Hret. pose proof H as [].
  set (f := λ c, mkCall (cl_Request c) p) in *.
  assert (∀ P : string → Prop, (∃ j d, calls !! j = Some d ∧ P (cl_ID d)) →
    ∃ j d, alter f k calls !! j = Some d ∧ P (cl_ID d)) as Hcalls.
  { intros P (j & d & Hj & Hd). destruct (decide (j = k)) as [->|Hne].
    - exists k, (f d). by rewrite list_lookup_alter_eq, Hj.
    - exists j, d. by rewrite list_lookup_alter_ne. }
  assert (∀ j d, alter f k calls !! j = Some d →
    j = k ∧ d = f c ∨ j ≠ k ∧ calls !! j = Some d) as Hinv.
  { intros j d. destruct (decide (j = k)) as [->|Hne].
    - rewrite list_lookup_alter_eq, Hk. intros [= <-]. by left.
    - rewrite list_lookup_alter_ne by done. by right. }
  split.
  - by rewrite length_alter, Hn.
  - intros j d [[-> ->]|[? Hj]]%Hinv; [|by apply co_ids0]. by rewrite <-(co_ids0 k c Hk).
  - intros j d [[-> ->]|[Hne Hj]]%Hinv; [done|]. apply Hothers; [done..| |by apply co_call0].
    intros Hid. by apply Hne, (co_same _ _ _ _ _ j k d c H).
  - intros id ch Hid. destruct (Hpend id ch Hid) as (? & ? & Hex).
    do 2 (split; [done|]). by apply (Hcalls (λ i, i = id)).
  - done.
  - split; [done|]. intros r Hr. apply (Hcalls (λ i, i = rs_ID r)), Hdel, Hr.
  - by rewrite length_alter.
Qed.

Lemma calls_ok_phase b replies calls dl rt k c p :
  calls_ok b replies calls dl rt → calls !! k = Some c →
  call_ok b replies dl rt k (mkCall (cl_Request c) p) →
  calls_ok b replies (alter (λ c, mkCall (cl_Request c) p) k calls) dl rt.
Proof. intros H Hk Hc. pose proof H as []. by eapply calls_ok_update. Qed.

Lemma calls_ok_start b replies calls dl rt req p :
  calls_ok b replies calls dl rt → (Z.of_nat (S (length calls)) < two63)%Z →
  rq_ID req = fmt_d (Z.of_nat (S (length calls))) → p = Started ∨ p = Done None →
  calls_ok (newServerID b).1 replies (calls ++ [mkCall req p]) dl rt.
Proof.
  intros H Hlt Hid Hp. pose proof H as [].
  assert (∀ j d, calls !! j = Some d → cl_ID d ≠ rq_ID req) as Hfresh.
  { intros j d Hj. rewrite (co_ids0 j d Hj), Hid. intros Heq%(inj pretty).
    apply lookup_lt_Some in Hj. lia. }
  assert (length calls ∉ rt.*1) as Hnr by (intros Hin%co_returned0; lia).
  split; unfold newServerID; simpl.
  - rewrite co_next0, length_app. simpl. unfold two63 in *. rewrite wrap64_id; [lia|].
    unfold in_int64, two63. lia.
  - intros j d [[_ Hj]|[-> <-]]%lookup_snoc_Some; [by apply co_ids0|done].
  - intros j d [[_ Hj]|[-> <-]]%lookup_snoc_Some; [by apply (co_call0 j d Hj)|].
    destruct Hp as [->| ->]; unfold call_ok; simpl; [|done]. split_and!; [| |done].
    + apply eq_None_not_Some. intros [ch (_ & _ & j & d & Hj & Hdj)%co_pending0].
      by eapply Hfresh.
    + intros (r & Hr & (j & d & Hj & Hdj)%co_delivered0)%list_elem_of_fmap.
      eapply Hfresh; [done|]. rewrite Hdj. by rewrite <-Hr.
  - intros id ch (? & ? & j & d & Hj & Hd)%co_pending0. do 2 (split; [done|]).
    exists j, d. split; [by apply lookup_app_l_Some|done].
  - done.
  - destruct co_delivered0 as [? Hd]. split; [done|]. intros r (j & d & Hj & ?)%Hd.
    exists j, d. split; [by apply lookup_app_l_Some|done].
  - destruct co_returned0 as [? Hr]. split; [done|]. intros j Hj%Hr. rewrite length_app. simpl. lia.
Qed.

Lemma calls_ok_register b replies calls dl rt k req :
  calls_ok b replies calls dl rt → calls !! k = Some (mkCall req Started) →
  let '(b', replies', ch) := registerPending (rq_ID req) b replies in
  calls_ok b' replies' (alter (λ c, mkCall (cl_Request c) (Registered ch)) k calls) dl rt.
Proof.
  intros H Hk. pose proof (co_call _ _ _ _ _ H k _ Hk) as (Hnone & Hnd & Hnr).
  change (cl_ID (mkCall req Started)) with (rq_ID req) in *. pose proof H as [].
  assert (∀ id ch, pending b !! id = Some ch → ch < length replies) as Hlt
    by (intros id ch (Hr & _)%co_pending0; by eapply lookup_lt_Some).
  apply (calls_ok_update b _ replies _ calls dl dl rt rt k (mkCall req Started));
    cbn [pending set_pending]; [done..| | | | |done|done].
  - split; [done|]. left. apply lookup_insert_eq.
  - intros j d _ _ Hid Hd. unfold call_ok in *. simpl in *. rewrite lookup_insert_ne by done.
    destruct (cl_Phase d) as [|ch|ch| |]; try done.
    all: destruct Hd as [? [?|(? & r & Hr & ?)]]; (split; [done|]); [by left|right].
    all: split; [done|]; exists r; (split; [|done]); by apply lookup_app_l_Some.
  - intros id ch [[<- <-]|[Hne Hid]]%lookup_insert_Some.
    + split; [by rewrite lookup_app_r, Nat.sub_diag by lia|]. split; [done|].
      by exists k, (mkCall req Started).
    + destruct (co_pending0 id ch Hid) as (? & ? & ?). split; [by apply lookup_app_l_Some|done].
  - intros id1 id2 ch [[<- <-]|[? H1]]%lookup_insert_Some [[<- Hl]|[? H2]]%lookup_insert_Some;
      [done| | |by eapply co_inj0].
    + apply Hlt in H2. lia.
    + apply Hlt in H1. lia.
Qed.

(** A delivery changes no phase: it moves a pending entry into its reply channel. *)
Lemma calls_ok_deliver b replies calls dl rt resp : calls_ok b replies calls dl rt →
  ∃ b' replies' err, DeliverResponse resp b replies = Some (b', replies', err) ∧
    calls_ok b' replies' calls
      (dl ++ match err, resp with None, Some resp => [resp] | _, _ => [] end) rt ∧
    outbound b' = outbound b ∧ sub b' = sub b.
Proof.
  intros H. pose proof H as []. unfold DeliverResponse.
  destruct resp as [resp|]; [|eexists _, _, _; split; [done|]; by rewrite app_nil_r].
  case_decide; [eexists _, _, _; split; [done|]; by rewrite app_nil_r|].
  destruct (pending b !! rs_ID resp) as [ch|] eqn:Hp; [|eexists _, _, _; split; [done|]; by rewrite app_nil_r].
  destruct (co_pending0 _ _ Hp) as (Hch & Hnd & Hex). rewrite Hch. simpl.
  eexists _, _, _. split; [done|]. split; [|done].
  assert (∀ j, j ≠ ch → <[ch:=mkChan [resp] 1 false]> replies !! j = replies !! j) as Hne
    by (intros j Hj; by rewrite list_lookup_insert_ne).
  split; simpl; [done|done| | | | |done].
  - intros j d Hj. specialize (co_call0 j d Hj). unfold call_ok in *. simpl.
    assert (∀ r ch', replies !! ch' = Some (mkChan [r] 1 false) →
      <[ch:=mkChan [resp] 1 false]> replies !! ch' = Some (mkChan [r] 1 false)) as Hkeep
      by (intros r ch' Hr; rewrite Hne; [done|congruence]).
    assert (∀ r, r ∈ dl → r ∈ dl ++ [resp]) as Hin by (intros; apply elem_of_app; by left).
    destruct (cl_Phase d) as [|ch'|ch'|[r|]|[r|]]; try done; cycle 3.
    1-2: destruct co_call0 as (? & ? & ?); auto.
    { destruct co_call0 as (Hn & Hd & ?).
      split_and!; [|rewrite fmap_app, not_elem_of_app; split; [done|]|done].
      - apply lookup_delete_None. by right.
      - simpl. rewrite list_elem_of_singleton. congruence. }
    all: destruct co_call0 as (? & Hd); (split; [done|]).
    all: destruct (decide (cl_ID d = rs_ID resp)) as [Heq|Hid];
      [|rewrite lookup_delete_ne by done; destruct Hd as [?|(? & r & ? & ? & ?)]; [by left|right]; by eauto 10].
    all: right; rewrite Heq, lookup_delete_eq; split; [done|].
    all: destruct Hd as [Hd|[Hd _]]; [|congruence]; exists resp.
    all: assert (ch' = ch) as -> by congruence; split_and!; [|done|set_solver].
    all: apply list_lookup_insert_eq; by eapply lookup_lt_Some.
  - intros id ch' [Hid Hid']%lookup_delete_Some. destruct (co_pending0 id ch' Hid') as (? & ? & ?).
    split_and!; [rewrite Hne; [done|]|rewrite fmap_app, not_elem_of_app; split; [done|]|done].
    + intros ->. by apply Hid, (co_inj0 _ _ ch).
    + simpl. rewrite list_elem_of_singleton. congruence.
  - intros id1 id2 ch' [_ H1]%lookup_delete_Some [_ H2]%lookup_delete_Some. by eapply co_inj0.
  - destruct co_delivered0 as [Hnd' Hd]. split.
    + rewrite fmap_app. apply NoDup_app. split_and!; [done| |apply NoDup_singleton].
      intros x Hx. simpl. rewrite list_elem_of_singleton. congruence.
    + intros r [Hr| ->%list_elem_of_singleton]%elem_of_app; [by apply Hd|done].
Qed.

Lemma calls_ok_return b replies calls dl rt k req ch resp c :
  calls_ok b replies calls dl rt → calls !! k = Some (mkCall req (Waiting ch)) →
  replies !! ch ≫= receive_chan = Some (resp, c) →
  calls_ok b (<[ch := c]> replies) (alter (λ c, mkCall (cl_Request c) (Leaving (Some resp))) k calls)
    dl (rt ++ [(k, resp)]).
Proof.
  intros H Hk Hr. pose proof (co_call _ _ _ _ _ H k _ Hk) as [Hnr Hd]. pose proof H as [].
  destruct Hd as [Hp|(Hp & r & Hch & Hid & Hin)].
  { destruct (co_pending0 _ _ Hp) as [Hch _]. rewrite Hch in Hr. done. }
  rewrite Hch in Hr. injection Hr as <- <-.
  assert (∀ ch', ch' ≠ ch → <[ch:=mkChan [] 1 false]> replies !! ch' = replies !! ch') as Hne
    by (intros; by rewrite list_lookup_insert_ne).
  eapply calls_ok_update; [done..| | | | |done|].
  - split_and!; [|done|done]. set_solver.
  - intros j d Hj Hd Hidne Hok. unfold call_ok in *. simpl in *.
    assert (j ∉ rt.*1 → j ∉ (rt ++ [(k, r)]).*1) as Hnew by (rewrite fmap_app; set_solver).
    destruct (cl_Phase d) as [|ch'|ch'|[r'|]|[r'|]]; [| | |clear Hnew|by auto|clear Hnew|by auto].
    1: by destruct Hok as (? & ? & ?); auto.
    3-4: destruct Hok as (? & ? & ?); split_and!; [apply elem_of_app; by left|done|done].
    all: destruct Hok as [? [?|(? & r' & Hr' & Hid' & ?)]]; (split; [by auto|]); [by left|right].
    all: split; [done|]; exists r'; rewrite Hne; [done|]; intros ->; congruence.
  - intros id ch' Hp'. destruct (co_pending0 id ch' Hp') as (? & ? & ?).
    split_and!; [rewrite Hne; [done|congruence]|done|done].
  - done.
  - destruct co_returned0 as [? Hlt]. rewrite fmap_app. split.
    + apply NoDup_app. split_and!; [done|set_solver|apply NoDup_singleton].
    + intros j [Hj|Hj]%elem_of_app; [by apply Hlt|]. simpl in Hj. apply list_elem_of_singleton in Hj as ->.
      by eapply lookup_lt_Some.
Qed.

Lemma calls_ok_cleanup b replies calls dl rt k req r :
  calls_ok b replies calls dl rt → calls !! k = Some (mkCall req (Leaving r)) →
  calls_ok (cleanup (rq_ID req) b) replies (alter (λ c, mkCall (cl_Request c) (Done r)) k calls) dl rt.
Proof.
  intros H Hk. pose proof (co_call _ _ _ _ _ H k _ Hk) as Hc. pose proof H as [].
  eapply calls_ok_update; unfold cleanup; cbn [pending set_pending]; [done..| | | | |done|done].
  - exact Hc.
  - intros j d Hj Hd Hidne Hok. unfold call_ok in *. simpl in *.
    rewrite lookup_delete_ne by (intros Heq; by apply Hidne). done.
  - intros id ch [_ Hp]%lookup_delete_Some. by apply co_pending0.
  - intros id1 id2 ch [_ H1]%lookup_delete_Some [_ H2]%lookup_delete_Some. by eapply co_inj0.
Qed.

(** ** Runs *)

Definition link_ok (l : link) (evs : list link_event) : Prop :=
  chans_ok (lk_bi l) (lk_chans l) ∧
  calls_ok (lk_bi l) (lk_replies l) (lk_calls l) (delivered_of evs) (returned_of evs) ∧
  read_of evs ++ bufs (lk_chans l) ++ outbound (lk_bi l) ≡ₚ queued_of evs.

Lemma new_link_ok : link_ok new_link [].
Proof.
  split; [|split; [|done]]; split; simpl; try done; try (split; [constructor|]); set_solver.
Qed.

(** A step of the queue only. *)
Lemma link_ok_queue l evs b chans new : link_ok l evs → kept (lk_bi l) b (lk_chans l) chans new →
  link_ok (mkLink b chans (lk_replies l) (lk_calls l)) (evs ++ (EQueued <$> new)).
Proof.
  intros (_ & Hcalls & Hm) [Hok Hk Hp Hn]. split; [done|].
  assert (queued_of (EQueued <$> new) = new) as Hq
    by (clear; induction new as [|x new IH]; [done|exact (f_equal (cons x) IH)]).
  assert (read_of (EQueued <$> new) = [] ∧ delivered_of (EQueued <$> new) = [] ∧
    returned_of (EQueued <$> new) = []) as (Hr & Hd & Hrt)
    by (clear; induction new as [|x new IH]; [done|exact IH]).
  unfold queued_of, read_of, delivered_of, returned_of in *.
  rewrite !omap_app, Hq, Hr, Hd, Hrt, !app_nil_r.
  split; [by eapply calls_ok_ext|]. simpl. rewrite Hk, <-Hm. solve_Permutation.
Qed.

(** A step of the requests' side only. *)
Lemma link_ok_calls l evs b replies calls evs' :
  link_ok l evs → outbound b = outbound (lk_bi l) → sub b = sub (lk_bi l) →
  calls_ok b replies calls (delivered_of (evs ++ evs')) (returned_of (evs ++ evs')) →
  read_of evs' = [] → queued_of evs' = [] →
  link_ok (mkLink b (lk_chans l) replies calls) (evs ++ evs').
Proof.
  intros ([Ho Hd] & _ & Hm) Hb Hs Hc Hr Hq. split; [|split; [done|]].
  - split; simpl; rewrite Hs; done.
  - unfold read_of, queued_of in *. rewrite !omap_app, Hr, Hq, !app_nil_r. simpl. by rewrite Hb.
Qed.

Lemma link_step_ok op l evs : link_ok l evs → (Z.of_nat (S (length (lk_calls l))) < two63)%Z →
  ∃ l' evs', link_step op l = Some (l', evs') ∧ link_ok l' (evs ++ evs').
Proof.
  intros H Hlt. pose proof H as (Hchans & Hcalls & Hm).
  assert (∃ l' evs', Some (l, []) = Some (l', evs') ∧ link_ok l' (evs ++ evs')) as Hidle.
  { exists l, []. by rewrite app_nil_r. }
  assert (∀ msg, ∃ b chans, enqueue msg (lk_bi l) (lk_chans l) = Some (b, chans) ∧
    link_ok (mkLink b chans (lk_replies l) (lk_calls l)) (evs ++ [EQueued msg])) as Hq.
  { intros msg. destruct (enqueue_spec msg _ _ Hchans) as (b & chans & He & Hk & _).
    exists b, chans. split; [done|]. by apply (link_ok_queue l evs b chans [msg]). }
  destruct op as [n|buffer|ch|ch|resp|method params|k|k|k|k|k]; cbn [link_step].
  - destruct (Hq (OutboundNotification n)) as (b & chans & He & Hok).
    unfold queue_step. rewrite He. eexists _, _. by split.
  - destruct (subscribe_spec buffer _ _ Hchans) as (b & chans & ch & -> & Hk). eexists _, _. split; [done|].
    by apply (link_ok_queue l evs b chans []).
  - destruct (cancel_spec ch _ _ Hchans) as (b & chans & -> & Hk). eexists _, _. split; [done|].
    by apply (link_ok_queue l evs b chans []).
  - destruct (lk_chans l !! ch) as [c|] eqn:Hc; simpl; [|done].
    unfold receive_chan. destruct (buf c) as [|msg msgs] eqn:Hb; [done|]. eexists _, _. split; [done|].
    destruct (bufs_insert _ ch c Hc) as (rest & Hr & Hr').
    split; [|split]; simpl.
    + destruct Hchans as [Ho Hd]. split.
      * intros j d [[-> [<- _]]|[Hne Hj]]%list_lookup_insert_Some; [by apply (Ho _ c)|by apply Ho].
      * intros j Hj. destruct (Hd j Hj) as [d Hdj]. apply lookup_lt_is_Some.
        rewrite length_insert. by apply lookup_lt_Some in Hdj.
    + unfold delivered_of, returned_of in *. by rewrite !omap_app, !app_nil_r.
    + unfold read_of, queued_of in *. rewrite !omap_app, Hr'. simpl. rewrite app_nil_r, <-Hm, Hr, Hb.
      simpl. solve_Permutation.
  - destruct (calls_ok_deliver _ _ _ _ _ resp Hcalls) as (b & replies & err & -> & Hok & Hb & Hs).
    eexists _, _. split; [done|]. apply (link_ok_calls l); try done.
    2-3: by destruct err, resp.
    unfold delivered_of, returned_of in *. rewrite !omap_app. destruct err, resp; simpl in *; rewrite ?app_nil_r in *; done.
  - eexists _, _. split; [done|]. rewrite app_nil_r.
    pose proof (link_ok_calls l evs (newServerID (lk_bi l)).1 (lk_replies l)) as Hs.
    assert (rq_ID (mkRequest "2.0" (newServerID (lk_bi l)).2 method "") =
      fmt_d (Z.of_nat (S (length (lk_calls l))))) as Hid.
    { change (fmt_d (wrap64 (nextID (lk_bi l) + 1)) = fmt_d (Z.of_nat (S (length (lk_calls l))))).
      rewrite (co_next _ _ _ _ _ Hcalls), wrap64_id; [f_equal; lia|]. unfold in_int64, two63 in *. lia. }
    unfold start. simpl in *.
    destruct params as [[raw|]|]; rewrite <-(app_nil_r evs); apply Hs; try done; rewrite app_nil_r;
      (eapply calls_ok_start; [done|done|exact Hid|]); auto.
  - destruct (lk_calls l !! k) as [[req [| | | |]]|] eqn:Hk; try done.
    pose proof (calls_ok_register _ _ _ _ _ k req Hcalls Hk) as Hok. simpl in *. eexists _, _. split; [done|].
    apply (link_ok_calls l); try done.
    by rewrite app_nil_r.
  - destruct (lk_calls l !! k) as [[req [|ch| | |]]|] eqn:Hk; try done.
    destruct (Hq (OutboundRequest req)) as (b & chans & He & Hok). unfold queue_step. rewrite He. simpl.
    eexists _, _. split; [done|]. unfold set_phase. simpl.
    rewrite <-(app_nil_r (evs ++ _)). apply (link_ok_calls _ _ _ _ _ [] Hok); try done.
    rewrite app_nil_r. destruct Hok as (_ & Hok & _). simpl in *.
    pose proof (co_call _ _ _ _ _ Hok k _ Hk) as Hc.
    by apply (calls_ok_phase _ _ _ _ _ _ (mkCall req (Registered ch))).
  - destruct (lk_calls l !! k) as [[req [| |ch| |]]|] eqn:Hk; try done.
    destruct (lk_replies l !! ch ≫= receive_chan) as [[resp c]|] eqn:Hr; [|done].
    eexists _, _. split; [done|]. apply (link_ok_calls l); try done. simpl.
    unfold delivered_of, returned_of in *. rewrite !omap_app. simpl. rewrite app_nil_r.
    by eapply calls_ok_return.
  - destruct (lk_calls l !! k) as [[req [| |ch| |]]|] eqn:Hk; try done.
    eexists _, _. split; [done|]. apply (link_ok_calls l); try done. rewrite app_nil_r.
    destruct (co_call _ _ _ _ _ Hcalls k _ Hk) as [Hnr _].
    by apply (calls_ok_phase _ _ _ _ _ _ (mkCall req (Waiting ch))).
  - destruct (lk_calls l !! k) as [[req [| | |r|]]|] eqn:Hk; try done.
    eexists _, _. split; [done|]. apply (link_ok_calls l); try done. rewrite app_nil_r.
    by apply calls_ok_cleanup.
Qed.

Lemma link_step_calls op l l' evs : link_step op l = Some (l', evs) →
  length (lk_calls l') ≤ S (length (lk_calls l)).
Proof.
  intros H. destruct op as [n|buffer|ch|ch|resp|method params|k|k|k|k|k]; cbn [link_step] in H;
    unfold queue_step, start in H.
  all: repeat match goal with
    | H : mbind _ ?x = Some _ |- _ => destruct x eqn:?; simpl in H; [|done]
    | p : (_ * _)%type |- _ => destruct p
    end.
  all: repeat (case_match; simplify_option_eq).
  all: simplify_eq/=; rewrite ?length_alter, ?length_app; simpl; lia.
Qed.

Lemma run_link_ok ops l evs0 : link_ok l evs0 →
  (Z.of_nat (length (lk_calls l) + length ops) < two63)%Z →
  ∃ l' evs, run_link ops l = Some (l', evs) ∧ link_ok l' (evs0 ++ evs).
Proof.
  revert l evs0. induction ops as [|op ops IH]; intros l evs0 Hok Hlt.
  { exists l, []. by rewrite app_nil_r. }
  simpl in *. destruct (link_step_ok op l evs0 Hok ltac:(lia)) as (l1 & evs1 & Hs & Hok1).
  rewrite Hs. simpl. pose proof (link_step_calls _ _ _ _ Hs).
  destruct (IH l1 _ Hok1 ltac:(lia)) as (l2 & evs2 & -> & Hok2). simpl.
  exists l2, (evs1 ++ evs2). by rewrite app_assoc.
Qed.

(** *** Order *)

(** The step does not take a channel with unread messages from its reader, and a
    message is queued only when nothing waits in the backlog and the subscriber's
    channel has room. *)
Definition in_order (op : link_op) (l : link) : Prop :=
  match op, sub (lk_bi l) with
  | (ONotify _ | OQueue _), Some ch =>
      outbound (lk_bi l) = [] ∧
      ∃ c, lk_chans l !! ch = Some c ∧ (Z.of_nat (length (buf c)) < cap c)%Z
  | OSubscribe _, Some ch => buf <$> lk_chans l !! ch = Some []
  | _, _ => True
  end.

Fixpoint orderly (ops : list link_op) (l : link) : Prop :=
  match ops with
  | [] => True
  | op :: ops => in_order op l ∧ ∀ l' evs, link_step op l = Some (l', evs) → orderly ops l'
  end.

(** What the reader still has before it, in order. *)
Definition unread (b : bidirectional) (chans : list (chan OutboundMessage)) : list OutboundMessage :=
  match sub b with Some ch => default [] (buf <$> chans !! ch) | None => [] end ++ outbound b.

Definition others_empty (b : bidirectional) (chans : list (chan OutboundMessage)) : Prop :=
  ∀ j c, chans !! j = Some c → sub b ≠ Some j → buf c = [].

Lemma enqueue_order msg b chans b' chans' : chans_ok b chans → others_empty b chans →
  (∀ ch, sub b = Some ch → outbound b = [] ∧
     ∃ c, chans !! ch = Some c ∧ (Z.of_nat (length (buf c)) < cap c)%Z) →
  enqueue msg b chans = Some (b', chans') →
  unread b' chans' = unread b chans ++ [msg] ∧ others_empty b' chans'.
Proof.
  intros Hok He Ho. unfold enqueue. destruct (sub b) as [ch|] eqn:Hs; cycle 1.
  { intros [= <- <-]. unfold unread, others_empty in *. simpl. rewrite Hs in *. done. }
  destruct (Ho ch eq_refl) as (Hout & c & Hc & Hroom).
  destruct (sub_open b chans ch Hok Hs) as (c' & Hc' & Hopen).
  assert (c' = c) as -> by congruence. rewrite Hc. simpl. unfold try_send. rewrite Hopen.
  rewrite decide_True by done. simpl. intros [= <- <-]. unfold unread, others_empty in *.
  rewrite Hs, Hout, Hc in *. split.
  - rewrite list_lookup_insert_eq by (by eapply lookup_lt_Some). simpl. by rewrite !app_nil_r.
  - intros j d [[-> _]|[_ Hj]]%list_lookup_insert_Some Hne; [done|by eapply He].
Qed.

Lemma subscribe_order buffer b chans b' chans' ch : chans_ok b chans → others_empty b chans →
  (∀ ch, sub b = Some ch → buf <$> chans !! ch = Some []) →
  Subscribe buffer b chans = Some (b', chans', ch) →
  unread b' chans' = unread b chans ∧ others_empty b' chans'.
Proof.
  intros Hok He Ho. unfold Subscribe.
  set (chans1 := match sub b with Some old => _ | None => _ end).
  assert (∃ cs, chans1 = Some cs ∧ (∀ j d, cs !! j = Some d → buf d = []) ∧
    unread b chans = outbound b) as (cs & -> & Hcs & ->).
  { subst chans1. unfold unread, others_empty in *. destruct (sub b) as [old|] eqn:Hs; cycle 1.
    { exists chans. split; [done|]. split; [|done]. intros j d Hj. by eapply He. }
    destruct (sub_open b chans old Hok Hs) as (c & Hc & Hopen). specialize (Ho old eq_refl).
    rewrite Hc in *. simpl in *. unfold close_chan. rewrite Hopen. injection Ho as Hb. rewrite Hb.
    eexists. split; [done|]. split; [|done].
    intros j d [[-> [<- _]]|[Hne Hj]]%list_lookup_insert_Some; [done|]. eapply He; [done|congruence]. }
  simpl. destruct (replay_spec (outbound b) (mkChan [] (if decide (buffer ≤ 0)%Z then 16%Z else buffer) false) eq_refl)
    as (rest & c' & -> & _ & _ & Hm). simpl in *. intros [= <- <- <-]. split.
  - unfold unread. simpl. by rewrite lookup_app_r, Nat.sub_diag by lia.
  - intros j d [[_ Hj]|[-> _]]%lookup_snoc_Some Hne; [by eapply Hcs|done].
Qed.

Lemma cancel_order ch b chans b' chans' : chans_ok b chans → others_empty b chans →
  cancel ch b chans = Some (b', chans') →
  unread b' chans' = unread b chans ∧ others_empty b' chans'.
Proof.
  intros Hok He. unfold cancel. case_decide as Hs; [|by intros [= <- <-]].
  destruct (sub_open b chans ch Hok Hs) as (c & Hc & Hopen). rewrite Hc. simpl.
  unfold close_chan. rewrite Hopen. simpl. intros [= <- <-]. unfold unread, others_empty in *.
  rewrite Hs, Hc in *. split; [done|]. simpl.
  intros j d [[-> [<- _]]|[Hne Hj]]%list_lookup_insert_Some _; [done|]. eapply He; [done|congruence].
Qed.

Lemma deliver_frame resp b replies b' replies' err :
  DeliverResponse resp b replies = Some (b', replies', err) →
  outbound b' = outbound b ∧ sub b' = sub b.
Proof.
  unfold DeliverResponse. destruct resp as [resp|]; [|by intros [= <- _ _]].
  case_decide; [by intros [= <- _ _]|].
  destruct (pending b !! rs_ID resp) as [ch|]; [|by intros [= <- _ _]].
  destruct (replies !! ch) as [c|]; simpl; [|done].
  destruct (try_send resp c) as [[c'|]|]; simpl; [|done..]. by intros [= <- _ _].
Qed.

Lemma queue_step_order msg l l' evs : chans_ok (lk_bi l) (lk_chans l) → others_empty (lk_bi l) (lk_chans l) →
  in_order (ONotify (mkNotification "" None)) l → queue_step msg l = Some (l', evs) →
  read_of evs = [] ∧ queued_of evs = [msg] ∧
  unread (lk_bi l') (lk_chans l') = unread (lk_bi l) (lk_chans l) ++ [msg] ∧
  others_empty (lk_bi l') (lk_chans l').
Proof.
  intros Hok He Ho. unfold queue_step.
  destruct (enqueue msg (lk_bi l) (lk_chans l)) as [[b chans]|] eqn:Hq; simpl; [|done].
  intros [= <- <-]. do 2 (split; [done|]). simpl. eapply enqueue_order; [done..| |done].
  intros ch Hs. unfold in_order in Ho. by rewrite Hs in Ho.
Qed.

Lemma link_step_order op l l' evs : chans_ok (lk_bi l) (lk_chans l) → others_empty (lk_bi l) (lk_chans l) →
  in_order op l → link_step op l = Some (l', evs) →
  read_of evs ++ unread (lk_bi l') (lk_chans l') = unread (lk_bi l) (lk_chans l) ++ queued_of evs ∧
  others_empty (lk_bi l') (lk_chans l').
Proof.
  intros Hok He Ho. destruct op as [n|buffer|ch|ch|resp|method params|k|k|k|k|k]; cbn [link_step].
  - intros Hs. by destruct (queue_step_order _ _ _ _ Hok He Ho Hs) as (-> & -> & -> & ?).
  - destruct (Subscribe buffer (lk_bi l) (lk_chans l)) as [[[b chans] ch]|] eqn:Hs; simpl; [|done].
    intros [= <- <-]. simpl. rewrite app_nil_r. eapply subscribe_order; [done..| |done].
    intros old Hold. simpl in Ho. by rewrite Hold in Ho.
  - destruct (cancel ch (lk_bi l) (lk_chans l)) as [[b chans]|] eqn:Hs; simpl; [|done].
    intros [= <- <-]. simpl. rewrite app_nil_r. by eapply cancel_order.
  - destruct (lk_chans l !! ch) as [c|] eqn:Hc; simpl; [|intros [= <- <-]; simpl; by rewrite app_nil_r].
    unfold receive_chan. destruct (buf c) as [|msg msgs] eqn:Hb; [intros [= <- <-]; simpl; by rewrite app_nil_r|].
    intros [= <- <-]. simpl. rewrite app_nil_r. unfold unread.
    assert (sub (lk_bi l) = Some ch) as Hsub.
    { destruct (decide (sub (lk_bi l) = Some ch)) as [|Hne]; [done|]. by rewrite (He ch c Hc Hne) in Hb. }
    rewrite Hsub, Hc, list_lookup_insert_eq by (by eapply lookup_lt_Some). simpl. rewrite Hb.
    split; [done|]. intros j d [[-> _]|[_ Hj]]%list_lookup_insert_Some Hne; [done|by eapply He].
  - destruct (DeliverResponse resp (lk_bi l) (lk_replies l)) as [[[b replies] err]|] eqn:Hd; simpl; [|done].
    intros [= <- <-].
    assert (outbound b = outbound (lk_bi l) ∧ sub b = sub (lk_bi l)) as [Hb Hs].
    { by eapply deliver_frame. }
    unfold unread, others_empty in *. simpl. rewrite Hb, Hs.
    assert (∀ o : list link_event, (∀ ev, ev ∈ o → ∃ r, ev = EDelivered r) → read_of o = [] ∧ queued_of o = []) as Hno.
    { intros o. induction o as [|ev o IH]; [done|]. intros H. destruct (H ev ltac:(left)) as [r ->].
      apply IH. intros ev' Hev. apply H. by right. }
    destruct (Hno (match err, resp with None, Some resp => [EDelivered resp] | _, _ => [] end)) as [-> ->].
    { intros ev. destruct err, resp; rewrite ?elem_of_nil, ?list_elem_of_singleton; naive_solver. }
    by rewrite app_nil_r.
  - intros [= <- <-]. unfold start, unread, others_empty in *. simpl. by rewrite app_nil_r.
  - destruct (lk_calls l !! k) as [[req [| | | |]]|]; intros [= <- <-]; simpl; by rewrite app_nil_r.
  - destruct (lk_calls l !! k) as [[req [|ch| | |]]|]; try (intros [= <- <-]; simpl; by rewrite app_nil_r).
    destruct (queue_step (OutboundRequest req) l) as [[l1 evs1]|] eqn:Hq; simpl; [|done].
    intros [= <- <-]. unfold set_phase. cbn [lk_bi lk_chans].
    by destruct (queue_step_order _ _ _ _ Hok He Ho Hq) as (-> & -> & -> & ?).
  - destruct (lk_calls l !! k) as [[req [| |ch| |]]|]; try (intros [= <- <-]; simpl; by rewrite app_nil_r).
    destruct (lk_replies l !! ch ≫= receive_chan) as [[r c]|]; intros [= <- <-]; simpl; by rewrite app_nil_r.
  - destruct (lk_calls l !! k) as [[req [| | | |]]|]; intros [= <- <-]; simpl; by rewrite app_nil_r.
  - destruct (lk_calls l !! k) as [[req [| | | |]]|]; intros [= <- <-]; simpl; by rewrite app_nil_r.
Qed.

Lemma run_link_order ops l evs0 l' evs : link_ok l evs0 → others_empty (lk_bi l) (lk_chans l) →
  (Z.of_nat (length (lk_calls l) + length ops) < two63)%Z →
  orderly ops l → run_link ops l = Some (l', evs) →
  read_of evs ++ unread (lk_bi l') (lk_chans l') = unread (lk_bi l) (lk_chans l) ++ queued_of evs.
Proof.
  revert l evs0 evs. induction ops as [|op ops IH]; intros l evs0 evs Hok He Hlt Ho; simpl in *.
  { intros [= <- <-]. by rewrite app_nil_r. }
  destruct Ho as [Ho1 Ho2]. destruct (link_step_ok op l evs0 Hok ltac:(lia)) as (l1 & evs1 & Hs & Hok1).
  rewrite Hs. simpl. pose proof (link_step_calls _ _ _ _ Hs).
  destruct (link_step_order op l l1 evs1 (proj1 Hok) He Ho1 Hs) as [Hstep He1].
  destruct (run_link ops l1) as [[l2 evs2]|] eqn:Hr; simpl; [|done]. intros [= <- <-].
  pose proof (IH l1 _ evs2 Hok1 He1 ltac:(lia) (Ho2 _ _ Hs) Hr) as Hrest.
  unfold read_of, queued_of in *. rewrite !omap_app, <-app_assoc, Hrest, !app_assoc. by f_equal.
Qed.

(** ** The link to the client *)


(** ** Examples *)

Definition ex_note (s : string) : Notification := mkNotification s None.

Definition ex_reads (ops : list link_op) : option (list OutboundMessage * list OutboundMessage) :=
  '(l, evs) ← run_link ops new_link; Some (read_of evs, unread (lk_bi l) (lk_chans l)).

(** A call whose request is read and answered, twice, between two notifications. *)
Definition ex_ops : list link_op :=
  [ONotify (ex_note "a"); OSubscribe 0; OStart "roots/list" None; ORegister 0; OQueue 0; ORead 0; ORead 0;
   ODeliver (Some (mkResponse "2.0" "1" None None)); ODeliver (Some (mkResponse "2.0" "1" None None));
   ONotify (ex_note "b"); OReturn 0; OCleanup 0; ORead 0].


(** A message that went to the backlog is overtaken by a later one, and stays there
    although the reader has read everything. *)
Lemma backlog_overtaken :
  ex_reads [OSubscribe 1; ONotify (ex_note "a"); ONotify (ex_note "b"); ORead 0; ONotify (ex_note "c"); ORead 0] =
  Some ([OutboundNotification (ex_note "a"); OutboundNotification (ex_note "c")],
        [OutboundNotification (ex_note "b")]).
Proof. reflexivity. Qed.

(** A client that reconnects before its old stream is cancelled does not get what the
    old stream had not read. *)
Lemma steal_strands_messages :
  ex_reads [OSubscribe 0; ONotify (ex_note "a"); OSubscribe 0; OCancel 0] = Some ([], []).
Proof. reflexivity. Qed.
