(* ===== verification/MCPServer.v ===== *)
(** The mock MCP server, [internal/mcp/server.go]: the dispatch of JSON-RPC
    requests, every method, and the state a server keeps. A method's critical section
    is one step. *)

From S2P Require Import Prelude GoBase GoStrings AgentTypes DocumentTypes JsonRpc MCPOutbound.

Record toolCallParams := mkToolCallParams { tcp_Name : string; tcp_Arguments : list (string * value) }.
Record promptsGetParams := mkPromptsGetParams { pgp_Name : string; pgp_Arguments : gmap string string }.
Record completionRef := mkCompletionRef { cr_Type : string; cr_Name : string }.
Record completionArgument := mkCompletionArgument { ca_Name : string; ca_Value : string }.
Record completionParams := mkCompletionParams { cp_Ref : completionRef; cp_Argument : completionArgument }.

(** [json.Unmarshal] of a request and of the parameters of each method (its error
    text on the left), and [json.Marshal] of a response. *)
Class McpJson := {
  UnmarshalRequest : string → string + Request;
  UnmarshalToolCall : string → string + toolCallParams;
  UnmarshalURI : string → string + string;
  UnmarshalPromptsGet : string → string + promptsGetParams;
  UnmarshalCompletion : string → string + completionParams;
  UnmarshalLevel : string → string + string;
  MarshalResponse : Response → string + string
}.

(** [strings.ReplaceAll(s, old, new)] for a non-empty [old]. Every step consumes a
    byte at least, so the length of the string is enough fuel. *)
Fixpoint replace_loop (fuel : nat) (s old new : string) : string :=
  match fuel, s with
  | S fuel, String a s' =>
      if has_prefix s old then (new +:+ replace_loop fuel (str_drop (String.length old) s) old new)%string
      else String a (replace_loop fuel s' old new)
  | _, _ => s
  end.

Definition ReplaceAll (s old new : string) : string := replace_loop (String.length s) s old new.

Record Server := mkServer {
  inited : bool;
  logLvl : string;
  sv_pending : list Notification;
  subscribed : gmap string bool;
  sv_link : link
}.

Definition NewServer : Server := mkServer false "" [] ∅ new_link.

Definition set_inited s := mkServer true (logLvl s) (sv_pending s) (subscribed s) (sv_link s).
Definition set_logLvl s l := mkServer (inited s) l (sv_pending s) (subscribed s) (sv_link s).
Definition set_pending s p := mkServer (inited s) (logLvl s) p (subscribed s) (sv_link s).
Definition set_subscribed s m := mkServer (inited s) (logLvl s) (sv_pending s) m (sv_link s).
Definition set_link s l := mkServer (inited s) (logLvl s) (sv_pending s) (subscribed s) l.

Section server.
Context {mr : MapRange} {lower : GoLower} {fmt : GoFmt} {json : McpJson}.
Context (def : MCPServerDefinition).

(** ** Notifications *)

(** [None] is a panic of the outbound queue. *)
Definition EmitNotification (n : Notification) (s : Server) : option Server :=
  let s := set_pending s (sv_pending s ++ [n]) in
  '(l, _) ← link_step (ONotify n) (sv_link s); Some (set_link s l).

Definition DrainNotifications (s : Server) : Server * list Notification :=
  match sv_pending s with
  | [] => (s, [])
  | out => (set_pending s [], out)
  end.

Definition LogLevel (s : Server) : string := logLvl s.

Definition Subscribed (uri : string) (s : Server) : bool := default false (subscribed s !! uri).

(** ** Methods *)

Definition empty_object : value := VObj [].

Definition available (names : list string) : value := VObj [("available"%string, VArr (VString <$> names))].

Definition invalid_params (req : Request) (method err : string) : Response :=
  newError (rq_ID req) ErrInvalidParams ("invalid params for " +:+ method)%string (VString err).

Definition handleInitialize (req : Request) : Response :=
  let spec := msd_Spec def in
  let caps := mss_Capabilities spec in
  let pv := if decide (mss_ProtocolVersion spec = "") then DefaultMCPProtocolVersion
            else mss_ProtocolVersion spec in
  let cap (b : bool) (k : string) (v : value) : list (string * value) := if b then [(k, v)] else [] in
  newResult (rq_ID req)
    (InitializeResult (mkInitializeResult pv
       [("name"%string, md_Name (msd_Metadata def)); ("version"%string, "mock"%string)]
       (cap (mcap_Tools caps || bool_decide (0 < length (mss_Tools spec))) "tools" empty_object ++
        cap (mcap_Resources caps || bool_decide (0 < length (mss_Resources spec))) "resources"
          (VObj [("subscribe"%string, VBool true)]) ++
        cap (mcap_Prompts caps || bool_decide (0 < length (mss_Prompts spec))) "prompts" empty_object ++
        cap (mcap_Logging caps) "logging" empty_object))).

Definition handleToolsList (req : Request) : Response :=
  newResult (rq_ID req)
    (ToolsResult ((λ t, mkToolListEntry (mt_Name t) (mt_Description t) (mt_InputSchema t))
       <$> mss_Tools (msd_Spec def))).

Definition matchArgs (match_ args : list (string * value)) : bool :=
  match match_ with
  | [] => false
  | _ => forallb (λ kv, match obj_get args kv.1 with
                        | None => false
                        | Some got => DeepEqual got kv.2
                        end) match_
  end.

(** The loop of [resolveToolResponse] with its fallback so far. *)
Fixpoint resolve_from (fallback : option MCPToolResponse) (responses : list MCPToolResponse)
    (args : list (string * value)) : option MCPToolResponse :=
  match responses with
  | [] => fallback
  | r :: rest =>
      if mtr_Default r then resolve_from (Some r) rest args
      else if matchArgs (mtr_Match r) args then Some r
      else resolve_from fallback rest args
  end.

Definition resolveToolResponse (responses : list MCPToolResponse) (args : list (string * value))
  : option MCPToolResponse := resolve_from None responses args.

Definition findTool (name : string) : option MCPTool :=
  find (λ t, bool_decide (mt_Name t = name)) (mss_Tools (msd_Spec def)).

Definition toolNames : list string := mt_Name <$> mss_Tools (msd_Spec def).

Definition mock_text (t : MCPTool) (args : list (string * value)) : MCPContentBlock :=
  mkMCPContentBlock "text" ("(mock) tool " +:+ mt_Name t +:+ " called with " +:+ Sprint (VObj args))%string
    "" "" "" "".

Definition handleToolsCall (req : Request) : Response :=
  match UnmarshalToolCall (rq_Params req) with
  | inl err => invalid_params req "tools/call" err
  | inr params =>
      if decide (tcp_Name params = "") then
        newError (rq_ID req) ErrInvalidParams "tool name is required" VNil
      else match findTool (tcp_Name params) with
           | None => newError (rq_ID req) ErrMethodNotFound
                       ("unknown tool " +:+ Quote (tcp_Name params))%string (available toolNames)
           | Some tool =>
               match resolveToolResponse (mt_Responses tool) (tcp_Arguments params) with
               | None => newResult (rq_ID req)
                   (ToolCallResult (mkMCPToolCallResult [mock_text tool (tcp_Arguments params)] false))
               | Some resp => newResult (rq_ID req)
                   (ToolCallResult (mkMCPToolCallResult (mtr_Content resp) (mtr_IsError resp)))
               end
           end
  end.

Definition handleResourcesList (req : Request) : Response :=
  newResult (rq_ID req)
    (ResourcesResult ((λ r, mkResourceListEntry (ms_URI r) (ms_Name r) (ms_Description r) (ms_MimeType r))
       <$> mss_Resources (msd_Spec def))).

Definition resourceURIs : list string := ms_URI <$> mss_Resources (msd_Spec def).

Definition handleResourcesRead (req : Request) : Response :=
  match UnmarshalURI (rq_Params req) with
  | inl err => invalid_params req "resources/read" err
  | inr uri =>
      match find (λ r, bool_decide (ms_URI r = uri)) (mss_Resources (msd_Spec def)) with
      | Some r => newResult (rq_ID req)
          (ContentsResult [mkResourceContents (ms_URI r) (ms_MimeType r) (ms_Text r) (ms_Blob r)])
      | None => newError (rq_ID req) ErrInvalidParams
          ("unknown resource " +:+ Quote uri)%string (available resourceURIs)
      end
  end.

Definition handleResourcesSubscribe (req : Request) (s : Server) : Server * Response :=
  match UnmarshalURI (rq_Params req) with
  | inl err => (s, invalid_params req "resources/subscribe" err)
  | inr uri =>
      if decide (uri = "") then (s, newError (rq_ID req) ErrInvalidParams "uri is required" VNil)
      else (set_subscribed s (<[uri := true]> (subscribed s)), newResult (rq_ID req) EmptyResult)
  end.

Definition handleResourcesUnsubscribe (req : Request) (s : Server) : Server * Response :=
  match UnmarshalURI (rq_Params req) with
  | inl err => (s, invalid_params req "resources/unsubscribe" err)
  | inr uri =>
      if decide (uri = "") then (s, newError (rq_ID req) ErrInvalidParams "uri is required" VNil)
      else (set_subscribed s (delete uri (subscribed s)), newResult (rq_ID req) EmptyResult)
  end.

Definition handlePromptsList (req : Request) : Response :=
  newResult (rq_ID req)
    (PromptsResult ((λ p, mkPromptListEntry (mp_Name p) (mp_Description p) (mp_Arguments p))
       <$> mss_Prompts (msd_Spec def))).

(** [{{name}}]. *)
Definition placeholder (name : string) : string := ("{{" +:+ name +:+ "}}")%string.

Definition expandArgs (s : string) (args : gmap string string) : string :=
  foldl (λ s kv, ReplaceAll s (placeholder kv.1) kv.2) s (range args).

Definition expand_message (args : gmap string string) (m : MCPPromptMessage) : MCPPromptMessage :=
  let c := mpm_Content m in
  mkMCPPromptMessage (mpm_Role m)
    (mkMCPContentBlock (mb_Type c) (expandArgs (mb_Text c) args) (mb_Data c) (mb_MimeType c)
       (expandArgs (mb_URI c) args) (mb_Blob c)).

Definition handlePromptsGet (req : Request) : Response :=
  match UnmarshalPromptsGet (rq_Params req) with
  | inl err => invalid_params req "prompts/get" err
  | inr params =>
      match find (λ p, bool_decide (mp_Name p = pgp_Name params)) (mss_Prompts (msd_Spec def)) with
      | Some p => newResult (rq_ID req)
          (PromptResult (mp_Description p) (expand_message (pgp_Arguments params) <$> mp_Messages p))
      | None => newError (rq_ID req) ErrInvalidParams
          ("unknown prompt " +:+ Quote (pgp_Name params))%string VNil
      end
  end.

(** The guards of the loop of [lookupCompletion]. *)
Definition completion_matches (refType refName argName : string) (c : MCPCompletion) : bool :=
  (bool_decide (mc_RefType c = "") || bool_decide (mc_RefType c = refType)) &&
  (bool_decide (mc_RefName c = "") || bool_decide (mc_RefName c = refName)) &&
  bool_decide (mc_ArgName c = argName).

(** [None] is the nil slice. *)
Definition lookupCompletion (refType refName argName : string) : option (list string) :=
  mc_Values <$> find (completion_matches refType refName argName) (mss_Completions (msd_Spec def)).

Definition filterPrefix (values : option (list string)) (prefix : string) : option (list string) :=
  if decide (prefix = "") then values
  else filter (λ v, has_prefix (ToLower v) (ToLower prefix) = true) <$> values.

Definition maxValues : nat := 100.

Definition handleCompletionComplete (req : Request) : Response :=
  match UnmarshalCompletion (rq_Params req) with
  | inl err => invalid_params req "completion/complete" err
  | inr params =>
      let arg := cp_Argument params in
      if decide (ca_Name arg = "") then
        newError (rq_ID req) ErrInvalidParams "argument.name is required" VNil
      else
        let values := lookupCompletion (cr_Type (cp_Ref params)) (cr_Name (cp_Ref params)) (ca_Name arg) in
        let values := if decide (ca_Value arg ≠ "") then filterPrefix values (ca_Value arg) else values in
        let total := length (default [] values) in
        let '(values, hasMore) :=
          if decide (maxValues < total) then (take maxValues <$> values, true) else (values, false) in
        newResult (rq_ID req) (CompletionResult (mkCompletionValues values (Z.of_nat total) hasMore))
  end.

Definition log_levels : list string :=
  ["debug"; "info"; "notice"; "warning"; "error"; "critical"; "alert"; "emergency"]%string.

Definition handleLoggingSetLevel (req : Request) (s : Server) : Server * Response :=
  match UnmarshalLevel (rq_Params req) with
  | inl err => (s, invalid_params req "logging/setLevel" err)
  | inr level =>
      if decide (level = "") then (s, newError (rq_ID req) ErrInvalidParams "level is required" VNil)
      else if decide (level ∈ log_levels) then (set_logLvl s level, newResult (rq_ID req) EmptyResult)
      else (s, newError (rq_ID req) ErrInvalidParams ("unknown level " +:+ Quote level)%string
                 (VObj [("valid"%string, VArr (VString <$> log_levels))]))
  end.

(** ** Dispatch *)

Definition server_initiated (req : Request) : Response :=
  newError (rq_ID req) ErrMethodNotFound
    ("method " +:+ Quote (rq_Method req) +:+
     " is server-initiated and not supported by the mock without a bidirectional transport")%string
    (VObj [("hint"%string,
      VString "use Server.EmitNotification or POST /mcp/notify to drive the client side")]).

(** The cases of the method, in the order of the switch. *)
Definition Handle (req : Request) (s : Server) : Server * option Response :=
  let pure r := (s, Some r) in
  let stateful (p : Server * Response) := (p.1, Some p.2) in
  let m := rq_Method req in
  if decide (rq_JSONRPC req ≠ "2.0") then
    pure (newError (rq_ID req) ErrInvalidRequest "jsonrpc must be 2.0" VNil)
  else if decide (m = "initialize") then pure (handleInitialize req)
  else if decide (m = "notifications/initialized") then (set_inited s, None)
  else if decide (m = "ping") then pure (newResult (rq_ID req) EmptyResult)
  else if decide (m = "tools/list") then pure (handleToolsList req)
  else if decide (m = "tools/call") then pure (handleToolsCall req)
  else if decide (m = "resources/list") then pure (handleResourcesList req)
  else if decide (m = "resources/read") then pure (handleResourcesRead req)
  else if decide (m = "resources/subscribe") then stateful (handleResourcesSubscribe req s)
  else if decide (m = "resources/unsubscribe") then stateful (handleResourcesUnsubscribe req s)
  else if decide (m = "prompts/list") then pure (handlePromptsList req)
  else if decide (m = "prompts/get") then pure (handlePromptsGet req)
  else if decide (m = "completion/complete") then pure (handleCompletionComplete req)
  else if decide (m = "logging/setLevel") then stateful (handleLoggingSetLevel req s)
  else if decide (m = "sampling/createMessage" ∨ m = "roots/list") then pure (server_initiated req)
  else if IsNotification req then (s, None)
  else pure (newError (rq_ID req) ErrMethodNotFound
               ("method " +:+ Quote m +:+ " not supported")%string VNil).

(** The bytes of the answer, [None] when there is none. *)
Definition HandleBytes (body : string) (s : Server) : Server * (string + option string) :=
  let answer r := match MarshalResponse r with inl e => inl e | inr out => inr (Some out) end in
  match UnmarshalRequest body with
  | inl err => (s, answer (newError "" ErrParseError "invalid JSON" (VString err)))
  | inr req =>
      match Handle req s with
      | (s, None) => (s, inr None)
      | (s, Some resp) => (s, answer resp)
      end
  end.

(** ** Every request is answered *)

(** A well-formed answer to a request: its id, and a result or an error. *)
Definition answers (req : Request) (r : Response) : Prop :=
  rs_JSONRPC r = "2.0" ∧ rs_ID r = rq_ID req ∧
  ((∃ v, rs_Result r = Some v ∧ rs_Error r = None) ∨ (∃ e, rs_Result r = None ∧ rs_Error r = Some e)).

Lemma answers_result req v : answers req (newResult (rq_ID req) v).
Proof. unfold answers. simpl. eauto 10. Qed.

Lemma answers_error req code msg data : answers req (newError (rq_ID req) code msg data).
Proof. unfold answers. simpl. eauto 10. Qed.

Hint Resolve answers_result answers_error : mock.

(** Splits a handler into its answers. *)
Ltac answered := repeat (case_match; simpl); auto with mock.

Definition methods : list string :=
  ["initialize"; "ping"; "tools/list"; "tools/call"; "resources/list"; "resources/read";
   "resources/subscribe"; "resources/unsubscribe"; "prompts/list"; "prompts/get";
   "completion/complete"; "logging/setLevel"; "sampling/createMessage"; "roots/list"]%string.

(** Only these requests get no answer. *)
Definition unanswered (req : Request) : Prop :=
  rq_JSONRPC req = "2.0" ∧
  (rq_Method req = "notifications/initialized" ∨ (rq_Method req ∉ methods) ∧ IsNotification req = true).

Lemma handlers_answer req s :
  answers req (handleInitialize req) ∧ answers req (handleToolsList req) ∧
  answers req (handleToolsCall req) ∧ answers req (handleResourcesList req) ∧
  answers req (handleResourcesRead req) ∧ answers req (handleResourcesSubscribe req s).2 ∧
  answers req (handleResourcesUnsubscribe req s).2 ∧ answers req (handlePromptsList req) ∧
  answers req (handlePromptsGet req) ∧ answers req (handleCompletionComplete req) ∧
  answers req (handleLoggingSetLevel req s).2 ∧ answers req (server_initiated req).
Proof.
  unfold handleInitialize, handleToolsList, handleToolsCall, handleResourcesList, handleResourcesRead,
    handleResourcesSubscribe, handleResourcesUnsubscribe, handlePromptsList, handlePromptsGet,
    handleCompletionComplete, handleLoggingSetLevel, server_initiated, invalid_params.
  split_and!; answered.
Qed.

Lemma Handle_answered req s :
  match (Handle req s).2 with
  | Some r => answers req r ∧ ¬ unanswered req
  | None => unanswered req
  end.
Proof.
  destruct (handlers_answer req s) as (? & ? & ? & ? & ? & ? & ? & ? & ? & ? & ? & ?).
  assert (∀ m, rq_Method req = m → m ∈ methods → m ≠ "notifications/initialized" → ¬ unanswered req) as Hin
    by (intros m Hm Hms Hne [_ [?|[Hn _]]]; congruence).
  unfold Handle.
  destruct (decide (rq_JSONRPC req ≠ "2.0")) as [Hv|Hv%dec_stable].
  { split; [auto with mock|]. by intros [? _]. }
  do 13 (destruct (decide (rq_Method req = _)) as [Hm|?];
    [first [split; [done|by left]
           |split; [by auto with mock|]; eapply Hin; [exact Hm|by apply (bool_decide_unpack _)|discriminate]]|]).
  destruct (decide (_ ∨ _)) as [Hm|Hm].
  { split; [done|]. by destruct Hm as [Hm|Hm]; (eapply Hin; [exact Hm|by apply (bool_decide_unpack _)|]). }
  destruct (IsNotification req) eqn:Hn.
  - split; [done|]. right. split; [|done]. unfold methods. rewrite !not_elem_of_cons, elem_of_nil. tauto.
  - split; [auto with mock|]. intros [_ [?|[_ ?]]]; congruence.
Qed.

(** ** The state tells the history *)

(** What a request does to the subscription of [uri], to the level, to [inited]. *)
Definition calls_method (m : string) (req : Request) : Prop := rq_JSONRPC req = "2.0" ∧ rq_Method req = m.

#[local] Instance calls_method_dec m req : Decision (calls_method m req).
Proof. unfold calls_method. apply _. Defined.

Definition names_uri (uri : string) (req : Request) : bool :=
  bool_decide (UnmarshalURI (rq_Params req) = inr uri ∧ uri ≠ "").

Definition sub_effect (uri : string) (req : Request) : option bool :=
  if decide (calls_method "resources/subscribe" req ∧ names_uri uri req = true) then Some true
  else if decide (calls_method "resources/unsubscribe" req ∧ names_uri uri req = true) then Some false
  else None.

Definition level_effect (req : Request) : option string :=
  if decide (calls_method "logging/setLevel" req) then
    match UnmarshalLevel (rq_Params req) with
    | inr level => if decide (level ∈ log_levels) then Some level else None
    | inl _ => None
    end
  else None.

(** Only four methods change the state. *)
Lemma Handle_state req s :
  (Handle req s).1 =
    if decide (rq_JSONRPC req ≠ "2.0") then s
    else if decide (rq_Method req = "notifications/initialized") then set_inited s
    else if decide (rq_Method req = "resources/subscribe") then (handleResourcesSubscribe req s).1
    else if decide (rq_Method req = "resources/unsubscribe") then (handleResourcesUnsubscribe req s).1
    else if decide (rq_Method req = "logging/setLevel") then (handleLoggingSetLevel req s).1
    else s.
Proof.
  unfold Handle. repeat (case_decide; try done; try congruence). by destruct (IsNotification req).
Qed.

Lemma sub_effect_none uri req : rq_JSONRPC req ≠ "2.0" ∨
  rq_Method req ≠ "resources/subscribe" ∧ rq_Method req ≠ "resources/unsubscribe" → sub_effect uri req = None.
Proof.
  intros H. unfold sub_effect, calls_method. rewrite !decide_False; [done|..]; intros [[? ?] _]; tauto.
Qed.

Lemma level_effect_none req : rq_JSONRPC req ≠ "2.0" ∨ rq_Method req ≠ "logging/setLevel" →
  level_effect req = None.
Proof. intros H. unfold level_effect, calls_method. rewrite decide_False; [done|]. intros [? ?]. tauto. Qed.

Lemma sub_effect_some uri req b :
  calls_method (if (b : bool) then "resources/subscribe" else "resources/unsubscribe") req →
  sub_effect uri req = if names_uri uri req then Some b else None.
Proof.
  intros Hm. unfold sub_effect. destruct b.
  - destruct (names_uri uri req); [by rewrite decide_True|]. rewrite !decide_False; [done|..]; by intros [_ ?].
  - rewrite decide_False by (intros [[_ H] _]; destruct Hm as [_ Hm]; by rewrite Hm in H).
    destruct (names_uri uri req); [by rewrite decide_True|]. rewrite !decide_False; [done|..]; by intros [_ ?].
Qed.

(** What a request leaves behind. *)
Definition effects (req : Request) (s s' : Server) : Prop :=
  (∀ uri, Subscribed uri s' = default (Subscribed uri s) (sub_effect uri req)) ∧
  logLvl s' = default (logLvl s) (level_effect req) ∧
  inited s' = bool_decide (calls_method "notifications/initialized" req) || inited s ∧
  sv_pending s' = sv_pending s ∧ sv_link s' = sv_link s.

Lemma subscription_effects b req s :
  calls_method (if (b : bool) then "resources/subscribe" else "resources/unsubscribe") req →
  effects req s (if b then handleResourcesSubscribe req s else handleResourcesUnsubscribe req s).1.
Proof.
  intros Hm. pose proof Hm as [Hv Hme].
  assert (level_effect req = None) as Hl by (apply level_effect_none; right; rewrite Hme; by destruct b).
  assert (bool_decide (calls_method "notifications/initialized" req) = false) as Hi
    by (apply bool_decide_false; intros [_ ?]; rewrite Hme in *; by destruct b).
  unfold effects. rewrite Hl, Hi. setoid_rewrite (sub_effect_some _ _ b Hm).
  assert (∀ uri, names_uri uri req =
    bool_decide (UnmarshalURI (rq_Params req) = inr uri ∧ uri ≠ "")) as Hn by done.
  unfold handleResourcesSubscribe, handleResourcesUnsubscribe, Subscribed in *.
  destruct (UnmarshalURI (rq_Params req)) as [err|u].
  { destruct b; (split; [|done]); intros uri; rewrite Hn; (rewrite bool_decide_false by naive_solver); done. }
  destruct (decide (u = "")) as [->|Hu].
  { destruct b; (split; [|done]); intros uri; rewrite Hn; (rewrite bool_decide_false by naive_solver); done. }
  destruct b; (split; [|done]); intros uri; rewrite Hn; simpl; destruct (decide (u = uri)) as [->|Hne].
  - by rewrite bool_decide_true, lookup_insert_eq.
  - rewrite bool_decide_false by naive_solver. by rewrite lookup_insert_ne.
  - by rewrite bool_decide_true, lookup_delete_eq.
  - rewrite bool_decide_false by naive_solver. by rewrite lookup_delete_ne.
Qed.

Lemma Handle_effects req s : effects req s (Handle req s).1.
Proof.
  rewrite Handle_state.
  assert (rq_JSONRPC req ≠ "2.0" ∨ rq_Method req ∉ ["notifications/initialized"; "resources/subscribe";
      "resources/unsubscribe"; "logging/setLevel"]%string → effects req s s) as Hnone.
  { rewrite !not_elem_of_cons. intros H. unfold effects.
    rewrite level_effect_none, bool_decide_false by (tauto || (intros [? ?]; tauto)).
    split; [|done]. intros uri. by rewrite sub_effect_none by tauto. }
  destruct (decide (rq_JSONRPC req ≠ "2.0")) as [Hv|Hv%dec_stable]; [by apply Hnone; left|].
  case_decide as Hm.
  { unfold effects. rewrite bool_decide_true by done.
    rewrite level_effect_none by (right; by rewrite Hm). split; [|done].
    intros uri. rewrite sub_effect_none by (right; by rewrite Hm). done. }
  case_decide; [by apply (subscription_effects true)|].
  case_decide; [by apply (subscription_effects false)|].
  case_decide as Hl; cycle 1.
  { apply Hnone. right. rewrite !not_elem_of_cons, elem_of_nil. tauto. }
  unfold effects, handleLoggingSetLevel, level_effect. rewrite bool_decide_false by (intros [? ?]; done).
  rewrite decide_True by done. split.
  { intros uri. rewrite sub_effect_none by (right; by rewrite Hl).
    destruct (UnmarshalLevel (rq_Params req)) as [|level]; [done|]. repeat case_decide; done. }
  destruct (UnmarshalLevel (rq_Params req)) as [|level]; [done|].
  case_decide as He; [|by case_decide]. subst level. by rewrite decide_False by by apply (bool_decide_unpack _).
Qed.

(** Requests, emitted notifications, drains, and the steps of the link that happen
    between them. *)
Inductive server_op :=
| SHandle (req : Request)
| SEmit (n : Notification)
| SDrain
| SLink (op : link_op).

(** The state after a step, and what a drain answers. *)
Definition server_step (op : server_op) (s : Server) : option (Server * list Notification) :=
  match op with
  | SHandle req => Some ((Handle req s).1, [])
  | SEmit n => s ← EmitNotification n s; Some (s, [])
  | SDrain => Some (DrainNotifications s)
  | SLink op => '(l, _) ← link_step op (sv_link s); Some (set_link s l, [])
  end.

Fixpoint run_server (ops : list server_op) (s : Server) : option (Server * list Notification) :=
  match ops with
  | [] => Some (s, [])
  | op :: ops =>
      '(s, out) ← server_step op s; '(s, outs) ← run_server ops s; Some (s, out ++ outs)
  end.

Definition requests (ops : list server_op) : list Request :=
  omap (λ op, match op with SHandle req => Some req | _ => None end) ops.
Definition emitted (ops : list server_op) : list Notification :=
  omap (λ op, match op with SEmit n => Some n | _ => None end) ops.
Definition link_ops (ops : list server_op) : list link_op :=
  omap (λ op, match op with SEmit n => Some (ONotify n) | SLink op => Some op | _ => None end) ops.

Lemma default_last {A} (d a : A) l : default d (last (a :: l)) = default a (last l).
Proof. destruct l as [|b l]; [done|]. rewrite last_cons. by destruct (last (b :: l)) eqn:H. Qed.

(** The last of the effects is the one that counts. *)
Lemma last_effect {A B} (f : A → option B) d x l :
  default d (last (omap f (x :: l))) = default (default d (f x)) (last (omap f l)).
Proof. simpl. destruct (f x); [apply default_last|done]. Qed.

Lemma run_server_spec ops s evs0 : link_ok (sv_link s) evs0 →
  (Z.of_nat (length (lk_calls (sv_link s)) + length ops) < two63)%Z →
  ∃ s' drained evs, run_server ops s = Some (s', drained) ∧
    (∀ uri, Subscribed uri s' = default (Subscribed uri s) (last (omap (sub_effect uri) (requests ops)))) ∧
    logLvl s' = default (logLvl s) (last (omap level_effect (requests ops))) ∧
    (inited s' = true ↔ inited s = true ∨
       ∃ req, req ∈ requests ops ∧ calls_method "notifications/initialized" req) ∧
    drained ++ sv_pending s' = sv_pending s ++ emitted ops ∧
    run_link (link_ops ops) (sv_link s) = Some (sv_link s', evs).
Proof.
  revert s evs0. induction ops as [|op ops IH]; intros s evs0 Hok Hlt.
  { exists s, [], []. rewrite app_nil_r. split_and!; try done. split; [tauto|]. intros [?|(? & Hin & _)]; [done|].
    by apply elem_of_nil in Hin. }
  assert (∀ o, ∃ l' evs', link_step o (sv_link s) = Some (l', evs') ∧ link_ok l' (evs0 ++ evs') ∧
    (Z.of_nat (length (lk_calls l') + length ops) < two63)%Z) as Hlink.
  { intros o. simpl in Hlt. destruct (link_step_ok o _ _ Hok ltac:(lia)) as (l' & evs' & Hs & Hok').
    exists l', evs'. split; [done|]. split; [done|]. apply link_step_calls in Hs. lia. }
  destruct op as [req|n| |o].
  - simpl. destruct (Handle_effects req s) as (Hsub & Hlvl & Hin & Hp & Hl).
    destruct (IH (Handle req s).1 evs0) as (s' & dr & evs & -> & IHs & IHl & IHi & IHp & IHk);
      [by rewrite Hl|rewrite Hl; simpl in Hlt; lia|].
    exists s', dr, evs. split; [done|].
    change (requests (SHandle req :: ops)) with (req :: requests ops).
    setoid_rewrite last_effect. split_and!.
    + intros uri. by rewrite IHs, Hsub.
    + by rewrite IHl, Hlvl.
    + rewrite IHi, Hin, orb_true_iff, bool_decide_eq_true. setoid_rewrite elem_of_cons. naive_solver.
    + by rewrite IHp, Hp.
    + by rewrite <-Hl.
  - cbn [run_server server_step]. destruct (Hlink (ONotify n)) as (l' & evs' & Hs & Hok' & Hlt').
    unfold EmitNotification. cbn [sv_link set_pending]. rewrite Hs. cbn [mbind option_bind].
    destruct (IH (set_link (set_pending s (sv_pending s ++ [n])) l') _ Hok' Hlt')
      as (s' & dr & evs & -> & IHs & IHl & IHi & IHp & IHk).
    exists s', dr, (evs' ++ evs). do 4 (split; [done|]). split.
    + rewrite IHp. simpl. by rewrite <-app_assoc.
    + change (link_ops (SEmit n :: ops)) with (ONotify n :: link_ops ops).
      cbn [run_link]. rewrite Hs. simpl in *. by rewrite IHk.
  - cbn [run_server server_step]. unfold DrainNotifications.
    destruct (sv_pending s) as [|n ns] eqn:Hp; cbn [mbind option_bind].
    + destruct (IH s evs0 Hok ltac:(simpl in Hlt; lia)) as (s' & dr & evs & -> & IHs & IHl & IHi & IHp & IHk).
      exists s', dr, evs. rewrite Hp in IHp. done.
    + destruct (IH (set_pending s []) evs0 Hok ltac:(simpl in *; lia))
        as (s' & dr & evs & -> & IHs & IHl & IHi & IHp & IHk).
      exists s', ((n :: ns) ++ dr), evs. do 4 (split; [done|]). split; [|done].
      rewrite <-app_assoc, IHp. done.
  - cbn [run_server server_step]. destruct (Hlink o) as (l' & evs' & Hs & Hok' & Hlt').
    rewrite Hs. cbn [mbind option_bind].
    destruct (IH (set_link s l') _ Hok' Hlt') as (s' & dr & evs & -> & IHs & IHl & IHi & IHp & IHk).
    exists s', dr, (evs' ++ evs). do 5 (split; [done|]).
    change (link_ops (SLink o :: ops)) with (o :: link_ops ops).
    cbn [run_link]. rewrite Hs. simpl in *. by rewrite IHk.
Qed.


(** ** The methods that look something up *)

(** The first element with a property. *)
Definition first {A} (P : A → Prop) (l : list A) (x : A) : Prop :=
  ∃ pre post, l = pre ++ x :: post ∧ P x ∧ Forall (λ y, ¬ P y) pre.

Lemma find_first {A} (f : A → bool) (P : A → Prop) l : (∀ x, f x = true ↔ P x) →
  match find f l with Some x => first P l x | None => Forall (λ y, ¬ P y) l end.
Proof.
  intros Hf. induction l as [|y l IH]; [constructor|]. simpl. destruct (f y) eqn:Hy.
  - exists [], l. split; [done|]. split; [by apply Hf|constructor].
  - assert (¬ P y) as Hn by (intros H%Hf; congruence). destruct (find f l) as [x|]; [|by constructor].
    destruct IH as (pre & post & -> & Hx & Hpre). exists (y :: pre), post.
    split; [done|]. split; [done|by constructor].
Qed.

Lemma first_unique {A} (P : A → Prop) l x y : first P l x → first P l y → x = y.
Proof.
  intros (pre & post & -> & Hx & Hpre) (pre' & post' & Heq & Hy & Hpre').
  rewrite Forall_forall in Hpre, Hpre'. apply app_eq_inv in Heq as [(k & -> & Heq)|(k & -> & Heq)].
  - destruct k as [|z k]; simplify_eq/=; [done|]. destruct (Hpre z); [set_solver|done].
  - destruct k as [|z k]; simplify_eq/=; [done|]. destruct (Hpre' z); [set_solver|done].
Qed.

Lemma first_none {A} (P : A → Prop) l x : first P l x → Forall (λ y, ¬ P y) l → False.
Proof. intros (pre & post & -> & Hx & _) [_ [H _]%Forall_cons]%Forall_app. done. Qed.

(** The response of a tool whose criteria the arguments meet. *)
Definition response_matches (args : list (string * value)) (r : MCPToolResponse) : Prop :=
  mtr_Default r = false ∧ mtr_Match r ≠ [] ∧
  ∀ k v, (k, v) ∈ mtr_Match r → ∃ got, obj_get args k = Some got ∧ DeepEqual got v = true.

Lemma tool_criteria_spec args r :
  mtr_Default r = false ∧ matchArgs (mtr_Match r) args = true ↔ response_matches args r.
Proof.
  unfold response_matches, matchArgs. destruct (mtr_Match r) as [|kv m]; [naive_solver|].
  rewrite forallb_forall. split; intros (Hd & H); (split; [done|]).
  - split; [done|]. intros k v Hin%list_elem_of_In. specialize (H (k, v) Hin). simpl in H.
    destruct (obj_get args k); [eauto|done].
  - intros [k v] Hin%list_elem_of_In. destruct (proj2 H k v Hin) as (got & Hg & He). simpl. by rewrite Hg.
Qed.

(** The first response that matches, else the last default, else none. *)
Definition chosen (args : list (string * value)) (responses : list MCPToolResponse)
    (r : option MCPToolResponse) : Prop :=
  (∃ m, r = Some m ∧ first (response_matches args) responses m) ∨
  Forall (λ m, ¬ response_matches args m) responses ∧
  r = last (filter (λ m, mtr_Default m = true) responses).

Lemma tool_response_spec args responses fallback :
  let r := resolve_from fallback responses args in
  (∃ m, r = Some m ∧ first (response_matches args) responses m) ∨
  Forall (λ m, ¬ response_matches args m) responses ∧
  r = match last (filter (λ m, mtr_Default m = true) responses) with Some d => Some d | None => fallback end.
Proof.
  cbv zeta. revert fallback. induction responses as [|m rest IH]; intros fallback; [by right|].
  cbn [resolve_from]. rewrite filter_cons. destruct (mtr_Default m) eqn:Hd.
  { assert (¬ response_matches args m) as Hn by (intros [? _]; congruence).
    rewrite decide_True by done. destruct (IH (Some m)) as [(x & Hx & pre & post & -> & Hm & Hp)|[Hall ->]].
    - left. exists x. split; [done|]. exists (m :: pre), post. split; [done|]. split; [done|by constructor].
    - right. split; [by constructor|]. rewrite last_cons. by destruct (last _). }
  rewrite decide_False by congruence. destruct (matchArgs (mtr_Match m) args) eqn:Hma.
  { left. exists m. split; [done|]. exists [], rest. split; [done|].
    split; [by apply tool_criteria_spec|constructor]. }
  assert (¬ response_matches args m) as Hn by (intros [_ H]%tool_criteria_spec; congruence).
  destruct (IH fallback) as [(x & Hx & pre & post & -> & Hm & Hp)|[Hall ->]].
  - left. exists x. split; [done|]. exists (m :: pre), post. split; [done|]. split; [done|by constructor].
  - right. split; [by constructor|done].
Qed.

Lemma resolveToolResponse_chosen args responses : chosen args responses (resolveToolResponse responses args).
Proof.
  destruct (tool_response_spec args responses None) as [H|[? H]]; [by left|right].
  split; [done|]. unfold resolveToolResponse. rewrite H. by destruct (last _).
Qed.

(** The catalog entry that answers a completion. *)
Definition completes (p : completionParams) (c : MCPCompletion) : Prop :=
  (mc_RefType c = "" ∨ mc_RefType c = cr_Type (cp_Ref p)) ∧
  (mc_RefName c = "" ∨ mc_RefName c = cr_Name (cp_Ref p)) ∧ mc_ArgName c = ca_Name (cp_Argument p).

(** The values that start with what was typed, whatever the case. *)
Definition suggestions (p : completionParams) (c : MCPCompletion) : list string :=
  filter (λ v, has_prefix (ToLower v) (ToLower (ca_Value (cp_Argument p))) = true) (mc_Values c).

Lemma completion_matches_spec p c :
  completion_matches (cr_Type (cp_Ref p)) (cr_Name (cp_Ref p)) (ca_Name (cp_Argument p)) c = true ↔
  completes p c.
Proof.
  unfold completion_matches, completes. rewrite !andb_true_iff, !orb_true_iff, !bool_decide_eq_true; tauto.
Qed.

Lemma suggestions_all p c : ca_Value (cp_Argument p) = "" → suggestions p c = mc_Values c.
Proof.
  intros H. unfold suggestions. rewrite H, (ToLower_ascii "") by constructor.
  induction (mc_Values c) as [|v vs IH]; [done|]. rewrite filter_cons, decide_True; [by rewrite IH|].
  by apply has_prefix_spec; eexists.
Qed.

(** tools/call answers with the first response of the named tool whose criteria
    are not empty and all equal the arguments, else with its last default, else with
    the mock text, and names the tools there are when the tool is unknown.
    completion/complete answers from the first catalog entry that fits the reference
    and the argument, with at most 100 of the values that extend what was typed,
    whatever the case, in their order, with their number and whether some were left
    out; without an entry it answers the nil slice. *)
Theorem lookups_correct (req : Request) :
  (∀ params, UnmarshalToolCall (rq_Params req) = inr params → tcp_Name params ≠ "" →
     (∀ tool, first (λ t, mt_Name t = tcp_Name params) (mss_Tools (msd_Spec def)) tool →
        ∃ r, chosen (tcp_Arguments params) (mt_Responses tool) r ∧
          handleToolsCall req = newResult (rq_ID req) (ToolCallResult
            match r with
            | Some r => mkMCPToolCallResult (mtr_Content r) (mtr_IsError r)
            | None => mkMCPToolCallResult [mock_text tool (tcp_Arguments params)] false
            end)) ∧
     (Forall (λ t, mt_Name t ≠ tcp_Name params) (mss_Tools (msd_Spec def)) →
        handleToolsCall req = newError (rq_ID req) ErrMethodNotFound
          ("unknown tool " +:+ Quote (tcp_Name params))%string (available toolNames))) ∧
  (∀ p, UnmarshalCompletion (rq_Params req) = inr p → ca_Name (cp_Argument p) ≠ "" →
     (∀ c, first (completes p) (mss_Completions (msd_Spec def)) c →
        let n := length (suggestions p c) in
        handleCompletionComplete req = newResult (rq_ID req)
          (CompletionResult (mkCompletionValues (Some (take 100 (suggestions p c))) (Z.of_nat n)
            (bool_decide (100 < n))))) ∧
     (Forall (λ c, ¬ completes p c) (mss_Completions (msd_Spec def)) →
        handleCompletionComplete req = newResult (rq_ID req)
          (CompletionResult (mkCompletionValues None 0 false)))).
Proof.
  split.
  - intros params Hp Hn. unfold handleToolsCall. rewrite Hp, decide_False by done.
    pose proof (find_first (λ t, bool_decide (mt_Name t = tcp_Name params)) (λ t, mt_Name t = tcp_Name params)
      (mss_Tools (msd_Spec def)) (λ t, bool_decide_eq_true _)) as Hf. unfold findTool. split.
    + intros tool Ht. destruct (find _ _) as [t|]; cycle 1.
      { by destruct (first_none _ _ _ Ht Hf). }
      rewrite (first_unique _ _ _ _ Ht Hf). eexists. split; [apply resolveToolResponse_chosen|].
      by destruct (resolveToolResponse _ _).
    + intros Hall. destruct (find _ _) as [t|]; [|done].
      by destruct (first_none _ _ _ Hf Hall).
  - intros p Hp Hn. unfold handleCompletionComplete, lookupCompletion. rewrite Hp, decide_False by done.
    pose proof (find_first _ (completes p) (mss_Completions (msd_Spec def)) (completion_matches_spec p)) as Hf.
    split.
    + intros c Hc. destruct (find _ _) as [c'|]; cycle 1.
      { by destruct (first_none _ _ _ Hc Hf). }
      rewrite <-(first_unique _ _ _ _ Hc Hf). cbn [fmap option_fmap option_map].
      assert ((if decide (ca_Value (cp_Argument p) ≠ "") then filterPrefix (Some (mc_Values c)) (ca_Value (cp_Argument p))
        else Some (mc_Values c)) = Some (suggestions p c)) as ->.
      { destruct (decide (ca_Value (cp_Argument p) ≠ "")) as [Hv|Hv%dec_stable]; [|by rewrite suggestions_all].
        unfold filterPrefix. by rewrite decide_False. }
      cbn [default fmap option_fmap option_map from_option]. unfold maxValues, id. case_decide as Hlt.
      * by rewrite bool_decide_true.
      * rewrite bool_decide_false, take_ge by (done || lia). done.
    + intros Hall. destruct (find _ _) as [c|].
      { by destruct (first_none _ _ _ Hf Hall). }
      assert ((if decide (ca_Value (cp_Argument p) ≠ "")
        then filterPrefix (mc_Values <$> None) (ca_Value (cp_Argument p)) else mc_Values <$> None) = None)
        as -> by (unfold filterPrefix; by repeat case_decide). done.
Qed.

(** ** Expanding the arguments of a prompt *)

Definition lbrace : Ascii.ascii := Ascii.ascii_of_nat 123.
Definition rbrace : Ascii.ascii := Ascii.ascii_of_nat 125.

Fixpoint brace_free (s : string) : Prop :=
  match s with EmptyString => True | String a s => a ≠ lbrace ∧ a ≠ rbrace ∧ brace_free s end.

(** A template: text without braces, and placeholders. *)
Inductive piece := Lit (s : string) | Hole (name : string).

Definition piece_ok (p : piece) : Prop := match p with Lit s => brace_free s | Hole k => brace_free k end.

Definition piece_text (p : piece) : string := match p with Lit s => s | Hole k => placeholder k end.

Definition render (ps : list piece) : string := cat (piece_text <$> ps).

(** What a piece stands for: an unknown placeholder stands for itself. *)
Definition piece_value (args : gmap string string) (p : piece) : string :=
  match p with Lit s => s | Hole k => default (placeholder k) (args !! k) end.

Lemma replace_fuel f s old new : old ≠ "" → String.length s ≤ f →
  replace_loop f s old new = ReplaceAll s old new.
Proof.
  intros Hold. unfold ReplaceAll. revert s. induction (lt_wf f) as [f _ IH]. intros s Hf.
  destruct s as [|a s]; [by destruct f|]. destruct f as [|f]; [simpl in Hf; lia|].
  cbn [replace_loop String.length] in *. pose proof (str_drop_length (String.length old) (String a s)) as Hd.
  assert (0 < String.length old) by (destruct old; simpl; [done|lia]). simpl in Hd.
  destruct (decide (String.length s = f)) as [->|Hne]; [done|].
  case_match; f_equal; rewrite IH by lia; [|done]. symmetry. apply IH; lia.
Qed.

Lemma ReplaceAll_cons a s old new : old ≠ "" →
  ReplaceAll (String a s) old new =
  if has_prefix (String a s) old
  then (new +:+ ReplaceAll (str_drop (String.length old) (String a s)) old new)%string
  else String a (ReplaceAll s old new).
Proof.
  intros Hold. unfold ReplaceAll at 1. cbn [replace_loop String.length].
  case_match; [|done]. rewrite replace_fuel; [done|done|].
  pose proof (str_drop_length (String.length old) (String a s)) as Hd.
  assert (0 < String.length old) by (destruct old; simpl; [done|lia]). simpl in Hd. lia.
Qed.

Lemma placeholder_nonempty k : placeholder k ≠ "".
Proof. done. Qed.

Lemma not_open a s k : a ≠ lbrace → has_prefix (String a s) (placeholder k) = false.
Proof.
  intros Ha. apply not_true_iff_false. intros [t Ht]%has_prefix_spec. injection Ht as Heq _. by apply Ha.
Qed.

Lemma replace_lit s rest k v : brace_free s →
  ReplaceAll (s +:+ rest) (placeholder k) v = (s +:+ ReplaceAll rest (placeholder k) v)%string.
Proof.
  induction s as [|a s IH]; [done|]. intros (Hl & _ & Hs).
  change (String a s +:+ rest)%string with (String a (s +:+ rest)).
  rewrite ReplaceAll_cons, not_open by done. by rewrite IH.
Qed.

Lemma replace_hit rest k v :
  ReplaceAll (placeholder k +:+ rest) (placeholder k) v = (v +:+ ReplaceAll rest (placeholder k) v)%string.
Proof.
  destruct (placeholder k) as [|a p] eqn:Hp; [done|].
  change (String a p +:+ rest)%string with (String a (p +:+ rest)). rewrite ReplaceAll_cons by done.
  assert (has_prefix (String a (p +:+ rest)) (String a p) = true) as ->
    by (apply has_prefix_spec; by exists rest).
  change (String a (p +:+ rest)) with (String a p +:+ rest)%string. by rewrite str_drop_app.
Qed.

Lemma closed_name j k rest t : brace_free j → brace_free k →
  (j +:+ "}}" +:+ rest)%string = (k +:+ "}}" +:+ t)%string → j = k.
Proof.
  revert k. induction j as [|a j IH]; intros [|b k] Hj Hk H; [done| | |].
  - destruct Hk as (_ & Hb & _). by injection H as <- _.
  - destruct Hj as (_ & Ha & _). by injection H as -> _.
  - injection H as <- H. f_equal. by apply IH; [apply Hj|apply Hk|].
Qed.

Lemma placeholder_app k rest :
  (placeholder k +:+ rest)%string = String lbrace (String lbrace (k +:+ "}}" +:+ rest)).
Proof. unfold placeholder. by rewrite !str_app_assoc. Qed.

Lemma replace_miss j rest k v : brace_free j → brace_free k → j ≠ k →
  ReplaceAll (placeholder j +:+ rest) (placeholder k) v =
  (placeholder j +:+ ReplaceAll rest (placeholder k) v)%string.
Proof.
  intros Hj Hk Hne. rewrite !placeholder_app, !ReplaceAll_cons by done.
  assert (has_prefix (String lbrace (String lbrace (j +:+ "}}" +:+ rest))) (placeholder k) = false) as ->.
  { apply not_true_iff_false. intros [t Ht]%has_prefix_spec. rewrite placeholder_app in Ht.
    injection Ht as Ht. by apply Hne, (closed_name j k rest t). }
  assert (has_prefix (String lbrace (j +:+ "}}" +:+ rest)) (placeholder k) = false) as ->.
  { apply not_true_iff_false. intros [t Ht]%has_prefix_spec. rewrite placeholder_app in Ht.
    destruct j as [|a j]; [by injection Ht|]. destruct Hj as (Ha & _). injection Ht as Heq _. by apply Ha. }
  rewrite replace_lit by done. do 3 f_equal.
Qed.

(** One replacement fills the placeholders of its name. *)
Definition fill (k v : string) (p : piece) : piece :=
  match p with Hole j => if decide (j = k) then Lit v else p | Lit _ => p end.

Lemma replace_render ps k v : Forall piece_ok ps → brace_free k →
  ReplaceAll (render ps) (placeholder k) v = render (fill k v <$> ps).
Proof.
  intros Hps Hk. induction Hps as [|p ps Hp Hps IH]; [done|].
  change (render (p :: ps)) with (piece_text p +:+ render ps)%string.
  change (render (fill k v <$> p :: ps)) with (piece_text (fill k v p) +:+ render (fill k v <$> ps))%string.
  rewrite <-IH. destruct p as [s|j]; simpl in Hp; cbn [fill piece_text].
  - by apply replace_lit.
  - case_decide as Hj; [subst j; apply replace_hit|by apply replace_miss].
Qed.

Definition fill_all (l : list (string * string)) (p : piece) : piece :=
  match p with Hole j => match obj_get l j with Some v => Lit v | None => Hole j end | Lit _ => p end.

Lemma replace_all_render l ps : Forall piece_ok ps → Forall (λ kv, brace_free kv.1 ∧ brace_free kv.2) l →
  foldl (λ s kv, ReplaceAll s (placeholder kv.1) kv.2) (render ps) l = render (fill_all l <$> ps).
Proof.
  intros Hps Hl. revert ps Hps. induction Hl as [|[k v] l [Hk Hv] Hl IH]; intros ps Hps; simpl in *.
  { f_equal. symmetry. etransitivity; [|apply list_fmap_id]. apply list_fmap_ext. by intros i [s|j] _. }
  rewrite replace_render by done. rewrite IH.
  - f_equal. rewrite <-list_fmap_compose. apply list_fmap_ext. intros i [s|j] _; [done|]. simpl.
    rewrite obj_get_cons. destruct (decide (j = k)) as [->|Hne]; [by rewrite decide_True|].
    by rewrite decide_False.
  - apply Forall_fmap. eapply Forall_impl; [exact Hps|].
    intros [s|j] Hp; simpl in *; [done|]. by case_decide.
Qed.

(** when no brace occurs in the text of a template, in the argument names or in
    their values, the expansion does not depend on the order in which the arguments
    are visited: each placeholder stands for the value of its argument, and one without
    an argument for itself. *)
Theorem expandArgs_correct (ps : list piece) (args : gmap string string) :
  Forall piece_ok ps → map_Forall (λ k v, brace_free k ∧ brace_free v) args →
  expandArgs (render ps) args = cat (piece_value args <$> ps).
Proof.
  intros Hps Ha. unfold expandArgs. rewrite replace_all_render; [|done|].
  - unfold render. f_equal. rewrite <-list_fmap_compose. apply list_fmap_ext. intros i [s|j] _; [done|].
    simpl. assert (obj_get (range args) j = args !! j) as ->; [|by destruct (args !! j)].
    apply option_eq. intros v. by rewrite obj_get_Some, elem_of_range by apply NoDup_fst_range.
  - rewrite Forall_forall. intros [k v] Hkv%elem_of_range. by apply (Ha k v).
Qed.
End server.

(** ** Examples *)

(** Parameters written as bare strings. *)
#[local] Instance ex_json : McpJson := {|
  UnmarshalRequest body := inr (mkRequest "2.0" "" body "");
  UnmarshalToolCall s := inr (mkToolCallParams s [("n"%string, VFloat64 (f64_of_Z 3))]);
  UnmarshalURI s := inr s;
  UnmarshalPromptsGet s := inr (mkPromptsGetParams s ∅);
  UnmarshalCompletion s := inr (mkCompletionParams (mkCompletionRef "ref/prompt" "p") (mkCompletionArgument "city" s));
  UnmarshalLevel s := inr s;
  MarshalResponse r := inr (rs_ID r)
|}.
#[local] Existing Instance canonical_range.
#[local] Existing Instance ascii_go_lower.
#[local] Existing Instance plain_fmt.

Definition ex_block (s : string) : MCPContentBlock := mkMCPContentBlock "text" s "" "" "" "".

(** A tool whose first response asks for the YAML integer 3, and a catalog. *)
Definition ex_def : MCPServerDefinition :=
  mkMCPServerDefinition "mockagents/v1" "MCPServer" (mkMetadata "m" "" [] "")
    (mkMCPServerSpec "" (mkMCPCapabilities false false false false)
       [mkMCPTool "lookup" "" []
          [mkMCPToolResponse [("n"%string, VInt 3)] false [ex_block "three"] false;
           mkMCPToolResponse [] true [ex_block "default"] false]]
       [] [] [mkMCPCompletion "" "" "city" ["Paris"; "Oslo"; "Palermo"]%string]).

Definition ex_call (m params : string) : Request := mkRequest "2.0" "1" m params.

Definition ex_server_ops : list server_op :=
  [SHandle (ex_call "resources/subscribe" "a"); SHandle (ex_call "resources/subscribe" "b");
   SEmit (mkNotification "x" None); SHandle (ex_call "resources/unsubscribe" "a"); SDrain;
   SHandle (ex_call "logging/setLevel" "loud"); SHandle (ex_call "logging/setLevel" "info");
   SEmit (mkNotification "y" None); SHandle (ex_call "logging/setLevel" "")].


Lemma expandArgs_correct_witness :
  expandArgs (render [Lit "Dear "; Hole "name"; Lit ", "; Hole "who"]) {["name" := "Ada"]} =
    "Dear Ada, {{who}}" :> string.
Proof.
  rewrite (expandArgs_correct [Lit "Dear "; Hole "name"; Lit ", "; Hole "who"] {["name" := "Ada"]}).
  - reflexivity.
  - repeat constructor; discriminate.
  - intros k v [<- <-]%lookup_singleton_Some. repeat constructor; discriminate.
Defined.

(** A value that holds the placeholder of another argument: the answer depends on the
    order in which the map is visited. *)
Lemma expansion_order :
  let args := {["a" := "{{b}}"; "b" := "x"]} : gmap string string in
  expandArgs (mr := canonical_range) "{{a}}" args ≠ expandArgs (mr := reverse_range) "{{a}}" args.
Proof. vm_compute. discriminate. Qed.

(** A number in the criteria is an int, one in the arguments a float64: they are
    never deeply equal. *)
Lemma integer_criteria_never_match k n f m args :
  obj_get args k = Some (VFloat64 f) → matchArgs ((k, VInt n) :: m) args = false.
Proof. intros H. unfold matchArgs. simpl. by rewrite H. Qed.

Lemma integer_criteria_example :
  handleToolsCall ex_def (ex_call "tools/call" "lookup") =
  newResult "1" (ToolCallResult (mkMCPToolCallResult [ex_block "default"] false)).
Proof. reflexivity. Qed.

(** A notification of a known method is answered. *)
Lemma ping_notification_answered s :
  (Handle ex_def (mkRequest "2.0" "" "ping" "") s).2 = Some (newResult "" EmptyResult).
Proof. reflexivity. Qed.
