(* ===== verification/MCPSessions.v ===== *)
(** The streamable HTTP transport of the mock MCP server,
    [internal/mcp/streamable.go]: the resumable event log of a session and its
    subscribers, the table of sessions, and the POST, GET and DELETE handlers.

    Sessions and channels are pointers into heaps; each operation is one critical
    section. [None] is a panic (a send on or a close of a closed channel). *)

From S2P Require Import Prelude GoBase GoChan AgentTypes DocumentTypes JsonRpc MCPOutbound MCPServer.
From S2P Require Import Validation.

Definition maxSessionLogEvents : nat := 1024.
Definition defaultMaxSessions : Z := 256.
Definition maxSubscribersPerSession : nat := 64.
Definition subscriberChanBuffer : Z := 64.

Record loggedEvent := mkLoggedEvent { ev_id : Z; ev_data : string }.

Record streamSession := mkStreamSession {
  ss_id : string;
  ss_nextID : Z;
  ss_log : list loggedEvent;
  ss_subs : gset nat;
  ss_closed : bool
}.

Definition newStreamSession (id : string) : streamSession := mkStreamSession id 0 [] ∅ false.

Section session.
Context {sr : SetRange}.

Abbreviation chans := (list (chan loggedEvent)).

(** The select of the loop over the subscribers; a full channel is skipped. *)
Definition push (ev : loggedEvent) (c : chan loggedEvent) : option (chan loggedEvent) :=
  sent ← try_send ev c; Some (default c sent).

(** The log keeps its last [max] events. *)
Definition trim_log (max : nat) (log : list loggedEvent) : list loggedEvent :=
  if decide (max < length log) then drop (length log - max) log else log.

(** [data] is the marshalled envelope, [None] when it cannot be marshalled. *)
Definition broadcastNotification (data : option string) (s : streamSession) (cs : chans)
  : option (streamSession * chans) :=
  match data with
  | None => Some (s, cs)
  | Some data =>
      if ss_closed s then Some (s, cs)
      else
        let n := wrap64 (ss_nextID s + 1) in
        let ev := mkLoggedEvent n data in
        let log := trim_log maxSessionLogEvents (ss_log s ++ [ev]) in
        cs ← fold_opt (on (push ev)) (visit (ss_subs s)) cs;
        Some (mkStreamSession (ss_id s) n log (ss_subs s) false, cs)
  end.

(** The replay, the channel, and whether the session is at its capacity. *)
Definition subscribe (after : Z) (s : streamSession) (cs : chans)
  : streamSession * chans * (list loggedEvent * nat * bool) :=
  let ch := length cs in
  let shut := cs ++ [mkChan [] subscriberChanBuffer true] in
  if ss_closed s then (s, shut, ([], ch, false))
  else if decide (maxSubscribersPerSession ≤ size (ss_subs s)) then (s, shut, ([], ch, true))
  else (mkStreamSession (ss_id s) (ss_nextID s) (ss_log s) ({[ch]} ∪ ss_subs s) false,
        cs ++ [mkChan [] subscriberChanBuffer false],
        (filter (λ ev, after < ev_id ev)%Z (ss_log s), ch, false)).

(** The cancel closure of a subscription. *)
Definition cancel (ch : nat) (s : streamSession) : streamSession :=
  mkStreamSession (ss_id s) (ss_nextID s) (ss_log s) (ss_subs s ∖ {[ch]}) (ss_closed s).

Definition close (s : streamSession) (cs : chans) : option (streamSession * chans) :=
  if ss_closed s then Some (s, cs)
  else cs ← fold_opt (on close_chan) (visit (ss_subs s)) cs;
       Some (mkStreamSession (ss_id s) (ss_nextID s) (ss_log s) ∅ true, cs).

(** ** A session *)

Inductive session_op :=
| SBroadcast (data : option string)
| SSubscribe (after : Z)
| SCancel (ch : nat)
| SRead (ch : nat)
| SClose.

Inductive session_event :=
| EPublished (ev : loggedEvent)
| ERead (ch : nat) (ev : loggedEvent).

Definition session_step (op : session_op) (s : streamSession) (cs : chans)
  : option (streamSession * chans * list session_event) :=
  match op with
  | SBroadcast data =>
      '(s', cs') ← broadcastNotification data s cs;
      Some (s', cs', match data with
                     | Some d => if ss_closed s then [] else [EPublished (mkLoggedEvent (ss_nextID s') d)]
                     | None => []
                     end)
  | SSubscribe after => let '(s, cs, _) := subscribe after s cs in Some (s, cs, [])
  | SCancel ch => Some (cancel ch s, cs, [])
  | SRead ch =>
      match cs !! ch ≫= receive_chan with
      | None => Some (s, cs, [])
      | Some (ev, c) => Some (s, <[ch := c]> cs, [ERead ch ev])
      end
  | SClose => '(s, cs) ← close s cs; Some (s, cs, [])
  end.

Fixpoint run_session (ops : list session_op) (s : streamSession) (cs : chans)
  : option (streamSession * chans * list session_event) :=
  match ops with
  | [] => Some (s, cs, [])
  | op :: ops =>
      '(s, cs, evs) ← session_step op s cs; '(s, cs, evs') ← run_session ops s cs;
      Some (s, cs, evs ++ evs')
  end.

Definition published (evs : list session_event) : list loggedEvent :=
  omap (λ e, match e with EPublished ev => Some ev | ERead _ _ => None end) evs.

Definition read_by (ch : nat) (evs : list session_event) : list loggedEvent :=
  omap (λ e, match e with ERead c ev => if decide (c = ch) then Some ev else None | _ => None end) evs.

(** The events published so far are numbered from 1, the log holds the last ones,
    and the subscribers are open channels, none once the session is closed. *)
Record session_ok (s : streamSession) (cs : chans) (pub : list loggedEvent) : Prop := {
  so_next : ss_nextID s = Z.of_nat (length pub);
  so_ids : ∀ i ev, pub !! i = Some ev → ev_id ev = Z.of_nat (S i);
  so_log : ss_log s = drop (length pub - maxSessionLogEvents) pub;
  so_subs : ∀ ch, ch ∈ ss_subs s → ∃ c, cs !! ch = Some c ∧ ch_closed c = false;
  so_closed : ss_closed s = true → ss_subs s = ∅
}.

Lemma newStreamSession_ok id cs : session_ok (newStreamSession id) cs [].
Proof. split; simpl; [done..|set_solver|done]. Qed.

(** A channel with [ev] pushed to it. *)
Definition has_room (c : chan loggedEvent) : bool := bool_decide (Z.of_nat (length (buf c)) < cap c)%Z.

Definition pushed (ev : loggedEvent) (c : chan loggedEvent) : chan loggedEvent :=
  if has_room c then mkChan (buf c ++ [ev]) (cap c) false else c.

Lemma push_open ev c : ch_closed c = false → push ev c = Some (pushed ev c).
Proof.
  intros Hc. unfold push, pushed, try_send, has_room. rewrite Hc. by case_decide;
    [rewrite bool_decide_true by done|rewrite bool_decide_false by done].
Qed.

Lemma trim_log_spec max pub ev :
  trim_log max (drop (length pub - max) pub ++ [ev]) = drop (length (pub ++ [ev]) - max) (pub ++ [ev]).
Proof.
  rewrite <-drop_app_le by lia. unfold trim_log. rewrite length_drop, length_app. simpl.
  case_decide; [rewrite drop_drop; f_equal; lia|]. f_equal. lia.
Qed.

Lemma broadcast_spec d s cs pub : session_ok s cs pub → ss_closed s = false →
  (Z.of_nat (S (length pub)) < two63)%Z →
  let ev := mkLoggedEvent (Z.of_nat (S (length pub))) d in
  ∃ s' cs', broadcastNotification (Some d) s cs = Some (s', cs') ∧ session_ok s' cs' (pub ++ [ev]) ∧
    ss_nextID s' = ev_id ev ∧ ss_subs s' = ss_subs s ∧ ss_closed s' = false ∧
    ∀ ch, cs' !! ch = if decide (ch ∈ ss_subs s) then pushed ev <$> cs !! ch else cs !! ch.
Proof.
  intros [] Hc Hlt. cbv zeta. unfold broadcastNotification. rewrite Hc, so_next0.
  assert (wrap64 (Z.of_nat (length pub) + 1) = Z.of_nat (S (length pub))) as ->
    by (rewrite wrap64_id; [lia|unfold in_int64, two63 in *; lia]).
  set (ev := mkLoggedEvent _ d).
  destruct (fold_on (push ev) (visit (ss_subs s)) cs) as (cs' & Hf & Hlen & Hl).
  { apply NoDup_visit. }
  { intros ch (c & Hch & Ho)%elem_of_visit%so_subs0. rewrite Hch. simpl. rewrite push_open by done. eauto. }
  rewrite Hf. simpl.
  assert (∀ ch, cs' !! ch = if decide (ch ∈ ss_subs s) then pushed ev <$> cs !! ch else cs !! ch) as Hch.
  { intros ch. rewrite Hl. rewrite (decide_ext _ _ _ _ (elem_of_visit ch (ss_subs s))).
    case_decide as Hin; [|done]. destruct (so_subs0 ch Hin) as (c & Hc' & Ho). rewrite Hc'. simpl.
    by rewrite push_open. }
  eexists _, _. split; [done|]. split; [|done]. split; simpl.
  - rewrite length_app. simpl. lia.
  - intros i e [[? Hi]|[-> <-]]%lookup_snoc_Some; [by apply so_ids0|done].
  - by rewrite so_log0, trim_log_spec.
  - intros ch Hin. destruct (so_subs0 ch Hin) as (c & Hc' & Ho). rewrite Hch, decide_True, Hc' by done.
    eexists. split; [done|]. unfold pushed. by destruct (has_room c).
  - done.
Qed.

Lemma close_spec s cs pub : session_ok s cs pub →
  ∃ s' cs', close s cs = Some (s', cs') ∧ session_ok s' cs' pub ∧ ss_closed s' = true ∧
    ∀ ch, buf <$> cs' !! ch = buf <$> cs !! ch.
Proof.
  intros H. pose proof H as []. unfold close. destruct (ss_closed s) eqn:Hc; [by eexists _, _|].
  destruct (fold_on close_chan (visit (ss_subs s)) cs) as (cs' & Hf & Hlen & Hl).
  { apply NoDup_visit. }
  { intros ch (c & Hch & Ho)%elem_of_visit%so_subs0. rewrite Hch. simpl. unfold close_chan.
    rewrite Ho. eauto. }
  rewrite Hf. simpl. eexists _, _. split; [done|]. split; [|split; [done|]].
  - split; simpl; [done..|set_solver|done].
  - intros ch. rewrite Hl. case_decide as Hin; [|done].
    apply elem_of_visit, so_subs0 in Hin as (c & Hch & Ho). rewrite Hch. simpl. unfold close_chan. by rewrite Ho.
Qed.

Lemma session_ok_buf s cs cs' pub :
  (∀ ch c, cs !! ch = Some c → ∃ c', cs' !! ch = Some c' ∧ ch_closed c' = ch_closed c) →
  session_ok s cs pub → session_ok s cs' pub.
Proof.
  intros Hcs []. split; [done..| |done]. intros ch (c & Hc & Ho)%so_subs0.
  destruct (Hcs ch c Hc) as (c' & ? & Hcl). exists c'. by rewrite Hcl.
Qed.

Lemma session_subscribe_spec after s cs pub : session_ok s cs pub →
  let '(s', cs', (replay, ch, atCap)) := subscribe after s cs in
  session_ok s' cs' pub ∧ ch = length cs ∧ (∃ c, cs' = cs ++ [c] ∧ buf c = []) ∧
  ss_closed s' = ss_closed s ∧ ss_subs s ⊆ ss_subs s' ∧
  (ss_closed s = false → size (ss_subs s) < maxSubscribersPerSession →
     atCap = false ∧ ch ∈ ss_subs s' ∧ replay = filter (λ ev, after < ev_id ev)%Z (ss_log s)).
Proof.
  intros H. unfold subscribe.
  assert (∀ c, session_ok s (cs ++ [c]) pub) as Hsnoc.
  { intros c. eapply session_ok_buf; [|exact H]. intros ch d Hd. exists d. by rewrite lookup_app_l_Some with (x := d). }
  destruct (ss_closed s) eqn:Hc; [split_and!; by eauto|].
  case_decide as Hcap; [split_and!; eauto; intros; lia|].
  split_and!; [|done|by eauto|done|set_solver|].
  - destruct (Hsnoc (mkChan [] subscriberChanBuffer false)) as []. split; simpl; [done..| |done].
    intros ch [->%elem_of_singleton|Hch]%elem_of_union; [|by apply so_subs0].
    eexists. split; [rewrite lookup_app_r, Nat.sub_diag by lia; done|done].
  - intros _ _. split_and!; [done|set_solver|done].
Qed.

Lemma session_step_ok op s cs pub : session_ok s cs pub →
  (ss_closed s = false → (∃ d, op = SBroadcast (Some d)) → Z.of_nat (S (length pub)) < two63)%Z →
  ∃ s' cs' evs, session_step op s cs = Some (s', cs', evs) ∧ session_ok s' cs' (pub ++ published evs).
Proof.
  intros H Hlt. destruct op as [[d|]|after|ch|ch|]; cbn [session_step].
  - destruct (ss_closed s) eqn:Hc.
    { unfold broadcastNotification. rewrite Hc. simpl. eexists _, _, _. split; [done|]. by rewrite app_nil_r. }
    destruct (broadcast_spec d s cs pub H Hc) as (s' & cs' & -> & Hok & Hn & _); [by eauto|]. simpl.
    eexists _, _, _. split; [done|]. simpl. by rewrite Hn.
  - simpl. eexists _, _, _. split; [done|]. by rewrite app_nil_r.
  - pose proof (session_subscribe_spec after s cs pub H) as Hs.
    destruct (subscribe after s cs) as [[s' cs'] [[replay ch] atCap]]. eexists _, _, _. split; [done|].
    rewrite app_nil_r. apply Hs.
  - eexists _, _, _. split; [done|]. rewrite app_nil_r. destruct H. split; simpl; [done..| |].
    + intros j [Hj _]%elem_of_difference. by apply so_subs0.
    + intros Hc. rewrite so_closed0 by done. set_solver.
  - destruct (cs !! ch) as [c|] eqn:Hc; simpl; cycle 1.
    { eexists _, _, _. split; [done|]. by rewrite app_nil_r. }
    unfold receive_chan. destruct (buf c) as [|ev evs] eqn:Hb.
    { eexists _, _, _. split; [done|]. by rewrite app_nil_r. }
    eexists _, _, _. split; [done|]. rewrite app_nil_r. eapply session_ok_buf; [|done].
    intros j d Hj. destruct (decide (j = ch)) as [->|Hne].
    + rewrite list_lookup_insert_eq by (by eapply lookup_lt_Some). eexists. split; [done|]. simpl. congruence.
    + rewrite list_lookup_insert_ne by done. eauto.
  - destruct (close_spec s cs pub H) as (s' & cs' & -> & Hok & _). simpl. eexists _, _, _. split; [done|].
    by rewrite app_nil_r.
Qed.

(** What a step does to a session's identity and to the channels of the others. *)
Lemma session_step_attrs op s cs s' cs' evs : session_step op s cs = Some (s', cs', evs) →
  ss_id s' = ss_id s ∧ (op ≠ SClose → ss_closed s' = ss_closed s) ∧ (op = SClose → ss_closed s' = true).
Proof.
  destruct op as [d|after|ch|ch|]; cbn [session_step].
  - unfold broadcastNotification. destruct d as [d|]; simpl; [|by intros [= <- <- <-]].
    destruct (ss_closed s) eqn:Hc; simpl; [by intros [= <- <- <-]|].
    destruct (fold_opt _ _ _); simpl; [|done]. by intros [= <- <- <-].
  - unfold subscribe. destruct (ss_closed s) eqn:Hc; [by intros [= <- <- <-]|].
    case_decide; intros [= <- <- <-]; done.
  - by intros [= <- <- <-].
  - destruct (cs !! ch ≫= receive_chan) as [[ev c]|]; by intros [= <- <- <-].
  - unfold close. destruct (ss_closed s) eqn:Hc; simpl; [by intros [= <- <- <-]|].
    destruct (fold_opt _ _ _); simpl; [|done]. by intros [= <- <- <-].
Qed.

Lemma session_step_subs op s cs s' cs' evs ch : session_step op s cs = Some (s', cs', evs) →
  ch ∈ ss_subs s' → ch ∈ ss_subs s ∨ ch = length cs.
Proof.
  destruct op as [d|after|j|j|]; cbn [session_step].
  - unfold broadcastNotification. destruct d as [d|]; simpl; [|intros [= <- <- <-]; by left].
    destruct (ss_closed s) eqn:Hc; simpl; [intros [= <- <- <-]; by left|].
    destruct (fold_opt _ _ _); simpl; [|done]. intros [= <- <- <-]; by left.
  - unfold subscribe. destruct (ss_closed s) eqn:Hc; [intros [= <- <- <-]; by left|].
    case_decide; intros [= <- <- <-]; [by left|]. simpl. set_solver.
  - intros [= <- <- <-]. simpl. set_solver.
  - destruct (cs !! j ≫= receive_chan) as [[ev c]|]; intros [= <- <- <-]; by left.
  - unfold close. destruct (ss_closed s) eqn:Hc; simpl; [intros [= <- <- <-]; by left|].
    destruct (fold_opt _ _ _); simpl; [|done]. intros [= <- <- <-]. simpl. set_solver.
Qed.

Lemma fold_on_other f ps (cs cs' : chans) ch : fold_opt (on f) ps cs = Some cs' → ch ∉ ps → cs' !! ch = cs !! ch.
Proof.
  revert cs. induction ps as [|p ps IH]; intros cs; simpl; [by intros [= ->]|].
  unfold on at 1. destruct (cs !! p) as [c|] eqn:Hc; simpl; [|done]. destruct (f c) as [c'|]; simpl; [|done].
  intros Hf Hn. rewrite (IH _ Hf) by set_solver. apply list_lookup_insert_ne. set_solver.
Qed.

Lemma session_step_frame op s cs s' cs' evs t pub : session_step op s cs = Some (s', cs', evs) →
  session_ok t cs pub → ss_subs t ## ss_subs s → session_ok t cs' pub.
Proof.
  intros Hs [] Hdis. split; [done..| |done]. intros ch Hch. destruct (so_subs0 ch Hch) as (c & Hc & Ho).
  assert (∀ f cs1, fold_opt (on f) (visit (ss_subs s)) cs = Some cs1 → cs1 !! ch = Some c) as Hother.
  { intros f cs1 Hf. rewrite (fold_on_other _ _ _ _ ch Hf), Hc; [done|]. rewrite elem_of_visit. set_solver. }
  destruct op as [d|after|j|j|]; cbn [session_step] in Hs.
  - unfold broadcastNotification in Hs. destruct d as [d|]; simpl in Hs; [|simplify_eq; by eauto].
    destruct (ss_closed s); simpl in Hs; [simplify_eq; by eauto|].
    destruct (fold_opt _ _ _) as [cs1|] eqn:Hf; simpl in Hs; [|done]. simplify_eq. eauto.
  - unfold subscribe in Hs. exists c. split; [|done].
    destruct (ss_closed s); [|case_decide]; injection Hs as <- <- <-; by apply lookup_app_l_Some.
  - simplify_eq. eauto.
  - destruct (cs !! j) as [c1|] eqn:Hc1; simpl in Hs; [|simplify_eq; by eauto].
    unfold receive_chan in Hs. destruct (buf c1) as [|ev rest]; simplify_eq; [by eauto|].
    destruct (decide (j = ch)) as [->|Hne].
    + simplify_eq. rewrite list_lookup_insert_eq by (by eapply lookup_lt_Some). by eexists.
    + rewrite list_lookup_insert_ne by done. eauto.
  - unfold close in Hs. destruct (ss_closed s); simpl in Hs; [simplify_eq; by eauto|].
    destruct (fold_opt _ _ _) as [cs1|] eqn:Hf; simpl in Hs; [|done]. simplify_eq. eauto.
Qed.

(** ** What a subscriber sees *)

Definition buffered (ch : nat) (cs : chans) : list loggedEvent := default [] (buf <$> cs !! ch).

(** The step leaves the subscription in place and finds room in its channel. *)
Definition undisturbed (ch : nat) (op : session_op) (cs : chans) : Prop :=
  match op with
  | SCancel j => j ≠ ch
  | SBroadcast (Some _) => ∀ c, cs !! ch = Some c → has_room c = true
  | _ => True
  end.

Definition follows (ch : nat) (s : streamSession) : Prop := ch ∈ ss_subs s ∨ ss_closed s = true.

Lemma session_step_view ch op s cs pub s' cs' evs : session_ok s cs pub → is_Some (cs !! ch) →
  (Z.of_nat (S (length pub)) < two63)%Z → session_step op s cs = Some (s', cs', evs) →
  is_Some (cs' !! ch) ∧
  read_by ch evs ++ buffered ch cs' `sublist_of` buffered ch cs ++ published evs ∧
  (undisturbed ch op cs → follows ch s →
     follows ch s' ∧ read_by ch evs ++ buffered ch cs' = buffered ch cs ++ published evs).
Proof.
  intros H Hch Hlt. destruct op as [[d|]|after|j|j|]; cbn [session_step].
  - destruct (ss_closed s) eqn:Hc.
    { unfold broadcastNotification. rewrite Hc. intros [= <- <- <-]. simpl. by rewrite app_nil_r. }
    destruct (broadcast_spec d s cs pub H Hc Hlt) as (s1 & cs1 & -> & Hok & Hn & Hsubs & Hcl & Hcs).
    intros [= <- <- <-]. rewrite Hn. simpl. set (ev := mkLoggedEvent _ d) in *.
    destruct Hch as [c Hch]. unfold buffered. rewrite Hcs, Hch. split; [by case_decide; eauto|].
    case_decide as Hin; simpl; cycle 1.
    { split; [by apply sublist_inserts_r|]. intros _ [?|?]; [done|congruence]. }
    unfold pushed. destruct (has_room c) eqn:Hr; simpl.
    + split; [done|]. intros _ _. split; [|done]. left. by rewrite Hsubs.
    + split; [by apply sublist_inserts_r|]. intros Hu. specialize (Hu c eq_refl). congruence.
  - intros [= <- <- <-]. simpl. by rewrite app_nil_r.
  - pose proof (session_subscribe_spec after s cs pub H) as Hs.
    destruct (subscribe after s cs) as [[s1 cs1] [[replay ch1] atCap]]. intros [= <- <- <-].
    destruct Hs as (_ & _ & (c1 & -> & _) & Hcl & Hsub & _). destruct Hch as [c Hch]. simpl.
    unfold buffered. rewrite app_nil_r, (lookup_app_l_Some _ _ _ _ Hch), Hch. split; [eauto|]. split; [done|].
    intros _ [?|?]; (split; [|done]); [left; by apply Hsub|right; by rewrite Hcl].
  - intros [= <- <- <-]. simpl. rewrite app_nil_r. split; [done|]. split; [done|].
    intros Hne [?|?]; (split; [|done]); [left; simpl; set_solver|by right].
  - destruct (cs !! j) as [c|] eqn:Hc; simpl; [|intros [= <- <- <-]; simpl; by rewrite app_nil_r].
    unfold receive_chan. destruct (buf c) as [|ev rest] eqn:Hb; [intros [= <- <- <-]; simpl; by rewrite app_nil_r|].
    intros [= <- <- <-]. simpl. rewrite app_nil_r. unfold buffered.
    destruct (decide (j = ch)) as [->|Hne].
    + rewrite list_lookup_insert_eq by (by eapply lookup_lt_Some). rewrite Hc. simpl. rewrite Hb. eauto.
    + rewrite list_lookup_insert_ne by done. simpl. eauto.
  - destruct (close_spec s cs pub H) as (s1 & cs1 & -> & Hok & Hcl & Hb). intros [= <- <- <-]. simpl.
    unfold buffered. rewrite (Hb ch), app_nil_r. split; [|split; [done|]].
    + specialize (Hb ch). destruct Hch as [c Hch]. rewrite Hch in Hb. by destruct (cs1 !! ch).
    + intros _ _. split; [by right|done].
Qed.

Lemma published_app evs1 evs2 : published (evs1 ++ evs2) = published evs1 ++ published evs2.
Proof. apply omap_app. Qed.

Lemma read_by_app ch evs1 evs2 : read_by ch (evs1 ++ evs2) = read_by ch evs1 ++ read_by ch evs2.
Proof. apply omap_app. Qed.

Lemma session_step_published op s cs s' cs' evs :
  session_step op s cs = Some (s', cs', evs) → length (published evs) ≤ 1.
Proof.
  destruct op as [d|after|ch|ch|]; cbn [session_step].
  - destruct (broadcastNotification d s cs) as [[s1 cs1]|]; simpl; [|done]. intros [= <- <- <-].
    destruct d; [destruct (ss_closed s)|]; simpl; lia.
  - destruct (subscribe after s cs) as [[s1 cs1] r]. intros [= <- <- <-]. simpl. lia.
  - intros [= <- <- <-]. simpl. lia.
  - destruct (cs !! ch ≫= receive_chan) as [[ev c]|]; intros [= <- <- <-]; simpl; lia.
  - destruct (close s cs) as [[s1 cs1]|]; simpl; [|done]. intros [= <- <- <-]. simpl. lia.
Qed.

Lemma run_session_ok ops s cs pub : session_ok s cs pub → (Z.of_nat (length pub + length ops) < two63)%Z →
  ∃ s' cs' evs, run_session ops s cs = Some (s', cs', evs) ∧ session_ok s' cs' (pub ++ published evs) ∧
    length (published evs) ≤ length ops.
Proof.
  revert s cs pub. induction ops as [|op ops IH]; intros s cs pub H Hlt; cbn [run_session length] in *.
  { eexists _, _, _. split; [done|]. by rewrite app_nil_r. }
  destruct (session_step_ok op s cs pub H) as (s1 & cs1 & evs1 & Hs & H1); [intros; lia|]. rewrite Hs. simpl.
  assert (length (published evs1) ≤ 1) as Hle1 by (by eapply session_step_published).
  destruct (IH s1 cs1 (pub ++ published evs1) H1) as (s2 & cs2 & evs2 & -> & H2 & Hle2).
  { rewrite length_app. lia. }
  simpl. eexists _, _, _. split; [done|]. rewrite published_app, app_assoc, length_app. split; [done|lia].
Qed.

(** The steps of the run all leave the subscription undisturbed. *)
Fixpoint undisturbed_run (ch : nat) (ops : list session_op) (s : streamSession) (cs : chans) : Prop :=
  match ops with
  | [] => True
  | op :: ops =>
      undisturbed ch op cs ∧
      ∀ s' cs' evs, session_step op s cs = Some (s', cs', evs) → undisturbed_run ch ops s' cs'
  end.

Lemma run_session_view ch ops s cs pub s' cs' evs : session_ok s cs pub → is_Some (cs !! ch) →
  (Z.of_nat (length pub + length ops) < two63)%Z → run_session ops s cs = Some (s', cs', evs) →
  read_by ch evs ++ buffered ch cs' `sublist_of` buffered ch cs ++ published evs ∧
  (undisturbed_run ch ops s cs → follows ch s →
     read_by ch evs ++ buffered ch cs' = buffered ch cs ++ published evs).
Proof.
  revert s cs pub evs. induction ops as [|op ops IH]; intros s cs pub evs H Hch Hlt; cbn [run_session length] in *.
  { intros [= <- <- <-]. simpl. by rewrite app_nil_r. }
  destruct (session_step_ok op s cs pub H) as (s1 & cs1 & evs1 & Hs & H1); [intros; lia|]. rewrite Hs. simpl.
  assert (length (published evs1) ≤ 1) as Hle1 by (by eapply session_step_published).
  destruct (session_step_view ch op s cs pub s1 cs1 evs1) as (Hch1 & Hsub1 & Heq1); [done..|lia|done|].
  destruct (run_session ops s1 cs1) as [[[s2 cs2] evs2]|] eqn:Hr; simpl; [|done]. intros [= -> -> <-].
  destruct (IH s1 cs1 (pub ++ published evs1) evs2) as [Hsub2 Heq2]; [done..|rewrite length_app; lia|done|].
  rewrite read_by_app, published_app, <-app_assoc. split.
  - etrans; [by apply sublist_app|]. rewrite !app_assoc. by apply sublist_app.
  - intros [Hu Hur] Hf. destruct (Heq1 Hu Hf) as [Hf1 He1]. rewrite (Heq2 (Hur _ _ _ Hs) Hf1).
    by rewrite app_assoc, He1, <-app_assoc.
Qed.

(** The events numbered above [k], when the numbers run up from [start + 1]. *)
Lemma filter_after k start evs : (0 ≤ k)%Z →
  (∀ i ev, evs !! i = Some ev → ev_id ev = Z.of_nat (start + S i)) →
  filter (λ ev, k < ev_id ev)%Z evs = drop (Z.to_nat k - start) evs.
Proof.
  intros Hk. revert start. induction evs as [|ev evs IH]; intros start Hids; [by rewrite drop_nil|].
  pose proof (Hids 0 ev eq_refl) as Hev.
  assert (filter (λ ev, k < ev_id ev)%Z evs = drop (Z.to_nat k - S start) evs) as IH'.
  { apply IH. intros i e Hi. rewrite (Hids (S i) e Hi). f_equal. lia. }
  rewrite filter_cons, IH'. case_decide.
  - replace (Z.to_nat k - start) with 0 by lia. by replace (Z.to_nat k - S start) with 0 by lia.
  - by replace (Z.to_nat k - start) with (S (Z.to_nat k - S start)) by lia.
Qed.

Lemma log_after s cs pub k : session_ok s cs pub →
  (0 ≤ k)%Z → (ss_nextID s - Z.of_nat maxSessionLogEvents ≤ k)%Z →
  filter (λ ev, k < ev_id ev)%Z (ss_log s) = drop (Z.to_nat k) pub.
Proof.
  intros [] Hk0 Hk. rewrite so_log0, so_next0 in *. set (m := length pub - maxSessionLogEvents) in *.
  rewrite (filter_after k m), drop_drop; [f_equal; lia|done|].
  intros i ev Hi. rewrite lookup_drop in Hi. rewrite (so_ids0 _ _ Hi). f_equal. lia.
Qed.

(** Resumability of a session's event stream. Whatever operations ran on a
    session, none panics and its events carry the identifiers 1, 2, 3, … A client
    that then opens a GET stream naming the last event it saw, no older than the
    replay window, is given a stream that follows the session's events from the
    next one on, in order and without repeats: the replayed events, then those
    read from its channel, then those waiting there, are a subsequence of them,
    and exactly them as long as the stream is not cancelled and its channel
    has room at every broadcast. *)
Theorem resume_exact id ops1 k ops2 :
  (Z.of_nat (length ops1 + length ops2) < two63)%Z →
  ∃ s cs evs1, run_session ops1 (newStreamSession id) [] = Some (s, cs, evs1) ∧
    (∀ i ev, published evs1 !! i = Some ev → ev_id ev = Z.of_nat (S i)) ∧
    let '(s', cs', (replay, ch, atCap)) := subscribe k s cs in
    ∃ s'' cs'' evs2, run_session ops2 s' cs' = Some (s'', cs'', evs2) ∧
      (ss_closed s = false → size (ss_subs s) < maxSubscribersPerSession → (0 ≤ k ≤ ss_nextID s)%Z →
       (ss_nextID s - Z.of_nat maxSessionLogEvents ≤ k)%Z →
       let seen := replay ++ read_by ch evs2 ++ buffered ch cs'' in
       let due := drop (Z.to_nat k) (published (evs1 ++ evs2)) in
       atCap = false ∧ seen `sublist_of` due ∧ (undisturbed_run ch ops2 s' cs' → seen = due)).
Proof.
  intros Hlt.
  destruct (run_session_ok ops1 _ [] [] (newStreamSession_ok id [])) as (s & cs & evs1 & Hr1 & H1 & Hle); [simpl; lia|].
  simpl in H1. exists s, cs, evs1. split; [done|]. split; [apply H1|].
  pose proof (session_subscribe_spec k s cs _ H1) as Hs. destruct (subscribe k s cs) as [[s1 cs1] [[replay ch] atCap]].
  destruct Hs as (H1' & -> & (c & -> & Hc) & Hcl & _ & Hlive).
  destruct (run_session_ok ops2 s1 (cs ++ [c]) _ H1') as (s2 & cs2 & evs2 & Hr2 & _); [lia|].
  exists s2, cs2, evs2. split; [done|]. intros Hopen Hsize Hk Hwin. cbv zeta.
  destruct (Hlive Hopen Hsize) as (Hcap & Hin & ->). split; [done|].
  assert ((cs ++ [c]) !! length cs = Some c) as Hch by (rewrite lookup_app_r, Nat.sub_diag by lia; done).
  rewrite (log_after s cs _ k H1) by lia. rewrite published_app, drop_app_le.
  2:{ pose proof (so_next _ _ _ H1). lia. }
  destruct (run_session_view (length cs) ops2 s1 (cs ++ [c]) (published evs1) s2 cs2 evs2) as [Hsub Heq];
    [done|by rewrite Hch|lia|done|].
  unfold buffered at 2 in Hsub. unfold buffered at 2 in Heq. rewrite Hch in Hsub, Heq. simpl in Hsub, Heq.
  rewrite Hc in Hsub, Heq. split; [by apply sublist_app|]. intros Hu. rewrite Heq; [done..|by left].
Qed.
End session.

#[local] Instance sessions_in_order : SetRange := sorted_range.

(** A session with three events; the client saw the first. *)
Lemma resume_exact_witness :
  let ops1 := [SBroadcast (Some "a"); SBroadcast (Some "b"); SBroadcast None; SBroadcast (Some "c")] in
  let ops2 := [SRead 0; SBroadcast (Some "d"); SRead 0] in
  ∃ s cs evs1, run_session ops1 (newStreamSession "s") [] = Some (s, cs, evs1) ∧
    let '(s', cs', (replay, ch, _)) := subscribe 1 s cs in
    ∃ s'' cs'' evs2, run_session ops2 s' cs' = Some (s'', cs'', evs2) ∧
      replay = [mkLoggedEvent 2 "b"; mkLoggedEvent 3 "c"] ∧ read_by ch evs2 = [mkLoggedEvent 4 "d"] ∧
      replay ++ read_by ch evs2 ++ buffered ch cs'' = drop 1 (published (evs1 ++ evs2)).
Proof.
  intros ops1 ops2. destruct (resume_exact "s" ops1 1 ops2) as (s & cs & evs1 & Hr1 & Hids & Hrest); [vm_compute; done|].
  exists s, cs, evs1. split; [done|]. vm_compute in Hr1. injection Hr1 as <- <- <-.
  destruct (subscribe 1 _ _) as [[s1 cs1] [[replay ch] atCap]] eqn:Hs. vm_compute in Hs.
  injection Hs as <- <- <- <- <-. destruct Hrest as (s2 & cs2 & evs2 & Hr2 & Hlive).
  exists s2, cs2, evs2. split; [done|].
  destruct Hlive as (_ & _ & Heq); [reflexivity|vm_compute; lia|vm_compute; split; discriminate|vm_compute; discriminate|].
  assert (Hr2' := Hr2). vm_compute in Hr2'. injection Hr2' as <- <- <-.
  split; [reflexivity|]. split; [reflexivity|]. apply Heq.
  cbn [undisturbed_run undisturbed]. split; [done|]. intros ??? Hs. vm_compute in Hs. injection Hs as <- <- <-.
  split; [intros c Hc; vm_compute in Hc; injection Hc as <-; done|]. intros ??? Hs. vm_compute in Hs. injection Hs as <- <- <-.
  done.
Defined.

(** A consumer that falls behind loses an event for good: the event finds the
    channel full and is skipped, the later ones are read, and the reconnect that
    names the last of these replays nothing. *)
Lemma skipped_event_lost :
  let b := SBroadcast (Some "x") in
  ∃ s cs evs, run_session (SSubscribe 0 :: replicate 65 b ++ replicate 64 (SRead 0) ++ [b; SRead 0])
                (newStreamSession "s") [] = Some (s, cs, evs) ∧
    65%Z ∈ ev_id <$> published evs ∧ (65%Z ∉ ev_id <$> read_by 0 evs) ∧ last (ev_id <$> read_by 0 evs) = Some 66%Z ∧
    (subscribe 66 s cs).2.1.1 = [].
Proof.
  cbv zeta. eexists _, _, _. split; [vm_compute; reflexivity|].
  split; [|split; [|split; [vm_compute; reflexivity|vm_compute; reflexivity]]];
    apply (bool_decide_unpack _); vm_compute; done.
Qed.
