(* ===== verification/MCPHttp.v ===== *)
(** The HTTP transports of the mock MCP server: the table of sessions and the POST,
    GET and DELETE handlers of [internal/mcp/streamable.go], and the single-request
    handlers of [internal/mcp/http.go].

    A session is a pointer into a heap of sessions. A request is handled at one
    point in time, up to the stream of a GET, whose reads are steps of their own. *)

From S2P Require Import Prelude GoBase GoChan AgentTypes DocumentTypes JsonRpc MCPOutbound MCPServer.
From S2P Require Import GoStrings Validation MCPSessions.

Record sessionManager := mkSessionManager {
  sm_sessions : gmap string nat;
  sm_order : list string;
  sm_max : Z
}.

(** The manager with the sessions and the channels it points to. *)
Record world := mkWorld {
  w_mgr : sessionManager;
  w_heap : list streamSession;
  w_chans : list (chan loggedEvent)
}.

Definition newSessionManager (max : Z) : sessionManager :=
  mkSessionManager ∅ [] (if decide (max ≤ 0)%Z then defaultMaxSessions else max).

Definition new_world (max : Z) : world := mkWorld (newSessionManager max) [] [].

Section manager.
Context {mr : MapRange} {sr : SetRange}.

(** An operation of the session behind a pointer. *)
Definition on_session (f : streamSession → list (chan loggedEvent) → option (streamSession * list (chan loggedEvent)))
    (w : world) (p : nat) : option world :=
  s ← w_heap w !! p; '(s, cs) ← f s (w_chans w);
  Some (mkWorld (w_mgr w) (<[p := s]> (w_heap w)) cs).

Definition set_mgr (m : sessionManager) (w : world) : world := mkWorld m (w_heap w) (w_chans w).

(** [for len(m.order) > m.max]: the oldest session is dropped and closed. *)
Fixpoint evict_over (order : list string) (w : world) : option world :=
  let m := w_mgr w in
  match order with
  | evict :: rest =>
      if decide (sm_max m < Z.of_nat (length order))%Z then
        match sm_sessions m !! evict with
        | Some old =>
            w ← on_session close (set_mgr (mkSessionManager (delete evict (sm_sessions m)) rest (sm_max m)) w) old;
            evict_over rest w
        | None => evict_over rest (set_mgr (mkSessionManager (sm_sessions m) rest (sm_max m)) w)
        end
      else Some w
  | [] => Some w
  end.

(** [id] is the identifier [newSessionID] drew. *)
Definition create (id : string) (w : world) : option (world * nat) :=
  let p := length (w_heap w) in
  let m := w_mgr w in
  let order := sm_order m ++ [id] in
  w ← evict_over order
        (mkWorld (mkSessionManager (<[id := p]> (sm_sessions m)) order (sm_max m))
           (w_heap w ++ [newStreamSession id]) (w_chans w));
  Some (w, p).

Definition get (id : string) (w : world) : option nat :=
  if decide (id = "") then None else sm_sessions (w_mgr w) !! id.

Fixpoint remove_first (id : string) (order : list string) : list string :=
  match order with
  | [] => []
  | oid :: order => if decide (oid = id) then order else oid :: remove_first id order
  end.

Definition delete_session (id : string) (w : world) : option (world * bool) :=
  match get id w with
  | None => Some (w, false)
  | Some p =>
      let m := w_mgr w in
      w ← on_session close
            (set_mgr (mkSessionManager (delete id (sm_sessions m)) (remove_first id (sm_order m)) (sm_max m)) w) p;
      Some (w, true)
  end.

Definition broadcast (data : option string) (w : world) : option world :=
  fold_opt (on_session (broadcastNotification data)) ((range (sm_sessions (w_mgr w))).*2) w.

(** ** Histories *)

(** The operations of clients and operators; the pointer is the session a
    handler holds, which may be closed since. *)
Inductive manager_op :=
| MCreate (id : string)
| MDelete (id : string)
| MBroadcast (data : option string)
| MSubscribe (p : nat) (after : Z)
| MCancel (p ch : nat)
| MRead (p ch : nat).

Definition session_at (op : session_op) (w : world) (p : nat) : option world :=
  on_session (λ s cs, '(s, cs, _) ← session_step op s cs; Some (s, cs)) w p.

(** Without a session behind the pointer there is no such operation. *)
Definition client_step (op : session_op) (p : nat) (w : world) : option world :=
  if decide (p < length (w_heap w)) then session_at op w p else Some w.

Definition manager_step (w : world) (op : manager_op) : option world :=
  match op with
  | MCreate id => '(w, _) ← create id w; Some w
  | MDelete id => '(w, _) ← delete_session id w; Some w
  | MBroadcast data => broadcast data w
  | MSubscribe p after => client_step (SSubscribe after) p w
  | MCancel p ch => client_step (SCancel ch) p w
  | MRead p ch => client_step (SRead ch) p w
  end.

(** ** What the manager promises

    A bounded queue of sessions, each with the notifications sent since it was made. *)

Abbreviation sessions_spec := (list (string * list string)).

Definition spec_step (max : nat) (live : sessions_spec) (op : manager_op) : sessions_spec :=
  match op with
  | MCreate id => last_n max (live ++ [(id, [])])
  | MDelete id => filter (λ e, e.1 ≠ id) live
  | MBroadcast (Some d) => (λ e, (e.1, e.2 ++ [d])) <$> live
  | _ => live
  end.

Definition numbered (ds : list string) : list loggedEvent := imap (λ i d, mkLoggedEvent (Z.of_nat (S i)) d) ds.

(** Every session is well-formed, and no two share a subscriber. *)
Definition heap_ok (w : world) : Prop :=
  (∀ p s, w_heap w !! p = Some s → ∃ pub, session_ok s (w_chans w) pub) ∧
  (∀ p q s t, w_heap w !! p = Some s → w_heap w !! q = Some t → p ≠ q → ss_subs s ## ss_subs t).

(** The live sessions are those of the specification, and all others are closed. *)
Record refines (w : world) (live : sessions_spec) : Prop := {
  rf_order : sm_order (w_mgr w) = live.*1;
  rf_nodup : NoDup live.*1;
  rf_dom : ∀ id, is_Some (sm_sessions (w_mgr w) !! id) → id ∈ live.*1;
  rf_live : ∀ id ds, (id, ds) ∈ live → ∃ p s, sm_sessions (w_mgr w) !! id = Some p ∧
    w_heap w !! p = Some s ∧ ss_id s = id ∧ ss_closed s = false ∧
    session_ok s (w_chans w) (numbered ds);
  rf_rest : ∀ p s, w_heap w !! p = Some s → sm_sessions (w_mgr w) !! ss_id s ≠ Some p → ss_closed s = true;
  rf_heap : heap_ok w
}.

Lemma session_at_close w p : on_session close w p = session_at SClose w p.
Proof.
  unfold session_at, on_session. destruct (w_heap w !! p) as [s|]; simpl; [|done].
  by destruct (close s (w_chans w)) as [[]|].
Qed.

Lemma session_at_broadcast d w p :
  on_session (broadcastNotification d) w p = session_at (SBroadcast d) w p.
Proof.
  unfold session_at, on_session. destruct (w_heap w !! p) as [s|]; simpl; [|done].
  by destruct (broadcastNotification d s (w_chans w)) as [[]|].
Qed.

(** A step of the session [p], for itself and for the others. *)
Lemma session_at_spec op w p s : heap_ok w → w_heap w !! p = Some s →
  (ss_closed s = false → (∃ d, op = SBroadcast (Some d)) → ss_nextID s + 1 < two63)%Z →
  ∃ s' cs' evs, session_step op s (w_chans w) = Some (s', cs', evs) ∧
    let w' := mkWorld (w_mgr w) (<[p := s']> (w_heap w)) cs' in
    session_at op w p = Some w' ∧ heap_ok w' ∧
    (∀ pub, session_ok s (w_chans w) pub → session_ok s' cs' (pub ++ published evs)) ∧
    (∀ q t pub, q ≠ p → w_heap w !! q = Some t → session_ok t (w_chans w) pub → session_ok t cs' pub).
Proof.
  intros [Hok Hdis] Hp Hlt. destruct (Hok p s Hp) as [pub Hpub].
  assert (∀ pub, session_ok s (w_chans w) pub →
    ∃ s' cs' evs, session_step op s (w_chans w) = Some (s', cs', evs) ∧ session_ok s' cs' (pub ++ published evs)) as Hstep.
  { intros pub' H'. apply session_step_ok; [done|]. intros Hc Hd. specialize (Hlt Hc Hd).
    rewrite (so_next _ _ _ H') in Hlt. lia. }
  destruct (Hstep pub Hpub) as (s' & cs' & evs & Hs & H'). exists s', cs', evs. split; [done|].
  assert (∀ q t pub, q ≠ p → w_heap w !! q = Some t → session_ok t (w_chans w) pub → session_ok t cs' pub) as Hother.
  { intros q t pub' Hne Hq Ht. eapply session_step_frame; [done..|]. by eapply Hdis. }
  assert (∀ q t ch, q ≠ p → w_heap w !! q = Some t → ch ∈ ss_subs t → ch ∈ ss_subs s' → False) as Hapart.
  { intros q t ch Hne Hq Ht Hin. destruct (session_step_subs _ _ _ _ _ _ _ Hs Hin) as [H| ->]; [by eapply (Hdis q p)|].
    destruct (Hok q t Hq) as [pubq Hpubq]. destruct (so_subs _ _ _ Hpubq _ Ht) as (c & Hc & _).
    apply lookup_lt_Some in Hc. lia. }
  assert (∀ q t, <[p := s']> (w_heap w) !! q = Some t → q = p ∧ t = s' ∨ q ≠ p ∧ w_heap w !! q = Some t) as Hget.
  { intros q t [(-> & <- & _)|[? ?]]%list_lookup_insert_Some; auto. }
  cbv zeta. split_and!; [unfold session_at, on_session; by rewrite Hp; simpl; rewrite Hs| | |done].
  - split; simpl.
    + intros q t [[-> ->]|[Hne Hq]]%Hget; [by eexists|]. destruct (Hok q t Hq) as [pubq Hpubq]. eauto.
    + intros q q' t t' [[-> ->]|[? Hq]]%Hget [[-> ->]|[? Hq']]%Hget Hne; [done|..];
        apply elem_of_disjoint; intros ch Hin Hin'; [by eapply (Hapart q' t')|by eapply (Hapart q t)|by eapply (Hdis q q')].
  - intros pub' H''. destruct (Hstep pub' H'') as (? & ? & ? & Hs2 & ?). by simplify_eq.
Qed.

(** The notification an operation of a session sends. *)
Definition op_data (op : session_op) : list string :=
  match op with SBroadcast (Some d) => [d] | _ => [] end.

Lemma session_step_sent op s cs s' cs' evs : session_step op s cs = Some (s', cs', evs) →
  ss_closed s = false → published evs = mkLoggedEvent (ss_nextID s') <$> op_data op.
Proof.
  intros Hs Hc. destruct op as [[d|]|after|ch|ch|]; cbn [session_step] in Hs.
  - destruct (broadcastNotification (Some d) s cs) as [[s1 cs1]|]; simpl in Hs; [|done].
    rewrite Hc in Hs. by injection Hs as <- <- <-.
  - by injection Hs as <- <- <-.
  - destruct (subscribe after s cs) as [[s1 cs1] r]. by injection Hs as <- <- <-.
  - by injection Hs as <- <- <-.
  - destruct (cs !! ch ≫= receive_chan) as [[ev c]|]; by injection Hs as <- <- <-.
  - destruct (close s cs) as [[s1 cs1]|]; simpl in Hs; [|done]. by injection Hs as <- <- <-.
Qed.

Lemma numbered_snoc ds d : numbered (ds ++ [d]) = numbered ds ++ [mkLoggedEvent (Z.of_nat (S (length ds))) d].
Proof. unfold numbered. rewrite imap_app. simpl. by rewrite Nat.add_0_r. Qed.

Lemma length_numbered ds : length (numbered ds) = length ds.
Proof. apply length_imap. Qed.

(** The specification after [ds] was sent to the session behind [p]. *)
Definition grow (sessions : gmap string nat) (ds : list string) (live : sessions_spec) (p : nat) : sessions_spec :=
  (λ e, if decide (sessions !! e.1 = Some p) then (e.1, e.2 ++ ds) else e) <$> live.

Lemma grow_fst sessions ds live p : (grow sessions ds live p).*1 = live.*1.
Proof. unfold grow. rewrite <-list_fmap_compose. apply list_fmap_ext. intros i e _. simpl. by case_decide. Qed.

Lemma grow_nil sessions live p : grow sessions [] live p = live.
Proof.
  unfold grow. rewrite <-(list_fmap_id live) at 2. apply list_fmap_ext. intros i [id ds] _. simpl.
  case_decide; [by rewrite app_nil_r|done].
Qed.

Lemma elem_of_grow sessions ds live p id es : (id, es) ∈ grow sessions ds live p ↔
  (sessions !! id = Some p ∧ ∃ es', (id, es') ∈ live ∧ es = es' ++ ds) ∨ (sessions !! id ≠ Some p ∧ (id, es) ∈ live).
Proof.
  unfold grow. rewrite list_elem_of_fmap. split.
  - intros ([id' es'] & Heq & Hin). simpl in Heq. case_decide; simplify_eq; eauto 10.
  - intros [(Hp & es' & Hin & ->)|[Hp Hin]]; [exists (id, es')|exists (id, es)]; simpl; by case_decide.
Qed.

Lemma in_live (live : sessions_spec) id : id ∈ live.*1 → ∃ ds, (id, ds) ∈ live.
Proof. intros ([? ds] & -> & Hin)%list_elem_of_fmap. by exists ds. Qed.

(** A session of the heap that is open is a live one. *)
Lemma open_is_live w live p s : refines w live → w_heap w !! p = Some s → ss_closed s = false →
  sm_sessions (w_mgr w) !! ss_id s = Some p ∧ ∃ ds, (ss_id s, ds) ∈ live ∧ session_ok s (w_chans w) (numbered ds).
Proof.
  intros [] Hp Hc. assert (sm_sessions (w_mgr w) !! ss_id s = Some p) as Hid.
  { destruct (decide (sm_sessions (w_mgr w) !! ss_id s = Some p)); [done|].
    rewrite (rf_rest0 p s) in Hc; done. }
  split; [done|]. destruct (in_live live (ss_id s)) as [ds Hin]; [apply rf_dom0; eauto|].
  exists ds. split; [done|]. destruct (rf_live0 _ _ Hin) as (p' & s' & Hp' & Hs' & _ & _ & Hok). by simplify_eq.
Qed.

Lemma session_at_refines op w live p s : refines w live → w_heap w !! p = Some s → op ≠ SClose →
  (∀ id ds, sm_sessions (w_mgr w) !! id = Some p → (id, ds) ∈ live → Z.of_nat (S (length ds)) < two63)%Z →
  ∃ w', session_at op w p = Some w' ∧ w_mgr w' = w_mgr w ∧ length (w_heap w') = length (w_heap w) ∧
    refines w' (grow (sm_sessions (w_mgr w)) (op_data op) live p).
Proof.
  intros H Hp Hop Hlt. pose proof H as [].
  destruct (session_at_spec op w p s rf_heap0 Hp) as (s' & cs' & evs & Hs & Hat & Hheap & Hself & Hother).
  { intros Hc _. destruct (open_is_live w live p s H Hp Hc) as (Hreg & ds & Hin & Hok).
    rewrite (so_next _ _ _ Hok), length_numbered. specialize (Hlt _ _ Hreg Hin). lia. }
  destruct (session_step_attrs _ _ _ _ _ _ Hs) as (Hid & Hcl & _). specialize (Hcl Hop).
  eexists. split; [done|]. split; [done|]. split; [apply length_insert|].
  assert (<[p := s']> (w_heap w) !! p = Some s') as Hp'
    by (apply list_lookup_insert_eq; by eapply lookup_lt_Some).
  split; simpl; rewrite ?grow_fst; try done.
  - intros id es [(Hreg & ds & Hin & ->)|[Hreg Hin]]%elem_of_grow;
      destruct (rf_live0 _ _ Hin) as (q & t & Hq & Ht & Htid & Htc & Htok); exists q.
    + simplify_eq. exists s'. split_and!; [done..|congruence|congruence|].
      specialize (Hself _ Htok). rewrite (session_step_sent _ _ _ _ _ _ Hs Htc) in Hself.
      destruct op as [[d|]|after|ch|ch|]; simpl in Hself |- *; rewrite ?app_nil_r in *; try done.
      assert (ss_nextID s' = Z.of_nat (S (length ds))) as Hn.
      { rewrite (so_next _ _ _ Hself), length_app, length_numbered. simpl. lia. }
      by rewrite numbered_snoc, <-Hn.
    + assert (q ≠ p) as Hne by congruence. exists t.
      split_and!; [done|by rewrite list_lookup_insert_ne|done..|]. by eapply Hother.
  - intros q t [(<- & <- & _)|[Hne Hq]]%list_lookup_insert_Some.
    + rewrite Hid, Hcl. by apply rf_rest0.
    + by apply rf_rest0.
Qed.

(** A session leaves the table and is closed. *)
Lemma close_refines w live id ds p order : refines w live → (id, ds) ∈ live →
  sm_sessions (w_mgr w) !! id = Some p → order = (filter (λ e, e.1 ≠ id) live).*1 →
  let m := mkSessionManager (delete id (sm_sessions (w_mgr w))) order (sm_max (w_mgr w)) in
  ∃ w', on_session close (set_mgr m w) p = Some w' ∧ w_mgr w' = m ∧ length (w_heap w') = length (w_heap w) ∧
    refines w' (filter (λ e, e.1 ≠ id) live).
Proof.
  intros H Hin Hp -> m. pose proof H as [].
  destruct (rf_live0 _ _ Hin) as (q & s & Hq & Hs & Hid & Hc & Hok).
  rewrite Hp in Hq. injection Hq as <-. subst id.
  assert (heap_ok (set_mgr m w)) as Hheap0 by exact rf_heap0.
  destruct (session_at_spec SClose (set_mgr m w) p s Hheap0 Hs) as (s' & cs' & evs & Hst & Hat & Hheap & _ & Hother).
  { by intros _ [? [=]]. }
  destruct (session_step_attrs _ _ _ _ _ _ Hst) as (Hid' & _ & Hcl). specialize (Hcl eq_refl).
  rewrite session_at_close, Hat. eexists. split; [done|]. split; [done|]. split; [apply length_insert|].
  assert (∀ id' ds', (id', ds') ∈ filter (λ e, e.1 ≠ ss_id s) live ↔ id' ≠ ss_id s ∧ (id', ds') ∈ live) as Hfil
    by (intros; by rewrite list_elem_of_filter).
  assert (sublist (filter (λ e, e.1 ≠ ss_id s) live).*1 live.*1) as Hsub by apply fmap_sublist, sublist_filter.
  split; simpl; [done| | | | |done].
  - by eapply sublist_NoDup.
  - intros id' [q Hq]. apply lookup_delete_Some in Hq as [Hne Hq].
    destruct (in_live live id') as [ds' Hin']; [apply rf_dom0; eauto|].
    apply list_elem_of_fmap. eexists (_, ds'). split; [done|]. by apply Hfil.
  - intros id' ds' [Hne Hin']%Hfil. destruct (rf_live0 _ _ Hin') as (q & t & Hq & Ht & Htid & Htc & Htok).
    assert (q ≠ p) by (intros ->; simplify_eq). exists q, t.
    split_and!; [by rewrite lookup_delete_ne|by rewrite list_lookup_insert_ne|done..|]. by eapply Hother.
  - intros q t [(<- & <- & _)|[Hne Hq]]%list_lookup_insert_Some; [done|].
    intros Hnot. destruct (decide (ss_id t = ss_id s)) as [Heq|Hd].
    + apply (rf_rest0 q t Hq). rewrite Heq. intros ?. congruence.
    + rewrite lookup_delete_ne in Hnot by done. by apply (rf_rest0 q t).
Qed.

Lemma filter_head {A} (P : A → Prop) `{∀ x, Decision (P x)} x (l : list A) :
  ¬ P x → (∀ y, y ∈ l → P y) → filter P (x :: l) = l.
Proof. intros Hx Hl. rewrite filter_cons_False by done. by apply filter_all. Qed.

Lemma evict_over_refines live w : refines w live → (0 ≤ sm_max (w_mgr w))%Z →
  ∃ w', evict_over live.*1 w = Some w' ∧ sm_max (w_mgr w') = sm_max (w_mgr w) ∧
    length (w_heap w') = length (w_heap w) ∧ refines w' (last_n (Z.to_nat (sm_max (w_mgr w))) live).
Proof.
  revert w. induction live as [|[id ds] live IH]; intros w H Hmax; [by exists w|].
  cbn [evict_over fmap list_fmap fst]. pose proof H as [].
  case_decide as Hlen; rewrite length_cons, length_fmap in Hlen.
  - rewrite last_n_drop by (rewrite length_cons; lia).
    destruct (rf_live0 id ds) as (p & s & Hp & _); [left|]. rewrite Hp.
    apply NoDup_cons in rf_nodup0 as [Hnew Hnd]. simpl in Hnew.
    assert (filter (λ e : string * list string, e.1 ≠ id) ((id, ds) :: live) = live) as Hfil.
    { apply filter_head; [by intros []|]. intros e He Heq. apply Hnew. rewrite <-Heq. by apply list_elem_of_fmap_2. }
    destruct (close_refines w _ id ds p live.*1 H) as (w1 & -> & Hm & Hlh & H1); [left|done|by rewrite Hfil|].
    rewrite Hfil in H1. simpl. destruct (IH w1 H1) as (w2 & Hev & Hmx & Hlh2 & H2); [by rewrite Hm|].
    rewrite Hm in Hmx, H2. simpl in Hmx, H2. exists w2. by rewrite Hev, Hlh2.
  - rewrite last_n_all by (rewrite length_cons; lia). by exists w.
Qed.

Lemma create_refines live w id : refines w live → (0 ≤ sm_max (w_mgr w))%Z → id ∉ live.*1 →
  ∃ w', create id w = Some (w', length (w_heap w)) ∧ sm_max (w_mgr w') = sm_max (w_mgr w) ∧
    length (w_heap w') = S (length (w_heap w)) ∧
    refines w' (last_n (Z.to_nat (sm_max (w_mgr w))) (live ++ [(id, [])])).
Proof.
  intros H Hmax Hnew. pose proof H as []. unfold create. rewrite rf_order0.
  replace (live.*1 ++ [id]) with ((live ++ [(id, [])]).*1) by by rewrite fmap_app.
  set (w1 := mkWorld _ _ _). assert (refines w1 (live ++ [(id, [])])) as H1.
  { destruct rf_heap0 as [Hok Hdis].
    assert (∀ p s, w_heap w1 !! p = Some s → w_heap w !! p = Some s ∨ p = length (w_heap w) ∧ newStreamSession id = s) as Hget.
    { intros p s [[_ ?]|[-> <-]]%lookup_snoc_Some; auto. }
    assert (NoDup (live ++ [(id, [])]).*1) as Hnd.
    { rewrite fmap_app. apply NoDup_app. split; [done|]. split; [|apply NoDup_singleton].
      by intros x Hx ->%list_elem_of_singleton. }
    split; [done|done|..].
    - intros id' [p Hp]. rewrite fmap_app. apply elem_of_app. simpl in Hp.
      destruct (decide (id' = id)) as [->|Hne]; [right; by apply list_elem_of_singleton|].
      rewrite lookup_insert_ne in Hp by done. left. apply rf_dom0. eauto.
    - intros id' ds [Hin|Heq%list_elem_of_singleton]%elem_of_app.
      + destruct (rf_live0 _ _ Hin) as (p & s & Hp & Hs & Hid & Hc & Hsok).
        exists p, s. split_and!; [|by apply lookup_app_l_Some|done..]. simpl. rewrite lookup_insert_ne; [done|].
        intros <-. apply Hnew. by apply (list_elem_of_fmap_2 fst) in Hin.
      + simplify_eq. eexists _, _. split_and!; [apply lookup_insert_eq|
          simpl; rewrite lookup_app_r, Nat.sub_diag by lia; done|done..|apply newStreamSession_ok].
    - intros p s [Hp|[-> <-]]%Hget; simpl; [|intros Hn; by rewrite lookup_insert_eq in Hn].
      intros Hn. destruct (decide (ss_id s = id)) as [Heq|Hne].
      + destruct (ss_closed s) eqn:Hc; [done|]. exfalso. apply Hnew. rewrite <-Heq. apply rf_dom0.
        destruct (open_is_live w live p s H Hp Hc) as [-> _]. eauto.
      + rewrite lookup_insert_ne in Hn by done. by apply (rf_rest0 p).
    - split.
      + intros p s [Hp|[-> <-]]%Hget; [by apply (Hok p)|]. exists []. apply newStreamSession_ok.
      + intros p q s t [Hp|[-> <-]]%Hget [Hq|[-> <-]]%Hget Hne; [by apply (Hdis p q)|set_solver..]. }
  destruct (evict_over_refines _ w1 H1 Hmax) as (w2 & -> & Hm & Hlen & H2). simpl in *.
  exists w2. rewrite Hlen, length_app. simpl. split_and!; [done|done|lia|done].
Qed.

Lemma remove_first_filter id (live : sessions_spec) : NoDup live.*1 →
  remove_first id live.*1 = (filter (λ e, e.1 ≠ id) live).*1.
Proof.
  induction live as [|[id' ds] live IH]; [done|]. rewrite fmap_cons. cbn [remove_first fst].
  intros [Hn Hnd]%NoDup_cons. case_decide as Heq.
  - subst id'. rewrite filter_head; [done|by intros []|]. intros e He Heq. apply Hn. rewrite <-Heq.
    by apply list_elem_of_fmap_2.
  - rewrite filter_cons_True by done. rewrite fmap_cons. cbn [fst]. f_equal. by apply IH.
Qed.

Lemma get_refines live w id : refines w live → id ≠ "" → id ∉ live.*1 → get id w = None.
Proof.
  intros [] Hne Hn. unfold get. rewrite decide_False by done.
  destruct (_ !! id) eqn:Hid; [|done]. exfalso. apply Hn, rf_dom0. eauto.
Qed.

Lemma delete_refines live w id : refines w live → "" ∉ live.*1 →
  ∃ w', delete_session id w = Some (w', bool_decide (id ∈ live.*1)) ∧ sm_max (w_mgr w') = sm_max (w_mgr w) ∧
    length (w_heap w') = length (w_heap w) ∧ refines w' (filter (λ e, e.1 ≠ id) live).
Proof.
  intros H Hempty. unfold delete_session. destruct (decide (id ∈ live.*1)) as [Hin|Hnot].
  - rewrite bool_decide_true by done. destruct (in_live live id Hin) as [ds Hds]. pose proof H as [].
    destruct (rf_live0 id ds Hds) as (p & s & Hp & _). unfold get.
    rewrite decide_False, Hp by (intros ->; done). rewrite rf_order0, remove_first_filter by done.
    destruct (close_refines w live id ds p _ H Hds Hp eq_refl) as (w' & -> & Hm & Hlen & H'). simpl.
    exists w'. by rewrite Hm.
  - rewrite bool_decide_false by done.
    replace (get id w) with (@None nat).
    2:{ destruct (decide (id = "")) as [->|Hne]; [done|]. symmetry. by apply (get_refines live). }
    exists w. split_and!; [done..|]. rewrite filter_all; [done|].
    intros e He Heq. apply Hnot. rewrite <-Heq. by apply list_elem_of_fmap_2.
Qed.

(** Sending [ds] to the sessions behind [ps], each once. *)
Lemma foldl_grow sessions ds ps live : NoDup ps →
  foldl (grow sessions ds) live ps =
  (λ e, if decide (sessions !! e.1 ∈ Some <$> ps) then (e.1, e.2 ++ ds) else e) <$> live.
Proof.
  intros Hnd. revert live. induction Hnd as [|p ps Hp Hnd IH]; intros live; cbn [foldl].
  - rewrite <-(list_fmap_id live) at 1. apply list_fmap_ext. intros i e _. simpl.
    done.
  - rewrite IH. unfold grow. rewrite <-list_fmap_compose. apply list_fmap_ext. intros i [id es] _.
    rewrite fmap_cons. cbn [compose fst snd].
    assert (Some p ∉ Some <$> ps) by (intros (q & [= <-] & ?)%list_elem_of_fmap; done).
    destruct (decide (sessions !! id = Some p)) as [Hid|Hid]; cbn [fst snd].
    + rewrite Hid, decide_False, decide_True by (done || left). done.
    + apply decide_ext. rewrite elem_of_cons. naive_solver.
Qed.

Lemma fold_broadcast_refines d ps live w : refines w live → NoDup ps →
  (∀ p, p ∈ ps → p < length (w_heap w)) →
  (∀ p id ds, p ∈ ps → sm_sessions (w_mgr w) !! id = Some p → (id, ds) ∈ live →
     Z.of_nat (S (length ds)) < two63)%Z →
  ∃ w', fold_opt (on_session (broadcastNotification d)) ps w = Some w' ∧ w_mgr w' = w_mgr w ∧
    length (w_heap w') = length (w_heap w) ∧
    refines w' (foldl (grow (sm_sessions (w_mgr w)) (op_data (SBroadcast d))) live ps).
Proof.
  intros H Hnd. revert live w H. induction Hnd as [|p ps Hp Hnd IH]; intros live w H Hlen Hlt; cbn [fold_opt foldl].
  { by exists w. }
  destruct (lookup_lt_is_Some_2 (w_heap w) p) as [s Hs]; [apply Hlen; left|].
  rewrite session_at_broadcast.
  destruct (session_at_refines (SBroadcast d) w live p s H Hs) as (w1 & -> & Hm & Hl & H1);
    [done|intros; eapply Hlt; [left|done..]|].
  rewrite <-Hm in H1. destruct (IH _ w1 H1) as (w2 & -> & Hm2 & Hl2 & H2).
  - intros q Hq. rewrite Hl. apply Hlen. by right.
  - intros q id ds Hq Hreg [(Hreg' & _)|[_ Hin]]%elem_of_grow; [by simplify_eq|].
    rewrite Hm in Hreg. eapply Hlt; [by right|done..].
  - exists w2. rewrite Hm2, Hl2, <-Hm. done.
Qed.

Lemma broadcast_refines d live w : refines w live →
  (∀ id ds, (id, ds) ∈ live → Z.of_nat (S (length ds)) < two63)%Z →
  ∃ w', broadcast d w = Some w' ∧ w_mgr w' = w_mgr w ∧ length (w_heap w') = length (w_heap w) ∧
    refines w' (spec_step 0 live (MBroadcast d)).
Proof.
  intros H Hlt. pose proof H as []. set (ps := (range (sm_sessions (w_mgr w))).*2).
  assert (∀ id p, sm_sessions (w_mgr w) !! id = Some p →
    ∃ s, w_heap w !! p = Some s ∧ ss_id s = id ∧ p < length (w_heap w)) as Hreg.
  { intros id p Hid. destruct (in_live live id) as [ds Hds]; [apply rf_dom0; eauto|].
    destruct (rf_live0 id ds Hds) as (q & s & Hq & Hs & Hss & _). simplify_eq. exists s.
    split_and!; [done..|by eapply lookup_lt_Some]. }
  assert (∀ p, p ∈ ps ↔ ∃ id, sm_sessions (w_mgr w) !! id = Some p) as Hps.
  { intros p. unfold ps. rewrite list_elem_of_fmap. split.
    - intros ([id q] & -> & Hin%elem_of_range). eauto.
    - intros [id Hid]. exists (id, p). by rewrite elem_of_range. }
  assert (NoDup ps) as Hnd.
  { unfold ps. apply NoDup_fmap_2_strong; [|apply NoDup_range].
    intros [id p] [id' q] Hin%elem_of_range Hin'%elem_of_range Heq. simpl in Heq. subst q.
    destruct (Hreg _ _ Hin) as (s & Hs & <- & _), (Hreg _ _ Hin') as (s' & Hs' & <- & _). by simplify_eq. }
  destruct (fold_broadcast_refines d ps live w H) as (w' & Hf & Hm & Hl & H').
  - done.
  - intros p [id Hid]%Hps. by destruct (Hreg id p Hid) as (s & _ & _ & ?).
  - eauto.
  - exists w'. split_and!; [done..|]. rewrite foldl_grow in H' by done.
    assert (∀ ds, (λ e : string * list string, if decide (sm_sessions (w_mgr w) !! e.1 ∈ Some <$> ps)
                   then (e.1, e.2 ++ ds) else e) <$> live = (λ e, (e.1, e.2 ++ ds)) <$> live) as Hall.
    { intros ds. apply list_fmap_ext. intros i [id es] Hi%list_elem_of_lookup_2. simpl.
      rewrite decide_True; [done|]. destruct (rf_live0 _ _ Hi) as (p & s & Hp & _). rewrite Hp.
      apply list_elem_of_fmap_2, Hps. eauto. }
    rewrite Hall in H'. destruct d as [d|]; simpl in *; [done|].
    replace live with ((λ e : string * list string, (e.1, e.2 ++ [])) <$> live) by
      (rewrite <-(list_fmap_id live) at 2; apply list_fmap_ext; intros i [] _; simpl; by rewrite app_nil_r).
    done.
Qed.

Lemma client_step_refines op live w p : refines w live → op ≠ SClose → op_data op = [] →
  (∀ id ds, (id, ds) ∈ live → Z.of_nat (S (length ds)) < two63)%Z →
  ∃ w', client_step op p w = Some w' ∧ w_mgr w' = w_mgr w ∧ length (w_heap w') = length (w_heap w) ∧ refines w' live.
Proof.
  intros H Hop Hd Hlt. unfold client_step. case_decide as Hp; [|by exists w].
  destruct (lookup_lt_is_Some_2 _ _ Hp) as [s Hs].
  destruct (session_at_refines op w live p s H Hs Hop) as (w' & -> & Hm & Hl & H'); [by eauto|].
  rewrite Hd, grow_nil in H'. by exists w'.
Qed.

(** ** The theorem *)

Definition created (ops : list manager_op) : list string :=
  omap (λ op, match op with MCreate id => Some id | _ => None end) ops.

(** The live sessions after a history, oldest first. *)
Definition live_after (max : Z) (ops : list manager_op) : sessions_spec :=
  foldl (spec_step (Z.to_nat (if decide (max ≤ 0)%Z then defaultMaxSessions else max))) [] ops.

Lemma spec_step_bounds max live op n :
  length live ≤ max → (∀ id ds, (id, ds) ∈ live → length ds ≤ n) →
  length (spec_step max live op) ≤ max ∧ (∀ id ds, (id, ds) ∈ spec_step max live op → length ds ≤ S n).
Proof.
  intros Hlen Hds. assert (∀ id ds, (id, ds) ∈ live → length ds ≤ S n) as Hds'.
  { intros id ds Hin. specialize (Hds _ _ Hin). lia. }
  destruct op as [id|id|[d|]|p k|p ch|p ch]; simpl; try done.
  - unfold last_n. rewrite length_drop. split; [lia|]. intros id' ds Hin.
    assert ((id', ds) ∈ live ++ [(id, [])]) as [?|Heq%list_elem_of_singleton]%elem_of_app; [|by eauto|simplify_eq; simpl; lia].
    eapply elem_of_submseteq; [done|]. apply sublist_submseteq, sublist_drop.
  - split; [etrans; [apply length_filter|done]|]. intros id' ds [_ Hin]%list_elem_of_filter. eauto.
  - rewrite length_fmap. split; [done|].
    intros id ds ([id' es] & [= -> ->] & Hin)%list_elem_of_fmap. rewrite length_app. simpl.
    specialize (Hds _ _ Hin). lia.
Qed.

Lemma spec_step_ids max live op id : id ∈ (spec_step max live op).*1 → id ∈ live.*1 ∨ op = MCreate id.
Proof.
  intros Hin. destruct op as [id'|id'|[d|]|p k|p ch|p ch]; simpl in Hin; auto.
  - assert (id ∈ (live ++ [(id', [])]).*1) as Hin'.
    { eapply elem_of_submseteq; [done|]. apply fmap_submseteq, sublist_submseteq, sublist_drop. }
    rewrite fmap_app in Hin'. apply elem_of_app in Hin' as [?|Heq%list_elem_of_singleton]; [auto|].
    simpl in Heq. subst. auto.
  - left. eapply elem_of_submseteq; [done|]. apply fmap_submseteq, sublist_submseteq, sublist_filter.
  - left. by rewrite <-list_fmap_compose in Hin.
Qed.

Lemma manager_step_refines op live w max n : refines w live → sm_max (w_mgr w) = Z.of_nat max →
  (∀ id ds, (id, ds) ∈ live → length ds ≤ n) → (Z.of_nat (S n) < two63)%Z → "" ∉ live.*1 →
  (∀ id, op = MCreate id → id ∉ live.*1) →
  ∃ w', manager_step w op = Some w' ∧ sm_max (w_mgr w') = Z.of_nat max ∧ refines w' (spec_step max live op).
Proof.
  intros H Hmax Hds Hn Hempty Hnew.
  assert (∀ id ds, (id, ds) ∈ live → Z.of_nat (S (length ds)) < two63)%Z as Hlt.
  { intros id ds Hin. specialize (Hds _ _ Hin). lia. }
  destruct op as [id|id|d|p k|p ch|p ch]; cbn [manager_step].
  - destruct (create_refines live w id H) as (w' & -> & Hm & _ & H'); [lia|by apply Hnew|]. simpl.
    rewrite Hmax, Nat2Z.id in H'. exists w'. by rewrite Hm.
  - destruct (delete_refines live w id H Hempty) as (w' & -> & Hm & _ & H'). simpl. exists w'. by rewrite Hm.
  - destruct (broadcast_refines d live w H Hlt) as (w' & -> & Hm & _ & H'). exists w'. rewrite Hm.
    by destruct d.
  - destruct (client_step_refines (SSubscribe k) live w p H) as (w' & -> & Hm & _ & H'); [done..|]. exists w'. by rewrite Hm.
  - destruct (client_step_refines (SCancel ch) live w p H) as (w' & -> & Hm & _ & H'); [done..|]. exists w'. by rewrite Hm.
  - destruct (client_step_refines (SRead ch) live w p H) as (w' & -> & Hm & _ & H'); [done..|]. exists w'. by rewrite Hm.
Qed.

Lemma new_world_refines max : refines (new_world max) [].
Proof. split; simpl; [done|apply NoDup_nil_2|intros id [p [=]]|by intros ?? []%not_elem_of_nil|done|by split]. Qed.

Lemma run_manager ops w live max n : refines w live → sm_max (w_mgr w) = Z.of_nat max →
  length live ≤ max → (∀ id ds, (id, ds) ∈ live → length ds ≤ n) → (Z.of_nat (n + length ops) < two63)%Z →
  "" ∉ live.*1 → "" ∉ created ops → NoDup (created ops) → (∀ id, id ∈ created ops → id ∉ live.*1) →
  ∃ w', fold_opt manager_step ops w = Some w' ∧ refines w' (foldl (spec_step max) live ops) ∧
    length (foldl (spec_step max) live ops) ≤ max ∧ "" ∉ (foldl (spec_step max) live ops).*1.
Proof.
  revert w live n. induction ops as [|op ops IH]; intros w live n H Hmax Hlen Hds Hn He Hce Hnd Hnew.
  { by exists w. }
  cbn [fold_opt foldl length] in *.
  assert (∀ id, op = MCreate id → created (op :: ops) = id :: created ops) as Hc1 by by intros id ->.
  assert (created ops `sublist_of` created (op :: ops)) as Hsub.
  { destruct op; [by apply sublist_cons|done..]. }
  destruct (manager_step_refines op live w max n H Hmax Hds) as (w1 & -> & Hm1 & H1); [lia|done|..].
  { intros id Hop. apply Hnew. rewrite (Hc1 id Hop). left. }
  destruct (spec_step_bounds max live op n Hlen Hds) as [Hlen1 Hds1].
  destruct (IH w1 (spec_step max live op) (S n)) as (w2 & Hr & H2); [done..|lia| | | | |by exists w2].
  - intros [?| ->]%spec_step_ids; [done|]. apply Hce. left.
  - intros Hin. apply Hce. by apply (elem_of_submseteq _ _ _ Hin), sublist_submseteq.
  - by eapply sublist_NoDup.
  - intros id Hin [Hl|Hop]%spec_step_ids.
    + apply (Hnew id); [|done]. by apply (elem_of_submseteq _ _ _ Hin), sublist_submseteq.
    + rewrite (Hc1 id Hop) in Hnd. by apply NoDup_cons in Hnd as [? _].
Qed.

(** C28: The session table as a bounded queue. Whatever clients and operators do, with
    identifiers that are drawn once, no operation panics, and the table holds
    exactly the newest [max] sessions that were not deleted: each is found under its
    identifier, is open, and its log holds the last notifications broadcast since it
    was created, numbered from 1; every other session, evicted or deleted, cannot be
    found and is closed. *)
Theorem sessions_bounded_queue max ops :
  "" ∉ created ops → NoDup (created ops) → (Z.of_nat (length ops) < two63)%Z →
  ∃ w, fold_opt manager_step ops (new_world max) = Some w ∧
    (Z.of_nat (length (live_after max ops)) ≤ sm_max (newSessionManager max))%Z ∧
    sm_order (w_mgr w) = (live_after max ops).*1 ∧
    (∀ id ds, (id, ds) ∈ live_after max ops → ∃ p s, get id w = Some p ∧ w_heap w !! p = Some s ∧
       ss_id s = id ∧ ss_closed s = false ∧ ss_nextID s = Z.of_nat (length ds) ∧
       ss_log s = drop (length ds - maxSessionLogEvents) (numbered ds)) ∧
    (∀ id, id ∉ (live_after max ops).*1 → get id w = None) ∧
    (∀ p s, w_heap w !! p = Some s → get (ss_id s) w ≠ Some p → ss_closed s = true).
Proof.
  intros Hce Hnd Hn. unfold live_after. set (m := if decide (max ≤ 0)%Z then defaultMaxSessions else max).
  assert (0 ≤ m)%Z as Hm by (subst m; case_decide; [done|lia]).
  destruct (run_manager ops (new_world max) [] (Z.to_nat m) 0) as (w & Hr & H & Hlen & He);
    [apply new_world_refines|simpl; fold m; lia|simpl; lia|by intros ?? []%not_elem_of_nil|simpl; lia|
     by intros []%not_elem_of_nil|done..|by intros ??[]%not_elem_of_nil|].
  exists w. split; [done|]. split; [simpl; fold m; lia|]. pose proof H as []. split; [done|]. split; [|split].
  - intros id ds Hin. destruct (rf_live0 _ _ Hin) as (p & s & Hp & Hs & Hid & Hc & Hok). exists p, s.
    unfold get. rewrite decide_False.
    2:{ intros ->. apply He. by apply (list_elem_of_fmap_2 fst) in Hin. }
    rewrite (so_next _ _ _ Hok), (so_log _ _ _ Hok), length_numbered. done.
  - intros id Hid. destruct (decide (id = "")) as [->|Hne]; [done|]. by eapply get_refines.
  - intros p s Hp Hg. destruct (ss_closed s) eqn:Hc; [done|]. exfalso. apply Hg.
    destruct (open_is_live w _ p s H Hp Hc) as (Hreg & ds & Hin & _). unfold get. rewrite decide_False; [done|].
    intros Hz. apply He. rewrite <-Hz. by apply (list_elem_of_fmap_2 fst) in Hin.
Qed.
End manager.

(** Two sessions at most; the third evicts the first, which has a subscriber. *)
Lemma sessions_bounded_queue_witness :
  let mr := canonical_range in let sr := sorted_range in
  let ops := [MCreate "a"; MSubscribe 0 0; MBroadcast (Some "x"); MCreate "b"; MBroadcast (Some "y");
              MRead 0 0; MCreate "c"; MBroadcast (Some "z"); MCancel 0 0; MDelete "c"] in
  ∃ w, fold_opt manager_step ops (new_world 2) = Some w ∧ live_after 2 ops = [("b", ["y"; "z"])] ∧
    get "a" w = None ∧ get "c" w = None ∧ is_Some (get "b" w) ∧ sm_order (w_mgr w) = ["b"].
Proof.
  intros mr sr ops. destruct (sessions_bounded_queue 2 ops) as (w & Hr & _ & Ho & Hlive & Hgone & _).
  - apply (bool_decide_unpack _). by vm_compute.
  - apply (bool_decide_unpack _). by vm_compute.
  - by vm_compute.
  - exists w. split; [done|]. split; [reflexivity|]. change (live_after 2 ops) with [("b", ["y"; "z"])] in *.
    split; [apply Hgone; apply (bool_decide_unpack _); by vm_compute|].
    split; [apply Hgone; apply (bool_decide_unpack _); by vm_compute|]. split; [|done].
    destruct (Hlive "b" ["y"; "z"]) as (p & s & Hp & _); [left|]. by exists p.
Defined.

(** ** HTTP *)

(** [url.Parse] and [Hostname], [None] for an origin that does not parse; the
    decoder of a notification, its error with whether the body was too large; and
    the encoders. *)
Class McpHttp := {
  Hostname : string → option string;
  DecodeNotification : (string * bool) + string → (string * bool) + Notification;
  MarshalNotification : Notification → option string;
  EncodeNotifications : list Notification → string;
  EncodeEnvelope : string → list Notification → string
}.

(** The body is the error of reading it, with whether it was too large, or its bytes. *)
Record http_request := mkHttpRequest {
  hq_Method : string;
  hq_Origin : string;
  hq_Accept : string;
  hq_SessionID : string;
  hq_ProtocolVersion : string;
  hq_LastEventID : string;
  hq_Body : (string * bool) + string
}.

Record http_response := mkHttpResponse {
  hp_Status : Z; hp_Header : list (string * string); hp_Body : string
}.

Abbreviation nl := newline.

(** [http.Error] after the headers [header] were set. *)
Definition http_error (header : list (string * string)) (msg : string) (code : Z) : http_response :=
  mkHttpResponse code
    (header ++ [("Content-Type", "text/plain; charset=utf-8"); ("X-Content-Type-Options", "nosniff")]%string)
    (msg +:+ nl)%string.

Definition json_type : string * string := ("Content-Type", "application/json")%string.

Definition sse_headers : list (string * string) :=
  [("Content-Type", "text/event-stream"); ("Cache-Control", "no-cache"); ("Connection", "keep-alive");
   ("X-Accel-Buffering", "no")]%string.

Definition readCapStatus (tooLarge : bool) : Z := if tooLarge then 413 else 400.

Definition SupportedProtocolVersions : list string :=
  ["2025-11-25"; "2025-06-18"; "2025-03-26"; "2024-11-05"]%string.

Definition protocolVersionSupported (v : string) : bool :=
  existsb (λ s, bool_decide (s = v)) SupportedProtocolVersions.

Record StreamableHTTPHandler := mkStreamable { AllowedOrigins : list string; hasFlusher : bool }.

Section http.
Context {mr : MapRange} {sr : SetRange} {lower : GoLower} {fmt : GoFmt} {json : McpJson} {env : McpHttp}.
Context (def : MCPServerDefinition).
Abbreviation sessions_spec := (list (string * list string)).
Implicit Types (h : StreamableHTTPHandler) (r : http_request) (srv : Server) (w : world).

Definition isLoopbackOrigin (origin : string) : bool :=
  match Hostname origin with
  | None => false
  | Some host => bool_decide (host = "localhost") || bool_decide (host = "127.0.0.1") || bool_decide (host = "::1")
  end.

Definition originAllowed h (origin : string) : bool :=
  if decide (origin = "") then true
  else existsb (λ o, bool_decide (o = "*") || bool_decide (o = origin)) (AllowedOrigins h) ||
       isLoopbackOrigin origin.

Definition acceptsEventStream r : bool := str_contains (hq_Accept r) "text/event-stream".

(** The response, when the version is refused. *)
Definition validateProtocolVersion r : option http_response :=
  let v := hq_ProtocolVersion r in
  if decide (v = "") then None
  else if protocolVersionSupported v then None
  else Some (http_error [] ("unsupported MCP-Protocol-Version " +:+ Quote v)%string 400).

Definition isInitialize (req : Request) : bool := bool_decide (rq_Method req = "initialize").

Definition writePostSSE h (header : list (string * string)) (response : string) : http_response :=
  if hasFlusher h
  then mkHttpResponse 200 (header ++ sse_headers)
         ("event: message" +:+ nl +:+ "data: " +:+ response +:+ nl +:+ nl)%string
  else mkHttpResponse 200 (header ++ [json_type]) response.

(** [json.NewEncoder(w).Encode]: nothing is written when the value cannot be encoded. *)
Definition encode_response (resp : Response) : string :=
  match MarshalResponse resp with inl _ => "" | inr out => (out +:+ nl)%string end.

(** The answer to a message the server dispatched. [draw] is the identifier a new
    session would get; [None] is a panic. *)
Definition answer_post h (draw : string) r (init : bool) (resp : Response) w : option (world * http_response) :=
  '(w, header) ← (if init && bool_decide (rs_Error resp = None)
                  then '(w, _) ← create draw w; Some (w, [("Mcp-Session-Id"%string, draw)])
                  else Some (w, []));
  Some (w, match MarshalResponse resp with
           | inl err => http_error header ("encoding response: " +:+ err)%string 500
           | inr out => if acceptsEventStream r then writePostSSE h header out
                        else mkHttpResponse 200 (header ++ [json_type]) out
           end).

(** The checks every request but an initialize passes: the answer, when one fails. *)
Definition session_refused r w : option http_response :=
  match validateProtocolVersion r with
  | Some resp => Some resp
  | None =>
      if decide (hq_SessionID r = "") then Some (http_error [] "missing Mcp-Session-Id" 400)
      else match get (hq_SessionID r) w with
           | None => Some (http_error [] "no valid session; reinitialize" 404)
           | Some _ => None
           end
  end.

Definition handlePost h (draw : string) r srv w : option (Server * world * http_response) :=
  match hq_Body r with
  | inl (err, tooLarge) => Some (srv, w, http_error [] ("reading request: " +:+ err)%string (readCapStatus tooLarge))
  | inr body =>
      match UnmarshalRequest body with
      | inl err => Some (srv, w, mkHttpResponse 200 [json_type]
                          (encode_response (newError "" ErrParseError "invalid JSON" (VString err))))
      | inr req =>
          let init := isInitialize req in
          match (if init then None else session_refused r w) with
          | Some resp => Some (srv, w, resp)
          | None =>
              match Handle def req srv with
              | (srv, None) => Some (srv, w, mkHttpResponse 202 [] "")
              | (srv, Some resp) => '(w, out) ← answer_post h draw r init resp w; Some (srv, w, out)
              end
          end
      end
  end.

Definition writeSSEEvent (ev : loggedEvent) : string :=
  ("id: " +:+ pretty (ev_id ev) +:+ nl +:+ "event: message" +:+ nl +:+ "data: " +:+ ev_data ev +:+ nl +:+ nl)%string.

(** What a request leads to: a response, or a stream that has begun and goes on
    with the events read from a channel of a session. *)
Inductive outcome :=
| Responded (resp : http_response)
| Streaming (begun : http_response) (p ch : nat).

Definition handleGet h r w : option (world * outcome) :=
  let refuse resp := Some (w, Responded resp) in
  match validateProtocolVersion r with
  | Some resp => refuse resp
  | None =>
      match get (hq_SessionID r) w with
      | None => refuse (http_error [] "no valid session; reinitialize" 404)
      | Some p =>
          if negb (acceptsEventStream r) then refuse (http_error [] "GET requires Accept: text/event-stream" 406)
          else if negb (hasFlusher h) then refuse (http_error [] "streaming unsupported" 500)
          else
            let after := if decide (hq_LastEventID r = "") then 0%Z else default 0%Z (Atoi (hq_LastEventID r)) in
            s ← w_heap w !! p;
            let '(s, cs, (replay, ch, atCap)) := subscribe after s (w_chans w) in
            let w := mkWorld (w_mgr w) (<[p := s]> (w_heap w)) cs in
            if atCap then Some (w, Responded (http_error [] "too many concurrent streams for this session" 429))
            else Some (w, Streaming (mkHttpResponse 200 sse_headers (cat (writeSSEEvent <$> replay))) p ch)
      end
  end.

Definition handleDelete r w : option (world * http_response) :=
  '(w, ok) ← delete_session (hq_SessionID r) w;
  Some (w, if (ok : bool) then mkHttpResponse 200 [] "" else http_error [] "no valid session" 404).

Definition ServeHTTP h (draw : string) r srv w : option (Server * world * outcome) :=
  if negb (originAllowed h (hq_Origin r)) then Some (srv, w, Responded (http_error [] "origin not allowed" 403))
  else if decide (hq_Method r = "POST") then
    '(srv, w, resp) ← handlePost h draw r srv w; Some (srv, w, Responded resp)
  else if decide (hq_Method r = "GET") then '(w, out) ← handleGet h r w; Some (srv, w, out)
  else if decide (hq_Method r = "DELETE") then '(w, resp) ← handleDelete r w; Some (srv, w, Responded resp)
  else Some (srv, w, Responded (http_error [("Allow", "GET, POST, DELETE")%string] "method not allowed" 405)).

(** [StreamableNotifyHandler]: a notification for the stream of every session. *)
Definition StreamableNotify h r w : option (world * http_response) :=
  if negb (originAllowed h (hq_Origin r)) then Some (w, http_error [] "origin not allowed" 403)
  else if decide (hq_Method r ≠ "POST") then
    Some (w, http_error [("Allow", "POST")%string] "method not allowed" 405)
  else match DecodeNotification (hq_Body r) with
       | inl (err, tooLarge) => Some (w, http_error [] ("invalid notification: " +:+ err)%string (readCapStatus tooLarge))
       | inr n =>
           if decide (nt_Method n = "") then Some (w, http_error [] "method is required" 400)
           else w ← broadcast (MarshalNotification n) w; Some (w, mkHttpResponse 202 [] "")
       end.

(** ** The single-request handlers *)

(** The loop of [itoa] writes its digits before position [i] of the buffer; an
    index below 0 panics. *)
Fixpoint itoa_from (i : nat) (n : Z) (digits : string) : option string :=
  if decide (0 < n)%Z then
    match i with
    | O => None
    | S i => itoa_from i (Z.quot n 10) (String (Ascii.ascii_of_nat (Z.to_nat (48 + Z.rem n 10))) digits)
    end
  else Some digits.

Definition itoa (n : Z) : option string := if decide (n = 0)%Z then Some "0"%string else itoa_from 20 n "".

Definition HTTPHandler_ServeHTTP r srv : option (Server * http_response) :=
  if decide (hq_Method r ≠ "POST") then
    Some (srv, http_error [("Allow", "POST")%string] "method not allowed" 405)
  else
    match hq_Body r with
    | inl (err, tooLarge) => Some (srv, http_error [] ("reading request: " +:+ err)%string (readCapStatus tooLarge))
    | inr body =>
        match HandleBytes def body srv with
        | (srv, inl err) => Some (srv, http_error [] ("handler error: " +:+ err)%string 500)
        | (srv, inr out) =>
            let '(srv, notifications) := DrainNotifications srv in
            header ← (if decide (0 < length notifications)
                      then n ← itoa (Z.of_nat (length notifications)); Some [("X-MCP-Pending-Notifications"%string, n)]
                      else Some []);
            Some (srv,
              match out, notifications with
              | None, [] => mkHttpResponse 204 header ""
              | None, _ => mkHttpResponse 200 (header ++ [json_type]) (EncodeNotifications notifications)
              | Some out, [] => mkHttpResponse 200 (header ++ [json_type]) out
              | Some out, _ => mkHttpResponse 200 (header ++ [json_type]) (EncodeEnvelope out notifications)
              end)
        end
    end.

Definition NotifyHandler_ServeHTTP r srv : option (Server * http_response) :=
  if decide (hq_Method r ≠ "POST") then
    Some (srv, http_error [("Allow", "POST")%string] "method not allowed" 405)
  else match DecodeNotification (hq_Body r) with
       | inl (err, tooLarge) => Some (srv, http_error [] ("invalid notification: " +:+ err)%string (readCapStatus tooLarge))
       | inr n =>
           if decide (nt_Method n = "") then Some (srv, http_error [] "method is required" 400)
           else srv ← EmitNotification n srv; Some (srv, mkHttpResponse 202 [] "")
       end.

(** ** Admission of a POST *)

(** The status a decoded message is refused with, by what is wrong first. *)
Definition refusal h r (req : Request) (live : sessions_spec) : option Z :=
  if originAllowed h (hq_Origin r) then
    if decide (rq_Method req = "initialize") then None
    else if decide (hq_ProtocolVersion r ≠ "" ∧ hq_ProtocolVersion r ∉ SupportedProtocolVersions) then Some 400%Z
    else if decide (hq_SessionID r = "") then Some 400%Z
    else if decide (hq_SessionID r ∉ live.*1) then Some 404%Z
    else None
  else Some 403%Z.

Lemma originAllowed_spec h origin : originAllowed h origin = true ↔
  origin = "" ∨ "*" ∈ AllowedOrigins h ∨ origin ∈ AllowedOrigins h ∨
  ∃ host, Hostname origin = Some host ∧ host ∈ ["localhost"; "127.0.0.1"; "::1"].
Proof.
  unfold originAllowed, isLoopbackOrigin. case_decide as He; [by split; auto|].
  rewrite orb_true_iff, existsb_exists. setoid_rewrite orb_true_iff. setoid_rewrite bool_decide_eq_true.
  setoid_rewrite <-list_elem_of_In.
  assert (∀ b : bool, match Hostname origin with
      | Some host => bool_decide (host = "localhost") || bool_decide (host = "127.0.0.1") || bool_decide (host = "::1")
      | None => false end = true ↔ ∃ host, Hostname origin = Some host ∧ host ∈ ["localhost"; "127.0.0.1"; "::1"]) as Hl.
  { intros _. destruct (Hostname origin) as [host|]; [|split; [done|by intros (? & [=] & _)]].
    rewrite !orb_true_iff, !bool_decide_eq_true. split; [intros; exists host; set_solver|].
    intros (? & [= <-] & Hin). set_solver. }
  rewrite (Hl true). naive_solver.
Qed.

Lemma protocolVersionSupported_spec v : protocolVersionSupported v = true ↔ v ∈ SupportedProtocolVersions.
Proof.
  unfold protocolVersionSupported. rewrite existsb_exists. setoid_rewrite bool_decide_eq_true.
  setoid_rewrite <-list_elem_of_In. naive_solver.
Qed.

Lemma get_live w live id : refines w live → "" ∉ live.*1 →
  (id ∈ live.*1 → is_Some (get id w)) ∧ (id ∉ live.*1 → get id w = None).
Proof.
  intros H He. split.
  - intros Hin. destruct (in_live live id Hin) as [ds Hds].
    destruct (rf_live _ _ H id ds Hds) as (p & s & Hp & _). unfold get. rewrite decide_False by (by intros ->). eauto.
  - intros Hn. destruct (decide (id = "")) as [->|Hne]; [done|]. by eapply get_refines.
Qed.

Lemma session_refused_spec h r req w live : refines w live → "" ∉ live.*1 →
  originAllowed h (hq_Origin r) = true → rq_Method req ≠ "initialize" →
  hp_Status <$> session_refused r w = refusal h r req live.
Proof.
  intros H He Ho Hi. unfold refusal, session_refused, validateProtocolVersion. rewrite Ho, (decide_False (P := rq_Method req = "initialize")) by done.
  assert (hp_Status <$> (if decide (hq_SessionID r = "") then Some (http_error [] "missing Mcp-Session-Id" 400)
      else match get (hq_SessionID r) w with
           | None => Some (http_error [] "no valid session; reinitialize" 404)
           | Some _ => None
           end) =
    if decide (hq_SessionID r = "") then Some 400%Z
    else if decide (hq_SessionID r ∉ live.*1) then Some 404%Z else None) as Hsession.
  { destruct (decide (hq_SessionID r = "")) as [|Hs]; [done|].
    destruct (get_live w live (hq_SessionID r) H He) as [Hg Hn]. case_decide as Hin; [by rewrite Hn|].
    destruct Hg as [p ->]; [by destruct (decide (hq_SessionID r ∈ live.*1))|done]. }
  destruct (decide (hq_ProtocolVersion r = "")) as [Hv|Hv].
  { rewrite (decide_False (P := _ ∧ _)) by naive_solver. done. }
  destruct (protocolVersionSupported _) eqn:Hp.
  - apply protocolVersionSupported_spec in Hp. rewrite (decide_False (P := _ ∧ _)) by naive_solver. done.
  - rewrite (decide_True (P := _ ∧ _)); [done|]. split; [done|]. rewrite <-protocolVersionSupported_spec. congruence.
Qed.

(** The gate of the streamable endpoint. A decoded POST whose origin is not
    allowed, or that is not an initialize and has an unsupported version, no session
    header or the identifier of no live session, is answered 403, 400, 400 or 404 —
    the first that applies — and reaches neither the server nor the sessions. Any
    other is dispatched to the server exactly once and acknowledged with 202 when it has no
    answer; an initialize that succeeds names a new live session in its response,
    under which the next request is admitted, and nothing else changes the sessions. *)
Theorem post_gate h draw r srv w live body req :
  refines w live → (1 ≤ sm_max (w_mgr w))%Z → "" ∉ live.*1 → draw ∉ live.*1 → draw ≠ "" →
  hq_Method r = "POST" → hq_Body r = inr body → UnmarshalRequest body = inr req →
  ∃ srv' w' resp, ServeHTTP h draw r srv w = Some (srv', w', Responded resp) ∧
    match refusal h r req live with
    | Some code => srv' = srv ∧ w' = w ∧ hp_Status resp = code
    | None =>
        srv' = (Handle def req srv).1 ∧
        match (Handle def req srv).2 with
        | None => w' = w ∧ hp_Status resp = 202%Z
        | Some answer =>
            if decide (rq_Method req = "initialize" ∧ rs_Error answer = None) then
              hp_Header resp !! 0 = Some ("Mcp-Session-Id", draw) ∧
              ∃ live', refines w' live' ∧ live' = last_n (Z.to_nat (sm_max (w_mgr w))) (live ++ [(draw, [])]) ∧
                is_Some (get draw w') ∧
                ∀ r' req', hq_Origin r' = "" → hq_ProtocolVersion r' = "" → hq_SessionID r' = draw →
                  refusal h r' req' live' = None
            else w' = w
        end
    end.
Proof.
  intros H Hmax He Hnew Hne Hm Hb Hu. unfold ServeHTTP.
  destruct (originAllowed h (hq_Origin r)) eqn:Ho; simpl; cycle 1.
  { unfold refusal. rewrite Ho. by eexists _, _, _. }
  rewrite decide_True by done. unfold handlePost. rewrite Hb, Hu. unfold isInitialize.
  destruct (decide (rq_Method req = "initialize")) as [Hi|Hi].
  - replace (refusal h r req live) with (@None Z) by (unfold refusal; by rewrite Ho, decide_True).
    rewrite bool_decide_true by done. simpl. destruct (Handle def req srv) as [srv' [answer|]]; simpl; [|by eexists _, _, _].
    unfold answer_post. simpl. destruct (decide (rs_Error answer = None)) as [Hok|Hbad].
    + rewrite bool_decide_true by done. destruct (decide (_ ∧ _)) as [_|[]]; [|done].
      destruct (create_refines live w draw H) as (w' & -> & Hm' & _ & H'); [lia|done|]. simpl.
      eexists _, _, _. do 2 (split; [done|]). split; [unfold writePostSSE; by repeat case_match|].
      eexists. split; [exact H'|]. split; [done|].
      assert (draw ∈ (last_n (Z.to_nat (sm_max (w_mgr w))) (live ++ [(draw, [])])).*1) as Hin.
      { unfold last_n. rewrite length_app, drop_app_le by (simpl; lia). rewrite fmap_app. apply elem_of_app. right. left. }
      assert ("" ∉ (last_n (Z.to_nat (sm_max (w_mgr w))) (live ++ [(draw, [])])).*1) as He'.
      { intros [?|[= ->]]%(spec_step_ids _ _ (MCreate draw)); done. }
      split; [by apply (get_live w' _ draw H' He')|]. intros r' req' Hor Hv Hs. unfold refusal.
      rewrite Hor, Hv, Hs. rewrite (proj2 (originAllowed_spec h "")) by auto.
      case_decide; [done|]. rewrite decide_False by naive_solver. rewrite !decide_False by auto. done.
    + rewrite bool_decide_false by done. destruct (decide (_ ∧ _)) as [[]|_]; [done|]. simpl. by eexists _, _, _.
  - rewrite bool_decide_false by done. rewrite <-(session_refused_spec h r req w live) by done.
    destruct (session_refused r w) as [resp|]; simpl; [by eexists _, _, _|].
    destruct (Handle def req srv) as [srv' [answer|]]; simpl; [|by eexists _, _, _].
    destruct (decide (_ ∧ _)) as [[]|_]; [done|]. by eexists _, _, _.
Qed.
End http.

(** ** The count of pending notifications *)

Lemma digit_value a d s : (0 ≤ d < 10)%Z →
  digits_value a (String (Ascii.ascii_of_nat (Z.to_nat (48 + d))) s) = digits_value (10 * a + d) s.
Proof.
  intros Hd. assert (d = 0 ∨ d = 1 ∨ d = 2 ∨ d = 3 ∨ d = 4 ∨ d = 5 ∨ d = 6 ∨ d = 7 ∨ d = 8 ∨ d = 9)%Z as Hc by lia.
  by destruct Hc as [->|[->|[->|[->|[->|[->|[->|[->|[->| ->]]]]]]]]].
Qed.

Lemma itoa_from_value i n digits : (0 ≤ n < 10 ^ Z.of_nat i)%Z →
  ∃ s, itoa_from i n digits = Some s ∧ digits_value 0 s = digits_value n digits.
Proof.
  revert n digits. induction i as [|i IH]; intros n digits Hn; cbn [itoa_from].
  - rewrite decide_False by (simpl in Hn; lia). assert (n = 0)%Z as -> by (simpl in Hn; lia). eauto.
  - case_decide; [|assert (n = 0)%Z as -> by lia; eauto].
    rewrite Z.quot_div_nonneg, Z.rem_mod_nonneg by lia.
    rewrite Nat2Z.inj_succ, Z.pow_succ_r in Hn by lia.
    destruct (IH (n / 10)%Z (String (Ascii.ascii_of_nat (Z.to_nat (48 + n mod 10))) digits)) as (s & -> & Hs).
    { split; [by apply Z.div_pos; lia|apply Z.div_lt_upper_bound; lia]. }
    exists s. split; [done|]. rewrite Hs, digit_value by (apply Z.mod_pos_bound; lia). f_equal.
    pose proof (Z.div_mod n 10). lia.
Qed.

(** The header that counts the pending notifications round-trips: the digits
    [itoa] writes always fit its buffer, and [strconv.Atoi] reads the count back. *)
Theorem itoa_roundtrip n : (0 ≤ n < two63)%Z → ∃ s, itoa n = Some s ∧ Atoi s = Some n.
Proof.
  intros Hn. unfold itoa. case_decide as Hz; [subst n; by exists "0"%string|].
  destruct (itoa_from_value 20 n "") as (s & -> & Hs); [unfold two63 in Hn; lia|]. exists s. split; [done|].
  cbn [digits_value] in Hs. assert (in_int64 n) as Hin by (unfold in_int64, two63 in *; lia).
  destruct s as [|c s]; [injection Hs; lia|].
  assert (Atoi (String c s) = n ← digits_value 0 (String c s); if decide (in_int64 (1 * n)) then Some (1 * n)%Z else None) as ->.
  { destruct (is_digit c) eqn:Hc; [|by cbn [digits_value] in Hs; rewrite Hc in Hs].
    destruct c as [[] [] [] [] [] [] [] []]; try done. }
  rewrite Hs. cbn. rewrite Z.mul_1_l, decide_True by done. done.
Qed.

Lemma itoa_roundtrip_witness : itoa 1024 = Some "1024"%string ∧ ∃ s, itoa 1024 = Some s ∧ Atoi s = Some 1024%Z.
Proof. split; [reflexivity|]. apply (itoa_roundtrip 1024). vm_compute. split; congruence. Defined.

(** ** An endpoint with one session *)

#[local] Existing Instance canonical_range.
#[local] Existing Instance sorted_range.
#[local] Existing Instance ascii_go_lower.
#[local] Existing Instance plain_fmt.

(** A body is the name of its method. *)
#[local] Instance ex_bodies : McpJson := {|
  UnmarshalRequest body := inr (mkRequest "2.0" "1" body "");
  UnmarshalToolCall s := inr (mkToolCallParams s []);
  UnmarshalURI s := inr s;
  UnmarshalPromptsGet s := inr (mkPromptsGetParams s ∅);
  UnmarshalCompletion s := inr (mkCompletionParams (mkCompletionRef "" s) (mkCompletionArgument "" s));
  UnmarshalLevel s := inr s;
  MarshalResponse r := inr (rs_ID r)
|}.

#[local] Instance ex_env : McpHttp := {|
  Hostname origin := Some origin;
  DecodeNotification body := match body with inl e => inl e | inr m => inr (mkNotification m None) end;
  MarshalNotification n := Some (nt_Method n);
  EncodeNotifications ns := cat (nt_Method <$> ns);
  EncodeEnvelope out ns := (out +:+ cat (nt_Method <$> ns))%string
|}.

Definition ex_server : MCPServerDefinition :=
  mkMCPServerDefinition "mockagents/v1" "MCPServer" (mkMetadata "m" "" [] "")
    (mkMCPServerSpec "" (mkMCPCapabilities false false false false) [] [] [] []).

Definition ex_post (origin session method : string) : http_request :=
  mkHttpRequest "POST" origin "" session "" "" (inr method).

(** Without a session a ping is refused; an initialize opens one, and then the ping
    with its identifier is answered. *)
Lemma post_gate_witness :
  let h := mkStreamable [] true in
  ∃ srv w resp, ServeHTTP ex_server h "s1" (ex_post "localhost" "" "initialize") NewServer (new_world 0) =
      Some (srv, w, Responded resp) ∧
    hp_Header resp !! 0 = Some ("Mcp-Session-Id", "s1")%string ∧ is_Some (get "s1" w) ∧
    ∃ resp', ServeHTTP ex_server h "s2" (ex_post "localhost" "s2" "ping") srv w = Some (srv, w, Responded resp') ∧
      hp_Status resp' = 404%Z.
Proof.
  intros h.
  assert ("" ∉ ([] : list (string * list string)).*1) as He by by intros []%not_elem_of_nil.
  assert ("s1"%string ∉ ([] : list (string * list string)).*1) as He1 by by intros []%not_elem_of_nil.
  destruct (post_gate ex_server h "s1" (ex_post "localhost" "" "initialize") NewServer (new_world 0) [] "initialize"
    (mkRequest "2.0" "1" "initialize" "") (new_world_refines 0) ltac:(vm_compute; congruence) He He1 ltac:(done)
    eq_refl eq_refl eq_refl) as (srv & w & resp & Hr & Hrest).
  change (refusal h _ _ []) with (@None Z) in Hrest. cbv beta iota in Hrest. destruct Hrest as [Hsrv Hrest].
  change ((Handle ex_server (mkRequest "2.0" "1" "initialize" "") NewServer).2)
    with (Some (handleInitialize ex_server (mkRequest "2.0" "1" "initialize" ""))) in Hrest. cbv beta iota in Hrest.
  destruct (decide _) as [_|[]]; [|by split]. destruct Hrest as (Hh & live' & Href & Hlive & Hget & _).
  change (live' = [("s1"%string, [])]) in Hlive. subst live'.
  exists srv, w, resp. split; [done|]. split; [done|]. split; [done|].
  assert (1 ≤ sm_max (w_mgr w))%Z as Hmax.
  { assert (Hr' := Hr). vm_compute in Hr'. injection Hr' as _ <- _. vm_compute. congruence. }
  destruct (post_gate ex_server h "s2" (ex_post "localhost" "s2" "ping") srv w [("s1"%string, [])] "ping"
    (mkRequest "2.0" "1" "ping" "") Href Hmax) as (srv' & w' & resp' & Hr2 & Hrest2); try reflexivity; try done.
  - apply (bool_decide_unpack _). by vm_compute.
  - apply (bool_decide_unpack _). by vm_compute.
  - assert (refusal h (ex_post "localhost" "s2" "ping") (mkRequest "2.0" "1" "ping" "") [("s1"%string, [])] = Some 404%Z)
      as Hcode by (vm_compute; reflexivity). rewrite Hcode in Hrest2.
    destruct Hrest2 as (-> & -> & Hst). by exists resp'.
Defined.
