(* ===== verification/PipelineValidator.v ===== *)
(** The pipeline validator, [internal/config/pipeline_validator.go], with its two
    passes over the graph. *)

From S2P Require Import Prelude GoBase GoStrings AgentTypes Pipeline Validation.

Definition PipelineKind : string := "Pipeline".

Definition validPipelineTopologies : list string :=
  [TopologySequential; TopologyParallel; TopologyGraph].

(** The colours of the depth-first search; an id without one is white. *)
Inductive colour := white | gray | black.
#[global] Instance colour_dec : EqDecision colour.
Proof. solve_decision. Defined.

Section pipeline_validator.
Context {yaml : GoYaml} {fmt : GoFmt} {mr : MapRange}.
Open Scope check_scope.

Definition index_field (name : string) (i : nat) : string :=
  (name +:+ "[" +:+ fmt_d (Z.of_nat i) +:+ "]")%string.

Definition validatePipelineAPIVersion (def : PipelineDefinition) : check :=
  require_version (pd_APIVersion def).

Definition validatePipelineKind (def : PipelineDefinition) : check :=
  require_kind (pd_Kind def) PipelineKind.

Definition validatePipelineMetadata (def : PipelineDefinition) : check :=
  require_name "metadata.name" "Add a kebab-case name, e.g. metadata.name: research-pipeline"
    "Shorten the pipeline name to 63 characters or fewer."
    "Use lowercase letters, numbers, and hyphens only." (md_Name (pd_Metadata def)).

(** ** The specification pass *)

Definition check_topology (def : PipelineDefinition) : check :=
  let topology := ps_Topology (pd_Spec def) in
  if decide (topology = "") then
    addError "spec.topology" "required field missing"
      ("Set spec.topology to one of: " +:+ Join validPipelineTopologies ", ")%string
  else if existsb (λ t, bool_decide (topology = t)) validPipelineTopologies then skip
  else
    addError "spec.topology" ("invalid topology " +:+ Quote topology)%string
      ("Must be one of: " +:+ Join validPipelineTopologies ", ")%string.

(** One node; the state is [seen]. *)
Definition check_node (i : nat) (a : PipelineAgent)
    (st : validationContext * gmap string nat) : validationContext * gmap string nat :=
  let '(ctx, seen) := st in
  let field := index_field "spec.agents" i in
  if decide (pa_ID a = "") then
    (addError (field +:+ ".id")%string "required field missing"
       "Every pipeline node needs an id (unique within the pipeline)." ctx, seen)
  else
    let ctx := if decide (pa_Ref a = "") then
                 addError (field +:+ ".ref")%string "required field missing"
                   "Every pipeline node needs a ref pointing at a loaded agent's metadata.name." ctx
               else ctx in
    match seen !! pa_ID a with
    | Some prev =>
        (addError (field +:+ ".id")%string
           ("duplicate node id " +:+ Quote (pa_ID a) +:+ " (first seen at " +:+
            index_field "spec.agents" prev +:+ ")")%string
           "Each node id must be unique within a pipeline." ctx, seen)
    | None => (ctx, <[pa_ID a := i]> seen)
    end.

Definition check_endpoint (seen : gmap string nat) (field endpoint id : string) : check :=
  if decide (id = "") then
    addError (field +:+ "." +:+ endpoint)%string "required field missing"
      ("Every edge needs a `" +:+ endpoint +:+ "` node id.")%string
  else match seen !! id with
       | Some _ => skip
       | None =>
           addError (field +:+ "." +:+ endpoint)%string ("references unknown node " +:+ Quote id)%string
             ("Point `" +:+ endpoint +:+ "` at a node id declared under spec.agents.")%string
       end.

Definition edgeKey : Type := string * string * string.

(** One edge; the state is [seenEdges]. *)
Definition check_edge (seen : gmap string nat) (i : nat) (e : PipelineEdge)
    (st : validationContext * gmap edgeKey nat) : validationContext * gmap edgeKey nat :=
  let '(ctx, seenEdges) := st in
  let field := index_field "spec.edges" i in
  let ctx :=
    (check_endpoint seen field "from" (pe_From e);;
     check_endpoint seen field "to" (pe_To e);;
     (if decide (pe_From e ≠ "" ∧ pe_From e = pe_To e) then
        addError field ("self-loop on node " +:+ Quote (pe_From e))%string
          "Pipeline edges must connect two distinct nodes."
      else skip);;
     (if decide (pe_WhenContains e ≠ "" ∧ TrimSpace (pe_WhenContains e) = "") then
        addError (field +:+ ".when_contains")%string "when_contains is whitespace-only"
          "Either remove when_contains entirely or set it to a meaningful substring."
      else skip)) ctx in
  if decide (pe_From e = "" ∨ pe_To e = "") then (ctx, seenEdges)
  else
    let key := (pe_From e, pe_To e, pe_WhenContains e) in
    match seenEdges !! key with
    | Some prev =>
        let arrow := ("duplicate edge " +:+ pe_From e +:+ " → " +:+ pe_To e)%string in
        let guard := if decide (pe_WhenContains e = "") then ""
                     else (" guarded by " +:+ Quote (pe_WhenContains e))%string in
        (addError field
           (arrow +:+ guard +:+ " (first seen at " +:+ index_field "spec.edges" prev +:+ ")")%string
           "Remove the duplicate edge. Two identical guards are redundant; different guards should use distinct when_contains substrings."
           ctx, seenEdges)
    | None => (ctx, <[key := i]> seenEdges)
    end.

Definition validatePipelineSpec (def : PipelineDefinition) : check := λ ctx,
  let spec := pd_Spec def in
  let ctx := check_topology def ctx in
  let ctx := if decide (ps_Agents spec = []) then
               addError "spec.agents" "pipeline declares no agents"
                 "Add at least one node under spec.agents with an id and a ref." ctx
             else ctx in
  let '(ctx, seen) := each_st check_node 0 (ps_Agents spec) (ctx, ∅) in
  if decide (ps_Edges spec = []) then ctx
  else
    let ctx := if decide (ps_Topology spec ≠ "" ∧ ps_Topology spec ≠ TopologyGraph) then
                 addError "spec.edges"
                   ("edges are only honored under topology " +:+ Quote TopologyGraph +:+
                    " (got " +:+ Quote (ps_Topology spec) +:+ ")")%string
                   "Either change spec.topology to graph or remove spec.edges." ctx
               else ctx in
    (each_st (check_edge seen) 0 (ps_Edges spec) (ctx, ∅)).1.

(** ** The graph pass *)

(** The maps of [validatePipelineGraph]. *)
Record graph_maps := mkGraphMaps {
  forward : gmap string (list string);
  inDegree : gmap string Z;
  indexByID : gmap string nat
}.

Fixpoint graph_nodes (i : nat) (agents : list PipelineAgent) (g : graph_maps) : graph_maps :=
  match agents with
  | [] => g
  | a :: agents =>
      graph_nodes (S i) agents
        (if decide (pa_ID a = "") then g
         else mkGraphMaps (<[pa_ID a := []]> (forward g)) (<[pa_ID a := 0%Z]> (inDegree g))
                (<[pa_ID a := i]> (indexByID g)))
  end.

Definition graph_edge (g : graph_maps) (e : PipelineEdge) : graph_maps :=
  match forward g !! pe_From e with
  | None => g
  | Some outs =>
      match forward g !! pe_To e with
      | None => g
      | Some _ =>
          if decide (pe_From e = pe_To e) then g
          else mkGraphMaps (<[pe_From e := outs ++ [pe_To e]]> (forward g))
                 (<[pe_To e := (default 0 (inDegree g !! pe_To e) + 1)%Z]> (inDegree g))
                 (indexByID g)
      end
  end.

Definition graph_of (agents : list PipelineAgent) (edges : list PipelineEdge) : graph_maps :=
  foldl graph_edge (graph_nodes 0 agents (mkGraphMaps ∅ ∅ ∅)) edges.

Record dfs_state := mkDfs {
  df_ctx : validationContext;
  df_color : gmap string colour;
  df_cycleFound : bool
}.

Definition color_of (st : dfs_state) (n : string) : colour := default white (df_color st !! n).
Definition paint (n : string) (c : colour) (st : dfs_state) : dfs_state :=
  mkDfs (df_ctx st) (<[n := c]> (df_color st)) (df_cycleFound st).

Definition cycle_at (m : string) (st : dfs_state) : dfs_state :=
  mkDfs (addError "spec.edges" ("graph contains a cycle involving node " +:+ Quote m)%string
           "Pipeline execution would revisit a node — remove the back edge or split the cycle with a guard."
           (df_ctx st)) (df_color st) true.

(** The loop of [dfs] over the successors; the boolean says it returned early. *)
Fixpoint dfs_edges (dfs : string → dfs_state → option dfs_state) (ms : list string)
    (st : dfs_state) : option (dfs_state * bool) :=
  match ms with
  | [] => Some (st, false)
  | m :: ms =>
      if df_cycleFound st then Some (st, true)
      else match color_of st m with
           | gray => Some (cycle_at m st, true)
           | white => st ← dfs m st; dfs_edges dfs ms st
           | black => dfs_edges dfs ms st
           end
  end.

(** [dfs]; [None] is out of fuel. *)
Fixpoint dfs (fuel : nat) (forward : gmap string (list string)) (n : string) (st : dfs_state)
  : option dfs_state :=
  match fuel with
  | O => None
  | S fuel =>
      if df_cycleFound st then Some st
      else
        '(st, returned) ← dfs_edges (dfs fuel forward) (default [] (forward !! n)) (paint n gray st);
        Some (if (returned : bool) then st else paint n black st)
  end.

Fixpoint dfs_roots (dfs : string → dfs_state → option dfs_state) (agents : list PipelineAgent)
    (st : dfs_state) : option dfs_state :=
  match agents with
  | [] => Some st
  | a :: agents =>
      if df_cycleFound st then Some st
      else if decide (pa_ID a = "") then dfs_roots dfs agents st
      else if decide (color_of st (pa_ID a) = white) then st ← dfs (pa_ID a) st; dfs_roots dfs agents st
      else dfs_roots dfs agents st
  end.

(** Each nested call paints one more node. *)
Definition detectPipelineCycle (def : PipelineDefinition) (forward : gmap string (list string))
    (ctx : validationContext) : option (validationContext * bool) :=
  st ← dfs_roots (dfs (S (size forward)) forward) (ps_Agents (pd_Spec def)) (mkDfs ctx ∅ false);
  Some (df_ctx st, df_cycleFound st).

(** The queue loop; [None] is out of fuel. *)
Fixpoint reach (fuel : nat) (forward : gmap string (list string)) (queue : list string)
    (reachable : gset string) : option (gset string) :=
  match queue with
  | [] => Some reachable
  | n :: queue =>
      match fuel with
      | O => None
      | S fuel =>
          if decide (n ∈ reachable) then reach fuel forward queue reachable
          else reach fuel forward (queue ++ default [] (forward !! n)) ({[n]} ∪ reachable)
      end
  end.

(** Every node is expanded once. *)
Definition reach_fuel (forward : gmap string (list string)) (sources : list string) : nat :=
  length sources + map_fold (λ _ ms n, length ms + n) 0 forward.

Definition report_unreachable (index : gmap string nat) (reachable : gset string)
    (_ : nat) (a : PipelineAgent) : check :=
  if decide (pa_ID a = "" ∨ pa_ID a ∈ reachable) then skip
  else addError (index_field "spec.agents" (default 0 (index !! pa_ID a)) +:+ ".id")%string
         ("node " +:+ Quote (pa_ID a) +:+ " is unreachable from any source")%string
         "Add an inbound edge from another node, or remove the unreachable node.".

Definition validatePipelineGraph (def : PipelineDefinition) (ctx : validationContext)
  : option validationContext :=
  let spec := pd_Spec def in
  if decide (ps_Topology spec ≠ TopologyGraph) then Some ctx
  else if decide (ps_Agents spec = []) then Some ctx
  else
    let g := graph_of (ps_Agents spec) (ps_Edges spec) in
    '(ctx, cycleFound) ← detectPipelineCycle def (forward g) ctx;
    if (cycleFound : bool) then Some ctx
    else
      let sources := (filter (λ kv, kv.2 = 0%Z) (range (inDegree g))).*1 in
      if decide (sources = []) then Some ctx
      else
        reachable ← reach (reach_fuel (forward g) sources) (forward g) sources ∅;
        Some (each (report_unreachable (indexByID g) reachable) 0 (ps_Agents spec) ctx).

Definition ValidatePipeline (def : PipelineDefinition) (filePath : string) (node : option Node)
  : option (option ValidationErrorList) :=
  let ctx := (validatePipelineAPIVersion def;; validatePipelineKind def;;
              validatePipelineMetadata def;; validatePipelineSpec def)
               (mkContext filePath node []) in
  ctx ← validatePipelineGraph def ctx;
  Some (report ctx).

(** ** What the specification pass accepts *)

Definition node_key (a : PipelineAgent) : option string :=
  if decide (pa_ID a = "") then None else Some (pa_ID a).

Definition edge_key (e : PipelineEdge) : option edgeKey :=
  if decide (pe_From e = "" ∨ pe_To e = "") then None
  else Some (pe_From e, pe_To e, pe_WhenContains e).

Lemma check_node_next i a ctx seen : (check_node i a (ctx, seen)).2 = track node_key i seen a.
Proof.
  unfold check_node, track, node_key. destruct (decide (pa_ID a = "")); [done|].
  by destruct (seen !! pa_ID a).
Qed.

Lemma check_node_accepts i a seen :
  Accepts (λ ctx, (check_node i a (ctx, seen)).1)
    (pa_ID a ≠ "" ∧ pa_Ref a ≠ "" ∧ seen !! pa_ID a = None).
Proof.
  intros ctx. unfold check_node. destruct (decide (pa_ID a = "")) as [Hid|Hid]; simpl.
  { rewrite (accepts ctx). naive_solver. }
  destruct (decide (pa_Ref a = "")) as [Hr|Hr], (seen !! pa_ID a); simpl;
    rewrite ?(accepts _), ?(accepts ctx); naive_solver.
Qed.

Lemma check_edge_next seen i e ctx seenEdges :
  (check_edge seen i e (ctx, seenEdges)).2 = track edge_key i seenEdges e.
Proof.
  unfold check_edge, track, edge_key. destruct (decide (pe_From e = "" ∨ pe_To e = "")); [done|].
  by destruct (seenEdges !! _).
Qed.

Definition edge_ok (seen : gmap string nat) (e : PipelineEdge) : Prop :=
  pe_From e ≠ "" ∧ is_Some (seen !! pe_From e) ∧ pe_To e ≠ "" ∧ is_Some (seen !! pe_To e) ∧
  pe_From e ≠ pe_To e ∧ (pe_WhenContains e ≠ "" → TrimSpace (pe_WhenContains e) ≠ "").

#[local] Instance check_endpoint_accepts seen field endpoint id :
  Accepts (check_endpoint seen field endpoint id) (id ≠ "" ∧ is_Some (seen !! id)).
Proof. eapply accepts_iff; [apply _|]. destruct (seen !! id); naive_solver. Qed.

Lemma check_edge_accepts seen i e seenEdges :
  Accepts (λ ctx, (check_edge seen i e (ctx, seenEdges)).1)
    (edge_ok seen e ∧ seenEdges !! (pe_From e, pe_To e, pe_WhenContains e) = None).
Proof.
  intros ctx. unfold check_edge.
  match goal with |- context [(?f ctx)] => pose proof (accepts (V := f) ctx) as Hf; set (ctx1 := f ctx) in * end.
  assert (clean ctx1 ↔ clean ctx ∧ edge_ok seen e) as H1.
  { rewrite Hf. unfold edge_ok. destruct (decide (pe_From e = pe_To e)); naive_solver. }
  clear Hf. clearbody ctx1.
  destruct (decide (pe_From e = "" ∨ pe_To e = "")) as [He|He]; simpl.
  { rewrite H1. unfold edge_ok. naive_solver. }
  destruct (seenEdges !! _); simpl; [rewrite (accepts ctx1)|]; rewrite H1; naive_solver.
Qed.

(** *** The whole specification pass *)

Definition spec_ok (spec : PipelineSpec) : Prop :=
  let ids := pa_ID <$> ps_Agents spec in
  ps_Topology spec ∈ validPipelineTopologies ∧ ps_Agents spec ≠ [] ∧
  (∀ a, a ∈ ps_Agents spec → pa_ID a ≠ "" ∧ pa_Ref a ≠ "") ∧ NoDup ids ∧
  (ps_Edges spec ≠ [] → ps_Topology spec = TopologyGraph) ∧
  (∀ e, e ∈ ps_Edges spec → pe_From e ∈ ids ∧ pe_To e ∈ ids ∧ pe_From e ≠ pe_To e ∧
     (pe_WhenContains e ≠ "" → TrimSpace (pe_WhenContains e) ≠ "")) ∧
  NoDup (ps_Edges spec).

Lemma check_topology_accepts def :
  Accepts (check_topology def) (ps_Topology (pd_Spec def) ∈ validPipelineTopologies).
Proof.
  eapply accepts_iff; [apply _|].
  assert (existsb (λ t, bool_decide (ps_Topology (pd_Spec def) = t)) validPipelineTopologies = true
    ↔ ps_Topology (pd_Spec def) ∈ validPipelineTopologies) as Hex.
  { rewrite existsb_exists. setoid_rewrite bool_decide_eq_true. setoid_rewrite <-list_elem_of_In.
    naive_solver. }
  destruct (existsb _ _); [|naive_solver]. split; [naive_solver|]. intros Hin. split; [|done].
  intros He. rewrite He in Hin. unfold validPipelineTopologies in Hin. set_solver.
Qed.

Lemma check_nodes_accepts agents :
  Accepts (λ ctx, (each_st check_node 0 agents (ctx, ∅)).1)
    ((∀ a, a ∈ agents → pa_ID a ≠ "" ∧ pa_Ref a ≠ "") ∧ NoDup (omap node_key agents)).
Proof.
  apply (accepts_unique node_key is_tracked (track node_key)); [apply untracked_empty|apply check_node_next|].
  intros i a seen. eapply accepts_iff; [apply check_node_accepts|]. unfold node_key, is_tracked.
  setoid_rewrite <-eq_None_not_Some. destruct (decide (pa_ID a = "")); naive_solver.
Qed.

Lemma check_edges_accepts seen edges :
  Accepts (λ ctx, (each_st (check_edge seen) 0 edges (ctx, ∅)).1)
    ((∀ e, e ∈ edges → edge_ok seen e) ∧ NoDup (omap edge_key edges)).
Proof.
  apply (accepts_unique edge_key is_tracked (track edge_key)); [apply untracked_empty|apply check_edge_next|].
  intros i e seenEdges. eapply accepts_iff; [apply check_edge_accepts|].
  unfold edge_key, edge_ok, is_tracked. setoid_rewrite <-eq_None_not_Some.
  destruct (decide (pe_From e = "" ∨ pe_To e = "")); naive_solver.
Qed.

Lemma node_keys (agents : list PipelineAgent) :
  (∀ a, a ∈ agents → pa_ID a ≠ "") → omap node_key agents = pa_ID <$> agents.
Proof. intros Ha. apply omap_keys. intros a Hin. apply decide_False. by apply Ha. Qed.

Lemma edge_keys (edges : list PipelineEdge) : (∀ e, e ∈ edges → pe_From e ≠ "" ∧ pe_To e ≠ "") →
  omap edge_key edges = (λ e, (pe_From e, pe_To e, pe_WhenContains e)) <$> edges.
Proof. intros He. apply omap_keys. intros e Hin. apply decide_False. destruct (He e Hin). tauto. Qed.

Lemma validatePipelineSpec_accepts def : Accepts (validatePipelineSpec def) (spec_ok (pd_Spec def)).
Proof.
  intros ctx. unfold validatePipelineSpec.
  set (ctx1 := check_topology def ctx). set (agents := ps_Agents (pd_Spec def)).
  set (edges := ps_Edges (pd_Spec def)).
  assert (clean ctx1 ↔ clean ctx ∧ ps_Topology (pd_Spec def) ∈ validPipelineTopologies) as H1
    by apply (check_topology_accepts def).
  clearbody ctx1. set (ctx2 := if decide (agents = []) then _ else ctx1).
  assert (clean ctx2 ↔ clean ctx1 ∧ agents ≠ []) as H2.
  { unfold ctx2. destruct (decide (agents = [])); [rewrite (accepts ctx1)|]; naive_solver. }
  clearbody ctx2. pose proof (check_nodes_accepts agents ctx2) as H3. cbn beta in H3.
  pose proof (each_st_next check_node (track node_key) 0 agents ctx2 ∅
    (λ i x ctx s, check_node_next i x ctx s)) as Hseen.
  destruct (each_st check_node 0 agents (ctx2, ∅)) as [ctx3 seen]. simpl in H3, Hseen.
  assert (∀ k, is_Some (seen !! k) ↔ k ∈ omap node_key agents) as Hdom.
  { intros k. rewrite Hseen. fold (is_tracked (foldl (λ st x, (S st.1, track node_key st.1 st.2 x)) (0, ∅) agents).2 k).
    rewrite (tracks_all node_key is_tracked (track node_key)). pose proof (untracked_empty k). tauto. }
  clear Hseen.
  assert (clean ctx3 ↔ clean ctx ∧ ps_Topology (pd_Spec def) ∈ validPipelineTopologies ∧
    agents ≠ [] ∧ (∀ a, a ∈ agents → pa_ID a ≠ "" ∧ pa_Ref a ≠ "") ∧ NoDup (pa_ID <$> agents)) as H4.
  { rewrite H3, H2, H1. split.
    - intros [[[Hc Ht] Ha] [Hok Hnd]]. rewrite node_keys in Hnd by (intros a Hin; by apply Hok). done.
    - intros (Hc & Ht & Ha & Hok & Hnd). rewrite node_keys by (intros a Hin; by apply Hok). done. }
  clear H1 H2 H3. unfold spec_ok. fold agents edges.
  destruct (decide (edges = [])) as [->|Hne].
  { rewrite H4. split; [|tauto]. intros (Hc & Ht & Ha & Hok & Hnd). do 6 (split; [done|]).
    split; [intros e He; by apply elem_of_nil in He|constructor]. }
  rewrite (check_edges_accepts seen edges _).
  match goal with |- context [clean ?c] => set (ctx4 := c) end.
  assert (clean ctx4 ↔ clean ctx3 ∧
    (ps_Topology (pd_Spec def) ≠ "" → ps_Topology (pd_Spec def) = TopologyGraph)) as H5.
  { unfold ctx4. destruct (decide _) as [Hd|Hd]; [rewrite (accepts ctx3); naive_solver|].
    split; [|tauto]. intros Hc. split; [done|]. intros Ht.
    destruct (decide (ps_Topology (pd_Spec def) = TopologyGraph)); tauto. }
  rewrite H5, H4. clearbody ctx4. clear H4 H5.
  assert (ps_Topology (pd_Spec def) ∈ validPipelineTopologies → ps_Topology (pd_Spec def) ≠ "") as Htop.
  { intros Hin He. rewrite He in Hin. unfold validPipelineTopologies in Hin. set_solver. }
  assert ((∀ a, a ∈ agents → pa_ID a ≠ "" ∧ pa_Ref a ≠ "") →
    (∀ e, e ∈ edges → edge_ok seen e) ↔ ∀ e, e ∈ edges → pe_From e ∈ pa_ID <$> agents ∧
      pe_To e ∈ pa_ID <$> agents ∧ pe_From e ≠ pe_To e ∧
      (pe_WhenContains e ≠ "" → TrimSpace (pe_WhenContains e) ≠ "")) as Hedges.
  { intros Hok. assert (∀ k, is_Some (seen !! k) ↔ k ∈ pa_ID <$> agents) as Hd.
    { intros k. rewrite Hdom, node_keys; [done|]. intros a Ha. by apply Hok. }
    assert (∀ k, k ∈ pa_ID <$> agents → k ≠ "") as Hkne.
    { intros k (a & -> & Ha)%list_elem_of_fmap. by apply Hok. }
    unfold edge_ok. setoid_rewrite Hd. split; intros H e He; specialize (H e He); naive_solver. }
  assert ((∀ a, a ∈ agents → pa_ID a ≠ "" ∧ pa_Ref a ≠ "") → (∀ e, e ∈ edges → edge_ok seen e) →
    NoDup (omap edge_key edges) ↔ NoDup edges) as Hkeys.
  { intros Hok He. rewrite edge_keys by (intros e Hin; destruct (He e Hin) as (? & _ & ? & _); done).
    split; [apply NoDup_fmap_1|]. apply NoDup_fmap_2. intros [] []. naive_solver. }
  split.
  - intros (((Hc & Ht & Ha & Hok & Hnd) & Hg) & He & Hk).
    pose proof (proj1 (Hedges Hok) He). pose proof (proj1 (Hkeys Hok He) Hk).
    pose proof (Hg (Htop Ht)). auto 10.
  - intros (Hc & Ht & Ha & Hok & Hnd & Hg & He & Hk). specialize (Hg Hne).
    pose proof (proj2 (Hedges Hok) He) as He'. pose proof (proj2 (Hkeys Hok He') Hk). auto 10.
Qed.
(** ** The maps of the graph pass *)

Section graph.
Context (agents : list PipelineAgent) (edges : list PipelineEdge).

Definition node (n : string) : Prop := n ≠ "" ∧ n ∈ pa_ID <$> agents.

Definition joins (a b : string) : Prop := precedes agents edges a b ∧ a ≠ "" ∧ b ≠ "".

Definition counted (e : PipelineEdge) : Prop :=
  pe_From e ≠ pe_To e ∧ node (pe_From e) ∧ node (pe_To e).
#[local] Instance counted_dec e : Decision (counted e).
Proof. unfold counted, node. apply _. Defined.

Lemma joins_counted a b : joins a b ↔ ∃ e, e ∈ edges ∧ counted e ∧ pe_From e = a ∧ pe_To e = b.
Proof.
  unfold joins, precedes, counted, node. setoid_rewrite known_spec. split.
  - intros ((e & He & <- & <- & Hne & Ha & Hb) & ? & ?). by exists e.
  - intros (e & He & (Hne & [? ?] & [? ?]) & <- & <-). split; [|done]. by exists e.
Qed.

Lemma graph_nodes_lookup g i n :
  let g' := graph_nodes i agents g in
  (forward g' !! n = if decide (node n) then Some [] else forward g !! n) ∧
  (inDegree g' !! n = if decide (node n) then Some 0%Z else inDegree g !! n).
Proof.
  unfold node. revert g i. induction agents as [|a l IH]; intros g i; cbv zeta.
  { simpl. by rewrite !decide_False by (intros [_ H]; by apply elem_of_nil in H). }
  cbn [graph_nodes]. destruct (IH (if decide (pa_ID a = "") then g else
    mkGraphMaps (<[pa_ID a:=[]]> (forward g)) (<[pa_ID a:=0%Z]> (inDegree g))
      (<[pa_ID a:=i]> (indexByID g))) (S i)) as [-> ->]. rewrite fmap_cons.
  destruct (decide (n ≠ "" ∧ n ∈ pa_ID <$> l)) as [[Hn Hl]|Hd].
  { by rewrite !decide_True by (split; [done|by right]). }
  destruct (decide (n ≠ "" ∧ n ∈ pa_ID a :: (pa_ID <$> l))) as [[Hn Ha]|Hd'].
  - apply elem_of_cons in Ha as [->|]; [|tauto]. rewrite decide_False by done. simpl.
    by rewrite !lookup_insert_eq.
  - destruct (decide (pa_ID a = "")) as [|Hne]; [done|]. simpl.
    rewrite !lookup_insert_ne; [done|..]; intros <-; apply Hd'; (split; [done|left]).
Qed.

Lemma graph_lookup n :
  let g := graph_of agents edges in
  (forward g !! n = if decide (node n)
     then Some (pe_To <$> filter (λ e, counted e ∧ pe_From e = n) edges) else None) ∧
  (inDegree g !! n = if decide (node n)
     then Some (Z.of_nat (length (filter (λ e, counted e ∧ pe_To e = n) edges))) else None).
Proof.
  cbv zeta. unfold graph_of. revert n. induction edges as [|e es IH] using rev_ind; intros n.
  { simpl. destruct (graph_nodes_lookup (mkGraphMaps ∅ ∅ ∅) 0 n) as [-> ->].
    by destruct (decide (node n)). }
  rewrite foldl_app. cbn [foldl]. rewrite !filter_app, !filter_cons, !filter_nil.
  set (g := foldl graph_edge _ es) in *.
  assert (counted e ∨ graph_edge g e = g ∧ ¬ counted e) as [He|[-> He]].
  { unfold graph_edge, counted. rewrite (proj1 (IH (pe_From e))), (proj1 (IH (pe_To e))).
    destruct (decide (node (pe_From e))); [|right; tauto].
    destruct (decide (node (pe_To e))); [|right; tauto].
    destruct (decide (pe_From e = pe_To e)); [right|left]; tauto. }
  2: { destruct (IH n) as [-> ->]. rewrite !(decide_False (P := counted e ∧ _)) by tauto.
       by rewrite !app_nil_r. }
  assert (graph_edge g e = mkGraphMaps
    (<[pe_From e := (pe_To <$> filter (λ e', counted e' ∧ pe_From e' = pe_From e) es) ++ [pe_To e]]> (forward g))
    (<[pe_To e := (Z.of_nat (length (filter (λ e', counted e' ∧ pe_To e' = pe_To e) es)) + 1)%Z]> (inDegree g))
    (indexByID g)) as ->.
  { destruct He as (Hne & Hf & Ht). unfold graph_edge.
    rewrite (proj1 (IH (pe_From e))), (proj1 (IH (pe_To e))), (proj2 (IH (pe_To e))).
    rewrite !(decide_True (P := node _)) by done. by rewrite decide_False. }
  cbn [forward inDegree]. split.
  - destruct (decide (pe_From e = n)) as [<-|Hne].
    + rewrite lookup_insert_eq, decide_True by apply He. rewrite decide_True by done.
      by rewrite fmap_app.
    + rewrite lookup_insert_ne, (decide_False (P := counted e ∧ _)) by tauto.
      rewrite app_nil_r. apply IH.
  - destruct (decide (pe_To e = n)) as [<-|Hne].
    + rewrite lookup_insert_eq, decide_True by apply He. rewrite decide_True by done.
      rewrite length_app. simpl. f_equal. lia.
    + rewrite lookup_insert_ne, (decide_False (P := counted e ∧ _)) by tauto.
      rewrite app_nil_r. apply IH.
Qed.

Definition fw : gmap string (list string) := forward (graph_of agents edges).

Lemma fw_succ n m : m ∈ default [] (fw !! n) ↔ joins n m.
Proof.
  unfold fw. destruct (graph_lookup n) as [-> _]. rewrite joins_counted.
  destruct (decide (node n)) as [Hn|Hn]; simpl.
  - rewrite list_elem_of_fmap. setoid_rewrite list_elem_of_filter. naive_solver.
  - rewrite elem_of_nil. split; [done|]. intros (e & _ & (_ & Hf & _) & <- & _). done.
Qed.

Lemma fw_node n : is_Some (fw !! n) ↔ node n.
Proof.
  unfold fw. destruct (graph_lookup n) as [-> _].
  destruct (decide (node n)); split; try done; by intros [].
Qed.

Lemma source_spec n : inDegree (graph_of agents edges) !! n = Some 0%Z ↔ node n ∧ ∀ a, ¬ joins a n.
Proof.
  destruct (graph_lookup n) as [_ ->]. setoid_rewrite joins_counted.
  destruct (decide (node n)) as [Hn|Hn]; [|naive_solver]. split.
  - intros [= Hz]. split; [done|]. intros a (e & He & Hc & _ & Ht).
    assert (e ∈ filter (λ e, counted e ∧ pe_To e = n) edges) as Hin
      by by apply list_elem_of_filter.
    destruct (filter _ edges); [by apply elem_of_nil in Hin|done].
  - intros [_ Hno]. destruct (filter _ edges) as [|e l] eqn:Hf; [done|].
    assert (e ∈ filter (λ e, counted e ∧ pe_To e = n) edges) as Hin by (rewrite Hf; left).
    apply list_elem_of_filter in Hin as [[Hc Ht] He]. destruct (Hno (pe_From e)). by exists e.
Qed.

Lemma node_source n : node n → inDegree (graph_of agents edges) !! n = Some 0%Z ∨ ∃ a, joins a n.
Proof.
  intros Hn. destruct (graph_lookup n) as [_ ->]. rewrite decide_True by done.
  destruct (filter _ edges) as [|e l] eqn:Hf; [by left|right].
  assert (e ∈ filter (λ e, counted e ∧ pe_To e = n) edges) as Hin by (rewrite Hf; left).
  apply list_elem_of_filter in Hin as [[Hc Ht] He]. exists (pe_From e).
  apply joins_counted. by exists e.
Qed.

Lemma joins_node a b : joins a b → node a ∧ node b.
Proof. rewrite joins_counted. intros (e & _ & (_ & ? & ?) & <- & <-). done. Qed.
End graph.
(** ** The depth-first search *)

Section search.
Context (fwd : gmap string (list string)).
Context (fwd_closed : ∀ n m, m ∈ default [] (fwd !! n) → is_Some (fwd !! m)).

Definition succ (n m : string) : Prop := m ∈ default [] (fwd !! n).

(** Every black node leads to no cycle. *)
Definition safe (st : dfs_state) : Prop := ∀ n, color_of st n = black → Acc (flip succ) n.

(** A search that found no cycle only painted white nodes black. *)
Definition advances (st st' : dfs_state) : Prop :=
  df_ctx st' = df_ctx st ∧ (∀ n, color_of st n = gray ↔ color_of st' n = gray) ∧
  ∀ n, color_of st n = black → color_of st' n = black.

Definition outcome (st st' : dfs_state) (done : Prop) : Prop :=
  if df_cycleFound st' then (∃ a, tc succ a a) ∧ ¬ clean (df_ctx st')
  else advances st st' ∧ safe st' ∧ done.

Definition whites (st : dfs_state) : nat :=
  size (filter (λ n, color_of st n = white) (dom fwd)).

Lemma color_paint n c st m : color_of (paint n c st) m = if decide (m = n) then c else color_of st m.
Proof.
  unfold color_of, paint. simpl. destruct (decide (m = n)) as [->|].
  - by rewrite lookup_insert_eq.
  - by rewrite lookup_insert_ne.
Qed.

Lemma whites_mono st st' : (∀ n, color_of st' n = white → color_of st n = white) → whites st' ≤ whites st.
Proof. intros H. unfold whites. apply subseteq_size. intros n. rewrite !elem_of_filter. intros [? ?]. auto. Qed.

Lemma whites_paint n st : is_Some (fwd !! n) → color_of st n = white →
  whites (paint n gray st) < whites st.
Proof.
  intros Hn Hw. unfold whites. apply subset_size. apply elem_of_dom in Hn. split.
  - intros m. rewrite !elem_of_filter, color_paint.
    destruct (decide (m = n)); [by intros [[=] _]|done].
  - intros Hsub. specialize (Hsub n). rewrite !elem_of_filter, color_paint, decide_True in Hsub by done.
    naive_solver.
Qed.

Lemma advances_refl st : advances st st.
Proof. by repeat split. Qed.

Lemma advances_trans st1 st2 st3 : advances st1 st2 → advances st2 st3 → advances st1 st3.
Proof.
  intros (Hc1 & Hg1 & Hb1) (Hc2 & Hg2 & Hb2). split; [congruence|]. split.
  - intros n. by rewrite Hg1, Hg2.
  - auto.
Qed.

Lemma advances_white st st' n : advances st st' → color_of st' n = white → color_of st n = white.
Proof.
  intros (_ & Hg & Hb) Hw. destruct (color_of st n) eqn:Hc; [done|..].
  - apply Hg in Hc. congruence.
  - apply Hb in Hc. congruence.
Qed.

(** What a search from a white node must do. *)
Definition searches (fuel : nat) (f : string → dfs_state → option dfs_state) : Prop :=
  ∀ n st, df_cycleFound st = false → color_of st n = white → is_Some (fwd !! n) → safe st →
    (∀ g, color_of st g = gray → rtc succ g n) → whites st ≤ fuel →
    ∃ st', f n st = Some st' ∧ outcome st st' (color_of st' n = black).

Lemma dfs_edges_outcome fuel f n ms st :
  searches fuel f → (∀ m, m ∈ ms → succ n m) →
  df_cycleFound st = false → color_of st n = gray → safe st →
  (∀ g, color_of st g = gray → rtc succ g n) → whites st ≤ fuel →
  ∃ st' returned, dfs_edges f ms st = Some (st', returned) ∧
    outcome st st' (returned = false ∧ ∀ m, m ∈ ms → color_of st' m = black).
Proof.
  intros Hf. revert st. induction ms as [|m ms IH]; intros st Hms Hcf Hn Hsafe Hgray Hw; simpl.
  { exists st, false. split; [done|]. unfold outcome. rewrite Hcf.
    split; [apply advances_refl|]. split; [done|]. split; [done|]. intros m Hm. by apply elem_of_nil in Hm. }
  rewrite Hcf. assert (succ n m) as Hnm by (apply Hms; left).
  destruct (color_of st m) eqn:Hm.
  - destruct (Hf m st Hcf Hm (fwd_closed _ _ Hnm) Hsafe) as (st1 & -> & Ho); [|done|].
    { intros g Hg. eapply rtc_r; [by apply Hgray|done]. }
    cbn [mbind option_bind]. unfold outcome in Ho. destruct (df_cycleFound st1) eqn:Hcf1.
    + destruct ms as [|m' ms]; simpl; [exists st1, false|rewrite Hcf1; exists st1, true];
        (split; [done|]); unfold outcome; by rewrite Hcf1.
    + destruct Ho as (Hadv & Hsafe1 & Hblack).
      destruct (IH st1) as (st' & ret & Hrun & Ho'); [|done|..].
      { intros m' Hm'. apply Hms. by right. }
      { by apply Hadv. }
      { done. }
      { intros g Hg. apply Hgray. by apply Hadv. }
      { etransitivity; [|exact Hw]. apply whites_mono. intros k. by apply advances_white. }
      exists st', ret. split; [done|]. unfold outcome in *.
      destruct (df_cycleFound st'); [done|]. destruct Ho' as (Hadv' & Hsafe' & Hret & Hall).
      split; [by eapply advances_trans|]. split; [done|]. split; [done|].
      intros k [->|Hk]%elem_of_cons; [by apply Hadv'|by apply Hall].
  - exists (cycle_at m st), true. split; [done|]. unfold outcome. simpl. split.
    + exists m. eapply tc_rtc_l; [by apply Hgray|by apply tc_once].
    + rewrite (accepts (df_ctx st)). tauto.
  - destruct (IH st) as (st' & ret & Hrun & Ho'); try done.
    { intros m' Hm'. apply Hms. by right. }
    exists st', ret. split; [done|]. unfold outcome in *.
    destruct (df_cycleFound st'); [done|]. destruct Ho' as (Hadv' & Hsafe' & Hret & Hall).
    do 3 (split; [done|]). intros k [->|Hk]%elem_of_cons; [by apply Hadv'|by apply Hall].
Qed.

Lemma dfs_searches fuel : searches fuel (dfs fuel fwd).
Proof.
  induction fuel as [|fuel IH]; intros n st Hcf Hn Hin Hsafe Hgray Hw.
  { exfalso. pose proof (whites_paint n st Hin Hn). lia. }
  cbn [dfs]. rewrite Hcf. set (st0 := paint n gray st).
  pose proof (whites_paint n st Hin Hn) as Hlt. fold st0 in Hlt.
  assert (∀ m, color_of st0 m = if decide (m = n) then gray else color_of st m) as Hc0
    by (intros; apply color_paint).
  destruct (dfs_edges_outcome fuel (dfs fuel fwd) n (default [] (fwd !! n)) st0 IH) as
    (st1 & ret & Hrun & Ho); [done|done|..].
  { by rewrite Hc0, decide_True. }
  { intros m. rewrite Hc0. destruct (decide (m = n)); [done|apply Hsafe]. }
  { intros g. rewrite Hc0. destruct (decide (g = n)) as [->|]; [done|apply Hgray]. }
  { lia. }
  rewrite Hrun. cbn [mbind option_bind].
  eexists. split; [reflexivity|]. unfold outcome in *.
  destruct (df_cycleFound st1) eqn:Hcf1.
  { destruct ret; simpl; by rewrite Hcf1. }
  destruct Ho as (Hadv & Hsafe1 & -> & Hall). cbn [paint df_cycleFound]. rewrite Hcf1.
  destruct Hadv as (Hctx & Hg & Hb).
  assert (Acc (flip succ) n) as Hacc.
  { constructor. intros m Hm. by apply Hsafe1, Hall. }
  split; [split; [done|split]|split].
  - intros m. rewrite color_paint. destruct (decide (m = n)) as [->|Hm]; [by rewrite Hn|].
    by rewrite <-Hg, Hc0, decide_False.
  - intros m Hm. rewrite color_paint. destruct (decide (m = n)); [done|]. apply Hb.
    rewrite Hc0. by destruct (decide (m = n)).
  - intros m. rewrite color_paint. destruct (decide (m = n)) as [->|]; [done|apply Hsafe1].
  - by rewrite color_paint, decide_True.
Qed.

Lemma dfs_roots_outcome fuel agents st :
  df_cycleFound st = false → (∀ a, a ∈ agents → pa_ID a ≠ "" → is_Some (fwd !! pa_ID a)) →
  safe st → (∀ n, color_of st n ≠ gray) → whites st ≤ fuel →
  ∃ st', dfs_roots (dfs fuel fwd) agents st = Some st' ∧
    outcome st st' (∀ a, a ∈ agents → pa_ID a ≠ "" → color_of st' (pa_ID a) = black).
Proof.
  revert st. induction agents as [|a agents IH]; intros st Hcf Hin Hsafe Hgray Hw; simpl; rewrite ?Hcf.
  { exists st. split; [done|]. unfold outcome. rewrite Hcf. split; [apply advances_refl|].
    split; [done|]. intros a Ha. by apply elem_of_nil in Ha. }
  assert (∀ a', a' ∈ agents → pa_ID a' ≠ "" → is_Some (fwd !! pa_ID a')) as Hin'
    by (intros a' Ha'; apply Hin; by right).
  assert ((pa_ID a ≠ "" → color_of st (pa_ID a) = black) →
    ∃ st', dfs_roots (dfs fuel fwd) agents st = Some st' ∧
    outcome st st' (∀ a', a' ∈ a :: agents → pa_ID a' ≠ "" → color_of st' (pa_ID a') = black)) as Hskip.
  { intros Hblack. destruct (IH st) as (st' & Hrun & Ho); [done..|]. exists st'. split; [done|].
    unfold outcome in *. destruct (df_cycleFound st'); [done|]. destruct Ho as (Hadv & Hs & Hall).
    do 2 (split; [done|]). intros a' [->|Ha']%elem_of_cons Hne; [by apply Hadv, Hblack|by apply Hall]. }
  destruct (decide (pa_ID a = "")) as [|Hne]; [by apply Hskip|].
  destruct (decide (color_of st (pa_ID a) = white)) as [Hwh|Hwh].
  2: { apply Hskip. intros _. destruct (color_of st (pa_ID a)) eqn:Hc; [done| |done].
       by apply Hgray in Hc. }
  destruct (dfs_searches fuel (pa_ID a) st Hcf Hwh) as (st1 & -> & Ho); [|done| |done|].
  { apply Hin; [left|done]. }
  { intros g Hg. by apply Hgray in Hg. }
  cbn [mbind option_bind]. unfold outcome in Ho. destruct (df_cycleFound st1) eqn:Hcf1.
  { exists st1. split; [|unfold outcome; by rewrite Hcf1]. destruct agents; simpl; by rewrite ?Hcf1. }
  destruct Ho as (Hadv & Hsafe1 & Hblack).
  destruct (IH st1) as (st' & Hrun & Ho'); [done|done|done|..].
  { intros n Hg. apply (Hgray n). by apply Hadv. }
  { etransitivity; [|exact Hw]. apply whites_mono. intros k. by apply advances_white. }
  exists st'. split; [done|]. unfold outcome in *.
  destruct (df_cycleFound st'); [done|]. destruct Ho' as (Hadv' & Hs & Hall).
  split; [by eapply advances_trans|]. split; [done|].
  intros a' [->|Ha']%elem_of_cons Hn; [by apply Hadv'|by apply Hall].
Qed.

Lemma tc_flip x y : tc succ x y → tc (flip succ) y x.
Proof. induction 1 as [x y H|x y z H _ IH]; [by apply tc_once|]. by eapply tc_r. Qed.

(** The search finds a cycle exactly when there is one, and reports only then. *)
Lemma detect_cycle def ctx :
  (∀ n, is_Some (fwd !! n) ↔ n ≠ "" ∧ n ∈ pa_ID <$> ps_Agents (pd_Spec def)) →
  ∃ ctx' found, detectPipelineCycle def fwd ctx = Some (ctx', found) ∧
    (found = true → (∃ a, tc succ a a) ∧ ¬ clean ctx') ∧
    (found = false → ctx' = ctx ∧ ∀ a, ¬ tc succ a a).
Proof.
  intros Hnode. unfold detectPipelineCycle.
  set (st0 := mkDfs ctx ∅ false).
  assert (∀ n, color_of st0 n = white) as Hc0 by done.
  destruct (dfs_roots_outcome (S (size fwd)) (ps_Agents (pd_Spec def)) st0) as (st & -> & Ho);
    [done|..].
  { intros a Ha Hne. apply Hnode. split; [done|]. by apply list_elem_of_fmap_2. }
  { intros n. by rewrite Hc0. }
  { intros n. by rewrite Hc0. }
  { unfold whites. rewrite <-(size_dom (D := gset string) fwd). apply Nat.le_le_succ_r, subseteq_size.
    intros n. rewrite elem_of_filter. tauto. }
  cbn [mbind option_bind]. exists (df_ctx st), (df_cycleFound st). split; [done|].
  unfold outcome in Ho. destruct (df_cycleFound st); [naive_solver|]. split; [done|]. intros _.
  destruct Ho as ((Hctx & _) & Hsafe & Hall). split; [done|]. intros a Hcyc.
  assert (is_Some (fwd !! a)) as [Hne (ag & -> & Hag)%list_elem_of_fmap]%Hnode.
  { assert (∃ b, succ a b) as [b Hb] by (inversion Hcyc; eauto).
    unfold succ in Hb. destruct (fwd !! a); [done|]. by apply elem_of_nil in Hb. }
  apply (Acc_no_cycle (flip succ) (pa_ID ag)); [by apply Hsafe, Hall|by apply tc_flip].
Qed.

(** ** The reachability search *)

Definition unexpanded (seen : gset string) : gmap string (list string) :=
  filter (λ kv, kv.1 ∉ seen) fwd.

Definition cost (m : gmap string (list string)) : nat := map_fold (λ _ ms n, length ms + n) 0 m.

Lemma cost_expand n seen : n ∉ seen →
  cost (unexpanded seen) = length (default [] (fwd !! n)) + cost (unexpanded ({[n]} ∪ seen)).
Proof.
  intros Hn. unfold cost, unexpanded. destruct (fwd !! n) as [ms|] eqn:Hms; simpl.
  - rewrite <-(map_fold_insert_L (λ (_ : string) (ms : list string) n, length ms + n) 0 n ms).
    + f_equal. apply map_eq. intros m. apply option_eq. intros ms'.
      rewrite lookup_insert_Some, !map_lookup_filter_Some. simpl.
      destruct (decide (n = m)) as [<-|Hne]; [|set_solver]. rewrite Hms. set_solver.
    + intros. lia.
    + apply map_lookup_filter_None. right. intros x _. simpl. set_solver.
  - f_equal. apply map_eq. intros m. apply option_eq. intros ms'.
    rewrite !map_lookup_filter_Some. simpl.
    destruct (decide (n = m)) as [<-|Hne]; [by rewrite Hms; split; intros [? _]|set_solver].
Qed.

Lemma reach_spec fuel queue seen :
  length queue + cost (unexpanded seen) ≤ fuel →
  (∀ n m, n ∈ seen → succ n m → m ∈ seen ∨ m ∈ queue) →
  ∃ r, reach fuel fwd queue seen = Some r ∧ seen ⊆ r ∧ (∀ n, n ∈ queue → n ∈ r) ∧
    ∀ n m, n ∈ r → succ n m → m ∈ r.
Proof.
  revert queue seen. induction fuel as [|fuel IH]; intros [|n queue] seen Hf Hc.
  1,3: exists seen; split; [done|]; split; [done|]; split;
    [intros n Hn; by apply elem_of_nil in Hn|];
    intros n m Hn Hm; destruct (Hc n m Hn Hm) as [|Hnil]; [done|by apply elem_of_nil in Hnil].
  { simpl in Hf. lia. }
  cbn [reach]. destruct (decide (n ∈ seen)) as [Hn|Hn].
  - destruct (IH queue seen) as (r & -> & Hsub & Hq & Hcl); [simpl in Hf; lia| |].
    { intros a b Ha Hb. destruct (Hc a b Ha Hb) as [|[->|]%elem_of_cons]; auto. }
    exists r. do 2 (split; [done|]). split; [|done]. intros a [->|]%elem_of_cons; auto.
  - destruct (IH (queue ++ default [] (fwd !! n)) ({[n]} ∪ seen)) as (r & -> & Hsub & Hq & Hcl).
    { rewrite (cost_expand n seen Hn) in Hf. rewrite length_app. simpl in Hf. lia. }
    { intros a b [->%elem_of_singleton|Ha]%elem_of_union Hb.
      - right. apply elem_of_app. by right.
      - destruct (Hc a b Ha Hb) as [|[->|]%elem_of_cons]; set_solver. }
    exists r. split; [done|]. split; [set_solver|]. split; [|done].
    intros a [->|Ha]%elem_of_cons; [set_solver|]. apply Hq, elem_of_app. by left.
Qed.

Lemma reach_total sources : ∃ r, reach (reach_fuel fwd sources) fwd sources ∅ = Some r ∧
  (∀ n, n ∈ sources → n ∈ r) ∧ ∀ n m, n ∈ r → succ n m → m ∈ r.
Proof.
  destruct (reach_spec (reach_fuel fwd sources) sources ∅) as (r & Hr & _ & Hs & Hc).
  - unfold reach_fuel. apply Nat.add_le_mono_l. apply Nat.eq_le_incl. unfold cost, unexpanded.
    f_equal. apply map_filter_id. set_solver.
  - set_solver.
  - by exists r.
Qed.
End search.

(** ** The graph pass is right *)

(** The graph pass always ends; it reports a cycle exactly when there is one, and
    nothing else: on a graph without cycles every node is reachable. *)
Lemma graph_pass def ctx :
  let agents := ps_Agents (pd_Spec def) in
  let edges := ps_Edges (pd_Spec def) in
  ∃ ctx', validatePipelineGraph def ctx = Some ctx' ∧
    (if decide (ps_Topology (pd_Spec def) = TopologyGraph)
     then (∃ a, tc (joins agents edges) a a) ∧ ¬ clean ctx' ∨
          (∀ a, ¬ tc (joins agents edges) a a) ∧ ctx' = ctx
     else ctx' = ctx).
Proof.
  cbv zeta. unfold validatePipelineGraph. set (agents := ps_Agents (pd_Spec def)).
  set (edges := ps_Edges (pd_Spec def)).
  destruct (decide (ps_Topology (pd_Spec def) = TopologyGraph)) as [Ht|Ht].
  2: { rewrite decide_True by done. by exists ctx. }
  rewrite decide_False by tauto.
  destruct (decide (agents = [])) as [Hnil|_].
  { exists ctx. split; [done|]. right. split; [|done]. intros a Hcyc.
    assert (∃ b, joins agents edges a b) as [b [[_ Ha] _]%joins_node] by (inversion Hcyc; eauto).
    rewrite Hnil in Ha. by apply elem_of_nil in Ha. }
  fold (fw agents edges). set (fwd := fw agents edges).
  assert (∀ n m, succ fwd n m ↔ joins agents edges n m) as Hsucc by (intros; apply fw_succ).
  assert (∀ n, is_Some (fwd !! n) ↔ node agents n) as Hnode by (intros; apply fw_node).
  assert (∀ n m, m ∈ default [] (fwd !! n) → is_Some (fwd !! m)) as Hclosed.
  { intros n m Hm. apply Hnode. by eapply joins_node, Hsucc. }
  assert (∀ a b, tc (succ fwd) a b ↔ tc (joins agents edges) a b) as Htc.
  { intros a b. split; (induction 1 as [x y H|x y z H _ IH]; [by apply tc_once, Hsucc|]);
      by (eapply tc_l; [by apply Hsucc|]). }
  destruct (detect_cycle fwd Hclosed def ctx Hnode) as (ctx' & found & -> & Hyes & Hno).
  cbn [mbind option_bind]. destruct found.
  { exists ctx'. split; [done|]. left. destruct (Hyes eq_refl) as [[a Ha] ?].
    split; [exists a; by apply Htc|done]. }
  destruct (Hno eq_refl) as [-> Hacyclic]. clear Hyes Hno.
  assert (∀ a, ¬ tc (joins agents edges) a a) as Hac by (intros a Ha; by apply (Hacyclic a), Htc).
  set (sources := (filter _ (range _)).*1).
  destruct (decide (sources = [])) as [_|_]; [by exists ctx; split; [|right]|].
  destruct (reach_total fwd Hclosed sources) as (r & -> & Hsrc & Hcl). cbn [mbind option_bind].
  assert (∀ n, node agents n → n ∈ r) as Hall.
  { intros n. assert (Acc (joins agents edges) n) as Hacc.
    { apply (no_cycle_acc_of _ (pe_From <$> edges)); [|done].
      intros a b (e & He & _ & <- & _)%joins_counted. by apply list_elem_of_fmap_2. }
    induction Hacc as [n _ IH]. intros Hn.
    destruct (node_source agents edges n Hn) as [Hz|[a Ha]].
    - apply Hsrc. unfold sources. apply list_elem_of_fmap. exists (n, 0%Z). split; [done|].
      apply list_elem_of_filter. split; [done|]. by apply elem_of_range.
    - apply (Hcl a); [|by apply Hsucc]. apply IH; [done|]. apply (joins_node agents edges a n Ha). }
  eexists. split; [reflexivity|]. right. split; [done|]. apply each_skip. intros i a Ha.
  unfold report_unreachable. rewrite decide_True; [done|].
  destruct (decide (pa_ID a = "")); [by left|right]. apply Hall. split; [done|].
  by apply list_elem_of_fmap_2.
Qed.
(** ** The executors on a sound specification *)

Definition pipeline_ok (def : PipelineDefinition) : Prop :=
  pd_APIVersion def = AgentAPIVersion ∧ pd_Kind def = PipelineKind ∧
  kebab_name (md_Name (pd_Metadata def)) ∧ spec_ok (pd_Spec def) ∧
  (ps_Topology (pd_Spec def) = TopologyGraph →
   ∀ a, ¬ tc (precedes (ps_Agents (pd_Spec def)) (ps_Edges (pd_Spec def))) a a).

Lemma joins_precedes spec : spec_ok spec → ∀ a b,
  joins (ps_Agents spec) (ps_Edges spec) a b ↔ precedes (ps_Agents spec) (ps_Edges spec) a b.
Proof.
  intros (_ & _ & Hok & _) a b. unfold joins. split; [tauto|]. intros Hp. split; [done|].
  assert (∀ k, known (ps_Agents spec) k = true → k ≠ "") as Hne.
  { intros k (ag & -> & Hag)%known_spec%list_elem_of_fmap. by apply Hok. }
  destruct Hp as (e & _ & _ & _ & _ & Ha & Hb). auto.
Qed.

Lemma tc_iff {A} (R S : relation A) : (∀ a b, R a b ↔ S a b) → ∀ a b, tc R a b ↔ tc S a b.
Proof.
  intros HRS a b. split; (induction 1 as [x y H|x y z H _ IH]; [by apply tc_once, HRS|]);
    by (eapply tc_l; [by apply HRS|]).
Qed.

Section runs.
Context {W E : Type} {engine : NodeEngine W E}.
Context (name sessionID : string) (agents : list PipelineAgent) (edges : list PipelineEdge).
Context (refs : ∀ a, a ∈ agents → pa_Ref a ≠ "").
Context (targets : ∀ e, e ∈ edges → pe_To e ∈ pa_ID <$> agents).

(** An error the engine answered to some node. *)
Definition node_error (err : @PipelineError E) : Prop := ∃ e, err = ErrNode e.

Lemma invokeNode_error a input (w : W) err : a ∈ agents →
  (invokeNode name a input sessionID w).2.2 = Some err → node_error err.
Proof.
  intros Ha. unfold invokeNode. rewrite decide_False by by apply refs.
  destruct (process _ _) as [w' [[e|resp] lat]]; simpl; [|done]. intros [= <-]. by exists e.
Qed.

Lemma sequential_error ags input w err : (∀ a, a ∈ ags → a ∈ agents) →
  (runSequential name sessionID ags input w).2.2 = Some err → node_error err.
Proof.
  revert input w. induction ags as [|a ags IH]; intros input w Hin; [done|]. simpl.
  pose proof (invokeNode_error a input w) as Hinv.
  destruct (invokeNode name a input sessionID w) as [w1 [nr [e|]]]; simpl in *.
  - intros [= <-]. apply Hinv; [|done]. apply Hin. left.
  - specialize (IH (content_of nr) w1). destruct (runSequential _ _ _ _ _) as [w2 [nrs err']].
    apply IH. intros b Hb. apply Hin. by right.
Qed.

Lemma parallel_error order input w err :
  (runParallel order name sessionID agents input w).2.2 = Some err →
  ∃ errs, err = ErrJoined errs ∧ Forall node_error errs.
Proof.
  unfold runParallel.
  set (st0 := (w, (replicate (length agents) None, replicate (length agents) None))).
  assert (Forall (λ oe, ∀ e, oe = Some e → node_error e)
    (foldl (go_invoke name sessionID agents input) st0 order).2.2) as Hall.
  { assert (Forall (λ oe, ∀ e, oe = Some e → node_error e) st0.2.2) as H0
      by (apply Forall_replicate; done).
    clearbody st0. revert st0 H0. induction order as [|i order IH]; intros st0 H0; [done|]. simpl.
    apply IH. unfold go_invoke. destruct (agents !! i) as [a|] eqn:Ha; [|done].
    destruct st0 as [w0 [results errs]]. pose proof (invokeNode_error a input w0) as Hinv.
    destruct (invokeNode name a input sessionID w0) as [w1 [nr oe]]. simpl in *.
    apply Forall_insert; [done|]. intros e ->. apply Hinv; [|done]. by eapply list_elem_of_lookup_2. }
  destruct (foldl _ st0 order) as [w' [results errs]]. simpl in *. unfold join_errors.
  destruct (omap id errs) as [|e es] eqn:He; [done|]. intros [= <-]. exists (e :: es).
  split; [done|]. rewrite <-He. clear -Hall. induction errs as [|[e|] errs IH]; csimpl; [done|..];
    apply Forall_cons in Hall as [Hx Hall]; [constructor; auto|auto].
Qed.

(** A walk from a declared node only fails on a node. *)
Lemma walk_error fuel id input st st' err : id ∈ pa_ID <$> agents →
  walk fuel name sessionID (nodesByID agents) (outgoing_of edges) id input st = Some (st', Some err) →
  node_error err.
Proof.
  revert id input st st'. induction fuel as [|fuel IH]; intros id input st st' Hid; [done|]. cbn [walk].
  destruct (decide (id ∈ wk_visited st)); [done|].
  destruct (nodesByID agents !! id) as [a|] eqn:Ha.
  2: { apply known_spec, nodes_known in Hid as [? ?]. congruence. }
  apply nodes_id in Ha as [_ Ha]. pose proof (invokeNode_error a input (wk_world st)) as Hinv.
  destruct (invokeNode name a input sessionID (wk_world st)) as [w' [nr [e|]]]; simpl in Hinv.
  { intros [= _ <-]. by apply Hinv. }
  rewrite outgoing_lookup. set (st1 := mkWalk _ _ _). clearbody st1. clear Hinv.
  assert (∀ e, e ∈ filter (λ e, pe_From e = id) edges → pe_To e ∈ pa_ID <$> agents) as Hes.
  { intros e [_ He]%list_elem_of_filter. by apply targets. }
  revert st1. induction (filter _ edges) as [|e es IHes]; intros st1; [done|]. cbn [walk_edges].
  assert (∀ e, e ∈ es → pe_To e ∈ pa_ID <$> agents) as Hes' by (intros e' He'; apply Hes; by right).
  destruct (negb _ && _); [by apply IHes|].
  destruct (walk fuel _ _ _ _ (pe_To e) _ st1) as [[st2 [e2|]]|] eqn:Hw; [|by apply IHes|done].
  intros [= _ <-]. eapply IH; [|exact Hw]. apply Hes. left.
Qed.

Lemma walk_roots_error fuel ags indegree input st st' err : (∀ a, a ∈ ags → a ∈ agents) →
  walk_roots (walk fuel name sessionID (nodesByID agents) (outgoing_of edges)) ags indegree input st
    = Some (st', Some err) → node_error err.
Proof.
  revert st. induction ags as [|a ags IH]; intros st Hin; [done|]. cbn [walk_roots].
  assert (∀ b, b ∈ ags → b ∈ agents) as Hin' by (intros b Hb; apply Hin; by right).
  destruct (decide _); [|by apply IH].
  destruct (walk _ _ _ _ _ (pa_ID a) input st) as [[st1 [e1|]]|] eqn:Hw; [|by apply IH|done].
  intros [= _ <-]. eapply walk_error; [|exact Hw]. apply list_elem_of_fmap_2, Hin. left.
Qed.
End runs.
(** ** Properties *)

Lemma graph_pass_accepts def ctx : spec_ok (pd_Spec def) →
  ∃ ctx', validatePipelineGraph def ctx = Some ctx' ∧
    (clean ctx' ↔ clean ctx ∧ (ps_Topology (pd_Spec def) = TopologyGraph →
       ∀ a, ¬ tc (precedes (ps_Agents (pd_Spec def)) (ps_Edges (pd_Spec def))) a a)).
Proof.
  intros Hspec. destruct (graph_pass def ctx) as (ctx' & -> & Hg). exists ctx'. split; [done|].
  assert (∀ a b, tc (joins (ps_Agents (pd_Spec def)) (ps_Edges (pd_Spec def))) a b ↔
    tc (precedes (ps_Agents (pd_Spec def)) (ps_Edges (pd_Spec def))) a b) as Htc.
  { apply tc_iff. intros a b. by apply joins_precedes. }
  destruct (decide (ps_Topology (pd_Spec def) = TopologyGraph)) as [Ht|Ht]; [|naive_solver].
  destruct Hg as [[[a Ha] Hn]|[Hac ->]].
  - split; [done|]. intros [_ Hno]. destruct (Hno Ht a). by apply Htc.
  - split; [|tauto]. intros Hc. split; [done|]. intros _ a Ha. by apply (Hac a), Htc.
Qed.

Lemma ValidatePipeline_accepts def file nd :
  ∃ ctx, ValidatePipeline def file nd = Some (report ctx) ∧ (report ctx = None ↔ pipeline_ok def).
Proof.
  unfold ValidatePipeline.
  set (head := andThen (validatePipelineAPIVersion def) _).
  assert (Accepts head (pd_APIVersion def = AgentAPIVersion ∧ pd_Kind def = PipelineKind ∧
    kebab_name (md_Name (pd_Metadata def)) ∧ spec_ok (pd_Spec def))) as Hhead.
  { apply accepts_andThen; [apply accepts_version|].
    apply accepts_andThen; [by apply accepts_kind|].
    apply accepts_andThen; [apply accepts_name|apply validatePipelineSpec_accepts]. }
  specialize (Hhead (mkContext file nd [])). clearbody head.
  set (ctx := head (mkContext file nd [])) in *. clearbody ctx.
  assert (∃ ctx', validatePipelineGraph def ctx = Some ctx' ∧ (clean ctx' ↔ pipeline_ok def)) as
    (ctx' & -> & Hok).
  { unfold pipeline_ok. destruct (decide (clean ctx)) as [Hc|Hc].
    - apply Hhead in Hc as Hall. destruct Hall as (_ & Hv & Hk & Hn & Hspec).
      destruct (graph_pass_accepts def ctx Hspec) as (ctx' & Hrun & Hiff). exists ctx'.
      split; [done|]. rewrite Hiff. tauto.
    - destruct (graph_pass def ctx) as (ctx' & Hrun & Hg). exists ctx'. split; [done|].
      assert (¬ clean ctx') as Hn.
      { destruct (decide _); [|by subst]. destruct Hg as [[_ ?]|[_ ->]]; done. }
      split; [done|]. intros (Hv & Hk & Hm & Hspec & _). exfalso. apply Hc, Hhead. by split. }
  cbn [mbind option_bind]. exists ctx'. split; [done|].
  rewrite <-Hok. unfold report, clean. by destruct (decide (vc_errors ctx' = [])).
Qed.

(** the pipeline validator always answers; it answers no errors exactly on the
    pipelines that are well formed: the version, the kind, a kebab-case name, a
    known topology, nodes with pairwise different ids and a reference each, edges
    only in a graph, between two different declared nodes, without a blank guard
    and without repetition, and no cycle. Otherwise it answers at least one error. *)
Theorem ValidatePipeline_decides def file nd :
  ∃ res, ValidatePipeline def file nd = Some res ∧ (res = None ↔ pipeline_ok def) ∧
    ∀ l, res = Some l → HasErrors l = true.
Proof.
  destruct (ValidatePipeline_accepts def file nd) as (ctx & Hrun & Hok). exists (report ctx).
  split; [done|]. split; [done|]. intros l Hl. by apply report_errors in Hl as [_ ?].
Qed.

(** the two cycle checks agree. On a graph whose specification is sound, the
    validator's depth-first search adds an error exactly when the executor's
    peeling of nodes leaves some over. *)
Theorem cycle_checks_agree def file nd :
  spec_ok (pd_Spec def) → ps_Topology (pd_Spec def) = TopologyGraph →
  let agents := ps_Agents (pd_Spec def) in
  let edges := ps_Edges (pd_Spec def) in
  ∃ ctx' ids, validatePipelineGraph def (mkContext file nd []) = Some ctx' ∧
    cyclicNodes agents (outgoing_of edges) (indegree_of agents edges) = Some ids ∧
    (report ctx' = None ↔ ids = []).
Proof.
  cbv zeta. intros Hspec Ht.
  destruct (graph_pass_accepts def (mkContext file nd []) Hspec) as (ctx' & Hrun & Hiff).
  destruct (cyclicNodes_spec (ps_Agents (pd_Spec def)) (ps_Edges (pd_Spec def)))
    as (ids & Hids & _ & _ & Hin).
  exists ctx', ids. do 2 (split; [done|]).
  transitivity (clean ctx'); [unfold report, clean; by destruct (decide (vc_errors ctx' = []))|].
  rewrite Hiff. split.
  - intros [_ Hno]. specialize (Hno Ht). destruct ids as [|id ids]; [done|].
    destruct (proj1 (Hin id) ltac:(left)) as [_ Hacc]. destruct Hacc. by apply no_cycle_acc.
  - intros ->. split; [done|]. intros _ a Hcyc. assert (a ∈ []) as Hnil.
    { apply Hin. split; [by eapply tc_known|]. intros Hacc. by apply Acc_no_cycle in Hacc. }
    by apply elem_of_nil in Hnil.
Qed.

(** C36: a pipeline that passed validation always runs to a result, in whatever
    order its nodes are scheduled, and the only errors it can end with are those
    the engine answered to one of its nodes. *)
Theorem validated_pipeline_runs {W E : Type} {engine : NodeEngine W E} def file nd :
  ValidatePipeline def file nd = Some None →
  ∀ order elapsed msg sessionID (w : W),
  ∃ w' res err, RunContext order elapsed (Some def) msg sessionID w = Some (w', (Some res, err)) ∧
    (∀ e, err = Some e → node_error e ∨ ∃ errs, e = ErrJoined errs ∧ Forall node_error errs).
Proof.
  intros Hval order elapsed msg sessionID w.
  destruct (ValidatePipeline_accepts def file nd) as (ctx & Hres & Hok).
  assert (report ctx = None) as Hnil by congruence. apply Hok in Hnil as (_ & _ & _ & Hspec & Hac).
  destruct Hspec as (Htop & Hne & Hnodes & _ & _ & Hedges & _). unfold RunContext.
  assert (∀ a, a ∈ ps_Agents (pd_Spec def) → pa_Ref a ≠ "") as Hrefs by (intros a Ha; by apply Hnodes).
  assert (∀ e, e ∈ ps_Edges (pd_Spec def) → pe_To e ∈ pa_ID <$> ps_Agents (pd_Spec def)) as Hto
    by (intros e He; by apply Hedges).
  rewrite decide_False by done.
  destruct (decide (_ ∨ _)) as [_|Hn1].
  { pose proof (sequential_error (md_Name (pd_Metadata def)) sessionID _ Hrefs
      (ps_Agents (pd_Spec def)) msg w) as Herr.
    destruct (runSequential _ _ _ _ _) as [w' [nodes err]]. do 3 eexists. split; [reflexivity|].
    intros e ->. left. by apply Herr. }
  destruct (decide (_ = TopologyParallel)) as [_|Hn2].
  { pose proof (parallel_error (md_Name (pd_Metadata def)) sessionID _ Hrefs order msg w) as Herr.
    destruct (runParallel _ _ _ _ _ _) as [w' [nodes err]]. do 3 eexists. split; [reflexivity|].
    intros e ->. right. by apply Herr. }
  assert (ps_Topology (pd_Spec def) = TopologyGraph) as Ht.
  { unfold validPipelineTopologies in Htop. set_solver. }
  rewrite decide_True by done. unfold runGraph.
  destruct (cyclicNodes_spec (ps_Agents (pd_Spec def)) (ps_Edges (pd_Spec def)))
    as (ids & -> & _ & _ & Hin). cbn [mbind option_bind].
  destruct ids as [|id ids].
  2: { destruct (proj1 (Hin id) ltac:(left)) as [_ []]. by apply no_cycle_acc, Hac. }
  destruct (walk_roots_runs (md_Name (pd_Metadata def)) sessionID (ps_Agents (pd_Spec def))
    (ps_Edges (pd_Spec def)) (indegree_of (ps_Agents (pd_Spec def)) (ps_Edges (pd_Spec def))) msg w)
    as (st & err & Hrun).
  rewrite Hrun. cbn [mbind option_bind fmap option_fmap option_map]. do 3 eexists. split; [reflexivity|].
  intros e ->. left. by eapply walk_roots_error in Hrun.
Qed.
End pipeline_validator.

(** ** On concrete pipelines *)

#[local] Instance ex_yaml : GoYaml :=
  {| Node := unit; Kind _ := OtherNode; Value _ := ""; Line _ := 0%Z; Column _ := 0%Z; Content _ := [] |}.
#[local] Existing Instance plain_fmt.
#[local] Existing Instance canonical_range.
#[local] Existing Instance echo_engine.

Definition ex_pipeline (edges : list PipelineEdge) : PipelineDefinition :=
  mkPipelineDefinition "mockagents/v1" "Pipeline" (mkMetadata "review-flow" "" [] "")
    (mkPipelineSpec TopologyGraph
       [mkPipelineAgent "draft" "writer"; mkPipelineAgent "check" "critic"; mkPipelineAgent "ship" "bot"]
       edges).

Definition ex_good : PipelineDefinition :=
  ex_pipeline [mkPipelineEdge "draft" "check" ""; mkPipelineEdge "check" "ship" "ok"].
Definition ex_cyclic : PipelineDefinition :=
  ex_pipeline [mkPipelineEdge "draft" "check" ""; mkPipelineEdge "check" "draft" "again"].

(** The messages of a report. *)
Definition ex_messages (r : option (option ValidationErrorList)) : option (list string) :=
  l ← r; Some (match l with None => [] | Some l => ve_Field <$> Errors l end).

Example cyclic_pipeline_rejected :
  ex_messages (ValidatePipeline ex_cyclic "p.yaml" None) = Some ["spec.edges"].
Proof. vm_compute. reflexivity. Qed.

Lemma cycle_checks_agree_witness :
  ∃ ctx' ids, validatePipelineGraph ex_good (mkContext "p.yaml" None []) = Some ctx' ∧
    cyclicNodes (ps_Agents (pd_Spec ex_good)) (outgoing_of (ps_Edges (pd_Spec ex_good)))
      (indegree_of (ps_Agents (pd_Spec ex_good)) (ps_Edges (pd_Spec ex_good))) = Some ids ∧
    (report ctx' = None ↔ ids = []).
Proof.
  apply (cycle_checks_agree ex_good "p.yaml" None); [|reflexivity].
  destruct (ValidatePipeline_accepts ex_good "p.yaml" None) as (ctx & Hres & Hok).
  assert (ValidatePipeline ex_good "p.yaml" None = Some None) as Hval by (vm_compute; reflexivity).
  apply Hok. congruence.
Defined.

Lemma validated_pipeline_runs_witness :
  ValidatePipeline ex_good "p.yaml" None = Some None ∧
  ∃ w' res err, RunContext [] 0 (Some ex_good) "hi" "s" 0 = Some (w', (Some res, err)) ∧
    (∀ e, err = Some e → node_error e ∨ ∃ errs, e = ErrJoined errs ∧ Forall node_error errs).
Proof.
  assert (ValidatePipeline ex_good "p.yaml" None = Some None) as Hval by (vm_compute; reflexivity).
  split; [exact Hval|]. exact (validated_pipeline_runs ex_good "p.yaml" None Hval [] 0 "hi" "s" 0).
Defined.

(** A field in brackets is not found in the document: the path is split at the
    dots only, and ["agents[0]"] is neither a key nor an index. *)
Lemma bracketed_fields_unlocated {yaml : GoYaml} root :
  (∀ n, Value n ≠ "agents[0]") → LineColOf root "spec.agents[0].id" = (0%Z, 0%Z).
Proof.
  intros Hkeys. unfold LineColOf.
  assert (∀ node, resolveSegment node "agents[0]" = None) as Hnone.
  { intros nd. unfold resolveSegment. destruct (Kind nd); try done. generalize (Content nd).
    fix IH 1. intros [|k [|v l]]; [done..|]. simpl. rewrite decide_False by apply Hkeys. apply IH. }
  assert (NodeAt root "spec.agents[0].id" = None) as ->; [|done].
  unfold NodeAt. rewrite decide_False by done. destruct root as [r|]; [|done].
  cbn [mbind option_bind].
  change (Split _ _) with ["spec"; "agents[0]"; "id"].
  cbn [foldl mbind option_bind]. destruct (resolveSegment _ "spec") as [s|]; [|done].
  cbn [mbind option_bind]. by rewrite Hnone.
Qed.
