(* ===== verification/AgentValidator.v ===== *)
(** The agent validator with the defaults and the chaos presets:
    [internal/config/validator.go], [defaults.go], [chaos_presets.go]. *)

From S2P Require Import Prelude GoBase GoFloat GoStrings AgentTypes ScenarioMatcher ToolProcessor Validation.

Definition AgentKind : string := "Agent".
Definition DefaultModel : string := "mock-agent".
Definition validProtocols : list string :=
  ["openai-chat-completions"; "anthropic-messages"; "google-gemini"].
Definition HallucinationTypes : list string :=
  ["fabricated_fact"; "fabricated_citation"; "ungrounded"; "bad_tool_result"; "other"].
Definition ChaosPresets : list string :=
  ["server-down"; "rate-limited"; "access-denied"; "unauthorized"; "flaky"; "slow"; "connection-reset"].

(** The text of a compile error of the regexp package. *)
Class RegexpError := regexp_error : string → string.

(** [for _, p := range list { if s == p ... }]. *)
Definition one_of (s : string) (l : list string) : bool := existsb (λ p, bool_decide (s = p)) l.

Lemma one_of_spec s l : one_of s l = true ↔ s ∈ l.
Proof.
  unfold one_of. rewrite existsb_exists. setoid_rewrite bool_decide_eq_true.
  setoid_rewrite <-list_elem_of_In. naive_solver.
Qed.

(** ** Chaos presets and defaults *)

(** A preset that plants an error section. *)
Definition preset_error (rate : float64) (failFirst status : Z) (message : string) (c : ChaosConfig)
  : ChaosConfig :=
  match chaos_Errors c with
  | Some _ => c
  | None =>
      mkChaosConfig (chaos_Enabled c) (chaos_Preset c) (chaos_Latency c)
        (Some (mkChaosErrorConfig rate status [] false 0 message failFirst))
        (chaos_RateLimit c) (chaos_Connection c)
  end.

Definition preset_slow (c : ChaosConfig) : ChaosConfig :=
  match chaos_Latency c with
  | Some _ => c
  | None =>
      mkChaosConfig (chaos_Enabled c) (chaos_Preset c)
        (Some (mkChaosLatencyConfig "uniform" 2000 5000 0 0))
        (chaos_Errors c) (chaos_RateLimit c) (chaos_Connection c)
  end.

Definition preset_reset (c : ChaosConfig) : ChaosConfig :=
  match chaos_Connection c with
  | Some _ => c
  | None =>
      mkChaosConfig (chaos_Enabled c) (chaos_Preset c) (chaos_Latency c) (chaos_Errors c)
        (chaos_RateLimit c) (Some (mkChaosConnectionConfig "reset" f64_one 0))
  end.

Definition chaosPresets (name : string) : option (ChaosConfig → ChaosConfig) :=
  if decide (name = "server-down") then
    Some (preset_error f64_one 0 503 "the server is temporarily unavailable")
  else if decide (name = "rate-limited") then Some (preset_error f64_one 0 429 "rate limit exceeded")
  else if decide (name = "access-denied") then
    Some (preset_error f64_one 0 403 "you do not have access to this resource")
  else if decide (name = "unauthorized") then
    Some (preset_error f64_one 0 401 "invalid authentication credentials")
  else if decide (name = "flaky") then
    Some (preset_error f64_zero 2 503 "temporarily overloaded, please retry")
  else if decide (name = "slow") then Some preset_slow
  else if decide (name = "connection-reset") then Some preset_reset
  else None.

Definition connectionModes (mode : string) : bool :=
  one_of mode ["reset"; "peer-reset"; "empty"; "random"; "random-then-close"; "garbage"].

(** Sorted. *)
Definition connectionModeNames : list string :=
  ["empty"; "garbage"; "peer-reset"; "random"; "random-then-close"; "reset"].

Definition isChaosPreset (name : string) : bool :=
  match chaosPresets name with Some _ => true | None => false end.

Definition expandChaosPreset (c : option ChaosConfig) : option ChaosConfig :=
  match c with
  | None => None
  | Some c =>
      if decide (chaos_Preset c = "") then Some c
      else match chaosPresets (chaos_Preset c) with
           | None => Some c
           | Some apply =>
               let c := apply c in
               Some (mkChaosConfig true (chaos_Preset c) (chaos_Latency c) (chaos_Errors c)
                       (chaos_RateLimit c) (chaos_Connection c))
           end
  end.

Definition default_streaming (s : StreamingConfig) : StreamingConfig :=
  mkStreamingConfig (st_Enabled s)
    (if decide (st_ChunkSize s = 0)%Z then 4 else st_ChunkSize s)%Z
    (if decide (st_ChunkDelayMs s = 0)%Z then 50 else st_ChunkDelayMs s)%Z
    (st_TTFTMs s) (st_TokensPerSec s) (st_JitterMs s) (st_TTFTP50Ms s) (st_TTFTP95Ms s)
    (st_ITLP50Ms s) (st_ITLP95Ms s) (st_TruncateAfterChunks s) (st_Malformed s).

Definition ApplyDefaults (def : AgentDefinition) : AgentDefinition :=
  let spec := ad_Spec def in
  let b := as_Behavior spec in
  mkAgentDefinition (ad_APIVersion def) (ad_Kind def) (ad_Metadata def)
    (mkAgentSpec (as_Protocol spec)
       (if decide (as_Model spec = "") then DefaultModel else as_Model spec)
       (as_SystemPrompt spec) (as_Tools spec)
       (mkBehaviorConfig (bc_Scenarios b) (default_streaming <$> bc_Streaming b)
          (expandChaosPreset (bc_Chaos b)))).

(** ** The validator *)

Section agent_validator.
Context {yaml : GoYaml} {fmt : GoFmt} {re : GoRegexp} {re_err : RegexpError}.
Open Scope check_scope.

Definition dotted (name : string) (i : nat) : string :=
  (name +:+ "." +:+ fmt_d (Z.of_nat i))%string.

Definition validateMetadata (def : AgentDefinition) : check :=
  require_name "metadata.name" "Add a kebab-case name, e.g. metadata.name: my-agent"
    "Shorten the agent name to 63 characters or fewer."
    "Use lowercase letters, numbers, and hyphens only (e.g. my-agent-1)." (md_Name (ad_Metadata def)).

Definition validateProtocol (def : AgentDefinition) : check :=
  let protocol := as_Protocol (ad_Spec def) in
  if decide (protocol = "") then
    addError "spec.protocol" "required field missing"
      ("Set spec.protocol to one of: " +:+ Join validProtocols ", ")%string
  else if one_of protocol validProtocols then skip
  else addError "spec.protocol" ("invalid protocol " +:+ Quote protocol)%string
         ("Must be one of: " +:+ Join validProtocols ", ")%string.

Definition validateMatchRule (rule : MatchRule) (field : string) : check :=
  (if decide (mr_ContentContains rule ≠ "" ∧ mr_ContentRegex rule ≠ "") then
     addError field "content_contains and content_regex are mutually exclusive"
       "Use only one of content_contains or content_regex per match rule."
   else skip);;
  (if decide (mr_ContentRegex rule = "") then skip
   else match Compile (mr_ContentRegex rule) with
        | Some _ => skip
        | None =>
            addError (field +:+ ".content_regex")%string
              ("invalid regex: " +:+ regexp_error (mr_ContentRegex rule))%string
              "Fix the regular expression syntax."
        end).

(** The name check of a scenario; the state is [names]. *)
Definition check_scenario_name (field name : string) (st : validationContext * gset string)
  : validationContext * gset string :=
  let '(ctx, names) := st in
  if decide (name = "") then
    (addError (field +:+ ".name")%string "scenario name is required"
       "Add a unique name for this scenario." ctx, names)
  else if decide (name ∈ names) then
    (addError (field +:+ ".name")%string ("duplicate scenario name " +:+ Quote name)%string
       "Each scenario must have a unique name." ctx, names)
  else (ctx, {[name]} ∪ names).

Definition check_call_name (field : string) (j : nat) (tc : ToolCallSpec) : check :=
  if decide (tcs_Name tc = "") then
    addError (dotted (field +:+ ".response.tool_calls") j +:+ ".name")%string "tool_call name is required"
      "Add the snake_case name of the tool to call."
  else skip.

Definition check_hallucination (field : string) (h : option HallucinationSpec) : check :=
  match h with
  | None => skip
  | Some h =>
      if decide (hs_Type h = "") then skip
      else if one_of (hs_Type h) HallucinationTypes then skip
      else addError (field +:+ ".response.hallucination.type")%string
             ("invalid hallucination type " +:+ Quote (hs_Type h))%string
             ("Use one of: " +:+ Join HallucinationTypes ", ")%string
  end.

Definition check_scenario (i : nat) (sc : Scenario) (st : validationContext * gset string)
  : validationContext * gset string :=
  let field := dotted "spec.behavior.scenarios" i in
  let resp := sc_Response sc in
  let '(ctx, names) := check_scenario_name field (sc_Name sc) st in
  (((if decide (sr_Content resp = "" ∧ sr_Refusal resp = "" ∧ sr_ToolCalls resp = []) then
       addError (field +:+ ".response.content")%string "response content is required"
         "Add content text (or a refusal / tool_calls) for this scenario's response."
     else skip);;
    each (check_call_name field) 0 (sr_ToolCalls resp);;
    match sc_Match sc with
    | Some rule => validateMatchRule rule (field +:+ ".match")%string
    | None => skip
    end;;
    check_hallucination field (sr_Hallucination resp)) ctx, names).

Definition validateScenarios (def : AgentDefinition) : check := λ ctx,
  let scenarios := bc_Scenarios (as_Behavior (ad_Spec def)) in
  if decide (scenarios = []) then
    addError "spec.behavior.scenarios" "at least one scenario is required"
      "Add a scenario with a name and response content." ctx
  else (each_st check_scenario 0 scenarios (ctx, ∅)).1.

Definition validateJSONSchema (schema : list (string * value)) (field : string) : check :=
  if decide (schema = []) then skip
  else match obj_get schema "type" with
       | Some _ => skip
       | None => addError field "JSON Schema missing 'type' field"
                   "Add a 'type' field to the parameters schema (e.g. type: object)."
       end.

Definition check_tool (i : nat) (tool : ToolDefinition) (st : validationContext * gset string)
  : validationContext * gset string :=
  let '(ctx, names) := st in
  let field := dotted "spec.tools" i in
  if decide (td_Name tool = "") then
    (addError (field +:+ ".name")%string "tool name is required"
       "Add a snake_case name for this tool." ctx, names)
  else
    (((if toolNameRe (td_Name tool) then skip
       else addError (field +:+ ".name")%string
              ("invalid tool name " +:+ Quote (td_Name tool) +:+ ": must be snake_case")%string
              "Use lowercase letters, numbers, and underscores (e.g. lookup_order).");;
      (if decide (td_Name tool ∈ names) then
         addError (field +:+ ".name")%string ("duplicate tool name " +:+ Quote (td_Name tool))%string
           "Each tool must have a unique name within an agent."
       else skip);;
      validateJSONSchema (td_Parameters tool) (field +:+ ".parameters")%string) ctx,
     {[td_Name tool]} ∪ names).

Definition validateTools (def : AgentDefinition) : check := λ ctx,
  (each_st check_tool 0 (as_Tools (ad_Spec def)) (ctx, ∅)).1.

Definition check_reference (toolNames : gset string) (i j : nat) (tc : ToolCallSpec) : check :=
  if decide (tcs_Name tc ≠ "" ∧ tcs_Name tc ∉ toolNames) then
    addError (dotted (dotted "spec.behavior.scenarios" i +:+ ".response.tool_calls") j +:+ ".name")%string
      ("tool_call references undefined tool " +:+ Quote (tcs_Name tc))%string
      ("Define tool " +:+ Quote (tcs_Name tc) +:+ " in spec.tools or correct the reference.")%string
  else skip.

Definition tool_names (def : AgentDefinition) : gset string :=
  foldl (λ names t, if decide (td_Name t = "") then names else {[td_Name t]} ∪ names) ∅
    (as_Tools (ad_Spec def)).

Definition validateCrossReferences (def : AgentDefinition) : check :=
  each (λ i sc, each (check_reference (tool_names def) i) 0 (sr_ToolCalls (sc_Response sc))) 0
    (bc_Scenarios (as_Behavior (ad_Spec def))).

Definition check_connection (cc : ChaosConnectionConfig) : check :=
  (if connectionModes (cc_Mode cc) then skip
   else addError "spec.behavior.chaos.connection.mode"
          ("unknown connection mode " +:+ Quote (cc_Mode cc))%string
          ("Use one of: " +:+ Join connectionModeNames ", " +:+ ".")%string);;
  (if f64_lt (cc_Rate cc) f64_zero || f64_lt f64_one (cc_Rate cc) then
     addError "spec.behavior.chaos.connection.rate" "rate must be in [0.0, 1.0]" ""
   else skip);;
  (if decide (cc_FailFirst cc < 0)%Z then
     addError "spec.behavior.chaos.connection.fail_first" "fail_first must be >= 0" ""
   else skip);;
  (if f64_eq (cc_Rate cc) f64_zero && bool_decide (cc_FailFirst cc = 0)%Z then
     addError "spec.behavior.chaos.connection"
       "connection fault has no trigger: set rate or fail_first"
       "Without a trigger the fault never fires."
   else skip).

Definition validateChaos (def : AgentDefinition) : check :=
  match bc_Chaos (as_Behavior (ad_Spec def)) with
  | None => skip
  | Some c =>
      (if decide (chaos_Preset c ≠ "" ∧ isChaosPreset (chaos_Preset c) = false) then
         addError "spec.behavior.chaos.preset"
           ("unknown chaos preset " +:+ Quote (chaos_Preset c))%string
           ("Use one of: " +:+ Join ChaosPresets ", ")%string
       else skip);;
      match chaos_Connection c with None => skip | Some cc => check_connection cc end
  end.

Definition checkPair (p50 p95 : Z) (p50Field p95Field : string) : check :=
  if decide (bool_decide (0 < p50)%Z ≠ bool_decide (0 < p95)%Z) then
    let '(set, missing) := if decide (0 < p95)%Z then (p95Field, p50Field) else (p50Field, p95Field) in
    addError ("spec.behavior.streaming." +:+ set)%string
      (set +:+ " requires " +:+ missing +:+ " to also be set")%string
      ("Set both " +:+ p50Field +:+ " and " +:+ p95Field +:+
       " for distribution-based timing, or neither.")%string
  else if decide (0 < p50 ∧ p95 < p50)%Z then
    addError ("spec.behavior.streaming." +:+ p95Field)%string
      (p95Field +:+ " (" +:+ fmt_d p95 +:+ ") must be >= " +:+ p50Field +:+ " (" +:+ fmt_d p50 +:+ ")")%string
      "The 95th percentile must be at least the median."
  else skip.

Definition validateStreaming (def : AgentDefinition) : check :=
  match bc_Streaming (as_Behavior (ad_Spec def)) with
  | None => skip
  | Some s =>
      checkPair (st_TTFTP50Ms s) (st_TTFTP95Ms s) "ttft_p50_ms" "ttft_p95_ms";;
      checkPair (st_ITLP50Ms s) (st_ITLP95Ms s) "itl_p50_ms" "itl_p95_ms"
  end.

Definition Validate (def : AgentDefinition) (filePath : string) (node : option Node)
  : option ValidationErrorList :=
  report
    ((require_version (ad_APIVersion def);; require_kind (ad_Kind def) AgentKind;;
      validateMetadata def;; validateProtocol def;; validateScenarios def;; validateTools def;;
      validateCrossReferences def;; validateChaos def;; validateStreaming def)
       (mkContext filePath node [])).

(** ** What the validator accepts *)

Definition rule_ok (rule : MatchRule) : Prop :=
  (mr_ContentContains rule = "" ∨ mr_ContentRegex rule = "") ∧
  (mr_ContentRegex rule ≠ "" → is_Some (Compile (mr_ContentRegex rule))).

Definition response_ok (resp : ScenarioResponse) : Prop :=
  (sr_Content resp ≠ "" ∨ sr_Refusal resp ≠ "" ∨ sr_ToolCalls resp ≠ []) ∧
  (∀ tc, tc ∈ sr_ToolCalls resp → tcs_Name tc ≠ "") ∧
  (∀ h, sr_Hallucination resp = Some h → hs_Type h = "" ∨ hs_Type h ∈ HallucinationTypes).

Definition scenario_ok (sc : Scenario) : Prop :=
  sc_Name sc ≠ "" ∧ response_ok (sc_Response sc) ∧ (∀ rule, sc_Match sc = Some rule → rule_ok rule).

Definition tool_ok (t : ToolDefinition) : Prop :=
  toolNameRe (td_Name t) = true ∧ (td_Parameters t ≠ [] → is_Some (obj_get (td_Parameters t) "type")).

Definition connection_ok (cc : ChaosConnectionConfig) : Prop :=
  connectionModes (cc_Mode cc) = true ∧
  f64_lt (cc_Rate cc) f64_zero = false ∧ f64_lt f64_one (cc_Rate cc) = false ∧
  (0 ≤ cc_FailFirst cc)%Z ∧ (f64_eq (cc_Rate cc) f64_zero = true → cc_FailFirst cc ≠ 0%Z).

Definition chaos_ok (c : ChaosConfig) : Prop :=
  (chaos_Preset c = "" ∨ chaos_Preset c ∈ ChaosPresets) ∧
  (∀ cc, chaos_Connection c = Some cc → connection_ok cc).

Definition pair_ok (p50 p95 : Z) : Prop := (0 < p50 ↔ 0 < p95)%Z ∧ (0 < p50 → p50 ≤ p95)%Z.

Definition behavior_ok (tools : list ToolDefinition) (b : BehaviorConfig) : Prop :=
  bc_Scenarios b ≠ [] ∧ (∀ sc, sc ∈ bc_Scenarios b → scenario_ok sc) ∧
  NoDup (sc_Name <$> bc_Scenarios b) ∧
  (∀ sc tc, sc ∈ bc_Scenarios b → tc ∈ sr_ToolCalls (sc_Response sc) → tcs_Name tc ∈ td_Name <$> tools) ∧
  (∀ c, bc_Chaos b = Some c → chaos_ok c) ∧
  (∀ s, bc_Streaming b = Some s →
     pair_ok (st_TTFTP50Ms s) (st_TTFTP95Ms s) ∧ pair_ok (st_ITLP50Ms s) (st_ITLP95Ms s)).

Definition agent_ok (def : AgentDefinition) : Prop :=
  ad_APIVersion def = AgentAPIVersion ∧ ad_Kind def = AgentKind ∧
  kebab_name (md_Name (ad_Metadata def)) ∧ as_Protocol (ad_Spec def) ∈ validProtocols ∧
  (∀ t, t ∈ as_Tools (ad_Spec def) → tool_ok t) ∧ NoDup (td_Name <$> as_Tools (ad_Spec def)) ∧
  behavior_ok (as_Tools (ad_Spec def)) (as_Behavior (ad_Spec def)).

(** The presets the validator knows are those the documents may name. *)
Lemma isChaosPreset_spec name : isChaosPreset name = true ↔ name ∈ ChaosPresets.
Proof.
  unfold isChaosPreset, chaosPresets, ChaosPresets. rewrite !elem_of_cons, elem_of_nil.
  repeat (case_decide; [subst; split; [intros _; repeat (first [left; reflexivity|right])|done]|]).
  split; [done|]. tauto.
Qed.

#[local] Instance accepts_rule rule field : Accepts (validateMatchRule rule field) (rule_ok rule).
Proof.
  eapply accepts_iff; [apply _|]. unfold rule_ok.
  destruct (decide (mr_ContentContains rule = "")), (decide (mr_ContentRegex rule = "")),
    (Compile (mr_ContentRegex rule)); naive_solver.
Qed.

#[local] Instance accepts_hallucination field h : Accepts (check_hallucination field h)
  (∀ h', h = Some h' → hs_Type h' = "" ∨ hs_Type h' ∈ HallucinationTypes).
Proof.
  eapply accepts_iff; [apply _|]. setoid_rewrite <-one_of_spec. split.
  - intros [H _] h' Hh. destruct (H h' Hh) as [_ Hne].
    destruct (decide (hs_Type h' = "")) as [|Ht]; [by left|right].
    destruct (one_of _ _); [done|]. exfalso. by apply Hne.
  - intros H. split; [|done]. intros h' Hh. split; [done|]. intros Hne. split; [done|].
    intros Hf. destruct (H h' Hh); congruence.
Qed.

#[local] Instance accepts_call_name field j tc : Accepts (check_call_name field j tc) (tcs_Name tc ≠ "").
Proof. eapply accepts_iff; [apply _|]. destruct (decide (tcs_Name tc = "")); naive_solver. Qed.

Definition scenario_key (sc : Scenario) : option string :=
  if decide (sc_Name sc = "") then None else Some (sc_Name sc).

Lemma check_scenario_next i sc ctx names :
  (check_scenario i sc (ctx, names)).2 =
    mark scenario_key i names sc.
Proof.
  unfold check_scenario, check_scenario_name, mark, scenario_key. destruct (decide (sc_Name sc = "")); [done|].
  destruct (decide (sc_Name sc ∈ names)); [|done]. simpl. set_solver.
Qed.

Lemma check_scenario_accepts i sc names :
  Accepts (λ ctx, (check_scenario i sc (ctx, names)).1)
    (scenario_ok sc ∧ ∀ k, scenario_key sc = Some k → ¬ is_marked names k).
Proof.
  intros ctx. unfold check_scenario.
  assert (clean (check_scenario_name (dotted "spec.behavior.scenarios" i) (sc_Name sc) (ctx, names)).1 ↔
    clean ctx ∧ sc_Name sc ≠ "" ∧ sc_Name sc ∉ names) as Hname.
  { unfold check_scenario_name. destruct (decide (sc_Name sc = "")); simpl; [rewrite (accepts ctx); tauto|].
    destruct (decide (sc_Name sc ∈ names)); simpl; [rewrite (accepts ctx)|]; tauto. }
  destruct (check_scenario_name _ _ (ctx, names)) as [ctx1 names1]. simpl in Hname |- *.
  rewrite (accepts ctx1), Hname. unfold scenario_key, scenario_ok, response_ok, is_marked.
  destruct (decide (sc_Name sc = "")) as [|Hn]; [tauto|].
  destruct (decide (sr_Content (sc_Response sc) = "")), (decide (sr_Refusal (sc_Response sc) = "")),
    (decide (sr_ToolCalls (sc_Response sc) = [])); naive_solver.
Qed.

Lemma validateScenarios_accepts def : let scenarios := bc_Scenarios (as_Behavior (ad_Spec def)) in
  Accepts (validateScenarios def)
    (scenarios ≠ [] ∧ (∀ sc, sc ∈ scenarios → scenario_ok sc) ∧ NoDup (sc_Name <$> scenarios)).
Proof.
  cbv zeta. intros ctx. unfold validateScenarios. set (scenarios := bc_Scenarios _).
  destruct (decide (scenarios = [])) as [|Hne]; [rewrite (accepts ctx); tauto|].
  pose proof (accepts_unique scenario_key is_marked (mark scenario_key) check_scenario scenario_ok ∅
    scenarios unmarked_empty check_scenario_next check_scenario_accepts ctx) as H.
  cbn beta in H. rewrite H. split.
  - intros (Hc & Hok & Hnd). rewrite (omap_keys _ sc_Name) in Hnd; [done|].
    intros sc Hsc. apply decide_False. by apply Hok.
  - intros (Hc & _ & Hok & Hnd). split; [done|]. split; [done|].
    rewrite (omap_keys _ sc_Name); [done|]. intros sc Hsc. apply decide_False. by apply Hok.
Qed.

(** Every tool has a key, its name; a tool without one is rejected anyway. *)
Definition tool_key (t : ToolDefinition) : option string :=
  if decide (td_Name t = "") then None else Some (td_Name t).

Lemma toolNameRe_nonempty name : toolNameRe name = true → name ≠ "".
Proof. by destruct name. Qed.

Lemma check_tool_next i t ctx names : (check_tool i t (ctx, names)).2 = mark tool_key i names t.
Proof. unfold check_tool, mark, tool_key. by destruct (decide (td_Name t = "")). Qed.

Lemma check_tool_accepts i t names :
  Accepts (λ ctx, (check_tool i t (ctx, names)).1)
    (tool_ok t ∧ ∀ k, tool_key t = Some k → ¬ is_marked names k).
Proof.
  intros ctx. unfold check_tool, tool_key, tool_ok, is_marked.
  destruct (decide (td_Name t = "")) as [He|Hne]; simpl.
  { rewrite (accepts ctx). split; [tauto|]. intros (_ & [Hre _] & _).
    by apply toolNameRe_nonempty in Hre. }
  rewrite (accepts ctx). destruct (toolNameRe (td_Name t)), (decide (td_Parameters t = [])),
    (obj_get (td_Parameters t) "type"); naive_solver.
Qed.

Lemma validateTools_accepts def : let tools := as_Tools (ad_Spec def) in
  Accepts (validateTools def) ((∀ t, t ∈ tools → tool_ok t) ∧ NoDup (td_Name <$> tools)).
Proof.
  cbv zeta. set (tools := as_Tools _).
  eapply accepts_iff; [apply (accepts_unique tool_key is_marked (mark tool_key) check_tool tool_ok ∅ tools
    unmarked_empty check_tool_next check_tool_accepts)|].
  apply and_iff_compat_weak; intros Hok. rewrite (omap_keys _ td_Name); [done|].
  intros t Ht. apply decide_False, toolNameRe_nonempty. by apply Hok.
Qed.

Lemma tool_names_spec def name :
  name ∈ tool_names def ↔ name ≠ "" ∧ name ∈ td_Name <$> as_Tools (ad_Spec def).
Proof.
  unfold tool_names. induction (as_Tools (ad_Spec def)) as [|t ts IH] using rev_ind.
  { simpl. set_solver. }
  rewrite foldl_app, fmap_app, elem_of_app. cbn [foldl fmap list_fmap].
  rewrite list_elem_of_singleton. destruct (decide (td_Name t = "")) as [He|He].
  - rewrite IH. split; [tauto|]. intros (Hn & [?| ->]); [tauto|done].
  - rewrite elem_of_union, elem_of_singleton, IH. split; [|tauto].
    intros [-> |[? ?]]; [|tauto]. split; [done|by right].
Qed.

Lemma validateCrossReferences_accepts def :
  Accepts (validateCrossReferences def)
    (∀ sc, sc ∈ bc_Scenarios (as_Behavior (ad_Spec def)) → ∀ tc, tc ∈ sr_ToolCalls (sc_Response sc) →
       tcs_Name tc = "" ∨ tcs_Name tc ∈ td_Name <$> as_Tools (ad_Spec def)).
Proof.
  apply accepts_each. intros i sc. apply accepts_each. intros j tc.
  eapply accepts_iff; [apply _|]. rewrite tool_names_spec.
  destruct (decide (tcs_Name tc = "")); [tauto|].
  destruct (decide (tcs_Name tc ∈ td_Name <$> as_Tools (ad_Spec def))); tauto.
Qed.

Lemma validateChaos_accepts def :
  Accepts (validateChaos def) (∀ c, bc_Chaos (as_Behavior (ad_Spec def)) = Some c → chaos_ok c).
Proof.
  unfold validateChaos. destruct (bc_Chaos _) as [c|]; [|eapply accepts_iff; [apply _|done]].
  assert (∀ cc, Accepts (check_connection cc) (connection_ok cc)) as Hcc.
  { intros cc. eapply accepts_iff; [apply _|]. unfold connection_ok. cbn beta.
    destruct (connectionModes _), (f64_lt (cc_Rate cc) f64_zero), (f64_lt f64_one (cc_Rate cc)),
      (f64_eq (cc_Rate cc) f64_zero), (decide (cc_FailFirst cc < 0)%Z); simpl;
      rewrite ?bool_decide_eq_true, ?bool_decide_eq_false; naive_solver lia. }
  eapply accepts_iff; [apply _|]. unfold chaos_ok. setoid_rewrite <-isChaosPreset_spec.
  split.
  - intros [[Hp _] [Hc _]] c' [= <-]. split; [|exact Hc].
    destruct (decide (chaos_Preset c = "")); [by left|right].
    destruct (isChaosPreset _); [done|]. exfalso. by apply Hp.
  - intros H. destruct (H c eq_refl) as [Hp Hc]. split; [split; [|done]|split; [exact Hc|done]].
    intros [Hne Hf]. destruct Hp; congruence.
Qed.

#[local] Instance accepts_pair p50 p95 f50 f95 : Accepts (checkPair p50 p95 f50 f95) (pair_ok p50 p95).
Proof.
  unfold checkPair. destruct (if decide (0 < p95)%Z then _ else _) as [set missing].
  eapply accepts_iff; [apply _|]. unfold pair_ok.
  assert (bool_decide (0 < p50)%Z ≠ bool_decide (0 < p95)%Z ↔ ¬ (0 < p50 ↔ 0 < p95)%Z) as ->.
  { destruct (bool_decide_reflect (0 < p50)%Z), (bool_decide_reflect (0 < p95)%Z); split; try done; lia. }
  lia.
Qed.

Lemma validateStreaming_accepts def :
  Accepts (validateStreaming def) (∀ s, bc_Streaming (as_Behavior (ad_Spec def)) = Some s →
     pair_ok (st_TTFTP50Ms s) (st_TTFTP95Ms s) ∧ pair_ok (st_ITLP50Ms s) (st_ITLP95Ms s)).
Proof.
  unfold validateStreaming. destruct (bc_Streaming _) as [s|]; (eapply accepts_iff; [apply _|]); naive_solver.
Qed.

Lemma validateProtocol_accepts def :
  Accepts (validateProtocol def) (as_Protocol (ad_Spec def) ∈ validProtocols).
Proof.
  eapply accepts_iff; [apply _|]. rewrite <-one_of_spec.
  destruct (decide (as_Protocol (ad_Spec def) = "")) as [->|]; [by vm_compute; naive_solver|].
  destruct (one_of _ _); naive_solver.
Qed.

(** ** Validated agents at run time *)

Lemma Validate_accepts def file nd : Validate def file nd = None ↔ agent_ok def.
Proof.
  unfold Validate. eapply report_accepts. eapply accepts_iff.
  { apply accepts_andThen; [apply accepts_version|]. apply accepts_andThen; [by apply accepts_kind|].
    apply accepts_andThen; [apply accepts_name|]. apply accepts_andThen; [apply validateProtocol_accepts|].
    apply accepts_andThen; [apply validateScenarios_accepts|].
    apply accepts_andThen; [apply validateTools_accepts|].
    apply accepts_andThen; [apply validateCrossReferences_accepts|].
    apply accepts_andThen; [apply validateChaos_accepts|apply validateStreaming_accepts]. }
  unfold agent_ok, behavior_ok. set (scs := bc_Scenarios _). set (names := td_Name <$> _).
  assert ((∀ sc, sc ∈ scs → scenario_ok sc) →
    (∀ sc, sc ∈ scs → ∀ tc, tc ∈ sr_ToolCalls (sc_Response sc) → tcs_Name tc = "" ∨ tcs_Name tc ∈ names) ↔
    (∀ sc tc, sc ∈ scs → tc ∈ sr_ToolCalls (sc_Response sc) → tcs_Name tc ∈ names)) as Hrefs.
  { intros Hok. split; [|naive_solver]. intros H sc tc Hsc Htc.
    destruct (Hok sc Hsc) as (_ & (_ & Hne & _) & _). destruct (H sc Hsc tc Htc); [|done].
    by destruct (Hne tc Htc). }
  tauto.
Qed.

Context {lower : GoLower} {conv : GoConv}.

Lemma processOne_known rnd call idx counter : is_Some (idx !! tcs_Name call) →
  fatal (processOne rnd call idx counter).2.2 = false.
Proof.
  intros [tool Htool]. unfold processOne. destruct (generateToolCallID rnd counter) as [c id].
  rewrite Htool. simpl. destruct (match td_Validate tool with true => _ | false => _ end); [|done].
  destruct (_ && _); [done|]. destruct (resolveToolResponse _ _) as [[] [e|]]; done.
Qed.

(** A batch of calls to declared tools ends without an error. *)
Lemma batch_known order calls tools counter :
  (∀ c, c ∈ calls → tcs_Name c.2 ∈ td_Name <$> tools) →
  (ProcessToolCalls order calls tools counter).2.2 = None.
Proof.
  intros Hcalls. rewrite ProcessToolCalls_run. unfold process_concurrent.
  set (st0 := (counter, (replicate (length calls) zero_result, replicate (length calls) None))).
  assert (Forall (λ e, fatal e = false) st0.2.2) as H0 by (by apply Forall_replicate).
  assert (Forall (λ e, fatal e = false)
    (foldl (go_process calls (indexTools tools)) st0 (batch_order order calls)).2.2) as Hall.
  { clearbody st0. revert st0 H0. induction (batch_order order calls) as [|i l IH]; intros st0 H0; [done|].
    simpl. apply IH. unfold go_process. destruct (calls !! i) as [[rnd tc]|] eqn:Hi; [|done].
    destruct st0 as [c [results errs]]. assert (is_Some (indexTools tools !! tcs_Name tc)) as Hidx.
    { rewrite indexTools_lookup. apply last_is_Some. apply list_elem_of_lookup_2, Hcalls in Hi.
      simpl in Hi. apply list_elem_of_fmap in Hi as (t & Hn & Ht). intros Hnil.
      assert (t ∈ filter (λ t, td_Name t = tcs_Name tc) tools) as Hin by by apply list_elem_of_filter.
      rewrite Hnil in Hin. by apply elem_of_nil in Hin. }
    pose proof (processOne_known rnd tc (indexTools tools) c Hidx) as Hf.
    destruct (processOne _ _ _ _) as [c' [r e]]. simpl in *. by apply Forall_insert. }
  destruct (foldl _ st0 _) as [c [results errs]]. simpl in *. clear -Hall.
  induction Hall as [|e errs He _ IH]; [done|]. simpl. by rewrite He.
Qed.

Lemma compileRegex_quiet m p : is_Some (Compile p) → warnings (compileRegex m p).1 = warnings m.
Proof. intros [r Hr]. unfold compileRegex. destruct (regexCache m !! p); [done|]. by rewrite Hr. Qed.


Lemma evaluate_quiet m rule msg lmsg turn images : rule_ok rule →
  warnings (evaluate m rule msg lmsg turn images).1 = warnings m.
Proof.
  intros [_ Hre].
  assert (∀ m, warnings (evaluate_regex m rule msg turn).1 = warnings m) as Hr.
  { clear m. intros m. unfold evaluate_regex. destruct (decide _) as [|Hne]; [done|].
    pose proof (compileRegex_quiet m _ (Hre Hne)) as Hq. destruct (compileRegex _ _) as [m' [r|]]; [|done].
    by destruct (FindStringSubmatch _ _). }
  assert (∀ m, warnings (evaluate_contains m rule msg lmsg turn).1 = warnings m) as Hc.
  { clear m. intros m. unfold evaluate_contains. destruct (decide _); [done|]. unfold lowerContains.
    destruct (lowerCache m !! _); (destruct (str_contains _ _); [by rewrite Hr|done]). }
  unfold evaluate. destruct (mr_HasImage rule); [|done]. by destruct (decide _).
Qed.

Lemma sweep_quiet m scenarios dflt msg lmsg turn images :
  (∀ sc rule, sc ∈ scenarios → sc_Match sc = Some rule → rule_ok rule) →
  warnings (sweep m scenarios dflt msg lmsg turn images).1 = warnings m.
Proof.
  revert m dflt. induction scenarios as [|sc scs IH]; intros m dflt Hok; [done|]. simpl.
  assert (∀ sc' rule, sc' ∈ scs → sc_Match sc' = Some rule → rule_ok rule) as Hok'.
  { intros sc' rule Hin. apply Hok. by right. }
  destruct (sc_Match sc) as [rule|] eqn:Hm; [|by apply IH].
  pose proof (evaluate_quiet m rule msg lmsg turn images (Hok sc rule ltac:(left) Hm)) as Hq.
  destruct (evaluate _ _ _ _ _ _) as [m' [c|]]; [done|]. rewrite IH; done.
Qed.

(** ** Defaults *)

Lemma default_streaming_idem s : default_streaming (default_streaming s) = default_streaming s.
Proof.
  unfold default_streaming. cbn. f_equal.
  - destruct (decide (st_ChunkSize s = 0)%Z); [done|]. by rewrite decide_False.
  - destruct (decide (st_ChunkDelayMs s = 0)%Z); [done|]. by rewrite decide_False.
Qed.

Lemma expandChaosPreset_idem c : expandChaosPreset (expandChaosPreset c) = expandChaosPreset c.
Proof.
  destruct c as [c|]; [|done]. simpl. destruct (decide (chaos_Preset c = "")) as [He|He]; simpl.
  { by rewrite decide_True. }
  destruct (chaosPresets (chaos_Preset c)) as [apply|] eqn:Hp; simpl; [|by rewrite decide_False, Hp].
  assert (chaos_Preset (apply c) = chaos_Preset c ∧
    ∀ en, apply (mkChaosConfig en (chaos_Preset (apply c)) (chaos_Latency (apply c)) (chaos_Errors (apply c))
      (chaos_RateLimit (apply c)) (chaos_Connection (apply c))) =
    mkChaosConfig en (chaos_Preset (apply c)) (chaos_Latency (apply c)) (chaos_Errors (apply c))
      (chaos_RateLimit (apply c)) (chaos_Connection (apply c))) as [Hname Hidem].
  { unfold chaosPresets in Hp. destruct c as [en pr la er rl co]. simpl in *.
    repeat (case_decide; [simplify_eq; unfold preset_error, preset_slow, preset_reset; simpl;
      by destruct er, la, co|]). done. }
  rewrite Hname, decide_False, Hp by done. f_equal. rewrite <-Hname, Hidem. done.
Qed.

(** The expansion of a preset only plants sections the validator is happy with. *)
Lemma expand_same_verdict def ctx :
  validateChaos (ApplyDefaults def) ctx = validateChaos def ctx.
Proof.
  unfold validateChaos. cbn [ApplyDefaults ad_Spec as_Behavior bc_Chaos].
  destruct (bc_Chaos (as_Behavior (ad_Spec def))) as [c|]; [|done]. unfold expandChaosPreset.
  destruct (decide (chaos_Preset c = "")) as [He|He]; [done|].
  destruct (chaosPresets (chaos_Preset c)) as [apply|] eqn:Hp; [|done]. cbn.
  assert (chaos_Preset (apply c) = chaos_Preset c ∧
    (chaos_Connection (apply c) = chaos_Connection c ∨
     chaos_Connection c = None ∧ chaos_Connection (apply c) = Some (mkChaosConnectionConfig "reset" f64_one 0)))
    as [-> Hco].
  { unfold chaosPresets in Hp. destruct c as [en pr la er rl co]. simpl in *.
    repeat (case_decide; [simplify_eq; unfold preset_error, preset_slow, preset_reset; simpl;
      destruct er, la, co; simpl; auto|]). done. }
  destruct Hco as [-> |[-> ->]]; [done|]. reflexivity.
Qed.
(** The sections an agent configured itself. *)
Definition keeps {A} (o o' : option A) : Prop := ∀ x, o = Some x → o' = Some x.

Lemma expand_sections c : ∃ c', expandChaosPreset (Some c) = Some c' ∧
  keeps (chaos_Latency c) (chaos_Latency c') ∧ keeps (chaos_Errors c) (chaos_Errors c') ∧
  keeps (chaos_RateLimit c) (chaos_RateLimit c') ∧ keeps (chaos_Connection c) (chaos_Connection c') ∧
  (chaos_Preset c ∈ ChaosPresets → chaos_Enabled c' = true ∧
     (is_Some (chaos_Latency c') ∨ is_Some (chaos_Errors c') ∨ is_Some (chaos_Connection c'))).
Proof.
  setoid_rewrite <-isChaosPreset_spec. unfold isChaosPreset, keeps. simpl.
  destruct (decide (chaos_Preset c = "")) as [He|He].
  { exists c. do 5 (split; [done|]). by rewrite He. }
  destruct (chaosPresets (chaos_Preset c)) as [apply|] eqn:Hp; [|exists c; do 5 (split; [done|]); done].
  eexists. split; [reflexivity|]. unfold chaosPresets in Hp. destruct c as [en pr la er rl co]. simpl in *.
  repeat (case_decide; [simplify_eq; unfold preset_error, preset_slow, preset_reset; simpl;
    destruct er, la, co; simpl; do 4 (split; [done|]); intros _; split; eauto|]). done.
Qed.

(** ** Properties *)


(** filling in the defaults is idempotent and changes nothing in the report of
    the validator. It leaves a model and a chunk size and delay that are not zero,
    keeps every chaos section the agent set itself, and turns a known preset into an
    enabled block with a section. *)
Theorem ApplyDefaults_correct def file nd :
  let def' := ApplyDefaults def in
  ApplyDefaults def' = def' ∧
  Validate def' file nd = Validate def file nd ∧
  as_Model (ad_Spec def') ≠ "" ∧
  (∀ s, bc_Streaming (as_Behavior (ad_Spec def')) = Some s → st_ChunkSize s ≠ 0%Z ∧ st_ChunkDelayMs s ≠ 0%Z) ∧
  (∀ c, bc_Chaos (as_Behavior (ad_Spec def)) = Some c →
   ∃ c', bc_Chaos (as_Behavior (ad_Spec def')) = Some c' ∧
     keeps (chaos_Latency c) (chaos_Latency c') ∧ keeps (chaos_Errors c) (chaos_Errors c') ∧
     keeps (chaos_RateLimit c) (chaos_RateLimit c') ∧ keeps (chaos_Connection c) (chaos_Connection c') ∧
     (chaos_Preset c ∈ ChaosPresets → chaos_Enabled c' = true ∧
        (is_Some (chaos_Latency c') ∨ is_Some (chaos_Errors c') ∨ is_Some (chaos_Connection c')))).
Proof.
  cbv zeta. split; [|split; [|split; [|split]]].
  - unfold ApplyDefaults. cbn. rewrite expandChaosPreset_idem. f_equal. f_equal.
    + destruct (decide (as_Model (ad_Spec def) = "")); [done|]. by rewrite decide_False.
    + f_equal. destruct (bc_Streaming _) as [s|]; [|done]. simpl. f_equal. apply default_streaming_idem.
  - assert (∀ ctx, validateStreaming (ApplyDefaults def) ctx = validateStreaming def ctx) as Hs.
    { intros ctx. unfold validateStreaming. cbn [ApplyDefaults ad_Spec as_Behavior bc_Streaming].
      by destruct (bc_Streaming _). }
    unfold Validate, andThen. by rewrite Hs, expand_same_verdict.
  - cbn. by destruct (decide (as_Model (ad_Spec def) = "")).
  - cbn. intros s. destruct (bc_Streaming _) as [s0|]; [|done]. intros [= <-]. cbn.
    by destruct (decide (st_ChunkSize s0 = 0)%Z), (decide (st_ChunkDelayMs s0 = 0)%Z).
  - intros c Hc. cbn. rewrite Hc. apply expand_sections.
Qed.

(** the calls of a validated agent's scenarios never name an unknown tool, so
    processing them ends without an error, in whatever order; and matching a
    request against its scenarios logs no bad pattern. *)
Theorem validated_agent_runs def file nd :
  Validate def file nd = None →
  (∀ sc calls order counter, sc ∈ bc_Scenarios (as_Behavior (ad_Spec def)) →
     calls.*2 = sr_ToolCalls (sc_Response sc) →
     (ProcessToolCalls order calls (as_Tools (ad_Spec def)) counter).2.2 = None) ∧
  (∀ m msg turn images,
     warnings (MatchWithCaptures m (bc_Scenarios (as_Behavior (ad_Spec def))) msg turn images).1 = warnings m).
Proof.
  intros (_ & _ & _ & _ & _ & _ & _ & Hsc & _ & Hcalls & _)%Validate_accepts. split.
  - intros sc calls order counter Hin Heq. apply batch_known. intros c Hc.
    apply (Hcalls sc); [done|]. rewrite <-Heq. by apply list_elem_of_fmap_2.
  - intros m msg turn images. apply sweep_quiet. intros sc rule Hin Hm. by apply (Hsc sc).
Qed.
End agent_validator.

(** ** On a concrete agent *)

#[local] Instance ex_yaml : GoYaml :=
  {| Node := unit; Kind _ := OtherNode; Value _ := ""; Line _ := 0%Z; Column _ := 0%Z; Content _ := [] |}.
#[local] Instance ex_regexp_error : RegexpError := λ p, ("bad pattern " +:+ p)%string.
#[local] Existing Instance plain_fmt.
#[local] Existing Instance literal_regexp.
#[local] Existing Instance ascii_go_lower.
#[local] Existing Instance amd64_conv.

Definition ex_calling (tool : string) : AgentDefinition :=
  mkAgentDefinition "mockagents/v1" "Agent" (mkMetadata "support-bot" "" [] "")
    (mkAgentSpec "anthropic-messages" "" "" [mkToolDefinition "lookup" "" [] [] false f64_zero]
       (mkBehaviorConfig
          [mkScenario "order" (Some (mkMatchRule "" "order" None None))
             (mkScenarioResponse "" [mkToolCallSpec tool [] ""] [] "" "" None);
           mkScenario "other" None (mkScenarioResponse "hi" [] [] "" "" None)]
          None (Some (mkChaosConfig false "slow" None None None None)))).

Example unknown_tool_rejected :
  option_map (λ l, ve_Field <$> Errors l) (Validate (ex_calling "refund") "a.yaml" None) =
    Some ["spec.behavior.scenarios.0.response.tool_calls.0.name"].
Proof. vm_compute. reflexivity. Qed.

Lemma validated_agent_runs_witness :
  Validate (ex_calling "lookup") "a.yaml" None = None ∧
  (ProcessToolCalls [] [(mkCallRand None None, mkToolCallSpec "lookup" [] "")]
     (as_Tools (ad_Spec (ex_calling "lookup"))) 0).2.2 = None.
Proof.
  assert (Validate (ex_calling "lookup") "a.yaml" None = None) as Hval by (vm_compute; reflexivity).
  split; [exact Hval|].
  destruct (validated_agent_runs (ex_calling "lookup") "a.yaml" None Hval) as [Hcalls _].
  eapply Hcalls; [left|reflexivity].
Defined.
