(* ===== verification/DocumentValidators.v ===== *)
(** The validators of test suites and MCP servers:
    [internal/config/testsuite_validator.go] and [mcpserver_validator.go]. *)

From S2P Require Import Prelude GoBase GoStrings AgentTypes DocumentTypes Validation PipelineValidator AgentValidator.

Definition validMCPContentTypes : list string := ["text"; "image"; "audio"; "resource"].

Section documents.
Context {yaml : GoYaml} {fmt : GoFmt}.
Open Scope check_scope.

(** [field[i]] under another field. *)
Definition at_index (field name : string) (i : nat) : string :=
  (field +:+ "." +:+ index_field name i)%string.

Definition validateMetadataName (name field suffix : string) : check :=
  require_name field ("Add a kebab-case name, e.g. " +:+ field +:+ ": my-" +:+ suffix)%string
    "Shorten the name to 63 characters or fewer."
    "Use lowercase letters, numbers, and hyphens only." name.

(** A field that must not be empty. *)
Definition required (v field msg sug : string) : check :=
  if decide (v = "") then addError field msg sug else skip.

(** The name check of the loops that keep the position of each name. *)
Definition check_unique (field what plural missing_sug dup_sug : string) (i : nat) (name : string)
    (st : validationContext * gmap string nat) : validationContext * gmap string nat :=
  let '(ctx, seen) := st in
  if decide (name = "") then (addError field "required field missing" missing_sug ctx, seen)
  else match seen !! name with
       | Some prev =>
           (addError field ("duplicate " +:+ what +:+ " " +:+ Quote name +:+ " (first seen at " +:+
                            index_field plural prev +:+ ")")%string dup_sug ctx, seen)
       | None => (ctx, <[name := i]> seen)
       end.

(** ** Test suites *)

Definition validateTestSuiteTarget (def : TestSuiteDefinition) : check :=
  let agent := tt_Agent (tss_Target (tsd_Spec def)) in
  let pipeline := tt_Pipeline (tss_Target (tsd_Spec def)) in
  if decide (agent = "" ∧ pipeline = "") then
    addError "spec.target" "test suite has no target"
      "Set exactly one of spec.target.agent or spec.target.pipeline."
  else if decide (agent ≠ "" ∧ pipeline ≠ "") then
    addError "spec.target" "test suite has both agent and pipeline target"
      "Remove one of spec.target.agent or spec.target.pipeline — exactly one is allowed."
  else skip.

Definition validateTestAssertion (field : string) (a : TestAssertion) : check :=
  let sub name := (field +:+ "." +:+ name)%string in
  if decide (ta_Type a = "") then
    addError (sub "type") "required field missing"
      "Set type to one of: tool_call, response_contains, scenario_matched, latency_ms_lt."
  else if decide (ta_Type a = AssertToolCall) then
    required (ta_Tool a) (sub "tool") "tool_call assertion missing tool name"
      "Set assertions[].tool to the name of an expected tool call."
  else if decide (ta_Type a = AssertResponseContains) then
    required (ta_Value a) (sub "value") "response_contains assertion missing value"
      "Set assertions[].value to the substring the response must contain."
  else if decide (ta_Type a = AssertScenarioMatched) then
    required (ta_Value a) (sub "value") "scenario_matched assertion missing scenario name"
      "Set assertions[].value to the scenario name that must have fired."
  else if decide (ta_Type a = AssertLatencyMsLT) then
    if decide (ta_MaxMs a ≤ 0)%Z then
      addError (sub "max_ms") "latency_ms_lt assertion needs a positive max_ms"
        "Set assertions[].max_ms to the latency budget in milliseconds."
    else skip
  else
    addError (sub "type") ("unknown assertion type " +:+ Quote (ta_Type a))%string
      "Supported types: tool_call, response_contains, scenario_matched, latency_ms_lt.".

Definition check_step (field : string) (j : nat) (s : TestStep) : check :=
  required (ts_Role s) (at_index field "steps" j +:+ ".role")%string "required field missing"
    "Set role to user, assistant, or system.";;
  required (ts_Content s) (at_index field "steps" j +:+ ".content")%string "required field missing"
    "Give the step a non-empty content string.".

Definition check_case (i : nat) (c : TestCase) (st : validationContext * gmap string nat)
  : validationContext * gmap string nat :=
  let field := index_field "spec.cases" i in
  let '(ctx, seenNames) :=
    check_unique (field +:+ ".name")%string "case name" "spec.cases"
      "Every test case needs a name (unique within the suite)."
      "Each case name must be unique within a test suite." i (tc_Name c) st in
  (((if decide (tc_Steps c = []) then
       addError (field +:+ ".steps")%string "case has no steps"
         "Add at least one step with a role and content."
     else each (check_step field) 0 (tc_Steps c));;
    each (λ j, validateTestAssertion (at_index field "assertions" j)) 0 (tc_Assertions c)) ctx,
   seenNames).

Definition validateTestSuiteCases (def : TestSuiteDefinition) : check := λ ctx,
  if decide (tss_Cases (tsd_Spec def) = []) then
    addError "spec.cases" "test suite declares no cases"
      "Add at least one entry under spec.cases with a name and at least one step." ctx
  else (each_st check_case 0 (tss_Cases (tsd_Spec def)) (ctx, ∅)).1.

Definition ValidateTestSuite (def : TestSuiteDefinition) (filePath : string) (node : option Node)
  : option ValidationErrorList :=
  report
    ((require_version (tsd_APIVersion def);; require_kind (tsd_Kind def) TestSuiteKind;;
      validateMetadataName (md_Name (tsd_Metadata def)) "metadata.name" "test-suite";;
      validateTestSuiteTarget def;; validateTestSuiteCases def) (mkContext filePath node [])).

(** ** MCP servers *)

Definition validateMCPContentBlock (field : string) (block : MCPContentBlock) : check :=
  let sub name := (field +:+ "." +:+ name)%string in
  if decide (mb_Type block = "") then
    addError (sub "type") "required field missing"
      "Set type to one of: text, image, audio, resource."
  else if negb (one_of (mb_Type block) validMCPContentTypes) then
    addError (sub "type") ("unknown content type " +:+ Quote (mb_Type block))%string
      "Supported types: text, image, audio, resource."
  else if decide (mb_Type block = "text") then
    required (mb_Text block) (sub "text") "text content block has empty text"
      "Set block.text to the text payload."
  else if decide (mb_Type block = "image") then
    required (mb_Data block) (sub "data") "image content block has empty data"
      "Set block.data to the base64-encoded image bytes.";;
    required (mb_MimeType block) (sub "mimeType") "image content block has no mimeType"
      "Set block.mimeType to e.g. image/png."
  else if decide (mb_Type block = "audio") then
    required (mb_Data block) (sub "data") "audio content block has empty data"
      "Set block.data to the base64-encoded audio bytes.";;
    required (mb_MimeType block) (sub "mimeType") "audio content block has no mimeType"
      "Set block.mimeType to e.g. audio/wav."
  else if decide (mb_Type block = "resource") then
    required (mb_URI block) (sub "uri") "resource content block has no URI"
      "Set block.uri to the referenced resource's URI.";;
    if decide (mb_Text block = "" ∧ mb_Blob block = "") then
      addError (sub "text") "resource content block has no inline text or blob"
        "Set block.text (or block.blob) to the embedded resource's contents."
    else if decide (mb_Text block ≠ "" ∧ mb_Blob block ≠ "") then
      addError (sub "text") "resource content block sets both text and blob"
        "Set exactly one of block.text or block.blob (text XOR blob)."
    else skip
  else skip.

(** One response of a tool; the state is [sawDefault]. *)
Definition check_tool_response (field : string) (j : nat) (resp : MCPToolResponse)
    (st : validationContext * bool) : validationContext * bool :=
  let '(ctx, sawDefault) := st in
  let rField := at_index field "responses" j in
  (((if decide (mtr_Match resp = [] ∧ mtr_Default resp = false) then
       addError rField "tool response has neither `match` nor `default: true`"
         "Either add a `match:` map of args to values or set `default: true`."
     else skip);;
    (if decide (mtr_Match resp ≠ [] ∧ mtr_Default resp = true) then
       addError rField "tool response sets both `match` and `default: true`"
         "Pick one: `match:` (selective) or `default: true` (fallback)."
     else skip);;
    (if decide (mtr_Default resp = true ∧ sawDefault = true) then
       addError rField "multiple default tool responses"
         "Only one response per tool may set `default: true`."
     else skip);;
    each (λ k, validateMCPContentBlock (at_index rField "content" k)) 0 (mtr_Content resp)) ctx,
   sawDefault || mtr_Default resp).

Definition check_mcp_tool (i : nat) (tool : MCPTool) (st : validationContext * gmap string nat)
  : validationContext * gmap string nat :=
  let field := index_field "spec.tools" i in
  let '(ctx, seenNames) :=
    check_unique (field +:+ ".name")%string "tool name" "spec.tools"
      "Every tool needs a unique name." "Each tool name must be unique within an MCP server."
      i (mt_Name tool) st in
  if decide (mt_Responses tool = []) then
    (addError (field +:+ ".responses")%string "tool has no responses"
       "Add at least one entry under tool.responses with either `match:` or `default: true`." ctx,
     seenNames)
  else ((each_st (check_tool_response field) 0 (mt_Responses tool) (ctx, false)).1, seenNames).

Definition validateMCPTools (def : MCPServerDefinition) : check := λ ctx,
  (each_st check_mcp_tool 0 (mss_Tools (msd_Spec def)) (ctx, ∅)).1.

Definition check_resource (i : nat) (res : MCPResource) (st : validationContext * gmap string nat)
  : validationContext * gmap string nat :=
  check_unique (index_field "spec.resources" i +:+ ".uri")%string "resource URI" "spec.resources"
    "Every resource needs a URI (e.g. file:///docs/readme.md)."
    "Each resource URI must be unique within an MCP server." i (ms_URI res) st.

Definition validateMCPResources (def : MCPServerDefinition) : check := λ ctx,
  (each_st check_resource 0 (mss_Resources (msd_Spec def)) (ctx, ∅)).1.

Definition check_prompt_arg (field : string) (j : nat) (arg : MCPPromptArg) : check :=
  required (mpa_Name arg) (at_index field "arguments" j +:+ ".name")%string "required field missing"
    "Every prompt argument needs a name.".

Definition check_prompt_message (field : string) (j : nat) (msg : MCPPromptMessage) : check :=
  required (mpm_Role msg) (at_index field "messages" j +:+ ".role")%string "required field missing"
    "Set role to user, assistant, or system.";;
  validateMCPContentBlock (at_index field "messages" j +:+ ".content")%string (mpm_Content msg).

(** A prompt without a name of its own is not looked at further. *)
Definition check_prompt (i : nat) (p : MCPPrompt) (st : validationContext * gmap string nat)
  : validationContext * gmap string nat :=
  let field := index_field "spec.prompts" i in
  let fresh := bool_decide (mp_Name p ≠ "" ∧ st.2 !! mp_Name p = None) in
  let '(ctx, seenNames) :=
    check_unique (field +:+ ".name")%string "prompt name" "spec.prompts"
      "Every prompt needs a unique name." "Each prompt name must be unique within an MCP server."
      i (mp_Name p) st in
  if fresh then
    ((each (check_prompt_arg field) 0 (mp_Arguments p);;
      each (check_prompt_message field) 0 (mp_Messages p)) ctx, seenNames)
  else (ctx, seenNames).

Definition validateMCPPrompts (def : MCPServerDefinition) : check := λ ctx,
  (each_st check_prompt 0 (mss_Prompts (msd_Spec def)) (ctx, ∅)).1.

Definition check_exposes (def : MCPServerDefinition) : check :=
  let spec := msd_Spec def in
  if decide (mss_Tools spec = [] ∧ mss_Resources spec = [] ∧ mss_Prompts spec = []) then
    addError "spec" "MCP server exposes no tools, resources, or prompts"
      "Add at least one entry under spec.tools, spec.resources, or spec.prompts."
  else skip.

Definition ValidateMCPServer (def : MCPServerDefinition) (filePath : string) (node : option Node)
  : option ValidationErrorList :=
  report
    ((require_version (msd_APIVersion def);; require_kind (msd_Kind def) MCPServerKind;;
      validateMetadataName (md_Name (msd_Metadata def)) "metadata.name" "mcp-server";;
      check_exposes def;; validateMCPTools def;; validateMCPResources def;; validateMCPPrompts def)
       (mkContext filePath node [])).

(** ** What the validators accept *)

Definition assertion_ok (a : TestAssertion) : Prop :=
  ta_Type a = AssertToolCall ∧ ta_Tool a ≠ "" ∨
  (ta_Type a = AssertResponseContains ∨ ta_Type a = AssertScenarioMatched) ∧ ta_Value a ≠ "" ∨
  ta_Type a = AssertLatencyMsLT ∧ (0 < ta_MaxMs a)%Z.

Definition case_ok (c : TestCase) : Prop :=
  tc_Name c ≠ "" ∧ tc_Steps c ≠ [] ∧
  (∀ s, s ∈ tc_Steps c → ts_Role s ≠ "" ∧ ts_Content s ≠ "") ∧
  (∀ a, a ∈ tc_Assertions c → assertion_ok a).

Definition suite_ok (def : TestSuiteDefinition) : Prop :=
  let target := tss_Target (tsd_Spec def) in
  let cases := tss_Cases (tsd_Spec def) in
  tsd_APIVersion def = AgentAPIVersion ∧ tsd_Kind def = TestSuiteKind ∧
  kebab_name (md_Name (tsd_Metadata def)) ∧ (tt_Agent target = "" ↔ tt_Pipeline target ≠ "") ∧
  cases ≠ [] ∧ (∀ c, c ∈ cases → case_ok c) ∧ NoDup (tc_Name <$> cases).

Definition block_ok (b : MCPContentBlock) : Prop :=
  mb_Type b = "text" ∧ mb_Text b ≠ "" ∨
  (mb_Type b = "image" ∨ mb_Type b = "audio") ∧ mb_Data b ≠ "" ∧ mb_MimeType b ≠ "" ∨
  mb_Type b = "resource" ∧ mb_URI b ≠ "" ∧ (mb_Text b = "" ↔ mb_Blob b ≠ "").

Definition mcp_response_ok (r : MCPToolResponse) : Prop :=
  (mtr_Match r = [] ↔ mtr_Default r = true) ∧ ∀ b, b ∈ mtr_Content r → block_ok b.

Definition mcp_tool_ok (t : MCPTool) : Prop :=
  mt_Name t ≠ "" ∧ mt_Responses t ≠ [] ∧ (∀ r, r ∈ mt_Responses t → mcp_response_ok r) ∧
  length (filter (λ r, mtr_Default r = true) (mt_Responses t)) ≤ 1.

Definition prompt_ok (p : MCPPrompt) : Prop :=
  mp_Name p ≠ "" ∧ (∀ a, a ∈ mp_Arguments p → mpa_Name a ≠ "") ∧
  (∀ m, m ∈ mp_Messages p → mpm_Role m ≠ "" ∧ block_ok (mpm_Content m)).

Definition mcp_server_ok (def : MCPServerDefinition) : Prop :=
  let spec := msd_Spec def in
  msd_APIVersion def = AgentAPIVersion ∧ msd_Kind def = MCPServerKind ∧
  kebab_name (md_Name (msd_Metadata def)) ∧
  (mss_Tools spec ≠ [] ∨ mss_Resources spec ≠ [] ∨ mss_Prompts spec ≠ []) ∧
  (∀ t, t ∈ mss_Tools spec → mcp_tool_ok t) ∧ NoDup (mt_Name <$> mss_Tools spec) ∧
  (∀ r, r ∈ mss_Resources spec → ms_URI r ≠ "") ∧ NoDup (ms_URI <$> mss_Resources spec) ∧
  (∀ p, p ∈ mss_Prompts spec → prompt_ok p) ∧ NoDup (mp_Name <$> mss_Prompts spec).

#[local] Instance accepts_required v field msg sug : Accepts (required v field msg sug) (v ≠ "").
Proof. eapply accepts_iff; [apply _|]. destruct (decide (v = "")); tauto. Qed.

Definition name_key {A} (name : A → string) (x : A) : option string :=
  if decide (name x = "") then None else Some (name x).

Section unique.
Context {A : Type} (name : A → string) (field : nat → string) (what plural sug1 sug2 : string).

Lemma check_unique_next i (x : A) ctx seen :
  (check_unique (field i) what plural sug1 sug2 i (name x) (ctx, seen)).2 = track (name_key name) i seen x.
Proof.
  unfold check_unique, track, name_key. destruct (decide (name x = "")); [done|].
  by destruct (seen !! name x).
Qed.

Lemma check_unique_accepts i (x : A) seen :
  Accepts (λ ctx, (check_unique (field i) what plural sug1 sug2 i (name x) (ctx, seen)).1)
    (name x ≠ "" ∧ ∀ k, name_key name x = Some k → ¬ is_tracked seen k).
Proof.
  intros ctx. unfold check_unique, name_key, is_tracked. setoid_rewrite <-eq_None_not_Some.
  destruct (decide (name x = "")), (seen !! name x) eqn:?; simpl; rewrite ?(accepts ctx); naive_solver.
Qed.

(** A loop whose names are checked this way, the rest of its body on the side. *)
Lemma unique_names (body : nat → A → validationContext * gmap string nat → validationContext * gmap string nat)
    (Q : A → Prop) l :
  (∀ x, Q x → name x ≠ "") →
  (∀ i x ctx seen, (body i x (ctx, seen)).2 = track (name_key name) i seen x) →
  (∀ i x seen, Accepts (λ ctx, (body i x (ctx, seen)).1)
     (Q x ∧ ∀ k, name_key name x = Some k → ¬ is_tracked seen k)) →
  Accepts (λ ctx, (each_st body 0 l (ctx, ∅)).1) ((∀ x, x ∈ l → Q x) ∧ NoDup (name <$> l)).
Proof.
  intros HQ Hn Hb. eapply accepts_iff; [by apply (accepts_unique (name_key name) is_tracked
    (track (name_key name)) body Q ∅ l (untracked_empty (K := string)))|].
  apply and_iff_compat_weak. intros Hall. rewrite (omap_keys _ name); [done|].
  intros x Hx. apply decide_False, HQ. by apply Hall.
Qed.
End unique.

(** *** Test suites *)

#[local] Instance accepts_assertion field a : Accepts (validateTestAssertion field a) (assertion_ok a).
Proof.
  unfold validateTestAssertion, assertion_ok.
  destruct (decide (ta_Type a = "")) as [->|He].
  { eapply accepts_iff; [apply _|]. naive_solver. }
  destruct (decide (ta_Type a = AssertToolCall)) as [->|H1].
  { eapply accepts_iff; [apply _|]. naive_solver. }
  destruct (decide (ta_Type a = AssertResponseContains)) as [->|H2].
  { eapply accepts_iff; [apply _|]. naive_solver. }
  destruct (decide (ta_Type a = AssertScenarioMatched)) as [->|H3].
  { eapply accepts_iff; [apply _|]. naive_solver. }
  destruct (decide (ta_Type a = AssertLatencyMsLT)) as [->|H4]; (eapply accepts_iff; [apply _|]);
    [rewrite <-Z.nle_gt|]; naive_solver.
Qed.

#[local] Instance accepts_step field j s :
  Accepts (check_step field j s) (ts_Role s ≠ "" ∧ ts_Content s ≠ "").
Proof. apply _. Qed.

Lemma validateTestSuiteCases_accepts def : let cases := tss_Cases (tsd_Spec def) in
  Accepts (validateTestSuiteCases def)
    (cases ≠ [] ∧ (∀ c, c ∈ cases → case_ok c) ∧ NoDup (tc_Name <$> cases)).
Proof.
  cbv zeta. intros ctx. unfold validateTestSuiteCases. set (cases := tss_Cases _).
  destruct (decide (cases = [])) as [|Hne]; [rewrite (accepts ctx); tauto|].
  assert (Accepts (λ ctx, (each_st check_case 0 cases (ctx, ∅)).1)
    ((∀ c, c ∈ cases → case_ok c) ∧ NoDup (tc_Name <$> cases))) as H; [|rewrite (H ctx); tauto].
  apply unique_names.
  - by intros c [? _].
  - intros i c ctx' seen. unfold check_case.
    pose proof (check_unique_next tc_Name (λ i, index_field "spec.cases" i +:+ ".name")%string) as Hn.
    rewrite <-(Hn "case name" "spec.cases" "Every test case needs a name (unique within the suite)."
      "Each case name must be unique within a test suite." i c ctx' seen).
    by destruct (check_unique _ _ _ _ _ _ _ _).
  - intros i c seen ctx'. unfold check_case.
    pose proof (check_unique_accepts tc_Name (λ i, index_field "spec.cases" i +:+ ".name")%string
      "case name" "spec.cases" "Every test case needs a name (unique within the suite)."
      "Each case name must be unique within a test suite." i c seen ctx') as Hu. cbn beta in Hu.
    destruct (check_unique _ _ _ _ _ _ _ _) as [ctx1 seen1]. simpl in Hu |- *.
    rewrite (accepts ctx1), Hu. unfold case_ok. destruct (decide (tc_Steps c = [])); tauto.
Qed.

(** *** MCP servers *)

#[local] Instance accepts_block field b : Accepts (validateMCPContentBlock field b) (block_ok b).
Proof.
  unfold validateMCPContentBlock, block_ok.
  destruct (decide (mb_Type b = "")) as [->|He].
  { eapply accepts_iff; [apply _|]. naive_solver. }
  destruct (one_of (mb_Type b) validMCPContentTypes) eqn:Hone; simpl.
  2: { assert (mb_Type b ∉ validMCPContentTypes) as Hno by (rewrite <-one_of_spec; congruence).
       unfold validMCPContentTypes in Hno. rewrite !not_elem_of_cons in Hno.
       eapply accepts_iff; [apply _|]. tauto. }
  destruct (decide (mb_Type b = "text")) as [->|H1].
  { eapply accepts_iff; [apply _|]. naive_solver. }
  destruct (decide (mb_Type b = "image")) as [->|H2].
  { eapply accepts_iff; [apply _|]. naive_solver. }
  destruct (decide (mb_Type b = "audio")) as [->|H3].
  { eapply accepts_iff; [apply _|]. naive_solver. }
  apply one_of_spec in Hone. unfold validMCPContentTypes in Hone.
  rewrite !elem_of_cons, elem_of_nil in Hone.
  assert (mb_Type b = "resource") as Hr by tauto. rewrite decide_True by done.
  eapply accepts_iff; [apply _|].
  destruct (decide (mb_Text b = "")), (decide (mb_Blob b = "")); tauto.
Qed.

(** The default flag of the responses so far is a duplicate check of its own. *)
Definition default_key (r : MCPToolResponse) : option unit :=
  if mtr_Default r then Some () else None.

#[local] Instance default_tracks :
  Tracks default_key (λ saw _, saw = true) (λ _ saw r, saw || mtr_Default r).
Proof. intros i saw r []. unfold default_key. destruct saw, (mtr_Default r); naive_solver. Qed.

Lemma one_default rs : NoDup (omap default_key rs) ↔ length (filter (λ r, mtr_Default r = true) rs) ≤ 1.
Proof.
  assert (omap default_key rs = replicate (length (filter (λ r, mtr_Default r = true) rs)) ()) as ->.
  { induction rs as [|r rs IH]; [done|]. csimpl. rewrite filter_cons. unfold default_key at 1.
    destruct (mtr_Default r); simpl; by rewrite IH. }
  destruct (length _) as [|[|n]]; simpl; split; try (intros; lia); intros H; try constructor.
  - by apply not_elem_of_nil.
  - constructor.
  - apply NoDup_cons_1_1 in H. set_solver.
Qed.

Lemma tool_responses_accept field rs :
  Accepts (λ ctx, (each_st (check_tool_response field) 0 rs (ctx, false)).1)
    ((∀ r, r ∈ rs → mcp_response_ok r) ∧ length (filter (λ r, mtr_Default r = true) rs) ≤ 1).
Proof.
  eapply accepts_iff.
  { apply (accepts_unique default_key (λ saw _, saw = true) (λ _ saw r, saw || mtr_Default r)
      (check_tool_response field) mcp_response_ok false rs); [done|done|].
    intros j r saw ctx. unfold check_tool_response. cbn [fst]. rewrite (accepts ctx).
    unfold mcp_response_ok, default_key.
    destruct (decide (mtr_Match r = [])), (mtr_Default r), saw; naive_solver. }
  apply and_iff_compat_weak. intros _. apply one_default.
Qed.

Lemma validateMCPTools_accepts def : let tools := mss_Tools (msd_Spec def) in
  Accepts (validateMCPTools def) ((∀ t, t ∈ tools → mcp_tool_ok t) ∧ NoDup (mt_Name <$> tools)).
Proof.
  cbv zeta. apply unique_names.
  - by intros t [? _].
  - intros i t ctx seen. unfold check_mcp_tool.
    pose proof (check_unique_next mt_Name (λ i, index_field "spec.tools" i +:+ ".name")%string) as Hn.
    rewrite <-(Hn "tool name" "spec.tools" "Every tool needs a unique name."
      "Each tool name must be unique within an MCP server." i t ctx seen).
    destruct (check_unique _ _ _ _ _ _ _ _). by destruct (decide _).
  - intros i t seen ctx. unfold check_mcp_tool.
    pose proof (check_unique_accepts mt_Name (λ i, index_field "spec.tools" i +:+ ".name")%string
      "tool name" "spec.tools" "Every tool needs a unique name."
      "Each tool name must be unique within an MCP server." i t seen ctx) as Hu. cbn beta in Hu.
    destruct (check_unique _ _ _ _ _ _ _ _) as [ctx1 seen1]. simpl in Hu. unfold mcp_tool_ok.
    destruct (decide (mt_Responses t = [])); simpl; [rewrite (accepts ctx1); tauto|].
    rewrite (tool_responses_accept _ _ ctx1), Hu. tauto.
Qed.

Lemma validateMCPResources_accepts def : let resources := mss_Resources (msd_Spec def) in
  Accepts (validateMCPResources def)
    ((∀ r, r ∈ resources → ms_URI r ≠ "") ∧ NoDup (ms_URI <$> resources)).
Proof.
  cbv zeta. apply unique_names; [done| |].
  - intros i r ctx seen. apply (check_unique_next ms_URI (λ i, index_field "spec.resources" i +:+ ".uri")%string).
  - intros i r seen. apply (check_unique_accepts ms_URI (λ i, index_field "spec.resources" i +:+ ".uri")%string).
Qed.

Lemma validateMCPPrompts_accepts def : let prompts := mss_Prompts (msd_Spec def) in
  Accepts (validateMCPPrompts def) ((∀ p, p ∈ prompts → prompt_ok p) ∧ NoDup (mp_Name <$> prompts)).
Proof.
  cbv zeta. apply unique_names.
  - by intros p [? _].
  - intros i p ctx seen. unfold check_prompt.
    pose proof (check_unique_next mp_Name (λ i, index_field "spec.prompts" i +:+ ".name")%string) as Hn.
    rewrite <-(Hn "prompt name" "spec.prompts" "Every prompt needs a unique name."
      "Each prompt name must be unique within an MCP server." i p ctx seen).
    destruct (check_unique _ _ _ _ _ _ _ _). by destruct (bool_decide _).
  - intros i p seen ctx. unfold check_prompt.
    pose proof (check_unique_accepts mp_Name (λ i, index_field "spec.prompts" i +:+ ".name")%string
      "prompt name" "spec.prompts" "Every prompt needs a unique name."
      "Each prompt name must be unique within an MCP server." i p seen ctx) as Hu. cbn beta in Hu.
    destruct (check_unique _ _ _ _ _ _ _ _) as [ctx1 seen1]. simpl in Hu |- *. unfold prompt_ok.
    assert (mp_Name p ≠ "" ∧ (∀ k, name_key mp_Name p = Some k → ¬ is_tracked seen k) ↔
      mp_Name p ≠ "" ∧ seen !! mp_Name p = None) as Hk.
    { unfold name_key, is_tracked. setoid_rewrite <-eq_None_not_Some.
      destruct (decide (mp_Name p = "")); naive_solver. }
    destruct (bool_decide_reflect (mp_Name p ≠ "" ∧ seen !! mp_Name p = None)) as [Hf|Hf]; simpl.
    + rewrite (accepts ctx1), Hu. tauto.
    + rewrite Hu. tauto.
Qed.

(** ** Properties *)

(** the test-suite validator answers no errors exactly on the well-formed
    suites: one target, cases with names of their own, each with steps that have a
    role and a content, and assertions of a known type with the field that type
    reads. The MCP validator answers no errors exactly on the servers that expose
    something, whose tools, resources and prompts have names of their own, whose
    responses either match or are the one default of their tool, and whose content
    blocks carry what their type needs. *)
Theorem document_validators_decide :
  (∀ def file nd, ValidateTestSuite def file nd = None ↔ suite_ok def) ∧
  (∀ def file nd, ValidateMCPServer def file nd = None ↔ mcp_server_ok def).
Proof.
  split; intros def file nd; eapply report_accepts, accepts_iff.
  - apply accepts_andThen; [apply accepts_version|]. apply accepts_andThen; [by apply accepts_kind|].
    apply accepts_andThen; [apply accepts_name|].
    apply accepts_andThen; [unfold validateTestSuiteTarget; apply _|apply validateTestSuiteCases_accepts].
  - unfold suite_ok. cbv zeta. set (a := tt_Agent _). set (p := tt_Pipeline _).
    destruct (decide (a = "")), (decide (p = "")); tauto.
  - apply accepts_andThen; [apply accepts_version|]. apply accepts_andThen; [by apply accepts_kind|].
    apply accepts_andThen; [apply accepts_name|]. apply accepts_andThen; [unfold check_exposes; apply _|].
    apply accepts_andThen; [apply validateMCPTools_accepts|].
    apply accepts_andThen; [apply validateMCPResources_accepts|apply validateMCPPrompts_accepts].
  - unfold mcp_server_ok. cbv zeta.
    destruct (decide (mss_Tools (msd_Spec def) = [])), (decide (mss_Resources (msd_Spec def) = [])),
      (decide (mss_Prompts (msd_Spec def) = [])); tauto.
Qed.
End documents.
