(* ===== verification/Loader.v ===== *)
(** Loading documents: the files of a directory, their kinds and their typed decoding
    ([internal/config/loader.go]), and the validation of a document in memory
    ([validate_bytes.go], [error_reporter.go]).

    A file system is a map from paths to contents; the paths of the files of a directory
    are the joins of its name and theirs. The texts of the operating system's errors, the
    YAML library and [encoding/json] are parameters. *)

From Stdlib Require Import Ascii.
From S2P Require Import Prelude GoBase GoStrings AgentTypes DocumentTypes ScenarioMatcher Validation FilePath.
From S2P Require Import PipelineValidator AgentValidator DocumentValidators.

(** ** Files *)

Abbreviation file_system := (gmap string string).

(** What fails, with the text of its error. *)
Record IoFaults := mkIoFaults { io_readdir : string → option string; io_read : string → option string }.

Definition no_faults : IoFaults := mkIoFaults (λ _, None) (λ _, None).

(** [os.ReadFile]. *)
Definition ReadFile (io : IoFaults) (fs : file_system) (path : string) : string + string :=
  match io_read io path with
  | Some err => inl err
  | None => match fs !! path with
            | Some data => inr data
            | None => inl ("open " +:+ path +:+ ": no such file or directory")
            end
  end.

Definition in_dir (dir path : string) : option string :=
  let n := Base path in if decide (join_path dir n = path) then Some n else None.

(** The names of the files of a directory, sorted, as [os.ReadDir] lists them. *)
Definition dir_names (fs : file_system) (dir : string) : list string :=
  merge_sort String.le (elements (list_to_set (omap (in_dir dir) (map_to_list fs).*1) : gset string)).

Definition ReadDir (io : IoFaults) (fs : file_system) (dir : string) : string + list string :=
  if decide (dir = "") then inl "open : no such file or directory"
  else match io_readdir io dir with Some err => inl err | None => inr (dir_names fs dir) end.

(** ** Documents *)

(** The YAML library and [encoding/json]: a failure is the text of its error. *)
Class YamlDocs {yaml : GoYaml} := {
  json_Unmarshal : string → string + value;
  yaml_MarshalAny : value → string + string;
  yaml_Unmarshal : string → string + Node;
  DecodeAgent : Node → string + AgentDefinition;
  DecodePipeline : Node → string + PipelineDefinition;
  DecodeTestSuite : Node → string + TestSuiteDefinition;
  DecodeMCPServer : Node → string + MCPServerDefinition
}.

Inductive LoadError :=
| ErrReading (path err : string)
| ErrEmptyFile (path : string)
| ErrInvalidJSON (path err : string)
| ParseError (path err : string)
| ErrReadingDir (dir err : string)
| ErrUnrecognizedKind (path kind : string).

Record Loaded (A : Type) {yaml : GoYaml} := mkLoaded { ld_Definition : A; ld_Node : Node; ld_FilePath : string }.
Arguments mkLoaded {A yaml}. Arguments ld_Definition {A yaml}. Arguments ld_Node {A yaml}. Arguments ld_FilePath {A yaml}.

Section loader.
Context {yaml : GoYaml} {docs : YamlDocs} {lower : GoLower}.

Definition isJSON (path : string) : bool := bool_decide (ToLower (Ext path) = ".json").

Definition jsonToYAML (data : string) : string + string :=
  match json_Unmarshal data with inl err => inl err | inr raw => yaml_MarshalAny raw end.

Definition readAndParse (io : IoFaults) (fs : file_system) (path : string) : LoadError + Node :=
  match ReadFile io fs path with
  | inl err => inl (ErrReading path err)
  | inr data =>
      if decide (TrimSpace data = "") then inl (ErrEmptyFile path)
      else
        match (if isJSON path then jsonToYAML data else inr data) with
        | inl err => inl (ErrInvalidJSON path err)
        | inr data =>
            match yaml_Unmarshal data with
            | inl err => inl (ParseError path err)
            | inr doc => inr doc
            end
        end
  end.

Definition peekKind (doc : Node) : string :=
  match Content doc with
  | [] => ""
  | root :: _ =>
      match Kind root with
      | MappingNode => match mapping_value (Content root) "kind" with Some v => Value v | None => "" end
      | _ => ""
      end
  end.

Definition decode_as {A} (Decode : Node → string + A) (path : string) (doc : Node) : LoadError + Loaded A :=
  match Decode doc with
  | inl err => inl (ParseError path err)
  | inr def => inr (mkLoaded def doc path)
  end.

Definition load_as {A} (Decode : Node → string + A) (io : IoFaults) (fs : file_system) (path : string) : LoadError + Loaded A :=
  match readAndParse io fs path with
  | inl err => inl err
  | inr doc => decode_as Decode path doc
  end.

Definition LoadFile := load_as DecodeAgent.
Definition LoadPipelineFile := load_as DecodePipeline.
Definition LoadTestSuiteFile := load_as DecodeTestSuite.
Definition LoadMCPServerFile := load_as DecodeMCPServer.

Definition document_name (name : string) : bool :=
  let ext := ToLower (Ext name) in bool_decide (ext = ".yaml" ∨ ext = ".yml" ∨ ext = ".json").

Definition listDocumentPaths (io : IoFaults) (fs : file_system) (dir : string) : LoadError + list string :=
  match ReadDir io fs dir with
  | inl err => inl (ErrReadingDir dir err)
  | inr entries => inr (join_path dir <$> filter (λ name, document_name name = true) entries)
  end.

(** One file of [LoadDir]: nothing when it holds another kind of document. *)
Definition load_agent (io : IoFaults) (fs : file_system) (path : string) : option (LoadError + Loaded AgentDefinition) :=
  match readAndParse io fs path with
  | inl err => Some (inl err)
  | inr doc => if decide (peekKind doc ≠ "" ∧ peekKind doc ≠ AgentKind) then None else Some (decode_as DecodeAgent path doc)
  end.

Definition lefts {A B} (l : list (A + B)) : list A := omap (λ x, match x with inl a => Some a | inr _ => None end) l.
Definition rights {A B} (l : list (A + B)) : list B := omap (λ x, match x with inr b => Some b | inl _ => None end) l.

Definition LoadDir (io : IoFaults) (fs : file_system) (dir : string) : list (Loaded AgentDefinition) * list LoadError :=
  match listDocumentPaths io fs dir with
  | inl err => ([], [err])
  | inr paths => let found := omap (load_agent io fs) paths in (rights found, lefts found)
  end.

Record Documents := mkDocuments {
  docs_Agents : list (Loaded AgentDefinition);
  docs_Pipelines : list (Loaded PipelineDefinition);
  docs_TestSuites : list (Loaded TestSuiteDefinition);
  docs_MCPServers : list (Loaded MCPServerDefinition)
}.

(** One file of [LoadAllDocuments], after the files before it. *)
Definition load_document (io : IoFaults) (fs : file_system) (acc : Documents * list LoadError) (path : string)
    : Documents * list LoadError :=
  let '(mkDocuments agents pipelines suites servers as d, errs) := acc in
  match readAndParse io fs path with
  | inl err => (d, errs ++ [err])
  | inr doc =>
      let kind := peekKind doc in
      if decide (kind = AgentKind ∨ kind = "") then
        match decode_as DecodeAgent path doc with
        | inl err => (d, errs ++ [err])
        | inr r => (mkDocuments (agents ++ [r]) pipelines suites servers, errs)
        end
      else if decide (kind = PipelineKind) then
        match decode_as DecodePipeline path doc with
        | inl err => (d, errs ++ [err])
        | inr r => (mkDocuments agents (pipelines ++ [r]) suites servers, errs)
        end
      else if decide (kind = TestSuiteKind) then
        match decode_as DecodeTestSuite path doc with
        | inl err => (d, errs ++ [err])
        | inr r => (mkDocuments agents pipelines (suites ++ [r]) servers, errs)
        end
      else if decide (kind = MCPServerKind) then
        match decode_as DecodeMCPServer path doc with
        | inl err => (d, errs ++ [err])
        | inr r => (mkDocuments agents pipelines suites (servers ++ [r]), errs)
        end
      else (d, errs ++ [ErrUnrecognizedKind path kind])
  end.

Definition LoadAllDocuments (io : IoFaults) (fs : file_system) (dir : string) : Documents * list LoadError :=
  match listDocumentPaths io fs dir with
  | inl err => (mkDocuments [] [] [] [], [err])
  | inr paths => foldl (load_document io fs) (mkDocuments [] [] [] [], []) paths
  end.

(** ** A document in memory *)

Record ValidateReport := mkValidateReport { rep_Kind : string; rep_Errors : list ValidationError }.

(** The first byte that is no white space of JSON is a brace or a bracket. *)
Fixpoint looksLikeJSON (data : string) : bool :=
  match data with
  | "" => false
  | String c data =>
      if decide (c ∈ [" "; "009"; "010"; "013"]%char) then looksLikeJSON data else bool_decide (c ∈ ["{"; "["]%char)
  end.

(** The digits a text starts with, when something else follows them. *)
Fixpoint leading_digits (acc rest : string) : string :=
  match rest with
  | "" => ""
  | String c rest => if is_digit c then leading_digits (acc +:+ String c "") rest else acc
  end.

(** The line a YAML error names. *)
Definition error_line (msg : string) : Z :=
  match Index msg "line " with
  | None => 0
  | Some idx => default 0%Z (Atoi (leading_digits "" (str_drop (idx + 5) msg)))
  end.

Definition document_error (msg : string) : ValidationError := mkValidationError "" 0 0 "document" msg "".

Definition parseErrorAsValidationError (msg : string) : ValidationError :=
  mkValidationError "" (error_line msg) 0 "document" msg "".

Context {fmt : GoFmt} {re : GoRegexp} {re_err : RegexpError} {mr : MapRange}.

Definition list_errors (errs : option ValidationErrorList) : list ValidationError :=
  match errs with Some l => Errors l | None => [] end.

(** The case of one kind: decoding, then the validator of the kind. *)
Definition validate_as {A} (kind final : string) (Decode : Node → string + A)
    (Validator : A → string → option Node → option (option ValidationErrorList)) (doc : Node) : option ValidateReport :=
  match Decode doc with
  | inl err => Some (mkValidateReport kind [parseErrorAsValidationError err])
  | inr def => errs ← Validator def "" (Some doc); Some (mkValidateReport final (list_errors errs))
  end.

(** The [switch] over the kinds; [None] is a pipeline validation out of fuel. *)
Definition validate_document (doc : Node) : option ValidateReport :=
  let kind := peekKind doc in
  if decide (kind = "" ∨ kind = "Agent") then
    validate_as kind "Agent" DecodeAgent (λ def file nd, Some (Validate def file nd)) doc
  else if decide (kind = "Pipeline") then validate_as kind kind DecodePipeline ValidatePipeline doc
  else if decide (kind = "TestSuite") then
    validate_as kind kind DecodeTestSuite (λ def file nd, Some (ValidateTestSuite def file nd)) doc
  else if decide (kind = "MCPServer") then
    validate_as kind kind DecodeMCPServer (λ def file nd, Some (ValidateMCPServer def file nd)) doc
  else
    Some (mkValidateReport kind
      [mkValidationError "" 0 0 "kind"
         ("unknown kind " +:+ Quote kind +:+ " (want Agent, Pipeline, TestSuite, or MCPServer)") ""]).

Definition ValidateBytes (data : string) : option ValidateReport :=
  if decide (TrimSpace data = "") then Some (mkValidateReport "" [document_error "document is empty"])
  else
    match (if looksLikeJSON data then jsonToYAML data else inr data) with
    | inl err => Some (mkValidateReport "" [document_error ("invalid JSON: " +:+ err)])
    | inr data =>
        match yaml_Unmarshal data with
        | inl err => Some (mkValidateReport "" [parseErrorAsValidationError err])
        | inr doc => validate_document doc
        end
    end.

(** ** Rendering *)

Inductive ErrorFormat := ErrorFormatText | ErrorFormatJSON.

Definition formatText (errs : list ValidationError) : string := Join (Error <$> errs) newline.

(** [json_MarshalIndent] is the document, or the text of an error. *)
Definition formatJSON (json_MarshalIndent : list ValidationError → string + string) (errs : list ValidationError) : string :=
  match json_MarshalIndent errs with
  | inl err => "[{" +:+ byte 34 +:+ "error" +:+ byte 34 +:+ ": " +:+ byte 34 +:+ "failed to marshal errors: " +:+ err +:+
               byte 34 +:+ "}]"
  | inr data => data
  end.

Definition FormatErrors (json_MarshalIndent : list ValidationError → string + string) (errs : list ValidationError)
    (format : ErrorFormat) : string :=
  if decide (errs = []) then ""
  else match format with ErrorFormatJSON => formatJSON json_MarshalIndent errs | ErrorFormatText => formatText errs end.

Definition FormatSummary (totalFiles totalErrors : Z) : string :=
  if decide (totalErrors = 0%Z) then "Validated " +:+ fmt_d totalFiles +:+ " file(s): all valid."
  else "Validated " +:+ fmt_d totalFiles +:+ " file(s): " +:+ fmt_d totalErrors +:+ " error(s) found.".
End loader.

Example error_lines :
  error_line <$> ["yaml: line 12: did not find"; "yaml: line 12"; "yaml: unmarshal errors"; "at line x"] = [12; 0; 0; 0]%Z.
Proof. reflexivity. Qed.

(** ** Loading a directory *)

Section loading_a_directory.
Context {yaml : GoYaml} {docs : YamlDocs} {lower : GoLower}.

Lemma rights_app {A B} (l k : list (A + B)) : rights (l ++ k) = rights l ++ rights k.
Proof. apply omap_app. Qed.

Lemma lefts_app {A B} (l k : list (A + B)) : lefts (l ++ k) = lefts l ++ lefts k.
Proof. apply omap_app. Qed.

Lemma load_document_step io fs acc path :
  docs_Agents (load_document io fs acc path).1 = docs_Agents acc.1 ++ rights (option_list (load_agent io fs path)) ∧
  ∃ errs, (load_document io fs acc path).2 = acc.2 ++ errs ∧ lefts (option_list (load_agent io fs path)) `sublist_of` errs.
Proof.
  destruct acc as [[a p s m] errs]. unfold load_document, load_agent. cbn [fst snd docs_Agents].
  destruct (readAndParse io fs path) as [err|doc]; [cbn; rewrite app_nil_r; split; [done|]; by exists [err]|].
  destruct (decide (peekKind doc = AgentKind ∨ peekKind doc = "")) as [Hk|Hk].
  - rewrite (decide_False (P := _ ∧ _)) by tauto. destruct (decode_as DecodeAgent path doc) as [err|r]; cbn;
      rewrite ?app_nil_r; (split; [done|]); [by exists [err]|by exists []; rewrite app_nil_r].
  - rewrite (decide_True (P := _ ∧ _)) by tauto. cbn. rewrite app_nil_r.
    repeat case_decide; repeat case_match; cbn; (split; [done|]);
      first [by eexists; split; [|apply sublist_nil_l]|exists []; by rewrite app_nil_r].
Qed.

Lemma load_documents_agents io fs paths acc :
  docs_Agents (foldl (load_document io fs) acc paths).1 =
    docs_Agents acc.1 ++ rights (omap (load_agent io fs) paths) ∧
  acc.2 ++ lefts (omap (load_agent io fs) paths) `sublist_of` (foldl (load_document io fs) acc paths).2.
Proof.
  revert acc. induction paths as [|path paths IH]; intros acc; [by rewrite !app_nil_r|]. cbn [foldl].
  destruct (IH (load_document io fs acc path)) as [-> He]. destruct (load_document_step io fs acc path) as (-> & errs & Herr & Hsub).
  rewrite Herr in He.
  assert (omap (load_agent io fs) (path :: paths) = option_list (load_agent io fs path) ++ omap (load_agent io fs) paths) as ->.
  { cbn. by destruct (load_agent io fs path). }
  rewrite rights_app, lefts_app, (assoc_L (++)). split; [done|]. etrans; [|exact He].
  rewrite <-(assoc_L (++)). apply sublist_app; [done|]. by apply sublist_app.
Qed.

(** Scanning a directory for agents finds what sorting all its documents files under
    agents, and reports nothing the sorting does not report too. *)
Theorem LoadDir_is_agents io fs dir :
  docs_Agents (LoadAllDocuments io fs dir).1 = (LoadDir io fs dir).1 ∧
  (LoadDir io fs dir).2 `sublist_of` (LoadAllDocuments io fs dir).2.
Proof.
  unfold LoadAllDocuments, LoadDir. destruct (listDocumentPaths io fs dir) as [err|paths]; [done|].
  by destruct (load_documents_agents io fs paths (mkDocuments [] [] [] [], [])).
Qed.

Lemma elem_of_dir_names fs dir name :
  name ∈ dir_names fs dir ↔ join_path dir name ∈ dom fs ∧ Base (join_path dir name) = name.
Proof.
  unfold dir_names. rewrite merge_sort_Permutation, elem_of_elements, elem_of_list_to_set, list_elem_of_omap. unfold in_dir.
  setoid_rewrite elem_of_dom. split.
  - intros (k & Hk & Hin). cbn zeta in Hin. case_decide as Hj; [|done]. injection Hin as <-. rewrite Hj.
    apply list_elem_of_fmap in Hk as ([k' data] & -> & Hk). apply elem_of_map_to_list in Hk. split; [by exists data|done].
  - intros ([data Hdata] & Hbase). exists (join_path dir name). split.
    + apply list_elem_of_fmap. exists (join_path dir name, data). split; [done|]. by apply elem_of_map_to_list.
    + cbn zeta. by rewrite Hbase, decide_True.
Qed.

(** What a scan finds: the agents of the readable documents of the directory. *)
Lemma elem_of_LoadDir io fs dir r :
  r ∈ (LoadDir io fs dir).1 ↔
  dir ≠ "" ∧ io_readdir io dir = None ∧ ∃ name doc, join_path dir name ∈ dom fs ∧ Base (join_path dir name) = name ∧ document_name name = true ∧
    readAndParse io fs (join_path dir name) = inr doc ∧ (peekKind doc = "" ∨ peekKind doc = AgentKind) ∧
    decode_as DecodeAgent (join_path dir name) doc = inr r.
Proof.
  unfold LoadDir, listDocumentPaths, ReadDir. case_decide as Hempty; [set_solver|].
  destruct (io_readdir io dir) as [err|]; [set_solver|].
  cbn [fst]. unfold rights. rewrite list_elem_of_omap. setoid_rewrite list_elem_of_omap.
  setoid_rewrite list_elem_of_fmap. setoid_rewrite list_elem_of_filter. unfold dir_names.
  setoid_rewrite elem_of_dir_names.
  setoid_rewrite elem_of_dom. split.
  - intros (x & (path & (name & -> & Hdoc & Hin & Hbase) & Hload) & Hx). split; [done|]. split; [done|].
    exists name. unfold load_agent in Hload.
    destruct (readAndParse io fs (join_path dir name)) as [|doc] eqn:Hr; [by simplify_eq|].
    case_decide as Hkind; [done|]. simplify_eq. exists doc. split_and!; try done.
    + destruct (decide (peekKind doc = "")); [by left|]. right. destruct (decide (peekKind doc = AgentKind)); [done|tauto].
    + by destruct (decode_as _ _ _); simplify_eq.
  - intros (_ & _ & name & doc & Hin & Hbase & Hdoc & Hr & Hkind & Hdec).
    exists (inr r). split; [|done]. exists (join_path dir name). split; [by exists name|].
    unfold load_agent. rewrite Hr, decide_False by tauto. by rewrite Hdec.
Qed.
End loading_a_directory.

(** ** What a document in memory must be *)

Section in_memory.
Context {yaml : GoYaml} {docs : YamlDocs} {fmt : GoFmt} {re : GoRegexp} {re_err : RegexpError} {mr : MapRange}.

(** The text holds a document: the JSON it looks like, or the YAML it is. *)
Definition reads_as (data : string) (doc : Node) : Prop :=
  TrimSpace data ≠ "" ∧
  ∃ text, (if looksLikeJSON data then jsonToYAML data else inr data) = inr text ∧ yaml_Unmarshal text = inr doc.

(** A well-formed document of the kind reported. *)
Definition valid_document (doc : Node) (kind : string) : Prop :=
  (kind = "Agent" ∧ (peekKind doc = "" ∨ peekKind doc = "Agent") ∧ ∃ def, DecodeAgent doc = inr def ∧ agent_ok def) ∨
  (kind = "Pipeline" ∧ peekKind doc = kind ∧ ∃ def, DecodePipeline doc = inr def ∧ pipeline_ok def) ∨
  (kind = "TestSuite" ∧ peekKind doc = kind ∧ ∃ def, DecodeTestSuite doc = inr def ∧ suite_ok def) ∨
  (kind = "MCPServer" ∧ peekKind doc = kind ∧ ∃ def, DecodeMCPServer doc = inr def ∧ mcp_server_ok def).

Lemma list_errors_report ctx : list_errors (report ctx) = [] ↔ report ctx = None.
Proof.
  destruct (report ctx) as [l|] eqn:Hl; [|done]. split; [|done]. intros Hnil. apply report_errors in Hl as [_ Hl].
  unfold HasErrors in Hl. apply bool_decide_eq_true in Hl. cbn in Hnil. rewrite Hnil in Hl. cbn in Hl. lia.
Qed.

Lemma validate_as_spec {A} kind final (Decode : Node → string + A) Validator (ok : A → Prop) doc :
  (∀ def, ∃ ctx, Validator def "" (Some doc) = Some (report ctx) ∧ (report ctx = None ↔ ok def)) →
  ∃ rep, validate_as kind final Decode Validator doc = Some rep ∧
    (rep_Errors rep = [] ↔ ∃ def, Decode doc = inr def ∧ ok def) ∧ (rep_Errors rep = [] → rep_Kind rep = final).
Proof.
  intros Hok. unfold validate_as. destruct (Decode doc) as [err|def]; [by eexists; split; [done|]; naive_solver|].
  destruct (Hok def) as (ctx & -> & Hctx). cbn [mbind option_bind]. eexists. split; [done|]. cbn [rep_Errors rep_Kind].
  rewrite list_errors_report, Hctx. split; [|done]. naive_solver.
Qed.

Ltac other_kind := exfalso; intuition congruence.

Lemma validate_document_spec doc :
  ∃ rep, validate_document doc = Some rep ∧ (rep_Errors rep = [] ↔ valid_document doc (rep_Kind rep)).
Proof.
  unfold validate_document, valid_document. cbn zeta.
  case_decide as H1; [|case_decide as H2; [|case_decide as H3; [|case_decide as H4]]].
  - edestruct (validate_as_spec (peekKind doc) "Agent" DecodeAgent (λ def file nd, Some (Validate def file nd)) agent_ok doc)
      as (rep & Hrep & Herr & Hk); [intros def; eexists; split; [done|]; apply Validate_accepts|].
    exists rep. split; [done|]. split.
    + intros Hnil. left. split; [by apply Hk|]. split; [done|]. by apply Herr.
    + intros [(_ & _ & Hd)|[?|[?|?]]]; [by apply Herr|other_kind..].
  - edestruct (validate_as_spec (peekKind doc) (peekKind doc) DecodePipeline ValidatePipeline pipeline_ok doc)
      as (rep & Hrep & Herr & Hk); [intros def; apply ValidatePipeline_accepts|].
    exists rep. split; [done|]. split.
    + intros Hnil. right; left. rewrite (Hk Hnil). split; [done|]. split; [done|]. by apply Herr.
    + intros [?|[(_ & _ & Hd)|[?|?]]]; [other_kind|by apply Herr|other_kind..].
  - edestruct (validate_as_spec (peekKind doc) (peekKind doc) DecodeTestSuite (λ def file nd, Some (ValidateTestSuite def file nd)) suite_ok doc)
      as (rep & Hrep & Herr & Hk); [intros def; eexists; split; [done|]; apply document_validators_decide|].
    exists rep. split; [done|]. split.
    + intros Hnil. right; right; left. rewrite (Hk Hnil). split; [done|]. split; [done|]. by apply Herr.
    + intros [?|[?|[(_ & _ & Hd)|?]]]; [other_kind..|by apply Herr|other_kind].
  - edestruct (validate_as_spec (peekKind doc) (peekKind doc) DecodeMCPServer (λ def file nd, Some (ValidateMCPServer def file nd)) mcp_server_ok doc)
      as (rep & Hrep & Herr & Hk); [intros def; eexists; split; [done|]; apply document_validators_decide|].
    exists rep. split; [done|]. split.
    + intros Hnil. right; right; right. rewrite (Hk Hnil). split; [done|]. split; [done|]. by apply Herr.
    + intros [?|[?|[?|(_ & _ & Hd)]]]; [other_kind..|by apply Herr].
  - eexists. split; [done|]. cbn [rep_Errors rep_Kind]. split; [done|]. intros [?|[?|[?|?]]]; other_kind.
Qed.

(** Validating a document in memory always answers, and reports no error exactly on a
    well-formed document of the kind it reports. *)
Theorem ValidateBytes_decides data :
  ∃ rep, ValidateBytes data = Some rep ∧
    (rep_Errors rep = [] ↔ ∃ doc, reads_as data doc ∧ valid_document doc (rep_Kind rep)).
Proof.
  unfold ValidateBytes, reads_as.
  destruct (decide (TrimSpace data = "")) as [Hb|Hb].
  { eexists. split; [done|]. split; [done|]. by intros (doc & [? _] & _). }
  destruct (if looksLikeJSON data then _ else _) as [err|text].
  { eexists. split; [done|]. split; [done|]. by intros (doc & (_ & text & ? & _) & _). }
  destruct (yaml_Unmarshal text) as [err|doc] eqn:Hdoc.
  { eexists. split; [done|]. split; [done|]. intros (doc & (_ & t & [= <-] & Ht) & _). congruence. }
  destruct (validate_document_spec doc) as (rep & Hrep & Hv). exists rep. split; [done|]. rewrite Hv. split.
  - intros H. exists doc. split; [|done]. split; [done|]. by exists text.
  - intros (d & (_ & t & [= <-] & Hd) & Hvalid). congruence.
Qed.
End in_memory.
