(* ===== verification/Loading.v ===== *)
(** Loading a directory of documents: the references between documents
    ([internal/config/cross_document_validator.go]) and the registration of agents
    and pipelines when the server starts ([cmd/mockagents/start.go]). *)

From S2P Require Import Prelude GoBase GoStrings AgentTypes DocumentTypes ResponseGenerator.
From S2P Require Import AgentRegistry PipelineRegistry ScenarioMatcher Engine Pipeline Validation.
From S2P Require Import PipelineValidator AgentValidator.

Section loading.
Context {yaml : GoYaml} {fmt : GoFmt}.
Open Scope check_scope.

(** A parsed document: its definition, by pointer, its node tree and its file. *)
Record LoadResult := mkLoadResult { lr_Definition : option loc; lr_Node : option Node; lr_FilePath : string }.

(** A nil entry of a slice of results is [None]. *)
Record Documents := mkDocuments {
  doc_Agents : list (option LoadResult);
  doc_Pipelines : list (option LoadResult);
  doc_TestSuites : list (option LoadResult);
  doc_MCPServers : list (option LoadResult)
}.

(** The results with a definition, each with what it points to. *)
Definition defined {A} {heap : Heap A} (rs : list (option LoadResult)) : list (LoadResult * A) :=
  omap (λ r, r ← r; p ← lr_Definition r; Some (r, deref p)) rs.

(** ** References between documents *)

Section references.
Context {agents_heap : Heap AgentDefinition} {pipelines_heap : Heap PipelineDefinition}
  {suites_heap : Heap TestSuiteDefinition}.

Definition agentNames (docs : Documents) : gset string :=
  foldl (λ names '(_, def), if decide (agent_name def = "") then names else {[agent_name def]} ∪ names)
    ∅ (defined (heap := agents_heap) (doc_Agents docs)).

Definition node_ids (def : PipelineDefinition) : gset string :=
  foldl (λ ids n, if decide (pa_ID n = "") then ids else {[pa_ID n]} ∪ ids) ∅ (ps_Agents (pd_Spec def)).

Definition pipelineNodeIDs (docs : Documents) : gmap string (gset string) :=
  foldl (λ m '(_, def), let name := md_Name (pd_Metadata def) in
           if decide (name = "") then m else <[name := node_ids def]> m)
    ∅ (defined (heap := pipelines_heap) (doc_Pipelines docs)).

Definition check_ref (agentNames : gset string) (i : nat) (node : PipelineAgent) : check :=
  if decide (pa_Ref node = "" ∨ pa_Ref node ∈ agentNames) then skip
  else addError (index_field "spec.agents" i +:+ ".ref")%string
         ("pipeline references unknown agent " +:+ Quote (pa_Ref node))%string
         ("Add an agent YAML with metadata.name: " +:+ pa_Ref node +:+
          " to the same directory, or fix the ref.")%string.

Definition check_target_agent (agentNames : gset string) (target : TestTarget) : check :=
  if decide (tt_Agent target = "" ∨ tt_Agent target ∈ agentNames) then skip
  else addError "spec.target.agent"
         ("test suite references unknown agent " +:+ Quote (tt_Agent target))%string
         ("Add an agent YAML with metadata.name: " +:+ tt_Agent target +:+
          " to the same directory, or fix the target.")%string.

Definition check_target_pipeline (ids : gmap string (gset string)) (target : TestTarget) : check :=
  if decide (tt_Pipeline target = "" ∨ is_Some (ids !! tt_Pipeline target)) then skip
  else addError "spec.target.pipeline"
         ("test suite references unknown pipeline " +:+ Quote (tt_Pipeline target))%string
         ("Add a pipeline YAML with metadata.name: " +:+ tt_Pipeline target +:+
          " to the same directory, or fix the target.")%string.

Definition check_node_id (ids : gmap string (gset string)) (target : TestTarget) (ci ai : nat)
    (a : TestAssertion) : check :=
  if decide (ta_NodeID a = "") then skip
  else
    let field := (index_field "spec.cases" ci +:+ "." +:+ index_field "assertions" ai +:+ ".node_id")%string in
    if decide (tt_Pipeline target = "") then
      addError field "assertion has node_id but the test suite targets an agent, not a pipeline"
        "Remove node_id (it only applies to pipeline targets) or switch the target to spec.target.pipeline."
    else match ids !! tt_Pipeline target with
         | None => skip
         | Some nodes =>
             if decide (ta_NodeID a ∈ nodes) then skip
             else addError field
                    ("assertion node_id " +:+ Quote (ta_NodeID a) +:+ " does not exist in pipeline " +:+
                     Quote (tt_Pipeline target))%string
                    "Use one of the node ids declared under the pipeline's spec.agents list, or fix the assertion."
         end.

Definition check_suite (agentNames : gset string) (ids : gmap string (gset string))
    (def : TestSuiteDefinition) : check :=
  let target := tss_Target (tsd_Spec def) in
  check_target_agent agentNames target;; check_target_pipeline ids target;;
  each (λ ci c, each (check_node_id ids target ci) 0 (tc_Assertions c)) 0 (tss_Cases (tsd_Spec def)).

(** The errors one document gets on a context of its own. *)
Definition doc_errors (V : check) (r : LoadResult) : list ValidationError :=
  vc_errors (V (mkContext (lr_FilePath r) (lr_Node r) [])).

Definition ValidateDocuments (docs : option Documents) : option ValidationErrorList :=
  docs ← docs;
  let names := agentNames docs in
  let ids := pipelineNodeIDs docs in
  let errs :=
    (defined (heap := pipelines_heap) (doc_Pipelines docs) ≫= λ '(r, def),
       doc_errors (each (check_ref names) 0 (ps_Agents (pd_Spec def))) r) ++
    (defined (heap := suites_heap) (doc_TestSuites docs) ≫= λ '(r, def),
       doc_errors (check_suite names ids def) r) in
  if decide (errs = []) then None else Some (mkValidationErrorList errs).
End references.

(** ** Starting up *)

Context {re : GoRegexp} {re_err : RegexpError} {mr : MapRange}.

(** The loop over the loaded agents: [raw] is what was parsed; the defaults are
    filled in place, so the registered pointers lead to the definitions with their
    defaults. It returns the registry and the number of agents registered. *)
Definition with_defaults (raw : Heap AgentDefinition) : Heap AgentDefinition := λ p, ApplyDefaults (deref p).

Definition register_agent (raw : Heap AgentDefinition) (st : AgentRegistry * Z) (r : LoadResult * loc)
  : AgentRegistry * Z :=
  let '(reg, n) := st in
  match Validate (deref (Heap := with_defaults raw) r.2) (lr_FilePath r.1) (lr_Node r.1) with
  | Some _ => st
  | None =>
      (AgentRegistry.RegisterWithSource (heap := with_defaults raw) (Some r.2) (lr_FilePath r.1) reg, (n + 1)%Z)
  end.

Definition load_agents (raw : Heap AgentDefinition) (results : list (LoadResult * loc)) : AgentRegistry * Z :=
  foldl (register_agent raw) (AgentRegistry.NewAgentRegistry, 0%Z) results.

Definition registerPipeline {heap : Heap PipelineDefinition} (reg : PipelineRegistry) (r : option LoadResult)
  : option PipelineRegistry :=
  match r with
  | None => Some reg
  | Some r =>
      match lr_Definition r with
      | None => Some reg
      | Some p =>
          errs ← ValidatePipeline (deref p) (lr_FilePath r) (lr_Node r);
          Some (match errs with
                | Some _ => reg
                | None => PipelineRegistry.RegisterWithSource (Some p) (lr_FilePath r) reg
                end)
      end
  end.

Definition registerPipelines {heap : Heap PipelineDefinition} (pipelines : list (option LoadResult))
  : option PipelineRegistry :=
  fold_opt registerPipeline pipelines PipelineRegistry.NewPipelineRegistry.

(** ** What the reference check accepts *)

Section references_ok.
Context {agents_heap : Heap AgentDefinition} {pipelines_heap : Heap PipelineDefinition}
  {suites_heap : Heap TestSuiteDefinition}.

(** The last of the documents called [name], whose nodes a suite may refer to. *)
Definition last_pipeline (docs : Documents) (name : string) : option PipelineDefinition :=
  last (filter (λ def, md_Name (pd_Metadata def) = name)
    (defined (heap := pipelines_heap) (doc_Pipelines docs)).*2).

Definition known_agent (docs : Documents) (name : string) : Prop :=
  name ≠ "" ∧ name ∈ agent_name <$> (defined (heap := agents_heap) (doc_Agents docs)).*2.

Definition suite_refs_ok (docs : Documents) (def : TestSuiteDefinition) : Prop :=
  let target := tss_Target (tsd_Spec def) in
  (tt_Agent target ≠ "" → known_agent docs (tt_Agent target)) ∧
  (tt_Pipeline target ≠ "" → is_Some (last_pipeline docs (tt_Pipeline target))) ∧
  ∀ c a, c ∈ tss_Cases (tsd_Spec def) → a ∈ tc_Assertions c → ta_NodeID a ≠ "" →
    tt_Pipeline target ≠ "" ∧
    ∀ p, last_pipeline docs (tt_Pipeline target) = Some p →
      ta_NodeID a ∈ pa_ID <$> ps_Agents (pd_Spec p).

Definition references_ok (docs : Documents) : Prop :=
  (∀ def n, def ∈ (defined (heap := pipelines_heap) (doc_Pipelines docs)).*2 →
     n ∈ ps_Agents (pd_Spec def) → pa_Ref n ≠ "" → known_agent docs (pa_Ref n)) ∧
  (∀ def, def ∈ (defined (heap := suites_heap) (doc_TestSuites docs)).*2 → suite_refs_ok docs def).

Lemma agentNames_spec docs name : name ∈ agentNames docs ↔ known_agent docs name.
Proof.
  unfold agentNames, known_agent. induction (defined _) as [|[r def] l IH] using rev_ind.
  { simpl. set_solver. }
  rewrite foldl_app, !fmap_app, elem_of_app. cbn [foldl fmap list_fmap snd].
  rewrite list_elem_of_singleton. destruct (decide (agent_name def = "")) as [He|He].
  - rewrite IH. split; [tauto|]. intros (Hn & [?|Heq]); [tauto|congruence].
  - rewrite elem_of_union, elem_of_singleton, IH. split; [|tauto].
    intros [-> |[? ?]]; [|tauto]. split; [done|by right].
Qed.

Lemma node_ids_spec def id : id ∈ node_ids def ↔ id ≠ "" ∧ id ∈ pa_ID <$> ps_Agents (pd_Spec def).
Proof.
  unfold node_ids. induction (ps_Agents (pd_Spec def)) as [|a l IH] using rev_ind; [set_solver|].
  rewrite foldl_app, fmap_app, elem_of_app. cbn [foldl fmap list_fmap].
  rewrite list_elem_of_singleton. destruct (decide (pa_ID a = "")) as [He|He].
  - rewrite IH. split; [tauto|]. intros (Hn & [?|Heq]); [tauto|congruence].
  - rewrite elem_of_union, elem_of_singleton, IH. split; [|tauto].
    intros [-> |[? ?]]; [|tauto]. split; [done|by right].
Qed.

Lemma pipelineNodeIDs_lookup docs name : name ≠ "" →
  pipelineNodeIDs docs !! name = node_ids <$> last_pipeline docs name.
Proof.
  intros Hn. unfold pipelineNodeIDs, last_pipeline.
  induction (defined _) as [|[r def] l IH] using rev_ind; [done|].
  rewrite foldl_app, fmap_app, filter_app. cbn [foldl fmap list_fmap snd].
  rewrite filter_cons, filter_nil.
  destruct (decide (md_Name (pd_Metadata def) = "")) as [He|He].
  { rewrite decide_False, app_nil_r by congruence. exact IH. }
  destruct (decide (md_Name (pd_Metadata def) = name)) as [<-|Hne].
  - by rewrite lookup_insert_eq, last_snoc.
  - rewrite lookup_insert_ne, app_nil_r by done. exact IH.
Qed.

Lemma doc_errors_nil V P r : Accepts V P → doc_errors V r = [] ↔ P.
Proof.
  intros HV. specialize (HV (mkContext (lr_FilePath r) (lr_Node r) [])). unfold clean in HV.
  simpl in HV. unfold doc_errors. tauto.
Qed.

#[local] Instance accepts_ref names i n :
  Accepts (check_ref names i n) (pa_Ref n = "" ∨ pa_Ref n ∈ names).
Proof.
  eapply accepts_iff; [apply _|]. destruct (decide (pa_Ref n = "" ∨ pa_Ref n ∈ names)); tauto.
Qed.

Lemma check_refs_accepts names def :
  Accepts (each (check_ref names) 0 (ps_Agents (pd_Spec def)))
    (∀ n, n ∈ ps_Agents (pd_Spec def) → pa_Ref n = "" ∨ pa_Ref n ∈ names).
Proof. apply _. Qed.

Lemma check_suite_accepts docs def :
  Accepts (check_suite (agentNames docs) (pipelineNodeIDs docs) def) (suite_refs_ok docs def).
Proof.
  unfold suite_refs_ok. cbv zeta. set (target := tss_Target _). eapply accepts_iff.
  { apply accepts_andThen; [unfold check_target_agent; apply _|].
    apply accepts_andThen; [unfold check_target_pipeline; apply _|].
    apply accepts_each. intros ci c. apply accepts_each. intros ai a. unfold check_node_id. apply _. }
  cbn beta. fold target.
  match goal with |- (?X ∧ _) ↔ _ => assert (X ↔ (tt_Agent target ≠ "" → known_agent docs (tt_Agent target))) as -> end.
  { rewrite <-agentNames_spec.
    destruct (decide (tt_Agent target = "")), (decide (tt_Agent target ∈ agentNames docs)); tauto. }
  assert (∀ o : option PipelineDefinition, is_Some (node_ids <$> o) ↔ is_Some o) as Hs
    by (intros o; apply fmap_is_Some).
  destruct (decide (tt_Pipeline target = "")) as [Hp|Hp].
  { split.
    - intros (Ha & _ & Hc). split; [done|]. split; [done|].
      intros c a Hcin Hain Hne. exfalso. specialize (Hc c Hcin a Hain) as [_ Hc].
      destruct (Hc Hne) as [Hf _]. by apply Hf.
    - intros (Ha & _ & Hc). split; [done|].
      split; [split; [done|]; intros H; apply H; by left|]. intros c Hcin a Hain.
      split; [done|]. intros Hne. by destruct (Hc c a Hcin Hain Hne). }
  rewrite (pipelineNodeIDs_lookup _ _ Hp), Hs.
  destruct (last_pipeline docs (tt_Pipeline target)) as [p|]; simpl.
  - pose proof (node_ids_spec p) as Hids. split.
    + intros (Ha & _ & Hc). split; [done|]. split; [done|].
      intros c a Hcin Hain Hne. split; [done|]. intros p' [= <-].
      destruct (decide (ta_NodeID a ∈ node_ids p)) as [Hin|Hin]; [by apply Hids in Hin as [_ ?]|].
      exfalso. specialize (Hc c Hcin a Hain) as [_ Hc]. destruct (Hc Hne) as [_ Hc'].
      destruct (Hc' Hp) as [Hc'' _]. by apply (Hc'' _ eq_refl).
    + intros (Ha & _ & Hc). split; [done|].
      split; [split; [done|]; intros H; apply H; right; eauto|]. intros c Hcin a Hain.
      split; [done|]. intros Hne. split; [done|]. intros _. split; [|done]. intros nodes [= <-].
      split; [done|]. intros Hnot. apply Hnot, Hids. split; [done|]. by apply (Hc c a).
  - split.
    + intros (_ & [_ Hc] & _). exfalso. apply Hc. by intros [?|[? ?]].
    + intros (_ & Hc & _). by destruct (Hc Hp).
Qed.

Lemma ValidateDocuments_accepts docs : ValidateDocuments (Some docs) = None ↔ references_ok docs.
Proof.
  unfold ValidateDocuments. cbn [mbind option_bind]. set (errs := _ ++ _).
  transitivity (errs = []); [by destruct (decide (errs = []))|]. unfold errs. clear errs.
  rewrite app_nil, !bind_nil_iff. unfold references_ok. split.
  - intros [Hp Hs]. split.
    + intros def n ([r def'] & -> & Hdef)%list_elem_of_fmap Hn Hr. simpl in Hn.
      specialize (Hp _ Hdef). simpl in Hp. pose proof (proj1 (doc_errors_nil _ _ r (check_refs_accepts _ _)) Hp) as Hall.
      destruct (Hall n Hn) as [|Hin]; [done|]. by apply agentNames_spec.
    + intros def ([r def'] & -> & Hdef)%list_elem_of_fmap. specialize (Hs _ Hdef). simpl in Hs.
      exact (proj1 (doc_errors_nil _ _ r (check_suite_accepts docs def')) Hs).
  - intros [Hp Hs]. split; intros [r def] Hdef.
    + apply (proj2 (doc_errors_nil _ _ r (check_refs_accepts _ _))). intros n Hn.
      destruct (decide (pa_Ref n = "")) as [|Hr]; [by left|right]. apply agentNames_spec.
      apply (Hp def); [|done|done]. by apply (list_elem_of_fmap_2 snd _ (r, def)).
    + apply (proj2 (doc_errors_nil _ _ r (check_suite_accepts docs def))). apply Hs.
      by apply (list_elem_of_fmap_2 snd _ (r, def)).
Qed.
End references_ok.

(** ** The registries after loading *)

Section registries.
Context (raw : Heap AgentDefinition).
#[local] Instance loaded_heap : Heap AgentDefinition := with_defaults raw.

Definition valid_result (r : LoadResult * loc) : Prop :=
  Validate (deref r.2) (lr_FilePath r.1) (lr_Node r.1) = None.

#[global] Instance valid_result_dec r : Decision (valid_result r).
Proof. unfold valid_result. destruct (Validate _ _ _); [by right|by left]. Defined.

(** A registry loaded from results holds the valid ones, the later of two with the
    same tenant and name. *)
Lemma load_agents_lookup results t n :
  lookup2 (agents (load_agents raw results).1) t n =
    last (filter (λ p, agent_tenant (deref p) = t ∧ agent_name (deref p) = n)
      (filter valid_result results).*2).
Proof.
  unfold load_agents. induction results as [|r results IH] using rev_ind.
  { simpl. unfold lookup2. by rewrite lookup_empty. }
  rewrite foldl_app, filter_app, fmap_app, filter_app. cbn [foldl].
  destruct (foldl _ _ results) as [reg k] eqn:Hf. cbn [fst] in IH. unfold register_agent.
  rewrite filter_cons, filter_nil. destruct (decide (valid_result r)) as [Hv|Hv].
  - unfold valid_result, loaded_heap in Hv. rewrite Hv. cbn [fst fmap list_fmap].
    rewrite filter_cons, filter_nil.
    assert (agents (AgentRegistry.RegisterWithSource (heap := with_defaults raw) (Some r.2) (lr_FilePath r.1) reg) =
      insert2 (agents reg) (agent_tenant (deref r.2)) (agent_name (deref r.2)) r.2) as ->.
    { unfold AgentRegistry.RegisterWithSource.
      destruct (decide (lr_FilePath r.1 = "")); simpl; by rewrite registerLocked_agents. }
    rewrite lookup2_insert2.
    destruct (decide (agent_tenant (deref r.2) = t ∧ agent_name (deref r.2) = n)) as [[Ht Hn]|Hne].
    + by rewrite decide_True, last_snoc.
    + rewrite decide_False, app_nil_r; [exact IH|]. intros [-> ->]. by apply Hne.
  - unfold valid_result, loaded_heap in Hv. destruct (Validate _ _ _); [|done]. cbn [fst fmap list_fmap].
    by rewrite filter_nil, app_nil_r.
Qed.

Lemma load_agents_count results : (load_agents raw results).2 = Z.of_nat (length (filter valid_result results)).
Proof.
  unfold load_agents. induction results as [|r results IH] using rev_ind; [done|].
  rewrite foldl_app, filter_app, length_app. cbn [foldl].
  destruct (foldl _ _ results) as [reg k]. cbn [snd] in IH. subst. unfold register_agent.
  rewrite filter_cons, filter_nil. destruct (decide (valid_result r)) as [Hv|Hv];
    unfold valid_result, loaded_heap in Hv.
  - rewrite Hv. simpl. lia.
  - destruct (Validate _ _ _); [|done]. simpl. lia.
Qed.
End registries.

Lemma registerPipelines_total {heap : Heap PipelineDefinition} rs :
  ∃ reg, registerPipelines rs = Some reg ∧
    ∀ n p, pipelines reg !! n = Some p →
      pipeline_ok (deref p) ∧ n = md_Name (pd_Metadata (deref p)) ∧
      ∃ r, Some r ∈ rs ∧ lr_Definition r = Some p.
Proof.
  assert (∀ rs reg0, ∃ reg, fold_opt registerPipeline rs reg0 = Some reg ∧
    ∀ n p, pipelines reg !! n = Some p → pipelines reg0 !! n = Some p ∨
      pipeline_ok (deref p) ∧ n = md_Name (pd_Metadata (deref p)) ∧
      ∃ r, Some r ∈ rs ∧ lr_Definition r = Some p) as Hgen.
  { clear. induction rs as [|r rs IH]; intros reg0; [exists reg0; split; [done|by left]|].
    assert (∃ reg1, registerPipeline reg0 r = Some reg1 ∧ ∀ n p, pipelines reg1 !! n = Some p →
      pipelines reg0 !! n = Some p ∨ pipeline_ok (deref p) ∧ n = md_Name (pd_Metadata (deref p)) ∧
      ∃ r', r = Some r' ∧ lr_Definition r' = Some p) as (reg1 & Hreg1 & H1).
    { unfold registerPipeline. destruct r as [r|]; [|exists reg0; split; [done|by left]].
      destruct (lr_Definition r) as [q|] eqn:Hq; [|exists reg0; split; [done|by left]].
      destruct (ValidatePipeline_accepts (deref q) (lr_FilePath r) (lr_Node r)) as (ctx & -> & Hok).
      cbn [mbind option_bind]. destruct (report ctx) as [l|]; [exists reg0; split; [done|by left]|].
      eexists. split; [reflexivity|]. intros n p. unfold PipelineRegistry.RegisterWithSource.
      destruct (decide (md_Name (pd_Metadata (deref q)) = "")); [by left|].
      assert (∀ m : gmap string loc, <[md_Name (pd_Metadata (deref q)) := q]> m !! n = Some p →
        m !! n = Some p ∨ pipeline_ok (deref p) ∧ n = md_Name (pd_Metadata (deref p)) ∧
        ∃ r', Some r = Some r' ∧ lr_Definition r' = Some p) as Hm.
      { intros m [[<- <-]|[_ ?]]%lookup_insert_Some; [right|by left].
        split; [by apply Hok|]. split; [done|]. by exists r. }
      destruct (decide (lr_FilePath r = "")); simpl; apply Hm. }
    destruct (IH reg1) as (reg & Hreg & H2). exists reg. simpl. rewrite Hreg1. split; [exact Hreg|].
    intros n p Hp. destruct (H2 n p Hp) as [Hp1|(Hok & Hn & r' & Hr' & Hd)].
    - destruct (H1 n p Hp1) as [|(Hok & Hn & r' & -> & Hd)]; [by left|right].
      split; [done|]. split; [done|]. exists r'. split; [left|done].
    - right. split; [done|]. split; [done|]. exists r'. split; [by right|done]. }
  destruct (Hgen rs PipelineRegistry.NewPipelineRegistry) as (reg & Hreg & H).
  exists reg. split; [exact Hreg|]. intros n p Hp. destruct (H n p Hp) as [Hnil|?]; [|done].
  simpl in Hnil. by rewrite lookup_empty in Hnil.
Qed.
(** ** Properties *)

(** the reference check answers no errors exactly when every node of every
    pipeline refers to the name of a loaded agent, and every suite to a loaded agent
    or pipeline, its assertions naming nodes of that pipeline. *)
Theorem ValidateDocuments_decides {agents_heap : Heap AgentDefinition}
    {pipelines_heap : Heap PipelineDefinition} {suites_heap : Heap TestSuiteDefinition} docs :
  ValidateDocuments None = None ∧
  (ValidateDocuments (Some docs) = None ↔ references_ok docs).
Proof. split; [done|apply ValidateDocuments_accepts]. Qed.

(** a directory whose documents refer to each other correctly, whose agents are
    valid and belong to no tenant, loads into registries that fit: whatever the
    tenant of the caller, the agent of every node of every registered pipeline is
    found, and it is the one of that name. *)
Theorem loaded_pipelines_resolve {pipelines_heap : Heap PipelineDefinition}
    {suites_heap : Heap TestSuiteDefinition} {gotmpl : GoTemplate} (raw : Heap AgentDefinition) docs results :
  doc_Agents docs = Some <$> results.*1 →
  (∀ r p, (r, p) ∈ results → lr_Definition r = Some p) →
  (∀ r, r ∈ results → valid_result raw r ∧ agent_tenant (deref (Heap := raw) r.2) = "") →
  ValidateDocuments (agents_heap := with_defaults raw) (Some docs) = None →
  ∃ preg, registerPipelines (doc_Pipelines docs) = Some preg ∧
    ∀ name p, GetPipeline name preg = Some p →
      pipeline_ok (deref p) ∧
      ∀ n req tenantID, n ∈ ps_Agents (pd_Spec (deref p)) → ir_AgentName req = pa_Ref n →
        ∃ a, resolveAgentForTenant (heap := with_defaults raw) (load_agents raw results).1 req tenantID = inr a ∧
          agent_name (deref (Heap := with_defaults raw) a) = pa_Ref n.
Proof.
  intros Hdocs Hptr Hvalid Hrefs. apply (ValidateDocuments_accepts (agents_heap := with_defaults raw)) in Hrefs.
  destruct (registerPipelines_total (doc_Pipelines docs)) as (preg & Hpreg & Hall).
  exists preg. split; [done|]. intros name p Hp. destruct (Hall name p Hp) as (Hok & _ & r & Hr & Hd).
  split; [done|]. intros n req tenantID Hn Hreq.
  assert (pa_Ref n ≠ "") as Hne by (destruct Hok as (_ & _ & _ & (_ & _ & Hnodes & _) & _); by apply Hnodes).
  destruct Hrefs as [Hrefs _].
  assert (deref p ∈ (defined (heap := pipelines_heap) (doc_Pipelines docs)).*2) as Hin.
  { apply (list_elem_of_fmap_2 snd _ (r, deref p)). apply list_elem_of_omap.
    exists (Some r). split; [done|]. simpl. by rewrite Hd. }
  destruct (Hrefs (deref p) n Hin Hn Hne) as [_ (def & Hname & Hdef)%list_elem_of_fmap].
  apply list_elem_of_fmap in Hdef as ([r' def'] & -> & Hdef). simpl in Hname.
  apply list_elem_of_omap in Hdef as (o & Ho & Hdef). rewrite Hdocs in Ho.
  apply list_elem_of_fmap in Ho as (r0 & -> & Hr0). apply list_elem_of_fmap in Hr0 as ([r1 q] & -> & Hq).
  simpl in Hdef. rewrite (Hptr r1 q Hq) in Hdef. simpl in Hdef. injection Hdef as <- <-.
  assert (∀ t, lookup2 (agents (load_agents raw results).1) t (pa_Ref n) ≠ None ↔ t = "") as Hlook.
  { intros t. rewrite load_agents_lookup, last_None. split.
    - intros Hl. destruct (filter _ (filter _ results).*2) as [|a l] eqn:Ha; [done|].
      assert (a ∈ a :: l) as Hina by left. rewrite <-Ha in Hina.
      apply list_elem_of_filter in Hina as [[Ht _] Hina].
      apply list_elem_of_fmap in Hina as (r2 & -> & [_ Hr2]%list_elem_of_filter).
      destruct (Hvalid r2 Hr2) as [_ Hg]. rewrite <-Ht. exact Hg.
    - intros -> Hl. assert (q ∈ filter (λ p, agent_tenant (deref (Heap := with_defaults raw) p) = "" ∧
        agent_name (deref (Heap := with_defaults raw) p) = pa_Ref n) (filter (valid_result raw) results).*2) as Hf.
      { apply list_elem_of_filter. split; [split; [by apply (Hvalid (r1, q))|done]|].
        apply (list_elem_of_fmap_2 snd _ (r1, q)). apply list_elem_of_filter. split; [|done].
        by apply Hvalid. }
      unfold loaded_heap in Hl. rewrite Hl in Hf. by apply elem_of_nil in Hf. }
  assert (∃ a, AgentRegistry.GetForTenant (pa_Ref n) tenantID (load_agents raw results).1 = Some a ∧
    agent_name (deref (Heap := with_defaults raw) a) = pa_Ref n) as (a & Ha & Hna).
  { assert (∃ a, lookup2 (agents (load_agents raw results).1) "" (pa_Ref n) = Some a) as [a Ha].
    { destruct (lookup2 _ _ _) as [a|] eqn:Ha; [by exists a|]. by destruct (proj2 (Hlook "") eq_refl). }
    exists a. split.
    - unfold AgentRegistry.GetForTenant. destruct (decide (tenantID = "")) as [->|Ht]; [by rewrite Ha|].
      destruct (lookup2 _ tenantID _) as [b|] eqn:Hb; [|by rewrite Ha].
      destruct Ht. apply Hlook. by rewrite Hb.
    - rewrite load_agents_lookup in Ha. apply last_Some_elem_of in Ha.
      by apply list_elem_of_filter in Ha as [[_ ?] _]. }
  exists a. split; [|done]. unfold resolveAgentForTenant. rewrite Hreq, decide_False, Ha by done. done.
Qed.
End loading.

(** ** On a concrete directory *)

#[local] Instance ex_yaml : GoYaml :=
  {| Node := unit; Kind _ := OtherNode; Value _ := ""; Line _ := 0%Z; Column _ := 0%Z; Content _ := [] |}.
#[local] Instance ex_regexp_error : RegexpError := λ p, ("bad pattern " +:+ p)%string.
#[local] Existing Instance plain_fmt.
#[local] Existing Instance literal_regexp.
#[local] Existing Instance literal_template.
#[local] Existing Instance canonical_range.

Definition ex_agent_file : Heap AgentDefinition := λ _, ex_calling "lookup".
#[local] Instance ex_pipeline_file : Heap PipelineDefinition := λ _,
  mkPipelineDefinition "mockagents/v1" "Pipeline" (mkMetadata "flow" "" [] "")
    (mkPipelineSpec TopologySequential [mkPipelineAgent "only" "support-bot"] []).
#[local] Instance ex_suite_file : Heap TestSuiteDefinition := λ _,
  mkTestSuiteDefinition "mockagents/v1" "TestSuite" (mkMetadata "suite" "" [] "")
    (mkTestSuiteSpec (mkTestTarget "" "flow") []).

Definition ex_file (path : string) : LoadResult := mkLoadResult (Some 1%positive) None path.

Definition ex_docs : Documents :=
  mkDocuments [Some (ex_file "a.yaml")] [Some (ex_file "p.yaml")] [Some (ex_file "s.yaml")] [].

Lemma loaded_pipelines_resolve_witness :
  ∃ preg, registerPipelines (doc_Pipelines ex_docs) = Some preg ∧
    ∀ name p, GetPipeline name preg = Some p →
      pipeline_ok (deref p) ∧
      ∀ n req tenantID, n ∈ ps_Agents (pd_Spec (deref p)) → ir_AgentName req = pa_Ref n →
        ∃ a, resolveAgentForTenant (heap := with_defaults ex_agent_file)
               (load_agents ex_agent_file [(ex_file "a.yaml", 1%positive)]).1 req tenantID = inr a ∧
          agent_name (deref (Heap := with_defaults ex_agent_file) a) = pa_Ref n.
Proof.
  apply (loaded_pipelines_resolve ex_agent_file ex_docs [(ex_file "a.yaml", 1%positive)]).
  - reflexivity.
  - intros r p [= -> ->]%list_elem_of_singleton. reflexivity.
  - intros r ->%list_elem_of_singleton. split; vm_compute; reflexivity.
  - vm_compute. reflexivity.
Defined.

(** The reference check does not look at tenants: a pipeline may refer to an agent
    that only one tenant sees. *)
Definition ex_private_file : Heap AgentDefinition := λ _,
  let def := ex_calling "lookup" in
  mkAgentDefinition (ad_APIVersion def) (ad_Kind def) (mkMetadata "support-bot" "" [] "acme") (ad_Spec def).

Example private_agents_pass_the_reference_check :
  ValidateDocuments (agents_heap := ex_private_file) (Some ex_docs) = None ∧
  AgentRegistry.GetForTenant "support-bot" ""
    (load_agents ex_private_file [(ex_file "a.yaml", 1%positive)]).1 = None.
Proof. split; vm_compute; reflexivity. Qed.
