(* ===== verification/Watcher.v ===== *)
(** The hot reload of agent files, [internal/server/watcher.go]: debounced timers,
    reloads that run concurrently between the watcher's and the registry's locks,
    and shutdown. *)

From S2P Require Import Prelude GoBase GoStrings AgentTypes AgentRegistry ScenarioMatcher.
From S2P Require Import Validation AgentValidator Loading.

(** [filepath.Clean]. *)
Class GoPath := Clean : string → string.

Section watcher.
Context {yaml : GoYaml} {fmt : GoFmt} {re : GoRegexp} {re_err : RegexpError} {mr : MapRange} {path : GoPath}.

(** What [config.LoadFile] answers: the file is gone, it cannot be read or decoded,
    or a definition, by pointer, with its node tree. *)
Inductive loaded := Missing | Broken | Decoded (def : loc) (node : option Node).

(** What is on disk at some moment. *)
Definition disk := string → loaded.

Context (raw : Heap AgentDefinition).
#[local] Instance watched_heap : Heap AgentDefinition := with_defaults raw.

(** ** One reload at a time

    The registry and the [fileAgents] map. *)
Definition files := gmap string string.
Definition reload_st : Type := AgentRegistry * files.

Definition claimed (name : string) (fs : files) : bool :=
  existsb (λ kv, bool_decide (kv.2 = name)) (range fs).

Definition removeIfUnclaimed (name : string) (st : reload_st) : reload_st :=
  let '(reg, fs) := st in
  if claimed name fs then st
  else match AgentRegistry.Remove name reg with
       | inl _ => st
       | inr reg => (reg, fs)
       end.

Definition rememberFile (file name : string) (st : reload_st) : reload_st :=
  let '(reg, fs) := st in
  let prev := fs !! file in
  let st := (reg, <[file := name]> fs) in
  match prev with
  | Some prev => if decide (prev = name) then st else removeIfUnclaimed prev st
  | None => st
  end.

Definition unregisterFile (file : string) (st : reload_st) : reload_st :=
  let '(reg, fs) := st in
  match fs !! file with
  | None => st
  | Some name => removeIfUnclaimed name (reg, delete file fs)
  end.

(** The definition a decoded file registers, if it is an agent and valid. *)
Definition reloadable (file : string) (l : loaded) : option loc :=
  match l with
  | Decoded def node =>
      if decide (ad_Kind (deref (Heap := raw) def) ≠ "" ∧ ad_Kind (deref (Heap := raw) def) ≠ AgentKind) then None
      else match Validate (deref def) file node with Some _ => None | None => Some def end
  | _ => None
  end.

Definition reloadFile (d : disk) (file : string) (st : reload_st) : reload_st :=
  let file := Clean file in
  match d file with
  | Missing => unregisterFile file st
  | l =>
      match reloadable file l with
      | None => st
      | Some def =>
          rememberFile file (agent_name (deref def))
            (AgentRegistry.RegisterWithSource (Some def) file st.1, st.2)
      end
  end.

(** ** Concurrent reloads

    A reload in flight, by what it does next. Between two of these the locks are
    free, so other reloads may run. *)
Inductive task :=
| TLoad (file : string)
| TRegister (file : string) (def : loc)
| TRemember (file name : string)
| TUnregister (file : string)
| TCheck (name : string)
| TRemove (name : string).

Definition task_step (d : disk) (t : task) (st : reload_st) : reload_st * option task :=
  let '(reg, fs) := st in
  match t with
  | TLoad file =>
      (st, match d file with
           | Missing => Some (TUnregister file)
           | l => TRegister file <$> reloadable file l
           end)
  | TRegister file def =>
      ((AgentRegistry.RegisterWithSource (Some def) file reg, fs),
       Some (TRemember file (agent_name (deref def))))
  | TRemember file name =>
      ((reg, <[file := name]> fs),
       prev ← fs !! file; if decide (prev = name) then None else Some (TCheck prev))
  | TUnregister file =>
      match fs !! file with
      | None => (st, None)
      | Some name => ((reg, delete file fs), Some (TCheck name))
      end
  | TCheck name => (st, if claimed name fs then None else Some (TRemove name))
  | TRemove name =>
      (match AgentRegistry.Remove name reg with inl _ => st | inr reg => (reg, fs) end, None)
  end.

(** The watcher: [armed] holds the timers whose callback has not run yet, [pending]
    the latest timer of each file. *)
Record watcher := mkWatcher {
  wt_st : reload_st;
  wt_pending : gmap string nat;
  wt_armed : gmap nat string;
  wt_next : nat;
  wt_closed : bool;
  wt_tasks : list task
}.

(** [schedule]. The timer it replaces is stopped, unless its callback is already
    waiting for the lock ([late]). *)
Definition schedule (file : string) (late : bool) (w : watcher) : watcher :=
  let file := Clean file in
  if wt_closed w then w
  else
    let armed := match wt_pending w !! file with
                 | Some id => if late then wt_armed w else delete id (wt_armed w)
                 | None => wt_armed w
                 end in
    let id := wt_next w in
    mkWatcher (wt_st w) (<[file := id]> (wt_pending w)) (<[id := file]> armed) (S id)
      (wt_closed w) (wt_tasks w).

(** The callback of a timer. *)
Definition fire (id : nat) (w : watcher) : watcher :=
  match wt_armed w !! id with
  | None => w
  | Some file =>
      let pending := delete file (wt_pending w) in
      let armed := delete id (wt_armed w) in
      if wt_closed w then mkWatcher (wt_st w) pending armed (wt_next w) true (wt_tasks w)
      else mkWatcher (wt_st w) pending armed (wt_next w) false (TLoad (Clean file) :: wt_tasks w)
  end.

(** [Stop], up to where it waits for the tasks: [late] are the timers it was too late
    to stop. *)
Definition stop (late : nat → bool) (w : watcher) : watcher :=
  mkWatcher (wt_st w) ∅
    (filter (λ kv, late kv.1 = true ∨ wt_pending w !! kv.2 ≠ Some kv.1) (wt_armed w))
    (wt_next w) true (wt_tasks w).

Definition run_nth (d : disk) (i : nat) (w : watcher) : watcher :=
  match wt_tasks w !! i with
  | None => w
  | Some t =>
      let '(st, next) := task_step d t (wt_st w) in
      mkWatcher st (wt_pending w) (wt_armed w) (wt_next w) (wt_closed w)
        (match next with Some t => <[i := t]> (wt_tasks w) | None => delete i (wt_tasks w) end)
  end.

(** Any schedule of the above, each task reading the disk as it is at that moment. *)
Inductive wstep : watcher → watcher → Prop :=
| step_schedule file late w : wstep w (schedule file late w)
| step_fire id w : wstep w (fire id w)
| step_task d i w : wstep w (run_nth d i w)
| step_stop late w : wstep w (stop late w).

Definition NewAgentDirWatcher (reg : AgentRegistry) : watcher := mkWatcher (reg, ∅) ∅ ∅ 0 false [].

(** ** Reloads one after the other *)

Lemma claimed_spec name fs : claimed name fs = true ↔ ∃ file, fs !! file = Some name.
Proof.
  unfold claimed. rewrite existsb_exists. setoid_rewrite bool_decide_eq_true. split.
  - intros ([f n] & Hin & Hn). simpl in Hn. subst. exists f. apply elem_of_range. by apply list_elem_of_In.
  - intros [f Hf]. exists (f, name). split; [|done]. apply list_elem_of_In. by apply elem_of_range.
Qed.

Lemma removeIfUnclaimed_spec name reg fs : registry_wf reg →
  let '(reg', fs') := removeIfUnclaimed name (reg, fs) in
  fs' = fs ∧ registry_wf reg' ∧
  ∀ t k, lookup2 (agents reg') t k =
    if decide (k = name ∧ claimed name fs = false) then None else lookup2 (agents reg) t k.
Proof.
  intros Hwf. unfold removeIfUnclaimed. destruct (claimed name fs).
  { split; [done|]. split; [done|]. intros t k. rewrite decide_False; [done|]. by intros [_ ?]. }
  pose proof (Remove_spec name reg Hwf) as Hr. destruct (AgentRegistry.Remove name reg) as [e|reg'].
  - destruct Hr as [_ Hr]. split; [done|]. split; [done|]. intros t k.
    destruct (decide (k = name ∧ false = false)) as [[-> _]|]; [apply Hr|done].
  - destruct Hr as (Hwf' & _ & Hr). split; [done|]. split; [done|]. intros t k. rewrite Hr.
    destruct (decide (k = name)); [by rewrite decide_True|]. rewrite decide_False; [done|]. tauto.
Qed.

Lemma RegisterWithSource_agents p file reg :
  agents (AgentRegistry.RegisterWithSource (Some p) file reg) =
    insert2 (agents reg) (agent_tenant (deref p)) (agent_name (deref p)) p.
Proof.
  unfold AgentRegistry.RegisterWithSource.
  destruct (decide (file = "")); simpl; by rewrite registerLocked_agents.
Qed.

(** What one reload does to the registry, on every branch. *)
Definition reload_post (d : disk) (file : string) (st st' : reload_st) : Prop :=
  let file := Clean file in
  match d file, reloadable file (d file) with
  | Missing, _ =>
      match st.2 !! file with
      | None => st' = st
      | Some name =>
          st'.2 = delete file st.2 ∧
          ∀ t k, lookup2 (agents st'.1) t k =
            if decide (k = name ∧ claimed name st'.2 = false) then None else lookup2 (agents st.1) t k
      end
  | _, None => st' = st
  | _, Some p =>
      let name := agent_name (deref p) in
      st'.2 = <[file := name]> st.2 ∧
      lookup2 (agents st'.1) (agent_tenant (deref p)) name = Some p ∧
      ∀ t k, (t, k) ≠ (agent_tenant (deref p), name) →
        lookup2 (agents st'.1) t k =
          if decide (st.2 !! file = Some k ∧ claimed k st'.2 = false) then None
          else lookup2 (agents st.1) t k
  end.

Lemma reloadFile_post d file st : registry_wf st.1 →
  registry_wf (reloadFile d file st).1 ∧ reload_post d file st (reloadFile d file st).
Proof.
  intros Hwf. unfold reload_post, reloadFile. cbv zeta. set (f := Clean file). clearbody f. clear file.
  destruct st as [reg fs]. simpl in Hwf. cbn [fst snd].
  assert (∀ p, registry_wf (AgentRegistry.RegisterWithSource (Some p) f reg)) as Hreg
    by (intros p; by apply RegisterWithSource_wf).
  assert (∀ p, let st' := rememberFile f (agent_name (deref p))
      (AgentRegistry.RegisterWithSource (Some p) f reg, fs) in
    registry_wf st'.1 ∧ st'.2 = <[f := agent_name (deref p)]> fs ∧
    lookup2 (agents st'.1) (agent_tenant (deref p)) (agent_name (deref p)) = Some p ∧
    ∀ t k, (t, k) ≠ (agent_tenant (deref p), agent_name (deref p)) →
      lookup2 (agents st'.1) t k =
        if decide (fs !! f = Some k ∧ claimed k st'.2 = false) then None else lookup2 (agents reg) t k)
    as Hremember.
  { intros p. cbv zeta. set (name := agent_name (deref p)). specialize (Hreg p).
    set (reg1 := AgentRegistry.RegisterWithSource (Some p) f reg) in *.
    assert (∀ t k, lookup2 (agents reg1) t k =
      if decide (t = agent_tenant (deref p) ∧ k = name) then Some p else lookup2 (agents reg) t k) as H1.
    { intros t k. unfold reg1. by rewrite RegisterWithSource_agents, lookup2_insert2. }
    assert (claimed name (<[f := name]> fs) = true) as Hself.
    { apply claimed_spec. exists f. apply lookup_insert_eq. }
    unfold rememberFile. destruct (fs !! f) as [prev|] eqn:Hprev.
    2: { cbn [fst snd]. split; [done|]. split; [done|]. split; [by rewrite H1, decide_True|].
         intros t k Hne. rewrite H1. rewrite decide_False by (intros [? ?]; congruence).
         by rewrite decide_False by (by intros [? _]). }
    destruct (decide (prev = name)) as [->|Hpn].
    { cbn [fst snd]. split; [done|]. split; [done|]. split; [by rewrite H1, decide_True|].
      intros t k Hne. rewrite H1. rewrite decide_False by (intros [? ?]; congruence).
      rewrite decide_False; [done|]. intros [[= <-] Hc]. congruence. }
    pose proof (removeIfUnclaimed_spec prev reg1 (<[f := name]> fs) Hreg) as Hrm.
    destruct (removeIfUnclaimed prev (reg1, <[f := name]> fs)) as [reg2 fs2].
    destruct Hrm as (-> & Hwf2 & Hl). cbn [fst snd]. split; [done|]. split; [done|]. split.
    - rewrite Hl, decide_False by (intros [? _]; congruence). by rewrite H1, decide_True.
    - intros t k Hne. rewrite Hl, H1, (decide_False (P := t = _ ∧ _)) by (intros [? ?]; congruence).
      destruct (decide (k = prev)) as [->|Hk].
      + destruct (claimed prev _); [by rewrite !decide_False by naive_solver|by rewrite !decide_True].
      + by rewrite !decide_False by (intros [? _]; congruence). }
  destruct (d f) as [| |p nd]; [|done|].
  - unfold unregisterFile. cbn [fst snd]. destruct (fs !! f) as [name|]; [|done].
    pose proof (removeIfUnclaimed_spec name reg (delete f fs) Hwf) as Hrm.
    destruct (removeIfUnclaimed name (reg, delete f fs)) as [reg' fs'].
    destruct Hrm as (-> & Hwf' & Hl). done.
  - destruct (reloadable f (Decoded p nd)) as [q|]; [apply Hremember|done].
Qed.

(** The registry serves every name a tracked file claims. *)
Definition served (st : reload_st) : Prop :=
  ∀ file name, st.2 !! file = Some name → ∃ t, is_Some (lookup2 (agents st.1) t name).

Lemma reloadFile_served d file st : registry_wf st.1 → served st → served (reloadFile d file st).
Proof.
  intros Hwf Hs. destruct (reloadFile_post d file st Hwf) as [_ Hp]. unfold reload_post in Hp.
  cbv zeta in Hp. set (f := Clean file) in *. set (st' := reloadFile d file st) in *. clearbody st'.
  assert (∀ k, claimed k st'.2 = true → ∃ file, st'.2 !! file = Some k) as Hcl
    by (intros k; apply claimed_spec).
  assert (∀ file k, st'.2 !! file = Some k → claimed k st'.2 = true) as Hcl'
    by (intros file' k Hk; apply claimed_spec; eauto).
  assert (∀ p, let name := agent_name (deref p) in st'.2 = <[f := name]> st.2 ∧
      lookup2 (agents st'.1) (agent_tenant (deref p)) name = Some p ∧
      (∀ t k, (t, k) ≠ (agent_tenant (deref p), name) →
        lookup2 (agents st'.1) t k =
          if decide (st.2 !! f = Some k ∧ claimed k st'.2 = false) then None
          else lookup2 (agents st.1) t k) → served st') as Hreg.
  { intros p. cbv zeta. intros (Hfs & Hl & Hrest) file' name Hn.
    destruct (decide (name = agent_name (deref p))) as [->|Hne]; [eauto|].
    assert (st.2 !! file' = Some name) as Hold.
    { rewrite Hfs in Hn. apply lookup_insert_Some in Hn as [[_ Heq]|[_ ?]]; [by rewrite Heq in Hne|done]. }
    destruct (Hs _ _ Hold) as [t Ht]. exists t. rewrite Hrest by (by intros [= _ ?]).
    rewrite decide_False; [done|]. intros [_ Hc]. by rewrite (Hcl' _ _ Hn) in Hc. }
  destruct (d f) as [| |p nd].
  - destruct (st.2 !! f) as [name|]; [|by subst]. destruct Hp as [Hfs Hl].
    intros file' k Hk. assert (st.2 !! file' = Some k) as Hold.
    { rewrite Hfs in Hk. by apply lookup_delete_Some in Hk as [_ ?]. }
    destruct (Hs _ _ Hold) as [t Ht]. exists t. rewrite Hl, decide_False; [done|].
    intros [-> Hc]. by rewrite (Hcl' _ _ Hk) in Hc.
  - simpl in Hp. by rewrite Hp.
  - destruct (reloadable f _) as [q|]; [by apply (Hreg q)|by rewrite Hp].
Qed.

(** ** A reload alone, step by step *)

Lemma run_head d st pend armed nx cl t ts :
  run_nth d 0 (mkWatcher st pend armed nx cl (t :: ts)) =
    mkWatcher (task_step d t st).1 pend armed nx cl
      (match (task_step d t st).2 with Some t => t :: ts | None => ts end).
Proof. unfold run_nth. cbn. by destruct (task_step d t st) as [st' [t'|]]. Qed.

(** The head task runs to its end in some steps, with this effect. *)
Definition comes_to (d : disk) (t : task) (st st' : reload_st) : Prop :=
  ∀ pend armed nx cl ts, ∃ k,
    Nat.iter k (run_nth d 0) (mkWatcher st pend armed nx cl (t :: ts)) = mkWatcher st' pend armed nx cl ts.

Lemma comes_to_end d t st : (task_step d t st).2 = None → comes_to d t st (task_step d t st).1.
Proof. intros Hn pend armed nx cl ts. exists 1. rewrite Nat.iter_succ_r, run_head, Hn. done. Qed.

Lemma comes_to_step d t t' st st' : (task_step d t st).2 = Some t' →
  comes_to d t' (task_step d t st).1 st' → comes_to d t st st'.
Proof.
  intros Hn H pend armed nx cl ts. destruct (H pend armed nx cl ts) as [k Hk]. exists (S k).
  by rewrite Nat.iter_succ_r, run_head, Hn.
Qed.

Lemma check_comes_to d name st : comes_to d (TCheck name) st (removeIfUnclaimed name st).
Proof.
  destruct st as [reg fs]. unfold removeIfUnclaimed. destruct (claimed name fs) eqn:Hc.
  - pose proof (comes_to_end d (TCheck name) (reg, fs)) as H. cbn in H. rewrite Hc in H. by apply H.
  - eapply (comes_to_step d (TCheck name) (TRemove name)); cbn; [by rewrite Hc|].
    pose proof (comes_to_end d (TRemove name) (reg, fs) eq_refl) as H. exact H.
Qed.

Lemma register_comes_to d file p st : comes_to d (TRegister file p) st
  (rememberFile file (agent_name (deref p)) (AgentRegistry.RegisterWithSource (Some p) file st.1, st.2)).
Proof.
  destruct st as [reg fs]. eapply comes_to_step; [reflexivity|]. cbn [task_step fst snd].
  set (reg1 := AgentRegistry.RegisterWithSource (Some p) file reg). set (name := agent_name (deref p)).
  unfold rememberFile. destruct (fs !! file) as [prev|] eqn:Hf.
  - destruct (decide (prev = name)) as [->|Hne].
    + pose proof (comes_to_end d (TRemember file name) (reg1, fs)) as H. cbn in H.
      rewrite Hf in H. cbn in H. rewrite decide_True in H by done. by apply H.
    + eapply (comes_to_step d (TRemember file name) (TCheck prev)); cbn.
      * rewrite Hf. cbn. by rewrite decide_False.
      * apply check_comes_to.
  - pose proof (comes_to_end d (TRemember file name) (reg1, fs)) as H. cbn in H. rewrite Hf in H. by apply H.
Qed.

Lemma reload_comes_to d file st : comes_to d (TLoad (Clean file)) st (reloadFile d file st).
Proof.
  unfold reloadFile. cbv zeta. set (f := Clean file). clearbody f. destruct st as [reg fs].
  destruct (d f) as [| |p nd] eqn:Hd.
  - eapply (comes_to_step d (TLoad f) (TUnregister f)); cbn; [by rewrite Hd|].
    unfold unregisterFile. destruct (fs !! f) as [name|] eqn:Hf.
    + eapply (comes_to_step d (TUnregister f) (TCheck name)); cbn; rewrite Hf; [done|]. apply check_comes_to.
    + pose proof (comes_to_end d (TUnregister f) (reg, fs)) as H. cbn in H. rewrite Hf in H. by apply H.
  - pose proof (comes_to_end d (TLoad f) (reg, fs)) as H. cbn in H. rewrite Hd in H. by apply H.
  - destruct (reloadable f (Decoded p nd)) as [q|] eqn:Hr.
    + eapply (comes_to_step d (TLoad f) (TRegister f q)); cbn [task_step fst snd];
        [by rewrite Hd, Hr|apply (register_comes_to d f q (reg, fs))].
    + pose proof (comes_to_end d (TLoad f) (reg, fs)) as H. cbn [task_step fst snd] in H.
      rewrite Hd, Hr in H. by apply H.
Qed.

(** ** Shutdown *)

Definition stopped (w : watcher) : Prop := wt_closed w = true ∧ wt_tasks w = [].

Lemma wstep_stopped w w' : wstep w w' → stopped w → stopped w' ∧ wt_st w' = wt_st w.
Proof.
  unfold stopped. intros Hstep [Hc Ht]. destruct Hstep as [file late w|id w|d i w|late w].
  - unfold schedule. by rewrite Hc.
  - unfold fire. destruct (wt_armed w !! id); [|done]. by rewrite Hc.
  - unfold run_nth. by rewrite Ht.
  - done.
Qed.

Lemma wstep_closed w w' : wstep w w' → wt_closed w = true →
  wt_closed w' = true ∧ length (wt_tasks w') ≤ length (wt_tasks w).
Proof.
  intros Hstep Hc. destruct Hstep as [file late w|id w|d i w|late w].
  - unfold schedule. by rewrite Hc.
  - unfold fire. destruct (wt_armed w !! id); [|done]. by rewrite Hc.
  - unfold run_nth. destruct (wt_tasks w !! i) as [t|] eqn:Hi; [|done].
    destruct (task_step d t (wt_st w)) as [st [t'|]]; simpl; (split; [done|]).
    + by rewrite length_insert.
    + rewrite length_delete; [lia|by eexists].
  - done.
Qed.

(** ** Properties *)

(** The state after reloads of files, each with what the disk held then. *)
Definition reload_all (reg0 : AgentRegistry) (history : list (disk * string)) : reload_st :=
  foldl (λ st '(d, file), reloadFile d file st) (reg0, ∅) history.


(** whatever timers, reloads and events are in flight, once the watcher is
    closed no new reload starts, and when the reloads that had started are done, as
    [Stop] waits for, nothing touches the registry any more. *)
Theorem quiet_after_stop w w' : rtc wstep w w' → wt_closed w = true →
  wt_closed w' = true ∧ length (wt_tasks w') ≤ length (wt_tasks w) ∧
  (wt_tasks w = [] → wt_tasks w' = [] ∧ wt_st w' = wt_st w).
Proof.
  induction 1 as [w|w w1 w2 Hstep _ IH]; intros Hc; [done|].
  destruct (wstep_closed w w1 Hstep Hc) as [Hc1 Hl1]. destruct (IH Hc1) as (Hc2 & Hl2 & Hq).
  split; [done|]. split; [lia|]. intros Ht.
  destruct (wstep_stopped w w1 Hstep (conj Hc Ht)) as [[_ Ht1] Hst].
  destruct (Hq Ht1) as [Ht2 Hst2]. split; [done|congruence].
Qed.
End watcher.

(** ** On a concrete directory *)

#[local] Instance ex_yaml : GoYaml :=
  {| Node := unit; Kind _ := OtherNode; Value _ := ""; Line _ := 0%Z; Column _ := 0%Z; Content _ := [] |}.
#[local] Instance ex_regexp_error : RegexpError := λ p, ("bad pattern " +:+ p)%string.
#[local] Instance ex_clean : GoPath := λ p, p.
#[local] Existing Instance plain_fmt.
#[local] Existing Instance literal_regexp.
#[local] Existing Instance canonical_range.

(** The agent moves from [old.yaml] to [new.yaml]. *)
Definition before_rename : disk := λ f, if decide (f = "old.yaml") then Decoded 1 None else Missing.
Definition after_rename : disk := λ f, if decide (f = "new.yaml") then Decoded 1 None else Missing.

Definition loaded_watcher : watcher :=
  run_nth ex_agent_file before_rename 0 (run_nth ex_agent_file before_rename 0
    (run_nth ex_agent_file before_rename 0
      (fire 0 (schedule "old.yaml" false (NewAgentDirWatcher AgentRegistry.NewAgentRegistry))))).

Definition agent_known (w : watcher) : bool :=
  match AgentRegistry.Get "support-bot" (wt_st w).1 with Some _ => true | None => false end.


Lemma quiet_after_stop_witness :
  let w := stop (λ _, true) (schedule "new.yaml" false loaded_watcher) in
  wt_st (fire 1 w) = wt_st w ∧ agent_known w = true.
Proof.
  cbv zeta. split; [|vm_compute; reflexivity].
  set (w := stop (λ _, true) (schedule "new.yaml" false loaded_watcher)).
  assert (rtc (wstep ex_agent_file) w (fire 1 w)) as Hr by (apply rtc_once, step_fire).
  refine (proj2 (proj2 (proj2 (quiet_after_stop ex_agent_file w (fire 1 w) Hr _)) _)); vm_compute; reflexivity.
Defined.

(** A rename whose two reloads overlap: the claim check of the old path runs before
    the new path is remembered, and the removal after. The agent is lost although
    [new.yaml], tracked, declares it. *)
Definition renamed_watcher : watcher :=
  let w := fire 2 (fire 1 (schedule "old.yaml" false (schedule "new.yaml" false loaded_watcher))) in
  let run := run_nth ex_agent_file after_rename in
  run 0 (run 1 (run 1 (run 1 (run 0 (run 0 (run 0 w)))))).

Lemma rename_race_loses_agent :
  agent_known loaded_watcher = true ∧ agent_known renamed_watcher = false ∧
  wt_tasks renamed_watcher = [] ∧ (wt_st renamed_watcher).2 !! "new.yaml" = Some "support-bot".
Proof. split_and!; vm_compute; reflexivity. Qed.

(** The watcher starts without mappings, so a file that was loaded at boot and is
    then deleted keeps its agent. *)
Lemma boot_file_keeps_agent reg file : after_rename file = Missing →
  reloadFile ex_agent_file after_rename file (reg, ∅) = (reg, ∅).
Proof.
  intros Hm.
  unfold reloadFile. cbv zeta. change (Clean file) with file. rewrite Hm.
  unfold unregisterFile. destruct (_ !! file) eqn:H; [by apply lookup_empty_Some in H|done].
Qed.
