(* ===== verification/AdapterCore.v ===== *)
(** What the protocol adapters of [internal/adapter] share: reading a request
    ([decode.go]), token estimates ([token.go]), the mapping of injected faults
    ([chaos.go]), the headers of an answer ([hallucination.go]), ids and error
    statuses ([openai.go]), and the list of adapters ([registry.go]).

    A handler is a function of the request, the environment and the state it finds,
    to the state it leaves and its [reply]. [json.Unmarshal] is an argument of the
    handlers: the request it decodes, or the text of its error. The pools of buffers
    are not modelled. *)

From S2P Require Import Prelude GoBase GoFloat GoStrings AgentTypes ToolProcessor Chaos.
From S2P Require Import ResponseGenerator Engine.
From S2P Require Capture AgentRegistry.

(** ** Requests *)

Record HttpRequest := mkHttpRequest {
  hr_path : string;
  hr_headers : gmap string string;     (* the first value under each canonical name *)
  hr_body : string;                    (* the bytes the body delivers, *)
  hr_readErr : option string;          (* and the error it ends with, if any *)
  hr_tenant : string                   (* the tenant on the context *)
}.

Definition get_header (r : HttpRequest) (name : string) : string := default "" (hr_headers r !! name).

(** 10 MiB. *)
Definition maxDecodeBodyBytes : Z := 10485760.

Inductive decode_error := BodyTooLarge | DecodeError (text : string).

(** [MaxBytesReader] answers its error as soon as one byte too many was read. *)
Definition decodeJSONBody {A} (unmarshal : string → string + A) (r : HttpRequest) : decode_error + A :=
  if decide (maxDecodeBodyBytes < Z.of_nat (String.length (hr_body r)))%Z then inl BodyTooLarge
  else match hr_readErr r with
       | Some err => inl (DecodeError err)
       | None =>
           match unmarshal (hr_body r) with
           | inl err => inl (DecodeError err)
           | inr v => inr v
           end
       end.

(** ** Token estimates *)

Definition token_blank (c : Ascii.ascii) : bool :=
  match Ascii.nat_of_ascii c with 32 | 10 | 9 | 13 => true | _ => false end.

(** The loop of [EstimateTokens]. It reads runes; the four blanks are bytes of their
    own in UTF-8, so reading bytes counts the same words. *)
Fixpoint count_words (s : string) (inWord : bool) (wordCount : Z) : Z :=
  match s with
  | EmptyString => wordCount
  | String c s =>
      if token_blank c then count_words s false wordCount
      else if inWord then count_words s true wordCount
      else count_words s true (wrap64 (wordCount + 1))
  end.

(** The double nearest to 1.3. *)
Definition tokens_per_word : float64 := S754_finite false 5854679515581645 (-52).

Section tokens.
Context {conv : GoConv}.

Definition EstimateTokens (text : string) : Z :=
  if decide (text = "") then 0%Z
  else
    let wordCount := count_words text false 0 in
    let tokens := f64_to_int (f64_mul (f64_of_Z wordCount) tokens_per_word) in
    if decide (tokens = 0 ∧ 0 < wordCount)%Z then 1%Z else tokens.

Definition sumMessageTokens (msgs : list RequestMessage) : Z :=
  foldl (λ total m, wrap64 (total + EstimateTokens (rm_Content m))) 0%Z msgs.
End tokens.

(** ** Answers *)

(** What is done to a hijacked connection. *)
Inductive conn_op := SetLinger0 | WriteGarbage | CloseConn.

(** The connections [underlyingTCP] tells apart; a TLS connection wraps another. *)
Inductive net_conn := TCPConn | TLSConn (over_tcp : bool) | OtherConn.

(** Whether [underlyingTCP] finds a TCP connection. *)
Definition underlyingTCP (conn : net_conn) : bool :=
  match conn with TCPConn => true | TLSConn over_tcp => over_tcp | OtherConn => false end.

(** What a handler answers: one JSON document, a fault on the connection, a stream
    with the error that cut it, or a panic, which the server turns into a closed
    connection. *)
Inductive reply (B S : Type) :=
| JSON (status : Z) (headers : gmap string string) (body : B)
| Hijacked (ops : list conn_op)
| Streamed (headers : gmap string string) (stream : S)
| Panicked.
Arguments JSON {B S} status headers body.
Arguments Hijacked {B S} ops.
Arguments Streamed {B S} headers stream.
Arguments Panicked {B S}.

(** [writeJSON]: the document is encoded first, then written in one piece. *)
Definition writeJSON {B S} (headers : gmap string string) (status : Z) (body : B) : reply B S :=
  JSON status (<["Content-Type" := "application/json"]> headers) body.

(** [connectionFault]: [None] when the connection cannot be hijacked. *)
Definition connectionFault (hijack : option net_conn) (mode : string) : option (list conn_op) :=
  conn ← hijack;
  Some ((if decide (mode = "reset" ∨ mode = "peer-reset") then
           if underlyingTCP conn then [SetLinger0] else []
         else if decide (mode = "random" ∨ mode = "random-then-close" ∨ mode = "garbage") then [WriteGarbage]
         else []) ++ [CloseConn]).

Definition statusCodeOverloaded : Z := 529.

Definition anthropicChaosErrorType (status : Z) : string :=
  if decide (status = 400)%Z then "invalid_request_error"
  else if decide (status = 401)%Z then "authentication_error"
  else if decide (status = 403)%Z then "permission_error"
  else if decide (status = 404)%Z then "not_found_error"
  else if decide (status = 413)%Z then "request_too_large"
  else if decide (status = 429)%Z then "rate_limit_error"
  else if decide (status = 503 ∨ status = statusCodeOverloaded)%Z then "overloaded_error"
  else "api_error".

Definition openAIChaosError (status : Z) : string * string :=
  if decide (status = 401)%Z then ("invalid_request_error", "invalid_api_key")
  else if decide (status = 429)%Z then ("requests", "rate_limit_exceeded")
  else if decide (500 ≤ status)%Z then ("server_error", "")
  else ("invalid_request_error", "").

Definition chaosRetryAfter {conv : GoConv} (ce : ChaosError) : option string :=
  if che_Timeout ce then None
  else if decide (0 < che_RetryAfter ce)%Z then
    let secs := f64_to_int (f64_ceil (Seconds (che_RetryAfter ce))) in
    Some (fmt_d (if decide (secs < 1)%Z then 1%Z else secs))
  else if decide (che_StatusCode ce = 429)%Z then Some "1"
  else None.

Definition HeaderHallucination : string := "X-Mockagents-Hallucination".
Definition HeaderImageCount : string := "X-Mockagents-Image-Count".

Definition setHallucinationHeader (resp : Response) (headers : gmap string string) : gmap string string :=
  match re_Hallucination resp with
  | None => headers
  | Some h => <[HeaderHallucination := if decide (hs_Type h = "") then "true" else hs_Type h]> headers
  end.

Definition setImageCountHeader (imageCount : Z) (headers : gmap string string) : gmap string string :=
  if decide (imageCount ≤ 0)%Z then headers else <[HeaderImageCount := fmt_d imageCount]> headers.

(** ** Ids *)

(** [strconv.FormatUint(n, 16)]: one digit at least, sixteen at most. *)
Definition generateID (draw : Z) : string := hex_fixed (hex_width 15 1 draw) draw.

Definition extractSessionID (r : HttpRequest) (draw : Z) : string :=
  let id := get_header r "X-Session-Id" in
  if decide (id ≠ "") then id else ("sess-" +:+ generateID draw)%string.

(** ** Errors of the engine *)

(** The texts of the context's error, of [text/template]'s errors and of a duration. *)
Class ErrorTexts `{GoTemplate} := {
  ctx_text : string;
  template_text : template_error → string;
  duration_text : Z → string
}.

Section errors.
Context {fmt : GoFmt} {gotmpl : GoTemplate} {texts : ErrorTexts}.

Definition chaos_text (e : ChaosError) : string :=
  if decide (che_Connection e ≠ "") then ("chaos: connection fault " +:+ Quote (che_Connection e))%string
  else if che_Timeout e then ("chaos: timeout after " +:+ duration_text (che_RetryAfter e))%string
  else ("chaos: injected " +:+ fmt_d (che_StatusCode e) +:+ ": " +:+ che_Message e)%string.

Definition render_text (scenario : string) (e : render_error) : string :=
  ("rendering scenario " +:+ Quote scenario +:+ " content: " +:+
   match e with
   | ParsingTemplate e => "parsing template: " +:+ template_text e
   | ExecutingTemplate e => "executing template: " +:+ template_text e
   end)%string.

(** [err.Error()]; a panic has none. *)
Definition error_text (e : EngineError) : string :=
  match e with
  | ErrAgentNotFound identifier available =>
      "agent not found: " +:+ Quote identifier +:+ " (available: [" +:+ Join available space +:+ "])"
  | ErrContext => ctx_text
  | ErrChaos e => chaos_text e
  | ErrEmptyMessage => "empty user message"
  | ErrGenerating agent scenario e =>
      "generating response for agent " +:+ Quote agent +:+ ": " +:+ render_text scenario e
  | EnginePanic => ""
  end%string.

(** The status of an error that is not an injected fault, by its text. *)
Definition error_status (text : string) : Z :=
  if str_contains text "not found" then 404%Z
  else if str_contains text "empty" then 400%Z
  else 500%Z.

Lemma has_prefix_contains s p : has_prefix s p = true → str_contains s p = true.
Proof. intros [t ->]%has_prefix_spec. apply str_contains_spec. by exists "", t. Qed.

(** The two errors the statuses are meant for get theirs, whatever the identifier,
    and nothing in the repository but the text of a name or of a template error
    decides for the others. *)
Lemma error_status_meant identifier available :
  error_status (error_text (ErrAgentNotFound identifier available)) = 404%Z ∧
  error_status (error_text ErrEmptyMessage) = 400%Z.
Proof.
  split; [|by vm_compute]. unfold error_status.
  assert (str_contains (error_text (ErrAgentNotFound identifier available)) "not found" = true) as ->; [|done].
  apply str_contains_spec. unfold error_text.
  exists "agent ", (": " +:+ Quote identifier +:+ " (available: [" +:+ Join available space +:+ "])")%string.
  done.
Qed.
End errors.

(** ** The metadata of a request

    [RequestMetaFromContext] answers a pointer, or nil where nothing captures: the
    adapters write through it when it is there. *)
Abbreviation RequestMeta := Capture.RequestMeta.

Definition set_protocol (protocol : string) (meta : option RequestMeta) : option RequestMeta :=
  (λ m, Capture.mkMeta (Capture.AgentName m) (Capture.meta_Model m) protocol (Capture.meta_SessionID m)
     (Capture.ScenarioName m) (Capture.ToolCallsCount m) (Capture.meta_Error m)) <$> meta.

Definition set_session (session : string) (meta : option RequestMeta) : option RequestMeta :=
  (λ m, Capture.mkMeta (Capture.AgentName m) (Capture.meta_Model m) (Capture.Protocol m) session
     (Capture.ScenarioName m) (Capture.ToolCallsCount m) (Capture.meta_Error m)) <$> meta.

Definition set_model (model : string) (meta : option RequestMeta) : option RequestMeta :=
  (λ m, Capture.mkMeta (Capture.AgentName m) model (Capture.Protocol m) (Capture.meta_SessionID m)
     (Capture.ScenarioName m) (Capture.ToolCallsCount m) (Capture.meta_Error m)) <$> meta.

Definition set_error (err : string) (meta : option RequestMeta) : option RequestMeta :=
  (λ m, Capture.mkMeta (Capture.AgentName m) (Capture.meta_Model m) (Capture.Protocol m)
     (Capture.meta_SessionID m) (Capture.ScenarioName m) (Capture.ToolCallsCount m) err) <$> meta.

(** The stamp of a matched request. *)
Definition set_matched (model : string) (resp : Response) (meta : option RequestMeta) : option RequestMeta :=
  (λ m, Capture.mkMeta (re_AgentName resp) model (Capture.Protocol m) (Capture.meta_SessionID m)
     (re_ScenarioName resp) (Z.of_nat (length (re_ToolCalls resp))) (Capture.meta_Error m)) <$> meta.

(** ** The configuration of a stream

    The adapters look the agent up again, by the model alone. *)
Section stream_config.
Context {mr : MapRange} {heap : Heap AgentDefinition}.

Definition stream_agent (reg : AgentRegistry.AgentRegistry) (model tenantID : string) : option loc :=
  match AgentRegistry.GetByModelForTenant model tenantID reg with
  | Some agent => Some agent
  | None => match AgentRegistry.ListForTenant tenantID reg with [agent] => Some agent | _ => None end
  end.

Definition stream_config (reg : AgentRegistry.AgentRegistry) (model tenantID : string) : option StreamingConfig :=
  agent ← stream_agent reg model tenantID; bc_Streaming (as_Behavior (ad_Spec (deref agent))).

(** It is the agent that answered: an adapter names no agent, and the engine falls
    back on the only agent where the adapter does, except that it never does so for a
    tenant, whose request it then refuses. *)
Lemma stream_agent_resolved {gotmpl : GoTemplate} reg req tenantID p :
  ir_AgentName req = "" → ir_Model req ≠ "" → resolveAgentForTenant reg req tenantID = inr p →
  stream_agent reg (ir_Model req) tenantID = Some p.
Proof.
  intros Hn Hm. unfold resolveAgentForTenant, stream_agent.
  rewrite (decide_True (P := ir_AgentName req = "")) by done.
  rewrite (decide_False (P := ir_Model req = "")) by done.
  destruct (AgentRegistry.GetByModelForTenant _ _ _) as [q|]; [by intros [= <-]|].
  case_decide as Ht; [|done]. subst tenantID.
  destruct (AgentRegistry.ListForTenant "" reg) as [|q [|? ?]]; try done. by intros [= <-].
Qed.
End stream_config.

Definition plain_texts : @ErrorTexts literal_template :=
  @Build_ErrorTexts literal_template "context canceled" (λ e, e) (λ _, "1s").

(** A template error of an agent whose name says so is answered with 400, as if the
    client had sent an empty message. *)
Example rendering_error_as_bad_request :
  let _ := plain_fmt in
  let status agent := error_status (error_text (texts := plain_texts)
    (ErrGenerating agent "s" (ParsingTemplate (gotmpl := literal_template) "bad"))) in
  status "bot" = 500%Z ∧ status "empty-cart-bot" = 400%Z ∧ status "not found bot" = 404%Z.
Proof. by vm_compute. Qed.

(** ** Examples *)

(** A retry hint is a whole number of seconds, and never less than one. *)
Example chaosRetryAfter_cases :
  let _ := amd64_conv in
  let ce status retry timeout := mkChaosError status "" retry timeout "" in
  chaosRetryAfter (ce 503 (1500 * Millisecond) false)%Z = Some "2" ∧
  chaosRetryAfter (ce 503 1 false)%Z = Some "1" ∧
  chaosRetryAfter (ce 429 0 false)%Z = Some "1" ∧
  chaosRetryAfter (ce 503 0 false)%Z = None ∧
  chaosRetryAfter (ce 504 (30 * Second) true)%Z = None.
Proof. by vm_compute. Qed.

Example EstimateTokens_cases :
  let _ := amd64_conv in
  EstimateTokens "" = 0%Z ∧ EstimateTokens "   " = 0%Z ∧ EstimateTokens "one" = 1%Z ∧
  EstimateTokens "one two  three four" = 5%Z ∧
  EstimateTokens "a b c d e f g h i j" = 13%Z.
Proof. by vm_compute. Qed.

Example generateID_cases : generateID 0 = "0" ∧ generateID 255 = "ff" ∧
  generateID 18446744073709551615 = "ffffffffffffffff".
Proof. by vm_compute. Qed.
