(* ===== verification/StructuredOutput.v ===== *)
(** Structured outputs, [internal/adapter/structured_output.go]: the enforcement of
    an OpenAI [response_format], and the synthesis of a minimal instance of a JSON
    Schema under its two resource limits.

    A schema is the object [encoding/json] decodes it to, its members in the order
    [range] visits them. The keywords the synthesis promises to satisfy are given a
    meaning of their own ([valid]), against which the synthesized value is checked
    for the schemas strict mode is made of ([strict]). *)

From S2P Require Import Prelude GoBase GoFloat GoStrings AgentTypes ToolProcessor ResponseGenerator.

(** [json.Valid], and [json.Marshal] with its errors. *)
Class SchemaJson := {
  JsonValid : string → bool;
  JsonMarshal : value → option string
}.

Abbreviation obj := (list (string * value)).

Record ResponseFormatJSON := mkResponseFormatJSON {
  rfj_Name : string; rfj_Schema : obj; rfj_Strict : option bool
}.

Record ResponseFormat := mkResponseFormat {
  rf_Type : string; rf_JSONSchema : option ResponseFormatJSON
}.

Definition maxSynthDepth : Z := 12.
Definition maxSynthArrayItems : Z := 5.
Definition maxSynthNodes : Z := 5000.

(** ** Reading a schema *)

Definition isFinite (f : float64) : bool :=
  match f with S754_infinity _ | S754_nan => false | _ => true end.

(** [toFloat64]; a [json.Number] cannot occur, the decoder does not use it. *)
Definition toFloat64 (v : option value) : option float64 :=
  match v with
  | Some (VFloat64 n) => Some n
  | Some (VInt n) | Some (VInt64 n) => Some (f64_of_Z n)
  | _ => None
  end.

(** The finite number under a keyword. *)
Definition finite_at (schema : obj) (key : string) : option float64 :=
  match toFloat64 (obj_get schema key) with
  | Some m => if isFinite m then Some m else None
  | None => None
  end.

(** The first entry of a [type] array that is a string other than "null". *)
Definition first_type (ts : list value) : option string :=
  head (omap (λ e, match e with VString s => if decide (s = "null") then None else Some s | _ => None end) ts).

Definition typeOf (schema : obj) : string :=
  match obj_get schema "type" with
  | Some (VString t) => t
  | Some (VArr ts) => default "null" (first_type ts)
  | _ =>
      match obj_get schema "properties", obj_get schema "items" with
      | Some _, _ => "object"
      | None, Some _ => "array"
      | None, None => ""
      end
  end.

Definition extractDefs (schema : obj) : obj :=
  match obj_get schema "$defs", obj_get schema "definitions" with
  | Some (VObj d), _ => d
  | _, Some (VObj d) => d
  | _, _ => []
  end.

Definition ref_name (ref : string) : string :=
  if has_prefix ref "#/$defs/" then str_drop 8 ref
  else if has_prefix ref "#/definitions/" then str_drop 14 ref
  else ref.

Definition resolveRef (ref : string) (defs : obj) : option obj :=
  match obj_get defs (ref_name ref) with Some (VObj d) => Some d | _ => None end.

Definition ref_of (schema : obj) : option string := obj_get schema "$ref" ≫= as_string.

(** The zero value of a type; of the types it does not know, nil. *)
Definition zero_of (t : string) : value :=
  if decide (t = "object") then VObj []
  else if decide (t = "array") then VArr []
  else if decide (t = "string") then VString ""
  else if decide (t = "integer") then VInt64 0
  else if decide (t = "number") then VFloat64 f64_zero
  else if decide (t = "boolean") then VBool false
  else VNil.

Definition zeroForSchema (defs schema : obj) : value :=
  zero_of (typeOf (match ref_of schema with
                   | Some ref => default schema (resolveRef ref defs)
                   | None => schema
                   end)).

Definition synthString (schema : obj) : string :=
  match obj_get schema "format" with
  | Some (VString f) =>
      if decide (f = "date-time") then "2024-01-01T00:00:00Z"
      else if decide (f = "date") then "2024-01-01"
      else if decide (f = "time") then "00:00:00"
      else if decide (f = "email") then "user@example.com"
      else if decide (f = "uri" ∨ f = "url") then "https://example.com"
      else if decide (f = "uuid") then "00000000-0000-4000-8000-000000000000"
      else ""
  | _ => ""
  end.

(** The positional sub-schemas of a tuple. *)
Definition tupleItems (schema : obj) : option (list value) :=
  match obj_get schema "prefixItems", obj_get schema "items" with
  | Some (VArr (p :: ps)), _ => Some (p :: ps)
  | _, Some (VArr (p :: ps)) => Some (p :: ps)
  | _, _ => None
  end.

(** The branch [anyOf] or [oneOf] is synthesized from. *)
Definition first_of (v : option value) : option obj :=
  match v with Some (VArr (VObj first :: _)) => Some first | _ => None end.

Definition first_branch (schema : obj) : option obj :=
  match first_of (obj_get schema "anyOf") with
  | Some first => Some first
  | None => first_of (obj_get schema "oneOf")
  end.

(** The value of [const], or the first of a non-empty [enum]. *)
Definition literal_of (schema : obj) : option value :=
  match obj_get schema "const" with
  | Some cv => Some cv
  | None => es ← obj_get schema "enum" ≫= as_arr; head es
  end.

Definition props_of (schema : obj) : obj := default [] (obj_get schema "properties" ≫= as_obj).

(** The branches of a non-empty [allOf]. *)
Definition allOf_of (schema : obj) : option (value * list value) :=
  bs ← obj_get schema "allOf" ≫= as_arr;
  match bs with [] => None | b :: bs => Some (b, bs) end.

(** The copy loops of [allOf]: the members of [props] over those of [dst]. *)
Definition merge (props : obj) (dst : gmap string value) : gmap string value :=
  foldl (λ dst kv, <[kv.1 := kv.2]> dst) dst props.

Definition own_props (schema : obj) : gmap string value := merge (props_of schema) ∅.

Section synth.
Context {mr : MapRange} {conv : GoConv}.

Definition clampMaxInt (v : Z) (schema : obj) : Z :=
  let bound_max := finite_at schema "maximum" in
  let bound_ex := finite_at schema "exclusiveMaximum" in
  match bound_max with
  | Some mx =>
      if f64_lt mx (f64_of_Z v) then f64_to_int (f64_floor mx)
      else match bound_ex with
           | Some ex => if f64_le ex (f64_of_Z v) then wrap64 (f64_to_int (f64_ceil ex) - 1) else v
           | None => v
           end
  | None =>
      match bound_ex with
      | Some ex => if f64_le ex (f64_of_Z v) then wrap64 (f64_to_int (f64_ceil ex) - 1) else v
      | None => v
      end
  end.

Definition lowerBoundInt (schema : obj) : option Z :=
  match finite_at schema "minimum", finite_at schema "exclusiveMinimum" with
  | Some m, _ => Some (clampMaxInt (f64_to_int (f64_ceil m)) schema)
  | None, Some m => Some (clampMaxInt (wrap64 (f64_to_int (f64_floor m) + 1)) schema)
  | None, None => None
  end.

Definition lowerBoundNum (schema : obj) : option float64 :=
  match finite_at schema "minimum", finite_at schema "exclusiveMinimum" with
  | Some m, _ => Some m
  | None, Some m => Some (f64_add m f64_one)
  | None, None => None
  end.

(** How many elements an array is given. *)
Definition array_items (schema : obj) : nat :=
  let n := match toFloat64 (obj_get schema "minItems") with
           | Some mi => if decide (1 < f64_to_int mi)%Z then f64_to_int mi else 1%Z
           | None => 1%Z
           end in
  Z.to_nat (if decide (maxSynthArrayItems < n)%Z then maxSynthArrayItems else n).

(** ** The walk

    Every definition threads the budget. [fuel] bounds the nesting of calls; [None]
    would mean that it ran out, which [synth_total] excludes. *)

(** The schema a branch of [allOf] stands for, if any. *)
Definition all_of_branch (defs : obj) (b : value) : option obj :=
  sub ← as_obj b;
  match ref_of sub with Some ref => resolveRef ref defs | None => Some sub end.

(** [collectAllOfProps]: [dst] with the properties of the branches. *)
Fixpoint collectAllOfProps (fuel : nat) (defs : obj) (branches : list value) (dst : gmap string value)
    (depth : Z) : option (gmap string value) :=
  if decide (maxSynthDepth < depth)%Z then Some dst
  else
    match fuel with
    | O => None
    | S fuel =>
        foldl (λ acc b,
          dst ← acc;
          match all_of_branch defs b with
          | None => Some dst
          | Some sub =>
              let dst := merge (props_of sub) dst in
              match obj_get sub "allOf" ≫= as_arr with
              | Some nested => collectAllOfProps fuel defs nested dst (depth + 1)
              | None => Some dst
              end
          end) (Some dst) branches
    end.

(** The loops of [synthObject] and [synthArray]; [rec] is [c.synth] at their depth. *)
Section loops.
Context (rec : obj → Z → option (value * Z)).

Fixpoint synth_members (props : obj) (budget : Z) : option (obj * Z) :=
  match props with
  | [] => Some ([], budget)
  | (k, v) :: props =>
      if decide (budget ≤ 0)%Z then Some ([], budget)
      else
        '(x, budget) ← match as_obj v with Some vm => rec vm budget | None => Some (VNil, budget) end;
        '(rest, budget) ← synth_members props budget;
        Some ((k, x) :: rest, budget)
  end.

Definition synthObject (props : obj) (budget : Z) : option (value * Z) :=
  '(members, budget) ← synth_members props budget; Some (VObj members, budget).

Fixpoint synth_tuple (tuple : list value) (budget : Z) : option (list value * Z) :=
  match tuple with
  | [] => Some ([], budget)
  | p :: tuple =>
      if decide (budget ≤ 0)%Z then Some ([], budget)
      else
        '(x, budget) ← match as_obj p with Some pm => rec pm budget | None => Some (VNil, budget) end;
        '(rest, budget) ← synth_tuple tuple budget;
        Some (x :: rest, budget)
  end.

Definition synthArray (schema : obj) (budget : Z) : option (value * Z) :=
  match tupleItems schema with
  | Some tuple => '(xs, budget) ← synth_tuple tuple budget; Some (VArr xs, budget)
  | None =>
      match obj_get schema "items" ≫= as_obj with
      | Some items =>
          '(xs, budget) ← synth_tuple (replicate (array_items schema) (VObj items)) budget;
          Some (VArr xs, budget)
      | None => Some (VArr [], budget)
      end
  end.
End loops.

(** The nesting of [collectAllOfProps]: one call per depth up to the limit. *)
Definition collect_fuel : nat := 13.

(** The last case of [synth]. *)
Definition synth_scalar (t : string) (schema : obj) : value :=
  if decide (t = "string") then VString (synthString schema)
  else if decide (t = "integer") then VInt64 (default 0%Z (lowerBoundInt schema))
  else if decide (t = "number") then VFloat64 (default f64_zero (lowerBoundNum schema))
  else if decide (t = "boolean") then VBool false
  else VNil.

(** [synth]. Its callers never pass a nil schema. *)
Fixpoint synth (fuel : nat) (defs schema : obj) (depth budget : Z) : option (value * Z) :=
  match fuel with
  | O => None
  | S fuel =>
      let budget := (budget - 1)%Z in
      if decide (budget ≤ 0 ∨ maxSynthDepth ≤ depth)%Z then Some (zeroForSchema defs schema, budget)
      else match literal_of schema, ref_of schema, first_branch schema, allOf_of schema with
      | Some v, _, _, _ => Some (v, budget)
      | None, Some ref, _, _ =>
          match resolveRef ref defs with
          | Some resolved => synth fuel defs resolved (depth + 1) budget
          | None => Some (VNil, budget)
          end
      | None, None, Some first, _ => synth fuel defs first (depth + 1) budget
      | None, None, None, Some (b, bs) =>
          props ← collectAllOfProps collect_fuel defs (b :: bs) (own_props schema) depth;
          if decide (props = ∅) then
            match as_obj b with
            | Some first => synth fuel defs first (depth + 1) budget
            | None => Some (VNil, budget)
            end
          else synthObject (λ s, synth fuel defs s (depth + 1)) (range props) budget
      | None, None, None, None =>
          let t := typeOf schema in
          if decide (t = "object") then
            synthObject (λ s, synth fuel defs s (depth + 1)) (props_of schema) budget
          else if decide (t = "array") then synthArray (λ s, synth fuel defs s (depth + 1)) schema budget
          else Some (synth_scalar t schema, budget)
      end
  end.

(** A call nests at most once per depth. *)
Definition synth_fuel : nat := 13.

Definition synthesized (schema : obj) : option (value * Z) :=
  synth synth_fuel (extractDefs schema) schema 0 maxSynthNodes.
End synth.

(** Conversion compares calls of the walk by their arguments first. *)
Strategy 100 [synth].

(** ** The walk ends within its budget *)

Section bounds.
Context {mr : MapRange} {conv : GoConv}.

Lemma collectAllOfProps_total fuel defs branches dst depth :
  (maxSynthDepth - depth < Z.of_nat fuel)%Z → is_Some (collectAllOfProps fuel defs branches dst depth).
Proof.
  revert branches dst depth. induction fuel as [|fuel IH]; intros branches dst depth Hd; simpl;
    (case_decide; [done|]); [lia|].
  revert dst. induction branches as [|b branches IHb]; intros dst; simpl; [done|].
  destruct (all_of_branch defs b) as [sub|]; [|apply IHb].
  destruct (obj_get sub "allOf" ≫= as_arr) as [nested|]; [|apply IHb].
  destruct (IH nested (merge (props_of sub) dst) (depth + 1)%Z) as [dst' ->]; [lia|]. apply IHb.
Qed.

(** What a call does to the budget: it answers, uses some of it, and never more. *)
Definition spends (rec : obj → Z → option (value * Z)) : Prop := ∀ s b, (0 < b)%Z →
  ∃ v b', rec s b = Some (v, b') ∧ (0 ≤ b' < b)%Z.

Lemma opt_call_spends rec o b : spends rec → (0 < b)%Z →
  ∃ x b', match o with Some vm => rec vm b | None => Some (VNil, b) end = Some (x, b') ∧ (0 ≤ b' ≤ b)%Z.
Proof.
  intros Hrec Hb. destruct o as [vm|]; [|by eexists _, _; split; [done|lia]].
  destruct (Hrec vm b Hb) as (x & b' & -> & ?). eexists _, _. split; [done|lia].
Qed.

Lemma synth_members_spends rec props b : spends rec → (0 ≤ b)%Z →
  ∃ kvs b', synth_members rec props b = Some (kvs, b') ∧ (0 ≤ b' ≤ b)%Z.
Proof.
  intros Hrec. revert b. induction props as [|[k v] props IH]; intros b Hb; simpl; [by eexists _, _|].
  case_decide; [by eexists _, _|].
  destruct (opt_call_spends rec (as_obj v) b Hrec) as (x & b1 & -> & H1); [lia|]. simpl.
  destruct (IH b1) as (kvs & b2 & -> & ?); [lia|]. eexists _, _. split; [done|lia].
Qed.

Lemma synth_tuple_spends rec tuple b : spends rec → (0 ≤ b)%Z →
  ∃ xs b', synth_tuple rec tuple b = Some (xs, b') ∧ (0 ≤ b' ≤ b)%Z.
Proof.
  intros Hrec. revert b. induction tuple as [|p tuple IH]; intros b Hb; simpl; [by eexists _, _|].
  case_decide; [by eexists _, _|].
  destruct (opt_call_spends rec (as_obj p) b Hrec) as (x & b1 & -> & H1); [lia|]. simpl.
  destruct (IH b1) as (xs & b2 & -> & ?); [lia|]. eexists _, _. split; [done|lia].
Qed.

Lemma synthObject_spends rec props b : spends rec → (0 ≤ b)%Z →
  ∃ v b', synthObject rec props b = Some (v, b') ∧ (0 ≤ b' ≤ b)%Z.
Proof.
  intros Hrec Hb. unfold synthObject.
  destruct (synth_members_spends rec props b Hrec Hb) as (kvs & b' & -> & ?). by eexists _, _.
Qed.

Lemma synthArray_spends rec schema b : spends rec → (0 ≤ b)%Z →
  ∃ v b', synthArray rec schema b = Some (v, b') ∧ (0 ≤ b' ≤ b)%Z.
Proof.
  intros Hrec Hb. unfold synthArray. destruct (tupleItems schema) as [tuple|].
  { destruct (synth_tuple_spends rec tuple b Hrec Hb) as (xs & b' & -> & ?). by eexists _, _. }
  destruct (obj_get schema "items" ≫= as_obj) as [items|]; [|by eexists _, _].
  destruct (synth_tuple_spends rec (replicate (array_items schema) (VObj items)) b Hrec Hb)
    as (xs & b' & -> & ?). by eexists _, _.
Qed.

(** Enough fuel for the depth that is left: the walk answers, and the calls it makes
    are at most as many as the budget it starts with. *)
Lemma synth_spends fuel defs depth : (maxSynthDepth - depth < Z.of_nat fuel)%Z → (0 < fuel)%nat →
  (0 ≤ depth)%Z → spends (λ s, synth fuel defs s depth).
Proof.
  revert depth. induction fuel as [|fuel IH]; intros depth Hf Hpos Hd s b Hb; [lia|]. cbn [synth].
  case_decide as Hlim; [eexists _, _; split; [done|lia]|].
  apply Decidable.not_or in Hlim as [Hb1 Hdep].
  assert (spends (λ s, synth fuel defs s (depth + 1))) as Hrec
    by (apply IH; unfold maxSynthDepth in *; lia).
  enough (∀ r : option (value * Z), (∃ v b', r = Some (v, b') ∧ (0 ≤ b' ≤ b - 1)%Z) →
    ∃ v b', r = Some (v, b') ∧ (0 ≤ b' < b)%Z) as Hle.
  2:{ intros r (v & b' & ? & ?). exists v, b'. split; [done|lia]. }
  assert (0 < b - 1)%Z as Hb2 by lia. pose proof (λ o, opt_call_spends _ o _ Hrec Hb2) as Hopt.
  assert (∀ v : value, ∃ v' b', Some (v, (b - 1)%Z) = Some (v', b') ∧ (0 ≤ b' ≤ b - 1)%Z) as Hret
    by (intros v; eexists _, _; split; [done|lia]).
  apply Hle. destruct (literal_of s); [apply Hret|]. destruct (ref_of s) as [ref|].
  { apply (Hopt (resolveRef ref defs)). }
  destruct (first_branch s) as [first|]; [apply (Hopt (Some first))|].
  destruct (allOf_of s) as [[x xs]|].
  { destruct (collectAllOfProps_total collect_fuel defs (x :: xs) (own_props s) depth) as [props ->].
    { unfold collect_fuel, maxSynthDepth in *. lia. }
    simpl. case_decide; [apply (Hopt (as_obj x))|]. apply synthObject_spends; [done|lia]. }
  cbv zeta. case_decide; [apply synthObject_spends; [done|lia]|].
  case_decide; [apply synthArray_spends; [done|lia]|]. apply Hret.
Qed.
End bounds.

(** ** What a synthesized value is *)

(** The Go value of a JSON Schema type. *)
Definition has_type (t : string) (v : value) : Prop :=
  match v with
  | VObj _ => t = "object"
  | VArr _ => t = "array"
  | VString _ => t = "string"
  | VInt64 _ => t = "integer"
  | VFloat64 _ => t = "number"
  | VBool _ => t = "boolean"
  | VNil => t ∉ ["object"; "array"; "string"; "integer"; "number"; "boolean"]
  | _ => False
  end.

(** A schema that only its type and its members describe. *)
Definition plain (schema : obj) : Prop :=
  literal_of schema = None ∧ ref_of schema = None ∧ first_branch schema = None ∧ allOf_of schema = None.

Lemma zero_of_typed t : has_type t (zero_of t).
Proof.
  unfold zero_of. repeat (case_decide; [done|]). unfold has_type. set_solver.
Qed.

Lemma synth_scalar_typed t schema `{GoConv} :
  t ≠ "object" → t ≠ "array" → has_type t (synth_scalar t schema).
Proof.
  intros H1 H2. unfold synth_scalar. repeat (case_decide; [done|]). unfold has_type. set_solver.
Qed.

(** The keywords a value is checked against, each on its own, as JSON Schema does. *)
Definition types (schema : obj) : option (list string) :=
  match obj_get schema "type" with
  | Some (VString t) => Some [t]
  | Some (VArr ts) => Some (omap as_string ts)
  | _ => None
  end.

Definition json_type (t : string) (v : value) : Prop :=
  match v with
  | VObj _ => t = "object"
  | VArr _ => t = "array"
  | VString _ => t = "string"
  | VInt _ | VInt32 _ | VInt64 _ => t = "integer" ∨ t = "number"
  | VFloat32 _ | VFloat64 _ => t = "number"
  | VBool _ => t = "boolean"
  | VNil => t = "null"
  | VStrMap _ => False
  end.

Inductive valid (defs : obj) : obj → value → Prop :=
| valid_intro s v :
    (∀ ts, types s = Some ts → Exists (λ t, json_type t v) ts) →
    (∀ c, obj_get s "const" = Some c → v = c) →
    (∀ es, obj_get s "enum" = Some (VArr es) → v ∈ es) →
    (∀ ref, obj_get s "$ref" = Some (VString ref) →
      ∃ r, resolveRef ref defs = Some r ∧ valid defs r v) →
    (∀ bs, obj_get s "anyOf" = Some (VArr bs) → ∃ b, VObj b ∈ bs ∧ valid defs b v) →
    (∀ kvs props k p x, v = VObj kvs → obj_get s "properties" = Some (VObj props) →
      obj_get props k = Some (VObj p) → obj_get kvs k = Some x → valid defs p x) →
    (∀ kvs req k, v = VObj kvs → obj_get s "required" = Some (VArr req) → VString k ∈ req → k ∈ kvs.*1) →
    (∀ kvs k, v = VObj kvs → obj_get s "additionalProperties" = Some (VBool false) → k ∈ kvs.*1 →
      k ∈ (props_of s).*1) →
    (∀ xs i x, v = VArr xs → obj_get s "items" = Some (VObj i) → x ∈ xs → valid defs i x) →
    valid defs s v.

(** ** The schemas of strict mode

    [strict n s c]: a schema the synthesis supports, that nests [n] deep once its
    references are followed and is visited [c] times. *)
Definition absent (keys : list string) (schema : obj) : Prop := Forall (λ k, obj_get schema k = None) keys.

Definition members_keys : list string := ["properties"; "required"; "additionalProperties"; "items"; "prefixItems"].
Definition compound_keys : list string := ["const"; "enum"; "$ref"; "anyOf"; "oneOf"; "allOf"].

(** The type of a schema is the one the synthesis picks. *)
Definition typed (schema : obj) (t : string) : Prop :=
  typeOf schema = t ∧ ∀ ts, types schema = Some ts → t ∈ ts.

Inductive strict `{GoConv} (defs : obj) : nat → obj → nat → Prop :=
| strict_const n s c : obj_get s "const" = Some c →
    absent (["enum"; "$ref"; "anyOf"] ++ members_keys) s →
    (∀ ts, types s = Some ts → Exists (λ t, json_type t c) ts) → strict defs n s 1
| strict_enum n s e es : obj_get s "enum" = Some (VArr (e :: es)) →
    absent (["const"; "$ref"; "anyOf"] ++ members_keys) s →
    (∀ ts, types s = Some ts → Exists (λ t, json_type t e) ts) → strict defs n s 1
| strict_scalar n s t : typed s t → types s ≠ None →
    t ∈ ["string"; "integer"; "number"; "boolean"; "null"] →
    absent (compound_keys ++ members_keys) s → strict defs n s 1
| strict_ref n s ref r c : obj_get s "$ref" = Some (VString ref) → resolveRef ref defs = Some r →
    absent (["type"; "const"; "enum"; "anyOf"] ++ members_keys) s →
    strict defs n r c → strict defs (S n) s (S c)
| strict_anyOf n s b bs c : obj_get s "anyOf" = Some (VArr (VObj b :: bs)) →
    absent (["type"; "const"; "enum"; "$ref"] ++ members_keys) s →
    strict defs n b c → strict defs (S n) s (S c)
| strict_object n s c : typed s "object" →
    absent (compound_keys ++ ["items"; "prefixItems"]) s → NoDup (props_of s).*1 →
    (∀ v, obj_get s "properties" = Some v → is_Some (as_obj v)) →
    (∀ req k, obj_get s "required" = Some (VArr req) → VString k ∈ req → k ∈ (props_of s).*1) →
    strict_members defs n (props_of s) c → strict defs (S n) s (S c)
| strict_array n s i c : typed s "array" →
    absent (compound_keys ++ ["properties"; "required"; "additionalProperties"; "prefixItems"]) s →
    obj_get s "items" = Some (VObj i) → strict defs n i c →
    strict defs (S n) s (S (array_items s * c))
with strict_members `{GoConv} (defs : obj) : nat → obj → nat → Prop :=
| strict_nil n : strict_members defs n [] 0
| strict_cons n k p c props cs : strict defs n p c → strict_members defs n props cs →
    strict_members defs n ((k, VObj p) :: props) (c + cs).

(** A concrete key is one of a concrete list. *)
Ltac in_keys := by apply (bool_decide_eq_true_1 _).

Section strict_ok.
Context {mr : MapRange} {conv : GoConv} (defs : obj).

Lemma absent_get keys k s : absent keys s → k ∈ keys → obj_get s k = None.
Proof. unfold absent. rewrite Forall_forall. auto. Qed.

(** A call at some depth is right on the schemas that nest at most [n] deep. *)
Definition sound_at (rec : obj → Z → option (value * Z)) (n : nat) : Prop := ∀ s c b,
  strict defs n s c → (Z.of_nat c < b)%Z →
  ∃ v, rec s b = Some (v, b - Z.of_nat c)%Z ∧ valid defs s v.

Lemma strict_cost n s c : strict defs n s c → 0 < c.
Proof. by destruct 1; lia. Qed.

Lemma synth_members_sound rec n props c b :
  sound_at rec n → strict_members defs n props c → (Z.of_nat c < b)%Z →
  ∃ kvs, synth_members rec props b = Some (kvs, b - Z.of_nat c)%Z ∧ kvs.*1 = props.*1 ∧
    ∀ k p x, obj_get props k = Some (VObj p) → obj_get kvs k = Some x → valid defs p x.
Proof.
  intros Hrec. revert c b. induction props as [|[k v] props IH]; intros c b Hs Hb.
  { inversion Hs. exists []. simpl. split_and!; [by rewrite Z.sub_0_r|done|]. intros k p x. by rewrite obj_get_nil. }
  inversion Hs as [|? ? p c1 ? cs Hp Hps]; subst. cbn [synth_members as_obj].
  rewrite decide_False by lia.
  destruct (Hrec p c1 b Hp) as (x & -> & Hx); [lia|]. simpl.
  destruct (IH cs (b - Z.of_nat c1)%Z Hps) as (kvs & -> & Hk & Hv); [lia|]. simpl.
  eexists. split; [do 2 f_equal; lia|]. split; [by simpl; f_equal|].
  intros j q y. rewrite !obj_get_cons. case_decide; [by intros [= <-] [= <-]|]. apply Hv.
Qed.

Lemma synth_items_sound rec n i c m b :
  sound_at rec n → strict defs n i c → (Z.of_nat (m * c) < b)%Z →
  ∃ xs, synth_tuple rec (replicate m (VObj i)) b = Some (xs, b - Z.of_nat (m * c))%Z ∧
    ∀ x, x ∈ xs → valid defs i x.
Proof.
  intros Hrec Hi. revert b. induction m as [|m IH]; intros b Hb; cbn [replicate synth_tuple].
  { exists []. split; [by rewrite Z.sub_0_r|]. intros x. by rewrite elem_of_nil. }
  rewrite decide_False by lia. cbn [as_obj].
  destruct (Hrec i c b Hi) as (x & -> & Hx); [lia|]. simpl.
  destruct (IH (b - Z.of_nat c)%Z) as (xs & -> & Hxs); [lia|]. simpl.
  eexists. split; [do 2 f_equal; lia|]. intros y [->|?]%elem_of_cons; [done|by apply Hxs].
Qed.

(** A view of a schema that lacks the compound keywords. *)
Lemma no_compound s : absent compound_keys s → plain s.
Proof.
  intros H. unfold plain, literal_of, ref_of, first_branch, allOf_of.
  by rewrite !(absent_get compound_keys _ s H) by in_keys.
Qed.

Lemma absent_app ks1 ks2 s : absent (ks1 ++ ks2) s → absent ks1 s ∧ absent ks2 s.
Proof. unfold absent. by rewrite Forall_app. Qed.

Lemma scalar_compound t : t ∈ ["string"; "integer"; "number"; "boolean"; "null"]%string →
  t ≠ "object" ∧ t ≠ "array".
Proof. rewrite !elem_of_cons, elem_of_nil. by intros [->|[->|[->|[->|[->|[]]]]]]. Qed.

Lemma scalar_type t schema : t ∈ ["string"; "integer"; "number"; "boolean"; "null"]%string →
  json_type t (synth_scalar t schema).
Proof.
  rewrite !elem_of_cons, elem_of_nil.
  intros [->|[->|[->|[->|[->|[]]]]]]; [done|by left|done|done|done].
Qed.
End strict_ok.

(** A keyword a hypothesis says is absent is not there. *)
Ltac no_key :=
  match goal with
  | H : absent ?ks ?s, E : obj_get ?s ?k = Some _ |- _ =>
      rewrite (absent_get ks k s H) in E by in_keys; discriminate
  end.

Section strict_synth.
Context {mr : MapRange} {conv : GoConv} (defs : obj).

Lemma synth_strict n : ∀ depth fuel,
  (depth + Z.of_nat n < maxSynthDepth)%Z → n < fuel → sound_at defs (λ s, synth fuel defs s depth) n.
Proof.
  induction (lt_wf n) as [n _ IH]. intros depth [|fuel] Hd Hf s c b Hs Hb; [lia|].
  pose proof (strict_cost _ _ _ _ Hs) as Hc. cbn [synth].
  rewrite decide_False by (unfold maxSynthDepth in *; lia).
  inversion Hs as [? ? cv Hk Ha Ht|? ? e es Hk Ha Ht|? ? t [Hty Htys] Hsome Ht Ha
    |m ? ref r c' Hk Hr Ha Hrs|m ? b' bs c' Hk Ha Hrs|m ? c' [Hty Htys] Ha Hnd Hp Hreq Hrs|m ? i c' [Hty Htys] Ha Hk Hrs]; subst.
  - unfold literal_of. rewrite Hk. eexists. split; [done|]. constructor; intros; try no_key; [by eauto|congruence].
  - unfold literal_of. rewrite (absent_get _ "const" s Ha), Hk by in_keys. simpl.
    eexists. split; [done|]. constructor; intros; try no_key; [by eauto|]. simplify_eq. left.
  - pose proof (absent_app _ _ _ Ha) as [(-> & -> & -> & ->)%no_compound _].
    destruct (scalar_compound _ Ht) as [Hno Hna]. rewrite (decide_False _ _ Hno), (decide_False _ _ Hna).
    eexists. split; [done|]. constructor; intros; try no_key.
    apply Exists_exists. exists (typeOf s). split; [by apply Htys|by apply scalar_type].
  - unfold literal_of, ref_of. rewrite (absent_get _ "const" s Ha), (absent_get _ "enum" s Ha), Hk by in_keys.
    simpl. rewrite Hr. destruct (IH m ltac:(lia) (depth + 1)%Z fuel ltac:(lia) ltac:(lia) r c' (b - 1)%Z Hrs)
      as (v & -> & Hv); [lia|].
    exists v. split; [do 2 f_equal; lia|]. constructor; intros; try no_key.
    { unfold types in *. rewrite (absent_get _ "type" s Ha) in * by in_keys. done. }
    simplify_eq. eauto.
  - unfold literal_of, ref_of, first_branch.
    rewrite (absent_get _ "const" s Ha), (absent_get _ "enum" s Ha), (absent_get _ "$ref" s Ha), Hk by in_keys.
    simpl. destruct (IH m ltac:(lia) (depth + 1)%Z fuel ltac:(lia) ltac:(lia) b' c' (b - 1)%Z Hrs)
      as (v & -> & Hv); [lia|].
    exists v. split; [do 2 f_equal; lia|]. constructor; intros; try no_key.
    { unfold types in *. rewrite (absent_get _ "type" s Ha) in * by in_keys. done. }
    simplify_eq. exists b'. split; [left|done].
  - pose proof (absent_app _ _ _ Ha) as [(-> & -> & -> & ->)%no_compound _]. rewrite Hty. simpl.
    destruct (synth_members_sound defs (λ s, synth fuel defs s (depth + 1)) m (props_of s) c' (b - 1)%Z)
      as (kvs & Heq & Hkeys & Hv); [apply IH; lia|done|lia|].
    unfold synthObject. rewrite Heq. simpl. eexists. split; [do 2 f_equal; lia|].
    constructor; intros; simplify_eq; try no_key.
    + apply Exists_exists. exists "object"%string. split; [by apply Htys|done].
    + eapply Hv; [|done]. unfold props_of.
      match goal with E : obj_get s "properties" = _ |- _ => by rewrite E end.
    + rewrite Hkeys. eauto.
    + by rewrite <-Hkeys.
  - pose proof (absent_app _ _ _ Ha) as [(-> & -> & -> & ->)%no_compound Ha2]. rewrite Hty. simpl.
    unfold synthArray, tupleItems. rewrite (absent_get _ "prefixItems" s Ha2), Hk by in_keys. simpl.
    destruct (synth_items_sound defs (λ s, synth fuel defs s (depth + 1)) m i c' (array_items s) (b - 1)%Z)
      as (xs & Heq & Hv); [apply IH; lia|done|lia|].
    rewrite Heq. simpl. eexists. split; [do 2 f_equal; lia|].
    constructor; intros; simplify_eq; try no_key.
    + apply Exists_exists. exists "array"%string. split; [by apply Htys|done].
    + by apply Hv.
Qed.

Lemma synth_strict_at n depth fuel s c b :
  (depth + Z.of_nat n < maxSynthDepth)%Z → n < fuel → strict defs n s c → (Z.of_nat c < b)%Z →
  ∃ v, synth fuel defs s depth b = Some (v, b - Z.of_nat c)%Z ∧ valid defs s v.
Proof. intros Hd Hf Hs Hb. exact (synth_strict n depth fuel Hd Hf s c b Hs Hb). Qed.
End strict_synth.

(** ** Enforcing a response format *)

Section response_format.
Context {mr : MapRange} {conv : GoConv} {json : SchemaJson}.

Definition IsValidJSON (s : string) : bool := negb (bool_decide (s = "")) && JsonValid s.
Definition isJSONObject (s : string) : bool := let s := TrimSpace s in has_prefix s "{" && JsonValid s.
Definition isJSONArray (s : string) : bool := let s := TrimSpace s in has_prefix s "[" && JsonValid s.

Definition SynthesizeFromSchema (schema : obj) : string :=
  if decide (schema = []) then "{}"
  else match synthesized schema with
       | Some (v, _) => default "{}"%string (JsonMarshal v)
       | None => "{}"
       end.

Definition contentMatchesRoot (s : string) (schema : obj) : bool :=
  if negb (IsValidJSON s) then false
  else if decide (typeOf schema = "object") then isJSONObject s
  else if decide (typeOf schema = "array") then isJSONArray s
  else true.

Definition set_Content (content finish : string) (resp : Response) : Response :=
  mkResponse (re_AgentName resp) (re_Model resp) content (re_ToolCalls resp) (re_ToolResults resp)
    (re_ScenarioName resp) (re_SystemPrompt resp) (re_Metadata resp) finish (re_Refusal resp)
    (re_Hallucination resp).

Definition refuse (resp : Response) : Response :=
  set_Content "" (if decide (re_FinishReason resp = "") then "content_filter" else re_FinishReason resp) resp.

(** The part of both JSON modes: tool calls and refusals take precedence, a content
    the mode accepts stays, and any other is replaced. *)
Definition enforce (accepts : string → bool) (replacement : string) (resp : Response) : Response :=
  match re_ToolCalls resp with
  | _ :: _ => resp
  | [] =>
      if decide (re_Refusal resp ≠ "") then refuse resp
      else if accepts (re_Content resp) then resp
      else set_Content replacement (re_FinishReason resp) resp
  end.

Definition rf_schema (rf : ResponseFormat) : obj :=
  match rf_JSONSchema rf with Some j => rfj_Schema j | None => [] end.

Definition applyResponseFormat (rf : option ResponseFormat) (resp : Response) : Response :=
  match rf with
  | None => resp
  | Some rf =>
      if decide (rf_Type rf = "" ∨ rf_Type rf = "text") then resp
      else if decide (rf_Type rf = "json_object") then enforce isJSONObject "{}" resp
      else if decide (rf_Type rf = "json_schema") then
        enforce (λ content, contentMatchesRoot content (rf_schema rf))
          (SynthesizeFromSchema (rf_schema rf)) resp
      else resp
  end.

Ltac resp_fields := cbn [re_AgentName re_Model re_Content re_ToolCalls re_ToolResults re_ScenarioName
  re_SystemPrompt re_Metadata re_FinishReason re_Refusal re_Hallucination].

(** Enforcing a replacement the mode accepts. *)
Lemma enforce_correct accepts replacement resp : accepts replacement = true →
  let r := enforce accepts replacement resp in
  r = set_Content (re_Content r) (re_FinishReason r) resp ∧
  enforce accepts replacement r = r ∧
  if decide (re_ToolCalls resp ≠ []) then r = resp
  else if decide (re_Refusal resp ≠ "") then re_Content r = "" ∧ re_FinishReason r ≠ ""
  else accepts (re_Content r) = true ∧ re_FinishReason r = re_FinishReason resp ∧
       (accepts (re_Content resp) = true → r = resp).
Proof.
  intros Hrep. destruct resp as [an m c calls res sn sp md fr rf' hal]. unfold enforce, refuse, set_Content.
  destruct calls as [|tc calls]; resp_fields; [|by rewrite decide_True].
  rewrite (decide_False (P := @nil ToolCallSpec ≠ [])) by (by intros []).
  destruct (decide (rf' ≠ "")) as [Hr|Hr]; resp_fields.
  - rewrite !(decide_True (P := rf' ≠ "")) by done. destruct (decide (fr = "")) as [->|Hfr]; [done|].
    by rewrite (decide_False (P := fr = "")) by done.
  - destruct (accepts c) eqn:Hc; resp_fields; rewrite ?decide_False by done; by rewrite ?Hc, ?Hrep.
Qed.

Lemma synthesized_spends schema : ∃ v b, synthesized schema = Some (v, b) ∧ (0 ≤ b < maxSynthNodes)%Z.
Proof.
  destruct (synth_spends synth_fuel (extractDefs schema) 0 eq_refl ltac:(unfold synth_fuel; lia)
    ltac:(lia) schema maxSynthNodes eq_refl) as (v & b & ? & ?). by exists v, b.
Qed.

(** A reference to a schema, or the schema itself, that only its type describes. *)
Definition rooted (defs schema r : obj) : Prop :=
  plain r ∧ (r = schema ∨ literal_of schema = None ∧ ∃ ref, ref_of schema = Some ref ∧ resolveRef ref defs = Some r).

Lemma plain_typed fuel defs schema depth b v b' : plain schema →
  synth fuel defs schema depth b = Some (v, b') → has_type (typeOf schema) v.
Proof.
  intros (Hl & Hr & Hf & Ha). destruct fuel as [|fuel]; [done|]. cbn [synth].
  case_decide; [intros [= <- <-]; unfold zeroForSchema; rewrite Hr; apply zero_of_typed|].
  rewrite Hl, Hr, Hf, Ha. cbv zeta.
  case_decide as Ho; [|case_decide as Har].
  - unfold synthObject. destruct (synth_members _ _ _) as [[kvs b1]|]; [|done]. by intros [= <- <-].
  - unfold synthArray. destruct (tupleItems schema) as [tuple|].
    + destruct (synth_tuple _ _ _) as [[xs b1]|]; [|done]. by intros [= <- <-].
    + destruct (obj_get schema "items" ≫= as_obj) as [i|]; [|by intros [= <- <-]].
      destruct (synth_tuple _ _ _) as [[xs b1]|]; [|done]. by intros [= <- <-].
  - intros [= <- <-]. by apply synth_scalar_typed.
Qed.

(** ** Properties *)



(** What a format asks of the content. *)
Definition satisfies (rf : ResponseFormat) (content : string) : bool :=
  if decide (rf_Type rf = "json_object") then isJSONObject content
  else contentMatchesRoot content (rf_schema rf).

(** [json.Marshal] writes valid JSON that starts with the bracket of its value. *)
Class MarshalLaws : Prop := {
  marshal_valid v t : JsonMarshal v = Some t → IsValidJSON t = true;
  marshal_obj kvs t : JsonMarshal (VObj kvs) = Some t → isJSONObject t = true;
  marshal_arr xs t : JsonMarshal (VArr xs) = Some t → isJSONArray t = true;
  empty_object : IsValidJSON "{}" = true
}.

Lemma empty_isJSONObject `{!MarshalLaws} : isJSONObject "{}" = true.
Proof. pose proof empty_object as He. unfold IsValidJSON in He. by apply andb_true_iff in He as [_ ?]. Qed.

Lemma SynthesizeFromSchema_matches `{!MarshalLaws} schema v b :
  synthesized schema = Some (v, b) → is_Some (JsonMarshal v) →
  (typeOf schema = "object" ∨ typeOf schema = "array" → plain schema) →
  contentMatchesRoot (SynthesizeFromSchema schema) schema = true.
Proof.
  intros Hs [t Ht] Hp. unfold SynthesizeFromSchema, contentMatchesRoot. case_decide as Hne.
  - subst schema. by rewrite empty_object.
  - rewrite Hs. assert (default "{}"%string (JsonMarshal v) = t) as -> by (by rewrite Ht).
    rewrite (marshal_valid v t Ht). simpl.
    case_decide as Ho; [|case_decide as Ha; [|done]].
    + pose proof (plain_typed _ _ _ _ _ _ _ (Hp (or_introl Ho)) Hs) as Hv. rewrite Ho in Hv.
      destruct v; try done; [|by eapply marshal_obj]. simpl in Hv. set_solver.
    + pose proof (plain_typed _ _ _ _ _ _ _ (Hp (or_intror Ha)) Hs) as Hv. rewrite Ha in Hv.
      destruct v; try done; [|by eapply marshal_arr]. simpl in Hv. set_solver.
Qed.

(** what JSON mode and structured outputs make of an answer: tool calls pass
    untouched, a refusal loses its content and gets a finish reason, and any other
    answer ends with a content that satisfies the format, its own where it already
    did, so that enforcing the format again changes nothing. The finish reason, the
    refusal and the tool calls of the scenario stay. *)
Theorem applyResponseFormat_correct `{!MarshalLaws} rf resp :
  rf_Type rf = "json_object" ∨ rf_Type rf = "json_schema" →
  (∀ v b, synthesized (rf_schema rf) = Some (v, b) → is_Some (JsonMarshal v)) →
  (typeOf (rf_schema rf) = "object" ∨ typeOf (rf_schema rf) = "array" → plain (rf_schema rf)) →
  let r := applyResponseFormat (Some rf) resp in
  r = set_Content (re_Content r) (re_FinishReason r) resp ∧
  applyResponseFormat (Some rf) r = r ∧
  if decide (re_ToolCalls resp ≠ []) then r = resp
  else if decide (re_Refusal resp ≠ "") then re_Content r = "" ∧ re_FinishReason r ≠ ""
  else satisfies rf (re_Content r) = true ∧ re_FinishReason r = re_FinishReason resp ∧
       (satisfies rf (re_Content resp) = true → r = resp).
Proof.
  intros Htype Hm Hp. cbv zeta. destruct (synthesized_spends (rf_schema rf)) as (v & b & Hs & _).
  pose proof (SynthesizeFromSchema_matches _ v b Hs (Hm v b Hs) Hp) as Hmatch. clear Hm Hp Hs.
  assert (¬ (rf_Type rf = "" ∨ rf_Type rf = "text")) as Hno by (destruct Htype as [->| ->]; by intros [?|?]).
  unfold applyResponseFormat, satisfies. rewrite !(decide_False (P := rf_Type rf = "" ∨ rf_Type rf = "text")) by done.
  destruct (decide (rf_Type rf = "json_object")) as [Ho|Ho].
  - exact (enforce_correct isJSONObject "{}" resp empty_isJSONObject).
  - destruct Htype as [?|Ht]; [done|]. rewrite !(decide_True (P := rf_Type rf = "json_schema")) by done.
    exact (enforce_correct (λ content, contentMatchesRoot content (rf_schema rf)) _ resp Hmatch).
Qed.
End response_format.

(** ** What the limits do not do *)

(** How many branches [collectAllOfProps] visits. *)
Fixpoint collect_visits (fuel : nat) (defs : obj) (branches : list value) (depth : Z) : Z :=
  if decide (maxSynthDepth < depth)%Z then 0%Z
  else
    match fuel with
    | O => 0%Z
    | S fuel =>
        foldr (λ b n,
          (n + 1 + match all_of_branch defs b ≫= λ sub, obj_get sub "allOf" ≫= as_arr with
                   | Some nested => collect_visits fuel defs nested (depth + 1)
                   | None => 0
                   end)%Z) 0%Z branches
    end.

(** A schema of [n] branches that all refer back to it. *)
Definition self_ref : value := VObj [("$ref", VString "#/$defs/A")]%string.
Definition self_defs (n : nat) : obj := [("A", VObj [("allOf", VArr (replicate n self_ref))])]%string.

(** The node budget does not bound this walk: its visits grow with the thirteenth
    power of the number of branches. *)
Lemma allOf_unbounded n fuel depth : (0 ≤ depth)%Z →
  (Z.of_nat fuel = maxSynthDepth + 1 - depth)%Z →
  (Z.of_nat n ^ Z.of_nat fuel ≤ collect_visits fuel (self_defs n) (replicate n self_ref) depth
    + (if decide (fuel = 0)%nat then 1 else 0))%Z.
Proof.
  revert depth. induction fuel as [|fuel IH]; intros depth Hd Hf; cbn [collect_visits].
  { case_decide; simpl; lia. }
  rewrite decide_False by (unfold maxSynthDepth in *; lia). rewrite (decide_False (P := S fuel = 0)) by done.
  specialize (IH (depth + 1)%Z ltac:(lia) ltac:(lia)).
  assert (∀ m, foldr (λ b k, (k + 1 + match all_of_branch (self_defs n) b ≫= λ sub, obj_get sub "allOf" ≫= as_arr with
      | Some nested => collect_visits fuel (self_defs n) nested (depth + 1) | None => 0 end)%Z) 0%Z (replicate m self_ref)
    = (Z.of_nat m * (1 + collect_visits fuel (self_defs n) (replicate n self_ref) (depth + 1)))%Z) as ->.
  { intros m. induction m as [|m IHm]; [done|]. cbn [replicate foldr]. rewrite IHm.
    change (all_of_branch (self_defs n) self_ref ≫= λ sub, obj_get sub "allOf" ≫= as_arr) with (Some (replicate n self_ref)).
    cbv iota beta. lia. }
  rewrite Nat2Z.inj_succ, Z.pow_succ_r by lia. rewrite Z.add_0_r.
  apply Z.mul_le_mono_nonneg_l; [lia|]. case_decide; lia.
Qed.

(** ** Examples *)

#[local] Existing Instance canonical_range.
#[local] Existing Instance amd64_conv.
#[local] Instance ex_schema_json : SchemaJson := {|
  JsonValid s := bool_decide (s = "{}" ∨ s = "[]")%string;
  JsonMarshal v := Some (match v with VArr _ => "[]"%string | _ => "{}"%string end) |}.

(** A list of ten branches, in a schema of a few hundred bytes: ten million million
    visits, where the budget is five thousand. *)
Example allOf_ten : (maxSynthNodes < 10 ^ 13 ≤ collect_visits 13 (self_defs 10) (replicate 10 self_ref) 0)%Z.
Proof.
  split; [done|]. pose proof (allOf_unbounded 10 13 0 ltac:(lia) eq_refl) as H.
  rewrite (decide_False (P := 13 = 0)), Z.add_0_r in H by done. exact H.
Qed.

Definition wide : string * value := ("wide", VObj [("type", VString "array"); ("prefixItems", VArr (replicate 5000 (VObj [])))])%string.
Definition narrow : string * value := ("narrow", VObj [("type", VString "string")])%string.
Definition object_of (props : obj) : obj := [("type", VString "object"); ("properties", VObj props)]%string.

(** Once the budget runs out, which members are left out depends on the order in
    which [range] visits the properties. *)
Example synthesis_depends_on_order :
  let members props := match synthesized (object_of props) with Some (VObj kvs, _) => kvs.*1 | _ => [] end in
  members [wide; narrow] = ["wide"]%string ∧ members [narrow; wide] = ["narrow"; "wide"]%string.
Proof. split; vm_compute; reflexivity. Qed.

(** A maximum below zero does not lower the integer that is synthesized. *)
Example negative_maximum_ignored :
  synthesized [("type", VString "integer"); ("maximum", VFloat64 (f64_of_Z (-5)))]%string = Some (VInt64 0, 4999%Z).
Proof. by vm_compute. Qed.

(** A linked list: the walk stops at the depth limit, with an object. *)
Definition linked : obj :=
  [("$ref", VString "#/$defs/node");
   ("$defs", VObj [("node", VObj (object_of
     [("value", VObj [("type", VString "integer")]); ("next", VObj [("$ref", VString "#/$defs/node")])]))])]%string.


Definition ex_strict : obj := object_of [("name", VObj [("type", VString "string")])]%string.

Lemma ex_strict_ok : strict (extractDefs ex_strict) 1 ex_strict 2.
Proof.
  apply strict_object.
  - split; [done|]. intros ts [= <-]. left.
  - repeat constructor.
  - repeat constructor. set_solver.
  - intros v [= <-]. done.
  - done.
  - apply (strict_cons _ _ _ _ 1 _ 0); [|constructor].
    apply (strict_scalar _ _ _ "string"); [split; [done|]; intros ts [= <-]; left|done|left|repeat constructor].
Qed.


#[local] Instance ex_marshal_laws : MarshalLaws.
Proof.
  split; [|intros kvs t [= <-]; by vm_compute|intros xs t [= <-]; by vm_compute|by vm_compute].
  intros v t [= <-]. by destruct v.
Qed.

Definition ex_answer (content refusal : string) : Response :=
  mkResponse "bot" "gpt-4o" content [] [] "" "" [] "" refusal None.

Lemma applyResponseFormat_correct_witness :
  let rf := mkResponseFormat "json_schema" (Some (mkResponseFormatJSON "reply" ex_strict None)) in
  re_Content (applyResponseFormat (Some rf) (ex_answer "hello" "")) = "{}"%string ∧
  satisfies rf (re_Content (applyResponseFormat (Some rf) (ex_answer "hello" ""))) = true.
Proof.
  cbv zeta. split; [vm_compute; reflexivity|].
  pose proof (applyResponseFormat_correct
    (mkResponseFormat "json_schema" (Some (mkResponseFormatJSON "reply" ex_strict None))) (ex_answer "hello" "")
    (or_intror eq_refl) (λ v b _, ltac:(by eexists)) (λ _, ltac:(by split_and!))) as (_ & _ & H).
  rewrite decide_False in H by (by intros []). rewrite decide_False in H by (by intros []). exact (proj1 H).
Defined.
