(* ===== verification/OpenAIAdapter.v ===== *)
(** The OpenAI Chat Completions adapter, [internal/adapter/openai.go], over the
    engine, the structured outputs and the OpenAI stream; with the Azure surface of
    [azure.go] that delegates to it.

    A handler is a function of the engine and the request metadata it finds; draws and
    clocks are its environment. *)

From S2P Require Import Prelude GoBase GoFloat GoStrings AgentTypes ToolProcessor Chaos.
From S2P Require Import ResponseGenerator Engine StreamCore Streaming StructuredOutput AdapterCore.
From S2P Require Capture ScenarioMatcher AgentRegistry.

(** ** Requests and responses *)

Record OpenAIFunction := mkOpenAIFunction {
  of_Name : string; of_Description : string; of_Parameters : list (string * value)
}.

Record OpenAITool := mkOpenAITool { ot_Type : string; ot_Function : OpenAIFunction }.

Record OpenAIFunctionCall := mkOpenAIFunctionCall { ofc_Name : string; ofc_Arguments : string }.

Record OpenAIToolCall := mkOpenAIToolCall {
  otc_ID : string; otc_Type : string; otc_Function : OpenAIFunctionCall
}.

Record OpenAIMessage := mkOpenAIMessage {
  om_Role : string; om_Content : value; om_ToolCalls : list OpenAIToolCall; om_ToolCallID : string
}.

Record ChatCompletionRequest := mkChatCompletionRequest {
  cr_Model : string;
  cr_Messages : list OpenAIMessage;
  cr_Tools : list OpenAITool;
  cr_ToolChoice : value;
  cr_Stream : bool;
  cr_Temperature : option float64;
  cr_MaxTokens : option Z;
  cr_ResponseFormat : option ResponseFormat
}.

Record OpenAIUsage := mkOpenAIUsage {
  ou_PromptTokens : Z; ou_CompletionTokens : Z; ou_TotalTokens : Z
}.

Record OpenAIResponseMessage := mkOpenAIResponseMessage {
  orm_Role : string;
  orm_Content : option string;
  orm_ToolCalls : list OpenAIToolCall;
  orm_Refusal : option string
}.

Record ChatCompletionChoice := mkChatCompletionChoice {
  ccc_Index : Z; ccc_Message : OpenAIResponseMessage; ccc_FinishReason : string
}.

Record ChatCompletionResponse := mkChatCompletionResponse {
  ccr_ID : string;
  ccr_Object : string;
  ccr_Created : Z;
  ccr_Model : string;
  ccr_Choices : list ChatCompletionChoice;
  ccr_Usage : OpenAIUsage
}.

(** A model of the listing. *)
Record OpenAIModel := mkOpenAIModel {
  md_id : string; md_object : string; md_created : Z; md_owned_by : string
}.

Inductive openai_body :=
| Completion (c : ChatCompletionResponse)
| ModelList (data : list OpenAIModel)
| OpenAIError (type message code : string).

Definition ProtocolOpenAIChat : string := "openai-chat-completions".

(** ** Conversions *)

Section convert.
Context {fmt : GoFmt}.

Definition has_type_field (m : list (string * value)) (t : string) : bool :=
  match obj_get m "type" with Some (VString u) => bool_decide (u = t) | _ => false end.

(** The text of any block with a string under [text]. *)
Definition block_text (item : value) : option string :=
  m ← as_obj item; obj_get m "text" ≫= as_string.

Definition extractStringContent (content : value) : string :=
  match content with
  | VString v => v
  | VArr v => Join (omap block_text v) space
  | VNil => ""
  | v => Sprint v
  end.

Definition text_block (item : value) : option string :=
  m ← as_obj item; if has_type_field m "text" then obj_get m "text" ≫= as_string else None.

Definition image_block (item : value) : bool :=
  match as_obj item with Some m => has_type_field m "image_url" | None => false end.

Definition extractStringContentWithImages (content : value) : string * Z :=
  match as_arr content with
  | None => (extractStringContent content, 0%Z)
  | Some blocks =>
      (Join (omap text_block blocks) space, Z.of_nat (length (filter (λ b, image_block b = true) blocks)))
  end.

Definition convert_message (m : OpenAIMessage) : RequestMessage :=
  let '(content, imgCount) := extractStringContentWithImages (om_Content m) in
  mkRequestMessage (om_Role m) content imgCount.

Definition convertOpenAIMessages (msgs : list OpenAIMessage) : list RequestMessage * Z :=
  let result := convert_message <$> msgs in
  (result, foldl (λ total m, wrap64 (total + rm_ImageCount m)) 0%Z result).
End convert.

Section format.
Context {json : GoJson}.

Definition tool_call_at (results : list ToolCallResult) (i : nat) (tc : ToolCallSpec) : OpenAIToolCall :=
  mkOpenAIToolCall (call_id results i) "function" (mkOpenAIFunctionCall (tcs_Name tc) (args_of tc)).

Definition text_or_null (s : string) : option string := if decide (s = "") then None else Some s.

Definition formatOpenAIResponse (id_draw created : Z) (resp : Response)
    (promptTokens completionTokens : Z) : ChatCompletionResponse :=
  let inferred := match re_ToolCalls resp with [] => "stop"%string | _ :: _ => "tool_calls"%string end in
  let finishReason := if decide (re_FinishReason resp ≠ "") then re_FinishReason resp else inferred in
  mkChatCompletionResponse ("chatcmpl-" +:+ generateID id_draw) "chat.completion" created (re_Model resp)
    [mkChatCompletionChoice 0
       (mkOpenAIResponseMessage "assistant" (text_or_null (re_Content resp))
          (imap (tool_call_at (re_ToolResults resp)) (re_ToolCalls resp)) (text_or_null (re_Refusal resp)))
       finishReason]
    (mkOpenAIUsage promptTokens completionTokens (wrap64 (promptTokens + completionTokens))).
End format.

(** ** The handlers *)

Section handlers.
Context {mr : MapRange} {heap : Heap AgentDefinition}.
Context {golower : GoLower} {goregexp : ScenarioMatcher.GoRegexp} {gotmpl : GoTemplate}.
Context {fmt : GoFmt} {conv : GoConv} {rand : GoRand} {texts : ErrorTexts}.
Context {rand2 : GoRandV2} {gmath : GoMath} {json : GoJson} {sjson : SchemaJson}.
Context {E : Type} {fl : Faults E}.

Abbreviation stream_state := (@stream_st ChatCompletionChunk rand2).
Abbreviation stream_result := (stream_state * (@StreamError E + unit))%type.
Abbreviation openai_reply := (reply openai_body stream_result).

(** What a request reads from outside the engine: the draws of its ids, the clock, the
    connection under the response, and the stream it may start. *)
Record OpenAIEnv := mkOpenAIEnv {
  oe_engine : Env;
  oe_hijack : option net_conn;
  oe_session_draw : Z;
  oe_id_draw : Z;
  oe_created : Z;
  oe_flusher : bool;
  oe_stream_draw : list Z;
  oe_stream : stream_state
}.

Definition writeErrorCode (headers : gmap string string) (status : Z) (errType code message : string) : openai_reply :=
  writeJSON headers status (OpenAIError errType message code).

Definition writeError (status : Z) (errType message : string) : openai_reply :=
  writeErrorCode ∅ status errType "" message.

(** The answer to an injected fault. *)
Definition answer_chaos (hijack : option net_conn) (ce : ChaosError) : openai_reply :=
  if decide (che_Connection ce ≠ "") then
    match connectionFault hijack (che_Connection ce) with
    | Some ops => Hijacked ops
    | None => writeError 502 "server_error" "connection fault could not be delivered"
    end
  else
    let headers := match chaosRetryAfter ce with Some ra => <["Retry-After" := ra]> ∅ | None => ∅ end in
    let '(errType, code) := openAIChaosError (che_StatusCode ce) in
    writeErrorCode headers (che_StatusCode ce) errType code (che_Message ce).

Definition answer_error (hijack : option net_conn) (err : EngineError) : openai_reply :=
  match err with
  | EnginePanic => Panicked
  | ErrChaos ce => answer_chaos hijack ce
  | err => writeError (error_status (error_text err)) "invalid_request_error" (error_text err)
  end.

(** The metadata of a failed request; a panic leaves before the error is stamped. *)
Definition meta_failed (err : EngineError) (meta : option RequestMeta) : option RequestMeta :=
  match err with EnginePanic => meta | err => set_error (error_text err) meta end.

(** The answer to a request the engine answered. *)
Definition answer_response (env : OpenAIEnv) (reg : AgentRegistry.AgentRegistry) (tenantID : string)
    (req : ChatCompletionRequest) (messages : list RequestMessage) (imageCount : Z) (resp : Response)
  : openai_reply :=
  let headers := setImageCountHeader imageCount (setHallucinationHeader resp ∅) in
  let resp := applyResponseFormat (cr_ResponseFormat req) resp in
  if cr_Stream req then
    Streamed headers (StreamOpenAI (oe_flusher env) (oe_stream_draw env) (oe_created env) resp
      (stream_config reg (cr_Model req) tenantID) (oe_stream env))
  else
    let promptTokens := sumMessageTokens messages in
    let completionTokens := EstimateTokens (re_Content resp) in
    writeJSON headers 200
      (Completion (formatOpenAIResponse (oe_id_draw env) (oe_created env) resp promptTokens completionTokens)).

Definition chat_inbound (env : OpenAIEnv) (r : HttpRequest) (req : ChatCompletionRequest) : InboundRequest :=
  mkInboundRequest "" (cr_Model req) (extractSessionID r (oe_session_draw env))
    (convertOpenAIMessages (cr_Messages req)).1 (cr_Stream req).

Definition HandleChatCompletions (env : OpenAIEnv) (unmarshal : string → string + ChatCompletionRequest)
    (r : HttpRequest) (meta : option RequestMeta) (e : Engine)
  : Engine * option RequestMeta * openai_reply :=
  let meta := set_protocol ProtocolOpenAIChat meta in
  match decodeJSONBody unmarshal r with
  | inl BodyTooLarge => (e, meta, writeError 413 "invalid_request_error" "request body too large")
  | inl (DecodeError err) => (e, meta, writeError 400 "invalid_request_error" ("invalid JSON: " +:+ err))
  | inr req =>
      if decide (cr_Model req = "") then (e, meta, writeError 400 "invalid_request_error" "model is required")
      else if decide (length (cr_Messages req) = 0) then
        (e, meta, writeError 400 "invalid_request_error" "messages array is required and must not be empty")
      else
        let '(messages, imageCount) := convertOpenAIMessages (cr_Messages req) in
        let inbound := chat_inbound env r req in
        let meta := set_session (ir_SessionID inbound) meta in
        match ProcessRequestContext (oe_engine env) (hr_tenant r) inbound e with
        | (e, inl err) => (e, meta_failed err meta, answer_error (oe_hijack env) err)
        | (e, inr resp) =>
            (e, set_matched (cr_Model req) resp meta,
             answer_response env (Registry e) (hr_tenant r) req messages imageCount resp)
        end
  end.

Definition HandleModels (now : Z) (r : HttpRequest) (e : Engine) : openai_reply :=
  writeJSON ∅ 200 (ModelList
    ((λ p, mkOpenAIModel (as_Model (ad_Spec (deref p))) "model" now "mockagents")
       <$> AgentRegistry.ListForTenant (hr_tenant r) (Registry e))).

(** ** The same answer, streamed or not *)

(** A client that reassembles the frames has the message of the document. *)
Definition same_answer (fs : list (frame ChatCompletionChunk)) (c : ChatCompletionResponse) : Prop :=
  ∃ message finish, ccr_Choices c = [mkChatCompletionChoice 0 message finish] ∧
    client_text fs = words_of (default "" (orm_Content message)) ∧
    client_refusal fs = default "" (orm_Refusal message) ∧
    client_finishes fs = [finish] ∧
    ∀ k call, orm_ToolCalls message !! k = Some call →
      client_field ct_ID k fs = otc_ID call ∧
      client_field call_name k fs = ofc_Name (otc_Function call) ∧
      client_args k fs = ofc_Arguments (otc_Function call).

Lemma text_or_null_default s : default "" (text_or_null s) = s.
Proof. unfold text_or_null. by case_decide. Qed.

Lemma frames_same_answer draw created resp cfg id_draw created' pt ct :
  malformed (newPacer cfg) = false → (truncateAfter (newPacer cfg) ≤ 0)%Z →
  same_answer (openai_frames draw created resp cfg) (formatOpenAIResponse id_draw created' resp pt ct).
Proof.
  intros Hm Ht. eexists _, _. split; [done|]. cbn [orm_Content orm_Refusal orm_ToolCalls].
  rewrite !text_or_null_default. split; [by apply complete_text|].
  destruct (complete_ends draw created resp cfg Hm Ht) as (Hr & Hf & _). split_and!; [done|done|].
  intros k call. rewrite list_lookup_imap. destruct (re_ToolCalls resp !! k) as [tc|] eqn:Hk; [|done].
  intros [= <-]. unfold client_args. rewrite !(complete_field draw created resp cfg Hm Ht _ k tc Hk).
  simpl. unfold args_piece. simpl. rewrite !cat_empty, !str_app_nil_r. split_and!; [done..|].
  change (cat ((λ c, c) <$> chunkString (args_of tc) 20) = args_of tc). by rewrite cat_id, chunkString_cat.
Qed.

Definition with_stream (b : bool) (req : ChatCompletionRequest) : ChatCompletionRequest :=
  mkChatCompletionRequest (cr_Model req) (cr_Messages req) (cr_Tools req) (cr_ToolChoice req) b
    (cr_Temperature req) (cr_MaxTokens req) (cr_ResponseFormat req).

(** The configurations of streams that run to their end. *)
Definition runs_through (cfg : option StreamingConfig) : Prop :=
  jitter_bounded cfg ∧ malformed (newPacer cfg) = false ∧ (truncateAfter (newPacer cfg) ≤ 0)%Z.

Lemma stream_complete draw created resp cfg st : undisturbed → runs_through cfg → written st = [] →
  ∃ st', StreamOpenAI true draw created resp cfg st = (st', inr tt) ∧
    written st' = openai_frames draw created resp cfg.
Proof.
  intros Hu (Hj%jitter_bounded_ok & Hm & _) Hst.
  destruct (openai_runs draw created resp cfg Hj st) as (st' & res & dn & Hrun & Hw & _ & _ & Hall).
  destruct (Hall Hu) as [-> ->]. exists st'. by rewrite Hw, Hst.
Qed.

(** ** Properties *)


Definition status_of (answer : openai_reply) : option Z :=
  match answer with JSON status _ _ => Some status | _ => None end.

(** The answer to an error of the engine. *)
Definition error_answered (env : OpenAIEnv) (err : EngineError) (answer : openai_reply) : Prop :=
  match err with
  | ErrAgentNotFound _ _ => status_of answer = Some 404%Z
  | ErrEmptyMessage => status_of answer = Some 400%Z
  | ErrChaos ce =>
      if decide (che_Connection ce ≠ "") then
        match oe_hijack env with
        | Some _ => ∃ ops, answer = Hijacked (ops ++ [CloseConn])
        | None => status_of answer = Some 502%Z
        end
      else ∃ headers type code,
        answer = JSON (che_StatusCode ce) headers (OpenAIError type (che_Message ce) code) ∧
        headers !! "Retry-After"%string = chaosRetryAfter ce
  | EnginePanic => answer = Panicked
  | ErrContext | ErrGenerating _ _ _ =>
      ∃ status, status_of answer = Some status ∧ status ∈ [400; 404; 500]%Z
  end.

Lemma error_status_in text : error_status text ∈ [400; 404; 500]%Z.
Proof. unfold error_status. repeat case_match; set_solver. Qed.

Lemma answer_error_ok env err : error_answered env err (answer_error (oe_hijack env) err).
Proof.
  destruct err as [id av| |ce| | |]; simpl; try done.
  - eexists. split; [done|apply error_status_in].
  - unfold answer_chaos. case_decide.
    + unfold connectionFault. destruct (oe_hijack env); simpl; [by eexists|done].
    + destruct (openAIChaosError (che_StatusCode ce)) as [ty code]. eexists _, ty, code. split; [done|].
      rewrite lookup_insert_ne by done. destruct (chaosRetryAfter ce); [by rewrite lookup_insert_eq|by rewrite lookup_empty].
  - eexists. split; [done|apply error_status_in].
Qed.

(** C15: every request to the chat endpoint: one the adapter cannot read, or without model
    or messages, leaves the engine as it is and is answered with 413 or 400; an unknown
    agent is a 404, an empty message a 400, an injected fault has its own status, text
    and Retry-After, or closes the connection. An answer comes from an agent the tenant
    may use: the metadata names it, the document carries its model, and a stream is
    paced by its configuration. *)
Theorem HandleChatCompletions_correct env unmarshal r meta e : engine_ok e →
  let '(e', meta', answer) := HandleChatCompletions env unmarshal r meta e in
  engine_ok e' ∧ Registry e' = Registry e ∧ (is_Some meta' ↔ is_Some meta) ∧
  (∀ m, meta' = Some m → Capture.Protocol m = ProtocolOpenAIChat) ∧
  match decodeJSONBody unmarshal r with
  | inl BodyTooLarge => e' = e ∧ status_of answer = Some 413%Z
  | inl (DecodeError _) => e' = e ∧ status_of answer = Some 400%Z
  | inr req =>
      if decide (cr_Model req = "" ∨ cr_Messages req = []) then e' = e ∧ status_of answer = Some 400%Z
      else match (ProcessRequestContext (oe_engine env) (hr_tenant r) (chat_inbound env r req) e).2 with
      | inl err => error_answered env err answer
      | inr resp => ∃ p,
          resolveAgentForTenant (Registry e) (chat_inbound env r req) (hr_tenant r) = inr p ∧
          visible (hr_tenant r) p ∧
          (∀ m, meta' = Some m → Capture.AgentName m = agent_name (deref p) ∧
            Capture.ScenarioName m = re_ScenarioName resp ∧ Capture.meta_SessionID m = ir_SessionID (chat_inbound env r req)) ∧
          if cr_Stream req
          then ∃ headers resp', re_Model resp' = agent_model (deref p) ∧
            answer = Streamed headers (StreamOpenAI (oe_flusher env) (oe_stream_draw env) (oe_created env) resp'
              (bc_Streaming (as_Behavior (ad_Spec (deref p)))) (oe_stream env))
          else ∃ headers c, ccr_Model c = agent_model (deref p) ∧ answer = writeJSON headers 200 (Completion c)
      end
  end.
Proof.
  intros Hok. unfold HandleChatCompletions.
  destruct (decodeJSONBody unmarshal r) as [[|err]|req];
    [split_and!; try done; [by destruct meta|by destruct meta; intros m [= <-]]..|].
  destruct (decide (cr_Model req = "")) as [Hm|Hm].
  { rewrite decide_True by (by left). split_and!; try done; [by destruct meta|by destruct meta; intros m [= <-]]. }
  destruct (decide (length (cr_Messages req) = 0)) as [Hl%nil_length_inv|Hl].
  { rewrite decide_True by (by right). split_and!; try done; [by destruct meta|by destruct meta; intros m [= <-]]. }
  assert (¬ (cr_Model req = "" ∨ cr_Messages req = [])) as Hval by (intros [?|Hnil]; [done|by rewrite Hnil in Hl]).
  destruct (convertOpenAIMessages (cr_Messages req)) as [messages images].
  pose proof (process_answer (oe_engine env) (hr_tenant r) (chat_inbound env r req) e Hok) as Hans.
  destruct (ProcessRequestContext _ _ _ _) as [e' [err|resp]]; cbn [snd];
    rewrite (decide_False (P := cr_Model req = "" ∨ cr_Messages req = [])) by done.
  { destruct Hans as (Hok' & Hreg & _). split_and!; [done|done|by destruct meta, err| |apply answer_error_ok].
    by destruct meta, err; intros m [= <-]. }
  destruct Hans as (Hok' & Hreg & Hans). split_and!; [done|done|by destruct meta|by destruct meta; intros m [= <-]|].
  destruct (Hans resp eq_refl) as (p & tc & vars & Hres & Hvis & matched & _ & _ & Hsc & Hag & Hmo & _).
  exists p. split_and!; [done|done|by destruct meta; intros m [= <-]|].
  assert (re_Model (applyResponseFormat (cr_ResponseFormat req) resp) = re_Model resp) as Happ.
  { unfold applyResponseFormat, enforce, refuse, set_Content. repeat case_match; done. }
  unfold answer_response. destruct (cr_Stream req).
  - eexists _, _. split; [by rewrite Happ|]. unfold stream_config. rewrite Hreg.
    pose proof (stream_agent_resolved (Registry e) (chat_inbound env r req) (hr_tenant r) p eq_refl Hm Hres) as Hag'.
    cbn [chat_inbound ir_Model] in Hag'. by rewrite Hag'.
  - eexists _, _. split; [|done]. simpl. by rewrite Happ.
Qed.

(** ** The Azure surface

    [json.Unmarshal] of a body into its members (the outer option is a JSON null), of a
    member into a string, and [json.Marshal] of a string and of the members. *)
Class AzureJson := {
  unmarshal_members : string → string + option (gmap string string);
  unmarshal_string : string → option string;
  marshal_string : string → string;
  marshal_members : gmap string string → string
}.

Section azure.
Context {ajson : AzureJson}.

Definition hasModel (fields : gmap string string) : bool :=
  match fields !! "model"%string with
  | None => false
  | Some raw => match unmarshal_string raw with Some s => negb (bool_decide (s = "")) | None => false end
  end.

(** The request with the body the downstream handler reads. *)
Definition with_body (body : string) (r : HttpRequest) : HttpRequest :=
  mkHttpRequest (hr_path r) (hr_headers r) body None (hr_tenant r).

Definition ensureModel (deployment : string) (r : HttpRequest) : decode_error + HttpRequest :=
  match decodeJSONBody unmarshal_members r with
  | inl err => inl err
  | inr None => inl (DecodeError "request body must be a JSON object")
  | inr (Some fields) =>
      if hasModel fields then inr (with_body (hr_body r) r)
      else inr (with_body (marshal_members (<["model" := marshal_string deployment]> fields)) r)
  end.

Definition handleDeploymentChat (env : OpenAIEnv) (unmarshal : string → string + ChatCompletionRequest)
    (deployment : string) (r : HttpRequest) (meta : option RequestMeta) (e : Engine)
  : Engine * option RequestMeta * openai_reply :=
  match ensureModel deployment r with
  | inl BodyTooLarge => (e, meta, writeError 413 "invalid_request_error" "request body too large")
  | inl (DecodeError err) => (e, meta, writeError 400 "invalid_request_error" ("invalid JSON: " +:+ err))
  | inr r => HandleChatCompletions env unmarshal r meta e
  end.

(** A body that names a model reaches the chat handler as it is; any other object
    reaches it with the deployment as its model and its other members unchanged, and
    everything but the body of the request stays. *)
Lemma ensureModel_correct deployment r r' :
  (∀ m, unmarshal_members (marshal_members m) = inr (Some m)) →
  (∀ s, unmarshal_string (marshal_string s) = Some s) →
  ensureModel deployment r = inr r' →
  hr_path r' = hr_path r ∧ hr_headers r' = hr_headers r ∧ hr_tenant r' = hr_tenant r ∧
  ∃ fields fields', unmarshal_members (hr_body r) = inr (Some fields) ∧
    unmarshal_members (hr_body r') = inr (Some fields') ∧
    (∀ k, k ≠ "model"%string → fields' !! k = fields !! k) ∧
    (hasModel fields = true → hr_body r' = hr_body r) ∧
    (hasModel fields = false → fields' !! "model"%string ≫= unmarshal_string = Some deployment) ∧
    (deployment ≠ "" → hasModel fields' = true).
Proof.
  intros Hm Hs. unfold ensureModel, decodeJSONBody. case_decide; [done|].
  destruct (hr_readErr r); [done|]. destruct (unmarshal_members (hr_body r)) as [err|[fields|]] eqn:Hb; try done.
  destruct (hasModel fields) eqn:Hh; intros [= <-]; (split_and!; [done..|]).
  - exists fields, fields. cbn [with_body hr_body]. split_and!; try done. by rewrite Hh.
  - exists fields, (<["model" := marshal_string deployment]> fields). cbn [with_body hr_body]. rewrite Hm.
    split_and!; [done|done|intros k Hk; by rewrite lookup_insert_ne|by rewrite Hh|by rewrite lookup_insert_eq; simpl|].
    intros Hd. unfold hasModel. rewrite lookup_insert_eq, Hs. by rewrite bool_decide_false.
Qed.
End azure.
End handlers.

(** ** Examples *)

#[local] Existing Instance canonical_range.
#[local] Existing Instance ex_heap.
#[local] Existing Instance ascii_go_lower.
#[local] Existing Instance ScenarioMatcher.literal_regexp.
#[local] Existing Instance literal_template.
#[local] Existing Instance plain_fmt.
#[local] Existing Instance amd64_conv.
#[local] Existing Instance half_rand.
#[local] Existing Instance plain_texts.

#[local] Instance ex_rand2 : GoRandV2.
Proof.
  refine {| rng2 := unit; Int64N n g := (0%Z, g); NormFloat64_2 g := (f64_zero, g) |}.
  intros n g Hn. simpl. lia.
Defined.
#[local] Instance ex_gomath : GoMath := {| Log x := x; Exp x := x |}.
#[local] Instance ex_gojson : GoJson := λ _, "{}".
#[local] Instance ex_sjson : SchemaJson := {| JsonValid _ := true; JsonMarshal _ := Some "{}" |}.
#[local] Instance ex_faults : Faults string := λ _, None.

Definition ex_chat (model : string) (stream : bool) : ChatCompletionRequest :=
  mkChatCompletionRequest model
    [mkOpenAIMessage "user" (VArr [VObj [("type", VString "text"); ("text", VString "weather?")];
                                   VObj [("type", VString "image_url")]]) [] ""]%string
    [] VNil stream None None None.

Definition ex_oenv : OpenAIEnv :=
  mkOpenAIEnv ex_env None 10 255 0 true [1%Z] (mkStreamSt 0 [] () ()).

Definition ex_http : HttpRequest := mkHttpRequest "/v1/chat/completions" ∅ "{}" None "".

Definition ex_meta : option RequestMeta := Some (Capture.mkMeta "" "" "" "" "" 0 "").

(** An image block adds no text, and the header counts it. *)
Example chat_answers :
  let '(_, meta, answer) := HandleChatCompletions (E := string) ex_oenv (λ _, inr (ex_chat "gpt-4o" false)) ex_http ex_meta ex_engine in
  (Capture.AgentName <$> meta) = Some "bot"%string ∧ (Capture.meta_SessionID <$> meta) = Some "sess-a"%string ∧
  match answer with
  | JSON status headers (Completion c) =>
      status = 200%Z ∧ headers !! HeaderImageCount = Some "1"%string ∧ ccr_ID c = "chatcmpl-ff"%string ∧
      (orm_Content ∘ ccc_Message <$> ccr_Choices c) = [Some "Looking"%string] ∧
      ou_TotalTokens (ccr_Usage c) = 2%Z
  | _ => False
  end.
Proof. vm_compute. by split_and!. Qed.


Lemma HandleChatCompletions_correct_witness :
  let '(e', _, answer) := HandleChatCompletions (E := string) ex_oenv (λ _, inr (ex_chat "gpt-4o" false)) ex_http ex_meta ex_engine in
  engine_ok e' ∧ status_of answer = Some 200%Z.
Proof.
  pose proof (HandleChatCompletions_correct (E := string) ex_oenv (λ _, inr (ex_chat "gpt-4o" false)) ex_http ex_meta ex_engine
    ex_engine_ok) as H.
  assert (status_of (HandleChatCompletions (E := string) ex_oenv (λ _, inr (ex_chat "gpt-4o" false)) ex_http ex_meta ex_engine).2
    = Some 200%Z) as Hs by (vm_compute; reflexivity).
  destruct (HandleChatCompletions _ _ _ _ _) as [[e' meta'] answer]. destruct H as [Hok _]. by split.
Defined.

#[local] Instance ex_azure : AzureJson := {|
  unmarshal_members s := if decide (s = "null") then inr None else inr (Some ∅);
  unmarshal_string s := Some s; marshal_string s := s; marshal_members _ := "{}"
|}.

Example azure_rejects_null :
  ensureModel "gpt-4o" (mkHttpRequest "/" ∅ "null" None "") = inl (DecodeError "request body must be a JSON object").
Proof. by vm_compute. Qed.
