(* ===== verification/AnthropicAdapter.v ===== *)
(** The Anthropic Messages adapter, [internal/adapter/anthropic.go]: the conversion of
    nested content blocks, the prompt-cache accounting with its bounded memory, extended
    thinking, and the two handlers over the engine and the Anthropic stream. *)

From S2P Require Import Prelude GoBase GoFloat GoStrings GoRand AgentTypes ToolProcessor Chaos.
From S2P Require Import ResponseGenerator Engine StreamCore AnthropicStream AdapterCore.
From S2P Require Capture ScenarioMatcher AgentRegistry StructuredOutput.

(** ** Requests and responses *)

Record AnthropicThinkingReq := mkAnthropicThinkingReq { atr_Type : string; atr_BudgetTokens : Z }.

Record AnthropicMessage := mkAnthropicMessage { am_Role : string; am_Content : value }.

Record AnthropicTool := mkAnthropicTool {
  at_Name : string; at_Description : string; at_InputSchema : list (string * value); at_CacheControl : value
}.

Record AnthropicRequest := mkAnthropicRequest {
  ar_Model : string;
  ar_Messages : list AnthropicMessage;
  ar_System : value;
  ar_Tools : list AnthropicTool;
  ar_MaxTokens : Z;
  ar_Stream : bool;
  ar_Thinking : option AnthropicThinkingReq
}.

Record AnthropicContent := mkAnthropicContent {
  ac_Type : string;
  ac_Text : string;
  ac_Thinking : string;
  ac_Signature : string;
  ac_ID : string;
  ac_Name : string;
  ac_Input : list (string * value)
}.

Record AnthropicUsage := mkAnthropicUsage {
  au_InputTokens : Z;
  au_CacheCreationInputTokens : option Z;
  au_CacheReadInputTokens : option Z;
  au_OutputTokens : Z
}.

Record AnthropicResponse := mkAnthropicResponse {
  arp_ID : string;
  arp_Type : string;
  arp_Role : string;
  arp_Content : list AnthropicContent;
  arp_Model : string;
  arp_StopReason : string;
  arp_StopSequence : option string;
  arp_Usage : AnthropicUsage
}.

Inductive anthropic_body :=
| MessageBody (m : AnthropicResponse)
| TokenCount (input_tokens : Z)
| AnthropicError (type message : string).

Definition ProtocolAnthropicMessages : string := "anthropic-messages".

(** ** Content blocks *)

Section content.
Context {fmt : GoFmt}.

(** A text that is dropped when it is empty. *)
Definition non_empty (s : string) : option string := if decide (s = "") then None else Some s.

(** [extractAnthropicContent]: it recurses into the content of tool results. The inner
    loops are those over the blocks, over the members of a block up to its first member
    called content, and the test of what that member holds. *)
Fixpoint extractAnthropicContent (content : value) : string :=
  match content with
  | VString v => v
  | VArr v =>
      let text_of block :=
        match block with
        | VObj m =>
            let inner := (fix find_content (kvs : list (string * value)) : option string :=
              match kvs with
              | [] => None
              | (k, c) :: kvs =>
                  if String.eqb k "content" then
                    match c with
                    | VString c => non_empty c
                    | VArr _ => non_empty (extractAnthropicContent c)
                    | _ => None
                    end
                  else find_content kvs
              end) m in
            match obj_get m "type" with
            | Some (VString t) =>
                if decide (t = "text") then obj_get m "text" ≫= as_string
                else if decide (t = "tool_result") then inner
                else None
            | _ => None
            end
        | _ => None
        end in
      Join ((fix parts (blocks : list value) : list string :=
        match blocks with
        | [] => []
        | b :: blocks => match text_of b with Some s => s :: parts blocks | None => parts blocks end
        end) v) space
  | VNil => ""
  | v => Sprint v
  end.

(** The text a tool result carries. *)
Definition result_text (c : option value) : option string :=
  match c with
  | Some (VString c) => non_empty c
  | Some (VArr c) => non_empty (extractAnthropicContent (VArr c))
  | _ => None
  end.

Definition block_type (m : list (string * value)) : option string := obj_get m "type" ≫= as_string.

(** The text of a block, by its type. *)
Definition content_text (block : value) : option string :=
  m ← as_obj block;
  t ← block_type m;
  if decide (t = "text") then obj_get m "text" ≫= as_string
  else if decide (t = "tool_result") then result_text (obj_get m "content")
  else None.

Definition is_image (block : value) : bool :=
  match as_obj block ≫= block_type with Some t => bool_decide (t = "image") | None => false end.

Definition extractAnthropicContentWithImages (content : value) : string * Z :=
  match as_arr content with
  | None => (extractAnthropicContent content, 0%Z)
  | Some blocks =>
      (Join (omap content_text blocks) space, Z.of_nat (length (filter (λ b, is_image b = true) blocks)))
  end.

Definition convert_anthropic (m : AnthropicMessage) : RequestMessage :=
  let '(content, imgCount) := extractAnthropicContentWithImages (am_Content m) in
  mkRequestMessage (am_Role m) content imgCount.

Definition convertAnthropicMessages (msgs : list AnthropicMessage) (system : value)
  : list RequestMessage * Z :=
  let sys := extractAnthropicContent system in
  let head := if decide (sys = "") then [] else [mkRequestMessage "system" sys 0] in
  let converted := convert_anthropic <$> msgs in
  (head ++ converted, foldl (λ total m, wrap64 (total + rm_ImageCount m)) 0%Z converted).

Lemma extract_blocks blocks :
  extractAnthropicContent (VArr blocks) = Join (omap content_text blocks) space.
Proof.
  cbn [extractAnthropicContent]. f_equal. induction blocks as [|b blocks IH]; [done|].
  change (omap content_text (b :: blocks)) with
    (match content_text b with Some y => y :: omap content_text blocks | None => omap content_text blocks end).
  rewrite <-IH. clear IH.
  match goal with |- match ?x with _ => _ end = _ => assert (x = content_text b) as ->; [|done] end.
  destruct b as [| | | | | | | |vs|m|kvs]; try done. unfold content_text, block_type. simpl.
  match goal with |- context [(fix find_content (kvs : list (string * value)) {struct kvs} : option string := _) m] =>
    set (inner := (fix find_content (kvs : list (string * value)) {struct kvs} : option string := _) m) end.
  assert (inner = result_text (obj_get m "content")) as ->.
  { subst inner. induction m as [|[k c] m IHm]; [done|]. rewrite obj_get_cons.
    destruct (String.eqb_spec k "content") as [->|Hk]; [by rewrite decide_True; destruct c|by rewrite decide_False]. }
  by destruct (obj_get m "type") as [[]|].
Qed.

(** Counting the images does not change the text. *)
Lemma extract_with_images content :
  (extractAnthropicContentWithImages content).1 = extractAnthropicContent content.
Proof. destruct content; try done. symmetry. apply extract_blocks. Qed.
End content.

(** ** The memory of prompt-cache breakpoints *)

Record anthropicCacheKey := mkCacheKey { ck_tenant : string; ck_hash : Z }.

#[global] Instance anthropicCacheKey_eq_dec : EqDecision anthropicCacheKey.
Proof. solve_decision. Defined.
#[global] Instance anthropicCacheKey_countable : Countable anthropicCacheKey.
Proof.
  refine (inj_countable' (λ k, (ck_tenant k, ck_hash k)) (λ p, mkCacheKey p.1 p.2) _). by intros [].
Defined.

(** The zero value is an empty tracker: a nil map is made on the first call. *)
Record anthropicCacheTracker := mkTracker { seen : gset anthropicCacheKey; order : list anthropicCacheKey }.

Definition new_tracker : anthropicCacheTracker := mkTracker ∅ [].

Definition maxAnthropicCacheEntries : nat := Z.to_nat 4096.

(** The eviction loop; an order is shorter after every turn, so its length is enough
    fuel. *)
Fixpoint evict (fuel : nat) (t : anthropicCacheTracker) : anthropicCacheTracker :=
  match fuel with
  | O => t
  | S fuel =>
      if decide (maxAnthropicCacheEntries < length (order t)) then
        match order t with
        | [] => t
        | oldest :: rest => evict fuel (mkTracker (seen t ∖ {[oldest]}) rest)
        end
      else t
  end.

Definition seenOrStore (key : anthropicCacheKey) (t : anthropicCacheTracker) : anthropicCacheTracker * bool :=
  if decide (key ∈ seen t) then (t, true)
  else
    let t := mkTracker ({[key]} ∪ seen t) (order t ++ [key]) in
    (evict (length (order t)) t, false).

(** A set that forgets its oldest members: what the tracker refines. *)
Definition remember (key : anthropicCacheKey) (kept : list anthropicCacheKey)
  : list anthropicCacheKey * bool :=
  if decide (key ∈ kept) then (kept, true) else (last_n maxAnthropicCacheEntries (kept ++ [key]), false).

Definition tracker_ok (t : anthropicCacheTracker) : Prop :=
  seen t = list_to_set (order t) ∧ NoDup (order t) ∧ length (order t) ≤ maxAnthropicCacheEntries.

#[local] Opaque maxAnthropicCacheEntries.

Lemma evict_spec fuel t : seen t = list_to_set (order t) → NoDup (order t) → length (order t) ≤ fuel →
  let t' := evict fuel t in
  order t' = last_n maxAnthropicCacheEntries (order t) ∧ seen t' = list_to_set (order t').
Proof.
  revert t. induction fuel as [|fuel IH]; intros [s o] Hs Hnd Hl; simpl in *.
  { destruct o; [done|simpl in Hl; lia]. }
  unfold last_n. case_decide as Hlen; [|by replace (length o - maxAnthropicCacheEntries) with 0 by lia].
  destruct o as [|k o]; [done|]. simpl in Hlen, Hl. apply NoDup_cons in Hnd as [Hk Hnd].
  destruct (IH (mkTracker (s ∖ {[k]}) o)) as [Ho Hs']; simpl; [|done|lia|].
  - rewrite Hs. simpl. set_solver.
  - rewrite Hs', Ho. split; [|done]. unfold last_n. cbn [order length].
    by replace (S (length o) - maxAnthropicCacheEntries) with (S (length o - maxAnthropicCacheEntries)) by lia.
Qed.

(** The tracker refines the bounded memory. *)
Lemma seenOrStore_refines key t : tracker_ok t →
  let '(t', hit) := seenOrStore key t in
  tracker_ok t' ∧ (order t', hit) = remember key (order t).
Proof.
  intros (Hs & Hnd & Hl). unfold seenOrStore, remember. rewrite Hs.
  destruct (decide (key ∈ order t)) as [Hin|Hnin].
  { rewrite decide_True by (by apply elem_of_list_to_set). by split. }
  rewrite decide_False by (by rewrite elem_of_list_to_set).
  set (t1 := mkTracker _ _). assert (NoDup (order t ++ [key])) as Hnd1.
  { apply NoDup_app. split_and!; [done| |by apply NoDup_singleton]. intros x Hx ->%list_elem_of_singleton. done. }
  destruct (evict_spec (length (order t1)) t1) as [Ho Hs1]; [|done|done|].
  { simpl. rewrite list_to_set_app_L. simpl. set_solver. }
  split; [|by rewrite Ho]. split; [done|]. rewrite Ho. split; [|apply last_n_length].
  unfold last_n. eapply sublist_NoDup; [exact Hnd1|]. apply sublist_drop.
Qed.

(** ** Prompt caching *)

Section caching.
Context {fmt : GoFmt} {conv : GoConv} {sjson : StructuredOutput.SchemaJson}.

(** The total, the part of it that counts in the input, and the hash so far. *)
Record marks := mkMarks { mk_total : Z; mk_fromMessages : Z; mk_hash : Z }.

Definition addBlock (fromMsg : bool) (k : marks) (m : list (string * value)) : marks :=
  let text := extractAnthropicContent (VArr [VObj m]) in
  let '(n, inBase, h) :=
    if decide (text ≠ "") then (EstimateTokens text, true, fnv_write text (mk_hash k))
    else match StructuredOutput.JsonMarshal (VObj m) with
         | Some b =>
             let n := (Z.of_nat (String.length b) / 4)%Z in
             ((if decide (n < 1)%Z then 1 else n)%Z, false, fnv_write b (mk_hash k))
         | None => (0%Z, false, mk_hash k)
         end in
  if decide (n = 0)%Z then mkMarks (mk_total k) (mk_fromMessages k) h
  else mkMarks (wrap64 (mk_total k + n))
         (if fromMsg && inBase then wrap64 (mk_fromMessages k + n) else mk_fromMessages k)
         (fnv_write NUL h).

(** A block with a [cache_control] that is not null. *)
Definition marked_block (b : value) : option (list (string * value)) :=
  m ← as_obj b;
  match obj_get m "cache_control" with Some VNil | None => None | Some _ => Some m end.

Definition walk_marks (fromMsg : bool) (k : marks) (content : value) : marks :=
  match as_arr content with
  | None => k
  | Some blocks => foldl (addBlock fromMsg) k (omap marked_block blocks)
  end.

Definition mark_tool (k : marks) (t : AnthropicTool) : marks :=
  match at_CacheControl t with
  | VNil => k
  | _ =>
      let text := (at_Name t +:+ " " +:+ at_Description t)%string in
      mkMarks (wrap64 (mk_total k + EstimateTokens text)) (mk_fromMessages k)
        (fnv_write NUL (fnv_write text (mk_hash k)))
  end.

Definition cacheMarkedTokens (req : AnthropicRequest) : Z * Z * Z :=
  let k := walk_marks true (mkMarks 0 0 fnv_offset) (ar_System req) in
  let k := foldl (λ k m, walk_marks true k (am_Content m)) k (ar_Messages req) in
  let k := foldl mark_tool k (ar_Tools req) in
  if decide (mk_total k = 0)%Z then (0, 0, 0)%Z else (mk_total k, mk_fromMessages k, mk_hash k).

(** The cache-creation and cache-read tokens of an answer. *)
Definition cacheUsageFields (markedTokens : Z) (key : anthropicCacheKey) (t : anthropicCacheTracker)
  : anthropicCacheTracker * (option Z * option Z) :=
  if decide (markedTokens = 0)%Z then (t, (None, None))
  else
    let '(t, hit) := seenOrStore key t in
    (t, if (hit : bool) then (Some 0%Z, Some markedTokens) else (Some markedTokens, Some 0%Z)).

(** The cache tokens of a request of a tenant. *)
Definition bill (tenantID : string) (req : AnthropicRequest) (t : anthropicCacheTracker)
  : anthropicCacheTracker * (option Z * option Z) :=
  let '(markedTokens, _, contentHash) := cacheMarkedTokens req in
  cacheUsageFields markedTokens (mkCacheKey tenantID contentHash) t.

(** ** Extended thinking *)

Definition thinkingEnabled (req : AnthropicRequest) : bool :=
  match ar_Thinking req with Some t => bool_decide (atr_Type t = "enabled") | None => false end.

Definition thinking_signature : string := "bW9ja2FnZW50cy10aGlua2luZy1zaWc=".

Definition synthesizeThinking (req : AnthropicRequest) : string * string :=
  let seed := match find (λ m, bool_decide (am_Role m = "user")) (reverse (ar_Messages req)) with
              | Some m => extractAnthropicContent (am_Content m)
              | None => ""%string
              end in
  let preview := if decide (60 < String.length seed)%nat then (str_take 60 seed +:+ "...")%string else seed in
  (("Let me reason about: " +:+ preview +:+ " [mock-hash:" +:+ hex_fixed 16 (fnv_write seed fnv_offset) +:+ "]")%string,
   thinking_signature).
End caching.

(** ** Answers *)

Section format.
Definition text_content (text : string) : AnthropicContent := mkAnthropicContent "text" text "" "" "" "" [].

Definition thinking_content (thinking signature : string) : AnthropicContent :=
  mkAnthropicContent "thinking" "" thinking signature "" "" [].

(** The id of tool block [i]: the draw is made even when a result carries the id. *)
Definition use_id (draws : nat → Z) (results : list ToolCallResult) (i : nat) : string :=
  match results !! i with
  | Some r => tcr_ID r
  | None => ("toolu_" +:+ generateID (draws i))%string
  end.

Definition tool_content (draws : nat → Z) (results : list ToolCallResult) (i : nat) (tc : ToolCallSpec)
  : AnthropicContent :=
  mkAnthropicContent "tool_use" "" "" "" (use_id draws results i) (tcs_Name tc) (tcs_Arguments tc).

Definition formatAnthropicResponse (id_draw : Z) (draws : nat → Z) (resp : Response)
    (inputTokens outputTokens : Z) (cacheCreation cacheRead : option Z)
    (thinkingText thinkingSig : string) : AnthropicResponse :=
  let content :=
    (if decide (thinkingText = "") then [] else [thinking_content thinkingText thinkingSig]) ++
    (if decide (re_Content resp = "") then [] else [text_content (re_Content resp)]) ++
    (if decide (re_Refusal resp = "") then [] else [text_content (re_Refusal resp)]) ++
    imap (tool_content draws (re_ToolResults resp)) (re_ToolCalls resp) in
  let stopReason :=
    if decide (re_FinishReason resp ≠ "") then AnthropicStopReason (re_FinishReason resp)
    else match re_ToolCalls resp with
         | _ :: _ => "tool_use"%string
         | [] => if decide (re_Refusal resp ≠ "") then "refusal"%string else "end_turn"%string
         end in
  mkAnthropicResponse ("msg_" +:+ generateID id_draw) "message" "assistant" content (re_Model resp) stopReason
    None (mkAnthropicUsage inputTokens cacheCreation cacheRead outputTokens).
End format.

(** ** The handlers *)

Section handlers.
Context {mr : MapRange} {heap : Heap AgentDefinition}.
Context {golower : GoLower} {goregexp : ScenarioMatcher.GoRegexp} {gotmpl : GoTemplate}.
Context {fmt : GoFmt} {conv : GoConv} {rand : GoRand} {texts : ErrorTexts}.
Context {rand2 : GoRandV2} {gmath : GoMath} {json : GoJson} {sjson : StructuredOutput.SchemaJson}.
Context {E : Type} {fl : Faults E}.

Abbreviation stream_state := (@stream_st anthropic_event rand2).
Abbreviation stream_result := (stream_state * (@StreamError E + unit))%type.
Abbreviation anthropic_reply := (reply anthropic_body stream_result).

Record AnthropicEnv := mkAnthropicEnv {
  ae_engine : Env;
  ae_hijack : option net_conn;
  ae_session_draw : Z;
  ae_id_draw : Z;
  ae_tool_draws : nat → Z;
  ae_flusher : bool;
  ae_stream_draw : list Z;
  ae_stream_draws : nat → list Z;
  ae_stream : stream_state
}.

(** The handler: its engine and its tracker. *)
Record AnthropicHandler := mkAnthropicHandler { ah_Engine : Engine; ah_cache : anthropicCacheTracker }.

Definition set_Engine (e : Engine) (h : AnthropicHandler) : AnthropicHandler := mkAnthropicHandler e (ah_cache h).

Definition writeAnthropicError (headers : gmap string string) (status : Z) (errType message : string)
  : anthropic_reply := writeJSON headers status (AnthropicError errType message).

(** [checkAnthropicAuth]: the answer to a request without key. *)
Definition authorized (r : HttpRequest) : bool :=
  negb (bool_decide (get_header r "X-Api-Key" = "")) || has_prefix (get_header r "Authorization") "Bearer ".

(** The checks the two handlers share. *)
Definition read_messages (unmarshal : string → string + AnthropicRequest) (r : HttpRequest)
  : anthropic_reply + AnthropicRequest :=
  match decodeJSONBody unmarshal r with
  | inl BodyTooLarge => inl (writeAnthropicError ∅ 413 "invalid_request_error" "request body too large")
  | inl (DecodeError err) => inl (writeAnthropicError ∅ 400 "invalid_request_error" ("invalid JSON: " +:+ err))
  | inr req =>
      if decide (ar_Model req = "") then inl (writeAnthropicError ∅ 400 "invalid_request_error" "model is required")
      else if decide (length (ar_Messages req) = 0) then
        inl (writeAnthropicError ∅ 400 "invalid_request_error" "messages is required")
      else if negb (authorized r) then
        inl (writeAnthropicError ∅ 401 "authentication_error" "missing API key")
      else inr req
  end.

Definition anthropic_chaos (hijack : option net_conn) (ce : ChaosError) : anthropic_reply :=
  if decide (che_Connection ce ≠ "") then
    match connectionFault hijack (che_Connection ce) with
    | Some ops => Hijacked ops
    | None => writeAnthropicError ∅ 502 "api_error" "connection fault could not be delivered"
    end
  else
    let headers := match chaosRetryAfter ce with Some ra => <["Retry-After" := ra]> ∅ | None => ∅ end in
    writeAnthropicError headers (che_StatusCode ce) (anthropicChaosErrorType (che_StatusCode ce)) (che_Message ce).

Definition anthropic_error (hijack : option net_conn) (err : EngineError) : anthropic_reply :=
  match err with
  | EnginePanic => Panicked
  | ErrChaos ce => anthropic_chaos hijack ce
  | err => writeAnthropicError ∅ (error_status (error_text err)) "invalid_request_error" (error_text err)
  end.

Definition anthropic_meta_failed (err : EngineError) (meta : option RequestMeta) : option RequestMeta :=
  match err with EnginePanic => meta | err => set_error (error_text err) meta end.

Definition messages_inbound (env : AnthropicEnv) (r : HttpRequest) (req : AnthropicRequest) : InboundRequest :=
  mkInboundRequest "" (ar_Model req) (extractSessionID r (ae_session_draw env))
    (convertAnthropicMessages (ar_Messages req) (ar_System req)).1 (ar_Stream req).

(** The document of an answer: its usage, its thinking and its content. *)
Definition answer_message (env : AnthropicEnv) (tenantID : string) (req : AnthropicRequest)
    (messages : list RequestMessage) (resp : Response) (cache : anthropicCacheTracker)
  : anthropicCacheTracker * AnthropicResponse :=
  let inputTokens := sumMessageTokens messages in
  let outputTokens := EstimateTokens (re_Content resp) in
  let '(_, markedFromMessages, _) := cacheMarkedTokens req in
  let '(cache, (cacheCreation, cacheRead)) := bill tenantID req cache in
  let inputTokens := wrap64 (inputTokens - markedFromMessages) in
  let inputTokens := if decide (inputTokens < 0)%Z then 0%Z else inputTokens in
  let '(thinkingText, thinkingSig, outputTokens) :=
    if thinkingEnabled req then
      let '(text, sig) := synthesizeThinking req in
      (text, sig, wrap64 (outputTokens + EstimateTokens text))
    else (""%string, ""%string, outputTokens) in
  (cache, formatAnthropicResponse (ae_id_draw env) (ae_tool_draws env) resp inputTokens outputTokens
            cacheCreation cacheRead thinkingText thinkingSig).

Definition answer_messages (env : AnthropicEnv) (tenantID : string) (req : AnthropicRequest)
    (messages : list RequestMessage) (imageCount : Z) (resp : Response) (h : AnthropicHandler)
  : AnthropicHandler * anthropic_reply :=
  let headers := setImageCountHeader imageCount (setHallucinationHeader resp ∅) in
  if ar_Stream req then
    (h, Streamed headers (StreamAnthropic (ae_flusher env) (ae_stream_draw env) (ae_stream_draws env) resp
          (stream_config (Registry (ah_Engine h)) (ar_Model req) tenantID) (ae_stream env)))
  else
    let '(cache, doc) := answer_message env tenantID req messages resp (ah_cache h) in
    (mkAnthropicHandler (ah_Engine h) cache, writeJSON headers 200 (MessageBody doc)).

Definition HandleMessages (env : AnthropicEnv) (unmarshal : string → string + AnthropicRequest)
    (r : HttpRequest) (meta : option RequestMeta) (h : AnthropicHandler)
  : AnthropicHandler * option RequestMeta * anthropic_reply :=
  let meta := set_protocol ProtocolAnthropicMessages meta in
  match read_messages unmarshal r with
  | inl answer => (h, meta, answer)
  | inr req =>
      let '(messages, imageCount) := convertAnthropicMessages (ar_Messages req) (ar_System req) in
      let inbound := messages_inbound env r req in
      let meta := set_session (ir_SessionID inbound) meta in
      match ProcessRequestContext (ae_engine env) (hr_tenant r) inbound (ah_Engine h) with
      | (e, inl err) => (set_Engine e h, anthropic_meta_failed err meta, anthropic_error (ae_hijack env) err)
      | (e, inr resp) =>
          let '(h, answer) := answer_messages env (hr_tenant r) req messages imageCount resp (set_Engine e h) in
          (h, set_matched (ar_Model req) resp meta, answer)
      end
  end.

Definition HandleCountTokens (unmarshal : string → string + AnthropicRequest) (r : HttpRequest)
  : anthropic_reply :=
  match read_messages unmarshal r with
  | inl answer => answer
  | inr req =>
      let '(converted, _) := convertAnthropicMessages (ar_Messages req) (ar_System req) in
      writeJSON ∅ 200 (TokenCount (sumMessageTokens converted))
  end.

(** ** The bills of a history *)

(** The key of a request that has marked content. *)
Definition bill_key (req : string * AnthropicRequest) : option anthropicCacheKey :=
  let '(n, _, h) := cacheMarkedTokens req.2 in
  if decide (n = 0)%Z then None else Some (mkCacheKey req.1 h).

Fixpoint run_bills (reqs : list (string * AnthropicRequest)) (t : anthropicCacheTracker)
  : anthropicCacheTracker * list (option Z * option Z) :=
  match reqs with
  | [] => (t, [])
  | (tenantID, req) :: reqs =>
      let '(t, b) := bill tenantID req t in
      let '(t, bills) := run_bills reqs t in (t, b :: bills)
  end.

(** What a bill says when the key was kept, and when it was not. *)
Definition bill_of (req : string * AnthropicRequest) (hit : bool) : option Z * option Z :=
  let '(n, _, _) := cacheMarkedTokens req.2 in
  if decide (n = 0)%Z then (None, None)
  else if hit then (Some 0, Some n)%Z else (Some n, Some 0)%Z.

(** The memory a history leaves, and whether each request found its key in it. *)
Fixpoint memories (reqs : list (string * AnthropicRequest)) (kept : list anthropicCacheKey)
  : list anthropicCacheKey * list bool :=
  match reqs with
  | [] => (kept, [])
  | req :: reqs =>
      let '(kept, hit) := match bill_key req with Some key => remember key kept | None => (kept, false) end in
      let '(kept, hits) := memories reqs kept in (kept, hit :: hits)
  end.

Lemma run_bills_refines reqs t : tracker_ok t →
  tracker_ok (run_bills reqs t).1 ∧
  order (run_bills reqs t).1 = (memories reqs (order t)).1 ∧
  (run_bills reqs t).2 = zip_with bill_of reqs (memories reqs (order t)).2.
Proof.
  revert t. induction reqs as [|[tenant req] reqs IH]; intros t Ht; [done|].
  cbn [run_bills memories]. unfold bill, bill_key, cacheUsageFields. cbn [fst snd].
  assert (∀ hit, bill_of (tenant, req) hit = let '(n, _, _) := cacheMarkedTokens req in
    if decide (n = 0)%Z then (None, None) else if (hit : bool) then (Some 0, Some n)%Z else (Some n, Some 0)%Z)
    as Hb by done.
  destruct (cacheMarkedTokens req) as [[n m] h]. destruct (decide (n = 0)%Z) as [Hn|Hn].
  - destruct (IH t Ht) as (Hok & Ho & Hbs). destruct (run_bills reqs t) as [t' bills].
    destruct (memories reqs (order t)) as [kept hits]. cbn [fst snd zip_with] in *. split_and!; [done|done|].
    by rewrite Hb, Hbs.
  - pose proof (seenOrStore_refines (mkCacheKey tenant h) t Ht) as Hstep.
    destruct (seenOrStore (mkCacheKey tenant h) t) as [t1 hit]. destruct Hstep as [Ht1 <-].
    destruct (IH t1 Ht1) as (Hok & Ho & Hbs). destruct (run_bills reqs t1) as [t' bills].
    destruct (memories reqs (order t1)) as [kept hits]. cbn [fst snd zip_with] in *. split_and!; [done|done|].
    by rewrite Hb, Hbs.
Qed.

Lemma memories_length reqs kept : length (memories reqs kept).2 = length reqs.
Proof.
  revert kept. induction reqs as [|req reqs IH]; intros kept; [done|]. cbn [memories].
  destruct (match bill_key req with Some key => _ | None => _ end) as [kept1 hit].
  specialize (IH kept1). destruct (memories reqs kept1). simpl in *. by rewrite IH.
Qed.

(** A hit was stored or kept before. *)
Lemma memories_hits reqs kept i req key :
  reqs !! i = Some req → bill_key req = Some key → (memories reqs kept).2 !! i = Some true →
  key ∈ kept ∨ ∃ j req', j < i ∧ reqs !! j = Some req' ∧ bill_key req' = Some key.
Proof.
  revert kept i. induction reqs as [|r reqs IH]; intros kept i Hr Hk Hh; [done|]. cbn [memories] in Hh.
  set (next := match bill_key r with Some key => _ | None => _ end) in Hh.
  assert (next.2 = true → bill_key r = Some key → key ∈ kept) as Hhit.
  { subst next. intros Ht Hkr. rewrite Hkr in Ht. unfold remember in Ht. by case_decide. }
  assert (∀ x, x ∈ next.1 → x ∈ kept ∨ bill_key r = Some x) as Hnext.
  { subst next. intros x. destruct (bill_key r) as [k|]; [|by left]. unfold remember.
    case_decide; simpl; [by left|]. intros [?|Hx]%last_n_elem%elem_of_app; [by left|].
    apply list_elem_of_singleton in Hx as ->. by right. }
  destruct next as [kept1 hit]. simpl in Hhit, Hnext. destruct i as [|i]; simpl in Hr.
  - simplify_eq. destruct (memories reqs kept1). simpl in Hh. simplify_eq. left. auto.
  - specialize (IH kept1 i Hr Hk). destruct (memories reqs kept1) as [kept2 hits]. simpl in Hh, IH.
    destruct (IH Hh) as [Hin|(j & req' & Hj & Hjr & Hjk)].
    + destruct (Hnext key Hin) as [?|?]; [by left|]. right. exists 0, r. split_and!; [lia|done|done].
    + right. exists (S j), req'. split_and!; [lia|done|done].
Qed.

(** A key that is kept stays while fewer than 4096 requests follow. *)
Lemma memories_keeps reqs kept pre key post i req :
  kept = pre ++ key :: post → reqs !! i = Some req → bill_key req = Some key →
  length post + i < maxAnthropicCacheEntries → (memories reqs kept).2 !! i = Some true.
Proof.
  revert kept pre post i. induction reqs as [|r reqs IH]; intros kept pre post i Hk Hr Hkey Hl; [done|].
  cbn [memories]. destruct i as [|i]; simpl in Hr.
  { simplify_eq. rewrite Hkey. unfold remember. rewrite decide_True by (apply elem_of_app; right; left).
    by destruct (memories reqs _). }
  assert (∃ pre' post', (match bill_key r with Some key => remember key kept | None => (kept, false) end).1 =
    pre' ++ key :: post' ∧ length post' ≤ length post + 1) as (pre' & post' & Hnext & Hlp).
  { destruct (bill_key r) as [k|]; [|exists pre, post; split; [done|lia]]. unfold remember.
    case_decide; [exists pre, post; split; [done|lia]|]. simpl. unfold last_n.
    set (n := length (kept ++ [k]) - maxAnthropicCacheEntries).
    exists (drop n pre), (post ++ [k]). rewrite length_app. split; [|simpl; lia].
    rewrite Hk, <-app_assoc. change ((key :: post) ++ [k]) with (key :: post ++ [k]).
    rewrite drop_app_le; [done|]. subst n kept. rewrite !length_app. simpl. lia. }
  destruct (match bill_key r with Some key => _ | None => _ end) as [kept1 hit]. simpl in Hnext.
  specialize (IH kept1 pre' post' i Hnext Hr Hkey ltac:(lia)). by destruct (memories reqs kept1).
Qed.

Lemma memories_app a b kept :
  memories (a ++ b) kept =
    ((memories b (memories a kept).1).1, (memories a kept).2 ++ (memories b (memories a kept).1).2).
Proof.
  revert kept. induction a as [|req a IH]; intros kept; [simpl; by destruct (memories b kept)|].
  cbn [app memories]. destruct (match bill_key req with Some key => _ | None => _ end) as [kept1 hit].
  rewrite IH. by destruct (memories a kept1).
Qed.

(** A key that was stored is found again within the next 4096 requests. *)
Lemma memories_repeat reqs kept j i rj ri key :
  j < i → reqs !! j = Some rj → reqs !! i = Some ri → bill_key rj = Some key → bill_key ri = Some key →
  (memories reqs kept).2 !! j = Some false → i - j ≤ maxAnthropicCacheEntries →
  (memories reqs kept).2 !! i = Some true.
Proof.
  intros Hij Hj Hi Hkj Hki Hh Hd. rewrite <-(take_drop_middle reqs j rj Hj) in Hh |- *.
  rewrite memories_app in Hh |- *. cbn [snd] in Hh |- *.
  assert (j < length reqs) as Hlen by (by eapply lookup_lt_Some).
  assert (length (memories (take j reqs) kept).2 = j) as Hl by (rewrite memories_length, length_take; lia).
  set (kept1 := (memories (take j reqs) kept).1) in *.
  rewrite lookup_app_r in Hh |- * by lia. rewrite Hl in Hh |- *. rewrite Nat.sub_diag in Hh.
  cbn [memories] in Hh |- *. rewrite Hkj in Hh |- *. unfold remember in Hh |- *.
  destruct (decide (key ∈ kept1)) as [?|Hn]; [by destruct (memories (drop (S j) reqs) kept1)|]. clear Hh.
  pose proof (memories_keeps (drop (S j) reqs) (last_n maxAnthropicCacheEntries (kept1 ++ [key]))
    (drop (length (kept1 ++ [key]) - maxAnthropicCacheEntries) kept1) key [] (i - S j) ri) as Hkeep.
  destruct (memories (drop (S j) reqs) _) as [kept2 hits]. cbn [snd] in *.
  replace (i - j) with (S (i - S j)) by lia. simpl. apply Hkeep; [|rewrite lookup_drop; by replace (S j + (i - S j)) with i by lia|done|simpl; lia].
  unfold last_n. rewrite drop_app_le; [done|]. rewrite length_app. simpl. lia.
Qed.

(** ** Properties *)


Definition anthropic_status (answer : anthropic_reply) : option Z :=
  match answer with JSON status _ _ => Some status | _ => None end.

(** The answer to an error of the engine. *)
Definition anthropic_answered (env : AnthropicEnv) (err : EngineError) (answer : anthropic_reply) : Prop :=
  match err with
  | ErrAgentNotFound _ _ => anthropic_status answer = Some 404%Z
  | ErrEmptyMessage => anthropic_status answer = Some 400%Z
  | ErrChaos ce =>
      if decide (che_Connection ce ≠ "") then
        match ae_hijack env with
        | Some _ => ∃ ops, answer = Hijacked (ops ++ [CloseConn])
        | None => anthropic_status answer = Some 502%Z
        end
      else ∃ headers,
        answer = JSON (che_StatusCode ce) headers
          (AnthropicError (anthropicChaosErrorType (che_StatusCode ce)) (che_Message ce)) ∧
        headers !! "Retry-After"%string = chaosRetryAfter ce
  | EnginePanic => answer = Panicked
  | ErrContext | ErrGenerating _ _ _ =>
      ∃ status, anthropic_status answer = Some status ∧ status ∈ [400; 404; 500]%Z
  end.

Lemma error_status_among text : error_status text ∈ [400; 404; 500]%Z.
Proof. unfold error_status. repeat case_match; set_solver. Qed.

Lemma anthropic_error_ok env err : anthropic_answered env err (anthropic_error (ae_hijack env) err).
Proof.
  destruct err as [name av| |ce| | |]; simpl; try done.
  - eexists. split; [done|apply error_status_among].
  - unfold anthropic_chaos. case_decide.
    + unfold connectionFault. destruct (ae_hijack env); simpl; [by eexists|done].
    + eexists. split; [done|]. rewrite lookup_insert_ne by done.
      destruct (chaosRetryAfter ce); [by rewrite lookup_insert_eq|by rewrite lookup_empty].
  - eexists. split; [done|apply error_status_among].
Qed.

(** The usage of an answer, against the count endpoint and the bill. *)
Lemma answer_message_usage env tenantID req messages resp cache :
  let '(cache', doc) := answer_message env tenantID req messages resp cache in
  (cache', (au_CacheCreationInputTokens (arp_Usage doc), au_CacheReadInputTokens (arp_Usage doc)))
    = bill tenantID req cache ∧
  au_InputTokens (arp_Usage doc) =
    Z.max 0 (wrap64 (sumMessageTokens messages - (cacheMarkedTokens req).1.2)) ∧
  arp_Model doc = re_Model resp.
Proof.
  unfold answer_message. destruct (cacheMarkedTokens req) as [[n m] hh].
  destruct (bill tenantID req cache) as [cache' [creation rd]].
  assert (∀ z, (if decide (z < 0)%Z then 0%Z else z) = Z.max 0 z) as Hmax by (intros z; case_decide; lia).
  rewrite Hmax. destruct (thinkingEnabled req); [|done]. by destruct (synthesizeThinking req).
Qed.

Lemma read_messages_refused unmarshal r answer : read_messages unmarshal r = inl answer →
  ∃ status, anthropic_status answer = Some status ∧ status ∈ [400; 401; 413]%Z.
Proof.
  unfold read_messages. destruct (decodeJSONBody unmarshal r) as [[|err]|req]; [| |repeat case_match];
    intros [= <-]; (eexists; split; [done|set_solver]).
Qed.

(** C8: every request to the messages endpoint: one that cannot be read, names no model,
    has no messages or no key is refused by the count endpoint too, with the same answer,
    and changes nothing; an error of the engine has the status of its kind and leaves
    the cache memory alone. An answer comes from an agent the tenant may use; the
    metadata names it, a stream is paced by its configuration, and the usage of a
    document is the count of the count endpoint less the marked tokens, with the cache
    fields of the bill. *)
Theorem HandleMessages_correct env unmarshal r meta h : engine_ok (ah_Engine h) →
  let '(h', meta', answer) := HandleMessages env unmarshal r meta h in
  engine_ok (ah_Engine h') ∧ Registry (ah_Engine h') = Registry (ah_Engine h) ∧
  (is_Some meta' ↔ is_Some meta) ∧
  (∀ m, meta' = Some m → Capture.Protocol m = ProtocolAnthropicMessages) ∧
  match read_messages unmarshal r with
  | inl refusal => h' = h ∧ answer = refusal ∧ HandleCountTokens unmarshal r = refusal ∧
      ∃ status, anthropic_status answer = Some status ∧ status ∈ [400; 401; 413]%Z
  | inr req =>
      match (ProcessRequestContext (ae_engine env) (hr_tenant r) (messages_inbound env r req) (ah_Engine h)).2 with
      | inl err => ah_cache h' = ah_cache h ∧ anthropic_answered env err answer
      | inr resp => ∃ p,
          resolveAgentForTenant (Registry (ah_Engine h)) (messages_inbound env r req) (hr_tenant r) = inr p ∧
          visible (hr_tenant r) p ∧
          (∀ m, meta' = Some m → Capture.AgentName m = agent_name (deref p) ∧
            Capture.ScenarioName m = re_ScenarioName resp) ∧
          if ar_Stream req
          then ah_cache h' = ah_cache h ∧ ∃ headers,
            answer = Streamed headers (StreamAnthropic (ae_flusher env) (ae_stream_draw env) (ae_stream_draws env) resp
              (bc_Streaming (as_Behavior (ad_Spec (deref p)))) (ae_stream env))
          else ∃ headers doc count,
            answer = writeJSON headers 200 (MessageBody doc) ∧ arp_Model doc = agent_model (deref p) ∧
            HandleCountTokens unmarshal r = writeJSON ∅ 200 (TokenCount count) ∧
            au_InputTokens (arp_Usage doc) = Z.max 0 (wrap64 (count - (cacheMarkedTokens req).1.2)) ∧
            (ah_cache h', (au_CacheCreationInputTokens (arp_Usage doc), au_CacheReadInputTokens (arp_Usage doc)))
              = bill (hr_tenant r) req (ah_cache h)
      end
  end.
Proof.
  intros Hok. unfold HandleMessages, HandleCountTokens.
  destruct (read_messages unmarshal r) as [refusal|req] eqn:Hread.
  { split_and!; try done; [by destruct meta|by destruct meta; intros m [= <-]|by eapply read_messages_refused]. }
  assert (ar_Model req ≠ "") as Hm.
  { unfold read_messages in Hread. repeat case_match; by simplify_eq. }
  unfold messages_inbound. destruct (convertAnthropicMessages (ar_Messages req) (ar_System req)) as [messages images].
  cbn [fst ir_SessionID]. set (inbound := mkInboundRequest _ _ _ _ _).
  pose proof (process_answer (ae_engine env) (hr_tenant r) inbound (ah_Engine h) Hok) as Hans.
  destruct (ProcessRequestContext _ _ _ _) as [e' [err|resp]]; cbn [snd].
  { destruct Hans as (Hok' & Hreg & _). split_and!; [done|done|by destruct meta, err| |done|apply anthropic_error_ok].
    by destruct meta, err; intros m [= <-]. }
  destruct Hans as (Hok' & Hreg & Hans).
  destruct (Hans resp eq_refl) as (p & tc & vars & Hres & Hvis & matched & _ & _ & Hsc & Hag & Hmo & _).
  unfold answer_messages. cbn [set_Engine ah_Engine ah_cache]. destruct (ar_Stream req).
  - split_and!; [done|done|by destruct meta|by destruct meta; intros m [= <-]|]. exists p.
    split_and!; [done|done|by destruct meta; intros m [= <-]|done|]. eexists. unfold stream_config. rewrite Hreg.
    pose proof (stream_agent_resolved (Registry (ah_Engine h)) inbound (hr_tenant r) p eq_refl Hm Hres) as Hagent.
    cbn [inbound ir_Model] in Hagent. by rewrite Hagent.
  - pose proof (answer_message_usage env (hr_tenant r) req messages resp (ah_cache h)) as Huse.
    destruct (answer_message _ _ _ _ _ _) as [cache' doc]. destruct Huse as (Hbill & Hin & Hmodel).
    split_and!; [done|done|by destruct meta|by destruct meta; intros m [= <-]|]. exists p.
    split_and!; [done|done|by destruct meta; intros m [= <-]|]. eexists _, doc, _.
    split_and!; [done|by rewrite Hmodel|done|done|done].
Qed.

(** ** The same answer, streamed or not *)

(** A block the client has read is the block of the document. *)
Definition same_block (b : read_block) (c : AnthropicContent) : Prop :=
  match b with
  | ReadText text => ac_Type c = "text" ∧ text = words_of (ac_Text c)
  | ReadTool id name input =>
      ac_Type c = "tool_use" ∧ id = ac_ID c ∧ name = ac_Name c ∧ input = MarshalArguments (ac_Input c)
  end.

Definition same_message (c : option client) (doc : AnthropicResponse) : Prop :=
  ∃ id blocks tokens, c = Some (Finished id (arp_Model doc) blocks (arp_StopReason doc) tokens) ∧
    Forall2 same_block blocks (arp_Content doc).

Lemma frames_same_message draw draws resp cfg id_draw tool_draws i o cc cr :
  malformed (newPacer cfg) = false → (truncateAfter (newPacer cfg) ≤ 0)%Z →
  length (re_ToolResults resp) = length (re_ToolCalls resp) →
  re_Content resp = "" ∨ re_Refusal resp = "" →
  same_message (read Waiting (anthropic_frames draw draws resp cfg))
    (formatAnthropicResponse id_draw tool_draws resp i o cc cr "" "").
Proof.
  intros Hm Ht Hlen Hor. rewrite read_complete by done. eexists _, _, _. split; [done|].
  cbn [formatAnthropicResponse arp_Content]. cbv zeta. rewrite decide_True by done. cbn [app].
  rewrite (assoc_L (++)). apply Forall2_app.
  - unfold text_blocks, text_body. destruct (decide (re_Content resp = "")) as [Hc|Hc]; cbn [app].
    + case_decide; constructor; [done|constructor].
    + destruct Hor as [?|Hr]; [done|]. rewrite Hr. rewrite decide_False by done. rewrite decide_True by done.
      constructor; [done|constructor].
  - unfold tool_blocks. apply Forall2_same_length_lookup. rewrite !length_imap. split; [done|].
    intros k b c. rewrite !list_lookup_imap. destruct (re_ToolCalls resp !! k) as [tc|] eqn:Hk; [|done].
    intros [= <-] [= <-]. destruct (lookup_lt_is_Some_2 (re_ToolResults resp) k) as [res Hres].
    { rewrite Hlen. by eapply lookup_lt_Some. }
    simpl. unfold tool_id, use_id. by rewrite Hres.
Qed.

Definition anthropic_with_stream (b : bool) (req : AnthropicRequest) : AnthropicRequest :=
  mkAnthropicRequest (ar_Model req) (ar_Messages req) (ar_System req) (ar_Tools req) (ar_MaxTokens req) b
    (ar_Thinking req).

Lemma anthropic_complete draw draws resp cfg st :
  undisturbed → jitter_bounded cfg → malformed (newPacer cfg) = false → (truncateAfter (newPacer cfg) ≤ 0)%Z →
  written st = [] →
  ∃ st', StreamAnthropic true draw draws resp cfg st = (st', inr tt) ∧
    written st' = anthropic_frames draw draws resp cfg.
Proof.
  intros Hu Hj%jitter_bounded_ok Hm _ Hst.
  destruct (anthropic_runs draw draws resp cfg Hj st) as (st' & res & dn & Hrun & Hw & _ & _ & Hall).
  destruct (Hall Hu) as [-> ->]. exists st'. by rewrite Hw, Hst.
Qed.

End handlers.

(** ** Examples *)

#[local] Existing Instance canonical_range.
#[local] Existing Instance ex_heap.
#[local] Existing Instance ascii_go_lower.
#[local] Existing Instance ScenarioMatcher.literal_regexp.
#[local] Existing Instance literal_template.
#[local] Existing Instance plain_fmt.
#[local] Existing Instance amd64_conv.
#[local] Existing Instance half_rand.
#[local] Existing Instance plain_texts.

#[local] Instance ex_rand2 : GoRandV2.
Proof.
  refine {| rng2 := unit; Int64N n g := (0%Z, g); NormFloat64_2 g := (f64_zero, g) |}.
  intros n g Hn. simpl. lia.
Defined.
#[local] Instance ex_gomath : GoMath := {| Log x := x; Exp x := x |}.
#[local] Instance ex_gojson : GoJson := λ _, "{}".
#[local] Instance ex_sjson : StructuredOutput.SchemaJson :=
  {| StructuredOutput.JsonValid _ := true; StructuredOutput.JsonMarshal _ := Some "{}" |}.
#[local] Instance ex_faults : Faults string := λ _, None.

Definition text_part (t : string) : value := VObj [("type", VString "text"); ("text", VString t)]%string.

(** A tool result nests its own blocks; an image leaves neither text nor marker. *)
Example extraction_cases :
  extractAnthropicContent (VArr [text_part "one";
    VObj [("type", VString "tool_result"); ("content", VArr [text_part "two"; VNil; text_part "three"])]%string]) = "one two three" ∧
  extractAnthropicContentWithImages (VArr [VObj [("type", VString "image")]%string]) = ("", 1%Z).
Proof. by vm_compute. Qed.

(** The offset basis, and a published hash: that of the letter a. *)
Example fnv_cases : fnv_write "" fnv_offset = 14695981039346656037%Z ∧ fnv_write "a" fnv_offset = 12638187200555641996%Z.
Proof. by vm_compute. Qed.

(** A refusal beside a content is a block of the document, and not of the stream. *)
Example stream_drops_refusal :
  let resp := mkResponse "bot" "claude" "Partly." [] [] "" "" [] "" "I will not." None in
  (ac_Text <$> arp_Content (formatAnthropicResponse 0 (λ _, 0%Z) resp 0 0 None None "" "")) = ["Partly."; "I will not."]%string ∧
  match read Waiting (anthropic_frames [1%Z] (λ _, []) resp None) with
  | Some (Finished _ _ blocks stop _) => blocks = [ReadText "Partly."] ∧ stop = "refusal"%string
  | _ => False
  end.
Proof. vm_compute. by split_and!. Qed.

Definition ex_messages (stream : bool) : AnthropicRequest :=
  mkAnthropicRequest "gpt-4o"
    [mkAnthropicMessage "user" (VArr [VObj [("type", VString "text"); ("text", VString "weather?"); ("cache_control", VBool true)]])]%string
    VNil [] 0 stream None.

Definition ex_aenv : AnthropicEnv :=
  mkAnthropicEnv ex_env None 10 255 (λ _, 0%Z) true [1%Z] (λ _, [2%Z]) (mkStreamSt 0 [] () ()).

Definition ex_ahttp : HttpRequest := mkHttpRequest "/v1/messages" {["X-Api-Key" := "k"]}%string "{}" None "".

Definition ex_handler : AnthropicHandler := mkAnthropicHandler ex_engine new_tracker.

(** The first request with marked content creates the cache entry, a repeat reads it,
    and the same content of another tenant creates its own. *)
Example cache_bills :
  (run_bills [("t1", ex_messages false); ("t1", ex_messages true); ("t2", ex_messages false)]%string new_tracker).2 =
    [(Some 1, Some 0); (Some 0, Some 1); (Some 1, Some 0)]%Z.
Proof. vm_compute. done. Qed.

Lemma HandleMessages_correct_witness :
  let '(h', _, answer) := HandleMessages (E := string) ex_aenv (λ _, inr (ex_messages false)) ex_ahttp None ex_handler in
  engine_ok (ah_Engine h') ∧ anthropic_status answer = Some 200%Z.
Proof.
  pose proof (HandleMessages_correct (E := string) ex_aenv (λ _, inr (ex_messages false)) ex_ahttp None ex_handler
    ex_engine_ok) as H.
  assert (anthropic_status (HandleMessages (E := string) ex_aenv (λ _, inr (ex_messages false)) ex_ahttp None ex_handler).2
    = Some 200%Z) as Hs by (vm_compute; reflexivity).
  destruct (HandleMessages _ _ _ _ _) as [[h' meta'] answer]. destruct H as [Hok _]. by split.
Defined.

