(* ===== verification/GeminiAdapter.v ===== *)
(** The Gemini adapter, [internal/adapter/gemini.go]: the conversion of contents, the
    handler over the engine and its three answers: a document, an array of one document
    and an event stream.

    [r.PathValue] and the [alt] query parameter are arguments. *)

From Stdlib Require Import Ascii.
From S2P Require Import Prelude GoBase GoFloat GoStrings AgentTypes ToolProcessor Chaos.
From S2P Require Import ResponseGenerator Engine StreamCore GeminiStream AdapterCore.
From S2P Require Capture ScenarioMatcher AgentRegistry StructuredOutput.

(** ** Requests and responses *)

Record GeminiFunctionCall := mkGFunctionCall { gfc_Name : string; gfc_Args : list (string * value) }.

Record GeminiFunctionResponse := mkGFunctionResponse { gfr_Name : string; gfr_Response : list (string * value) }.

Record GeminiPart := mkGPart {
  gpt_Text : string;
  gpt_FunctionCall : option GeminiFunctionCall;
  gpt_FunctionResponse : option GeminiFunctionResponse
}.

Record GeminiContent := mkGContent { gct_Role : string; gct_Parts : list GeminiPart }.

Record GeminiFunctionDecl := mkGFunctionDecl {
  gdl_Name : string; gdl_Description : string; gdl_Parameters : list (string * value)
}.

Record GeminiToolDeclaration := mkGToolDeclaration { gtd_FunctionDeclarations : list GeminiFunctionDecl }.

Record GeminiRequest := mkGRequest {
  grq_Contents : list GeminiContent;
  grq_SystemInstruction : option GeminiContent;
  grq_Tools : list GeminiToolDeclaration;
  grq_GenerationConfig : list (string * value)
}.

Record GeminiCandidate := mkGCandidate {
  gcd_Content : GeminiContent; gcd_FinishReason : string; gcd_Index : Z
}.

Record GeminiUsageMetadata := mkGUsage {
  gum_PromptTokenCount : Z; gum_CandidatesTokenCount : Z; gum_TotalTokenCount : Z
}.

Record GeminiResponse := mkGResponse {
  grp_Candidates : list GeminiCandidate;
  grp_UsageMetadata : GeminiUsageMetadata;
  grp_ModelVersion : string
}.

Inductive gemini_body :=
| GeminiDocument (d : GeminiResponse)
| GeminiArray (ds : list GeminiResponse)
| GeminiError (code : Z) (message status : string).

Definition ProtocolGoogleGemini : string := "google-gemini".

(** ** Conversions *)

(** [strings.Cut] on a colon. *)
Fixpoint cut_colon (s : string) : option (string * string) :=
  match s with
  | EmptyString => None
  | String c s =>
      if Ascii.eqb c ":"%char then Some (""%string, s)
      else match cut_colon s with Some (a, b) => Some (String c a, b) | None => None end
  end.

Lemma cut_colon_app a b : cut_colon a = None → cut_colon (a +:+ ":" +:+ b)%string = Some (a, b).
Proof.
  induction a as [|c a IH]; [done|]. simpl. destruct (Ascii.eqb c ":"%char); [done|].
  destruct (cut_colon a) as [[]|]; [done|]. intros _. by rewrite IH.
Qed.

Section convert.
Context {sjson : StructuredOutput.SchemaJson}.

(** The texts a part adds. *)
Definition part_texts (p : GeminiPart) : list string :=
  (if decide (gpt_Text p = "") then [] else [gpt_Text p]) ++
  match gpt_FunctionResponse p with
  | None => []
  | Some f =>
      (if decide (gfr_Name f = "") then [] else [gfr_Name f]) ++
      match gfr_Response f with
      | [] => []
      | kvs => match StructuredOutput.JsonMarshal (VObj kvs) with Some b => [b] | None => [] end
      end
  end.

Definition joinGeminiParts (parts : list GeminiPart) : string := Join (parts ≫= part_texts) space.

Definition convert_content (c : GeminiContent) : RequestMessage :=
  mkRequestMessage (if decide (gct_Role c = "model") then "assistant" else gct_Role c)
    (joinGeminiParts (gct_Parts c)) 0.

Definition convertGeminiContents (contents : list GeminiContent) (system : option GeminiContent)
  : list RequestMessage :=
  match system with
  | Some system =>
      let text := joinGeminiParts (gct_Parts system) in
      if decide (text = "") then [] else [mkRequestMessage "system" text 0]
  | None => []
  end ++ (convert_content <$> contents).
End convert.

Definition geminiStatusFor (code : Z) : string :=
  if decide (code = 400)%Z then "INVALID_ARGUMENT"
  else if decide (code = 401)%Z then "UNAUTHENTICATED"
  else if decide (code = 403)%Z then "PERMISSION_DENIED"
  else if decide (code = 404)%Z then "NOT_FOUND"
  else if decide (code = 429)%Z then "RESOURCE_EXHAUSTED"
  else if decide (code = 503)%Z then "UNAVAILABLE"
  else if decide (code = 504)%Z then "DEADLINE_EXCEEDED"
  else "INTERNAL".

Section format.
Context {upper : GoUpper}.

Definition text_part (text : string) : GeminiPart := mkGPart text None None.
Definition call_part (tc : ToolCallSpec) : GeminiPart :=
  mkGPart "" (Some (mkGFunctionCall (tcs_Name tc) (tcs_Arguments tc))) None.

Definition formatGeminiResponse (resp : Response) (model : string) (promptTokens candidateTokens : Z)
  : GeminiResponse :=
  let parts :=
    (if decide (re_Content resp = "") then [] else [text_part (re_Content resp)]) ++
    (if decide (re_Refusal resp = "") then [] else [text_part (re_Refusal resp)]) ++
    (call_part <$> re_ToolCalls resp) in
  let finishReason :=
    if decide (re_FinishReason resp ≠ "") then GeminiFinishReason ToUpper (re_FinishReason resp)
    else if decide (re_Refusal resp ≠ "") then "SAFETY"%string else "STOP"%string in
  mkGResponse [mkGCandidate (mkGContent "model" parts) finishReason 0]
    (mkGUsage promptTokens candidateTokens (wrap64 (promptTokens + candidateTokens))) model.
End format.

(** ** The handler *)

Section handlers.
Context {mr : MapRange} {heap : Heap AgentDefinition}.
Context {golower : GoLower} {goregexp : ScenarioMatcher.GoRegexp} {gotmpl : GoTemplate}.
Context {fmt : GoFmt} {conv : GoConv} {rand : GoRand} {texts : ErrorTexts}.
Context {rand2 : GoRandV2} {gmath : GoMath} {upper : GoUpper} {sjson : StructuredOutput.SchemaJson}.
Context {E : Type} {fl : Faults E}.

Abbreviation stream_state := (@stream_st geminiStreamResponse rand2).
Abbreviation stream_result := (stream_state * (@StreamError E + unit))%type.
Abbreviation gemini_reply := (reply gemini_body stream_result).

Record GeminiEnv := mkGeminiEnv {
  ge_engine : Env;
  ge_hijack : option net_conn;
  ge_session_draw : Z;
  ge_flusher : bool;
  ge_stream : stream_state
}.

Definition writeGeminiError (headers : gmap string string) (code : Z) (status message : string) : gemini_reply :=
  writeJSON headers code (GeminiError code message status).

Definition gemini_chaos (hijack : option net_conn) (ce : ChaosError) : gemini_reply :=
  if decide (che_Connection ce ≠ "") then
    match connectionFault hijack (che_Connection ce) with
    | Some ops => Hijacked ops
    | None => writeGeminiError ∅ 502 "UNAVAILABLE" "connection fault could not be delivered"
    end
  else
    let headers := match chaosRetryAfter ce with Some ra => <["Retry-After" := ra]> ∅ | None => ∅ end in
    writeGeminiError headers (che_StatusCode ce) (geminiStatusFor (che_StatusCode ce)) (che_Message ce).

Definition gemini_error (hijack : option net_conn) (err : EngineError) : gemini_reply :=
  match err with
  | EnginePanic => Panicked
  | ErrChaos ce => gemini_chaos hijack ce
  | err =>
      let status := error_status (error_text err) in
      writeGeminiError ∅ status (geminiStatusFor status) (error_text err)
  end.

Definition gemini_meta_failed (err : EngineError) (meta : option RequestMeta) : option RequestMeta :=
  match err with EnginePanic => meta | err => set_error (error_text err) meta end.

Definition generate_inbound (env : GeminiEnv) (r : HttpRequest) (model : string) (stream : bool)
    (req : GeminiRequest) : InboundRequest :=
  mkInboundRequest "" model (extractSessionID r (ge_session_draw env))
    (convertGeminiContents (grq_Contents req) (grq_SystemInstruction req)) stream.

(** The answer: an event stream for [alt=sse], else the document, in an array when a
    stream was asked for. *)
Definition answer_generate (env : GeminiEnv) (reg : AgentRegistry.AgentRegistry) (tenantID model alt : string)
    (stream : bool) (messages : list RequestMessage) (resp : Response) : gemini_reply :=
  let headers := setHallucinationHeader resp ∅ in
  let promptTokens := sumMessageTokens messages in
  let candidateTokens := EstimateTokens (re_Content resp) in
  if stream && bool_decide (alt = "sse") then
    Streamed headers (StreamGemini (ge_flusher env) resp (stream_config reg model tenantID)
      promptTokens candidateTokens (ge_stream env))
  else
    let full := formatGeminiResponse resp model promptTokens candidateTokens in
    if stream then writeJSON headers 200 (GeminiArray [full])
    else writeJSON headers 200 (GeminiDocument full).

Definition HandleGenerate (env : GeminiEnv) (unmarshal : string → string + GeminiRequest)
    (modelmethod alt : string) (r : HttpRequest) (meta : option RequestMeta) (e : Engine)
  : Engine * option RequestMeta * gemini_reply :=
  let meta := set_protocol ProtocolGoogleGemini meta in
  match cut_colon modelmethod with
  | None | Some (""%string, _) =>
      (e, meta, writeGeminiError ∅ 400 "INVALID_ARGUMENT" "path must be /v1beta/models/{model}:generateContent")
  | Some (model, method) =>
      let stream := bool_decide (method = "streamGenerateContent") in
      match decodeJSONBody unmarshal r with
      | inl BodyTooLarge => (e, meta, writeGeminiError ∅ 413 "INVALID_ARGUMENT" "request body too large")
      | inl (DecodeError err) => (e, meta, writeGeminiError ∅ 400 "INVALID_ARGUMENT" ("invalid JSON: " +:+ err))
      | inr req =>
          if decide (length (grq_Contents req) = 0) then
            (e, meta, writeGeminiError ∅ 400 "INVALID_ARGUMENT" "contents is required and must not be empty")
          else
            let inbound := generate_inbound env r model stream req in
            let meta := set_session (ir_SessionID inbound) meta in
            match ProcessRequestContext (ge_engine env) (hr_tenant r) inbound e with
            | (e, inl err) => (e, gemini_meta_failed err meta, gemini_error (ge_hijack env) err)
            | (e, inr resp) =>
                (e, set_matched model resp meta,
                 answer_generate env (Registry e) (hr_tenant r) model alt stream (ir_Messages inbound) resp)
            end
      end
  end.

(** ** The three answers agree *)

(** The text parts of a document, and its calls. *)
Definition document_texts (c : GeminiCandidate) : list string :=
  omap (λ p, if decide (gpt_Text p = "") then None else Some (gpt_Text p)) (gct_Parts (gcd_Content c)).

Definition document_calls (c : GeminiCandidate) : list (string * list (string * value)) :=
  omap (λ p, (λ f, (gfc_Name f, gfc_Args f)) <$> gpt_FunctionCall p) (gct_Parts (gcd_Content c)).

(** What a client collected from a stream is the document: its text when it has one
    text part at most, its calls, its finish reason and its usage. *)
Definition same_generation (c : option collected) (d : GeminiResponse) : Prop :=
  ∃ co cand usage, c = Some co ∧ grp_Candidates d = [cand] ∧
    (length (document_texts cand) ≤ 1 → co_text co = words_of (default "" (head (document_texts cand)))) ∧
    ((λ f, (gf_Name f, gf_Args f)) <$> co_calls co) = document_calls cand ∧
    co_finish co = Some (gcd_FinishReason cand, Some usage) ∧
    mkGUsage (PromptTokenCount usage) (CandidatesTokenCount usage) (TotalTokenCount usage) = grp_UsageMetadata d.

Lemma format_texts resp model pt ct cand : grp_Candidates (formatGeminiResponse resp model pt ct) = [cand] →
  document_texts cand =
    (if decide (re_Content resp = "") then [] else [re_Content resp]) ++
    (if decide (re_Refusal resp = "") then [] else [re_Refusal resp]) ∧
  document_calls cand = (λ tc, (tcs_Name tc, tcs_Arguments tc)) <$> re_ToolCalls resp.
Proof.
  intros [= <-]. unfold document_texts, document_calls. cbn [gcd_Content gct_Parts]. rewrite !omap_app.
  assert (∀ calls, omap (λ p, if decide (gpt_Text p = "") then None else Some (gpt_Text p)) (call_part <$> calls) = [] ∧
    omap (λ p, (λ f, (gfc_Name f, gfc_Args f)) <$> gpt_FunctionCall p) (call_part <$> calls) =
      (λ tc, (tcs_Name tc, tcs_Arguments tc)) <$> calls) as Hcalls.
  { intros calls. induction calls as [|tc calls [IH1 IH2]]; [done|]. split; [exact IH1|].
    rewrite !fmap_cons. cbn. by f_equal. }
  destruct (Hcalls (re_ToolCalls resp)) as [-> ->]. rewrite app_nil_r.
  destruct (decide (re_Content resp = "")) as [Hc|Hc], (decide (re_Refusal resp = "")) as [Hr|Hr]; cbn;
    rewrite ?decide_False by done; done.
Qed.

Lemma frames_same_generation resp cfg model pt ct :
  upper_keeps → malformed (newPacer cfg) = false → (truncateAfter (newPacer cfg) ≤ 0)%Z →
  same_generation (collect_all (mkCollected "" [] None) (gemini_frames resp cfg pt ct))
    (formatGeminiResponse resp model pt ct).
Proof.
  intros Hup Hm Ht. rewrite gemini_collected by done. eexists _, _, _. split; [done|]. split; [done|].
  destruct (format_texts resp model pt ct _ eq_refl) as [-> ->]. cbn [co_text co_calls co_finish].
  split_and!; [|unfold calls_of; by rewrite <-list_fmap_compose|done|done].
  unfold text_body. destruct (decide (re_Content resp = "")) as [Hc|Hc], (decide (re_Refusal resp = "")) as [Hr|Hr];
    cbn; rewrite ?Hr; try done; lia.
Qed.

Lemma gemini_complete resp cfg pt ct st : undisturbed → jitter_bounded cfg → written st = [] →
  malformed (newPacer cfg) = false →
  ∃ st', StreamGemini true resp cfg pt ct st = (st', inr tt) ∧ written st' = gemini_frames resp cfg pt ct.
Proof.
  intros Hu Hj%jitter_bounded_ok Hst Hm.
  destruct (gemini_runs resp cfg pt ct Hj st) as (st' & res & dn & Hrun & Hw & _ & _ & Hall).
  destruct (Hall Hu) as [-> ->]. exists st'. by rewrite Hw, Hst.
Qed.

End handlers.


(** ** Examples *)

#[local] Existing Instance canonical_range.
#[local] Existing Instance ex_heap.
#[local] Existing Instance ascii_go_lower.
#[local] Existing Instance ScenarioMatcher.literal_regexp.
#[local] Existing Instance literal_template.
#[local] Existing Instance plain_fmt.
#[local] Existing Instance amd64_conv.
#[local] Existing Instance half_rand.
#[local] Existing Instance plain_texts.

#[local] Instance ex_rand2 : GoRandV2.
Proof.
  refine {| rng2 := unit; Int64N n g := (0%Z, g); NormFloat64_2 g := (f64_zero, g) |}.
  intros n g Hn. simpl. lia.
Defined.
#[local] Instance ex_gomath : GoMath := {| Log x := x; Exp x := x |}.
#[local] Instance ex_upper : GoUpper := λ s, s.
#[local] Instance ex_sjson : StructuredOutput.SchemaJson :=
  {| StructuredOutput.JsonValid _ := true; StructuredOutput.JsonMarshal _ := Some "{}" |}.
#[local] Instance ex_faults : Faults string := λ _, None.

(** A tool result's name and content join the text of its turn, the model's turns are
    the assistant's, and an empty system instruction is left out. *)
Example contents_cases :
  convertGeminiContents
    [mkGContent "user" [mkGPart "look" None None; mkGPart "" None (Some (mkGFunctionResponse "search" [("hits", VNil)]))];
     mkGContent "model" [mkGPart "" (Some (mkGFunctionCall "search" [])) None]]%string
    (Some (mkGContent "" [mkGPart "" None None])) =
  [mkRequestMessage "user" "look search {}" 0; mkRequestMessage "assistant" "" 0]%string.
Proof. by vm_compute. Qed.

(** The path needs a model before its first colon. *)
Example path_cases :
  cut_colon "gemini-1.5-pro:generateContent" = Some ("gemini-1.5-pro", "generateContent")%string ∧
  cut_colon "gemini-1.5-pro" = None ∧ cut_colon ":x:y" = Some (""%string, "x:y"%string).
Proof. by vm_compute. Qed.

Definition ex_grequest : GeminiRequest :=
  mkGRequest [mkGContent "user" [mkGPart "weather?" None None]] None [] [].

Definition ex_genv : GeminiEnv := mkGeminiEnv ex_env None 255 true (mkStreamSt 0 [] () ()).

Definition ex_ghttp : HttpRequest := mkHttpRequest "/v1beta/models/x" {["X-Api-Key" := "k"]}%string "{}" None "".

Definition is_document (answer : reply gemini_body (@stream_st geminiStreamResponse ex_rand2 * (@StreamError string + unit))) : bool :=
  match answer with JSON _ _ (GeminiDocument _) => true | _ => false end.

