(* ===== verification/BoundedStore.v ===== *)
(** Stores that forget their oldest entries: a map, and the order its keys were
    inserted in. The file, batch and response stores of [internal/adapter] keep one of
    these each, two of them per tenant, and share the eviction loop. The specification
    is the list of the entries that are kept, oldest first. *)

From S2P Require Import Prelude GoBase.

(** ** Newest first *)

(** The order of the listings: by creation time, then by id, both descending. *)
Definition newer_first (a b : Z * string) : Prop := (b.1 < a.1)%Z ∨ a.1 = b.1 ∧ String.le b.2 a.2.

#[export] Instance newer_first_dec : RelDecision newer_first.
Proof. intros a b. unfold newer_first. apply _. Defined.
#[export] Instance newer_first_trans : Transitive newer_first.
Proof.
  intros [t i] [u j] [v k]. unfold newer_first. simpl. intros [?|[-> Hij]] [?|[? Hjk]]; [left; lia|left; lia|by left|].
  right. split; [done|]. by etransitivity.
Qed.
#[export] Instance newer_first_total : base.Total newer_first.
Proof.
  intros [t i] [u j]. unfold newer_first. simpl. destruct (Z.lt_trichotomy t u) as [?|[->|?]]; [by right; left| |by left; left].
  destruct (total String.le i j); [right|left]; by right.
Qed.
#[export] Instance newer_first_antisymm : AntiSymm (=) newer_first.
Proof.
  intros [t i] [u j]. unfold newer_first. simpl. intros [?|[-> Hij]] [?|[? Hji]]; try lia. f_equal.
  by apply (anti_symm String.le).
Qed.

Section store.
Context {V : Type}.
Implicit Types (m : gmap string V) (order : list string) (kept : list (string * V)).

(** The eviction loop; an order is shorter after every turn, so its length is enough
    fuel. *)
Fixpoint evict_oldest (cap fuel : nat) (m : gmap string V) (order : list string)
  : gmap string V * list string :=
  match fuel with
  | O => (m, order)
  | S fuel =>
      if decide (cap < length order) then
        match order with
        | [] => (m, order)
        | oldest :: order => evict_oldest cap fuel (delete oldest m) order
        end
      else (m, order)
  end.

(** ** The entries kept *)

(** An entry is stored: in the place of one with its id, else as the newest. *)
Definition keep (cap : nat) (id : string) (v : V) (kept : list (string * V)) : list (string * V) :=
  if decide (id ∈ kept.*1) then (λ p, if decide (p.1 = id) then (id, v) else p) <$> kept
  else last_n cap (kept ++ [(id, v)]).

Definition find_kept (id : string) (kept : list (string * V)) : option V :=
  snd <$> find (λ p, bool_decide (p.1 = id)) kept.

Definition forget (id : string) (kept : list (string * V)) : list (string * V) :=
  filter (λ p, p.1 ≠ id) kept.

(** A map and an order hold a list of entries. *)
Definition holds (cap : nat) (kept : list (string * V)) (m : gmap string V) (order : list string) : Prop :=
  m = list_to_map kept ∧ order = kept.*1 ∧ NoDup kept.*1 ∧ length kept ≤ cap.

Lemma last_n_fmap {A B} (f : A → B) n (l : list A) : last_n n (f <$> l) = f <$> last_n n l.
Proof. unfold last_n. by rewrite length_fmap, fmap_drop. Qed.

Lemma last_n_NoDup {A} n (l : list A) : NoDup l → NoDup (last_n n l).
Proof. intros H. eapply sublist_NoDup; [exact H|]. apply sublist_drop. Qed.

Lemma find_kept_lookup id kept : find_kept id kept = (list_to_map kept : gmap string V) !! id.
Proof.
  induction kept as [|[k v] kept IH]; [done|]. unfold find_kept. simpl. case_bool_decide as Hk.
  - subst k. by rewrite lookup_insert_eq.
  - rewrite lookup_insert_ne by done. exact IH.
Qed.

Lemma delete_first k v kept : k ∉ kept.*1 →
  delete k (list_to_map ((k, v) :: kept) : gmap string V) = list_to_map kept.
Proof. intros Hk. simpl. rewrite delete_insert_eq. apply delete_id. by apply not_elem_of_list_to_map_1. Qed.

(** The loop drops the oldest entries, down to the cap. *)
Lemma evict_oldest_holds cap fuel kept : NoDup kept.*1 → length kept ≤ fuel →
  evict_oldest cap fuel (list_to_map kept) kept.*1 = (list_to_map (last_n cap kept), (last_n cap kept).*1).
Proof.
  revert kept. induction fuel as [|fuel IH]; intros kept Hnd Hl; [by destruct kept; [|simpl in Hl; lia]|].
  cbn [evict_oldest]. rewrite length_fmap. unfold last_n. case_decide as Hc; cycle 1.
  { by replace (length kept - cap) with 0 by lia. }
  destruct kept as [|[k v] kept]; [simpl in Hc; lia|]. rewrite fmap_cons in *. cbn [fst].
  apply NoDup_cons in Hnd as [Hk Hnd]. rewrite delete_first by done. rewrite IH by (done || simpl in Hl; lia).
  unfold last_n. cbn [length] in *. by replace (S (length kept) - cap) with (S (length kept - cap)) by lia.
Qed.

(** Evicting before the new entry is inserted, as two of the stores do. *)
Lemma evict_before_insert cap fuel id v kept : 0 < cap → NoDup kept.*1 → id ∉ kept.*1 →
  length kept < fuel →
  let '(m, order) := evict_oldest cap fuel (list_to_map kept) (kept.*1 ++ [id]) in
  <[id := v]> m = list_to_map (last_n cap (kept ++ [(id, v)])) ∧ order = (last_n cap (kept ++ [(id, v)])).*1.
Proof.
  intros Hcap. revert fuel. induction kept as [|[k w] kept IH]; intros fuel Hnd Hid Hl;
    (destruct fuel as [|fuel]; [simpl in Hl; lia|]); cbn [evict_oldest].
  { rewrite decide_False by (simpl; lia). unfold last_n. simpl. by replace (1 - cap) with 0 by lia. }
  rewrite length_app, length_fmap. unfold last_n. rewrite length_app. cbn [length].
  case_decide as Hc; cycle 1.
  { replace (S (length kept) + 1 - cap) with 0 by lia. rewrite drop_0, fmap_app. split; [|done].
    symmetry. apply list_to_map_snoc. exact Hid. }
  rewrite fmap_cons in *. cbn [fst app] in *. apply NoDup_cons in Hnd as [Hk Hnd].
  rewrite delete_first by done. rewrite not_elem_of_cons in Hid. destruct Hid as [Hne Hid].
  specialize (IH fuel Hnd Hid ltac:(simpl in Hl; lia)). unfold last_n in IH. rewrite length_app in IH. cbn [length] in IH.
  by replace (S (length kept) + 1 - cap) with (S (length kept + 1 - cap)) by lia.
Qed.

Lemma keep_keys cap id v kept : id ∈ kept.*1 → (keep cap id v kept).*1 = kept.*1.
Proof.
  intros H. unfold keep. rewrite decide_True by done. rewrite <-list_fmap_compose. apply list_fmap_ext.
  intros i p _. simpl. by case_decide.
Qed.

Lemma replace_map id v kept : NoDup kept.*1 → id ∈ kept.*1 →
  <[id := v]> (list_to_map kept : gmap string V) =
    list_to_map ((λ p : string * V, if decide (p.1 = id) then (id, v) else p) <$> kept).
Proof.
  induction kept as [|[k w] kept IH]; [by intros _ ?%elem_of_nil|]. rewrite !fmap_cons. cbn [fst].
  intros [Hk Hnd]%NoDup_cons Hid. destruct (decide (k = id)) as [->|Hne].
  - simpl. rewrite insert_insert_eq. f_equal. f_equal.
    rewrite <-(list_fmap_id kept) at 1. apply list_fmap_ext. intros i [j u] Hi. simpl. rewrite decide_False; [done|].
    intros ->. apply Hk. apply list_elem_of_fmap. exists (id, u). split; [done|]. by eapply list_elem_of_lookup_2.
  - apply elem_of_cons in Hid as [?|Hid]; [congruence|]. simpl.
    rewrite <-IH by done. by rewrite insert_insert_ne by congruence.
Qed.

Lemma holds_keep cap id v kept m order : 0 < cap → holds cap kept m order →
  holds cap (keep cap id v kept)
    (<[id := v]> (if decide (id ∈ dom m) then (m, order) else evict_oldest cap (S (length order)) m (order ++ [id])).1)
    (if decide (id ∈ dom m) then (m, order) else evict_oldest cap (S (length order)) m (order ++ [id])).2.
Proof.
  intros Hcap (-> & -> & Hnd & Hl). rewrite dom_list_to_map_L.
  destruct (decide (id ∈ kept.*1)) as [Hid|Hid].
  - rewrite decide_True by by apply elem_of_list_to_set. pose proof (keep_keys cap id v kept Hid) as Hkeys.
    split_and!; [|done|by rewrite Hkeys|].
    + unfold keep. rewrite decide_True by done. by apply replace_map.
    + by rewrite <-(length_fmap fst), Hkeys, length_fmap.
  - rewrite decide_False by by rewrite elem_of_list_to_set. unfold keep. rewrite decide_False by done.
    pose proof (evict_before_insert cap (S (length kept.*1)) id v kept Hcap Hnd Hid ltac:(rewrite length_fmap; lia)) as H.
    destruct (evict_oldest _ _ _ _) as [m' order']. destruct H as [Hm Ho]. split_and!; [done|done| |apply last_n_length].
    rewrite <-last_n_fmap, fmap_app. apply last_n_NoDup. apply NoDup_app. split; [done|].
    split; [by intros x Hx ->%list_elem_of_singleton|]. apply NoDup_singleton.
Qed.

(** Evicting after the new entry was inserted, as the batch store does, where the id is
    new. *)
Lemma holds_append cap id v kept m order : holds cap kept m order → id ∉ kept.*1 →
  let '(m', order') := evict_oldest cap (S (length order)) (<[id := v]> m) (order ++ [id]) in
  holds cap (keep cap id v kept) m' order'.
Proof.
  intros (-> & -> & Hnd & Hl) Hid. unfold keep. rewrite decide_False by done.
  rewrite <-list_to_map_snoc by done. replace (kept.*1 ++ [id]) with (kept ++ [(id, v)]).*1 by by rewrite fmap_app.
  assert (NoDup (kept ++ [(id, v)]).*1) as Hnd'.
  { rewrite fmap_app. apply NoDup_app. split; [done|].
    split; [by intros x Hx ->%list_elem_of_singleton|]. apply NoDup_singleton. }
  rewrite evict_oldest_holds; [|done|rewrite length_app, length_fmap; simpl; lia].
  split_and!; [done|done|by rewrite <-last_n_fmap; apply last_n_NoDup|apply last_n_length].
Qed.

(** [append(order[:i:i], order[i+1:]...)] at the first place of an id. *)
Fixpoint cut_id (id : string) (order : list string) : list string :=
  match order with
  | [] => []
  | oid :: order => if decide (oid = id) then order else oid :: cut_id id order
  end.

Lemma cut_id_filter id kept : NoDup kept.*1 → cut_id id kept.*1 = (forget id kept).*1.
Proof.
  unfold forget. induction kept as [|[k v] kept IH]; [done|]. rewrite fmap_cons. intros [Hk Hnd]%NoDup_cons.
  simpl. case_decide as He.
  - subst k. rewrite filter_cons_False by (simpl; naive_solver). rewrite <-IH by done. clear IH Hnd.
    induction kept as [|[j w] kept IH]; [done|]. rewrite fmap_cons in *. simpl in *.
    apply not_elem_of_cons in Hk as [Hne Hk]. rewrite decide_False by done. by rewrite <-IH by done.
  - rewrite filter_cons_True by done. simpl. by rewrite IH.
Qed.

Lemma holds_forget cap id kept m order : holds cap kept m order →
  holds cap (forget id kept) (delete id m) (cut_id id order).
Proof.
  intros (-> & -> & Hnd & Hl). split_and!.
  - unfold forget. clear Hnd Hl. induction kept as [|[k v] kept IH]; [apply delete_empty|]. simpl.
    destruct (decide (k = id)) as [->|Hne].
    + rewrite filter_cons_False by (simpl; naive_solver). by rewrite delete_insert_eq, IH.
    + rewrite filter_cons_True by done. simpl. by rewrite delete_insert_ne, IH.
  - by apply cut_id_filter.
  - eapply sublist_NoDup; [exact Hnd|]. apply fmap_sublist, sublist_filter.
  - unfold forget. pose proof (length_filter (λ p : string * V, p.1 ≠ id) kept). lia.
Qed.

Lemma holds_lookup cap kept m order id : holds cap kept m order → m !! id = find_kept id kept.
Proof. intros (-> & _). by rewrite find_kept_lookup. Qed.

Lemma find_kept_None id kept : find_kept id kept = None → id ∉ kept.*1.
Proof. rewrite find_kept_lookup. apply not_elem_of_list_to_map. Qed.

Lemma find_kept_app id l1 l2 :
  find_kept id (l1 ++ l2) = match find_kept id l1 with Some v => Some v | None => find_kept id l2 end.
Proof.
  unfold find_kept. induction l1 as [|[k v] l1 IH]; [done|]. simpl. by case_bool_decide.
Qed.

Lemma last_n_snoc {A} n (l : list A) x : last_n (S n) (l ++ [x]) = last_n n l ++ [x].
Proof.
  unfold last_n. rewrite length_app. cbn [length]. rewrite drop_app_le by lia. do 2 f_equal. lia.
Qed.

(** An entry with a new id is still kept after the next one was stored. *)
Lemma find_kept_next cap id v id' v' kept : 2 ≤ cap → find_kept id kept = None → id ≠ id' →
  find_kept id (keep cap id' v' (keep cap id v kept)) = Some v.
Proof.
  intros Hcap Hnew Hne. pose proof (find_kept_None _ _ Hnew) as Hid.
  assert (∀ (l : list (string * V)), find_kept id ((λ p : string * V, if decide (p.1 = id') then (id', v') else p) <$> l) = find_kept id l) as Hmap.
  { intros l. induction l as [|[k u] l IH]; [done|]. rewrite fmap_cons. unfold find_kept in *. simpl. destruct (decide (k = id')) as [->|].
    - simpl. rewrite !bool_decide_false by congruence. exact IH.
    - simpl. by case_bool_decide. }
  assert (∀ n (l : list (string * V)), find_kept id l = None → find_kept id (last_n n l) = None) as Hdrop.
  { intros n l Hl. unfold last_n. rewrite <-(take_drop (length l - n) l), find_kept_app in Hl.
    by destruct (find_kept id (take _ l)). }
  destruct cap as [|[|cap]]; [lia..|].
  assert (find_kept id [(id, v)] = Some v) as Hone by (unfold find_kept; simpl; by rewrite bool_decide_true).
  unfold keep at 1. destruct (decide (id' ∈ _)); [rewrite Hmap|rewrite last_n_snoc]; unfold keep;
    rewrite decide_False, !last_n_snoc by done.
  - by rewrite find_kept_app, Hdrop.
  - by rewrite !find_kept_app, !Hdrop, Hone by auto.
Qed.

Lemma holds_empty cap : holds cap [] ∅ [].
Proof. split_and!; [done|done|constructor|simpl; lia]. Qed.

(** The listing of a store does not depend on the order the map is visited in. *)
Lemma listing_kept {mr : MapRange} (key : V → Z * string) cap kept m order :
  holds cap kept m order → (∀ p, p ∈ kept → (key p.2).2 = p.1) →
  sort_by key newer_first (range m).*2 = sort_by key newer_first kept.*2.
Proof.
  intros (-> & _ & Hnd & _) Hkey.
  assert ((range (list_to_map kept : gmap string V)).*2 ≡ₚ kept.*2) as Hp.
  { apply fmap_Permutation. rewrite range_perm. by apply map_to_list_to_map. }
  apply (sorted_perm_unique key newer_first); [|(apply sort_by_sorted; apply _)..|by rewrite !sort_by_perm].
  intros x y. rewrite !elem_of_sort_by, Hp, !list_elem_of_fmap. intros ([i u] & -> & Hx) ([j w] & -> & Hy) Heq.
  pose proof (Hkey _ Hx) as Hi. pose proof (Hkey _ Hy) as Hj. simpl in *. rewrite Heq, Hj in Hi. subst j.
  by eapply NoDup_fst_inj.
Qed.

Lemma elem_of_keep cap id v kept p : p ∈ keep cap id v kept → p = (id, v) ∨ p ∈ kept.
Proof.
  unfold keep. case_decide as Hid.
  - intros (q & -> & Hq)%list_elem_of_fmap. case_decide; [by left|by right].
  - unfold last_n. intros Hp. assert (p ∈ kept ++ [(id, v)]) as Hp' by (eapply elem_of_submseteq; [exact Hp|]; apply sublist_submseteq, sublist_drop).
    apply elem_of_app in Hp' as [?|Hp']; [by right|]. left. by apply list_elem_of_singleton in Hp'.
Qed.
End store.
