(* ===== verification/Files.v ===== *)
(** The OpenAI Files API, [internal/adapter/files.go]: an in-memory store of files per
    tenant that forgets a tenant's oldest file past a cap, and the five handlers over it.

    The stored entries are never written to, so an entry stands for the pointer the
    code keeps. [r.ParseMultipartForm] is an argument: what it makes of a request under
    a limit. The path value and the query parameter are arguments too. *)

From S2P Require Import Prelude GoBase AgentTypes ToolProcessor AdapterCore BoundedStore.
From S2P Require Capture.

Definition ProtocolOpenAIFiles : string := "openai-files".

(** 50 MiB. *)
Definition maxFileBytes : Z := 52428800.
Definition maxFilesPerTenant : nat := 256.

(** ** The store *)

Record fileEntry := mkFileEntry {
  fe_ID : string;
  fe_Bytes : Z;
  fe_CreatedAt : Z;
  fe_Filename : string;
  fe_Purpose : string;
  fe_data : string
}.

Record fileStore := mkFileStore {
  fs_m : gmap string (gmap string fileEntry);    (* tenant -> id -> entry *)
  fs_order : gmap string (list string)           (* tenant -> insertion order *)
}.

Definition newFileStore : fileStore := mkFileStore ∅ ∅.

Definition put (tenant : string) (e : fileEntry) (s : fileStore) : fileStore :=
  let byID := default ∅ (fs_m s !! tenant) in
  let ids := default [] (fs_order s !! tenant) in
  if decide (fe_ID e ∈ dom byID) then mkFileStore (<[tenant := <[fe_ID e := e]> byID]> (fs_m s)) (fs_order s)
  else
    let '(byID, ids) := evict_oldest maxFilesPerTenant (S (length ids)) byID (ids ++ [fe_ID e]) in
    mkFileStore (<[tenant := <[fe_ID e := e]> byID]> (fs_m s)) (<[tenant := ids]> (fs_order s)).

Definition get (tenant id : string) (s : fileStore) : option fileEntry := lookup2 (fs_m s) tenant id.

Definition created_id (e : fileEntry) : Z * string := (fe_CreatedAt e, fe_ID e).

Definition list_files {mr : MapRange} (tenant : string) (s : fileStore) : list fileEntry :=
  sort_by created_id newer_first (range (default ∅ (fs_m s !! tenant))).*2.

Definition delete_file (tenant id : string) (s : fileStore) : fileStore * bool :=
  let byID := default ∅ (fs_m s !! tenant) in
  if decide (id ∈ dom byID) then
    let ids := default [] (fs_order s !! tenant) in
    (mkFileStore (<[tenant := delete id byID]> (fs_m s))
       (if decide (id ∈ ids) then <[tenant := cut_id id ids]> (fs_order s) else fs_order s), true)
  else (s, false).

(** ** The handlers *)

Record fileObject := mkFileObject {
  fo_ID : string; fo_Object : string; fo_Bytes : Z; fo_CreatedAt : Z;
  fo_Filename : string; fo_Purpose : string; fo_Status : string
}.

Definition wire (e : fileEntry) : fileObject :=
  mkFileObject (fe_ID e) "file" (fe_Bytes e) (fe_CreatedAt e) (fe_Filename e) (fe_Purpose e) "processed".

Inductive files_body :=
| FileObject (o : fileObject)
| FileList (data : list fileObject)
| FileContent (data : string)              (* raw bytes, not a document *)
| FileDeleted (id : string)
| FileError (type message : string).

Abbreviation files_reply := (reply files_body Empty_set).

Definition file_error (status : Z) (type message : string) : files_reply :=
  writeJSON ∅ status (FileError type message).

Definition writeFileNotFound (id : string) : files_reply :=
  file_error 404 "invalid_request_error" ("No such File object: " +:+ id).

Definition stampProtocol (protocol : string) (meta : option RequestMeta) : option RequestMeta :=
  set_protocol protocol meta.

(** A parsed form: the values of its fields, and its file with the name its part gives
    and the bytes, or the error reading them. *)
Inductive form_error := FormTooLarge | NotAForm.

Record UploadForm := mkUploadForm {
  uf_values : gmap string string;
  uf_file : option (string * (form_error + string))
}.

Definition HandleUpload (ParseMultipartForm : Z → HttpRequest → form_error + UploadForm) (now draw : Z)
    (r : HttpRequest) (meta : option RequestMeta) (s : fileStore)
  : fileStore * option RequestMeta * files_reply :=
  let meta := stampProtocol ProtocolOpenAIFiles meta in
  let tenant := hr_tenant r in
  match ParseMultipartForm (maxFileBytes + 1048576)%Z r with
  | inl FormTooLarge => (s, meta, file_error 413 "invalid_request_error" "uploaded file too large")
  | inl NotAForm =>
      (s, meta, file_error 400 "invalid_request_error" "request must be multipart/form-data with a file and a purpose")
  | inr form =>
      let purpose := default "" (uf_values form !! "purpose") in
      if decide (purpose = "") then (s, meta, file_error 400 "invalid_request_error" "purpose is required")
      else
        match uf_file form with
        | None => (s, meta, file_error 400 "invalid_request_error" "file is required")
        | Some (_, inl FormTooLarge) => (s, meta, file_error 413 "invalid_request_error" "uploaded file too large")
        | Some (_, inl NotAForm) => (s, meta, file_error 400 "invalid_request_error" "could not read uploaded file")
        | Some (header_filename, inr data) =>
            let filename := if decide (header_filename = "") then "upload"%string else header_filename in
            let e := mkFileEntry ("file-" +:+ generateID draw) (Z.of_nat (String.length data)) now filename purpose data in
            (put tenant e s, meta, writeJSON ∅ 200 (FileObject (wire e)))
        end
  end.

Definition HandleList {mr : MapRange} (purposeFilter : string) (r : HttpRequest) (meta : option RequestMeta)
    (s : fileStore) : fileStore * option RequestMeta * files_reply :=
  let entries := list_files (hr_tenant r) s in
  let data := wire <$> filter (λ e, purposeFilter = "" ∨ fe_Purpose e = purposeFilter) entries in
  (s, stampProtocol ProtocolOpenAIFiles meta, writeJSON ∅ 200 (FileList data)).

Definition HandleRetrieve (id : string) (r : HttpRequest) (meta : option RequestMeta) (s : fileStore)
  : fileStore * option RequestMeta * files_reply :=
  (s, stampProtocol ProtocolOpenAIFiles meta,
   match get (hr_tenant r) id s with
   | None => writeFileNotFound id
   | Some e => writeJSON ∅ 200 (FileObject (wire e))
   end).

Definition HandleContent (id : string) (r : HttpRequest) (meta : option RequestMeta) (s : fileStore)
  : fileStore * option RequestMeta * files_reply :=
  (s, stampProtocol ProtocolOpenAIFiles meta,
   match get (hr_tenant r) id s with
   | None => writeFileNotFound id
   | Some e => JSON 200 {["Content-Type" := "application/octet-stream"]} (FileContent (fe_data e))
   end).

Definition HandleDelete (id : string) (r : HttpRequest) (meta : option RequestMeta) (s : fileStore)
  : fileStore * option RequestMeta * files_reply :=
  let '(s, existed) := delete_file (hr_tenant r) id s in
  (s, stampProtocol ProtocolOpenAIFiles meta,
   if existed then writeJSON ∅ 200 (FileDeleted id) else writeFileNotFound id).

(** ** The files of a tenant

    The specification of the store: the files a tenant has kept, oldest first. *)

Definition kept_files := list (string * fileEntry).

Definition entry_keys (kept : kept_files) : Prop := ∀ p, p ∈ kept → fe_ID p.2 = p.1.

Definition store_holds (K : string → kept_files) (s : fileStore) : Prop := ∀ t,
  holds maxFilesPerTenant (K t) (default ∅ (fs_m s !! t)) (default [] (fs_order s !! t)) ∧ entry_keys (K t).

#[local] Opaque maxFilesPerTenant.

Lemma store_holds_put K s tenant e : store_holds K s →
  store_holds (λ t, if decide (t = tenant) then keep maxFilesPerTenant (fe_ID e) e (K t) else K t) (put tenant e s).
Proof.
  intros HK t. destruct (HK t) as [Ht Hkeys]. cbv beta.
  destruct (decide (t = tenant)) as [->|Hne]; cycle 1.
  { unfold put. case_decide; [|destruct (evict_oldest _ _ _ _)]; cbn [fs_m fs_order];
      rewrite ?lookup_insert_ne by congruence; done. }
  split; [|intros p [->|Hp]%elem_of_keep; [done|by apply Hkeys]].
  pose proof (holds_keep maxFilesPerTenant (fe_ID e) e _ _ _ ltac:(by vm_compute; lia) Ht) as Hk.
  unfold put. destruct (decide (fe_ID e ∈ dom _)) as [Hin|Hin]; [cbn [fst snd] in Hk|destruct (evict_oldest _ _ _ _)];
    cbn [fs_m fs_order]; rewrite !lookup_insert_eq; exact Hk.
Qed.

Lemma store_holds_delete K s tenant id : store_holds K s →
  let '(s', existed) := delete_file tenant id s in
  existed = bool_decide (id ∈ (K tenant).*1) ∧
  store_holds (λ t, if decide (t = tenant) then forget id (K t) else K t) s'.
Proof.
  intros HK. destruct (HK tenant) as [Ht _]. unfold delete_file.
  assert (id ∈ dom (default ∅ (fs_m s !! tenant)) ↔ id ∈ (K tenant).*1) as Hdom.
  { destruct Ht as (-> & _). rewrite dom_list_to_map_L. apply elem_of_list_to_set. }
  assert (default [] (fs_order s !! tenant) = (K tenant).*1) as Hord by apply Ht.
  destruct (decide (id ∈ dom _)) as [Hin|Hin].
  - apply Hdom in Hin as Hid. split; [by rewrite bool_decide_true|]. rewrite Hord, decide_True by done.
    intros t. destruct (HK t) as [Hh Hkeys]. destruct (decide (t = tenant)) as [->|Hne].
    + cbn [fs_m fs_order]. rewrite !lookup_insert_eq. cbn [default]. rewrite <-Hord. split; [by apply holds_forget|].
      intros p [_ Hp]%list_elem_of_filter. by apply Hkeys.
    + cbn [fs_m fs_order]. by rewrite !lookup_insert_ne by congruence.
  - rewrite Hdom in Hin. split; [by rewrite bool_decide_false|]. intros t. destruct (HK t) as [Hh Hkeys].
    case_decide as Heq; [|done]. subst t. unfold forget. rewrite filter_all; [done|].
    intros p Hp <-. apply Hin. by apply list_elem_of_fmap_2.
Qed.

Lemma get_kept K s tenant id : store_holds K s → get tenant id s = find_kept id (K tenant).
Proof.
  intros HK. destruct (HK tenant) as [Ht _]. rewrite <-(holds_lookup _ _ _ _ id Ht).
  unfold get, lookup2. by destruct (fs_m s !! tenant).
Qed.

Lemma list_kept {mr : MapRange} K s tenant : store_holds K s →
  list_files tenant s = sort_by created_id newer_first (K tenant).*2.
Proof. intros HK. destruct (HK tenant) as [Ht Hk]. by eapply listing_kept. Qed.

Definition files_ok (s : fileStore) : Prop := ∃ K, store_holds K s.

Lemma files_ok_put tenant e s : files_ok s → files_ok (put tenant e s).
Proof. intros [K HK]. eexists. by apply store_holds_put. Qed.

Lemma files_ok_new : files_ok newFileStore.
Proof.
  exists (λ _, []). intros t. split; [|by intros p ?%elem_of_nil].
  cbn [newFileStore fs_m fs_order]. rewrite !lookup_empty. apply holds_empty.
Qed.

Lemma get_put tenant e s : get tenant (fe_ID e) (put tenant e s) = Some e.
Proof.
  unfold get, put, lookup2. case_decide; [|destruct (evict_oldest _ _ _ _)]; cbn [fs_m];
    rewrite lookup_insert_eq; cbn [mbind option_bind]; apply lookup_insert_eq.
Qed.

Lemma get_put_tenant t tenant id e s : t ≠ tenant → get t id (put tenant e s) = get t id s.
Proof.
  intros Hne. unfold get, put, lookup2. by case_decide; [|destruct (evict_oldest _ _ _ _)]; cbn [fs_m];
    rewrite lookup_insert_ne by congruence.
Qed.

(** A file with a new id outlasts the next upload. *)
Lemma get_put_next tenant e e' s : files_ok s → get tenant (fe_ID e) s = None → fe_ID e ≠ fe_ID e' →
  get tenant (fe_ID e) (put tenant e' (put tenant e s)) = Some e.
Proof.
  intros [K HK] Hnew Hne. rewrite (get_kept K _ _ _ HK) in Hnew.
  rewrite (get_kept _ _ _ _ (store_holds_put _ _ tenant e' (store_holds_put _ _ tenant e HK))). cbv beta.
  rewrite !decide_True by done. apply find_kept_next; [by vm_compute; lia|done|done].
Qed.

(** ** Histories *)

Inductive file_op :=
| OpUpload (r : HttpRequest) (parsed : form_error + UploadForm) (now draw : Z)
| OpList (r : HttpRequest) (purpose : string)
| OpRetrieve (r : HttpRequest) (id : string)
| OpContent (r : HttpRequest) (id : string)
| OpDelete (r : HttpRequest) (id : string).

Definition op_tenant (op : file_op) : string :=
  match op with
  | OpUpload r _ _ _ | OpList r _ | OpRetrieve r _ | OpContent r _ | OpDelete r _ => hr_tenant r
  end.

Section history.
Context {mr : MapRange}.

Definition file_step (op : file_op) (s : fileStore) : fileStore * files_reply :=
  let '(s, _, answer) :=
    match op with
    | OpUpload r parsed now draw => HandleUpload (λ _ _, parsed) now draw r None s
    | OpList r purpose => HandleList purpose r None s
    | OpRetrieve r id => HandleRetrieve id r None s
    | OpContent r id => HandleContent id r None s
    | OpDelete r id => HandleDelete id r None s
    end in (s, answer).

(** The answers, each with the tenant it went to. *)
Fixpoint run_files (ops : list file_op) (s : fileStore) : list (string * files_reply) :=
  match ops with
  | [] => []
  | op :: ops => let '(s, answer) := file_step op s in (op_tenant op, answer) :: run_files ops s
  end.

(** The file an accepted upload stores. *)
Definition uploaded (parsed : form_error + UploadForm) (now draw : Z) : option fileEntry :=
  match parsed with
  | inr (mkUploadForm values (Some (name, inr data))) =>
      let purpose := default "" (values !! "purpose") in
      if decide (purpose = "") then None
      else Some (mkFileEntry ("file-" +:+ generateID draw) (Z.of_nat (String.length data)) now
                   (if decide (name = "") then "upload" else name) purpose data)%string
  | _ => None
  end.

(** What a tenant sees: an accepted upload is answered with its object and kept, the
    others are refused; a lookup, a download and a deletion find exactly the files kept,
    and the list has those of the purpose, the newest first. *)
Definition file_spec (op : file_op) (kept : kept_files) : kept_files * (files_reply → Prop) :=
  match op with
  | OpUpload _ parsed now draw =>
      match uploaded parsed now draw with
      | Some e => (keep maxFilesPerTenant (fe_ID e) e kept, eq (writeJSON ∅ 200 (FileObject (wire e))))
      | None => (kept, λ a, ∃ status message, status ∈ [400; 413]%Z ∧ a = file_error status "invalid_request_error" message)
      end
  | OpList _ purpose =>
      (kept, eq (writeJSON ∅ 200 (FileList (wire <$>
        filter (λ e, purpose = "" ∨ fe_Purpose e = purpose) (sort_by created_id newer_first kept.*2)))))
  | OpRetrieve _ id =>
      (kept, eq (match find_kept id kept with
                 | Some e => writeJSON ∅ 200 (FileObject (wire e)) | None => writeFileNotFound id end))
  | OpContent _ id =>
      (kept, eq (match find_kept id kept with
                 | Some e => JSON 200 {["Content-Type" := "application/octet-stream"]} (FileContent (fe_data e))
                 | None => writeFileNotFound id end))
  | OpDelete _ id =>
      (forget id kept, eq (if decide (id ∈ kept.*1) then writeJSON ∅ 200 (FileDeleted id) else writeFileNotFound id))
  end.

Fixpoint spec_answers (ops : list file_op) (kept : kept_files) : list (files_reply → Prop) :=
  match ops with
  | [] => []
  | op :: ops => let '(kept, answer) := file_spec op kept in answer :: spec_answers ops kept
  end.

Lemma file_step_spec K s op : store_holds K s →
  let '(s', answer) := file_step op s in
  let '(kept, ok) := file_spec op (K (op_tenant op)) in
  ok answer ∧ store_holds (λ t, if decide (t = op_tenant op) then kept else K t) s'.
Proof.
  intros HK. assert (∀ tenant, store_holds (λ t, if decide (t = tenant) then K tenant else K t) s) as Hsame.
  { intros tenant t. cbv beta. case_decide; [subst|]; apply HK. }
  unfold file_step. destruct op as [r parsed now draw|r purpose|r id|r id|r id]; cbn [file_spec op_tenant].
  - unfold HandleUpload, uploaded. destruct parsed as [[]|[values [[name [[]|data]]|]]]; cbn [uf_values uf_file].
    1-2: (split; [|by apply Hsame]; eexists _, _; split; [|done]; set_solver).
    1,2,4: (case_decide; (split; [|by apply Hsame]; eexists _, _; split; [|done]; set_solver)).
    case_decide; [split; [|by apply Hsame]; eexists _, _; split; [|done]; set_solver|].
    split; [done|]. intros t. specialize (store_holds_put K s (hr_tenant r)
      (mkFileEntry ("file-" +:+ generateID draw) (Z.of_nat (String.length data)) now
                   (if decide (name = "") then "upload" else name) (default "" (values !! "purpose")) data)%string HK t).
    cbv beta. by case_decide; [subst|].
  - unfold HandleList. split; [|by apply Hsame]. by rewrite (list_kept K).
  - unfold HandleRetrieve. split; [|by apply Hsame]. by rewrite (get_kept K).
  - unfold HandleContent. split; [|by apply Hsame]. by rewrite (get_kept K).
  - unfold HandleDelete. pose proof (store_holds_delete K s (hr_tenant r) id HK) as H.
    destruct (delete_file (hr_tenant r) id s) as [s' existed]. destruct H as [-> H]. split.
    + by case_bool_decide; case_decide.
    + intros t. specialize (H t). cbv beta in *. by case_decide; [subst|].
Qed.

Lemma run_files_spec ops K s t : store_holds K s →
  Forall2 (λ ok answer, ok answer)
    (spec_answers (filter (λ op, op_tenant op = t) ops) (K t))
    (snd <$> filter (λ a, a.1 = t) (run_files ops s)).
Proof.
  revert K s. induction ops as [|op ops IH]; intros K s HK; [constructor|]. cbn [run_files].
  pose proof (file_step_spec K s op HK) as Hstep. destruct (file_step op s) as [s' answer].
  destruct (file_spec op (K (op_tenant op))) as [kept ok] eqn:Hspec. destruct Hstep as [Hok HK'].
  specialize (IH _ s' HK'). destruct (decide (op_tenant op = t)) as [Ht|Ht].
  - rewrite !filter_cons_True by done. rewrite fmap_cons. cbn [spec_answers snd]. rewrite <-Ht, Hspec, Ht.
    constructor; [done|]. cbv beta in IH. by rewrite decide_True in IH by done.
  - rewrite !filter_cons_False by done. cbv beta in IH. by rewrite decide_False in IH by done.
Qed.

(** C11: whatever files any tenants upload, list, read and delete, in any interleaving,
    the answers to one tenant are those of a store it has for itself: it keeps the files
    of its accepted uploads until they are deleted or 256 newer ones are kept, lookups
    and downloads find exactly those, with the bytes uploaded, the list has them newest
    first whatever order maps are visited in, and nothing another tenant does is seen. *)
Theorem files_history (ops : list file_op) (tenant : string) :
  Forall2 (λ ok answer, ok answer)
    (spec_answers (filter (λ op, op_tenant op = tenant) ops) [])
    (snd <$> filter (λ a, a.1 = tenant) (run_files ops newFileStore)).
Proof.
  apply (run_files_spec ops (λ _, [])). intros t. split; [|by intros p ?%elem_of_nil].
  cbn [newFileStore fs_m fs_order]. rewrite !lookup_empty. apply holds_empty.
Qed.
End history.

(** ** Example *)

#[local] Existing Instance canonical_range.

Definition ex_upload (tenant : string) (name : string) (now draw : Z) : file_op :=
  OpUpload (mkHttpRequest "/v1/files" ∅ "" None tenant)
    (inr (mkUploadForm {["purpose" := "batch"]} (Some (name, inr "data"))))%string now draw.

(** Two files, newest first; another tenant's file is not found. *)
Example files_case :
  let r := mkHttpRequest "/v1/files" ∅ "" None "t1" in
  (λ a : string * files_reply, match a.2 with
       | JSON s _ (FileList l) => (s, fo_ID <$> l) | JSON s _ _ => (s, []) | _ => (0%Z, []) end) <$>
    run_files [ex_upload "t1" "" 5 1; ex_upload "t2" "x" 6 2; ex_upload "t1" "y" 7 3; OpList r "";
      OpContent r "file-1"; OpContent r "file-2"; OpDelete r "file-1"; OpContent r "file-1"]%string newFileStore =
  [(200, []); (200, []); (200, []); (200, ["file-3"; "file-1"]); (200, []); (404, []); (200, []); (404, [])]%Z%string.
Proof. by vm_compute. Qed.
