(* ===== verification/Batches.v ===== *)
(** The OpenAI Batch API, [internal/adapter/batches.go]: a batch replays the lines of an
    uploaded file through a live endpoint when it is created, and its status is derived
    from the clock whenever it is read.

    The endpoints act on a world [W] of their own. A handler of one is a function of the
    request and the world to the world it leaves and the calls it makes on the response
    writer, or a panic, which passes through the batch as well. [encoding/json] is the
    class [BatchJson]. A time has the wall clock that [Unix] reads and the monotonic
    clock that [Sub] reads. *)

From Stdlib Require Import Ascii.
From S2P Require Import Prelude GoBase GoStrings AgentTypes ToolProcessor Validation AdapterCore BoundedStore Files.
From S2P Require Capture Cassette.

Definition ProtocolOpenAIBatches : string := "openai-batches".
Definition maxBatchRequests : Z := 50000.
Definition maxBatchesPerTenant : nat := 256.
Definition batchExpiryWindow : Z := (24 * Hour)%Z.
Definition batchDelayHeader : string := "X-Mockagents-Batch-Delay-Ms".
Definition maxBatchDelayMs : Z := 600000.

(** ** Times *)

Record GoTime := mkTime { wall : Z; mono : Z }.

Definition TimeAdd (t : GoTime) (d : Z) : GoTime := mkTime (wall t + d) (mono t + d).
Definition TimeSub (t u : GoTime) : Z := time_sub (mono t) (mono u).
Definition Unix (t : GoTime) : Z := (wall t / Second)%Z.

(** ** Wire types *)

Record BatchRequestCounts := mkCounts { bc_Total : Z; bc_Completed : Z; bc_Failed : Z }.

Record Batch := mkBatch {
  bt_ID : string;
  bt_Object : string;
  bt_Endpoint : string;
  bt_Errors : value;
  bt_InputFileID : string;
  bt_CompletionWindow : string;
  bt_Status : string;
  bt_OutputFileID : option string;
  bt_ErrorFileID : option string;
  bt_CreatedAt : Z;
  bt_InProgressAt : option Z;
  bt_ExpiresAt : option Z;
  bt_CompletedAt : option Z;
  bt_FailedAt : option Z;
  bt_CancellingAt : option Z;
  bt_CancelledAt : option Z;
  bt_RequestCounts : BatchRequestCounts;
  bt_Metadata : list (string * value)
}.

Record batchInputLine := mkInputLine { in_CustomID : string; in_Method : string; in_URL : string; in_Body : string }.

Record batchOutputResp := mkOutputResp { or_StatusCode : Z; or_RequestID : string; or_Body : string }.
Record batchOutputError := mkOutputError { oe_Code : string; oe_Message : string }.
Record batchOutputLine := mkOutputLine {
  ol_ID : string; ol_CustomID : string; ol_Response : option batchOutputResp; ol_Error : option batchOutputError
}.

Record createBatchRequest := mkCreateBatch {
  cb_InputFileID : string; cb_Endpoint : string; cb_CompletionWindow : string; cb_Metadata : list (string * value)
}.

(** [json.Unmarshal] and [json.Marshal] at the types the batches use. An object keeps
    its members' texts; a null, like an error, is none. *)
Class BatchJson := {
  ParseLine : string → option batchInputLine;
  MarshalLine : batchOutputLine → option string;
  ParseObject : string → option (gmap string string);
  MarshalObject : gmap string string → option string
}.

(** ** The state of a batch *)

Record batchState := mkBatchState {
  bs_base : Batch;
  bs_createdAt : GoTime;
  bs_delay : Z;
  bs_counts : BatchRequestCounts;
  bs_outputFileID : string;
  bs_errorFileID : string;
  bs_cancelled : bool;
  bs_cancelledAt : GoTime
}.

(** The fields [render] writes; those it leaves have the values of the base. *)
Definition with_status (b : Batch) (status : string) (output error : option string) (completedAt cancelledAt : option Z)
    (counts : BatchRequestCounts) (inProgressAt : Z) : Batch :=
  mkBatch (bt_ID b) (bt_Object b) (bt_Endpoint b) (bt_Errors b) (bt_InputFileID b) (bt_CompletionWindow b)
    status output error (bt_CreatedAt b) (Some inProgressAt) (bt_ExpiresAt b) completedAt
    (bt_FailedAt b) (bt_CancellingAt b) cancelledAt counts (bt_Metadata b).

Definition render (now : GoTime) (st : batchState) : Batch :=
  let b := bs_base st in
  let ip := Unix (bs_createdAt st) in
  if bs_cancelled st then
    with_status b "cancelled" (bt_OutputFileID b) (bt_ErrorFileID b) (bt_CompletedAt b)
      (Some (Unix (bs_cancelledAt st))) (bs_counts st) ip
  else if decide (TimeSub now (bs_createdAt st) < bs_delay st)%Z then
    with_status b "in_progress" (bt_OutputFileID b) (bt_ErrorFileID b) (bt_CompletedAt b) (bt_CancelledAt b)
      (mkCounts (bc_Total (bs_counts st)) 0 0) ip
  else
    with_status b "completed"
      (if decide (bs_outputFileID st = "") then bt_OutputFileID b else Some (bs_outputFileID st))
      (if decide (bs_errorFileID st = "") then bt_ErrorFileID b else Some (bs_errorFileID st))
      (Some (Unix (TimeAdd (bs_createdAt st) (bs_delay st)))) (bt_CancelledAt b) (bs_counts st) ip.

(** The status after the call, and whether it was terminal before. *)
Definition cancel (now : GoTime) (st : batchState) : batchState * (string * bool) :=
  if bs_cancelled st then (st, ("cancelled", true)%string)
  else if decide (bs_delay st ≤ TimeSub now (bs_createdAt st))%Z then (st, ("completed", true)%string)
  else
    (mkBatchState (bs_base st) (bs_createdAt st) (bs_delay st) (bs_counts st) (bs_outputFileID st)
       (bs_errorFileID st) true now, ("cancelled", false)%string).

Record batchStore := mkBatchStore {
  bs_m : gmap string (gmap string batchState);
  bs_order : gmap string (list string)
}.

Definition newBatchStore : batchStore := mkBatchStore ∅ ∅.

Definition put_batch (tenant : string) (st : batchState) (s : batchStore) : batchStore :=
  let id := bt_ID (bs_base st) in
  let byID := <[id := st]> (default ∅ (bs_m s !! tenant)) in
  let ids := default [] (bs_order s !! tenant) in
  let '(byID, ids) := evict_oldest maxBatchesPerTenant (S (length ids)) byID (ids ++ [id]) in
  mkBatchStore (<[tenant := byID]> (bs_m s)) (<[tenant := ids]> (bs_order s)).

Definition get_batch (tenant id : string) (s : batchStore) : option batchState := lookup2 (bs_m s) tenant id.

Definition batch_created_id (st : batchState) : Z * string := (bt_CreatedAt (bs_base st), bt_ID (bs_base st)).

Definition list_batches {mr : MapRange} (tenant : string) (s : batchStore) : list batchState :=
  sort_by batch_created_id newer_first (range (default ∅ (bs_m s !! tenant))).*2.

(** A method of a stored batch writes through the pointer the store holds. *)
Definition set_batch (tenant id : string) (st : batchState) (s : batchStore) : batchStore :=
  mkBatchStore (insert2 (bs_m s) tenant id st) (bs_order s).

(** ** Lines *)

Definition newline : ascii := ascii_of_nat 10.

(** [bytes.TrimRight] of carriage returns. *)
Fixpoint trim_cr (s : string) : string :=
  match s with
  | EmptyString => EmptyString
  | String c s =>
      match trim_cr s with
      | EmptyString => if decide (c = ascii_of_nat 13) then EmptyString else String c EmptyString
      | rest => String c rest
      end
  end.

Definition splitJSONLines (data : string) : list string :=
  filter (λ line, TrimSpace line ≠ ""%string) (trim_cr <$> Split newline data).

(** [strings.EqualFold] with the text of [http.MethodPost]: beside the two cases of its
    letters, the long s folds to its third. *)
Definition post_spellings : list string :=
  p ← ["P"; "p"]%string; o ← ["O"; "o"]%string; u ← ["S"; "s"; byte 197 +:+ byte 191]%string; t ← ["T"; "t"]%string;
  [(p +:+ o +:+ u +:+ t)%string].

Definition is_post (s : string) : bool := bool_decide (s ∈ post_spellings).

Section lines.
Context {fmt : GoFmt} {bjson : BatchJson}.

(** The reason to refuse a line, if there is one. *)
Definition validateInputLine (line : batchInputLine) (endpoint : string) (seen : gset string) : option string :=
  if decide (in_CustomID line = "") then Some "missing custom_id"
  else if decide (in_CustomID line ∈ seen) then Some ("duplicate custom_id " +:+ Quote (in_CustomID line))
  else if negb (bool_decide (in_Method line = "")) && negb (is_post (in_Method line)) then
    Some ("method must be POST, got " +:+ Quote (in_Method line))
  else if decide (in_URL line ≠ endpoint) then
    Some ("request url " +:+ Quote (in_URL line) +:+ " must match the batch endpoint " +:+ Quote endpoint)
  else if decide (TrimSpace (in_Body line) = "") then Some "request body is required"
  else None%string.

Definition disableStreaming (body : string) : string :=
  match ParseObject body with
  | None => body
  | Some m =>
      if decide ("stream"%string ∈ dom m) then default body (MarshalObject (<["stream" := "false"]> m)%string)
      else body
  end.

(** [writeJSONL]. *)
Definition json_line (v : batchOutputLine) : string :=
  match MarshalLine v with Some b => (b +:+ String newline "")%string | None => "" end.
End lines.

Definition parseBatchDelay (h : string) : string + Z :=
  if decide (h = "") then inr 0%Z
  else
    let refused := inl ("invalid " +:+ batchDelayHeader +:+ " header: must be a non-negative integer of milliseconds")%string in
    match Atoi h with
    | None => refused
    | Some ms =>
        if decide (ms < 0)%Z then refused
        else inr ((if decide (maxBatchDelayMs < ms)%Z then maxBatchDelayMs else ms) * Millisecond)%Z
    end.

(** ** Processing *)

(** What a handler does with a response writer. The headers it sets go to a map that
    nothing reads. *)
Inductive writer_call := WriteHeader (status : Z) | WriteBytes (b : string).

Record batchResponseRecorder := mkRecorder { rec_body : string; rec_status : Z }.

Definition record_call (rec : batchResponseRecorder) (call : writer_call) : batchResponseRecorder :=
  match call with
  | WriteHeader status => if decide (rec_status rec = 0)%Z then mkRecorder (rec_body rec) status else rec
  | WriteBytes b => mkRecorder (rec_body rec +:+ b) (rec_status rec)
  end.

Definition quoted (s : string) : string := (byte 34 +:+ s +:+ byte 34)%string.

(** The answer to a line whose request cannot be built. *)
Definition no_subrequest : string :=
  ("{" +:+ quoted "error" +:+ ":{" +:+ quoted "message" +:+ ":" +:+ quoted "could not build sub-request" +:+ "," +:+
   quoted "type" +:+ ":" +:+ quoted "server_error" +:+ "}}")%string.

Section process.
Context {W : Type} {fmt : GoFmt} {bjson : BatchJson}.

(** The endpoints, and whether [http.NewRequest] takes their paths. *)
Definition handler_func := HttpRequest → W → W * option (list writer_call).

Record Endpoints := mkEndpoints { endpoints : gmap string handler_func; request_ok : string → bool }.

Definition sub_request (tenant endpoint body : string) : HttpRequest :=
  mkHttpRequest endpoint {["Content-Type" := "application/json"]}%string body None tenant.

(** The status and the body a recorder has caught. *)
Definition caught (calls : list writer_call) : Z * string :=
  let rec := foldl record_call (mkRecorder "" 0) calls in
  let out := TrimSpace (rec_body rec) in
  (if decide (rec_status rec = 0)%Z then 200%Z else rec_status rec, if decide (out = "") then "null"%string else out).

(** [None] is a panic. *)
Definition dispatch (eps : Endpoints) (tenant endpoint body : string) (w : W) : W * option (Z * string) :=
  let body := disableStreaming body in
  if negb (request_ok eps endpoint) then (w, Some (500%Z, no_subrequest))
  else
    match endpoints eps !! endpoint with
    | None => (w, None)
    | Some handler => let '(w, calls) := handler (sub_request tenant endpoint body) w in (w, caught <$> calls)
    end.

Record batch_acc := mkAcc {
  ac_out : string; ac_err : string; ac_counts : BatchRequestCounts; ac_seen : gset string
}.

Definition count_total (c : BatchRequestCounts) : BatchRequestCounts :=
  mkCounts (wrap64 (bc_Total c + 1)) (bc_Completed c) (bc_Failed c).
Definition count_failed (c : BatchRequestCounts) : BatchRequestCounts :=
  mkCounts (bc_Total c) (bc_Completed c) (wrap64 (bc_Failed c + 1)).
Definition count_completed (c : BatchRequestCounts) : BatchRequestCounts :=
  mkCounts (bc_Total c) (wrap64 (bc_Completed c + 1)) (bc_Failed c).

Definition bad_json_line (draw : Z) : batchOutputLine :=
  mkOutputLine ("batch_req_" +:+ generateID draw) "" None
    (Some (mkOutputError "invalid_json" "line is not valid JSON")).
Definition rejected_line (draw : Z) (custom reason : string) : batchOutputLine :=
  mkOutputLine ("batch_req_" +:+ generateID draw) custom None (Some (mkOutputError "invalid_request" reason)).
Definition answered_line (draws : Z * Z) (custom : string) (answer : Z * string) : batchOutputLine :=
  mkOutputLine ("batch_req_" +:+ generateID draws.1) custom
    (Some (mkOutputResp answer.1 ("req_" +:+ generateID draws.2) answer.2)) None.

(** One turn of the loop. *)
Definition process_line (eps : Endpoints) (tenant endpoint : string) (draws : Z * Z) (raw : string)
    (acc : batch_acc) (w : W) : W * option batch_acc :=
  let counts := count_total (ac_counts acc) in
  match ParseLine raw with
  | None => (w, Some (mkAcc (ac_out acc) (ac_err acc +:+ json_line (bad_json_line draws.1)) (count_failed counts) (ac_seen acc)))
  | Some line =>
      let reason := validateInputLine line endpoint (ac_seen acc) in
      let seen := if decide (in_CustomID line = "") then ac_seen acc else {[in_CustomID line]} ∪ ac_seen acc in
      match reason with
      | Some reason =>
          (w, Some (mkAcc (ac_out acc) (ac_err acc +:+ json_line (rejected_line draws.1 (in_CustomID line) reason))
                      (count_failed counts) seen))
      | None =>
          match dispatch eps tenant endpoint (in_Body line) w with
          | (w, None) => (w, None)
          | (w, Some answer) =>
              (w, Some (mkAcc (ac_out acc +:+ json_line (answered_line draws (in_CustomID line) answer)) (ac_err acc)
                          (if decide (Z.quot answer.1 100 = 2)%Z then count_completed counts else count_failed counts) seen))
          end
      end
  end.

Fixpoint process_lines (eps : Endpoints) (tenant endpoint : string) (draws : nat → Z * Z) (i : nat)
    (lines : list string) (acc : batch_acc) (w : W) : W * option batch_acc :=
  match lines with
  | [] => (w, Some acc)
  | raw :: lines =>
      match process_line eps tenant endpoint (draws i) raw acc w with
      | (w, None) => (w, None)
      | (w, Some acc) => process_lines eps tenant endpoint draws (S i) lines acc w
      end
  end.

(** The output file, the error file and the tallies; a text when the batch is invalid,
    and [None] when an endpoint panicked. *)
Definition process (eps : Endpoints) (tenant endpoint : string) (draws : nat → Z * Z) (input : string) (w : W)
  : W * option (string + string * string * BatchRequestCounts) :=
  let lines := splitJSONLines input in
  if decide (length lines = 0) then (w, Some (inl "input file has no requests"%string))
  else if decide (maxBatchRequests < Z.of_nat (length lines))%Z then
    (w, Some (inl ("input file has " +:+ fmt_d (Z.of_nat (length lines)) +:+ " requests, which exceeds the limit of " +:+
                   fmt_d maxBatchRequests)%string))
  else
    let '(w, acc) := process_lines eps tenant endpoint draws 0 lines (mkAcc "" "" (mkCounts 0 0 0) ∅) w in
    (w, (λ acc, inr (ac_out acc, ac_err acc, ac_counts acc)) <$> acc).

(** ** The handlers *)

Record BatchesHandler := mkBatchesHandler { bh_files : fileStore; bh_store : batchStore }.

Inductive batches_body :=
| BatchObject (b : Batch)
| BatchList (data : list Batch) (first_last : option (string * string))
| BatchError (type message : string).

Abbreviation batches_reply := (reply batches_body Empty_set).

Definition batch_error (status : Z) (message : string) : batches_reply :=
  writeJSON ∅ status (BatchError "invalid_request_error" message).

Definition writeBatchNotFound (id : string) : batches_reply := batch_error 404 ("No such Batch object: " +:+ id).

(** What the creation of a batch reads from outside: the draws of the lines, of the
    generated files and of the batch, and the clock. *)
Record BatchEnv := mkBatchEnv {
  be_draws : nat → Z * Z;
  be_now : GoTime;
  be_out_draws : Z * Z;
  be_out_now : GoTime;
  be_err_draws : Z * Z;
  be_err_now : GoTime;
  be_id_draw : Z
}.

Definition putGeneratedFile (draw : Z) (now : GoTime) (tenant purpose filename data : string) (files : fileStore)
  : fileStore * string :=
  let e := mkFileEntry ("file-" +:+ generateID draw) (Z.of_nat (String.length data)) (Unix now) filename purpose data in
  (put tenant e files, fe_ID e).

(** A generated file is stored when it has content. *)
Definition generated (draws : Z * Z) (now : GoTime) (tenant suffix data : string) (files : fileStore)
  : fileStore * string :=
  if decide (data = "") then (files, ""%string)
  else putGeneratedFile draws.2 now tenant "batch_output" ("batch_" +:+ generateID draws.1 +:+ suffix) data files.

Definition supportedEndpoints (eps : Endpoints) : string :=
  Join (merge_sort String.le (elements (dom (endpoints eps)))) ", ".

Definition new_batch (env : BatchEnv) (req : createBatchRequest) (delay : Z) (counts : BatchRequestCounts)
    (outFileID errFileID : string) : batchState :=
  let now := be_now env in
  let window := if decide (cb_CompletionWindow req = "") then "24h"%string else cb_CompletionWindow req in
  mkBatchState
    (mkBatch ("batch_" +:+ generateID (be_id_draw env)) "batch" (cb_Endpoint req) VNil (cb_InputFileID req) window
       "" None None (Unix now) None (Some (Unix (TimeAdd now batchExpiryWindow))) None None None None (mkCounts 0 0 0)
       (cb_Metadata req))
    now delay counts outFileID errFileID false (mkTime 0 0).

(** The part of [HandleCreate] after the request was decoded. *)
Definition create_batch (env : BatchEnv) (eps : Endpoints) (r : HttpRequest) (req : createBatchRequest)
    (h : BatchesHandler) (w : W) : BatchesHandler * W * batches_reply :=
  let tenant := hr_tenant r in
  if decide (cb_InputFileID req = "") then (h, w, batch_error 400 "input_file_id is required")
  else if decide (cb_Endpoint req = "") then (h, w, batch_error 400 "endpoint is required")
  else if decide (endpoints eps !! cb_Endpoint req = None) then
    (h, w, batch_error 400 ("unsupported endpoint " +:+ Quote (cb_Endpoint req) +:+ "; supported endpoints are " +:+
                            supportedEndpoints eps))
  else
    match get tenant (cb_InputFileID req) (bh_files h) with
    | None => (h, w, batch_error 404 ("No such File object: " +:+ cb_InputFileID req))
    | Some inputFile =>
        match parseBatchDelay (get_header r batchDelayHeader) with
        | inl err => (h, w, batch_error 400 err)
        | inr delay =>
            match process eps tenant (cb_Endpoint req) (be_draws env) (fe_data inputFile) w with
            | (w, None) => (h, w, Panicked)
            | (w, Some (inl err)) => (h, w, batch_error 400 err)
            | (w, Some (inr (out, err, counts))) =>
                let '(files, outFileID) := generated (be_out_draws env) (be_out_now env) tenant "_output.jsonl" out (bh_files h) in
                let '(files, errFileID) := generated (be_err_draws env) (be_err_now env) tenant "_errors.jsonl" err files in
                let st := new_batch env req delay counts outFileID errFileID in
                (mkBatchesHandler files (put_batch tenant st (bh_store h)), w,
                 writeJSON ∅ 200 (BatchObject (render (be_now env) st)))
            end
        end
    end.

Definition HandleCreate (env : BatchEnv) (eps : Endpoints) (unmarshal : string → string + createBatchRequest)
    (r : HttpRequest) (meta : option RequestMeta) (h : BatchesHandler) (w : W)
  : BatchesHandler * W * option RequestMeta * batches_reply :=
  let meta := stampProtocol ProtocolOpenAIBatches meta in
  match decodeJSONBody unmarshal r with
  | inl BodyTooLarge =>
      (h, w, meta, writeJSON ∅ 413 (BatchError "invalid_request_error" "request body too large"))
  | inl (DecodeError err) => (h, w, meta, batch_error 400 ("invalid JSON: " +:+ err))
  | inr req => let '(h, w, answer) := create_batch env eps r req h w in (h, w, meta, answer)
  end.

Definition RetrieveBatch (now : GoTime) (id : string) (r : HttpRequest) (meta : option RequestMeta)
    (h : BatchesHandler) : BatchesHandler * option RequestMeta * batches_reply :=
  (h, stampProtocol ProtocolOpenAIBatches meta,
   match get_batch (hr_tenant r) id (bh_store h) with
   | None => writeBatchNotFound id
   | Some st => writeJSON ∅ 200 (BatchObject (render now st))
   end).

Definition ListBatches {mr : MapRange} (now : GoTime) (r : HttpRequest) (meta : option RequestMeta)
    (h : BatchesHandler) : BatchesHandler * option RequestMeta * batches_reply :=
  let data := render now <$> list_batches (hr_tenant r) (bh_store h) in
  (h, stampProtocol ProtocolOpenAIBatches meta,
   writeJSON ∅ 200 (BatchList data (first ← head data; (final ← last data; Some (bt_ID first, bt_ID final))))).

Definition CancelBatch (now : GoTime) (id : string) (r : HttpRequest) (meta : option RequestMeta)
    (h : BatchesHandler) : BatchesHandler * option RequestMeta * batches_reply :=
  let meta := stampProtocol ProtocolOpenAIBatches meta in
  match get_batch (hr_tenant r) id (bh_store h) with
  | None => (h, meta, writeBatchNotFound id)
  | Some st =>
      let '(st, (_, terminal)) := cancel now st in
      (mkBatchesHandler (bh_files h) (set_batch (hr_tenant r) id st (bh_store h)), meta,
       if terminal then
         batch_error 409 ("Cannot cancel a batch with status " +:+ Quote (bt_Status (render now st)))
       else writeJSON ∅ 200 (BatchObject (render now st)))
  end.
End process.

(** ** What a batch sends *)

Section sent.
Context {W : Type} {fmt : GoFmt} {bjson : BatchJson}.

(** The custom ids the lines before the [i]th name. *)
Definition named_before (lines : list string) (i : nat) : list string :=
  in_CustomID <$> omap ParseLine (take i lines).

(** The request of the [i]th line, if it is to be sent: it has an id that no line
    before it has, it is a POST to the endpoint of the batch, and it has a body. *)
Definition accepted (endpoint : string) (lines : list string) (i : nat) : option batchInputLine :=
  raw ← lines !! i;
  line ← ParseLine raw;
  if decide (in_CustomID line ≠ ""%string ∧ ¬ (in_CustomID line ∈ named_before lines i) ∧
             (in_Method line = ""%string ∨ in_Method line ∈ post_spellings) ∧ in_URL line = endpoint ∧
             TrimSpace (in_Body line) ≠ ""%string)
  then Some line else None.

(** The record of the [i]th line in the error file, if it is not sent. *)
Definition refused (endpoint : string) (draws : nat → Z * Z) (lines : list string) (i : nat) : option batchOutputLine :=
  raw ← lines !! i;
  match ParseLine raw with
  | None => Some (bad_json_line (draws i).1)
  | Some line =>
      rejected_line (draws i).1 (in_CustomID line) <$>
        validateInputLine line endpoint (list_to_set (named_before lines i))
  end.

Definition sent_from (endpoint : string) (lines : list string) (i n : nat) : list (nat * batchInputLine) :=
  omap (λ i, pair i <$> accepted endpoint lines i) (seq i n).

(** The requests a batch sends, with their places in the file. *)
Definition sent (endpoint : string) (lines : list string) : list (nat * batchInputLine) :=
  sent_from endpoint lines 0 (length lines).

(** The endpoint handles bodies one after the other. *)
Fixpoint replay (eps : Endpoints) (tenant endpoint : string) (bodies : list string) (w : W)
  : W * option (list (Z * string)) :=
  match bodies with
  | [] => (w, Some [])
  | body :: bodies =>
      match dispatch eps tenant endpoint body w with
      | (w, None) => (w, None)
      | (w, Some answer) => let '(w, answers) := replay eps tenant endpoint bodies w in (w, cons answer <$> answers)
      end
  end.

Definition output_records (draws : nat → Z * Z) (requests : list (nat * batchInputLine)) (answers : list (Z * string))
  : list batchOutputLine :=
  zip_with (λ r answer, answered_line (draws r.1) (in_CustomID r.2) answer) requests answers.

Definition error_records (endpoint : string) (draws : nat → Z * Z) (lines : list string) (i n : nat)
  : list batchOutputLine := omap (refused endpoint draws lines) (seq i n).

Definition jsonl (records : list batchOutputLine) : string := cat (json_line <$> records).

Definition succeeded (answers : list (Z * string)) : nat :=
  length (filter (λ answer : Z * string, Z.quot answer.1 100 = 2)%Z answers).

(** The tallies after [n] more lines, [good] of which succeeded. *)
Definition tallied (c : BatchRequestCounts) (n good : nat) : BatchRequestCounts :=
  mkCounts (bc_Total c + Z.of_nat n) (bc_Completed c + Z.of_nat good)
    (bc_Failed c + (Z.of_nat n - Z.of_nat good)).

Definition counts_below (c : BatchRequestCounts) (i : nat) : Prop :=
  (0 ≤ bc_Total c ≤ Z.of_nat i ∧ 0 ≤ bc_Completed c ≤ Z.of_nat i ∧ 0 ≤ bc_Failed c ≤ Z.of_nat i)%Z.

Lemma validate_accepted line endpoint lines i raw : lines !! i = Some raw → ParseLine raw = Some line →
  accepted endpoint lines i =
    match validateInputLine line endpoint (list_to_set (named_before lines i)) with Some _ => None | None => Some line end.
Proof.
  intros Hi Hp. unfold accepted. rewrite Hi. cbn [mbind option_bind]. rewrite Hp. cbn [mbind option_bind].
  unfold validateInputLine, is_post. destruct (decide (in_CustomID line = "")); [by rewrite decide_False by tauto|].
  destruct (decide (_ ∈ list_to_set _)) as [Hin|Hin]; rewrite elem_of_list_to_set in Hin; [by rewrite decide_False by tauto|].
  assert (negb (bool_decide (in_Method line = "")) && negb (bool_decide (in_Method line ∈ post_spellings)) =
    negb (bool_decide (in_Method line = "" ∨ in_Method line ∈ post_spellings))) as ->
    by (repeat case_bool_decide; tauto || done).
  case_bool_decide; cbn [negb]; [|by rewrite decide_False by tauto].
  destruct (decide (in_URL line ≠ endpoint)); [by rewrite decide_False by tauto|].
  destruct (decide (TrimSpace (in_Body line) = "")); [by rewrite decide_False by tauto|].
  rewrite decide_True; [done|]. split_and!; try done. by apply dec_stable.
Qed.

Lemma named_before_S lines i raw : lines !! i = Some raw →
  named_before lines (S i) = named_before lines i ++ match ParseLine raw with Some l => [in_CustomID l] | None => [] end.
Proof.
  intros Hi. unfold named_before. rewrite (take_S_r _ _ _ Hi), omap_app, fmap_app. simpl.
  by destruct (ParseLine raw).
Qed.
Lemma validate_ext line endpoint s1 s2 :
  (∀ c, c ≠ "" → c ∈ s1 ↔ c ∈ s2) → validateInputLine line endpoint s1 = validateInputLine line endpoint s2.
Proof.
  intros H. unfold validateInputLine. destruct (decide (in_CustomID line = "")) as [|Hne]; [done|].
  destruct (decide (in_CustomID line ∈ s1)) as [H1|H1], (decide (in_CustomID line ∈ s2)) as [H2|H2]; try done;
    exfalso; [apply H2|apply H1]; by apply (H _ Hne).
Qed.

Lemma counted c i : counts_below c i → (Z.of_nat i < maxBatchRequests)%Z →
  (count_failed (count_total c) = tallied c 1 0 ∧ counts_below (tallied c 1 0) (S i)) ∧
  (count_completed (count_total c) = tallied c 1 1 ∧ counts_below (tallied c 1 1) (S i)).
Proof.
  unfold counts_below, count_total, count_failed, count_completed, tallied, maxBatchRequests. cbn.
  intros (? & ? & ?) ?. rewrite !wrap64_id by (unfold in_int64, two63; lia).
  split; (split; [f_equal; lia|lia]).
Qed.

(** The turn of the [i]th line. *)
Lemma process_line_spec eps tenant endpoint draws lines i raw acc (w : W) :
  lines !! i = Some raw → (Z.of_nat i < maxBatchRequests)%Z → counts_below (ac_counts acc) i →
  (∀ c, c ≠ ""%string → c ∈ ac_seen acc ↔ c ∈ named_before lines i) →
  let c := ac_counts acc in
  let '(w', acc') := process_line eps tenant endpoint (draws i) raw acc w in
  (∀ acc1, acc' = Some acc1 →
    counts_below (ac_counts acc1) (S i) ∧ (∀ c, c ≠ ""%string → c ∈ ac_seen acc1 ↔ c ∈ named_before lines (S i))) ∧
  match accepted endpoint lines i with
  | Some line =>
      let '(w1, answer) := dispatch eps tenant endpoint (in_Body line) w in
      w' = w1 ∧ refused endpoint draws lines i = None ∧
      (λ acc, (ac_out acc, ac_err acc, ac_counts acc)) <$> acc' =
      (λ answer, (ac_out acc +:+ json_line (answered_line (draws i) (in_CustomID line) answer), ac_err acc,
                   tallied c 1 (succeeded [answer]))%string) <$> answer
  | None => ∃ record, refused endpoint draws lines i = Some record ∧ w' = w ∧
      (λ acc, (ac_out acc, ac_err acc, ac_counts acc)) <$> acc' =
      Some (ac_out acc, ac_err acc +:+ json_line record, tallied c 1 0)%string
  end.
Proof.
  intros Hi Hlt Hc Hseen c. destruct (counted _ _ Hc Hlt) as [[Hfail Hbf] [Hgood Hbg]].
  unfold process_line, refused. rewrite (named_before_S _ _ _ Hi), Hi. cbn [mbind option_bind].
  destruct (ParseLine raw) as [line|] eqn:Hp; cycle 1.
  { split; [intros acc1 [= <-]; rewrite app_nil_r, Hfail; by split|].
    assert (accepted endpoint lines i = None) as -> by (unfold accepted; rewrite Hi; cbn; by rewrite Hp).
    eexists. split; [done|]. split; [done|]. simpl. by rewrite Hfail. }
  rewrite (validate_ext _ _ _ (list_to_set (named_before lines i))) by (intros d Hd; rewrite elem_of_list_to_set; by apply Hseen).
  rewrite (validate_accepted _ _ _ _ _ Hi Hp).
  assert (∀ d, d ≠ ""%string → d ∈ (if decide (in_CustomID line = "") then ac_seen acc else {[in_CustomID line]} ∪ ac_seen acc)
    ↔ d ∈ named_before lines i ++ [in_CustomID line]) as Hseen'.
  { intros d Hd. rewrite elem_of_app, list_elem_of_singleton, <-(Hseen d Hd). case_decide as He; [|set_solver].
    rewrite He. set_solver. }
  destruct (validateInputLine _ _ _) as [reason|].
  { split; [intros acc1 [= <-]; cbn [ac_counts ac_seen]; rewrite Hfail; by split|].
    eexists. split; [done|]. split; [done|]. simpl. by rewrite Hfail. }
  destruct (dispatch eps tenant endpoint (in_Body line) w) as [w1 [answer|]]; [|by split].
  unfold succeeded. cbn [filter list_filter]. unfold filter. cbn.
  destruct (decide (Z.quot answer.1 100 = 2)%Z).
  - split; [intros acc1 [= <-]; cbn [ac_counts ac_seen]; rewrite Hgood; by split|]. split_and!; [done..|]. simpl. by rewrite Hgood.
  - split; [intros acc1 [= <-]; cbn [ac_counts ac_seen]; rewrite Hfail; by split|]. split_and!; [done..|]. simpl. by rewrite Hfail.
Qed.

Lemma sent_from_S endpoint lines i n :
  sent_from endpoint lines i (S n) =
    match accepted endpoint lines i with Some line => [(i, line)] | None => [] end ++ sent_from endpoint lines (S i) n.
Proof. unfold sent_from. simpl. by destruct (accepted endpoint lines i). Qed.

Lemma error_records_S endpoint draws lines i n :
  error_records endpoint draws lines i (S n) =
    match refused endpoint draws lines i with Some r => [r] | None => [] end ++ error_records endpoint draws lines (S i) n.
Proof. unfold error_records. simpl. by destruct (refused endpoint draws lines i). Qed.

Lemma jsonl_cons r rs : jsonl (r :: rs) = (json_line r +:+ jsonl rs)%string.
Proof. done. Qed.

Lemma tallied_add c n m a b : tallied (tallied c n a) m b = tallied c (n + m) (a + b).
Proof. unfold tallied. cbn. f_equal; lia. Qed.

Lemma succeeded_cons answer answers : succeeded (answer :: answers) = succeeded [answer] + succeeded answers.
Proof. unfold succeeded, filter. cbn. by case_decide. Qed.

Definition files_of (acc : batch_acc) : string * string * BatchRequestCounts := (ac_out acc, ac_err acc, ac_counts acc).

Lemma process_lines_spec eps tenant endpoint draws lines n i acc (w : W) :
  i + n = length lines → (Z.of_nat (length lines) ≤ maxBatchRequests)%Z → counts_below (ac_counts acc) i →
  (∀ c, c ≠ ""%string → c ∈ ac_seen acc ↔ c ∈ named_before lines i) →
  let requests := sent_from endpoint lines i n in
  let '(w', answers) := replay eps tenant endpoint ((λ r, in_Body r.2) <$> requests) w in
  let '(w'', acc') := process_lines eps tenant endpoint draws i (drop i lines) acc w in
  w'' = w' ∧ files_of <$> acc' = (λ answers,
    (ac_out acc +:+ jsonl (output_records draws requests answers),
     ac_err acc +:+ jsonl (error_records endpoint draws lines i n),
     tallied (ac_counts acc) n (succeeded answers))%string) <$> answers.
Proof.
  revert i acc w. induction n as [|n IH]; intros i acc w Hlen Hmax Hc Hseen.
  { rewrite drop_ge by lia. simpl. split; [done|]. unfold files_of, tallied, jsonl. destruct (ac_counts acc). cbn.
    rewrite !str_app_nil_r. by rewrite !Z.add_0_r. }
  destruct (lookup_lt_is_Some_2 lines i) as [raw Hi]; [lia|]. rewrite (drop_S _ _ _ Hi). cbn [process_lines].
  rewrite sent_from_S, error_records_S.
  pose proof (process_line_spec eps tenant endpoint draws lines i raw acc w Hi ltac:(lia) Hc Hseen) as Hstep.
  cbv zeta in Hstep. destruct (process_line _ _ _ _ _ _ _) as [w1 acc1]. destruct Hstep as [Hnext Hstep].
  specialize (IH (S i)).
  destruct (accepted endpoint lines i) as [line|].
  - cbn [app fmap list_fmap replay snd]. destruct (dispatch eps tenant endpoint (in_Body line) w) as [w2 [answer|]].
    + destruct Hstep as (-> & -> & Hacc). destruct acc1 as [acc1|]; [|done]. injection Hacc as Ho He Hcc.
      destruct (Hnext acc1 eq_refl) as [Hc1 Hseen1]. specialize (IH acc1 w2 ltac:(lia) Hmax Hc1 Hseen1). cbv zeta in IH.
      destruct (replay _ _ _ _ w2) as [w3 answers]. destruct (process_lines _ _ _ _ _ _ _ _) as [w4 acc4].
      destruct IH as [-> ->]. split; [done|]. destruct answers as [answers|]; [|done]. simpl. do 2 f_equal; [f_equal|].
      * rewrite Ho. by rewrite str_app_assoc.
      * by rewrite He.
      * by rewrite Hcc, tallied_add, (succeeded_cons answer answers).
    + destruct Hstep as (-> & _ & Hacc). by destruct acc1.
  - destruct Hstep as (record & -> & -> & Hacc). destruct acc1 as [acc1|]; [|done]. injection Hacc as Ho He Hcc.
    destruct (Hnext acc1 eq_refl) as [Hc1 Hseen1]. specialize (IH acc1 w ltac:(lia) Hmax Hc1 Hseen1). cbv zeta in IH.
    cbn [app]. destruct (replay _ _ _ _ w) as [w3 answers]. destruct (process_lines _ _ _ _ _ _ _ _) as [w4 acc4].
    destruct IH as [-> ->]. split; [done|]. destruct answers as [answers|]; [|done]. simpl. do 2 f_equal; [f_equal|].
    + by rewrite Ho.
    + by rewrite He, jsonl_cons, str_app_assoc.
    + by rewrite Hcc, tallied_add.
Qed.

(** *** Laws of the encoder *)

(** An encoded line is one line of text, and an object that was decoded, given a member
    that is false, is encoded as an object with that member. *)
Class BatchJsonLaws := {
  line_text l b : MarshalLine l = Some b → Cassette.no_newline b ∧ trim_cr b = b ∧ TrimSpace b ≠ ""%string;
  object_again s m : ParseObject s = Some m → ∃ out m',
    MarshalObject (<["stream" := "false"]> m)%string = Some out ∧ ParseObject out = Some m' ∧
    m' !! "stream"%string = Some "false"%string
}.

Lemma Split_line a s : Cassette.no_newline a → Split newline (a +:+ String newline s) = a :: Split newline s.
Proof.
  induction a as [|c a IH]; intros Ha; [done|]. destruct Ha as [Hc Ha].
  change (Split newline (String c (a +:+ String newline s)) = String c a :: Split newline s). cbn [Split].
  rewrite decide_False by done. by rewrite IH.
Qed.

(** A reader of the file gets the records that were encoded. *)
Lemma read_jsonl {laws : BatchJsonLaws} records : splitJSONLines (jsonl records) = omap MarshalLine records.
Proof.
  induction records as [|r records IH]; [by vm_compute|]. rewrite jsonl_cons. unfold json_line. simpl.
  destruct (MarshalLine r) as [b|] eqn:Hb; [|exact IH]. destruct (line_text r b Hb) as (Hn & Hcr & Ht).
  rewrite str_app_assoc. unfold splitJSONLines. change (String newline "" +:+ jsonl records)%string with (String newline (jsonl records)).
  rewrite Split_line by done. rewrite fmap_cons, Hcr, filter_cons_True by done. by f_equal.
Qed.

(** No request is sent that asks for a stream. *)
Lemma disableStreaming_ok {laws : BatchJsonLaws} body :
  match ParseObject (disableStreaming body) with
  | Some m => m !! "stream"%string = None ∨ m !! "stream"%string = Some "false"%string
  | None => disableStreaming body = body
  end.
Proof.
  unfold disableStreaming. destruct (ParseObject body) as [m|] eqn:Hm; [|by rewrite Hm]. case_decide as Hs.
  - destruct (object_again body m Hm) as (out & m' & -> & Hp & Hk). change (default body (Some out)) with out. rewrite Hp. by right.
  - rewrite Hm. left. by apply not_elem_of_dom.
Qed.

Lemma sent_elem endpoint lines r : r ∈ sent endpoint lines ↔ accepted endpoint lines r.1 = Some r.2.
Proof.
  unfold sent, sent_from. rewrite list_elem_of_omap. split.
  - intros (i & _ & Hi). destruct (accepted endpoint lines i) eqn:Ha; [|done]. by injection Hi as <-.
  - intros H. exists r.1. rewrite H. split; [|by destruct r]. apply elem_of_seq. split; [lia|].
    unfold accepted in H. destruct (lines !! r.1) eqn:Hl; [|done]. by apply lookup_lt_Some in Hl.
Qed.

Lemma accepted_ids endpoint lines i j l1 l2 : i < j →
  accepted endpoint lines i = Some l1 → accepted endpoint lines j = Some l2 → in_CustomID l1 ≠ in_CustomID l2.
Proof.
  unfold accepted. intros Hij H1 H2 Heq.
  destruct (lines !! i) as [r1|] eqn:Hi; [|done]. cbn in H1. destruct (ParseLine r1) as [p1|] eqn:Hp1; [|done]. cbn in H1.
  case_decide; [|done]. injection H1 as ->.
  destruct (lines !! j) as [r2|]; [|done]. cbn in H2. destruct (ParseLine r2) as [p2|]; [|done]. cbn in H2.
  case_decide as Hd; [|done]. injection H2 as ->. destruct Hd as (_ & Hnot & _). apply Hnot. rewrite <-Heq.
  unfold named_before. apply list_elem_of_fmap_2. apply list_elem_of_omap. exists r1. split; [|done].
  apply list_elem_of_lookup. exists i. by rewrite lookup_take_lt.
Qed.

Lemma sent_ids endpoint lines i n : NoDup ((λ r, in_CustomID r.2) <$> sent_from endpoint lines i n).
Proof.
  revert i. induction n as [|n IH]; intros i; [constructor|]. rewrite sent_from_S.
  destruct (accepted endpoint lines i) as [line|] eqn:Ha; [|apply IH]. cbn [app fmap list_fmap]. constructor; [|apply IH].
  intros ([j l] & Heq & Hj)%list_elem_of_fmap. cbn [snd] in Heq.
  unfold sent_from in Hj. apply list_elem_of_omap in Hj as (k & Hk & Hacc). apply elem_of_seq in Hk as [Hk _].
  destruct (accepted endpoint lines k) as [l'|] eqn:Ha'; [|done]. injection Hacc as -> ->.
  by eapply (accepted_ids endpoint lines i j).
Qed.

Lemma one_record endpoint draws lines i : i < length lines →
  accepted endpoint lines i = None ↔ is_Some (refused endpoint draws lines i).
Proof.
  intros [raw Hi]%lookup_lt_is_Some_2. unfold refused. rewrite Hi. cbn [mbind option_bind].
  destruct (ParseLine raw) as [line|] eqn:Hp.
  - rewrite (validate_accepted _ _ _ _ _ Hi Hp). destruct (validateInputLine _ _ _); simpl; [by split|].
    split; [done|by intros [? ?]].
  - split; [by eexists|]. intros _. unfold accepted. rewrite Hi. cbn. by rewrite Hp.
Qed.

Lemma replay_length eps tenant endpoint bodies (w : W) answers :
  (replay eps tenant endpoint bodies w).2 = Some answers → length answers = length bodies.
Proof.
  revert w answers. induction bodies as [|b bodies IH]; intros w answers; simpl; [by intros [= <-]|].
  destruct (dispatch eps tenant endpoint b w) as [w1 [answer|]]; [|done]. specialize (IH w1).
  destruct (replay eps tenant endpoint bodies w1) as [w2 [rest|]]; [|done]. simpl in *. intros [= <-]. simpl.
  by rewrite (IH rest).
Qed.

End sent.

(** ** The life of a batch *)

Inductive batch_op :=
| PollOp (tenant id : string) (now : GoTime)
| CancelOp (tenant id : string) (now : GoTime).

Definition bop_key (op : batch_op) : string * string :=
  match op with PollOp tenant id _ | CancelOp tenant id _ => (tenant, id) end.

Definition bop_time (op : batch_op) : GoTime := match op with PollOp _ _ now | CancelOp _ _ now => now end.

Section life.
Context {fmt : GoFmt}.
Abbreviation batches_reply := (reply batches_body Empty_set).

Definition batch_request (tenant : string) : HttpRequest := mkHttpRequest "/v1/batches" ∅ "" None tenant.

Definition batch_step (op : batch_op) (h : BatchesHandler) : BatchesHandler * batches_reply :=
  let '(h, _, answer) :=
    match op with
    | PollOp tenant id now => RetrieveBatch now id (batch_request tenant) None h
    | CancelOp tenant id now => CancelBatch now id (batch_request tenant) None h
    end in (h, answer).

Fixpoint run_batches (ops : list batch_op) (h : BatchesHandler) : list batches_reply :=
  match ops with
  | [] => []
  | op :: ops => let '(h, answer) := batch_step op h in answer :: run_batches ops h
  end.

(** Before its delay is over. *)
Definition early (st : batchState) (now : GoTime) : Prop :=
  (mono now < mono (bs_createdAt st) + bs_delay st)%Z.

#[local] Instance early_dec st now : Decision (early st now).
Proof. unfold early. apply _. Defined.

(** The cancellation that took effect: the first that was early. *)
Definition cancellation (st : batchState) (ops : list batch_op) : option GoTime :=
  head (omap (λ op, match op with
    | CancelOp _ _ now => if decide (early st now) then Some now else None
    | PollOp _ _ _ => None end) ops).

Inductive phase := InProgress | Completed | Cancelled (at_ : GoTime).

(** The phase at a time, after what was done before. *)
Definition phase_at (st : batchState) (before : list batch_op) (now : GoTime) : phase :=
  match cancellation st before with
  | Some t => Cancelled t
  | None => if decide (early st now) then InProgress else Completed
  end.

Definition file_or_none (id : string) : option string := if decide (id = ""%string) then None else Some id.

(** How a batch is seen in a phase: the tallies only once it has ended, its files only
    when it completed. *)
Definition seen_as (st : batchState) (p : phase) : Batch :=
  let seen status output error completed cancelled counts :=
    with_status (bs_base st) status output error completed cancelled counts (Unix (bs_createdAt st)) in
  match p with
  | InProgress => seen "in_progress"%string None None None None (mkCounts (bc_Total (bs_counts st)) 0 0)
  | Cancelled t => seen "cancelled"%string None None None (Some (Unix t)) (bs_counts st)
  | Completed =>
      seen "completed"%string (file_or_none (bs_outputFileID st)) (file_or_none (bs_errorFileID st))
        (Some ((wall (bs_createdAt st) + bs_delay st) / Second)%Z) None (bs_counts st)
  end.

(** A batch as [HandleCreate] stores it. *)
Definition just_created (st : batchState) : Prop :=
  bs_cancelled st = false ∧ (0 ≤ bs_delay st < two63)%Z ∧
  bt_OutputFileID (bs_base st) = None ∧ bt_ErrorFileID (bs_base st) = None ∧
  bt_CompletedAt (bs_base st) = None ∧ bt_CancelledAt (bs_base st) = None.

Definition batch_answer (st : batchState) (before : list batch_op) (op : batch_op) : batches_reply :=
  match op, phase_at st before (bop_time op) with
  | PollOp _ _ now, p => writeJSON ∅ 200 (BatchObject (seen_as st p))
  | CancelOp _ _ now, InProgress => writeJSON ∅ 200 (BatchObject (seen_as st (Cancelled now)))
  | CancelOp _ _ _, Completed => batch_error 409 ("Cannot cancel a batch with status " +:+ Quote "completed")
  | CancelOp _ _ _, Cancelled _ => batch_error 409 ("Cannot cancel a batch with status " +:+ Quote "cancelled")
  end.

(** The stored state after what was done to it. *)
Definition cancelled_by (st : batchState) (before : list batch_op) : batchState :=
  match cancellation st before with
  | None => st
  | Some t => mkBatchState (bs_base st) (bs_createdAt st) (bs_delay st) (bs_counts st) (bs_outputFileID st)
                (bs_errorFileID st) true t
  end.

Lemma early_sub st now : (0 ≤ bs_delay st < two63)%Z →
  (TimeSub now (bs_createdAt st) < bs_delay st)%Z ↔ early st now.
Proof. unfold TimeSub, time_sub, early, two63. lia. Qed.

Lemma render_seen st before now : just_created st → render now (cancelled_by st before) = seen_as st (phase_at st before now).
Proof.
  intros (Hc & Hd & Ho & He & Hca & Hcl). unfold cancelled_by, phase_at. destruct (cancellation st before) as [t|].
  { unfold render. cbn. by rewrite Ho, He, Hca. }
  unfold render. rewrite Hc. pose proof (early_sub st now Hd) as Hiff.
  destruct (decide (TimeSub now (bs_createdAt st) < bs_delay st)%Z) as [H1|H1], (decide (early st now)) as [H2|H2];
    try tauto; cbn; by rewrite ?Ho, ?He, ?Hca, ?Hcl.
Qed.

Lemma cancellation_snoc st before op :
  cancellation st (before ++ [op]) =
    match cancellation st before with
    | Some t => Some t
    | None => match op with CancelOp _ _ now => if decide (early st now) then Some now else None | _ => None end
    end.
Proof.
  unfold cancellation. rewrite omap_app. destruct (omap _ before); [|done]. simpl. destruct op; [done|]. by case_decide.
Qed.

Lemma batch_cancel_spec st before tenant id now : just_created st →
  cancel now (cancelled_by st before) =
    (cancelled_by st (before ++ [CancelOp tenant id now]),
     (match phase_at st before now with Completed => "completed"%string | _ => "cancelled"%string end,
      match phase_at st before now with InProgress => false | _ => true end)).
Proof.
  intros (Hc & Hd & _). unfold cancelled_by, phase_at, cancel. rewrite cancellation_snoc.
  destruct (cancellation st before) as [t|]; [done|]. rewrite Hc. pose proof (early_sub st now Hd) as Hiff.
  destruct (decide (bs_delay st ≤ TimeSub now (bs_createdAt st))%Z) as [H1|H1], (decide (early st now)) as [H2|H2];
    [apply Hiff in H2; lia|done|done|exfalso; apply H2, Hiff; lia].
Qed.

Lemma batch_step_other op h tenant id : bop_key op ≠ (tenant, id) →
  get_batch tenant id (bh_store (batch_step op h).1) = get_batch tenant id (bh_store h).
Proof.
  intros Hne. destruct op as [t i now|t i now]; [done|]. unfold batch_step, CancelBatch. cbn [hr_tenant batch_request].
  destruct (get_batch t i (bh_store h)) as [st|]; [|done]. destruct (cancel now st) as [st' [? ?]]. cbn.
  unfold get_batch, set_batch. cbn. rewrite lookup2_insert2. by rewrite decide_False by (intros [-> ->]; by apply Hne).
Qed.

Lemma batch_step_own op h tenant id st before : just_created st → bop_key op = (tenant, id) →
  get_batch tenant id (bh_store h) = Some (cancelled_by st before) →
  get_batch tenant id (bh_store (batch_step op h).1) = Some (cancelled_by st (before ++ [op])) ∧
  (batch_step op h).2 = batch_answer st before op.
Proof.
  intros Hst Hkey Hget. destruct op as [t i now|t i now]; injection Hkey as -> ->; unfold batch_step, batch_answer; cbn [bop_time].
  - unfold RetrieveBatch. cbn [hr_tenant batch_request]. rewrite Hget. cbn [fst snd]. split; [|by rewrite render_seen].
    rewrite Hget. unfold cancelled_by. rewrite cancellation_snoc. by destruct (cancellation st before).
  - unfold CancelBatch. cbn [hr_tenant batch_request]. rewrite Hget, (batch_cancel_spec st before tenant id now Hst). cbn [fst snd bh_store].
    split. { unfold get_batch, set_batch. cbn. rewrite lookup2_insert2. by rewrite decide_True by done. }
    rewrite (render_seen st _ now Hst). unfold phase_at. rewrite cancellation_snoc.
    destruct (cancellation st before) as [t|]; [done|]. by destruct (decide (early st now)).
Qed.

Definition on_batch (key : string * string) (ops : list batch_op) : list batch_op := filter (λ op, bop_key op = key) ops.

Lemma run_batches_spec ops h tenant id st before : just_created st →
  get_batch tenant id (bh_store h) = Some (cancelled_by st before) →
  ∀ k op, ops !! k = Some op → bop_key op = (tenant, id) →
  run_batches ops h !! k = Some (batch_answer st (before ++ on_batch (tenant, id) (take k ops)) op).
Proof.
  intros Hst. revert h before. induction ops as [|op ops IH]; intros h before Hget k op' Hk Hkey; [done|].
  cbn [run_batches]. destruct (batch_step op h) as [h' answer] eqn:Hstep. unfold on_batch.
  destruct k as [|k].
  { injection Hk as <-. destruct (batch_step_own op h tenant id st before Hst Hkey Hget) as [_ Ha]. rewrite Hstep in Ha.
    cbn [snd] in Ha. simpl. by rewrite Ha, app_nil_r. }
  cbn [lookup list_lookup take]. destruct (decide (bop_key op = (tenant, id))) as [Hop|Hop].
  - destruct (batch_step_own op h tenant id st before Hst Hop Hget) as [Hget' _]. rewrite Hstep in Hget'.
    rewrite filter_cons_True by done. rewrite cons_middle, (assoc_L (++)). by apply IH.
  - pose proof (batch_step_other op h tenant id Hop) as Hget'. rewrite Hstep in Hget'. rewrite filter_cons_False by done.
    apply IH; [|done..]. cbn [fst] in Hget'. by rewrite Hget'.
Qed.

Lemma cancellation_app st before after :
  cancellation st (before ++ after) = match cancellation st before with Some t => Some t | None => cancellation st after end.
Proof. unfold cancellation. rewrite omap_app. by destruct (omap _ before). Qed.

Lemma cancellation_late st ops : (∀ op, op ∈ ops → ¬ early st (bop_time op)) → cancellation st ops = None.
Proof.
  induction ops as [|op ops IH]; [done|]. intros H. change (op :: ops) with ([op] ++ ops). rewrite cancellation_app, IH.
  - destruct op as [|t i now]; [done|]. unfold cancellation. simpl. rewrite decide_False; [done|].
    exact (H (CancelOp t i now) ltac:(left)).
  - intros op' Hin. apply H. by right.
Qed.

(** Time passes along a sequence of requests. *)
Definition in_time (ops : list batch_op) : Prop :=
  ∀ j k a b, j < k → ops !! j = Some a → ops !! k = Some b → (mono (bop_time a) ≤ mono (bop_time b))%Z.

Lemma phase_stays ops key st j k a b : in_time ops → j < k → ops !! j = Some a → ops !! k = Some b →
  match phase_at st (on_batch key (take j ops)) (bop_time a) with
  | InProgress => True
  | p => phase_at st (on_batch key (take k ops)) (bop_time b) = p
  end.
Proof.
  intros Ht Hjk Ha Hb. unfold phase_at.
  assert (take k ops = take j ops ++ drop j (take k ops)) as Hk.
  { rewrite <-(take_drop j (take k ops)) at 1. rewrite take_take. by replace (j `min` k) with j by lia. }
  unfold on_batch. rewrite Hk, filter_app, cancellation_app.
  destruct (cancellation st (filter _ (take j ops))) as [t|]; [done|].
  destruct (decide (early st (bop_time a))) as [|Hlate]; [done|].
  rewrite cancellation_late.
  - rewrite decide_False; [done|]. unfold early in *. specialize (Ht j k a b Hjk Ha Hb). lia.
  - intros op [_ [i Hi]%list_elem_of_lookup]%list_elem_of_filter. rewrite lookup_drop in Hi.
    assert (j + i < k) by (apply lookup_lt_Some in Hi; rewrite length_take in Hi; lia).
    rewrite lookup_take_lt in Hi by done. unfold early in *. destruct i as [|i].
    { rewrite Nat.add_0_r in Hi. naive_solver. }
    specialize (Ht j (j + S i) a op ltac:(lia) Ha Hi). lia.
Qed.

(** C10: however a batch is polled and cancelled, in any interleaving with requests of
    other tenants and for other batches, it is in progress until its delay is over, and
    completed from then on unless a cancellation came earlier, the first of which decides
    for good: once a request found the batch completed or cancelled, every later one
    does, with the same times. Every poll is answered with the batch as its phase shows
    it, the tallies only when it has ended and the files only when it completed; a
    cancellation answers the cancelled batch while it is in progress and 409 after. *)
Theorem batch_lifecycle ops h tenant id st :
  get_batch tenant id (bh_store h) = Some st → just_created st →
  (∀ k op, ops !! k = Some op → bop_key op = (tenant, id) →
     run_batches ops h !! k = Some (batch_answer st (on_batch (tenant, id) (take k ops)) op)) ∧
  (in_time ops → ∀ j k a b, j < k → ops !! j = Some a → ops !! k = Some b →
     match phase_at st (on_batch (tenant, id) (take j ops)) (bop_time a) with
     | InProgress => True
     | p => phase_at st (on_batch (tenant, id) (take k ops)) (bop_time b) = p
     end).
Proof.
  intros Hget Hst. split; [|intros Ht j k a b; by apply phase_stays].
  apply (run_batches_spec ops h tenant id st []); done.
Qed.
End life.

(** ** Creating a batch *)

Definition batches_hold (K : string → list (string * batchState)) (s : batchStore) : Prop := ∀ t,
  holds maxBatchesPerTenant (K t) (default ∅ (bs_m s !! t)) (default [] (bs_order s !! t)).

Definition batches_ok (s : batchStore) : Prop := ∃ K, batches_hold K s.

#[local] Opaque maxBatchesPerTenant.

Lemma batches_ok_put tenant st s : batches_ok s → get_batch tenant (bt_ID (bs_base st)) s = None →
  batches_ok (put_batch tenant st s) ∧ get_batch tenant (bt_ID (bs_base st)) (put_batch tenant st s) = Some st.
Proof.
  intros [K HK] Hnew. pose proof (HK tenant) as Ht. set (id := bt_ID (bs_base st)) in *.
  assert (find_kept id (K tenant) = None) as Hfree.
  { rewrite <-(holds_lookup _ _ _ _ id Ht). unfold get_batch, lookup2 in Hnew. by destruct (bs_m s !! tenant). }
  apply find_kept_None in Hfree as Hid. pose proof (holds_append _ id st _ _ _ Ht Hid) as Hk.
  unfold put_batch. fold id. destruct (evict_oldest _ _ _ _) as [byID ids]. split.
  - exists (λ t, if decide (t = tenant) then keep maxBatchesPerTenant id st (K t) else K t). intros t.
    cbn [bs_m bs_order]. destruct (decide (t = tenant)) as [->|Hne]; [by rewrite !lookup_insert_eq|].
    by rewrite !lookup_insert_ne by congruence.
  - unfold get_batch, lookup2. cbn [bs_m]. rewrite lookup_insert_eq. cbn [mbind option_bind].
    rewrite (holds_lookup _ _ _ _ id Hk). unfold keep. rewrite decide_False by done.
    destruct maxBatchesPerTenant eqn:Hcap; [by vm_compute in Hcap|]. rewrite last_n_snoc, find_kept_app.
    assert (find_kept id [(id, st)] = Some st) as -> by (unfold find_kept; simpl; by rewrite bool_decide_true).
    assert (find_kept id (last_n n (K tenant)) = None) as ->; [|done].
    unfold last_n. rewrite <-(take_drop (length (K tenant) - n) (K tenant)), find_kept_app in Hfree.
    by destruct (find_kept id (take _ _)).
Qed.

Lemma get_batch_put_tenant t tenant id st s : t ≠ tenant → get_batch t id (put_batch tenant st s) = get_batch t id s.
Proof.
  intros Hne. unfold get_batch, put_batch, lookup2. destruct (evict_oldest _ _ _ _). cbn [bs_m].
  by rewrite lookup_insert_ne by congruence.
Qed.

Lemma parseBatchDelay_bounds text d : parseBatchDelay text = inr d → (0 ≤ d ≤ maxBatchDelayMs * Millisecond)%Z.
Proof. unfold parseBatchDelay, maxBatchDelayMs, Millisecond. intros H. repeat case_match; simplify_eq; lia. Qed.

(** A generated file can be downloaded under its id, and has none when it is empty. *)
Definition generated_file (files : fileStore) (tenant id data : string) : Prop :=
  if decide (data = "") then id = ""%string
  else id ≠ ""%string ∧ ∃ e, get tenant id files = Some e ∧ fe_data e = data.

(** The ids drawn for a batch and its files are new. *)
Definition new_ids (env : BatchEnv) (tenant : string) (h : BatchesHandler) : Prop :=
  generateID (be_out_draws env).2 ≠ generateID (be_err_draws env).2 ∧
  get tenant ("file-" +:+ generateID (be_out_draws env).2) (bh_files h) = None ∧
  get_batch tenant ("batch_" +:+ generateID (be_id_draw env)) (bh_store h) = None.

Lemma generated_files out err env tenant files :
  files_ok files → get tenant ("file-" +:+ generateID (be_out_draws env).2) files = None →
  generateID (be_out_draws env).2 ≠ generateID (be_err_draws env).2 →
  let '(files1, outID) := generated (be_out_draws env) (be_out_now env) tenant "_output.jsonl" out files in
  let '(files2, errID) := generated (be_err_draws env) (be_err_now env) tenant "_errors.jsonl" err files1 in
  files_ok files2 ∧ generated_file files2 tenant outID out ∧ generated_file files2 tenant errID err ∧
  ∀ t id, t ≠ tenant → get t id files2 = get t id files.
Proof.
  intros Hok Hnew Hne. unfold generated, generated_file, putGeneratedFile.
  destruct (decide (out = "")) as [Ho|Ho], (decide (err = "")) as [He|He]; cbn [fe_ID].
  - by split_and!.
  - split_and!; [by apply files_ok_put|done|done|eexists; split; [apply get_put|done]|intros; by apply get_put_tenant].
  - split_and!; [by apply files_ok_put|done|eexists; split; [apply get_put|done]|done|intros; by apply get_put_tenant].
  - split; [by apply files_ok_put, files_ok_put|]. split_and!; [done| |done|eexists; split; [apply get_put|done]
      |intros; by rewrite !get_put_tenant].
    eexists. split; [apply (get_put_next tenant (mkFileEntry _ _ _ _ _ _)); [done|exact Hnew|]|done].
    cbn [fe_ID]. intros Heq. by apply (str_app_inj "file-"%string) in Heq.
Qed.

Section create.
Context {W : Type} {fmt : GoFmt} {bjson : BatchJson}.

(** a request for a batch without an input file, an endpoint that is served, a file
    the tenant has, or a valid delay is refused, and nothing changes. Otherwise the file
    is processed on behalf of the tenant; a new batch, with its delay, its tallies and
    the moment of its creation, is stored for the tenant and answered as it is seen at
    that moment; its output and error files, where they have content, can be downloaded
    by the tenant under the ids the batch shows once it completed; and no file or batch
    of another tenant is touched. *)
Theorem HandleCreate_correct (env : BatchEnv) (eps : @Endpoints W) unmarshal r meta h w :
  files_ok (bh_files h) → batches_ok (bh_store h) → new_ids env (hr_tenant r) h →
  let '(h', w', meta', answer) := HandleCreate env eps unmarshal r meta h w in
  files_ok (bh_files h') ∧ batches_ok (bh_store h') ∧
  (∀ t id, t ≠ hr_tenant r → get t id (bh_files h') = get t id (bh_files h) ∧
     get_batch t id (bh_store h') = get_batch t id (bh_store h)) ∧
  match answer with
  | JSON status _ (BatchObject b) => status = 200%Z ∧ ∃ req file out err counts st,
      decodeJSONBody unmarshal r = inr req ∧
      get (hr_tenant r) (cb_InputFileID req) (bh_files h) = Some file ∧
      process eps (hr_tenant r) (cb_Endpoint req) (be_draws env) (fe_data file) w = (w', Some (inr (out, err, counts))) ∧
      parseBatchDelay (get_header r batchDelayHeader) = inr (bs_delay st) ∧
      bs_createdAt st = be_now env ∧ bs_counts st = counts ∧ just_created st ∧
      get_batch (hr_tenant r) (bt_ID b) (bh_store h') = Some st ∧
      b = seen_as st (phase_at st [] (be_now env)) ∧
      generated_file (bh_files h') (hr_tenant r) (bs_outputFileID st) out ∧
      generated_file (bh_files h') (hr_tenant r) (bs_errorFileID st) err
  | JSON status _ (BatchError _ _) => h' = h ∧ w' = w ∧ status ∈ [400; 404; 413]%Z
  | Panicked => h' = h
  | _ => False
  end.
Proof.
  intros Hf Hb (Hids & Hout & Hid). unfold HandleCreate.
  destruct (decodeJSONBody unmarshal r) as [[|err]|req]; [split_and!; try done; set_solver..|].
  unfold create_batch. case_decide; [split_and!; try done; set_solver|].
  case_decide; [split_and!; try done; set_solver|]. case_decide; [split_and!; try done; set_solver|].
  destruct (get (hr_tenant r) (cb_InputFileID req) (bh_files h)) as [file|] eqn:Hfile; [|split_and!; try done; set_solver].
  destruct (parseBatchDelay (get_header r batchDelayHeader)) as [?|delay] eqn:Hd; [split_and!; try done; set_solver|].
  destruct (process _ _ _ _ _ w) as [w1 [[msg|[[out err] counts]]|]] eqn:Hp; [|..|by split_and!].
  { assert (w1 = w) as -> by (unfold process in Hp; repeat case_decide; [by simplify_eq..|]; by destruct (process_lines _ _ _ _ _ _ _ _) as [? []]).
    split_and!; try done. set_solver. }
  pose proof (generated_files out err env (hr_tenant r) (bh_files h) Hf Hout Hids) as Hgen.
  destruct (generated (be_out_draws env) _ _ _ _ _) as [files1 outID].
  destruct (generated (be_err_draws env) _ _ _ _ _) as [files2 errID]. destruct Hgen as (Hf2 & Ho & He & Hother).
  set (st := new_batch env req delay counts outID errID).
  destruct (batches_ok_put (hr_tenant r) st (bh_store h) Hb Hid) as [Hb2 Hget].
  assert (just_created st) as Hst.
  { pose proof (parseBatchDelay_bounds _ _ Hd) as Hbound. split_and!; try done; simpl; unfold maxBatchDelayMs, Millisecond, two63 in *; lia. }
  split_and!; [done|done|intros t id Hne; split; [by apply Hother|by apply get_batch_put_tenant]|].
  split; [done|].
  exists req, file, out, err, counts, st. split_and!; try done.
  - by unfold render; repeat case_match.
  - pose proof (render_seen st [] (be_now env) Hst) as Hr. exact Hr.
Qed.
End create.

(** ** Examples *)

#[local] Existing Instance plain_fmt.

(** An encoding of lines for examples: three fields, and one object. *)
#[local] Instance ex_json : BatchJson := {|
  ParseLine s := match Split "|" s with [custom; url; body] => Some (mkInputLine custom "" url body) | _ => None end;
  MarshalLine l := Some (match ol_Error l with Some _ => "{error}" | None => "{ok}" end)%string;
  ParseObject s := if decide (s = "{stream}") then Some {["stream" := "true"]}
                   else if decide (s = "{still}") then Some {["stream" := "false"]} else None;
  MarshalObject m := Some "{still}"
|}%string.

#[local] Instance ex_laws : BatchJsonLaws.
Proof.
  split.
  - intros l b [= <-]. destruct (ol_Error l); vm_compute; by split_and!.
  - intros s m _. by exists "{still}"%string, {["stream" := "false"]}%string.
Defined.

(** An endpoint that counts its calls and fails on one body. *)
Definition ex_endpoint : @handler_func nat := λ r calls,
  (S calls, Some [WriteHeader (if decide (hr_body r = "boom") then 500 else 200)%Z; WriteBytes (hr_body r +:+ String newline "")]).

Definition ex_endpoints : @Endpoints nat := mkEndpoints {["/v1/x" := ex_endpoint]}%string (λ _, true).

(** A request, one with its id, text that is no line, and a request that fails. *)
Definition ex_input : string :=
  ("a|/v1/x|{stream}" +:+ String newline "a|/v1/x|hi" +:+ byte 13 +:+ String newline "junk" +:+
   String newline (String newline "b|/v1/x|boom"))%string.

Definition ex_draws (i : nat) : Z * Z := (Z.of_nat i, Z.of_nat i).

Example process_case :
  process ex_endpoints "t1" "/v1/x" ex_draws ex_input 0 =
    (2, Some (inr ("{ok}" +:+ String newline "{ok}" +:+ String newline "",
                   "{error}" +:+ String newline "{error}" +:+ String newline "", mkCounts 4 1 3)))%string.
Proof. by vm_compute. Qed.


Definition ex_batch_env : BatchEnv :=
  mkBatchEnv ex_draws (mkTime 5000000000 10) (1, 2)%Z (mkTime 5000000000 10) (3, 4)%Z (mkTime 5000000000 10) 5.

Definition ex_create : createBatchRequest := mkCreateBatch "file-1" "/v1/x" "" [].

Definition ex_batches : BatchesHandler :=
  mkBatchesHandler (put "t1" (mkFileEntry "file-1" 0 0 "in" "batch" ex_input) newFileStore) newBatchStore.

Definition ex_delayed : HttpRequest :=
  mkHttpRequest "/v1/batches" {[batchDelayHeader := "2000"]} "{}" None "t1".

Definition ex_created : BatchesHandler :=
  (HandleCreate ex_batch_env ex_endpoints (λ _, inr ex_create) ex_delayed None ex_batches 0).1.1.1.

Lemma batches_ok_new : batches_ok newBatchStore.
Proof.
  exists (λ _, []). intros t. cbn [newBatchStore bs_m bs_order]. rewrite !lookup_empty. apply holds_empty.
Qed.

Lemma HandleCreate_correct_witness :
  let '(h', w', _, answer) := HandleCreate ex_batch_env ex_endpoints (λ _, inr ex_create) ex_delayed None ex_batches 0 in
  files_ok (bh_files h') ∧ batches_ok (bh_store h') ∧ w' = 2 ∧
  match answer with JSON 200 _ (BatchObject b) => bt_Status b = "in_progress"%string | _ => False end.
Proof.
  pose proof (HandleCreate_correct ex_batch_env ex_endpoints (λ _, inr ex_create) ex_delayed None ex_batches 0
    (files_ok_put _ _ _ files_ok_new) batches_ok_new ltac:(vm_compute; by split_and!)) as H.
  assert (match HandleCreate ex_batch_env ex_endpoints (λ _, inr ex_create) ex_delayed None ex_batches 0 with
          | (_, w', _, JSON 200 _ (BatchObject b)) => w' = 2 ∧ bt_Status b = "in_progress"%string | _ => False end)
    as Hrun by (vm_compute; by split).
  destruct (HandleCreate _ _ _ _ _ _ _) as [[[h' w'] meta'] answer]. destruct H as (Hf & Hb & _).
  split_and!; [done|done|..]; by repeat case_match; destruct Hrun.
Defined.

(** Polled, cancelled in time, polled after its delay, cancelled again. *)
Definition ex_life : list batch_op :=
  [PollOp "t1" "batch_5" (mkTime 5000000000 20); CancelOp "t2" "batch_5" (mkTime 5000000000 20);
   CancelOp "t1" "batch_5" (mkTime 6000000000 30); PollOp "t1" "batch_5" (mkTime 9000000000 9000000000);
   CancelOp "t1" "batch_5" (mkTime 9000000000 9000000000)]%string.

Example life_case :
  (λ a : reply batches_body Empty_set, match a with JSON s _ (BatchObject b) => (s, bt_Status b) | JSON s _ _ => (s, ""%string) | _ => (0%Z, ""%string) end)
    <$> run_batches ex_life ex_created =
  [(200, "in_progress"); (404, ""); (200, "cancelled"); (200, "cancelled"); (409, "")]%Z%string.
Proof. by vm_compute. Qed.

Lemma batch_lifecycle_witness :
  ∃ st, get_batch "t1" "batch_5" (bh_store ex_created) = Some st ∧ just_created st ∧
    run_batches ex_life ex_created !! 3 =
      Some (writeJSON ∅ 200 (BatchObject (seen_as st (Cancelled (mkTime 6000000000 30))))).
Proof.
  destruct (get_batch "t1" "batch_5" (bh_store ex_created)) as [st|] eqn:Hget; [|by vm_compute in Hget].
  assert (just_created st) as Hst by (vm_compute in Hget; injection Hget as <-; vm_compute; by split_and!).
  exists st. split; [done|]. split; [done|].
  destruct (batch_lifecycle ex_life ex_created "t1" "batch_5" st Hget Hst) as [Hrun _].
  rewrite (Hrun 3 (PollOp "t1" "batch_5" (mkTime 9000000000 9000000000)) eq_refl eq_refl).
  unfold batch_answer. do 4 f_equal. vm_compute in Hget. injection Hget as <-. by vm_compute.
Defined.
