(* ===== verification/Moderations.v ===== *)
(** The OpenAI Moderations API, [internal/adapter/moderations.go]: a text is classified
    by keywords and by a score drawn from a generator its hash seeds.

    [encoding/json] is a parameter: what it makes of the polymorphic input. Sums and
    products round separately, as on the platforms where Go does not fuse them. *)

From Stdlib Require Import Ascii.
From S2P Require Import Prelude GoBase GoFloat FloatOrder GoStrings GoRand AdapterCore.
From S2P Require ToolProcessor Engine.

Definition ProtocolOpenAIModerations : string := "openai-moderations".
Definition maxModerationInputs : nat := Eval cbv in 2048.
Definition defaultModerationModel : string := "omni-moderation-latest".

(** The doubles nearest to 0.5, 0.08, 0.55 and 0.99. *)
Definition moderationFlagThreshold : float64 := S754_finite false 4503599627370496 (-53).
Definition baseline_scale : float64 := S754_finite false 5764607523034235 (-56).
Definition boost_offset : float64 := S754_finite false 4953959590107546 (-53).
Definition score_cap : float64 := S754_finite false 8917127262193582 (-53).

Definition allModerationCategories : list string := [
  "harassment"; "harassment/threatening"; "hate"; "hate/threatening"; "illicit"; "illicit/violent";
  "self-harm"; "self-harm/intent"; "self-harm/instructions"; "sexual"; "sexual/minors"; "violence";
  "violence/graphic"]%string.

Definition moderationKeywords : gmap string (list string) := list_to_map [
  ("harassment", ["harass"; "bully"; "stalk"; "intimidate"]);
  ("harassment/threatening", ["i'll kill you"; "going to attack you"; "you're dead"; "will hurt you"]);
  ("hate", ["bigot"; "they are inferior"; "subhuman"]);
  ("hate/threatening", ["death to all"; "exterminate the"; "wipe them out"]);
  ("illicit", ["how to steal"; "buy drugs"; "black market"; "how to cheat"]);
  ("illicit/violent", ["build a bomb"; "make a weapon"; "synthesize explosive"]);
  ("self-harm", ["cut myself"; "harm myself"; "hurt myself"]);
  ("self-harm/intent", ["kill myself"; "end my life"; "want to die"]);
  ("self-harm/instructions", ["how to kill myself"; "ways to commit suicide"; "steps to self-harm"]);
  ("sexual", ["explicit sexual"; "pornographic"; "nude content"]);
  ("sexual/minors", ["child pornography"; "minor explicit"; "underage sexual"]);
  ("violence", ["kill"; "attack"; "bomb"; "murder"; "shoot"; "stab"; "massacre"]);
  ("violence/graphic", ["decapitated"; "dismembered"; "graphic torture"; "bloody massacre"])]%string.

(** ** Requests and answers *)

Record ModerationsRequest := mkModerationsRequest {
  md_Input : string;                  (* raw JSON; empty when absent *)
  md_Model : string
}.

Record ModerationResult := mkModerationResult {
  mo_Flagged : bool;
  mo_Categories : gmap string bool;
  mo_CategoryScores : gmap string float64;
  mo_AppliedInputTypes : gmap string (list string)
}.

Record moderationInputPart := mkInputPart { ip_Type : string; ip_Text : string }.

Class ModerationsJson := {
  ParseString : string → option string;
  ParseStrings : string → option (list string);
  ParseParts : string → option (list moderationInputPart)
}.

Inductive moderations_body :=
| ModerationsResponse (id model : string) (results : list ModerationResult)
| ModerationsError (type message : string).

Abbreviation moderations_reply := (reply moderations_body Empty_set).

Definition moderation_error (status : Z) (message : string) : moderations_reply :=
  writeJSON ∅ status (ModerationsError "invalid_request_error" message).

Definition too_many_inputs (max : nat) : string :=
  ("input array must not exceed " +:+ fmt_d (Z.of_nat max) +:+ " elements")%string.

Section parsing.
Context {mjson : ModerationsJson}.

(** The text of a part, or the refusal of an empty one. *)
Definition part_text (p : moderationInputPart) : option string :=
  if decide (ip_Type p = "text") then if decide (ip_Text p = "") then None else Some (ip_Text p) else Some "".

Definition parseModerationInputs (raw : string) : string + list string :=
  (if decide (raw = "") then inl "input is required"
  else
    match ParseString raw with
    | Some s => if decide (s = "") then inl "input must not be empty" else inr [s]
    | None =>
        match ParseStrings raw with
        | Some ss =>
            if decide (length ss = 0) then inl "input array must not be empty"
            else if decide (maxModerationInputs < length ss) then inl (too_many_inputs maxModerationInputs)
            else if decide ("" ∈ ss) then inl "input must not contain empty strings"
            else inr ss
        | None =>
            match ParseParts raw with
            | Some parts =>
                if decide (length parts = 0) then inl "input array must not be empty"
                else if decide (maxModerationInputs < length parts) then inl (too_many_inputs maxModerationInputs)
                else match mapM part_text parts with
                     | None => inl "text content part must not be empty"
                     | Some out => inr out
                     end
            | None => inl "input must be a string, an array of strings, or content parts"
            end
        end
    end)%string.
End parsing.

(** ** Scores *)

Definition isWordByte (b : ascii) : bool :=
  bool_decide (b = "_"%char) ||
  let n := nat_of_ascii b in
  bool_decide (97 ≤ n ≤ 122) || bool_decide (65 ≤ n ≤ 90) || bool_decide (48 ≤ n ≤ 57).

(** The byte at an index in range. *)
Definition word_at (i : nat) (text : string) : bool :=
  match String.get i text with Some b => isWordByte b | None => false end.

(** Every turn starts behind the last match, so the length of the text is enough fuel. *)
Fixpoint contains_from (fuel : nat) (text term : string) (from : nat) : bool :=
  match fuel with
  | O => false
  | S fuel =>
      match Index (str_drop from text) term with
      | None => false
      | Some i =>
          let i := i + from in
          let beforeOK := bool_decide (i = 0) || negb (word_at (i - 1) text) in
          let afterOK := bool_decide (String.length text ≤ i + String.length term) ||
                         negb (word_at (i + String.length term) text) in
          if beforeOK && afterOK then true else contains_from fuel text term (i + 1)
      end
  end.

Definition containsTerm (text term : string) : bool :=
  if decide (term = "") then false else contains_from (S (String.length text)) text term 0.

Definition matchesCategory (lower category : string) : bool :=
  existsb (containsTerm lower) (default [] (moderationKeywords !! category)).

Definition moderationScore (text lower category : string) : float64 :=
  let h := fnv_write category (fnv_write Engine.NUL (fnv_write text fnv_offset)) in
  let '(u, _) := Float64 (NewPCG h golden_ratio) in
  let base := f64_mul u baseline_scale in
  if matchesCategory lower category then
    let s := f64_add boost_offset (f64_mul base (f64_of_Z 5)) in
    if f64_lt score_cap s then score_cap else s
  else base.

Section moderation.
Context {golower : GoLower} {mjson : ModerationsJson}.

(** One turn of the loop over the categories. *)
Definition classify (text lower : string) (r : ModerationResult) (c : string) : ModerationResult :=
  let score := moderationScore text lower c in
  let hit := f64_lt moderationFlagThreshold score in
  mkModerationResult (if hit then true else mo_Flagged r) (<[c := hit]> (mo_Categories r))
    (<[c := score]> (mo_CategoryScores r)) (<[c := ["text"%string]]> (mo_AppliedInputTypes r)).

Definition moderateText (text : string) : ModerationResult :=
  foldl (classify text (ToLower text)) (mkModerationResult false ∅ ∅ ∅) allModerationCategories.

Definition HandleModerations (unmarshal : string → string + ModerationsRequest) (id_draw : Z)
    (r : HttpRequest) (meta : option RequestMeta) : option RequestMeta * moderations_reply :=
  let meta := set_protocol ProtocolOpenAIModerations meta in
  match decodeJSONBody unmarshal r with
  | inl BodyTooLarge => (meta, moderation_error 413 "request body too large")
  | inl (DecodeError err) => (meta, moderation_error 400 ("invalid JSON: " +:+ err))
  | inr req =>
      match parseModerationInputs (md_Input req) with
      | inl err => (meta, moderation_error 400 err)
      | inr inputs =>
          let model := if decide (md_Model req = "") then defaultModerationModel else md_Model req in
          (set_model model meta,
           writeJSON ∅ 200 (ModerationsResponse ("modr-" +:+ generateID id_draw) model (moderateText <$> inputs)))
      end
  end.
End moderation.

(** ** Terms at word boundaries *)

(** A text ends, or begins, at a boundary. *)
Definition ends_clean (a : string) : Prop := ∀ x c, a = (x +:+ String c "")%string → isWordByte c = false.
Definition starts_clean (b : string) : Prop := match b with EmptyString => True | String c _ => isWordByte c = false end.

(** The term occurs, glued to no ASCII letter, digit or underscore. *)
Definition occurs (term text : string) : Prop :=
  ∃ a b, text = (a +:+ term +:+ b)%string ∧ ends_clean a ∧ starts_clean b.

Example boundaries :
  containsTerm "skill" "kill" = false ∧ containsTerm "skill to kill" "kill" = true ∧
  containsTerm "black marketing" "black market" = false ∧ containsTerm "killkill kill" "kill" = true ∧
  containsTerm "" "kill" = false ∧ containsTerm "kill" "" = false.
Proof. by vm_compute. Qed.

Lemma get_app p c s : String.get (String.length p) (p +:+ String c s) = Some c.
Proof. by induction p. Qed.

Lemma str_last s : s = "" ∨ ∃ x c, s = (x +:+ String c "")%string.
Proof.
  induction s as [|a s [->|(x & c & ->)]]; [by left|right..]; [by exists "", a|by exists (String a x), c].
Qed.

Lemma ends_clean_snoc x c : ends_clean (x +:+ String c "") ↔ isWordByte c = false.
Proof.
  split; [intros H; by apply (H x)|]. intros Hc y d Heq.
  assert (x = y ∧ String c "" = String d "") as [_ [= <-]]; [|done]. by apply str_app_inj_r.
Qed.

(** The tests of the code. *)
Lemma ends_clean_at p s :
  bool_decide (String.length p = 0) || negb (word_at (String.length p - 1) (p +:+ s)) = true ↔ ends_clean p.
Proof.
  destruct (str_last p) as [->|(x & c & ->)].
  { split; [|done]. intros _ x c H. by destruct x. }
  rewrite ends_clean_snoc, str_length_app. cbn [String.length].
  rewrite bool_decide_false by lia. replace (String.length x + 1 - 1) with (String.length x) by lia.
  unfold word_at. rewrite str_app_assoc. change (String c "" +:+ s)%string with (String c s).
  rewrite get_app. apply negb_true_iff.
Qed.

Lemma starts_clean_at q v :
  bool_decide (String.length (q +:+ v) ≤ String.length q) || negb (word_at (String.length q) (q +:+ v)) = true ↔
  starts_clean v.
Proof.
  rewrite str_length_app. destruct v as [|c v]; cbn [starts_clean String.length].
  - by rewrite bool_decide_true by lia.
  - rewrite bool_decide_false by lia. unfold word_at. rewrite get_app. apply negb_true_iff.
Qed.

Lemma contains_from_spec fuel p rest term : term ≠ "" → String.length rest < fuel →
  contains_from fuel (p +:+ rest) term (String.length p) = true ↔
  ∃ x b, rest = (x +:+ term +:+ b)%string ∧ ends_clean (p +:+ x) ∧ starts_clean b.
Proof.
  intros Ht. revert p rest. induction fuel as [|fuel IH]; intros p rest Hl; [lia|]. cbn [contains_from].
  rewrite str_drop_app. destruct (Index rest term) as [i|] eqn:Hi.
  2:{ split; [done|]. intros (x & b & -> & _). by destruct (proj1 (Index_None _ _) Hi x b). }
  destruct (Index_Some rest term i Ht Hi) as (pre & value & -> & <- & Hfirst).
  rewrite Nat.add_comm, <-str_length_app, <-str_app_assoc.
  pose proof (ends_clean_at (p +:+ pre) (term +:+ value)) as Hb.
  pose proof (starts_clean_at ((p +:+ pre) +:+ term) value) as Ha.
  rewrite str_app_assoc, (str_length_app (p +:+ pre) term) in Ha.
  case_match eqn:Hok.
  { apply andb_true_iff in Hok as [H1 H2]. split; [|done]. intros _. exists pre, value.
    split; [done|]. split; [by apply Hb|by apply Ha]. }
  destruct term as [|c t]; [done|]. set (term := String c t) in *.
  replace (String.length (p +:+ pre) + 1) with (String.length (p +:+ pre +:+ String c ""))
    by (rewrite !str_length_app; cbn; lia).
  change (term +:+ value)%string with (String c "" +:+ (t +:+ value))%string.
  rewrite (str_app_assoc p pre), <-(str_app_assoc pre), <-(str_app_assoc p).
  rewrite (IH (p +:+ pre +:+ String c "")%string (t +:+ value)%string).
  2:{ rewrite str_length_app, (str_length_app term) in Hl. rewrite str_length_app. cbn [term String.length] in Hl. lia. }
  split.
  - intros (x & b & Heq & Hx & Hv). exists (pre +:+ String c "" +:+ x)%string, b.
    rewrite !str_app_assoc in *. by rewrite Heq.
  - intros (x & b & Heq & Hx & Hv). rewrite str_app_assoc in Heq.
    assert (x ≠ pre) as Hne.
    { intros ->. apply str_app_inj in Heq. change (term +:+ value = term +:+ b)%string in Heq.
      apply str_app_inj in Heq as <-. apply andb_false_iff in Hok as [Hf|Hf].
      - destruct Hb as [_ Hb]. rewrite (Hb Hx) in Hf. done.
      - destruct Ha as [_ Ha]. rewrite (Ha Hv) in Hf. done. }
    destruct (str_app_eq_app _ _ _ _ Heq) as (e & [[-> He]|[-> He]]).
    + exfalso. destruct e as [|d e]; [by rewrite str_app_nil_r in Hne|].
      change (String c "" +:+ (t +:+ value))%string with (term +:+ value)%string in He.
      rewrite <-str_app_assoc in He. destruct (str_app_eq_app _ _ _ _ He) as (e' & [[He' _]|[He' _]]).
      * apply (f_equal String.length) in He'. rewrite !str_length_app in He'. cbn in He'. lia.
      * assert (e' = "") as ->.
        { apply (Hfirst x e'). by rewrite str_app_assoc, He'. }
        apply (f_equal String.length) in He'. rewrite !str_length_app in He'. cbn in He'. lia.
    + destruct e as [|d e]; [by rewrite str_app_nil_r in Hne|]. injection He as <- He.
      exists e, b. split; [done|]. split; [|done]. by rewrite !str_app_assoc in *.
Qed.

Lemma containsTerm_occurs text term : term ≠ "" → containsTerm text term = true ↔ occurs term text.
Proof.
  intros Ht. unfold containsTerm. rewrite decide_False by done.
  apply (contains_from_spec _ "" text term Ht). lia.
Qed.

(** ** Scores *)

Definition flags (lower category : string) : Prop :=
  ∃ kw, kw ∈ default [] (moderationKeywords !! category) ∧ occurs kw lower.

Lemma keywords_nonempty c kw : kw ∈ default [] (moderationKeywords !! c) → kw ≠ "".
Proof.
  destruct (moderationKeywords !! c) as [kws|] eqn:Hk; [|by intros H%not_elem_of_nil].
  unfold moderationKeywords in Hk. apply elem_of_list_to_map_2 in Hk. cbn [default]. intros Hkw.
  match type of Hk with _ ∈ ?l =>
    assert (Forall (λ p, Forall (λ kw, kw ≠ "") p.2) l) as HF by (apply (bool_decide_unpack _); by vm_compute)
  end.
  rewrite Forall_forall in HF. specialize (HF _ Hk). rewrite Forall_forall in HF. by apply HF.
Qed.

Lemma matchesCategory_flags lower c : matchesCategory lower c = true ↔ flags lower c.
Proof.
  unfold matchesCategory. rewrite existsb_exists. unfold flags. split.
  - intros (kw & Hin%list_elem_of_In & Hc). exists kw. split; [done|].
    apply containsTerm_occurs; [by eapply keywords_nonempty|done].
  - intros (kw & Hin & Hc). exists kw. split; [by apply list_elem_of_In|].
    apply containsTerm_occurs; [by eapply keywords_nonempty|done].
Qed.

(** The double nearest to 0.95. *)
Definition max_score : float64 := S754_finite false 8556839292003942 (-53).

(** The greatest double below one. *)
Definition max_unit : float64 := S754_finite false 9007199254740991 (-53).

Ltac nonneg :=
  eexists; match goal with |- denotes _ ?f _ => let f' := eval vm_compute in f in change f with f' end;
  split; [by vm_compute|split; [done|reflexivity]].

Lemma Float64_unit p : within 0 f64_zero max_unit (Float64 p).1.
Proof.
  unfold Float64. destruct (Uint64 p) as [u p']. cbn [fst].
  match goal with |- context [f64_of_Z (Z.shiftr ?a 11)] => assert (0 ≤ Z.shiftr a 11 < 2 ^ 53)%Z as Hk end.
  { rewrite Z.shiftr_div_pow2 by done. pose proof (Z.mod_pos_bound (Z.shiftl u 11) two64 ltac:(done)).
    unfold two64 in *. split; [apply Z.div_pos; lia|apply Z.div_lt_upper_bound; lia]. }
  eexists 0%Z, _, _. split; [done|]. split; [by apply unit_denotes|]. split.
  - change max_unit with (f64_div (f64_of_Z (2 ^ 53 - 1)) (f64_of_Z (2 ^ 53))). by apply unit_denotes.
  - lia.
Qed.

(** A benign score stays below 0.08, a boosted one between 0.55 and 0.95; the threshold
    lies in between. *)
Lemma score_bounds text lower c : let s := moderationScore text lower c in
  f64_lt moderationFlagThreshold s = matchesCategory lower c ∧
  if matchesCategory lower c then f64_le boost_offset s = true ∧ f64_le s max_score = true
  else f64_le f64_zero s = true ∧ f64_lt s baseline_scale = true.
Proof.
  unfold moderationScore. set (seed := NewPCG _ _). pose proof (Float64_unit seed) as Hu.
  destruct (Float64 seed) as [u p]. cbn [fst] in Hu. cbv zeta.
  assert (within 55 f64_zero (f64_mul max_unit baseline_scale) (f64_mul u baseline_scale)) as Hbase.
  { exact (within_mul 0 0 f64_zero max_unit u baseline_scale ltac:(done) Hu ltac:(nonneg)). }
  case_match.
  - assert (within 110 f64_zero (f64_mul (f64_mul max_unit baseline_scale) (f64_of_Z 5))
      (f64_mul (f64_mul u baseline_scale) (f64_of_Z 5))) as Hs.
    { exact (within_mul 55 0 f64_zero _ _ (f64_of_Z 5) ltac:(done) Hbase ltac:(nonneg)). }
    apply (within_add 110 _ _ _ boost_offset) in Hs; [|done|nonneg].
    destruct (within_bounds _ 0 _ _ _ boost_offset max_score Hs) as (Hlo & _ & Hhi & _); [nonneg|nonneg|].
    destruct (within_bounds _ 0 _ _ _ moderationFlagThreshold max_score Hs) as (_ & Hthr & _); [nonneg|nonneg|].
    set (s := f64_add boost_offset (f64_mul (f64_mul u baseline_scale) (f64_of_Z 5))) in *.
    rewrite (within_not_above _ 0 _ _ s score_cap Hs) by (nonneg || by vm_compute).
    split; [by apply Hthr|]. split; [by apply Hlo|by apply Hhi].
  - destruct (within_bounds _ 0 _ _ _ f64_zero baseline_scale Hbase) as (Hlo & _ & _ & Hhi); [by eexists|nonneg|].
    split; [|split; [by apply Hlo|by apply Hhi]].
    apply (within_not_above _ 0 _ _ _ moderationFlagThreshold Hbase); [nonneg|by vm_compute].
Qed.

(** ** The classification of a text *)

Section results.
Context {golower : GoLower} {mjson : ModerationsJson}.

(** What a result says of a text: a category is flagged exactly when one of its terms
    occurs in the lowercased text; its score tells the two cases apart. *)
Definition category_ok (text : string) (r : ModerationResult) (c : string) : Prop :=
  ∃ hit score, mo_Categories r !! c = Some hit ∧ mo_CategoryScores r !! c = Some score ∧
    mo_AppliedInputTypes r !! c = Some ["text"%string] ∧
    (hit = true ↔ flags (ToLower text) c) ∧
    (if hit then f64_le boost_offset score = true ∧ f64_le score max_score = true
     else f64_le f64_zero score = true ∧ f64_lt score baseline_scale = true).

Definition result_ok (text : string) (r : ModerationResult) : Prop :=
  dom (mo_Categories r) = list_to_set allModerationCategories ∧
  dom (mo_CategoryScores r) = list_to_set allModerationCategories ∧
  dom (mo_AppliedInputTypes r) = list_to_set allModerationCategories ∧
  Forall (category_ok text r) allModerationCategories ∧
  (mo_Flagged r = true ↔ Exists (flags (ToLower text)) allModerationCategories).

Lemma classify_all text lower l r0 : let r := foldl (classify text lower) r0 l in
  (∀ c, mo_Categories r !! c = if decide (c ∈ l) then Some (matchesCategory lower c) else mo_Categories r0 !! c) ∧
  (∀ c, mo_CategoryScores r !! c = if decide (c ∈ l) then Some (moderationScore text lower c) else mo_CategoryScores r0 !! c) ∧
  (∀ c, mo_AppliedInputTypes r !! c = if decide (c ∈ l) then Some ["text"%string] else mo_AppliedInputTypes r0 !! c) ∧
  mo_Flagged r = mo_Flagged r0 || existsb (matchesCategory lower) l.
Proof.
  revert r0. induction l as [|c l IH]; intros r0; cbn [foldl existsb].
  { cbv zeta. split_and!; [intros c; by rewrite decide_False by (by apply not_elem_of_nil)..|by rewrite orb_false_r]. }
  destruct (IH (classify text lower r0 c)) as (H1 & H2 & H3 & H4).
  unfold classify at 3 in H1. unfold classify at 3 in H2. unfold classify at 3 in H3. unfold classify at 3 in H4.
  cbn [mo_Categories mo_CategoryScores mo_AppliedInputTypes mo_Flagged] in H1, H2, H3, H4.
  rewrite (proj1 (score_bounds text lower c)) in H1, H4.
  split_and!; [intros d; rewrite ?H1, ?H2, ?H3; destruct (decide (d = c)) as [->|Hne]..|].
  1, 3, 5: rewrite lookup_insert_eq, (decide_True (P := c ∈ c :: l)) by left; by case_decide.
  1-3: rewrite lookup_insert_ne by done; case_decide;
    [by rewrite decide_True by by right|by rewrite decide_False by by rewrite not_elem_of_cons].
  rewrite H4. destruct (matchesCategory lower c); [by rewrite orb_true_r|done].
Qed.

Lemma moderateText_ok text : result_ok text (moderateText text).
Proof.
  unfold moderateText. pose proof (classify_all text (ToLower text) allModerationCategories (mkModerationResult false ∅ ∅ ∅)) as Hall.
  set (r := foldl _ _ _) in Hall |- *. clearbody r. destruct Hall as (H1 & H2 & H3 & H4).
  cbn [mo_Categories mo_CategoryScores mo_AppliedInputTypes mo_Flagged orb] in H1, H2, H3, H4.
  assert (∀ (A : Type) (m : gmap string A) f, (∀ c, m !! c = if decide (c ∈ allModerationCategories) then Some (f c) else (∅ : gmap string A) !! c) →
    dom m = list_to_set allModerationCategories) as Hdom.
  { intros A m f Hm. apply set_eq. intros c. rewrite elem_of_dom, elem_of_list_to_set, Hm.
    case_decide; [by split|]. rewrite lookup_empty. split; [by intros [? ?]|done]. }
  split; [exact (Hdom _ _ _ H1)|]. split; [exact (Hdom _ _ _ H2)|]. split; [exact (Hdom _ _ (λ _, _) H3)|]. split.
  - apply Forall_forall. intros c Hc. destruct (score_bounds text (ToLower text) c) as [_ Hs].
    exists (matchesCategory (ToLower text) c), (moderationScore text (ToLower text) c).
    rewrite H1, H2, H3, !decide_True by done. do 3 (split; [done|]).
    split; [apply matchesCategory_flags|exact Hs].
  - rewrite H4, existsb_exists, Exists_exists.
    split; intros (c & Hc & Hm); exists c; (split; [by apply list_elem_of_In|by apply matchesCategory_flags]).
Qed.

(** ** Requests *)

(** What an input part stands for. *)
Definition part_reads (p : moderationInputPart) (text : string) : Prop :=
  if decide (ip_Type p = "text") then text = ip_Text p ∧ text ≠ "" else text = "".

(** The texts an input stands for: itself, its strings or its parts, up to 2048, and
    none of those the client wrote empty. *)
Definition input_texts (raw : string) (texts : list string) : Prop :=
  raw ≠ "" ∧ 1 ≤ length texts ≤ 2048 ∧
  match ParseString raw with
  | Some s => s ≠ "" ∧ texts = [s]
  | None =>
      match ParseStrings raw with
      | Some ss => texts = ss ∧ "" ∉ ss
      | None => ∃ parts, ParseParts raw = Some parts ∧ Forall2 part_reads parts texts
      end
  end.

Lemma part_text_reads p text : part_text p = Some text ↔ part_reads p text.
Proof.
  unfold part_text, part_reads. case_decide; [|split; [by intros [= <-]|by intros ->]].
  case_decide as Ht; [rewrite Ht; split; [done|by intros [-> ?]]|]. split; [by intros [= <-]|by intros [-> _]].
Qed.

Lemma parseModerationInputs_texts raw texts :
  parseModerationInputs raw = inr texts ↔ input_texts raw texts.
Proof.
  unfold parseModerationInputs, input_texts, maxModerationInputs. case_decide; [naive_solver|].
  destruct (ParseString raw) as [s|].
  { case_decide; [naive_solver|]. split; [intros [= <-]; simpl; split_and!; [done|lia|lia|done|done]|naive_solver]. }
  destruct (ParseStrings raw) as [ss|].
  { repeat case_decide; (split; [try done; intros [= <-]; split_and!; done || lia|]); intros (_ & Hl & -> & Hn); try done; lia. }
  destruct (ParseParts raw) as [parts|]; [|naive_solver].
  assert (∀ texts, mapM part_text parts = Some texts ↔ Forall2 part_reads parts texts) as HM.
  { intros t. rewrite mapM_Some. split; intros HF; (eapply Forall2_impl; [exact HF|]); intros p s; apply part_text_reads. }
  split.
  - repeat case_decide; [done..|]. destruct (mapM _ _) as [out|] eqn:Hout; [|done]. intros [= <-].
    pose proof (proj1 (HM _) eq_refl) as HF. rewrite <-(Forall2_length _ _ _ HF). split_and!; [done|lia|lia|by eexists].
  - intros (_ & Hl & parts' & [= <-] & HF). rewrite <-(Forall2_length _ _ _ HF) in Hl.
    rewrite !decide_False by lia. by rewrite (proj2 (HM _) HF).
Qed.


End results.
