(* ===== verification/Embeddings.v ===== *)
(** The OpenAI Embeddings API, [internal/adapter/embeddings.go]: a vector is a function of
    the text, the model and the width, drawn from a generator their hash seeds.

    [encoding/json] is a parameter, as is the normal distribution of [math/rand/v2] (a
    table of the library): what it draws from a generator, and the generator after. *)

From Stdlib Require Import Ascii.
From S2P Require Import Prelude GoBase GoFloat FloatOrder GoStrings GoRand Base64 AgentTypes ToolProcessor AdapterCore.
From S2P Require Engine.

Definition ProtocolOpenAIEmbeddings : string := "openai-embeddings".
Definition maxEmbeddingInputs : nat := Eval cbv in 2048.

Record EmbeddingsRequest := mkEmbeddingsRequest {
  eb_Model : string;
  eb_Input : string;                  (* raw JSON; empty when absent *)
  eb_EncodingFormat : string;
  eb_Dimensions : option Z;
  eb_User : string
}.

(** ** float32 *)

Definition float32 := spec_float.

Definition f32_of_f64 (f : float64) : float32 :=
  match f with S754_finite s m e => binary_round 24 128 s m e | _ => f end.

Definition f64_of_f32 (f : float32) : float64 :=
  match f with S754_finite s m e => binary_round 53 1024 s m e | _ => f end.

Definition f64_sqrt (f : float64) : float64 := SFsqrt 53 1024 f.

(** [math.Float32bits]. *)
Definition Float32bits (f : float32) : Z :=
  let sign (s : bool) := (if s then 2 ^ 31 else 0)%Z in
  match f with
  | S754_zero s => sign s
  | S754_infinity s => sign s + 255 * 2 ^ 23
  | S754_nan => 255 * 2 ^ 23 + 2 ^ 22
  | S754_finite s m e => sign s + (if decide (2 ^ 23 ≤ Z.pos m) then (e + 150) * 2 ^ 23 + (Z.pos m - 2 ^ 23) else Z.pos m)
  end%Z.

(** The [n] low bytes of a word, lowest first. *)
Fixpoint le_bytes (n : nat) (z : Z) : list Z :=
  match n with O => [] | S n => (z mod 256)%Z :: le_bytes n (z / 256)%Z end.

(** ** Vectors *)

Inductive embedding_value := Floats (vec : list float32) | Base64 (text : string).

Record EmbeddingData := mkEmbeddingData { ed_Index : Z; ed_Embedding : embedding_value }.

Record embeddingInput := mkEmbeddingInput { ei_seed : string; ei_tokenCount : Z }.

Class EmbeddingsJson := {
  ParseString : string → option string;
  ParseStrings : string → option (list string);
  ParseTokens : string → option (list Z);
  ParseMatrix : string → option (list (list Z))
}.

(** [*rand.Rand]'s [NormFloat64] over a PCG. *)
Class GoNormal := NormFloat64 : Z → float64 * Z.

Inductive embeddings_body :=
| EmbeddingsResponse (data : list EmbeddingData) (model : string) (prompt_tokens total_tokens : Z)
| EmbeddingsError (type message : string).

Abbreviation embeddings_reply := (reply embeddings_body Empty_set).

Definition embedding_error (status : Z) (message : string) : embeddings_reply :=
  writeJSON ∅ status (EmbeddingsError "invalid_request_error" message).

Definition checkBatchSize (n : nat) : option string :=
  if decide (maxEmbeddingInputs < n)
  then Some ("input array must not exceed " +:+ fmt_d (Z.of_nat maxEmbeddingInputs) +:+ " elements")%string
  else None.

Definition tokensToString (toks : list Z) : string := Join (fmt_d <$> toks) ",".

Definition token_input (toks : list Z) : embeddingInput :=
  mkEmbeddingInput (tokensToString toks) (Z.of_nat (length toks)).
Definition text_input (s : string) : embeddingInput := mkEmbeddingInput s 0.

Definition parseEmbeddingInputs {ejson : EmbeddingsJson} (raw : string) : string + list embeddingInput :=
  (if decide (raw = "") then inl "input is required"
  else
    match ParseString raw with
    | Some s => if decide (s = "") then inl "input must not be empty" else inr [text_input s]
    | None =>
        match ParseStrings raw with
        | Some ss =>
            if decide (length ss = 0) then inl "input array must not be empty"
            else match checkBatchSize (length ss) with
                 | Some err => inl err
                 | None => if decide ("" ∈ ss) then inl "input must not contain empty strings"
                           else inr (text_input <$> ss)
                 end
        | None =>
            match ParseTokens raw with
            | Some toks =>
                if decide (length toks = 0) then inl "input array must not be empty" else inr [token_input toks]
            | None =>
                match ParseMatrix raw with
                | Some matrix =>
                    if decide (length matrix = 0) then inl "input array must not be empty"
                    else match checkBatchSize (length matrix) with
                         | Some err => inl err
                         | None => if decide ([] ∈ matrix) then inl "input must not contain empty token arrays"
                                   else inr (token_input <$> matrix)
                         end
                | None => inl "input must be a string, an array of strings, or token-id array(s)"
                end
            end
        end
    end)%string.

Section embeddings.
Context {golower : GoLower} {fmt : GoFmt} {conv : GoConv} {ejson : EmbeddingsJson} {gonormal : GoNormal}.

Definition defaultDimensions (model : string) : Z :=
  if decide (ToLower model = "text-embedding-3-large") then 3072 else 1536.

Definition supportsDimensions (model : string) : bool := bool_decide (ToLower model ≠ "text-embedding-ada-002").

(** The loop that draws the vector. *)
Fixpoint draw_vector (n : nat) (rng : Z) : list float32 :=
  match n with
  | O => []
  | S n => let '(x, rng) := NormFloat64 rng in f32_of_f64 x :: draw_vector n rng
  end.

Definition sum_squares (vec : list float32) : float64 :=
  foldl (λ sumSq x, f64_add sumSq (f64_mul (f64_of_f32 x) (f64_of_f32 x))) f64_zero vec.

(** The double nearest to 1e-9. *)
Definition norm_floor : float64 := S754_finite false 4835703278458517 (-82).

Definition normalize (vec : list float32) : list float32 :=
  let norm := f64_sqrt (sum_squares vec) in
  if f64_lt norm_floor norm then (λ x, f32_of_f64 (f64_div (f64_of_f32 x) norm)) <$> vec else vec.

Definition embedding_seed (text model : string) (dims : Z) : Z :=
  let h := fnv_write Engine.NUL (fnv_write text (fnv_write Engine.NUL (fnv_write model fnv_offset))) in
  foldl (λ h b, fnv_write (String (ascii_of_nat (Z.to_nat b)) "") h) h (le_bytes 8 dims).

Definition generateEmbedding (text model : string) (dims : Z) : list float32 :=
  normalize (draw_vector (Z.to_nat dims) (NewPCG (embedding_seed text model dims) golden_ratio)).

Definition encodeBase64Embedding (vec : list float32) : string :=
  StdEncode (vec ≫= λ f, le_bytes 4 (Float32bits f)).

(** One element of the answer, and its part of the token count. *)
Definition embed_one (base64 : bool) (model : string) (dims : Z) (i : nat) (input : embeddingInput) : EmbeddingData :=
  let vec := generateEmbedding (ei_seed input) model dims in
  mkEmbeddingData (Z.of_nat i) (if base64 then Base64 (encodeBase64Embedding vec) else Floats vec).

Definition input_tokens (input : embeddingInput) : Z :=
  if decide (0 < ei_tokenCount input)%Z then ei_tokenCount input else EstimateTokens (ei_seed input).

(** The width a request asks for. *)
Definition request_dimensions (req : EmbeddingsRequest) : string + Z :=
  let dims := defaultDimensions (eb_Model req) in
  match eb_Dimensions req with
  | None => inr dims
  | Some d =>
      if negb (supportsDimensions (eb_Model req)) then
        inl ("dimensions is not supported by model " +:+ Quote (eb_Model req))%string
      else if decide (d < 1)%Z then inl "dimensions must be a positive integer"%string
      else inr (if decide (d < dims)%Z then d else dims)
  end.

Definition encoding_base64 (format : string) : option bool :=
  if decide (format = "" ∨ format = "float") then Some false
  else if decide (format = "base64") then Some true else None.

Definition HandleEmbeddings (unmarshal : string → string + EmbeddingsRequest) (r : HttpRequest)
    (meta : option RequestMeta) : option RequestMeta * embeddings_reply :=
  let meta := set_protocol ProtocolOpenAIEmbeddings meta in
  match decodeJSONBody unmarshal r with
  | inl BodyTooLarge => (meta, embedding_error 413 "request body too large")
  | inl (DecodeError err) => (meta, embedding_error 400 ("invalid JSON: " +:+ err))
  | inr req =>
      if decide (eb_Model req = "") then (meta, embedding_error 400 "model is required")
      else
        match encoding_base64 (eb_EncodingFormat req) with
        | None =>
            (meta, embedding_error 400 ("encoding_format must be 'float' or 'base64', got " +:+ Quote (eb_EncodingFormat req)))
        | Some base64 =>
            match parseEmbeddingInputs (eb_Input req) with
            | inl err => (meta, embedding_error 400 err)
            | inr inputs =>
                match request_dimensions req with
                | inl err => (meta, embedding_error 400 err)
                | inr dims =>
                    let data := imap (embed_one base64 (eb_Model req) dims) inputs in
                    let promptTokens := foldl (λ n input, wrap64 (n + input_tokens input)) 0%Z inputs in
                    (set_model (eb_Model req) meta,
                     writeJSON ∅ 200 (EmbeddingsResponse data (eb_Model req) promptTokens promptTokens))
                end
            end
        end
  end.
End embeddings.

Example float32_bits :
  Float32bits (f32_of_f64 f64_one) = 0x3F800000%Z ∧
  Float32bits (f32_of_f64 (f64_div f64_one (f64_of_Z (-3)))) = 0xBEAAAAAB%Z ∧
  StdEncode [77; 97; 110; 77; 97]%Z = "TWFuTWE="%string.
Proof. by vm_compute. Qed.

(** ** Reading a vector back *)

Definition of_le_bytes (bs : list Z) : Z := foldr (λ b z, b + 256 * z)%Z 0%Z bs.

(** [math.Float32frombits]. *)
Definition Float32frombits (n : Z) : float32 :=
  let s := bool_decide (2 ^ 31 ≤ n)%Z in
  let ex := (n / 2 ^ 23 mod 256)%Z in
  let fr := (n mod 2 ^ 23)%Z in
  if decide (ex = 255)%Z then if decide (fr = 0)%Z then S754_infinity s else S754_nan
  else match (if decide (ex = 0)%Z then fr else fr + 2 ^ 23)%Z with
       | Z.pos m => S754_finite s m (if decide (ex = 0)%Z then -149 else ex - 150)%Z
       | _ => S754_zero s
       end.

Fixpoint floats_of (bs : list Z) : option (list float32) :=
  match bs with
  | [] => Some []
  | a :: b :: c :: d :: bs => fs ← floats_of bs; Some (Float32frombits (of_le_bytes [a; b; c; d]) :: fs)
  | _ => None
  end.

(** What a client makes of either form. *)
Definition read_embedding (v : embedding_value) : option (list float32) :=
  match v with Floats vec => Some vec | Base64 text => bs ← StdDecode text; floats_of bs end.

Lemma le_bytes_bytes n z : Forall is_byte (le_bytes n z).
Proof. revert z. induction n as [|n IH]; intros z; constructor; [apply Z.mod_pos_bound; done|apply IH]. Qed.

Lemma of_le_bytes_4 z : (0 ≤ z < 2 ^ 32)%Z → of_le_bytes (le_bytes 4 z) = z.
Proof. intros Hz. cbn [le_bytes of_le_bytes foldr]. Z.to_euclidean_division_equations; lia. Qed.

Definition f32_valid (f : float32) : Prop := valid_binary 24 128 f = true.

Lemma f32_of_f64_valid f : f32_valid (f32_of_f64 f).
Proof. destruct f; try done. apply binary_round_valid. lia. Qed.

Lemma f32_valid_finite s m e : f32_valid (S754_finite s m e) ↔
  e = Z.max (Z.log2 (Z.pos m) - 23 + e) (-149) ∧ (e ≤ 104)%Z.
Proof.
  unfold f32_valid, valid_binary, bounded. rewrite andb_true_iff, canonical_log2, Z.leb_le.
  unfold SpecFloat.emin. lia.
Qed.

Lemma bits_roundtrip f : f32_valid f → (0 ≤ Float32bits f < 2 ^ 32)%Z ∧ Float32frombits (Float32bits f) = f.
Proof.
  destruct f as [s|s| |s m e]; [intros _..|].
  1, 2: by destruct s. 1: done.
  intros [He Hm]%f32_valid_finite.
  assert (Z.pos m < 2 ^ 24)%Z as Hlt.
  { apply Z.log2_lt_cancel. change (Z.log2 (2 ^ 24)) with 24%Z. lia. }
  assert ((8388608 ≤ Z.pos m)%Z ∨ e = (-149)%Z) as Hn.
  { destruct (decide (8388608 ≤ Z.pos m)%Z); [by left|right].
    assert (Z.log2 (Z.pos m) < 23)%Z by (apply Z.log2_lt_pow2; lia). lia. }
  assert (Z.log2 (Z.pos m) ≤ 23)%Z as Hlog by (apply Z.lt_succ_r, Z.log2_lt_pow2; lia).
  unfold Float32bits, Float32frombits.
  change (2 ^ 31)%Z with 2147483648%Z. change (2 ^ 23)%Z with 8388608%Z. change (2 ^ 24)%Z with 16777216%Z in *.
  change (2 ^ 32)%Z with 4294967296%Z. set (sg := if s then 2147483648%Z else 0%Z).
  assert (sg = 0 ∨ sg = 2147483648)%Z as Hsg by (unfold sg; destruct s; lia).
  case_decide as Hc.
  - set (n := (sg + _)%Z).
    assert (n / 8388608 mod 256 = e + 150 ∧ n mod 8388608 = Z.pos m - 8388608)%Z as [-> ->] by (unfold n; arith).
    split; [unfold n; lia|]. rewrite !decide_False by lia. replace (Z.pos m - 8388608 + 8388608)%Z with (Z.pos m) by lia.
    f_equal; [|lia]. unfold n, sg. destruct s; [apply bool_decide_eq_true|apply bool_decide_eq_false]; lia.
  - set (n := (sg + _)%Z).
    assert (n / 8388608 mod 256 = 0 ∧ n mod 8388608 = Z.pos m)%Z as [-> ->] by (unfold n; arith).
    split; [unfold n; lia|]. cbn [decide]. 
    rewrite decide_False by lia. rewrite !decide_True by lia.
    f_equal; [|lia]. unfold n, sg. destruct s; [apply bool_decide_eq_true|apply bool_decide_eq_false]; lia.
Qed.

Lemma floats_of_bits vec : Forall f32_valid vec →
  floats_of (vec ≫= λ f, le_bytes 4 (Float32bits f)) = Some vec.
Proof.
  induction 1 as [|f vec Hf Hvec IH]; [done|]. destruct (bits_roundtrip f Hf) as [Hr Hb].
  rewrite bind_cons. revert IH. generalize (vec ≫= λ f, le_bytes 4 (Float32bits f)) as rest. intros rest IH.
  pose proof (of_le_bytes_4 _ Hr) as Ho. revert Ho. cbn [le_bytes app floats_of]. intros ->. by rewrite IH, Hb.
Qed.

(** Both forms of a vector read back as the vector. *)
Lemma encodeBase64_roundtrip vec : Forall f32_valid vec → read_embedding (Base64 (encodeBase64Embedding vec)) = Some vec.
Proof.
  intros Hv. cbn [read_embedding]. unfold encodeBase64Embedding. rewrite decode_encode; [by apply floats_of_bits|].
  clear Hv. induction vec as [|f vec IH]; [constructor|]. rewrite bind_cons. apply Forall_app. split; [apply le_bytes_bytes|done].
Qed.

(** ** Requests *)

Section results.
Context {golower : GoLower} {fmt : GoFmt} {conv : GoConv} {ejson : EmbeddingsJson} {gonormal : GoNormal}.

(** The inputs the polymorphic document stands for: one text, texts, one text of tokens,
    or several; none empty, and 2048 at most. *)
Definition embedding_inputs (raw : string) (inputs : list embeddingInput) : Prop :=
  raw ≠ "" ∧ 1 ≤ length inputs ≤ 2048 ∧
  match ParseString raw, ParseStrings raw, ParseTokens raw, ParseMatrix raw with
  | Some s, _, _, _ => s ≠ "" ∧ inputs = [text_input s]
  | None, Some ss, _, _ => "" ∉ ss ∧ inputs = (text_input <$> ss)
  | None, None, Some toks, _ => toks ≠ [] ∧ inputs = [token_input toks]
  | None, None, None, Some matrix => [] ∉ matrix ∧ inputs = (token_input <$> matrix)
  | None, None, None, None => False
  end.

(** The native width of a model, and the widths a request may ask for. *)
Definition native_width (model : string) : Z :=
  if decide (ToLower model = "text-embedding-3-large") then 3072 else 1536.

Definition width_asked (req : EmbeddingsRequest) (dims : Z) : Prop :=
  match eb_Dimensions req with
  | None => dims = native_width (eb_Model req)
  | Some d => ToLower (eb_Model req) ≠ "text-embedding-ada-002" ∧ (1 ≤ d)%Z ∧ dims = Z.min d (native_width (eb_Model req))
  end.

Definition well_asked (req : EmbeddingsRequest) (inputs : list embeddingInput) (dims : Z) : Prop :=
  eb_Model req ≠ "" ∧ eb_EncodingFormat req ∈ [""; "float"; "base64"]%string ∧
  embedding_inputs (eb_Input req) inputs ∧ width_asked req dims.

(** The element at a position: the vector of its input, in the form asked for. *)
Definition element_ok (req : EmbeddingsRequest) (dims : Z) (i : nat) (input : embeddingInput) (d : EmbeddingData) : Prop :=
  let vec := generateEmbedding (ei_seed input) (eb_Model req) dims in
  ed_Index d = Z.of_nat i ∧ Z.of_nat (length vec) = dims ∧ Forall f32_valid vec ∧
  read_embedding (ed_Embedding d) = Some vec ∧
  (eb_EncodingFormat req = "base64" ↔ ∃ text, ed_Embedding d = Base64 text).

Lemma draw_vector_ok n rng : length (draw_vector n rng) = n ∧ Forall f32_valid (draw_vector n rng).
Proof.
  revert rng. induction n as [|n IH]; intros rng; [by split|]. cbn [draw_vector].
  destruct (NormFloat64 rng) as [x rng']. destruct (IH rng') as [Hl HF]. split; [simpl; by rewrite Hl|].
  constructor; [apply f32_of_f64_valid|done].
Qed.

Lemma generateEmbedding_ok text model dims : (0 ≤ dims)%Z →
  let vec := generateEmbedding text model dims in Z.of_nat (length vec) = dims ∧ Forall f32_valid vec.
Proof.
  intros Hd. unfold generateEmbedding, normalize.
  destruct (draw_vector_ok (Z.to_nat dims) (NewPCG (embedding_seed text model dims) golden_ratio)) as [Hl HF].
  case_match; [|split; [lia|done]]. split; [rewrite length_fmap; lia|].
  apply Forall_fmap, Forall_forall. intros x _. apply f32_of_f64_valid.
Qed.

Lemma parseEmbeddingInputs_inputs raw inputs :
  parseEmbeddingInputs raw = inr inputs ↔ embedding_inputs raw inputs.
Proof.
  unfold parseEmbeddingInputs, embedding_inputs, checkBatchSize, maxEmbeddingInputs.
  case_decide as Hraw; [naive_solver|].
  destruct (ParseString raw) as [s|].
  { case_decide; [naive_solver|]. split; [intros [= <-]; simpl; split_and!; done || lia|by intros (_ & _ & _ & ->)]. }
  destruct (ParseStrings raw) as [ss|].
  { split.
    - repeat case_decide; try done; intros [= <-]. rewrite length_fmap. split_and!; done || lia.
    - intros (_ & Hl & Hn & ->). rewrite length_fmap in Hl. rewrite !decide_False by lia. by rewrite decide_False. }
  destruct (ParseTokens raw) as [toks|].
  { split.
    - case_decide as Hl; [done|]. intros [= <-]. simpl. split_and!; try done || lia. by intros ->.
    - intros (_ & _ & Hn & ->). rewrite decide_False; [done|]. by destruct toks. }
  destruct (ParseMatrix raw) as [matrix|]; [|naive_solver].
  split.
  - repeat case_decide; try done; intros [= <-]. rewrite length_fmap. split_and!; done || lia.
  - intros (_ & Hl & Hn & ->). rewrite length_fmap in Hl. rewrite !decide_False by lia. by rewrite decide_False.
Qed.

Lemma request_dimensions_asked req dims : request_dimensions req = inr dims ↔ width_asked req dims.
Proof.
  unfold request_dimensions, width_asked, supportsDimensions, defaultDimensions, native_width.
  destruct (eb_Dimensions req) as [d|]; [|split; [by intros [= <-]|by intros ->]].
  destruct (bool_decide _) eqn:Hs; bool_prop; cbn [negb]; [|naive_solver].
  case_decide; [split; [done|intros (_ & ? & _); lia]|].
  split.
  - intros [= <-]. split; [done|]. split; [lia|]. repeat case_decide; lia.
  - intros (_ & _ & ->). f_equal. repeat case_decide; lia.
Qed.

Lemma width_range req dims : width_asked req dims → (1 ≤ dims ≤ native_width (eb_Model req))%Z.
Proof.
  unfold width_asked, native_width. destruct (eb_Dimensions req) as [d|].
  - intros (_ & Hd & ->). case_decide; lia.
  - intros ->. case_decide; lia.
Qed.

Lemma encoding_base64_spec format b : encoding_base64 format = Some b ↔
  format ∈ [""; "float"; "base64"]%string ∧ b = bool_decide (format = "base64"%string).
Proof.
  unfold encoding_base64. rewrite !elem_of_cons, elem_of_nil.
  repeat case_decide; destruct_or?; subst; try naive_solver.
Qed.

Lemma embed_one_ok req dims b i input : (0 ≤ dims)%Z → b = bool_decide (eb_EncodingFormat req = "base64"%string) →
  element_ok req dims i input (embed_one b (eb_Model req) dims i input).
Proof.
  intros Hd ->. unfold element_ok, embed_one. destruct (generateEmbedding_ok (ei_seed input) (eb_Model req) dims Hd) as [Hl HF].
  cbn [ed_Index ed_Embedding]. do 3 (split; [done|]). case_bool_decide as Hb.
  - split; [by apply encodeBase64_roundtrip|]. split; [by eexists|done].
  - split; [done|]. split; [done|by intros [? ?]].
Qed.

(** C39: A request is answered when it names a model, a known encoding, one to 2048 inputs
    that are not empty, and a width its model can be cut down to: with one vector for
    each input, in order, of exactly that width, from 1 to the native width of the
    model. Either form of a vector reads back as the same float32 values, the ones the
    text, the model and the width determine; the usage adds up the tokens of the inputs.
    Every other request is refused with 413 or 400. *)
Theorem HandleEmbeddings_correct unmarshal r meta :
  let '(meta', answer) := HandleEmbeddings unmarshal r meta in
  let meta := set_protocol ProtocolOpenAIEmbeddings meta in
  (∃ req inputs dims data,
     decodeJSONBody unmarshal r = inr req ∧ well_asked req inputs dims ∧
     (1 ≤ dims ≤ native_width (eb_Model req))%Z ∧ length data = length inputs ∧
     (∀ i input d, (inputs !! i, data !! i) = (Some input, Some d) → element_ok req dims i input d) ∧
     (let tokens := foldl (λ n input, wrap64 (n + input_tokens input)) 0%Z inputs in
      answer = writeJSON ∅ 200 (EmbeddingsResponse data (eb_Model req) tokens tokens)) ∧
     meta' = set_model (eb_Model req) meta) ∨
  (¬ ∃ req inputs dims, decodeJSONBody unmarshal r = inr req ∧ well_asked req inputs dims) ∧
  ∃ err, answer = embedding_error (match decodeJSONBody unmarshal r with inl BodyTooLarge => 413 | _ => 400 end) err ∧
         meta' = meta.
Proof.
  unfold HandleEmbeddings, well_asked. destruct (decodeJSONBody unmarshal r) as [[|err]|req].
  1, 2: right; split; [naive_solver|]; by eexists.
  case_decide as Hm; [right; split; [naive_solver|by eexists]|].
  destruct (encoding_base64 (eb_EncodingFormat req)) as [b|] eqn:Hb.
  2:{ right. split; [|by eexists]. intros (req' & inputs & dims & [= <-] & _ & Hf & _).
      pose proof (proj2 (encoding_base64_spec _ _) (conj Hf eq_refl)). congruence. }
  apply encoding_base64_spec in Hb as [Hf Hb].
  destruct (parseEmbeddingInputs (eb_Input req)) as [err|inputs] eqn:Hp.
  { right. split; [|by eexists]. intros (req' & inputs & dims & [= <-] & _ & _ & Hi%parseEmbeddingInputs_inputs & _). congruence. }
  destruct (request_dimensions req) as [err|dims] eqn:Hd.
  { right. split; [|by eexists]. intros (req' & inputs' & dims & [= <-] & _ & _ & _ & Hw%request_dimensions_asked). congruence. }
  apply parseEmbeddingInputs_inputs in Hp. apply request_dimensions_asked in Hd. pose proof (width_range req dims Hd).
  left. exists req, inputs, dims, (imap (embed_one b (eb_Model req) dims) inputs).
  split; [done|]. split; [done|]. split; [done|]. split; [apply length_imap|]. split; [|done].
  intros i input d [= Hi Hx]. rewrite list_lookup_imap, Hi in Hx. injection Hx as <-. apply embed_one_ok; [lia|done].
Qed.

End results.
