(* ===== verification/TenancyStore.v ===== *)
(** The tenancy store, [internal/tenancy/store.go], [identity_sqlite.go] and
    [sessions.go]: tenants, API keys, single-sign-on users and their sessions, quotas and
    spend, in an SQL database with one connection, and the cache of verified keys in front
    of it.

    A table is the list of its rows. The database answers the statements of the code: its
    uniqueness and foreign keys are checked, a deletion cascades; it does not fail
    otherwise. Rows without an order come in any order ([SqlRows]), rows ordered by a
    column are some sorted permutation. [bcrypt], SHA-256 and the RFC 3339 texts of times
    are parameters. Random bytes and clock readings are arguments.

    [postgres_store.go] and [identity_postgres.go] run the same statements. *)

From Stdlib Require Import Ascii.
From S2P Require Import Prelude GoBase GoStrings Base64 ToolProcessor.
From S2P Require Authz AuthCache Quota.

Abbreviation Role := Authz.Role.
Abbreviation Principal := Authz.Principal.
Abbreviation mkPrincipal := Authz.mkPrincipal.

(** ** Rows *)

Record tenant_row := mkTenantRow { tn_id : string; tn_name : string; tn_created : string }.

Record key_row := mkKeyRow {
  ak_id : string; ak_tenant : string; ak_name : string; ak_prefix : string; ak_hash : string;
  ak_role : string; ak_created : string; ak_last_used : option string
}.

Record user_row := mkUserRow {
  us_id : string; us_email : string; us_tenant : string; us_role : string; us_created : string
}.

Record session_row := mkSessionRow {
  se_hash : string; se_user : string; se_tenant : string; se_role : string;
  se_created : string; se_expires : string
}.

Record database := mkDatabase {
  tenants : list tenant_row;
  api_keys : list key_row;
  users : list user_row;
  sessions : list session_row;
  tenant_quotas : gmap string Quota.Config;
  tenant_spend : gmap (string * string) float64
}.

Definition empty_database : database := mkDatabase [] [] [] [] ∅ ∅.

(** The order rows come in. *)
Class SqlRows := {
  sql_rows {A : Type} : list A → list A;
  sql_rows_perm {A : Type} (l : list A) : sql_rows l ≡ₚ l
}.

(** [bcrypt]: a hash with a salt, and whether a password fits it. *)
Class Bcrypt := {
  GenerateFromPassword : Z → string → option string;
  CompareHashAndPassword : string → string → bool
}.

(** Times are nanoseconds; their texts, and what the texts read as. *)
Class GoTimeText := { FormatRFC3339 : Z → string; ParseRFC3339 : string → option Z }.

(** ** Errors and answers *)

Inductive store_error :=
| ErrNotFound (context : string)
| ErrConflict (context : string)
| ErrInvalidKey
| ErrInvalidSession
| ErrStore (text : string).

(** A time a text could not be read as is the zero time. *)
Record Tenant := mkTenant { te_ID : string; te_Name : string; te_CreatedAt : option Z }.

Record APIKey := mkAPIKey {
  ky_ID : string; ky_TenantID : string; ky_Name : string; ky_Prefix : string; ky_Role : Role;
  ky_CreatedAt : option Z; ky_LastUsed : option Z
}.

Record NewAPIKeyResult := mkNewAPIKeyResult { nk_Key : APIKey; nk_Plaintext : string }.

Record User := mkUser {
  ur_ID : string; ur_Email : string; ur_TenantID : string; ur_Role : Role; ur_CreatedAt : option Z
}.

Record Session := mkSession {
  sn_UserID : string; sn_TenantID : string; sn_Role : Role; sn_CreatedAt : Z; sn_ExpiresAt : Z
}.

Record SQLiteStore := mkStore { db : database; cache : option AuthCache.authCache }.

Definition with_db (d : database) (s : SQLiteStore) : SQLiteStore := mkStore d (cache s).
Definition with_keys (ks : list key_row) (d : database) : database :=
  mkDatabase (tenants d) ks (users d) (sessions d) (tenant_quotas d) (tenant_spend d).
Definition with_sessions (ss : list session_row) (d : database) : database :=
  mkDatabase (tenants d) (api_keys d) (users d) ss (tenant_quotas d) (tenant_spend d).

Definition flushed (s : SQLiteStore) : SQLiteStore := mkStore (db s) (AuthCache.Invalidate (cache s)).

(** ** Random texts *)

(** What a new key draws: its id, the bytes of its prefix and of its secret, a salt. *)
Record KeyDraws := mkKeyDraws { kd_id : Z; kd_prefix : Z; kd_secret : list Z; kd_salt : Z }.

Definition randID (prefix : string) (draw : Z) : string := (prefix +:+ "_" +:+ hex_fixed 16 draw)%string.

Definition apiKeyPrefixLen : nat := 12.

Definition generateAPIKey (draws : KeyDraws) : string * string :=
  let prefix := ("mak_" +:+ hex_fixed 8 (kd_prefix draws))%string in
  ((prefix +:+ "_" +:+ RawURLEncode (kd_secret draws))%string, prefix).

Definition sessionTokenPrefix : string := "mas_".

Section store.
Context {mr : MapRange} {rows : SqlRows} {bcrypt : Bcrypt} {sha : Sha256} {gotime : GoTimeText} {fmt : GoFmt}.

Definition hashToken (token : string) : string := sha256_hex token.

Definition generateSessionToken (draw : list Z) : string * string :=
  let token := (sessionTokenPrefix +:+ RawURLEncode draw)%string in (token, hashToken token).

(** ** Tenants *)

Definition scan_tenant (r : tenant_row) : Tenant := mkTenant (tn_id r) (tn_name r) (ParseRFC3339 (tn_created r)).

Definition CreateTenant (name : string) (draw now : Z) (s : SQLiteStore) : SQLiteStore * (store_error + Tenant) :=
  if decide (name = "") then (s, inl (ErrStore "tenant name is required"))
  else
    let id := randID "ten" draw in
    if decide (id ∈ tn_id <$> tenants (db s) ∨ name ∈ tn_name <$> tenants (db s))
    then (s, inl (ErrConflict ("tenant name " +:+ Quote name)))
    else
      let d := db s in
      (with_db (mkDatabase (tenants d ++ [mkTenantRow id name (FormatRFC3339 now)]) (api_keys d) (users d)
                  (sessions d) (tenant_quotas d) (tenant_spend d)) s,
       inr (mkTenant id name (Some now))).

Definition find_tenant (id : string) (d : database) : option tenant_row :=
  head (sql_rows (filter (λ r, tn_id r = id) (tenants d))).

Definition GetTenant (id : string) (s : SQLiteStore) : store_error + Tenant :=
  match find_tenant id (db s) with
  | None => inl (ErrNotFound "")
  | Some r => inr (scan_tenant r)
  end.

Definition GetTenantByName (name : string) (s : SQLiteStore) : store_error + Tenant :=
  match head (sql_rows (filter (λ r, tn_name r = name) (tenants (db s)))) with
  | None => inl (ErrNotFound "")
  | Some r => inr (scan_tenant r)
  end.

Definition ListTenants (s : SQLiteStore) : list Tenant :=
  scan_tenant <$> sort_by tn_created String.le (sql_rows (tenants (db s))).

(** The deletion takes along the rows that refer to the tenant, and to its users. *)
Definition cascade_tenant (id : string) (d : database) : database :=
  let gone := us_id <$> filter (λ u, us_tenant u = id) (users d) in
  mkDatabase (filter (λ r, tn_id r ≠ id) (tenants d)) (filter (λ k, ak_tenant k ≠ id) (api_keys d))
    (filter (λ u, us_tenant u ≠ id) (users d)) (filter (λ x, se_user x ∉ gone) (sessions d))
    (delete id (tenant_quotas d)) (filter (λ p, p.1.1 ≠ id) (tenant_spend d)).

Definition DeleteTenant (id : string) (s : SQLiteStore) : SQLiteStore * option store_error :=
  if decide (id ∈ tn_id <$> tenants (db s)) then (flushed (with_db (cascade_tenant id (db s)) s), None)
  else (s, Some (ErrNotFound "")).

(** ** API keys *)

Definition CreateAPIKey (tenantID name : string) (role : Role) (draws : KeyDraws) (now : Z) (s : SQLiteStore)
  : SQLiteStore * (store_error + NewAPIKeyResult) :=
  if negb (Authz.IsValid role) then (s, inl (ErrStore ("invalid role " +:+ Quote role)))
  else
    match GetTenant tenantID s with
    | inl _ => (s, inl (ErrNotFound ("tenant " +:+ tenantID)))
    | inr _ =>
        let '(plaintext, prefix) := generateAPIKey draws in
        match GenerateFromPassword (kd_salt draws) plaintext with
        | None => (s, inl (ErrStore "bcrypt hash"))
        | Some hash =>
            let id := randID "key" (kd_id draws) in
            if decide (id ∈ ak_id <$> api_keys (db s)) then (s, inl (ErrStore "insert api_key"))
            else
              (with_db (with_keys (api_keys (db s) ++
                          [mkKeyRow id tenantID name prefix hash role (FormatRFC3339 now) None]) (db s)) s,
               inr (mkNewAPIKeyResult (mkAPIKey id tenantID name prefix role (Some now) None) plaintext))
        end
    end.

Definition scan_key (k : key_row) : APIKey :=
  mkAPIKey (ak_id k) (ak_tenant k) (ak_name k) (ak_prefix k) (ak_role k) (ParseRFC3339 (ak_created k))
    (let lastUsed := default "" (ak_last_used k) in if decide (lastUsed = "") then None else ParseRFC3339 lastUsed).

Definition ListAPIKeys (tenantID : string) (s : SQLiteStore) : list APIKey :=
  scan_key <$> sort_by ak_created String.le (sql_rows (filter (λ k, ak_tenant k = tenantID) (api_keys (db s)))).

(** [UPDATE api_keys SET ... WHERE ...], and the number of rows it touched. *)
Definition update_keys (P : key_row → Prop) `{!∀ k, Decision (P k)} (f : key_row → key_row) (d : database) : database :=
  with_keys ((λ k, if decide (P k) then f k else k) <$> api_keys d) d.

Definition set_role (role : string) (k : key_row) : key_row :=
  mkKeyRow (ak_id k) (ak_tenant k) (ak_name k) (ak_prefix k) (ak_hash k) role (ak_created k) (ak_last_used k).
Definition set_secret (prefix hash : string) (k : key_row) : key_row :=
  mkKeyRow (ak_id k) (ak_tenant k) (ak_name k) prefix hash (ak_role k) (ak_created k) None.
Definition set_last_used (t : string) (k : key_row) : key_row :=
  mkKeyRow (ak_id k) (ak_tenant k) (ak_name k) (ak_prefix k) (ak_hash k) (ak_role k) (ak_created k) (Some t).

(** A key of a tenant; another tenant's looks absent. *)
Definition find_key (tenantID id : string) (d : database) : option key_row :=
  head (sql_rows (filter (λ k, ak_id k = id ∧ ak_tenant k = tenantID) (api_keys d))).

Definition UpdateAPIKeyRole (tenantID id : string) (role : Role) (s : SQLiteStore)
  : SQLiteStore * (store_error + Role * Role) :=
  if negb (Authz.IsValid role) then (s, inl (ErrStore ("invalid role " +:+ Quote role)))
  else
    match find_key tenantID id (db s) with
    | None => (s, inl (ErrNotFound ""))
    | Some k =>
        (flushed (with_db (update_keys (λ k, ak_id k = id ∧ ak_tenant k = tenantID) (set_role role) (db s)) s),
         inr (ak_role k, role))
    end.

(** The key after a rotation, as it is answered. *)
Definition rotated (k : key_row) (prefix plaintext : string) : NewAPIKeyResult :=
  mkNewAPIKeyResult (mkAPIKey (ak_id k) (ak_tenant k) (ak_name k) prefix (ak_role k) (ParseRFC3339 (ak_created k)) None)
    plaintext.

Definition RotateAPIKey (callerTenantID id : string) (draws : KeyDraws) (s : SQLiteStore)
  : SQLiteStore * (store_error + NewAPIKeyResult * string) :=
  match find_key callerTenantID id (db s) with
  | None => (s, inl (ErrNotFound ""))
  | Some k =>
      let '(plaintext, newPrefix) := generateAPIKey draws in
      match GenerateFromPassword (kd_salt draws) plaintext with
      | None => (s, inl (ErrStore "bcrypt hash"))
      | Some hash =>
          (flushed (with_db (update_keys (λ k, ak_id k = id) (set_secret newPrefix hash) (db s)) s),
           inr (rotated k newPrefix plaintext, ak_prefix k))
      end
  end.

(** The secrets of the keys to rotate, made before the transaction opens. *)
Fixpoint rotations (draws : nat → KeyDraws) (i : nat) (ks : list key_row)
  : option (list (key_row * (string * string * string))) :=
  match ks with
  | [] => Some []
  | k :: ks =>
      let '(plaintext, newPrefix) := generateAPIKey (draws i) in
      hash ← GenerateFromPassword (kd_salt (draws i)) plaintext;
      rest ← rotations draws (S i) ks;
      Some ((k, (newPrefix, plaintext, hash)) :: rest)
  end.

(** The transaction: one update for each key that is still there. *)
Definition apply_rotation (acc : database * list (NewAPIKeyResult * string)) (rot : key_row * (string * string * string))
  : database * list (NewAPIKeyResult * string) :=
  let '(d, results) := acc in
  let '(k, (newPrefix, plaintext, hash)) := rot in
  if decide (ak_id k ∈ ak_id <$> api_keys d) then
    (update_keys (λ k', ak_id k' = ak_id k) (set_secret newPrefix hash) d,
     results ++ [(rotated k newPrefix plaintext, ak_prefix k)])
  else (d, results).

Definition BulkRotateTenantKeys (tenantID : string) (excludeKeyIDs : list string) (draws : nat → KeyDraws) (s : SQLiteStore)
  : SQLiteStore * (store_error + list (NewAPIKeyResult * string)) :=
  match GetTenant tenantID s with
  | inl e => (s, inl e)
  | inr _ =>
      let excludeSet := filter (λ kid, kid ≠ "") excludeKeyIDs in
      let existing := sort_by ak_created String.le
        (sql_rows (filter (λ k, ak_tenant k = tenantID ∧ ak_id k ∉ excludeSet) (api_keys (db s)))) in
      if decide (length existing = 0) then (s, inr [])
      else
        match rotations draws 0 existing with
        | None => (s, inl (ErrStore "bcrypt hash"))
        | Some rots =>
            let '(d, results) := foldl apply_rotation (db s, []) rots in
            (flushed (with_db d s), inr results)
        end
  end.

Definition DeleteAPIKey (tenantID id : string) (s : SQLiteStore) : SQLiteStore * option store_error :=
  if decide (Exists (λ k, ak_id k = id ∧ ak_tenant k = tenantID) (api_keys (db s))) then
    (flushed (with_db (with_keys (filter (λ k, ¬ (ak_id k = id ∧ ak_tenant k = tenantID)) (api_keys (db s))) (db s)) s), None)
  else (s, Some (ErrNotFound "")).

(** ** Verifying a key *)

Definition lastUsedResolution : Z := Minute.

Definition shouldBumpLastUsed (lastUsed : option string) (now : Z) : bool :=
  match lastUsed with
  | None => true
  | Some text =>
      if decide (text = "") then true
      else match ParseRFC3339 text with
           | None => true
           | Some prev => bool_decide (lastUsedResolution ≤ time_sub now prev)%Z
           end
  end.

(** [mak_], eight more characters, an underscore and something behind it. *)
Definition well_formed_key (plaintext : string) : bool :=
  bool_decide (apiKeyPrefixLen < String.length plaintext) && has_prefix plaintext "mak_" &&
  bool_decide (String.get apiKeyPrefixLen plaintext = Some "_"%char).

(** The readings of the clock a lookup may take: two of the cache, one of the store, two
    of the cache. *)
Record ResolveClock := mkResolveClock { rc_get : Z * Z; rc_now : Z; rc_set : Z * Z }.

Definition principal_of (k : key_row) : Principal := mkPrincipal (ak_tenant k) (ak_id k) (ak_role k).

(** The rows that may be the key's. *)
Definition candidates (plaintext : string) (d : database) : list key_row :=
  sql_rows (filter (λ k, ak_prefix k = str_take apiKeyPrefixLen plaintext) (api_keys d)).

(** What [Resolve] does with the candidates it read. *)
Definition verify (plaintext : string) (clock : ResolveClock) (cands : list key_row) (s : SQLiteStore)
  : SQLiteStore * (store_error + Principal) :=
  match find (λ k, CompareHashAndPassword (ak_hash k) plaintext) cands with
  | None => (s, inl ErrInvalidKey)
  | Some k =>
      let d :=
        if shouldBumpLastUsed (ak_last_used k) (rc_now clock)
        then update_keys (λ k', ak_id k' = ak_id k) (set_last_used (FormatRFC3339 (rc_now clock))) (db s)
        else db s in
      (mkStore d (AuthCache.Set_ plaintext (Some (principal_of k)) (rc_set clock).1 (rc_set clock).2 (cache s)),
       inr (principal_of k))
  end.

Definition Resolve (plaintext : string) (clock : ResolveClock) (s : SQLiteStore)
  : SQLiteStore * (store_error + Principal) :=
  if negb (well_formed_key plaintext) then (s, inl ErrInvalidKey)
  else
    match AuthCache.Get plaintext (rc_get clock).1 (rc_get clock).2 (cache s) with
    | (c, Some cached) => (mkStore (db s) c, inr cached)
    | (c, None) => verify plaintext clock (candidates plaintext (db s)) (mkStore (db s) c)
    end.

(** ** Users and sessions *)

Definition scan_user (u : user_row) : User :=
  mkUser (us_id u) (us_email u) (us_tenant u) (us_role u) (ParseRFC3339 (us_created u)).

Definition GetUserByEmail (email : string) (s : SQLiteStore) : store_error + User :=
  match head (sql_rows (filter (λ u, us_email u = email) (users (db s)))) with
  | None => inl (ErrNotFound "")
  | Some u => inr (scan_user u)
  end.

Definition CreateUser (email tenantID : string) (role : Role) (draw now : Z) (s : SQLiteStore)
  : SQLiteStore * (store_error + User) :=
  if decide (email = "") then (s, inl (ErrStore "user email is required"))
  else if negb (Authz.IsValid role) then (s, inl (ErrStore ("invalid role " +:+ Quote role)))
  else
    match GetTenant tenantID s with
    | inl _ => (s, inl (ErrNotFound ("tenant " +:+ tenantID)))
    | inr _ =>
        let id := randID "usr" draw in
        if decide (id ∈ us_id <$> users (db s) ∨ email ∈ us_email <$> users (db s))
        then (s, inl (ErrConflict ("user email " +:+ Quote email)))
        else
          let d := db s in
          (with_db (mkDatabase (tenants d) (api_keys d)
                      (users d ++ [mkUserRow id email tenantID role (FormatRFC3339 now)]) (sessions d)
                      (tenant_quotas d) (tenant_spend d)) s,
           inr (mkUser id email tenantID role (Some now)))
    end.

Definition CreateSession (userID tenantID : string) (role : Role) (ttl : Z) (draw : list Z) (now : Z) (s : SQLiteStore)
  : SQLiteStore * (store_error + string * Session) :=
  let '(token, hash) := generateSessionToken draw in
  let sess := mkSession userID tenantID role now (now + ttl) in
  if decide (hash ∈ se_hash <$> sessions (db s) ∨ userID ∉ us_id <$> users (db s))
  then (s, inl (ErrStore "insert session"))
  else
    (with_db (with_sessions (sessions (db s) ++
                [mkSessionRow hash userID tenantID role (FormatRFC3339 now) (FormatRFC3339 (now + ttl))]) (db s)) s,
     inr (token, sess)).

Definition drop_session (hash : string) (s : SQLiteStore) : SQLiteStore :=
  with_db (with_sessions (filter (λ x, se_hash x ≠ hash) (sessions (db s))) (db s)) s.

Definition ResolveSession (token : string) (now : Z) (s : SQLiteStore) : SQLiteStore * (store_error + Principal) :=
  if negb (has_prefix token sessionTokenPrefix) then (s, inl ErrInvalidSession)
  else
    let hash := hashToken token in
    match head (sql_rows (filter (λ x, se_hash x = hash) (sessions (db s)))) with
    | None => (s, inl ErrInvalidSession)
    | Some x =>
        let expired := match ParseRFC3339 (se_expires x) with None => true | Some exp => bool_decide (exp < now)%Z end in
        if expired then (drop_session hash s, inl ErrInvalidSession)
        else (s, inr (mkPrincipal (se_tenant x) (se_user x) (se_role x)))
    end.

Definition DeleteSession (token : string) (s : SQLiteStore) : SQLiteStore := drop_session (hashToken token) s.

(** ** Quotas and spend *)

Definition GetTenantQuota (tenantID : string) (s : SQLiteStore) : option Quota.Config := tenant_quotas (db s) !! tenantID.

Definition SetTenantQuota (tenantID : string) (c : Quota.Config) (s : SQLiteStore) : SQLiteStore * option store_error :=
  match GetTenant tenantID s with
  | inl _ => (s, Some (ErrNotFound ("tenant " +:+ tenantID)))
  | inr _ =>
      let d := db s in
      (with_db (mkDatabase (tenants d) (api_keys d) (users d) (sessions d) (<[tenantID := c]> (tenant_quotas d))
                  (tenant_spend d)) s, None)
  end.

(** The row must belong to a tenant. *)
Definition AddSpend (tenantID month : string) (usd : float64) (s : SQLiteStore)
  : SQLiteStore * (store_error + float64) :=
  if decide (tenantID ∉ tn_id <$> tenants (db s)) then (s, inl (ErrStore "FOREIGN KEY constraint failed"))
  else
    let d := db s in
    let total := match tenant_spend d !! (tenantID, month) with Some t => f64_add t usd | None => usd end in
    (with_db (mkDatabase (tenants d) (api_keys d) (users d) (sessions d) (tenant_quotas d)
                (<[(tenantID, month) := total]> (tenant_spend d))) s, inr total).

Definition GetSpend (tenantID month : string) (s : SQLiteStore) : float64 :=
  default f64_zero (tenant_spend (db s) !! (tenantID, month)).

End store.
