(* ===== verification/TenancyHistory.v ===== *)
(** What the tenancy store promises: after any history of calls, a key or a session token
    is accepted exactly when the answers given so far leave it valid, whatever the cache
    holds. The specification learns from the answers alone. *)

From Stdlib Require Import Ascii.
From S2P Require Import Prelude GoBase GoStrings Base64 ToolProcessor TenancyStore.
From S2P Require Authz AuthCache Quota Engine.

(** ** The parameters' laws *)

(** [bcrypt] takes passwords below its limit of 72 bytes; a hash fits its own password
    and no other one without a NUL byte. *)
Class BcryptLaws {bcrypt : Bcrypt} := {
  bcrypt_accepts salt p : String.length p ≤ 71 → ∃ h, GenerateFromPassword salt p = Some h;
  bcrypt_fits salt p h q : GenerateFromPassword salt p = Some h → Engine.no_nul p = true → Engine.no_nul q = true →
    CompareHashAndPassword h q = bool_decide (q = p)
}.

(** SHA-256 is taken to be free of collisions. *)
Class Sha256Laws {sha : Sha256} := sha_inj a b : sha256_hex a = sha256_hex b → a = b.

(** A text of a time keeps its seconds. *)
Class TimeTextLaws {gotime : GoTimeText} := time_text t : ParseRFC3339 (FormatRFC3339 t) = Some (t - t mod Second)%Z.

(** ** Histories *)

Inductive tenancy_op :=
| OpCreateTenant (name : string) (draw now : Z)
| OpDeleteTenant (id : string)
| OpCreateAPIKey (tenantID name : string) (role : Role) (draws : KeyDraws) (now : Z)
| OpUpdateAPIKeyRole (tenantID id : string) (role : Role)
| OpRotateAPIKey (tenantID id : string) (draws : KeyDraws)
| OpBulkRotate (tenantID : string) (exclude : list string) (draws : nat → KeyDraws)
| OpDeleteAPIKey (tenantID id : string)
| OpResolve (plaintext : string) (clock : ResolveClock)
| OpCreateUser (email tenantID : string) (role : Role) (draw now : Z)
| OpCreateSession (userID tenantID : string) (role : Role) (ttl : Z) (draw : list Z) (now : Z)
| OpResolveSession (token : string) (now : Z)
| OpDeleteSession (token : string)
| OpSetTenantQuota (tenantID : string) (c : Quota.Config)
| OpAddSpend (tenantID month : string) (usd : float64).

Inductive tenancy_answer :=
| ATenant (a : store_error + Tenant)
| ADone (a : option store_error)
| AKey (a : store_error + NewAPIKeyResult)
| ARole (a : store_error + Role * Role)
| ARotated (a : store_error + NewAPIKeyResult * string)
| ABulk (a : store_error + list (NewAPIKeyResult * string))
| APrincipal (a : store_error + Principal)
| AUser (a : store_error + User)
| ASession (a : store_error + string * Session)
| ASpend (a : store_error + float64).

(** The tenant, the role and the secret behind a key's id; what a session stands for. *)
Record cred := mkCred { cr_tenant : string; cr_role : Role; cr_secret : string }.
#[export] Instance cred_eq_dec : EqDecision cred.
Proof. solve_decision. Defined.
Record sess := mkSess { ss_user : string; ss_tenant : string; ss_role : Role; ss_expires : Z }.

Record known := mkKnown {
  kn_tenants : gset string;
  kn_keys : gmap string cred;
  kn_users : gmap string string;        (* id -> tenant *)
  kn_sessions : gmap string sess        (* by token *)
}.

Definition nothing_known : known := mkKnown ∅ ∅ ∅ ∅.

Definition learn_secret (m : gmap string cred) (r : NewAPIKeyResult * string) : gmap string cred :=
  alter (λ c, mkCred (cr_tenant c) (cr_role c) (nk_Plaintext r.1)) (ky_ID (nk_Key r.1)) m.

Definition set_kn_keys (m : gmap string cred) (k : known) : known := mkKnown (kn_tenants k) m (kn_users k) (kn_sessions k).

(** What an answer tells. *)
Definition learn (k : known) (h : tenancy_op * tenancy_answer) : known :=
  match h with
  | (OpCreateTenant _ _ _, ATenant (inr t)) => mkKnown ({[te_ID t]} ∪ kn_tenants k) (kn_keys k) (kn_users k) (kn_sessions k)
  | (OpDeleteTenant id, ADone None) =>
      mkKnown (kn_tenants k ∖ {[id]}) (filter (λ p, cr_tenant p.2 ≠ id) (kn_keys k))
        (filter (λ p, p.2 ≠ id) (kn_users k))
        (filter (λ p, kn_users k !! ss_user p.2 ≠ Some id) (kn_sessions k))
  | (OpCreateAPIKey _ _ _ _ _, AKey (inr r)) =>
      set_kn_keys (<[ky_ID (nk_Key r) := mkCred (ky_TenantID (nk_Key r)) (ky_Role (nk_Key r)) (nk_Plaintext r)]> (kn_keys k)) k
  | (OpUpdateAPIKeyRole _ id role, ARole (inr _)) =>
      set_kn_keys (alter (λ c, mkCred (cr_tenant c) role (cr_secret c)) id (kn_keys k)) k
  | (OpRotateAPIKey _ _ _, ARotated (inr r)) => set_kn_keys (learn_secret (kn_keys k) r) k
  | (OpBulkRotate _ _ _, ABulk (inr rs)) => set_kn_keys (foldl learn_secret (kn_keys k) rs) k
  | (OpDeleteAPIKey _ id, ADone None) => set_kn_keys (delete id (kn_keys k)) k
  | (OpCreateUser _ _ _ _ _, AUser (inr u)) =>
      mkKnown (kn_tenants k) (kn_keys k) (<[ur_ID u := ur_TenantID u]> (kn_users k)) (kn_sessions k)
  | (OpCreateSession _ _ _ _ _ _, ASession (inr (token, s))) =>
      mkKnown (kn_tenants k) (kn_keys k) (kn_users k)
        (<[token := mkSess (sn_UserID s) (sn_TenantID s) (sn_Role s) (sn_ExpiresAt s - sn_ExpiresAt s mod Second)]> (kn_sessions k))
  | (OpResolveSession token _, APrincipal (inl _)) | (OpDeleteSession token, _) =>
      mkKnown (kn_tenants k) (kn_keys k) (kn_users k) (delete token (kn_sessions k))
  | _ => k
  end.

(** The secrets an answer reveals. *)
Definition revealed (a : tenancy_answer) : list string :=
  match a with
  | AKey (inr r) => [nk_Plaintext r]
  | ARotated (inr (r, _)) => [nk_Plaintext r]
  | ABulk (inr rs) => (λ r, nk_Plaintext r.1) <$> rs
  | _ => []
  end.

(** A key draws 24 bytes for its secret; no header carries a NUL byte. *)
Definition draws_ok (d : KeyDraws) : Prop := length (kd_secret d) = 24 ∧ Forall is_byte (kd_secret d).

Definition op_ok (op : tenancy_op) : Prop :=
  match op with
  | OpCreateAPIKey _ _ _ d _ | OpRotateAPIKey _ _ d => draws_ok d
  | OpBulkRotate _ _ ds => ∀ i, draws_ok (ds i)
  | OpResolve plaintext _ => Engine.no_nul plaintext = true
  | _ => True
  end.

Section history.
Context {mr : MapRange} {rows : SqlRows} {bcrypt : Bcrypt} {sha : Sha256} {gotime : GoTimeText} {fmt : GoFmt}.

Definition tenancy_step (op : tenancy_op) (s : SQLiteStore) : SQLiteStore * tenancy_answer :=
  match op with
  | OpCreateTenant name draw now => let '(s, a) := CreateTenant name draw now s in (s, ATenant a)
  | OpDeleteTenant id => let '(s, a) := DeleteTenant id s in (s, ADone a)
  | OpCreateAPIKey t name role d now => let '(s, a) := CreateAPIKey t name role d now s in (s, AKey a)
  | OpUpdateAPIKeyRole t id role => let '(s, a) := UpdateAPIKeyRole t id role s in (s, ARole a)
  | OpRotateAPIKey t id d => let '(s, a) := RotateAPIKey t id d s in (s, ARotated a)
  | OpBulkRotate t ex ds => let '(s, a) := BulkRotateTenantKeys t ex ds s in (s, ABulk a)
  | OpDeleteAPIKey t id => let '(s, a) := DeleteAPIKey t id s in (s, ADone a)
  | OpResolve p clock => let '(s, a) := Resolve p clock s in (s, APrincipal a)
  | OpCreateUser email t role d now => let '(s, a) := CreateUser email t role d now s in (s, AUser a)
  | OpCreateSession u t role ttl d now => let '(s, a) := CreateSession u t role ttl d now s in (s, ASession a)
  | OpResolveSession token now => let '(s, a) := ResolveSession token now s in (s, APrincipal a)
  | OpDeleteSession token => (DeleteSession token s, ADone None)
  | OpSetTenantQuota t c => let '(s, a) := SetTenantQuota t c s in (s, ADone a)
  | OpAddSpend t m usd => let '(s, a) := AddSpend t m usd s in (s, ASpend a)
  end.

Fixpoint run_tenancy (ops : list tenancy_op) (s : SQLiteStore) : SQLiteStore * list (tenancy_op * tenancy_answer) :=
  match ops with
  | [] => (s, [])
  | op :: ops =>
      let '(s, a) := tenancy_step op s in
      let '(s, hist) := run_tenancy ops s in (s, (op, a) :: hist)
  end.

Definition learned (hist : list (tenancy_op * tenancy_answer)) : known := foldl learn nothing_known hist.

(** ** The rows behind what is known *)

Definition key_ok (r : key_row) (c : cred) : Prop :=
  cr_tenant c = ak_tenant r ∧ cr_role c = ak_role r ∧ ak_prefix r = str_take apiKeyPrefixLen (cr_secret c) ∧
  well_formed_key (cr_secret c) = true ∧
  ∀ q, Engine.no_nul q = true → CompareHashAndPassword (ak_hash r) q = bool_decide (q = cr_secret c).

Record keys_hold (d : database) (m : gmap string cred) (used : list string) : Prop := {
  kh_nodup : NoDup (ak_id <$> api_keys d);
  kh_row r : r ∈ api_keys d → ∃ c, m !! ak_id r = Some c ∧ key_ok r c;
  kh_cred id c : m !! id = Some c → ∃ r, r ∈ api_keys d ∧ ak_id r = id;
  kh_used id c : m !! id = Some c → cr_secret c ∈ used;
  kh_distinct id id' c c' : m !! id = Some c → m !! id' = Some c' → cr_secret c = cr_secret c' → id = id'
}.

Lemma elem_of_sql_rows {A} (x : A) l : x ∈ sql_rows l ↔ x ∈ l.
Proof. by rewrite sql_rows_perm. Qed.

(** The first row of a query: one of the rows that match, if any does. *)
Lemma head_rows {A} (P : A → Prop) `{!∀ x, Decision (P x)} l :
  match head (sql_rows (filter P l)) with
  | Some r => r ∈ l ∧ P r
  | None => ∀ r, r ∈ l → ¬ P r
  end.
Proof.
  pose proof (sql_rows_perm (filter P l)) as Hp. destruct (sql_rows (filter P l)) as [|r rs]; simpl.
  - intros r Hr HP. assert (r ∈ filter P l) as Hin by (by apply list_elem_of_filter).
    rewrite <-Hp in Hin. by apply not_elem_of_nil in Hin.
  - assert (r ∈ filter P l) as Hin by (rewrite <-Hp; left). by apply list_elem_of_filter in Hin as [??].
Qed.

(** ** Generated keys *)

Lemma no_nul_app a b : Engine.no_nul (a +:+ b) = Engine.no_nul a && Engine.no_nul b.
Proof.
  induction a as [|c a IH]; [done|]. change (String c a +:+ b)%string with (String c (a +:+ b)).
  cbn [Engine.no_nul]. by rewrite IH, andb_assoc.
Qed.

Lemma no_nul_hex n d : Engine.no_nul (hex_fixed n d) = true.
Proof.
  revert d. induction n as [|n IH]; intros d; [done|]. cbn [hex_fixed]. rewrite no_nul_app, IH. cbn [Engine.no_nul andb].
  rewrite andb_true_r. apply negb_true_iff, Ascii.eqb_neq. intros H. apply (f_equal Ascii.nat_of_ascii) in H.
  assert (0 ≤ d mod 16 < 16)%Z by (by apply Z.mod_pos_bound).
  rewrite hex_digit_code in H by done. change (Ascii.nat_of_ascii (Ascii.ascii_of_nat 0)) with 0 in H. case_decide; lia.
Qed.

Lemma no_nul_chars s : Forall (λ c, c ≠ Ascii.ascii_of_nat 0) (String.list_ascii_of_string s) → Engine.no_nul s = true.
Proof.
  induction s as [|c s IH]; [done|]. cbn [String.list_ascii_of_string]. intros [Hc Hs]%Forall_cons.
  cbn [Engine.no_nul]. rewrite IH by done. rewrite andb_true_r. by apply negb_true_iff, Ascii.eqb_neq.
Qed.

Lemma no_nul_encoded bs : Forall is_byte bs → Engine.no_nul (RawURLEncode bs) = true.
Proof.
  intros HF. apply no_nul_chars. apply EncodeToString_chars; [done|]. intros z Hz.
  assert (Forall (λ n, base64_digit url_alphabet (Z.of_nat n) ≠ Ascii.ascii_of_nat 0) (seq 0 64)) as H
    by (apply (bool_decide_unpack _); by vm_compute).
  rewrite Forall_forall in H. rewrite <-(Z2Nat.id z) by lia. apply H, elem_of_seq. lia.
Qed.

(** A generated key has the form a lookup asks for, its prefix in front, and is short
    enough for [bcrypt]. *)
Lemma generated d : draws_ok d → let '(plaintext, prefix) := generateAPIKey d in
  String.length plaintext = 45 ∧ Engine.no_nul plaintext = true ∧ well_formed_key plaintext = true ∧
  prefix = str_take apiKeyPrefixLen plaintext.
Proof.
  intros [Hl HF]. unfold generateAPIKey. set (pre := ("mak_" +:+ hex_fixed 8 (kd_prefix d))%string).
  assert (String.length pre = 12) as Hpre by (unfold pre; by rewrite str_length_app, hex_fixed_length).
  assert (String.length (RawURLEncode (kd_secret d)) = 32) as Hsec by (by apply (EncodeToString_length _ 8)).
  split_and!.
  - rewrite !str_length_app, Hpre, Hsec. done.
  - rewrite !no_nul_app, no_nul_encoded by done. unfold pre. by rewrite no_nul_app, no_nul_hex.
  - unfold well_formed_key, apiKeyPrefixLen. rewrite !str_length_app, Hpre, Hsec.
    change (String.length "_") with 1. rewrite bool_decide_true by lia. cbn [andb].
    apply andb_true_iff. split.
    + apply has_prefix_spec. exists (hex_fixed 8 (kd_prefix d) +:+ "_" +:+ RawURLEncode (kd_secret d))%string.
      unfold pre. by rewrite str_app_assoc.
    + apply bool_decide_eq_true. rewrite <-Hpre. change ("_" +:+ RawURLEncode (kd_secret d))%string with (String "_" (RawURLEncode (kd_secret d))).
      clear. induction pre; [done|]. done.
  - unfold apiKeyPrefixLen. rewrite <-Hpre. by rewrite str_take_app.
Qed.

(** ** Keys *)

Lemma row_unique d m used r r' : keys_hold d m used → r ∈ api_keys d → r' ∈ api_keys d → ak_id r = ak_id r' → r = r'.
Proof.
  intros Hk Hr Hr' Hid. pose proof (kh_nodup _ _ _ Hk) as Hnd. apply list_elem_of_lookup in Hr as [i Hi], Hr' as [j Hj].
  assert (i = j) as ->; [|congruence]. eapply NoDup_lookup; [exact Hnd|..]; rewrite list_lookup_fmap; [by rewrite Hi|].
  rewrite Hj. simpl. by rewrite Hid.
Qed.

(** An update of the row of one key, and of what is known of it. *)
Lemma keys_hold_update d m used used' id (P : key_row → Prop) `{!∀ k, Decision (P k)} f g :
  keys_hold d m used → (∀ r, r ∈ api_keys d → P r ↔ ak_id r = id) → (∀ r, ak_id (f r) = ak_id r) →
  (∀ r c, r ∈ api_keys d → ak_id r = id → key_ok r c → key_ok (f r) (g c)) → used ⊆ used' →
  (∀ c, m !! id = Some c → cr_secret (g c) ∈ used' ∧ (cr_secret (g c) = cr_secret c ∨ cr_secret (g c) ∉ used)) →
  keys_hold (update_keys P f d) (alter g id m) used'.
Proof.
  intros [Hnd Hrow Hcred Hused Hdist] HP Hid Hok Hsub Hsec.
  assert (∀ id' c, alter g id m !! id' = Some c → ∃ c0, m !! id' = Some c0 ∧ (id' = id ∧ c = g c0 ∨ id' ≠ id ∧ c = c0)) as Halt.
  { intros id' c. destruct (decide (id' = id)) as [->|Hne].
    - rewrite lookup_alter_eq. intros (c0 & -> & Hc)%fmap_Some. exists c0. split; [done|by left].
    - rewrite lookup_alter_ne by done. intros Hc. exists c. split; [done|by right]. }
  assert (∀ r', r' ∈ api_keys (update_keys P f d) → ∃ r, r ∈ api_keys d ∧ ak_id r' = ak_id r ∧
    (ak_id r = id ∧ r' = f r ∨ ak_id r ≠ id ∧ r' = r)) as Hrows.
  { intros r'. unfold update_keys, with_keys. cbn [api_keys]. intros (r & -> & Hr)%list_elem_of_fmap. exists r.
    split; [done|]. pose proof (HP r Hr). case_decide; [rewrite Hid|]; split; try done; [left|right]; naive_solver. }
  split.
  - unfold update_keys, with_keys. cbn [api_keys]. rewrite <-list_fmap_compose.
    rewrite (list_fmap_ext _ ak_id); [done|]. intros i r _. simpl. by case_decide; [rewrite Hid|].
  - intros r' (r & Hr & -> & Hc)%Hrows. destruct (Hrow r Hr) as (c & Hm & Hkc). destruct Hc as [[Hi ->]|[Hne ->]].
    + exists (g c). rewrite Hi, lookup_alter_eq, <-Hi, Hm. split; [done|]. by apply Hok.
    + exists c. by rewrite lookup_alter_ne by done.
  - intros id' c (c0 & Hc0 & _)%Halt. destruct (Hcred id' c0 Hc0) as (r & Hr & <-).
    exists (if decide (P r) then f r else r). split; [|by case_decide; [apply Hid|]].
    unfold update_keys, with_keys. cbn [api_keys]. apply list_elem_of_fmap. by exists r.
  - intros id' c (c0 & Hc0 & [[-> ->]|[_ ->]])%Halt; [by apply Hsec|]. by eapply Hsub, Hused.
  - intros i1 i2 c1 c2 (d1 & Hd1 & H1)%Halt (d2 & Hd2 & H2)%Halt Heq.
    destruct H1 as [[-> ->]|[Hn1 ->]], H2 as [[-> ->]|[Hn2 ->]]; [done| | |by eapply Hdist].
    + destruct (Hsec _ Hd1) as [_ [Hs|Hs]]; [eapply Hdist; [done..|congruence]|].
      destruct Hs. rewrite Heq. by eapply Hused.
    + destruct (Hsec _ Hd2) as [_ [Hs|Hs]]; [eapply Hdist; [done..|congruence]|].
      destruct Hs. rewrite <-Heq. by eapply Hused.
Qed.

(** Rows that go away, and what is known of them. *)
Lemma keys_hold_sub d d' m m' used :
  keys_hold d m used → api_keys d' `sublist_of` api_keys d → m' ⊆ m →
  (∀ r c, r ∈ api_keys d → m !! ak_id r = Some c → key_ok r c → r ∈ api_keys d' ↔ m' !! ak_id r = Some c) →
  keys_hold d' m' used.
Proof.
  intros [Hnd Hrow Hcred Hused Hdist] Hsub Hm Hiff.
  assert (∀ r, r ∈ api_keys d' → r ∈ api_keys d) as Hin by (intros r Hr; by eapply elem_of_sublist).
  split.
  - eapply sublist_NoDup; [exact Hnd|]. by apply fmap_sublist.
  - intros r Hr. destruct (Hrow r (Hin r Hr)) as (c & Hc & Hok). exists c. split; [|done]. apply Hiff; auto.
  - intros id c Hc. pose proof (lookup_weaken _ _ _ _ Hc Hm) as Hc'. destruct (Hcred id c Hc') as (r & Hr & <-).
    exists r. split; [|done]. destruct (Hrow r Hr) as (c2 & Hc2 & Hok). assert (c2 = c) as -> by congruence. by apply (Hiff r c).
  - intros id c Hc. eapply Hused. by eapply lookup_weaken.
  - intros i1 i2 c1 c2 H1 H2. eapply Hdist; by eapply lookup_weaken.
Qed.

Lemma keys_hold_mono d m used used' : keys_hold d m used → used ⊆ used' → keys_hold d m used'.
Proof. intros [? ? ? ? ?] Hs. split; try done. intros id c Hc. by eapply Hs, kh_used0. Qed.

(** ** The cache *)

(** Every entry stands for a key as it is. *)
Definition cache_current (c : option AuthCache.authCache) (m : gmap string cred) : Prop :=
  match c with
  | None => True
  | Some c => ∀ h e, AuthCache.entries c !! h = Some e → ∃ id cr, m !! id = Some cr ∧
      h = AuthCache.hashKey (cr_secret cr) ∧ AuthCache.principal e = mkPrincipal (cr_tenant cr) id (cr_role cr)
  end.

Lemma cache_flushed c m : cache_current (AuthCache.Invalidate c) m.
Proof. destruct c as [c|]; [|done]. intros h e H. cbn in H. by apply lookup_empty_Some in H. Qed.

Lemma cache_mono c m m' : cache_current c m → m ⊆ m' → cache_current c m'.
Proof.
  destruct c as [c|]; [|done]. intros Hc Hm h e He. destruct (Hc h e He) as (id & cr & Hid & ?).
  exists id, cr. split; [by eapply lookup_weaken|done].
Qed.

(** A lookup answers an entry and loses entries only. *)
Lemma cache_get c m plaintext t1 t2 : cache_current c m →
  let '(c', hit) := AuthCache.Get plaintext t1 t2 c in
  cache_current c' m ∧
  (∀ p, hit = Some p → ∃ id cr, m !! id = Some cr ∧
     AuthCache.hashKey plaintext = AuthCache.hashKey (cr_secret cr) ∧ p = mkPrincipal (cr_tenant cr) id (cr_role cr)).
Proof.
  destruct c as [c|]; [|done]. intros Hc. unfold AuthCache.Get. case_decide; [done|].
  destruct (AuthCache.entries c !! AuthCache.hashKey plaintext) as [e|] eqn:He; [|done].
  assert (∀ k, cache_current (Some (AuthCache.set_entries c (delete k (AuthCache.entries c)))) m) as Hdel.
  { intros k h e' He'. cbn in He'. apply lookup_delete_Some in He' as [_ He']. by apply (Hc h). }
  case_decide.
  - split; [|done]. case_decide; [apply Hdel|done].
  - split; [done|]. intros p [= <-]. destruct (Hc _ _ He) as (id & cr & Hid & Hh & Hp). by exists id, cr.
Qed.

Lemma cache_set c m plaintext t1 t2 id cr : cache_current c m → m !! id = Some cr → cr_secret cr = plaintext →
  cache_current (AuthCache.Set_ plaintext (Some (mkPrincipal (cr_tenant cr) id (cr_role cr))) t1 t2 c) m.
Proof.
  destruct c as [c|]; [|done]. intros Hc Hid Hs. cbn [AuthCache.Set_]. case_decide; [done|].
  intros h e. cbn [AuthCache.entries AuthCache.set_entries].
  intros [[<- <-]|[_ He]]%lookup_insert_Some.
  - exists id, cr. by rewrite Hs.
  - apply (Hc h). case_match; [done|]. case_decide; [|done]. eapply lookup_weaken; [exact He|]. apply AuthCache.evict_subset.
Qed.

(** ** Verifying a key *)

(** The credential behind a plaintext. *)
Definition owns (m : gmap string cred) (plaintext : string) (p : Principal) : Prop :=
  ∃ id c, m !! id = Some c ∧ cr_secret c = plaintext ∧ p = mkPrincipal (cr_tenant c) id (cr_role c).

Lemma candidates_find d m used plaintext : keys_hold d m used → Engine.no_nul plaintext = true →
  match find (λ k, CompareHashAndPassword (ak_hash k) plaintext) (candidates plaintext d) with
  | Some r => r ∈ api_keys d ∧ ∃ c, m !! ak_id r = Some c ∧ cr_secret c = plaintext ∧ key_ok r c
  | None => ∀ id c, m !! id = Some c → cr_secret c ≠ plaintext
  end.
Proof.
  intros Hk Hn. destruct (find _ _) as [r|] eqn:Hf.
  - apply find_some in Hf as [Hin%list_elem_of_In Hcmp]. unfold candidates in Hin.
    rewrite elem_of_sql_rows, list_elem_of_filter in Hin. destruct Hin as [_ Hin]. split; [done|].
    destruct (kh_row _ _ _ Hk r Hin) as (c & Hc & Hok). exists c. split; [done|]. split; [|done].
    destruct Hok as (_ & _ & _ & _ & Hfit). rewrite Hfit in Hcmp by done. by apply bool_decide_eq_true in Hcmp.
  - intros id c Hc <-. destruct (kh_cred _ _ _ Hk id c Hc) as (r & Hr & <-).
    destruct (kh_row _ _ _ Hk r Hr) as (c' & Hc' & Hok). assert (c' = c) as -> by congruence.
    destruct Hok as (_ & _ & Hpre & _ & Hfit). eapply find_none in Hf.
    + rewrite Hfit in Hf by done. by rewrite bool_decide_true in Hf.
    + apply list_elem_of_In. unfold candidates. by rewrite elem_of_sql_rows, list_elem_of_filter.
Qed.

Lemma resolve_ok {shalaws : Sha256Laws} s m used plaintext clock : keys_hold (db s) m used → cache_current (cache s) m →
  Engine.no_nul plaintext = true →
  let '(s', answer) := Resolve plaintext clock s in
  keys_hold (db s') m used ∧ cache_current (cache s') m ∧
  tenants (db s') = tenants (db s) ∧ users (db s') = users (db s) ∧ sessions (db s') = sessions (db s) ∧
  match answer with inr p => owns m plaintext p | inl _ => ∀ p, ¬ owns m plaintext p end.
Proof.
  intros Hk Hc Hn. unfold Resolve.
  destruct (well_formed_key plaintext) eqn:Hwf; cbn [negb].
  2:{ split_and!; try done. intros p (id & c & Hid & Hs & _). destruct (kh_cred _ _ _ Hk id c Hid) as (r & Hr & <-).
      destruct (kh_row _ _ _ Hk r Hr) as (c' & Hc' & Hok). assert (c' = c) as -> by congruence.
      destruct Hok as (_ & _ & _ & Hw & _). congruence. }
  pose proof (cache_get (cache s) m plaintext (rc_get clock).1 (rc_get clock).2 Hc) as Hget.
  destruct (AuthCache.Get _ _ _ _) as [c' [p|]]; destruct Hget as [Hc' Hhit].
  { cbn [db cache]. split_and!; try done. destruct (Hhit p eq_refl) as (id & cr & Hid & Hh & ->).
    exists id, cr. split; [done|]. split; [|done]. symmetry. by apply sha_inj. }
  unfold verify. pose proof (candidates_find (db s) m used plaintext Hk Hn) as Hf.
  destruct (find _ _) as [r|]; cbn [db cache].
  2:{ split_and!; try done. intros p (id & c & Hid & Hs & _). by apply (Hf id c). }
  destruct Hf as [Hr (c & Hm & Hs & Hok)].
  assert (principal_of r = mkPrincipal (cr_tenant c) (ak_id r) (cr_role c)) as Hp.
  { destruct Hok as (-> & -> & _). done. }
  split; [|split; [rewrite Hp; by apply cache_set|split; [by case_match|split; [by case_match|split; [by case_match|]]]]].
  - case_match; [|done]. rewrite <-(alter_id (λ c, c) m (ak_id r)) by done.
    apply (keys_hold_update _ _ used); try done. intros c0 Hc0. split; [by eapply kh_used|by left].
  - exists (ak_id r), c. done.
Qed.

(** ** One call *)

(** A new secret for a key. *)
Lemma rotate_step d m used r c draws hash plaintext prefix : keys_hold d m used → r ∈ api_keys d → m !! ak_id r = Some c →
  generateAPIKey draws = (plaintext, prefix) → draws_ok draws →
  (∀ q, Engine.no_nul q = true → CompareHashAndPassword hash q = bool_decide (q = plaintext)) → plaintext ∉ used →
  keys_hold (update_keys (λ k, ak_id k = ak_id r) (set_secret prefix hash) d)
    (alter (λ c, mkCred (cr_tenant c) (cr_role c) plaintext) (ak_id r) m) (plaintext :: used).
Proof.
  intros Hk Hr Hm Hg Hd Hfit Hfresh. pose proof (generated draws Hd) as Hgen. rewrite Hg in Hgen.
  destruct Hgen as (_ & _ & Hwf & Hpre).
  apply (keys_hold_update _ _ used); try done.
  - intros r' c' _ _ (Ht & Hro & _). split_and!; done.
  - intros x. by right.
  - intros c' _. split; [left|by right].
Qed.

Lemma hash_fits {laws : BcryptLaws} draws hash plaintext prefix : draws_ok draws → generateAPIKey draws = (plaintext, prefix) →
  GenerateFromPassword (kd_salt draws) plaintext = Some hash →
  ∀ q, Engine.no_nul q = true → CompareHashAndPassword hash q = bool_decide (q = plaintext).
Proof.
  intros Hd Hg Hh q Hq. pose proof (generated draws Hd) as Hgen. rewrite Hg in Hgen. destruct Hgen as (_ & Hn & _).
  by eapply bcrypt_fits.
Qed.

Lemma hash_made {laws : BcryptLaws} draws plaintext prefix : draws_ok draws → generateAPIKey draws = (plaintext, prefix) →
  ∃ hash, GenerateFromPassword (kd_salt draws) plaintext = Some hash.
Proof.
  intros Hd Hg. pose proof (generated draws Hd) as Hgen. rewrite Hg in Hgen. destruct Hgen as (Hl & _).
  apply bcrypt_accepts. lia.
Qed.

(** The rest of the database. *)
Definition same_rest (d d' : database) : Prop :=
  tenants d' = tenants d ∧ users d' = users d ∧ sessions d' = sessions d.

Definition rotation_ok (rot : key_row * (string * string * string)) : Prop :=
  ∃ draws, draws_ok draws ∧ generateAPIKey draws = (rot.2.1.2, rot.2.1.1) ∧
    GenerateFromPassword (kd_salt draws) rot.2.1.2 = Some rot.2.2.

Lemma rotations_made {laws : BcryptLaws} draws i ks : (∀ i, draws_ok (draws i)) →
  ∃ rots, rotations draws i ks = Some rots ∧ rots.*1 = ks ∧ Forall rotation_ok rots.
Proof.
  intros Hd. revert i. induction ks as [|k ks IH]; intros i; [by exists []|]. cbn [rotations].
  destruct (generateAPIKey (draws i)) as [plaintext prefix] eqn:Hg.
  destruct (hash_made (draws i) plaintext prefix (Hd i) Hg) as [hash Hh]. destruct (IH (S i)) as (rots & Hr & Hks & HF).
  rewrite Hh, Hr. eexists. split; [done|]. split; [by rewrite fmap_cons, Hks|]. constructor; [|done].
  exists (draws i). done.
Qed.

Definition rotation_result (rot : key_row * (string * string * string)) : NewAPIKeyResult * string :=
  (rotated rot.1 rot.2.1.1 rot.2.1.2, ak_prefix rot.1).

Lemma update_keys_ids (P : key_row → Prop) `{!∀ k, Decision (P k)} f d : (∀ r, ak_id (f r) = ak_id r) →
  ak_id <$> api_keys (update_keys P f d) = ak_id <$> api_keys d.
Proof.
  intros Hf. unfold update_keys, with_keys. cbn [api_keys]. rewrite <-list_fmap_compose. apply list_fmap_ext.
  intros ? x _. simpl. by case_decide.
Qed.

(** No key is missing: every rotation is applied and answered. *)
Lemma apply_rotations rots d acc : (∀ rot, rot ∈ rots → ak_id rot.1 ∈ ak_id <$> api_keys d) →
  (foldl apply_rotation (d, acc) rots).2 = acc ++ (rotation_result <$> rots).
Proof.
  revert d acc. induction rots as [|[k [[prefix plaintext] hash]] rots IH]; intros d acc Hin.
  { cbn [foldl fmap list_fmap]. by rewrite app_nil_r. }
  cbn [foldl apply_rotation]. rewrite decide_True by (apply (Hin (k, (prefix, plaintext, hash))); left).
  rewrite IH; [by rewrite <-(assoc_L (++))|]. intros rot Hrot. rewrite update_keys_ids by done. apply Hin. by right.
Qed.

Lemma bulk_fold {laws : BcryptLaws} rots d m used acc : keys_hold d m used → Forall rotation_ok rots →
  (∀ rot, rot ∈ rots → ak_id rot.1 ∈ ak_id <$> api_keys d) → NoDup ((λ rot, rot.2.1.2) <$> rots) →
  (∀ rot, rot ∈ rots → rot.2.1.2 ∉ used) →
  let '(d', results) := foldl apply_rotation (d, acc) rots in
  results = acc ++ (rotation_result <$> rots) ∧ same_rest d d' ∧
  keys_hold d' (foldl learn_secret m (rotation_result <$> rots)) (((λ rot, rot.2.1.2) <$> rots) ++ used).
Proof.
  revert d m used acc. induction rots as [|[k [[prefix plaintext] hash]] rots IH]; intros d m used acc Hk HF Hin Hnd Hfresh.
  { cbn [foldl fmap list_fmap app]. by rewrite app_nil_r. }
  apply Forall_cons in HF as [(draws & Hd & Hg & Hh) HF]. apply NoDup_cons in Hnd as [Hnew Hnd].
  assert (ak_id k ∈ ak_id <$> api_keys d) as Hkd by (apply (Hin (k, (prefix, plaintext, hash))); left).
  cbn [foldl apply_rotation]. rewrite decide_True by done.
  apply list_elem_of_fmap in Hkd as (r & Hid & Hr). destruct (kh_row _ _ _ Hk r Hr) as (c & Hc & _).
  assert (keys_hold (update_keys (λ k', ak_id k' = ak_id k) (set_secret prefix hash) d)
    (learn_secret m (rotated k prefix plaintext, ak_prefix k)) (plaintext :: used)) as Hk'.
  { unfold learn_secret. cbn [fst nk_Plaintext nk_Key ky_ID rotated]. rewrite Hid.
    eapply rotate_step; try done; [by eapply hash_fits|]. apply (Hfresh (k, (prefix, plaintext, hash))). left. }
  specialize (IH _ _ _ (acc ++ [(rotated k prefix plaintext, ak_prefix k)]) Hk' HF).
  destruct (foldl apply_rotation _ rots) as [d' results]. destruct IH as (Hres & Hsame & Hk2).
  - intros rot Hrot. unfold update_keys, with_keys. cbn [api_keys]. rewrite <-list_fmap_compose.
    rewrite (list_fmap_ext _ ak_id); [apply Hin; by right|]. intros ? x _. simpl. by case_decide.
  - done.
  - intros rot Hrot. rewrite not_elem_of_cons. split; [|apply Hfresh; by right].
    intros <-. apply Hnew, list_elem_of_fmap. by exists rot.
  - split; [|split; [done|]].
    + rewrite Hres, <-(assoc_L (++)). done.
    + cbn [fmap list_fmap foldl rotation_result fst snd]. eapply keys_hold_mono; [exact Hk2|].
      intros x. set_solver.
Qed.

(** ** Users and sessions *)

Definition sess_ok (x : session_row) (s : sess) : Prop :=
  ss_user s = se_user x ∧ ss_tenant s = se_tenant x ∧ ss_role s = se_role x ∧
  ParseRFC3339 (se_expires x) = Some (ss_expires s).

Record identity_hold (d : database) (k : known) : Prop := {
  ih_tenants id : id ∈ kn_tenants k ↔ id ∈ tn_id <$> tenants d;
  ih_keys id c : kn_keys k !! id = Some c → cr_tenant c ∈ kn_tenants k;
  ih_nodup : NoDup (us_id <$> users d);
  ih_row u : u ∈ users d → kn_users k !! us_id u = Some (us_tenant u);
  ih_user id t : kn_users k !! id = Some t → ∃ u, u ∈ users d ∧ us_id u = id;
  ih_token x : x ∈ sessions d → ∃ token s, kn_sessions k !! token = Some s ∧ se_hash x = hashToken token ∧
    has_prefix token sessionTokenPrefix = true ∧ sess_ok x s;
  ih_session token s : kn_sessions k !! token = Some s → ∃ x, x ∈ sessions d ∧ se_hash x = hashToken token
}.

(** Changes of the keys alone. *)
Lemma identity_keys d d' k m : identity_hold d k → same_rest d d' → (∀ id c, m !! id = Some c → cr_tenant c ∈ kn_tenants k) →
  identity_hold d' (set_kn_keys m k).
Proof.
  intros [? ? ? ? ? ? ?] (Ht & Hu & Hs) Hm. split; rewrite ?Ht, ?Hu, ?Hs; done.
Qed.

Lemma session_unique {shalaws : Sha256Laws} d k x token s : identity_hold d k → x ∈ sessions d → se_hash x = hashToken token →
  kn_sessions k !! token = Some s → sess_ok x s ∧ has_prefix token sessionTokenPrefix = true.
Proof.
  intros Hi Hx Hh Hs. destruct (ih_token _ _ Hi x Hx) as (token' & s' & Hs' & Hh' & Hp & Hok).
  assert (token' = token) as -> by (apply sha_inj; unfold hashToken in *; congruence).
  assert (s' = s) as -> by congruence. done.
Qed.

(** A session that goes away. *)
Lemma drop_session_hold {shalaws : Sha256Laws} d k token : identity_hold d k →
  identity_hold (with_sessions (filter (λ x, se_hash x ≠ hashToken token) (sessions d)) d)
    (mkKnown (kn_tenants k) (kn_keys k) (kn_users k) (delete token (kn_sessions k))).
Proof.
  intros Hi. pose proof Hi as [? ? ? ? ? Htok Hsess]. split; try done; unfold with_sessions;
    cbn [tenants users sessions kn_tenants kn_keys kn_users kn_sessions].
  - intros x [Hne Hx]%list_elem_of_filter. destruct (Htok x Hx) as (tok & s & Hs & Hh & Hp & Hok).
    exists tok, s. split; [|done]. rewrite lookup_delete_ne; [done|]. intros ->. by apply Hne.
  - intros tok s [Hne Hs]%lookup_delete_Some. destruct (Hsess tok s Hs) as (x & Hx & Hh). exists x.
    split; [|done]. apply list_elem_of_filter. split; [|done]. rewrite Hh. intros Heq. by apply Hne, sha_inj.
Qed.

Lemma resolve_session_ok {shalaws : Sha256Laws} s k token now : identity_hold (db s) k →
  let '(s', answer) := ResolveSession token now s in
  cache s' = cache s ∧ api_keys (db s') = api_keys (db s) ∧
  identity_hold (db s') (learn k (OpResolveSession token now, APrincipal answer)) ∧
  match answer with
  | inr p => ∃ x, kn_sessions k !! token = Some x ∧ (now ≤ ss_expires x)%Z ∧ p = mkPrincipal (ss_tenant x) (ss_user x) (ss_role x)
  | inl _ => ∀ x, kn_sessions k !! token = Some x → (ss_expires x < now)%Z
  end.
Proof.
  intros Hi. unfold ResolveSession. cbn [learn].
  assert (∀ t, kn_sessions k !! t = None → delete t (kn_sessions k) = kn_sessions k) as Hdel by (intros; by apply delete_id).
  assert (mkKnown (kn_tenants k) (kn_keys k) (kn_users k) (kn_sessions k) = k) as Heta by (by destruct k).
  destruct (has_prefix token sessionTokenPrefix) eqn:Hpre; cbn [negb].
  2:{ assert (kn_sessions k !! token = None) as Hn.
      { destruct (kn_sessions k !! token) as [x|] eqn:Hx; [|done].
        destruct (ih_session _ _ Hi token x Hx) as (row & Hrow & Hh).
        destruct (session_unique _ _ _ _ _ Hi Hrow Hh Hx) as [_ Hp]. congruence. }
      rewrite Hdel, Heta by done. split_and!; try done. intros x. by rewrite Hn. }
  pose proof (head_rows (λ x, se_hash x = hashToken token) (sessions (db s))) as Hrow.
  destruct (head _) as [x|].
  2:{ assert (kn_sessions k !! token = None) as Hn.
      { destruct (kn_sessions k !! token) as [x|] eqn:Hx; [|done].
        destruct (ih_session _ _ Hi token x Hx) as (row & Hr & Hh). by destruct (Hrow row Hr). }
      rewrite Hdel, Heta by done. split_and!; try done. intros x. by rewrite Hn. }
  destruct Hrow as [Hx Hh]. destruct (ih_token _ _ Hi x Hx) as (token' & ss & Hs & Hh' & _ & Hok).
  assert (token' = token) as -> by (apply sha_inj; unfold hashToken in *; congruence).
  destruct Hok as (Hu & Ht & Hr & Hexp). rewrite Hexp. case_bool_decide as Hlate.
  - split_and!; try done; [by apply drop_session_hold|]. intros y Hy. by assert (y = ss) as -> by congruence.
  - split_and!; try done. exists ss. split; [done|]. split; [lia|]. by rewrite Hu, Ht, Hr.
Qed.

(** ** The calls *)

Record world_ok (s : SQLiteStore) (k : known) (used : list string) : Prop := {
  wo_keys : keys_hold (db s) (kn_keys k) used;
  wo_cache : cache_current (cache s) (kn_keys k);
  wo_identity : identity_hold (db s) k
}.

(** What a call leaves, and what its answer teaches. *)
Definition call_ok (k : known) (used : list string) (op : tenancy_op) (r : SQLiteStore * tenancy_answer) : Prop :=
  world_ok r.1 (learn k (op, r.2)) (revealed r.2 ++ used).

Lemma found_tenant s k id : identity_hold (db s) k →
  match GetTenant id s with inl _ => id ∉ kn_tenants k | inr _ => id ∈ kn_tenants k end.
Proof.
  intros Hi. unfold GetTenant, find_tenant. pose proof (ih_tenants _ _ Hi id) as Hiff.
  pose proof (head_rows (λ r, tn_id r = id) (tenants (db s))) as Hr. destruct (head _) as [r|].
  - destruct Hr as [Hr <-]. apply Hiff, list_elem_of_fmap. by exists r.
  - intros (r & -> & Hin)%Hiff%list_elem_of_fmap. by destruct (Hr r Hin).
Qed.

Lemma create_tenant_ok s k used name draw now : world_ok s k used →
  call_ok k used (OpCreateTenant name draw now) (tenancy_step (OpCreateTenant name draw now) s).
Proof.
  intros [Hk Hc Hi]. cbn [tenancy_step]. unfold CreateTenant. case_decide; [by split|]. case_decide as Hu; [by split|].
  split; [by destruct Hk|done|]. destruct Hi as [Ht Hkt ? ? ? ? ?]. split; try done; cbn -[randID list_fmap].
  - intros id. rewrite fmap_app, elem_of_app, elem_of_union, Ht, elem_of_singleton. cbn [fmap list_fmap tn_id].
    rewrite list_elem_of_singleton. naive_solver.
  - intros id c Hid. apply elem_of_union_r. by eapply Hkt.
Qed.

Lemma delete_tenant_ok {shalaws : Sha256Laws} s k used id : world_ok s k used →
  call_ok k used (OpDeleteTenant id) (tenancy_step (OpDeleteTenant id) s).
Proof.
  intros [Hk Hc Hi]. cbn [tenancy_step]. unfold DeleteTenant. case_decide as Hin; [|by split].
  split; cbn [fst snd flushed with_db db cache learn revealed app kn_keys].
  - eapply keys_hold_sub; [exact Hk|apply sublist_filter|apply map_filter_subseteq|].
    intros r c Hr Hm (Ht & _). cbn [cascade_tenant api_keys]. rewrite list_elem_of_filter, map_lookup_filter_Some.
    cbn [snd]. rewrite Ht. naive_solver.
  - apply cache_flushed.
  - pose proof Hi as [Ht Hkt Hnd Hrow Huser Htok Hsess].
    assert (∀ x, x ∈ sessions (db s) → se_user x ∈ us_id <$> filter (λ u, us_tenant u = id) (users (db s)) ↔
      kn_users k !! se_user x = Some id) as Hgone.
    { intros x _. rewrite list_elem_of_fmap. split.
      - intros (u & -> & [<- Hu]%list_elem_of_filter). by apply Hrow.
      - intros Hx. destruct (Huser _ _ Hx) as (u & Hu & Hid). exists u. split; [done|].
        apply list_elem_of_filter. split; [|done]. specialize (Hrow u Hu). rewrite Hid in Hrow. congruence. }
    split; cbn [cascade_tenant tenants users sessions kn_tenants kn_keys kn_users kn_sessions].
    + intros id'. rewrite elem_of_difference, elem_of_singleton, Ht, !list_elem_of_fmap.
      setoid_rewrite list_elem_of_filter. naive_solver.
    + intros id' c [Hm Hne]%map_lookup_filter_Some. rewrite elem_of_difference, elem_of_singleton.
      split; [by eapply Hkt|done].
    + eapply sublist_NoDup; [exact Hnd|]. apply fmap_sublist, sublist_filter.
    + intros u [Hne Hu]%list_elem_of_filter. apply map_lookup_filter_Some. split; [by apply Hrow|done].
    + intros id' t [Hm Hne]%map_lookup_filter_Some. destruct (Huser id' t Hm) as (u & Hu & <-). exists u.
      split; [|done]. apply list_elem_of_filter. split; [|done]. specialize (Hrow u Hu). cbn in Hne. congruence.
    + intros x [Hne Hx]%list_elem_of_filter. destruct (Htok x Hx) as (tok & ss & Hs & Hh & Hp & Hok). exists tok, ss.
      split; [|done]. apply map_lookup_filter_Some. split; [done|]. cbn [snd].
      destruct Hok as (-> & _). rewrite <-(Hgone x Hx). done.
    + intros tok ss [Hs Hne]%map_lookup_filter_Some. destruct (Hsess tok ss Hs) as (x & Hx & Hh). exists x.
      split; [|done]. apply list_elem_of_filter. split; [|done]. rewrite (Hgone x Hx).
      destruct (session_unique _ _ _ _ _ Hi Hx Hh Hs) as [(<- & _) _]. done.
Qed.

(** A call that reveals secrets reveals new ones. *)
Definition fresh (used : list string) (a : tenancy_answer) : Prop := NoDup (revealed a) ∧ ∀ x, x ∈ revealed a → x ∉ used.

Lemma keys_hold_insert d m used r c : keys_hold d m used → ak_id r ∉ ak_id <$> api_keys d → key_ok r c →
  cr_secret c ∉ used →
  m !! ak_id r = None ∧ keys_hold (with_keys (api_keys d ++ [r]) d) (<[ak_id r := c]> m) (cr_secret c :: used).
Proof.
  intros [Hnd Hrow Hcred Hused Hdist] Hid Hok Hnew.
  assert (m !! ak_id r = None) as Hnone.
  { destruct (m !! ak_id r) as [c'|] eqn:Hkc; [|done]. destruct (Hcred _ c' Hkc) as (r' & Hr & Hri).
    destruct Hid. apply list_elem_of_fmap. by exists r'. }
  split; [done|]. split; cbn [with_keys api_keys].
  - rewrite fmap_app. cbn [fmap list_fmap]. apply NoDup_app. split; [done|]. split; [|by apply NoDup_singleton].
    intros x Hx ->%list_elem_of_singleton. done.
  - intros r' [Hr| ->%list_elem_of_singleton]%elem_of_app.
    + destruct (Hrow r' Hr) as (c' & Hc' & Hok'). exists c'. split; [|done]. rewrite lookup_insert_ne; [done|].
      intros Heq. rewrite <-Heq in Hc'. congruence.
    + exists c. split; [apply lookup_insert_eq|done].
  - intros id' c' [[<- <-]|[Hne Hc']]%lookup_insert_Some.
    + exists r. split; [apply elem_of_app; right; by apply list_elem_of_singleton|done].
    + destruct (Hcred id' c' Hc') as (r' & Hr & <-). exists r'. split; [|done]. apply elem_of_app. by left.
  - intros id' c' [[<- <-]|[Hne Hc']]%lookup_insert_Some; [by left|right; by eapply Hused].
  - intros i1 i2 c1 c2 [[<- <-]|[Hn1 H1]]%lookup_insert_Some [[<- <-]|[Hn2 H2]]%lookup_insert_Some Hs; [done| | |by eapply Hdist].
    + destruct Hnew. rewrite Hs. by eapply Hused.
    + destruct Hnew. rewrite <-Hs. by eapply Hused.
Qed.

Lemma create_key_ok {laws : BcryptLaws} s k used t name role draws now : world_ok s k used → draws_ok draws →
  let r := tenancy_step (OpCreateAPIKey t name role draws now) s in
  fresh used r.2 → call_ok k used (OpCreateAPIKey t name role draws now) r.
Proof.
  intros [Hk Hc Hi] Hd. cbn [tenancy_step]. unfold CreateAPIKey. destruct (Authz.IsValid role); cbn [negb]; [|by split].
  pose proof (found_tenant s k t Hi) as Ht. destruct (GetTenant t s); [by split|].
  destruct (generateAPIKey draws) as [plaintext prefix] eqn:Hg.
  destruct (hash_made draws plaintext prefix Hd Hg) as [hash Hh]. rewrite Hh.
  case_decide as Hid; [by split|]. cbn [fst snd]. intros [_ Hfresh].
  set (row := mkKeyRow _ _ _ _ _ _ _ _). set (c := mkCred t role plaintext).
  destruct (keys_hold_insert (db s) (kn_keys k) used row c Hk Hid) as [Hnone Hk'].
  { pose proof (generated draws Hd) as Hgen. rewrite Hg in Hgen. destruct Hgen as (_ & _ & Hwf & Hpre).
    split_and!; try done. by eapply hash_fits. }
  { apply Hfresh. left. }
  split; cbn [fst snd with_db db cache learn revealed app set_kn_keys kn_keys nk_Key nk_Plaintext ky_ID ky_TenantID ky_Role].
  - exact Hk'.
  - eapply cache_mono; [exact Hc|]. by apply insert_subseteq.
  - apply (identity_keys (db s)); [done|done|]. intros id' c' [[<- <-]|[Hne Hc']]%lookup_insert_Some; [done|].
    by eapply (ih_keys _ _ Hi).
Qed.

(** A key of a tenant, as a row and as it is known. *)
Lemma found_key s k used t id : world_ok s k used →
  match find_key t id (db s) with
  | Some r => r ∈ api_keys (db s) ∧ ak_id r = id ∧ ak_tenant r = t ∧
      ∃ c, kn_keys k !! id = Some c ∧ cr_tenant c = t ∧ cr_role c = ak_role r
  | None => ∀ c, kn_keys k !! id = Some c → cr_tenant c ≠ t
  end.
Proof.
  intros [Hk Hc Hi]. unfold find_key.
  pose proof (head_rows (λ k, ak_id k = id ∧ ak_tenant k = t) (api_keys (db s))) as Hr. destruct (head _) as [r|].
  - destruct Hr as [Hr [<- <-]]. destruct (kh_row _ _ _ Hk r Hr) as (c & Hkc & (Hct & Hcr & _)).
    split_and!; try done. by exists c.
  - intros c Hkc <-. destruct (kh_cred _ _ _ Hk id c Hkc) as (r & Hrow & <-).
    destruct (kh_row _ _ _ Hk r Hrow) as (c' & Hc' & (Ht & _)). assert (c' = c) as -> by congruence.
    by destruct (Hr r Hrow).
Qed.

Lemma alter_tenants (d : database) k id g : identity_hold d k → (∀ c, cr_tenant (g c) = cr_tenant c) →
  ∀ id' c, alter g id (kn_keys k) !! id' = Some c → cr_tenant c ∈ kn_tenants k.
Proof.
  intros Hi Hg id' c. destruct (decide (id' = id)) as [->|Hne].
  - rewrite lookup_alter_eq. intros (c0 & Hc0 & ->)%fmap_Some. rewrite Hg. by eapply (ih_keys _ _ Hi).
  - rewrite lookup_alter_ne by done. apply (ih_keys _ _ Hi).
Qed.

Lemma update_role_ok s k used t id role : world_ok s k used →
  call_ok k used (OpUpdateAPIKeyRole t id role) (tenancy_step (OpUpdateAPIKeyRole t id role) s).
Proof.
  intros Hw. pose proof Hw as [Hk Hc Hi]. cbn [tenancy_step]. unfold UpdateAPIKeyRole.
  destruct (Authz.IsValid role); cbn [negb]; [|by split]. pose proof (found_key s k used t id Hw) as Hf.
  destruct (find_key t id (db s)) as [r|]; [|by split]. destruct Hf as (Hr & Hid & Ht & c & Hkc & Hct & Hcr).
  split; cbn [fst snd flushed with_db db cache learn revealed app set_kn_keys kn_keys].
  - eapply keys_hold_update; [exact Hk| | | | |].
    + intros r' Hr'. split; [by intros [? _]|]. intros Hid'.
      assert (r' = r) as -> by (eapply row_unique; [exact Hk|done..|congruence]). done.
    + done.
    + intros r' c' _ _ (? & ? & ? & ? & ?). split_and!; done.
    + done.
    + intros c' Hc'. cbn [cr_secret]. split; [by eapply (kh_used _ _ _ Hk)|by left].
  - apply cache_flushed.
  - apply (identity_keys (db s)); [done|done|]. by eapply alter_tenants.
Qed.

Lemma rotate_ok {laws : BcryptLaws} s k used t id draws : world_ok s k used → draws_ok draws →
  let r := tenancy_step (OpRotateAPIKey t id draws) s in fresh used r.2 → call_ok k used (OpRotateAPIKey t id draws) r.
Proof.
  intros Hw Hd. pose proof Hw as [Hk Hc Hi]. cbn [tenancy_step]. unfold RotateAPIKey.
  pose proof (found_key s k used t id Hw) as Hf.
  destruct (find_key t id (db s)) as [r|]; [|by split]. destruct Hf as (Hr & Hid & Ht & c & Hkc & Hct & Hcr).
  destruct (generateAPIKey draws) as [plaintext prefix] eqn:Hg.
  destruct (hash_made draws plaintext prefix Hd Hg) as [hash Hh]. rewrite Hh. cbn [fst snd]. intros [_ Hfresh].
  split; cbn [fst snd flushed with_db db cache learn revealed app set_kn_keys kn_keys learn_secret rotated nk_Key nk_Plaintext ky_ID].
  - subst id. eapply rotate_step; try done; [by eapply hash_fits|]. apply Hfresh. left.
  - apply cache_flushed.
  - apply (identity_keys (db s)); [done|done|]. by eapply alter_tenants.
Qed.

Lemma delete_key_ok s k used t id : world_ok s k used →
  call_ok k used (OpDeleteAPIKey t id) (tenancy_step (OpDeleteAPIKey t id) s).
Proof.
  intros [Hk Hc Hi]. cbn [tenancy_step]. unfold DeleteAPIKey. case_decide as Hex; [|by split].
  apply Exists_exists in Hex as (r0 & Hr0 & Hid0 & Ht0).
  split; cbn [fst snd flushed with_db db cache learn revealed app set_kn_keys kn_keys].
  - eapply keys_hold_sub; [exact Hk|apply sublist_filter|apply delete_subseteq|].
    intros r c Hr Hm _. cbn [with_keys api_keys]. rewrite list_elem_of_filter, lookup_delete_Some.
    split; [|intros [Hne _]; split; [|done]; by intros [? _]].
    intros [Hn _]. split; [|done]. intros Heq. apply Hn.
    assert (r = r0) as -> by (eapply row_unique; [exact Hk|done..|congruence]). done.
  - apply cache_flushed.
  - apply (identity_keys (db s)); [done|done|]. intros id' c [_ Hc']%lookup_delete_Some. by eapply (ih_keys _ _ Hi).
Qed.

Lemma learn_secrets_tenants rs m id : cr_tenant <$> foldl learn_secret m rs !! id = cr_tenant <$> m !! id.
Proof.
  revert m. induction rs as [|r rs IH]; intros m; [done|]. cbn [foldl]. rewrite IH. unfold learn_secret.
  destruct (decide (id = ky_ID (nk_Key r.1))) as [->|Hne]; [rewrite lookup_alter_eq; by destruct (m !! _)|].
  by rewrite lookup_alter_ne.
Qed.

Lemma bulk_ok {laws : BcryptLaws} s k used t ex draws : world_ok s k used → (∀ i, draws_ok (draws i)) →
  let r := tenancy_step (OpBulkRotate t ex draws) s in fresh used r.2 → call_ok k used (OpBulkRotate t ex draws) r.
Proof.
  intros [Hk Hc Hi] Hd. cbn [tenancy_step]. unfold BulkRotateTenantKeys. destruct (GetTenant t s); [by split|].
  set (existing := sort_by ak_created String.le _). case_decide; [intros _; by destruct k|].
  destruct (rotations_made draws 0 existing Hd) as (rots & Hrots & Hex & HF). rewrite Hrots.
  pose proof (bulk_fold rots (db s) (kn_keys k) used [] Hk HF) as Hb.
  assert (∀ rot, rot ∈ rots → ak_id rot.1 ∈ ak_id <$> api_keys (db s)) as Hin.
  { intros rot Hrot. apply list_elem_of_fmap. exists rot.1. split; [done|].
    assert (rot.1 ∈ existing) as Hr by (rewrite <-Hex; apply list_elem_of_fmap; by exists rot).
    unfold existing in Hr. rewrite elem_of_sort_by, elem_of_sql_rows, list_elem_of_filter in Hr. by destruct Hr. }
  pose proof (apply_rotations rots (db s) [] Hin) as Hres.
  destruct (foldl apply_rotation (db s, []) rots) as [d' results]. cbn [snd app] in Hres. subst results.
  cbn [fst snd revealed]. intros [Hnd Hfresh].
  assert ((λ r, nk_Plaintext r.1) <$> (rotation_result <$> rots) = (λ rot, rot.2.1.2) <$> rots) as Hsec
    by (by rewrite <-list_fmap_compose).
  unfold fresh in *. cbn [revealed] in *. rewrite Hsec in Hnd, Hfresh.
  destruct Hb as (_ & Hsame & Hk'); [done|done| |].
  { intros rot Hrot. apply Hfresh, list_elem_of_fmap. by exists rot. }
  split; cbn [fst snd flushed with_db db cache learn revealed app set_kn_keys kn_keys].
  - by rewrite Hsec.
  - apply cache_flushed.
  - apply (identity_keys (db s)); [done|done|]. intros id c Hm.
    pose proof (learn_secrets_tenants (rotation_result <$> rots) (kn_keys k) id) as Ht. rewrite Hm in Ht.
    symmetry in Ht. apply fmap_Some in Ht as (c0 & Hc0 & ->). by eapply (ih_keys _ _ Hi).
Qed.

Lemma create_user_ok s k used email t role draw now : world_ok s k used →
  call_ok k used (OpCreateUser email t role draw now) (tenancy_step (OpCreateUser email t role draw now) s).
Proof.
  intros [Hk Hc Hi]. cbn [tenancy_step]. unfold CreateUser. case_decide; [by split|].
  destruct (Authz.IsValid role); cbn [negb]; [|by split]. destruct (GetTenant t s); [by split|].
  case_decide as Hu; [by split|]. split; [by destruct Hk|done|].
  assert (randID "usr" draw ∉ us_id <$> users (db s)) as Hnew by tauto. revert Hnew. generalize (randID "usr" draw) as id.
  intros id Hnew. clear Hu. destruct Hi as [Ht Hkt Hnd Hrow Huser Htok Hsess].
  split; try done; cbn [fst snd with_db db users sessions learn kn_users kn_keys kn_tenants ur_ID ur_TenantID].
  - rewrite fmap_app. cbn [fmap list_fmap us_id]. apply NoDup_app. split; [done|]. split; [|by apply NoDup_singleton].
    intros x Hx ->%list_elem_of_singleton. done.
  - intros u [Hu| ->%list_elem_of_singleton]%elem_of_app; [|apply lookup_insert_eq].
    rewrite lookup_insert_ne; [by apply Hrow|]. intros ->. apply Hnew, list_elem_of_fmap. by exists u.
  - intros id' t' [[<- <-]|[Hne Hu]]%lookup_insert_Some.
    + eexists. split; [apply elem_of_app; right; by apply list_elem_of_singleton|done].
    + destruct (Huser id' t' Hu) as (u & Hin & <-). exists u. split; [|done]. apply elem_of_app. by left.
Qed.

Lemma create_session_ok {shalaws : Sha256Laws} {timelaws : TimeTextLaws} s k used u t role ttl draw now : world_ok s k used →
  call_ok k used (OpCreateSession u t role ttl draw now) (tenancy_step (OpCreateSession u t role ttl draw now) s).
Proof.
  intros [Hk Hc Hi]. cbn [tenancy_step]. unfold CreateSession, generateSessionToken.
  set (token := (sessionTokenPrefix +:+ RawURLEncode draw)%string).
  case_decide as Hu; [by split|]. split; [by destruct Hk|done|].
  assert (hashToken token ∉ se_hash <$> sessions (db s)) as Hnew by tauto.
  destruct Hi as [Ht Hkt Hnd Hrow Huser Htok Hsess].
  assert (kn_sessions k !! token = None) as Hnone.
  { destruct (kn_sessions k !! token) as [x|] eqn:Hx; [|done]. destruct (Hsess token x Hx) as (row & Hr & Hh).
    destruct Hnew. apply list_elem_of_fmap. by exists row. }
  assert (has_prefix token sessionTokenPrefix = true) as Hpre by (apply has_prefix_spec; by eexists).
  split; try done; cbn [fst snd with_db with_sessions db users sessions learn kn_sessions sn_UserID sn_TenantID sn_Role sn_ExpiresAt].
  - intros x [Hx| ->%list_elem_of_singleton]%elem_of_app.
    + destruct (Htok x Hx) as (tok & ss & Hs & Hh & Hok). exists tok, ss. split; [|done].
      rewrite lookup_insert_ne; [done|]. intros <-. congruence.
    + eexists token, _. split; [apply lookup_insert_eq|]. split; [done|]. split; [done|].
      split_and!; try done. apply time_text.
  - intros tok ss [[<- <-]|[Hne Hs]]%lookup_insert_Some.
    + eexists. split; [apply elem_of_app; right; by apply list_elem_of_singleton|done].
    + destruct (Hsess tok ss Hs) as (x & Hx & Hh). exists x. split; [|done]. apply elem_of_app. by left.
Qed.

Lemma set_quota_ok s k used t c : world_ok s k used →
  call_ok k used (OpSetTenantQuota t c) (tenancy_step (OpSetTenantQuota t c) s).
Proof.
  intros [[] Hc []]. cbn [tenancy_step]. unfold SetTenantQuota. by destruct (GetTenant t s).
Qed.

Lemma add_spend_ok s k used t month usd : world_ok s k used →
  call_ok k used (OpAddSpend t month usd) (tenancy_step (OpAddSpend t month usd) s).
Proof. intros [[] Hc []]. cbn [tenancy_step]. unfold AddSpend. by case_decide. Qed.

(** ** Histories *)

Section laws.
Context {bcryptlaws : BcryptLaws} {shalaws : Sha256Laws} {timelaws : TimeTextLaws}.

Lemma call_keeps s k used op : world_ok s k used → op_ok op →
  let r := tenancy_step op s in fresh used r.2 → call_ok k used op r.
Proof.
  intros Hw Hop. cbv zeta. destruct op; cbn [op_ok] in Hop.
  - intros _. by apply create_tenant_ok.
  - intros _. by apply delete_tenant_ok.
  - by apply create_key_ok.
  - intros _. by apply update_role_ok.
  - by apply rotate_ok.
  - by apply bulk_ok.
  - intros _. by apply delete_key_ok.
  - intros _. destruct Hw as [Hk Hc Hi]. cbn [tenancy_step].
    pose proof (resolve_ok s (kn_keys k) used plaintext clock Hk Hc Hop) as Hr.
    destruct (Resolve plaintext clock s) as [s' answer]. destruct Hr as (Hk' & Hc' & Ht & Hu & Hs & _).
    split; [by destruct answer|by destruct answer|]. cbn [fst snd learn].
    destruct Hi. by split; rewrite ?Ht, ?Hu, ?Hs.
  - intros _. by apply create_user_ok.
  - intros _. by apply create_session_ok.
  - intros _. destruct Hw as [Hk Hc Hi]. cbn [tenancy_step]. pose proof (resolve_session_ok s k token now Hi) as Hr.
    destruct (ResolveSession token now s) as [s' answer]. destruct Hr as (Hcs & Hks & Hi' & _).
    assert (kn_keys (learn k (OpResolveSession token now, APrincipal answer)) = kn_keys k) as Hkk by (by destruct answer).
    split; cbn [fst snd revealed app]; [|by rewrite Hkk, Hcs|done].
    rewrite Hkk. destruct Hk. by split; rewrite ?Hks.
  - intros _. destruct Hw as [[] Hc Hi]. split; [done|done|]. by apply drop_session_hold.
  - intros _. by apply set_quota_ok.
  - intros _. by apply add_spend_ok.
Qed.

(** The secrets a history reveals. *)
Definition revealed_in (hist : list (tenancy_op * tenancy_answer)) : list string := hist ≫= λ h, revealed h.2.

Lemma run_keeps ops s k used : world_ok s k used → Forall op_ok ops →
  let '(s', hist) := run_tenancy ops s in
  NoDup (revealed_in hist) → (∀ x, x ∈ revealed_in hist → x ∉ used) →
  ∃ used', world_ok s' (foldl learn k hist) used'.
Proof.
  revert s k used. induction ops as [|op ops IH]; intros s k used Hw Hops; [by exists used|].
  apply Forall_cons in Hops as [Hop Hops]. cbn [run_tenancy].
  pose proof (call_keeps s k used op Hw Hop) as Hstep. cbv zeta in Hstep. destruct (tenancy_step op s) as [s1 a].
  specialize (IH s1 (learn k (op, a)) (revealed a ++ used)).
  destruct (run_tenancy ops s1) as [s' hist]. unfold revealed_in. cbn [mbind list_bind snd foldl].
  intros (Hnd1 & Hdisj & Hnd2)%NoDup_app Hfresh.
  apply IH; [|done|done|].
  - apply Hstep. split; [done|]. intros x Hx. apply Hfresh. apply elem_of_app. by left.
  - intros x Hx [Hr|Hu]%elem_of_app; [by apply (Hdisj x Hr)|]. apply (Hfresh x); [apply elem_of_app; by right|done].
Qed.

Lemma world_start c0 : match c0 with None => True | Some c => AuthCache.entries c = ∅ end →
  world_ok (mkStore empty_database c0) nothing_known [].
Proof.
  intros Hc0. split.
  - split; cbn; try done; [constructor|intros r Hr; by apply not_elem_of_nil in Hr].
  - destruct c0 as [c|]; [|done]. cbn [cache cache_current]. rewrite Hc0. intros h e H. by apply lookup_empty_Some in H.
  - split; cbn; try done; try (intros x Hx; by apply not_elem_of_nil in Hx).
    + intros id. by rewrite elem_of_empty, elem_of_nil.
    + constructor.
Qed.

Lemma owns_unique s k used plaintext p p' : world_ok s k used → owns (kn_keys k) plaintext p → owns (kn_keys k) plaintext p' → p = p'.
Proof.
  intros [Hk _ _] (id & c & Hc & Hs & ->) (id' & c' & Hc' & Hs' & ->).
  assert (id = id') as -> by (eapply (kh_distinct _ _ _ Hk); [done..|congruence]). congruence.
Qed.

Definition done {A} (a : store_error + A) : Prop := ∃ x, a = inr x.

(** The management calls find the keys of the tenant they are made for, and no others. *)
Lemma calls_decided s k used t id : world_ok s k used →
  let owned := ∃ c, kn_keys k !! id = Some c ∧ cr_tenant c = t in
  (∀ draws, draws_ok draws → done (RotateAPIKey t id draws s).2 ↔ owned) ∧
  (∀ role, Authz.IsValid role = true → done (UpdateAPIKeyRole t id role s).2 ↔ owned) ∧
  ((DeleteAPIKey t id s).2 = None ↔ owned).
Proof.
  intros Hw owned. pose proof (found_key s k used t id Hw) as Hf.
  assert ((∃ r, find_key t id (db s) = Some r) ↔ owned) as Hfound.
  { unfold owned. destruct (find_key t id (db s)) as [r|].
    - destruct Hf as (_ & _ & _ & c & Hc & Ht & _). split; [by exists c|by exists r].
    - split; [by intros [? ?]|]. intros (c & Hc & Ht). by destruct (Hf c Hc). }
  split_and!.
  - intros draws Hd. rewrite <-Hfound. unfold RotateAPIKey. destruct (find_key t id (db s)) as [r|].
    2:{ split; [by intros [? ?]|by intros [? ?]]. }
    destruct (generateAPIKey draws) as [plaintext prefix] eqn:Hg.
    destruct (hash_made draws plaintext prefix Hd Hg) as [hash ->]. split; intros _; [by exists r|by eexists].
  - intros role Hr. rewrite <-Hfound. unfold UpdateAPIKeyRole. rewrite Hr. cbn [negb].
    destruct (find_key t id (db s)) as [r|]; [split; intros _; [by exists r|by eexists]|].
    split; by intros [? ?].
  - rewrite <-Hfound. unfold DeleteAPIKey. case_decide as Hex.
    + split; [|done]. intros _. destruct (find_key t id (db s)) as [r|] eqn:Hfk; [by exists r|].
      exfalso. unfold find_key in Hfk. pose proof (head_rows (λ k, ak_id k = id ∧ ak_tenant k = t) (api_keys (db s))) as Hn.
      rewrite Hfk in Hn. apply Exists_exists in Hex as (r & Hr & HP). by apply (Hn r).
    + split; [done|]. intros [r Hr]. destruct Hex. rewrite Hr in Hf. destruct Hf as (Hin & Hid & Ht & _).
      apply Exists_exists. by exists r.
Qed.

(** C2: Whatever was created, rotated, promoted, deleted and looked up before, with the
    cache or without, a key is accepted exactly when it is the secret last answered for a
    key that was not deleted, nor its tenant, and for the tenant and the role that key has
    now; a session token is accepted exactly until it expires or is deleted, or its user's
    tenant is. A call that rotates, promotes or deletes a key succeeds exactly on the keys
    of its own tenant, and every key left belongs to a tenant that exists. *)
Theorem credentials_history (ops : list tenancy_op) (c0 : option AuthCache.authCache) :
  match c0 with None => True | Some c => AuthCache.entries c = ∅ end → Forall op_ok ops →
  NoDup (revealed_in (run_tenancy ops (mkStore empty_database c0)).2) →
  let '(s, hist) := run_tenancy ops (mkStore empty_database c0) in
  let k := learned hist in
  (∀ plaintext clock p, Engine.no_nul plaintext = true →
     (Resolve plaintext clock s).2 = inr p ↔
     ∃ id c, kn_keys k !! id = Some c ∧ cr_secret c = plaintext ∧ p = mkPrincipal (cr_tenant c) id (cr_role c)) ∧
  (∀ token now p, (ResolveSession token now s).2 = inr p ↔
     ∃ x, kn_sessions k !! token = Some x ∧ (now ≤ ss_expires x)%Z ∧ p = mkPrincipal (ss_tenant x) (ss_user x) (ss_role x)) ∧
  (∀ t id, let owned := ∃ c, kn_keys k !! id = Some c ∧ cr_tenant c = t in
     (∀ draws, draws_ok draws → done (RotateAPIKey t id draws s).2 ↔ owned) ∧
     (∀ role, Authz.IsValid role = true → done (UpdateAPIKeyRole t id role s).2 ↔ owned) ∧
     ((DeleteAPIKey t id s).2 = None ↔ owned)) ∧
  (∀ id c, kn_keys k !! id = Some c → cr_tenant c ∈ kn_tenants k).
Proof.
  intros Hc0 Hops Hnd. pose proof (run_keeps ops _ _ _ (world_start c0 Hc0) Hops) as Hrun.
  destruct (run_tenancy ops (mkStore empty_database c0)) as [s hist].
  destruct Hrun as [used Hw]; [done|by intros x _ ?%not_elem_of_nil|]. fold (learned hist) in Hw.
  pose proof Hw as [Hk Hc Hi]. cbv zeta. split; [|split; [|split]].
  - intros plaintext clock p Hn. pose proof (resolve_ok s _ used plaintext clock Hk Hc Hn) as Hr.
    destruct (Resolve plaintext clock s) as [s' [e|p']]; destruct Hr as (_ & _ & _ & _ & _ & Hr); cbn [snd].
    + split; [done|]. intros Ho. by destruct (Hr p).
    + split; [by intros [= <-]|]. intros Ho. f_equal. by eapply owns_unique.
  - intros token now p. pose proof (resolve_session_ok s _ token now Hi) as Hr.
    destruct (ResolveSession token now s) as [s' [e|p']]; destruct Hr as (_ & _ & _ & Hr); cbn [snd].
    + split; [done|]. intros (x & Hx & Hle & _). specialize (Hr x Hx). lia.
    + split; [by intros [= <-]|]. intros (x & Hx & _ & ->). destruct Hr as (x' & Hx' & _ & ->). congruence.
  - intros t id. by eapply calls_decided.
  - apply (ih_keys _ _ Hi).
Qed.
End laws.
End history.

(** ** A history with concrete parameters *)

#[local] Instance rows_in_order : SqlRows := {| sql_rows A l := l; sql_rows_perm A l := Permutation_refl l |}.
#[local] Instance clear_bcrypt : Bcrypt := {|
  GenerateFromPassword _ p := if decide (String.length p ≤ 71) then Some p else None;
  CompareHashAndPassword h q := bool_decide (q = h)
|}.
#[local] Instance plain_sha256 : Sha256 := λ s, s.
#[local] Instance bare_fmt : GoFmt := {| Quote s := s; Sprint _ := "" ; Fixed0 _ := "" |}.

(** A time as the binary digits of its seconds, the lowest first. *)
Fixpoint bits_text (p : positive) : string :=
  match p with xH => "." | xO p => String "0" (bits_text p) | xI p => String "1" (bits_text p) end.
Fixpoint text_bits (s : string) : positive :=
  match s with String "0" s => xO (text_bits s) | String "1" s => xI (text_bits s) | _ => xH end.

Lemma text_bits_text p : text_bits (bits_text p) = p.
Proof. induction p as [p IH|p IH|]; cbn [bits_text text_bits]; by rewrite ?IH. Qed.

Definition seconds_text (n : Z) : string :=
  match n with Z0 => "z" | Zpos p => String "+" (bits_text p) | Zneg p => String "-" (bits_text p) end.
Definition text_seconds (s : string) : option Z :=
  match s with
  | String "z" _ => Some 0%Z | String "+" s => Some (Zpos (text_bits s)) | String "-" s => Some (Zneg (text_bits s))
  | _ => None
  end.

#[local] Instance second_texts : GoTimeText := {|
  FormatRFC3339 t := seconds_text (t / Second);
  ParseRFC3339 s := (λ n, n * Second)%Z <$> text_seconds s
|}.

#[local] Instance clear_bcrypt_laws : BcryptLaws.
Proof.
  split; cbn.
  - intros _ p Hp. exists p. by rewrite decide_True.
  - intros _ p h q. case_decide; [|done]. by intros [= <-].
Qed.
#[local] Instance plain_sha256_laws : Sha256Laws.
Proof. by intros a b. Qed.
#[local] Instance second_texts_laws : TimeTextLaws.
Proof.
  intros t. cbn [ParseRFC3339 FormatRFC3339 second_texts].
  assert (text_seconds (seconds_text (t / Second)) = Some (t / Second)%Z) as ->
    by (destruct (t / Second)%Z; cbn; by rewrite ?text_bits_text).
  cbn. f_equal. pose proof (Z_div_mod_eq_full t Second). lia.
Qed.
#[local] Existing Instance canonical_range.

Definition tick : ResolveClock := mkResolveClock (1, 1)%Z 1%Z (1, 1)%Z.
Definition some_draws (n : Z) : KeyDraws := mkKeyDraws n n (repeat n 24) 0.

Definition acme : string := "ten_0000000000000001".
Definition first_key : string := "key_0000000000000002".
Definition second_key : string := "key_0000000000000003".

(** A tenant with two keys and a session: both keys are used, one is rotated after it got
    another role, the other one deleted. *)
Definition some_history : list tenancy_op :=
  [OpCreateTenant "acme" 1 0; OpCreateAPIKey acme "ops" Authz.RoleAdmin (some_draws 2) 0;
   OpCreateAPIKey acme "ci" Authz.RoleViewer (some_draws 3) 0;
   OpResolve (generateAPIKey (some_draws 2)).1 tick; OpResolve (generateAPIKey (some_draws 3)).1 tick;
   OpUpdateAPIKeyRole acme first_key Authz.RoleEditor; OpRotateAPIKey acme first_key (some_draws 4);
   OpDeleteAPIKey acme second_key; OpDeleteAPIKey "ten_0000000000000009" first_key;
   OpCreateUser "a@acme.test" acme Authz.RoleViewer 5 0;
   OpCreateSession "usr_0000000000000005" acme Authz.RoleViewer Hour [1; 2; 3]%Z 0].

(** The key a secret is accepted for, and its role. *)
Definition accepted (plaintext : string) (s : SQLiteStore) : option (string * string) :=
  match (Resolve plaintext tick s).2 with inr p => Some (Authz.p_KeyID p, Authz.p_Role p) | inl _ => None end.

Example some_history_run :
  let '(s, hist) := run_tenancy some_history (mkStore empty_database (Some (AuthCache.newAuthCache 0 0))) in
  let key n := (generateAPIKey (some_draws n)).1 in
  bool_decide (accepted (key 2%Z) s = None) && bool_decide (accepted (key 3%Z) s = None) &&
  bool_decide (accepted (key 4%Z) s = Some (first_key, Authz.RoleEditor)) &&
  bool_decide (length (revealed_in hist) = 3) = true.
Proof. vm_compute. reflexivity. Qed.

Lemma credentials_history_witness :
  let '(s, hist) := run_tenancy some_history (mkStore empty_database (Some (AuthCache.newAuthCache 0 0))) in
  ∀ clock, (Resolve (generateAPIKey (some_draws 4)).1 clock s).2 = inr (mkPrincipal acme first_key Authz.RoleEditor).
Proof.
  set (s0 := mkStore empty_database (Some (AuthCache.newAuthCache 0 0))).
  assert (Forall op_ok some_history) as Hok by (repeat constructor; unfold is_byte; lia).
  assert (bool_decide (NoDup (revealed_in (run_tenancy some_history s0).2)) = true) as Hnd by (by vm_compute).
  assert (bool_decide (kn_keys (learned (run_tenancy some_history s0).2) !! first_key =
    Some (mkCred acme Authz.RoleEditor (generateAPIKey (some_draws 4)).1)) = true) as Hk by (by vm_compute).
  apply bool_decide_eq_true in Hnd, Hk.
  pose proof (credentials_history some_history (Some (AuthCache.newAuthCache 0 0)) eq_refl Hok Hnd) as H.
  fold s0 in H. revert H Hk. clear Hnd. destruct (run_tenancy some_history s0) as [s hist].
  intros [H _] Hk clock. apply H; [by vm_compute|]. by eexists first_key, _.
Defined.

(** A lookup that read the row of a key before the key was deleted, and remembers it after
    the cache was flushed, brings the key back: it is accepted until its entry expires. *)
Example deleted_key_survives :
  let s0 := (run_tenancy (take 3 some_history) (mkStore empty_database (Some (AuthCache.newAuthCache 0 0)))).1 in
  let key := (generateAPIKey (some_draws 3)).1 in
  let read := candidates key (db s0) in
  let s1 := (DeleteAPIKey acme second_key s0).1 in
  let s2 := (verify key tick read s1).1 in
  bool_decide (accepted key s1 = None) && bool_decide (accepted key s2 = Some (second_key, Authz.RoleViewer)) = true.
Proof. vm_compute. reflexivity. Qed.
