(* ===== verification/Sso.v ===== *)
(** Single sign-on, [internal/server/oidc_handlers.go], [internal/oidcauth/oidcauth.go] and
    the parts of [cmd/mockagents/start.go] that set it up: the login flow with its cookies,
    the callback that makes a session in the tenancy store, and logging out.

    go-oidc and x/oauth2 are the class [OidcLibrary]; random bytes and clock readings are
    arguments. The environment is a function from names to values. *)

From Stdlib Require Import Ascii.
From S2P Require Import Prelude GoBase GoStrings Base64 Validation FilePath TenancyStore TenancyHistory.
From S2P Require Authz Quota.

Local Open Scope string_scope.

(** ** The relying party *)

Record Claims := mkClaims { cl_Email : string; cl_Subject : string }.

Record Settings := mkSettings {
  st_Issuer : string; st_ClientID : string; st_ClientSecret : string; st_RedirectURL : string
}.

(** The interface the handlers depend on. *)
Record Authenticator := mkAuthenticator {
  AuthCodeURL : string → string → string;
  Exchange : string → string → string + Claims
}.

(** [oauth2.Config] for an endpoint. *)
Record OAuthConfig (E : Type) := mkOAuthConfig {
  oa_ClientID : string; oa_ClientSecret : string; oa_RedirectURL : string; oa_Endpoint : E; oa_Scopes : list string
}.
Arguments mkOAuthConfig {E}.

(** What the code calls in the libraries: discovery, the URL of a login, the exchange of a
    code for a token, the raw ID token in it when that is a string, its verification for a
    client, its subject, and the [email] claim of its payload. *)
Class OidcLibrary := {
  oidc_provider : Type;
  oauth_token : Type;
  id_token : Type;
  NewProvider : string → string + oidc_provider;
  oauth_code_url : OAuthConfig oidc_provider → string → string → string;
  oauth_exchange : OAuthConfig oidc_provider → string → string → string + oauth_token;
  raw_id_token : oauth_token → option string;
  verify_id_token : oidc_provider → string → string → string + id_token;
  token_subject : id_token → string;
  email_claim : id_token → string + string
}.

(** [time.ParseDuration], in nanoseconds. *)
Class GoDuration := ParseDuration : string → option Z.

Section relying_party.
Context {lib : OidcLibrary}.

Definition provider_exchange (p : oidc_provider) (c : OAuthConfig oidc_provider) (code verifier : string) : string + Claims :=
  match oauth_exchange c code verifier with
  | inl e => inl ("oidc code exchange: " +:+ e)
  | inr tok =>
      match raw_id_token tok with
      | None => inl "oidc: token response had no id_token"
      | Some rawID =>
          if decide (rawID = "") then inl "oidc: token response had no id_token"
          else
            match verify_id_token p (oa_ClientID _ c) rawID with
            | inl e => inl ("oidc: id_token verify: " +:+ e)
            | inr idToken =>
                match email_claim idToken with
                | inl e => inl ("oidc: parse claims: " +:+ e)
                | inr email => inr (mkClaims email (token_subject idToken))
                end
            end
      end
  end.

Definition New (s : Settings) : string + Authenticator :=
  match NewProvider (st_Issuer s) with
  | inl e => inl ("oidc discover " +:+ st_Issuer s +:+ ": " +:+ e)
  | inr p =>
      let c := mkOAuthConfig (st_ClientID s) (st_ClientSecret s) (st_RedirectURL s) p ["openid"; "email"] in
      inr (mkAuthenticator (oauth_code_url c) (provider_exchange p c))
  end.
End relying_party.

(** ** Requests and answers *)

Inductive SameSite := SameSiteDefaultMode | SameSiteLaxMode | SameSiteStrictMode | SameSiteNoneMode.

Record Cookie := mkCookie {
  ck_Name : string; ck_Value : string; ck_Path : string; ck_Expires : option Z; ck_MaxAge : Z;
  ck_HttpOnly : bool; ck_Secure : bool; ck_SameSite : SameSite
}.

(** The cookies a browser sends, and the query of the URL. *)
Record SsoRequest := mkSsoRequest { sq_cookies : list (string * string); sq_query : list (string * string) }.

(** [r.Cookie(name)] and [r.URL.Query().Get(name)]: the first of the name. *)
Definition named (name : string) (l : list (string * string)) : option string :=
  snd <$> head (filter (λ p, p.1 = name) l).
Definition request_cookie (name : string) (rq : SsoRequest) : option string := named name (sq_cookies rq).
Definition query_get (name : string) (rq : SsoRequest) : string := default "" (named name (sq_query rq)).

Inductive SsoReply := Redirect (location : string) | ReplyJson (status : Z) (field text : string).

Record SsoAnswer := mkSsoAnswer { sa_cookies : list Cookie; sa_reply : SsoReply }.

Definition oidcStateCookie : string := "oidc_state".
Definition oidcVerifierCookie : string := "oidc_verifier".
Definition oidcFlowMaxAge : Z := 600.
Definition SessionCookieName : string := "mockagents_session".

Record SSOHandlers := mkSSOHandlers {
  so_Auth : Authenticator;
  so_DomainMap : gmap string string;
  so_DefaultRole : Role;
  so_SessionTTL : Z;
  so_Secure : bool
}.

Definition flowCookie (h : SSOHandlers) (name value : string) : Cookie :=
  mkCookie name value "/auth" None oidcFlowMaxAge true (so_Secure h) SameSiteLaxMode.
Definition sessionCookie (h : SSOHandlers) (token : string) (expires : Z) : Cookie :=
  mkCookie SessionCookieName token "/" (Some expires) 0 true (so_Secure h) SameSiteLaxMode.
Definition expireCookie (h : SSOHandlers) (name path : string) : Cookie :=
  mkCookie name "" path None (-1) true (so_Secure h) SameSiteLaxMode.

(** [b] is what the random source gives, if it does. *)
Definition randToken (b : option (list Z)) : option string := RawURLEncode <$> b.

Fixpoint LastIndexByte (c : ascii) (s : string) : option nat :=
  match s with
  | EmptyString => None
  | String d s =>
      match LastIndexByte c s with
      | Some i => Some (S i)
      | None => if decide (d = c) then Some 0 else None
      end
  end.

Definition emailDomain (email : string) : string :=
  match LastIndexByte "@" email with
  | None => ""
  | Some at_ => if decide (at_ = String.length email - 1) then "" else str_drop (at_ + 1) email
  end.

(** What a callback draws: the number of a new user's id and the bytes of a token, and
    the clock when it makes them. *)
Record CallbackDraws := mkCallbackDraws { cd_user : Z; cd_user_now : Z; cd_token : list Z; cd_session_now : Z }.

Section handlers.
Context {mr : MapRange} {rows : SqlRows} {bcrypt : Bcrypt} {sha : Sha256} {gotime : GoTimeText} {fmt : GoFmt} {lower : GoLower}.
Context (h : SSOHandlers).

(** [verifier] is the one the library draws. *)
Definition Login (b : option (list Z)) (verifier : string) : SsoAnswer :=
  match randToken b with
  | None => mkSsoAnswer [] (ReplyJson 500 "error" "internal error")
  | Some state =>
      mkSsoAnswer [flowCookie h oidcStateCookie state; flowCookie h oidcVerifierCookie verifier]
        (Redirect (AuthCodeURL (so_Auth h) state verifier))
  end.

Definition cleared : list Cookie := [expireCookie h oidcStateCookie "/auth"; expireCookie h oidcVerifierCookie "/auth"].

Definition refusal (status : Z) (text : string) : SsoAnswer := mkSsoAnswer cleared (ReplyJson status "error" text).

(** The user of an address, made on the first login. *)
Definition provision (email tenantID : string) (dr : CallbackDraws) (s : SQLiteStore) : SQLiteStore * (store_error + User) :=
  match GetUserByEmail email s with
  | inl (ErrNotFound _) => CreateUser email tenantID (so_DefaultRole h) (cd_user dr) (cd_user_now dr) s
  | r => (s, r)
  end.

(** The end of a callback: the user's session, and the cookie that carries it. *)
Definition sign_in (email tenantID : string) (dr : CallbackDraws) (s : SQLiteStore) : SQLiteStore * SsoAnswer :=
  let '(s, found) := provision email tenantID dr s in
  match found with
  | inl _ => (s, refusal 500 "internal error")
  | inr user =>
      let '(s, made) := CreateSession (ur_ID user) (ur_TenantID user) (ur_Role user) (so_SessionTTL h)
                          (cd_token dr) (cd_session_now dr) s in
      match made with
      | inl _ => (s, refusal 500 "internal error")
      | inr (token, sess) =>
          (s, mkSsoAnswer (cleared ++ [sessionCookie h token (sn_ExpiresAt sess)]) (Redirect "/"))
      end
  end.

Definition Callback (rq : SsoRequest) (dr : CallbackDraws) (s : SQLiteStore) : SQLiteStore * SsoAnswer :=
  match request_cookie oidcStateCookie rq, request_cookie oidcVerifierCookie rq with
  | Some stateCookie, Some verifierCookie =>
      let q := query_get "state" rq in
      if decide (q = "" ∨ q ≠ stateCookie) then (s, refusal 400 "state mismatch")
      else
        let code := query_get "code" rq in
        if decide (code = "") then (s, refusal 400 "missing authorization code")
        else
          match Exchange (so_Auth h) code verifierCookie with
          | inl _ => (s, refusal 401 "authentication failed")
          | inr claims =>
              let email := ToLower (TrimSpace (cl_Email claims)) in
              if decide (email = "") then (s, refusal 401 "identity provider returned no email")
              else
                match so_DomainMap h !! emailDomain email with
                | None => (s, refusal 403 "email domain is not mapped to a tenant")
                | Some tenantID => sign_in email tenantID dr s
                end
          end
  | _, _ => (s, refusal 400 "missing login state; restart the flow")
  end.

Definition Logout (rq : SsoRequest) (s : SQLiteStore) : SQLiteStore * SsoAnswer :=
  (match request_cookie SessionCookieName rq with
   | Some v => if decide (v ≠ "") then DeleteSession v s else s
   | None => s
   end,
   mkSsoAnswer [expireCookie h SessionCookieName "/"] (ReplyJson 200 "status" "logged_out")).
End handlers.

(** ** Setting it up *)

(** [strings.SplitN(s, sep, 2)] when it gives two parts. *)
Fixpoint cut_at (sep : ascii) (s : string) : option (string * string) :=
  match s with
  | EmptyString => None
  | String c s =>
      if decide (c = sep) then Some ("", s)
      else match cut_at sep s with Some (a, b) => Some (String c a, b) | None => None end
  end.

Inductive setup_error := DomainMapRequired | InvalidDefaultRole (role : string) | DiscoveryFailed (text : string).

Section setup.
Context {mr : MapRange} {rows : SqlRows} {bcrypt : Bcrypt} {sha : Sha256} {gotime : GoTimeText} {fmt : GoFmt} {lower : GoLower}.
Context {lib : OidcLibrary} {dur : GoDuration}.

(** One [domain=tenant] of the list, if it counts. *)
Definition domain_entry (pair : string) : option (string * string) :=
  match cut_at "=" (TrimSpace pair) with
  | None => None
  | Some (k, v) =>
      let domain := ToLower (TrimSpace k) in
      let tenant := TrimSpace v in
      if decide (domain ≠ "" ∧ tenant ≠ "") then Some (domain, tenant) else None
  end.

Definition parseDomainMap (s : string) : gmap string string :=
  foldl (λ m pair, match domain_entry pair with Some (domain, tenant) => <[domain := tenant]> m | None => m end)
    ∅ (Split "," s).

Definition buildSSO (env : string → string) : setup_error + option SSOHandlers :=
  let issuer := env "MOCKAGENTS_OIDC_ISSUER" in
  let clientID := env "MOCKAGENTS_OIDC_CLIENT_ID" in
  let clientSecret := env "MOCKAGENTS_OIDC_CLIENT_SECRET" in
  let redirect := env "MOCKAGENTS_OIDC_REDIRECT_URL" in
  if decide (issuer = "" ∨ clientID = "" ∨ clientSecret = "" ∨ redirect = "") then inr None
  else
    let domainMap := parseDomainMap (env "MOCKAGENTS_OIDC_DOMAIN_MAP") in
    if decide (domainMap = ∅) then inl DomainMapRequired
    else
      let role := env "MOCKAGENTS_OIDC_DEFAULT_ROLE" in
      let role := if decide (role = "") then Authz.RoleViewer else role in
      if negb (Authz.IsAssignableViaAPI role) then inl (InvalidDefaultRole role)
      else
        let v := env "MOCKAGENTS_OIDC_SESSION_TTL" in
        let ttl :=
          if decide (v ≠ "")
          then match ParseDuration v with
               | Some d => if decide (0 < d)%Z then d else (24 * 60 * Minute)%Z
               | None => (24 * 60 * Minute)%Z
               end
          else (24 * 60 * Minute)%Z in
        match New (mkSettings issuer clientID clientSecret redirect) with
        | inl e => inl (DiscoveryFailed e)
        | inr auth =>
            let secure := has_prefix (ToLower redirect) "https://" || bool_decide (env "MOCKAGENTS_OIDC_SECURE_COOKIES" = "1") in
            inr (Some (mkSSOHandlers auth domainMap role ttl secure))
        end.

Definition loadQuotaOverrides {B} (s : SQLiteStore) (enf : Quota.Enforcer B) : Quota.Enforcer B * nat :=
  foldl (λ '(enf, n) t,
    match GetTenantQuota (te_ID t) s with
    | None => (enf, n)
    | Some q => (Quota.SetOverride (te_ID t) q enf, S n)
    end) (enf, 0) (ListTenants s).

(** The last entry of a domain counts. *)
Lemma parseDomainMap_lookup s d :
  parseDomainMap s !! d = last (snd <$> filter (λ e, e.1 = d) (omap domain_entry (Split "," s))).
Proof.
  unfold parseDomainMap. generalize (Split "," s) as l. intros l. induction l as [|x l IH] using rev_ind; [done|].
  rewrite foldl_app, omap_app. cbn [foldl omap list_omap]. destruct (domain_entry x) as [[k v]|]; [|by rewrite app_nil_r].
  rewrite filter_app, fmap_app, filter_cons. cbn [fst snd]. case_decide as Hk.
  - subst. rewrite filter_nil. cbn [fmap list_fmap snd]. by rewrite lookup_insert_eq, last_snoc.
  - rewrite lookup_insert_ne, filter_nil, app_nil_r by done. exact IH.
Qed.

(** What setting up can give: nothing, or a handler that names tenants for real domains,
    gives users a role the API could give, and lets sessions end. *)
Lemma buildSSO_correct env :
  match buildSSO env with
  | inr (Some h) =>
      so_DomainMap h = parseDomainMap (env "MOCKAGENTS_OIDC_DOMAIN_MAP") ∧ so_DomainMap h ≠ ∅ ∧
      Authz.IsAssignableViaAPI (so_DefaultRole h) = true ∧ (0 < so_SessionTTL h)%Z ∧
      ∃ s, New s = inr (so_Auth h)
  | inr None => ∃ name, name ∈ ["MOCKAGENTS_OIDC_ISSUER"; "MOCKAGENTS_OIDC_CLIENT_ID"; "MOCKAGENTS_OIDC_CLIENT_SECRET";
                                "MOCKAGENTS_OIDC_REDIRECT_URL"] ∧ env name = ""
  | inl _ => True
  end.
Proof.
  unfold buildSSO. case_decide as Hset.
  { destruct Hset as [H|[H|[H|H]]]; eexists; (split; [|exact H]); set_solver. }
  case_decide; [done|]. set (role := if decide _ then _ else _).
  destruct (Authz.IsAssignableViaAPI role) eqn:Hr; cbn [negb]; [|done].
  destruct (New _) eqn:Hnew; [done|]. cbn [so_DomainMap so_DefaultRole so_SessionTTL so_Auth]. split_and!; try done; [|by eexists].
  case_decide; [|by vm_compute]. destruct (ParseDuration _); [|by vm_compute]. case_decide; [done|by vm_compute].
Qed.

(** The quotas of the store's tenants, over the ones in force before. *)
Theorem loadQuotaOverrides_correct {B} (s : SQLiteStore) (enf : Quota.Enforcer B) t :
  Quota.overrides (loadQuotaOverrides s enf).1 !! t =
    (if decide (t ≠ "" ∧ t ∈ tn_id <$> tenants (db s))
     then match GetTenantQuota t s with Some q => Some q | None => Quota.overrides enf !! t end
     else Quota.overrides enf !! t).
Proof.
  unfold loadQuotaOverrides.
  assert (te_ID <$> ListTenants s ≡ₚ tn_id <$> tenants (db s)) as Hp.
  { unfold ListTenants. rewrite <- list_fmap_compose, sort_by_perm, sql_rows_perm. done. }
  rewrite (decide_ext _ (t ≠ "" ∧ t ∈ te_ID <$> ListTenants s)) by (by rewrite Hp).
  generalize (ListTenants s) as l. generalize 0 as n. clear Hp. intros n l. revert enf n.
  induction l as [|x l IH]; intros enf n; cbn [foldl fmap list_fmap].
  { rewrite decide_False; [done|]. intros [_ Hin]. by apply elem_of_nil in Hin. }
  destruct (GetTenantQuota (te_ID x) s) as [q|] eqn:Hq; rewrite IH; clear IH.
  - unfold Quota.SetOverride.
    destruct (decide (t = te_ID x)) as [->|Hne].
    + rewrite Hq. repeat case_decide; cbn; rewrite ?lookup_insert_eq; set_solver.
    + rewrite (decide_ext _ (t ≠ "" ∧ t ∈ te_ID x :: (te_ID <$> l))) by set_solver.
      destruct (decide (te_ID x = "")); [done|]. cbn [Quota.overrides]. by rewrite lookup_insert_ne.
  - destruct (decide (t = te_ID x)) as [->|Hne]; [rewrite Hq; by repeat case_decide|].
    by rewrite (decide_ext _ (t ≠ "" ∧ t ∈ te_ID x :: (te_ID <$> l))) by set_solver.
Qed.
End setup.

(** ** What a callback may do *)

Local Close Scope string_scope.

Section callback.
Context {mr : MapRange} {rows : SqlRows} {bcrypt : Bcrypt} {sha : Sha256} {gotime : GoTimeText} {fmt : GoFmt} {lower : GoLower}.
Context (h : SSOHandlers).

(** The request completes a login: it brings back the state of the flow's cookie, the
    identity provider exchanges its code under the flow's verifier, and the domain of the
    address it vouches for belongs to a tenant. *)
Definition authenticated (rq : SsoRequest) (email tenantID : string) : Prop :=
  ∃ state verifier claims,
    request_cookie oidcStateCookie rq = Some state ∧ state ≠ "" ∧ query_get "state" rq = state ∧
    request_cookie oidcVerifierCookie rq = Some verifier ∧ query_get "code" rq ≠ "" ∧
    Exchange (so_Auth h) (query_get "code" rq) verifier = inr claims ∧
    email = ToLower (TrimSpace (cl_Email claims)) ∧ email ≠ "" ∧
    so_DomainMap h !! emailDomain email = Some tenantID.

Definition session_token (dr : CallbackDraws) : string := (generateSessionToken (cd_token dr)).1.

Lemma Callback_cases rq dr s :
  (∃ status text, status ∈ [400; 401; 403]%Z ∧ Callback h rq dr s = (s, refusal h status text) ∧
     ∀ email tenantID, ¬ authenticated rq email tenantID) ∨
  (∃ email tenantID, authenticated rq email tenantID ∧ Callback h rq dr s = sign_in h email tenantID dr s).
Proof.
  assert (∀ status text, status ∈ [400; 401; 403]%Z → Callback h rq dr s = (s, refusal h status text) →
    (∀ email tenantID, ¬ authenticated rq email tenantID) → ∃ status text, status ∈ [400; 401; 403]%Z ∧
      Callback h rq dr s = (s, refusal h status text) ∧ ∀ email tenantID, ¬ authenticated rq email tenantID) as Hrefused.
  { intros status text. by exists status, text. }
  unfold Callback, authenticated in *.
  destruct (request_cookie oidcStateCookie rq) as [state|];
    [|left; eapply Hrefused; [|done|]; [set_solver|intros ? ? (? & ? & ? & ? & _); done]].
  destruct (request_cookie oidcVerifierCookie rq) as [verifier|];
    [|left; eapply Hrefused; [|done|]; [set_solver|intros ? ? (? & ? & ? & _ & _ & _ & ? & _); done]].
  case_decide as Hst.
  { left. eapply Hrefused; [|done|]; [set_solver|]. intros ? ? (st & ? & ? & [= <-] & Hne & Hq & _). rewrite Hq in Hst. tauto. }
  case_decide; [left; eapply Hrefused; [|done|]; [set_solver|intros ? ? (? & ? & ? & _ & _ & _ & _ & ? & _); done]|].
  destruct (Exchange _ _ _) as [e|claims] eqn:Hex.
  { left. eapply Hrefused; [|done|]; [set_solver|]. intros ? ? (? & ? & ? & _ & _ & _ & [= <-] & _ & Hex' & _). congruence. }
  case_decide as He.
  { left. eapply Hrefused; [|done|]; [set_solver|].
    intros ? ? (? & ? & ? & _ & _ & _ & [= <-] & _ & Hex' & -> & Hne & _). congruence. }
  destruct (so_DomainMap h !! _) as [t|] eqn:Hdom.
  2:{ left. eapply Hrefused; [|done|]; [set_solver|].
      intros ? ? (? & ? & ? & _ & _ & _ & [= <-] & _ & Hex' & -> & _ & Hd). congruence. }
  right. eexists _, t. split; [|done]. exists state, verifier, claims.
  destruct (decide (query_get "state" rq = state)) as [<-|]; [|tauto]. split_and!; try done. tauto.
Qed.

(** The user found or made. *)
Lemma provision_correct email tenantID dr s :
  let '(s', found) := provision h email tenantID dr s in
  cache s' = cache s ∧ sessions (db s') = sessions (db s) ∧ tenants (db s') = tenants (db s) ∧
  match found with
  | inl _ => s' = s
  | inr user =>
      ∃ u, u ∈ users (db s') ∧ us_email u = email ∧
        ur_ID user = us_id u ∧ ur_TenantID user = us_tenant u ∧ ur_Role user = us_role u ∧
        (s' = s ∨
         (∀ v, v ∈ users (db s) → us_email v ≠ email) ∧ users (db s') = users (db s) ++ [u] ∧
         us_tenant u = tenantID ∧ us_role u = so_DefaultRole h)
  end.
Proof.
  unfold provision, GetUserByEmail. pose proof (head_rows (λ u, us_email u = email) (users (db s))) as Hr.
  destruct (head _) as [u|].
  - destruct Hr as [Hu He]. split_and!; [done..|]. exists u. split_and!; try done. by left.
  - unfold CreateUser. case_decide; [done|]. destruct (Authz.IsValid _); cbn [negb]; [|done].
    destruct (GetTenant _ _); [done|]. case_decide; [done|].
    cbn [with_db db users sessions cache ur_ID ur_TenantID ur_Role]. split_and!; [done..|].
    eexists. split_and!; [apply elem_of_app; right; by apply list_elem_of_singleton|done..|]. right. done.
Qed.

(** A callback that is not authenticated is refused and changes nothing. An authenticated
    one signs in the user of the address, made on the first time for the tenant of the
    domain and with the default role: the cookie's token stands for that user, and
    nothing else changes; or it fails with 500 and makes no session. *)
Theorem Callback_correct rq dr s :
  let '(s', a) := Callback h rq dr s in
  ((∀ email tenantID, ¬ authenticated rq email tenantID) ∧ s' = s ∧
     ∃ status text, status ∈ [400; 401; 403]%Z ∧ a = refusal h status text) ∨
  ∃ email tenantID, authenticated rq email tenantID ∧
    (users (db s') = users (db s) ∨
     ∃ u, (∀ v, v ∈ users (db s) → us_email v ≠ email) ∧ users (db s') = users (db s) ++ [u] ∧
       us_email u = email ∧ us_tenant u = tenantID ∧ us_role u = so_DefaultRole h) ∧
    ((sessions (db s') = sessions (db s) ∧ a = refusal h 500 "internal error") ∨
     (∃ u created expires, u ∈ users (db s') ∧ us_email u = email ∧
        sessions (db s') = sessions (db s) ++
          [mkSessionRow (hashToken (session_token dr)) (us_id u) (us_tenant u) (us_role u) created expires] ∧
        a = mkSsoAnswer (cleared h ++ [sessionCookie h (session_token dr) (cd_session_now dr + so_SessionTTL h)])
              (Redirect "/"))).
Proof.
  destruct (Callback_cases rq dr s) as [(status & text & Hst & -> & Hno)|(email & t & Hauth & ->)];
    [left; split_and!; [done..|]; by eexists _, _|].
  pose proof (provision_correct email t dr s) as Hp. unfold sign_in.
  destruct (provision _ _ _ _ _) as [s1 found]. destruct Hp as (_ & Hs & _ & Hp).
  assert (match found with inl _ => True | inr _ => users (db s1) = users (db s) ∨
     ∃ u, (∀ v, v ∈ users (db s) → us_email v ≠ email) ∧ users (db s1) = users (db s) ++ [u] ∧
       us_email u = email ∧ us_tenant u = t ∧ us_role u = so_DefaultRole h end) as Hu.
  { destruct found as [|user]; [done|]. destruct Hp as (u & _ & He & _ & _ & _ & [->|(Hn & Hus & Ht & Hr)]); [by left|right].
    by exists u. }
  destruct found as [e|user].
  - subst. right. exists email, t. split; [done|]. split; [by left|]. by left.
  - destruct Hp as (u & Hin & He & Hid & Ht & Hr & _). unfold CreateSession.
    destruct (generateSessionToken (cd_token dr)) as [token hash] eqn:Htok. case_decide.
    + right. exists email, t. split; [done|]. split; [done|]. by left.
    + right. exists email, t. split; [done|]. split; [done|]. right. injection Htok as <- <-.
      eexists u, _, _. split; [done|]. split; [done|]. split; [|done].
      cbn [with_db with_sessions db sessions]. rewrite Hs, Hid, Ht, Hr. done.
Qed.
End callback.

(** ** Histories of logins *)

(** Callbacks and logouts, and any other call of the store between them. A login starts
    without it. *)
Inductive sso_event :=
| EvCallback (rq : SsoRequest) (dr : CallbackDraws)
| EvLogout (rq : SsoRequest)
| EvStore (op : tenancy_op).

(** Users and sessions are made by logins alone. *)
Definition sso_allowed (ev : sso_event) : Prop :=
  match ev with
  | EvStore (OpCreateUser _ _ _ _ _) | EvStore (OpCreateSession _ _ _ _ _ _) => False
  | _ => True
  end.

Section histories.
Context {mr : MapRange} {rows : SqlRows} {bcrypt : Bcrypt} {sha : Sha256} {gotime : GoTimeText} {fmt : GoFmt} {lower : GoLower}.
Context (h : SSOHandlers).

Definition sso_step (s : SQLiteStore) (ev : sso_event) : SQLiteStore :=
  match ev with
  | EvCallback rq dr => (Callback h rq dr s).1
  | EvLogout rq => (Logout h rq s).1
  | EvStore op => (tenancy_step op s).1
  end.

Definition sso_run (s : SQLiteStore) (evs : list sso_event) : SQLiteStore := foldl sso_step s evs.

(** The token is the one a callback of the history answered with, after a login that was
    completed for the tenant; the session has not been logged out since. *)
Definition signed_in (s0 : SQLiteStore) (evs : list sso_event) (token tenantID : string) : Prop :=
  ∃ before rq dr after email,
    evs = before ++ EvCallback rq dr :: after ∧ authenticated h rq email tenantID ∧ token = session_token dr ∧
    (Callback h rq dr (sso_run s0 before)).2 =
      mkSsoAnswer (cleared h ++ [sessionCookie h token (cd_session_now dr + so_SessionTTL h)]) (Redirect "/") ∧
    ∀ rq', EvLogout rq' ∈ after → request_cookie SessionCookieName rq' ≠ Some token.

Record vouched (s0 : SQLiteStore) (evs : list sso_event) (s : SQLiteStore) : Prop := {
  vo_user u : u ∈ users (db s) →
    so_DomainMap h !! emailDomain (us_email u) = Some (us_tenant u) ∧ us_role u = so_DefaultRole h;
  vo_session x : x ∈ sessions (db s) → se_role x = so_DefaultRole h ∧
    ∃ token, se_hash x = hashToken token ∧ signed_in s0 evs token (se_tenant x)
}.

Lemma signed_in_snoc s0 evs ev token t : signed_in s0 evs token t →
  (∀ rq, ev = EvLogout rq → request_cookie SessionCookieName rq ≠ Some token) → signed_in s0 (evs ++ [ev]) token t.
Proof.
  intros (before & rq & dr & after & email & -> & Ha & Ht & Hc & Hl) Hev.
  exists before, rq, dr, (after ++ [ev]), email. rewrite <- app_assoc. split_and!; try done.
  intros rq' [Hin|Heq%list_elem_of_singleton]%elem_of_app; [by apply Hl|by apply Hev].
Qed.

(** Fewer users and sessions are vouched for too. *)
Lemma vouched_shrink s0 evs ev s s' : vouched s0 evs s → (∀ rq, ev ≠ EvLogout rq) →
  users (db s') ⊆ users (db s) → sessions (db s') ⊆ sessions (db s) → vouched s0 (evs ++ [ev]) s'.
Proof.
  intros [Hu Hs] Hev Hus Hss. split; [by intros u ?%Hus; apply Hu|]. intros x Hx%Hss.
  destruct (Hs x Hx) as (Hr & token & Hh & Hin). split; [done|]. exists token. split; [done|].
  apply signed_in_snoc; [done|]. intros rq Hrq. by destruct (Hev rq).
Qed.

Lemma apply_rotations_identity rots acc :
  users (foldl apply_rotation acc rots).1 = users acc.1 ∧ sessions (foldl apply_rotation acc rots).1 = sessions acc.1.
Proof.
  revert acc. induction rots as [|[k [[p q] hash]] rots IH]; intros [d results]; [done|]. cbn [foldl apply_rotation].
  case_decide; by rewrite !(proj1 (IH _)), !(proj2 (IH _)).
Qed.

(** The other calls of the store make no user and no session. *)
Lemma other_calls_shrink op s : sso_allowed (EvStore op) →
  users (db (tenancy_step op s).1) ⊆ users (db s) ∧ sessions (db (tenancy_step op s).1) ⊆ sessions (db s).
Proof.
  destruct op as [name draw now|id|t name role d now|t id role|t id d|t ex ds|t id|p clock|? ? ? ? ?|? ? ? ? ? ?|token now|token|t c|t m usd];
    intros Hop; try done; cbn [tenancy_step].
  - unfold CreateTenant. by repeat case_decide.
  - unfold DeleteTenant. case_decide; [|done]. cbn. split; intros x [_ Hx]%list_elem_of_filter; done.
  - unfold CreateAPIKey. repeat case_match; simplify_eq; done.
  - unfold UpdateAPIKeyRole. repeat case_match; simplify_eq; done.
  - unfold RotateAPIKey. repeat case_match; simplify_eq; done.
  - unfold BulkRotateTenantKeys. destruct (GetTenant t s); [done|]. case_decide; [done|].
    destruct (rotations _ _ _) as [rots|]; [|done]. pose proof (apply_rotations_identity rots (db s, [])) as [Hu Hs].
    destruct (foldl _ _ _) as [d results]. cbn in *. by rewrite Hu, Hs.
  - unfold DeleteAPIKey. by case_decide.
  - unfold Resolve. destruct (negb _); [done|]. destruct (AuthCache.Get _ _ _ _) as [c [p'|]]; [done|].
    unfold verify. destruct (find _ _); [|done]. cbn. by destruct (shouldBumpLastUsed _ _).
  - unfold ResolveSession. destruct (negb _); [done|]. destruct (head _) as [x|]; [|done].
    destruct (match ParseRFC3339 _ with Some _ => _ | None => _ end); [|done]. cbn.
    split; [done|]. by intros y [_ Hy]%list_elem_of_filter.
  - cbn. split; [done|]. by intros y [_ Hy]%list_elem_of_filter.
  - unfold SetTenantQuota. by destruct (GetTenant t s).
  - unfold AddSpend. by case_decide.
Qed.

Lemma callback_vouched s0 evs rq dr : vouched s0 evs (sso_run s0 evs) →
  vouched s0 (evs ++ [EvCallback rq dr]) (Callback h rq dr (sso_run s0 evs)).1.
Proof.
  intros Hv. pose proof (Callback_correct h rq dr (sso_run s0 evs)) as Hc.
  destruct (Callback h rq dr (sso_run s0 evs)) as [s' a] eqn:Hrun. cbn [fst].
  destruct Hc as [(_ & -> & _)|(email & t & Hauth & Hus & Hss)]; [by eapply vouched_shrink|].
  assert (∀ u, u ∈ users (db s') →
    so_DomainMap h !! emailDomain (us_email u) = Some (us_tenant u) ∧ us_role u = so_DefaultRole h) as Hu.
  { destruct Hus as [->|(u & _ & -> & He & Ht & Hr)]; [by apply (vo_user _ _ _ Hv)|].
    intros v [Hin| ->%list_elem_of_singleton]%elem_of_app; [by apply (vo_user _ _ _ Hv)|]. rewrite He, Ht.
    destruct Hauth as (? & ? & ? & _ & _ & _ & _ & _ & _ & _ & _ & Hd). done. }
  split; [done|]. intros x Hx.
  assert (x ∈ sessions (db (sso_run s0 evs)) → se_role x = so_DefaultRole h ∧ ∃ token, se_hash x = hashToken token ∧
    signed_in s0 (evs ++ [EvCallback rq dr]) token (se_tenant x)) as Hold.
  { intros Hin. destruct (vo_session _ _ _ Hv x Hin) as (Hr & token & Hh & Hsi). split; [done|]. exists token.
    split; [done|]. by apply signed_in_snoc. }
  destruct Hss as [[Heq _]|(u & created & expires & Hin & He & Heq & Ha)]; rewrite Heq in Hx; [by apply Hold|].
  apply elem_of_app in Hx as [Hx| ->%list_elem_of_singleton]; [by apply Hold|]. destruct (Hu u Hin) as [Hd Hr].
  split; [done|]. exists (session_token dr). split; [done|]. exists evs, rq, dr, [], email.
  split_and!; try done; [| |by intros ? ?%elem_of_nil].
  - cbn [se_tenant]. rewrite He in Hd. destruct Hauth as (st & v & c & Hrest).
    exists st, v, c. destruct Hrest as (? & ? & ? & ? & ? & ? & ? & ? & _). done.
  - by rewrite Hrun.
Qed.

Lemma logout_vouched s0 evs rq s : vouched s0 evs s → vouched s0 (evs ++ [EvLogout rq]) (Logout h rq s).1.
Proof.
  intros [Hu Hs]. unfold Logout. cbn [fst].
  assert (∀ token, request_cookie SessionCookieName rq = Some token → token = "" ∨
    (match request_cookie SessionCookieName rq with
     | Some v => if decide (v ≠ "") then DeleteSession v s else s | None => s end) = DeleteSession token s) as Hout.
  { intros token ->. destruct (decide (token = "")); [by left|right]. by rewrite decide_True. }
  set (s' := match request_cookie _ _ with Some _ => _ | None => _ end) in *.
  assert (users (db s') = users (db s) ∧ sessions (db s') ⊆ sessions (db s)) as [Hus Hss].
  { unfold s'. destruct (request_cookie _ _) as [v|]; [|done]. case_decide; [|done]. split; [done|].
    cbn. by intros y [_ Hy]%list_elem_of_filter. }
  split; [by rewrite Hus|]. intros x Hx. destruct (Hs x (Hss _ Hx)) as (Hr & token & Hh & Hin).
  split; [done|]. exists token. split; [done|]. apply signed_in_snoc; [done|]. intros rq' [= <-] Hc.
  destruct (Hout token Hc) as [->|Heq].
  - destruct Hin as (? & ? & dr & ? & ? & _ & _ & Ht & _). done.
  - rewrite Heq in Hx. cbn in Hx. apply list_elem_of_filter in Hx as [Hne _]. done.
Qed.

Lemma run_vouched c0 evs : Forall sso_allowed evs →
  vouched (mkStore empty_database c0) evs (sso_run (mkStore empty_database c0) evs).
Proof.
  set (s0 := mkStore empty_database c0). induction evs as [|ev evs IH] using rev_ind; intros Hall.
  { split; cbn; by intros ? ?%elem_of_nil. }
  apply Forall_app in Hall as [Hall [Hev _]%Forall_cons]. specialize (IH Hall).
  unfold sso_run. rewrite foldl_app. cbn [foldl]. fold (sso_run s0 evs).
  destruct ev as [rq dr|rq|op]; cbn [sso_step].
  - by apply callback_vouched.
  - by apply logout_vouched.
  - destruct (other_calls_shrink op (sso_run s0 evs) Hev). by eapply vouched_shrink.
Qed.

(** C30: Whatever happens, a session token stands for a tenant only if it was handed out at
    the end of a login completed for that tenant and has not been logged out since, and
    then with the default role. *)
Theorem sessions_vouched {shalaws : Sha256Laws} (c0 : option AuthCache.authCache) (evs : list sso_event)
    (Hevs : Forall sso_allowed evs) (token : string) (now : Z) (p : Principal) :
  (ResolveSession token now (sso_run (mkStore empty_database c0) evs)).2 = inr p →
  signed_in (mkStore empty_database c0) evs token (Authz.p_TenantID p) ∧ Authz.p_Role p = so_DefaultRole h.
Proof.
  pose proof (run_vouched c0 evs Hevs) as Hv. set (s := sso_run _ _) in *. unfold ResolveSession.
  destruct (negb _); [done|]. pose proof (head_rows (λ x, se_hash x = hashToken token) (sessions (db s))) as Hx.
  destruct (head _) as [x|]; [|done]. destruct Hx as [Hx Hh].
  destruct (match ParseRFC3339 _ with Some _ => _ | None => _ end); [done|]. intros [= <-]. cbn.
  destruct (vo_session _ _ _ Hv x Hx) as (Hr & token' & Hh' & Hin). split; [|done].
  assert (token' = token) as -> by (apply sha_inj; unfold hashToken in *; congruence). done.
Qed.
End histories.

(** ** Addresses and logins *)

Lemma LastIndexByte_app c a b : lacks c b = true → LastIndexByte c (a +:+ String c b) = Some (String.length a).
Proof.
  intros Hb. induction a as [|d a IH].
  - change ("" +:+ String c b)%string with (String c b). cbn [LastIndexByte].
    assert (LastIndexByte c b = None) as ->; [|by rewrite decide_True].
    induction b as [|d b IH]; [done|]. cbn [lacks] in Hb. apply andb_true_iff in Hb as [Hd Hb].
    apply negb_true_iff, bool_decide_eq_false in Hd. cbn [LastIndexByte]. by rewrite IH, decide_False.
  - change (String d a +:+ String c b)%string with (String d (a +:+ String c b)). cbn [LastIndexByte]. by rewrite IH.
Qed.

(** The domain is what follows the last at sign. *)
Lemma emailDomain_app a d : lacks "@" d = true → d ≠ ""%string → emailDomain (a +:+ String "@" d) = d.
Proof.
  intros Hd Hne. unfold emailDomain. rewrite LastIndexByte_app by done. rewrite str_length_app. cbn [String.length].
  assert (String.length d ≠ 0) by by destruct d.
  rewrite decide_False by lia. change (String "@" d) with ("@" +:+ d)%string. rewrite <- str_app_assoc.
  replace (String.length a + 1) with (String.length (a +:+ "@")) by (by rewrite str_length_app). apply str_drop_app.
Qed.

(** A callback that carries the cookies a login has set and the state it sent to the
    identity provider is authenticated once the provider vouches for a mapped address. *)
Lemma login_completes {lower : GoLower} (h : SSOHandlers) b verifier state code claims tenantID :
  randToken (Some b) = Some state → state ≠ ""%string → code ≠ ""%string →
  Exchange (so_Auth h) code verifier = inr claims →
  let email := ToLower (TrimSpace (cl_Email claims)) in
  email ≠ ""%string → so_DomainMap h !! emailDomain email = Some tenantID →
  let sent := (λ c, (ck_Name c, ck_Value c)) <$> sa_cookies (Login h (Some b) verifier) in
  authenticated h (mkSsoRequest sent [("code", code); ("state", state)]%string) email tenantID.
Proof.
  intros Hs Hst Hcode Hex email He Hdom. unfold Login. rewrite Hs. cbn.
  exists state, verifier, claims. split_and!; done.
Qed.

(** ** A deployment *)

Section deployment.
Local Open Scope string_scope.
#[local] Existing Instances rows_in_order clear_bcrypt plain_sha256 plain_sha256_laws bare_fmt second_texts canonical_range ascii_go_lower.

(** A provider whose codes are an address behind a sign, plus when the address is verified. *)
#[local] Instance address_provider : OidcLibrary := {|
  oidc_provider := string; oauth_token := string; id_token := string * bool;
  NewProvider issuer := inr issuer;
  oauth_code_url c state verifier := "https://idp.test?state=" +:+ state;
  oauth_exchange c code verifier := if decide (verifier = "verifier") then inr code else inl "invalid_grant";
  raw_id_token t := Some t;
  verify_id_token p client raw := inr (str_drop 1 raw, has_prefix raw "+");
  token_subject t := "subject";
  email_claim t := inr t.1
|}.
#[local] Instance no_durations : GoDuration := λ _, None.

Definition some_env (name : string) : string :=
  default "" (named name
    [("MOCKAGENTS_OIDC_ISSUER", "https://idp.test"); ("MOCKAGENTS_OIDC_CLIENT_ID", "mock");
     ("MOCKAGENTS_OIDC_CLIENT_SECRET", "secret"); ("MOCKAGENTS_OIDC_REDIRECT_URL", "https://mock.test/auth/callback");
     ("MOCKAGENTS_OIDC_DOMAIN_MAP", "beta.test=ten_b, ACME.test = ten_0000000000000001,=x")]).

Definition no_sso : SSOHandlers := mkSSOHandlers (mkAuthenticator (λ _ _, "") (λ _ _, inl "")) ∅ "" 0 false.
Definition some_sso : SSOHandlers :=
  match buildSSO some_env with inr (Some h) => h | _ => no_sso end.

Definition some_callback (code : string) : SsoRequest :=
  mkSsoRequest [("oidc_state", "AQID"); ("oidc_verifier", "verifier")] [("code", code); ("state", "AQID")].
Definition callback_draws (n : Z) : CallbackDraws := mkCallbackDraws n 0 [n] 0.

Definition some_logins : list sso_event :=
  [EvStore (OpCreateTenant "acme" 1 0); EvCallback (some_callback "+Ann@acme.test") (callback_draws 5);
   EvCallback (some_callback "+eve@gamma.test") (callback_draws 6);
   EvCallback (some_callback "+bob@acme.test") (callback_draws 7);
   EvLogout (mkSsoRequest [("mockagents_session", session_token (callback_draws 7))] [])].

Definition session_of (n : Z) (s : SQLiteStore) : option Principal :=
  match (ResolveSession (session_token (callback_draws n)) 1 s).2 with inr p => Some p | inl _ => None end.

Example some_logins_run :
  let s := sso_run some_sso (mkStore empty_database None) some_logins in
  session_of 5 s = Some (mkPrincipal acme "usr_0000000000000005" Authz.RoleViewer) ∧
  session_of 6 s = None ∧ session_of 7 s = None.
Proof. vm_compute. done. Qed.

(** An address the provider marks as not verified signs in like any other. *)
Example unverified_email_accepted :
  let s := sso_run some_sso (mkStore empty_database None)
    [EvStore (OpCreateTenant "acme" 1 0); EvCallback (some_callback "-ann@acme.test") (callback_draws 5)] in
  session_of 5 s = Some (mkPrincipal acme "usr_0000000000000005" Authz.RoleViewer).
Proof. vm_compute. reflexivity. Qed.

Lemma sessions_vouched_witness :
  signed_in some_sso (mkStore empty_database None) some_logins (session_token (callback_draws 5)) acme.
Proof.
  assert (Forall sso_allowed some_logins) as Hall by (repeat constructor).
  pose proof (sessions_vouched some_sso None some_logins Hall (session_token (callback_draws 5)) 1
    (mkPrincipal acme "usr_0000000000000005" Authz.RoleViewer)) as H.
  apply H. vm_compute. reflexivity.
Defined.
End deployment.
