(* ===== verification/AuditTrail.v ===== *)
(** The audit trail, [internal/audit]: the events, the table of [store.go], the recorder
    the handlers call, and the route of [internal/server/audit_handlers.go] that lists
    them.

    The table is append-only; the rows are in the order of their ids. A timestamp is
    stored as a text and compared as one: [RFC3339Nano] in UTC is the date and the time to
    the second, which is a parameter, the fraction without its trailing zeros, and a [Z].
    The database does not fail; [json.Marshal] is a parameter. *)

From Stdlib Require Import Ascii.
From S2P Require Import Prelude GoBase GoStrings Authz LogHandlers.

(** ** Events *)

Abbreviation EventKind := string.

Definition EventTenantCreated : EventKind := "tenant.created".
Definition EventTenantDeleted : EventKind := "tenant.deleted".
Definition EventAPIKeyCreated : EventKind := "api_key.created".
Definition EventAPIKeyDeleted : EventKind := "api_key.deleted".
Definition EventAPIKeyRoleChanged : EventKind := "api_key.role_changed".
Definition EventAPIKeyRotated : EventKind := "api_key.rotated".
Definition EventAgentReloaded : EventKind := "agent.reloaded".
Definition EventAgentCreated : EventKind := "agent.created".
Definition EventAgentUpdated : EventKind := "agent.updated".
Definition EventAgentDeleted : EventKind := "agent.deleted".
Definition EventPipelineSaved : EventKind := "pipeline.saved".
Definition EventAuthDenied : EventKind := "auth.denied".

Definition Valid (k : EventKind) : bool :=
  bool_decide (k ∈ [EventTenantCreated; EventTenantDeleted; EventAPIKeyCreated; EventAPIKeyDeleted;
    EventAPIKeyRoleChanged; EventAPIKeyRotated; EventAgentReloaded; EventAgentCreated; EventAgentUpdated;
    EventAgentDeleted; EventPipelineSaved; EventAuthDenied]).

Record Actor := mkActor { ac_Name : string; ac_TenantID : string; ac_KeyID : string; ac_Role : string; ac_RemoteIP : string }.

(** No timestamp is the zero time. *)
Record Event := mkEvent {
  ev_ID : Z; ev_Timestamp : option Z; ev_Kind : EventKind; ev_Actor : Actor; ev_Target : string; ev_Details : string
}.

Record Query := mkQuery {
  aq_Kind : EventKind; aq_Actor : string; aq_Since : option Z; aq_Limit : Z; aq_ActorTenant : string
}.

(** ** Timestamps *)

(** [2006-01-02T15:04:05] in UTC of the seconds since 1970, and what a text reads as. *)
Class AuditTime := {
  date_text : Z → string;
  ParseRFC3339Nano : string → option Z;
  ParseSince : string → string + Z       (* with the error's text *)
}.

Fixpoint dec_fixed (digits : nat) (n : Z) : string :=
  match digits with
  | O => ""
  | S d => (dec_fixed d (n / 10) +:+ String (ascii_of_nat (Z.to_nat (48 + n mod 10))) "")%string
  end.

Fixpoint trim_zeros (s : string) : string :=
  match s with
  | "" => ""
  | String c s =>
      match trim_zeros s with
      | "" => if decide (c = "0"%char) then "" else String c ""
      | t => String c t
      end
  end%string.

Definition frac_text (ns : Z) : string := if decide (ns = 0)%Z then "" else String "." (trim_zeros (dec_fixed 9 ns)).

(** ** The table *)

Record audit_row := mkAuditRow {
  ar_id : Z; ar_timestamp : string; ar_kind : string; ar_name : string; ar_tenant : string; ar_key : string;
  ar_role : string; ar_ip : string; ar_target : string; ar_details : string
}.

Record AuditLog := mkAuditLog { events : list audit_row; next_event : Z }.

Definition empty_log : AuditLog := mkAuditLog [] 1.

Section audit.
Context {time : AuditTime} {fmt : GoFmt}.

Definition FormatRFC3339Nano (t : Z) : string :=
  (date_text (t / Second) +:+ frac_text (t mod Second) +:+ "Z")%string.

Definition named (a : Actor) : Actor :=
  if decide (ac_Name a = "") then mkActor "anonymous" (ac_TenantID a) (ac_KeyID a) (ac_Role a) (ac_RemoteIP a) else a.

(** The event is given its id, and its defaults. *)
Definition Append (e : option Event) (now : Z) (s : AuditLog) : AuditLog * (string + Event) :=
  match e with
  | None => (s, inl "audit: nil event"%string)
  | Some e =>
      if negb (Valid (ev_Kind e)) then (s, inl ("audit: invalid event kind " +:+ Quote (ev_Kind e))%string)
      else
        let t := default now (ev_Timestamp e) in
        let a := named (ev_Actor e) in
        let id := next_event s in
        (mkAuditLog (events s ++ [mkAuditRow id (FormatRFC3339Nano t) (ev_Kind e) (ac_Name a) (ac_TenantID a) (ac_KeyID a)
                                   (ac_Role a) (ac_RemoteIP a) (ev_Target e) (ev_Details e)]) (id + 1),
         inr (mkEvent id (Some t) (ev_Kind e) a (ev_Target e) (ev_Details e)))
  end.

(** An unreadable time is the zero time. *)
Definition scanEvent (r : audit_row) : Event :=
  let ts := match ParseRFC3339Nano (ar_timestamp r) with
            | Some t => Some t
            | None => match ParseSince (ar_timestamp r) with inl _ => None | inr t => Some t end
            end in
  mkEvent (ar_id r) ts (ar_kind r) (mkActor (ar_name r) (ar_tenant r) (ar_key r) (ar_role r) (ar_ip r)) (ar_target r) (ar_details r).

Definition Get (id : Z) (s : AuditLog) : option Event :=
  (λ r, scanEvent r.2) <$> list_find (λ r, ar_id r = id) (events s).

Definition selected (q : Query) (r : audit_row) : bool :=
  (bool_decide (aq_Kind q = "") || bool_decide (ar_kind r = aq_Kind q)) &&
  (bool_decide (aq_Actor q = "") || bool_decide (ar_name r = aq_Actor q)) &&
  (bool_decide (aq_ActorTenant q = "") || bool_decide (ar_tenant r = aq_ActorTenant q)) &&
  match aq_Since q with None => true | Some t => String.leb (FormatRFC3339Nano t) (ar_timestamp r) end.

Definition list_limit (limit : Z) : Z :=
  let limit := if decide (limit ≤ 0)%Z then 100%Z else limit in
  if decide (1000 < limit)%Z then 1000%Z else limit.

Definition List (q : Query) (s : AuditLog) : list Event :=
  take (Z.to_nat (list_limit (aq_Limit q))) (scanEvent <$> reverse (filter (λ r, selected q r = true) (events s))).

(** ** The recorder *)

(** The parts of a request the recorder reads. *)
Record AuditRequest := mkAuditRequest { rq_XForwardedFor : string; rq_RemoteAddr : string }.

Definition clientIP (r : AuditRequest) : string :=
  if decide (rq_XForwardedFor r ≠ "") then rq_XForwardedFor r else rq_RemoteAddr r.

(** [principalToActor] of the server. *)
Definition principalToActor (p : option Principal) : Actor :=
  match p with
  | None => mkActor "anonymous" "" "" "" ""
  | Some p => mkActor (p_KeyID p) (p_TenantID p) (p_KeyID p) (p_Role p) ""
  end.

(** A recorder without a store does nothing; errors are swallowed. *)
Definition Record_ (kind : EventKind) (actor : Actor) (target details : string) (now : Z) (s : option AuditLog) : option AuditLog :=
  (λ s, (Append (Some (mkEvent 0 None kind actor target details)) now s).1) <$> s.

Definition RecordHTTP (r : AuditRequest) (p : option Principal) (kind : EventKind) (target details : string) (now : Z)
    (s : option AuditLog) : option AuditLog :=
  let actor := named (principalToActor p) in
  let actor := if decide (ac_RemoteIP actor = "")
               then mkActor (ac_Name actor) (ac_TenantID actor) (ac_KeyID actor) (ac_Role actor) (clientIP r) else actor in
  Record_ kind actor target details now s.

(** ** The list of events *)

Record audit_query := mkAuditQuery { aqs_kind : string; aqs_actor : string; aqs_since : string; aqs_limit : string }.

Definition unknown_kind : string :=
  "unknown kind; try one of: tenant.created, tenant.deleted, api_key.created, api_key.deleted, api_key.role_changed, api_key.rotated, agent.reloaded, agent.created, agent.updated, agent.deleted, pipeline.saved, auth.denied".

(** The status, and the message or the events. *)
Definition ListEvents (store : option AuditLog) (p : option Principal) (q : audit_query) : Z * (string + list Event) :=
  match store with
  | None => (503%Z, inl "audit logging is not enabled"%string)
  | Some s =>
      if bool_decide (aqs_kind q ≠ "") && negb (Valid (aqs_kind q)) then (400%Z, inl unknown_kind)
      else
        match (if decide (aqs_since q = "") then inr None
               else match ParseSince (aqs_since q) with
                    | inl err => inl ("since must be RFC3339: " +:+ err)%string
                    | inr t => inr (Some t)
                    end) with
        | inl msg => (400%Z, inl msg)
        | inr since =>
            match int_param (aqs_limit q) "limit" 0 maxListLimit 0 with
            | inl msg => (400%Z, inl msg)
            | inr limit => (200%Z, inr (List (mkQuery (aqs_kind q) (aqs_actor q) since limit (callerTenantID p)) s))
            end
        end
  end.
End audit.

(** ** The order of timestamps *)

Definition in_calendar (t : Z) : Prop := (0 ≤ t < 253402300800 * Second)%Z.
#[export] Instance in_calendar_dec t : Decision (in_calendar t) := _.

(** The date and time of the years 1970 to 9999 has a fixed width and sorts by time; a
    formatted timestamp reads back. *)
Class AuditTimeLaws {time : AuditTime} := {
  date_width a b : in_calendar a → in_calendar b → String.length (date_text (a / Second)) = String.length (date_text (b / Second));
  date_order a b : in_calendar a → in_calendar b → (a / Second < b / Second)%Z →
    String.compare (date_text (a / Second)) (date_text (b / Second)) = Lt;
  nano_parses t : in_calendar t → ParseRFC3339Nano (FormatRFC3339Nano t) = Some t
}.

Lemma compare_prefix a b x y : String.length a = String.length b →
  String.compare (a +:+ x) (b +:+ y) = match String.compare a b with Eq => String.compare x y | c => c end.
Proof.
  revert b. induction a as [|c a IH]; intros [|d b]; try done. intros [= Hl].
  change (String.compare (String c (a +:+ x)) (String d (b +:+ y)) =
    match String.compare (String c a) (String d b) with Eq => String.compare x y | c => c end).
  cbn [String.compare]. destruct (Ascii.compare c d); [by apply IH|done|done].
Qed.

Lemma compare_refl s : String.compare s s = Eq.
Proof.
  induction s as [|c s IH]; [done|]. cbn [String.compare]. unfold Ascii.compare.
  by rewrite (proj2 (N.compare_eq_iff _ _) eq_refl).
Qed.

Section order.
Context {time : AuditTime} {laws : AuditTimeLaws}.

(** Two timestamps compare by their seconds, and within a second by the texts of their
    fractions. *)
Lemma timestamps_compare a b : in_calendar a → in_calendar b →
  String.leb (FormatRFC3339Nano a) (FormatRFC3339Nano b) =
  if decide (a / Second = b / Second)%Z
  then String.leb (frac_text (a mod Second) +:+ "Z")%string (frac_text (b mod Second) +:+ "Z")%string
  else bool_decide (a / Second < b / Second)%Z.
Proof.
  intros Ha Hb. unfold String.leb, FormatRFC3339Nano. rewrite compare_prefix by (by apply date_width).
  case_decide as Heq.
  - by rewrite Heq, compare_refl.
  - case_bool_decide as Hlt; [by rewrite date_order|].
    rewrite String.compare_antisym, date_order by (done || lia). done.
Qed.
End order.

(** ** Histories *)

Section history.
Context {time : AuditTime} {laws : AuditTimeLaws} {fmt : GoFmt}.

(** The events that are appended, and when; what the calls answer. *)
Fixpoint run_appends (es : list (option Event * Z)) (s : AuditLog) : AuditLog * list Event :=
  match es with
  | [] => (s, [])
  | (e, now) :: es =>
      let '(s, answer) := Append e now s in
      let '(s, log) := run_appends es s in
      (s, match answer with inr e => e :: log | inl _ => log end)
  end.

(** The events carry times of the calendar, or are stamped with one. *)
Definition dated (e : option Event * Z) : Prop := in_calendar (default e.2 (e.1 ≫= ev_Timestamp)).

(** Whether an event is late enough for a query: by its second, and within the second by
    the text of the fraction. *)
Definition late_enough (since : Z) (e : Event) : bool :=
  match ev_Timestamp e with
  | None => false
  | Some t =>
      bool_decide (since / Second < t / Second)%Z ||
      bool_decide (since / Second = t / Second)%Z &&
      String.leb (frac_text (since mod Second) +:+ "Z")%string (frac_text (t mod Second) +:+ "Z")%string
  end.

Definition wanted (q : Query) (e : Event) : bool :=
  (bool_decide (aq_Kind q = "") || bool_decide (ev_Kind e = aq_Kind q)) &&
  (bool_decide (aq_Actor q = "") || bool_decide (ac_Name (ev_Actor e) = aq_Actor q)) &&
  (bool_decide (aq_ActorTenant q = "") || bool_decide (ac_TenantID (ev_Actor e) = aq_ActorTenant q)) &&
  match aq_Since q with None => true | Some t => late_enough t e end.

(** A row and its event. *)
Definition kept (r : audit_row) (e : Event) : Prop :=
  scanEvent r = e ∧ ∃ t, ev_Timestamp e = Some t ∧ in_calendar t ∧ ar_timestamp r = FormatRFC3339Nano t.

Lemma append_kept e now s : dated (e, now) →
  let '(s', answer) := Append e now s in
  match answer with
  | inr e' => ∃ r, events s' = events s ++ [r] ∧ kept r e' ∧ ev_ID e' = next_event s ∧ next_event s' = (next_event s + 1)%Z
  | inl _ => s' = s
  end.
Proof.
  unfold Append. destruct e as [e|]; [|done]. intros Hd. destruct (Valid (ev_Kind e)); [|done]. cbn [negb].
  unfold dated in Hd. cbn [fst snd mbind option_bind] in Hd. set (t := default now (ev_Timestamp e)) in *.
  eexists. split; [done|]. split; [|done]. split.
  - unfold scanEvent. cbn [ar_timestamp ar_id ar_kind ar_name ar_tenant ar_key ar_role ar_ip ar_target ar_details].
    rewrite nano_parses by done. by destruct (named (ev_Actor e)).
  - by exists t.
Qed.

Lemma run_appends_kept es s : Forall dated es →
  let '(s', log) := run_appends es s in
  ∃ rows, events s' = events s ++ rows ∧ Forall2 kept rows log ∧ ev_ID <$> log = seqZ (next_event s) (Z.of_nat (length log)).
Proof.
  revert s. induction es as [|[e now] es IH]; intros s Hd; [exists []; by rewrite app_nil_r|].
  apply Forall_cons in Hd as [Hd1 Hd]. cbn [run_appends]. pose proof (append_kept e now s Hd1) as Ha.
  destruct (Append e now s) as [s1 answer]. specialize (IH s1 Hd). destruct (run_appends es s1) as [s' log].
  destruct IH as (rows & Hr & HF & Hid). destruct answer as [msg|e'].
  - subst s1. by exists rows.
  - destruct Ha as (r & Hr1 & Hk & Hide & Hn). exists (r :: rows). rewrite Hr, Hr1, <-app_assoc. split; [done|].
    split; [by constructor|]. cbn [fmap list_fmap length]. rewrite Hid, Hn, Hide. 
    rewrite Nat2Z.inj_succ, (seqZ_cons (next_event s)) by lia. f_equal. f_equal; lia.
Qed.

Lemma selected_wanted q r e : kept r e → from_option in_calendar True (aq_Since q) → selected q r = wanted q e.
Proof.
  intros [<- (t & Ht & Hc & Hr)] Hq. unfold selected, wanted. f_equal. destruct (aq_Since q) as [since|]; [|done].
  rewrite Hr, timestamps_compare by done. unfold late_enough. rewrite Ht.
  destruct (decide (since / Second = t / Second)%Z) as [Heq|Hne].
  - rewrite Heq, (bool_decide_false (_ < _)%Z), (bool_decide_true (_ = _)) by (done || lia). done.
  - by rewrite (bool_decide_false (_ = _)), andb_false_l, orb_false_r.
Qed.

Lemma kept_filter q rows log : from_option in_calendar True (aq_Since q) → Forall2 kept rows log →
  scanEvent <$> filter (λ r, selected q r = true) rows = filter (λ e, wanted q e = true) log.
Proof.
  intros Hq. induction 1 as [|r e rows log Hk HF IH]; [done|].
  rewrite !filter_cons, (selected_wanted q r e Hk Hq). pose proof Hk as [He _].
  case_decide; cbn [fmap list_fmap]; by rewrite ?IH, ?He.
Qed.
Lemma find_kept rows log from id : Forall2 kept rows log → ev_ID <$> log = seqZ from (Z.of_nat (length log)) →
  ∀ e, (λ r, scanEvent r.2) <$> list_find (λ r, ar_id r = id) rows = Some e ↔ e ∈ log ∧ ev_ID e = id.
Proof.
  intros HF Hids e. assert (NoDup (ev_ID <$> log)) as Hnd by (rewrite Hids; apply NoDup_seqZ). clear Hids.
  induction HF as [|r e0 rows log Hk HF IH]; [split; [done|by intros [?%not_elem_of_nil _]]|].
  destruct Hk as [Hs _]. assert (ar_id r = ev_ID e0) as Hr by (by rewrite <-Hs).
  cbn [fmap list_fmap] in Hnd. apply NoDup_cons in Hnd as [Hnew Hnd]. specialize (IH Hnd).
  cbn [list_find]. case_decide as Hid.
  - simpl. rewrite Hs, elem_of_cons. split; [intros [= <-]; split; [by left|congruence]|].
    intros [[->|Hin] He]; [done|]. destruct Hnew. rewrite <-Hr, Hid, <-He. apply list_elem_of_fmap. by exists e.
  - rewrite elem_of_cons. transitivity (e ∈ log ∧ ev_ID e = id); [|naive_solver congruence].
    rewrite <-IH. by destruct (list_find _ rows) as [[i r']|].
Qed.

(** The events of any history get the ids 1, 2, ... and read back as they were appended.
    The route answers, newest first and up to its limit, exactly those of the kind, the
    actor and the caller's tenant that are late enough, or refuses the parameter that is
    wrong. *)
Theorem ListEvents_correct es p q : Forall dated es →
  (∀ t, ParseSince (aqs_since q) = inr t → in_calendar t) →
  let '(s, log) := run_appends es empty_log in
  ev_ID <$> log = seqZ 1 (Z.of_nat (length log)) ∧
  (∀ id e, Get id s = Some e ↔ e ∈ log ∧ ev_ID e = id) ∧
  match ListEvents (Some s) p q with
  | (status, inr found) =>
      status = 200%Z ∧ ∃ since limit,
        match since with None => aqs_since q = "" | Some t => ParseSince (aqs_since q) = inr t end ∧
        int_param (aqs_limit q) "limit" 0 maxListLimit 0 = inr limit ∧
        found = take (Z.to_nat (list_limit limit)) (reverse (filter (λ e,
          wanted (mkQuery (aqs_kind q) (aqs_actor q) since limit (callerTenantID p)) e = true) log))
  | (status, inl _) =>
      status = 400%Z ∧
      (aqs_kind q ≠ "" ∧ Valid (aqs_kind q) = false ∨
       aqs_since q ≠ "" ∧ (∃ err, ParseSince (aqs_since q) = inl err) ∨
       ∃ msg, int_param (aqs_limit q) "limit" 0 maxListLimit 0 = inl msg)
  end.
Proof.
  intros Hd Hsince. pose proof (run_appends_kept es empty_log Hd) as Hrun.
  destruct (run_appends es empty_log) as [s log]. destruct Hrun as (rows & Hr & HF & Hids).
  split; [done|]. unfold Get. rewrite Hr. split; [intros id; by eapply find_kept|].
  unfold ListEvents. destruct (bool_decide (aqs_kind q ≠ "") && negb (Valid (aqs_kind q))) eqn:Hk.
  { split; [done|]. left. apply andb_true_iff in Hk as [Hk Hv]. bool_prop. by split. }
  destruct (decide (aqs_since q = "")) as [Hs0|Hs0]; [|destruct (ParseSince (aqs_since q)) as [err|t] eqn:Hp];
    cbv beta iota; [|by split; [done|right; left; split; [done|eexists]]|].
  all: destruct (int_param (aqs_limit q) "limit" 0 maxListLimit 0) as [msg|limit] eqn:Hl; cbv beta iota;
    [by split; [done|right; right; eexists]|]; split; [done|].
  1: exists None, limit. 2: exists (Some t), limit.
  all: split; [done|]; split; [done|]; unfold List; rewrite Hr; cbn [app empty_log events aq_Limit].
  all: f_equal; rewrite fmap_reverse; f_equal; apply kept_filter; [|done].
  all: cbn [aq_Since from_option]; auto.
Qed.
End history.

(** ** Two gaps *)

Section gaps.
Context {time : AuditTime} {laws : AuditTimeLaws}.

(** A [since] without a fraction, which is the usual one, leaves out every event of its own
    second but those at its very start: the text of a fraction sorts before the [Z]. *)
Lemma second_of_since_missed since e t : (since mod Second = 0)%Z → ev_Timestamp e = Some t →
  (t / Second = since / Second)%Z → late_enough since e = bool_decide (t = since).
Proof.
  intros Hs Ht Heq. unfold late_enough. rewrite Ht, Heq, (bool_decide_false (_ < _)%Z), (bool_decide_true (_ = _)) by (done || lia).
  cbn [orb andb]. rewrite Hs. unfold frac_text at 1. rewrite decide_True by done. unfold frac_text.
  pose proof (Z_div_mod_eq_full t Second). pose proof (Z_div_mod_eq_full since Second).
  case_decide as Hf; [rewrite bool_decide_true by lia; done|]. rewrite bool_decide_false by congruence. done.
Qed.
End gaps.

(** A refused request without credentials has no tenant, and a caller of the route has one:
    no caller sees it. *)
Lemma anonymous_denials_hidden {time : AuditTime} (r : audit_row) p (q : Query) : p_TenantID p ≠ "" →
  ar_tenant r = ac_TenantID (principalToActor None) →
  selected (mkQuery (aq_Kind q) (aq_Actor q) (aq_Since q) (aq_Limit q) (callerTenantID (Some p))) r = false.
Proof.
  intros Hp Hr. unfold selected. cbn [callerTenantID aq_ActorTenant]. rewrite Hr, (bool_decide_false (p_TenantID p = "")) by done.
  cbn [principalToActor ac_TenantID]. rewrite (bool_decide_false ("" = _)) by done. by rewrite andb_false_r.
Qed.
