(* ===== verification/AgentFiles.v ===== *)
(** The agent API of the server: the handlers that list, show and reload agents
    ([internal/server/handlers.go]) and those that create, replace and delete them
    ([agent_write_handlers.go]), over the registry, the directory of agent files and the
    audit trail; with the atomic write of a file ([pipeline_handlers.go]).

    A request says its path value and what reading its body gives. The pointer a decoded
    definition is allocated at, the random part of a temporary name and the failures of
    the operating system are its environment. The write handlers hold one mutex, so each
    of them is one step. *)

From Stdlib Require Import Ascii.
From S2P Require Import Prelude GoBase GoStrings AgentTypes AgentRegistry ScenarioMatcher Validation FilePath.
From S2P Require Import PipelineValidator AgentValidator DocumentValidators Loader Authz AuditTrail.

(** ** Writing a file *)

(** The failures of one atomic write: the text of the error of each call, and how much a
    failed write left. *)
Record WriteFaults := mkWriteFaults {
  wf_create : option string; wf_write : option string; wf_written : nat; wf_close : option string;
  wf_rename : option string; wf_cleanup : option string
}.

Definition no_write_faults : WriteFaults := mkWriteFaults None None 0 None None None.

Definition temp_path (path random : string) : string := join_path (Dir path) (".pipeline-" +:+ random +:+ ".tmp").

(** The deferred [os.Remove] of the temporary file. *)
Definition cleanup (wf : WriteFaults) (tmp : string) (fs : file_system) : file_system :=
  match wf_cleanup wf with Some _ => fs | None => delete tmp fs end.

(** The file systems the write goes through, one for each call, and its error. *)
Definition atomic_states (wf : WriteFaults) (random path data : string) (fs : file_system)
    : list file_system * option string :=
  let tmp := temp_path path random in
  match wf_create wf with
  | Some err => ([], Some err)
  | None =>
      let created := <[tmp := ""]> fs in
      match wf_write wf with
      | Some err =>
          let partly := <[tmp := str_take (wf_written wf) data]> fs in
          ([created; partly; cleanup wf tmp partly], Some err)
      | None =>
          let full := <[tmp := data]> fs in
          match (match wf_close wf with Some err => Some err | None => wf_rename wf end) with
          | Some err => ([created; full; cleanup wf tmp full], Some err)
          | None => ([created; full; <[path := data]> (delete tmp full)], None)
          end
      end
  end.

Definition atomicWriteFile (wf : WriteFaults) (random path data : string) (fs : file_system) : file_system * option string :=
  let '(states, err) := atomic_states wf random path data fs in (default fs (last states), err).

(** ** Names of files *)

(** The bytes of the UTF-8 sequence a text starts with; a byte that starts none is alone. *)
Definition rune_len (s : string) : nat :=
  let within lo hi c := (lo <=? nat_of_ascii c) && (nat_of_ascii c <=? hi) in
  let cont := within 128 191 in
  match s with
  | String a (String b s) =>
      if within 194 223 a && cont b then 2
      else match s with
           | String c s =>
               if ((within 224 224 a && within 160 191 b) || ((within 225 236 a || within 238 239 a) && cont b) ||
                   (within 237 237 a && within 128 159 b)) && cont c then 3
               else match s with
                    | String d _ =>
                        if ((within 240 240 a && within 144 191 b) || (within 241 243 a && cont b) ||
                            (within 244 244 a && within 128 143 b)) && cont c && cont d then 4 else 1
                    | "" => 1
                    end
           | "" => 1
           end
  | _ => 1
  end.

Definition is_upper (c : ascii) : bool := (65 <=? nat_of_ascii c) && (nat_of_ascii c <=? 90).

Definition filename_char (c : ascii) : bool :=
  is_lower c || is_upper c || is_digit c || bool_decide (c = "-"%char ∨ c = "_"%char).

Fixpoint sanitize_from (fuel : nat) (s : string) : string :=
  match fuel, s with
  | S fuel, String c rest =>
      if filename_char c then String c (sanitize_from fuel rest)
      else String "_" (sanitize_from fuel (str_drop (rune_len s) s))
  | _, _ => ""
  end.

Definition sanitizeFilenamePart (s : string) : string :=
  match sanitize_from (String.length s) s with "" => "tenant" | b => b end.

Definition safeAgentName (name : string) : bool := bool_decide (String.length name ≤ 63) && metadataNameRe name.

Example sanitized : sanitizeFilenamePart <$> ["acme"; "a.b/c"; ""; "a" +:+ byte 195 +:+ byte 169 +:+ "b"] =
  ["acme"; "a_b_c"; "tenant"; "a_b"].
Proof. reflexivity. Qed.

(** ** Requests, answers and the world *)

(** [yaml.Unmarshal] and [yaml.Marshal] on an agent definition, [json.Marshal] on details. *)
Class AgentYaml := {
  yaml_UnmarshalAgent : string → string + AgentDefinition;
  yaml_MarshalAgent : AgentDefinition → string + string;
  MarshalAny : value → option string
}.

Record AgentRequest := mkAgentRequest {
  arq_name : string;             (* the path value *)
  arq_body : string + string;    (* the error of reading it, or what there is to read *)
  arq_audit : AuditRequest
}.

Record AgentEnv := mkAgentEnv {
  ae_new : loc; ae_now : Z; ae_random : string; ae_write : WriteFaults; ae_remove : option string; ae_io : IoFaults
}.

Record AgentSummary := mkAgentSummary {
  as_Name : string; as_Description : string; as_SummaryModel : string; as_SummaryProtocol : string;
  as_ScenarioCount : Z; as_ToolCount : Z; as_Tags : list string
}.

Inductive agent_body :=
| Message (msg : string)
| Written (status agent : string) (persisted : bool) (file : string)
| Report (ok : bool) (kind : string) (errors : list ValidationError)
| Summaries (l : list AgentSummary)
| Agent (def : loc)
| Missing (msg : string) (available : list string)
| Rejected (msg details : string)
| Reloaded (agent : string).

Definition agent_answer : Type := Z * agent_body.

Record agent_world := mkAgentWorld { aw_registry : AgentRegistry; aw_fs : file_system; aw_audit : option AuditLog }.

Definition maxAgentBodyBytes : Z := 1048576.

Definition server_error : agent_answer := (500%Z, Message "internal error").

Section handlers.
Context {yaml : GoYaml} {docs : YamlDocs} {lower : GoLower} {agent_yaml : AgentYaml}.
Context {fmt : GoFmt} {re : GoRegexp} {re_err : RegexpError} {mr : MapRange} {time : AuditTime} {heap : Heap AgentDefinition}.

(** [Handlers.AgentsDir], and the working directory. *)
Context (AgentsDir wd : string).

Definition MarshalDetails (v : option value) : string := default "" (v ≫= MarshalAny).

(** ** Reading and listing *)

Definition summarize (p : loc) : AgentSummary :=
  let def := deref p in
  mkAgentSummary (agent_name def) (md_Description (ad_Metadata def)) (as_Model (ad_Spec def)) (as_Protocol (ad_Spec def))
    (Z.of_nat (length (bc_Scenarios (as_Behavior (ad_Spec def))))) (Z.of_nat (length (as_Tools (ad_Spec def))))
    (md_Tags (ad_Metadata def)).

Definition ListAgents (p : option Principal) (w : agent_world) : agent_answer :=
  (200%Z, Summaries (summarize <$> ListForTenant (LogHandlers.callerTenantID p) (aw_registry w))).

Definition not_found (name : string) : string := "agent " +:+ Quote name +:+ " not found".

Definition GetAgent (rq : AgentRequest) (p : option Principal) (w : agent_world) : agent_answer :=
  let tenantID := LogHandlers.callerTenantID p in
  match GetForTenant (arq_name rq) tenantID (aw_registry w) with
  | None => (404%Z, Missing (not_found (arq_name rq)) (ListNamesForTenant tenantID (aw_registry w)))
  | Some def => (200%Z, Agent def)
  end.

(** The file of the loop of [ReloadAgent] that holds the agent. *)
Definition reload_match (name tenant : string) (r : Loaded AgentDefinition) : bool :=
  let def := ApplyDefaults (ld_Definition r) in
  bool_decide (agent_name def = name ∧ agent_tenant def = tenant).

Definition ReloadAgent (rq : AgentRequest) (p : option Principal) (env : AgentEnv) (w : agent_world) : agent_world * agent_answer :=
  let name := arq_name rq in
  match GetForTenant name (LogHandlers.callerTenantID p) (aw_registry w) with
  | None => (w, (404%Z, Message (not_found name)))
  | Some existing =>
      match find (reload_match name (agent_tenant (deref existing))) (LoadDir (ae_io env) (aw_fs w) AgentsDir).1 with
      | None => (w, (404%Z, Message ("no definition file found for agent " +:+ Quote name +:+ " in " +:+ AgentsDir)))
      | Some r =>
          match Validate (ApplyDefaults (ld_Definition r)) (ld_FilePath r) (Some (ld_Node r)) with
          | Some errs => (w, (400%Z, Rejected "validation failed" (ListError errs)))
          | None =>
              (mkAgentWorld (RegisterWithSource (Some (ae_new env)) (ld_FilePath r) (aw_registry w)) (aw_fs w)
                 (RecordHTTP (arq_audit rq) p EventAgentReloaded name
                    (MarshalDetails (Some (VObj [("file", VString (Base (ld_FilePath r)))]))) (ae_now env) (aw_audit w)),
               (200%Z, Reloaded name))
          end
      end
  end.

(** ** Decoding *)

Definition set_tenant (tenantID : string) (def : AgentDefinition) : AgentDefinition :=
  let m := ad_Metadata def in
  mkAgentDefinition (ad_APIVersion def) (ad_Kind def)
    (mkMetadata (md_Name m) (md_Description m) (md_Tags m) tenantID) (ad_Spec def).

(** The definition and its canonical text, or the answer that refuses it. [None] is a
    validation out of fuel. *)
Definition decodeAgent (rq : AgentRequest) (p : option Principal) (wantName : string)
    : option (agent_answer + AgentDefinition * string) :=
  match arq_body rq with
  | inl err => Some (inl (400%Z, Message ("reading body: " +:+ err)))
  | inr body =>
      if decide (maxAgentBodyBytes < Z.of_nat (String.length body))%Z then Some (inl (413%Z, Message "request body too large"))
      else
        match yaml_UnmarshalAgent body with
        | inl err => Some (inl (400%Z, Message ("invalid agent document: " +:+ err)))
        | inr def =>
            let name := agent_name def in
            if decide (TrimSpace name = "") then Some (inl (400%Z, Message "metadata.name is required"))
            else if decide (wantName ≠ "" ∧ name ≠ wantName) then
              Some (inl (400%Z, Message ("metadata.name " +:+ Quote name +:+ " does not match path " +:+ Quote wantName)))
            else if negb (safeAgentName name) then
              Some (inl (400%Z, Message ("invalid metadata.name " +:+ Quote name +:+ ": must be lowercase kebab-case")))
            else
              let def := ApplyDefaults (set_tenant (LogHandlers.callerTenantID p) def) in
              match yaml_MarshalAgent def with
              | inl _ => Some (inl server_error)
              | inr canonical =>
                  report ← ValidateBytes canonical;
                  Some (if decide (rep_Kind report ≠ "" ∧ rep_Kind report ≠ "Agent") then
                          inl (400%Z, Message ("expected an Agent document, got " +:+ Quote (rep_Kind report)))
                        else if decide (0 < length (rep_Errors report)) then
                          inl (422%Z, Report false (rep_Kind report) (rep_Errors report))
                        else inr (def, canonical))
              end
        end
  end.

(** ** Writing *)

(** An error's text, or the path; empty without a directory. *)
Definition agentFilePath (name tenantID : string) : string + string :=
  if decide (AgentsDir = "") then inr ""
  else
    let fname := if decide (tenantID ≠ "") then sanitizeFilenamePart tenantID +:+ "." +:+ name else name in
    let target := join_path AgentsDir (fname +:+ ".yaml") in
    let absDir := Abs wd AgentsDir in
    let absTarget := Abs wd target in
    if bool_decide (absTarget ≠ absDir) && negb (has_prefix absTarget (absDir +:+ "/"))
    then inl "resolved agent path escapes the agents directory" else inr target.

Definition resolveAgentTarget (name tenantID : string) (reg : AgentRegistry) : string + string :=
  if decide (AgentsDir = "") then inr ""
  else let src := Source name tenantID reg in
       if decide (src ≠ "") then inr src else agentFilePath name tenantID.

(** The registered pointer is the environment's. *)
Definition persistAndRegister (env : AgentEnv) (name tenantID canonical : string) (w : agent_world)
    : agent_world * (string + string * bool) :=
  match resolveAgentTarget name tenantID (aw_registry w) with
  | inl err => (w, inl err)
  | inr target =>
      if decide (target = "") then
        (mkAgentWorld (Register (Some (ae_new env)) (aw_registry w)) (aw_fs w) (aw_audit w), inr ("", false))
      else
        let '(fs, failed) := atomicWriteFile (ae_write env) (ae_random env) target canonical (aw_fs w) in
        match failed with
        | Some err => (mkAgentWorld (aw_registry w) fs (aw_audit w), inl ("writing agent file: " +:+ err))
        | None =>
            (mkAgentWorld (RegisterWithSource (Some (ae_new env)) target (aw_registry w)) fs (aw_audit w), inr (Base target, true))
        end
  end.

Definition recordAgentEvent (rq : AgentRequest) (p : option Principal) (kind : EventKind) (name file : string) (env : AgentEnv)
    (w : agent_world) : agent_world :=
  let details := if decide (file ≠ "") then [("file", VString file)] else [] in
  mkAgentWorld (aw_registry w) (aw_fs w)
    (RecordHTTP (arq_audit rq) p kind name (MarshalDetails (Some (VObj details))) (ae_now env) (aw_audit w)).

Definition CreateAgent (rq : AgentRequest) (p : option Principal) (env : AgentEnv) (w : agent_world)
    : option (agent_world * agent_answer) :=
  decoded ← decodeAgent rq p "";
  Some (match decoded with
        | inl refused => (w, refused)
        | inr (def, canonical) =>
            let name := agent_name def in
            let tenantID := LogHandlers.callerTenantID p in
            match GetOwnedForTenant name tenantID (aw_registry w) with
            | Some _ =>
                (w, (409%Z, Message ("agent " +:+ Quote name +:+ " already exists (use PUT /api/v1/agents/" +:+ name +:+ " to replace)")))
            | None =>
                let '(w, stored) := persistAndRegister env name tenantID canonical w in
                match stored with
                | inl _ => (w, server_error)
                | inr (file, persisted) =>
                    (recordAgentEvent rq p EventAgentCreated name file env w, (201%Z, Written "created" name persisted file))
                end
            end
        end).

Definition PutAgent (rq : AgentRequest) (p : option Principal) (env : AgentEnv) (w : agent_world)
    : option (agent_world * agent_answer) :=
  let pathName := arq_name rq in
  if negb (safeAgentName pathName) then Some (w, (400%Z, Message "invalid agent name in path"))
  else
    decoded ← decodeAgent rq p pathName;
    Some (match decoded with
          | inl refused => (w, refused)
          | inr (def, canonical) =>
              let name := agent_name def in
              let tenantID := LogHandlers.callerTenantID p in
              let existed := bool_decide (is_Some (GetOwnedForTenant name tenantID (aw_registry w))) in
              let '(w, stored) := persistAndRegister env name tenantID canonical w in
              match stored with
              | inl _ => (w, server_error)
              | inr (file, persisted) =>
                  let '(status, event, code) :=
                    if existed then ("updated", EventAgentUpdated, 200%Z) else ("created", EventAgentCreated, 201%Z) in
                  (recordAgentEvent rq p event name file env w, (code, Written status name persisted file))
              end
          end).

(** [os.Remove], which fails on a missing file with an error of its own. *)
Definition remove_file (env : AgentEnv) (path : string) (fs : file_system) : file_system * option string * bool :=
  match fs !! path with
  | None => (fs, None, false)
  | Some _ => match ae_remove env with Some err => (fs, Some err, true) | None => (delete path fs, None, true) end
  end.

Definition DeleteAgent (rq : AgentRequest) (p : option Principal) (env : AgentEnv) (w : agent_world) : agent_world * agent_answer :=
  let name := arq_name rq in
  if negb (safeAgentName name) then (w, (400%Z, Message "invalid agent name in path"))
  else
    let tenantID := LogHandlers.callerTenantID p in
    match GetOwnedForTenant name tenantID (aw_registry w) with
    | None => (w, (404%Z, Message (not_found name)))
    | Some _ =>
        let src := Source name tenantID (aw_registry w) in
        let target := if decide (src = "") then match agentFilePath name tenantID with inr t => t | inl _ => "" end else src in
        let '(fs, failed, existed) := if decide (target = "") then (aw_fs w, None, false) else remove_file env target (aw_fs w) in
        match failed with
        | Some _ => (w, server_error)
        | None =>
            let file := if existed : bool then Base target else "" in
            let reg := match RemoveForTenant name tenantID (aw_registry w) with inr reg => reg | inl _ => aw_registry w end in
            (recordAgentEvent rq p EventAgentDeleted name file env (mkAgentWorld reg fs (aw_audit w)),
             (200%Z, Written "deleted" name false file))
        end
    end.
End handlers.

(** ** The file of an agent *)

(** Texts of characters a file name keeps. *)
Fixpoint filename_text (s : string) : bool :=
  match s with "" => true | String c s => filename_char c && filename_text s end.

(** A tenant id [sanitizeFilenamePart] keeps. *)
Definition plain_id (t : string) : Prop := filename_text t = true ∧ t ≠ "".

Definition file_name (name tenantID : string) : string :=
  (if decide (tenantID ≠ "") then sanitizeFilenamePart tenantID +:+ "." +:+ name else name) +:+ ".yaml".

Lemma filename_text_app a b : filename_text (a +:+ b) = filename_text a && filename_text b.
Proof.
  induction a as [|c a IH]; [done|]. change (String c a +:+ b) with (String c (a +:+ b)). cbn [filename_text].
  by rewrite IH, andb_assoc.
Qed.

Lemma filename_text_lacks x s : filename_char x = false → filename_text s = true → lacks x s = true.
Proof.
  intros Hx. induction s as [|c s IH]; [done|]. cbn [filename_text lacks]. intros [Hc Hs]%andb_true_iff.
  rewrite (IH Hs), andb_true_r, negb_true_iff, bool_decide_eq_false. intros ->. congruence.
Qed.

Lemma kebab_filename started s : kebab_from started s = true → filename_text s = true.
Proof.
  revert started. induction s as [|c s IH]; intros started; [done|]. cbn [kebab_from filename_text].
  destruct (is_lower c || is_digit c) eqn:Hc.
  - intros H%IH. rewrite H, andb_true_r. unfold filename_char. by destruct (is_lower c), (is_upper c), (is_digit c).
  - case_decide as Hd; [|done]. subst c. intros [_ H]%andb_true_iff. by rewrite (IH _ H).
Qed.

Lemma safe_name name : safeAgentName name = true → filename_text name = true ∧ name ≠ "".
Proof.
  unfold safeAgentName, metadataNameRe. intros [_ H]%andb_true_iff. split; [by eapply kebab_filename|]. by intros ->.
Qed.

Lemma sanitize_from_text fuel s : filename_text (sanitize_from fuel s) = true.
Proof.
  revert s. induction fuel as [|fuel IH]; intros s; [by destruct s|]. destruct s as [|c s]; [done|].
  cbn [sanitize_from]. destruct (filename_char c) eqn:Hc; cbn [filename_text]; by rewrite ?Hc, IH.
Qed.

Lemma sanitize_plain t : plain_id t → sanitizeFilenamePart t = t.
Proof.
  intros [Ht Hne]. unfold sanitizeFilenamePart.
  assert (sanitize_from (String.length t) t = t) as ->; [|by destruct t].
  clear Hne. induction t as [|c t IH]; [done|]. cbn [filename_text] in Ht. apply andb_true_iff in Ht as [Hc Ht].
  cbn [sanitize_from String.length]. by rewrite Hc, IH.
Qed.

Lemma sanitized_text t : filename_text (sanitizeFilenamePart t) = true.
Proof.
  unfold sanitizeFilenamePart. pose proof (sanitize_from_text (String.length t) t) as H.
  by destruct (sanitize_from (String.length t) t).
Qed.

Lemma name_part name tenantID : safeAgentName name = true →
  let part := if decide (tenantID ≠ "") then sanitizeFilenamePart tenantID +:+ "." +:+ name else name in
  lacks "/" part = true ∧ part ≠ "".
Proof.
  intros [Hn Hne]%safe_name. cbn zeta. case_decide; [|split; [by apply filename_text_lacks|done]].
  split; [|by destruct (sanitizeFilenamePart tenantID)].
  rewrite !lacks_app, (filename_text_lacks "/" (sanitizeFilenamePart _)), (filename_text_lacks "/" name)
    by (done || apply sanitized_text). done.
Qed.

Lemma file_name_plain name tenantID : safeAgentName name = true → plain (file_name name tenantID).
Proof. intros [H1 H2]%(name_part name tenantID). by apply plain_with_ext. Qed.

Lemma file_name_ext name tenantID : safeAgentName name = true → Ext (file_name name tenantID) = ".yaml".
Proof. intros [H1 H2]%(name_part name tenantID). by apply (Ext_plain_with_ext _ "yaml"). Qed.

(** Agents of tenants whose ids are kept have files of their own. *)
Lemma file_name_inj n t n' t' : safeAgentName n = true → safeAgentName n' = true →
  t = "" ∨ plain_id t → t' = "" ∨ plain_id t' → file_name n t = file_name n' t' → n = n' ∧ t = t'.
Proof.
  intros [Hn _]%safe_name [Hn' _]%safe_name Ht Ht' H. unfold file_name in H. apply str_app_inj_r in H as [H _]; [|done]. revert H.
  assert (∀ x, x = "" ∨ plain_id x → x ≠ "" → sanitizeFilenamePart x = x ∧ lacks "." x = true) as Hid.
  { intros x [?|Hx] ?; [done|]. split; [by apply sanitize_plain|]. by apply filename_text_lacks, Hx. }
  assert (∀ x y z, x = y +:+ "." +:+ z → filename_text x = true → False) as Hdot.
  { intros x y z -> Hx. rewrite filename_text_app in Hx. change (filename_text ("." +:+ z)) with false in Hx.
    by rewrite andb_false_r in Hx. }
  destruct (decide (t ≠ "")) as [Hne|Heq], (decide (t' ≠ "")) as [Hne'|Heq'].
  - destruct (Hid t Ht Hne) as [-> Hd], (Hid t' Ht' Hne') as [-> Hd']. intros H.
    by destruct (lacks_split "." t n t' n' Hd Hd' H).
  - intros H. by destruct (Hdot _ _ _ (eq_sym H)).
  - intros H. by destruct (Hdot _ _ _ H).
  - intros ->. split; [done|]. by rewrite (dec_stable Heq), (dec_stable Heq').
Qed.

(** Where an agent's file is. Every write is refused when the directory is the root: its
    path and a slash are a prefix of nothing. *)
Lemma agentFilePath_correct AgentsDir wd name tenantID :
  AgentsDir ≠ "" → is_rooted wd = true → safeAgentName name = true →
  agentFilePath AgentsDir wd name tenantID =
    if decide (Abs wd AgentsDir = "/") then inl "resolved agent path escapes the agents directory"
    else inr (join_path AgentsDir (file_name name tenantID)).
Proof.
  intros Hdir Hwd Hn. pose proof (file_name_plain name tenantID Hn) as Hplain. unfold agentFilePath.
  rewrite decide_False by done. fold (file_name name tenantID). unfold file_name in *.
  set (f := (if decide (tenantID ≠ "") then _ else _) +:+ ".yaml") in *.
  destruct (Abs_join wd AgentsDir f Hwd Hdir Hplain) as (D & HD & -> & ->). destruct Hplain as (Hne & _ & _ & Hfree).
  unfold render_path. rewrite Join_snoc. destruct D as [|d D].
  - change (Join [] "/") with "". rewrite decide_True by done.
    assert (has_prefix ("/" +:+ f) (("/" +:+ "") +:+ "/") = false) as ->.
    { apply not_true_iff_false. intros [x Hx]%has_prefix_spec. injection Hx as Hx. by apply (Hfree "" x). }
    rewrite bool_decide_eq_true_2; [done|]. intros H. injection H as H. exact (Hne H).
  - assert (has_prefix ("/" +:+ Join (d :: D) "/" +:+ "/" +:+ f) (("/" +:+ Join (d :: D) "/") +:+ "/") = true) as ->.
    { apply has_prefix_spec. exists f. by rewrite !str_app_assoc. }
    rewrite andb_false_r. rewrite decide_False; [done|]. intros H. injection H as H.
    apply Forall_cons in HD as [(_ & Hd & _) _]. destruct D as [|e D]; [exact (Hd H)|].
    change ("" +:+ d +:+ "/" +:+ Join (e :: D) "/" = "") with (d +:+ "/" +:+ Join (e :: D) "/" = "") in H.
    by apply str_app_nil_inv in H as [H _].
Qed.

(** ** What readers of the directory see of a write *)

Section documents.
Context {yaml : GoYaml} {docs : YamlDocs} {lower : GoLower}.

(** Two file systems with the same documents. *)
Definition same_documents (fs fs' : file_system) : Prop :=
  ∀ path, document_name (Base path) = true → fs !! path = fs' !! path.

#[global] Instance same_documents_equiv : Equivalence same_documents.
Proof.
  split.
  - by intros fs path.
  - intros fs fs' H path Hp. symmetry. by apply H.
  - intros fs1 fs2 fs3 H12 H23 path Hp. etrans; [by apply H12|by apply H23].
Qed.

#[global] Instance insert_same_documents path data : Proper (same_documents ==> same_documents) (insert path data).
Proof.
  intros fs fs' H p Hp. destruct (decide (path = p)) as [->|]; [by rewrite !lookup_insert_eq|].
  rewrite !lookup_insert_ne by done. by apply H.
Qed.

#[global] Instance delete_same_documents path : Proper (same_documents ==> same_documents) (delete path).
Proof.
  intros fs fs' H p Hp. destruct (decide (path = p)) as [->|]; [by rewrite !lookup_delete_eq|].
  rewrite !lookup_delete_ne by done. by apply H.
Qed.

Lemma temp_not_document path random : slash_free random → document_name (Base (temp_path path random)) = false.
Proof.
  intros Hr%lacks_slash. unfold temp_path.
  assert (lacks "/" (".pipeline-" +:+ random) = true) as Hpre by (by rewrite lacks_app, Hr).
  assert (Dir path ≠ "") as Hdir.
  { unfold Dir, clean_path, render_path. pose proof (path_elements_ok (str_take (String.length path - String.length (last_element "" path)) path)) as H.
    destruct (is_rooted _); [done|]. destruct H as [|s segs [_ [Hs _]] _]; [done|]. by destruct s, segs. }
  assert (".pipeline-" +:+ random +:+ ".tmp" = (".pipeline-" +:+ random) +:+ String "." "tmp") as -> by (by rewrite str_app_assoc).
  rewrite Base_join by (done || by apply plain_with_ext).
  unfold document_name. rewrite (Ext_plain_with_ext _ "tmp") by done.
  rewrite ToLower_ascii by (unfold is_ascii; cbn; repeat constructor; lia).
  apply bool_decide_eq_false. by intros [?|[?|?]].
Qed.

Lemma insert_temp path data fs : document_name (Base path) = false → same_documents (<[path := data]> fs) fs.
Proof. intros Hp p Hd. rewrite lookup_insert_ne; [done|]. intros ->. congruence. Qed.

Lemma delete_temp path fs : document_name (Base path) = false → same_documents (delete path fs) fs.
Proof. intros Hp p Hd. rewrite lookup_delete_ne; [done|]. intros ->. congruence. Qed.

(** Whatever fails, a write leaves all documents as they were until the one it is about
    holds all of the new text. *)
Lemma atomic_states_documents wf random path data fs : slash_free random →
  let '(states, err) := atomic_states wf random path data fs in
  Forall (λ st, same_documents st fs ∨ err = None ∧ same_documents st (<[path := data]> fs)) states ∧
  same_documents (default fs (last states)) (match err with Some _ => fs | None => <[path := data]> fs end).
Proof.
  intros Htmp%(temp_not_document path). unfold atomic_states. set (tmp := temp_path path random) in *.
  assert (∀ data, same_documents (<[tmp := data]> fs) fs) as Hins by (intros d; by apply insert_temp).
  assert (∀ data, same_documents (cleanup wf tmp (<[tmp := data]> fs)) fs) as Hclean.
  { intros d. unfold cleanup. destruct (wf_cleanup wf); [done|]. by rewrite delete_temp. }
  destruct (wf_create wf); [by split|]. destruct (wf_write wf).
  { split; [|apply Hclean]. rewrite !Forall_cons, Forall_nil. split_and!; [left; apply Hins|left; apply Hins|left; apply Hclean|done]. }
  destruct (match wf_close wf with Some err => Some err | None => wf_rename wf end).
  { split; [|apply Hclean]. rewrite !Forall_cons, Forall_nil. split_and!; [left; apply Hins|left; apply Hins|left; apply Hclean|done]. }
  assert (same_documents (<[path := data]> (delete tmp (<[tmp := data]> fs))) (<[path := data]> fs)) as Hfinal.
  { apply insert_same_documents. by rewrite delete_temp. }
  split; [|exact Hfinal]. rewrite !Forall_cons, Forall_nil.
  split_and!; [left; apply Hins|left; apply Hins|by right|done].
Qed.

Lemma sorted_filter {A} (R : relation A) (P : A → Prop) `{!∀ x, Decision (P x)} l :
  StronglySorted R l → StronglySorted R (filter P l).
Proof.
  induction 1 as [|x l _ IH Hx]; [constructor|]. rewrite filter_cons. case_decide; [|done].
  constructor; [done|]. apply Forall_forall. intros y [_ Hy]%list_elem_of_filter. by eapply Forall_forall.
Qed.

Lemma dir_names_documents fs fs' dir : same_documents fs fs' →
  filter (λ name, document_name name = true) (dir_names fs dir) = filter (λ name, document_name name = true) (dir_names fs' dir).
Proof.
  intros Hsame. apply (StronglySorted_unique String.le).
  1, 2: apply sorted_filter, StronglySorted_merge_sort; apply _.
  apply NoDup_Permutation; [apply NoDup_filter; unfold dir_names; rewrite merge_sort_Permutation; apply NoDup_elements..|].
  intros name. rewrite !list_elem_of_filter, !elem_of_dir_names, !elem_of_dom. split; intros (Hd & Hin & Hb);
    (split; [done|]); (split; [|done]); [rewrite <-(Hsame (join_path dir name))|rewrite (Hsame (join_path dir name))]; try done; by rewrite Hb.
Qed.

Lemma listing_documents io fs fs' dir : same_documents fs fs' → listDocumentPaths io fs dir = listDocumentPaths io fs' dir.
Proof.
  intros Hsame. unfold listDocumentPaths, ReadDir. case_decide; [done|]. destruct (io_readdir io dir); [done|].
  by rewrite (dir_names_documents fs fs').
Qed.

Lemma listed_document io fs dir paths path : listDocumentPaths io fs dir = inr paths → path ∈ paths →
  document_name (Base path) = true.
Proof.
  unfold listDocumentPaths, ReadDir. case_decide; [done|]. destruct (io_readdir io dir); [done|]. intros [= <-].
  intros (name & -> & [Hd [_ Hb]%elem_of_dir_names]%list_elem_of_filter)%list_elem_of_fmap. by rewrite Hb.
Qed.

(** Loading depends on the documents only. *)
Lemma LoadAllDocuments_documents io fs fs' dir : same_documents fs fs' → LoadAllDocuments io fs dir = LoadAllDocuments io fs' dir.
Proof.
  intros Hsame. unfold LoadAllDocuments. rewrite (listing_documents io fs fs') by done.
  destruct (listDocumentPaths io fs' dir) as [err|paths] eqn:Hl; [done|]. pose proof (listed_document io fs' dir paths) as Hdoc.
  specialize (λ path, Hdoc path Hl). clear Hl. generalize (mkDocuments [] [] [] [], @nil LoadError) as acc.
  induction paths as [|path paths IH]; intros acc; [done|]. cbn [foldl].
  assert (load_document io fs acc path = load_document io fs' acc path) as ->.
  { unfold load_document, readAndParse, ReadFile. destruct acc as [[] errs].
    by rewrite (Hsame path) by (apply Hdoc; left). }
  apply IH. intros q Hq. apply Hdoc. by right.
Qed.

(** Whenever the server stops during a write, loading the directory finds the documents
    as they were before it, or all of them as they are after it. *)
Theorem atomic_write_crash_safe io wf random path data fs dir st : slash_free random →
  st ∈ (atomic_states wf random path data fs).1 →
  LoadAllDocuments io st dir = LoadAllDocuments io fs dir ∨
  (atomicWriteFile wf random path data fs).2 = None ∧
    LoadAllDocuments io st dir = LoadAllDocuments io (atomicWriteFile wf random path data fs).1 dir.
Proof.
  intros Hr Hin. pose proof (atomic_states_documents wf random path data fs Hr) as H. unfold atomicWriteFile.
  destruct (atomic_states wf random path data fs) as [states err]. cbn [fst snd] in *. destruct H as [Hall Hfinal].
  rewrite Forall_forall in Hall. destruct (Hall st Hin) as [Hst|[-> Hst]]; [left; by apply LoadAllDocuments_documents|].
  right. split; [done|]. apply LoadAllDocuments_documents. by rewrite Hst, Hfinal.
Qed.
End documents.

(** ** The directory mirrors the registry *)

(** What the YAML library promises of the text it makes of a definition: a block mapping
    that reads back as the definition. *)
Class AgentYamlLaws {yaml : GoYaml} {docs : YamlDocs} {agent_yaml : AgentYaml} :=
  marshal_reads_back def text : yaml_MarshalAgent def = inr text →
    looksLikeJSON text = false ∧ ∃ doc, yaml_Unmarshal text = inr doc ∧ DecodeAgent doc = inr def.

Section mirror.
Context {yaml : GoYaml} {docs : YamlDocs} {lower : GoLower} {agent_yaml : AgentYaml} {laws : AgentYamlLaws}.
Context {fmt : GoFmt} {re : GoRegexp} {re_err : RegexpError} {mr : MapRange} {time : AuditTime} {heap : Heap AgentDefinition}.
Context (AgentsDir wd : string).
Context (Hdir : AgentsDir ≠ "") (Hwd : is_rooted wd = true) (Hroot : Abs wd AgentsDir ≠ "/").

Definition target (name tenantID : string) : string := join_path AgentsDir (file_name name tenantID).

(** The text of a file that loads as a definition. *)
Definition holds_agent (text : string) (def : AgentDefinition) : Prop :=
  TrimSpace text ≠ "" ∧ ∃ doc, yaml_Unmarshal text = inr doc ∧ (peekKind doc = "" ∨ peekKind doc = AgentKind) ∧ DecodeAgent doc = inr def.

Definition known_tenant (t : string) : Prop := t = "" ∨ plain_id t.

Record mirrored (w : agent_world) : Prop := {
  mir_wf : registry_wf (aw_registry w);
  mir_agent t n p : GetOwnedForTenant n t (aw_registry w) = Some p →
    safeAgentName n = true ∧ known_tenant t ∧ Source n t (aw_registry w) = target n t ∧
    ApplyDefaults (deref p) = deref p ∧ agent_ok (deref p) ∧
    ∃ text, aw_fs w !! target n t = Some text ∧ holds_agent text (deref p);
  mir_file path : document_name (Base path) = true → join_path AgentsDir (Base path) = path → is_Some (aw_fs w !! path) →
    ∃ t n p, GetOwnedForTenant n t (aw_registry w) = Some p ∧ path = target n t
}.

Lemma target_document n t : safeAgentName n = true →
  Base (target n t) = file_name n t ∧ document_name (Base (target n t)) = true ∧ isJSON (target n t) = false.
Proof.
  intros Hn. pose proof (file_name_plain n t Hn) as Hp. pose proof (file_name_ext n t Hn) as He.
  assert (ToLower ".yaml" = ".yaml") as Hlow.
  { rewrite ToLower_ascii; [done|]. unfold is_ascii. cbn. repeat constructor; lia. }
  unfold target. rewrite Base_join by done. split; [done|]. unfold document_name, isJSON.
  rewrite Ext_join by done. rewrite He, Hlow. split; [apply bool_decide_eq_true; by left|done].
Qed.

Lemma target_inj n t n' t' : safeAgentName n = true → safeAgentName n' = true → known_tenant t → known_tenant t' →
  target n t = target n' t' → n = n' ∧ t = t'.
Proof.
  intros Hn Hn' Ht Ht' H. apply file_name_inj; [done..|].
  by apply (join_plain_inj AgentsDir); [|apply file_name_plain..|].
Qed.

(** A document of a mirrored directory loads as the definition served. *)
Lemma mirrored_loads w io t n p : mirrored w → GetOwnedForTenant n t (aw_registry w) = Some p → io_read io (target n t) = None →
  ∃ doc, load_agent io (aw_fs w) (target n t) = Some (inr (mkLoaded (deref p) doc (target n t))).
Proof.
  intros Hw Hp Hio. destruct (mir_agent _ Hw t n p Hp) as (Hn & _ & _ & _ & _ & text & Htext & Hblank & doc & Hdoc & Hkind & Hdec).
  exists doc. unfold load_agent, readAndParse, ReadFile. rewrite Hio, Htext, decide_False by done.
  destruct (target_document n t Hn) as (_ & _ & ->). rewrite Hdoc, decide_False by tauto. unfold decode_as. by rewrite Hdec.
Qed.

(** What a scan finds in a mirrored directory, whatever it cannot read. *)
Lemma mirrored_scan w io r : mirrored w → r ∈ (LoadDir io (aw_fs w) AgentsDir).1 →
  ∃ t n p, GetOwnedForTenant n t (aw_registry w) = Some p ∧ ld_Definition r = deref p ∧ ld_FilePath r = target n t.
Proof.
  intros Hw (_ & _ & name & doc & [text Hdom]%elem_of_dom & Hbase & Hname & Hread & Hkind & Hdec)%elem_of_LoadDir.
  destruct (mir_file _ Hw (join_path AgentsDir name)) as (t & n & p & Hp & Hpath); [by rewrite Hbase..|by exists text|].
  exists t, n, p. split; [done|]. rewrite Hpath in Hread, Hdec.
  assert (io_read io (target n t) = None) as Hio.
  { unfold readAndParse, ReadFile in Hread. by destruct (io_read io (target n t)). }
  destruct (mirrored_loads w io t n p Hw Hp Hio) as (doc' & Hload). unfold load_agent in Hload. rewrite Hread in Hload.
  rewrite decide_False in Hload by tauto. rewrite Hdec in Hload. by simplify_eq.
Qed.

(** The directory and the registry say the same. *)
Lemma mirrored_agrees w : mirrored w →
  (LoadDir no_faults (aw_fs w) AgentsDir).2 = [] ∧
  ∀ def, (∃ r, r ∈ (LoadDir no_faults (aw_fs w) AgentsDir).1 ∧ ld_Definition r = def) ↔
         ∃ t n p, GetOwnedForTenant n t (aw_registry w) = Some p ∧ deref p = def.
Proof.
  intros Hw. split.
  - apply elem_of_nil_inv. intros err Herr. unfold LoadDir in Herr.
    destruct (listDocumentPaths no_faults (aw_fs w) AgentsDir) as [e|paths] eqn:Hl.
    { unfold listDocumentPaths, ReadDir in Hl. by rewrite decide_False in Hl. }
    cbn [snd] in Herr. unfold lefts in Herr. apply list_elem_of_omap in Herr as (x & Hx & He).
    apply list_elem_of_omap in Hx as (path & Hpath & Hload).
    pose proof (listed_document _ _ _ _ _ Hl Hpath) as Hdoc.
    unfold listDocumentPaths, ReadDir in Hl. rewrite decide_False in Hl by done. injection Hl as <-.
    apply list_elem_of_fmap in Hpath as (name & -> & [_ [Hdom Hbase]%elem_of_dir_names]%list_elem_of_filter).
    destruct (mir_file _ Hw (join_path AgentsDir name)) as (t & n & p & Hp & Hpath);
      [done|by rewrite Hbase|by apply elem_of_dom|].
    rewrite Hpath in Hload. destruct (mirrored_loads w no_faults t n p Hw Hp eq_refl) as (doc & Hl). rewrite Hl in Hload. by simplify_eq.
  - intros def. split.
    + intros (r & Hr & <-). destruct (mirrored_scan w no_faults r Hw Hr) as (t & n & p & Hp & -> & _). by exists t, n, p.
    + intros (t & n & p & Hp & <-). destruct (mirrored_loads w no_faults t n p Hw Hp eq_refl) as (doc & Hload).
      exists (mkLoaded (deref p) doc (target n t)). split; [|done].
      destruct (mir_agent _ Hw t n p Hp) as (Hn & _ & _ & _ & _ & text & Htext & _).
      destruct (target_document n t Hn) as (Hbase & Hdoc & _). apply elem_of_LoadDir. split; [done|]. split; [done|].
      exists (file_name n t), doc. fold (target n t). split; [apply elem_of_dom; by exists text|]. split; [done|].
      split; [by rewrite <-Hbase|]. unfold load_agent in Hload. destruct (readAndParse _ _ _) as [|doc']; [by simplify_eq|].
      case_decide as Hk; [done|]. injection Hload as Hload. unfold decode_as in *.
      destruct (DecodeAgent doc') as [|d] eqn:Hd; [done|]. injection Hload as -> ->. split; [done|]. rewrite Hd. split; [|done].
      destruct (decide (peekKind doc = "")); [by left|]. right. destruct (decide (peekKind doc = AgentKind)); [done|tauto].
Qed.

(** *** Steps *)

Inductive agent_op :=
| OpCreate (rq : AgentRequest) (p : option Principal) (env : AgentEnv)
| OpPut (rq : AgentRequest) (p : option Principal) (env : AgentEnv)
| OpDelete (rq : AgentRequest) (p : option Principal) (env : AgentEnv)
| OpReload (rq : AgentRequest) (p : option Principal) (env : AgentEnv).

Definition agent_step (op : agent_op) (w : agent_world) : option (agent_world * agent_answer) :=
  match op with
  | OpCreate rq p env => CreateAgent AgentsDir wd rq p env w
  | OpPut rq p env => PutAgent AgentsDir wd rq p env w
  | OpDelete rq p env => Some (DeleteAgent AgentsDir wd rq p env w)
  | OpReload rq p env => Some (ReloadAgent AgentsDir rq p env w)
  end.

Definition op_caller (op : agent_op) : option Principal :=
  match op with OpCreate _ p _ | OpPut _ p _ | OpDelete _ p _ | OpReload _ p _ => p end.

Definition op_env (op : agent_op) : AgentEnv :=
  match op with OpCreate _ _ env | OpPut _ _ env | OpDelete _ _ env | OpReload _ _ env => env end.

(** The environment's pointer is the definition's own, the tenant's id a file name's, and
    a temporary name one element of a path. *)
Definition op_ok (op : agent_op) (w : agent_world) : Prop :=
  known_tenant (LogHandlers.callerTenantID (op_caller op)) ∧ slash_free (ae_random (op_env op)) ∧
  match op with
  | OpCreate rq p env => ∀ def text, decodeAgent rq p "" = Some (inr (def, text)) → deref (ae_new env) = def
  | OpPut rq p env => ∀ def text, decodeAgent rq p (arq_name rq) = Some (inr (def, text)) → deref (ae_new env) = def
  | OpDelete _ _ _ => True
  | OpReload rq p env => ∀ r, r ∈ (LoadDir (ae_io env) (aw_fs w) AgentsDir).1 →
      (∃ tenant, reload_match (arq_name rq) tenant r = true) → deref (ae_new env) = ApplyDefaults (ld_Definition r)
  end.

(** A definition the write handlers take. *)
Lemma decodeAgent_accepts rq p want def text : decodeAgent rq p want = Some (inr (def, text)) →
  safeAgentName (agent_name def) = true ∧ agent_tenant def = LogHandlers.callerTenantID p ∧ ApplyDefaults def = def ∧
  agent_ok def ∧ holds_agent text def ∧ (want = "" ∨ agent_name def = want).
Proof.
  unfold decodeAgent. destruct (arq_body rq) as [|body]; [done|]. case_decide; [done|].
  destruct (yaml_UnmarshalAgent body) as [|d]; [done|]. case_decide; [done|]. case_decide as Hwant; [done|].
  destruct (safeAgentName (agent_name d)) eqn:Hsafe; [|done]. cbn [negb].
  set (d' := ApplyDefaults (set_tenant (LogHandlers.callerTenantID p) d)).
  destruct (yaml_MarshalAgent d') as [|canonical] eqn:Hm; [done|].
  destruct (ValidateBytes_decides canonical) as (rep & -> & Hrep). cbn [mbind option_bind].
  case_decide as Hkind; [done|]. case_decide as Herr; [done|]. intros [= <- <-].
  destruct (marshal_reads_back d' canonical Hm) as (Hjson & doc & Hdoc & Hdec).
  assert (rep_Errors rep = []) as Hnil by (destruct (rep_Errors rep); [done|cbn in Herr; lia]).
  apply Hrep in Hnil as (doc' & (Hblank & t & Ht & Hdoc') & Hvalid). rewrite Hjson in Ht. injection Ht as <-.
  rewrite Hdoc in Hdoc'. injection Hdoc' as <-.
  destruct Hvalid as [(_ & Hpeek & a & Ha & Hok)|[(Hk & _)|[(Hk & _)|(Hk & _)]]]; [|exfalso; apply Hkind; by rewrite Hk..].
  rewrite Hdec in Ha. injection Ha as <-. split_and!; try done.
  - apply (ApplyDefaults_correct _ "" None).
  - split; [exact Hblank|by exists doc].
  - destruct (decide (want = "")); [by left|right]. destruct (decide (agent_name d = want)); [done|tauto].
Qed.

Lemma decodeAgent_total rq p want : is_Some (decodeAgent rq p want).
Proof.
  unfold decodeAgent. destruct (arq_body rq) as [|body]; [done|]. case_decide; [done|].
  destruct (yaml_UnmarshalAgent body); [done|]. case_decide; [done|]. case_decide; [done|]. destruct (negb _); [done|].
  destruct (yaml_MarshalAgent _) as [|text]; [done|]. destruct (ValidateBytes_decides text) as (rep & -> & _). done.
Qed.

Lemma target_nonempty n t : safeAgentName n = true → target n t ≠ "".
Proof.
  intros Hn H. destruct (target_document n t Hn) as (Hbase & _). rewrite H in Hbase.
  destruct (file_name_plain n t Hn) as (_ & Hd & _). by apply Hd.
Qed.

(** Registering the definition a file holds. *)
Lemma mirrored_register w new fs : mirrored w →
  let def := deref new in
  let n := agent_name def in let t := agent_tenant def in
  safeAgentName n = true → known_tenant t → ApplyDefaults def = def → agent_ok def →
  (∃ text, holds_agent text def ∧ same_documents fs (<[target n t := text]> (aw_fs w))) →
  ∀ log, mirrored (mkAgentWorld (RegisterWithSource (Some new) (target n t) (aw_registry w)) fs log).
Proof.
  intros Hw def n t Hn Ht Hdef Hok (text & Htext & Hfs) log.
  destruct (target_document n t Hn) as (Hbase & Hdoc & _).
  pose proof (target_nonempty n t Hn) as Hne.
  assert (∀ n' t', lookup2 (sources (RegisterWithSource (Some new) (target n t) (aw_registry w))) t' n' =
    if decide (t' = t ∧ n' = n) then Some (target n t) else lookup2 (sources (aw_registry w)) t' n') as Hsrc.
  { intros n' t'. cbn [RegisterWithSource]. rewrite decide_False by done. cbn [sources set_sources].
    by rewrite registerLocked_sources, lookup2_insert2. }
  assert (∀ n' t', GetOwnedForTenant n' t' (RegisterWithSource (Some new) (target n t) (aw_registry w)) =
    if decide (t' = t ∧ n' = n) then Some new else GetOwnedForTenant n' t' (aw_registry w)) as Hget.
  { intros n' t'. unfold GetOwnedForTenant. cbn [RegisterWithSource]. rewrite decide_False by done. cbn [agents set_sources].
    by rewrite registerLocked_agents, lookup2_insert2. }
  split; cbn [aw_registry aw_fs].
  - apply RegisterWithSource_wf, Hw.
  - intros t' n' p. rewrite Hget. unfold Source. rewrite Hsrc. case_decide as Hd.
    + destruct Hd as [-> ->]. intros [= <-]. split_and!; try done. exists text. split; [|done].
      rewrite (Hfs (target n t)) by done. apply lookup_insert_eq.
    + intros Hp. destruct (mir_agent _ Hw t' n' p Hp) as (Hn' & Ht' & Hs & Hd' & Hok' & text' & Htext' & Hh).
      split_and!; try done. exists text'. split; [|done].
      destruct (target_document n' t' Hn') as (_ & Hdoc' & _). rewrite (Hfs (target n' t')) by done.
      rewrite lookup_insert_ne; [done|]. intros H. apply target_inj in H as [-> ->]; [tauto|done..].
  - intros path Hpath Hin Hsome. rewrite (Hfs path Hpath) in Hsome.
    destruct (decide (target n t = path)) as [<-|Hne'].
    + exists t, n, new. by rewrite Hget, decide_True.
    + rewrite lookup_insert_ne in Hsome by done. destruct (mir_file _ Hw path Hpath Hin Hsome) as (t' & n' & p & Hp & ->).
      exists t', n', p. rewrite Hget, decide_False; [done|]. by intros [-> ->].
Qed.

Lemma mirrored_delete w n t p reg' fs log : mirrored w → GetOwnedForTenant n t (aw_registry w) = Some p →
  RemoveForTenant n t (aw_registry w) = inr reg' → same_documents fs (delete (target n t) (aw_fs w)) →
  mirrored (mkAgentWorld reg' fs log) ∧
  ∀ n' t', GetOwnedForTenant n' t' reg' = if decide (t' = t ∧ n' = n) then None else GetOwnedForTenant n' t' (aw_registry w).
Proof.
  intros Hw Hp Hrem Hfs. pose proof (RemoveForTenant_wf _ _ _ _ (mir_wf _ Hw) Hrem) as Hwf.
  destruct (RemoveForTenant_inv _ _ _ _ Hrem) as (d & _ & Heq).
  destruct (mir_agent _ Hw t n p Hp) as (Hn & Ht & _).
  assert (∀ n' t', GetOwnedForTenant n' t' reg' = if decide (t' = t ∧ n' = n) then None else GetOwnedForTenant n' t' (aw_registry w))
    as Hget.
  { intros n' t'. unfold GetOwnedForTenant. by rewrite Heq, rebuild_agents, drop_entry_agents, lookup2_delete2. }
  assert (∀ n' t', lookup2 (sources reg') t' n' = if decide (t' = t ∧ n' = n) then None else lookup2 (sources (aw_registry w)) t' n')
    as Hsrc.
  { intros n' t'. by rewrite Heq, rebuild_sources, drop_entry_sources, lookup2_delete2. }
  split; [|exact Hget]. split; cbn [aw_registry aw_fs]; [done|..].
  - intros t' n' p'. rewrite Hget. unfold Source. rewrite Hsrc. case_decide as Hd; [done|]. intros Hp'.
    destruct (mir_agent _ Hw t' n' p' Hp') as (Hn' & Ht' & Hs & Hd' & Hok' & text' & Htext' & Hh).
    split_and!; try done. exists text'. split; [|done].
    destruct (target_document n' t' Hn') as (_ & Hdoc' & _). rewrite (Hfs (target n' t')) by done.
    rewrite lookup_delete_ne; [done|]. intros H. apply target_inj in H as [-> ->]; [tauto|done..].
  - intros path Hpath Hin Hsome. rewrite (Hfs path Hpath) in Hsome.
    destruct (decide (target n t = path)) as [<-|Hne']; [rewrite lookup_delete_eq in Hsome; by destruct Hsome|].
    rewrite lookup_delete_ne in Hsome by done. destruct (mir_file _ Hw path Hpath Hin Hsome) as (t' & n' & p' & Hp' & ->).
    exists t', n', p'. rewrite Hget, decide_False; [done|]. by intros [-> ->].
Qed.

(** The file of an agent to write, known or new. *)
Lemma resolved_target w n t : mirrored w → safeAgentName n = true →
  resolveAgentTarget AgentsDir wd n t (aw_registry w) = inr (target n t).
Proof.
  intros Hw Hn. unfold resolveAgentTarget. rewrite decide_False by done. case_decide as Hs.
  - unfold Source in *. destruct (lookup2 (sources (aw_registry w)) t n) as [s|] eqn:Hsrc; [|done]. cbn [default] in *.
    destruct (wf_sources _ _ (mir_wf _ Hw) _ _ _ Hsrc) as [p Hp].
    destruct (mir_agent _ Hw t n p Hp) as (_ & _ & Hpath & _). unfold Source in Hpath. rewrite Hsrc in Hpath. cbn in Hpath. by rewrite Hpath.
  - rewrite agentFilePath_correct by done. by rewrite decide_False.
Qed.

Lemma persisted w env def text : mirrored w →
  safeAgentName (agent_name def) = true → known_tenant (agent_tenant def) → ApplyDefaults def = def → agent_ok def →
  holds_agent text def → deref (ae_new env) = def → slash_free (ae_random env) →
  let '(w', stored) := persistAndRegister AgentsDir wd env (agent_name def) (agent_tenant def) text w in
  aw_audit w' = aw_audit w ∧
  match stored with
  | inl _ => aw_registry w' = aw_registry w ∧ same_documents (aw_fs w') (aw_fs w)
  | inr _ => (∀ log, mirrored (mkAgentWorld (aw_registry w') (aw_fs w') log)) ∧
      ∀ n t, GetOwnedForTenant n t (aw_registry w') =
        if decide (t = agent_tenant def ∧ n = agent_name def) then Some (ae_new env) else GetOwnedForTenant n t (aw_registry w)
  end.
Proof.
  intros Hw Hn Ht Hd Hok Htext Hnew Hr. unfold persistAndRegister. rewrite resolved_target by done.
  rewrite decide_False by (by apply target_nonempty).
  pose proof (atomic_states_documents (ae_write env) (ae_random env) (target (agent_name def) (agent_tenant def)) text (aw_fs w) Hr) as Hst.
  unfold atomicWriteFile. destruct (atomic_states _ _ _ _ _) as [states [err|]]; destruct Hst as [_ Hfinal]; [by split|].
  split; [done|]. cbn [aw_registry aw_fs]. split.
  - intros log. subst def. apply mirrored_register; [done..|]. by exists text.
  - intros n t. unfold GetOwnedForTenant. cbn [RegisterWithSource]. rewrite decide_False by (by apply target_nonempty).
    cbn [agents set_sources]. by rewrite registerLocked_agents, lookup2_insert2, Hnew.
Qed.

(** A mirrored world with another log is one. *)
Lemma mirrored_log w log : mirrored w → mirrored (mkAgentWorld (aw_registry w) (aw_fs w) log).
Proof. by intros [H1 H2 H3]. Qed.

(** What a request leaves. *)
Record step_effect (op : agent_op) (w w' : agent_world) (a : agent_answer) : Prop := {
  eff_mirrored : mirrored w';
  eff_refused : (400 ≤ a.1)%Z →
    aw_registry w' = aw_registry w ∧ aw_audit w' = aw_audit w ∧ same_documents (aw_fs w') (aw_fs w);
  eff_others n t : t ≠ LogHandlers.callerTenantID (op_caller op) →
    deref <$> GetOwnedForTenant n t (aw_registry w') = deref <$> GetOwnedForTenant n t (aw_registry w);
  eff_done : (a.1 < 400)%Z →
    let tenantID := LogHandlers.callerTenantID (op_caller op) in
    match op with
    | OpCreate rq p env => ∃ def text, decodeAgent rq p "" = Some (inr (def, text)) ∧
        GetOwnedForTenant (agent_name def) tenantID (aw_registry w) = None ∧
        deref <$> GetOwnedForTenant (agent_name def) tenantID (aw_registry w') = Some def
    | OpPut rq p env => ∃ def text, decodeAgent rq p (arq_name rq) = Some (inr (def, text)) ∧ agent_name def = arq_name rq ∧
        deref <$> GetOwnedForTenant (agent_name def) tenantID (aw_registry w') = Some def
    | OpDelete rq p env => is_Some (GetOwnedForTenant (arq_name rq) tenantID (aw_registry w)) ∧
        GetOwnedForTenant (arq_name rq) tenantID (aw_registry w') = None
    | OpReload rq p env => ∀ n t, deref <$> GetOwnedForTenant n t (aw_registry w') = deref <$> GetOwnedForTenant n t (aw_registry w)
    end
}.

Lemma refused_effect op w a : mirrored w → (400 ≤ a.1)%Z → step_effect op w w a.
Proof. intros Hw Ha. split; [done|done|done|lia]. Qed.

Lemma decodeAgent_refuses rq p want refused : decodeAgent rq p want = Some (inl refused) → (400 ≤ refused.1)%Z.
Proof.
  unfold decodeAgent, server_error. destruct (arq_body rq) as [|body]; [by intros [= <-]|]. case_decide; [by intros [= <-]|].
  destruct (yaml_UnmarshalAgent body); [by intros [= <-]|]. case_decide; [by intros [= <-]|]. case_decide; [by intros [= <-]|].
  destruct (negb _); [by intros [= <-]|]. destruct (yaml_MarshalAgent _) as [|text]; [by intros [= <-]|].
  destruct (ValidateBytes text) as [rep|]; [|done]. cbn [mbind option_bind].
  case_decide; [by intros [= <-]|]. case_decide; [by intros [= <-]|done].
Qed.

(** A definition taken by [decodeAgent], persisted: refused without effect, or served. *)
Lemma stored_effect op want rq env def text w : mirrored w →
  op_ok op w → op_env op = env → decodeAgent rq (op_caller op) want = Some (inr (def, text)) → deref (ae_new env) = def →
  let tenantID := LogHandlers.callerTenantID (op_caller op) in
  let '(w', stored) := persistAndRegister AgentsDir wd env (agent_name def) tenantID text w in
  match stored with
  | inl _ => step_effect op w w' server_error
  | inr (file, _) => ∀ kind code body, (code < 400)%Z →
      (∀ w1, aw_registry w1 = aw_registry w' →
         (∀ n t, t ≠ tenantID → deref <$> GetOwnedForTenant n t (aw_registry w1) = deref <$> GetOwnedForTenant n t (aw_registry w)) →
         deref <$> GetOwnedForTenant (agent_name def) tenantID (aw_registry w1) = Some def → mirrored w1 → step_effect op w w1 (code, body)) →
      step_effect op w (recordAgentEvent rq (op_caller op) kind (agent_name def) file env w') (code, body)
  end.
Proof.
  intros Hw (Ht & Hr & _) <- Hdec Hnew tenantID.
  destruct (decodeAgent_accepts _ _ _ _ _ Hdec) as (Hn & Htenant & Hdef & Hok & Htext & _).
  pose proof (persisted w (op_env op) def text Hw Hn) as Hp. rewrite Htenant in Hp. specialize (Hp Ht Hdef Hok Htext Hnew Hr).
  fold tenantID in Hp. destruct (persistAndRegister _ _ _ _ _ _ _) as [w' [err|[file pers]]]; destruct Hp as [Hlog Hp].
  - destruct Hp as [Hreg Hfs]. split; [|done|by rewrite Hreg|done].
    destruct Hw as [H1 H2 H3]. split; rewrite ?Hreg; [done|..].
    + intros t n q Hq. destruct (H2 t n q Hq) as (Hn' & Ht' & Hs & Hd & Hok' & text' & Htext' & Hh). split_and!; try done.
      exists text'. split; [|done]. destruct (target_document n t Hn') as (_ & Hdoc & _). by rewrite (Hfs _ Hdoc).
    + intros path Hdoc Hin Hsome. rewrite (Hfs _ Hdoc) in Hsome. by apply H3.
  - destruct Hp as [Hm Hget]. intros kind code body Hcode Hdone. apply Hdone.
    + done.
    + intros n t Hne. cbn [recordAgentEvent aw_registry]. rewrite Hget, decide_False; [done|]. by intros [? _].
    + cbn [recordAgentEvent aw_registry]. rewrite Hget, decide_True by done. cbn. by rewrite Hnew.
    + apply Hm.
Qed.

Lemma create_effect rq p env w : mirrored w → op_ok (OpCreate rq p env) w →
  ∃ w' a, CreateAgent AgentsDir wd rq p env w = Some (w', a) ∧ step_effect (OpCreate rq p env) w w' a.
Proof.
  intros Hw Hop. unfold CreateAgent. destruct (decodeAgent_total rq p "") as [d Hd]. rewrite Hd. cbn [mbind option_bind].
  destruct d as [refused|[def text]].
  { eexists w, _. split; [done|]. apply refused_effect; [done|]. by eapply decodeAgent_refuses. }
  destruct (GetOwnedForTenant _ _ _) as [q|] eqn:Hnone; [eexists w, _; split; [done|]; by apply refused_effect|].
  pose proof (stored_effect (OpCreate rq p env) "" rq env def text w Hw Hop eq_refl Hd) as Hs.
  specialize (Hs (proj2 (proj2 Hop) def text Hd)). cbn zeta in Hs. cbn [op_caller] in Hs.
  destruct (persistAndRegister _ _ _ _ _ _ _) as [w' [err|[file pers]]]; eexists _, _; (split; [done|]); [exact Hs|].
  apply Hs; [done|]. intros w1 Hreg Hothers Hget Hm. split; [done|cbn; lia|done|]. intros _. by exists def, text.
Qed.

Lemma put_effect rq p env w : mirrored w → op_ok (OpPut rq p env) w →
  ∃ w' a, PutAgent AgentsDir wd rq p env w = Some (w', a) ∧ step_effect (OpPut rq p env) w w' a.
Proof.
  intros Hw Hop. unfold PutAgent. destruct (safeAgentName (arq_name rq)) eqn:Hsafe; cbn [negb];
    [|eexists w, _; split; [done|]; by apply refused_effect].
  destruct (decodeAgent_total rq p (arq_name rq)) as [d Hd]. rewrite Hd. cbn [mbind option_bind].
  destruct d as [refused|[def text]].
  { eexists w, _. split; [done|]. apply refused_effect; [done|]. by eapply decodeAgent_refuses. }
  destruct (decodeAgent_accepts _ _ _ _ _ Hd) as (_ & _ & _ & _ & _ & Hname).
  assert (agent_name def = arq_name rq) as Hname'.
  { destruct Hname as [H|H]; [|done]. apply safe_name in Hsafe as [_ Hne]. by rewrite H in Hne. }
  pose proof (stored_effect (OpPut rq p env) (arq_name rq) rq env def text w Hw Hop eq_refl Hd) as Hs.
  specialize (Hs (proj2 (proj2 Hop) def text Hd)). cbn zeta in Hs. cbn [op_caller] in Hs.
  destruct (persistAndRegister _ _ _ _ _ _ _) as [w' [err|[file pers]]]; [eexists _, _; split; [done|exact Hs]|].
  destruct (bool_decide _); eexists _, _; (split; [done|]);
    (apply Hs; [done|]; intros w1 Hreg Hothers Hget Hm; split; [done|cbn; lia|done|]; intros _; by exists def, text).
Qed.

Lemma delete_effect rq p env w : mirrored w → op_ok (OpDelete rq p env) w →
  let '(w', a) := DeleteAgent AgentsDir wd rq p env w in step_effect (OpDelete rq p env) w w' a.
Proof.
  intros Hw (Ht & _). unfold DeleteAgent. cbn [op_caller] in Ht. set (t := LogHandlers.callerTenantID p) in *.
  destruct (safeAgentName (arq_name rq)) eqn:Hsafe; cbn [negb]; [|by apply refused_effect].
  destruct (GetOwnedForTenant (arq_name rq) t (aw_registry w)) as [q|] eqn:Hq; [|by apply refused_effect].
  destruct (mir_agent _ Hw _ _ _ Hq) as (_ & _ & Hsrc & _ & _ & text & Htext & _).
  pose proof (target_nonempty (arq_name rq) t Hsafe) as Hne. rewrite Hsrc.
  rewrite (decide_False (P := target _ _ = "")) by done. rewrite (decide_False (P := target _ _ = "")) by done.
  unfold remove_file. rewrite Htext. destruct (ae_remove env) as [err|]; [by apply refused_effect|].
  assert (∃ reg', RemoveForTenant (arq_name rq) t (aw_registry w) = inr reg') as [reg' Hrem].
  { unfold RemoveForTenant, GetOwnedForTenant in *. rewrite Hq. by eexists. }
  rewrite Hrem.
  destruct (mirrored_delete w (arq_name rq) t q reg' (delete (target (arq_name rq) t) (aw_fs w))
    (RecordHTTP (arq_audit rq) p EventAgentDeleted (arq_name rq)
       (MarshalDetails (Some (VObj (if decide (Base (target (arq_name rq) t) ≠ "") then [("file", VString (Base (target (arq_name rq) t)))] else []))))
       (ae_now env) (aw_audit w)) Hw Hq Hrem ltac:(done)) as [Hm Hget].
  split; [exact Hm|cbn; lia|..].
  - intros n t' Hne'. cbn [recordAgentEvent aw_registry op_caller] in *. rewrite Hget, decide_False; [done|]. by intros [? _].
  - intros _. cbn [recordAgentEvent aw_registry op_caller]. fold t. split; [by rewrite Hq|]. by rewrite Hget, decide_True.
Qed.

Lemma reload_effect rq p env w : mirrored w → op_ok (OpReload rq p env) w →
  let '(w', a) := ReloadAgent AgentsDir rq p env w in step_effect (OpReload rq p env) w w' a.
Proof.
  intros Hw (_ & _ & Hnew). unfold ReloadAgent.
  destruct (GetForTenant _ _ _) as [existing|] eqn:Hex; [|by apply refused_effect].
  destruct (find _ _) as [r|] eqn:Hf; [|by apply refused_effect].
  apply find_some in Hf as [Hin Hmatch]. apply list_elem_of_In in Hin.
  destruct (Validate _ _ _) as [errs|]; [by apply refused_effect|].
  specialize (Hnew r Hin ltac:(by eexists)).
  destruct (mirrored_scan w _ r Hw Hin) as (t & n & q & Hq & Hdef & Hpath).
  destruct (mir_agent _ Hw _ _ _ Hq) as (Hn & Ht & _ & Hdefault & Hok & text & Htext & Hholds).
  rewrite Hdef, Hdefault in Hnew. rewrite Hpath.
  destruct (wf_keys _ _ (mir_wf _ Hw) _ _ _ Hq) as [Hqt Hqn].
  assert (∀ n' t', deref <$> GetOwnedForTenant n' t' (RegisterWithSource (Some (ae_new env)) (target n t) (aw_registry w)) =
    deref <$> GetOwnedForTenant n' t' (aw_registry w)) as Hsame.
  { intros n' t'. unfold GetOwnedForTenant in *. cbn [RegisterWithSource]. rewrite decide_False by (by apply target_nonempty).
    cbn [agents set_sources]. rewrite registerLocked_agents, lookup2_insert2, Hnew, Hqt, Hqn. case_decide as Hd; [|done].
    destruct Hd as [-> ->]. rewrite Hq. cbn. by rewrite Hnew. }
  split; [|cbn; lia|intros n' t' _; apply Hsame|intros _; apply Hsame].
  pose proof (mirrored_register w (ae_new env) (aw_fs w) Hw) as Hreg. cbn zeta in Hreg. rewrite Hnew, Hqt, Hqn in Hreg.
  apply Hreg; [done..|]. exists text. split; [done|]. intros path _.
  destruct (decide (target n t = path)) as [<-|]; [by rewrite lookup_insert_eq|by rewrite lookup_insert_ne].
Qed.

(** The worlds requests lead to from an empty registry and a directory without documents. *)
Inductive reachable : agent_world → Prop :=
| reach_start fs log : (∀ path, document_name (Base path) = true → join_path AgentsDir (Base path) = path → fs !! path = None) →
    reachable (mkAgentWorld NewAgentRegistry fs log)
| reach_step op w w' a : reachable w → op_ok op w → agent_step op w = Some (w', a) → reachable w'.

Lemma step_has_effect op w : mirrored w → op_ok op w → ∃ w' a, agent_step op w = Some (w', a) ∧ step_effect op w w' a.
Proof.
  intros Hw Hop. destruct op as [rq p env|rq p env|rq p env|rq p env]; cbn [agent_step].
  - by apply create_effect.
  - by apply put_effect.
  - pose proof (delete_effect rq p env w Hw Hop) as H. destruct (DeleteAgent _ _ _ _ _ _) as [w' a]. by exists w', a.
  - pose proof (reload_effect rq p env w Hw Hop) as H. destruct (ReloadAgent _ _ _ _ _) as [w' a]. by exists w', a.
Qed.

Lemma reachable_mirrored w : reachable w → mirrored w.
Proof.
  induction 1 as [fs log Hfs|op w w' a _ IH Hop Hstep].
  - split; cbn [aw_registry aw_fs]; [apply NewAgentRegistry_wf|done|]. intros path Hd Hin [data Hdata]. by rewrite Hfs in Hdata.
  - destruct (step_has_effect op w IH Hop) as (w1 & a1 & Hstep1 & Heff). rewrite Hstep in Hstep1. injection Hstep1 as <- <-. apply Heff.
Qed.

End mirror.

(** ** Examples *)

(** Documents are texts: [agent:] and a tenant, or [pipeline]. *)
#[local] Instance ex_yaml : GoYaml :=
  {| Node := string; Kind n := if decide (n = "root") then MappingNode else OtherNode; Value n := n; Line _ := 0%Z; Column _ := 0%Z;
     Content n := if decide (n = "pipeline") then ["root"] else if decide (n = "root") then ["kind"; "Pipeline"] else [] |}.

Definition ex_agent (tenant : string) : AgentDefinition :=
  mkAgentDefinition "mockagents/v1" "Agent" (mkMetadata "support-bot" "" [] tenant)
    (mkAgentSpec "anthropic-messages" "gpt" "" []
       (mkBehaviorConfig [mkScenario "hello" None (mkScenarioResponse "hi" [] [] "" "" None)] None None)).

#[local] Instance ex_docs : YamlDocs :=
  {| json_Unmarshal s := if decide (s = "{}") then inr (VString "") else inl "invalid character";
     yaml_MarshalAny _ := inr "agent:acme"; yaml_Unmarshal s := inr s;
     DecodeAgent n := if has_prefix n "agent:" then inr (ex_agent (str_drop 6 n)) else inl "no agent";
     DecodePipeline n := inr (mkPipelineDefinition "" "Pipeline" (mkMetadata n "" [] "") (mkPipelineSpec "" [] []));
     DecodeTestSuite _ := inl "no suite"; DecodeMCPServer _ := inl "no server" |}.

(** The text of the agents of [ex_agent]. *)
Definition ex_marshal (def : AgentDefinition) : string + string :=
  match def with
  | mkAgentDefinition v k (mkMetadata n d [] t) (mkAgentSpec proto model sp []
      (mkBehaviorConfig [mkScenario sn None (mkScenarioResponse c [] [] fr rf None)] None None)) =>
      if decide ([v; k; n; d; proto; model; sp; sn; c; fr; rf] = ["mockagents/v1"; "Agent"; "support-bot"; ""; "anthropic-messages"; "gpt"; ""; "hello"; "hi"; ""; ""])
      then inr ("agent:" +:+ t) else inl "unknown definition"
  | _ => inl "unknown definition"
  end.

#[local] Instance ex_agent_yaml : AgentYaml :=
  {| yaml_UnmarshalAgent _ := inr (ex_agent ""); yaml_MarshalAgent := ex_marshal; MarshalAny _ := Some "{}" |}.

#[local] Instance ex_agent_laws : AgentYamlLaws.
Proof.
  intros def text. cbn [yaml_MarshalAgent ex_agent_yaml]. unfold ex_marshal. repeat (case_match; try discriminate).
  repeat match goal with H : decide _ = _ |- _ => clear H end.
  intros [= <-]. simplify_eq. split; [done|]. eexists. split; [done|]. cbn [DecodeAgent ex_docs].
  assert (has_prefix ("agent:" +:+ md_TenantID) "agent:" = true) as -> by (apply has_prefix_spec; by eexists).
  pose proof (str_drop_app "agent:" md_TenantID) as Hd. cbn [String.length] in Hd. by rewrite Hd.
Qed.
#[local] Instance ex_regexp_error : RegexpError := λ p, ("bad pattern " +:+ p)%string.
#[local] Instance ex_time : AuditTime :=
  {| date_text _ := "2026-01-01T00:00:00"; ParseRFC3339Nano _ := None; ParseSince _ := inl "no time" |}.
#[local] Existing Instance plain_fmt.
#[local] Existing Instance literal_regexp.
#[local] Existing Instance ascii_go_lower.
#[local] Existing Instance canonical_range.
#[local] Instance ex_agents : Heap AgentDefinition := λ p, ex_agent (if decide (p = 1%positive) then "acme" else "").

Definition ex_env (new : loc) : AgentEnv := mkAgentEnv new 0 "17" no_write_faults None no_faults.
Definition ex_request : AgentRequest := mkAgentRequest "support-bot" (inr "the body") (mkAuditRequest "" "").
Definition acme_admin : option Principal := Some (mkPrincipal "acme" "k1" "admin").
Definition empty_world : agent_world := mkAgentWorld NewAgentRegistry ∅ None.

Definition created (w : option (agent_world * agent_answer)) : agent_world := default empty_world (fst <$> w).

Lemma ex_decoded want def text : decodeAgent ex_request acme_admin want = Some (inr (def, text)) → def = ex_agent "acme".
Proof.
  unfold decodeAgent. cbn [arq_body ex_request yaml_UnmarshalAgent ex_agent_yaml].
  case_decide; [discriminate|]. case_decide; [discriminate|]. case_decide; [discriminate|].
  change (negb (safeAgentName (agent_name (ex_agent "")))) with false. cbn iota.
  change (ApplyDefaults (set_tenant (LogHandlers.callerTenantID acme_admin) (ex_agent ""))) with (ex_agent "acme").
  destruct (yaml_MarshalAgent (ex_agent "acme")) as [|canonical]; [discriminate|].
  destruct (ValidateBytes canonical) as [rep|]; [|discriminate]. cbn [mbind option_bind].
  case_decide; [discriminate|]. case_decide; [discriminate|]. by intros [= <- _].
Qed.


(** ** Gaps *)

(** An agent loaded from a JSON file: replacing it writes YAML into the file, which loads as
    JSON, so a restart loses the agent. *)
Definition json_world : agent_world :=
  mkAgentWorld (RegisterWithSource (Some 1%positive) "agents/bot.json" NewAgentRegistry) {["agents/bot.json" := "{}"]} None.

Example json_source_lost :
  let w := created (PutAgent "agents" "/srv" ex_request acme_admin (ex_env 1%positive) json_world) in
  length (LoadDir no_faults (aw_fs json_world) "agents").1 = 1 ∧ aw_fs w !! "agents/bot.json" = Some "agent:acme" ∧
  LoadDir no_faults (aw_fs w) "agents" = ([], [ErrInvalidJSON "agents/bot.json" "invalid character"]).
Proof. vm_compute. done. Qed.

(** An agent named like the file of a pipeline takes its file. *)
Example pipeline_file_taken :
  let fs : file_system := {["agents/support-bot.yaml" := "pipeline"]} in
  let w := created (CreateAgent "agents" "/srv" ex_request None (ex_env 2%positive) (mkAgentWorld NewAgentRegistry fs None)) in
  length (docs_Pipelines (LoadAllDocuments no_faults fs "agents").1) = 1 ∧
  docs_Pipelines (LoadAllDocuments no_faults (aw_fs w) "agents").1 = [].
Proof. vm_compute. done. Qed.

(** Tenants whose ids differ in a replaced character share their files. *)
Example shared_files : file_name "support-bot" "a.b" = file_name "support-bot" "a_b".
Proof. reflexivity. Qed.

(** Nothing is written below the root directory. *)
Example root_refused : agentFilePath "/" "/srv" "support-bot" "" = inl "resolved agent path escapes the agents directory".
Proof. reflexivity. Qed.
