(* ===== verification/PipelineFiles.v ===== *)
(** The pipeline API of the server, [internal/server/pipeline_handlers.go]: the handlers
    that list, show and update pipelines over their registry and files, with optimistic
    concurrency; and the validation endpoint of [validate_handler.go].

    The entity tag of a pipeline is a digest of its file, a parameter. A request and its
    environment are as for the agent API; the write handler holds a mutex from the
    reading of the version on, so it is one step. *)

From Stdlib Require Import Ascii.
From S2P Require Import Prelude GoBase GoStrings AgentTypes AgentRegistry PipelineRegistry ScenarioMatcher Validation FilePath.
From S2P Require Import PipelineValidator AgentValidator DocumentTypes DocumentValidators Loader Authz AuditTrail AgentFiles.

(** [encoding/json] and the YAML library on pipelines, and the digest of a file. *)
Class PipelineDocs := {
  json_UnmarshalPipeline : string → string + PipelineDefinition;
  yaml_MarshalPipeline : PipelineDefinition → string + string;
  hashHex : string → string
}.

Record PipelineRequest := mkPipelineRequest {
  prq_name : string; prq_body : string + string; prq_IfMatch : string; prq_audit : AuditRequest
}.

Record PipelineSummary := mkPipelineSummary {
  psm_Name : string; psm_Description : string; psm_Topology : string; psm_AgentCount : Z; psm_EdgeCount : Z
}.

Inductive pipeline_body :=
| PipelineError (msg : string)
| PipelineReport (kind : string) (errors : list ValidationError)
| PipelineSummaries (l : list PipelineSummary)
| PipelineDef (def : PipelineDefinition).

(** The status, the [ETag] header if it is set, and the body. *)
Definition pipeline_answer : Type := Z * option string * pipeline_body.

Record pipeline_world := mkPipelineWorld {
  pw_registry : option PipelineRegistry; pw_agents : option AgentRegistry; pw_fs : file_system; pw_audit : option AuditLog
}.

Definition maxPipelineBodyBytes : Z := 1048576.

(** [strings.Trim] of double quotes. *)
Fixpoint trim_left_quotes (s : string) : string :=
  match s with String c rest => if decide (c = ascii_of_nat 34) then trim_left_quotes rest else s | "" => "" end.

Fixpoint trim_right_quotes (s : string) : string :=
  match s with
  | "" => ""
  | String c s => match trim_right_quotes s with
                  | "" => if decide (c = ascii_of_nat 34) then "" else String c ""
                  | s => String c s
                  end
  end.

Definition trim_quotes (s : string) : string := trim_right_quotes (trim_left_quotes s).

Definition quoted (s : string) : string := byte 34 +:+ s +:+ byte 34.

Definition safePipelineName (name : string) : bool :=
  if decide (name = "" ∨ name = "." ∨ name = "..") then false
  else negb (str_contains name "/" || str_contains name (byte 92)) && negb (str_contains name "..").

Section handlers.
Context {yaml : GoYaml} {docs : YamlDocs} {agent_yaml : AgentYaml} {pdocs : PipelineDocs}.
Context {fmt : GoFmt} {re : GoRegexp} {re_err : RegexpError} {mr : MapRange} {time : AuditTime}.
Context {pipelines_heap : Heap PipelineDefinition}.
Context (AgentsDir wd : string).

Definition summarizePipeline (def : PipelineDefinition) : PipelineSummary :=
  mkPipelineSummary (md_Name (pd_Metadata def)) (md_Description (pd_Metadata def)) (ps_Topology (pd_Spec def))
    (Z.of_nat (length (ps_Agents (pd_Spec def)))) (Z.of_nat (length (ps_Edges (pd_Spec def)))).

Definition ListPipelines (w : pipeline_world) : pipeline_answer :=
  match pw_registry w with
  | None => (200%Z, None, PipelineSummaries [])
  | Some reg => (200%Z, None, PipelineSummaries ((λ p, summarizePipeline (deref p)) <$> PipelineRegistry.List reg))
  end.

(** The version of a pipeline, or the text of an error. *)
Definition pipelineVersion (io : IoFaults) (name : string) (reg : PipelineRegistry) (fs : file_system) : string + string :=
  let of_definition :=
    match GetPipeline name reg with
    | None => inr ""
    | Some p => match yaml_MarshalPipeline (deref p) with inl err => inl err | inr data => inr (hashHex data) end
    end in
  let src := PipelineRegistry.Source name reg in
  if decide (src ≠ "") then match ReadFile io fs src with inr data => inr (hashHex data) | inl _ => of_definition end
  else of_definition.

Definition GetPipelineHandler (rq : PipelineRequest) (env : AgentEnv) (w : pipeline_world) : pipeline_answer :=
  let name := prq_name rq in
  if decide (name = "") then (400%Z, None, PipelineError "missing pipeline name")
  else
    match pw_registry w with
    | None => (404%Z, None, PipelineError "pipeline registry not configured")
    | Some reg =>
        match GetPipeline name reg with
        | None => (404%Z, None, PipelineError "pipeline not found")
        | Some p =>
            let etag := match pipelineVersion (ae_io env) name reg (pw_fs w) with
                        | inr ver => if decide (ver ≠ "") then Some (quoted ver) else None
                        | inl _ => None
                        end in
            (200%Z, etag, PipelineDef (deref p))
        end
    end.

Definition ref_error (i : nat) (ref : string) : ValidationError :=
  mkValidationError "" 0 0 (index_field "spec.agents" i +:+ ".ref")
    ("pipeline references unknown agent " +:+ Quote ref)
    ("Add an agent with metadata.name: " +:+ ref +:+ ", or fix the ref.").

Definition validateAgentRefs (agents : option AgentRegistry) (def : PipelineDefinition) : list ValidationError :=
  match agents with
  | None => []
  | Some reg =>
      concat (imap (λ i node, if decide (pa_Ref node = "") then []
                              else match AgentRegistry.Get (pa_Ref node) reg with
                                   | None => [ref_error i (pa_Ref node)]
                                   | Some _ => []
                                   end) (ps_Agents (pd_Spec def)))
  end.

Definition resolveTargetFile (name : string) (reg : PipelineRegistry) : string + string :=
  let src := PipelineRegistry.Source name reg in
  if decide (src ≠ "") then inr src
  else if decide (AgentsDir = "") then inl "no agents directory configured; cannot persist a new pipeline file"
  else
    let target := join_path AgentsDir (name +:+ ".yaml") in
    let absDir := Abs wd AgentsDir in
    let absTarget := Abs wd target in
    if bool_decide (absTarget ≠ absDir) && negb (has_prefix absTarget (absDir +:+ "/"))
    then inl "resolved pipeline path escapes the agents directory" else inr target.

Definition pipeline_error (code : Z) (msg : string) : pipeline_answer := (code, None, PipelineError msg).
Definition pipeline_server_error : pipeline_answer := pipeline_error 500 "internal error".

(** The part of [UpdatePipeline] under the lock: a valid definition, its text, and the
    pointer it is registered under. *)
Definition save_pipeline (rq : PipelineRequest) (p : option Principal) (env : AgentEnv) (def : PipelineDefinition)
    (text : string) (reg : PipelineRegistry) (w : pipeline_world) : pipeline_world * pipeline_answer :=
  let name := prq_name rq in
  match pipelineVersion (ae_io env) name reg (pw_fs w) with
  | inl _ => (w, pipeline_server_error)
  | inr current =>
      let ifMatch := trim_quotes (prq_IfMatch rq) in
      if decide (ifMatch = "") then (w, pipeline_error 428 "If-Match header required (echo the ETag from GET)")
      else if decide (ifMatch ≠ current) then
        (w, pipeline_error 412 "pipeline changed since it was loaded; reload and re-apply")
      else
        match resolveTargetFile name reg with
        | inl _ => (w, pipeline_server_error)
        | inr target =>
            let '(fs, failed) := atomicWriteFile (ae_write env) (ae_random env) target text (pw_fs w) in
            match failed with
            | Some _ => (mkPipelineWorld (pw_registry w) (pw_agents w) fs (pw_audit w), pipeline_server_error)
            | None =>
                (mkPipelineWorld (Some (PipelineRegistry.RegisterWithSource (Some (ae_new env)) target reg)) (pw_agents w) fs
                   (RecordHTTP (prq_audit rq) p EventPipelineSaved name
                      (MarshalDetails (Some (VObj [("file", VString (Base target))]))) (ae_now env) (pw_audit w)),
                 (200%Z, Some (quoted (hashHex text)), PipelineDef def))
            end
        end
  end.

(** [None] is a validation out of fuel. *)
Definition UpdatePipeline (rq : PipelineRequest) (p : option Principal) (env : AgentEnv) (w : pipeline_world)
    : option (pipeline_world * pipeline_answer) :=
  let name := prq_name rq in
  match pw_registry w with
  | None => Some (w, pipeline_error 404 "pipeline registry not configured")
  | Some reg =>
      if decide (name = "") then Some (w, pipeline_error 400 "missing pipeline name")
      else if decide (GetPipeline name reg = None) then Some (w, pipeline_error 404 "pipeline not found")
      else
        match prq_body rq with
        | inl err => Some (w, pipeline_error 400 ("reading body: " +:+ err))
        | inr body =>
            if decide (maxPipelineBodyBytes < Z.of_nat (String.length body))%Z then
              Some (w, pipeline_error 413 "request body too large")
            else
              match json_UnmarshalPipeline body with
              | inl err => Some (w, pipeline_error 400 ("invalid JSON: " +:+ err))
              | inr def =>
                  if decide (md_Name (pd_Metadata def) ≠ name) then
                    Some (w, pipeline_error 400 ("metadata.name " +:+ Quote (md_Name (pd_Metadata def)) +:+ " does not match path " +:+ Quote name))
                  else if negb (safePipelineName name) then Some (w, pipeline_error 400 "invalid pipeline name")
                  else
                    match yaml_MarshalPipeline def with
                    | inl _ => Some (w, pipeline_server_error)
                    | inr text =>
                        report ← ValidateBytes text;
                        let refErrs := validateAgentRefs (pw_agents w) def in
                        if decide (0 < length (rep_Errors report) ∨ 0 < length refErrs) then
                          Some (w, (422%Z, None, PipelineReport (rep_Kind report) (rep_Errors report ++ refErrs)))
                        else Some (save_pipeline rq p env def text reg w)
                    end
              end
        end
  end.

(** ** The validation endpoint *)

(** [json.Unmarshal] into [{yaml}]: an error, or the field if it is there. *)
Class WrapperJson := UnmarshalWrapper : string → string + option string.
Context {wrapper_json : WrapperJson}.

Fixpoint opens_object (body : string) : bool :=
  match body with
  | "" => false
  | String c body => if decide (c ∈ [" "; "009"; "010"; "013"]%char) then opens_object body else bool_decide (c = "{"%char)
  end.

Definition isJSONContent (contentType body : string) : bool := has_prefix contentType "application/json" || opens_object body.

(** The text to validate, or nothing for an empty wrapper. *)
Definition validate_payload (contentType body : string) : option string :=
  if isJSONContent contentType body then
    match UnmarshalWrapper body with
    | inr (Some inner) => if decide (inner = "") then None else Some inner
    | _ => Some body
    end
  else Some body.

(** The status, and a message or whether the document is valid, its kind and its errors. *)
Definition ValidateHandler (method contentType : string) (read : string + string)
    : option (Z * (string + bool * string * list ValidationError)) :=
  if decide (method ≠ "POST") then Some (405%Z, inl "method not allowed")
  else
    match read with
    | inl err => Some (400%Z, inl ("reading body: " +:+ err))
    | inr body =>
        if decide (maxPipelineBodyBytes < Z.of_nat (String.length body))%Z then Some (413%Z, inl "request body too large")
        else
          match validate_payload contentType body with
          | None => Some (400%Z, inl ("JSON wrapper " +:+ quoted "yaml" +:+ " field is present but empty"))
          | Some payload =>
              report ← ValidateBytes payload;
              Some (200%Z, inr (bool_decide (rep_Errors report = []), rep_Kind report, rep_Errors report))
          end
    end.
End handlers.

(** ** Saving a pipeline *)

(** What the YAML library promises of the text it makes of a pipeline: a block mapping that
    reads back as the pipeline, of its kind, with none of the sections of other documents. *)
Class PipelineDocsLaws {yaml : GoYaml} {docs : YamlDocs} {pdocs : PipelineDocs} :=
  pipeline_reads_back def text : yaml_MarshalPipeline def = inr text →
    looksLikeJSON text = false ∧
    ∃ doc, yaml_Unmarshal text = inr doc ∧ peekKind doc = pd_Kind def ∧ DecodePipeline doc = inr def ∧
      (∀ a, DecodeAgent doc = inr a → bc_Scenarios (as_Behavior (ad_Spec a)) = []) ∧
      (∀ s, DecodeTestSuite doc = inr s → tt_Agent (tss_Target (tsd_Spec s)) = "" ∧ tt_Pipeline (tss_Target (tsd_Spec s)) = "") ∧
      (∀ m, DecodeMCPServer doc = inr m → mss_Tools (msd_Spec m) = [] ∧ mss_Resources (msd_Spec m) = [] ∧ mss_Prompts (msd_Spec m) = []).

Section saving.
Context {yaml : GoYaml} {docs : YamlDocs} {lower : GoLower} {agent_yaml : AgentYaml} {pdocs : PipelineDocs} {laws : PipelineDocsLaws}.
Context {fmt : GoFmt} {re : GoRegexp} {re_err : RegexpError} {mr : MapRange} {time : AuditTime}.
Context {pipelines_heap : Heap PipelineDefinition}.
Context (AgentsDir wd : string).

Lemma refs_from_nil agents (nodes : list PipelineAgent) k :
  concat (imap (λ i node, if decide (pa_Ref node = "") then []
                          else match AgentRegistry.Get (pa_Ref node) agents with
                               | None => [ref_error (k + i) (pa_Ref node)]
                               | Some _ => []
                               end) nodes) = [] ↔
  ∀ node, node ∈ nodes → pa_Ref node = "" ∨ is_Some (AgentRegistry.Get (pa_Ref node) agents).
Proof.
  revert k. induction nodes as [|node nodes IH]; intros k; [by split; [intros _ ? []%not_elem_of_nil|]|].
  cbn [imap concat]. rewrite app_nil. setoid_rewrite elem_of_cons.
  rewrite (imap_ext _ (λ i node, if decide (pa_Ref node = "") then []
                          else match AgentRegistry.Get (pa_Ref node) agents with
                               | None => [ref_error (S k + i) (pa_Ref node)]
                               | Some _ => []
                               end)) by (intros i x _; cbn; by rewrite Nat.add_succ_r).
  rewrite IH. destruct (decide (pa_Ref node = "")) as [Hr|Hr]; [naive_solver|].
  destruct (AgentRegistry.Get (pa_Ref node) agents) eqn:Hg; [naive_solver|]. split; [by intros [? _]|].
  intros H. destruct (H node (or_introl eq_refl)) as [?|[? ?]]; congruence.
Qed.

Lemma validateAgentRefs_nil agents def : validateAgentRefs (Some agents) def = [] ↔
  ∀ node, node ∈ ps_Agents (pd_Spec def) → pa_Ref node = "" ∨ is_Some (AgentRegistry.Get (pa_Ref node) agents).
Proof. apply (refs_from_nil agents (ps_Agents (pd_Spec def)) 0). Qed.

(** A definition whose text the validator takes is a well-formed pipeline. *)
Lemma accepted_pipeline def text rep : yaml_MarshalPipeline def = inr text → ValidateBytes text = Some rep → rep_Errors rep = [] →
  pipeline_ok def.
Proof.
  intros Hm Hv Hnil. destruct (pipeline_reads_back def text Hm) as (Hjson & doc & Hdoc & Hkind & Hdec & Ha & Hs & Hmcp).
  destruct (ValidateBytes_decides text) as (rep' & Hv' & Hrep). rewrite Hv in Hv'. injection Hv' as <-.
  apply Hrep in Hnil as (doc' & (_ & t & Ht & Hdoc') & Hvalid). rewrite Hjson in Ht. injection Ht as <-.
  rewrite Hdoc in Hdoc'. injection Hdoc' as <-.
  destruct Hvalid as [(_ & _ & a & Hda & Hok)|[(_ & _ & d & Hd & Hok)|[(_ & _ & s & Hds & Hok)|(_ & _ & m & Hdm & Hok)]]].
  - exfalso. specialize (Ha a Hda). destruct Hok as (_ & _ & _ & _ & _ & _ & Hb). unfold behavior_ok in Hb. tauto.
  - rewrite Hdec in Hd. by injection Hd as <-.
  - exfalso. destruct (Hs s Hds) as [H1 H2]. destruct Hok as (_ & _ & _ & Hone & _). cbn zeta in Hone. by apply Hone.
  - exfalso. destruct (Hmcp m Hdm) as (H1 & H2 & H3). destruct Hok as (_ & _ & _ & Hsome & _). tauto.
Qed.

(** A saved pipeline: the definition of the body, well formed, its agents known, on top of
    the version the caller named; and what the save leaves. *)
Record saved (rq : PipelineRequest) (env : AgentEnv) (w w' : pipeline_world) (reg : PipelineRegistry)
    (def : PipelineDefinition) (text etag : string) : Prop := {
  sv_known : pw_registry w = Some reg ∧ is_Some (GetPipeline (prq_name rq) reg);
  sv_body : ∃ body, prq_body rq = inr body ∧ json_UnmarshalPipeline body = inr def ∧ yaml_MarshalPipeline def = inr text;
  sv_name : md_Name (pd_Metadata def) = prq_name rq;
  sv_ok : pipeline_ok def;
  sv_refs agents node : pw_agents w = Some agents → node ∈ ps_Agents (pd_Spec def) →
    pa_Ref node = "" ∨ is_Some (AgentRegistry.Get (pa_Ref node) agents);
  sv_version : pipelineVersion (ae_io env) (prq_name rq) reg (pw_fs w) = inr (trim_quotes (prq_IfMatch rq)) ∧
    trim_quotes (prq_IfMatch rq) ≠ "";
  sv_etag : etag = quoted (hashHex text);
  sv_after : deref (ae_new env) = def → ∃ reg', pw_registry w' = Some reg' ∧
    (∀ n, GetPipeline n reg' = if decide (n = prq_name rq) then Some (ae_new env) else GetPipeline n reg) ∧
    PipelineRegistry.Source (prq_name rq) reg' ≠ "" ∧
    pw_fs w' !! PipelineRegistry.Source (prq_name rq) reg' = Some text ∧
    same_documents (pw_fs w') (<[PipelineRegistry.Source (prq_name rq) reg' := text]> (pw_fs w)) ∧
    ∀ io, io_read io (PipelineRegistry.Source (prq_name rq) reg') = None →
      pipelineVersion io (prq_name rq) reg' (pw_fs w') = inr (hashHex text);
  sv_agents : pw_agents w' = pw_agents w
}.

Definition unchanged (w w' : pipeline_world) : Prop :=
  pw_registry w' = pw_registry w ∧ pw_agents w' = pw_agents w ∧ pw_audit w' = pw_audit w ∧ same_documents (pw_fs w') (pw_fs w).

Lemma safe_pipeline_plain name : safePipelineName name = true → name ≠ "" ∧ lacks "/" name = true.
Proof.
  unfold safePipelineName. case_decide as Hn; [done|]. intros [H _]%andb_true_iff. apply negb_true_iff, orb_false_iff in H as [H _].
  split; [tauto|]. apply lacks_slash. intros a b ->. apply not_true_iff_false in H. apply H, str_contains_spec. by exists a, b.
Qed.

Lemma resolveTargetFile_nonempty name reg target : safePipelineName name = true →
  resolveTargetFile AgentsDir wd name reg = inr target → target ≠ "".
Proof.
  intros [Hne Hfree]%safe_pipeline_plain. unfold resolveTargetFile. case_decide as Hs; [by intros [= <-]|].
  case_decide as Hd; [done|]. case_match; [done|]. intros [= <-].
  assert (plain (name +:+ ".yaml")) as Hplain by (by apply plain_with_ext).
  intros Hnil. pose proof (last_element_join AgentsDir (name +:+ ".yaml") Hd Hplain) as Hl. rewrite Hnil in Hl. by destruct Hplain as [Hp _].
Qed.

(** Every request to update a pipeline is answered. Either it changes nothing, or a
    well-formed pipeline with known agents is saved, over the very version the request
    names; it is served at once, its file holds its text, and the tag of the answer is the
    version from then on. *)
Theorem updates_checked rq p env w : slash_free (ae_random env) →
  ∃ w' code etag body, UpdatePipeline AgentsDir wd rq p env w = Some (w', (code, etag, body)) ∧
    (code = 200%Z ∧ (∃ reg def text tag, etag = Some tag ∧ saved rq env w w' reg def text tag) ∨
     code ≠ 200%Z ∧ unchanged w w').
Proof.
  intros Hr. unfold UpdatePipeline.
  assert (∀ w' code (body : pipeline_body), code ≠ 200%Z → unchanged w w' →
    ∃ w1 c1 (e1 : option string) b1, Some (w', (code, @None string, body)) = Some (w1, (c1, e1, b1)) ∧
      (c1 = 200%Z ∧ (∃ reg def text tag, e1 = Some tag ∧ saved rq env w w1 reg def text tag) ∨ c1 ≠ 200%Z ∧ unchanged w w1)) as Hrefuse.
  { intros w' code body Hc Hu. eexists _, _, _, _. split; [done|]. by right. }
  assert (unchanged w w) as Hsame by done.
  destruct (pw_registry w) as [reg|] eqn:Hreg; [|by apply Hrefuse].
  case_decide; [by apply Hrefuse|]. case_decide as Hknown; [by apply Hrefuse|].
  destruct (prq_body rq) as [err|text0] eqn:Hbody; [by apply Hrefuse|]. case_decide; [by apply Hrefuse|].
  destruct (json_UnmarshalPipeline text0) as [err|def] eqn:Hjson; [by apply Hrefuse|].
  case_decide as Hname; [by apply Hrefuse|].
  destruct (safePipelineName (prq_name rq)) eqn:Hsafe; cbn [negb]; [|by apply Hrefuse].
  destruct (yaml_MarshalPipeline def) as [err|text] eqn:Hm; [by apply Hrefuse|].
  destruct (ValidateBytes_decides text) as (rep & Hv & _). rewrite Hv. cbn [mbind option_bind].
  case_decide as Herr; [by apply Hrefuse|].
  assert (rep_Errors rep = []) as Hnil by (destruct (rep_Errors rep); [done|cbn in Herr; lia]).
  assert (validateAgentRefs (pw_agents w) def = []) as Hrefs by (destruct (validateAgentRefs _ _); [done|cbn in Herr; lia]).
  unfold save_pipeline. destruct (pipelineVersion _ _ _ _) as [err|current] eqn:Hver; [by apply Hrefuse|].
  case_decide as Hmatch; [by apply Hrefuse|]. case_decide as Hcur; [by apply Hrefuse|].
  destruct (resolveTargetFile _ _ _ _) as [err|target] eqn:Htarget; [by apply Hrefuse|].
  pose proof (resolveTargetFile_nonempty _ _ _ Hsafe Htarget) as Hne.
  pose proof (atomic_states_documents (ae_write env) (ae_random env) target text (pw_fs w) Hr) as Hst.
  assert ((atomicWriteFile (ae_write env) (ae_random env) target text (pw_fs w)).2 = None →
    (atomicWriteFile (ae_write env) (ae_random env) target text (pw_fs w)).1 !! target = Some text) as Hwritten.
  { unfold atomicWriteFile, atomic_states. destruct (wf_create _); [done|]. destruct (wf_write _); [done|].
    destruct (wf_close _); [done|]. destruct (wf_rename _); [done|]. intros _. apply lookup_insert_eq. }
  unfold atomicWriteFile in *. destruct (atomic_states _ _ _ _ _) as [states [err|]]; destruct Hst as [_ Hfinal].
  { apply Hrefuse; [done|]. done. }
  specialize (Hwritten eq_refl). cbn [fst] in Hwritten. eexists _, _, _, _. split; [done|]. left. split; [done|].
  exists reg, def, text, (quoted (hashHex text)). split; [done|].
  assert (prq_name rq ≠ "") as Hnn by (by apply safe_pipeline_plain in Hsafe as [? _]).
  split; cbn [pw_registry pw_agents pw_fs]; [split; [done|by apply not_eq_None_Some]|by exists text0|done|by eapply accepted_pipeline| | |done| |done].
  - intros agents node Hag. rewrite Hag in Hrefs. by apply validateAgentRefs_nil.
  - split; [by rewrite Hcur|done].
  - intros Hnew. eexists. split; [done|]. cbn [PipelineRegistry.RegisterWithSource].
    rewrite Hnew, Hname, (decide_False (P := prq_name rq = "")) by done. rewrite (decide_False (P := target = "")) by done.
    assert (PipelineRegistry.Source (prq_name rq) (mkPipelineRegistry (<[prq_name rq := ae_new env]> (pipelines reg))
      (<[prq_name rq := target]> (PipelineRegistry.sources reg))) = target) as Hsrc.
    { unfold PipelineRegistry.Source. cbn [PipelineRegistry.sources]. by rewrite lookup_insert_eq. }
    split; [|rewrite Hsrc; split; [done|split; [done|split; [done|]]]].
    + intros n. unfold GetPipeline. cbn [pipelines]. case_decide as Hn; [subst n; apply lookup_insert_eq|by apply lookup_insert_ne].
    + intros io Hio. unfold pipelineVersion. rewrite Hsrc, decide_True by done. unfold ReadFile. by rewrite Hio, Hwritten.
Qed.

(** No update is lost: of two saves over the same version the second is refused, unless the
    digests of the two texts agree. *)
Theorem no_lost_update rq1 p1 env1 rq2 p2 env2 w w1 w2 tag1 body1 code2 etag2 body2 :
  slash_free (ae_random env1) → slash_free (ae_random env2) → (∀ path, io_read (ae_io env2) path = None) →
  UpdatePipeline AgentsDir wd rq1 p1 env1 w = Some (w1, (200%Z, tag1, body1)) →
  (∀ text def, prq_body rq1 = inr text → json_UnmarshalPipeline text = inr def → deref (ae_new env1) = def) →
  prq_name rq2 = prq_name rq1 → prq_IfMatch rq2 = prq_IfMatch rq1 →
  UpdatePipeline AgentsDir wd rq2 p2 env2 w1 = Some (w2, (code2, etag2, body2)) →
  (∃ text, tag1 = Some (quoted (hashHex text)) ∧ trim_quotes (prq_IfMatch rq1) = hashHex text) ∨ code2 ≠ 200%Z ∧ unchanged w1 w2.
Proof.
  intros Hr1 Hr2 Hio H1 Hnew Hname Hmatch H2.
  destruct (updates_checked rq1 p1 env1 w Hr1) as (w1' & c1 & e1 & b1 & H1' & Hcase1). rewrite H1 in H1'. injection H1' as <- <- <- <-.
  destruct Hcase1 as [[_ (reg & def & text & tag & -> & Hs1)]|[? _]]; [|done].
  destruct (sv_body _ _ _ _ _ _ _ _ Hs1) as (body & Hb & Hj & _).
  destruct (sv_after _ _ _ _ _ _ _ _ Hs1 (Hnew body def Hb Hj)) as (reg' & Hreg' & _ & _ & _ & _ & Hver).
  destruct (updates_checked rq2 p2 env2 w1 Hr2) as (w2' & c2 & e2 & b2 & H2' & Hcase2). rewrite H2 in H2'. injection H2' as <- <- <- <-.
  destruct Hcase2 as [[_ (reg2 & def2 & text2 & tag2 & -> & Hs2)]|?]; [|by right]. left. exists text.
  split; [by rewrite (sv_etag _ _ _ _ _ _ _ _ Hs1)|].
  destruct (sv_version _ _ _ _ _ _ _ _ Hs2) as [Hv _]. destruct (sv_known _ _ _ _ _ _ _ _ Hs2) as [Hk _].
  rewrite Hreg' in Hk. injection Hk as <-. rewrite Hname, Hver in Hv by done. injection Hv as Hv. by rewrite <-Hmatch.
Qed.
End saving.

(** The tag of an answer, echoed as [If-Match], names its version. *)
Lemma etag_echo ver : lacks (ascii_of_nat 34) ver = true → trim_quotes (quoted ver) = ver.
Proof.
  intros Hq. unfold trim_quotes, quoted.
  assert (trim_left_quotes (byte 34 +:+ ver +:+ byte 34) = match ver with "" => "" | _ => ver +:+ byte 34 end) as ->.
  { change (byte 34 +:+ ver +:+ byte 34) with (String (ascii_of_nat 34) (ver +:+ byte 34)). cbn [trim_left_quotes].
    rewrite decide_True by done. destruct ver as [|c ver]; [done|].
    change (String c ver +:+ byte 34) with (String c (ver +:+ byte 34)). cbn [trim_left_quotes lacks] in *.
    apply andb_true_iff in Hq as [Hc _]. apply negb_true_iff, bool_decide_eq_false in Hc. by rewrite decide_False. }
  assert (∀ s, lacks (ascii_of_nat 34) s = true → trim_right_quotes (s +:+ byte 34) = s) as Hright.
  { clear. intros s. induction s as [|c s IH]; [done|]. cbn [lacks]. intros [Hc Hs]%andb_true_iff.
    change (String c s +:+ byte 34) with (String c (s +:+ byte 34)). cbn [trim_right_quotes]. rewrite IH by done.
    apply negb_true_iff, bool_decide_eq_false in Hc. destruct s; [by rewrite decide_False|done]. }
  destruct ver as [|c ver]; [done|]. by apply Hright.
Qed.

Example json_contents :
  isJSONContent "application/json; charset=utf-8" "x" = true ∧ isJSONContent "" (byte 10 +:+ " {") = true ∧ isJSONContent "" "a: {" = false.
Proof. done. Qed.
