(* ===== verification/TenancyHandlers.v ===== *)
(** The management API of tenants, keys, quotas and the audit trail:
    [internal/server/tenancy_handlers.go], [quota_handlers.go], and the way a request takes
    to them through authentication, the role floor of its route and the denial hook of
    [server.go].

    A request says which route the mux matched, its path value, its [except] parameter and
    its body. [encoding/json] is a parameter; a decoder stops at the end of the first value,
    and tells an unfinished value from a broken one. *)

From S2P Require Import Prelude GoBase GoStrings Authz TenancyStore AuditTrail.
From S2P Require LogHandlers Quota.

(** ** Requests and answers *)

Inductive decoded (A : Type) :=
| Value (a : A)
| Broken (err : string)
| Unfinished (err : string).
Arguments Value {A}. Arguments Broken {A}. Arguments Unfinished {A}.

Class TenancyJson := {
  DecodeCreateTenant : string → decoded string;
  DecodeCreateAPIKey : string → decoded (string * Role);
  DecodeRole : string → decoded Role;
  DecodeQuota : string → decoded Quota.Config;
  MarshalAny : value → option string
}.

Record request := mkRequest {
  rq_Method : string; rq_auth : AuthRequest; rq_audit : AuditRequest;
  rq_id : string; rq_except : string; rq_body : string
}.

(** What a request draws and reads off the clock: for its authentication, for the call of
    the store and for the audit records. *)
Record draws := mkDraws {
  dr_resolve : ResolveClock; dr_session : Z;
  dr_id : Z; dr_keys : nat → KeyDraws; dr_now : Z; dr_stamps : nat → Z;
  dr_usage : Quota.Instant * Quota.Instant * Quota.Instant * Quota.Instant
}.

Inductive answer_body :=
| Message (msg : string)
| Tenants (ts : list Tenant)
| TenantBody (t : Tenant)
| Keys (ks : list APIKey)
| NewKey (r : NewAPIKeyResult)
| RoleBody (id : string) (role : Role)
| BulkRotated (count : nat) (results : list NewAPIKeyResult)
| Events (es : list Event)
| QuotaBody (tenant : string) (limits : Quota.Config) (usage : option Quota.UsageSnapshot)
| NoBody.

Definition answer : Type := Z * answer_body.

(** The store, the audit log and the quotas behind the handlers; [B] is what the spend of
    the quotas is kept in. *)
Record world (B : Type) := mkWorld {
  w_store : SQLiteStore; w_audit : option AuditLog; w_quota : option (Quota.Enforcer B)
}.
Arguments mkWorld {B}. Arguments w_store {B}. Arguments w_audit {B}. Arguments w_quota {B}.

Definition set_w_store {B} (s : SQLiteStore) (w : world B) : world B := mkWorld s (w_audit w) (w_quota w).
Definition set_w_audit {B} (a : option AuditLog) (w : world B) : world B := mkWorld (w_store w) a (w_quota w).

Definition maxJSONBodyBytes : nat := 64 * 1024.

(** The body is cut at the limit. *)
Definition decodeJSONBody {A} (Decode : string → decoded A) (body : string) : answer + A :=
  match Decode (str_take maxJSONBodyBytes body) with
  | Value a => inr a
  | Broken err => inl (400%Z, Message ("invalid JSON: " +:+ err))
  | Unfinished err =>
      if decide (maxJSONBodyBytes < String.length body) then inl (413%Z, Message "request body too large")
      else inl (400%Z, Message ("invalid JSON: " +:+ err))
  end.

Definition internal_error : answer := (500%Z, Message "internal error").
Definition authentication_required : answer := (401%Z, Message "authentication required").
Definition invalid_role : answer := (400%Z, Message "invalid role (must be viewer, editor, or admin)").

(** [errors.Is(err, tenancy.ErrNotFound)] is a 404. *)
Definition store_failed (what : string) (e : store_error) : answer :=
  match e with TenancyStore.ErrNotFound _ => (404%Z, Message what) | _ => internal_error end.

Section handlers.
Context {mr : MapRange} {rows : SqlRows} {bcrypt : Bcrypt} {sha : Sha256} {gotime : GoTimeText} {fmt : GoFmt}.
Context {json : TenancyJson} {auditTime : AuditTime} {conv : GoConv} {B : Type}.

Definition MarshalDetails (v : option value) : string := default "" (v ≫= MarshalAny).

(** One audit record of a handler. *)
Definition record (rq : request) (p : option Principal) (kind : EventKind) (target : string) (details : option value)
    (now : Z) (w : world B) : world B :=
  set_w_audit (RecordHTTP (rq_audit rq) p kind target (MarshalDetails details) now (w_audit w)) w.

(** ** The handlers *)

Definition ListTenants (w : world B) : answer := (200%Z, Tenants (TenancyStore.ListTenants (w_store w))).

Definition CreateTenant (rq : request) (p : option Principal) (dr : draws) (w : world B) : world B * answer :=
  match decodeJSONBody DecodeCreateTenant (rq_body rq) with
  | inl a => (w, a)
  | inr name =>
      if decide (name = "") then (w, (400%Z, Message "name is required"))
      else
        let '(s, created) := TenancyStore.CreateTenant name (dr_id dr) (dr_now dr) (w_store w) in
        let w := set_w_store s w in
        match created with
        | inl (ErrConflict _) => (w, (409%Z, Message "tenant name already exists"))
        | inl _ => (w, internal_error)
        | inr tenant =>
            (record rq p EventTenantCreated (te_ID tenant) (Some (VObj [("name", VString (te_Name tenant))]%string))
               (dr_stamps dr 0) w, (201%Z, TenantBody tenant))
        end
  end.

Definition DeleteTenant (rq : request) (p : option Principal) (dr : draws) (w : world B) : world B * answer :=
  let '(s, failed) := TenancyStore.DeleteTenant (rq_id rq) (w_store w) in
  let w := set_w_store s w in
  match failed with
  | Some e => (w, store_failed "tenant not found" e)
  | None => (record rq p EventTenantDeleted (rq_id rq) None (dr_stamps dr 0) w, (204%Z, NoBody))
  end.

(** [ensureOwnTenant]: the path names the caller's tenant. *)
Definition ensureOwnTenant (rq : request) (p : option Principal) : answer + string :=
  match p with
  | None => inl authentication_required
  | Some p => if decide (rq_id rq ≠ p_TenantID p) then inl (404%Z, Message "tenant not found") else inr (rq_id rq)
  end.

Definition ListAPIKeys (rq : request) (p : option Principal) (w : world B) : answer :=
  match ensureOwnTenant rq p with
  | inl a => a
  | inr tenantID => (200%Z, Keys (TenancyStore.ListAPIKeys tenantID (w_store w)))
  end.

Definition CreateAPIKey (rq : request) (p : option Principal) (dr : draws) (w : world B) : world B * answer :=
  match ensureOwnTenant rq p with
  | inl a => (w, a)
  | inr tenantID =>
      match decodeJSONBody DecodeCreateAPIKey (rq_body rq) with
      | inl a => (w, a)
      | inr (name, role) =>
          if negb (IsAssignableViaAPI role) then (w, invalid_role)
          else
            let '(s, result) := TenancyStore.CreateAPIKey tenantID name role (dr_keys dr 0) (dr_now dr) (w_store w) in
            let w := set_w_store s w in
            match result with
            | inl e => (w, store_failed "tenant not found" e)
            | inr r =>
                let key := nk_Key r in
                (record rq p EventAPIKeyCreated (ky_ID key)
                   (Some (VObj [("tenant_id", VString tenantID); ("name", VString (ky_Name key));
                                ("role", VString (ky_Role key)); ("prefix", VString (ky_Prefix key))]%string))
                   (dr_stamps dr 0) w, (201%Z, NewKey r))
            end
      end
  end.

Definition UpdateAPIKeyRole (rq : request) (p : option Principal) (dr : draws) (w : world B) : world B * answer :=
  match p with
  | None => (w, authentication_required)
  | Some pr =>
      match decodeJSONBody DecodeRole (rq_body rq) with
      | inl a => (w, a)
      | inr role =>
          if negb (IsAssignableViaAPI role) then (w, invalid_role)
          else
            let '(s, result) := TenancyStore.UpdateAPIKeyRole (p_TenantID pr) (rq_id rq) role (w_store w) in
            let w := set_w_store s w in
            match result with
            | inl e => (w, store_failed "api key not found" e)
            | inr (prev, next) =>
                (record rq p EventAPIKeyRoleChanged (rq_id rq)
                   (Some (VObj [("from", VString prev); ("to", VString next)]%string)) (dr_stamps dr 0) w,
                 (200%Z, RoleBody (rq_id rq) next))
            end
      end
  end.

(** The details of a rotation, with what tells its route. *)
Definition rotation_details (r : NewAPIKeyResult) (oldPrefix : string) (more : list (string * value)) : value :=
  let key := nk_Key r in
  VObj ([("tenant_id", VString (ky_TenantID key)); ("name", VString (ky_Name key)); ("role", VString (ky_Role key));
         ("old_prefix", VString oldPrefix); ("new_prefix", VString (ky_Prefix key))]%string ++ more).

Definition RotateAPIKey (rq : request) (p : option Principal) (dr : draws) (w : world B) : world B * answer :=
  match p with
  | None => (w, authentication_required)
  | Some pr =>
      let '(s, result) := TenancyStore.RotateAPIKey (p_TenantID pr) (rq_id rq) (dr_keys dr 0) (w_store w) in
      let w := set_w_store s w in
      match result with
      | inl e => (w, store_failed "api key not found" e)
      | inr (r, oldPrefix) =>
          (record rq p EventAPIKeyRotated (ky_ID (nk_Key r)) (Some (rotation_details r oldPrefix [])) (dr_stamps dr 0) w,
           (200%Z, NewKey r))
      end
  end.

(** One record for each rotated key. The store answers the keys with their old prefixes, so
    the check that there are as many of both never fails. *)
Fixpoint record_rotations (rq : request) (p : option Principal) (stamps : nat → Z) (i : nat)
    (rs : list (NewAPIKeyResult * string)) (w : world B) : world B :=
  match rs with
  | [] => w
  | (r, oldPrefix) :: rs =>
      record_rotations rq p stamps (S i) rs
        (record rq p EventAPIKeyRotated (ky_ID (nk_Key r))
           (Some (rotation_details r oldPrefix [("bulk", VBool true)]%string)) (stamps i) w)
  end.

Definition BulkRotateTenantKeys (rq : request) (p : option Principal) (dr : draws) (w : world B) : world B * answer :=
  match ensureOwnTenant rq p with
  | inl a => (w, a)
  | inr tenantID =>
      let keyID := match p with Some pr => p_KeyID pr | None => "" end in
      let excludeIDs := if decide (rq_except rq = "self" ∧ keyID ≠ "") then [keyID] else [] in
      let '(s, result) := TenancyStore.BulkRotateTenantKeys tenantID excludeIDs (dr_keys dr) (w_store w) in
      let w := set_w_store s w in
      match result with
      | inl e => (w, store_failed "tenant not found" e)
      | inr rs => (record_rotations rq p (dr_stamps dr) 0 rs w, (200%Z, BulkRotated (length rs) rs.*1))
      end
  end.

(** [RotateMyAPIKey] and [BurnMyAPIKey] differ in their audit details and their answer. *)
Definition rotate_own (refusal : string) (more : list (string * value)) (ok : NewAPIKeyResult → answer)
    (rq : request) (p : option Principal) (dr : draws) (w : world B) : world B * answer :=
  match p with
  | None => (w, (401%Z, Message refusal))
  | Some pr =>
      if decide (p_KeyID pr = "") then (w, (401%Z, Message refusal))
      else
        let '(s, result) := TenancyStore.RotateAPIKey (p_TenantID pr) (p_KeyID pr) (dr_keys dr 0) (w_store w) in
        let w := set_w_store s w in
        match result with
        | inl e => (w, store_failed "api key not found" e)
        | inr (r, oldPrefix) =>
            (record rq p EventAPIKeyRotated (ky_ID (nk_Key r)) (Some (rotation_details r oldPrefix more)) (dr_stamps dr 0) w, ok r)
        end
  end.

Definition RotateMyAPIKey : request → option Principal → draws → world B → world B * answer :=
  rotate_own "self-rotation requires an authenticated request" [("self", VBool true)]%string (λ r, (200%Z, NewKey r)).

Definition BurnMyAPIKey : request → option Principal → draws → world B → world B * answer :=
  rotate_own "burn requires an authenticated request" [("self", VBool true); ("burn", VBool true)]%string (λ _, (204%Z, NoBody)).

Definition DeleteAPIKey (rq : request) (p : option Principal) (dr : draws) (w : world B) : world B * answer :=
  match p with
  | None => (w, authentication_required)
  | Some pr =>
      let '(s, failed) := TenancyStore.DeleteAPIKey (p_TenantID pr) (rq_id rq) (w_store w) in
      let w := set_w_store s w in
      match failed with
      | Some e => (w, store_failed "api key not found" e)
      | None => (record rq p EventAPIKeyDeleted (rq_id rq) None (dr_stamps dr 0) w, (204%Z, NoBody))
      end
  end.

(** ** Quotas *)

Definition quotas_off : answer := (503%Z, Message "quotas not enabled").

(** [spend] is what the spend of the quotas is kept in. *)
Definition GetQuota (p : option Principal) (dr : draws) (spend : B) (w : world B) : world B * answer :=
  match w_quota w with
  | None => (w, quotas_off)
  | Some e =>
      let tenantID := LogHandlers.callerTenantID p in
      let '(t0, t1, t2, t3) := dr_usage dr in
      let limits := Quota.Effective tenantID e in
      let '(e, usage) := Quota.Usage tenantID t0 t1 t2 t3 e spend in
      (mkWorld (w_store w) (w_audit w) (Some e), (200%Z, QuotaBody tenantID limits (Some usage)))
  end.

(** The limit is that of [decodeJSONBody]; reading past it is one more way the JSON is broken. *)
Definition SetTenantQuota (rq : request) (w : world B) : world B * answer :=
  match w_quota w with
  | None => (w, quotas_off)
  | Some e =>
      let id := rq_id rq in
      if decide (id = "") then (w, (400%Z, Message "missing tenant id"))
      else
        match DecodeQuota (str_take maxJSONBodyBytes (rq_body rq)) with
        | Broken err => (w, (400%Z, Message ("invalid JSON: " +:+ err)))
        | Unfinished err =>
            let err := if decide (maxJSONBodyBytes < String.length (rq_body rq)) then "http: request body too large" else err in
            (w, (400%Z, Message ("invalid JSON: " +:+ err)))
        | Value cfg =>
            if f64_lt (Quota.RatePerSec cfg) f64_zero || bool_decide (Quota.RateBurst cfg < 0)%Z ||
               f64_lt (Quota.MonthlySpendUSD cfg) f64_zero
            then (w, (400%Z, Message "quota values must be non-negative"))
            else
              let '(s, failed) := TenancyStore.SetTenantQuota id cfg (w_store w) in
              match failed with
              | Some e => (set_w_store s w, store_failed "tenant not found" e)
              | None => (mkWorld s (w_audit w) (Some (Quota.SetOverride id cfg e)), (200%Z, QuotaBody id cfg None))
              end
        end
  end.

(** ** Requests *)

Inductive route :=
| RListTenants | RCreateTenant | RDeleteTenant | RListKeys | RCreateKey | RBulkRotate
| RUpdateRole | RRotate | RRotateMine | RBurnMine | RDeleteKey | RAudit (q : audit_query) | RGetQuota | RSetQuota.

Definition pattern_of (r : route) : string :=
  match r with
  | RListTenants => "GET /api/v1/tenants" | RCreateTenant => "POST /api/v1/tenants"
  | RDeleteTenant => "DELETE /api/v1/tenants/{id}"
  | RListKeys => "GET /api/v1/tenants/{id}/keys" | RCreateKey => "POST /api/v1/tenants/{id}/keys"
  | RBulkRotate => "POST /api/v1/tenants/{id}/keys/rotate"
  | RUpdateRole => "PATCH /api/v1/keys/{id}" | RRotate => "POST /api/v1/keys/{id}/rotate"
  | RRotateMine => "POST /api/v1/keys/me/rotate" | RBurnMine => "POST /api/v1/keys/me/burn"
  | RDeleteKey => "DELETE /api/v1/keys/{id}" | RAudit _ => "GET /api/v1/audit"
  | RGetQuota => "GET /api/v1/quota" | RSetQuota => "PUT /api/v1/tenants/{id}/quota"
  end.

Definition handle (r : route) (rq : request) (p : option Principal) (dr : draws) (spend : B) (w : world B) : world B * answer :=
  match r with
  | RListTenants => (w, ListTenants w)
  | RCreateTenant => CreateTenant rq p dr w
  | RDeleteTenant => DeleteTenant rq p dr w
  | RListKeys => (w, ListAPIKeys rq p w)
  | RCreateKey => CreateAPIKey rq p dr w
  | RBulkRotate => BulkRotateTenantKeys rq p dr w
  | RUpdateRole => UpdateAPIKeyRole rq p dr w
  | RRotate => RotateAPIKey rq p dr w
  | RRotateMine => RotateMyAPIKey rq p dr w
  | RBurnMine => BurnMyAPIKey rq p dr w
  | RDeleteKey => DeleteAPIKey rq p dr w
  | RAudit q => let '(status, body) := AuditTrail.ListEvents (w_audit w) p q in
                (w, (status, match body with inl msg => Message msg | inr es => Events es end))
  | RGetQuota => GetQuota p dr spend w
  | RSetQuota => SetTenantQuota rq w
  end.

(** The store as the middleware asks it, at the readings of the clock of one request. *)
Definition auth_error (e : store_error) : AuthError :=
  match e with
  | ErrInvalidKey => Authz.ErrInvalidKey
  | ErrInvalidSession => Authz.ErrInvalidSession
  | ErrNotFound _ => Authz.ErrNotFound
  | ErrConflict text | ErrStore text => Authz.ErrStore text
  end.

Definition tenancy_auth (dr : draws) : AuthStore SQLiteStore := {|
  Authz.Resolve token s :=
    let '(s, a) := TenancyStore.Resolve token (dr_resolve dr) s in
    (s, match a with inl e => inl (auth_error e) | inr p => inr p end);
  Authz.ResolveSession token s :=
    let '(s, a) := TenancyStore.ResolveSession token (dr_session dr) s in
    (s, match a with inl e => inl (auth_error e) | inr p => inr p end)
|}.

(** The denial hook: one event for each refusal. *)
Definition denied (rq : request) (p : option Principal) (now : Z) (w : world B) (d : denial) : world B :=
  record rq p EventAuthDenied (rq_Method rq +:+ " " +:+ ar_Path (rq_auth rq))
    (Some (VObj [("status_code", VInt d.1); ("reason", VString d.2)]%string)) now w.

(** A request on the way to its handler: authentication when there are tenants, then the
    role check mounted before the handler, [serve_managed] of [Authz] with its refusals
    recorded. The request of the second one has its principal. *)
Definition let_in (multiTenant : bool) (m : mounted) (rq : request) (dr : draws) (w : world B) : world B * AuthAnswer :=
  let auth := tenancy_auth dr in
  let '(w, a) :=
    if multiTenant then
      let '(s, (events, a)) := AuthMiddleware (Some skipAuth) (rq_auth rq) (w_store w) in
      (foldl (denied rq None (dr_stamps dr 0)) (set_w_store s w) events, a)
    else (w, Next None) in
  match a, m with
  | Next p, Guarded floor =>
      let '(events, a) := RequireRole floor p in (foldl (denied rq p (dr_stamps dr 0)) w events, a)
  | _, _ => (w, a)
  end.

Definition manage (multiTenant : bool) (m : mounted) (r : route) (rq : request) (dr : draws) (spend : B) (w : world B)
  : world B * answer :=
  match let_in multiTenant m rq dr w with
  | (w, Denied status msg) => (w, (status, Message msg))
  | (w, Next p) => handle r rq p dr spend w
  end.
End handlers.
