(* ===== verification/TenancyManagement.v ===== *)
(** What the management API guarantees: a request changes the rows of its caller's tenant
    only, never makes a key a platform key, and leaves a record of every change in the
    audit trail; a refused one changes nothing and is recorded too. *)

From S2P Require Import Prelude GoBase GoStrings Authz TenancyStore AuditTrail TenancyHandlers.
From S2P Require LogHandlers Quota TenancyHistory.

(** ** Rows without their stamps *)

Definition unstamp (k : key_row) : key_row :=
  mkKeyRow (ak_id k) (ak_tenant k) (ak_name k) (ak_prefix k) (ak_hash k) (ak_role k) (ak_created k) None.

(** Equal up to the stamps of last use and to the sessions. *)
Record same_rows (d d' : database) : Prop := {
  sr_tenants : tenants d' = tenants d;
  sr_keys : unstamp <$> api_keys d' = unstamp <$> api_keys d;
  sr_users : users d' = users d;
  sr_quotas : tenant_quotas d' = tenant_quotas d;
  sr_spend : tenant_spend d' = tenant_spend d
}.

#[export] Instance same_rows_preorder : PreOrder same_rows.
Proof. split; [by split|]. intros a b c [] []. split; by etransitivity. Qed.

Lemma same_rows_ids d d' : same_rows d d' → ak_id <$> api_keys d' = ak_id <$> api_keys d.
Proof.
  intros H. pose proof (f_equal (fmap ak_id) (sr_keys _ _ H)) as Hk. by rewrite <-!list_fmap_compose in Hk.
Qed.

Lemma same_rows_key d d' k : same_rows d d' → k ∈ api_keys d' → ∃ k0, k0 ∈ api_keys d ∧ unstamp k0 = unstamp k.
Proof.
  intros H Hk. assert (unstamp k ∈ unstamp <$> api_keys d) as Hin
    by (rewrite <-(sr_keys _ _ H); apply list_elem_of_fmap; by exists k).
  apply list_elem_of_fmap in Hin as (k0 & -> & Hk0). by exists k0.
Qed.

(** ** A change of the keys of one tenant *)

Record key_change (t : string) (targets : list string) (d d' : database) : Prop := {
  kc_tenants : tenants d' = tenants d;
  kc_users : users d' = users d;
  kc_quotas : tenant_quotas d' = tenant_quotas d;
  kc_nodup : NoDup (ak_id <$> api_keys d) → NoDup (ak_id <$> api_keys d');
  kc_others k : NoDup (ak_id <$> api_keys d) → ak_tenant k ≠ t → k ∈ api_keys d' ↔ k ∈ api_keys d;
  kc_platform k : k ∈ api_keys d' → ak_role k = RolePlatform →
    ∃ k0, k0 ∈ api_keys d ∧ ak_id k0 = ak_id k ∧ ak_role k0 = RolePlatform;
  kc_targets k : ak_id k ∉ targets → k ∈ api_keys d' ↔ k ∈ api_keys d
}.

Lemma key_change_refl t targets d : key_change t targets d d.
Proof. split; try done. intros k Hk Hr. by exists k. Qed.

Lemma key_change_trans t l1 l2 d1 d2 d3 : key_change t l1 d1 d2 → key_change t l2 d2 d3 → key_change t (l1 ++ l2) d1 d3.
Proof.
  intros [Ht1 Hu1 Hq1 Hn1 Ho1 Hp1 Hg1] [Ht2 Hu2 Hq2 Hn2 Ho2 Hp2 Hg2]. split; try congruence.
  - tauto.
  - intros k Hn Hk. rewrite Ho2 by tauto. by apply Ho1.
  - intros k Hk Hr. destruct (Hp2 k Hk Hr) as (k2 & Hk2 & <- & Hr2). by apply Hp1.
  - intros k Hk. rewrite elem_of_app in Hk. rewrite Hg2 by tauto. apply Hg1. tauto.
Qed.

(** The row with a key's id is the one that was found. *)
Lemma row_of_id d k k' : NoDup (ak_id <$> api_keys d) → k ∈ api_keys d → k' ∈ api_keys d → ak_id k = ak_id k' → k = k'.
Proof.
  intros Hnd Hk Hk' Hid. apply list_elem_of_lookup in Hk as [i Hi], Hk' as [j Hj].
  assert (i = j) as ->; [|congruence].
  eapply NoDup_lookup; [exact Hnd|..]; rewrite list_lookup_fmap; [by rewrite Hi|]. rewrite Hj. simpl. by rewrite Hid.
Qed.

Lemma elem_of_update_keys (P : key_row → Prop) `{!∀ k, Decision (P k)} f d k :
  k ∈ api_keys (update_keys P f d) ↔ ∃ k0, k0 ∈ api_keys d ∧ k = if decide (P k0) then f k0 else k0.
Proof. unfold update_keys, with_keys. cbn [api_keys]. rewrite list_elem_of_fmap. naive_solver. Qed.

(** Updating the row of a key of tenant [t] in place. *)
Lemma update_change (P : key_row → Prop) `{!∀ k, Decision (P k)} f d t id found :
  found ∈ api_keys d → ak_id found = id → ak_tenant found = t →
  (∀ k, P k → ak_id k = id) → (∀ k, ak_id (f k) = ak_id k) → (∀ k, ak_tenant (f k) = ak_tenant k) →
  (∀ k, ak_role (f k) = RolePlatform → ak_role k = RolePlatform) →
  key_change t [id] d (update_keys P f d).
Proof.
  intros Hf Hid Ht HP Hfid Hft Hfr. split; try done.
  - intros Hnd. unfold update_keys, with_keys. cbn [api_keys]. rewrite <-list_fmap_compose.
    rewrite (list_fmap_ext _ ak_id); [done|]. intros i k _. simpl. by case_decide; rewrite ?Hfid.
  - intros k Hnd Hk. rewrite elem_of_update_keys.
    assert (∀ k0, k0 ∈ api_keys d → P k0 → ak_tenant k0 = t) as Hown.
    { intros k0 Hk0 HP0. rewrite <-Ht. f_equal. eapply row_of_id; [done..|]. rewrite Hid. by apply HP. }
    split.
    + intros (k0 & Hk0 & ->). case_decide as HP0; [|done]. destruct Hk. rewrite Hft. by apply Hown.
    + intros Hin. exists k. split; [done|]. rewrite decide_False; [done|]. intros HP0. by destruct Hk; apply Hown.
  - intros k. rewrite elem_of_update_keys. intros (k0 & Hk0 & ->) Hr. exists k0.
    split; [done|]. case_decide; [rewrite Hfid; auto|done].
  - intros k Hk. rewrite elem_of_update_keys. rewrite list_elem_of_singleton in Hk. split.
    + intros (k0 & Hk0 & ->). case_decide as HP0; [|done]. destruct Hk. rewrite Hfid. by apply HP.
    + intros Hin. exists k. split; [done|]. rewrite decide_False; [done|]. intros HP0. by apply Hk, HP.
Qed.

Section store.
Context {mr : MapRange} {rows : SqlRows} {bcrypt : Bcrypt} {sha : Sha256} {gotime : GoTimeText} {fmt : GoFmt}.

Lemma found_row t id d k : find_key t id d = Some k → k ∈ api_keys d ∧ ak_id k = id ∧ ak_tenant k = t.
Proof.
  unfold find_key. intros H. apply head_Some_elem_of in H. rewrite sql_rows_perm, list_elem_of_filter in H. tauto.
Qed.

(** What a successful call of the store changed; a failed one changes nothing. *)
Definition changed {A} (t : string) (targets : A → list string) (s : SQLiteStore) (r : SQLiteStore * (store_error + A)) : Prop :=
  match r.2 with inl _ => r.1 = s | inr a => key_change t (targets a) (db s) (db r.1) end.

Lemma create_changed t name role dr now s : role ≠ RolePlatform →
  changed t (λ r, [ky_ID (nk_Key r)]) s (TenancyStore.CreateAPIKey t name role dr now s).
Proof.
  intros Hrole. unfold TenancyStore.CreateAPIKey, changed. destruct (IsValid role); cbn [negb]; [|done].
  destruct (GetTenant t s); [done|]. destruct (generateAPIKey dr) as [plaintext prefix].
  destruct (GenerateFromPassword _ _) as [hash|]; [|done]. case_decide as Hnew; [done|].
  cbn [fst snd with_db db nk_Key ky_ID]. set (id := randID "key" (kd_id dr)) in *. set (row := mkKeyRow _ _ _ _ _ _ _ _).
  split; try done; cbn [with_keys api_keys].
  - intros Hnd. rewrite fmap_app. apply NoDup_app. split; [done|]. split; [|apply NoDup_singleton].
    by intros x Hx ->%list_elem_of_singleton.
  - intros k _ Hk. rewrite elem_of_app, list_elem_of_singleton. split; [|by left]. intros [?| ->]; [done|by destruct Hk].
  - intros k [Hk| ->%list_elem_of_singleton]%elem_of_app Hr; [by exists k|done].
  - intros k Hk. rewrite list_elem_of_singleton in Hk. rewrite elem_of_app, list_elem_of_singleton.
    split; [|by left]. by intros [?| ->].
Qed.

Lemma role_changed t id role s : role ≠ RolePlatform →
  changed t (λ _, [id]) s (TenancyStore.UpdateAPIKeyRole t id role s).
Proof.
  intros Hrole. unfold TenancyStore.UpdateAPIKeyRole, changed. destruct (IsValid role); cbn [negb]; [|done].
  destruct (find_key t id (db s)) as [k|] eqn:Hf; [|done]. apply found_row in Hf as (Hk & Hid & Ht).
  cbn [fst snd flushed with_db db]. eapply update_change; try done. by intros k' [? _].
Qed.

Lemma secret_change t prefix hash d k id : k ∈ api_keys d → ak_id k = id → ak_tenant k = t →
  key_change t [id] d (update_keys (λ k', ak_id k' = id) (set_secret prefix hash) d).
Proof. intros. by eapply update_change. Qed.

Lemma rotate_changed t id dr s : changed t (λ r, [ky_ID (nk_Key r.1)]) s (TenancyStore.RotateAPIKey t id dr s).
Proof.
  unfold TenancyStore.RotateAPIKey, changed. destruct (find_key t id (db s)) as [k|] eqn:Hf; [|done].
  apply found_row in Hf as (Hk & Hid & Ht). destruct (generateAPIKey dr) as [plaintext prefix].
  destruct (GenerateFromPassword _ _) as [hash|]; [|done].
  cbn [fst snd flushed with_db db rotated nk_Key ky_ID]. rewrite Hid. by eapply secret_change.
Qed.

Lemma apply_rotations_change t rots d results :
  (∀ rot, rot ∈ rots → ak_tenant rot.1 = t ∧ ∃ k, k ∈ api_keys d ∧ ak_id k = ak_id rot.1 ∧ ak_tenant k = t) →
  let '(d', results') := foldl apply_rotation (d, results) rots in
  ∃ more, results' = results ++ more ∧ key_change t ((λ r, ky_ID (nk_Key r.1)) <$> more) d d'.
Proof.
  revert d results. induction rots as [|rot rots IH]; intros d results Hr.
  { exists []. rewrite app_nil_r. split; [done|apply key_change_refl]. }
  cbn [foldl]. destruct (apply_rotation (d, results) rot) as [d1 results1] eqn:Ha.
  destruct (Hr rot) as (Ht & k & Hk & Hid & Hkt); [by left|]. unfold apply_rotation in Ha.
  destruct rot as [k0 [[prefix plaintext] hash]]. cbn [fst] in *.
  rewrite decide_True in Ha by (apply list_elem_of_fmap; by exists k). injection Ha as <- <-.
  specialize (IH (update_keys (λ k', ak_id k' = ak_id k0) (set_secret prefix hash) d)
    (results ++ [(rotated k0 prefix plaintext, ak_prefix k0)])).
  destruct (foldl apply_rotation _ rots) as [d' results']. destruct IH as (more & -> & Hc).
  - intros rot Hrot. destruct (Hr rot) as (Ht' & k' & Hk' & Hid' & Hkt'); [by right|]. split; [done|].
    exists (if decide (ak_id k' = ak_id k0) then set_secret prefix hash k' else k').
    split; [apply elem_of_update_keys; by exists k'|]. by case_decide.
  - eexists (_ :: more). rewrite <-app_assoc. split; [done|]. cbn [fmap list_fmap].
    apply (key_change_trans t [_] _ d (update_keys (λ k', ak_id k' = ak_id k0) (set_secret prefix hash) d) d'); [|done].
    cbn [fst rotated nk_Key ky_ID]. by eapply secret_change.
Qed.

Lemma rotations_keys draws i ks rots : rotations draws i ks = Some rots → rots.*1 = ks.
Proof.
  revert i rots. induction ks as [|k ks IH]; intros i rots; [by intros [= <-]|]. cbn [rotations].
  destruct (generateAPIKey (draws i)) as [plaintext prefix]. intros H.
  apply bind_Some in H as (hash & _ & H). apply bind_Some in H as (rest & Hrest & [= <-]).
  cbn [fmap list_fmap fst]. f_equal. by eapply IH.
Qed.

Lemma bulk_changed t exclude draws s :
  changed t (λ rs, (λ r, ky_ID (nk_Key r.1)) <$> rs) s (TenancyStore.BulkRotateTenantKeys t exclude draws s).
Proof.
  unfold TenancyStore.BulkRotateTenantKeys, changed. destruct (GetTenant t s); [done|].
  set (existing := sort_by ak_created String.le _). case_decide; [apply key_change_refl|].
  destruct (rotations draws 0 existing) as [rots|] eqn:Hrots; [|done].
  pose proof (apply_rotations_change t rots (db s) []) as Hc.
  destruct (foldl apply_rotation (db s, []) rots) as [d' results]. cbn [fst snd flushed with_db db].
  destruct Hc as (more & -> & Hc); [|done]. intros rot Hrot.
  assert (rot.1 ∈ existing) as Hin by (rewrite <-(rotations_keys _ _ _ _ Hrots); apply list_elem_of_fmap; by exists rot).
  unfold existing in Hin. rewrite elem_of_sort_by, sql_rows_perm, list_elem_of_filter in Hin.
  destruct Hin as [[Ht _] Hin]. split; [done|]. by exists rot.1.
Qed.

Lemma delete_key_changed t id s :
  let '(s', failed) := TenancyStore.DeleteAPIKey t id s in
  match failed with Some _ => s' = s | None => key_change t [id] (db s) (db s') end.
Proof.
  unfold TenancyStore.DeleteAPIKey. case_decide; [|done].
  cbn [flushed with_db db]. split; try done; cbn [with_keys api_keys].
  - intros Hnd. eapply sublist_NoDup; [done|]. apply fmap_sublist, sublist_filter.
  - intros k _ Hk. rewrite list_elem_of_filter. tauto.
  - intros k [_ Hk]%list_elem_of_filter Hr. by exists k.
  - intros k Hk. rewrite list_elem_of_singleton in Hk. rewrite list_elem_of_filter. tauto.
Qed.
End store.

(** ** Authentication only stamps *)

(** What lookups keep, authentication keeps. *)
Lemma AuthMiddleware_keeps {S} {store : AuthStore S} (R : S → S → Prop) `{!PreOrder R} r st :
  (∀ token st, R st (Authz.Resolve token st).1) → (∀ token st, R st (Authz.ResolveSession token st).1) →
  R st (AuthMiddleware (Some skipAuth) r st).1.
Proof.
  intros Hres Hses.
  assert (∀ token st, R st (resolveBearer token st).1) as Hb by (intros token st'; unfold resolveBearer; by case_match).
  unfold AuthMiddleware. destruct (skipAuth r).
  - unfold bestEffortPrincipal.
    set (one := if decide (ExtractAPIKey r ≠ "") then _ else _).
    assert (R st one.1) as H1.
    { unfold one. case_decide; [|done]. pose proof (Hb (ExtractAPIKey r) st). by destruct (resolveBearer _ _). }
    destruct one as [st1 [p|]]; [done|]. cbn [fst] in H1. case_decide; [|done].
    pose proof (Hses (extractSessionToken r) st1) as H2. destruct (Authz.ResolveSession _ _). by etransitivity.
  - case_decide.
    + pose proof (Hb (ExtractAPIKey r) st). by destruct (resolveBearer _ _).
    + case_decide; [|done]. pose proof (Hses (extractSessionToken r) st). by destruct (Authz.ResolveSession _ _).
Qed.

Section management.
Context {mr : MapRange} {rows : SqlRows} {bcrypt : Bcrypt} {sha : Sha256} {gotime : GoTimeText} {fmt : GoFmt}.
Context {json : TenancyJson} {auditTime : AuditTime} {conv : GoConv} {B : Type}.
Implicit Types (w : world B) (rq : request).

Lemma resolve_stamps token clock s : same_rows (db s) (db (TenancyStore.Resolve token clock s).1).
Proof.
  unfold TenancyStore.Resolve. destruct (well_formed_key token); [|done]. cbn [negb].
  destruct (AuthCache.Get _ _ _ _) as [c [p|]]; [done|]. unfold verify.
  destruct (find _ _) as [k|]; [|done]. cbn [fst db]. case_match; [|done].
  split; try done. unfold update_keys, with_keys. cbn [api_keys]. rewrite <-list_fmap_compose.
  apply list_fmap_ext. intros i k' _. simpl. by case_decide.
Qed.

Lemma resolve_session_stamps token now s : same_rows (db s) (db (TenancyStore.ResolveSession token now s).1).
Proof.
  unfold TenancyStore.ResolveSession. destruct (has_prefix _ _); [|done]. cbn [negb].
  destruct (head _) as [x|]; [|done]. by case_match.
Qed.

Lemma auth_stamps dr r s : same_rows (db s) (db (AuthMiddleware (store := tenancy_auth dr) (Some skipAuth) r s).1).
Proof.
  assert (PreOrder (λ s s', same_rows (db s) (db s'))) as Hpre.
  { split; [by intros ?|]. intros s1 s2 s3. apply same_rows_preorder. }
  apply (AuthMiddleware_keeps (λ s s', same_rows (db s) (db s'))).
  - intros token s'. cbn [Authz.Resolve tenancy_auth]. pose proof (resolve_stamps token (dr_resolve dr) s').
    by destruct (TenancyStore.Resolve _ _ _).
  - intros token s'. cbn [Authz.ResolveSession tenancy_auth]. pose proof (resolve_session_stamps token (dr_session dr) s').
    by destruct (TenancyStore.ResolveSession _ _ _).
Qed.

(** ** Records *)

(** The audit log got one record of a kind for each target, in the name of a principal. *)
Definition recorded (p : option Principal) (kinds : list (EventKind * string)) w w' : Prop :=
  match w_audit w with
  | None => w_audit w' = None
  | Some a => ∃ rs next, w_audit w' = Some (mkAuditLog (events a ++ rs) next) ∧
      (λ r, (ar_kind r, ar_target r)) <$> rs = kinds ∧
      Forall (λ r, ar_tenant r = ac_TenantID (principalToActor p) ∧ ar_key r = ac_KeyID (principalToActor p)) rs
  end.

Lemma recorded_refl p w w' : w_audit w' = w_audit w → recorded p [] w w'.
Proof.
  intros H. unfold recorded. rewrite H. destruct (w_audit w) as [[es n]|]; [|done].
  exists [], n. by rewrite app_nil_r.
Qed.

Lemma recorded_trans p l1 l2 w1 w2 w3 : recorded p l1 w1 w2 → recorded p l2 w2 w3 → recorded p (l1 ++ l2) w1 w3.
Proof.
  unfold recorded. destruct (w_audit w1) as [a1|]; [|by intros ->]. intros (rs1 & n1 & -> & <- & HF1).
  cbn [events]. intros (rs2 & n2 & -> & <- & HF2). exists (rs1 ++ rs2), n2. rewrite app_assoc, fmap_app.
  split; [done|]. split; [done|]. by apply Forall_app.
Qed.

Lemma record_recorded rq p kind target details now w : Valid kind = true →
  recorded p [(kind, target)] w (record rq p kind target details now w).
Proof.
  intros Hv. unfold recorded, record, RecordHTTP, Record_, set_w_audit. cbn [w_audit].
  destruct (w_audit w) as [a|]; [|done]. cbn [fmap option_fmap option_map Append ev_Kind ev_Timestamp ev_Actor ev_Target ev_Details].
  rewrite Hv. cbn [negb fst]. eexists [_], _. split; [done|]. split; [done|]. apply Forall_singleton.
  cbn [ar_tenant ar_key]. unfold named. by repeat (case_decide; cbn [ac_TenantID ac_KeyID]).
Qed.

Lemma record_rotations_recorded rq p stamps i rs w :
  recorded p ((λ r, (EventAPIKeyRotated, ky_ID (nk_Key r.1))) <$> rs) w (record_rotations rq p stamps i rs w).
Proof.
  revert i w. induction rs as [|[r old] rs IH]; intros i w; [by apply recorded_refl|].
  cbn [record_rotations fmap list_fmap]. eapply (recorded_trans p [_]); [|apply IH]. by apply record_recorded.
Qed.

Lemma record_store rq p kind target details now w : w_store (record rq p kind target details now w) = w_store w.
Proof. done. Qed.

Lemma record_rotations_store rq p stamps i rs w : w_store (record_rotations rq p stamps i rs w) = w_store w.
Proof. revert i w. induction rs as [|[r old] rs IH]; intros i w; [done|]. cbn [record_rotations]. by rewrite IH. Qed.
(** ** Handlers *)

(** What a handler may do for a principal. *)
Record served (p : Principal) (w w' : world B) (status : Z) : Prop := {
  sv_nodup : NoDup (ak_id <$> api_keys (db (w_store w))) → NoDup (ak_id <$> api_keys (db (w_store w')));
  sv_platform k : k ∈ api_keys (db (w_store w')) → ak_role k = RolePlatform →
    ∃ k0, k0 ∈ api_keys (db (w_store w)) ∧ ak_id k0 = ak_id k ∧ ak_role k0 = RolePlatform;
  sv_failed : (400 ≤ status)%Z → w' = w;
  sv_confined : p_Role p ≠ RolePlatform → NoDup (ak_id <$> api_keys (db (w_store w))) →
    tenants (db (w_store w')) = tenants (db (w_store w)) ∧ users (db (w_store w')) = users (db (w_store w)) ∧
    tenant_quotas (db (w_store w')) = tenant_quotas (db (w_store w)) ∧
    ∀ k, ak_tenant k ≠ p_TenantID p → k ∈ api_keys (db (w_store w')) ↔ k ∈ api_keys (db (w_store w));
  sv_recorded : ∃ kinds, recorded (Some p) kinds w w' ∧
    (∀ k, ak_id k ∉ kinds.*2 → ak_tenant k ∉ kinds.*2 → k ∈ api_keys (db (w_store w')) ↔ k ∈ api_keys (db (w_store w))) ∧
    (∀ t, tn_id t ∉ kinds.*2 → t ∈ tenants (db (w_store w')) ↔ t ∈ tenants (db (w_store w)))
}.

Lemma served_reading p w w' status : w_store w' = w_store w → w_audit w' = w_audit w → ((400 ≤ status)%Z → w' = w) →
  served p w w' status.
Proof.
  intros Hs Ha Hf. split; rewrite ?Hs; try done.
  - intros k Hk Hr. by exists k.
  - exists []. split; [by apply recorded_refl|done].
Qed.

Lemma served_nothing p w status : served p w w status.
Proof. by apply served_reading. Qed.

Lemma served_keys p w w' kinds status : (status < 400)%Z →
  key_change (p_TenantID p) kinds.*2 (db (w_store w)) (db (w_store w')) → recorded (Some p) kinds w w' →
  served p w w' status.
Proof.
  intros Hst [Ht Hu Hq Hn Ho Hp Hg] Hrec. split; try done; try lia.
  - intros _ Hnd. split_and!; try done. intros k Hk. by apply Ho.
  - exists kinds. split; [done|]. split; [|by rewrite Ht]. intros k Hk _. by apply Hg.
Qed.

Lemma set_w_store_id w : set_w_store (w_store w) w = w.
Proof. by destruct w. Qed.

(** The role every route asks for. *)
Definition floor_of (r : route) : Role :=
  match r with
  | RListTenants | RCreateTenant | RDeleteTenant | RSetQuota => RolePlatform
  | RListKeys => RoleEditor
  | RRotateMine | RBurnMine | RGetQuota => RoleViewer
  | RCreateKey | RBulkRotate | RUpdateRole | RRotate | RDeleteKey | RAudit _ => RoleAdmin
  end.

Lemma floors r : managementRouteFloors !! pattern_of r = Some (floor_of r) ∧ floor_of r ≠ roleOpen.
Proof. destruct r; by vm_compute. Qed.

Lemma assignable role : negb (IsAssignableViaAPI role) = false → role ≠ RolePlatform.
Proof. intros H ->. by vm_compute in H. Qed.

Lemma create_tenant_served rq p dr w : p_Role p = RolePlatform →
  let '(w', (status, _)) := CreateTenant rq (Some p) dr w in served p w w' status.
Proof.
  intros Hp. unfold CreateTenant. destruct (decodeJSONBody _ _) as [[code msg]|name]; [apply served_nothing|].
  case_decide; [apply served_nothing|]. unfold TenancyStore.CreateTenant.
  rewrite decide_False by done. case_decide as Hc; [rewrite set_w_store_id; apply served_nothing|].
  cbn [te_ID te_Name]. set (id := randID "ten" (dr_id dr)) in *. split; try done.
  - intros k Hk Hr. by exists k.
  - exists [(EventTenantCreated, id)]. split; [by apply (record_recorded rq (Some p) _ _ _ _ (set_w_store _ w))|].
    split; [done|]. cbn [fmap list_fmap snd record set_w_audit w_store set_w_store with_db db tenants].
    intros t Ht. rewrite list_elem_of_singleton in Ht. rewrite elem_of_app, list_elem_of_singleton.
    split; [|by left]. by intros [?| ->].
Qed.

Lemma delete_tenant_served rq p dr w : p_Role p = RolePlatform →
  let '(w', (status, _)) := DeleteTenant rq (Some p) dr w in served p w w' status.
Proof.
  intros Hp. unfold DeleteTenant, TenancyStore.DeleteTenant.
  case_decide as Hin; [|rewrite set_w_store_id; apply served_nothing].
  split; try done; cbn [record set_w_audit w_store set_w_store flushed with_db db cascade_tenant api_keys tenants].
  - intros Hnd. eapply sublist_NoDup; [done|]. apply fmap_sublist, sublist_filter.
  - intros k [_ Hk]%list_elem_of_filter Hr. by exists k.
  - exists [(EventTenantDeleted, rq_id rq)]. split; [by apply (record_recorded rq (Some p) _ _ _ _ (set_w_store _ w))|].
    cbn [fmap list_fmap snd]. split.
    + intros k _ Hk. rewrite list_elem_of_singleton in Hk. rewrite list_elem_of_filter. tauto.
    + intros t Ht. rewrite list_elem_of_singleton in Ht. rewrite list_elem_of_filter. tauto.
Qed.

Lemma own_tenant rq p t : ensureOwnTenant rq (Some p) = inr t → t = p_TenantID p.
Proof.
  unfold ensureOwnTenant. destruct (decide (rq_id rq = p_TenantID p)) as [Heq|Hne].
  - rewrite decide_False by (intros H; by apply H). intros [= <-]. done.
  - by rewrite decide_True.
Qed.

Lemma call_failed p w s fail e : s = w_store w →
  let '(w', (status, _)) := (set_w_store s w, store_failed fail e) in served p w w' status.
Proof. intros ->. rewrite set_w_store_id. destruct (store_failed fail e). apply served_nothing. Qed.

(** A call that changed one key, with its record. *)
Lemma call_recorded rq p w s kind id details now status : (status < 400)%Z → Valid kind = true →
  key_change (p_TenantID p) [id] (db (w_store w)) (db s) →
  served p w (record rq (Some p) kind id details now (set_w_store s w)) status.
Proof.
  intros Hst Hv Hc. apply (served_keys p w _ [(kind, id)]); [done|exact Hc|].
  by apply (record_recorded rq (Some p) _ _ _ _ (set_w_store s w)).
Qed.

Lemma rotate_own_served refusal more ok rq p dr w : (∀ r, ((ok r).1 < 400)%Z) →
  let '(w', (status, _)) := rotate_own refusal more ok rq (Some p) dr w in served p w w' status.
Proof.
  intros Hok. unfold rotate_own. case_decide; [apply served_nothing|].
  pose proof (rotate_changed (p_TenantID p) (p_KeyID p) (dr_keys dr 0) (w_store w)) as Hc. unfold changed in Hc.
  destruct (TenancyStore.RotateAPIKey _ _ _ _) as [s [e|[r old]]]; cbn [fst snd] in Hc; [by apply call_failed|].
  specialize (Hok r). destruct (ok r) as [status body]. by apply call_recorded.
Qed.

Lemma set_quota_served rq p w : p_Role p = RolePlatform →
  let '(w', (status, _)) := SetTenantQuota rq w in served p w w' status.
Proof.
  intros Hp. unfold SetTenantQuota. destruct (w_quota w) as [q|]; [|apply served_nothing].
  case_decide; [apply served_nothing|]. destruct (DecodeQuota _) as [cfg|err|err]; [|apply served_nothing..].
  destruct (f64_lt _ _ || _ || _); [apply served_nothing|]. unfold TenancyStore.SetTenantQuota.
  destruct (GetTenant (rq_id rq) (w_store w)); [by apply call_failed|].
  split; try done.
  - intros k Hk Hr. by exists k.
  - exists []. split; [by apply recorded_refl|done].
Qed.

Lemma handle_served r rq p dr spend w : AtLeast (p_Role p) (floor_of r) = true →
  let '(w', (status, _)) := handle r rq (Some p) dr spend w in served p w w' status.
Proof.
  intros Hfloor. destruct r; cbn [handle floor_of] in *.
  - apply served_nothing.
  - apply create_tenant_served. by apply AtLeast_platform.
  - apply delete_tenant_served. by apply AtLeast_platform.
  - unfold ListAPIKeys. destruct (ensureOwnTenant rq (Some p)) as [[]|]; apply served_nothing.
  - unfold CreateAPIKey. destruct (ensureOwnTenant rq (Some p)) as [[]|t] eqn:Hown; [apply served_nothing|].
    apply own_tenant in Hown as ->.
    destruct (decodeJSONBody _ _) as [[]|[name role]]; [apply served_nothing|].
    destruct (negb (IsAssignableViaAPI role)) eqn:Hr; [apply served_nothing|]. apply assignable in Hr.
    pose proof (create_changed (p_TenantID p) name role (dr_keys dr 0) (dr_now dr) (w_store w) Hr) as Hc. unfold changed in Hc.
    destruct (TenancyStore.CreateAPIKey _ _ _ _ _ _) as [s [e|key]]; cbn [fst snd] in Hc; [by apply call_failed|by apply call_recorded].
  - unfold BulkRotateTenantKeys. destruct (ensureOwnTenant rq (Some p)) as [[]|t] eqn:Hown; [apply served_nothing|].
    apply own_tenant in Hown as ->. set (exclude := if decide _ then _ else _).
    pose proof (bulk_changed (p_TenantID p) exclude (dr_keys dr) (w_store w)) as Hc. unfold changed in Hc.
    destruct (TenancyStore.BulkRotateTenantKeys _ _ _ _) as [s [e|rs]]; cbn [fst snd] in Hc; [by apply call_failed|].
    eapply served_keys; [done| |apply (record_rotations_recorded rq (Some p) _ _ _ (set_w_store s w))].
    rewrite record_rotations_store, <-list_fmap_compose. exact Hc.
  - unfold UpdateAPIKeyRole. destruct (decodeJSONBody _ _) as [[]|role]; [apply served_nothing|].
    destruct (negb (IsAssignableViaAPI role)) eqn:Hr; [apply served_nothing|]. apply assignable in Hr.
    pose proof (role_changed (p_TenantID p) (rq_id rq) role (w_store w) Hr) as Hc. unfold changed in Hc.
    destruct (TenancyStore.UpdateAPIKeyRole _ _ _ _) as [s [e|[prev next]]]; cbn [fst snd] in Hc; [by apply call_failed|by apply call_recorded].
  - unfold RotateAPIKey.
    pose proof (rotate_changed (p_TenantID p) (rq_id rq) (dr_keys dr 0) (w_store w)) as Hc. unfold changed in Hc.
    destruct (TenancyStore.RotateAPIKey _ _ _ _) as [s [e|[key old]]]; cbn [fst snd] in Hc; [by apply call_failed|by apply call_recorded].
  - by apply rotate_own_served.
  - by apply rotate_own_served.
  - unfold DeleteAPIKey. pose proof (delete_key_changed (p_TenantID p) (rq_id rq) (w_store w)) as Hc.
    destruct (TenancyStore.DeleteAPIKey _ _ _) as [s [e|]]; [by apply call_failed|by apply call_recorded].
  - destruct (AuditTrail.ListEvents _ _ _) as [status body]. apply served_nothing.
  - unfold GetQuota. destruct (w_quota w) as [q|]; [|apply served_nothing].
    destruct (dr_usage dr) as [[[t0 t1] t2] t3]. destruct (Quota.Usage _ _ _ _ _ _ _) as [q' usage].
    by apply served_reading.
  - apply set_quota_served. by apply AtLeast_platform.
Qed.
(** ** Requests *)

(** A request on its way: the rows are those before, up to stamps, and one refusal is one
    record. *)
Lemma admitted r rq dr w :
  let '(w1, a) := let_in true (Guarded (floor_of r)) rq dr w in
  same_rows (db (w_store w)) (db (w_store w1)) ∧
  match a with
  | Denied _ _ => ∃ p, recorded p [(EventAuthDenied, rq_Method rq +:+ " " +:+ ar_Path (rq_auth rq))]%string w w1
  | Next None => False
  | Next (Some p) =>
      w_audit w1 = w_audit w ∧ w_quota w1 = w_quota w ∧ vouched (store := tenancy_auth dr) (rq_auth rq) p ∧
      AtLeast (p_Role p) (floor_of r) = true
  end.
Proof.
  unfold let_in. pose proof (auth_stamps dr (rq_auth rq) (w_store w)) as Hrows.
  pose proof (AuthMiddleware_answer (store := tenancy_auth dr) (rq_auth rq) (w_store w)) as Hans.
  destruct (AuthMiddleware (Some skipAuth) (rq_auth rq) (w_store w)) as [s [evs [code msg|p]]]; cbn [fst] in Hrows.
  { destruct Hans as (_ & reason & -> & _). split; [done|]. exists None.
    by apply (record_recorded rq None _ _ _ _ (set_w_store s w)). }
  destruct p as [p|].
  - destruct Hans as [-> Hv]. cbn [foldl]. unfold RequireRole. destruct (AtLeast (p_Role p) (floor_of r)) eqn:Hal; [done|].
    split; [done|]. exists (Some p). by apply (record_recorded rq (Some p) _ _ _ _ (set_w_store s w)).
  - destruct Hans as [-> _]. split; [done|]. exists None. by apply (record_recorded rq None _ _ _ _ (set_w_store s w)).
Qed.

Lemma mounted_floor c mux r m : registerRoutes c = Some mux → sc_tenancyH c = true → mux !! pattern_of r = Some m →
  m = Guarded (floor_of r).
Proof.
  intros Hmux Hc Hm. destruct (mount_all _ _ _ _ Hmux _ _ Hm) as [H|(floor & Hf & ->)]; [by rewrite lookup_empty in H|].
  destruct (floors r) as [Hf' Hopen]. rewrite Hf' in Hf. injection Hf as <-. rewrite Hc.
  by rewrite bool_decide_false.
Qed.

End management.

(** ** A request *)

#[local] Existing Instances canonical_range amd64_conv.
#[local] Existing Instances TenancyHistory.rows_in_order TenancyHistory.clear_bcrypt TenancyHistory.plain_sha256
  TenancyHistory.second_texts TenancyHistory.bare_fmt.

(** The body is the value it stands for; details are not marshalled. *)
#[local] Instance bare_json : TenancyJson := {|
  DecodeCreateTenant s := Value s; DecodeCreateAPIKey s := Value (s, RoleViewer); DecodeRole s := Value s;
  DecodeQuota s := Broken s; MarshalAny _ := None
|}.
#[local] Instance bare_time : AuditTime := {|
  date_text := TenancyHistory.seconds_text; ParseRFC3339Nano _ := None; ParseSince s := inl s
|}.

Definition some_key (n : Z) : string := (generateAPIKey (TenancyHistory.some_draws n)).1.

(** A tenant that holds an administrator's key and, as the tenant of the operator does, a
    platform key. *)
Definition operator_world : world unit :=
  mkWorld (TenancyHistory.run_tenancy
    [TenancyHistory.OpCreateTenant "acme" 1 0;
     TenancyHistory.OpCreateAPIKey TenancyHistory.acme "ops" RoleAdmin (TenancyHistory.some_draws 2) 0;
     TenancyHistory.OpCreateAPIKey TenancyHistory.acme "root" RolePlatform (TenancyHistory.some_draws 3) 0]
    (mkStore empty_database (Some (AuthCache.newAuthCache 0 0)))).1 (Some empty_log) None.

Definition some_request (path id : string) : request :=
  mkRequest "POST" (mkAuthRequest path ("Bearer " +:+ some_key 2) "" "" None) (mkAuditRequest "" "10.0.0.1:5") id "" "".

Definition some_request_draws : draws :=
  mkDraws TenancyHistory.tick 1 9 (λ i, TenancyHistory.some_draws 7) 1 (λ i, 1%Z)
    (Quota.mkInstant 0 0, Quota.mkInstant 0 0, Quota.mkInstant 0 0, Quota.mkInstant 0 0).

Definition tenancy_config : ServerConfig := mkServerConfig true true false false false false.

(** The administrator rotates the platform key of its own tenant: it is answered the new
    secret, with which it is the platform. *)
Definition rotate_root : world unit * answer :=
  manage true (Guarded RoleAdmin) RRotate (some_request "/api/v1/keys/key_0000000000000003/rotate" TenancyHistory.second_key)
    some_request_draws tt operator_world.

Example rotation_escalates :
  match rotate_root with
  | (w, (status, NewKey r)) =>
      bool_decide (status = 200%Z) && bool_decide (ky_Role (nk_Key r) = RolePlatform) &&
      bool_decide (TenancyHistory.accepted (nk_Plaintext r) (w_store w) = Some (TenancyHistory.second_key, RolePlatform))
  | _ => false
  end = true.
Proof. vm_compute. reflexivity. Qed.

