(* ===== verification/ResponsesStream.v ===== *)
(** The stream of the OpenAI Responses API, [internal/adapter/responses_stream.go], with
    the response objects of [responses.go] it replays: numbered, named events that open,
    fill and close each item of the output, and the client that reads them back.

    Texts the code echoes verbatim ([json.RawMessage]) are strings; the payloads, maps in
    the code, are the constructors of [payload], and their [type] and [sequence_number]
    are fields of the event. *)

From S2P Require Import Prelude GoBase GoFloat GoStrings AgentTypes ToolProcessor ResponseGenerator StreamCore.

(** ** Response objects *)

(** An echoed text, or the value that stands for it when there is none. *)
Inductive echo := Raw (text : string) | Default (v : value).

Record ResponsesUsage := mkResponsesUsage {
  rus_InputTokens : Z; rus_CachedTokens : Z; rus_OutputTokens : Z; rus_ReasoningTokens : Z; rus_TotalTokens : Z
}.

Record responseOutputText := mkOutputText { rot_Type : string; rot_Text : string; rot_Annotations : list value }.
Record responseRefusalPart := mkRefusalPart { rrp_Type : string; rrp_Refusal : string }.

(** The values of a message's content. *)
Inductive content_part := TextPart (p : responseOutputText) | RefusalPart (p : responseRefusalPart).

Record responseMessageItem := mkMessageItem {
  rmi_Type : string; rmi_ID : string; rmi_Status : string; rmi_Role : string; rmi_Content : list content_part
}.

Record responseFunctionCallItem := mkFunctionCallItem {
  rfi_Type : string; rfi_ID : string; rfi_CallID : string; rfi_Name : string; rfi_Arguments : string; rfi_Status : string
}.

(** The values of an output. *)
Inductive output_item := MessageItem (m : responseMessageItem) | FunctionCallItem (f : responseFunctionCallItem).

Record ResponsesResponse := mkResponsesResponse {
  rr_ID : string;
  rr_Object : string;
  rr_CreatedAt : Z;
  rr_Status : string;
  rr_Error : value;
  rr_IncompleteDetails : value;
  rr_Instructions : option string;
  rr_MaxOutputTokens : option Z;
  rr_Model : string;
  rr_Output : list output_item;
  rr_ParallelToolCalls : bool;
  rr_PreviousResponseID : option string;
  rr_Reasoning : echo;
  rr_Store : bool;
  rr_Temperature : float64;
  rr_Text : echo;
  rr_ToolChoice : echo;
  rr_Tools : list string;
  rr_TopP : float64;
  rr_Truncation : string;
  rr_Usage : ResponsesUsage;
  rr_User : option string;
  rr_Metadata : list (string * value)
}.

(** ** Events *)

Inductive payload :=
| PResponse (response : ResponsesResponse)
| PItem (output_index : nat) (item : output_item)
| PPart (item_id : string) (output_index content_index : nat) (part : content_part)
| PTextDelta (item_id : string) (output_index content_index : nat) (delta : string)
| PTextDone (item_id : string) (output_index content_index : nat) (text : string)
| PRefusalDelta (item_id : string) (output_index content_index : nat) (delta : string)
| PRefusalDone (item_id : string) (output_index content_index : nat) (refusal : string)
| PArgsDelta (item_id : string) (output_index : nat) (delta : string)
| PArgsDone (item_id : string) (output_index : nat) (arguments : string).

Record responses_event := mkResponsesEvent { rv_type : string; rv_seq : Z; rv_payload : payload }.

Section stream.
Context {rand : GoRandV2} {E : Type} {fl : Faults E}.
Open Scope stream_scope.

Abbreviation frame := (frame responses_event).
Abbreviation M := (@M responses_event rand E).

(** [emit], with the counter it captures: the next number is its answer. *)
Definition emit (seq : Z) (eventType : string) (p : payload) : M Z :=
  WriteEvent eventType (mkResponsesEvent eventType seq p);; ret (wrap64 (seq + 1)).

Definition sleepResponses (d : Z) : M unit := effect (if decide (d ≤ 0)%Z then [] else [Sleep d]).

Definition chunkArguments (s : string) (size : Z) : list string :=
  if decide (size ≤ 0)%Z then [s]
  else if decide (String.length s = 0) then [s]
  else split_loop (String.length s) (Z.to_nat size) s 0.

Definition firstContentPart (item : responseMessageItem) : option content_part := head (rmi_Content item).

(** A loop over deltas. *)
Fixpoint emit_deltas (eventType : string) (delta : string → payload) (delay : Z) (chunks : list string) (seq : Z) : M Z :=
  match chunks with
  | [] => ret seq
  | chunk :: chunks =>
      ctxErr;;
      sleepResponses delay;;
      seq <- emit seq eventType (delta chunk);
      emit_deltas eventType delta delay chunks seq
  end.

Definition opening_message (item : responseMessageItem) : output_item :=
  MessageItem (mkMessageItem "message" (rmi_ID item) "in_progress" (rmi_Role item) []).

Definition streamMessageItem (idx : nat) (item : responseMessageItem) (chunkSize delay seq : Z) : M Z :=
  seq <- emit seq "response.output_item.added" (PItem idx (opening_message item));
  seq <- match firstContentPart item with
         | Some (TextPart part) =>
             seq <- emit seq "response.content_part.added"
                      (PPart (rmi_ID item) idx 0 (TextPart (mkOutputText "output_text" "" [])));
             seq <- emit_deltas "response.output_text.delta" (PTextDelta (rmi_ID item) idx 0) delay
                      (Chunk (NewChunker chunkSize) (rot_Text part)) seq;
             seq <- emit seq "response.output_text.done" (PTextDone (rmi_ID item) idx 0 (rot_Text part));
             emit seq "response.content_part.done" (PPart (rmi_ID item) idx 0 (TextPart part))
         | Some (RefusalPart part) =>
             seq <- emit seq "response.content_part.added"
                      (PPart (rmi_ID item) idx 0 (RefusalPart (mkRefusalPart "refusal" "")));
             seq <- emit seq "response.refusal.delta" (PRefusalDelta (rmi_ID item) idx 0 (rrp_Refusal part));
             seq <- emit seq "response.refusal.done" (PRefusalDone (rmi_ID item) idx 0 (rrp_Refusal part));
             emit seq "response.content_part.done" (PPart (rmi_ID item) idx 0 (RefusalPart part))
         | None => ret seq
         end;
  emit seq "response.output_item.done" (PItem idx (MessageItem item)).

Definition opening_call (item : responseFunctionCallItem) : output_item :=
  FunctionCallItem (mkFunctionCallItem "function_call" (rfi_ID item) (rfi_CallID item) (rfi_Name item) "" "in_progress").

Definition streamFunctionCallItem (idx : nat) (item : responseFunctionCallItem) (delay seq : Z) : M Z :=
  seq <- emit seq "response.output_item.added" (PItem idx (opening_call item));
  seq <- emit_deltas "response.function_call_arguments.delta" (PArgsDelta (rfi_ID item) idx) delay
           (chunkArguments (rfi_Arguments item) 20) seq;
  seq <- emit seq "response.function_call_arguments.done" (PArgsDone (rfi_ID item) idx (rfi_Arguments item));
  emit seq "response.output_item.done" (PItem idx (FunctionCallItem item)).

(** The loop over the output. *)
Fixpoint stream_items (chunkSize delay : Z) (idx : nat) (items : list output_item) (seq : Z) : M Z :=
  match items with
  | [] => ret seq
  | item :: items =>
      ctxErr;;
      seq <- match item with
             | MessageItem it => streamMessageItem idx it chunkSize delay seq
             | FunctionCallItem it => streamFunctionCallItem idx it delay seq
             end;
      stream_items chunkSize delay (S idx) items seq
  end.

Definition responsesSnapshot (out : ResponsesResponse) (status : string) (output : list output_item) : ResponsesResponse :=
  mkResponsesResponse (rr_ID out) (rr_Object out) (rr_CreatedAt out) status (rr_Error out) (rr_IncompleteDetails out)
    (rr_Instructions out) (rr_MaxOutputTokens out) (rr_Model out) output (rr_ParallelToolCalls out)
    (rr_PreviousResponseID out) (rr_Reasoning out) (rr_Store out) (rr_Temperature out) (rr_Text out) (rr_ToolChoice out)
    (rr_Tools out) (rr_TopP out) (rr_Truncation out) (rr_Usage out) (rr_User out) (rr_Metadata out).

Definition final_event (out : ResponsesResponse) : string :=
  if decide (rr_Status out = "incomplete") then "response.incomplete" else "response.completed".

Definition streamResponses (flusher : bool) (out : ResponsesResponse) (streamCfg : option StreamingConfig) : M unit :=
  if negb flusher then fail ErrNotFlusher
  else
    let delay := duration_ms (stream_delay streamCfg) in
    let pending := responsesSnapshot out "in_progress" [] in
    seq <- emit 0 "response.created" (PResponse pending);
    seq <- emit seq "response.in_progress" (PResponse pending);
    seq <- stream_items (stream_chunk_size streamCfg) delay 0 (rr_Output out) seq;
    emit seq (final_event out) (PResponse out);; ret tt.

(** ** What the stream writes *)

(** The events of an item, without their numbers. *)
Definition deltas (eventType : string) (delta : string → payload) (chunks : list string) : list (string * payload) :=
  (λ chunk, (eventType, delta chunk)) <$> chunks.

Definition part_events (idx : nat) (item : responseMessageItem) (chunkSize : Z) : list (string * payload) :=
  match firstContentPart item with
  | Some (TextPart part) =>
      [("response.content_part.added", PPart (rmi_ID item) idx 0 (TextPart (mkOutputText "output_text" "" [])))]%string ++
      deltas "response.output_text.delta" (PTextDelta (rmi_ID item) idx 0) (Chunk (NewChunker chunkSize) (rot_Text part)) ++
      [("response.output_text.done", PTextDone (rmi_ID item) idx 0 (rot_Text part));
       ("response.content_part.done", PPart (rmi_ID item) idx 0 (TextPart part))]%string
  | Some (RefusalPart part) =>
      [("response.content_part.added", PPart (rmi_ID item) idx 0 (RefusalPart (mkRefusalPart "refusal" "")));
       ("response.refusal.delta", PRefusalDelta (rmi_ID item) idx 0 (rrp_Refusal part));
       ("response.refusal.done", PRefusalDone (rmi_ID item) idx 0 (rrp_Refusal part));
       ("response.content_part.done", PPart (rmi_ID item) idx 0 (RefusalPart part))]%string
  | None => []
  end.

Definition item_events (chunkSize : Z) (idx : nat) (item : output_item) : list (string * payload) :=
  match item with
  | MessageItem it =>
      [("response.output_item.added"%string, PItem idx (opening_message it))] ++ part_events idx it chunkSize ++
      [("response.output_item.done"%string, PItem idx item)]
  | FunctionCallItem it =>
      [("response.output_item.added"%string, PItem idx (opening_call it))] ++
      deltas "response.function_call_arguments.delta" (PArgsDelta (rfi_ID it) idx) (chunkArguments (rfi_Arguments it) 20) ++
      [("response.function_call_arguments.done"%string, PArgsDone (rfi_ID it) idx (rfi_Arguments it));
       ("response.output_item.done"%string, PItem idx item)]
  end.

Fixpoint items_events (chunkSize : Z) (idx : nat) (items : list output_item) : list (string * payload) :=
  match items with
  | [] => []
  | item :: items => item_events chunkSize idx item ++ items_events chunkSize (S idx) items
  end.

Definition responses_events (out : ResponsesResponse) (cfg : option StreamingConfig) : list (string * payload) :=
  let pending := responsesSnapshot out "in_progress" [] in
  [("response.created", PResponse pending); ("response.in_progress", PResponse pending)]%string ++
  items_events (stream_chunk_size cfg) 0 (rr_Output out) ++ [(final_event out, PResponse out)].

(** The events with their numbers, and the number after them. *)
Fixpoint numbered (seq : Z) (evs : list (string * payload)) : list frame :=
  match evs with
  | [] => []
  | (t, p) :: evs => Event t (mkResponsesEvent t seq p) :: numbered (wrap64 (seq + 1)) evs
  end.

Fixpoint advance (seq : Z) (evs : list (string * payload)) : Z :=
  match evs with [] => seq | _ :: evs => advance (wrap64 (seq + 1)) evs end.

Lemma numbered_app seq evs evs' : numbered seq (evs ++ evs') = numbered seq evs ++ numbered (advance seq evs) evs'.
Proof. revert seq. induction evs as [|[t p] evs IH]; intros seq; [done|]. simpl. by rewrite IH. Qed.

Lemma advance_app seq evs evs' : advance seq (evs ++ evs') = advance (advance seq evs) evs'.
Proof. revert seq. induction evs as [|[t p] evs IH]; intros seq; [done|]. simpl. by rewrite IH. Qed.

(** A part of the stream writes some events and answers the number after them. *)
Definition emits (m : Z → M Z) (evs : list (string * payload)) : Prop :=
  ∀ seq, runs (m seq) (numbered seq evs) (advance seq evs) false.

Lemma emits_ret : emits ret [].
Proof. intros seq. apply runs_ret. Qed.

Lemma emits_emit t p : emits (λ seq, emit seq t p) [(t, p)].
Proof. intros seq. apply (runs_bind _ _ [_] [] tt); [apply runs_event|apply runs_ret]. Qed.

Lemma emits_then (m k : Z → M Z) evs evs' : emits m evs → emits k evs' → emits (λ seq, bind (m seq) k) (evs ++ evs').
Proof. intros Hm Hk seq. rewrite numbered_app, advance_app. by eapply runs_bind. Qed.

Lemma emits_deltas t delta d chunks : emits (emit_deltas t delta d chunks) (deltas t delta chunks).
Proof.
  induction chunks as [|c chunks IH]; [apply emits_ret|]. intros seq. cbn [emit_deltas].
  apply (runs_bind _ _ [] _ tt); [apply runs_ctxErr|]. apply (runs_bind _ _ [] _ tt); [exact (runs_sleep d)|].
  apply (emits_then (λ seq, emit seq t (delta c)) _ [(t, delta c)]); [apply emits_emit|exact IH].
Qed.

Lemma emits_item chunkSize d idx item :
  emits (λ seq, match item with
                | MessageItem it => streamMessageItem idx it chunkSize d seq
                | FunctionCallItem it => streamFunctionCallItem idx it d seq
                end) (item_events chunkSize idx item).
Proof.
  destruct item as [it|it]; unfold streamMessageItem, streamFunctionCallItem; cbn [item_events].
  - apply emits_then; [apply emits_emit|]. apply (emits_then _ _ (part_events idx it chunkSize)); [|apply emits_emit].
    unfold part_events. destruct (firstContentPart it) as [[part|part]|]; [| |apply emits_ret].
    + apply emits_then; [apply emits_emit|]. apply emits_then; [apply emits_deltas|].
      apply (emits_then _ _ [_] [_]); apply emits_emit.
    + do 3 (apply (emits_then _ _ [_]); [apply emits_emit|]). apply emits_emit.
  - apply emits_then; [apply emits_emit|]. apply emits_then; [apply emits_deltas|].
    apply (emits_then _ _ [_] [_]); apply emits_emit.
Qed.

Lemma emits_items chunkSize d idx items : emits (stream_items chunkSize d idx items) (items_events chunkSize idx items).
Proof.
  revert idx. induction items as [|item items IH]; intros idx; [apply emits_ret|]. intros seq. cbn [stream_items items_events].
  apply (runs_bind _ _ [] _ tt); [apply runs_ctxErr|]. apply (emits_then _ _ _ _ (emits_item chunkSize d idx item) (IH (S idx))).
Qed.

Lemma responses_runs out cfg : runs (streamResponses true out cfg) (numbered 0 (responses_events out cfg)) tt false.
Proof.
  unfold streamResponses, responses_events. cbv zeta. cbn [negb]. set (pending := responsesSnapshot _ _ _).
  apply (runs_bind _ _ [_] _ _ _ _ (emits_emit _ _ 0%Z)). apply (runs_bind _ _ [_] _ _ _ _ (emits_emit _ _ _)).
  cbn [advance]. set (n := wrap64 _). clearbody n. rewrite numbered_app.
  eapply runs_bind; [apply emits_items|]. eapply runs_bind_end; [apply emits_emit|done].
Qed.

(** ** A client *)

(** The output so far, each item with the text of its deltas; an item that is open. *)
Definition received := list (output_item * string).

Inductive rclient :=
| RStart
| RCreated (r : ResponsesResponse)
| ROutput (r : ResponsesResponse) (items : received)
| RItem (r : ResponsesResponse) (items : received) (opened : output_item) (text : string)
| REnd (r : ResponsesResponse) (items : received).

Definition item_id (item : output_item) : string :=
  match item with MessageItem m => rmi_ID m | FunctionCallItem f => rfi_ID f end.

Definition item_status (item : output_item) : string :=
  match item with MessageItem m => rmi_Status m | FunctionCallItem f => rfi_Status f end.

(** An event that concerns the open item, and the text it adds. *)
Definition item_delta (idx : nat) (id t : string) (p : payload) : option string :=
  let here i o := bool_decide (i = id ∧ o = idx) in
  match p with
  | PPart i o _ _ => if here i o && bool_decide (t ∈ ["response.content_part.added"; "response.content_part.done"]%string) then Some ""%string else None
  | PTextDelta i o _ s => if here i o && bool_decide (t = "response.output_text.delta"%string) then Some s else None
  | PTextDone i o _ _ => if here i o && bool_decide (t = "response.output_text.done"%string) then Some ""%string else None
  | PRefusalDelta i o _ s => if here i o && bool_decide (t = "response.refusal.delta"%string) then Some s else None
  | PRefusalDone i o _ _ => if here i o && bool_decide (t = "response.refusal.done"%string) then Some ""%string else None
  | PArgsDelta i o s => if here i o && bool_decide (t = "response.function_call_arguments.delta"%string) then Some s else None
  | PArgsDone i o _ => if here i o && bool_decide (t = "response.function_call_arguments.done"%string) then Some ""%string else None
  | _ => None
  end.

Definition rclient_step (c : rclient) (ev : string * payload) : option rclient :=
  let '(t, p) := ev in
  match c, p with
  | RStart, PResponse r =>
      if decide (t = "response.created" ∧ rr_Status r = "in_progress" ∧ rr_Output r = [])%string then Some (RCreated r) else None
  | RCreated r, PResponse r' =>
      if decide (t = "response.in_progress"%string) then Some (ROutput r []) else None
  | ROutput r items, PItem idx item =>
      if decide (t = "response.output_item.added"%string ∧ idx = length items ∧ item_status item = "in_progress"%string)
      then Some (RItem r items item ""%string) else None
  | ROutput r items, PResponse r' =>
      if decide (rr_ID r' = rr_ID r ∧ length (rr_Output r') = length items ∧
                 t = if decide (rr_Status r' = "incomplete") then "response.incomplete" else "response.completed")%string
      then Some (REnd r' items) else None
  | RItem r items opened text, PItem idx item =>
      if decide (t = "response.output_item.done"%string ∧ idx = length items ∧ item_id item = item_id opened)
      then Some (ROutput r (items ++ [(item, text)])) else None
  | RItem r items opened text, p =>
      (λ s, RItem r items opened (text +:+ s)%string) <$> item_delta (length items) (item_id opened) t p
  | _, _ => None
  end.

(** It also checks that the numbers are consecutive, and the names those of the events. *)
Fixpoint read_responses (c : rclient) (seq : Z) (fs : list frame) : option rclient :=
  match fs with
  | [] => Some c
  | Event t ev :: fs =>
      if decide (rv_type ev = t ∧ rv_seq ev = seq) then
        c ← rclient_step c (t, rv_payload ev); read_responses c (wrap64 (seq + 1)) fs
      else None
  | _ => None
  end.

Fixpoint rclient_steps (c : rclient) (evs : list (string * payload)) : option rclient :=
  match evs with [] => Some c | ev :: evs => c ← rclient_step c ev; rclient_steps c evs end.

Lemma read_numbered c seq evs : read_responses c seq (numbered seq evs) = rclient_steps c evs.
Proof.
  revert c seq. induction evs as [|[t p] evs IH]; intros c seq; [done|]. cbn [numbered read_responses rclient_steps].
  rewrite decide_True by done. cbn [rv_payload]. destruct (rclient_step c (t, p)); [apply IH|done].
Qed.

Lemma rclient_steps_app c evs evs' : rclient_steps c (evs ++ evs') = rclient_steps c evs ≫= λ c, rclient_steps c evs'.
Proof. revert c. induction evs as [|ev evs IH]; intros c; [done|]. simpl. destruct (rclient_step c ev); [apply IH|done]. Qed.

(** Deltas of the open item. *)
Lemma steps_deltas r items opened text t (delta : string → payload) chunks :
  (∀ c, item_delta (length items) (item_id opened) t (delta c) = Some c) →
  (∀ c idx item, delta c ≠ PItem idx item) →
  rclient_steps (RItem r items opened text) (deltas t delta chunks) = Some (RItem r items opened (text +:+ cat chunks)%string).
Proof.
  intros Hd Hp. revert text. induction chunks as [|c chunks IH]; intros text; [simpl; by rewrite str_app_nil_r|].
  unfold deltas. cbn [fmap list_fmap rclient_steps].
  assert (rclient_step (RItem r items opened text) (t, delta c) = Some (RItem r items opened (text +:+ c)%string)) as ->.
  { specialize (Hd c). specialize (Hp c). destruct (delta c) eqn:Heq; cbn [rclient_step]; try (rewrite Hd; done).
    by exfalso; eapply Hp. }
  cbn [mbind option_bind]. unfold deltas in IH. rewrite IH. change (cat (c :: chunks)) with (c +:+ cat chunks)%string. by rewrite str_app_assoc.
Qed.

(** What the deltas of an item add up to. *)
Definition delta_text (item : output_item) : string :=
  match item with
  | MessageItem it =>
      match firstContentPart it with
      | Some (TextPart part) => if decide (rot_Text part = "") then "" else words_of (rot_Text part)
      | Some (RefusalPart part) => rrp_Refusal part
      | None => ""
      end
  | FunctionCallItem it => rfi_Arguments it
  end%string.

Lemma chunkArguments_cat s size : cat (chunkArguments s size) = s.
Proof. exact (chunkString_cat s size). Qed.

(** Reads the events of an open message one by one. *)
Ltac client_steps :=
  repeat (cbn [rclient_steps rclient_step item_delta opening_message item_id rmi_ID
               andb fmap option_fmap option_map mbind option_bind];
          rewrite ?bool_decide_true by set_solver).

Lemma steps_part r items chunkSize it :
  rclient_steps (RItem r items (opening_message it) "") (part_events (length items) it chunkSize) =
  Some (RItem r items (opening_message it) (delta_text (MessageItem it))).
Proof.
  unfold part_events, delta_text. destruct (firstContentPart it) as [[part|part]|]; [| |done].
  - cbn [app]. client_steps. rewrite rclient_steps_app, steps_deltas; [|
      intros c; cbn [item_delta]; by rewrite !bool_decide_true by done|done].
    client_steps. rewrite !str_app_nil_r. do 2 f_equal.
    rewrite <-(Chunk_text chunkSize (rot_Text part)). case_decide as He; [by rewrite He|]. done.
  - client_steps. by rewrite !str_app_nil_r.
Qed.

Lemma steps_item r items chunkSize item :
  rclient_steps (ROutput r items) (item_events chunkSize (length items) item) =
  Some (ROutput r (items ++ [(item, delta_text item)])).
Proof.
  destruct item as [it|it]; cbn [item_events].
  - cbn [app rclient_steps rclient_step]. rewrite decide_True by done. cbn [mbind option_bind].
    rewrite rclient_steps_app, steps_part. cbn [mbind option_bind rclient_steps rclient_step].
    by rewrite decide_True by done.
  - cbn [app rclient_steps rclient_step]. rewrite decide_True by done. cbn [mbind option_bind].
    rewrite rclient_steps_app, steps_deltas; [|intros c; cbn [item_delta]; by rewrite !bool_decide_true by done|done].
    cbn [mbind option_bind rclient_steps rclient_step item_delta item_id opening_call]. rewrite !bool_decide_true by done.
    cbn [andb fmap option_fmap option_map mbind option_bind]. rewrite decide_True by done. cbn [mbind option_bind].
    rewrite str_app_nil_r. by rewrite chunkArguments_cat.
Qed.

Lemma steps_items r items chunkSize rest :
  rclient_steps (ROutput r items) (items_events chunkSize (length items) rest) =
  Some (ROutput r (items ++ ((λ item, (item, delta_text item)) <$> rest))).
Proof.
  revert items. induction rest as [|item rest IH]; intros items; [by rewrite app_nil_r|]. cbn [items_events].
  rewrite rclient_steps_app, steps_item. cbn [mbind option_bind]. specialize (IH (items ++ [(item, delta_text item)])).
  rewrite length_app, Nat.add_comm in IH. cbn [length Nat.add] in IH. rewrite IH, <-(assoc_L (++)). done.
Qed.

(** What a client makes of a complete stream. *)
Lemma read_responses_complete out cfg :
  read_responses RStart 0 (numbered 0 (responses_events out cfg)) =
  Some (REnd out ((λ item, (item, delta_text item)) <$> rr_Output out)).
Proof.
  rewrite read_numbered. unfold responses_events. cbv zeta. set (pending := responsesSnapshot out "in_progress" []).
  transitivity (rclient_steps (ROutput pending [])
    (items_events (stream_chunk_size cfg) 0 (rr_Output out) ++ [(final_event out, PResponse out)])); [done|].
  rewrite rclient_steps_app, (steps_items _ [] _ (rr_Output out)).
  cbn [app mbind option_bind rclient_steps rclient_step]. rewrite decide_True; [done|].
  split_and!; [done|by rewrite length_fmap|done].
Qed.

End stream.
