(* ===== verification/Responses.v ===== *)
(** The OpenAI Responses API, [internal/adapter/responses.go]: the handler over the
    engine, with the store of conversations behind [previous_response_id].

    The texts the request keeps raw are strings, empty when absent; decoding them is the
    class [ResponsesJson]. *)

From S2P Require Import Prelude GoBase GoFloat GoStrings AgentTypes ToolProcessor Chaos.
From S2P Require Import ResponseGenerator Engine StreamCore AdapterCore BoundedStore ResponsesStream.
From S2P Require Capture ScenarioMatcher AgentRegistry OpenAIAdapter Streaming.

Definition ProtocolOpenAIResponses : string := "openai-responses".

(** ** Requests *)

Record ResponsesRequest := mkResponsesRequest {
  rq_Model : string;
  rq_Input : string;
  rq_Instructions : option string;
  rq_Tools : list string;
  rq_ToolChoice : string;
  rq_PreviousResponseID : option string;
  rq_Stream : bool;
  rq_Temperature : option float64;
  rq_TopP : option float64;
  rq_MaxOutputTokens : option Z;
  rq_Metadata : option (list (string * value));
  rq_Store : option bool;
  rq_ParallelToolCalls : option bool;
  rq_Text : string;
  rq_Reasoning : string;
  rq_User : option string
}.

Record responsesInputItem := mkInputItem {
  ri_Type : string; ri_Role : string; ri_Content : string; ri_CallID : string; ri_Output : string; ri_Name : string
}.

(** [json.Unmarshal] of a text into a string, into input items and into any value;
    [None] is its error. *)
Class ResponsesJson := {
  ParseText : string → option string;
  ParseItems : string → option (list responsesInputItem);
  ParseAny : string → option value
}.

Section input.
Context {fmt : GoFmt} {rjson : ResponsesJson}.

Definition decodeContent (raw : string) : value :=
  if decide (raw = "") then VString "" else default (VString "") (ParseAny raw).

Definition rawToString (raw : string) : string :=
  if decide (raw = "") then ""%string
  else match ParseText raw with
       | Some s => s
       | None => OpenAIAdapter.extractStringContent (decodeContent raw)
       end.

Definition input_message (it : responsesInputItem) : RequestMessage :=
  if decide (ri_Type it = "function_call_output") then mkRequestMessage "tool" (rawToString (ri_Output it)) 0
  else if decide (ri_Type it = "function_call") then mkRequestMessage "assistant" "" 0
  else
    mkRequestMessage (if decide (ri_Role it = "") then "user" else ri_Role it)
      (OpenAIAdapter.extractStringContent (decodeContent (ri_Content it))) 0.

Definition parseResponsesInput (raw : string) : string + list RequestMessage :=
  if decide (raw = "") then inr []
  else
    match ParseText raw with
    | Some s => inr (if decide (s = "") then [] else [mkRequestMessage "user" s 0])
    | None =>
        match ParseItems raw with
        | None => inl "input must be a string or an array of input items"%string
        | Some items => inr (input_message <$> items)
        end
    end.
End input.

(** ** The store *)

Record responseStore := mkResponseStore { st_m : gmap string (list RequestMessage); st_order : list string }.

Definition maxStoredResponses : nat := 1024.

Definition newResponseStore : responseStore := mkResponseStore ∅ [].

Definition get_response (id : string) (s : responseStore) : option (list RequestMessage) := st_m s !! id.

Definition put_response (id : string) (msgs : list RequestMessage) (s : responseStore) : responseStore :=
  if decide (id ∈ dom (st_m s)) then mkResponseStore (<[id := msgs]> (st_m s)) (st_order s)
  else
    let '(m, order) := evict_oldest maxStoredResponses (S (length (st_order s))) (st_m s) (st_order s ++ [id]) in
    mkResponseStore (<[id := msgs]> m) order.

(** ** Responses *)

Definition boolOr (p : option bool) (def : bool) : bool := default def p.
Definition floatOr (p : option float64) (def : float64) : float64 := default def p.
Definition rawOr (raw def : string) : echo := if decide (raw = "") then Default (VString def) else Raw raw.
Definition rawOrJSON (raw : string) (def : value) : echo := if decide (raw = "") then Default def else Raw raw.

Section output.
Context {conv : GoConv} {json : GoJson}.

(** The ids an output draws: of its message, and of each call and its item. *)
Record OutputDraws := mkOutputDraws { dr_message : Z; dr_call : nat → Z; dr_item : nat → Z }.

Definition message_item (draw : Z) (part : content_part) : output_item :=
  MessageItem (mkMessageItem "message" ("msg_" +:+ generateID draw) "completed" "assistant" [part]).

Definition response_call_id (draws : OutputDraws) (results : list ToolCallResult) (i : nat) : string :=
  let drawn := ("call_" +:+ generateID (dr_call draws i))%string in
  match results !! i with
  | Some r => if decide (tcr_ID r = "") then drawn else tcr_ID r
  | None => drawn
  end.

Definition call_item (draws : OutputDraws) (results : list ToolCallResult) (i : nat) (tc : ToolCallSpec) : output_item :=
  FunctionCallItem
    (mkFunctionCallItem "function_call" ("fc_" +:+ generateID (dr_item draws i)) (response_call_id draws results i)
       (tcs_Name tc) (Streaming.args_of tc) "completed").

Definition buildResponsesOutput (draws : OutputDraws) (resp : Response) : list output_item * Z :=
  let '(output, outputTokens) :=
    if decide (re_Refusal resp ≠ "") then
      ([message_item (dr_message draws) (RefusalPart (mkRefusalPart "refusal" (re_Refusal resp)))],
       wrap64 (0 + EstimateTokens (re_Refusal resp)))
    else if decide (re_Content resp ≠ "") then
      ([message_item (dr_message draws) (TextPart (mkOutputText "output_text" (re_Content resp) []))],
       wrap64 (0 + EstimateTokens (re_Content resp)))
    else ([], 0%Z) in
  (output ++ imap (call_item draws (re_ToolResults resp)) (re_ToolCalls resp),
   foldl (λ total tc, wrap64 (total + EstimateTokens (Streaming.args_of tc))) outputTokens (re_ToolCalls resp)).

Definition buildResponsesResponse (created : Z) (draws : OutputDraws) (id : string) (req : ResponsesRequest)
    (resp : Response) (inputTokens : Z) : ResponsesResponse :=
  let '(output, outputTokens) := buildResponsesOutput draws resp in
  let cut := bool_decide (re_FinishReason resp = "length") in
  mkResponsesResponse id "response" created
    (if cut then "incomplete" else "completed")
    VNil (if cut then VObj [("reason", VString "max_output_tokens")] else VNil)%string
    (rq_Instructions req) (rq_MaxOutputTokens req) (re_Model resp) output
    (boolOr (rq_ParallelToolCalls req) true) (rq_PreviousResponseID req)
    (rawOrJSON (rq_Reasoning req) (VObj [("effort", VNil); ("summary", VNil)]%string))
    (boolOr (rq_Store req) true) (floatOr (rq_Temperature req) f64_one)
    (rawOrJSON (rq_Text req) (VObj [("format", VObj [("type", VString "text")])]%string))
    (rawOr (rq_ToolChoice req) "auto") (rq_Tools req) (floatOr (rq_TopP req) f64_one) "disabled"
    (mkResponsesUsage inputTokens 0 outputTokens 0 (wrap64 (inputTokens + outputTokens)))
    (rq_User req) (default [] (rq_Metadata req)).
End output.

(** ** The handler *)

Inductive responses_body :=
| ResponseDocument (out : ResponsesResponse)
| ResponsesError (type message code : string).

Section handler.
Context {mr : MapRange} {heap : Heap AgentDefinition}.
Context {golower : GoLower} {goregexp : ScenarioMatcher.GoRegexp} {gotmpl : GoTemplate}.
Context {fmt : GoFmt} {conv : GoConv} {rand : GoRand} {texts : ErrorTexts}.
Context {rand2 : GoRandV2} {json : GoJson} {rjson : ResponsesJson}.
Context {E : Type} {fl : Faults E}.

Abbreviation stream_state := (@stream_st responses_event rand2).
Abbreviation stream_result := (stream_state * (@StreamError E + unit))%type.
Abbreviation responses_reply := (reply responses_body stream_result).

Record ResponsesHandler := mkResponsesHandler { rh_Engine : Engine; rh_store : responseStore }.

Definition NewResponsesHandler (e : Engine) : ResponsesHandler := mkResponsesHandler e newResponseStore.

Record ResponsesEnv := mkResponsesEnv {
  rs_engine : Env;
  rs_hijack : option net_conn;
  rs_session_draw : Z;
  rs_id_draw : Z;
  rs_created : Z;
  rs_draws : OutputDraws;
  rs_flusher : bool;
  rs_stream : stream_state
}.

Definition responses_error (headers : gmap string string) (status : Z) (type message code : string) : responses_reply :=
  writeJSON headers status (ResponsesError type message code).

Definition refuse_response (status : Z) (message : string) : responses_reply :=
  responses_error ∅ status "invalid_request_error" message "".

Definition responses_chaos (hijack : option net_conn) (ce : ChaosError) : responses_reply :=
  if decide (che_Connection ce ≠ "") then
    match connectionFault hijack (che_Connection ce) with
    | Some ops => Hijacked ops
    | None => responses_error ∅ 502 "server_error" "connection fault could not be delivered" ""
    end
  else
    let headers := match chaosRetryAfter ce with Some ra => <["Retry-After" := ra]> ∅ | None => ∅ end in
    let '(errType, code) := openAIChaosError (che_StatusCode ce) in
    responses_error headers (che_StatusCode ce) errType (che_Message ce) code.

Definition responses_failed (hijack : option net_conn) (err : EngineError) : responses_reply :=
  match err with
  | EnginePanic => Panicked
  | ErrChaos ce => responses_chaos hijack ce
  | err => refuse_response (error_status (error_text err)) (error_text err)
  end.

Definition responses_meta_failed (err : EngineError) (meta : option RequestMeta) : option RequestMeta :=
  match err with EnginePanic => meta | err => set_error (error_text err) meta end.

Definition responsesSessionID (r : HttpRequest) (prev : option string) (draw : Z) : string :=
  let id := get_header r "X-Session-Id" in
  if decide (id ≠ "") then id
  else match prev with
       | Some (String _ _ as prev) => ("resp-thread-" +:+ prev)%string
       | _ => ("sess-" +:+ generateID draw)%string
       end.

(** The messages before the input: the prior turns, or fresh instructions. *)
Definition prior_messages (req : ResponsesRequest) (s : responseStore) : option (list RequestMessage) :=
  match rq_PreviousResponseID req with
  | Some (String _ _ as prev) => get_response prev s
  | _ => Some (match rq_Instructions req with
               | Some (String _ _ as instructions) => [mkRequestMessage "system" instructions 0]
               | _ => []
               end)
  end.

(** The request and its conversation, or the refusal. *)
Definition read_response_request (unmarshal : string → string + ResponsesRequest) (r : HttpRequest) (s : responseStore)
  : responses_reply + ResponsesRequest * list RequestMessage :=
  match decodeJSONBody unmarshal r with
  | inl BodyTooLarge => inl (refuse_response 413 "request body too large")
  | inl (DecodeError err) => inl (refuse_response 400 ("invalid JSON: " +:+ err))
  | inr req =>
      if decide (rq_Model req = "") then inl (refuse_response 400 "model is required")
      else
        match parseResponsesInput (rq_Input req) with
        | inl err => inl (refuse_response 400 err)
        | inr inputMsgs =>
            match prior_messages req s with
            | None => inl (refuse_response 404 ("Previous response with id '" +:+ default ""%string (rq_PreviousResponseID req) +:+ "' not found."))
            | Some prior =>
                let messages := prior ++ inputMsgs in
                if decide (length messages = 0) then inl (refuse_response 400 "input is required and must not be empty")
                else inr (req, messages)
            end
        end
  end.

Definition response_inbound (env : ResponsesEnv) (r : HttpRequest) (req : ResponsesRequest)
    (messages : list RequestMessage) : InboundRequest :=
  mkInboundRequest "" (rq_Model req) (responsesSessionID r (rq_PreviousResponseID req) (rs_session_draw env))
    messages (rq_Stream req).

(** The turn that is stored. *)
Definition stored_turn (messages : list RequestMessage) (resp : Response) : list RequestMessage :=
  messages ++ (if decide (re_Content resp = "") then [] else [mkRequestMessage "assistant" (re_Content resp) 0]).

Definition response_id (env : ResponsesEnv) : string := ("resp_" +:+ generateID (rs_id_draw env))%string.

Definition response_document (env : ResponsesEnv) (req : ResponsesRequest) (messages : list RequestMessage)
    (resp : Response) : ResponsesResponse :=
  buildResponsesResponse (rs_created env) (rs_draws env) (response_id env) req resp (sumMessageTokens messages).

Definition answer_responses (env : ResponsesEnv) (reg : AgentRegistry.AgentRegistry) (tenantID : string)
    (req : ResponsesRequest) (messages : list RequestMessage) (resp : Response) : responses_reply :=
  let out := response_document env req messages resp in
  let headers := setHallucinationHeader resp ∅ in
  if rq_Stream req then
    Streamed headers (streamResponses (rs_flusher env) out (stream_config reg (rq_Model req) tenantID) (rs_stream env))
  else writeJSON headers 200 (ResponseDocument out).

Definition HandleResponses (env : ResponsesEnv) (unmarshal : string → string + ResponsesRequest)
    (r : HttpRequest) (meta : option RequestMeta) (h : ResponsesHandler)
  : ResponsesHandler * option RequestMeta * responses_reply :=
  let meta := set_protocol ProtocolOpenAIResponses meta in
  match read_response_request unmarshal r (rh_store h) with
  | inl refusal => (h, meta, refusal)
  | inr (req, messages) =>
      let inbound := response_inbound env r req messages in
      let meta := set_session (ir_SessionID inbound) meta in
      match ProcessRequestContext (rs_engine env) (hr_tenant r) inbound (rh_Engine h) with
      | (e, inl err) =>
          (mkResponsesHandler e (rh_store h), responses_meta_failed err meta, responses_failed (rs_hijack env) err)
      | (e, inr resp) =>
          (mkResponsesHandler e (put_response (response_id env) (stored_turn messages resp) (rh_store h)),
           set_matched (rq_Model req) resp meta,
           answer_responses env (Registry e) (hr_tenant r) req messages resp)
      end
  end.

(** ** Threads

    What the store is for: the turns that were answered, each with its own input and
    reply only, put together to whole conversations. *)

Record turn := mkTurn {
  tn_id : string;
  tn_prev : option string;          (* the response it continues, *)
  tn_instructions : list RequestMessage;   (* or the instructions it starts with *)
  tn_input : list RequestMessage;
  tn_reply : list RequestMessage
}.

Definition conversations := list (string * list RequestMessage).

Definition continues (prev : option string) : option string :=
  match prev with Some ""%string => None | p => p end.

Definition instructions_of (req : ResponsesRequest) : list RequestMessage :=
  match rq_Instructions req with
  | Some instructions => if decide (instructions = ""%string) then [] else [mkRequestMessage "system" instructions 0]
  | None => []
  end.

(** The turns before an input, among the conversations kept. *)
Definition thread_before (kept : conversations) (prev : option string) (instructions : list RequestMessage)
  : option (list RequestMessage) :=
  match continues prev with Some p => find_kept p kept | None => Some instructions end.

Definition remember_turn (kept : conversations) (t : turn) : conversations :=
  keep maxStoredResponses (tn_id t)
    (default [] (thread_before kept (tn_prev t) (tn_instructions t)) ++ tn_input t ++ tn_reply t) kept.

Definition response_op := (ResponsesEnv * (string → string + ResponsesRequest) * HttpRequest)%type.

(** The turn a request adds, if it is answered: its own input and its reply. *)
Definition turn_of (op : response_op) (h : ResponsesHandler) : option turn :=
  let '(env, unmarshal, r) := op in
  match read_response_request unmarshal r (rh_store h) with
  | inl _ => None
  | inr (req, messages) =>
      match (ProcessRequestContext (rs_engine env) (hr_tenant r) (response_inbound env r req messages) (rh_Engine h)).2 with
      | inl _ => None
      | inr resp => Some (mkTurn (response_id env) (rq_PreviousResponseID req) (instructions_of req)
                            match parseResponsesInput (rq_Input req) with inr input => input | inl _ => [] end
                            (if decide (re_Content resp = "") then [] else [mkRequestMessage "assistant" (re_Content resp) 0]))
      end
  end.

Definition response_step (op : response_op) (h : ResponsesHandler) : ResponsesHandler :=
  let '(env, unmarshal, r) := op in (HandleResponses env unmarshal r None h).1.1.

Fixpoint run_responses (ops : list response_op) (h : ResponsesHandler) : ResponsesHandler * list turn :=
  match ops with
  | [] => (h, [])
  | op :: ops =>
      let '(h', turns) := run_responses ops (response_step op h) in
      (h', match turn_of op h with Some t => [t] | None => [] end ++ turns)
  end.

Definition store_keeps (kept : conversations) (s : responseStore) : Prop :=
  holds maxStoredResponses kept (st_m s) (st_order s).

#[local] Opaque maxStoredResponses.

Lemma store_keeps_put kept s id msgs : store_keeps kept s →
  store_keeps (keep maxStoredResponses id msgs kept) (put_response id msgs s).
Proof.
  intros H. pose proof (holds_keep maxStoredResponses id msgs kept _ _ ltac:(by vm_compute; lia) H) as Hk.
  unfold store_keeps, put_response. destruct (decide (id ∈ dom (st_m s))); [exact Hk|].
  by destruct (evict_oldest _ _ _ _).
Qed.

Lemma prior_thread req s kept : store_keeps kept s →
  prior_messages req s = thread_before kept (rq_PreviousResponseID req) (instructions_of req).
Proof.
  intros H. unfold prior_messages, thread_before, instructions_of.
  destruct (rq_PreviousResponseID req) as [[|c p]|]; [|by apply (holds_lookup _ _ _ _ _ H)|];
    by destruct (rq_Instructions req) as [[|]|].
Qed.

(** A request that is read has the messages of its thread and its input. *)
Lemma read_response_thread unmarshal r s kept req messages : store_keeps kept s →
  read_response_request unmarshal r s = inr (req, messages) →
  ∃ prior input, parseResponsesInput (rq_Input req) = inr input ∧
    thread_before kept (rq_PreviousResponseID req) (instructions_of req) = Some prior ∧ messages = prior ++ input.
Proof.
  intros Hs. unfold read_response_request. destruct (decodeJSONBody unmarshal r) as [[]|req']; try done.
  case_decide; [done|]. destruct (parseResponsesInput (rq_Input req')) as [|input] eqn:Hi; [done|].
  rewrite (prior_thread req' s kept Hs). destruct (thread_before _ _ _) as [prior|] eqn:Hp; [|done].
  case_decide; [done|]. intros [= <- <-]. by exists prior, input.
Qed.

Lemma response_step_keeps op h kept : store_keeps kept (rh_store h) →
  store_keeps (match turn_of op h with Some t => remember_turn kept t | None => kept end) (rh_store (response_step op h)).
Proof.
  intros Hs. destruct op as [[env unmarshal] r]. unfold response_step, turn_of, HandleResponses.
  destruct (read_response_request unmarshal r (rh_store h)) as [refusal|[req messages]] eqn:Hread; [done|].
  destruct (read_response_thread _ _ _ _ _ _ Hs Hread) as (prior & input & Hi & Hp & ->). rewrite Hi.
  destruct (ProcessRequestContext _ _ _ _) as [e [err|resp]]; [done|]. cbn [fst snd rh_store].
  unfold remember_turn. cbn [tn_id tn_prev tn_instructions tn_input tn_reply]. rewrite Hp. cbn [default].
  unfold stored_turn. rewrite <-(assoc_L (++)). by apply store_keeps_put.
Qed.

Lemma run_responses_keeps ops h kept : store_keeps kept (rh_store h) →
  let '(h', turns) := run_responses ops h in store_keeps (foldl remember_turn kept turns) (rh_store h').
Proof.
  revert h kept. induction ops as [|op ops IH]; intros h kept Hs; [done|]. cbn [run_responses].
  pose proof (response_step_keeps op h kept Hs) as Hstep. specialize (IH _ _ Hstep).
  destruct (run_responses ops (response_step op h)) as [h' turns]. rewrite foldl_app.
  by destruct (turn_of op h).
Qed.

(** C5: whatever requests came before, the server remembers the whole conversations of
    the last 1024 responses it answered, put together from the input and the reply of
    each turn alone. A request that names one of them is answered by the engine from
    that conversation and its own input, and becomes a conversation in turn; one that
    names another response is refused with 404 and changes nothing; one that names none
    starts from its instructions. *)
Theorem responses_threads (ops : list response_op) (e : Engine) :
  let '(h, turns) := run_responses ops (NewResponsesHandler e) in
  let kept := foldl remember_turn [] turns in
  length kept ≤ maxStoredResponses ∧ (∀ id, get_response id (rh_store h) = find_kept id kept) ∧
  ∀ env unmarshal r meta req input,
    decodeJSONBody unmarshal r = inr req → rq_Model req ≠ ""%string → parseResponsesInput (rq_Input req) = inr input →
    let '(h', _, answer) := HandleResponses env unmarshal r meta h in
    match thread_before kept (rq_PreviousResponseID req) (instructions_of req) with
    | None => h' = h ∧ ∃ message, answer = refuse_response 404 message
    | Some thread => thread ++ input ≠ [] →
        let '(e', result) := ProcessRequestContext (rs_engine env) (hr_tenant r)
          (response_inbound env r req (thread ++ input)) (rh_Engine h) in
        rh_Engine h' = e' ∧
        match result with
        | inl err => rh_store h' = rh_store h ∧ answer = responses_failed (rs_hijack env) err
        | inr resp =>
            get_response (response_id env) (rh_store h') = Some (stored_turn (thread ++ input) resp) ∧
            answer = answer_responses env (Registry e') (hr_tenant r) req (thread ++ input) resp
        end
    end.
Proof.
  pose proof (run_responses_keeps ops (NewResponsesHandler e) [] (holds_empty _)) as Hs.
  destruct (run_responses ops _) as [h turns]. cbv zeta. set (kept := foldl remember_turn [] turns) in *.
  split; [apply Hs|]. split; [intros id; by apply (holds_lookup _ _ _ _ _ Hs)|].
  intros env unmarshal r meta req input Hreq Hmodel Hinput. unfold HandleResponses, read_response_request.
  rewrite Hreq. rewrite (decide_False (P := rq_Model req = "")) by done. rewrite Hinput, (prior_thread req _ kept Hs).
  destruct (thread_before _ _ _) as [thread|]; [|split; [done|by eexists]].
  destruct (decide (length (thread ++ input) = 0)) as [Hl|Hl].
  { intros Hne. by destruct (thread ++ input). }
  cbv iota beta. destruct (ProcessRequestContext _ _ _ _) as [e' [err|resp]]; [done|].
  intros _. split; [done|]. split; [|done]. cbn [rh_store]. unfold get_response, put_response.
  case_decide; [apply lookup_insert_eq|]. destruct (evict_oldest _ _ _ _). apply lookup_insert_eq.
Qed.

(** ** The same response, streamed or not *)

Definition response_with_stream (b : bool) (req : ResponsesRequest) : ResponsesRequest :=
  mkResponsesRequest (rq_Model req) (rq_Input req) (rq_Instructions req) (rq_Tools req) (rq_ToolChoice req)
    (rq_PreviousResponseID req) b (rq_Temperature req) (rq_TopP req) (rq_MaxOutputTokens req) (rq_Metadata req)
    (rq_Store req) (rq_ParallelToolCalls req) (rq_Text req) (rq_Reasoning req) (rq_User req).

Lemma responses_complete out cfg st : undisturbed → written st = [] →
  ∃ st', streamResponses true out cfg st = (st', inr tt) ∧ written st' = numbered 0 (responses_events out cfg).
Proof.
  intros Hu Hst. destruct (responses_runs out cfg st) as (st' & res & dn & Hrun & Hw & _ & _ & Hall).
  destruct (Hall Hu) as [-> ->]. exists st'. by rewrite Hw, Hst.
Qed.

(** C12: asking for a stream changes the form of the answer only: the engine, the stored
    conversations and the metadata end up the same, refusals and errors are answered
    alike, and a client that reads an undisturbed stream to its end has the very
    response of the document, with the deltas of each of its items. *)
Theorem responses_stream_agree env unmarshal_s unmarshal_j r req meta h :
  decodeJSONBody unmarshal_s r = inr (response_with_stream true req) →
  decodeJSONBody unmarshal_j r = inr (response_with_stream false req) →
  rs_flusher env = true → undisturbed → written (rs_stream env) = [] →
  let '(h1, meta1, streamed) := HandleResponses env unmarshal_s r meta h in
  let '(h2, meta2, document) := HandleResponses env unmarshal_j r meta h in
  h1 = h2 ∧ meta1 = meta2 ∧
  match streamed with
  | Streamed headers (st, res) => res = inr tt ∧ ∃ out, document = writeJSON headers 200 (ResponseDocument out) ∧
      read_responses RStart 0 (written st) = Some (REnd out ((λ item, (item, delta_text item)) <$> rr_Output out))
  | _ => document = streamed
  end.
Proof.
  intros Hs Hj Hfl Hu Hst. unfold HandleResponses, read_response_request. rewrite Hs, Hj.
  unfold response_inbound. cbn [response_with_stream rq_Model rq_Input rq_PreviousResponseID rq_Stream].
  destruct (decide (rq_Model req = "")); [done|]. destruct (parseResponsesInput (rq_Input req)) as [|input]; [done|].
  change (prior_messages (response_with_stream _ req)) with (prior_messages req).
  destruct (prior_messages req (rh_store h)) as [prior|]; [|done].
  destruct (decide (length (prior ++ input) = 0)); [done|].
  cbn [rq_Model rq_PreviousResponseID rq_Stream response_with_stream ir_SessionID].
  rewrite (process_ignores_stream _ _ _ _ _ _ false true).
  destruct (ProcessRequestContext _ _ _ _) as [e' [err|resp]].
  { split_and!; try done. by destruct err as [| |ce| | |]; try done; simpl; unfold responses_chaos; repeat case_match. }
  split; [done|]. split; [done|]. unfold answer_responses. cbn [response_with_stream rq_Stream rq_Model]. rewrite Hfl.
  set (out := response_document env (response_with_stream true req) (prior ++ input) resp).
  change (response_document env (response_with_stream false req) (prior ++ input) resp) with out.
  destruct (responses_complete out (stream_config (Registry e') (rq_Model req) (hr_tenant r)) (rs_stream env) Hu Hst)
    as (st' & -> & Hw).
  split; [done|]. exists out. split; [done|]. rewrite Hw. apply read_responses_complete.
Qed.
End handler.

(** ** Examples *)

#[local] Existing Instance canonical_range.
#[local] Existing Instance ex_heap.
#[local] Existing Instance ascii_go_lower.
#[local] Existing Instance ScenarioMatcher.literal_regexp.
#[local] Existing Instance literal_template.
#[local] Existing Instance plain_fmt.
#[local] Existing Instance amd64_conv.
#[local] Existing Instance half_rand.
#[local] Existing Instance plain_texts.

#[local] Instance ex_rand2 : GoRandV2.
Proof.
  refine {| rng2 := unit; Int64N n g := (0%Z, g); NormFloat64_2 g := (f64_zero, g) |}.
  intros n g Hn. simpl. lia.
Defined.
#[local] Instance ex_gojson : GoJson := λ _, "{}"%string.
#[local] Instance ex_rjson : ResponsesJson := {| ParseText s := Some s; ParseItems _ := None; ParseAny _ := None |}.
#[local] Instance ex_faults : Faults string := λ _, None.

Definition ex_response_request (prev : option string) (store : option bool) (stream : bool) : ResponsesRequest :=
  mkResponsesRequest "gpt-4o" "weather?" (Some "Be kind."%string) [] "" prev stream None None None None store None "" "" None.

Definition ex_response_env (id : Z) : ResponsesEnv :=
  mkResponsesEnv ex_env None 10 id 1000 (mkOutputDraws 1 (λ _, 2) (λ _, 3))%Z true (mkStreamSt 0 [] () ()).

Definition ex_response_http (tenant : string) : HttpRequest := mkHttpRequest "/v1/responses" ∅ "{}" None tenant.

Definition ex_rop (tenant : string) (id : Z) (prev : option string) (store : option bool)
  : response_op := (ex_response_env id, λ _, inr (ex_response_request prev store false), ex_response_http tenant).

(** The whole of the second turn's thread: the instructions, then both inputs, each with
    its reply if that has a text. *)
Example thread_case :
  let '(h, turns) := run_responses [ex_rop "" 7 None None; ex_rop "" 8 (Some "resp_7"%string) None] (NewResponsesHandler ex_engine) in
  tn_id <$> turns = ["resp_7"; "resp_8"]%string ∧
  (rm_Role <$> default [] (get_response "resp_8" (rh_store h))) =
    ["system"; "user"; "assistant"; "user"; "assistant"]%string.
Proof. vm_compute. done. Qed.

(** The store is not divided by tenant: a request of another tenant continues the
    thread; and asking not to be stored does not keep a response out of it. *)
Example threads_cross_tenants :
  let '(h, turns) := run_responses [ex_rop "" 7 None (Some false)] (NewResponsesHandler ex_engine) in
  match read_response_request (E := string) (λ _, inr (ex_response_request (Some "resp_7"%string) None false))
          (ex_response_http "other") (rh_store h) with
  | inr (_, messages) => (rm_Role <$> messages) = ["system"; "user"; "assistant"; "user"]%string
  | inl _ => False
  end.
Proof. vm_compute. done. Qed.

(** The turns of a thread have different sessions: the first one drawn, each later one
    named after the response it continues. *)
Example thread_sessions :
  responsesSessionID (ex_response_http "") None 10 = "sess-a"%string ∧
  responsesSessionID (ex_response_http "") (Some "resp_7"%string) 10 = "resp-thread-resp_7"%string ∧
  responsesSessionID (ex_response_http "") (Some "resp_8"%string) 10 = "resp-thread-resp_8"%string.
Proof. by vm_compute. Qed.

Lemma responses_stream_agree_witness :
  let run b := HandleResponses (fl := ex_faults) (rand2 := ex_rand2) (ex_response_env 7) (λ _, inr (ex_response_request None None b))
    (ex_response_http "") None (NewResponsesHandler ex_engine) in
  (run true).1.1 = (run false).1.1 ∧ (run true).1.2 = (run false).1.2.
Proof.
  cbv zeta beta.
  pose proof (responses_stream_agree (fl := ex_faults) (rand2 := ex_rand2) (ex_response_env 7) (λ _, inr (ex_response_request None None true))
    (λ _, inr (ex_response_request None None false)) (ex_response_http "") (ex_response_request None None true) None
    (NewResponsesHandler ex_engine) eq_refl eq_refl eq_refl (λ _, eq_refl) eq_refl) as H.
  destruct (HandleResponses _ (λ _, inr (ex_response_request None None true)) _ _ _) as [[h1 m1] a1].
  destruct (HandleResponses _ (λ _, inr (ex_response_request None None false)) _ _ _) as [[h2 m2] a2].
  destruct H as (Hh & Hm & _). by split.
Defined.
